(* ===== verification/_CoqProject ===== *)
-Q . S2P
Prelude.v
Bytes.v
Keccak.v
Varint.v
Primes.v
AbGroup.v
EdwardsLaw.v
Edwards.v
Loads.v
FieldElt.v
FieldBytes.v
Scalar.v
ScalarValues.v
ScalarCorrect.v
Ge.v
GeCorrect.v
GeBytes.v
Digits.v
GeScalar.v
BaseTable.v
BaseCheck.v
HashToPoint.v
CurveOrder.v
Crypto.v
CryptoCorrect.v
FieldSpec.v
CurveSpec.v
CryptoSpec.v
TreeHash.v
HashSpec.v
IntUtil.v
Aes.v
Blake256.v
Groestl.v
Jh.v
Skein.v
SlowHash.v
Difficulty.v
Base58.v
Currency.v
DepositIndex.v
StringTools.v
Serialization.v
Checkpoints.v
BlockIndex.v
TxStore.v
Ledger.v
BlockchainIndices.v
UpgradeDetector.v
TxCheck.v
Blockchain.v
BlockFormat.v
Binding.v
TransactionExtra.v
TransfersContainer.v
TransfersInvariant.v
TransfersSteps.v
TransfersOps.v
TransfersAdd.v
TransfersFormat.v
TransfersConsumer.v
TransfersScan.v
ChainInvariant.v
Rebuild.v
Commit.v
TransactionPool.v
PoolInvariant.v
PoolTemplate.v
Node.v
AltChain.v
AltInvariant.v
BlockSpec.v
FormatSpec.v
PoolSpec.v
NodeSpec.v
ChainSpec.v
TransfersSpec.v
TransfersReload.v
TransfersScanSpec.v
SlowHashSpec.v
