(* ===== verification/Prelude.v ===== *)
(** * Verification of a CryptoNote node

    The program is a coin of the CryptoNote family: src/cryptonote/src holds the
    cryptography (crypto/), helpers (Common/, Serialization/), the node
    (CryptoNoteCore/) and the part of a wallet that follows the chain (Transfers/).
    This development models the core of the node from the field arithmetic up to the
    choice between branches, and the outputs of an account, function by function, and
    proves what the layers promise to each other.

    ** The parts and how they interact

    A block arrives at [Blockchain::addNewBlock].  If it extends the tail of the main
    chain, [pushBlock] takes its transactions out of the pool, checks the header
    (version, timestamp, difficulty, proof of work, checkpoints), each transaction
    against the indices of spent key images and outputs, and the reward, and then
    updates the indices; [popBlock] undoes that.  Otherwise the block goes to the
    alternative chains, and when its branch has more work the node switches to it.
    The pool keeps transactions that the chain validates, and makes block templates.
    Hashes come from the binary form of blocks and transactions, signatures from the
    curve arithmetic.  A wallet gives the blocks it hears of to a [TransfersConsumer],
    which looks for outputs whose keys belong to its accounts and hands them to the
    [TransfersContainer] of each account; that keeps the received and spent outputs
    through confirmations and reorganisations, and answers what the balance is.

    ** Files

    Cryptography:
    - Prelude.v, Bytes.v: options as computations that may fail, integers of fixed
      width, lists, little-endian bytes, shared tactics and hint databases.
    - Keccak.v (crypto/keccak.c, hash.c, random.c), Varint.v (Common/Varint.h,
      StreamTools.cpp), TreeHash.v (tree-hash.c).
    - Aes.v (aesb.h, the key expansions of oaes_lib.c and slow-hash.c), Blake256.v,
      Groestl.v, Jh.v, Skein.v (the hash functions of those names), SlowHash.v
      (slow-hash.c, slow-hash.inl): the proof of work.  Each holds the definition of
      the standard beside the code.
    - Loads.v, FieldElt.v, FieldBytes.v ([fe_*]), Scalar.v, ScalarValues.v,
      ScalarCorrect.v ([sc_*]), Ge.v, GeCorrect.v, GeBytes.v, Digits.v, GeScalar.v
      ([ge_*]), HashToPoint.v: crypto-ops.c; BaseTable.v, BaseCheck.v:
      crypto-ops-data.c and multiples of the base point.
    - Primes.v, AbGroup.v, EdwardsLaw.v, Edwards.v, CurveOrder.v: the mathematics
      they are compared with: the prime, the group law, the orders.
    - Crypto.v, CryptoCorrect.v: every function of crypto.cpp.
    Consensus rules:
    - IntUtil.v (int-util.h, words in memory), Difficulty.v, Base58.v, Currency.v, DepositIndex.v,
      StringTools.v, Checkpoints.v, BlockIndex.v: the files of those names.
    - TxStore.v: [pushTransaction] and [popTransaction] of Blockchain.cpp over the
      indices of the chain (record [store]); Ledger.v: the ledger of all transactions
      of the chain, the specification that the indices refine.
    - BlockchainIndices.v, UpgradeDetector.v, TxCheck.v (checks of transactions in
      Core.cpp, CryptoNoteFormatUtils.cpp and Blockchain.cpp).
    - Blockchain.v: record [chain], [pushBlock], [popBlock]; ChainInvariant.v: its
      invariant, the reachable states [chain_run]; Rebuild.v: [rebuildCache] and
      [loadBlockchainIndices].
    - Serialization.v (Serialization/), BlockFormat.v (CryptoNoteSerialization.cpp,
      CryptoNoteTools.h, CryptoNoteFormatUtils.cpp), TransactionExtra.v: the binary
      form; Binding.v, Commit.v: what hashes commit to, and the chain over this form.
    - TransactionPool.v: record [pool], TransactionPool.cpp with the chain as its
      validator; PoolInvariant.v, PoolTemplate.v: its invariant and block templates.
    - Node.v: [pushBlock] and [popBlock] with the pool, [Blockchain::init];
      AltChain.v: record [node], [addNewBlock], [handle_alternative_block],
      [switch_to_alternative_blockchain]; AltInvariant.v: what they do to the chain.
    Accounts:
    - TransfersContainer.v: record [container], TransfersContainer.cpp; every
      operation is a computation in a monad [M] with the outcomes abort, exception
      (with the state it leaves) and result.  TransfersInvariant.v: the abstract
      content of an account and what it means that a container represents it;
      TransfersSteps.v, TransfersOps.v, TransfersAdd.v: what the operations do to that
      content.
    - TransfersFormat.v: [save] and [load] over the serializers of Serialization.v.
    - TransfersConsumer.v: TransfersConsumer.cpp and TransfersSubscription.cpp, from
      [checkOutputKey] to [onNewBlocks]; TransfersScan.v: what the scanner finds,
      in terms of the one-time keys of Crypto.v.
    Theorems: FieldSpec.v, CurveSpec.v, CryptoSpec.v, HashSpec.v, SlowHashSpec.v, ChainSpec.v,
    BlockSpec.v, FormatSpec.v, PoolSpec.v, NodeSpec.v, TransfersSpec.v,
    TransfersReload.v, TransfersScanSpec.v state what the parts promise, each with a
    run on concrete data where it has hypotheses.

    Interfaces are classes: [FastHash] and [RandomSource] (Crypto.v) for what
    crypto.cpp uses, [CryptoChecks] (TxCheck.v) for what the chain uses of crypto.cpp,
    [Codec] (Blockchain.v) for hashes and sizes, [ITransactionValidator]
    (TransactionPool.v) for what the pool asks the chain, [Build] (SlowHash.v) for what
    differs between the builds of the slow hash.  [keccak_hash], [crypto_checks],
    [binary_codec], [chain_validator], [aesni_build] and [noaesni_build] are the
    instances that the code itself makes.

    ** What the theorems show

    - CryptoSpec, CurveSpec, FieldSpec: limb arithmetic computes in the
      field and the group without overflow; signatures and ring signatures that are
      made are accepted, and what is accepted is characterised by its equation; one
      output can have several accepted key images when challenges are multiples of 8.
    - HashSpec: Keccak is that of FIPS 202, the tree hash is the Merkle root, branches
      prove leaves, varints are canonical, the random generator keeps its state.
    - SlowHashSpec: every build of the slow hash computes CryptoNight as it is defined
      over FIPS 202, FIPS 197 and the padded messages of the four finishing functions,
      and these pad, count and chain as their definitions say.
    - ChainSpec: rewards, interest, difficulty, the test of the proof of work, base 58,
      and the deposit index as a refinement of a log of blocks.
    - BlockSpec: the indices of every reachable chain are those of its ledger, no key
      image is spent twice, popping undoes pushing, rejected blocks change nothing
      (but for a block that is too big, whose transactions cannot come into the chain
      afterwards), accepted blocks obey the rules.
    - FormatSpec: objects and their binary forms correspond one to one; equal block
      hashes mean equal blocks, and equal tails equal chains, unless the fast hash
      collides on two of the strings that were hashed for them.
    - PoolSpec: the indices of the pool, adding and taking, expiry, templates that are
      free of conflicts among themselves and with the chain, and as full as allowed.
    - NodeSpec: blocks and the pool together, restarting on stored blocks, which
      blocks change the main chain (by the work of their branch over the block at which
      it leaves the main chain), and what a switch leaves.
    - TransfersSpec: a container represents the content of its account in every state
      that operations which return lead to; what adding, confirming and detaching do,
      and that adding and detaching cancel; no key image counts twice in a balance;
      which outputs are reported as unlocked.
    - TransfersReload: saving and loading keep the content and the balances, but not
      the order of the transactions within a block.
    - TransfersScanSpec: the outputs that a sender makes for an address arrive in the
      container of the account, from the bytes of the curve points up; and transactions
      that the scanner does not survive.

    ** Conventions, bounds and fuel

    - Integers are in Z with the width written out: [wrap] for unsigned arithmetic,
      [u64] and [u32] for its common cases; signed overflow is [None] in the field and
      scalar code, except for left shifts, which wrap as the compilers in use do.
      Memory is little-endian.
    - [None] is an abort: a failed assertion (assertions are enabled), an uncaught
      exception, an access out of range.  Errors that the code reports are values.
    - Hash tables are finite maps and sets, multimaps multisets or lists; their
      deleted and empty keys are not modelled.  Locks, log messages and observers are
      left out; an operation runs to its end.
    - Time, the bytes of the system's entropy, the slow hash where the chain uses
      it and the parameters of the currency are arguments.  The contents of local
      variables before they are set are arguments too.  The time to live in the pool is
      an argument too; TransactionExtra.v has the function that computes it.
    - Fuel: loops over lists are structural.  A search or loop with another measure has
      fuel that is proved to be enough: ten bytes for a varint, the number of blocks
      for disconnecting, the number of bytes for the extra field, the number of
      entries for a branch of alternative blocks.  The fuel of
      [handle_alternative_block] bounds how deep switches nest; the theorems about it
      hold for every fuel with which it returns.

    ** Not modelled

    The parts of oaes_lib.c and skein.c that nothing calls; the files behind the chain
    and the caches of the indices; storing the pool; the encryption of messages; queries of Blockchain.cpp and Core.cpp for the protocol and the RPC
    server, which only read the state.  Network, the wallets over the containers,
    payment gate and graphical interface are services around the node: threads,
    sockets, files and callbacks, with little state that is not in the parts above.
    Open: that filing the blocks of the old chain after a switch never starts another
    switch, for which the work of alternative blocks has to be related to that of the
    main chain; the theorem about switches states this case as its exception.  The
    containers that an exception or [load] leaves are outside the theorems about
    containers. *)

From Stdlib Require Import ZArith Lia List Bool Zpow_facts Setoid Morphisms.
Import ListNotations.
#[global] Open Scope Z_scope.
Set Default Goal Selector "!".
#[global] Arguments Z.add : simpl never.
#[global] Arguments Z.sub : simpl never.
#[global] Arguments Z.mul : simpl never.
#[global] Arguments Z.opp : simpl never.
#[global] Arguments Z.pow : simpl never.
#[global] Arguments Z.shiftl : simpl never.
#[global] Arguments Z.shiftr : simpl never.
#[global] Arguments Z.land : simpl never.
#[global] Arguments Z.lor : simpl never.
#[global] Arguments Z.lxor : simpl never.
#[global] Arguments Z.div : simpl never.
#[global] Arguments Z.modulo : simpl never.
#[global] Arguments Z.log2 : simpl never.

(** ** Sequencing of computations that may be undefined *)

Definition obind {A B} (m : option A) (k : A -> option B) : option B :=
  match m with Some a => k a | None => None end.

(** [assert(b)]: a failed assertion ends the program. *)
Definition c_assert (b : bool) : option unit := if b then Some tt else None.

Declare Scope cmon_scope.
Delimit Scope cmon_scope with cmon.
Notation "x <- m ;; k" := (obind m (fun x => k))
  (at level 100, m at next level, right associativity) : cmon_scope.
Notation "' p <- m ;; k" := (obind m (fun x => match x with p => k end))
  (at level 100, p pattern, m at next level, right associativity) : cmon_scope.
#[global] Open Scope cmon_scope.

Lemma obind_Some {A B} (m : option A) (k : A -> option B) b :
  obind m k = Some b -> exists a, m = Some a /\ k a = Some b.
Proof. destruct m; simpl; [eauto|discriminate]. Qed.

(** [run H]: split a successful sequence of computations into its steps. *)
Ltac run_step H :=
  lazymatch type of H with
  | obind _ _ = Some _ =>
      let a := fresh "v" in let E := fresh "E" in
      apply obind_Some in H; destruct H as (a & E & H)
  end.

(** ** Fixed-width integer types *)

Record ity := mk_ity { i_min : Z; i_max : Z }.
Definition I32 := mk_ity (- 2 ^ 31) (2 ^ 31 - 1).
Definition I64 := mk_ity (- 2 ^ 63) (2 ^ 63 - 1).
Definition U8 := mk_ity 0 (2 ^ 8 - 1).
Definition I8 := mk_ity (- 2 ^ 7) (2 ^ 7 - 1).
Definition U32 := mk_ity 0 (2 ^ 32 - 1).
Definition U64 := mk_ity 0 (2 ^ 64 - 1).

Definition in_ity (t : ity) (z : Z) : bool := (i_min t <=? z) && (z <=? i_max t).
Definition is_signed (t : ity) : bool := i_min t <? 0.

(** Conversion to a type: reduction modulo its number of values. *)
Definition wrap (t : ity) (z : Z) : Z :=
  i_min t + (z - i_min t) mod (i_max t - i_min t + 1).

(** The value of an arithmetic operation at a type: signed overflow is
    undefined behaviour ([None]), unsigned arithmetic wraps around. *)
Definition arith (t : ity) (z : Z) : option Z :=
  if is_signed t then (if in_ity t z then Some z else None) else Some (wrap t z).

Lemma in_ity_spec t z : in_ity t z = true <-> i_min t <= z <= i_max t.
Proof. unfold in_ity. rewrite andb_true_iff, !Z.leb_le. lia. Qed.

Lemma wrap_id t z : in_ity t z = true -> wrap t z = z.
Proof.
  intros H%in_ity_spec. unfold wrap. rewrite Z.mod_small by lia. lia.
Qed.

Lemma wrap_range t z : i_min t <= i_max t -> i_min t <= wrap t z <= i_max t.
Proof.
  intros H. unfold wrap.
  pose proof (Z.mod_pos_bound (z - i_min t) (i_max t - i_min t + 1)). lia.
Qed.

Lemma arith_in t z : in_ity t z = true -> arith t z = Some z.
Proof.
  intros H. unfold arith. rewrite H, wrap_id by assumption. destruct is_signed; reflexivity.
Qed.

Lemma arith_signed t z v : is_signed t = true -> arith t z = Some v -> v = z /\ in_ity t z = true.
Proof.
  unfold arith. intros ->. destruct in_ity; [intros [= <-]; auto|discriminate].
Qed.

(** ** The meaning of C arithmetic, abstracted

    Straight-line integer code is written once over [CSem] and run at two
    instances: [cmach], the machine integers, and [citv], intervals.  The
    relation [irel] between them is preserved by every operation, so that a
    run on intervals, which evaluates, bounds every run on machine integers
    and shows it free of undefined behaviour. *)

Class CSem := {
  val : Type;
  v_lit : Z -> val;
  v_add : ity -> val -> val -> option val;
  v_sub : ity -> val -> val -> option val;
  v_mul : ity -> val -> val -> option val;
  v_shl : ity -> val -> Z -> option val;
  v_shr : val -> Z -> option val;
  v_and : val -> val -> option val;
  v_or : val -> val -> option val;
  v_cast : ity -> val -> option val;
  (** [c = (h + r) >> k; h -= c << k;], giving the pair of [c] and the new [h] *)
  v_carry : ity -> val -> Z -> Z -> option (val * val)
}.

Definition cexp (C : CSem) : Type := option (@val C).
Definition vret {C : CSem} (v : val) : cexp C := Some v.
Coercion vret : val >-> cexp.

Definition e_lit {C : CSem} (z : Z) : cexp C := Some (v_lit z).
Definition e_op2 {C : CSem} (f : val -> val -> option val) (a b : cexp C) : cexp C :=
  x <- a ;; y <- b ;; f x y.
Definition e_shl {C : CSem} (t : ity) (a : cexp C) (k : Z) : cexp C := x <- a ;; v_shl t x k.
Definition e_shr {C : CSem} (a : cexp C) (k : Z) : cexp C := x <- a ;; v_shr x k.
Definition e_cast {C : CSem} (t : ity) (a : cexp C) : cexp C := x <- a ;; v_cast t x.
Definition e_carry {C : CSem} (t : ity) (a : cexp C) (r k : Z) : option (val * val) :=
  x <- a ;; v_carry t x r k.

Declare Scope i64_scope.
Delimit Scope i64_scope with i64.
Notation "# n" := (e_lit n%Z) (at level 1, n at level 0) : i64_scope.
Notation "a + b" := (e_op2 (v_add I64) a b) : i64_scope.
Notation "a - b" := (e_op2 (v_sub I64) a b) : i64_scope.
Notation "a * b" := (e_op2 (v_mul I64) a b) : i64_scope.
Notation "- a" := (e_op2 (v_sub I64) (e_lit 0) a) : i64_scope.
Notation "a << k" := (e_shl I64 a k%Z) (at level 30, no associativity) : i64_scope.
Notation "a >> k" := (e_shr a k%Z) (at level 30, no associativity) : i64_scope.
Notation "a & b" := (e_op2 v_and a b) (at level 55) : i64_scope.
Notation "a '||' b" := (e_op2 v_or a b) : i64_scope.

Declare Scope i32_scope.
Delimit Scope i32_scope with i32.
Notation "# n" := (e_lit n%Z) (at level 1, n at level 0) : i32_scope.
Notation "a + b" := (e_op2 (v_add I32) a b) : i32_scope.
Notation "a - b" := (e_op2 (v_sub I32) a b) : i32_scope.
Notation "a * b" := (e_op2 (v_mul I32) a b) : i32_scope.
Notation "- a" := (e_op2 (v_sub I32) (e_lit 0) a) : i32_scope.
Notation "a << k" := (e_shl I32 a k%Z) (at level 30, no associativity) : i32_scope.
Notation "a >> k" := (e_shr a k%Z) (at level 30, no associativity) : i32_scope.
Notation "a & b" := (e_op2 v_and a b) (at level 55) : i32_scope.
Notation "a '||' b" := (e_op2 v_or a b) : i32_scope.

Declare Scope u64_scope.
Delimit Scope u64_scope with u64.
Notation "# n" := (e_lit n%Z) (at level 1, n at level 0) : u64_scope.
Notation "a << k" := (e_shl U64 a k%Z) (at level 30, no associativity) : u64_scope.
Notation "a >> k" := (e_shr a k%Z) (at level 30, no associativity) : u64_scope.
Notation "a & b" := (e_op2 v_and a b) (at level 55) : u64_scope.
Notation "a '||' b" := (e_op2 v_or a b) : u64_scope.

(** Machine integers. Right shifts are arithmetic and a left shift keeps the low
    bits, also where C leaves a signed shift undefined: this is how the compilers
    of the code define them.  Other signed overflow is a failure.  The conversion of a value to a signed type that cannot represent it, which is
    implementation-defined, counts as a failure; to an unsigned type it wraps. *)
#[refine, export] Instance cmach : CSem := {
  val := Z;
  v_lit z := z;
  v_add t a b := arith t (a + b);
  v_sub t a b := arith t (a - b);
  v_mul t a b := arith t (a * b);
  v_shl t a k := Some (wrap t (Z.shiftl a k));
  v_shr a k := Some (Z.shiftr a k);
  v_and a b := Some (Z.land a b);
  v_or a b := Some (Z.lor a b);
  v_cast t a := arith t a;
  v_carry t h r k :=
    s <- arith t (h + r) ;; let c := Z.shiftr s k in
    d <- arith t (Z.shiftl c k) ;; h' <- arith t (h - d) ;; Some (c, h')
}. Defined.

(** Intervals. *)
Definition itv : Type := (Z * Z)%type.
Definition in_itv (z : Z) (i : itv) : Prop := fst i <= z <= snd i.
Definition ichk (t : ity) (i : itv) : option itv :=
  if (i_min t <=? fst i) && (snd i <=? i_max t) then Some i else None.
Definition ineg (i : itv) : bool := fst i <? 0.
Definition iabs (i : itv) : Z := Z.max (Z.abs (fst i)) (Z.abs (snd i)).
Definition imul (i j : itv) : itv :=
  let '(a, b) := i in let '(c, d) := j in
  (Z.min (Z.min (a * c) (a * d)) (Z.min (b * c) (b * d)),
   Z.max (Z.max (a * c) (a * d)) (Z.max (b * c) (b * d))).

#[refine, export] Instance citv : CSem := {
  val := itv;
  v_lit z := (z, z);
  v_add t i j := ichk t (fst i + fst j, snd i + snd j);
  v_sub t i j := ichk t (fst i - snd j, snd i - fst j);
  v_mul t i j := ichk t (imul i j);
  v_shl t i k := if k <? 0 then None else
                 match ichk t (fst i * 2 ^ k, snd i * 2 ^ k) with
                 | Some j => Some j
                 | None => if i_min t <=? i_max t then Some (i_min t, i_max t) else None
                 end;
  v_shr i k := if k <? 0 then None else Some (Z.shiftr (fst i) k, Z.shiftr (snd i) k);
  v_and i j := if ineg i || ineg j then None else Some (0, Z.min (snd i) (snd j));
  v_or i j :=
    let k := 1 + Z.log2 (Z.max 1 (Z.max (iabs i) (iabs j))) in
    if ineg i || ineg j then Some (- 2 ^ k, 2 ^ k - 1) else Some (0, 2 ^ k - 1);
  v_cast t i := match ichk t i with
                | Some j => Some j
                | None => if is_signed t then None else Some (i_min t, i_max t)
                end;
  v_carry t i r k :=
    if (k <? 0) || (r <? 0) || (2 ^ k <=? r) then None else
    s <- ichk t (fst i + r, snd i + r) ;;
    let c := (Z.shiftr (fst s) k, Z.shiftr (snd s) k) in
    d <- ichk t (fst c * 2 ^ k, snd c * 2 ^ k) ;;
    h' <- ichk t (- r, 2 ^ k - r - 1) ;;
    Some (c, if fst c =? snd c then (fst i - fst c * 2 ^ k, snd i - fst c * 2 ^ k) else h')
}. Defined.

(** ** Soundness of the interval semantics *)

(** [orel R m i]: if the abstract run [i] succeeds, so does the concrete run
    [m], with related results. *)
Definition orel {A B} (R : A -> B -> Prop) (m : option A) (i : option B) : Prop :=
  match i with None => True | Some b => exists a, m = Some a /\ R a b end.

Definition irel : @val cmach -> @val citv -> Prop := in_itv.
Abbreviation erel := (@orel (@val cmach) (@val citv) irel) (only parsing).

Lemma orel_bind {A A' B B'} (R : A -> A' -> Prop) (S : B -> B' -> Prop) m m' k k' :
  orel R m m' -> (forall a a', R a a' -> orel S (k a) (k' a')) ->
  orel S (obind m k) (obind m' k').
Proof.
  intros Hm Hk. destruct m' as [a'|]; simpl in *; [|exact I].
  destruct Hm as (a & -> & Ha). apply Hk, Ha.
Qed.

Lemma orel_ret {A A'} (R : A -> A' -> Prop) a a' : R a a' -> orel R (Some a) (Some a').
Proof. simpl. eauto. Qed.

Lemma arith_rel t z i : irel z i -> orel irel (arith t z) (ichk t i).
Proof.
  unfold ichk. destruct andb eqn:E; simpl; [|trivial]. intros H.
  apply andb_true_iff in E as [E1%Z.leb_le E2%Z.leb_le]. destruct H as [H1 H2].
  exists z. split; [|split; assumption].
  apply arith_in, in_ity_spec. lia.
Qed.

Lemma v_lit_rel z : irel (v_lit z) (v_lit z).
Proof. split; simpl; lia. Qed.

Lemma v_add_rel t (a b : Z) (i j : itv) : irel a i -> irel b j -> orel irel (@v_add cmach t a b) (@v_add citv t i j).
Proof. intros [] []. apply arith_rel. split; simpl; lia. Qed.

Lemma v_sub_rel t (a b : Z) (i j : itv) : irel a i -> irel b j -> orel irel (@v_sub cmach t a b) (@v_sub citv t i j).
Proof. intros [] []. apply arith_rel. split; simpl; lia. Qed.

Lemma mul_between x a y b : x <= a <= y ->
  Z.min (x * b) (y * b) <= a * b <= Z.max (x * b) (y * b).
Proof.
  intros [H1 H2]. destruct (Z.le_gt_cases 0 b).
  - pose proof (Z.mul_le_mono_nonneg_r x a b). pose proof (Z.mul_le_mono_nonneg_r a y b). lia.
  - pose proof (Z.mul_le_mono_nonpos_r x a b). pose proof (Z.mul_le_mono_nonpos_r a y b). lia.
Qed.

Lemma imul_sound a b i j : in_itv a i -> in_itv b j -> in_itv (a * b) (imul i j).
Proof.
  destruct i as [x y], j as [z w]. unfold in_itv; simpl. intros Ha Hb.
  pose proof (mul_between x a y b Ha). pose proof (mul_between z b w x Hb).
  pose proof (mul_between z b w y Hb). rewrite (Z.mul_comm b x), (Z.mul_comm b y) in *.
  rewrite (Z.mul_comm z x), (Z.mul_comm z y), (Z.mul_comm w x), (Z.mul_comm w y) in *. lia.
Qed.

Lemma v_mul_rel t (a b : Z) (i j : itv) : irel a i -> irel b j -> orel irel (@v_mul cmach t a b) (@v_mul citv t i j).
Proof. intros Ha Hb. apply arith_rel, imul_sound; assumption. Qed.

Lemma shiftl_itv a i k : 0 <= k -> in_itv a i ->
  in_itv (Z.shiftl a k) (fst i * 2 ^ k, snd i * 2 ^ k).
Proof.
  intros Hk []. rewrite Z.shiftl_mul_pow2 by lia.
  pose proof (Z.pow_pos_nonneg 2 k). split; simpl; nia.
Qed.

Lemma shiftr_itv a i k : 0 <= k -> in_itv a i ->
  in_itv (Z.shiftr a k) (Z.shiftr (fst i) k, Z.shiftr (snd i) k).
Proof.
  intros Hk []. rewrite !Z.shiftr_div_pow2 by lia.
  pose proof (Z.pow_pos_nonneg 2 k). split; simpl; apply Z.div_le_mono; lia.
Qed.

Lemma v_shl_rel t (a : Z) (i : itv) k : irel a i ->
  orel irel (@v_shl cmach t a k) (@v_shl citv t i k).
Proof.
  intros Ha. cbn [v_shl cmach citv]. destruct (Z.ltb_spec k 0); [exact I|].
  pose proof (shiftl_itv a i k ltac:(lia) Ha) as H1.
  unfold ichk. destruct (_ && _)%bool eqn:E.
  - apply orel_ret. apply andb_true_iff in E as [E1%Z.leb_le E2%Z.leb_le].
    destruct H1. rewrite wrap_id by (apply in_ity_spec; simpl in *; lia). split; assumption.
  - destruct (Z.leb_spec (i_min t) (i_max t)); [|exact I]. apply orel_ret, wrap_range. assumption.
Qed.

Lemma v_shr_rel (a : Z) (i : itv) k : irel a i -> orel irel (@v_shr cmach a k) (@v_shr citv i k).
Proof.
  intros Ha. simpl. destruct (Z.ltb_spec k 0); [exact I|].
  apply orel_ret, shiftr_itv; assumption.
Qed.

Lemma land_le_l a b : 0 <= a -> 0 <= b -> 0 <= Z.land a b <= a.
Proof.
  intros Ha Hb. split; [apply Z.land_nonneg; lia|].
  assert (Z.land (Z.land a b) (Z.ldiff a b) = 0) as H.
  { apply Z.bits_inj'; intros n Hn. rewrite !Z.land_spec, Z.ldiff_spec, Z.bits_0.
    destruct (Z.testbit a n), (Z.testbit b n); reflexivity. }
  pose proof (Z.add_nocarry_lxor _ _ H) as E.
  assert (Z.lxor (Z.land a b) (Z.ldiff a b) = a) as E2.
  { apply Z.bits_inj'; intros n Hn. rewrite Z.lxor_spec, Z.land_spec, Z.ldiff_spec.
    destruct (Z.testbit a n), (Z.testbit b n); reflexivity. }
  assert (0 <= Z.ldiff a b) by (apply Z.ldiff_nonneg; lia). lia.
Qed.

Lemma v_and_rel (a b : Z) (i j : itv) : irel a i -> irel b j -> orel irel (@v_and cmach a b) (@v_and citv i j).
Proof.
  intros [H1 H2] [H3 H4]. simpl. unfold ineg.
  destruct (Z.ltb_spec (fst i) 0), (Z.ltb_spec (fst j) 0); simpl; try exact I.
  eexists; split; [reflexivity|]. simpl in *.
  pose proof (land_le_l a b). pose proof (land_le_l b a).
  rewrite (Z.land_comm b a) in *. split; simpl; lia.
Qed.

Lemma pow2_range_shiftr z k : 0 <= k -> - 2 ^ k <= z < 2 ^ k <-> (Z.shiftr z k = 0 \/ Z.shiftr z k = -1).
Proof.
  intros Hk. rewrite Z.shiftr_div_pow2 by lia. pose proof (Z.pow_pos_nonneg 2 k ltac:(lia) Hk).
  pose proof (Z.div_mod z (2 ^ k) ltac:(lia)). pose proof (Z.mod_pos_bound z (2 ^ k) ltac:(lia)).
  split; [|intros [E|E]; rewrite E in *; lia].
  intros Hz. assert (-1 <= z / 2 ^ k < 1); [|lia]. split.
  - apply Z.div_le_lower_bound; lia.
  - apply Z.div_lt_upper_bound; lia.
Qed.

Lemma lor_range a b k : 0 <= k -> - 2 ^ k <= a < 2 ^ k -> - 2 ^ k <= b < 2 ^ k ->
  - 2 ^ k <= Z.lor a b < 2 ^ k.
Proof.
  intros Hk Ha%(pow2_range_shiftr _ _ Hk) Hb%(pow2_range_shiftr _ _ Hk).
  apply (pow2_range_shiftr _ _ Hk). rewrite Z.shiftr_lor.
  destruct Ha as [-> | ->], Hb as [-> | ->]; auto.
Qed.

Lemma v_or_rel (a b : Z) (i j : itv) : irel a i -> irel b j ->
  orel irel (@v_or cmach a b) (@v_or citv i j).
Proof.
  intros [H1 H2] [H3 H4]. cbn [v_or cmach citv].
  set (m := Z.max 1 (Z.max (iabs i) (iabs j))).
  assert (iabs i <= m /\ iabs j <= m /\ 1 <= m) as (? & ? & ?) by (unfold m; lia). clearbody m.
  unfold iabs in *. pose proof (Z.log2_spec m ltac:(lia)). pose proof (Z.log2_nonneg m).
  replace (1 + Z.log2 m) with (Z.succ (Z.log2 m)) by lia.
  pose proof (lor_range a b (Z.succ (Z.log2 m)) ltac:(lia) ltac:(lia) ltac:(lia)).
  unfold ineg. destruct (Z.ltb_spec (fst i) 0), (Z.ltb_spec (fst j) 0); cbn [orb];
    apply orel_ret; try (split; cbn [fst snd]; lia).
  assert (0 <= Z.lor a b) by (apply Z.lor_nonneg; lia). split; cbn [fst snd]; lia.
Qed.

(** The types used here are non-empty. *)
Lemma v_cast_rel t (a : Z) (i : itv) : i_min t <= i_max t -> irel a i ->
  orel irel (@v_cast cmach t a) (@v_cast citv t i).
Proof.
  intros Ht Ha. pose proof (arith_rel t a i Ha) as H. cbn [v_cast cmach citv].
  destruct (ichk t i); [exact H|]. unfold arith.
  destruct (is_signed t); [exact I|]. apply orel_ret, wrap_range, Ht.
Qed.

Lemma carry_remainder h r k : 0 <= k -> 0 <= r < 2 ^ k ->
  - r <= h - Z.shiftl (Z.shiftr (h + r) k) k <= 2 ^ k - r - 1.
Proof.
  intros Hk Hr. rewrite Z.shiftr_div_pow2, Z.shiftl_mul_pow2 by lia.
  pose proof (Z.div_mod (h + r) (2 ^ k)). pose proof (Z.mod_pos_bound (h + r) (2 ^ k)). lia.
Qed.

Definition prel {A A' B B'} (R : A -> A' -> Prop) (S : B -> B' -> Prop) (x : A * B) (y : A' * B') :=
  R (fst x) (fst y) /\ S (snd x) (snd y).

Lemma arith_ichk t z i j : in_itv z i -> ichk t i = Some j -> j = i /\ arith t z = Some z.
Proof.
  unfold ichk. destruct andb eqn:E; [|discriminate]. intros [H1 H2] [= <-].
  apply andb_true_iff in E as [E1%Z.leb_le E2%Z.leb_le].
  split; [reflexivity|]. apply arith_in, in_ity_spec. lia.
Qed.

Lemma v_carry_rel t (a : Z) (i : itv) r k : irel a i ->
  orel (prel irel irel) (@v_carry cmach t a r k) (@v_carry citv t i r k).
Proof.
  destruct i as [lo hi]. intros Ha. cbn [v_carry citv cmach fst snd].
  destruct (Z.ltb_spec k 0); cbn [orb]; [exact I|].
  destruct (Z.ltb_spec r 0); cbn [orb]; [exact I|].
  destruct (Z.leb_spec (2 ^ k) r); cbn [orb]; [exact I|].
  pose proof (carry_remainder a r k ltac:(lia) ltac:(lia)) as HR.
  assert (in_itv (a + r) (lo + r, hi + r)) as Hs by (destruct Ha; split; simpl in *; lia).
  pose proof (shiftr_itv _ _ k ltac:(lia) Hs) as Hc. cbn [fst snd] in Hc.
  pose proof (shiftl_itv _ _ k ltac:(lia) Hc) as Hd. cbn [fst snd] in Hd.
  assert (in_itv (a - Z.shiftl (Z.shiftr (a + r) k) k) (- r, 2 ^ k - r - 1)) as Hh
    by (split; simpl; lia).
  destruct (ichk t (lo + r, _)) eqn:E1; [|exact I].
  destruct (arith_ichk _ _ _ _ Hs E1) as [-> ->]; cbn [obind fst snd].
  destruct (ichk t (_ * 2 ^ k, _)) eqn:E2; [|exact I].
  destruct (arith_ichk _ _ _ _ Hd E2) as [-> ->]; cbn [obind fst snd].
  destruct (ichk t (- r, _)) eqn:E3; [|exact I].
  destruct (arith_ichk _ _ _ _ Hh E3) as [-> ->]; cbn [obind fst snd].
  eexists; split; [reflexivity|]. split; [exact Hc|]. cbn [snd].
  destruct (Z.eqb_spec (Z.shiftr (lo + r) k) (Z.shiftr (hi + r) k)); [|exact Hh].
  destruct Ha, Hc; cbn [fst snd] in *.
  rewrite Z.shiftl_mul_pow2 by lia.
  replace (Z.shiftr (a + r) k) with (Z.shiftr (lo + r) k) by lia. split; cbn [fst snd]; lia.
Qed.

Lemma erel_lit z : erel (e_lit z) (e_lit z).
Proof. apply orel_ret, v_lit_rel. Qed.

Lemma erel_ret (v : @val cmach) (i : @val citv) : irel v i -> erel (vret v) (vret i).
Proof. apply orel_ret. Qed.

Lemma erel_op2 f g a b i j :
  (forall x y u v, irel x u -> irel y v -> orel irel (f x y) (g u v)) ->
  erel a i -> erel b j -> erel (e_op2 f a b) (e_op2 g i j).
Proof.
  intros Hf Ha Hb. eapply orel_bind; [exact Ha|]. intros.
  eapply orel_bind; [exact Hb|]. intros. apply Hf; assumption.
Qed.

Lemma erel_shl t a i k : erel a i -> erel (e_shl t a k) (e_shl t i k).
Proof. intros Ha. eapply orel_bind; [exact Ha|]. intros. apply v_shl_rel. assumption. Qed.

Lemma erel_shr a i k : erel a i -> erel (e_shr a k) (e_shr i k).
Proof. intros Ha. eapply orel_bind; [exact Ha|]. intros. apply v_shr_rel. assumption. Qed.

Lemma erel_cast t a i : (i_min t <=? i_max t) = true -> erel a i -> erel (e_cast t a) (e_cast t i).
Proof.
  intros Ht%Z.leb_le Ha. eapply orel_bind; [exact Ha|]. intros. apply v_cast_rel; assumption.
Qed.

Lemma erel_carry t a i r k : erel a i ->
  orel (prel irel irel) (e_carry t a r k) (e_carry t i r k).
Proof. intros Ha. eapply orel_bind; [exact Ha|]. intros. apply v_carry_rel. assumption. Qed.

Lemma nth_error_rel (s : list (@val cmach)) (t : list (@val citv)) n :
  Forall2 irel s t -> erel (nth_error s n) (nth_error t n).
Proof.
  intros H. revert n. induction H as [|x y s t Hx _ IH]; intros [|n]; cbn [nth_error]; try exact I.
  - apply orel_ret, Hx.
  - apply IH.
Qed.

(** The database of relations between runs of whole functions; every component
    adds the lemmas of its functions. *)
Create HintDb crel discriminated.

(** [crel]: relate the run of straight-line code on machine integers with the
    run of the same code on intervals, operation by operation. *)
Ltac crel_expr :=
  lazymatch goal with
  | |- orel _ (vret _) _ => apply erel_ret; assumption
  | |- orel _ (e_lit _) _ => apply erel_lit
  | |- orel _ (e_op2 _ _ _) _ =>
      apply erel_op2;
      [first [exact (v_add_rel _)|exact (v_sub_rel _)|exact (v_mul_rel _)|exact v_and_rel
             |exact v_or_rel]|crel_expr|crel_expr]
  | |- orel _ (e_shl _ _ _) _ => apply erel_shl; crel_expr
  | |- orel _ (e_shr _ _) _ => apply erel_shr; crel_expr
  | |- orel _ (e_cast _ _) _ => apply erel_cast; [reflexivity|crel_expr]
  | |- orel _ (e_carry _ _ _ _) _ => apply erel_carry; crel_expr
  | |- orel _ (nth_error _ _) _ => apply nth_error_rel; assumption
  | |- _ => solve [eauto with crel nocore]
  end.

Ltac crel_step :=
  lazymatch goal with
  | |- orel _ (obind (e_carry _ _ _ _) _) _ =>
      eapply orel_bind; [apply erel_carry; crel_expr|];
      let p := fresh "p" in let q := fresh "q" in let H := fresh in
      intros p q H; destruct p, q; destruct H; cbn [fst snd] in *
  | |- orel _ (obind _ _) _ =>
      eapply orel_bind; [crel_expr|]; cbn beta; intros ? ? ?
  | |- orel _ (Some _) (Some _) => apply orel_ret
  end.

(** ** Inversion of successful runs on machine integers *)

Lemma mach_arith t z v : is_signed t = true -> arith t z = Some v -> v = z.
Proof. intros Ht H. apply (arith_signed t z v Ht H). Qed.

Lemma mach_carry t (h r k c h' : Z) : is_signed t = true -> 0 <= k ->
  @v_carry cmach t h r k = Some (c, h') -> c = Z.shiftr (h + r) k /\ h' = h - c * 2 ^ k.
Proof.
  intros Ht Hk. cbn [v_carry cmach]. intros H.
  apply obind_Some in H as (s & Hs%(mach_arith _ _ _ Ht) & H).
  apply obind_Some in H as (d & Hd%(mach_arith _ _ _ Ht) & H).
  apply obind_Some in H as (h0 & Hh%(mach_arith _ _ _ Ht) & H).
  injection H as <- <-. subst. rewrite Z.shiftl_mul_pow2 by assumption. auto.
Qed.

(** [post m P]: if the computation [m] succeeds, its result satisfies [P]. *)
Definition post {A} (m : option A) (P : A -> Prop) : Prop := forall a, m = Some a -> P a.

Lemma post_ret {A} (a : A) P : P a -> post (Some a) P.
Proof. intros H b [= <-]. exact H. Qed.

Lemma post_bind {A B} (m : option A) (k : A -> option B) P :
  post m (fun a => post (k a) P) -> post (obind m k) P.
Proof. intros H b Hb. apply obind_Some in Hb as (a & Ha & Hb). exact (H a Ha b Hb). Qed.

Lemma post_mono {A} (m : option A) (P Q : A -> Prop) :
  post m P -> (forall a, P a -> Q a) -> post m Q.
Proof. unfold post. auto. Qed.

Lemma post_arith t z P : is_signed t = true -> P z -> post (arith t z) P.
Proof. intros Ht H v Hv%mach_arith; [|exact Ht]. subst v. exact H. Qed.

Lemma post_arith_unsigned t z P : is_signed t = false -> P (wrap t z) -> post (arith t z) P.
Proof. unfold arith. intros -> H v [= <-]. exact H. Qed.

Lemma post_carry t (h r k : Z) P : is_signed t = true -> 0 <= k ->
  (forall c, c = Z.shiftr (h + r) k -> P (c, h - c * 2 ^ k)) -> post (@v_carry cmach t h r k) P.
Proof. intros Ht Hk H [c h'] E%mach_carry; try assumption. destruct E as [Ec ->]. auto. Qed.

(** [cpost]: one step of the code under [post]. *)
Ltac cpost_expr :=
  lazymatch goal with
  | |- post (vret _) _ => apply post_ret
  | |- post (e_lit _) _ => apply post_ret
  | |- post (Some _) _ => apply post_ret
  | |- post (e_op2 ?f ?a ?b) _ =>
      apply (post_bind a); cpost_expr; apply (post_bind b); cpost_expr; cpost_val
  | |- post (e_shl ?t ?a ?k) _ => apply (post_bind a); cpost_expr; cpost_val
  | |- post (e_shr ?a ?k) _ => apply (post_bind a); cpost_expr; cpost_val
  | |- post (e_cast ?t ?a) _ => apply (post_bind a); cpost_expr; cpost_val
  | |- post (e_carry ?t ?a ?r ?k) _ =>
      apply (post_bind a); cpost_expr;
      apply post_carry; [reflexivity|discriminate|]; intros ? ?
  end; cbn beta
with cpost_val :=
  lazymatch goal with
  | |- post (v_add ?t ?a ?b) _ => apply (post_arith t (a + b)); [reflexivity|]
  | |- post (v_sub ?t ?a ?b) _ => apply (post_arith t (a - b)); [reflexivity|]
  | |- post (v_mul ?t ?a ?b) _ => apply (post_arith t (a * b)); [reflexivity|]
  | |- post (v_shl ?t ?a ?k) _ => apply (post_ret (wrap t (Z.shiftl a k)))
  | |- post (v_shr ?a ?k) _ => apply (post_ret (Z.shiftr a k))
  | |- post (v_and ?a ?b) _ => apply (post_ret (Z.land a b))
  | |- post (v_or ?a ?b) _ => apply (post_ret (Z.lor a b))
  | |- post (v_cast U8 ?a) _ => apply (post_arith_unsigned U8 a); [reflexivity|]
  | |- post (v_cast U64 ?a) _ => apply (post_arith_unsigned U64 a); [reflexivity|]
  | |- post (v_cast ?t ?a) _ => apply (post_arith t a); [reflexivity|]
  end.

Ltac cpost_step :=
  lazymatch goal with
  | |- post (obind _ _) _ => apply post_bind; cpost_expr
  | |- post (Some _) _ => apply post_ret
  end; cbn beta iota.

(** ** Congruence modulo an integer *)

Definition cong (m a b : Z) : Prop := exists k, a = b + k * m.
Notation "a ≡[ m ] b" := (cong m a b) (at level 70, m at level 99, format "a  ≡[ m ]  b").

#[export] Instance cong_equiv m : Equivalence (cong m).
Proof.
  split.
  - intros a. exists 0. lia.
  - intros a b [k ->]. exists (- k). lia.
  - intros a b c [k ->] [j ->]. exists (k + j). lia.
Qed.

#[export] Instance cong_add m : Proper (cong m ==> cong m ==> cong m) Z.add.
Proof. intros a b [k ->] c d [j ->]. exists (k + j). lia. Qed.

#[export] Instance cong_sub m : Proper (cong m ==> cong m ==> cong m) Z.sub.
Proof. intros a b [k ->] c d [j ->]. exists (k - j). lia. Qed.

#[export] Instance cong_opp m : Proper (cong m ==> cong m) Z.opp.
Proof. intros a b [k ->]. exists (- k). lia. Qed.

#[export] Instance cong_mul m : Proper (cong m ==> cong m ==> cong m) Z.mul.
Proof. intros a b [k ->] c d [j ->]. exists (b * j + k * d + k * j * m). lia. Qed.

Lemma cong_mod m a : m <> 0 -> a mod m ≡[m] a.
Proof. intros Hm. exists (- (a / m)). pose proof (Z.div_mod a m Hm). lia. Qed.

Lemma cong_eq_mod m a b : m <> 0 -> a ≡[m] b <-> a mod m = b mod m.
Proof.
  intros Hm. split.
  - intros [k ->]. apply Z_mod_plus_full.
  - intros H. rewrite <- (cong_mod m a), <- (cong_mod m b), H by assumption. reflexivity.
Qed.

Lemma cong_small m a b : 0 <= a < m -> a ≡[m] b -> a = b mod m.
Proof.
  intros Ha H%cong_eq_mod; [|lia]. rewrite <- H. symmetry. apply Z.mod_small, Ha.
Qed.

Lemma cong_pow m a b n : 0 <= n -> a ≡[m] b -> a ^ n ≡[m] b ^ n.
Proof.
  intros Hn H. pattern n. apply natlike_ind; [reflexivity| |assumption].
  intros k Hk IH. rewrite !Z.pow_succ_r by assumption. rewrite IH, H. reflexivity.
Qed.

(** [norm_pow2]: evaluate the powers of two in the goal. *)
Ltac norm_pow2 :=
  repeat match goal with
  | |- context [2 ^ Zpos ?k] =>
      let v := eval vm_compute in (2 ^ Zpos k) in change (2 ^ Zpos k) with v
  end.

(** ** Total correctness *)

(** [total m P]: the computation [m] succeeds, with a result that satisfies [P]. *)
Definition total {A} (m : option A) (P : A -> Prop) : Prop := exists a, m = Some a /\ P a.

Lemma total_run {A B} (R : A -> B -> Prop) m i b P :
  orel R m i -> i = Some b -> post m P -> total m (fun a => R a b /\ P a).
Proof. intros H -> Hp. destruct H as (a & E & Ha). exists a. auto. Qed.

Lemma total_bind {A B} (m : option A) (k : A -> option B) P Q :
  total m P -> (forall a, P a -> total (k a) Q) -> total (obind m k) Q.
Proof. intros (a & -> & Ha) Hk. exact (Hk a Ha). Qed.

Lemma total_mono {A} (m : option A) (P Q : A -> Prop) :
  total m P -> (forall a, P a -> Q a) -> total m Q.
Proof. intros (a & E & Ha) H. exists a. auto. Qed.

Lemma total_ret {A} (a : A) (P : A -> Prop) : P a -> total (Some a) P.
Proof. exists a. auto. Qed.

Lemma total_post {A} (m : option A) P Q : total m P -> post m Q -> total m (fun a => P a /\ Q a).
Proof. intros (a & E & Ha) H. exists a. auto. Qed.

(** ** Bytes *)

Definition byte (z : Z) : Prop := 0 <= z < 256.

(** The integer a byte string stands for, least significant byte first. *)
Fixpoint le_val (bs : list Z) : Z :=
  match bs with [] => 0 | b :: bs => b + 256 * le_val bs end.

(** Deciding that a concrete list holds bytes. *)
Definition bytesb (bs : list Z) : bool := forallb (fun b => (0 <=? b) && (b <? 256)) bs.

Lemma bytesb_ok bs : bytesb bs = true -> Forall byte bs.
Proof.
  intros H. apply Forall_forall. intros b Hb. unfold bytesb in H. rewrite forallb_forall in H.
  apply H in Hb. unfold byte. lia.
Qed.

Lemma le_val_range bs : Forall byte bs -> 0 <= le_val bs < 256 ^ Z.of_nat (length bs).
Proof.
  induction 1 as [|b bs Hb _ IH]; [cbn; lia|]. cbn [le_val length].
  rewrite Nat2Z.inj_succ, Z.pow_succ_r by lia. unfold byte in Hb. lia.
Qed.

Lemma le_val_app bs cs : le_val (bs ++ cs) = le_val bs + 256 ^ Z.of_nat (length bs) * le_val cs.
Proof.
  induction bs as [|b bs IH]; cbn [le_val app length]; [cbn; lia|].
  rewrite IH, Nat2Z.inj_succ, Z.pow_succ_r by lia. ring.
Qed.

Lemma le_val_inj bs cs : Forall byte bs -> Forall byte cs -> length bs = length cs ->
  le_val bs = le_val cs -> bs = cs.
Proof.
  intros Hb. revert cs. induction Hb as [|b bs Hb _ IH]; intros cs Hc L E.
  { destruct cs; [reflexivity|discriminate]. }
  destruct cs as [|c cs]; [discriminate|]. inversion_clear Hc as [|? ? Hc' Hcs].
  cbn [le_val length] in *. unfold byte in *.
  assert (b = c) by (pose proof (le_val_range bs); lia). subst c.
  f_equal. apply IH; [assumption|lia|lia].
Qed.

Lemma wrap_U8 z : wrap U8 z = z mod 256.
Proof. unfold wrap. cbn [i_min i_max U8]. rewrite Z.sub_0_r. reflexivity. Qed.

Lemma wrap_byte z : byte (wrap U8 z).
Proof. rewrite wrap_U8. apply Z.mod_pos_bound. lia. Qed.

Lemma wrap_mod t z m : i_max t - i_min t + 1 = m -> wrap t z ≡[m] z.
Proof.
  intros Hm. unfold wrap. rewrite Hm. destruct (Z.eq_dec m 0) as [->|].
  - exists 0. rewrite Z.mod_0_r. lia.
  - rewrite cong_mod by assumption. exists 0. lia.
Qed.

(** The only value of the type congruent to [z]. *)
Lemma wrap_unique t z v : i_min t <= v <= i_max t -> z ≡[i_max t - i_min t + 1] v -> wrap t z = v.
Proof.
  intros Hv Hz. unfold wrap.
  assert (z - i_min t ≡[i_max t - i_min t + 1] v - i_min t) as E by (rewrite Hz; reflexivity).
  apply cong_eq_mod in E; [|lia]. rewrite E, Z.mod_small by lia. lia.
Qed.

Lemma cong_weaken m n a b : (m | n) -> a ≡[n] b -> a ≡[m] b.
Proof. intros [k ->] [j ->]. exists (j * k). ring. Qed.

(** One byte taken out of a limb. *)
Lemma byte_shr z k : 0 <= k -> wrap U8 (Z.shiftr z k) = z / 2 ^ k mod 256.
Proof. intros Hk. rewrite wrap_U8, Z.shiftr_div_pow2 by assumption. reflexivity. Qed.

Lemma lor_shift a b j : 0 <= j -> 0 <= a < 2 ^ j -> Z.lor a (Z.shiftl b j) = a + 2 ^ j * b.
Proof.
  intros Hj Ha. rewrite Z.shiftl_mul_pow2 by assumption.
  pose proof (Z.add_lor_land a (b * 2 ^ j)).
  assert (Z.land a (b * 2 ^ j) = 0); [|lia].
  apply Z.bits_inj'. intros n Hn. rewrite Z.land_spec, Z.bits_0.
  destruct (Z.lt_ge_cases n j).
  - rewrite Z.mul_pow2_bits_low by assumption. apply andb_false_r.
  - rewrite <- (Z.mod_small a (2 ^ j)) by assumption.
    rewrite Z.mod_pow2_bits_high by lia. reflexivity.
Qed.

(** One byte that joins the top of a limb [a] and the bottom of the next one. *)
Lemma byte_or a b k j t : (256 | i_max t - i_min t + 1) -> 0 <= k -> 0 <= j <= 8 ->
  0 <= a < 2 ^ (k + j) ->
  wrap U8 (Z.lor (Z.shiftr a k) (wrap t (Z.shiftl b j))) = a / 2 ^ k + 2 ^ j * (b mod 2 ^ (8 - j)).
Proof.
  intros Ht Hk Hj Ha. rewrite wrap_U8.
  assert (0 <= a / 2 ^ k < 2 ^ j) as Hq.
  { rewrite Z.pow_add_r in Ha by lia. pose proof (Z.pow_pos_nonneg 2 k).
    split; [apply Z.div_pos; lia|apply Z.div_lt_upper_bound; lia]. }
  assert (wrap t (Z.shiftl b j) mod 2 ^ 8 = Z.shiftl b j mod 2 ^ 8) as Hw.
  { apply cong_eq_mod; [discriminate|]. eapply cong_weaken; [exact Ht|].
    apply wrap_mod. reflexivity. }
  change 256 with (2 ^ 8). rewrite <- (Z.land_ones _ 8), Z.land_lor_distr_l, !(Z.land_ones _ 8) by lia.
  rewrite Hw, <- !(Z.land_ones _ 8), <- Z.land_lor_distr_l, (Z.land_ones _ 8) by lia.
  rewrite Z.shiftr_div_pow2, lor_shift by lia.
  pose proof (Z.pow_pos_nonneg 2 j). pose proof (Z.pow_pos_nonneg 2 (8 - j)).
  pose proof (Z.mod_pos_bound b (2 ^ (8 - j))). pose proof (Z.div_mod b (2 ^ (8 - j))).
  assert (2 ^ 8 = 2 ^ j * 2 ^ (8 - j)) as E8 by (rewrite <- Z.pow_add_r by lia; f_equal; lia).
  rewrite E8. generalize dependent (a / 2 ^ k). intros q Hq.
  assert (b = 2 ^ (8 - j) * (b / 2 ^ (8 - j)) + b mod 2 ^ (8 - j)) as Eb by lia.
  assert (0 <= b mod 2 ^ (8 - j) < 2 ^ (8 - j)) as Hr by lia.
  clear - Hq Eb Hr. generalize dependent (2 ^ j). intros n Hn.
  generalize dependent (2 ^ (8 - j)). intros m Eb Hr.
  symmetry. apply Z.mod_unique with (q := b / m).
  - left. clear Eb. generalize dependent (b mod m). intros r Hr.
    assert (n * (r + 1) <= n * m) by (apply Z.mul_le_mono_nonneg_l; lia).
    assert (0 <= n * r) by (apply Z.mul_nonneg_nonneg; lia). lia.
  - rewrite Eb at 1. ring.
Qed.

(** Splitting off eight bits. *)
Lemma split_byte z k : 0 <= k -> z / 2 ^ k = z / 2 ^ k mod 256 + 256 * (z / 2 ^ (k + 8)).
Proof.
  intros Hk. rewrite Z.pow_add_r, <- Z.div_div by (try apply Z.pow_nonzero; lia).
  pose proof (Z.div_mod (z / 2 ^ k) (2 ^ 8)). change (2 ^ 8) with 256 in *. lia.
Qed.

(** The constant-time test of the code that a byte string is not all zero. *)
Definition bytes_nonzero (s : list Z) : Z := Z.shiftr (fold_left Z.lor s 0 - 1) 8 + 1.

Lemma bytes_nonzero_spec s : Forall byte s ->
  bytes_nonzero s = if forallb (Z.eqb 0) s then 0 else 1.
Proof.
  assert (forall acc, byte acc -> Forall byte s ->
    byte (fold_left Z.lor s acc) /\ (fold_left Z.lor s acc = 0 <-> acc = 0 /\ forallb (Z.eqb 0) s = true)) as G.
  { induction s as [|b s IH]; intros acc Ha Hs; cbn [fold_left forallb]; [intuition|].
    inversion_clear Hs as [|? ? Hb Hs']. unfold byte in *.
    assert (0 <= Z.lor acc b < 256) as Hl.
    { pose proof (lor_range acc b 8 ltac:(lia) ltac:(lia) ltac:(lia)).
      assert (0 <= Z.lor acc b) by (apply Z.lor_nonneg; lia). lia. }
    destruct (IH (Z.lor acc b) Hl Hs') as [H1 H2]. split; [exact H1|].
    rewrite H2, Z.lor_eq_0_iff, andb_true_iff, Z.eqb_eq. intuition congruence. }
  intros Hs. destruct (G 0 ltac:(unfold byte; lia) Hs) as [H1 H2]. unfold byte in *. unfold bytes_nonzero.
  rewrite Z.shiftr_div_pow2 by lia. change (2 ^ 8) with 256.
  destruct (forallb (Z.eqb 0) s).
  - rewrite (proj2 H2) by auto. reflexivity.
  - assert (fold_left Z.lor s 0 <> 0) by (intros E; destruct (proj1 H2 E); discriminate).
    rewrite Z.div_small by lia. reflexivity.
Qed.

Lemma le_val_zero s : Forall byte s -> le_val s = 0 <-> forallb (Z.eqb 0) s = true.
Proof.
  induction 1 as [|b s Hb Hs IH]; cbn [le_val forallb]; [tauto|].
  pose proof (le_val_range s Hs). unfold byte in *. rewrite andb_true_iff, Z.eqb_eq, <- IH. lia.
Qed.

(** A limb cut into its bits below [k], two bytes, and the rest. *)
Lemma limb_bytes z k : 0 <= k ->
  z = z mod 2 ^ k + 2 ^ k * (z / 2 ^ k mod 256) + 2 ^ (k + 8) * (z / 2 ^ (k + 8) mod 256) +
      2 ^ (k + 16) * (z / 2 ^ (k + 16)).
Proof.
  intros Hk. pose proof (split_byte z k Hk) as E1. pose proof (split_byte z (k + 8) ltac:(lia)) as E2.
  replace (k + 8 + 8) with (k + 16) in E2 by lia.
  pose proof (Z.div_mod z (2 ^ k) ltac:(apply Z.pow_nonzero; lia)) as E0.
  rewrite E0 at 1. clear E0.
  generalize dependent (z / 2 ^ (k + 16)). generalize dependent (z / 2 ^ (k + 8)).
  generalize dependent (z / 2 ^ k). intros q0 q1 E1 q2 E2.
  rewrite !Z.pow_add_r by lia. change (2 ^ 8) with 256. change (2 ^ 16) with (256 * 256).
  generalize dependent (q0 mod 256). generalize dependent (q1 mod 256). intros; subst. ring.
Qed.

Lemma orel_post {A B} (R : A -> B -> Prop) m i b : orel R m i -> i = Some b -> post m (fun a => R a b).
Proof. intros H -> a Ha. destruct H as (a' & E & Hr). congruence. Qed.

Lemma post_and {A} (m : option A) P Q : post m P -> post m Q -> post m (fun a => P a /\ Q a).
Proof. unfold post. auto. Qed.

(** The same with one byte. *)
Lemma limb_byte z k : 0 <= k ->
  z = z mod 2 ^ k + 2 ^ k * (z / 2 ^ k mod 256) + 2 ^ (k + 8) * (z / 2 ^ (k + 8)).
Proof.
  intros Hk. pose proof (split_byte z k Hk) as E.
  pose proof (Z.div_mod z (2 ^ k) ltac:(apply Z.pow_nonzero; lia)) as E0.
  rewrite E0 at 1. rewrite E at 1. rewrite Z.pow_add_r by lia. change (2 ^ 8) with 256. ring.
Qed.

(** [limb_split h k], [limb_split1 h k]: cut the limb [h] at bit [k] and after the next
    two bytes (the next byte). *)
Ltac norm_add k n E :=
  let v := eval vm_compute in (k + n) in change (k + n) with v in E.
Ltac limb_split h k :=
  let E := fresh "E" in
  pose proof (limb_bytes h k ltac:(lia)) as E; norm_add k 8 E; norm_add k 16 E.
Ltac limb_split1 h k :=
  let E := fresh "E" in
  pose proof (limb_byte h k ltac:(lia)) as E; norm_add k 8 E.

(** Inclusion of intervals. *)
Definition itv_le (i j : itv) : bool := (fst j <=? fst i) && (snd i <=? snd j).

Lemma itv_le_in z i j : itv_le i j = true -> irel z i -> irel z j.
Proof. unfold itv_le. rewrite andb_true_iff, !Z.leb_le. intros [] []. split; lia. Qed.
