(* ===== verification/Bytes.v ===== *)
(** * Byte strings and machine words

    Little-endian conversions between words and byte strings, shared by the hash
    functions, the random generator and the encodings.  The code reinterprets
    word arrays as byte arrays; the model assumes the little-endian layout of the
    platforms the program is built for. *)

From Stdlib Require Import ZArith Lia List Bool.
Import ListNotations.
From S2P Require Import Prelude.
Set Default Goal Selector "!".

(** The [n] low bytes of [v], least significant first. *)
Fixpoint le_bytes (n : nat) (v : Z) : list Z :=
  match n with O => [] | S n => v mod 256 :: le_bytes n (v / 256) end.

Lemma le_bytes_length n v : length (le_bytes n v) = n.
Proof. revert v. induction n as [|n IH]; intros v; cbn; [|rewrite IH]; reflexivity. Qed.

Lemma le_bytes_byte n v : Forall byte (le_bytes n v).
Proof.
  revert v. induction n as [|n IH]; intros v; cbn; constructor; [|apply IH].
  apply Z.mod_pos_bound. lia.
Qed.

Lemma le_bytes_val n v : 0 <= v < 256 ^ Z.of_nat n -> le_val (le_bytes n v) = v.
Proof.
  revert v. induction n as [|n IH]; intros v; cbn [le_bytes le_val]; [cbn; lia|].
  rewrite Nat2Z.inj_succ, Z.pow_succ_r by lia. intros H.
  rewrite IH; [pose proof (Z.div_mod v 256); lia|].
  split; [apply Z.div_pos; lia|apply Z.div_lt_upper_bound; lia].
Qed.

Lemma le_bytes_of_val bs : Forall byte bs -> le_bytes (length bs) (le_val bs) = bs.
Proof.
  induction 1 as [|b bs Hb _ IH]; cbn [length le_bytes le_val]; [reflexivity|]. unfold byte in Hb.
  replace ((b + 256 * le_val bs) mod 256) with b.
  - replace ((b + 256 * le_val bs) / 256) with (le_val bs); [rewrite IH; reflexivity|].
    apply Z.div_unique with (r := b); lia.
  - apply Z.mod_unique with (q := le_val bs); lia.
Qed.

(** A byte array seen as 64-bit words, and back. *)
Fixpoint words64 (n : nat) (bs : list Z) : list Z :=
  match n with O => [] | S n => le_val (firstn 8 bs) :: words64 n (skipn 8 bs) end.

Definition bytes64 (ws : list Z) : list Z := flat_map (le_bytes 8) ws.

Lemma words64_length n bs : length (words64 n bs) = n.
Proof. revert bs. induction n as [|n IH]; intros bs; cbn; [|rewrite IH]; reflexivity. Qed.

Lemma bytes64_length ws : length (bytes64 ws) = (8 * length ws)%nat.
Proof.
  induction ws as [|w ws IH]; cbn [bytes64 flat_map length]; [reflexivity|].
  rewrite length_app, le_bytes_length. unfold bytes64 in IH. rewrite IH. lia.
Qed.

Lemma bytes64_byte ws : Forall byte (bytes64 ws).
Proof. induction ws as [|w ws IH]; cbn [bytes64 flat_map]; [constructor|]. apply Forall_app. split; [apply le_bytes_byte|exact IH]. Qed.

(** A 64-bit word. *)
Definition word64 (w : Z) : Prop := 0 <= w < 2 ^ 64.

Lemma firstn_byte n bs : Forall byte bs -> Forall byte (firstn n bs).
Proof. intros H. rewrite <- (firstn_skipn n bs) in H. apply Forall_app in H. apply H. Qed.

Lemma skipn_byte n bs : Forall byte bs -> Forall byte (skipn n bs).
Proof. intros H. rewrite <- (firstn_skipn n bs) in H. apply Forall_app in H. apply H. Qed.

Lemma words64_word n bs : Forall byte bs -> Forall word64 (words64 n bs).
Proof.
  revert bs. induction n as [|n IH]; intros bs H; cbn [words64]; constructor.
  - pose proof (le_val_range (firstn 8 bs) (firstn_byte 8 bs H)) as R. unfold word64.
    pose proof (firstn_le_length 8 bs) as L.
    assert (256 ^ Z.of_nat (length (firstn 8 bs)) <= 256 ^ 8) by (apply Z.pow_le_mono_r; lia).
    change (2 ^ 64) with (256 ^ 8). lia.
  - apply IH, skipn_byte, H.
Qed.

Lemma bytes64_words n bs : Forall byte bs -> length bs = (8 * n)%nat -> bytes64 (words64 n bs) = bs.
Proof.
  revert bs. induction n as [|n IH]; intros bs H L; cbn [words64 bytes64 flat_map].
  - destruct bs; [reflexivity|discriminate].
  - rewrite <- (firstn_skipn 8 bs) at 3. f_equal.
    + rewrite <- (le_bytes_of_val (firstn 8 bs)) at 2 by (apply firstn_byte, H).
      rewrite length_firstn, L. f_equal. lia.
    + apply IH; [apply skipn_byte, H|]. rewrite length_skipn, L. lia.
Qed.

(** [r[i] = v] on a list; out of range it changes nothing (the code never does that). *)
Fixpoint set_nth {A} (i : nat) (v : A) (r : list A) : list A :=
  match i, r with
  | _, [] => []
  | O, _ :: r => v :: r
  | S i, x :: r => x :: set_nth i v r
  end.

Lemma set_nth_length {A} i (v : A) r : length (set_nth i v r) = length r.
Proof. revert i. induction r as [|x r IH]; intros [|i]; cbn; [..|rewrite IH]; reflexivity. Qed.

Lemma set_nth_app {A} (pre post : list A) x v : set_nth (length pre) v (pre ++ x :: post) = pre ++ v :: post.
Proof. induction pre as [|y pre IH]; cbn; [|rewrite IH]; reflexivity. Qed.

Lemma nth_set_nth {A} i j (v d : A) r : (i < length r)%nat ->
  nth j (set_nth i v r) d = if (j =? i)%nat then v else nth j r d.
Proof.
  revert i j. induction r as [|x r IH]; intros [|i] [|j] H; cbn in *; try lia; try reflexivity.
  apply IH. lia.
Qed.

Lemma set_nth_Forall {A} (P : A -> Prop) i v r : Forall P r -> P v -> Forall P (set_nth i v r).
Proof.
  intros H Hv. revert i. induction H as [|x r Hx Hr IH]; intros [|i]; cbn; constructor; auto.
Qed.

(** ** Messages in blocks *)

(** The first [n] pieces of [size] bytes each. *)
Fixpoint chunks (n size : nat) (bs : list Z) : list (list Z) :=
  match n with O => [] | S n => firstn size bs :: chunks n size (skipn size bs) end.

Lemma chunks_length size n : forall bs, length (chunks n size bs) = n.
Proof. induction n as [|n IH]; intros bs; cbn [chunks length]; [reflexivity|]. rewrite IH. reflexivity. Qed.

Lemma chunks_add size n m : forall bs, chunks (n + m) size bs = chunks n size bs ++ chunks m size (skipn (size * n) bs).
Proof.
  induction n as [|n IH]; intros bs; cbn [chunks Nat.add app]; [rewrite Nat.mul_0_r; reflexivity|]. rewrite IH, skipn_skipn.
  replace (size * n + size)%nat with (size * S n)%nat by lia. reflexivity.
Qed.

Lemma chunks_prefix size n : forall a b, (size * n <= length a)%nat -> chunks n size (a ++ b) = chunks n size a.
Proof.
  induction n as [|n IH]; intros a b L; cbn [chunks]; [reflexivity|]. rewrite firstn_app, skipn_app. replace (size - length a)%nat with 0%nat by lia.
  rewrite firstn_O, skipn_O, app_nil_r, IH by (rewrite length_skipn; lia). reflexivity.
Qed.

(** A piece more after [n] pieces. *)
Lemma chunks_snoc size n a b : length (skipn (size * n) a ++ b) = size -> (size * n <= length a)%nat ->
  chunks (n + 1) size (a ++ b) = chunks n size a ++ [skipn (size * n) a ++ b].
Proof.
  intros L H. rewrite chunks_add, chunks_prefix by exact H. f_equal. cbn [chunks]. rewrite skipn_app. replace (size * n - length a)%nat with 0%nat by lia.
  rewrite skipn_O, firstn_all2 by lia. reflexivity.
Qed.

Lemma words64_firstn n : forall bs, words64 n (firstn (8 * n) bs) = words64 n bs.
Proof.
  induction n as [|n IH]; intros bs; [reflexivity|]. replace (8 * S n)%nat with (8 + 8 * n)%nat by lia. cbn [words64].
  rewrite firstn_firstn, Nat.min_l by lia. f_equal. rewrite skipn_firstn_comm, <- (IH (skipn _ bs)). f_equal. f_equal. lia.
Qed.

(** A buffer of [size] bytes that begins with [c]. *)
Definition holds (size : nat) (c buf : list Z) : Prop := length buf = size /\ firstn (length c) buf = c.

Lemma holds_nil size buf : length buf = size -> holds size [] buf.
Proof. intros L. split; [exact L|reflexivity]. Qed.

Lemma holds_full size c buf : holds size c buf -> length c = size -> buf = c.
Proof. intros [L E] H. rewrite <- E, H, <- L. symmetry. apply firstn_all. Qed.

(** [memcpy(buf + length c, d, length d)] *)
Lemma holds_put size c d buf : holds size c buf -> (length c + length d <= size)%nat ->
  holds size (c ++ d) (firstn (length c) buf ++ d ++ skipn (length c + length d) buf).
Proof.
  intros [L E] H. rewrite E. split; [rewrite !length_app, length_skipn; lia|].
  rewrite app_assoc, firstn_app, Nat.sub_diag, firstn_all, firstn_O, app_nil_r. reflexivity.
Qed.

Lemma set_nth_split {A} (v : A) : forall i r, (i < length r)%nat -> set_nth i v r = firstn i r ++ v :: skipn (S i) r.
Proof. induction i as [|i IH]; intros [|x r] L; cbn in *; try lia; [reflexivity|]. f_equal. apply IH. lia. Qed.

Lemma holds_set size c v buf : holds size c buf -> (length c < size)%nat -> holds size (c ++ [v]) (set_nth (length c) v buf).
Proof.
  intros H L. rewrite set_nth_split by (rewrite (proj1 H); exact L).
  pose proof (holds_put size c [v] buf H ltac:(cbn; lia)) as P. cbn [length app] in P. rewrite Nat.add_1_r in P. exact P.
Qed.
