(* ===== verification/Keccak.v ===== *)
(** * Keccak and the random generator (keccak.c, hash.c, random.c)

    The permutation on 25 words of 64 bits, the sponge, and [cn_fast_hash].  The
    theorems: the permutation is the one of FIPS 202 (theta, rho, pi, chi, iota
    on a 5 by 5 array of lanes, with the rotation offsets and round constants
    derived, not copied), it preserves words, and [cn_fast_hash] returns 32 bytes
    for every input whose length fits in an [int].  The random generator is the
    permutation on a state of its own. *)

From Stdlib Require Import ZArith Lia List Bool.
Import ListNotations.
From S2P Require Import Prelude Bytes.
Set Default Goal Selector "!".

(** ** The code *)

Definition keccakf_rndc : list Z := [
  0x0000000000000001; 0x0000000000008082; 0x800000000000808a;
  0x8000000080008000; 0x000000000000808b; 0x0000000080000001;
  0x8000000080008081; 0x8000000000008009; 0x000000000000008a;
  0x0000000000000088; 0x0000000080008009; 0x000000008000000a;
  0x000000008000808b; 0x800000000000008b; 0x8000000000008089;
  0x8000000000008003; 0x8000000000008002; 0x8000000000000080;
  0x000000000000800a; 0x800000008000000a; 0x8000000080008081;
  0x8000000000008080; 0x0000000080000001; 0x8000000080008008].

Definition keccakf_rotc : list Z :=
  [1; 3; 6; 10; 15; 21; 28; 36; 45; 55; 2; 14; 27; 41; 56; 8; 25; 43; 62; 18; 39; 61; 20; 44].

Definition keccakf_piln : list nat :=
  [10; 7; 11; 17; 18; 3; 5; 16; 8; 21; 24; 4; 15; 23; 19; 13; 12; 2; 20; 14; 22; 9; 6; 1]%nat.

(** The macro [ROTL64] and [~] on [uint64_t]. *)
Definition ROTL64 (x y : Z) : Z := Z.lor (wrap U64 (Z.shiftl x y)) (Z.shiftr x (64 - y)).
Definition not64 (x : Z) : Z := wrap U64 (Z.lnot x).

Definition at64 (st : list Z) (i : nat) : Z := nth i st 0.

(** [st[i] ^= t] *)
Definition xor_word (st : list Z) (i : nat) (t : Z) : list Z := set_nth i (Z.lxor (at64 st i) t) st.

Definition keccakf_theta (st : list Z) : list Z :=
  let bc := map (fun i => Z.lxor (Z.lxor (Z.lxor (Z.lxor (at64 st i) (at64 st (i + 5))) (at64 st (i + 10)))
                                         (at64 st (i + 15))) (at64 st (i + 20))) (seq 0 5) in
  fold_left (fun st i =>
    let t := Z.lxor (at64 bc ((i + 4) mod 5)) (ROTL64 (at64 bc ((i + 1) mod 5)) 1) in
    fold_left (fun st j => xor_word st (j + i) t) [0; 5; 10; 15; 20]%nat st) (seq 0 5) st.

Definition keccakf_rhopi (st : list Z) : list Z :=
  fst (fold_left (fun '(st, t) i =>
    let j := nth i keccakf_piln 0%nat in
    let bc0 := at64 st j in
    (set_nth j (ROTL64 t (nth i keccakf_rotc 0)) st, bc0)) (seq 0 24) (st, at64 st 1)).

Definition keccakf_chi (st : list Z) : list Z :=
  fold_left (fun st j =>
    let bc := map (fun i => at64 st (j + i)) (seq 0 5) in
    fold_left (fun st i =>
      xor_word st (j + i) (Z.land (not64 (at64 bc ((i + 1) mod 5))) (at64 bc ((i + 2) mod 5))))
      (seq 0 5) st) [0; 5; 10; 15; 20]%nat st.

Definition keccakf_iota (st : list Z) (round : nat) : list Z := xor_word st 0 (nth round keccakf_rndc 0).

Definition keccakf_round (st : list Z) (round : nat) : list Z :=
  keccakf_iota (keccakf_chi (keccakf_rhopi (keccakf_theta st))) round.

Definition keccakf (st : list Z) (rounds : nat) : list Z := fold_left keccakf_round (seq 0 rounds) st.

Definition KECCAK_ROUNDS : nat := 24.
Definition HASH_DATA_AREA : Z := 136.

(** [st[i] ^= ((uint64_t * ) in)[i]] for the first [rsizw] words. *)
Definition xor_block (st : list Z) (rsizw : nat) (block : list Z) : list Z :=
  let ws := words64 rsizw block in
  fold_left (fun st i => xor_word st i (at64 ws i)) (seq 0 rsizw) st.

(** The loop over full blocks; [fuel] bounds the number of blocks. *)
Fixpoint keccak_absorb (fuel : nat) (rsiz : nat) (st inp : list Z) : list Z * list Z :=
  match fuel with
  | O => (st, inp)
  | S fuel =>
      if (rsiz <=? length inp)%nat then
        keccak_absorb fuel rsiz (keccakf (xor_block st (rsiz / 8) (firstn rsiz inp)) KECCAK_ROUNDS)
          (skipn rsiz inp)
      else (st, inp)
  end.

(** The last block: the rest of the input, the byte 1, zeros, and bit 7 of the last byte. *)
Definition keccak_pad (rsiz : nat) (inp : list Z) : list Z :=
  let temp := inp ++ [1] ++ repeat 0 (rsiz - length inp - 1) in
  set_nth (rsiz - 1) (Z.lor (nth (rsiz - 1) temp 0) 0x80) temp.

(** Defined when the length fits in [int] and the block in [temp[144]]. *)
Definition keccak (inp : list Z) (mdlen : Z) : option (list Z) :=
  let rsiz := if 200 =? mdlen then HASH_DATA_AREA else 200 - 2 * mdlen in
  if (Z.of_nat (length inp) <=? i_max I32) && (0 <? rsiz) && (rsiz <=? 144) && (0 <=? mdlen) && (mdlen <=? 200) then
    let rsiz := Z.to_nat rsiz in
    let '(st, rest) := keccak_absorb (S (length inp)) rsiz (repeat 0 25) inp in
    let st := keccakf (xor_block st (rsiz / 8) (keccak_pad rsiz rest)) KECCAK_ROUNDS in
    Some (firstn (Z.to_nat mdlen) (bytes64 st))
  else None.

Definition keccak1600 (inp : list Z) : option (list Z) := keccak inp 200.

(** hash.c; a [hash_state] is the 25 words. *)
Definition hash_permutation (state : list Z) : list Z := keccakf state 24.
Definition hash_process (buf : list Z) : option (list Z) := keccak1600 buf.
Definition HASH_SIZE : nat := 32.
Definition cn_fast_hash (data : list Z) : option (list Z) :=
  state <- hash_process data ;; Some (firstn HASH_SIZE state).

(** ** Words *)

Lemma word64_bits w : word64 w <-> 0 <= w /\ forall i, 64 <= i -> Z.testbit w i = false.
Proof.
  unfold word64. split.
  - intros H. split; [lia|]. intros i Hi. rewrite <- (Z.mod_small w (2 ^ 64)) by assumption.
    apply Z.mod_pow2_bits_high. lia.
  - intros [H B]. split; [exact H|]. destruct (Z.eq_dec w 0) as [-> |N]; [reflexivity|].
    apply Z.log2_lt_pow2; [lia|]. destruct (Z.lt_ge_cases (Z.log2 w) 64) as [L|L]; [exact L|].
    specialize (B (Z.log2 w) L). rewrite Z.bit_log2 in B by lia. discriminate.
Qed.

Lemma wrap_U64 z : wrap U64 z = z mod 2 ^ 64.
Proof. unfold wrap. cbn [i_min i_max U64]. rewrite Z.sub_0_r. reflexivity. Qed.

Lemma lxor_word a b : word64 a -> word64 b -> word64 (Z.lxor a b).
Proof.
  rewrite !word64_bits. intros [Ha Ba] [Hb Bb]. split; [apply Z.lxor_nonneg; tauto|].
  intros i Hi. rewrite Z.lxor_spec, Ba, Bb by exact Hi. reflexivity.
Qed.

Lemma land_word a b : word64 b -> 0 <= a -> word64 (Z.land a b).
Proof.
  rewrite !word64_bits. intros [Hb Bb] Ha. split; [apply Z.land_nonneg; tauto|].
  intros i Hi. rewrite Z.land_spec, Bb by exact Hi. apply andb_false_r.
Qed.

Lemma not64_word a : word64 (not64 a).
Proof. unfold not64. rewrite wrap_U64. apply Z.mod_pos_bound. reflexivity. Qed.

(** [ROTL64] is the rotation of the 64 bits. *)
Lemma ROTL64_bits x y i : word64 x -> 0 < y < 64 -> 0 <= i < 64 ->
  Z.testbit (ROTL64 x y) i = Z.testbit x ((i - y) mod 64).
Proof.
  intros [Hx Bx]%word64_bits Hy Hi. unfold ROTL64.
  rewrite wrap_U64, Z.lor_spec, Z.mod_pow2_bits_low, Z.shiftl_spec, Z.shiftr_spec by lia.
  destruct (Z.lt_ge_cases i y).
  - rewrite (Z.testbit_neg_r x (i - y)) by lia. cbn. f_equal.
    apply Z.mod_unique with (q := -1); lia.
  - rewrite (Bx (i + (64 - y))) by lia. rewrite orb_false_r. f_equal. symmetry. apply Z.mod_small. lia.
Qed.

Lemma ROTL64_word x y : word64 x -> 0 < y < 64 -> word64 (ROTL64 x y).
Proof.
  intros [Hx Bx]%word64_bits Hy. apply word64_bits. unfold ROTL64. rewrite wrap_U64. split.
  - apply Z.lor_nonneg. split; [apply Z.mod_pos_bound; reflexivity|apply Z.shiftr_nonneg, Hx].
  - intros i Hi. rewrite Z.lor_spec, Z.mod_pow2_bits_high, Z.shiftr_spec, Bx by lia. reflexivity.
Qed.

(** ** The permutation of FIPS 202 *)

Module Fips202.

(** A state is an array of lanes [A[x, y]]; lane [x, y] is word [x + 5 y]. *)
Definition lanes : Type := nat -> nat -> Z.
Definition of_words (st : list Z) : lanes := fun x y => nth (x + 5 * y) st 0.
Definition to_words (A : lanes) : list Z := flat_map (fun y => map (fun x => A x y) (seq 0 5)) (seq 0 5).

Definition theta (A : lanes) : lanes :=
  let C x := Z.lxor (Z.lxor (Z.lxor (Z.lxor (A x 0%nat) (A x 1%nat)) (A x 2%nat)) (A x 3%nat)) (A x 4%nat) in
  let D x := Z.lxor (C ((x + 4) mod 5)%nat) (ROTL64 (C ((x + 1) mod 5)%nat) 1) in
  fun x y => Z.lxor (A x y) (D x).

(** The offset of a lane: the lanes are visited from [1, 0] by [(x, y) -> (y, 2 x + 3 y)]; the
    one visited at time [t] is rotated by [(t + 1) (t + 2) / 2]. *)
Fixpoint rho_walk (fuel : nat) (t : Z) (x y x' y' : nat) : Z :=
  match fuel with
  | O => 0
  | S fuel => if ((x =? x') && (y =? y'))%nat then (t + 1) * (t + 2) / 2
              else rho_walk fuel (t + 1) y ((2 * x + 3 * y) mod 5) x' y'
  end.
Definition rho_offset (x y : nat) : Z := rho_walk 24 0 1 0 x y mod 64.

(** A rotation by 0 is no rotation. *)
Definition rot (w n : Z) : Z := if n =? 0 then w else ROTL64 w n.

Definition rho (A : lanes) : lanes := fun x y => rot (A x y) (rho_offset x y).
Definition pi (A : lanes) : lanes := fun x y => A ((x + 3 * y) mod 5)%nat x.
Definition chi (A : lanes) : lanes :=
  fun x y => Z.lxor (A x y) (Z.land (not64 (A ((x + 1) mod 5)%nat y)) (A ((x + 2) mod 5)%nat y)).

(** The round constants, from the linear feedback register of x^8 + x^6 + x^5 + x^4 + 1. *)
Definition lfsr_step (r : Z) : Z :=
  let r' := Z.shiftl r 1 in if Z.testbit r' 8 then Z.lxor (r' mod 256) 0x71 else r'.
Definition rc (t : nat) : bool := Z.testbit (Nat.iter (t mod 255) lfsr_step 1) 0.
Definition RC (ir : nat) : Z :=
  fold_left (fun acc j => if rc (j + 7 * ir) then Z.lor acc (2 ^ (2 ^ Z.of_nat j - 1)) else acc) (seq 0 7) 0.
Definition iota (ir : nat) (A : lanes) : lanes :=
  fun x y => if ((x =? 0) && (y =? 0))%nat then Z.lxor (A x y) (RC ir) else A x y.

Definition round (A : lanes) (ir : nat) : lanes := iota ir (chi (pi (rho (theta A)))).

(** The lanes are stored between the rounds. *)
Definition step (st : list Z) (ir : nat) : list Z := to_words (round (of_words st) ir).
Definition keccak_f (st : list Z) : list Z := fold_left step (seq 0 24) st.

End Fips202.

(** A list of 25 words, spelled out. *)
Ltac spell25 st H :=
  do 25 (destruct st as [|? st]; [discriminate H|]); destruct st; [|discriminate H].

Lemma theta_spec st : length st = 25%nat ->
  keccakf_theta st = Fips202.to_words (Fips202.theta (Fips202.of_words st)).
Proof. intros H. spell25 st H. cbn -[Z.lxor ROTL64]. reflexivity. Qed.

Lemma rhopi_spec st : length st = 25%nat ->
  keccakf_rhopi st = Fips202.to_words (Fips202.pi (Fips202.rho (Fips202.of_words st))).
Proof. intros H. spell25 st H. cbn -[Z.lxor ROTL64]. reflexivity. Qed.

Lemma chi_spec st : length st = 25%nat ->
  keccakf_chi st = Fips202.to_words (Fips202.chi (Fips202.of_words st)).
Proof. intros H. spell25 st H. cbn -[Z.lxor Z.land not64]. reflexivity. Qed.

Lemma RC_table : map Fips202.RC (seq 0 24) = keccakf_rndc.
Proof. vm_compute. reflexivity. Qed.

(** The first lane changed. *)
Definition xor_first (c : Z) (A : Fips202.lanes) : Fips202.lanes :=
  fun x y => if ((x =? 0) && (y =? 0))%nat then Z.lxor (A x y) c else A x y.

Lemma xor_first_spec st c : length st = 25%nat ->
  xor_word st 0 c = Fips202.to_words (xor_first c (Fips202.of_words st)).
Proof. intros H. spell25 st H. cbn -[Z.lxor]. reflexivity. Qed.

Lemma RC_nth r : (r < 24)%nat -> nth r keccakf_rndc 0 = Fips202.RC r.
Proof.
  intros Hr. rewrite <- RC_table.
  rewrite (nth_indep _ 0 (Fips202.RC 0)) by (rewrite length_map, length_seq; exact Hr).
  rewrite map_nth, seq_nth by exact Hr. reflexivity.
Qed.

Lemma iota_spec st r : length st = 25%nat -> (r < 24)%nat ->
  keccakf_iota st r = Fips202.to_words (Fips202.iota r (Fips202.of_words st)).
Proof. intros H Hr. unfold keccakf_iota. rewrite RC_nth by exact Hr. apply xor_first_spec, H. Qed.

(** Storing the lanes between the steps of a round changes nothing. *)
Lemma stored_rhopi A : Fips202.to_words (Fips202.pi (Fips202.rho (Fips202.of_words (Fips202.to_words A)))) =
  Fips202.to_words (Fips202.pi (Fips202.rho A)).
Proof. cbn -[ROTL64]. reflexivity. Qed.

Lemma stored_chi A : Fips202.to_words (Fips202.chi (Fips202.of_words (Fips202.to_words A))) =
  Fips202.to_words (Fips202.chi A).
Proof. cbn -[Z.lxor Z.land not64]. reflexivity. Qed.

Lemma stored_first c A : Fips202.to_words (xor_first c (Fips202.of_words (Fips202.to_words A))) =
  Fips202.to_words (xor_first c A).
Proof. cbn -[Z.lxor]. reflexivity. Qed.

Lemma stored_iota r A : Fips202.to_words (Fips202.iota r (Fips202.of_words (Fips202.to_words A))) =
  Fips202.to_words (Fips202.iota r A).
Proof. apply stored_first. Qed.

Lemma to_words_length A : length (Fips202.to_words A) = 25%nat.
Proof. reflexivity. Qed.

Lemma round_spec st r : length st = 25%nat -> (r < 24)%nat ->
  keccakf_round st r = Fips202.step st r.
Proof.
  intros H Hr. unfold keccakf_round, Fips202.step, Fips202.round.
  rewrite theta_spec, rhopi_spec, chi_spec, iota_spec by (assumption || apply to_words_length).
  rewrite stored_rhopi, stored_chi, stored_iota. reflexivity.
Qed.

Lemma step_length st r : length (Fips202.step st r) = 25%nat.
Proof. apply to_words_length. Qed.

Lemma fold_left_cons {A B} (f : A -> B -> A) x l a : fold_left f (x :: l) a = fold_left f l (f a x).
Proof. reflexivity. Qed.

(** The permutation, one round at a time. *)
Lemma fold_rounds rs : forall st, length st = 25%nat -> Forall (fun r => (r < 24)%nat) rs ->
  fold_left keccakf_round rs st = fold_left Fips202.step rs st.
Proof.
  induction rs as [|r rs IH]; intros st H Hr; [reflexivity|]. rewrite !fold_left_cons.
  inversion_clear Hr as [|? ? H1 H2]. rewrite (round_spec st r H H1).
  exact (IH (Fips202.step st r) (step_length st r) H2).
Qed.

Lemma keccakf_fips st : length st = 25%nat -> keccakf st 24 = Fips202.keccak_f st.
Proof.
  intros H. unfold keccakf, Fips202.keccak_f. rewrite fold_rounds; [reflexivity|exact H|].
  apply Forall_forall. intros r Hr. apply in_seq in Hr. lia.
Qed.

(** ** Shape of the results *)

Lemma round_length st r : length st = 25%nat -> length (keccakf_round st r) = 25%nat.
Proof.
  intros H. unfold keccakf_round. rewrite theta_spec, rhopi_spec, chi_spec by (assumption || apply to_words_length).
  unfold keccakf_iota, xor_word. rewrite set_nth_length. apply to_words_length.
Qed.

Lemma keccakf_length st n : length st = 25%nat -> length (keccakf st n) = 25%nat.
Proof.
  unfold keccakf. generalize (seq 0 n). intros rs. revert st.
  induction rs as [|r rs IH]; intros st H; [exact H|]. rewrite fold_left_cons. apply IH, round_length, H.
Qed.

Lemma xor_block_length st n bs : length (xor_block st n bs) = length st.
Proof.
  unfold xor_block. generalize (seq 0 n). intros rs. revert st.
  induction rs as [|r rs IH]; intros st; [reflexivity|].
  rewrite fold_left_cons, IH. unfold xor_word. apply set_nth_length.
Qed.

Lemma keccak_absorb_length fuel rsiz : forall st inp, length st = 25%nat ->
  length (fst (keccak_absorb fuel rsiz st inp)) = 25%nat.
Proof.
  induction fuel as [|fuel IH]; intros st inp H; cbn [keccak_absorb]; [exact H|].
  destruct (_ <=? _)%nat; [|exact H]. apply IH, keccakf_length. rewrite xor_block_length. exact H.
Qed.

(** The fuel is enough: what is left is shorter than a block. *)
Lemma keccak_absorb_rest fuel rsiz : (0 < rsiz)%nat -> forall st inp, (length inp < fuel)%nat ->
  (length (snd (keccak_absorb fuel rsiz st inp)) < rsiz)%nat.
Proof.
  intros Hr. induction fuel as [|fuel IH]; intros st inp H; [lia|]. cbn [keccak_absorb].
  destruct (Nat.leb_spec rsiz (length inp)); [|assumption]. apply IH. rewrite length_skipn. lia.
Qed.

Lemma cn_fast_hash_ok data : Z.of_nat (length data) < 2 ^ 31 ->
  exists h, cn_fast_hash data = Some h /\ Forall byte h /\ length h = 32%nat.
Proof.
  intros H. unfold cn_fast_hash, hash_process, keccak1600, keccak.
  replace (Z.of_nat (length data) <=? i_max I32) with true by (symmetry; apply Z.leb_le; cbn; lia).
  cbn [andb Z.eqb Pos.eqb HASH_DATA_AREA Z.ltb Z.leb Z.compare Pos.compare Pos.compare_cont].
  pose proof (keccak_absorb_length (S (length data)) (Z.to_nat 136) (repeat 0 25) data eq_refl) as L.
  destruct (keccak_absorb _ _ _ _) as [st rest]. cbn [fst] in L. cbn [obind].
  eexists. split; [reflexivity|]. rewrite firstn_firstn. split; [apply firstn_byte, bytes64_byte|].
  rewrite length_firstn, bytes64_length, keccakf_length by (rewrite xor_block_length; exact L).
  reflexivity.
Qed.

(** ** The state stays an array of 64-bit words *)

Lemma at64_word st i : Forall word64 st -> word64 (at64 st i).
Proof.
  intros H. unfold at64. destruct (nth_in_or_default i st 0) as [Hi| ->]; [|unfold word64; lia].
  rewrite Forall_forall in H. apply H, Hi.
Qed.

Lemma xor_word_words st i t : Forall word64 st -> word64 t -> Forall word64 (xor_word st i t).
Proof. intros H Ht. apply set_nth_Forall; [exact H|]. apply lxor_word; [apply at64_word, H|exact Ht]. Qed.

(** A loop whose body keeps an invariant. *)
Lemma fold_left_inv {A B} (P : A -> Prop) (f : A -> B -> A) l : (forall a b, In b l -> P a -> P (f a b)) ->
  forall a, P a -> P (fold_left f l a).
Proof.
  induction l as [|b l IH]; intros Hf a Ha; [exact Ha|]. rewrite fold_left_cons.
  apply IH; [intros; apply Hf; [right|]; assumption|]. apply Hf; [left; reflexivity|exact Ha].
Qed.

Lemma theta_words st : Forall word64 st -> Forall word64 (keccakf_theta st).
Proof.
  intros H. unfold keccakf_theta. set (bc := map _ (seq 0 5)).
  assert (Forall word64 bc) as Hb.
  { unfold bc. apply Forall_map, Forall_forall. intros i _. repeat apply lxor_word; apply at64_word, H. }
  clearbody bc. apply fold_left_inv; [|exact H]. intros st' i _ H'.
  apply fold_left_inv; [|exact H']. intros st'' j _ H''. apply xor_word_words; [exact H''|].
  apply lxor_word; [|apply ROTL64_word; [|lia]]; apply at64_word, Hb.
Qed.

Lemma rhopi_words st : Forall word64 st -> Forall word64 (keccakf_rhopi st).
Proof.
  intros H. unfold keccakf_rhopi.
  apply (fold_left_inv (fun p => Forall word64 (fst p) /\ word64 (snd p))); [|split; [exact H|apply at64_word, H]].
  intros [st' t] i Hi [H' Ht]. cbn [fst snd] in *. split; [|apply at64_word, H'].
  apply set_nth_Forall; [exact H'|]. apply ROTL64_word; [exact Ht|]. apply in_seq in Hi.
  assert (Forall (fun r => 0 < r < 64) keccakf_rotc) as R by (unfold keccakf_rotc; repeat constructor; lia).
  rewrite Forall_forall in R. apply R, nth_In. cbn. lia.
Qed.

Lemma chi_words st : Forall word64 st -> Forall word64 (keccakf_chi st).
Proof.
  intros H. unfold keccakf_chi. apply fold_left_inv; [|exact H]. intros st' j _ H'. cbv zeta.
  set (bc := map _ (seq 0 5)). assert (Forall word64 bc) as Hb.
  { unfold bc. apply Forall_map, Forall_forall. intros i _. apply at64_word, H'. }
  clearbody bc. apply fold_left_inv; [|exact H']. intros st'' i _ H''. apply xor_word_words; [exact H''|].
  apply land_word; [apply at64_word, Hb|]. apply not64_word.
Qed.

Lemma iota_words st r : Forall word64 st -> Forall word64 (keccakf_iota st r).
Proof.
  intros H. apply xor_word_words; [exact H|]. apply (at64_word keccakf_rndc r).
  unfold keccakf_rndc. repeat (constructor; [split; [discriminate|reflexivity]|]). constructor.
Qed.

Lemma keccakf_words st n : Forall word64 st -> Forall word64 (keccakf st n).
Proof.
  intros H. unfold keccakf. apply fold_left_inv; [|exact H]. intros st' r _ H'.
  apply iota_words, chi_words, rhopi_words, theta_words, H'.
Qed.

(** ** The sponge of FIPS 202 *)

Module Sponge.

(** Multi-rate padding of [n] bytes to a multiple of [r]: a one bit, zeros, a one bit. *)
Definition pad (r n : nat) : list Z :=
  let q := (r - n mod r)%nat in
  if (q =? 1)%nat then [0x81] else [0x01] ++ repeat 0 (q - 2) ++ [0x80].

(** One block of [r] bytes is added to the state, extended by zeros to its 200 bytes. *)
Definition absorb (r : nat) (S P : list Z) : list Z :=
  Fips202.keccak_f (map (fun '(a, b) => Z.lxor a b) (combine S (words64 25 (P ++ repeat 0 (200 - r))))).

(** The state after absorbing a padded message. *)
Definition sponge (r : nat) (msg : list Z) : list Z :=
  fold_left (absorb r) (chunks (length msg / r + 1) r (msg ++ pad r (length msg))) (repeat 0 25).

End Sponge.

Lemma words64_app n m : forall bs cs, length bs = (8 * n)%nat -> words64 (n + m) (bs ++ cs) = words64 n bs ++ words64 m cs.
Proof.
  induction n as [|n IH]; intros bs cs L; [destruct bs; [reflexivity|discriminate L]|]. cbn [Nat.add words64 app].
  rewrite firstn_app, skipn_app. replace (8 - length bs)%nat with 0%nat by lia. rewrite firstn_O, skipn_O, app_nil_r.
  f_equal. apply IH. rewrite length_skipn. lia.
Qed.

Lemma xor_block_spec st block : length st = 25%nat -> length block = 136%nat ->
  xor_block st 17 block = map (fun '(a, b) => Z.lxor a b) (combine st (words64 25 (block ++ repeat 0 64))).
Proof.
  intros H L. rewrite (words64_app 17 8) by exact L. unfold xor_block. cbv zeta.
  pose proof (words64_length 17 block) as W. change (words64 8 (repeat 0 64)) with (repeat 0 8).
  generalize dependent (words64 17 block). intros ws W. spell25 st H.
  do 17 (destruct ws as [|? ws]; [discriminate W|]); destruct ws; [|discriminate W].
  cbn -[Z.lxor]. rewrite !Z.lxor_0_r. reflexivity.
Qed.

Lemma keccak_pad_spec rest : (length rest < 136)%nat -> keccak_pad 136 rest = rest ++ Sponge.pad 136 (length rest).
Proof.
  intros L. unfold keccak_pad, Sponge.pad. cbv zeta. rewrite Nat.mod_small by exact L.
  destruct (Nat.eqb_spec (136 - length rest) 1) as [E|N].
  - replace (136 - length rest - 1)%nat with 0%nat by lia. replace (136 - 1)%nat with (length rest) by lia.
    cbn [repeat app]. rewrite nth_middle. apply set_nth_app.
  - replace (136 - length rest - 1)%nat with (S (136 - length rest - 2)) by lia.
    set (k := (136 - length rest - 2)%nat). cbn [repeat]. rewrite repeat_cons, !app_assoc.
    replace (136 - 1)%nat with (length ((rest ++ [1]) ++ repeat 0 k)) by (rewrite !length_app, repeat_length; unfold k; cbn [length]; lia).
    rewrite nth_middle. apply set_nth_app.
Qed.

Lemma absorb_block st block : length st = 25%nat -> length block = 136%nat ->
  keccakf (xor_block st 17 block) 24 = Sponge.absorb 136 st block.
Proof.
  intros H L. rewrite keccakf_fips by (rewrite xor_block_length; exact H). rewrite xor_block_spec by assumption. reflexivity.
Qed.

Lemma absorb_length r st P : length (Sponge.absorb r st P) = 25%nat.
Proof.
  unfold Sponge.absorb, Fips202.keccak_f. change (seq 0 24) with (seq 0 23 ++ [23%nat]). rewrite fold_left_app.
  apply step_length.
Qed.

(** The loop over full blocks, then the padded rest. *)
Lemma keccak_absorb_spec fuel : forall st inp, length st = 25%nat -> (length inp < fuel)%nat ->
  (let '(st', rest) := keccak_absorb fuel 136 st inp in keccakf (xor_block st' 17 (keccak_pad 136 rest)) 24) =
  fold_left (Sponge.absorb 136) (chunks (length inp / 136 + 1) 136 (inp ++ Sponge.pad 136 (length inp))) st.
Proof.
  induction fuel as [|fuel IH]; intros st inp H F; [lia|]. cbn [keccak_absorb].
  destruct (Nat.leb_spec 136 (length inp)) as [Le|Lt].
  - assert (length (firstn 136 inp) = 136%nat) as Lf by (rewrite length_firstn; lia).
    change (136 / 8)%nat with 17%nat. unfold KECCAK_ROUNDS. rewrite absorb_block by assumption.
    rewrite IH by (rewrite ?length_skipn, ?absorb_length; lia || reflexivity).
    assert (length inp / 136 = S (length (skipn 136 inp) / 136))%nat as ->.
    { rewrite length_skipn. replace (length inp) with (length inp - 136 + 1 * 136)%nat at 1 by lia.
      rewrite Nat.div_add by lia. lia. }
    cbn [Nat.add chunks]. rewrite fold_left_cons, firstn_app, skipn_app.
    replace (136 - length inp)%nat with 0%nat by lia. rewrite firstn_O, skipn_O, app_nil_r.
    replace (Sponge.pad 136 (length inp)) with (Sponge.pad 136 (length (skipn 136 inp))); [reflexivity|].
    unfold Sponge.pad. rewrite length_skipn.
    replace (length inp mod 136)%nat with ((length inp - 136 + 1 * 136) mod 136)%nat by (f_equal; lia).
    rewrite Nat.Div0.mod_add. reflexivity.
  - rewrite Nat.div_small by exact Lt. cbn [Nat.add chunks]. rewrite fold_left_cons.
    change (fold_left (Sponge.absorb 136) [] ?x) with x. rewrite keccak_pad_spec by exact Lt.
    assert (length (inp ++ Sponge.pad 136 (length inp)) = 136%nat) as Lp.
    { rewrite length_app. unfold Sponge.pad. cbv zeta. rewrite Nat.mod_small by exact Lt.
      destruct (Nat.eqb_spec (136 - length inp) 1); [cbn [length]; lia|]. rewrite !length_app, repeat_length. cbn [length]. lia. }
    rewrite firstn_all2 by lia. apply absorb_block; assumption.
Qed.

Lemma keccak1600_spec inp : Z.of_nat (length inp) < 2 ^ 31 ->
  keccak1600 inp = Some (bytes64 (Sponge.sponge 136 inp)).
Proof.
  intros H. unfold keccak1600, keccak.
  replace (Z.of_nat (length inp) <=? i_max I32) with true by (symmetry; apply Z.leb_le; cbn; lia).
  cbn [andb Z.eqb Pos.eqb HASH_DATA_AREA Z.ltb Z.leb Z.compare Pos.compare Pos.compare_cont].
  change (Z.to_nat HASH_DATA_AREA) with 136%nat. change (136 / 8)%nat with 17%nat. unfold KECCAK_ROUNDS.
  pose proof (keccak_absorb_spec (S (length inp)) (repeat 0 25) inp eq_refl (Nat.lt_succ_diag_r _)) as E.
  destruct (keccak_absorb _ _ _ _) as [st rest]. rewrite E. f_equal. apply firstn_all2.
  rewrite bytes64_length. fold (Sponge.sponge 136 inp).
  assert (length (Sponge.sponge 136 inp) = 25%nat) as ->; [|reflexivity].
  unfold Sponge.sponge. rewrite Nat.add_1_r. cbn [chunks]. rewrite fold_left_cons.
  apply (fold_left_inv (fun st => length st = 25%nat)); intros; apply absorb_length.
Qed.

(** ** The random generator (random.c)

    The generator keeps a Keccak state, seeded once by the operating system; every
    request permutes it and copies out up to 136 bytes at a time.  [curstate] is
    the flag of debug builds that catches concurrent use: 0 before
    initialisation, 1 when idle, 2 during a request.  The seed is an argument. *)

Record rng := mk_rng { rng_words : list Z; curstate : Z }.

(** The static storage before the initialiser runs. *)
Definition rng_static : rng := mk_rng (repeat 0 25) 0.

(** [seed]: the 32 bytes [generate_system_random_bytes] wrote. *)
Definition init_random (seed : list Z) (r : rng) : option rng :=
  let state := words64 4 seed ++ skipn 4 (rng_words r) in
  _ <- c_assert (curstate r =? 0) ;;
  Some (mk_rng state 1).

Definition deinit_random (r : rng) : option rng :=
  _ <- c_assert (curstate r =? 1) ;;
  Some (mk_rng (repeat 0 25) 0).

(** The loop; [fuel] bounds the number of permutations. *)
Fixpoint random_loop (fuel n : nat) (state : list Z) : option (list Z * list Z) :=
  match fuel with
  | O => None
  | S fuel =>
      let state := hash_permutation state in
      if (n <=? Z.to_nat HASH_DATA_AREA)%nat then Some (firstn n (bytes64 state), state)
      else
        '(result, state') <- random_loop fuel (n - Z.to_nat HASH_DATA_AREA) state ;;
        Some (firstn (Z.to_nat HASH_DATA_AREA) (bytes64 state) ++ result, state')
  end.

Definition generate_random_bytes (n : nat) (r : rng) : option (list Z * rng) :=
  _ <- c_assert (curstate r =? 1) ;;
  let r := mk_rng (rng_words r) 2 in
  if (n =? 0)%nat then
    _ <- c_assert (curstate r =? 2) ;; Some ([], mk_rng (rng_words r) 1)
  else
    '(result, state) <- random_loop (S n) n (rng_words r) ;;
    _ <- c_assert (curstate r =? 2) ;;
    Some (result, mk_rng state 1).

(** ** Invariant: an idle generator with 25 words *)

Definition rng_ok (r : rng) : Prop :=
  length (rng_words r) = 25%nat /\ Forall word64 (rng_words r) /\ curstate r = 1.

Lemma random_loop_ok fuel : forall n state, (n < fuel)%nat -> length state = 25%nat -> Forall word64 state ->
  total (random_loop fuel n state) (fun '(bs, state') =>
    length bs = n /\ Forall byte bs /\ length state' = 25%nat /\ Forall word64 state').
Proof.
  induction fuel as [|fuel IH]; intros n state Hn Hl Hw; [lia|]. cbn [random_loop].
  assert (length (hash_permutation state) = 25%nat) as L' by (apply keccakf_length, Hl).
  assert (Forall word64 (hash_permutation state)) as W' by (apply keccakf_words, Hw).
  set (s' := hash_permutation state) in *. clearbody s'.
  pose proof (bytes64_length s') as LB. rewrite L' in LB.
  destruct (Nat.leb_spec n (Z.to_nat HASH_DATA_AREA)) as [H|H]; change (Z.to_nat HASH_DATA_AREA) with 136%nat in *.
  - apply total_ret. rewrite length_firstn, LB. split; [lia|]. split; [apply firstn_byte, bytes64_byte|auto].
  - eapply total_bind; [apply (IH (n - 136)%nat s'); [lia|assumption..]|].
    intros [bs s''] (L1 & B1 & L2 & W2). apply total_ret. rewrite length_app, length_firstn, LB, L1.
    split; [lia|]. split; [|auto]. apply Forall_app. split; [apply firstn_byte, bytes64_byte|exact B1].
Qed.

Lemma generate_random_bytes_ok n r : rng_ok r ->
  total (generate_random_bytes n r) (fun '(bs, r') => length bs = n /\ Forall byte bs /\ rng_ok r').
Proof.
  intros (L & W & C). unfold generate_random_bytes. rewrite C. cbn [Z.eqb Pos.eqb c_assert obind].
  destruct (Nat.eqb_spec n 0) as [-> |N].
  - apply total_ret. split; [reflexivity|]. split; [constructor|]. split; [exact L|]. auto.
  - eapply total_bind; [apply (random_loop_ok (S n) n); [lia|assumption..]|].
    intros [bs s] (L1 & B1 & L2 & W2). cbn [curstate Z.eqb Pos.eqb c_assert obind]. apply total_ret.
    split; [exact L1|]. split; [exact B1|]. split; [exact L2|]. auto.
Qed.

Lemma init_random_ok seed : Forall byte seed -> total (init_random seed rng_static) rng_ok.
Proof.
  intros H. unfold init_random. cbn [rng_static curstate Z.eqb c_assert obind rng_words]. apply total_ret.
  split; [|split; [|reflexivity]]; cbn [rng_words].
  - rewrite length_app, words64_length. reflexivity.
  - apply Forall_app. split; [apply words64_word, H|].
    cbn. repeat (constructor; [split; [discriminate|reflexivity]|]). constructor.
Qed.

(** ** The generator as a state machine *)

(** The calls of the module that return. *)
Inductive rng_step : rng -> rng -> Prop :=
| rng_init seed r r' : Forall byte seed -> init_random seed r = Some r' -> rng_step r r'
| rng_generate n bs r r' : generate_random_bytes n r = Some (bs, r') -> rng_step r r'
| rng_deinit r r' : deinit_random r = Some r' -> rng_step r r'.

Inductive rng_reachable : rng -> Prop :=
| reach_static : rng_reachable rng_static
| reach_step r r' : rng_reachable r -> rng_step r r' -> rng_reachable r'.

(** Between calls the generator is off or idle, and holds 25 words. *)
Definition rng_inv (r : rng) : Prop :=
  length (rng_words r) = 25%nat /\ Forall word64 (rng_words r) /\ (curstate r = 0 \/ curstate r = 1).

Lemma zero_words n : Forall word64 (repeat 0 n).
Proof. apply Forall_forall. intros w ->%repeat_spec. split; [discriminate|reflexivity]. Qed.

Lemma Forall_skipn_word n ws : Forall word64 ws -> Forall word64 (skipn n ws).
Proof. intros H. rewrite <- (firstn_skipn n ws) in H. apply Forall_app in H. tauto. Qed.

Lemma Some_inj {A} (a b : A) : Some a = Some b -> a = b.
Proof. congruence. Qed.

Lemma rng_step_inv r r' : rng_inv r -> rng_step r r' -> rng_inv r'.
Proof.
  intros I S. revert I. destruct S as [seed r0 r1 B E|n bs r0 r1 E|r0 r1 E]; intros (L & W & C).
  - unfold init_random in E. cbv zeta in E. run_step E. apply Some_inj in E as <-. split; [|split; [|auto]]; cbn [rng_words].
    + rewrite length_app, words64_length, length_skipn, L. reflexivity.
    + apply Forall_app. split; [apply words64_word, B|apply Forall_skipn_word, W].
  - destruct C as [C|C].
    + unfold generate_random_bytes in E. rewrite C in E. discriminate E.
    + destruct (generate_random_bytes_ok n r0 (conj L (conj W C))) as ([bs' r''] & E' & _ & _ & (L' & W' & C')).
      rewrite E in E'. injection E' as -> <-. repeat split; auto.
  - unfold deinit_random in E. run_step E. injection E as <-. split; [reflexivity|]. split; [exact (zero_words 25)|auto].
Qed.

Lemma rng_reachable_inv r : rng_reachable r -> rng_inv r.
Proof.
  induction 1 as [|r r' _ IH S]; [|exact (rng_step_inv r r' IH S)].
  split; [reflexivity|]. split; [exact (zero_words 25)|auto].
Qed.
