(* ===== verification/Varint.v ===== *)
(** * Variable-length integers (Common/Varint.h, Common/StreamTools.cpp)

    Both encoders, [Tools::write_varint] and [Common::writeVarint], and both
    decoders, [Tools::read_varint] and [Common::readVarint].  The specification:
    an integer has one canonical encoding, its base-128 digits with the
    continuation bit set on all but the last, the last one nonzero unless it is
    the only one.  The encoders write it and the decoders accept nothing else. *)

From Stdlib Require Import ZArith Lia List Bool.
Import ListNotations.
From S2P Require Import Prelude Bytes.
Set Default Goal Selector "!".

(** ** The code *)

(** [write_varint]: the loop writes at most ten bytes of a 64-bit integer. *)
Fixpoint write_varint_loop (fuel : nat) (i : Z) : list Z :=
  match fuel with
  | O => []
  | S fuel => if 0x80 <=? i then wrap U8 (Z.lor (Z.land i 0x7f) 0x80) :: write_varint_loop fuel (Z.shiftr i 7)
              else [wrap U8 i]
  end.
Definition write_varint (i : Z) : list Z := write_varint_loop 10 i.

(** [Common::writeVarint] *)
Fixpoint writeVarint_loop (fuel : nat) (value : Z) : list Z :=
  match fuel with
  | O => []
  | S fuel => if 0x80 <=? value then wrap U8 (Z.lor value 0x80) :: writeVarint_loop fuel (Z.shiftr value 7)
              else [wrap U8 value]
  end.
Definition writeVarint (value : Z) : list Z := writeVarint_loop 10 value.

(** [read_varint<bits>]: the return value, the integer and the rest of the input. *)
Fixpoint read_varint_loop (bits shift : Z) (inp : list Z) (read i : Z) : Z * Z * list Z :=
  match inp with
  | [] => (read, i, [])
  | byte :: inp =>
      let read := read + 1 in
      if (bits <=? shift + 7) && (Z.shiftl 1 (bits - shift) <=? byte) then (-1, i, inp)
      else if (byte =? 0) && negb (shift =? 0) then (-2, i, inp)
      else
        let i := Z.lor i (wrap U64 (Z.shiftl (Z.land byte 0x7f) shift)) in
        if Z.land byte 0x80 =? 0 then (read, i, inp)
        else read_varint_loop bits (shift + 7) inp read i
  end.
Definition read_varint (bits : Z) (inp : list Z) : Z * Z * list Z := read_varint_loop bits 0 inp 0 0.

(** [Common::readVarint] for an unsigned type of [w] bits; the exceptions as values. *)
Inductive varint_error := EndOfStream | ValueOverflow | InvalidRepresentation.

Fixpoint readVarint_loop (w shift temp : Z) (inp : list Z) : varint_error + Z * list Z :=
  match inp with
  | [] => inl EndOfStream
  | piece :: inp =>
      if (w - 7 <=? shift) && (Z.shiftl 1 (w - shift) <=? piece) then inl ValueOverflow
      else
        let temp := Z.lor temp (wrap U64 (Z.shiftl (Z.land piece 0x7f) shift)) mod 2 ^ w in
        if Z.land piece 0x80 =? 0 then
          if (piece =? 0) && negb (shift =? 0) then inl InvalidRepresentation else inr (temp, inp)
        else readVarint_loop w (shift + 7) temp inp
  end.
Definition readVarint (w : Z) (inp : list Z) : varint_error + Z * list Z := readVarint_loop w 0 0 inp.

Definition readVarint_u8 (inp : list Z) : varint_error + Z * list Z := readVarint 8 inp.
Definition readVarint_u16 (inp : list Z) : varint_error + Z * list Z := readVarint 16 inp.
Definition readVarint_u32 (inp : list Z) : varint_error + Z * list Z := readVarint 32 inp.

(** ** The canonical encoding *)

(** The value of groups of seven bits, and the canonical form; [first] is false after the first
    byte, when a zero byte is not allowed. *)
Fixpoint group_val (bs : list Z) : Z :=
  match bs with [] => 0 | b :: bs => b mod 128 + 128 * group_val bs end.

Fixpoint canonical (first : bool) (bs : list Z) : Prop :=
  match bs with
  | [] => False
  | [b] => 0 <= b < 128 /\ (first = true \/ b <> 0)
  | b :: bs => 128 <= b < 256 /\ canonical false bs
  end.

Lemma canonical_cons f b bs : bs <> [] -> canonical f (b :: bs) <-> 128 <= b < 256 /\ canonical false bs.
Proof. destruct bs; [contradiction|]. reflexivity. Qed.

Lemma canonical_nonnil f bs : canonical f bs -> bs <> [].
Proof. intros H ->. exact H. Qed.

Lemma canonical_byte f bs : canonical f bs -> Forall byte bs.
Proof.
  revert f. induction bs as [|b [|c bs] IH]; intros f H; [constructor| |].
  - constructor; [unfold byte; cbn in H; lia|constructor].
  - destruct H as [H1 H2]. constructor; [unfold byte; lia|exact (IH false H2)].
Qed.

Lemma group_val_nonneg bs : 0 <= group_val bs.
Proof.
  induction bs as [|b bs IH]; cbn [group_val]; [lia|]. pose proof (Z.mod_pos_bound b 128 ltac:(lia)). lia.
Qed.

Lemma canonical_pos bs : canonical false bs -> 0 < group_val bs.
Proof.
  induction bs as [|b [|c bs] IH]; [contradiction| |].
  - cbn. intros [H [D|D]]; [discriminate|]. rewrite Z.mod_small by lia. lia.
  - intros [H1 H2]. specialize (IH H2). cbn [group_val] in *.
    pose proof (Z.mod_pos_bound b 128 ltac:(lia)). lia.
Qed.

Lemma group_val_last b : 0 <= b < 128 -> group_val [b] = b.
Proof. intros H. cbn. rewrite Z.mod_small by lia. lia. Qed.

Lemma group_val_more b bs : 128 <= b < 256 -> group_val (b :: bs) = b - 128 + 128 * group_val bs.
Proof.
  intros H. cbn [group_val]. replace (b mod 128) with (b - 128); [reflexivity|].
  apply Z.mod_unique with (q := 1); lia.
Qed.

(** One canonical encoding for each integer. *)
Lemma canonical_unique bs : forall f g cs, canonical f bs -> canonical g cs -> group_val bs = group_val cs -> bs = cs.
Proof.
  induction bs as [|b bs IH]; intros f g cs Hb Hc E; [contradiction|].
  destruct cs as [|c cs]; [contradiction|].
  destruct bs as [|b' bs], cs as [|c' cs].
  - destruct Hb as [Hb _], Hc as [Hc _]. rewrite !group_val_last in E by assumption. congruence.
  - destruct Hb as [Hb _]. apply canonical_cons in Hc as [Hc Hc']; [|discriminate].
    rewrite group_val_last, group_val_more in E by assumption. pose proof (canonical_pos _ Hc'). lia.
  - destruct Hc as [Hc _]. apply canonical_cons in Hb as [Hb Hb']; [|discriminate].
    rewrite group_val_last, group_val_more in E by assumption. pose proof (canonical_pos _ Hb'). lia.
  - apply canonical_cons in Hb as [Hb Hb']; [|discriminate].
    apply canonical_cons in Hc as [Hc Hc']; [|discriminate].
    rewrite (group_val_more b), (group_val_more c) in E by assumption.
    assert (group_val (b' :: bs) = group_val (c' :: cs)) as E' by lia.
    f_equal; [lia|]. exact (IH false false _ Hb' Hc' E').
Qed.

(** ** The encoders *)

Lemma group_byte i : wrap U8 (Z.lor (Z.land i 0x7f) 0x80) = i mod 128 + 128.
Proof.
  change 0x7f with (Z.ones 7). rewrite Z.land_ones by lia.
  change (Z.lor (i mod 2 ^ 7) 0x80) with (Z.lor (i mod 2 ^ 7) (Z.shiftl 1 7)).
  pose proof (Z.mod_pos_bound i (2 ^ 7) ltac:(lia)). rewrite lor_shift by lia.
  change (2 ^ 7) with 128 in *. rewrite wrap_id; [lia|]. apply in_ity_spec. cbn. lia.
Qed.

Lemma group_byte' i : wrap U8 (Z.lor i 0x80) = i mod 128 + 128.
Proof.
  rewrite <- group_byte, !wrap_U8. change 256 with (2 ^ 8). apply Z.bits_inj'. intros k Hk.
  destruct (Z.lt_ge_cases k 8); [|rewrite !Z.mod_pow2_bits_high by lia; reflexivity].
  rewrite !Z.mod_pow2_bits_low, !Z.lor_spec, Z.land_spec by lia.
  change 0x7f with (Z.ones 7). change 0x80 with (2 ^ 7). rewrite Z.pow2_bits_eqb by lia.
  destruct (Z.eqb_spec 7 k); [rewrite !orb_true_r; reflexivity|].
  rewrite Z.ones_spec_low by lia. rewrite andb_true_r. reflexivity.
Qed.

Lemma writeVarint_loop_eq fuel : forall i, writeVarint_loop fuel i = write_varint_loop fuel i.
Proof.
  induction fuel as [|fuel IH]; intros i; cbn [writeVarint_loop write_varint_loop]; [reflexivity|].
  rewrite group_byte, group_byte', IH. reflexivity.
Qed.

Lemma write_varint_loop_ok fuel : forall i first, fuel <> O -> 0 <= i < 128 ^ Z.of_nat fuel -> first = true \/ i <> 0 ->
  canonical first (write_varint_loop fuel i) /\ group_val (write_varint_loop fuel i) = i.
Proof.
  induction fuel as [|fuel IH]; intros i first Hf Hi Hz; [contradiction|].
  rewrite Nat2Z.inj_succ, Z.pow_succ_r in Hi by lia. cbn [write_varint_loop].
  destruct (Z.leb_spec 0x80 i) as [H|H].
  - rewrite group_byte. pose proof (Z.mod_pos_bound i 128 ltac:(lia)) as M.
    rewrite Z.shiftr_div_pow2 by lia. change (2 ^ 7) with 128.
    destruct (IH (i / 128) false) as [C V].
    { intros ->. change (128 ^ Z.of_nat 0) with 1 in Hi. lia. }
    { split; [apply Z.div_pos; lia|apply Z.div_lt_upper_bound; lia]. }
    { right. assert (1 <= i / 128) by (apply Z.div_le_lower_bound; lia). lia. }
    split; [apply canonical_cons; [exact (canonical_nonnil _ _ C)|split; [lia|exact C]]|].
    rewrite group_val_more, V by lia. pose proof (Z.div_mod i 128 ltac:(lia)). lia.
  - rewrite wrap_id by (apply in_ity_spec; cbn; lia). rewrite group_val_last by lia.
    split; [split; [lia|exact Hz]|reflexivity].
Qed.

Lemma write_varint_ok i : 0 <= i < 2 ^ 64 ->
  canonical true (write_varint i) /\ group_val (write_varint i) = i /\ (length (write_varint i) <= 10)%nat.
Proof.
  intros H. destruct (write_varint_loop_ok 10 i true) as [C V]; [discriminate|change (128 ^ Z.of_nat 10) with (2 ^ 70); lia|auto|].
  split; [exact C|]. split; [exact V|].
  assert (forall n j, (length (write_varint_loop n j) <= n)%nat) as L.
  { induction n as [|n IH]; intros j; cbn [write_varint_loop]; [reflexivity|].
    destruct (_ <=? _); cbn; [|lia]. specialize (IH (Z.shiftr j 7)). lia. }
  apply L.
Qed.

Lemma writeVarint_eq i : writeVarint i = write_varint i.
Proof. apply writeVarint_loop_eq. Qed.

(** ** The decoders *)

(** Adding a group above the bits read so far. *)
Lemma add_group temp b shift w : 0 <= shift < w -> w <= 64 -> 0 <= temp < 2 ^ shift -> byte b ->
  2 ^ shift * (b mod 128) < 2 ^ w ->
  Z.lor temp (wrap U64 (Z.shiftl (Z.land b 0x7f) shift)) = temp + 2 ^ shift * (b mod 128).
Proof.
  intros Hs Hw Ht Hb Hv. change 0x7f with (Z.ones 7). rewrite Z.land_ones by lia. change (2 ^ 7) with 128.
  pose proof (Z.mod_pos_bound b 128 ltac:(lia)).
  assert (2 ^ w <= 2 ^ 64) by (apply Z.pow_le_mono_r; lia).
  assert (0 < 2 ^ shift) by (apply Z.pow_pos_nonneg; lia).
  rewrite wrap_id; [apply lor_shift; lia|]. apply in_ity_spec. rewrite Z.shiftl_mul_pow2 by lia. cbn. nia.
Qed.

Lemma continues b : byte b -> (Z.land b 0x80 =? 0) = (b <? 128).
Proof.
  intros Hb. unfold byte in Hb. destruct (Z.eqb_spec (Z.land b 0x80) 0) as [E|N], (Z.ltb_spec b 128) as [L|L]; try reflexivity.
  - exfalso. assert (Z.testbit b 7 = true) as T.
    { apply Z.testbit_true; [lia|]. change (2 ^ 7) with 128. replace (b / 128) with 1; [reflexivity|].
      apply Z.div_unique with (r := b - 128); lia. }
    apply (f_equal (fun z => Z.testbit z 7)) in E. rewrite Z.land_spec, T in E. discriminate.
  - exfalso. apply N. apply Z.bits_inj'. intros k Hk. rewrite Z.land_spec, Z.bits_0.
    change 0x80 with (2 ^ 7). rewrite Z.pow2_bits_eqb by lia. destruct (Z.eqb_spec 7 k) as [<-|]; [|apply andb_false_r].
    rewrite <- (Z.mod_small b (2 ^ 7)) by lia. rewrite Z.mod_pow2_bits_high by lia. reflexivity.
Qed.

(** The overflow test: the byte does not fit in the bits that are left. *)
Lemma fits b shift w : 0 <= shift < w -> byte b ->
  (w - 7 <=? shift) && (Z.shiftl 1 (w - shift) <=? b) = false <->
  (b < 128 -> 2 ^ shift * b < 2 ^ w) /\ (128 <= b -> shift + 7 < w).
Proof.
  intros Hs Hb. unfold byte in Hb. rewrite Z.shiftl_mul_pow2, Z.mul_1_l by lia.
  rewrite andb_false_iff, !Z.leb_gt.
  assert (2 ^ w = 2 ^ shift * 2 ^ (w - shift)) as E by (rewrite <- Z.pow_add_r by lia; f_equal; lia).
  assert (0 < 2 ^ shift) by (apply Z.pow_pos_nonneg; lia).
  assert (w - shift <= 7 -> 2 ^ (w - shift) <= 2 ^ 7) as U by (intros; apply Z.pow_le_mono_r; lia).
  assert (7 <= w - shift -> 2 ^ 7 <= 2 ^ (w - shift)) as V by (intros; apply Z.pow_le_mono_r; lia).
  change (2 ^ 7) with 128 in *. rewrite E. set (p := 2 ^ (w - shift)) in *. clearbody p.
  split.
  - intros [L|L]; (split; [intros Hb7|intros Hb7; try lia]); nia.
  - intros [H1 H2]. destruct (Z.lt_ge_cases b 128) as [L|L]; [|left; specialize (H2 L); lia].
    right. specialize (H1 L). nia.
Qed.

(** The value after a group, and its bounds. *)
Lemma group_bound temp b shift w : 0 <= shift < w -> 0 <= temp < 2 ^ shift -> 0 <= b ->
  2 ^ shift * b < 2 ^ w -> temp + 2 ^ shift * b < 2 ^ w.
Proof.
  intros Hs Ht Hb Hv.
  assert (2 ^ w = 2 ^ shift * 2 ^ (w - shift)) as E by (rewrite <- Z.pow_add_r by lia; f_equal; lia).
  rewrite E in *. apply Z.mul_lt_mono_pos_l in Hv; [|lia].
  assert (2 ^ shift * (b + 1) <= 2 ^ shift * 2 ^ (w - shift)) by (apply Z.mul_le_mono_nonneg_l; lia). lia.
Qed.

Lemma group_more temp b shift : 0 <= shift -> 0 <= temp < 2 ^ shift -> 0 <= b < 128 ->
  0 <= temp + 2 ^ shift * b < 2 ^ (shift + 7).
Proof. intros Hs Ht Hb. rewrite Z.pow_add_r by lia. change (2 ^ 7) with 128. nia. Qed.

Lemma group_acc temp b shift bs : 0 <= shift -> 128 <= b < 256 ->
  temp + 2 ^ shift * group_val (b :: bs) = temp + 2 ^ shift * (b mod 128) + 2 ^ (shift + 7) * group_val bs.
Proof. intros Hs Hb. cbn [group_val]. rewrite Z.pow_add_r by lia. change (2 ^ 7) with 128. ring. Qed.

(** A number with a further group needs more bits. *)
Lemma more_bits temp b shift w bs : 0 <= shift -> 0 <= temp -> 128 <= b < 256 -> canonical false bs ->
  temp + 2 ^ shift * group_val (b :: bs) < 2 ^ w -> shift + 7 < w.
Proof.
  intros Hs Ht Hb Hc H. rewrite group_acc in H by assumption. pose proof (canonical_pos bs Hc).
  pose proof (Z.mod_pos_bound b 128 ltac:(lia)). assert (0 < 2 ^ shift) by (apply Z.pow_pos_nonneg; lia).
  assert (0 < 2 ^ (shift + 7)) by (apply Z.pow_pos_nonneg; lia).
  assert (2 ^ (shift + 7) < 2 ^ w) as L.
  { assert (0 <= 2 ^ shift * (b mod 128)) by (apply Z.mul_nonneg_nonneg; lia).
    assert (2 ^ (shift + 7) * 1 <= 2 ^ (shift + 7) * group_val bs) by (apply Z.mul_le_mono_nonneg_l; lia). lia. }
  destruct (Z.lt_ge_cases w 0) as [N|N]; [rewrite (Z.pow_neg_r 2 w N) in L; lia|].
  apply (Z.pow_lt_mono_r_iff 2); [lia|exact N|exact L].
Qed.

Section Decoders.
Context (w : Z) (Hw : w <= 64).

Lemma readVarint_loop_ok inp : forall shift temp v rest,
  Forall byte inp -> 0 <= shift < w -> 0 <= temp < 2 ^ shift ->
  readVarint_loop w shift temp inp = inr (v, rest) <->
  exists bs, inp = bs ++ rest /\ canonical (shift =? 0) bs /\ v = temp + 2 ^ shift * group_val bs /\ v < 2 ^ w.
Proof.
  induction inp as [|b inp IH]; intros shift temp v rest HB Hs Ht; cbn [readVarint_loop].
  { split; [discriminate|]. intros (bs & E & C & _). destruct bs; [contradiction|discriminate]. }
  inversion_clear HB as [|? ? Hb HB']. pose proof (fits b shift w Hs Hb) as F.
  pose proof Hb as Hb'. unfold byte in Hb'.
  destruct ((w - 7 <=? shift) && (Z.shiftl 1 (w - shift) <=? b)) eqn:O.
  { split; [discriminate|]. intros (bs & E & C & -> & L). exfalso. destruct F as [_ F].
    enough (true = false) by discriminate. apply F. destruct bs as [|c bs]; [contradiction|].
    injection E as <- ->. destruct bs as [|d bs].
    - destruct C as [C _]. rewrite group_val_last in L by exact C. split; [nia|lia].
    - apply canonical_cons in C as [C C']; [|discriminate]. split; [lia|]. intros _.
      eapply more_bits; [| | exact C | exact C' | exact L]; lia. }
  destruct (proj1 F eq_refl) as [F1 F2]. clear F O.
  pose proof (Z.mod_pos_bound b 128 ltac:(lia)) as M. rewrite continues by exact Hb.
  destruct (Z.ltb_spec b 128) as [L|L].
  - specialize (F1 L). rewrite (Z.mod_small b) in M by lia.
    rewrite (add_group temp b shift w) by (try assumption; rewrite ?Z.mod_small by lia; assumption).
    rewrite (Z.mod_small b 128) by lia. pose proof (group_bound temp b shift w Hs Ht (proj1 Hb') F1) as GB.
    rewrite Z.mod_small by nia.
    destruct (Z.eqb_spec b 0) as [Z0|NZ], (Z.eqb_spec shift 0) as [S0|NS]; cbn [andb negb].
    2:{ split; [discriminate|]. intros (bs & E & C & _). destruct bs as [|c bs]; [contradiction|].
        injection E as <- ->. destruct bs; [destruct C as [_ [D|D]]; [discriminate|contradiction]|].
        apply canonical_cons in C as [C _]; [lia|discriminate]. }
    all: (split; [intros [= <- <-]; exists [b]; split; [reflexivity|]; rewrite group_val_last by lia; cbn; intuition lia|];
      intros (bs & E & C & -> & _); destruct bs as [|c bs]; [contradiction|]; injection E as <- ->;
      destruct bs; [rewrite group_val_last by lia; reflexivity|];
      apply canonical_cons in C as [C _]; [lia|discriminate]).
  - specialize (F2 L).
    assert (2 ^ (shift + 7) <= 2 ^ w) as P by (apply Z.pow_le_mono_r; lia).
    pose proof (group_more temp (b mod 128) shift (proj1 Hs) Ht M) as G.
    rewrite (add_group temp b shift w) by (try assumption; lia). rewrite Z.mod_small by lia.
    rewrite IH by (try assumption; lia). replace (shift + 7 =? 0) with false by (symmetry; apply Z.eqb_neq; lia).
    split.
    + intros (bs & -> & C & -> & V). exists (b :: bs). split; [reflexivity|].
      split; [apply canonical_cons; [exact (canonical_nonnil _ _ C)|split; [lia|exact C]]|].
      rewrite group_acc by lia. auto.
    + intros (bs & E & C & -> & V). destruct bs as [|c bs]; [contradiction|]. injection E as <- ->.
      destruct bs as [|d bs]; [destruct C as [C _]; lia|].
      apply canonical_cons in C as [C C']; [|discriminate]. exists (d :: bs). split; [reflexivity|].
      split; [exact C'|]. rewrite group_acc in * by lia. auto.
Qed.

(** The three outcomes of [read_varint]: an error, a canonical prefix, or an input that ends
    inside a number, which is not told apart from success. *)
Lemma read_varint_loop_ok inp : forall shift read i n v rest,
  Forall byte inp -> 0 <= shift < w -> 0 <= i < 2 ^ shift ->
  read_varint_loop w shift inp read i = (n, v, rest) ->
  (n = -1 \/ n = -2) \/
  (exists bs, inp = bs ++ rest /\ canonical (shift =? 0) bs /\ v = i + 2 ^ shift * group_val bs /\ v < 2 ^ w /\
    n = read + Z.of_nat (length bs)) \/
  (Forall (fun b => 128 <= b) inp /\ rest = [] /\ n = read + Z.of_nat (length inp)).
Proof.
  induction inp as [|b inp IH]; intros shift read i n v rest HB Hs Hi; cbn [read_varint_loop].
  { intros [= <- <- <-]. right. right. split; [constructor|]. split; [reflexivity|cbn; lia]. }
  inversion_clear HB as [|? ? Hb HB']. pose proof (fits b shift w Hs Hb) as F.
  pose proof Hb as Hb'. unfold byte in Hb'.
  replace (w <=? shift + 7) with (w - 7 <=? shift) by (apply eq_true_iff_eq; rewrite !Z.leb_le; lia).
  destruct ((w - 7 <=? shift) && (Z.shiftl 1 (w - shift) <=? b)); [intros [= <- <- <-]; auto|].
  destruct (proj1 F eq_refl) as [F1 F2]. clear F.
  destruct ((b =? 0) && negb (shift =? 0)) eqn:NC; [intros [= <- <- <-]; auto|].
  pose proof (Z.mod_pos_bound b 128 ltac:(lia)) as M. rewrite continues by exact Hb.
  destruct (Z.ltb_spec b 128) as [L|L].
  - specialize (F1 L). rewrite (add_group i b shift w) by (try assumption; rewrite ?Z.mod_small by lia; assumption).
    rewrite (Z.mod_small b 128) by lia. intros [= <- <- <-]. right. left. exists [b].
    split; [reflexivity|]. split.
    { split; [lia|]. destruct (Z.eqb_spec b 0), (Z.eqb_spec shift 0); auto. }
    rewrite group_val_last by lia. split; [reflexivity|]. split; [apply group_bound; assumption || lia|cbn; lia].
  - specialize (F2 L). assert (2 ^ (shift + 7) <= 2 ^ w) by (apply Z.pow_le_mono_r; lia).
    pose proof (group_more i (b mod 128) shift (proj1 Hs) Hi M) as G.
    rewrite (add_group i b shift w) by (try assumption; lia). intros H1.
    apply IH in H1; [|assumption|lia|lia]. replace (shift + 7 =? 0) with false in H1 by (symmetry; apply Z.eqb_neq; lia).
    destruct H1 as [E|[(bs & -> & C & -> & V & ->)|(A & -> & ->)]]; [auto| |].
    + right. left. exists (b :: bs). split; [reflexivity|].
      split; [apply canonical_cons; [exact (canonical_nonnil _ _ C)|split; [lia|exact C]]|].
      rewrite group_acc by lia. split; [reflexivity|]. split; [exact V|]. cbn [length]. lia.
    + right. right. split; [constructor; [lia|exact A]|]. split; [reflexivity|]. cbn [length]. lia.
Qed.

Lemma read_varint_loop_accepts bs : forall shift read i rest,
  canonical (shift =? 0) bs -> 0 <= shift < w -> 0 <= i < 2 ^ shift ->
  i + 2 ^ shift * group_val bs < 2 ^ w ->
  read_varint_loop w shift (bs ++ rest) read i = (read + Z.of_nat (length bs), i + 2 ^ shift * group_val bs, rest).
Proof.
  induction bs as [|b bs IH]; intros shift read i rest C Hs Hi V; [contradiction|].
  pose proof (canonical_byte _ _ C) as HB. inversion_clear HB as [|? ? Hb _]. pose proof Hb as Hb'. unfold byte in Hb'.
  cbn [app read_varint_loop].
  replace (w <=? shift + 7) with (w - 7 <=? shift) by (apply eq_true_iff_eq; rewrite !Z.leb_le; lia).
  pose proof (Z.mod_pos_bound b 128 ltac:(lia)) as M.
  destruct bs as [|c bs].
  - destruct C as [C NZ]. rewrite group_val_last in * by exact C.
    rewrite (proj2 (fits b shift w Hs Hb)) by (split; [nia|lia]).
    assert ((b =? 0) && negb (shift =? 0) = false) as ->.
    { destruct NZ as [S0|NZ]; [rewrite S0; apply andb_false_r|]. apply Z.eqb_neq in NZ. rewrite NZ. reflexivity. }
    rewrite continues by exact Hb. replace (b <? 128) with true by (symmetry; apply Z.ltb_lt; lia).
    rewrite (add_group i b shift w) by (try assumption; rewrite ?Z.mod_small by lia; nia).
    rewrite Z.mod_small by lia. reflexivity.
  - apply canonical_cons in C as [C C']; [|discriminate].
    assert (shift + 7 < w) as S7 by (eapply more_bits; [| | exact C | exact C' | exact V]; lia).
    rewrite (proj2 (fits b shift w Hs Hb)) by (split; lia).
    replace (b =? 0) with false by (symmetry; apply Z.eqb_neq; lia). cbn [andb].
    rewrite continues by exact Hb. replace (b <? 128) with false by (symmetry; apply Z.ltb_ge; lia).
    assert (2 ^ (shift + 7) <= 2 ^ w) by (apply Z.pow_le_mono_r; lia).
    pose proof (group_more i (b mod 128) shift (proj1 Hs) Hi M) as G.
    rewrite (add_group i b shift w) by (try assumption; lia). rewrite group_acc in * by lia.
    rewrite (IH (shift + 7)); [| |lia|exact G|exact V].
    + cbn [length]. f_equal. f_equal. lia.
    + replace (shift + 7 =? 0) with false by (symmetry; apply Z.eqb_neq; lia). exact C'.
Qed.

(** On an encoding that is cut off, [read_varint] returns the number of bytes it has. *)
Lemma read_varint_loop_prefix pre : forall shift read i post,
  canonical (shift =? 0) (pre ++ post) -> post <> [] -> 0 <= shift < w -> 0 <= i < 2 ^ shift ->
  i + 2 ^ shift * group_val (pre ++ post) < 2 ^ w ->
  read_varint_loop w shift pre read i = (read + Z.of_nat (length pre), i + 2 ^ shift * group_val pre, []).
Proof.
  induction pre as [|b pre IH]; intros shift read i post C N Hs Hi V.
  { cbn. f_equal. f_equal; lia. }
  pose proof (canonical_byte _ _ C) as HB. inversion_clear HB as [|? ? Hb _]. cbn [app] in C, V.
  assert (pre ++ post <> []) as N' by (intros [_ ?]%app_eq_nil; contradiction).
  apply canonical_cons in C as [C C']; [|exact N']. cbn [read_varint_loop].
  replace (w <=? shift + 7) with (w - 7 <=? shift) by (apply eq_true_iff_eq; rewrite !Z.leb_le; lia).
  pose proof (Z.mod_pos_bound b 128 ltac:(lia)) as M.
  assert (shift + 7 < w) as S7 by (eapply more_bits; [| | exact C | exact C' | exact V]; lia).
  rewrite (proj2 (fits b shift w Hs Hb)) by (split; lia).
  replace (b =? 0) with false by (symmetry; apply Z.eqb_neq; lia). cbn [andb].
  rewrite continues by exact Hb. replace (b <? 128) with false by (symmetry; apply Z.ltb_ge; lia).
  assert (2 ^ (shift + 7) <= 2 ^ w) by (apply Z.pow_le_mono_r; lia).
  pose proof (group_more i (b mod 128) shift (proj1 Hs) Hi M) as G.
  rewrite (add_group i b shift w) by (try assumption; lia). rewrite group_acc in * by lia.
  rewrite (IH (shift + 7) _ _ post); [| |exact N|lia|exact G|exact V].
  - cbn [length]. f_equal. f_equal. lia.
  - replace (shift + 7 =? 0) with false by (symmetry; apply Z.eqb_neq; lia). exact C'.
Qed.
End Decoders.

Lemma readVarint_ok w inp v rest : 0 < w <= 64 -> Forall byte inp ->
  readVarint w inp = inr (v, rest) <-> 0 <= v < 2 ^ w /\ inp = writeVarint v ++ rest.
Proof.
  intros Hw HB. unfold readVarint. rewrite readVarint_loop_ok by (try assumption; cbn; lia).
  rewrite writeVarint_eq. assert (2 ^ w <= 2 ^ 64) by (apply Z.pow_le_mono_r; lia). split.
  - intros (bs & -> & C & E & V). rewrite Z.pow_0_r, Z.mul_1_l, Z.add_0_l in E.
    pose proof (group_val_nonneg bs). split; [lia|]. f_equal.
    destruct (write_varint_ok v) as (C' & V' & _); [lia|].
    exact (canonical_unique _ _ _ _ C C' (eq_trans (eq_sym E) (eq_sym V'))).
  - intros [V ->]. destruct (write_varint_ok v) as (C & V' & _); [lia|].
    exists (write_varint v). rewrite V', Z.pow_0_r. split; [reflexivity|]. split; [exact C|]. lia.
Qed.

(** An input that ends before a number does is refused by [readVarint]. *)
Lemma readVarint_loop_open w inp : Forall (fun b => 128 <= b < 256) inp -> forall shift temp,
  exists e, readVarint_loop w shift temp inp = inl e.
Proof.
  induction 1 as [|b inp Hb _ IH]; intros shift temp; cbn [readVarint_loop]; [eauto|].
  destruct (_ && _); [eauto|]. rewrite continues by (unfold byte; lia).
  replace (b <? 128) with false by (symmetry; apply Z.ltb_ge; lia). apply IH.
Qed.

Lemma canonical_prefix pre : forall f post, canonical f (pre ++ post) -> post <> [] -> Forall (fun b => 128 <= b < 256) pre.
Proof.
  induction pre as [|b pre IH]; intros f post C N; [constructor|]. cbn [app] in C.
  apply canonical_cons in C as [C C']; [|intros [_ ?]%app_eq_nil; contradiction].
  constructor; [exact C|exact (IH false post C' N)].
Qed.
