(* ===== verification/Primes.v ===== *)
(** * Primality of the field characteristic and of the group order

    Pocklington's criterion, checked by evaluation, and certificates for
    [2^255 - 19] and [2^252 + 27742317777372353535851937790883648493]. *)

From Stdlib Require Import ZArith Lia List Bool Znumtheory Zmod.
Import ListNotations.
From S2P Require Import Prelude.
Set Default Goal Selector "!".

(** ** Evaluation of powers *)

Section Powmod.
(** Reduction modulo [n], in any way that is right on products of residues. *)
Context (n : Z) (red : Z -> Z) (Hn : 0 < n).
Context (Hred : forall x, 0 <= x < n * n -> red x = x mod n).

Fixpoint powmod (a : Z) (e : positive) : Z :=
  match e with
  | xH => a
  | xO e => let b := powmod a e in red (b * b)
  | xI e => let b := powmod a e in red (red (b * b) * a)
  end.

Lemma red_mul a b : 0 <= a < n -> 0 <= b < n -> red (a * b) = a * b mod n.
Proof.
  intros Ha Hb. apply Hred. split; [apply Z.mul_nonneg_nonneg; lia|apply Z.mul_lt_mono_nonneg; lia].
Qed.

Lemma powmod_ok a e : 0 <= a < n -> powmod a e = a ^ Zpos e mod n.
Proof.
  intros Ha. assert (forall z, 0 <= z mod n < n) as B by (intros; apply Z.mod_pos_bound; lia).
  induction e as [e IH|e IH|]; cbn [powmod].
  - rewrite IH, (red_mul (_ mod n)), <- Z.mul_mod, red_mul, Z.mul_mod_idemp_l by (auto; lia).
    rewrite Pos2Z.inj_xI, Z.pow_add_r, Z.pow_1_r, Z.pow_mul_r, Z.pow_2_r, <- Z.pow_mul_l by lia.
    f_equal.
  - rewrite IH, red_mul, <- Z.mul_mod by (auto; lia). rewrite <- Z.pow_add_r by lia.
    replace (Zpos e + Zpos e) with (Zpos e~0) by lia. reflexivity.
  - rewrite Z.pow_1_r, Z.mod_small by assumption. reflexivity.
Qed.

Lemma powmod_range a e : 0 <= a < n -> 0 <= powmod a e < n.
Proof. intros Ha. rewrite powmod_ok by assumption. apply Z.mod_pos_bound, Hn. Qed.
End Powmod.

(** ** Small primes, by trial division *)

Definition divides_none (n : Z) (k : nat) : bool :=
  forallb (fun i => negb (n mod (2 + Z.of_nat i) =? 0)) (seq 0 k).

Definition small_prime (n : Z) : bool :=
  (1 <? n) && divides_none n (Z.to_nat (Z.sqrt n - 1)).

Lemma composite_small n m : 1 < m < n -> (m | n) -> exists d, (d | n) /\ 1 < d /\ d * d <= n.
Proof.
  intros Hm [k Hk]. destruct (Z.le_gt_cases m k).
  - exists m. split; [exists k; assumption|]. split; [lia|]. subst n. apply Z.mul_le_mono_nonneg_r; lia.
  - exists k. assert (1 < k) by nia. split; [exists m; lia|]. split; [assumption|]. subst n.
    apply Z.mul_le_mono_nonneg_l; lia.
Qed.

Lemma small_prime_ok n : small_prime n = true -> Z.prime n.
Proof.
  unfold small_prime, divides_none. rewrite andb_true_iff, forallb_forall, Z.ltb_lt.
  intros [H1 H2]. split; [exact H1|]. intros m Hm Hd.
  destruct (composite_small n m Hm Hd) as (d & Dd & D1 & D2).
  assert (d <= Z.sqrt n) as Hs by (apply Z.sqrt_le_square; lia).
  specialize (H2 (Z.to_nat (d - 2))). rewrite in_seq in H2.
  specialize (H2 ltac:(lia)). rewrite negb_true_iff, Z.eqb_neq in H2. apply H2.
  rewrite Z2Nat.id by lia. replace (2 + (d - 2)) with d by lia.
  apply Z.mod_divide; [lia|assumption].
Qed.

(** ** Pocklington's criterion *)

Lemma prime_divisor n : 1 < n -> exists r, Z.prime r /\ (r | n).
Proof.
  intros Hn. assert (0 <= n) as H0 by lia. revert Hn. pattern n. apply Zlt_0_ind; [|assumption].
  clear. intros n IH _ Hn. destruct (Znumtheory.prime_dec n) as [P|N].
  - exists n. split; [apply prime_alt, P|apply Z.divide_refl].
  - destruct (not_prime_divide n Hn N) as (d & Hd & D).
    destruct (IH d ltac:(lia) ltac:(lia)) as (r & R1 & R2).
    exists r. split; [exact R1|]. eapply Z.divide_trans; eassumption.
Qed.

(** If [b^q = 1] but [b <> 1] modulo a prime [r], for a prime [q], then [q] divides [r - 1]. *)
Lemma order_divides b q r : Z.prime q -> Z.prime r ->
  b ^ q ≡[r] 1 -> ~ (b ≡[r] 1) -> (q | r - 1).
Proof.
  intros Hq Hr Hbq Hb1. pose proof (Z.prime_ge_2 _ Hq). pose proof (Z.prime_ge_2 _ Hr).
  destruct (Z.BoolSpec_divide q (r - 1)) as [D|N]; [exact D|exfalso].
  pose proof (Z.coprime_prime_l q (r - 1) Hq N) as C.
  apply Z.Bezout_coprime_iff in C as (u & v & E).
  assert (b mod r <> 0) as Hb0.
  { intros E0. apply Hb1. apply cong_eq_mod in Hbq; [|lia].
    rewrite <- Z.mod_pow_l, E0, Z.pow_0_l, Z.mod_0_l in Hbq by lia. rewrite Z.mod_small in Hbq; lia. }
  assert (b ^ (r - 1) ≡[r] 1) as Hf.
  { apply cong_eq_mod; [lia|]. rewrite (Z.mod_small 1) by lia. apply Z.fermat_nz; assumption. }
  apply Hb1.
  (* move to non-negative coefficients: u' q = v' (r - 1) + 1 *)
  set (u' := u + (Z.abs u + Z.abs v) * (r - 1)). set (v' := (Z.abs u + Z.abs v) * q - v).
  assert (0 <= u') by (unfold u'; nia). assert (0 <= v') by (unfold v'; nia).
  assert (q * u' = (r - 1) * v' + 1) as E'.
  { unfold u', v'. generalize (Z.abs u + Z.abs v). intros w. clear - E. lia. }
  clearbody u' v'. assert (0 <= (r - 1) * v') by (apply Z.mul_nonneg_nonneg; lia).
  assert (b ^ (q * u') ≡[r] 1) as P1.
  { rewrite Z.pow_mul_r by lia. rewrite (cong_pow r _ _ u' ltac:(lia) Hbq).
    rewrite Z.pow_1_l by lia. reflexivity. }
  rewrite E', Z.pow_add_r, Z.pow_mul_r, Z.pow_1_r in P1 by lia.
  rewrite (cong_pow r _ _ v' ltac:(lia) Hf), Z.pow_1_l, Z.mul_1_l in P1 by lia. exact P1.
Qed.

Fixpoint product (qs : list Z) : Z := match qs with [] => 1 | q :: qs => q * product qs end.

Lemma product_divides qs m : Forall Z.prime qs -> NoDup qs -> Forall (fun q => (q | m)) qs ->
  (product qs | m).
Proof.
  intros Hp Hn Hd. induction Hp as [|q qs Hq Hqs IH]; cbn [product]; [apply Z.divide_1_l|].
  inversion_clear Hn as [|? ? N1 N2]. inversion_clear Hd as [|? ? D1 D2].
  specialize (IH N2 D2). destruct IH as [k Ek].
  assert (Z.coprime q (product qs)) as C.
  { clear - Hq Hqs N1. induction Hqs as [|x qs Hx _ IH]; cbn [product]; [apply Z.coprime_1_r|].
    apply Z.coprime_mul_r.
    - apply Z.coprime_prime_l; [exact Hq|]. intros D%Z.divide_prime_prime; try assumption.
      apply N1. left. congruence.
    - apply IH. intros Hin. apply N1. right. exact Hin. }
  rewrite Ek, Z.mul_comm in D1. apply Z.gauss in D1; [|exact C].
  destruct D1 as [j ->]. exists j. rewrite Ek. ring.
Qed.

Lemma product_in q qs : In q qs -> (q | product qs).
Proof.
  induction qs as [|x qs IH]; intros []; cbn [product].
  - subst. apply Z.divide_factor_l.
  - apply Z.divide_mul_r, IH, H.
Qed.

Lemma product_pos qs : Forall Z.prime qs -> 0 < product qs.
Proof.
  induction 1 as [|q qs Hq _ IH]; cbn [product]; [lia|]. pose proof (Z.prime_ge_2 _ Hq).
  apply Z.mul_pos_pos; lia.
Qed.

(** [n] is prime if the product of the distinct primes [q :: qs], which divides [n - 1], exceeds
    the square root of [n], and [a] has the orders that the criterion asks for. *)
Definition pocklington (n : Z) (red : Z -> Z) (a q : Z) (qs : list Z) : bool :=
  let f := product (q :: qs) in
  let c := powmod red a (Z.to_pos ((n - 1) / f)) in
  let b := powmod red c (Z.to_pos (f / q)) in
  (1 <? n) && (0 <=? a) && (a <? n) && ((n - 1) mod f =? 0) && (0 <? (n - 1) / f) &&
  (powmod red b (Z.to_pos q) =? 1) && (Z.gcd (b - 1) n =? 1) &&
  forallb (fun q => Z.gcd (powmod red c (Z.to_pos (f / q)) - 1) n =? 1) qs &&
  (n <? (f + 1) * (f + 1)).

(** A prime [r] that divides [n] cannot divide [b mod n - 1] when that is coprime to [n]. *)
Lemma not_one_mod n r b : (r | n) -> 1 < n -> 1 < r -> Z.gcd (b mod n - 1) n = 1 -> ~ (b ≡[r] 1).
Proof.
  intros Rn Hn Hr G [k Ek]. assert (r | Z.gcd (b mod n - 1) n) as D.
  { apply Z.gcd_greatest; [|assumption]. destruct Rn as [j Ej].
    pose proof (Z.div_mod b n ltac:(lia)) as DM. exists (k - j * (b / n)).
    rewrite Ej in DM at 1. lia. }
  rewrite G in D. apply Z.divide_1_r_nonneg in D; lia.
Qed.

Lemma pocklington_ok n red a q qs : (forall x, 0 <= x < n * n -> red x = x mod n) ->
  pocklington n red a q qs = true -> Forall Z.prime (q :: qs) -> NoDup (q :: qs) -> Z.prime n.
Proof.
  unfold pocklington. intros Hred. set (f := product (q :: qs)).
  rewrite !andb_true_iff, forallb_forall, !Z.ltb_lt, !Z.eqb_eq, Z.leb_le.
  intros [[[[[[[[Hn A0] A1] Ff] Fp] C1] C2] C3] HF] Hp Nd.
  set (c := powmod red a (Z.to_pos ((n - 1) / f))) in *.
  pose proof (product_pos _ Hp) as Pf. fold f in Pf.
  assert (0 <= c < n) as Hc by (apply (powmod_range n red); auto; lia).
  assert (forall q', In q' (q :: qs) -> 1 < q' /\ 0 < f / q' /\ f = q' * (f / q')) as Hqf.
  { intros q' Hin. rewrite Forall_forall in Hp. pose proof (Z.prime_ge_2 _ (Hp q' Hin)).
    assert (q' | f) as [k Ek] by (apply product_in, Hin). rewrite Ek, Z.div_mul by lia.
    assert (0 < k) by nia. lia. }
  split; [exact Hn|]. intros m Hm Hd.
  destruct (composite_small n m Hm Hd) as (d & Dd & D1 & D2).
  destruct (prime_divisor d D1) as (r & Hr & Rd). pose proof (Z.prime_ge_2 _ Hr).
  assert (r | n) as Rn by (eapply Z.divide_trans; eassumption).
  assert (r <= d) by (apply Z.divide_pos_le; [lia|assumption]).
  assert (c ^ f ≡[r] 1) as Cf.
  { apply (cong_weaken r n); [assumption|]. destruct (Hqf q ltac:(left; reflexivity)) as (? & ? & E).
    rewrite (powmod_ok n red), (powmod_ok n red), !Z2Pos.id, Z.mod_pow_l in C1
      by (auto; try lia; apply (powmod_range n red); auto; lia).
    rewrite E, Z.mul_comm, Z.pow_mul_r by lia. apply cong_eq_mod; [lia|]. rewrite C1.
    symmetry. apply Z.mod_small. lia. }
  assert (f | r - 1) as PD.
  { apply product_divides; [assumption..|]. apply Forall_forall. intros q' Hin.
    destruct (Hqf q' Hin) as (? & ? & E). rewrite Forall_forall in Hp.
    apply (order_divides (c ^ (f / q')) q' r); [auto|assumption| |].
    - rewrite <- Z.pow_mul_r by lia. rewrite Z.mul_comm, <- E. exact Cf.
    - apply (not_one_mod n); [assumption|lia..|].
      rewrite <- (Z2Pos.id (f / q')), <- (powmod_ok n red) by (auto; lia).
      destruct Hin as [<- | Hin]; [exact C2|]. apply Z.eqb_eq, C3, Hin. }
  apply Z.divide_pos_le in PD; [|lia].
  assert ((f + 1) * (f + 1) <= d * d) by (apply Z.mul_le_mono_nonneg; lia). lia.
Qed.

(** Reduction by a guessed quotient, [mu] being 2^(2k) / n: the guess is checked, so that the
    result is right whatever [k] and [mu] are. *)
Definition guess_red (n k mu x : Z) : Z :=
  let r := x - Z.shiftr (Z.shiftr x (k - 1) * mu) (k + 1) * n in
  if r <? 0 then x mod n else
  if r <? n then r else
  if r - n <? n then r - n else x mod n.

Lemma guess_red_ok n k mu x : guess_red n k mu x = x mod n.
Proof.
  unfold guess_red. set (q := Z.shiftr _ (k + 1)). clearbody q.
  destruct (Z.ltb_spec (x - q * n) 0); [reflexivity|].
  destruct (Z.ltb_spec (x - q * n) n); [apply cong_small; [lia|exists (- q); lia]|].
  destruct (Z.ltb_spec (x - q * n - n) n); [apply cong_small; [lia|exists (- q - 1); lia]|].
  reflexivity.
Qed.

Ltac prove_nodup :=
  repeat (apply NoDup_cons; [cbn; lia|]); apply NoDup_nil.

Ltac pock a q qs :=
  lazymatch goal with |- Z.prime ?n =>
    let k := eval vm_compute in (Z.log2 n + 1) in
    let mu := eval vm_compute in (2 ^ (2 * k) / n) in
    apply (pocklington_ok n _ a q qs (fun x _ => guess_red_ok n k mu x))
  end;
  [vm_compute; reflexivity|repeat (apply Forall_cons; [eauto with primes nocore|]); apply Forall_nil
  |prove_nodup].

Ltac trial := apply small_prime_ok; vm_compute; reflexivity.

(** ** Certificates *)

Create HintDb primes discriminated.

Lemma prime_991 : Z.prime 991.
Proof. trial. Qed.
#[local] Hint Resolve prime_991 : primes.
Lemma prime_103 : Z.prime 103.
Proof. trial. Qed.
#[local] Hint Resolve prime_103 : primes.
Lemma prime_8574133 : Z.prime 8574133.
Proof. pock 2 991 [103]. Qed.
#[local] Hint Resolve prime_8574133 : primes.
Lemma prime_127 : Z.prime 127.
Proof. trial. Qed.
#[local] Hint Resolve prime_127 : primes.
Lemma prime_1919519569386763 : Z.prime 1919519569386763.
Proof. pock 2 8574133 [127]. Qed.
#[local] Hint Resolve prime_1919519569386763 : primes.
Lemma prime_569003 : Z.prime 569003.
Proof. trial. Qed.
#[local] Hint Resolve prime_569003 : primes.
Lemma prime_2773320623 : Z.prime 2773320623.
Proof. pock 2 569003 (@nil Z). Qed.
#[local] Hint Resolve prime_2773320623 : primes.
Lemma prime_72106336199 : Z.prime 72106336199.
Proof. pock 2 2773320623 (@nil Z). Qed.
#[local] Hint Resolve prime_72106336199 : primes.
Lemma prime_75445702479781427272750846543864801 : Z.prime 75445702479781427272750846543864801.
Proof. pock 2 1919519569386763 [72106336199]. Qed.
#[local] Hint Resolve prime_75445702479781427272750846543864801 : primes.
Lemma prime_430751 : Z.prime 430751.
Proof. trial. Qed.
#[local] Hint Resolve prime_430751 : primes.
Lemma prime_4153 : Z.prime 4153.
Proof. trial. Qed.
#[local] Hint Resolve prime_4153 : primes.
Lemma prime_31757755568855353 : Z.prime 31757755568855353.
Proof. pock 2 430751 [4153]. Qed.
#[local] Hint Resolve prime_31757755568855353 : primes.
Lemma prime_74058212732561358302231226437062788676166966415465897661863160754340907 : Z.prime 74058212732561358302231226437062788676166966415465897661863160754340907.
Proof. pock 2 75445702479781427272750846543864801 [31757755568855353]. Qed.
#[local] Hint Resolve prime_74058212732561358302231226437062788676166966415465897661863160754340907 : primes.

(** ** The field of the curve *)

Definition p25519 : Z := 2 ^ 255 - 19.

(** Reduction modulo [p]: the bits above 2^255 count 19 times. *)
Definition p_ones : Z := Eval vm_compute in Z.ones 255.
Definition p_lit : Z := Eval vm_compute in p25519.
Definition p_fold (x : Z) : Z := Z.land x p_ones + 19 * Z.shiftr x 255.
Definition p_red (x : Z) : Z :=
  let y := p_fold (p_fold x) in if y <? p_lit then y else y - p_lit.

Lemma p_fold_ok x : p_fold x ≡[p25519] x.
Proof.
  unfold p_fold, p25519. change p_ones with (Z.ones 255). rewrite Z.land_ones, Z.shiftr_div_pow2 by lia.
  pose proof (Z.div_mod x (2 ^ 255) ltac:(discriminate)) as E. exists (- (x / 2 ^ 255)). lia.
Qed.

Lemma p_fold_range x b : 0 <= x < 2 ^ 255 * b -> 0 <= p_fold x < 2 ^ 255 + 19 * b.
Proof.
  intros Hx. unfold p_fold. change p_ones with (Z.ones 255). rewrite Z.land_ones, Z.shiftr_div_pow2 by lia.
  pose proof (Z.mod_pos_bound x (2 ^ 255) ltac:(lia)).
  assert (0 <= x / 2 ^ 255) by (apply Z.div_pos; lia).
  assert (x / 2 ^ 255 < b) by (apply Z.div_lt_upper_bound; lia). lia.
Qed.

Lemma p_red_wide x : 0 <= x < 2 ^ 512 -> p_red x = x mod p25519.
Proof.
  intros Hx. unfold p_red. change p_lit with p25519.
  assert (p_fold (p_fold x) ≡[p25519] x) as E by (rewrite !p_fold_ok; reflexivity).
  assert (0 <= p_fold x < 2 ^ 255 * 128) as B1.
  { pose proof (p_fold_range x (2 ^ 257)) as B. revert Hx B. norm_pow2. lia. }
  apply p_fold_range in B1. set (y := p_fold (p_fold x)) in *. clearbody y. unfold p25519 in *.
  destruct (Z.ltb_spec y (2 ^ 255 - 19)).
  - apply cong_small; [lia|exact E].
  - apply cong_small; [lia|]. rewrite <- E. exists (-1). lia.
Qed.

Lemma p_red_ok x : 0 <= x < p25519 * p25519 -> p_red x = x mod p25519.
Proof. intros Hx. apply p_red_wide. split; [apply Hx|]. etransitivity; [apply Hx|reflexivity]. Qed.

Lemma p25519_prime : Z.prime p25519.
Proof.
  apply (pocklington_ok _ p_red 2
    74058212732561358302231226437062788676166966415465897661863160754340907 [] p_red_ok);
  [vm_compute; reflexivity|repeat (apply Forall_cons; [eauto with primes nocore|]); apply Forall_nil
  |prove_nodup].
Qed.
