(* ===== verification/AbGroup.v ===== *)
(** * Abelian groups and multiples

    The interface between the curve and the code that uses it: an abelian group
    with the multiples of its elements by integers.  The curve of Edwards.v is an
    instance; scalar multiplication and everything above it is stated in terms
    of the interface. *)

From Stdlib Require Import ZArith Lia List Setoid.
Import ListNotations.
From S2P Require Import Prelude.
Set Default Goal Selector "!".

Class AbGroup (G : Type) := {
  gzero : G;
  gadd : G -> G -> G;
  gopp : G -> G;
  gadd_assoc : forall a b c, gadd a (gadd b c) = gadd (gadd a b) c;
  gadd_comm : forall a b, gadd a b = gadd b a;
  gadd_0_l : forall a, gadd gzero a = a;
  gadd_opp_l : forall a, gadd (gopp a) a = gzero
}.

Declare Scope group_scope.
Delimit Scope group_scope with G.
Infix "+" := gadd : group_scope.
Notation "- a" := (gopp a) : group_scope.
Notation "a - b" := (gadd a (gopp b)) : group_scope.

Section Multiples.
Context {G : Type} {GA : AbGroup G}.
Open Scope group_scope.

Lemma gadd_0_r a : a + gzero = a.
Proof. rewrite gadd_comm. apply gadd_0_l. Qed.

Lemma gadd_opp_r a : a - a = gzero.
Proof. rewrite gadd_comm. apply gadd_opp_l. Qed.

Lemma gadd_cancel_l a b c : a + b = a + c -> b = c.
Proof.
  intros E. rewrite <- (gadd_0_l b), <- (gadd_0_l c), <- (gadd_opp_l a), <- !gadd_assoc, E.
  reflexivity.
Qed.

Lemma gopp_unique a b : a + b = gzero -> b = - a.
Proof. intros E. apply (gadd_cancel_l a). rewrite E, gadd_opp_r. reflexivity. Qed.

Lemma gopp_zero : - gzero = gzero.
Proof. symmetry. apply gopp_unique, gadd_0_l. Qed.

Lemma gopp_opp a : - - a = a.
Proof. symmetry. apply gopp_unique, gadd_opp_l. Qed.

Lemma gadd_swap a b c d : (a + b) + (c + d) = (a + c) + (b + d).
Proof.
  rewrite <- !gadd_assoc. f_equal. rewrite !gadd_assoc. f_equal. apply gadd_comm.
Qed.

Lemma gopp_add a b : - (a + b) = - a - b.
Proof.
  symmetry. apply gopp_unique. rewrite gadd_swap, !gadd_opp_r. apply gadd_0_l.
Qed.

(** Multiples by double-and-add. *)
Definition gmul (n : Z) (a : G) : G :=
  match n with
  | Z0 => gzero
  | Zpos p => Pos.iter_op gadd p a
  | Zneg p => - Pos.iter_op gadd p a
  end.

Lemma iter_op_succ p a : Pos.iter_op gadd (Pos.succ p) a = a + Pos.iter_op gadd p a.
Proof. apply Pos.iter_op_succ. apply gadd_assoc. Qed.

Lemma gmul_0 a : gmul 0 a = gzero.
Proof. reflexivity. Qed.

Lemma gmul_1 a : gmul 1 a = a.
Proof. reflexivity. Qed.

Lemma gmul_succ n a : gmul (n + 1) a = gmul n a + a.
Proof.
  destruct n as [|p|p].
  - symmetry. apply gadd_0_l.
  - change (Z.pos p + 1)%Z with (Z.pos (p + 1)).
    rewrite Pos.add_1_r. cbn [gmul]. rewrite iter_op_succ. apply gadd_comm.
  - destruct (Pos.eq_dec p 1) as [-> | Hp].
    + cbn. rewrite gadd_opp_l. reflexivity.
    + rewrite <- (Pos.succ_pred p Hp). set (q := Pos.pred p).
      replace (Z.neg (Pos.succ q) + 1)%Z with (Z.neg q) by lia. cbn [gmul].
      rewrite iter_op_succ, gopp_add, (gadd_comm (- a)), <- gadd_assoc, gadd_opp_l, gadd_0_r.
      reflexivity.
Qed.

Lemma gmul_add m n a : gmul (m + n) a = gmul m a + gmul n a.
Proof.
  revert m. assert (forall k : nat, forall m, gmul (m + Z.of_nat k) a = gmul m a + gmul (Z.of_nat k) a) as Pn.
  { induction k as [|k IH]; intros m.
    - rewrite Z.add_0_r, gmul_0, gadd_0_r. reflexivity.
    - rewrite Nat2Z.inj_succ. unfold Z.succ. rewrite Z.add_assoc, !gmul_succ, IH, gadd_assoc.
      reflexivity. }
  intros m. destruct (Z.le_gt_cases 0 n).
  - rewrite <- (Z2Nat.id n) by assumption. apply Pn.
  - specialize (Pn (Z.to_nat (- n))). rewrite Z2Nat.id in Pn by lia.
    pose proof (Pn (m + n)%Z) as E1. replace (m + n + - n)%Z with m in E1 by lia.
    pose proof (Pn n) as E2. replace (n + - n)%Z with 0%Z in E2 by lia. rewrite gmul_0 in E2.
    apply (gadd_cancel_l (gmul (- n) a)). rewrite (gadd_comm _ (gmul (m + n) a)), <- E1.
    rewrite gadd_comm, <- gadd_assoc, (gadd_comm _ (gmul (- n) a)), (gadd_comm (gmul (- n) a)).
    rewrite <- E2, gadd_0_r. reflexivity.
Qed.

Lemma gmul_opp n a : gmul (- n) a = - gmul n a.
Proof.
  apply gopp_unique. rewrite <- gmul_add, Z.add_opp_diag_r. reflexivity.
Qed.

Lemma gmul_sub m n a : gmul (m - n) a = gmul m a - gmul n a.
Proof. rewrite <- gmul_opp, <- gmul_add. reflexivity. Qed.

(** A property of multiples that holds at 0, steps up and is stable under opposites. *)
Lemma multiples_ind (P : Z -> Prop) :
  P 0%Z -> (forall n, P n -> P (n + 1)%Z) -> (forall n, P n -> P (- n)%Z) -> forall n, P n.
Proof.
  intros H0 Hs Ho. assert (forall k : nat, P (Z.of_nat k)) as Hk.
  { induction k as [|k IH]; [exact H0|]. rewrite Nat2Z.inj_succ. apply Hs, IH. }
  intros n. destruct (Z.le_gt_cases 0 n).
  - rewrite <- (Z2Nat.id n) by assumption. apply Hk.
  - replace n with (- Z.of_nat (Z.to_nat (- n)))%Z by lia. apply Ho, Hk.
Qed.

Lemma gmul_gadd n a b : gmul n (a + b) = gmul n a + gmul n b.
Proof.
  pattern n. apply multiples_ind; clear n.
  - symmetry. apply gadd_0_l.
  - intros n IH. rewrite !gmul_succ, IH. apply gadd_swap.
  - intros n IH. rewrite !gmul_opp, IH. apply gopp_add.
Qed.

Lemma gmul_zero n : gmul n gzero = gzero.
Proof.
  pattern n. apply multiples_ind; clear n.
  - reflexivity.
  - intros n IH. rewrite gmul_succ, IH. apply gadd_0_l.
  - intros n IH. rewrite gmul_opp, IH. apply gopp_zero.
Qed.

Lemma gmul_gopp n a : gmul n (- a) = - gmul n a.
Proof. apply gopp_unique. rewrite <- gmul_gadd, gadd_opp_r. apply gmul_zero. Qed.

Lemma gmul_mul m n a : gmul (m * n) a = gmul m (gmul n a).
Proof.
  pattern m. apply multiples_ind; clear m.
  - reflexivity.
  - intros m IH. rewrite Z.mul_add_distr_r, Z.mul_1_l, gmul_add, gmul_succ, IH. reflexivity.
  - intros m IH. rewrite Z.mul_opp_l, !gmul_opp, IH. reflexivity.
Qed.

Lemma gmul_2 a : gmul 2 a = a + a.
Proof. reflexivity. Qed.

Lemma gmul_double n a : gmul (2 * n) a = gmul n a + gmul n a.
Proof. rewrite <- gmul_add. f_equal. lia. Qed.

(** An element of order dividing [m]: only the multiplier modulo [m] matters. *)
Lemma gmul_mod_order n m a : m <> 0%Z -> gmul m a = gzero -> gmul (n mod m) a = gmul n a.
Proof.
  intros Hm H. rewrite (Z.div_mod n m Hm) at 2.
  rewrite gmul_add, Z.mul_comm, gmul_mul, H, gmul_zero, gadd_0_l. reflexivity.
Qed.
End Multiples.
