(* ===== verification/EdwardsLaw.v ===== *)
(** * The addition law of twisted Edwards curves with a = -1

    Over any field with a square root [i] of -1 in which [d] is not a square
    (stated as: [s^2 = d t^2] only for [t = 0]), the addition law is complete,
    closed and associative on -x^2 + y^2 = 1 + d x^2 y^2. *)

From Stdlib Require Import Ring Field.
Set Default Goal Selector "!".

Section Law.
Context {F : Type} {zero one : F} {add mul sub : F -> F -> F} {opp : F -> F}
        {div : F -> F -> F} {inv : F -> F}.
Context (Fth : field_theory zero one add mul sub opp div inv eq).
Add Field F_law : Fth.

Declare Scope law_scope.
Local Infix "+" := add : law_scope.
Local Infix "-" := sub : law_scope.
Local Infix "*" := mul : law_scope.
Local Infix "/" := div : law_scope.
Local Notation "- x" := (opp x) : law_scope.
Local Notation "0" := zero : law_scope.
Local Notation "1" := one : law_scope.
Local Open Scope law_scope.

Context (d i : F) (i_spec : i * i = - (1)) (two : 1 + 1 <> 0) (d_nz : d <> 0).
Context (nonsquare : forall s t, s * s = d * (t * t) -> t = 0).

Lemma one_nz : 1 <> 0.
Proof. apply (F_1_neq_0 Fth). Qed.

Lemma div_cancel a b : a <> 0 -> a * b = 0 -> b = 0.
Proof. intros Ha E. replace b with (a * b / a) by (field; exact Ha). rewrite E. field. exact Ha. Qed.

Definition on_curve (x y : F) : Prop := y * y - x * x = 1 + d * (x * x) * (y * y).

(** The denominators of the addition law never vanish. *)
Lemma ed_complete x1 y1 x2 y2 : on_curve x1 y1 -> on_curve x2 y2 ->
  let e := d * x1 * x2 * y1 * y2 in e * e <> 1.
Proof.
  intros C1 C2 e He. unfold on_curve in *.
  assert (forall s : F, s * s = 1 -> x1 * y1 * (i * x2 + s * y2) = 0) as Z.
  { intros s Hs. apply (nonsquare (i * x1 + s * e * y1)).
    transitivity (1 + d * (x1 * x1) * (y1 * y1) + (1 + 1) * i * s * e * x1 * y1).
    - rewrite <- C1. transitivity (i * i * (x1 * x1) + s * s * (e * e) * (y1 * y1)
        + (1 + 1) * i * s * e * x1 * y1); [ring|]. rewrite i_spec, Hs, He. ring.
    - transitivity (d * (x1 * x1) * (y1 * y1) * (i * i * (x2 * x2) + s * s * (y2 * y2))
        + (1 + 1) * i * s * e * x1 * y1); [|unfold e; ring].
      rewrite i_spec, Hs. replace (- (1) * (x2 * x2) + 1 * (y2 * y2)) with (y2 * y2 - x2 * x2) by ring.
      rewrite C2. replace (1 + d * (x1 * x1) * (y1 * y1)) with (e * e + d * (x1 * x1) * (y1 * y1))
        by (rewrite He; reflexivity). unfold e. ring. }
  pose proof (Z 1 ltac:(ring)) as Z1. pose proof (Z (- (1)) ltac:(ring)) as Z2.
  assert ((1 + 1) * (x1 * y1 * y2) = 0) as Z3.
  { transitivity (x1 * y1 * (i * x2 + 1 * y2) - x1 * y1 * (i * x2 + - (1) * y2)); [ring|].
    rewrite Z1, Z2. ring. }
  apply div_cancel in Z3; [|exact two].
  apply one_nz. rewrite <- He. transitivity ((x1 * y1 * y2) * (d * x2 * e)); [unfold e; ring|].
  rewrite Z3. ring.
Qed.

Lemma denominators x1 y1 x2 y2 : on_curve x1 y1 -> on_curve x2 y2 ->
  1 + d * x1 * x2 * y1 * y2 <> 0 /\ 1 - d * x1 * x2 * y1 * y2 <> 0.
Proof.
  intros C1 C2. pose proof (ed_complete x1 y1 x2 y2 C1 C2) as H. cbv zeta in H.
  set (e := d * x1 * x2 * y1 * y2) in *. clearbody e.
  split; intros E; apply H.
  - replace e with ((1 + e) - 1) by ring. rewrite E. ring.
  - replace e with (1 - (1 - e)) by ring. rewrite E. ring.
Qed.

(** The addition law. *)
Definition add_x (x1 y1 x2 y2 : F) : F := (x1 * y2 + y1 * x2) / (1 + d * x1 * x2 * y1 * y2).
Definition add_y (x1 y1 x2 y2 : F) : F := (y1 * y2 + x1 * x2) / (1 - d * x1 * x2 * y1 * y2).

(** On the curve, [x^2] and [y^2] are functions of [k = 1 / (1 - d x^2)]. *)
Lemma curve_param x y : on_curve x y -> exists k,
  x * x * k = (k - 1) * (1 / d) /\ y * y = k + (k - 1) * (1 / d).
Proof.
  intros C. unfold on_curve in C.
  assert (1 - d * (x * x) <> 0) as Hk.
  { intros E. apply (one_nz). assert (x = 0) as ->; [|rewrite <- E; ring].
    apply (nonsquare 1). replace (1 * 1) with ((1 - d * (x * x)) + d * (x * x)) by ring.
    rewrite E. ring. }
  exists (1 / (1 - d * (x * x))). split; [field; auto|].
  assert (y * y * (1 - d * (x * x)) = 1 + x * x) as E.
  { replace (y * y * (1 - d * (x * x))) with
      ((y * y - x * x) + x * x - d * (x * x) * (y * y)) by ring. rewrite C. ring. }
  replace (y * y) with (y * y * (1 - d * (x * x)) / (1 - d * (x * x))) by (field; auto).
  rewrite E. field. auto.
Qed.

Lemma inv_d : d * (1 / d) = 1.
Proof. field. exact d_nz. Qed.

Lemma law_on_curve x1 y1 x2 y2 : on_curve x1 y1 -> on_curve x2 y2 ->
  on_curve (add_x x1 y1 x2 y2) (add_y x1 y1 x2 y2).
Proof.
  intros C1 C2. destruct (denominators x1 y1 x2 y2 C1 C2) as [A B].
  destruct (curve_param x1 y1 C1) as (k1 & K1 & Y1). destruct (curve_param x2 y2 C2) as (k2 & K2 & Y2).
  pose proof inv_d as De. unfold on_curve, add_x, add_y.
  generalize dependent (1 / d). intros e K1 Y1 K2 Y2 De. clear C1 C2.
  field_simplify_eq; [|auto]. ring [De K1 K2 Y1 Y2].
Qed.

Lemma frac_eq u v u' v' : v <> 0 -> v' <> 0 -> u * v' = u' * v -> u / v = u' / v'.
Proof.
  intros Hv Hv' E. replace (u / v) with (u * v' / (v * v')) by (field; auto). rewrite E. field. auto.
Qed.

Section Assoc.
Context (x1 y1 x2 y2 x3 y3 : F).
Context (C1 : on_curve x1 y1) (C2 : on_curve x2 y2) (C3 : on_curve x3 y3).

Lemma add_assoc_x :
  add_x x1 y1 (add_x x2 y2 x3 y3) (add_y x2 y2 x3 y3) =
  add_x (add_x x1 y1 x2 y2) (add_y x1 y1 x2 y2) x3 y3.
Proof.
  destruct (denominators _ _ _ _ C1 (law_on_curve _ _ _ _ C2 C3)) as [A _].
  destruct (denominators _ _ _ _ (law_on_curve _ _ _ _ C1 C2) C3) as [B _].
  unfold add_x at 1 3. apply frac_eq; [assumption..|]. clear A B.
  destruct (denominators _ _ _ _ C1 C2), (denominators _ _ _ _ C2 C3).
  destruct (curve_param _ _ C1) as (k1 & K1 & Y1). destruct (curve_param _ _ C2) as (k2 & K2 & Y2).
  destruct (curve_param _ _ C3) as (k3 & K3 & Y3). pose proof inv_d as De. unfold add_x, add_y.
  generalize dependent (1 / d). intros e K1 Y1 K2 Y2 K3 Y3 De.
  field_simplify_eq; [|auto]. ring [De K1 K2 K3 Y1 Y2 Y3].
Qed.

Lemma add_assoc_y :
  add_y x1 y1 (add_x x2 y2 x3 y3) (add_y x2 y2 x3 y3) =
  add_y (add_x x1 y1 x2 y2) (add_y x1 y1 x2 y2) x3 y3.
Proof.
  destruct (denominators _ _ _ _ C1 (law_on_curve _ _ _ _ C2 C3)) as [_ A].
  destruct (denominators _ _ _ _ (law_on_curve _ _ _ _ C1 C2) C3) as [_ B].
  unfold add_y at 1 3. apply frac_eq; [assumption..|]. clear A B.
  destruct (denominators _ _ _ _ C1 C2), (denominators _ _ _ _ C2 C3).
  destruct (curve_param _ _ C1) as (k1 & K1 & Y1). destruct (curve_param _ _ C2) as (k2 & K2 & Y2).
  destruct (curve_param _ _ C3) as (k3 & K3 & Y3). pose proof inv_d as De. unfold add_x, add_y.
  generalize dependent (1 / d). intros e K1 Y1 K2 Y2 K3 Y3 De.
  field_simplify_eq; [|auto]. ring [De K1 K2 K3 Y1 Y2 Y3].
Qed.
End Assoc.
End Law.
