(* ===== verification/Edwards.v ===== *)
(** * The twisted Edwards curve -x^2 + y^2 = 1 + d x^2 y^2 modulo 2^255 - 19

    The abstract group that crypto-ops.c computes in: affine points over the
    field, the complete addition law, and the proof that it is an abelian group.
    [d] is not a square, so that no denominator of the law is zero; from this
    come closure and associativity. *)

From Stdlib Require Import ZArith Lia List Bool Eqdep_dec Zmod Field Setoid Morphisms.
From S2P Require Import Prelude Primes AbGroup EdwardsLaw.
Set Default Goal Selector "!".

(** ** The field *)

Abbreviation F := (Zmod.Zmod p25519).
Declare Scope F_scope.
Delimit Scope F_scope with F.
Bind Scope F_scope with Zmod.Zmod.
Infix "+" := (@Zmod.add p25519) : F_scope.
Infix "-" := (@Zmod.sub p25519) : F_scope.
Infix "*" := (@Zmod.mul p25519) : F_scope.
Infix "/" := (@Zmod.mdiv p25519) : F_scope.
Notation "- x" := (@Zmod.opp p25519 x) : F_scope.
Notation "0" := (@Zmod.zero p25519) : F_scope.
Notation "1" := (@Zmod.one p25519) : F_scope.

Definition F_field_theory := Zmod.field_theory p25519 p25519_prime.
Add Field F_field : F_field_theory.

(** The residue class of an integer. *)
Definition toF (z : Z) : F := Zmod.of_Z p25519 z.

Lemma toF_add a b : toF (a + b) = (toF a + toF b)%F.
Proof. apply Zmod.of_Z_add. Qed.
Lemma toF_sub a b : toF (a - b) = (toF a - toF b)%F.
Proof. apply Zmod.of_Z_sub. Qed.
Lemma toF_mul a b : toF (a * b) = (toF a * toF b)%F.
Proof. apply Zmod.of_Z_mul. Qed.
Lemma toF_opp a : toF (- a) = (- toF a)%F.
Proof. apply Zmod.of_Z_opp. Qed.

Lemma toF_eq a b : toF a = toF b <-> a ≡[p25519] b.
Proof. rewrite cong_eq_mod by discriminate. apply Zmod.of_Z_inj. Qed.

#[export] Instance toF_proper : Proper (cong p25519 ==> eq) toF.
Proof. intros a b. apply toF_eq. Qed.

Lemma toF_0 : toF 0 = 0%F.
Proof. apply Zmod.of_Z_0. Qed.
Lemma toF_1 : toF 1 = 1%F.
Proof. apply Zmod.of_Z_1. Qed.

Lemma toF_pow a n : 0 <= n -> toF (a ^ n) = Zmod.pow (toF a) n.
Proof.
  intros Hn. apply Zmod.unsigned_inj. rewrite Zmod.to_Z_pow_nonneg_r by assumption.
  unfold toF. rewrite !Zmod.unsigned_of_Z. symmetry. apply Z.mod_pow_l.
Qed.

Lemma toF_surj (x : F) : exists z, 0 <= z < p25519 /\ x = toF z.
Proof.
  exists (Zmod.unsigned x). split; [|symmetry; apply Zmod.of_Z_unsigned].
  apply Zmod.unsigned_pos_bound. reflexivity.
Qed.

Lemma F_mul_0 (a b : F) : (a * b = 0)%F -> a = 0%F \/ b = 0%F.
Proof. apply (Zmod.mul_0_iff_prime p25519_prime). Qed.


Definition F_eqb (a b : F) : bool := Zmod.eqb a b.
Lemma F_eqb_eq a b : F_eqb a b = true <-> a = b.
Proof. apply Zmod.eqb_eq. Qed.
Lemma F_neq (a b : F) : F_eqb a b = false -> a <> b.
Proof. intros E ->. rewrite (proj2 (F_eqb_eq b b) eq_refl) in E. discriminate. Qed.
Lemma F_eq_dec (a b : F) : {a = b} + {a <> b}.
Proof.
  destruct (F_eqb a b) eqn:E; [left; apply F_eqb_eq, E|right].
  intros H%F_eqb_eq. congruence.
Qed.

(** ** The constants *)

Definition d_Z : Z :=
  37095705934669439343138083508754565189542113879843219016388785533085940283555.
Definition sqrtm1_Z : Z :=
  19681161376707505956807079304988542015446066515923890162744021073123829784752.

Definition ed_d : F := toF d_Z.
Definition ed_i : F := toF sqrtm1_Z.

Lemma ed_d_spec : (ed_d * toF 121666 = toF (-121665))%F.
Proof. vm_compute. reflexivity. Qed.

Lemma ed_i_spec : (ed_i * ed_i = - (1))%F.
Proof. vm_compute. reflexivity. Qed.

(** [d] is not a square (Euler's criterion). *)
Lemma ed_d_euler : powmod p_red d_Z (Z.to_pos ((p25519 - 1) / 2)) = p25519 - 1.
Proof. vm_compute. reflexivity. Qed.

(** Euler's criterion, for an odd modulus [2 h + 1] and any exponent [h]. *)
Lemma euler_nonsquare p h red z a : Z.prime p -> p = 2 * h + 1 -> 0 < h ->
  (forall x, 0 <= x < p * p -> red x = x mod p) -> 0 <= a < p ->
  powmod red a (Z.to_pos h) = p - 1 -> 2 < p -> ~ (z * z ≡[p] a).
Proof.
  intros Hp E Hh Hred Ha H P2 Ez. rewrite (powmod_ok p red), Z2Pos.id in H by (auto; lia). assert ((z * z) ^ h mod p = p - 1) as H2.
  { rewrite <- H. apply cong_eq_mod; [lia|]. apply cong_pow; [lia|assumption]. }
  rewrite <- Z.pow_2_r, <- Z.pow_mul_r in H2 by lia. replace (2 * h) with (p - 1) in H2 by lia.
  destruct (Z.eq_dec (z mod p) 0) as [E0|Hz].
  - rewrite <- Z.mod_pow_l, E0, Z.pow_0_l, Z.mod_0_l in H2 by lia. lia.
  - rewrite Z.fermat_nz in H2 by assumption. lia.
Qed.

Lemma ed_d_nonsquare (u : F) : (u * u <> ed_d)%F.
Proof.
  destruct (toF_surj u) as (z & _ & ->). rewrite <- toF_mul. unfold ed_d. rewrite toF_eq.
  apply (euler_nonsquare p25519 ((p25519 - 1) / 2) p_red).
  - apply p25519_prime.
  - reflexivity.
  - reflexivity.
  - apply p_red_ok.
  - split; [discriminate|reflexivity].
  - apply ed_d_euler.
  - reflexivity.
Qed.

Lemma ed_nonsquare (s t : F) : (s * s = ed_d * (t * t))%F -> t = 0%F.
Proof.
  intros E. destruct (F_eq_dec t 0) as [|Ht]; [assumption|exfalso].
  apply (ed_d_nonsquare (s / t)%F).
  replace (s / t * (s / t))%F with (s * s / (t * t))%F by (field; auto). rewrite E. field. auto.
Qed.

Lemma ed_d_nz : ed_d <> 0%F.
Proof. apply F_neq. vm_compute. reflexivity. Qed.

Lemma F_two : (1 + 1 <> 0)%F.
Proof. apply F_neq. vm_compute. reflexivity. Qed.

(** ** The group *)

Section Curve.
Local Open Scope F_scope.

Definition on_curve (x y : F) : Prop := y * y - x * x = 1 + ed_d * (x * x) * (y * y).

(** The addition law. *)
Definition add_x (x1 y1 x2 y2 : F) : F := (x1 * y2 + y1 * x2) / (1 + ed_d * x1 * x2 * y1 * y2).
Definition add_y (x1 y1 x2 y2 : F) : F := (y1 * y2 + x1 * x2) / (1 - ed_d * x1 * x2 * y1 * y2).

Lemma ed_denominators x1 y1 x2 y2 : on_curve x1 y1 -> on_curve x2 y2 ->
  1 + ed_d * x1 * x2 * y1 * y2 <> 0 /\ 1 - ed_d * x1 * x2 * y1 * y2 <> 0.
Proof. apply (denominators F_field_theory ed_d ed_i ed_i_spec F_two ed_nonsquare). Qed.

Lemma add_on_curve x1 y1 x2 y2 : on_curve x1 y1 -> on_curve x2 y2 ->
  on_curve (add_x x1 y1 x2 y2) (add_y x1 y1 x2 y2).
Proof. apply (law_on_curve F_field_theory ed_d ed_i ed_i_spec F_two ed_d_nz ed_nonsquare). Qed.

Lemma opp_on_curve x y : on_curve x y -> on_curve (- x) y.
Proof. unfold on_curve. intros C. transitivity (y * y - x * x); [ring|]. rewrite C. ring. Qed.

Lemma zero_on_curve : on_curve 0 1.
Proof. unfold on_curve. ring. Qed.
End Curve.

Definition on_curveb (x y : F) : bool :=
  F_eqb (y * y - x * x) (1 + ed_d * (x * x) * (y * y)).

Lemma on_curveb_ok x y : on_curveb x y = true <-> on_curve x y.
Proof. apply F_eqb_eq. Qed.

(** The points of the curve. *)
Record point := mk_point { px : F; py : F; p_on : on_curveb px py = true }.

Lemma p_curve (P : point) : on_curve (px P) (py P).
Proof. apply on_curveb_ok, p_on. Qed.

Lemma point_eq P Q : px P = px Q -> py P = py Q -> P = Q.
Proof.
  destruct P as [x y H], Q as [x' y' H']. cbn. intros -> ->. f_equal. apply UIP_dec, bool_dec.
Qed.

Definition ed_zero : point := mk_point 0 1 (proj2 (on_curveb_ok _ _) zero_on_curve).
Definition ed_add (P Q : point) : point :=
  mk_point (add_x (px P) (py P) (px Q) (py Q)) (add_y (px P) (py P) (px Q) (py Q))
    (proj2 (on_curveb_ok _ _) (add_on_curve _ _ _ _ (p_curve P) (p_curve Q))).
Definition ed_opp (P : point) : point :=
  mk_point (- px P) (py P) (proj2 (on_curveb_ok _ _) (opp_on_curve _ _ (p_curve P))).

Lemma ed_add_assoc P Q R : ed_add P (ed_add Q R) = ed_add (ed_add P Q) R.
Proof.
  apply point_eq.
  - apply (add_assoc_x F_field_theory ed_d ed_i ed_i_spec F_two ed_d_nz ed_nonsquare);
      apply p_curve.
  - apply (add_assoc_y F_field_theory ed_d ed_i ed_i_spec F_two ed_d_nz ed_nonsquare);
      apply p_curve.
Qed.

Lemma ed_add_comm P Q : ed_add P Q = ed_add Q P.
Proof.
  destruct (ed_denominators _ _ _ _ (p_curve P) (p_curve Q)) as [H1 H2].
  destruct (ed_denominators _ _ _ _ (p_curve Q) (p_curve P)) as [H3 H4].
  apply point_eq; cbn; unfold add_x, add_y; field; auto.
Qed.

Lemma ed_add_0_l P : ed_add ed_zero P = P.
Proof.
  destruct (ed_denominators _ _ _ _ (p_curve ed_zero) (p_curve P)) as [H1 H2]. cbn [px py ed_zero] in *.
  apply point_eq; cbn [px py ed_add ed_zero]; unfold add_x, add_y; field; auto.
Qed.

Lemma ed_add_opp_l P : ed_add (ed_opp P) P = ed_zero.
Proof.
  pose proof (p_curve P) as C.
  destruct (ed_denominators _ _ _ _ (p_curve (ed_opp P)) C) as [H1 H2]. cbn [px py ed_opp] in *.
  unfold on_curve in C. apply point_eq; cbn [px py ed_add ed_opp ed_zero]; unfold add_x, add_y.
  - field. auto.
  - field_simplify_eq; [|auto].
    transitivity (py P * py P - px P * px P)%F; [ring|]. rewrite C. ring.
Qed.

#[export] Instance ed_group : AbGroup point := {
  gzero := ed_zero; gadd := ed_add; gopp := ed_opp;
  gadd_assoc := ed_add_assoc; gadd_comm := ed_add_comm; gadd_0_l := ed_add_0_l;
  gadd_opp_l := ed_add_opp_l
}.
