(* ===== verification/Loads.v ===== *)
(** * Byte loads (crypto-ops.c, [load_3], [load_4])

    The little-endian loads every decoder of crypto-ops.c starts from, over
    [CSem], with their exact value on byte strings. *)

From Stdlib Require Import ZArith Lia List Bool.
Import ListNotations.
From S2P Require Import Prelude.
Set Default Goal Selector "!".

Section Loads.
Context {C : CSem}.

(** [load_3(s + i)] and [load_4(s + i)]. *)
Definition load_3 (s : list val) (i : nat) : cexp C :=
  b0 <- nth_error s i ;; b1 <- nth_error s (i + 1) ;; b2 <- nth_error s (i + 2) ;;
  result <- e_cast U64 b0 ;;
  result <- (result || (e_cast U64 b1 << 8))%u64 ;;
  result <- (result || (e_cast U64 b2 << 16))%u64 ;;
  Some result.

Definition load_4 (s : list val) (i : nat) : cexp C :=
  b0 <- nth_error s i ;; b1 <- nth_error s (i + 1) ;; b2 <- nth_error s (i + 2) ;;
  b3 <- nth_error s (i + 3) ;;
  result <- e_cast U64 b0 ;;
  result <- (result || (e_cast U64 b1 << 8))%u64 ;;
  result <- (result || (e_cast U64 b2 << 16))%u64 ;;
  result <- (result || (e_cast U64 b3 << 24))%u64 ;;
  Some result.

End Loads.

Lemma load_3_rel s t i : Forall2 irel s t -> erel (load_3 s i) (load_3 t i).
Proof. intros H. unfold load_3. repeat crel_step. assumption. Qed.

Lemma load_4_rel s t i : Forall2 irel s t -> erel (load_4 s i) (load_4 t i).
Proof. intros H. unfold load_4. repeat crel_step. assumption. Qed.

#[export] Hint Resolve load_3_rel load_4_rel : crel.

(** Any byte string, as intervals. *)
Definition bytes_itv (n : nat) : list itv := repeat (0, 255) n.

Lemma bytes_itv_rel s : Forall byte s -> Forall2 irel s (bytes_itv (length s)).
Proof.
  induction 1 as [|b s Hb _ IH]; cbn; constructor; [|exact IH].
  unfold byte in Hb. split; cbn; lia.
Qed.

Lemma nth_error_byte s i : Forall byte s -> (i < length s)%nat ->
  nth_error s i = Some (nth i s 0) /\ byte (nth i s 0).
Proof.
  intros Hs Hi. split; [apply nth_error_nth'; assumption|].
  eapply Forall_forall; [exact Hs|]. apply nth_In. assumption.
Qed.

Lemma nth_byte s (Hs : Forall byte s) i : 0 <= nth i s 0 < 256.
Proof.
  destruct (Nat.lt_ge_cases i (length s)).
  - apply (nth_error_byte s i Hs H).
  - rewrite nth_overflow by assumption. lia.
Qed.

Lemma load_3_ok (s : list Z) i : Forall byte s -> (i + 2 < length s)%nat ->
  @load_3 cmach s i = Some (nth i s 0 + 2 ^ 8 * nth (i + 1) s 0 + 2 ^ 16 * nth (i + 2) s 0).
Proof.
  intros Hs Hi. unfold load_3. change (@val cmach) with Z.
  destruct (nth_error_byte s i) as [-> H0]; [assumption|lia|].
  destruct (nth_error_byte s (i + 1)) as [-> H1]; [assumption|lia|].
  destruct (nth_error_byte s (i + 2)) as [-> H2]; [assumption|lia|].
  generalize dependent (nth i s 0). generalize dependent (nth (i + 1) s 0).
  generalize dependent (nth (i + 2) s 0). clear. intros b2 H2 b1 H1 b0 H0. unfold byte in *.
  cbn [obind e_cast vret v_cast cmach arith is_signed U64 i_min Z.ltb Z.compare e_op2 e_shl v_shl v_or].
  rewrite !(wrap_id U64 b0), !(wrap_id U64 b1), !(wrap_id U64 b2) by (apply in_ity_spec; cbn; norm_pow2; lia).
  rewrite !Z.shiftl_mul_pow2 by lia.
  rewrite !(wrap_id U64 (_ * _)) by (apply in_ity_spec; cbn; norm_pow2; lia).
  rewrite <- !Z.shiftl_mul_pow2 by lia. rewrite (lor_shift b0), (lor_shift _ b2) by (norm_pow2; lia). reflexivity.
Qed.

Lemma load_4_ok (s : list Z) i : Forall byte s -> (i + 3 < length s)%nat ->
  @load_4 cmach s i = Some (nth i s 0 + 2 ^ 8 * nth (i + 1) s 0 + 2 ^ 16 * nth (i + 2) s 0 +
                            2 ^ 24 * nth (i + 3) s 0).
Proof.
  intros Hs Hi. unfold load_4. change (@val cmach) with Z.
  destruct (nth_error_byte s i) as [-> H0]; [assumption|lia|].
  destruct (nth_error_byte s (i + 1)) as [-> H1]; [assumption|lia|].
  destruct (nth_error_byte s (i + 2)) as [-> H2]; [assumption|lia|].
  destruct (nth_error_byte s (i + 3)) as [-> H3]; [assumption|lia|].
  generalize dependent (nth i s 0). generalize dependent (nth (i + 1) s 0).
  generalize dependent (nth (i + 2) s 0). generalize dependent (nth (i + 3) s 0).
  clear. intros b3 H3 b2 H2 b1 H1 b0 H0. unfold byte in *.
  cbn [obind e_cast vret v_cast cmach arith is_signed U64 i_min Z.ltb Z.compare e_op2 e_shl v_shl v_or].
  rewrite !(wrap_id U64 b0), !(wrap_id U64 b1), !(wrap_id U64 b2), !(wrap_id U64 b3)
    by (apply in_ity_spec; cbn; norm_pow2; lia).
  rewrite !Z.shiftl_mul_pow2 by lia.
  rewrite !(wrap_id U64 (_ * _)) by (apply in_ity_spec; cbn; norm_pow2; lia).
  rewrite <- !Z.shiftl_mul_pow2 by lia. 
  rewrite (lor_shift b0), (lor_shift _ b2), (lor_shift _ b3) by (norm_pow2; lia). reflexivity.
Qed.

(** ** The loads as bit fields of the whole string *)

Lemma le_val_skipn s i : Forall byte s -> le_val (skipn i s) = le_val s / 2 ^ (8 * Z.of_nat i).
Proof.
  intros Hs. revert i. induction Hs as [|b s Hb Hs IH]; intros [|i]; cbn [skipn le_val].
  - reflexivity.
  - symmetry. apply Z.div_0_l, Z.pow_nonzero; lia.
  - rewrite Z.mul_0_r, Z.pow_0_r, Z.div_1_r. reflexivity.
  - rewrite IH. replace (8 * Z.of_nat (S i)) with (8 + 8 * Z.of_nat i) by lia.
    rewrite Z.pow_add_r, <- Z.div_div by (try apply Z.pow_nonzero; lia).
    change (2 ^ 8) with 256. f_equal. unfold byte in Hb.
    replace (b + 256 * le_val s) with (le_val s * 256 + b) by ring.
    rewrite Z.div_add_l, Z.div_small by lia. lia.
Qed.

Lemma nth_skipn_0 (s : list Z) i j : nth (i + j) s 0 = nth j (skipn i s) 0.
Proof. symmetry. apply nth_skipn. Qed.

Lemma le_val_prefix s n : Forall byte s ->
  le_val (firstn n s) = le_val s mod 2 ^ (8 * Z.of_nat n).
Proof.
  intros Hs. apply cong_small.
  - pose proof (le_val_range (firstn n s)) as R.
    assert (Forall byte (firstn n s)) as F.
    { rewrite <- (firstn_skipn n s) in Hs. apply Forall_app in Hs. apply Hs. }
    specialize (R F). rewrite length_firstn in R. replace 256 with (2 ^ 8) in R by reflexivity.
    rewrite <- Z.pow_mul_r in R by lia. split; [lia|]. eapply Z.lt_le_trans; [apply R|].
    apply Z.pow_le_mono_r; lia.
  - rewrite <- (firstn_skipn n s) at 2. rewrite le_val_app, length_firstn.
    destruct (Nat.le_gt_cases n (length s)).
    + rewrite Nat.min_l by assumption. exists (- le_val (skipn n s)).
      rewrite Z.pow_mul_r by lia. change (2 ^ 8) with 256. ring.
    + rewrite skipn_all2 by lia. exists 0. cbn [le_val]. ring.
Qed.

Lemma Forall_skipn {A} (P : A -> Prop) n s : Forall P s -> Forall P (skipn n s).
Proof. intros H. rewrite <- (firstn_skipn n s) in H. apply Forall_app in H. apply H. Qed.

Lemma load_3_field (s : list Z) i : Forall byte s -> (i + 2 < length s)%nat ->
  @load_3 cmach s i = Some (le_val s / 2 ^ (8 * Z.of_nat i) mod 2 ^ 24).
Proof.
  intros Hs Hi. rewrite load_3_ok by assumption. f_equal.
  rewrite <- le_val_skipn by assumption. replace i with (i + 0)%nat at 1 by lia.
  rewrite !nth_skipn_0. pose proof (Forall_skipn byte i s Hs) as H.
  rewrite <- (le_val_prefix _ 3) by assumption.
  assert (length (skipn i s) >= 3)%nat as L by (rewrite length_skipn; lia).
  destruct (skipn i s) as [|a [|b [|c t]]]; cbn in L; try lia. cbn [nth le_val firstn]. norm_pow2. ring.
Qed.

Lemma load_4_field (s : list Z) i : Forall byte s -> (i + 3 < length s)%nat ->
  @load_4 cmach s i = Some (le_val s / 2 ^ (8 * Z.of_nat i) mod 2 ^ 32).
Proof.
  intros Hs Hi. rewrite load_4_ok by assumption. f_equal.
  rewrite <- le_val_skipn by assumption. replace i with (i + 0)%nat at 1 by lia.
  rewrite !nth_skipn_0. pose proof (Forall_skipn byte i s Hs) as H.
  rewrite <- (le_val_prefix _ 4) by assumption.
  assert (length (skipn i s) >= 4)%nat as L by (rewrite length_skipn; lia).
  destruct (skipn i s) as [|a [|b [|c [|d t]]]]; cbn in L; try lia.
  cbn [nth le_val firstn]. norm_pow2. ring.
Qed.

(** [w] bits of [V] from bit [j + k] on, cut out of a wider field that starts at [j]. *)
Lemma field_of_field V j n k w : 0 <= j -> 0 <= k -> 0 <= w -> k + w <= n ->
  Z.land (Z.ones w) (Z.shiftr (V / 2 ^ j mod 2 ^ n) k) = V / 2 ^ (j + k) mod 2 ^ w.
Proof.
  intros Hj Hk Hw Hn. rewrite Z.land_comm, Z.land_ones by assumption.
  apply Z.bits_inj'. intros m Hm. destruct (Z.lt_ge_cases m w).
  - rewrite !Z.mod_pow2_bits_low, Z.shiftr_spec, Z.mod_pow2_bits_low, !Z.div_pow2_bits by lia.
    f_equal. lia.
  - rewrite !Z.mod_pow2_bits_high by lia. reflexivity.
Qed.

Lemma top_field V j n k : 0 <= j -> 0 <= k -> 0 <= n -> 0 <= V < 2 ^ (j + n) ->
  Z.shiftr (V / 2 ^ j mod 2 ^ n) k = V / 2 ^ (j + k).
Proof.
  intros Hj Hk Hn [HV1 HV2]. rewrite Z.pow_add_r in HV2 by assumption.
  rewrite Z.mod_small.
  - rewrite Z.shiftr_div_pow2, Z.pow_add_r, Z.div_div by (try apply Z.pow_nonzero; try apply Z.pow_pos_nonneg; lia).
    reflexivity.
  - split; [apply Z.div_pos; [assumption|apply Z.pow_pos_nonneg; lia]|].
    apply Z.div_lt_upper_bound; [apply Z.pow_pos_nonneg; lia|assumption].
Qed.

(** Splitting off [n] bits. *)
Lemma split_bits V k n : 0 <= k -> 0 <= n ->
  V / 2 ^ k = V / 2 ^ k mod 2 ^ n + 2 ^ n * (V / 2 ^ (k + n)).
Proof.
  intros Hk Hn. rewrite Z.pow_add_r, <- Z.div_div by (try apply Z.pow_nonzero; try apply Z.pow_pos_nonneg; lia).
  pose proof (Z.div_mod (V / 2 ^ k) (2 ^ n) ltac:(apply Z.pow_nonzero; lia)). lia.
Qed.

(** ** Loaded values as signed 64-bit integers *)

Lemma cast_shl z k : 0 <= k -> 0 <= z -> z * 2 ^ k < 2 ^ 63 ->
  @e_cast cmach I64 (@e_shl cmach U64 (Some z) k) = Some (2 ^ k * z).
Proof.
  intros Hk Hz Hb. cbn [e_cast e_shl obind v_shl v_cast cmach].
  rewrite Z.shiftl_mul_pow2, Z.mul_comm by assumption.
  pose proof (Z.pow_pos_nonneg 2 k ltac:(lia) Hk).
  assert (0 <= 2 ^ k * z) by (apply Z.mul_nonneg_nonneg; lia).
  rewrite wrap_id, arith_in; [reflexivity| |]; apply in_ity_spec; cbn; lia.
Qed.

Lemma cast_I64 z : 0 <= z < 2 ^ 63 -> @e_cast cmach I64 (Some z) = Some z.
Proof. intros Hz. cbn [e_cast obind v_cast cmach]. apply arith_in, in_ity_spec. cbn. lia. Qed.

Lemma bytes_range s n : Forall byte s -> length s = n -> 0 <= le_val s < 2 ^ (8 * Z.of_nat n).
Proof.
  intros Hs <-. rewrite Z.pow_mul_r by lia. change (2 ^ 8) with 256. apply le_val_range, Hs.
Qed.
