(* ===== verification/FieldElt.v ===== *)
(** * Field elements modulo 2^255 - 19 (crypto-ops.c, [fe_*])

    An [fe] is ten signed limbs of alternately 26 and 25 bits, [int32_t[10]] in
    crypto-ops.h.  Every function is written over [CSem], so that it runs on
    machine integers and on intervals.  The theorems: no operation has undefined
    behaviour on inputs within the documented bounds, the results are within the
    documented bounds, and the value computed is the sum, difference, product,
    square, inverse or canonical encoding modulo [p]. *)

From Stdlib Require Import ZArith Lia List Bool Setoid Morphisms Program.Tactics.
Import ListNotations.
From S2P Require Import Prelude Primes.
Set Default Goal Selector "!".

(** ** Representation *)

(** Ten integers: the [fe] of the code, and the ten 64-bit accumulators of a product. *)
Record limbs (A : Type) := L10 {
  l0 : A; l1 : A; l2 : A; l3 : A; l4 : A; l5 : A; l6 : A; l7 : A; l8 : A; l9 : A
}.
Arguments L10 {A}.
Arguments l0 {A}. Arguments l1 {A}. Arguments l2 {A}. Arguments l3 {A}. Arguments l4 {A}.
Arguments l5 {A}. Arguments l6 {A}. Arguments l7 {A}. Arguments l8 {A}. Arguments l9 {A}.

Definition fe (C : CSem) : Type := limbs (@val C).

(** ** Operations *)

Section FieldOps.
Context {C : CSem}.

Definition fe_0 : fe C :=
  let z := v_lit 0 in L10 z z z z z z z z z z.

Definition fe_1 : fe C :=
  let z := v_lit 0 in L10 (v_lit 1) z z z z z z z z z.

Definition fe_copy (f : fe C) : fe C :=
  let '(L10 f0 f1 f2 f3 f4 f5 f6 f7 f8 f9) := f in L10 f0 f1 f2 f3 f4 f5 f6 f7 f8 f9.

Definition fe_add (f g : fe C) : option (fe C) :=
  let '(L10 f0 f1 f2 f3 f4 f5 f6 f7 f8 f9) := f in
  let '(L10 g0 g1 g2 g3 g4 g5 g6 g7 g8 g9) := g in
  h0 <- (f0 + g0)%i32 ;;
  h1 <- (f1 + g1)%i32 ;;
  h2 <- (f2 + g2)%i32 ;;
  h3 <- (f3 + g3)%i32 ;;
  h4 <- (f4 + g4)%i32 ;;
  h5 <- (f5 + g5)%i32 ;;
  h6 <- (f6 + g6)%i32 ;;
  h7 <- (f7 + g7)%i32 ;;
  h8 <- (f8 + g8)%i32 ;;
  h9 <- (f9 + g9)%i32 ;;
  Some (L10 h0 h1 h2 h3 h4 h5 h6 h7 h8 h9).

Definition fe_sub (f g : fe C) : option (fe C) :=
  let '(L10 f0 f1 f2 f3 f4 f5 f6 f7 f8 f9) := f in
  let '(L10 g0 g1 g2 g3 g4 g5 g6 g7 g8 g9) := g in
  h0 <- (f0 - g0)%i32 ;;
  h1 <- (f1 - g1)%i32 ;;
  h2 <- (f2 - g2)%i32 ;;
  h3 <- (f3 - g3)%i32 ;;
  h4 <- (f4 - g4)%i32 ;;
  h5 <- (f5 - g5)%i32 ;;
  h6 <- (f6 - g6)%i32 ;;
  h7 <- (f7 - g7)%i32 ;;
  h8 <- (f8 - g8)%i32 ;;
  h9 <- (f9 - g9)%i32 ;;
  Some (L10 h0 h1 h2 h3 h4 h5 h6 h7 h8 h9).

Definition fe_neg (f : fe C) : option (fe C) :=
  let '(L10 f0 f1 f2 f3 f4 f5 f6 f7 f8 f9) := f in
  h0 <- (- f0)%i32 ;;
  h1 <- (- f1)%i32 ;;
  h2 <- (- f2)%i32 ;;
  h3 <- (- f3)%i32 ;;
  h4 <- (- f4)%i32 ;;
  h5 <- (- f5)%i32 ;;
  h6 <- (- f6)%i32 ;;
  h7 <- (- f7)%i32 ;;
  h8 <- (- f8)%i32 ;;
  h9 <- (- f9)%i32 ;;
  Some (L10 h0 h1 h2 h3 h4 h5 h6 h7 h8 h9).

(** The ten sums of 64-bit products of [fe_mul]. *)
Definition fe_mul_products (f g : fe C) : option (limbs val) :=
  let '(L10 f0 f1 f2 f3 f4 f5 f6 f7 f8 f9) := f in
  let '(L10 g0 g1 g2 g3 g4 g5 g6 g7 g8 g9) := g in
  g1_19 <- (#19 * g1)%i32 ;;
  g2_19 <- (#19 * g2)%i32 ;;
  g3_19 <- (#19 * g3)%i32 ;;
  g4_19 <- (#19 * g4)%i32 ;;
  g5_19 <- (#19 * g5)%i32 ;;
  g6_19 <- (#19 * g6)%i32 ;;
  g7_19 <- (#19 * g7)%i32 ;;
  g8_19 <- (#19 * g8)%i32 ;;
  g9_19 <- (#19 * g9)%i32 ;;
  f1_2 <- (#2 * f1)%i32 ;;
  f3_2 <- (#2 * f3)%i32 ;;
  f5_2 <- (#2 * f5)%i32 ;;
  f7_2 <- (#2 * f7)%i32 ;;
  f9_2 <- (#2 * f9)%i32 ;;
  f0g0 <- (f0 * g0)%i64 ;;
  f0g1 <- (f0 * g1)%i64 ;;
  f0g2 <- (f0 * g2)%i64 ;;
  f0g3 <- (f0 * g3)%i64 ;;
  f0g4 <- (f0 * g4)%i64 ;;
  f0g5 <- (f0 * g5)%i64 ;;
  f0g6 <- (f0 * g6)%i64 ;;
  f0g7 <- (f0 * g7)%i64 ;;
  f0g8 <- (f0 * g8)%i64 ;;
  f0g9 <- (f0 * g9)%i64 ;;
  f1g0 <- (f1 * g0)%i64 ;;
  f1g1_2 <- (f1_2 * g1)%i64 ;;
  f1g2 <- (f1 * g2)%i64 ;;
  f1g3_2 <- (f1_2 * g3)%i64 ;;
  f1g4 <- (f1 * g4)%i64 ;;
  f1g5_2 <- (f1_2 * g5)%i64 ;;
  f1g6 <- (f1 * g6)%i64 ;;
  f1g7_2 <- (f1_2 * g7)%i64 ;;
  f1g8 <- (f1 * g8)%i64 ;;
  f1g9_38 <- (f1_2 * g9_19)%i64 ;;
  f2g0 <- (f2 * g0)%i64 ;;
  f2g1 <- (f2 * g1)%i64 ;;
  f2g2 <- (f2 * g2)%i64 ;;
  f2g3 <- (f2 * g3)%i64 ;;
  f2g4 <- (f2 * g4)%i64 ;;
  f2g5 <- (f2 * g5)%i64 ;;
  f2g6 <- (f2 * g6)%i64 ;;
  f2g7 <- (f2 * g7)%i64 ;;
  f2g8_19 <- (f2 * g8_19)%i64 ;;
  f2g9_19 <- (f2 * g9_19)%i64 ;;
  f3g0 <- (f3 * g0)%i64 ;;
  f3g1_2 <- (f3_2 * g1)%i64 ;;
  f3g2 <- (f3 * g2)%i64 ;;
  f3g3_2 <- (f3_2 * g3)%i64 ;;
  f3g4 <- (f3 * g4)%i64 ;;
  f3g5_2 <- (f3_2 * g5)%i64 ;;
  f3g6 <- (f3 * g6)%i64 ;;
  f3g7_38 <- (f3_2 * g7_19)%i64 ;;
  f3g8_19 <- (f3 * g8_19)%i64 ;;
  f3g9_38 <- (f3_2 * g9_19)%i64 ;;
  f4g0 <- (f4 * g0)%i64 ;;
  f4g1 <- (f4 * g1)%i64 ;;
  f4g2 <- (f4 * g2)%i64 ;;
  f4g3 <- (f4 * g3)%i64 ;;
  f4g4 <- (f4 * g4)%i64 ;;
  f4g5 <- (f4 * g5)%i64 ;;
  f4g6_19 <- (f4 * g6_19)%i64 ;;
  f4g7_19 <- (f4 * g7_19)%i64 ;;
  f4g8_19 <- (f4 * g8_19)%i64 ;;
  f4g9_19 <- (f4 * g9_19)%i64 ;;
  f5g0 <- (f5 * g0)%i64 ;;
  f5g1_2 <- (f5_2 * g1)%i64 ;;
  f5g2 <- (f5 * g2)%i64 ;;
  f5g3_2 <- (f5_2 * g3)%i64 ;;
  f5g4 <- (f5 * g4)%i64 ;;
  f5g5_38 <- (f5_2 * g5_19)%i64 ;;
  f5g6_19 <- (f5 * g6_19)%i64 ;;
  f5g7_38 <- (f5_2 * g7_19)%i64 ;;
  f5g8_19 <- (f5 * g8_19)%i64 ;;
  f5g9_38 <- (f5_2 * g9_19)%i64 ;;
  f6g0 <- (f6 * g0)%i64 ;;
  f6g1 <- (f6 * g1)%i64 ;;
  f6g2 <- (f6 * g2)%i64 ;;
  f6g3 <- (f6 * g3)%i64 ;;
  f6g4_19 <- (f6 * g4_19)%i64 ;;
  f6g5_19 <- (f6 * g5_19)%i64 ;;
  f6g6_19 <- (f6 * g6_19)%i64 ;;
  f6g7_19 <- (f6 * g7_19)%i64 ;;
  f6g8_19 <- (f6 * g8_19)%i64 ;;
  f6g9_19 <- (f6 * g9_19)%i64 ;;
  f7g0 <- (f7 * g0)%i64 ;;
  f7g1_2 <- (f7_2 * g1)%i64 ;;
  f7g2 <- (f7 * g2)%i64 ;;
  f7g3_38 <- (f7_2 * g3_19)%i64 ;;
  f7g4_19 <- (f7 * g4_19)%i64 ;;
  f7g5_38 <- (f7_2 * g5_19)%i64 ;;
  f7g6_19 <- (f7 * g6_19)%i64 ;;
  f7g7_38 <- (f7_2 * g7_19)%i64 ;;
  f7g8_19 <- (f7 * g8_19)%i64 ;;
  f7g9_38 <- (f7_2 * g9_19)%i64 ;;
  f8g0 <- (f8 * g0)%i64 ;;
  f8g1 <- (f8 * g1)%i64 ;;
  f8g2_19 <- (f8 * g2_19)%i64 ;;
  f8g3_19 <- (f8 * g3_19)%i64 ;;
  f8g4_19 <- (f8 * g4_19)%i64 ;;
  f8g5_19 <- (f8 * g5_19)%i64 ;;
  f8g6_19 <- (f8 * g6_19)%i64 ;;
  f8g7_19 <- (f8 * g7_19)%i64 ;;
  f8g8_19 <- (f8 * g8_19)%i64 ;;
  f8g9_19 <- (f8 * g9_19)%i64 ;;
  f9g0 <- (f9 * g0)%i64 ;;
  f9g1_38 <- (f9_2 * g1_19)%i64 ;;
  f9g2_19 <- (f9 * g2_19)%i64 ;;
  f9g3_38 <- (f9_2 * g3_19)%i64 ;;
  f9g4_19 <- (f9 * g4_19)%i64 ;;
  f9g5_38 <- (f9_2 * g5_19)%i64 ;;
  f9g6_19 <- (f9 * g6_19)%i64 ;;
  f9g7_38 <- (f9_2 * g7_19)%i64 ;;
  f9g8_19 <- (f9 * g8_19)%i64 ;;
  f9g9_38 <- (f9_2 * g9_19)%i64 ;;
  h0 <- (f0g0 + f1g9_38 + f2g8_19 + f3g7_38 + f4g6_19 + f5g5_38 + f6g4_19 + f7g3_38 + f8g2_19 + f9g1_38)%i64 ;;
  h1 <- (f0g1 + f1g0 + f2g9_19 + f3g8_19 + f4g7_19 + f5g6_19 + f6g5_19 + f7g4_19 + f8g3_19 + f9g2_19)%i64 ;;
  h2 <- (f0g2 + f1g1_2 + f2g0 + f3g9_38 + f4g8_19 + f5g7_38 + f6g6_19 + f7g5_38 + f8g4_19 + f9g3_38)%i64 ;;
  h3 <- (f0g3 + f1g2 + f2g1 + f3g0 + f4g9_19 + f5g8_19 + f6g7_19 + f7g6_19 + f8g5_19 + f9g4_19)%i64 ;;
  h4 <- (f0g4 + f1g3_2 + f2g2 + f3g1_2 + f4g0 + f5g9_38 + f6g8_19 + f7g7_38 + f8g6_19 + f9g5_38)%i64 ;;
  h5 <- (f0g5 + f1g4 + f2g3 + f3g2 + f4g1 + f5g0 + f6g9_19 + f7g8_19 + f8g7_19 + f9g6_19)%i64 ;;
  h6 <- (f0g6 + f1g5_2 + f2g4 + f3g3_2 + f4g2 + f5g1_2 + f6g0 + f7g9_38 + f8g8_19 + f9g7_38)%i64 ;;
  h7 <- (f0g7 + f1g6 + f2g5 + f3g4 + f4g3 + f5g2 + f6g1 + f7g0 + f8g9_19 + f9g8_19)%i64 ;;
  h8 <- (f0g8 + f1g7_2 + f2g6 + f3g5_2 + f4g4 + f5g3_2 + f6g2 + f7g1_2 + f8g0 + f9g9_38)%i64 ;;
  h9 <- (f0g9 + f1g8 + f2g7 + f3g6 + f4g5 + f5g4 + f6g3 + f7g2 + f8g1 + f9g0)%i64 ;;
  Some (L10 h0 h1 h2 h3 h4 h5 h6 h7 h8 h9).

(** The carry chain that ends [fe_mul], [fe_sq] and [fe_sq2], and the conversion
    of the ten accumulators to [int32_t]. *)
Definition fe_carry_chain (h : limbs val) : option (fe C) :=
  let '(L10 h0 h1 h2 h3 h4 h5 h6 h7 h8 h9) := h in
  '(carry0, h0) <- e_carry I64 h0 (2 ^ 25) 26 ;; h1 <- (h1 + carry0)%i64 ;;
  '(carry4, h4) <- e_carry I64 h4 (2 ^ 25) 26 ;; h5 <- (h5 + carry4)%i64 ;;
  '(carry1, h1) <- e_carry I64 h1 (2 ^ 24) 25 ;; h2 <- (h2 + carry1)%i64 ;;
  '(carry5, h5) <- e_carry I64 h5 (2 ^ 24) 25 ;; h6 <- (h6 + carry5)%i64 ;;
  '(carry2, h2) <- e_carry I64 h2 (2 ^ 25) 26 ;; h3 <- (h3 + carry2)%i64 ;;
  '(carry6, h6) <- e_carry I64 h6 (2 ^ 25) 26 ;; h7 <- (h7 + carry6)%i64 ;;
  '(carry3, h3) <- e_carry I64 h3 (2 ^ 24) 25 ;; h4 <- (h4 + carry3)%i64 ;;
  '(carry7, h7) <- e_carry I64 h7 (2 ^ 24) 25 ;; h8 <- (h8 + carry7)%i64 ;;
  '(carry4, h4) <- e_carry I64 h4 (2 ^ 25) 26 ;; h5 <- (h5 + carry4)%i64 ;;
  '(carry8, h8) <- e_carry I64 h8 (2 ^ 25) 26 ;; h9 <- (h9 + carry8)%i64 ;;
  '(carry9, h9) <- e_carry I64 h9 (2 ^ 24) 25 ;; h0 <- (h0 + carry9 * #19)%i64 ;;
  '(carry0, h0) <- e_carry I64 h0 (2 ^ 25) 26 ;; h1 <- (h1 + carry0)%i64 ;;
  h0 <- e_cast I32 h0 ;;
  h1 <- e_cast I32 h1 ;;
  h2 <- e_cast I32 h2 ;;
  h3 <- e_cast I32 h3 ;;
  h4 <- e_cast I32 h4 ;;
  h5 <- e_cast I32 h5 ;;
  h6 <- e_cast I32 h6 ;;
  h7 <- e_cast I32 h7 ;;
  h8 <- e_cast I32 h8 ;;
  h9 <- e_cast I32 h9 ;;
  Some (L10 h0 h1 h2 h3 h4 h5 h6 h7 h8 h9).

Definition fe_mul (f g : fe C) : option (fe C) :=
  h <- fe_mul_products f g ;; fe_carry_chain h.

(** The ten sums of 64-bit products of [fe_sq], which [fe_sq2] computes too. *)
Definition fe_sq_products (f : fe C) : option (limbs val) :=
  let '(L10 f0 f1 f2 f3 f4 f5 f6 f7 f8 f9) := f in
  f0_2 <- (#2 * f0)%i32 ;;
  f1_2 <- (#2 * f1)%i32 ;;
  f2_2 <- (#2 * f2)%i32 ;;
  f3_2 <- (#2 * f3)%i32 ;;
  f4_2 <- (#2 * f4)%i32 ;;
  f5_2 <- (#2 * f5)%i32 ;;
  f6_2 <- (#2 * f6)%i32 ;;
  f7_2 <- (#2 * f7)%i32 ;;
  f5_38 <- (#38 * f5)%i32 ;;
  f6_19 <- (#19 * f6)%i32 ;;
  f7_38 <- (#38 * f7)%i32 ;;
  f8_19 <- (#19 * f8)%i32 ;;
  f9_38 <- (#38 * f9)%i32 ;;
  f0f0 <- (f0 * f0)%i64 ;;
  f0f1_2 <- (f0_2 * f1)%i64 ;;
  f0f2_2 <- (f0_2 * f2)%i64 ;;
  f0f3_2 <- (f0_2 * f3)%i64 ;;
  f0f4_2 <- (f0_2 * f4)%i64 ;;
  f0f5_2 <- (f0_2 * f5)%i64 ;;
  f0f6_2 <- (f0_2 * f6)%i64 ;;
  f0f7_2 <- (f0_2 * f7)%i64 ;;
  f0f8_2 <- (f0_2 * f8)%i64 ;;
  f0f9_2 <- (f0_2 * f9)%i64 ;;
  f1f1_2 <- (f1_2 * f1)%i64 ;;
  f1f2_2 <- (f1_2 * f2)%i64 ;;
  f1f3_4 <- (f1_2 * f3_2)%i64 ;;
  f1f4_2 <- (f1_2 * f4)%i64 ;;
  f1f5_4 <- (f1_2 * f5_2)%i64 ;;
  f1f6_2 <- (f1_2 * f6)%i64 ;;
  f1f7_4 <- (f1_2 * f7_2)%i64 ;;
  f1f8_2 <- (f1_2 * f8)%i64 ;;
  f1f9_76 <- (f1_2 * f9_38)%i64 ;;
  f2f2 <- (f2 * f2)%i64 ;;
  f2f3_2 <- (f2_2 * f3)%i64 ;;
  f2f4_2 <- (f2_2 * f4)%i64 ;;
  f2f5_2 <- (f2_2 * f5)%i64 ;;
  f2f6_2 <- (f2_2 * f6)%i64 ;;
  f2f7_2 <- (f2_2 * f7)%i64 ;;
  f2f8_38 <- (f2_2 * f8_19)%i64 ;;
  f2f9_38 <- (f2 * f9_38)%i64 ;;
  f3f3_2 <- (f3_2 * f3)%i64 ;;
  f3f4_2 <- (f3_2 * f4)%i64 ;;
  f3f5_4 <- (f3_2 * f5_2)%i64 ;;
  f3f6_2 <- (f3_2 * f6)%i64 ;;
  f3f7_76 <- (f3_2 * f7_38)%i64 ;;
  f3f8_38 <- (f3_2 * f8_19)%i64 ;;
  f3f9_76 <- (f3_2 * f9_38)%i64 ;;
  f4f4 <- (f4 * f4)%i64 ;;
  f4f5_2 <- (f4_2 * f5)%i64 ;;
  f4f6_38 <- (f4_2 * f6_19)%i64 ;;
  f4f7_38 <- (f4 * f7_38)%i64 ;;
  f4f8_38 <- (f4_2 * f8_19)%i64 ;;
  f4f9_38 <- (f4 * f9_38)%i64 ;;
  f5f5_38 <- (f5 * f5_38)%i64 ;;
  f5f6_38 <- (f5_2 * f6_19)%i64 ;;
  f5f7_76 <- (f5_2 * f7_38)%i64 ;;
  f5f8_38 <- (f5_2 * f8_19)%i64 ;;
  f5f9_76 <- (f5_2 * f9_38)%i64 ;;
  f6f6_19 <- (f6 * f6_19)%i64 ;;
  f6f7_38 <- (f6 * f7_38)%i64 ;;
  f6f8_38 <- (f6_2 * f8_19)%i64 ;;
  f6f9_38 <- (f6 * f9_38)%i64 ;;
  f7f7_38 <- (f7 * f7_38)%i64 ;;
  f7f8_38 <- (f7_2 * f8_19)%i64 ;;
  f7f9_76 <- (f7_2 * f9_38)%i64 ;;
  f8f8_19 <- (f8 * f8_19)%i64 ;;
  f8f9_38 <- (f8 * f9_38)%i64 ;;
  f9f9_38 <- (f9 * f9_38)%i64 ;;
  h0 <- (f0f0 + f1f9_76 + f2f8_38 + f3f7_76 + f4f6_38 + f5f5_38)%i64 ;;
  h1 <- (f0f1_2 + f2f9_38 + f3f8_38 + f4f7_38 + f5f6_38)%i64 ;;
  h2 <- (f0f2_2 + f1f1_2 + f3f9_76 + f4f8_38 + f5f7_76 + f6f6_19)%i64 ;;
  h3 <- (f0f3_2 + f1f2_2 + f4f9_38 + f5f8_38 + f6f7_38)%i64 ;;
  h4 <- (f0f4_2 + f1f3_4 + f2f2 + f5f9_76 + f6f8_38 + f7f7_38)%i64 ;;
  h5 <- (f0f5_2 + f1f4_2 + f2f3_2 + f6f9_38 + f7f8_38)%i64 ;;
  h6 <- (f0f6_2 + f1f5_4 + f2f4_2 + f3f3_2 + f7f9_76 + f8f8_19)%i64 ;;
  h7 <- (f0f7_2 + f1f6_2 + f2f5_2 + f3f4_2 + f8f9_38)%i64 ;;
  h8 <- (f0f8_2 + f1f7_4 + f2f6_2 + f3f5_4 + f4f4 + f9f9_38)%i64 ;;
  h9 <- (f0f9_2 + f1f8_2 + f2f7_2 + f3f6_2 + f4f5_2)%i64 ;;
  Some (L10 h0 h1 h2 h3 h4 h5 h6 h7 h8 h9).

Definition fe_sq (f : fe C) : option (fe C) :=
  h <- fe_sq_products f ;; fe_carry_chain h.

Definition fe_sq2 (f : fe C) : option (fe C) :=
  h <- fe_sq_products f ;;
  let '(L10 h0 h1 h2 h3 h4 h5 h6 h7 h8 h9) := h in
  h0 <- (h0 + h0)%i64 ;;
  h1 <- (h1 + h1)%i64 ;;
  h2 <- (h2 + h2)%i64 ;;
  h3 <- (h3 + h3)%i64 ;;
  h4 <- (h4 + h4)%i64 ;;
  h5 <- (h5 + h5)%i64 ;;
  h6 <- (h6 + h6)%i64 ;;
  h7 <- (h7 + h7)%i64 ;;
  h8 <- (h8 + h8)%i64 ;;
  h9 <- (h9 + h9)%i64 ;;
  fe_carry_chain (L10 h0 h1 h2 h3 h4 h5 h6 h7 h8 h9).

(** [fe_sq] iterated, as the [for] loops of [fe_invert] and [fe_divpowm1] do. *)
Fixpoint fe_sq_times (n : nat) (t : fe C) : option (fe C) :=
  match n with
  | O => Some t
  | S n => t <- fe_sq t ;; fe_sq_times n t
  end.

Definition fe_invert (z : fe C) : option (fe C) :=
  t0 <- fe_sq z ;;
  t1 <- fe_sq t0 ;;
  t1 <- fe_sq t1 ;;
  t1 <- fe_mul z t1 ;;
  t0 <- fe_mul t0 t1 ;;
  t2 <- fe_sq t0 ;;
  t1 <- fe_mul t1 t2 ;;
  t2 <- fe_sq t1 ;;
  t2 <- fe_sq_times 4 t2 ;;
  t1 <- fe_mul t2 t1 ;;
  t2 <- fe_sq t1 ;;
  t2 <- fe_sq_times 9 t2 ;;
  t2 <- fe_mul t2 t1 ;;
  t3 <- fe_sq t2 ;;
  t3 <- fe_sq_times 19 t3 ;;
  t2 <- fe_mul t3 t2 ;;
  t2 <- fe_sq t2 ;;
  t2 <- fe_sq_times 9 t2 ;;
  t1 <- fe_mul t2 t1 ;;
  t2 <- fe_sq t1 ;;
  t2 <- fe_sq_times 49 t2 ;;
  t2 <- fe_mul t2 t1 ;;
  t3 <- fe_sq t2 ;;
  t3 <- fe_sq_times 99 t3 ;;
  t2 <- fe_mul t3 t2 ;;
  t2 <- fe_sq t2 ;;
  t2 <- fe_sq_times 49 t2 ;;
  t1 <- fe_mul t2 t1 ;;
  t1 <- fe_sq t1 ;;
  t1 <- fe_sq_times 4 t1 ;;
  fe_mul t1 t0.

Definition fe_divpowm1 (u v : fe C) : option (fe C) :=
  v3 <- fe_sq v ;;
  v3 <- fe_mul v3 v ;;
  uv7 <- fe_sq v3 ;;
  uv7 <- fe_mul uv7 v ;;
  uv7 <- fe_mul uv7 u ;;
  t0 <- fe_sq uv7 ;;
  t1 <- fe_sq t0 ;;
  t1 <- fe_sq t1 ;;
  t1 <- fe_mul uv7 t1 ;;
  t0 <- fe_mul t0 t1 ;;
  t0 <- fe_sq t0 ;;
  t0 <- fe_mul t1 t0 ;;
  t1 <- fe_sq t0 ;;
  t1 <- fe_sq_times 4 t1 ;;
  t0 <- fe_mul t1 t0 ;;
  t1 <- fe_sq t0 ;;
  t1 <- fe_sq_times 9 t1 ;;
  t1 <- fe_mul t1 t0 ;;
  t2 <- fe_sq t1 ;;
  t2 <- fe_sq_times 19 t2 ;;
  t1 <- fe_mul t2 t1 ;;
  t1 <- fe_sq_times 10 t1 ;;
  t0 <- fe_mul t1 t0 ;;
  t1 <- fe_sq t0 ;;
  t1 <- fe_sq_times 49 t1 ;;
  t1 <- fe_mul t1 t0 ;;
  t2 <- fe_sq t1 ;;
  t2 <- fe_sq_times 99 t2 ;;
  t1 <- fe_mul t2 t1 ;;
  t1 <- fe_sq_times 50 t1 ;;
  t0 <- fe_mul t1 t0 ;;
  t0 <- fe_sq t0 ;;
  t0 <- fe_sq t0 ;;
  t0 <- fe_mul t0 uv7 ;;
  t0 <- fe_mul t0 v3 ;;
  fe_mul t0 u.

(** The quotient [q] of the value by [p] that [fe_tobytes] computes first. *)
Definition fe_tobytes_q (h : fe C) : option val :=
  let '(L10 h0 h1 h2 h3 h4 h5 h6 h7 h8 h9) := h in
  q <- ((#19 * h9 + #(2 ^ 24)) >> 25)%i32 ;;
  q <- ((h0 + q) >> 26)%i32 ;;
  q <- ((h1 + q) >> 25)%i32 ;;
  q <- ((h2 + q) >> 26)%i32 ;;
  q <- ((h3 + q) >> 25)%i32 ;;
  q <- ((h4 + q) >> 26)%i32 ;;
  q <- ((h5 + q) >> 25)%i32 ;;
  q <- ((h6 + q) >> 26)%i32 ;;
  q <- ((h7 + q) >> 25)%i32 ;;
  q <- ((h8 + q) >> 26)%i32 ;;
  q <- ((h9 + q) >> 25)%i32 ;;
  Some q.

(** Its carries, which leave every limb in its unsigned range. *)
Definition fe_tobytes_carry (h : fe C) : option (fe C) :=
  let '(L10 h0 h1 h2 h3 h4 h5 h6 h7 h8 h9) := h in
  '(carry0, h0) <- e_carry I32 h0 0 26 ;; h1 <- (h1 + carry0)%i32 ;;
  '(carry1, h1) <- e_carry I32 h1 0 25 ;; h2 <- (h2 + carry1)%i32 ;;
  '(carry2, h2) <- e_carry I32 h2 0 26 ;; h3 <- (h3 + carry2)%i32 ;;
  '(carry3, h3) <- e_carry I32 h3 0 25 ;; h4 <- (h4 + carry3)%i32 ;;
  '(carry4, h4) <- e_carry I32 h4 0 26 ;; h5 <- (h5 + carry4)%i32 ;;
  '(carry5, h5) <- e_carry I32 h5 0 25 ;; h6 <- (h6 + carry5)%i32 ;;
  '(carry6, h6) <- e_carry I32 h6 0 26 ;; h7 <- (h7 + carry6)%i32 ;;
  '(carry7, h7) <- e_carry I32 h7 0 25 ;; h8 <- (h8 + carry7)%i32 ;;
  '(carry8, h8) <- e_carry I32 h8 0 26 ;; h9 <- (h9 + carry8)%i32 ;;
  '(carry9, h9) <- e_carry I32 h9 0 25 ;;
  Some (L10 h0 h1 h2 h3 h4 h5 h6 h7 h8 h9).

(** Its 32 bytes. *)
Definition fe_tobytes_pack (h : fe C) : option (list val) :=
  let '(L10 h0 h1 h2 h3 h4 h5 h6 h7 h8 h9) := h in
  b0 <- e_cast U8 (h0 >> 0)%i32 ;;
  b1 <- e_cast U8 (h0 >> 8)%i32 ;;
  b2 <- e_cast U8 (h0 >> 16)%i32 ;;
  b3 <- e_cast U8 ((h0 >> 24) || (h1 << 2))%i32 ;;
  b4 <- e_cast U8 (h1 >> 6)%i32 ;;
  b5 <- e_cast U8 (h1 >> 14)%i32 ;;
  b6 <- e_cast U8 ((h1 >> 22) || (h2 << 3))%i32 ;;
  b7 <- e_cast U8 (h2 >> 5)%i32 ;;
  b8 <- e_cast U8 (h2 >> 13)%i32 ;;
  b9 <- e_cast U8 ((h2 >> 21) || (h3 << 5))%i32 ;;
  b10 <- e_cast U8 (h3 >> 3)%i32 ;;
  b11 <- e_cast U8 (h3 >> 11)%i32 ;;
  b12 <- e_cast U8 ((h3 >> 19) || (h4 << 6))%i32 ;;
  b13 <- e_cast U8 (h4 >> 2)%i32 ;;
  b14 <- e_cast U8 (h4 >> 10)%i32 ;;
  b15 <- e_cast U8 (h4 >> 18)%i32 ;;
  b16 <- e_cast U8 (h5 >> 0)%i32 ;;
  b17 <- e_cast U8 (h5 >> 8)%i32 ;;
  b18 <- e_cast U8 (h5 >> 16)%i32 ;;
  b19 <- e_cast U8 ((h5 >> 24) || (h6 << 1))%i32 ;;
  b20 <- e_cast U8 (h6 >> 7)%i32 ;;
  b21 <- e_cast U8 (h6 >> 15)%i32 ;;
  b22 <- e_cast U8 ((h6 >> 23) || (h7 << 3))%i32 ;;
  b23 <- e_cast U8 (h7 >> 5)%i32 ;;
  b24 <- e_cast U8 (h7 >> 13)%i32 ;;
  b25 <- e_cast U8 ((h7 >> 21) || (h8 << 4))%i32 ;;
  b26 <- e_cast U8 (h8 >> 4)%i32 ;;
  b27 <- e_cast U8 (h8 >> 12)%i32 ;;
  b28 <- e_cast U8 ((h8 >> 20) || (h9 << 6))%i32 ;;
  b29 <- e_cast U8 (h9 >> 2)%i32 ;;
  b30 <- e_cast U8 (h9 >> 10)%i32 ;;
  b31 <- e_cast U8 (h9 >> 18)%i32 ;;
  Some [b0; b1; b2; b3; b4; b5; b6; b7; b8; b9; b10; b11; b12; b13; b14; b15; b16; b17; b18; b19; b20; b21; b22; b23; b24; b25; b26; b27; b28; b29; b30; b31].

Definition fe_tobytes (h : fe C) : option (list val) :=
  q <- fe_tobytes_q h ;;
  let '(L10 h0 h1 h2 h3 h4 h5 h6 h7 h8 h9) := h in
  h0 <- (h0 + #19 * q)%i32 ;;
  h <- fe_tobytes_carry (L10 h0 h1 h2 h3 h4 h5 h6 h7 h8 h9) ;;
  fe_tobytes_pack h.

End FieldOps.

(** ** Interval soundness *)

Record limbs_rel {A B} (R : A -> B -> Prop) (x : limbs A) (y : limbs B) : Prop := {
  lr0 : R (l0 x) (l0 y); lr1 : R (l1 x) (l1 y); lr2 : R (l2 x) (l2 y); lr3 : R (l3 x) (l3 y);
  lr4 : R (l4 x) (l4 y); lr5 : R (l5 x) (l5 y); lr6 : R (l6 x) (l6 y); lr7 : R (l7 x) (l7 y);
  lr8 : R (l8 x) (l8 y); lr9 : R (l9 x) (l9 y) }.

(** [fe_in f b]: every limb of [f] lies in the corresponding interval of [b]. *)
Definition fe_in : fe cmach -> fe citv -> Prop := limbs_rel irel.

Ltac limbs_cbn := cbn [l0 l1 l2 l3 l4 l5 l6 l7 l8 l9] in *.

Ltac fe_crel :=
  repeat match goal with
  | H : fe_in ?f ?b |- _ => destruct f, b; destruct H; limbs_cbn
  end;
  cbn beta iota;
  repeat crel_step;
  try (split; limbs_cbn; assumption).

Lemma fe_0_rel : fe_in fe_0 fe_0.
Proof. split; apply v_lit_rel. Qed.

Lemma fe_1_rel : fe_in fe_1 fe_1.
Proof. split; apply v_lit_rel. Qed.

Lemma fe_copy_id {C : CSem} (f : fe C) : fe_copy f = f.
Proof. destruct f. reflexivity. Qed.

Lemma fe_add_rel f g a b : fe_in f a -> fe_in g b -> orel fe_in (fe_add f g) (fe_add a b).
Proof. intros Hf Hg. unfold fe_add. fe_crel. Qed.

Lemma fe_sub_rel f g a b : fe_in f a -> fe_in g b -> orel fe_in (fe_sub f g) (fe_sub a b).
Proof. intros Hf Hg. unfold fe_sub. fe_crel. Qed.

Lemma fe_neg_rel f a : fe_in f a -> orel fe_in (fe_neg f) (fe_neg a).
Proof. intros Hf. unfold fe_neg. fe_crel. Qed.

Lemma fe_mul_products_rel f g a b : fe_in f a -> fe_in g b ->
  orel fe_in (fe_mul_products f g) (fe_mul_products a b).
Proof. intros Hf Hg. unfold fe_mul_products. fe_crel. Qed.

Lemma fe_sq_products_rel f a : fe_in f a ->
  orel fe_in (fe_sq_products f) (fe_sq_products a).
Proof. intros Hf. unfold fe_sq_products. fe_crel. Qed.

Lemma fe_carry_chain_rel f a : fe_in f a -> orel fe_in (fe_carry_chain f) (fe_carry_chain a).
Proof. intros Hf. unfold fe_carry_chain. fe_crel. Qed.

Lemma fe_mul_rel f g a b : fe_in f a -> fe_in g b -> orel fe_in (fe_mul f g) (fe_mul a b).
Proof.
  intros Hf Hg. eapply orel_bind; [apply fe_mul_products_rel; eassumption|].
  intros. apply fe_carry_chain_rel. assumption.
Qed.

Lemma fe_sq_rel f a : fe_in f a -> orel fe_in (fe_sq f) (fe_sq a).
Proof.
  intros Hf. eapply orel_bind; [apply fe_sq_products_rel; eassumption|].
  intros. apply fe_carry_chain_rel. assumption.
Qed.

Lemma fe_sq2_rel f a : fe_in f a -> orel fe_in (fe_sq2 f) (fe_sq2 a).
Proof.
  intros Hf. eapply orel_bind; [apply fe_sq_products_rel; eassumption|].
  intros h b Hh. fe_crel. apply fe_carry_chain_rel. split; limbs_cbn; assumption.
Qed.

#[export] Hint Resolve fe_0_rel fe_1_rel fe_add_rel fe_sub_rel fe_neg_rel fe_mul_rel fe_sq_rel
  fe_sq2_rel : crel.

Lemma fe_sq_times_rel n : forall f a, fe_in f a -> orel fe_in (fe_sq_times n f) (fe_sq_times n a).
Proof.
  induction n as [|n IH]; intros f a Hf; cbn [fe_sq_times]; [apply orel_ret, Hf|].
  eapply orel_bind; [apply fe_sq_rel, Hf|]. exact IH.
Qed.

#[export] Hint Resolve fe_sq_times_rel : crel.

Ltac fe_chain_rel :=
  repeat (eapply orel_bind; [eauto 2 with crel nocore|]; cbn beta; intros ? ? ?);
  eauto 2 with crel nocore.

Lemma fe_invert_rel f a : fe_in f a -> orel fe_in (fe_invert f) (fe_invert a).
Proof. intros Hf. unfold fe_invert. fe_chain_rel. Qed.

Lemma fe_divpowm1_rel f g a b : fe_in f a -> fe_in g b ->
  orel fe_in (fe_divpowm1 f g) (fe_divpowm1 a b).
Proof. intros Hf Hg. unfold fe_divpowm1. fe_chain_rel. Qed.

Lemma fe_tobytes_q_rel f a : fe_in f a -> orel irel (fe_tobytes_q f) (fe_tobytes_q a).
Proof. intros Hf. unfold fe_tobytes_q. fe_crel. assumption. Qed.

Lemma fe_tobytes_carry_rel f a : fe_in f a -> orel fe_in (fe_tobytes_carry f) (fe_tobytes_carry a).
Proof. intros Hf. unfold fe_tobytes_carry. fe_crel. Qed.

Lemma fe_tobytes_pack_rel f a : fe_in f a ->
  orel (Forall2 irel) (fe_tobytes_pack f) (fe_tobytes_pack a).
Proof. intros Hf. unfold fe_tobytes_pack. fe_crel. repeat (apply Forall2_cons; [assumption|]). apply Forall2_nil. Qed.

(** ** Values *)

(** The integer an [fe] stands for, in radix 2^25.5. *)
Definition fe_val (f : fe cmach) : Z :=
  l0 f + 2 ^ 26 * l1 f + 2 ^ 51 * l2 f + 2 ^ 77 * l3 f + 2 ^ 102 * l4 f + 2 ^ 128 * l5 f +
  2 ^ 153 * l6 f + 2 ^ 179 * l7 f + 2 ^ 204 * l8 f + 2 ^ 230 * l9 f.

Ltac fe_steps :=
  repeat cpost_step; unfold fe_val, p25519; limbs_cbn; cbn [v_lit cmach]; norm_pow2.

Lemma fe_val_0 : fe_val fe_0 = 0.
Proof. reflexivity. Qed.

Lemma fe_val_1 : fe_val fe_1 = 1.
Proof. reflexivity. Qed.

Lemma fe_add_val f g : post (fe_add f g) (fun h => fe_val h = fe_val f + fe_val g).
Proof. destruct f, g. unfold fe_add. fe_steps. ring. Qed.

Lemma fe_sub_val f g : post (fe_sub f g) (fun h => fe_val h = fe_val f - fe_val g).
Proof. destruct f, g. unfold fe_sub. fe_steps. ring. Qed.

Lemma fe_neg_val f : post (fe_neg f) (fun h => fe_val h = - fe_val f).
Proof. destruct f. unfold fe_neg. fe_steps. ring. Qed.

(** The part of the schoolbook product of [f] and [g] of weight 2^255 and more. *)
Definition mul_high (f g : limbs Z) : Z :=
  let '(L10 f0 f1 f2 f3 f4 f5 f6 f7 f8 f9) := f in
  let '(L10 g0 g1 g2 g3 g4 g5 g6 g7 g8 g9) := g in
  (f1 * g9 * 2 + f2 * g8 + f3 * g7 * 2 + f4 * g6 + f5 * g5 * 2 + f6 * g4 + f7 * g3 * 2 + f8 * g2
   + f9 * g1 * 2)
  + 2 ^ 26 * (f2 * g9 + f3 * g8 + f4 * g7 + f5 * g6 + f6 * g5 + f7 * g4 + f8 * g3 + f9 * g2)
  + 2 ^ 51 * (f3 * g9 * 2 + f4 * g8 + f5 * g7 * 2 + f6 * g6 + f7 * g5 * 2 + f8 * g4 + f9 * g3 * 2)
  + 2 ^ 77 * (f4 * g9 + f5 * g8 + f6 * g7 + f7 * g6 + f8 * g5 + f9 * g4)
  + 2 ^ 102 * (f5 * g9 * 2 + f6 * g8 + f7 * g7 * 2 + f8 * g6 + f9 * g5 * 2)
  + 2 ^ 128 * (f6 * g9 + f7 * g8 + f8 * g7 + f9 * g6)
  + 2 ^ 153 * (f7 * g9 * 2 + f8 * g8 + f9 * g7 * 2)
  + 2 ^ 179 * (f8 * g9 + f9 * g8)
  + 2 ^ 204 * (f9 * g9 * 2).

Lemma fe_mul_products_val f g :
  post (fe_mul_products f g) (fun h => fe_val h ≡[p25519] fe_val f * fe_val g).
Proof.
  exists (- mul_high f g). revert a H. change (post (fe_mul_products f g)
    (fun h => fe_val h = fe_val f * fe_val g + - mul_high f g * p25519)).
  destruct f, g. unfold fe_mul_products. fe_steps. unfold mul_high. norm_pow2. ring.
Qed.

Lemma fe_sq_products_val f :
  post (fe_sq_products f) (fun h => fe_val h ≡[p25519] fe_val f * fe_val f).
Proof.
  exists (- mul_high f f). revert a H. change (post (fe_sq_products f)
    (fun h => fe_val h = fe_val f * fe_val f + - mul_high f f * p25519)).
  destruct f. unfold fe_sq_products. fe_steps. unfold mul_high. norm_pow2. ring.
Qed.

Lemma fe_carry_chain_val h : post (fe_carry_chain h) (fun r => fe_val r ≡[p25519] fe_val h).
Proof.
  destruct h. unfold fe_carry_chain. fe_steps.
  match goal with c : Z, H : ?c = Z.shiftr (l19 + _ + _) 25 |- _ => exists (- c) end.
  ring.
Qed.

Lemma fe_mul_val f g : post (fe_mul f g) (fun h => fe_val h ≡[p25519] fe_val f * fe_val g).
Proof.
  apply post_bind. eapply post_mono; [apply fe_mul_products_val|]. intros h Hh.
  eapply post_mono; [apply fe_carry_chain_val|]. intros r Hr. rewrite Hr. exact Hh.
Qed.

Lemma fe_sq_val f : post (fe_sq f) (fun h => fe_val h ≡[p25519] fe_val f * fe_val f).
Proof.
  apply post_bind. eapply post_mono; [apply fe_sq_products_val|]. intros h Hh.
  eapply post_mono; [apply fe_carry_chain_val|]. intros r Hr. rewrite Hr. exact Hh.
Qed.

Lemma fe_sq2_val f : post (fe_sq2 f) (fun h => fe_val h ≡[p25519] 2 * (fe_val f * fe_val f)).
Proof.
  apply post_bind. eapply post_mono; [apply fe_sq_products_val|]. intros h Hh.
  destruct h as [h0 h1 h2 h3 h4 h5 h6 h7 h8 h9]. repeat cpost_step.
  eapply post_mono; [apply fe_carry_chain_val|]. intros r ->. rewrite <- Hh.
  unfold fe_val; limbs_cbn. exists 0. ring.
Qed.

(** ** Powers *)

(** [has_pow x n f]: [f] holds the [n]-th power of [x]. *)
Definition has_pow (x : Z) (n : positive) (f : fe cmach) : Prop := fe_val f ≡[p25519] x ^ Zpos n.

Lemma fe_mul_pow x m n f g : has_pow x m f -> has_pow x n g ->
  post (fe_mul f g) (has_pow x (m + n)).
Proof.
  unfold has_pow. intros Hf Hg. eapply post_mono; [apply fe_mul_val|]. intros h ->.
  rewrite Hf, Hg, Pos2Z.inj_add, Z.pow_add_r by lia. reflexivity.
Qed.

Lemma fe_sq_pow x m f : has_pow x m f -> post (fe_sq f) (has_pow x (m~0)).
Proof.
  unfold has_pow. intros Hf. eapply post_mono; [apply fe_sq_val|]. intros h ->.
  rewrite Hf, <- Z.pow_add_r by lia. replace (Z.pos m + Z.pos m) with (Z.pos m~0) by lia.
  reflexivity.
Qed.

Lemma fe_sq_times_pow x n : forall m f, has_pow x m f ->
  post (fe_sq_times n f) (has_pow x (Nat.iter n xO m)).
Proof.
  induction n as [|n IH]; intros m f Hf; cbn [fe_sq_times]; [apply post_ret, Hf|].
  apply post_bind. eapply post_mono; [apply fe_sq_pow, Hf|]. intros g Hg.
  rewrite Nat.iter_succ_r. apply IH, Hg.
Qed.

Create HintDb fe_pow discriminated.
#[export] Hint Resolve fe_mul_pow fe_sq_pow fe_sq_times_pow : fe_pow.

Ltac pow_chain :=
  repeat (lazymatch goal with |- post (obind _ _) _ => apply post_bind end;
          eapply post_mono; [eauto 2 with fe_pow nocore|]; cbn beta;
          let t := fresh "t" in let H := fresh "H" in intros t H);
  eapply post_mono; [eauto 2 with fe_pow nocore|]; cbn beta.

Lemma fe_invert_val f : post (fe_invert f) (fun r => fe_val r ≡[p25519] fe_val f ^ (p25519 - 2)).
Proof.
  unfold fe_invert. assert (has_pow (fe_val f) 1 f) as Hf.
  { unfold has_pow. rewrite Z.pow_1_r. reflexivity. }
  pow_chain. intros r Hr. unfold has_pow in Hr. rewrite Hr.
  match goal with |- _ ^ ?a ≡[_] _ ^ ?b => replace a with b by (vm_compute; reflexivity) end.
  reflexivity.
Qed.

(** The part of [fe_divpowm1] after [uv7]: the power (p - 5) / 8. *)
Lemma fe_divpowm1_val u v : post (fe_divpowm1 u v) (fun r =>
  fe_val r ≡[p25519]
    (fe_val u * fe_val v ^ 7) ^ ((p25519 - 5) / 8) * fe_val v ^ 3 * fe_val u).
Proof.
  unfold fe_divpowm1. do 5 (apply post_bind; eapply post_mono;
    [first [apply fe_sq_val|apply fe_mul_val]|]; cbn beta;
    let t := fresh "t" in let H := fresh "E" in intros t H).
  assert (has_pow (fe_val u * fe_val v ^ 7) 1 t3) as Hf.
  { unfold has_pow. rewrite Z.pow_1_r, E3, E2, E1, E0, E. exists 0. ring. }
  assert (fe_val t0 ≡[p25519] fe_val v ^ 3) as H3 by (rewrite E0, E; exists 0; ring).
  clear E E0 E1 E2 E3. generalize dependent (fe_val u * fe_val v ^ 7). intros x Hx.
  do 29 (apply post_bind; eapply post_mono; [eauto 2 with fe_pow nocore|]; cbn beta;
         let t := fresh "t" in let H := fresh "H" in intros t H).
  apply post_bind. eapply post_mono; [apply fe_mul_val|]. intros w Hw.
  eapply post_mono; [apply fe_mul_val|]. intros r Hr. rewrite Hr, Hw, H3.
  unfold has_pow in *.
  match goal with H : fe_val ?t ≡[_] x ^ ?a |- context [fe_val ?t] =>
    rewrite H; replace a with ((p25519 - 5) / 8) by (vm_compute; reflexivity) end.
  reflexivity.
Qed.

(** ** Bounds *)

(** The bounds of the comments of the code: [e] on even and [o] on odd limbs. *)
Definition fe_bound (e o : Z) : fe citv :=
  L10 (- e, e) (- o, o) (- e, e) (- o, o) (- e, e) (- o, o) (- e, e) (- o, o) (- e, e) (- o, o).

(** 1.01 * 2^25, 1.01 * 2^24: the results of [fe_mul], [fe_sq], [fe_sq2]. *)
Definition fe_tight : fe citv := fe_bound (101 * 2 ^ 25 / 100) (101 * 2 ^ 24 / 100).
(** 1.1 * 2^25, 1.1 * 2^24: the operands of [fe_add], [fe_sub], [fe_neg]. *)
Definition fe_small : fe citv := fe_bound (11 * 2 ^ 25 / 10) (11 * 2 ^ 24 / 10).
(** 1.1 * 2^26, 1.1 * 2^25: their results, and the operand of [fe_tobytes]. *)
Definition fe_loose : fe citv := fe_bound (11 * 2 ^ 26 / 10) (11 * 2 ^ 25 / 10).
(** 1.65 * 2^26, 1.65 * 2^25: the operands of [fe_mul], [fe_sq], [fe_sq2]. *)
Definition fe_wide : fe citv := fe_bound (165 * 2 ^ 26 / 100) (165 * 2 ^ 25 / 100).

Definition fe_le (a b : fe citv) : bool :=
  itv_le (l0 a) (l0 b) && itv_le (l1 a) (l1 b) && itv_le (l2 a) (l2 b) && itv_le (l3 a) (l3 b) &&
  itv_le (l4 a) (l4 b) && itv_le (l5 a) (l5 b) && itv_le (l6 a) (l6 b) && itv_le (l7 a) (l7 b) &&
  itv_le (l8 a) (l8 b) && itv_le (l9 a) (l9 b).

Lemma fe_le_in f a b : fe_le a b = true -> fe_in f a -> fe_in f b.
Proof.
  unfold fe_le. rewrite !andb_true_iff. intros H Hf. destruct_conjs. destruct Hf.
  split; eapply itv_le_in; eassumption.
Qed.

(** Total correctness from a run on intervals [i] within [b]. *)
Lemma fe_total m i b P : orel fe_in m i ->
  match i with Some c => fe_le c b | None => false end = true ->
  post m P -> total m (fun h => fe_in h b /\ P h).
Proof.
  intros H Hi Hp. destruct i as [c|]; [|discriminate]. destruct H as (a & E & Ha).
  exists a. split; [exact E|]. split; [eapply fe_le_in; eassumption|exact (Hp a E)].
Qed.

Ltac fe_total_by H :=
  eapply fe_total; [eapply H; eassumption|vm_compute; reflexivity|].

Lemma fe_add_ok f g : fe_in f fe_small -> fe_in g fe_small ->
  total (fe_add f g) (fun h => fe_in h fe_loose /\ fe_val h = fe_val f + fe_val g).
Proof. intros. fe_total_by fe_add_rel. apply fe_add_val. Qed.

Lemma fe_sub_ok f g : fe_in f fe_small -> fe_in g fe_small ->
  total (fe_sub f g) (fun h => fe_in h fe_loose /\ fe_val h = fe_val f - fe_val g).
Proof. intros. fe_total_by fe_sub_rel. apply fe_sub_val. Qed.

Lemma fe_neg_ok f : fe_in f fe_small ->
  total (fe_neg f) (fun h => fe_in h fe_small /\ fe_val h = - fe_val f).
Proof. intros. fe_total_by fe_neg_rel. apply fe_neg_val. Qed.

Lemma fe_mul_ok f g : fe_in f fe_wide -> fe_in g fe_wide ->
  total (fe_mul f g) (fun h => fe_in h fe_tight /\ fe_val h ≡[p25519] fe_val f * fe_val g).
Proof. intros. fe_total_by fe_mul_rel. apply fe_mul_val. Qed.

Lemma fe_sq_ok f : fe_in f fe_wide ->
  total (fe_sq f) (fun h => fe_in h fe_tight /\ fe_val h ≡[p25519] fe_val f * fe_val f).
Proof. intros. fe_total_by fe_sq_rel. apply fe_sq_val. Qed.

Lemma fe_sq2_ok f : fe_in f fe_wide ->
  total (fe_sq2 f) (fun h => fe_in h fe_tight /\ fe_val h ≡[p25519] 2 * (fe_val f * fe_val f)).
Proof. intros. fe_total_by fe_sq2_rel. apply fe_sq2_val. Qed.

Lemma fe_invert_ok f : fe_in f fe_wide ->
  total (fe_invert f) (fun h => fe_in h fe_tight /\ fe_val h ≡[p25519] fe_val f ^ (p25519 - 2)).
Proof. intros. fe_total_by fe_invert_rel. apply fe_invert_val. Qed.

Lemma fe_divpowm1_ok u v : fe_in u fe_wide -> fe_in v fe_wide ->
  total (fe_divpowm1 u v) (fun r => fe_in r fe_tight /\
    fe_val r ≡[p25519]
      (fe_val u * fe_val v ^ 7) ^ ((p25519 - 5) / 8) * fe_val v ^ 3 * fe_val u).
Proof. intros. fe_total_by fe_divpowm1_rel. apply fe_divpowm1_val. Qed.
