(* ===== verification/FieldBytes.v ===== *)
(** * Encoding and decoding of field elements (crypto-ops.c)

    [fe_tobytes] and the predicates built on it, the loads at the head of
    [ge_frombytes_vartime] and [ge_fromfe_frombytes_vartime], the test that
    rejects encodings of [p] and more, and the conditional move.  The theorems:
    [fe_tobytes] writes the canonical residue, decoding inverts it, and the
    check accepts exactly the canonical encodings. *)

From Stdlib Require Import ZArith Lia List Bool Setoid Morphisms Program.Tactics.
Import ListNotations.
From S2P Require Import Prelude Primes Loads FieldElt.
Set Default Goal Selector "!".

(** ** Canonical encoding *)

(** Nested floor divisions. *)
Lemma floor_step h q a b : 0 < a -> 0 < b -> (h + q / a) / b = (a * h + q) / (a * b).
Proof.
  intros Ha Hb. rewrite <- Z.div_div by lia. f_equal.
  rewrite (Z.mul_comm a h), Z.add_comm, Z.div_add_l by lia. lia.
Qed.

Lemma fe_tobytes_q_val h : post (fe_tobytes_q h) (fun q =>
  q = (fe_val h + (19 * l9 h + 2 ^ 24) / 2 ^ 25) / 2 ^ 255).
Proof.
  destruct h as [h0 h1 h2 h3 h4 h5 h6 h7 h8 h9]. unfold fe_tobytes_q. repeat cpost_step.
  rewrite !Z.shiftr_div_pow2 by discriminate. unfold fe_val; limbs_cbn; cbn [v_lit cmach].
  set (q0 := (19 * h9 + 2 ^ 24) / 2 ^ 25).
  rewrite (floor_step h1 (h0 + q0)), (floor_step h2), (floor_step h3), (floor_step h4),
    (floor_step h5), (floor_step h6), (floor_step h7), (floor_step h8), (floor_step h9) by lia.
  clearbody q0. norm_pow2. f_equal. ring.
Qed.

Lemma fe_tobytes_carry_val h : post (fe_tobytes_carry h) (fun r => fe_val r ≡[2 ^ 255] fe_val h).
Proof.
  destruct h as [h0 h1 h2 h3 h4 h5 h6 h7 h8 h9]. unfold fe_tobytes_carry. repeat cpost_step.
  match goal with c : Z, H : ?c = Z.shiftr (h9 + _ + _) 25 |- _ => exists (- c) end.
  unfold fe_val; limbs_cbn; cbn [v_lit cmach]. norm_pow2. ring.
Qed.

(** Unsigned limbs. *)
Definition fe_unsigned : fe citv :=
  let e := (0, 2 ^ 26 - 1) in let o := (0, 2 ^ 25 - 1) in L10 e o e o e o e o e o.

Lemma fe_unsigned_val h : fe_in h fe_unsigned -> 0 <= fe_val h < 2 ^ 255.
Proof.
  intros []. destruct h. unfold irel, in_itv in *. cbn in *. unfold fe_val; limbs_cbn.
  norm_pow2. lia.
Qed.

Lemma fe_tobytes_pack_val h : fe_in h fe_unsigned ->
  post (fe_tobytes_pack h) (fun s => le_val s = fe_val h /\ Forall byte s /\ length s = 32%nat).
Proof.
  intros Hh. destruct h as [h0 h1 h2 h3 h4 h5 h6 h7 h8 h9].
  destruct Hh as [H0 H1 H2 H3 H4 H5 H6 H7 H8 H9]. unfold irel, in_itv in *. cbn in *.
  unfold fe_tobytes_pack. repeat cpost_step.
  split; [|split; [repeat (apply Forall_cons; [apply wrap_byte|]); apply Forall_nil|reflexivity]].
  rewrite !byte_or by (try (exists (2 ^ 24); reflexivity); lia).
  rewrite !byte_shr by lia. unfold fe_val; limbs_cbn; cbn [le_val].
  limb_split h0 8. limb_split h1 6. limb_split h2 5. limb_split h3 3. limb_split h4 2.
  limb_split h5 8. limb_split h6 7. limb_split h7 5. limb_split h8 4. limb_split h9 2.
  rewrite (Z.mod_small (h4 / 2 ^ 18) 256), (Z.mod_small (h9 / 2 ^ 18) 256) in *
    by (split; [apply Z.div_pos; lia|apply Z.div_lt_upper_bound; lia]).
  clear H0 H1 H2 H3 H4 H5 H6 H7 H8 H9.
  repeat match goal with |- context [8 - ?j] =>
    let v := eval vm_compute in (8 - j) in change (8 - j) with v end.
  change (2 ^ 0) with 1. rewrite !Z.div_1_r. change (2 ^ 8) with 256 in *.
  lia.
Qed.

(** The quotient is exact: subtracting [q] times [p] leaves the canonical residue. *)
Lemma fe_tobytes_quotient h : fe_in h fe_wide ->
  0 <= fe_val h - p25519 * ((fe_val h + (19 * l9 h + 2 ^ 24) / 2 ^ 25) / 2 ^ 255) < p25519.
Proof.
  intros []. destruct h as [h0 h1 h2 h3 h4 h5 h6 h7 h8 h9]. unfold irel, in_itv in *. cbn in *.
  change (165 * 2 ^ 26 / 100) with 110729625 in *. change (165 * 2 ^ 25 / 100) with 55364812 in *.
  set (D := h0 + 2 ^ 26 * h1 + 2 ^ 51 * h2 + 2 ^ 77 * h3 + 2 ^ 102 * h4 + 2 ^ 128 * h5 +
    2 ^ 153 * h6 + 2 ^ 179 * h7 + 2 ^ 204 * h8).
  assert (- 2 ^ 232 < D < 2 ^ 232) as HD by (unfold D; norm_pow2; lia).
  replace (fe_val _) with (D + 2 ^ 230 * h9) by (unfold fe_val, D; limbs_cbn; ring).
  clearbody D. unfold p25519.
  pose proof (Z.div_mod (19 * h9 + 2 ^ 24) (2 ^ 25) ltac:(lia)) as E1.
  pose proof (Z.mod_pos_bound (19 * h9 + 2 ^ 24) (2 ^ 25) ltac:(lia)) as B1.
  set (q0 := (19 * h9 + 2 ^ 24) / 2 ^ 25) in *.
  pose proof (Z.div_mod (D + 2 ^ 230 * h9 + q0) (2 ^ 255) ltac:(lia)) as E2.
  pose proof (Z.mod_pos_bound (D + 2 ^ 230 * h9 + q0) (2 ^ 255) ltac:(lia)) as B2.
  set (q := (D + _ + q0) / 2 ^ 255) in *.
  generalize dependent ((D + 2 ^ 230 * h9 + q0) mod 2 ^ 255). intros e E2 B2.
  generalize dependent ((19 * h9 + 2 ^ 24) mod 2 ^ 25). intros e1 E1 B1.
  clearbody q q0. norm_pow2. lia.
Qed.

Lemma fe_tobytes_val h : fe_in h fe_wide -> post (fe_tobytes h) (fun s =>
  le_val s = fe_val h mod p25519 /\ Forall byte s /\ length s = 32%nat).
Proof.
  intros Hh. pose proof (fe_tobytes_quotient h Hh) as HQ. unfold fe_tobytes.
  apply post_bind. eapply post_mono; [apply post_and; [apply fe_tobytes_q_val|]|].
  { eapply orel_post; [apply fe_tobytes_q_rel; eassumption|vm_compute; reflexivity]. }
  intros q [Eq Hq]. cbn beta in *. rewrite <- Eq in HQ. clear Eq.
  destruct h as [h0 h1 h2 h3 h4 h5 h6 h7 h8 h9]. cbn iota. cpost_step.
  destruct Hh. limbs_cbn.
  set (h' := L10 _ _ _ _ _ _ _ _ _ _).
  assert (fe_val h' = fe_val (L10 h0 h1 h2 h3 h4 h5 h6 h7 h8 h9) + 19 * q) as EV.
  { unfold h', fe_val; limbs_cbn; cbn [v_lit cmach]. ring. }
  assert (fe_in h' (fe_bound (165 * 2 ^ 26 / 100 + 57) (165 * 2 ^ 25 / 100))) as Hh'.
  { split; unfold irel, in_itv in *; cbn in *; lia. }
  apply post_bind. eapply post_mono; [apply post_and; [apply fe_tobytes_carry_val|]|].
  { eapply orel_post; [apply fe_tobytes_carry_rel, Hh'|vm_compute; reflexivity]. }
  intros r [Er Hr]. cbn beta in *.
  assert (fe_in r fe_unsigned) as Hu by (eapply fe_le_in; [|exact Hr]; vm_compute; reflexivity).
  pose proof (fe_unsigned_val r Hu). rewrite EV in Er. revert HQ Er.
  generalize dependent (fe_val (L10 h0 h1 h2 h3 h4 h5 h6 h7 h8 h9)). intros V _ HQ Er.
  assert (fe_val r = V mod p25519) as <-; [|apply fe_tobytes_pack_val, Hu].
  assert (fe_val r = V - p25519 * q) as ->.
  { destruct Er as [k Er]. unfold p25519 in *.
    assert (k = - q); [|subst k]; revert HQ Er H; norm_pow2; lia. }
  apply cong_small; [lia|]. exists (- q). ring.
Qed.

Lemma fe_tobytes_rel f a : fe_in f a -> orel (Forall2 irel) (fe_tobytes f) (fe_tobytes a).
Proof.
  intros Hf. unfold fe_tobytes. eapply orel_bind; [apply fe_tobytes_q_rel; eassumption|].
  intros q q' Hq. fe_crel. eapply orel_bind.
  { apply fe_tobytes_carry_rel. split; limbs_cbn; eassumption. }
  intros. apply fe_tobytes_pack_rel. assumption.
Qed.

(** The function is right on more than its documented inputs: the debug assertion of
    [ge_fromfe_frombytes_vartime] needs it on sums of three elements. *)
Lemma fe_tobytes_wide h : fe_in h fe_wide -> total (fe_tobytes h) (fun s =>
  le_val s = fe_val h mod p25519 /\ Forall byte s /\ length s = 32%nat).
Proof.
  intros Hh. eapply total_mono.
  - eapply total_run; [apply fe_tobytes_rel; eassumption|vm_compute; reflexivity|].
    apply fe_tobytes_val, Hh.
  - cbn beta. tauto.
Qed.

Lemma fe_loose_wide f : fe_in f fe_loose -> fe_in f fe_wide.
Proof. apply fe_le_in. vm_compute. reflexivity. Qed.

Lemma fe_tobytes_ok h : fe_in h fe_loose -> total (fe_tobytes h) (fun s =>
  le_val s = fe_val h mod p25519 /\ Forall byte s /\ length s = 32%nat).
Proof. intros H. apply fe_tobytes_wide, fe_loose_wide, H. Qed.

(** ** Predicates on field elements *)

Definition fe_isnegative (f : fe cmach) : option Z :=
  s <- fe_tobytes f ;; s0 <- nth_error s 0 ;; Some (Z.land s0 1).

Definition fe_isnonzero (f : fe cmach) : option Z :=
  s <- fe_tobytes f ;; Some (bytes_nonzero s).

Lemma fe_isnonzero_wide f : fe_in f fe_wide ->
  fe_isnonzero f = Some (if fe_val f mod p25519 =? 0 then 0 else 1).
Proof.
  intros Hf. destruct (fe_tobytes_wide f Hf) as (s & E & Es & Hs & _).
  unfold fe_isnonzero. rewrite E. cbn [obind]. f_equal. rewrite bytes_nonzero_spec by assumption.
  rewrite <- Es. pose proof (le_val_zero s Hs) as Z.
  destruct (Z.eqb_spec (le_val s) 0), (forallb (Z.eqb 0) s); intuition congruence.
Qed.

Lemma fe_isnonzero_ok f : fe_in f fe_loose ->
  fe_isnonzero f = Some (if fe_val f mod p25519 =? 0 then 0 else 1).
Proof. intros H. apply fe_isnonzero_wide, fe_loose_wide, H. Qed.

Lemma fe_isnegative_ok f : fe_in f fe_loose ->
  fe_isnegative f = Some ((fe_val f mod p25519) mod 2).
Proof.
  intros Hf. destruct (fe_tobytes_ok f Hf) as (s & E & Es & Hs & L).
  unfold fe_isnegative. rewrite E. cbn [obind].
  destruct s as [|b s]; [discriminate|]. cbn [nth_error obind]. f_equal.
  rewrite <- Es. cbn [le_val]. change 1 with (Z.ones 1). rewrite Z.land_ones by lia.
  change (2 ^ 1) with 2. replace (b + 256 * le_val s) with (b + 128 * le_val s * 2) by ring.
  symmetry. apply Z_mod_plus_full.
Qed.
(** ** Decoding, the [fe_frombytes] part of [ge_frombytes_vartime] and
    [ge_fromfe_frombytes_vartime] *)

Section FromBytes.
Context {C : CSem}.

(** The limbs as [ge_frombytes_vartime] loads them: the top bit is masked off. *)
Definition fe_frombytes_load (s : list val) : option (limbs val) :=
  h0 <- e_cast I64 (load_4 s 0) ;;
  h1 <- e_cast I64 (load_3 s 4 << 6)%u64 ;;
  h2 <- e_cast I64 (load_3 s 7 << 5)%u64 ;;
  h3 <- e_cast I64 (load_3 s 10 << 3)%u64 ;;
  h4 <- e_cast I64 (load_3 s 13 << 2)%u64 ;;
  h5 <- e_cast I64 (load_4 s 16) ;;
  h6 <- e_cast I64 (load_3 s 20 << 7)%u64 ;;
  h7 <- e_cast I64 (load_3 s 23 << 5)%u64 ;;
  h8 <- e_cast I64 (load_3 s 26 << 4)%u64 ;;
  h9 <- e_cast I64 ((load_3 s 29 & #8388607) << 2)%u64 ;;
  Some (L10 h0 h1 h2 h3 h4 h5 h6 h7 h8 h9).

(** The limbs as [ge_fromfe_frombytes_vartime] loads them: all 256 bits. *)
Definition fe_fromfe_load (s : list val) : option (limbs val) :=
  h0 <- e_cast I64 (load_4 s 0) ;;
  h1 <- e_cast I64 (load_3 s 4 << 6)%u64 ;;
  h2 <- e_cast I64 (load_3 s 7 << 5)%u64 ;;
  h3 <- e_cast I64 (load_3 s 10 << 3)%u64 ;;
  h4 <- e_cast I64 (load_3 s 13 << 2)%u64 ;;
  h5 <- e_cast I64 (load_4 s 16) ;;
  h6 <- e_cast I64 (load_3 s 20 << 7)%u64 ;;
  h7 <- e_cast I64 (load_3 s 23 << 5)%u64 ;;
  h8 <- e_cast I64 (load_3 s 26 << 4)%u64 ;;
  h9 <- e_cast I64 (load_3 s 29 << 2)%u64 ;;
  Some (L10 h0 h1 h2 h3 h4 h5 h6 h7 h8 h9).

(** The carries that both functions apply to the loaded limbs. *)
Definition fe_frombytes_carry (h : limbs val) : option (fe C) :=
  let '(L10 h0 h1 h2 h3 h4 h5 h6 h7 h8 h9) := h in
  '(carry9, h9) <- e_carry I64 h9 (2 ^ 24) 25 ;; h0 <- (h0 + carry9 * #19)%i64 ;;
  '(carry1, h1) <- e_carry I64 h1 (2 ^ 24) 25 ;; h2 <- (h2 + carry1)%i64 ;;
  '(carry3, h3) <- e_carry I64 h3 (2 ^ 24) 25 ;; h4 <- (h4 + carry3)%i64 ;;
  '(carry5, h5) <- e_carry I64 h5 (2 ^ 24) 25 ;; h6 <- (h6 + carry5)%i64 ;;
  '(carry7, h7) <- e_carry I64 h7 (2 ^ 24) 25 ;; h8 <- (h8 + carry7)%i64 ;;
  '(carry0, h0) <- e_carry I64 h0 (2 ^ 25) 26 ;; h1 <- (h1 + carry0)%i64 ;;
  '(carry2, h2) <- e_carry I64 h2 (2 ^ 25) 26 ;; h3 <- (h3 + carry2)%i64 ;;
  '(carry4, h4) <- e_carry I64 h4 (2 ^ 25) 26 ;; h5 <- (h5 + carry4)%i64 ;;
  '(carry6, h6) <- e_carry I64 h6 (2 ^ 25) 26 ;; h7 <- (h7 + carry6)%i64 ;;
  '(carry8, h8) <- e_carry I64 h8 (2 ^ 25) 26 ;; h9 <- (h9 + carry8)%i64 ;;
  h0 <- e_cast I32 h0 ;;
  h1 <- e_cast I32 h1 ;;
  h2 <- e_cast I32 h2 ;;
  h3 <- e_cast I32 h3 ;;
  h4 <- e_cast I32 h4 ;;
  h5 <- e_cast I32 h5 ;;
  h6 <- e_cast I32 h6 ;;
  h7 <- e_cast I32 h7 ;;
  h8 <- e_cast I32 h8 ;;
  h9 <- e_cast I32 h9 ;;
  Some (L10 h0 h1 h2 h3 h4 h5 h6 h7 h8 h9).

End FromBytes.

(** The test of [ge_frombytes_vartime] that the 255 bits are not canonical. *)
Definition fe_not_canonical (h : limbs Z) : bool :=
  let '(L10 h0 h1 h2 h3 h4 h5 h6 h7 h8 h9) := h in
  (h9 =? 33554428) && (h8 =? 268435440) && (h7 =? 536870880) && (h6 =? 2147483520) &&
  (h5 =? 4294967295) && (h4 =? 67108860) && (h3 =? 134217720) && (h2 =? 536870880) &&
  (h1 =? 1073741760) && (4294967277 <=? h0).

Lemma fe_frombytes_load_rel s t : Forall2 irel s t ->
  orel fe_in (fe_frombytes_load s) (fe_frombytes_load t).
Proof. intros H. unfold fe_frombytes_load. repeat crel_step. split; limbs_cbn; assumption. Qed.

Lemma fe_fromfe_load_rel s t : Forall2 irel s t ->
  orel fe_in (fe_fromfe_load s) (fe_fromfe_load t).
Proof. intros H. unfold fe_fromfe_load. repeat crel_step. split; limbs_cbn; assumption. Qed.

Lemma fe_frombytes_carry_rel h a : fe_in h a ->
  orel fe_in (fe_frombytes_carry h) (fe_frombytes_carry a).
Proof. intros H. unfold fe_frombytes_carry. fe_crel. Qed.

Lemma fe_frombytes_carry_val h : post (fe_frombytes_carry h) (fun r => fe_val r ≡[p25519] fe_val h).
Proof.
  destruct h as [h0 h1 h2 h3 h4 h5 h6 h7 h8 h9]. unfold fe_frombytes_carry. fe_steps.
  match goal with c : Z, H : ?c = Z.shiftr (h9 + _) 25 |- _ => exists (- c) end. ring.
Qed.

(** The ten loaded limbs of 32 bytes [s]; [top] is the value of the last three. *)
Definition loaded (s : list Z) (top : Z) : limbs Z :=
  let b i := nth i s 0 in
  let w3 i := b i + 2 ^ 8 * b (i + 1)%nat + 2 ^ 16 * b (i + 2)%nat in
  let w4 i := w3 i + 2 ^ 24 * b (i + 3)%nat in
  L10 (w4 0%nat) (2 ^ 6 * w3 4%nat) (2 ^ 5 * w3 7%nat) (2 ^ 3 * w3 10%nat) (2 ^ 2 * w3 13%nat)
      (w4 16%nat) (2 ^ 7 * w3 20%nat) (2 ^ 5 * w3 23%nat) (2 ^ 4 * w3 26%nat) (2 ^ 2 * top).

Section Loaded.
Context (s : list Z) (Hs : Forall byte s) (Hl : length s = 32%nat).

Ltac bytes_lia :=
  repeat match goal with |- context [nth ?i s 0] =>
    pose proof (nth_byte s Hs i); generalize dependent (nth i s 0); intros end;
  norm_pow2; lia.

Lemma fe_frombytes_load_ok :
  @fe_frombytes_load cmach s =
  Some (loaded s ((nth 29 s 0 + 2 ^ 8 * nth 30 s 0 + 2 ^ 16 * nth 31 s 0) mod 2 ^ 23)).
Proof.
  unfold fe_frombytes_load. rewrite !load_3_ok, !load_4_ok by (try assumption; lia).
  cbn [Nat.add]. change (@val cmach) with Z.
  rewrite !cast_I64, !cast_shl by (try lia; bytes_lia).
  cbn [obind e_op2 e_lit v_lit v_and cmach].
  change 8388607 with (Z.ones 23). rewrite Z.land_ones by lia.
  pose proof (Z.mod_pos_bound (nth 29 s 0 + 2 ^ 8 * nth 30 s 0 + 2 ^ 16 * nth 31 s 0) (2 ^ 23)
    ltac:(lia)).
  rewrite cast_shl by lia. reflexivity.
Qed.

Lemma fe_fromfe_load_ok :
  @fe_fromfe_load cmach s = Some (loaded s (nth 29 s 0 + 2 ^ 8 * nth 30 s 0 + 2 ^ 16 * nth 31 s 0)).
Proof.
  unfold fe_fromfe_load. rewrite !load_3_ok, !load_4_ok by (try assumption; lia).
  cbn [Nat.add]. change (@val cmach) with Z.
  rewrite !cast_I64, !cast_shl by (try lia; bytes_lia). reflexivity.
Qed.
End Loaded.

Ltac list32 s Hl :=
  do 32 (destruct s as [|? s]; [discriminate Hl|]); destruct s; [|discriminate Hl].

Lemma loaded_val s top : length s = 32%nat ->
  fe_val (loaded s top) =
  le_val s + 2 ^ 232 * (top - (nth 29 s 0 + 2 ^ 8 * nth 30 s 0 + 2 ^ 16 * nth 31 s 0)).
Proof. intros Hl. list32 s Hl. unfold loaded, fe_val; limbs_cbn. cbn [le_val nth Nat.add]. ring. Qed.

Lemma le_val_top s : Forall byte s -> length s = 32%nat ->
  let top := nth 29 s 0 + 2 ^ 8 * nth 30 s 0 + 2 ^ 16 * nth 31 s 0 in
  le_val s + 2 ^ 232 * (top mod 2 ^ 23 - top) = le_val s mod 2 ^ 255.
Proof.
  intros Hs Hl top. pose proof (Z.div_mod top (2 ^ 23) ltac:(lia)) as E.
  pose proof (Z.mod_pos_bound top (2 ^ 23) ltac:(lia)) as B.
  assert (le_val s = le_val (firstn 29 s) + 2 ^ 232 * top) as EL.
  { subst top. clear E B Hs. list32 s Hl. cbn [le_val firstn nth]. ring. }
  pose proof (le_val_range (firstn 29 s)) as R. rewrite length_firstn, Hl in R.
  change (256 ^ Z.of_nat (Nat.min 29 32)) with (2 ^ 232) in R.
  assert (Forall byte (firstn 29 s)) as Hf.
  { apply Forall_forall. intros x Hx. eapply Forall_forall; [exact Hs|].
    rewrite <- (firstn_skipn 29 s). apply in_or_app. auto. }
  specialize (R Hf). clearbody top. apply cong_small.
  - rewrite EL. revert E B R. norm_pow2. lia.
  - exists (- (top / 2 ^ 23)). rewrite E at 2.
    replace (2 ^ 255) with (2 ^ 232 * 2 ^ 23) by reflexivity. ring.
Qed.

Lemma fe_not_canonical_spec s : Forall byte s -> length s = 32%nat ->
  fe_not_canonical (loaded s ((nth 29 s 0 + 2 ^ 8 * nth 30 s 0 + 2 ^ 16 * nth 31 s 0) mod 2 ^ 23)) =
  (p25519 <=? le_val s mod 2 ^ 255).
Proof.
  intros Hs Hl. rewrite <- (le_val_top s Hs Hl), <- (loaded_val s _ Hl).
  pose proof (nth_byte s Hs) as N.
  set (top := _ mod 2 ^ 23). assert (0 <= top < 2 ^ 23) as Ht by (apply Z.mod_pos_bound; lia).
  clearbody top. unfold loaded, fe_val, fe_not_canonical, p25519; limbs_cbn. cbn [Nat.add].
  pose proof (N 0%nat); pose proof (N 1%nat); pose proof (N 2%nat); pose proof (N 3%nat);
  pose proof (N 4%nat); pose proof (N 5%nat); pose proof (N 6%nat); pose proof (N 7%nat);
  pose proof (N 8%nat); pose proof (N 9%nat); pose proof (N 10%nat); pose proof (N 11%nat);
  pose proof (N 12%nat); pose proof (N 13%nat); pose proof (N 14%nat); pose proof (N 15%nat);
  pose proof (N 16%nat); pose proof (N 17%nat); pose proof (N 18%nat); pose proof (N 19%nat);
  pose proof (N 20%nat); pose proof (N 21%nat); pose proof (N 22%nat); pose proof (N 23%nat);
  pose proof (N 24%nat); pose proof (N 25%nat); pose proof (N 26%nat); pose proof (N 27%nat);
  pose proof (N 28%nat). clear N.
  repeat match goal with |- context [nth ?i s 0 + 2 ^ 8 * nth ?j s 0 + 2 ^ 16 * nth ?k s 0] =>
    let x := fresh "w" in
    assert (0 <= nth i s 0 + 2 ^ 8 * nth j s 0 + 2 ^ 16 * nth k s 0 < 2 ^ 24) by (norm_pow2; lia);
    generalize dependent (nth i s 0 + 2 ^ 8 * nth j s 0 + 2 ^ 16 * nth k s 0); intros x ?
  end.
  apply eq_true_iff_eq. rewrite !andb_true_iff, !Z.eqb_eq, !Z.leb_le. norm_pow2.
  clear Hs Hl. lia.
Qed.

(** Decoding 32 bytes, as far as the field: the value modulo 2^255, within the bounds
    of a product. *)
Lemma fe_frombytes_ok s : Forall byte s -> length s = 32%nat ->
  total (h <- @fe_frombytes_load cmach s ;; fe_frombytes_carry h)
    (fun r => fe_in r fe_tight /\ fe_val r ≡[p25519] le_val s mod 2 ^ 255).
Proof.
  intros Hs Hl. eapply fe_total.
  - eapply orel_bind; [apply fe_frombytes_load_rel, bytes_itv_rel, Hs|].
    intros h b Hh. apply fe_frombytes_carry_rel. exact Hh.
  - rewrite Hl. vm_compute. reflexivity.
  - rewrite fe_frombytes_load_ok by assumption. cbn [obind].
    eapply post_mono; [apply fe_frombytes_carry_val|]. intros r ->.
    rewrite loaded_val, le_val_top by assumption. reflexivity.
Qed.

Lemma fe_fromfe_ok s : Forall byte s -> length s = 32%nat ->
  total (h <- @fe_fromfe_load cmach s ;; fe_frombytes_carry h)
    (fun r => fe_in r fe_tight /\ fe_val r ≡[p25519] le_val s).
Proof.
  intros Hs Hl. eapply fe_total.
  - eapply orel_bind; [apply fe_fromfe_load_rel, bytes_itv_rel, Hs|].
    intros h b Hh. apply fe_frombytes_carry_rel. exact Hh.
  - rewrite Hl. vm_compute. reflexivity.
  - rewrite fe_fromfe_load_ok by assumption. cbn [obind].
    eapply post_mono; [apply fe_frombytes_carry_val|]. intros r ->.
    rewrite loaded_val, Z.sub_diag, Z.mul_0_r, Z.add_0_r by assumption. reflexivity.
Qed.

(** ** Conditional move *)

(** One limb: [x = f ^ g; x &= b; f ^ x], with [b] the 32-bit mask. *)
Definition cmov1 (f g b : Z) : Z :=
  let x := Z.lxor f g in
  let x := wrap I32 (Z.land (wrap U32 x) b) in
  Z.lxor f x.

(** The assertion on [b], in [unsigned int]. *)
Definition cmov_assert (b : Z) : bool :=
  let nb := wrap U32 (Z.lnot b) in
  let b1 := wrap U32 (b - 1) in
  let nb1 := wrap U32 (Z.lnot b1) in
  let b2 := wrap U32 (b - 2) in
  Z.lor (Z.land b1 nb) (Z.land b2 nb1) =? wrap U32 (-1).

Definition fe_cmov (f g : fe cmach) (b : Z) : option (fe cmach) :=
  let '(L10 f0 f1 f2 f3 f4 f5 f6 f7 f8 f9) := f in
  let '(L10 g0 g1 g2 g3 g4 g5 g6 g7 g8 g9) := g in
  if cmov_assert b then
    let b := wrap U32 (- b) in
    Some (L10 (cmov1 f0 g0 b) (cmov1 f1 g1 b) (cmov1 f2 g2 b) (cmov1 f3 g3 b) (cmov1 f4 g4 b)
              (cmov1 f5 g5 b) (cmov1 f6 g6 b) (cmov1 f7 g7 b) (cmov1 f8 g8 b) (cmov1 f9 g9 b))
  else None.

Definition fe_int32 : fe citv := fe_bound (2 ^ 31 - 1) (2 ^ 31 - 1).

Lemma lxor_range a b k : 0 <= k -> - 2 ^ k <= a < 2 ^ k -> - 2 ^ k <= b < 2 ^ k ->
  - 2 ^ k <= Z.lxor a b < 2 ^ k.
Proof.
  intros Hk Ha%(pow2_range_shiftr _ _ Hk) Hb%(pow2_range_shiftr _ _ Hk).
  apply (pow2_range_shiftr _ _ Hk). rewrite Z.shiftr_lxor.
  destruct Ha as [-> | ->], Hb as [-> | ->]; auto.
Qed.

Lemma cmov1_0 f g : cmov1 f g 0 = f.
Proof. unfold cmov1. rewrite Z.land_0_r. apply Z.lxor_0_r. Qed.

Lemma cmov1_ones f g : - 2 ^ 31 <= f < 2 ^ 31 -> - 2 ^ 31 <= g < 2 ^ 31 ->
  cmov1 f g (2 ^ 32 - 1) = g.
Proof.
  intros Hf Hg. unfold cmov1. change (2 ^ 32 - 1) with (Z.ones 32). rewrite Z.land_ones by lia.
  pose proof (lxor_range f g 31 ltac:(lia) Hf Hg) as Hx.
  assert (wrap I32 (wrap U32 (Z.lxor f g) mod 2 ^ 32) = Z.lxor f g) as ->.
  { apply (wrap_unique I32); [cbn; lia|]. change (i_max I32 - i_min I32 + 1) with (2 ^ 32).
    rewrite cong_mod by discriminate. apply wrap_mod. reflexivity. }
  rewrite <- Z.lxor_assoc, Z.lxor_nilpotent. apply Z.lxor_0_l.
Qed.

Lemma fe_cmov_ok f g b : fe_in f fe_int32 -> fe_in g fe_int32 -> b = 0 \/ b = 1 ->
  fe_cmov f g b = Some (if b =? 1 then g else f).
Proof.
  intros [] [] Hb. destruct f, g. unfold irel, in_itv in *. cbn in *.
  destruct Hb as [-> | ->]; cbn; f_equal.
  - rewrite !cmov1_0. reflexivity.
  - rewrite !cmov1_ones by lia. reflexivity.
Qed.
