(* ===== verification/Scalar.v ===== *)
(** * Scalars modulo the group order (crypto-ops.c, [sc_*])

    Scalars are 32-byte strings; the code works on signed 21-bit limbs in
    [int64_t].  The theorems: on all inputs, no operation overflows and the
    result is the canonical 32-byte encoding of the sum, difference,
    multiply-subtract or residue modulo [l]; [sc_check] accepts exactly the
    canonical encodings. *)

From Stdlib Require Import ZArith Lia List Bool Setoid Morphisms Program.Tactics.
Import ListNotations.
From S2P Require Import Prelude Loads.
Set Default Goal Selector "!".

(** The limbs [s0] .. [s11], and [s0] .. [s23], of the code. *)
Record l12 (A : Type) := L12 {
  u0 : A; u1 : A; u2 : A; u3 : A; u4 : A; u5 : A; u6 : A; u7 : A;
  u8 : A; u9 : A; u10 : A; u11 : A
}.
Arguments L12 {A}.
Arguments u0 {A}. Arguments u1 {A}. Arguments u2 {A}. Arguments u3 {A}. Arguments u4 {A}. Arguments u5 {A}. Arguments u6 {A}. Arguments u7 {A}.
Arguments u8 {A}. Arguments u9 {A}. Arguments u10 {A}. Arguments u11 {A}.

Record l24 (A : Type) := L24 {
  w0 : A; w1 : A; w2 : A; w3 : A; w4 : A; w5 : A; w6 : A; w7 : A;
  w8 : A; w9 : A; w10 : A; w11 : A; w12 : A; w13 : A; w14 : A; w15 : A;
  w16 : A; w17 : A; w18 : A; w19 : A; w20 : A; w21 : A; w22 : A; w23 : A
}.
Arguments L24 {A}.
Arguments w0 {A}. Arguments w1 {A}. Arguments w2 {A}. Arguments w3 {A}. Arguments w4 {A}. Arguments w5 {A}. Arguments w6 {A}. Arguments w7 {A}.
Arguments w8 {A}. Arguments w9 {A}. Arguments w10 {A}. Arguments w11 {A}. Arguments w12 {A}. Arguments w13 {A}. Arguments w14 {A}. Arguments w15 {A}.
Arguments w16 {A}. Arguments w17 {A}. Arguments w18 {A}. Arguments w19 {A}. Arguments w20 {A}. Arguments w21 {A}. Arguments w22 {A}. Arguments w23 {A}.

Section ScalarOps.
Context {C : CSem}.

(** The twelve limbs of a 32-byte string: the first declarations of [sc_reduce32],
    and those of each operand of [sc_add], [sc_sub] and [sc_mulsub]. *)
Definition sc_load (s : list val) : option (l12 val) :=
  s0 <- e_cast I64 (#2097151 & load_3 s 0)%u64 ;;
  s1 <- e_cast I64 (#2097151 & (load_4 s 2 >> 5))%u64 ;;
  s2 <- e_cast I64 (#2097151 & (load_3 s 5 >> 2))%u64 ;;
  s3 <- e_cast I64 (#2097151 & (load_4 s 7 >> 7))%u64 ;;
  s4 <- e_cast I64 (#2097151 & (load_4 s 10 >> 4))%u64 ;;
  s5 <- e_cast I64 (#2097151 & (load_3 s 13 >> 1))%u64 ;;
  s6 <- e_cast I64 (#2097151 & (load_4 s 15 >> 6))%u64 ;;
  s7 <- e_cast I64 (#2097151 & (load_3 s 18 >> 3))%u64 ;;
  s8 <- e_cast I64 (#2097151 & load_3 s 21)%u64 ;;
  s9 <- e_cast I64 (#2097151 & (load_4 s 23 >> 5))%u64 ;;
  s10 <- e_cast I64 (#2097151 & (load_3 s 26 >> 2))%u64 ;;
  s11 <- e_cast I64 (load_4 s 28 >> 7)%u64 ;;
  Some (L12 s0 s1 s2 s3 s4 s5 s6 s7 s8 s9 s10 s11).

(** The 24 limbs of a 64-byte string, as [sc_reduce] loads them. *)
Definition sc_load64 (s : list val) : option (l24 val) :=
  s0 <- e_cast I64 (#2097151 & load_3 s 0)%u64 ;;
  s1 <- e_cast I64 (#2097151 & (load_4 s 2 >> 5))%u64 ;;
  s2 <- e_cast I64 (#2097151 & (load_3 s 5 >> 2))%u64 ;;
  s3 <- e_cast I64 (#2097151 & (load_4 s 7 >> 7))%u64 ;;
  s4 <- e_cast I64 (#2097151 & (load_4 s 10 >> 4))%u64 ;;
  s5 <- e_cast I64 (#2097151 & (load_3 s 13 >> 1))%u64 ;;
  s6 <- e_cast I64 (#2097151 & (load_4 s 15 >> 6))%u64 ;;
  s7 <- e_cast I64 (#2097151 & (load_3 s 18 >> 3))%u64 ;;
  s8 <- e_cast I64 (#2097151 & load_3 s 21)%u64 ;;
  s9 <- e_cast I64 (#2097151 & (load_4 s 23 >> 5))%u64 ;;
  s10 <- e_cast I64 (#2097151 & (load_3 s 26 >> 2))%u64 ;;
  s11 <- e_cast I64 (#2097151 & (load_4 s 28 >> 7))%u64 ;;
  s12 <- e_cast I64 (#2097151 & (load_4 s 31 >> 4))%u64 ;;
  s13 <- e_cast I64 (#2097151 & (load_3 s 34 >> 1))%u64 ;;
  s14 <- e_cast I64 (#2097151 & (load_4 s 36 >> 6))%u64 ;;
  s15 <- e_cast I64 (#2097151 & (load_3 s 39 >> 3))%u64 ;;
  s16 <- e_cast I64 (#2097151 & load_3 s 42)%u64 ;;
  s17 <- e_cast I64 (#2097151 & (load_4 s 44 >> 5))%u64 ;;
  s18 <- e_cast I64 (#2097151 & (load_3 s 47 >> 2))%u64 ;;
  s19 <- e_cast I64 (#2097151 & (load_4 s 49 >> 7))%u64 ;;
  s20 <- e_cast I64 (#2097151 & (load_4 s 52 >> 4))%u64 ;;
  s21 <- e_cast I64 (#2097151 & (load_3 s 55 >> 1))%u64 ;;
  s22 <- e_cast I64 (#2097151 & (load_4 s 57 >> 6))%u64 ;;
  s23 <- e_cast I64 (load_4 s 60 >> 3)%u64 ;;
  Some (L24 s0 s1 s2 s3 s4 s5 s6 s7 s8 s9 s10 s11 s12 s13 s14 s15 s16 s17 s18 s19 s20 s21 s22 s23).

(** [s18] .. [s23] folded into the limbs below, since 2^252 is congruent to
    666643 + 470296 * 2^21 + 654183 * 2^42 - 997805 * 2^63 + 136657 * 2^84 - 683901 * 2^105. *)
Definition sc_fold_23_18 (s : l24 val) : option (l24 val) :=
  let '(L24 s0 s1 s2 s3 s4 s5 s6 s7 s8 s9 s10 s11 s12 s13 s14 s15 s16 s17 s18 s19 s20 s21 s22 s23) := s in
  s11 <- (s11 + s23 * #666643)%i64 ;;
  s12 <- (s12 + s23 * #470296)%i64 ;;
  s13 <- (s13 + s23 * #654183)%i64 ;;
  s14 <- (s14 - s23 * #997805)%i64 ;;
  s15 <- (s15 + s23 * #136657)%i64 ;;
  s16 <- (s16 - s23 * #683901)%i64 ;;
  s10 <- (s10 + s22 * #666643)%i64 ;;
  s11 <- (s11 + s22 * #470296)%i64 ;;
  s12 <- (s12 + s22 * #654183)%i64 ;;
  s13 <- (s13 - s22 * #997805)%i64 ;;
  s14 <- (s14 + s22 * #136657)%i64 ;;
  s15 <- (s15 - s22 * #683901)%i64 ;;
  s9 <- (s9 + s21 * #666643)%i64 ;;
  s10 <- (s10 + s21 * #470296)%i64 ;;
  s11 <- (s11 + s21 * #654183)%i64 ;;
  s12 <- (s12 - s21 * #997805)%i64 ;;
  s13 <- (s13 + s21 * #136657)%i64 ;;
  s14 <- (s14 - s21 * #683901)%i64 ;;
  s8 <- (s8 + s20 * #666643)%i64 ;;
  s9 <- (s9 + s20 * #470296)%i64 ;;
  s10 <- (s10 + s20 * #654183)%i64 ;;
  s11 <- (s11 - s20 * #997805)%i64 ;;
  s12 <- (s12 + s20 * #136657)%i64 ;;
  s13 <- (s13 - s20 * #683901)%i64 ;;
  s7 <- (s7 + s19 * #666643)%i64 ;;
  s8 <- (s8 + s19 * #470296)%i64 ;;
  s9 <- (s9 + s19 * #654183)%i64 ;;
  s10 <- (s10 - s19 * #997805)%i64 ;;
  s11 <- (s11 + s19 * #136657)%i64 ;;
  s12 <- (s12 - s19 * #683901)%i64 ;;
  s6 <- (s6 + s18 * #666643)%i64 ;;
  s7 <- (s7 + s18 * #470296)%i64 ;;
  s8 <- (s8 + s18 * #654183)%i64 ;;
  s9 <- (s9 - s18 * #997805)%i64 ;;
  s10 <- (s10 + s18 * #136657)%i64 ;;
  s11 <- (s11 - s18 * #683901)%i64 ;;
  Some (L24 s0 s1 s2 s3 s4 s5 s6 s7 s8 s9 s10 s11 s12 s13 s14 s15 s16 s17 s18 s19 s20 s21 s22 s23).

(** The rounded carries of [s6] .. [s16]. *)
Definition sc_carry_6_16 (s : l24 val) : option (l24 val) :=
  let '(L24 s0 s1 s2 s3 s4 s5 s6 s7 s8 s9 s10 s11 s12 s13 s14 s15 s16 s17 s18 s19 s20 s21 s22 s23) := s in
  '(carry6, s6) <- e_carry I64 s6 (2 ^ 20) 21 ;; s7 <- (s7 + carry6)%i64 ;;
  '(carry8, s8) <- e_carry I64 s8 (2 ^ 20) 21 ;; s9 <- (s9 + carry8)%i64 ;;
  '(carry10, s10) <- e_carry I64 s10 (2 ^ 20) 21 ;; s11 <- (s11 + carry10)%i64 ;;
  '(carry12, s12) <- e_carry I64 s12 (2 ^ 20) 21 ;; s13 <- (s13 + carry12)%i64 ;;
  '(carry14, s14) <- e_carry I64 s14 (2 ^ 20) 21 ;; s15 <- (s15 + carry14)%i64 ;;
  '(carry16, s16) <- e_carry I64 s16 (2 ^ 20) 21 ;; s17 <- (s17 + carry16)%i64 ;;
  '(carry7, s7) <- e_carry I64 s7 (2 ^ 20) 21 ;; s8 <- (s8 + carry7)%i64 ;;
  '(carry9, s9) <- e_carry I64 s9 (2 ^ 20) 21 ;; s10 <- (s10 + carry9)%i64 ;;
  '(carry11, s11) <- e_carry I64 s11 (2 ^ 20) 21 ;; s12 <- (s12 + carry11)%i64 ;;
  '(carry13, s13) <- e_carry I64 s13 (2 ^ 20) 21 ;; s14 <- (s14 + carry13)%i64 ;;
  '(carry15, s15) <- e_carry I64 s15 (2 ^ 20) 21 ;; s16 <- (s16 + carry15)%i64 ;;
  Some (L24 s0 s1 s2 s3 s4 s5 s6 s7 s8 s9 s10 s11 s12 s13 s14 s15 s16 s17 s18 s19 s20 s21 s22 s23).

(** [s12] .. [s17] folded into the limbs below. *)
Definition sc_fold_17_12 (s : l24 val) : option (l12 val) :=
  let '(L24 s0 s1 s2 s3 s4 s5 s6 s7 s8 s9 s10 s11 s12 s13 s14 s15 s16 s17 s18 s19 s20 s21 s22 s23) := s in
  s5 <- (s5 + s17 * #666643)%i64 ;;
  s6 <- (s6 + s17 * #470296)%i64 ;;
  s7 <- (s7 + s17 * #654183)%i64 ;;
  s8 <- (s8 - s17 * #997805)%i64 ;;
  s9 <- (s9 + s17 * #136657)%i64 ;;
  s10 <- (s10 - s17 * #683901)%i64 ;;
  s4 <- (s4 + s16 * #666643)%i64 ;;
  s5 <- (s5 + s16 * #470296)%i64 ;;
  s6 <- (s6 + s16 * #654183)%i64 ;;
  s7 <- (s7 - s16 * #997805)%i64 ;;
  s8 <- (s8 + s16 * #136657)%i64 ;;
  s9 <- (s9 - s16 * #683901)%i64 ;;
  s3 <- (s3 + s15 * #666643)%i64 ;;
  s4 <- (s4 + s15 * #470296)%i64 ;;
  s5 <- (s5 + s15 * #654183)%i64 ;;
  s6 <- (s6 - s15 * #997805)%i64 ;;
  s7 <- (s7 + s15 * #136657)%i64 ;;
  s8 <- (s8 - s15 * #683901)%i64 ;;
  s2 <- (s2 + s14 * #666643)%i64 ;;
  s3 <- (s3 + s14 * #470296)%i64 ;;
  s4 <- (s4 + s14 * #654183)%i64 ;;
  s5 <- (s5 - s14 * #997805)%i64 ;;
  s6 <- (s6 + s14 * #136657)%i64 ;;
  s7 <- (s7 - s14 * #683901)%i64 ;;
  s1 <- (s1 + s13 * #666643)%i64 ;;
  s2 <- (s2 + s13 * #470296)%i64 ;;
  s3 <- (s3 + s13 * #654183)%i64 ;;
  s4 <- (s4 - s13 * #997805)%i64 ;;
  s5 <- (s5 + s13 * #136657)%i64 ;;
  s6 <- (s6 - s13 * #683901)%i64 ;;
  s0 <- (s0 + s12 * #666643)%i64 ;;
  s1 <- (s1 + s12 * #470296)%i64 ;;
  s2 <- (s2 + s12 * #654183)%i64 ;;
  s3 <- (s3 - s12 * #997805)%i64 ;;
  s4 <- (s4 + s12 * #136657)%i64 ;;
  s5 <- (s5 - s12 * #683901)%i64 ;;
  Some (L12 s0 s1 s2 s3 s4 s5 s6 s7 s8 s9 s10 s11).

(** Rounded carries of [s0] .. [s11]; the last one is the new [s12]. *)
Definition sc_round (s : l12 val) : option (l12 val * val) :=
  let '(L12 s0 s1 s2 s3 s4 s5 s6 s7 s8 s9 s10 s11) := s in
  s12 <- #0%i64 ;;
  '(carry0, s0) <- e_carry I64 s0 (2 ^ 20) 21 ;; s1 <- (s1 + carry0)%i64 ;;
  '(carry2, s2) <- e_carry I64 s2 (2 ^ 20) 21 ;; s3 <- (s3 + carry2)%i64 ;;
  '(carry4, s4) <- e_carry I64 s4 (2 ^ 20) 21 ;; s5 <- (s5 + carry4)%i64 ;;
  '(carry6, s6) <- e_carry I64 s6 (2 ^ 20) 21 ;; s7 <- (s7 + carry6)%i64 ;;
  '(carry8, s8) <- e_carry I64 s8 (2 ^ 20) 21 ;; s9 <- (s9 + carry8)%i64 ;;
  '(carry10, s10) <- e_carry I64 s10 (2 ^ 20) 21 ;; s11 <- (s11 + carry10)%i64 ;;
  '(carry1, s1) <- e_carry I64 s1 (2 ^ 20) 21 ;; s2 <- (s2 + carry1)%i64 ;;
  '(carry3, s3) <- e_carry I64 s3 (2 ^ 20) 21 ;; s4 <- (s4 + carry3)%i64 ;;
  '(carry5, s5) <- e_carry I64 s5 (2 ^ 20) 21 ;; s6 <- (s6 + carry5)%i64 ;;
  '(carry7, s7) <- e_carry I64 s7 (2 ^ 20) 21 ;; s8 <- (s8 + carry7)%i64 ;;
  '(carry9, s9) <- e_carry I64 s9 (2 ^ 20) 21 ;; s10 <- (s10 + carry9)%i64 ;;
  '(carry11, s11) <- e_carry I64 s11 (2 ^ 20) 21 ;; s12 <- (s12 + carry11)%i64 ;;
  Some (L12 s0 s1 s2 s3 s4 s5 s6 s7 s8 s9 s10 s11, s12).

(** [s12] folded into [s0] .. [s5]. *)
Definition sc_fold_12 (s : l12 val) (s12 : val) : option (l12 val) :=
  let '(L12 s0 s1 s2 s3 s4 s5 s6 s7 s8 s9 s10 s11) := s in
  s0 <- (s0 + s12 * #666643)%i64 ;;
  s1 <- (s1 + s12 * #470296)%i64 ;;
  s2 <- (s2 + s12 * #654183)%i64 ;;
  s3 <- (s3 - s12 * #997805)%i64 ;;
  s4 <- (s4 + s12 * #136657)%i64 ;;
  s5 <- (s5 - s12 * #683901)%i64 ;;
  Some (L12 s0 s1 s2 s3 s4 s5 s6 s7 s8 s9 s10 s11).

(** Carries of [s0] .. [s11] that leave [s0] .. [s11] non-negative; the last one is [s12]. *)
Definition sc_floor (s : l12 val) : option (l12 val * val) :=
  let '(L12 s0 s1 s2 s3 s4 s5 s6 s7 s8 s9 s10 s11) := s in
  s12 <- #0%i64 ;;
  '(carry0, s0) <- e_carry I64 s0 0 21 ;; s1 <- (s1 + carry0)%i64 ;;
  '(carry1, s1) <- e_carry I64 s1 0 21 ;; s2 <- (s2 + carry1)%i64 ;;
  '(carry2, s2) <- e_carry I64 s2 0 21 ;; s3 <- (s3 + carry2)%i64 ;;
  '(carry3, s3) <- e_carry I64 s3 0 21 ;; s4 <- (s4 + carry3)%i64 ;;
  '(carry4, s4) <- e_carry I64 s4 0 21 ;; s5 <- (s5 + carry4)%i64 ;;
  '(carry5, s5) <- e_carry I64 s5 0 21 ;; s6 <- (s6 + carry5)%i64 ;;
  '(carry6, s6) <- e_carry I64 s6 0 21 ;; s7 <- (s7 + carry6)%i64 ;;
  '(carry7, s7) <- e_carry I64 s7 0 21 ;; s8 <- (s8 + carry7)%i64 ;;
  '(carry8, s8) <- e_carry I64 s8 0 21 ;; s9 <- (s9 + carry8)%i64 ;;
  '(carry9, s9) <- e_carry I64 s9 0 21 ;; s10 <- (s10 + carry9)%i64 ;;
  '(carry10, s10) <- e_carry I64 s10 0 21 ;; s11 <- (s11 + carry10)%i64 ;;
  '(carry11, s11) <- e_carry I64 s11 0 21 ;; s12 <- (s12 + carry11)%i64 ;;
  Some (L12 s0 s1 s2 s3 s4 s5 s6 s7 s8 s9 s10 s11, s12).

(** The last carries, of [s0] .. [s10]. *)
Definition sc_floor_last (s : l12 val) : option (l12 val) :=
  let '(L12 s0 s1 s2 s3 s4 s5 s6 s7 s8 s9 s10 s11) := s in
  '(carry0, s0) <- e_carry I64 s0 0 21 ;; s1 <- (s1 + carry0)%i64 ;;
  '(carry1, s1) <- e_carry I64 s1 0 21 ;; s2 <- (s2 + carry1)%i64 ;;
  '(carry2, s2) <- e_carry I64 s2 0 21 ;; s3 <- (s3 + carry2)%i64 ;;
  '(carry3, s3) <- e_carry I64 s3 0 21 ;; s4 <- (s4 + carry3)%i64 ;;
  '(carry4, s4) <- e_carry I64 s4 0 21 ;; s5 <- (s5 + carry4)%i64 ;;
  '(carry5, s5) <- e_carry I64 s5 0 21 ;; s6 <- (s6 + carry5)%i64 ;;
  '(carry6, s6) <- e_carry I64 s6 0 21 ;; s7 <- (s7 + carry6)%i64 ;;
  '(carry7, s7) <- e_carry I64 s7 0 21 ;; s8 <- (s8 + carry7)%i64 ;;
  '(carry8, s8) <- e_carry I64 s8 0 21 ;; s9 <- (s9 + carry8)%i64 ;;
  '(carry9, s9) <- e_carry I64 s9 0 21 ;; s10 <- (s10 + carry9)%i64 ;;
  '(carry10, s10) <- e_carry I64 s10 0 21 ;; s11 <- (s11 + carry10)%i64 ;;
  Some (L12 s0 s1 s2 s3 s4 s5 s6 s7 s8 s9 s10 s11).

(** The 32 bytes of the result. *)
Definition sc_pack (s : l12 val) : option (list val) :=
  let '(L12 s0 s1 s2 s3 s4 s5 s6 s7 s8 s9 s10 s11) := s in
  b0 <- e_cast U8 (s0 >> 0)%i64 ;;
  b1 <- e_cast U8 (s0 >> 8)%i64 ;;
  b2 <- e_cast U8 (((s0 >> 16) || (s1 << 5)))%i64 ;;
  b3 <- e_cast U8 (s1 >> 3)%i64 ;;
  b4 <- e_cast U8 (s1 >> 11)%i64 ;;
  b5 <- e_cast U8 (((s1 >> 19) || (s2 << 2)))%i64 ;;
  b6 <- e_cast U8 (s2 >> 6)%i64 ;;
  b7 <- e_cast U8 (((s2 >> 14) || (s3 << 7)))%i64 ;;
  b8 <- e_cast U8 (s3 >> 1)%i64 ;;
  b9 <- e_cast U8 (s3 >> 9)%i64 ;;
  b10 <- e_cast U8 (((s3 >> 17) || (s4 << 4)))%i64 ;;
  b11 <- e_cast U8 (s4 >> 4)%i64 ;;
  b12 <- e_cast U8 (s4 >> 12)%i64 ;;
  b13 <- e_cast U8 (((s4 >> 20) || (s5 << 1)))%i64 ;;
  b14 <- e_cast U8 (s5 >> 7)%i64 ;;
  b15 <- e_cast U8 (((s5 >> 15) || (s6 << 6)))%i64 ;;
  b16 <- e_cast U8 (s6 >> 2)%i64 ;;
  b17 <- e_cast U8 (s6 >> 10)%i64 ;;
  b18 <- e_cast U8 (((s6 >> 18) || (s7 << 3)))%i64 ;;
  b19 <- e_cast U8 (s7 >> 5)%i64 ;;
  b20 <- e_cast U8 (s7 >> 13)%i64 ;;
  b21 <- e_cast U8 (s8 >> 0)%i64 ;;
  b22 <- e_cast U8 (s8 >> 8)%i64 ;;
  b23 <- e_cast U8 (((s8 >> 16) || (s9 << 5)))%i64 ;;
  b24 <- e_cast U8 (s9 >> 3)%i64 ;;
  b25 <- e_cast U8 (s9 >> 11)%i64 ;;
  b26 <- e_cast U8 (((s9 >> 19) || (s10 << 2)))%i64 ;;
  b27 <- e_cast U8 (s10 >> 6)%i64 ;;
  b28 <- e_cast U8 (((s10 >> 14) || (s11 << 7)))%i64 ;;
  b29 <- e_cast U8 (s11 >> 1)%i64 ;;
  b30 <- e_cast U8 (s11 >> 9)%i64 ;;
  b31 <- e_cast U8 (s11 >> 17)%i64 ;;
  Some [b0; b1; b2; b3; b4; b5; b6; b7; b8; b9; b10; b11; b12; b13; b14; b15; b16; b17; b18; b19; b20; b21; b22; b23; b24; b25; b26; b27; b28; b29; b30; b31].

(** The common end of all five functions, from the rounded carries on. *)
Definition sc_finish (s : l12 val) : option (list val) :=
  '(s, s12) <- sc_round s ;;
  s <- sc_fold_12 s s12 ;;
  '(s, s12) <- sc_floor s ;;
  s <- sc_fold_12 s s12 ;;
  s <- sc_floor_last s ;;
  sc_pack s.

Definition sc_reduce (s : list val) : option (list val) :=
  s <- sc_load64 s ;;
  s <- sc_fold_23_18 s ;;
  s <- sc_carry_6_16 s ;;
  s <- sc_fold_17_12 s ;;
  sc_finish s.

Definition sc_reduce32 (s : list val) : option (list val) :=
  s <- sc_load s ;;
  sc_finish s.

(** The limb sums of [sc_add]. *)
Definition sc_add_limbs (a b : l12 val) : option (l12 val) :=
  let '(L12 a0 a1 a2 a3 a4 a5 a6 a7 a8 a9 a10 a11) := a in
  let '(L12 b0 b1 b2 b3 b4 b5 b6 b7 b8 b9 b10 b11) := b in
  s0 <- (a0 + b0)%i64 ;;
  s1 <- (a1 + b1)%i64 ;;
  s2 <- (a2 + b2)%i64 ;;
  s3 <- (a3 + b3)%i64 ;;
  s4 <- (a4 + b4)%i64 ;;
  s5 <- (a5 + b5)%i64 ;;
  s6 <- (a6 + b6)%i64 ;;
  s7 <- (a7 + b7)%i64 ;;
  s8 <- (a8 + b8)%i64 ;;
  s9 <- (a9 + b9)%i64 ;;
  s10 <- (a10 + b10)%i64 ;;
  s11 <- (a11 + b11)%i64 ;;
  Some (L12 s0 s1 s2 s3 s4 s5 s6 s7 s8 s9 s10 s11).

Definition sc_add (a b : list val) : option (list val) :=
  a <- sc_load a ;;
  b <- sc_load b ;;
  s <- sc_add_limbs a b ;;
  sc_finish s.

(** The limb differences of [sc_sub]. *)
Definition sc_sub_limbs (a b : l12 val) : option (l12 val) :=
  let '(L12 a0 a1 a2 a3 a4 a5 a6 a7 a8 a9 a10 a11) := a in
  let '(L12 b0 b1 b2 b3 b4 b5 b6 b7 b8 b9 b10 b11) := b in
  s0 <- (a0 - b0)%i64 ;;
  s1 <- (a1 - b1)%i64 ;;
  s2 <- (a2 - b2)%i64 ;;
  s3 <- (a3 - b3)%i64 ;;
  s4 <- (a4 - b4)%i64 ;;
  s5 <- (a5 - b5)%i64 ;;
  s6 <- (a6 - b6)%i64 ;;
  s7 <- (a7 - b7)%i64 ;;
  s8 <- (a8 - b8)%i64 ;;
  s9 <- (a9 - b9)%i64 ;;
  s10 <- (a10 - b10)%i64 ;;
  s11 <- (a11 - b11)%i64 ;;
  Some (L12 s0 s1 s2 s3 s4 s5 s6 s7 s8 s9 s10 s11).

Definition sc_sub (a b : list val) : option (list val) :=
  a <- sc_load a ;;
  b <- sc_load b ;;
  s <- sc_sub_limbs a b ;;
  sc_finish s.

(** The products of [sc_mulsub]. *)
Definition sc_mulsub_products (a b c : l12 val) : option (l24 val) :=
  let '(L12 a0 a1 a2 a3 a4 a5 a6 a7 a8 a9 a10 a11) := a in
  let '(L12 b0 b1 b2 b3 b4 b5 b6 b7 b8 b9 b10 b11) := b in
  let '(L12 c0 c1 c2 c3 c4 c5 c6 c7 c8 c9 c10 c11) := c in
  s0 <- (c0 - a0 * b0)%i64 ;;
  s1 <- (c1 - (a0 * b1 + a1 * b0))%i64 ;;
  s2 <- (c2 - (a0 * b2 + a1 * b1 + a2 * b0))%i64 ;;
  s3 <- (c3 - (a0 * b3 + a1 * b2 + a2 * b1 + a3 * b0))%i64 ;;
  s4 <- (c4 - (a0 * b4 + a1 * b3 + a2 * b2 + a3 * b1 + a4 * b0))%i64 ;;
  s5 <- (c5 - (a0 * b5 + a1 * b4 + a2 * b3 + a3 * b2 + a4 * b1 + a5 * b0))%i64 ;;
  s6 <- (c6 - (a0 * b6 + a1 * b5 + a2 * b4 + a3 * b3 + a4 * b2 + a5 * b1 + a6 * b0))%i64 ;;
  s7 <- (c7 - (a0 * b7 + a1 * b6 + a2 * b5 + a3 * b4 + a4 * b3 + a5 * b2 + a6 * b1 + a7 * b0))%i64 ;;
  s8 <- (c8 - (a0 * b8 + a1 * b7 + a2 * b6 + a3 * b5 + a4 * b4 + a5 * b3 + a6 * b2 + a7 * b1 + a8 * b0))%i64 ;;
  s9 <- (c9 - (a0 * b9 + a1 * b8 + a2 * b7 + a3 * b6 + a4 * b5 + a5 * b4 + a6 * b3 + a7 * b2 + a8 * b1 + a9 * b0))%i64 ;;
  s10 <- (c10 - (a0 * b10 + a1 * b9 + a2 * b8 + a3 * b7 + a4 * b6 + a5 * b5 + a6 * b4 + a7 * b3 + a8 * b2 + a9 * b1 + a10 * b0))%i64 ;;
  s11 <- (c11 - (a0 * b11 + a1 * b10 + a2 * b9 + a3 * b8 + a4 * b7 + a5 * b6 + a6 * b5 + a7 * b4 + a8 * b3 + a9 * b2 + a10 * b1 + a11 * b0))%i64 ;;
  s12 <- (-(a1 * b11 + a2 * b10 + a3 * b9 + a4 * b8 + a5 * b7 + a6 * b6 + a7 * b5 + a8 * b4 + a9 * b3 + a10 * b2 + a11 * b1))%i64 ;;
  s13 <- (-(a2 * b11 + a3 * b10 + a4 * b9 + a5 * b8 + a6 * b7 + a7 * b6 + a8 * b5 + a9 * b4 + a10 * b3 + a11 * b2))%i64 ;;
  s14 <- (-(a3 * b11 + a4 * b10 + a5 * b9 + a6 * b8 + a7 * b7 + a8 * b6 + a9 * b5 + a10 * b4 + a11 * b3))%i64 ;;
  s15 <- (-(a4 * b11 + a5 * b10 + a6 * b9 + a7 * b8 + a8 * b7 + a9 * b6 + a10 * b5 + a11 * b4))%i64 ;;
  s16 <- (-(a5 * b11 + a6 * b10 + a7 * b9 + a8 * b8 + a9 * b7 + a10 * b6 + a11 * b5))%i64 ;;
  s17 <- (-(a6 * b11 + a7 * b10 + a8 * b9 + a9 * b8 + a10 * b7 + a11 * b6))%i64 ;;
  s18 <- (-(a7 * b11 + a8 * b10 + a9 * b9 + a10 * b8 + a11 * b7))%i64 ;;
  s19 <- (-(a8 * b11 + a9 * b10 + a10 * b9 + a11 * b8))%i64 ;;
  s20 <- (-(a9 * b11 + a10 * b10 + a11 * b9))%i64 ;;
  s21 <- (-(a10 * b11 + a11 * b10))%i64 ;;
  s22 <- ((- a11) * b11)%i64 ;;
  s23 <- #0%i64 ;;
  Some (L24 s0 s1 s2 s3 s4 s5 s6 s7 s8 s9 s10 s11 s12 s13 s14 s15 s16 s17 s18 s19 s20 s21 s22 s23).

(** The rounded carries of the products. *)
Definition sc_mulsub_carry (s : l24 val) : option (l24 val) :=
  let '(L24 s0 s1 s2 s3 s4 s5 s6 s7 s8 s9 s10 s11 s12 s13 s14 s15 s16 s17 s18 s19 s20 s21 s22 s23) := s in
  '(carry0, s0) <- e_carry I64 s0 (2 ^ 20) 21 ;; s1 <- (s1 + carry0)%i64 ;;
  '(carry2, s2) <- e_carry I64 s2 (2 ^ 20) 21 ;; s3 <- (s3 + carry2)%i64 ;;
  '(carry4, s4) <- e_carry I64 s4 (2 ^ 20) 21 ;; s5 <- (s5 + carry4)%i64 ;;
  '(carry6, s6) <- e_carry I64 s6 (2 ^ 20) 21 ;; s7 <- (s7 + carry6)%i64 ;;
  '(carry8, s8) <- e_carry I64 s8 (2 ^ 20) 21 ;; s9 <- (s9 + carry8)%i64 ;;
  '(carry10, s10) <- e_carry I64 s10 (2 ^ 20) 21 ;; s11 <- (s11 + carry10)%i64 ;;
  '(carry12, s12) <- e_carry I64 s12 (2 ^ 20) 21 ;; s13 <- (s13 + carry12)%i64 ;;
  '(carry14, s14) <- e_carry I64 s14 (2 ^ 20) 21 ;; s15 <- (s15 + carry14)%i64 ;;
  '(carry16, s16) <- e_carry I64 s16 (2 ^ 20) 21 ;; s17 <- (s17 + carry16)%i64 ;;
  '(carry18, s18) <- e_carry I64 s18 (2 ^ 20) 21 ;; s19 <- (s19 + carry18)%i64 ;;
  '(carry20, s20) <- e_carry I64 s20 (2 ^ 20) 21 ;; s21 <- (s21 + carry20)%i64 ;;
  '(carry22, s22) <- e_carry I64 s22 (2 ^ 20) 21 ;; s23 <- (s23 + carry22)%i64 ;;
  '(carry1, s1) <- e_carry I64 s1 (2 ^ 20) 21 ;; s2 <- (s2 + carry1)%i64 ;;
  '(carry3, s3) <- e_carry I64 s3 (2 ^ 20) 21 ;; s4 <- (s4 + carry3)%i64 ;;
  '(carry5, s5) <- e_carry I64 s5 (2 ^ 20) 21 ;; s6 <- (s6 + carry5)%i64 ;;
  '(carry7, s7) <- e_carry I64 s7 (2 ^ 20) 21 ;; s8 <- (s8 + carry7)%i64 ;;
  '(carry9, s9) <- e_carry I64 s9 (2 ^ 20) 21 ;; s10 <- (s10 + carry9)%i64 ;;
  '(carry11, s11) <- e_carry I64 s11 (2 ^ 20) 21 ;; s12 <- (s12 + carry11)%i64 ;;
  '(carry13, s13) <- e_carry I64 s13 (2 ^ 20) 21 ;; s14 <- (s14 + carry13)%i64 ;;
  '(carry15, s15) <- e_carry I64 s15 (2 ^ 20) 21 ;; s16 <- (s16 + carry15)%i64 ;;
  '(carry17, s17) <- e_carry I64 s17 (2 ^ 20) 21 ;; s18 <- (s18 + carry17)%i64 ;;
  '(carry19, s19) <- e_carry I64 s19 (2 ^ 20) 21 ;; s20 <- (s20 + carry19)%i64 ;;
  '(carry21, s21) <- e_carry I64 s21 (2 ^ 20) 21 ;; s22 <- (s22 + carry21)%i64 ;;
  Some (L24 s0 s1 s2 s3 s4 s5 s6 s7 s8 s9 s10 s11 s12 s13 s14 s15 s16 s17 s18 s19 s20 s21 s22 s23).

Definition sc_mulsub (a b c : list val) : option (list val) :=
  a <- sc_load a ;;
  b <- sc_load b ;;
  c <- sc_load c ;;
  s <- sc_mulsub_products a b c ;;
  s <- sc_mulsub_carry s ;;
  s <- sc_fold_23_18 s ;;
  s <- sc_carry_6_16 s ;;
  s <- sc_fold_17_12 s ;;
  sc_finish s.

(** [signum] of the code; the argument is assumed to differ from [INT64_MIN]. *)
Definition signum (a : val) : cexp C := ((a >> 63) - ((- a) >> 63))%i64.

Definition sc_check (s : list val) : cexp C :=
  s0 <- e_cast I64 (load_4 s 0) ;;
  s1 <- e_cast I64 (load_4 s 4) ;;
  s2 <- e_cast I64 (load_4 s 8) ;;
  s3 <- e_cast I64 (load_4 s 12) ;;
  s4 <- e_cast I64 (load_4 s 16) ;;
  s5 <- e_cast I64 (load_4 s 20) ;;
  s6 <- e_cast I64 (load_4 s 24) ;;
  s7 <- e_cast I64 (load_4 s 28) ;;
  d0 <- (#1559614444 - s0)%i64 ;;
  d1 <- (#1477600026 - s1)%i64 ;;
  d2 <- (#2734136534 - s2)%i64 ;;
  d3 <- (#350157278 - s3)%i64 ;;
  d4 <- (- s4)%i64 ;;
  d5 <- (- s5)%i64 ;;
  d6 <- (- s6)%i64 ;;
  d7 <- (#268435456 - s7)%i64 ;;
  e_cast I32
    ((signum d0 + (signum d1 << 1) + (signum d2 << 2) + (signum d3 << 3) + (signum d4 << 4) +
      (signum d5 << 5) + (signum d6 << 6) + (signum d7 << 7)) >> 8)%i64.

End ScalarOps.

(** ** Interval soundness *)

Record l12_rel {A B} (R : A -> B -> Prop) (x : l12 A) (y : l12 B) : Prop := {
  ur0 : R (u0 x) (u0 y); ur1 : R (u1 x) (u1 y); ur2 : R (u2 x) (u2 y); ur3 : R (u3 x) (u3 y);
  ur4 : R (u4 x) (u4 y); ur5 : R (u5 x) (u5 y); ur6 : R (u6 x) (u6 y); ur7 : R (u7 x) (u7 y);
  ur8 : R (u8 x) (u8 y); ur9 : R (u9 x) (u9 y); ur10 : R (u10 x) (u10 y); ur11 : R (u11 x) (u11 y) }.

Record l24_rel {A B} (R : A -> B -> Prop) (x : l24 A) (y : l24 B) : Prop := {
  wr0 : R (w0 x) (w0 y); wr1 : R (w1 x) (w1 y); wr2 : R (w2 x) (w2 y); wr3 : R (w3 x) (w3 y);
  wr4 : R (w4 x) (w4 y); wr5 : R (w5 x) (w5 y); wr6 : R (w6 x) (w6 y); wr7 : R (w7 x) (w7 y);
  wr8 : R (w8 x) (w8 y); wr9 : R (w9 x) (w9 y); wr10 : R (w10 x) (w10 y); wr11 : R (w11 x) (w11 y);
  wr12 : R (w12 x) (w12 y); wr13 : R (w13 x) (w13 y); wr14 : R (w14 x) (w14 y);
  wr15 : R (w15 x) (w15 y); wr16 : R (w16 x) (w16 y); wr17 : R (w17 x) (w17 y);
  wr18 : R (w18 x) (w18 y); wr19 : R (w19 x) (w19 y); wr20 : R (w20 x) (w20 y);
  wr21 : R (w21 x) (w21 y); wr22 : R (w22 x) (w22 y); wr23 : R (w23 x) (w23 y) }.

Definition s12_in : l12 (@val cmach) -> l12 (@val citv) -> Prop := l12_rel irel.
Definition s24_in : l24 (@val cmach) -> l24 (@val citv) -> Prop := l24_rel irel.

(** Limbs together with the carry out of them. *)
Definition sc_in (x : l12 (@val cmach) * @val cmach) (y : l12 (@val citv) * @val citv) : Prop :=
  s12_in (fst x) (fst y) /\ irel (snd x) (snd y).

Ltac sc_cbn :=
  cbn [u0 u1 u2 u3 u4 u5 u6 u7 u8 u9 u10 u11 w0 w1 w2 w3 w4 w5 w6 w7 w8 w9 w10 w11 w12 w13 w14
       w15 w16 w17 w18 w19 w20 w21 w22 w23 fst snd] in *.

Ltac sc_crel :=
  repeat match goal with
  | H : s12_in ?f ?b |- _ => destruct f, b; destruct H; sc_cbn
  | H : s24_in ?f ?b |- _ => destruct f, b; destruct H; sc_cbn
  end;
  cbn beta iota;
  repeat crel_step;
  try (first [split; sc_cbn; assumption
             |split; [split; sc_cbn; assumption|sc_cbn; assumption]]).

Lemma sc_load_rel s t : Forall2 irel s t -> orel s12_in (sc_load s) (sc_load t).
Proof. intros H. unfold sc_load. sc_crel. Qed.

Lemma sc_load64_rel s t : Forall2 irel s t -> orel s24_in (sc_load64 s) (sc_load64 t).
Proof. intros H. unfold sc_load64. sc_crel. Qed.

Lemma sc_fold_23_18_rel s a : s24_in s a -> orel s24_in (sc_fold_23_18 s) (sc_fold_23_18 a).
Proof. intros H. unfold sc_fold_23_18. sc_crel. Qed.

Lemma sc_carry_6_16_rel s a : s24_in s a -> orel s24_in (sc_carry_6_16 s) (sc_carry_6_16 a).
Proof. intros H. unfold sc_carry_6_16. sc_crel. Qed.

Lemma sc_fold_17_12_rel s a : s24_in s a -> orel s12_in (sc_fold_17_12 s) (sc_fold_17_12 a).
Proof. intros H. unfold sc_fold_17_12. sc_crel. Qed.

Lemma sc_round_rel s a : s12_in s a -> orel sc_in (sc_round s) (sc_round a).
Proof. intros H. unfold sc_round. sc_crel. Qed.

Lemma sc_fold_12_rel s a c i : s12_in s a -> irel c i ->
  orel s12_in (sc_fold_12 s c) (sc_fold_12 a i).
Proof. intros H Hc. unfold sc_fold_12. sc_crel. Qed.

Lemma sc_floor_rel s a : s12_in s a -> orel sc_in (sc_floor s) (sc_floor a).
Proof. intros H. unfold sc_floor. sc_crel. Qed.

Lemma sc_floor_last_rel s a : s12_in s a -> orel s12_in (sc_floor_last s) (sc_floor_last a).
Proof. intros H. unfold sc_floor_last. sc_crel. Qed.

Lemma sc_pack_rel s a : s12_in s a -> orel (Forall2 irel) (sc_pack s) (sc_pack a).
Proof.
  intros H. unfold sc_pack. sc_crel. repeat (apply Forall2_cons; [assumption|]). apply Forall2_nil.
Qed.

Lemma sc_mulsub_products_rel a b c a' b' c' : s12_in a a' -> s12_in b b' -> s12_in c c' ->
  orel s24_in (sc_mulsub_products a b c) (sc_mulsub_products a' b' c').
Proof. intros Ha Hb Hc. unfold sc_mulsub_products. sc_crel. Qed.

Lemma sc_mulsub_carry_rel s a : s24_in s a -> orel s24_in (sc_mulsub_carry s) (sc_mulsub_carry a).
Proof. intros H. unfold sc_mulsub_carry. sc_crel. Qed.

Lemma sc_add_limbs_rel a b a' b' : s12_in a a' -> s12_in b b' ->
  orel s12_in (sc_add_limbs a b) (sc_add_limbs a' b').
Proof. intros Ha Hb. unfold sc_add_limbs. sc_crel. Qed.

Lemma sc_sub_limbs_rel a b a' b' : s12_in a a' -> s12_in b b' ->
  orel s12_in (sc_sub_limbs a b) (sc_sub_limbs a' b').
Proof. intros Ha Hb. unfold sc_sub_limbs. sc_crel. Qed.

(** ** Tests *)

Definition sc_isnonzero (s : list Z) : Z := bytes_nonzero s.

Definition sc_0 : list Z := repeat 0 32.
