(* ===== verification/ScalarCorrect.v ===== *)
(** * Correctness of the scalar operations (crypto-ops.c, [sc_*])

    The loads, the common end of all reductions, and the theorems on
    [sc_reduce], [sc_reduce32], [sc_add], [sc_sub], [sc_mulsub], [sc_check] and
    [sc_isnonzero] for every input. *)

From Stdlib Require Import ZArith Lia List Bool Setoid Morphisms Program.Tactics.
Import ListNotations.
From S2P Require Import Prelude Loads Scalar ScalarValues.
Set Default Goal Selector "!".

(** One limb of a load: a masked field of the string. *)
Lemma sc_limb V j n k : 0 <= j -> 0 <= k -> k + 21 <= n ->
  @e_cast cmach I64 (@e_op2 cmach v_and (e_lit 2097151) (@e_shr cmach (Some (V / 2 ^ j mod 2 ^ n)) k))
  = Some (V / 2 ^ (j + k) mod 2 ^ 21).
Proof.
  intros Hj Hk Hn. cbn [e_cast e_op2 e_shr e_lit obind v_lit v_shr v_and v_cast cmach].
  change 2097151 with (Z.ones 21). rewrite field_of_field by lia. apply arith_in, in_ity_spec.
  pose proof (Z.mod_pos_bound (V / 2 ^ (j + k)) (2 ^ 21)). cbn. lia.
Qed.

Lemma sc_limb_0 V j n : 0 <= j -> 21 <= n ->
  @e_cast cmach I64 (@e_op2 cmach v_and (e_lit 2097151) (Some (V / 2 ^ j mod 2 ^ n)))
  = Some (V / 2 ^ j mod 2 ^ 21).
Proof.
  intros Hj Hn. rewrite <- (Z.add_0_r j) at 2. rewrite <- (sc_limb V j n 0) by lia.
  cbn [e_shr obind v_shr cmach]. rewrite Z.shiftr_0_r. reflexivity.
Qed.

Lemma sc_limb_top V j n k : 0 <= j -> 0 <= k -> 0 <= n <= 62 -> 0 <= V < 2 ^ (j + n) ->
  @e_cast cmach I64 (@e_shr cmach (Some (V / 2 ^ j mod 2 ^ n)) k) = Some (V / 2 ^ (j + k)).
Proof.
  intros Hj Hk Hn HV. cbn [e_cast e_shr obind v_shr v_cast cmach].
  assert (0 <= V / 2 ^ j mod 2 ^ n < 2 ^ 62) as Hb.
  { pose proof (Z.mod_pos_bound (V / 2 ^ j) (2 ^ n) ltac:(apply Z.pow_pos_nonneg; lia)).
    pose proof (Z.pow_le_mono_r 2 n 62). lia. }
  rewrite <- (top_field V j n k) by lia. apply arith_in, in_ity_spec.
  rewrite Z.shiftr_div_pow2 by lia. pose proof (Z.pow_pos_nonneg 2 k ltac:(lia) Hk).
  pose proof (Z.div_pos (V / 2 ^ j mod 2 ^ n) (2 ^ k) ltac:(lia) ltac:(lia)).
  pose proof (Z.div_le_upper_bound (V / 2 ^ j mod 2 ^ n) (2 ^ k) (2 ^ 62) ltac:(lia) ltac:(nia)).
  cbn. norm_pow2. lia.
Qed.

Ltac sc_fields V HV :=
  rewrite !load_3_field, !load_4_field by (try assumption; lia);
  rewrite !sc_limb, !sc_limb_0, !sc_limb_top by (try exact HV; cbn; lia);
  cbn [obind];
  repeat match goal with |- context [2 ^ (8 * Z.of_nat ?i)] =>
    let v := eval vm_compute in (8 * Z.of_nat i) in change (8 * Z.of_nat i) with v end;
  repeat match goal with |- context [2 ^ (8 * Z.of_nat ?i + ?k)] =>
    let v := eval vm_compute in (8 * Z.of_nat i + k) in change (8 * Z.of_nat i + k) with v end.

(** [telescope V n]: [V] is the sum of its 21-bit fields below [21 * n] and the rest. *)
Ltac telescope V n :=
  lazymatch n with
  | O => idtac
  | S ?m =>
      telescope V m;
      let k := eval vm_compute in (21 * Z.of_nat m) in
      let k' := eval vm_compute in (21 * Z.of_nat n) in
      let E := fresh "E" in
      pose proof (split_bits V k 21 ltac:(lia) ltac:(lia)) as E;
      change (k + 21) with k' in E
  end.

Lemma sc_load_val s : Forall byte s -> length s = 32%nat ->
  post (@sc_load cmach s) (fun r => sc_val r = le_val s).
Proof.
  intros Hs Hl. pose proof (bytes_range s 32 Hs Hl) as HV. unfold sc_load.
  sc_fields (le_val s) HV. apply post_ret. unfold sc_val; sc_cbn.
  generalize (le_val s). intros V. telescope V 11%nat.
  change (2 ^ 0) with 1 in *. rewrite Z.div_1_r in *. lia.
Qed.

Lemma sc_load64_val s : Forall byte s -> length s = 64%nat ->
  post (@sc_load64 cmach s) (fun r => sc_val24 r = le_val s).
Proof.
  intros Hs Hl. pose proof (bytes_range s 64 Hs Hl) as HV. unfold sc_load64.
  sc_fields (le_val s) HV. apply post_ret. unfold sc_val24, sc_val18; sc_cbn.
  generalize (le_val s). intros V. telescope V 23%nat.
  change (2 ^ 0) with 1 in *. rewrite Z.div_1_r in *. lia.
Qed.

(** ** The common end: from limbs of any size to the canonical residue *)

(** Limbs the carries of the code can still take. *)
Definition sc_wide : l12 itv := sc_limbs (- 2 ^ 60) (2 ^ 60) (2 ^ 60).

Lemma sc_val_range (s : l12 Z) : s12_in s (sc_limbs 0 (2 ^ 21 - 1) (2 ^ 21 - 1)) ->
  0 <= sc_val s < 2 ^ 252.
Proof.
  intros []. destruct s. unfold irel, in_itv in *. cbn in *. unfold sc_val; sc_cbn. norm_pow2. lia.
Qed.

(** The top limb of a canonical value is small whatever interval it was computed in. *)
Lemma sc_top (s : l12 Z) t : s12_in s (L12 (0, 2097151) (0, 2097151) (0, 2097151) (0, 2097151)
    (0, 2097151) (0, 2097151) (0, 2097151) (0, 2097151) (0, 2097151) (0, 2097151) (0, 2097151) t) ->
  0 <= sc_val s < l25519 -> s12_in s (sc_limbs 0 (2 ^ 21 - 1) (2 ^ 25 - 1)).
Proof.
  intros [] HV. destruct s. unfold irel, in_itv in *. unfold sc_val, l25519 in HV; sc_cbn.
  revert HV. norm_pow2. intros HV. split; unfold irel, in_itv; cbn; norm_pow2; lia.
Qed.

Lemma sc_finish_ok (s : l12 Z) : s12_in s sc_wide ->
  total (@sc_finish cmach s)
    (fun b => le_val b = sc_val s mod l25519 /\ Forall byte b /\ length b = 32%nat).
Proof.
  intros Hs. unfold sc_finish.
  eapply total_bind.
  { eapply total_run; [apply sc_round_rel, Hs|vm_compute; reflexivity|apply sc_round_val]. }
  intros [s1 c1] [[H1 Hc1] V1]. cbn [fst snd] in *.
  eapply total_bind.
  { eapply total_run; [apply sc_fold_12_rel; eassumption|vm_compute; reflexivity|apply sc_fold_12_val]. }
  intros s2 [H2 V2]. cbn beta in *.
  eapply total_bind.
  { eapply total_run; [apply sc_floor_rel; eassumption|vm_compute; reflexivity|apply sc_floor_val]. }
  intros [s3 c3] [[H3 Hc3] V3]. cbn [fst snd] in *.
  eapply total_bind.
  { eapply total_run; [apply sc_fold_12_rel; eassumption|vm_compute; reflexivity|apply sc_fold_12_val]. }
  intros s4 [H4 V4]. cbn beta in *.
  eapply total_bind.
  { eapply total_run; [apply sc_floor_last_rel; eassumption|vm_compute; reflexivity|].
    apply sc_floor_last_val. }
  intros s5 [H5 V5]. cbn beta in *.
  assert (0 <= sc_val s3 < 2 ^ 252) as B3 by (eapply sc_val_range, H3).
  assert (sc_val s5 = sc_val s mod l25519) as E.
  { apply cong_small.
    - rewrite V5, V4. destruct Hc3 as [L U]. cbn in L, U.
      assert (c3 = 0 \/ c3 = -1) as [-> | ->] by lia; revert B3; unfold l25519; norm_pow2; lia.
    - rewrite V5, V4, <- V1. exists (- (c1 + c3)). rewrite V2 in V3. lia. }
  assert (s12_in s5 (sc_limbs 0 (2 ^ 21 - 1) (2 ^ 25 - 1))) as H6.
  { apply (sc_top s5 _ H5). rewrite E. apply Z.mod_pos_bound. reflexivity. }
  rewrite <- E. eapply total_mono.
  - eapply total_run; [apply sc_pack_rel, H6|vm_compute; reflexivity|apply sc_pack_val, H6].
  - cbn beta. tauto.
Qed.

(** ** The operations *)

Definition s12_le (a b : l12 itv) : bool :=
  itv_le (u0 a) (u0 b) && itv_le (u1 a) (u1 b) && itv_le (u2 a) (u2 b) && itv_le (u3 a) (u3 b) &&
  itv_le (u4 a) (u4 b) && itv_le (u5 a) (u5 b) && itv_le (u6 a) (u6 b) && itv_le (u7 a) (u7 b) &&
  itv_le (u8 a) (u8 b) && itv_le (u9 a) (u9 b) && itv_le (u10 a) (u10 b) && itv_le (u11 a) (u11 b).

Lemma s12_le_in s a b : s12_le a b = true -> s12_in s a -> s12_in s b.
Proof.
  unfold s12_le. rewrite !andb_true_iff. intros H Hs. destruct_conjs. destruct Hs.
  split; eapply itv_le_in; eassumption.
Qed.

(** [sc_run rel val]: one phase, bounded by its interval run. *)
Ltac sc_run rel vl :=
  eapply total_bind;
  [eapply total_run; [apply rel; eassumption|vm_compute; reflexivity|apply vl; assumption]|].

Ltac sc_end V :=
  eapply total_mono;
  [apply sc_finish_ok; eapply s12_le_in; [|eassumption]; vm_compute; reflexivity|];
  cbn beta; intros ? (? & ? & ?); split; [|split; assumption];
  etransitivity; [eassumption|]; apply cong_eq_mod; [discriminate|]; V.

(** Any 32 bytes load into limbs of their value. *)
Definition sc_loaded : l12 itv := sc_limbs 0 (2 ^ 21 - 1) (2 ^ 25 - 1).

Lemma sc_load_ok s : Forall byte s -> length s = 32%nat ->
  total (@sc_load cmach s) (fun r => s12_in r sc_loaded /\ sc_val r = le_val s).
Proof.
  intros Hs Hl. pose proof (bytes_itv_rel s Hs) as Hb. rewrite Hl in Hb. eapply total_mono.
  - eapply total_run; [apply sc_load_rel, Hb|vm_compute; reflexivity|apply sc_load_val; assumption].
  - cbn beta. intros r [Hr Hv]. split; [|exact Hv]. eapply s12_le_in; [|exact Hr].
    vm_compute. reflexivity.
Qed.

(** What every operation promises of its result: the canonical encoding of [v] modulo [l]. *)
Definition sc_encodes (v : Z) (r : list Z) : Prop :=
  le_val r = v mod l25519 /\ Forall byte r /\ length r = 32%nat.

Lemma sc_reduce32_ok s : Forall byte s -> length s = 32%nat ->
  total (@sc_reduce32 cmach s) (sc_encodes (le_val s)).
Proof.
  intros Hs Hl. unfold sc_reduce32. eapply total_bind; [apply sc_load_ok; assumption|].
  intros r [Hr Vr]. sc_end ltac:(rewrite Vr; reflexivity).
Qed.

Lemma sc_reduce_ok s : Forall byte s -> length s = 64%nat ->
  total (@sc_reduce cmach s) (sc_encodes (le_val s)).
Proof.
  intros Hs Hl. pose proof (bytes_itv_rel s Hs) as Hb. rewrite Hl in Hb. unfold sc_reduce.
  sc_run sc_load64_rel sc_load64_val. intros r0 [H0 V0]. cbn beta in *.
  sc_run sc_fold_23_18_rel sc_fold_23_18_val. intros r1 [H1 V1]. cbn beta in *.
  sc_run sc_carry_6_16_rel sc_carry_6_16_val. intros r2 [H2 V2]. cbn beta in *.
  sc_run sc_fold_17_12_rel sc_fold_17_12_val. intros r3 [H3 V3]. cbn beta in *.
  sc_end ltac:(rewrite V3, V2, V1, V0; reflexivity).
Qed.

Lemma sc_mulsub_ok a b c : Forall byte a -> length a = 32%nat -> Forall byte b -> length b = 32%nat ->
  Forall byte c -> length c = 32%nat ->
  total (@sc_mulsub cmach a b c) (sc_encodes (le_val c - le_val a * le_val b)).
Proof.
  intros Ha La Hb Lb Hc Lc. unfold sc_mulsub.
  eapply total_bind; [apply (sc_load_ok a); assumption|]. intros ra [Ra Va].
  eapply total_bind; [apply (sc_load_ok b); assumption|]. intros rb [Rb Vb].
  eapply total_bind; [apply (sc_load_ok c); assumption|]. intros rc [Rc Vc].
  sc_run sc_mulsub_products_rel sc_mulsub_products_val. intros r0 [H0 V0]. cbn beta in *.
  sc_run sc_mulsub_carry_rel sc_mulsub_carry_val. intros r4 [H4 V4]. cbn beta in *.
  sc_run sc_fold_23_18_rel sc_fold_23_18_val. intros r1 [H1 V1]. cbn beta in *.
  sc_run sc_carry_6_16_rel sc_carry_6_16_val. intros r2 [H2 V2]. cbn beta in *.
  sc_run sc_fold_17_12_rel sc_fold_17_12_val. intros r3 [H3 V3]. cbn beta in *.
  sc_end ltac:(rewrite V3, V2, V1, V4, V0, Va, Vb, Vc; reflexivity).
Qed.

Lemma sc_add_limbs_val (a b : l12 Z) :
  post (@sc_add_limbs cmach a b) (fun r => sc_val r = sc_val a + sc_val b).
Proof. destruct a, b. unfold sc_add_limbs. sc_steps. ring. Qed.

Lemma sc_sub_limbs_val (a b : l12 Z) :
  post (@sc_sub_limbs cmach a b) (fun r => sc_val r = sc_val a - sc_val b).
Proof. destruct a, b. unfold sc_sub_limbs. sc_steps. ring. Qed.

Lemma sc_add_ok a b : Forall byte a -> length a = 32%nat -> Forall byte b -> length b = 32%nat ->
  total (@sc_add cmach a b) (sc_encodes (le_val a + le_val b)).
Proof.
  intros Ha La Hb Lb. unfold sc_add.
  eapply total_bind; [apply (sc_load_ok a); assumption|]. intros ra [Ra Va].
  eapply total_bind; [apply (sc_load_ok b); assumption|]. intros rb [Rb Vb].
  sc_run sc_add_limbs_rel sc_add_limbs_val. intros r [H V]. cbn beta in *.
  sc_end ltac:(rewrite V, Va, Vb; reflexivity).
Qed.

Lemma sc_sub_ok a b : Forall byte a -> length a = 32%nat -> Forall byte b -> length b = 32%nat ->
  total (@sc_sub cmach a b) (sc_encodes (le_val a - le_val b)).
Proof.
  intros Ha La Hb Lb. unfold sc_sub.
  eapply total_bind; [apply (sc_load_ok a); assumption|]. intros ra [Ra Va].
  eapply total_bind; [apply (sc_load_ok b); assumption|]. intros rb [Rb Vb].
  sc_run sc_sub_limbs_rel sc_sub_limbs_val. intros r [H V]. cbn beta in *.
  sc_end ltac:(rewrite V, Va, Vb; reflexivity).
Qed.

(** ** Tests *)

Lemma signum_ok a : Z.abs a < 2 ^ 63 -> @signum cmach a = Some (Z.sgn a).
Proof.
  intros Ha. unfold signum.
  cbn [e_op2 e_shr e_lit vret obind v_sub v_shr v_lit cmach].
  rewrite (arith_in I64 (0 - a)) by (apply in_ity_spec; cbn; lia).
  cbn [e_shr obind v_shr cmach].
  assert (forall z, Z.abs z < 2 ^ 63 -> Z.shiftr z 63 = if z <? 0 then -1 else 0) as Sh.
  { intros z Hz. rewrite Z.shiftr_div_pow2 by lia. destruct (Z.ltb_spec z 0).
    - symmetry. apply Z.div_unique with (r := z + 2 ^ 63); lia.
    - apply Z.div_small. lia. }
  rewrite !Sh by lia. destruct (Z.ltb_spec a 0), (Z.ltb_spec (0 - a) 0); try lia;
    rewrite arith_in by reflexivity; f_equal; lia.
Qed.

(** The signs of the differences of the digits, in base 2, compare as the numbers. *)
Lemma sgn_step d D F B : Z.abs d < B -> Z.sgn D = Z.sgn F ->
  Z.sgn (d + B * D) = Z.sgn (Z.sgn d + 2 * F).
Proof.
  intros Hd E. assert (D = 0 /\ F = 0 \/ 0 < D /\ 0 < F \/ D < 0 /\ F < 0) as [[-> ->]|[[H1 H2]|[H1 H2]]] by lia.
  - lia.
  - assert (B * 1 <= B * D) by (apply Z.mul_le_mono_nonneg_l; lia). lia.
  - assert (B * D <= B * -1) by (apply Z.mul_le_mono_nonneg_l; lia). lia.
Qed.

Lemma sgn_digits d0 d1 d2 d3 d4 d5 d6 d7 B :
  Z.abs d0 < B -> Z.abs d1 < B -> Z.abs d2 < B -> Z.abs d3 < B -> Z.abs d4 < B ->
  Z.abs d5 < B -> Z.abs d6 < B -> Z.abs d7 < B ->
  Z.sgn (d0 + B * (d1 + B * (d2 + B * (d3 + B * (d4 + B * (d5 + B * (d6 + B * d7))))))) =
  Z.sgn (Z.sgn d0 + 2 * (Z.sgn d1 + 2 * (Z.sgn d2 + 2 * (Z.sgn d3 + 2 * (Z.sgn d4 +
    2 * (Z.sgn d5 + 2 * (Z.sgn d6 + 2 * Z.sgn d7))))))).
Proof. intros. repeat (apply sgn_step; [assumption|]). lia. Qed.

(** A 32-byte string as eight 32-bit words. *)
Lemma words_of s : Forall byte s -> length s = 32%nat ->
  let V := le_val s in let w i := V / 2 ^ (32 * i) mod 2 ^ 32 in
  V = w 0 + 2 ^ 32 * (w 1 + 2 ^ 32 * (w 2 + 2 ^ 32 * (w 3 + 2 ^ 32 * (w 4 + 2 ^ 32 * (w 5 +
    2 ^ 32 * (w 6 + 2 ^ 32 * w 7)))))).
Proof.
  intros Hs Hl V w. pose proof (bytes_range s 32 Hs Hl) as R. fold V in R. clearbody V.
  unfold w.
  pose proof (split_bits V 0 32 ltac:(lia) ltac:(lia)). pose proof (split_bits V 32 32 ltac:(lia) ltac:(lia)).
  pose proof (split_bits V 64 32 ltac:(lia) ltac:(lia)). pose proof (split_bits V 96 32 ltac:(lia) ltac:(lia)).
  pose proof (split_bits V 128 32 ltac:(lia) ltac:(lia)). pose proof (split_bits V 160 32 ltac:(lia) ltac:(lia)).
  pose proof (split_bits V 192 32 ltac:(lia) ltac:(lia)). pose proof (split_bits V 224 32 ltac:(lia) ltac:(lia)).
  assert (V / 2 ^ (224 + 32) = 0) as E0 by (apply Z.div_small; cbn in *; lia).
  rewrite E0 in *. change (32 * 0) with 0. change (2 ^ 0) with 1 in *. rewrite Z.div_1_r in *.
  repeat match goal with |- context [32 * ?i] =>
    let v := eval vm_compute in (32 * i) in change (32 * i) with v end.
  repeat match goal with H : context [?i + 32] |- _ =>
    let v := eval vm_compute in (i + 32) in change (i + 32) with v in H end.
  lia.
Qed.

Lemma i64_add (a b : Z) : - 2 ^ 62 <= a + b <= 2 ^ 62 ->
  @e_op2 cmach (v_add I64) (Some a) (Some b) = Some (a + b).
Proof. intros H. cbn [e_op2 obind]. apply arith_in, in_ity_spec. cbn. norm_pow2. lia. Qed.

Lemma i64_sub (a b : Z) : - 2 ^ 62 <= a - b <= 2 ^ 62 ->
  @e_op2 cmach (v_sub I64) (Some a) (Some b) = Some (a - b).
Proof. intros H. cbn [e_op2 obind]. apply arith_in, in_ity_spec. cbn. norm_pow2. lia. Qed.

Lemma shl_small (e k : Z) : 0 <= k <= 7 -> -1 <= e <= 1 ->
  @e_shl cmach I64 (Some e) k = Some (2 ^ k * e).
Proof.
  intros Hk He. cbn [e_shl obind v_shl cmach]. rewrite Z.shiftl_mul_pow2, Z.mul_comm by lia.
  pose proof (Z.pow_le_mono_r 2 k 7). pose proof (Z.pow_pos_nonneg 2 k).
  rewrite wrap_id; [reflexivity|]. apply in_ity_spec. cbn. norm_pow2.
  assert (e = -1 \/ e = 0 \/ e = 1) as [-> | [-> | ->]] by lia; lia.
Qed.

Lemma sgn_range z : -1 <= Z.sgn z <= 1.
Proof. lia. Qed.

(** The sum of signs, shifted: negative exactly when the difference of the numbers is. *)
Lemma sgn_sum_ok (d0 d1 d2 d3 d4 d5 d6 d7 : Z) :
  e_cast I32
    ((@Some (@val cmach) (Z.sgn d0) + (@Some (@val cmach) (Z.sgn d1) << 1) + (@Some (@val cmach) (Z.sgn d2) << 2) + (@Some (@val cmach) (Z.sgn d3) << 3) +
      (@Some (@val cmach) (Z.sgn d4) << 4) + (@Some (@val cmach) (Z.sgn d5) << 5) + (@Some (@val cmach) (Z.sgn d6) << 6) +
      (@Some (@val cmach) (Z.sgn d7) << 7)) >> 8)%i64
  = Some (let F := Z.sgn d0 + 2 * (Z.sgn d1 + 2 * (Z.sgn d2 + 2 * (Z.sgn d3 + 2 * (Z.sgn d4 +
            2 * (Z.sgn d5 + 2 * (Z.sgn d6 + 2 * Z.sgn d7)))))) in
          if Z.sgn F <? 0 then -1 else 0).
Proof.
  pose proof (sgn_range d0). pose proof (sgn_range d1). pose proof (sgn_range d2).
  pose proof (sgn_range d3). pose proof (sgn_range d4). pose proof (sgn_range d5).
  pose proof (sgn_range d6). pose proof (sgn_range d7). 
  generalize dependent (Z.sgn d0). generalize dependent (Z.sgn d1). generalize dependent (Z.sgn d2).
  generalize dependent (Z.sgn d3). generalize dependent (Z.sgn d4). generalize dependent (Z.sgn d5).
  generalize dependent (Z.sgn d6). generalize dependent (Z.sgn d7). intros.
  rewrite !shl_small by lia.
  rewrite !i64_add by (norm_pow2; lia).
  cbn [e_cast e_shr obind v_shr v_cast cmach]. rewrite Z.shiftr_div_pow2 by lia.
  cbv zeta. match goal with |- context [arith I32 (?G / 2 ^ 8)] => set (F := G) end.
  match goal with |- context [Z.sgn ?G <? 0] => replace G with F by (unfold F; ring) end.
  assert (- 256 < F < 256) as HF by (unfold F; norm_pow2; lia). clearbody F.
  destruct (Z.ltb_spec (Z.sgn F) 0).
  - replace (F / 2 ^ 8) with (-1); [reflexivity|].
    apply Z.div_unique with (r := F + 256); norm_pow2; lia.
  - rewrite Z.div_small by (norm_pow2; lia). reflexivity.
Qed.

Lemma sc_check_ok s : Forall byte s -> length s = 32%nat ->
  @sc_check cmach s = Some (if le_val s <? l25519 then 0 else -1).
Proof.
  intros Hs Hl. pose proof (words_of s Hs Hl) as W. cbv beta zeta in W. unfold sc_check.
  rewrite !load_4_field by (try assumption; lia).
  assert (forall i, 0 <= le_val s / 2 ^ i mod 2 ^ 32 < 2 ^ 32) as B
    by (intros; apply Z.mod_pos_bound; lia).
  repeat match goal with |- context [8 * Z.of_nat ?i] =>
    let v := eval vm_compute in (8 * Z.of_nat i) in change (8 * Z.of_nat i) with v in * end.
  repeat match type of W with context [32 * ?i] =>
    let v := eval vm_compute in (32 * i) in change (32 * i) with v in W end.
  pose proof (B 0). pose proof (B 32). pose proof (B 64). pose proof (B 96). pose proof (B 128).
  pose proof (B 160). pose proof (B 192). pose proof (B 224). clear B.
  generalize dependent (le_val s). intros V W.
  repeat match goal with |- context [V / 2 ^ ?i mod 2 ^ 32] =>
    let w := fresh "w" in set (w := V / 2 ^ i mod 2 ^ 32) in *; clearbody w end.
  intros.
  rewrite !cast_I64 by lia. cbn [obind]. unfold e_lit, vret. cbn [v_lit cmach].
  rewrite !i64_sub by (norm_pow2; lia). cbn [obind].
  rewrite !signum_ok by (norm_pow2; lia).
  rewrite sgn_sum_ok. f_equal. cbv zeta.
  rewrite <- (sgn_digits _ _ _ _ _ _ _ _ (2 ^ 32)) by (norm_pow2; lia).
  set (D := Z.sgn _). replace D with (Z.sgn (l25519 - 1 - V)); [|unfold D; f_equal; rewrite W at 1; unfold l25519; norm_pow2; lia].
  destruct (Z.ltb_spec (Z.sgn (l25519 - 1 - V)) 0), (Z.ltb_spec V l25519); lia.
Qed.

Lemma sc_isnonzero_ok s : Forall byte s -> sc_isnonzero s = if le_val s =? 0 then 0 else 1.
Proof.
  intros Hs. unfold sc_isnonzero. rewrite bytes_nonzero_spec by assumption.
  pose proof (le_val_zero s Hs) as Z.
  destruct (Z.eqb_spec (le_val s) 0), (forallb (Z.eqb 0) s); intuition congruence.
Qed.
