(* ===== verification/Ge.v ===== *)
(** * Group elements (crypto-ops.c, [ge_*])

    The five representations of a curve point and the straight-line operations
    on them, over [CSem]: additions, subtractions, doubling and the conversions
    between the representations.  The rest of the file is their soundness on
    intervals. *)

From Stdlib Require Import ZArith Lia List Bool.
Import ListNotations.
From S2P Require Import Prelude Primes FieldElt.
Set Default Goal Selector "!".

(** ** The constants of crypto-ops-data.c *)

Section Constants.
Context {C : CSem}.

(** A constant of ten limbs. *)
Definition fe_const (a b c d e f g h i j : Z) : fe C :=
  L10 (v_lit a) (v_lit b) (v_lit c) (v_lit d) (v_lit e) (v_lit f) (v_lit g) (v_lit h) (v_lit i)
      (v_lit j).

(** d *)
Definition fe_d : fe C :=
  fe_const (-10913610) 13857413 (-15372611) 6949391 114729 (-8787816) (-6275908) (-3247719) (-18696448) (-12055116).
(** sqrt(-1) *)
Definition fe_sqrtm1 : fe C :=
  fe_const (-32595792) (-7943725) 9377950 3500415 12389472 (-272473) (-25146209) (-2005654) 326686 11406482.
(** 2 * d *)
Definition fe_d2 : fe C :=
  fe_const (-21827239) (-5839606) (-30745221) 13898782 229458 15978800 (-12551817) (-6495438) 29715968 9444199.
(** -A^2 *)
Definition fe_ma2 : fe C :=
  fe_const (-12721188) (-3529) 0 0 0 0 0 0 0 0.
(** -A *)
Definition fe_ma : fe C :=
  fe_const (-486662) 0 0 0 0 0 0 0 0 0.
(** sqrt(-2 * A * (A + 2)) *)
Definition fe_fffb1 : fe C :=
  fe_const (-31702527) (-2466483) (-26106795) (-12203692) (-12169197) (-321052) 14850977 (-10296299) (-16929438) (-407568).
(** sqrt(2 * A * (A + 2)) *)
Definition fe_fffb2 : fe C :=
  fe_const 8166131 (-6741800) (-17040804) 3154616 21461005 1466302 (-30876704) (-6368709) 10503587 (-13363080).
(** sqrt(-sqrt(-1) * A * (A + 2)) *)
Definition fe_fffb3 : fe C :=
  fe_const (-13620103) 14639558 4532995 7679154 16815101 (-15883539) (-22863840) (-14813421) 13716513 (-6477756).
(** sqrt(sqrt(-1) * A * (A + 2)) *)
Definition fe_fffb4 : fe C :=
  fe_const (-21786234) (-12173074) 21573800 4524538 (-4645904) 16204591 8012863 (-8444712) 3212926 6885324.

End Constants.

(** ** Representations *)

Record ge_p2 (C : CSem) := mk_p2 { p2_X : fe C; p2_Y : fe C; p2_Z : fe C }.
Record ge_p3 (C : CSem) := mk_p3 { p3_X : fe C; p3_Y : fe C; p3_Z : fe C; p3_T : fe C }.
Record ge_p1p1 (C : CSem) := mk_p1p1 { p1_X : fe C; p1_Y : fe C; p1_Z : fe C; p1_T : fe C }.
Record ge_precomp (C : CSem) := mk_precomp { yplusx : fe C; yminusx : fe C; xy2d : fe C }.
Record ge_cached (C : CSem) := mk_cached { YplusX : fe C; YminusX : fe C; c_Z : fe C; T2d : fe C }.
Arguments mk_p2 {C}. Arguments p2_X {C}. Arguments p2_Y {C}. Arguments p2_Z {C}.
Arguments mk_p3 {C}. Arguments p3_X {C}. Arguments p3_Y {C}. Arguments p3_Z {C}. Arguments p3_T {C}.
Arguments mk_p1p1 {C}. Arguments p1_X {C}. Arguments p1_Y {C}. Arguments p1_Z {C}. Arguments p1_T {C}.
Arguments mk_precomp {C}. Arguments yplusx {C}. Arguments yminusx {C}. Arguments xy2d {C}.
Arguments mk_cached {C}. Arguments YplusX {C}. Arguments YminusX {C}. Arguments c_Z {C}. Arguments T2d {C}.

(** ** Operations *)

Section GroupOps.
Context {C : CSem}.

Definition ge_add (p : ge_p3 C) (q : ge_cached C) : option (ge_p1p1 C) :=
  rX <- fe_add (p3_Y p) (p3_X p) ;;
  rY <- fe_sub (p3_Y p) (p3_X p) ;;
  rZ <- fe_mul rX (YplusX q) ;;
  rY <- fe_mul rY (YminusX q) ;;
  rT <- fe_mul (T2d q) (p3_T p) ;;
  rX <- fe_mul (p3_Z p) (c_Z q) ;;
  t0 <- fe_add rX rX ;;
  rX <- fe_sub rZ rY ;;
  rY <- fe_add rZ rY ;;
  rZ <- fe_add t0 rT ;;
  rT <- fe_sub t0 rT ;;
  Some (mk_p1p1 rX rY rZ rT).

Definition ge_sub (p : ge_p3 C) (q : ge_cached C) : option (ge_p1p1 C) :=
  rX <- fe_add (p3_Y p) (p3_X p) ;;
  rY <- fe_sub (p3_Y p) (p3_X p) ;;
  rZ <- fe_mul rX (YminusX q) ;;
  rY <- fe_mul rY (YplusX q) ;;
  rT <- fe_mul (T2d q) (p3_T p) ;;
  rX <- fe_mul (p3_Z p) (c_Z q) ;;
  t0 <- fe_add rX rX ;;
  rX <- fe_sub rZ rY ;;
  rY <- fe_add rZ rY ;;
  rZ <- fe_sub t0 rT ;;
  rT <- fe_add t0 rT ;;
  Some (mk_p1p1 rX rY rZ rT).

Definition ge_madd (p : ge_p3 C) (q : ge_precomp C) : option (ge_p1p1 C) :=
  rX <- fe_add (p3_Y p) (p3_X p) ;;
  rY <- fe_sub (p3_Y p) (p3_X p) ;;
  rZ <- fe_mul rX (yplusx q) ;;
  rY <- fe_mul rY (yminusx q) ;;
  rT <- fe_mul (xy2d q) (p3_T p) ;;
  t0 <- fe_add (p3_Z p) (p3_Z p) ;;
  rX <- fe_sub rZ rY ;;
  rY <- fe_add rZ rY ;;
  rZ <- fe_add t0 rT ;;
  rT <- fe_sub t0 rT ;;
  Some (mk_p1p1 rX rY rZ rT).

Definition ge_msub (p : ge_p3 C) (q : ge_precomp C) : option (ge_p1p1 C) :=
  rX <- fe_add (p3_Y p) (p3_X p) ;;
  rY <- fe_sub (p3_Y p) (p3_X p) ;;
  rZ <- fe_mul rX (yminusx q) ;;
  rY <- fe_mul rY (yplusx q) ;;
  rT <- fe_mul (xy2d q) (p3_T p) ;;
  t0 <- fe_add (p3_Z p) (p3_Z p) ;;
  rX <- fe_sub rZ rY ;;
  rY <- fe_add rZ rY ;;
  rZ <- fe_sub t0 rT ;;
  rT <- fe_add t0 rT ;;
  Some (mk_p1p1 rX rY rZ rT).

Definition ge_p1p1_to_p2 (p : ge_p1p1 C) : option (ge_p2 C) :=
  rX <- fe_mul (p1_X p) (p1_T p) ;;
  rY <- fe_mul (p1_Y p) (p1_Z p) ;;
  rZ <- fe_mul (p1_Z p) (p1_T p) ;;
  Some (mk_p2 rX rY rZ).

Definition ge_p1p1_to_p3 (p : ge_p1p1 C) : option (ge_p3 C) :=
  rX <- fe_mul (p1_X p) (p1_T p) ;;
  rY <- fe_mul (p1_Y p) (p1_Z p) ;;
  rZ <- fe_mul (p1_Z p) (p1_T p) ;;
  rT <- fe_mul (p1_X p) (p1_Y p) ;;
  Some (mk_p3 rX rY rZ rT).

Definition ge_p2_0 : ge_p2 C := mk_p2 fe_0 fe_1 fe_1.

Definition ge_p2_dbl (p : ge_p2 C) : option (ge_p1p1 C) :=
  rX <- fe_sq (p2_X p) ;;
  rZ <- fe_sq (p2_Y p) ;;
  rT <- fe_sq2 (p2_Z p) ;;
  rY <- fe_add (p2_X p) (p2_Y p) ;;
  t0 <- fe_sq rY ;;
  rY <- fe_add rZ rX ;;
  rZ <- fe_sub rZ rX ;;
  rX <- fe_sub t0 rY ;;
  rT <- fe_sub rT rZ ;;
  Some (mk_p1p1 rX rY rZ rT).

Definition ge_p3_0 : ge_p3 C := mk_p3 fe_0 fe_1 fe_1 fe_0.

Definition ge_p3_to_p2 (p : ge_p3 C) : ge_p2 C :=
  mk_p2 (fe_copy (p3_X p)) (fe_copy (p3_Y p)) (fe_copy (p3_Z p)).

Definition ge_p3_dbl (p : ge_p3 C) : option (ge_p1p1 C) := ge_p2_dbl (ge_p3_to_p2 p).

Definition ge_p3_to_cached (p : ge_p3 C) : option (ge_cached C) :=
  rYplusX <- fe_add (p3_Y p) (p3_X p) ;;
  rYminusX <- fe_sub (p3_Y p) (p3_X p) ;;
  let rZ := fe_copy (p3_Z p) in
  rT2d <- fe_mul (p3_T p) fe_d2 ;;
  Some (mk_cached rYplusX rYminusX rZ rT2d).

Definition ge_precomp_0 : ge_precomp C := mk_precomp fe_1 fe_1 fe_0.

Definition ge_cached_0 : ge_cached C := mk_cached fe_1 fe_1 fe_1 fe_0.

Definition ge_mul8 (t : ge_p2 C) : option (ge_p1p1 C) :=
  r <- ge_p2_dbl t ;;
  u <- ge_p1p1_to_p2 r ;;
  r <- ge_p2_dbl u ;;
  u <- ge_p1p1_to_p2 r ;;
  ge_p2_dbl u.

End GroupOps.

(** ** Interval soundness *)

Record p2_in (p : ge_p2 cmach) (b : ge_p2 citv) : Prop := {
  p2_inX : fe_in (p2_X p) (p2_X b); p2_inY : fe_in (p2_Y p) (p2_Y b);
  p2_inZ : fe_in (p2_Z p) (p2_Z b) }.
Record p3_in (p : ge_p3 cmach) (b : ge_p3 citv) : Prop := {
  p3_inX : fe_in (p3_X p) (p3_X b); p3_inY : fe_in (p3_Y p) (p3_Y b);
  p3_inZ : fe_in (p3_Z p) (p3_Z b); p3_inT : fe_in (p3_T p) (p3_T b) }.
Record p1_in (p : ge_p1p1 cmach) (b : ge_p1p1 citv) : Prop := {
  p1_inX : fe_in (p1_X p) (p1_X b); p1_inY : fe_in (p1_Y p) (p1_Y b);
  p1_inZ : fe_in (p1_Z p) (p1_Z b); p1_inT : fe_in (p1_T p) (p1_T b) }.
Record pc_in (p : ge_precomp cmach) (b : ge_precomp citv) : Prop := {
  pc_inp : fe_in (yplusx p) (yplusx b); pc_inm : fe_in (yminusx p) (yminusx b);
  pc_inx : fe_in (xy2d p) (xy2d b) }.
Record ca_in (p : ge_cached cmach) (b : ge_cached citv) : Prop := {
  ca_inp : fe_in (YplusX p) (YplusX b); ca_inm : fe_in (YminusX p) (YminusX b);
  ca_inZ : fe_in (c_Z p) (c_Z b); ca_inT : fe_in (T2d p) (T2d b) }.

Lemma fe_const_rel a b c d e f g h i j :
  fe_in (fe_const a b c d e f g h i j) (fe_const a b c d e f g h i j).
Proof. split; apply v_lit_rel. Qed.

Lemma fe_copy_rel f a : fe_in f a -> fe_in (fe_copy f) (fe_copy a).
Proof. rewrite !fe_copy_id. trivial. Qed.

Lemma fe_d_rel : fe_in fe_d fe_d.
Proof. apply fe_const_rel. Qed.
Lemma fe_d2_rel : fe_in fe_d2 fe_d2.
Proof. apply fe_const_rel. Qed.
Lemma fe_sqrtm1_rel : fe_in fe_sqrtm1 fe_sqrtm1.
Proof. apply fe_const_rel. Qed.

#[export] Hint Resolve fe_copy_rel fe_d_rel fe_d2_rel fe_sqrtm1_rel : crel.
#[export] Hint Opaque fe_const fe_d fe_d2 fe_sqrtm1 fe_0 fe_1 fe_copy fe_add fe_sub fe_neg fe_mul
  fe_sq fe_sq2 fe_sq_times fe_invert fe_divpowm1 : crel.

Ltac ge_destruct :=
  repeat match goal with
  | H : p2_in _ _ |- _ => destruct H
  | H : p3_in _ _ |- _ => destruct H
  | H : p1_in _ _ |- _ => destruct H
  | H : pc_in _ _ |- _ => destruct H
  | H : ca_in _ _ |- _ => destruct H
  end.

Ltac ge_cbn :=
  cbn [p2_X p2_Y p2_Z p3_X p3_Y p3_Z p3_T p1_X p1_Y p1_Z p1_T yplusx yminusx xy2d
       YplusX YminusX c_Z T2d] in *.

(** [ge_rel]: the interval soundness of a sequence of field operations. *)
Ltac ge_rel :=
  ge_destruct;
  repeat (eapply orel_bind; [eauto 2 with crel nocore|]; cbn beta; intros ? ? ?);
  first [apply orel_ret; split; ge_cbn; eauto 2 with crel nocore|eauto 2 with crel nocore].

Lemma ge_add_rel p q a b : p3_in p a -> ca_in q b -> orel p1_in (ge_add p q) (ge_add a b).
Proof. intros. unfold ge_add. ge_rel. Qed.

Lemma ge_sub_rel p q a b : p3_in p a -> ca_in q b -> orel p1_in (ge_sub p q) (ge_sub a b).
Proof. intros. unfold ge_sub. ge_rel. Qed.

Lemma ge_madd_rel p q a b : p3_in p a -> pc_in q b -> orel p1_in (ge_madd p q) (ge_madd a b).
Proof. intros. unfold ge_madd. ge_rel. Qed.

Lemma ge_msub_rel p q a b : p3_in p a -> pc_in q b -> orel p1_in (ge_msub p q) (ge_msub a b).
Proof. intros. unfold ge_msub. ge_rel. Qed.

Lemma ge_p1p1_to_p2_rel p a : p1_in p a -> orel p2_in (ge_p1p1_to_p2 p) (ge_p1p1_to_p2 a).
Proof. intros. unfold ge_p1p1_to_p2. ge_rel. Qed.

Lemma ge_p1p1_to_p3_rel p a : p1_in p a -> orel p3_in (ge_p1p1_to_p3 p) (ge_p1p1_to_p3 a).
Proof. intros. unfold ge_p1p1_to_p3. ge_rel. Qed.

Lemma ge_p2_dbl_rel p a : p2_in p a -> orel p1_in (ge_p2_dbl p) (ge_p2_dbl a).
Proof. intros. unfold ge_p2_dbl. ge_rel. Qed.

Lemma ge_p3_to_cached_rel p a : p3_in p a -> orel ca_in (ge_p3_to_cached p) (ge_p3_to_cached a).
Proof.
  intros. unfold ge_p3_to_cached. cbv zeta. ge_rel.
Qed.
