(* ===== verification/GeCorrect.v ===== *)
(** * Group elements represent curve points (crypto-ops.c, [ge_*])

    What it means for each of the five representations to stand for a point of
    the curve, within bounds, and the refinement theorems: the operations of
    crypto-ops.c are defined on represented points and compute the group
    operations of Edwards.v. *)

From Stdlib Require Import ZArith Lia List Bool Zmod Field Setoid Morphisms.
Import ListNotations.
From S2P Require Import Prelude Primes AbGroup Edwards FieldElt Ge.
Set Default Goal Selector "!".
Local Open Scope F_scope.

(** ** Field elements as residues *)

Definition feF (f : fe cmach) : F := toF (fe_val f).

Section FieldOps.
Context (f g : fe cmach).
Lemma fe_add_F : post (fe_add f g) (fun h => feF h = feF f + feF g).
Proof. eapply post_mono; [apply fe_add_val|]. intros h E. unfold feF. rewrite E. apply toF_add. Qed.
Lemma fe_sub_F : post (fe_sub f g) (fun h => feF h = feF f - feF g).
Proof. eapply post_mono; [apply fe_sub_val|]. intros h E. unfold feF. rewrite E. apply toF_sub. Qed.
Lemma fe_neg_F : post (fe_neg f) (fun h => feF h = - feF f).
Proof. eapply post_mono; [apply fe_neg_val|]. intros h E. unfold feF. rewrite E. apply toF_opp. Qed.
Lemma fe_mul_F : post (fe_mul f g) (fun h => feF h = feF f * feF g).
Proof. eapply post_mono; [apply fe_mul_val|]. intros h E. unfold feF. rewrite E. apply toF_mul. Qed.
Lemma fe_sq_F : post (fe_sq f) (fun h => feF h = feF f * feF f).
Proof. eapply post_mono; [apply fe_sq_val|]. intros h E. unfold feF. rewrite E. apply toF_mul. Qed.
Lemma fe_sq2_F : post (fe_sq2 f) (fun h => feF h = (1 + 1) * (feF f * feF f)).
Proof.
  eapply post_mono; [apply fe_sq2_val|]. intros h E. unfold feF. rewrite E, !toF_mul.
  change 2%Z with (1 + 1)%Z. rewrite toF_add, toF_1. reflexivity.
Qed.
End FieldOps.

Lemma feF_0 : feF fe_0 = 0.
Proof. apply toF_0. Qed.
Lemma feF_1 : feF fe_1 = 1.
Proof. apply toF_1. Qed.
Lemma feF_copy f : feF (fe_copy f) = feF f.
Proof. rewrite fe_copy_id. reflexivity. Qed.
Lemma feF_d : feF fe_d = ed_d.
Proof. apply F_eqb_eq. vm_compute. reflexivity. Qed.
Lemma feF_d2 : feF fe_d2 = (1 + 1) * ed_d.
Proof. apply F_eqb_eq. vm_compute. reflexivity. Qed.
Lemma feF_sqrtm1 : feF fe_sqrtm1 = ed_i.
Proof. apply F_eqb_eq. vm_compute. reflexivity. Qed.

Create HintDb fe_F discriminated.
#[export] Hint Resolve fe_add_F fe_sub_F fe_neg_F fe_mul_F fe_sq_F fe_sq2_F : fe_F.
#[export] Hint Opaque fe_add fe_sub fe_neg fe_mul fe_sq fe_sq2 : fe_F.

(** [ge_F]: the equations that the field operations of a group operation establish. *)
Ltac ge_F :=
  repeat (lazymatch goal with |- post (obind _ _) _ => apply post_bind end;
          eapply post_mono; [eauto 1 with fe_F nocore|]; cbn beta;
          let h := fresh "h" in let E := fresh "E" in intros h E);
  lazymatch goal with |- post (Some _) _ => apply post_ret | |- _ => idtac end; ge_cbn.

(** ** Representation of points *)

(** The bounds of the representations between operations. *)
Definition p2_bound : ge_p2 citv := mk_p2 fe_tight fe_tight fe_tight.
Definition p3_bound : ge_p3 citv := mk_p3 fe_tight fe_tight fe_tight fe_tight.
Definition p1_bound : ge_p1p1 citv := mk_p1p1 fe_wide fe_wide fe_wide fe_wide.
Definition pc_bound : ge_precomp citv := mk_precomp fe_tight fe_tight fe_tight.
Definition ca_bound : ge_cached citv := mk_cached fe_loose fe_loose fe_tight fe_tight.

(** Projective, extended, completed, and the two forms prepared for additions. *)
Record p2_rep (p : ge_p2 cmach) (P : point) : Prop := {
  r2_Z : feF (p2_Z p) <> 0; r2_X : feF (p2_X p) = px P * feF (p2_Z p);
  r2_Y : feF (p2_Y p) = py P * feF (p2_Z p) }.
Record p3_rep (p : ge_p3 cmach) (P : point) : Prop := {
  r3_Z : feF (p3_Z p) <> 0; r3_X : feF (p3_X p) = px P * feF (p3_Z p);
  r3_Y : feF (p3_Y p) = py P * feF (p3_Z p); r3_T : feF (p3_T p) = px P * py P * feF (p3_Z p) }.
Record p1_rep (p : ge_p1p1 cmach) (P : point) : Prop := {
  r1_Z : feF (p1_Z p) <> 0; r1_T : feF (p1_T p) <> 0;
  r1_X : feF (p1_X p) = px P * feF (p1_Z p); r1_Y : feF (p1_Y p) = py P * feF (p1_T p) }.
Record pc_rep (q : ge_precomp cmach) (Q : point) : Prop := {
  rp_p : feF (yplusx q) = py Q + px Q; rp_m : feF (yminusx q) = py Q - px Q;
  rp_x : feF (xy2d q) = (1 + 1) * ed_d * px Q * py Q }.
Record ca_rep (q : ge_cached cmach) (Q : point) : Prop := {
  rc_Z : feF (c_Z q) <> 0; rc_p : feF (YplusX q) = (py Q + px Q) * feF (c_Z q);
  rc_m : feF (YminusX q) = (py Q - px Q) * feF (c_Z q);
  rc_T : feF (T2d q) = (1 + 1) * ed_d * px Q * py Q * feF (c_Z q) }.

(** A representation within its bounds. *)
Definition p2_is (p : ge_p2 cmach) (P : point) : Prop := p2_in p p2_bound /\ p2_rep p P.
Definition p3_is (p : ge_p3 cmach) (P : point) : Prop := p3_in p p3_bound /\ p3_rep p P.
Definition p1_is (p : ge_p1p1 cmach) (P : point) : Prop := p1_in p p1_bound /\ p1_rep p P.
Definition pc_is (q : ge_precomp cmach) (Q : point) : Prop := pc_in q pc_bound /\ pc_rep q Q.
Definition ca_is (q : ge_cached cmach) (Q : point) : Prop := ca_in q ca_bound /\ ca_rep q Q.

(** Comparison of bounds. *)
Definition p2_le (a b : ge_p2 citv) : bool :=
  fe_le (p2_X a) (p2_X b) && fe_le (p2_Y a) (p2_Y b) && fe_le (p2_Z a) (p2_Z b).
Definition p3_le (a b : ge_p3 citv) : bool :=
  fe_le (p3_X a) (p3_X b) && fe_le (p3_Y a) (p3_Y b) && fe_le (p3_Z a) (p3_Z b) &&
  fe_le (p3_T a) (p3_T b).
Definition p1_le (a b : ge_p1p1 citv) : bool :=
  fe_le (p1_X a) (p1_X b) && fe_le (p1_Y a) (p1_Y b) && fe_le (p1_Z a) (p1_Z b) &&
  fe_le (p1_T a) (p1_T b).
Definition ca_le (a b : ge_cached citv) : bool :=
  fe_le (YplusX a) (YplusX b) && fe_le (YminusX a) (YminusX b) && fe_le (c_Z a) (c_Z b) &&
  fe_le (T2d a) (T2d b).

Ltac le_in H :=
  intros H; repeat rewrite andb_true_iff in H; intros []; split; eapply fe_le_in; try eassumption;
  apply H.

Lemma p2_le_in p a b : p2_le a b = true -> p2_in p a -> p2_in p b.
Proof. unfold p2_le. le_in H. Qed.
Lemma p3_le_in p a b : p3_le a b = true -> p3_in p a -> p3_in p b.
Proof. unfold p3_le. le_in H. Qed.
Lemma p1_le_in p a b : p1_le a b = true -> p1_in p a -> p1_in p b.
Proof. unfold p1_le. le_in H. Qed.
Lemma ca_le_in p a b : ca_le a b = true -> ca_in p a -> ca_in p b.
Proof. unfold ca_le. le_in H. Qed.

(** Total correctness from an interval run and the equations of the run. *)
Lemma bound_total {A B} (R : A -> B -> Prop) (le : B -> B -> bool) m i b (P : A -> Prop) :
  (forall x c, le c b = true -> R x c -> R x b) -> orel R m i ->
  match i with Some c => le c b | None => false end = true ->
  post m P -> total m (fun h => R h b /\ P h).
Proof.
  intros Hle H Hi Hp. destruct i as [c|]; [|discriminate]. destruct H as (a & E & Ha).
  exists a. split; [exact E|]. split; [eapply Hle; eassumption|exact (Hp a E)].
Qed.

Ltac ge_total le_lem rel :=
  eapply (bound_total _ _ _ _ _ _ (fun x c => le_lem x c _));
  [apply rel; eassumption|vm_compute; reflexivity|].

(** ** The group operations *)

(** A completed point with the numerators and denominators of the addition law, all scaled by
    [c], represents the sum. *)
Lemma add_completed r P Q c : c <> 0 ->
  feF (p1_X r) = c * (px P * py Q + py P * px Q) ->
  feF (p1_Y r) = c * (py P * py Q + px P * px Q) ->
  feF (p1_Z r) = c * (1 + ed_d * px P * px Q * py P * py Q) ->
  feF (p1_T r) = c * (1 - ed_d * px P * px Q * py P * py Q) -> p1_rep r (gadd P Q).
Proof.
  intros Hc EX EY EZ ET. destruct (ed_denominators _ _ _ _ (p_curve P) (p_curve Q)) as [H1 H2].
  split; rewrite ?EX, ?EY, ?EZ, ?ET.
  - intros E%F_mul_0. tauto.
  - intros E%F_mul_0. tauto.
  - cbn [gadd ed_group px ed_add]. unfold add_x. field. exact H1.
  - cbn [gadd ed_group py ed_add]. unfold add_y. field. exact H2.
Qed.

Lemma F_mul_nz (a b : F) : a <> 0 -> b <> 0 -> a * b <> 0.
Proof. intros Ha Hb E%F_mul_0. tauto. Qed.

Lemma F_mul_cancel_r (z a b : F) : z <> 0%F -> (a * z)%F = (b * z)%F -> a = b.
Proof.
  intros Hz E. transitivity (a * z / z)%F; [field; exact Hz|]. rewrite E. field. exact Hz.
Qed.

#[export] Hint Resolve F_mul_nz F_two : fe_F.

(** [ge_completed P Q c]: conclude from the equations of the run. *)
Ltac rep_rewrite :=
  repeat match goal with
  | H : p2_rep _ _ |- _ => destruct H
  | H : p3_rep _ _ |- _ => destruct H
  | H : p1_rep _ _ |- _ => destruct H
  | H : pc_rep _ _ |- _ => destruct H
  | H : ca_rep _ _ |- _ => destruct H
  end; ge_cbn;
  repeat match goal with
  | H : feF ?x = _ |- context [feF ?x] => rewrite H
  end.

Ltac ge_completed c :=
  apply (add_completed _ _ _ c); ge_cbn; rep_rewrite;
  cbn [px py gopp ed_group ed_opp]; [auto with fe_F nocore|ring..].

Lemma ge_add_ok p q P Q : p3_is p P -> ca_is q Q -> total (ge_add p q) (fun r => p1_is r (gadd P Q)).
Proof.
  intros [Bp Rp] [Bq Rq]. ge_total p1_le_in ge_add_rel. unfold ge_add. ge_F.
  ge_completed ((1 + 1) * (feF (p3_Z p) * feF (c_Z q))).
Qed.

Lemma ge_sub_ok p q P Q : p3_is p P -> ca_is q Q ->
  total (ge_sub p q) (fun r => p1_is r (gadd P (gopp Q))).
Proof.
  intros [Bp Rp] [Bq Rq]. ge_total p1_le_in ge_sub_rel. unfold ge_sub. ge_F.
  ge_completed ((1 + 1) * (feF (p3_Z p) * feF (c_Z q))).
Qed.

Lemma ge_madd_ok p q P Q : p3_is p P -> pc_is q Q ->
  total (ge_madd p q) (fun r => p1_is r (gadd P Q)).
Proof.
  intros [Bp Rp] [Bq Rq]. ge_total p1_le_in ge_madd_rel. unfold ge_madd. ge_F.
  ge_completed ((1 + 1) * feF (p3_Z p)).
Qed.

Lemma ge_msub_ok p q P Q : p3_is p P -> pc_is q Q ->
  total (ge_msub p q) (fun r => p1_is r (gadd P (gopp Q))).
Proof.
  intros [Bp Rp] [Bq Rq]. ge_total p1_le_in ge_msub_rel. unfold ge_msub. ge_F.
  ge_completed ((1 + 1) * feF (p3_Z p)).
Qed.

Lemma ge_p1p1_to_p2_ok p P : p1_is p P -> total (ge_p1p1_to_p2 p) (fun r => p2_is r P).
Proof.
  intros [Bp Rp]. ge_total p2_le_in ge_p1p1_to_p2_rel. unfold ge_p1p1_to_p2. ge_F.
  split; ge_cbn; rep_rewrite; [auto with fe_F nocore|ring..].
Qed.

Lemma ge_p1p1_to_p3_ok p P : p1_is p P -> total (ge_p1p1_to_p3 p) (fun r => p3_is r P).
Proof.
  intros [Bp Rp]. ge_total p3_le_in ge_p1p1_to_p3_rel. unfold ge_p1p1_to_p3. ge_F.
  split; ge_cbn; rep_rewrite; [auto with fe_F nocore|ring..].
Qed.

Lemma ge_p2_dbl_rep p P : p2_rep p P -> post (ge_p2_dbl p) (fun r => p1_rep r (gadd P P)).
Proof.
  intros Rp. unfold ge_p2_dbl. ge_F.
  assert (1 + ed_d * px P * px P * py P * py P = py P * py P - px P * px P) as C.
  { pose proof (p_curve P) as C. unfold on_curve in C. rewrite C. ring. }
  apply (add_completed _ _ _ (feF (p2_Z p) * feF (p2_Z p))); ge_cbn.
  - destruct Rp. auto with fe_F nocore.
  - rep_rewrite. ring.
  - rep_rewrite. ring.
  - rewrite C. rep_rewrite. ring.
  - replace (1 - ed_d * px P * px P * py P * py P) with
      (1 + 1 - (1 + ed_d * px P * px P * py P * py P)) by ring. rewrite C. rep_rewrite. ring.
Qed.

Lemma ge_p2_dbl_ok p P : p2_is p P -> total (ge_p2_dbl p) (fun r => p1_is r (gadd P P)).
Proof. intros [Bp Rp]. ge_total p1_le_in ge_p2_dbl_rel. apply ge_p2_dbl_rep, Rp. Qed.

(** The bounds of the point that [ge_fromfe_frombytes_vartime] leaves, on which doubling works too. *)
Definition h2p_bound : ge_p2 citv := mk_p2 fe_tight fe_loose fe_loose.

Lemma ge_p2_dbl_h2p p P : p2_in p h2p_bound -> p2_rep p P ->
  total (ge_p2_dbl p) (fun r => p1_is r (gadd P P)).
Proof. intros Bp Rp. ge_total p1_le_in ge_p2_dbl_rel. apply ge_p2_dbl_rep, Rp. Qed.

Lemma ge_p3_to_p2_ok p P : p3_is p P -> p2_is (ge_p3_to_p2 p) P.
Proof.
  intros [[] []]. unfold ge_p3_to_p2. split; split; ge_cbn; rewrite ?fe_copy_id; assumption.
Qed.

Lemma ge_p3_dbl_ok p P : p3_is p P -> total (ge_p3_dbl p) (fun r => p1_is r (gadd P P)).
Proof. intros H. apply ge_p2_dbl_ok, ge_p3_to_p2_ok, H. Qed.

Lemma ge_p3_to_cached_ok p P : p3_is p P -> total (ge_p3_to_cached p) (fun r => ca_is r P).
Proof.
  intros [Bp Rp]. ge_total ca_le_in ge_p3_to_cached_rel. unfold ge_p3_to_cached. cbv zeta. ge_F.
  split; ge_cbn; rewrite ?feF_copy; rep_rewrite; rewrite ?feF_d2; [assumption|ring..].
Qed.

(** The constants for the neutral element. *)
Lemma fe_0_tight : fe_in fe_0 fe_tight.
Proof. eapply fe_le_in; [|apply fe_0_rel]. vm_compute. reflexivity. Qed.
Lemma fe_1_tight : fe_in fe_1 fe_tight.
Proof. eapply fe_le_in; [|apply fe_1_rel]. vm_compute. reflexivity. Qed.
Lemma fe_1_loose : fe_in fe_1 fe_loose.
Proof. eapply fe_le_in; [|apply fe_1_rel]. vm_compute. reflexivity. Qed.

#[export] Hint Resolve fe_0_tight fe_1_tight fe_1_loose : fe_F.

Lemma F_1_nz : 1 <> 0.
Proof. apply F_neq. vm_compute. reflexivity. Qed.

Ltac neutral :=
  split; split; ge_cbn; rewrite ?feF_0, ?feF_1; cbn [px py gzero ed_group ed_zero];
  first [solve [auto with fe_F nocore]|exact F_1_nz|ring].

Lemma ge_p2_0_ok : p2_is ge_p2_0 gzero.
Proof. unfold ge_p2_0. neutral. Qed.
Lemma ge_p3_0_ok : p3_is ge_p3_0 gzero.
Proof. unfold ge_p3_0. neutral. Qed.
Lemma ge_precomp_0_ok : pc_is ge_precomp_0 gzero.
Proof. unfold ge_precomp_0. neutral. Qed.
Lemma ge_cached_0_ok : ca_is ge_cached_0 gzero.
Proof. unfold ge_cached_0. neutral. Qed.

Lemma ge_mul8_h2p t P : p2_in t h2p_bound -> p2_rep t P ->
  total (ge_mul8 t) (fun r => p1_is r (gmul 8 P)).
Proof.
  intros Bt Rt. unfold ge_mul8.
  eapply total_bind; [apply (ge_p2_dbl_h2p t P); assumption|]. intros r1 H1.
  eapply total_bind; [apply ge_p1p1_to_p2_ok, H1|]. intros u1 H2.
  eapply total_bind; [apply ge_p2_dbl_ok, H2|]. intros r2 H3.
  eapply total_bind; [apply ge_p1p1_to_p2_ok, H3|]. intros u2 H4.
  apply ge_p2_dbl_ok, H4.
Qed.

Lemma ge_mul8_ok t P : p2_is t P -> total (ge_mul8 t) (fun r => p1_is r (gmul 8 P)).
Proof.
  intros [Bt Rt]. apply ge_mul8_h2p; [|exact Rt].
  eapply p2_le_in; [|exact Bt]. vm_compute. reflexivity.
Qed.
