(* ===== verification/GeBytes.v ===== *)
(** * Encoding and decoding of points (crypto-ops.c)

    [ge_tobytes], [ge_p3_tobytes] and [ge_frombytes_vartime].  A point is encoded
    as the canonical [y] with the parity of [x] in the top bit.  The theorems:
    the encoders write this encoding of the represented point; the decoder
    accepts exactly the 32-byte strings that encode a point of the curve, and
    returns that point; the two are inverse to each other. *)

From Stdlib Require Import ZArith Lia List Bool Zmod Field Setoid Morphisms.
Import ListNotations.
From S2P Require Import Prelude Primes AbGroup Edwards Loads FieldElt FieldBytes Ge GeCorrect.
Set Default Goal Selector "!".

(** ** The functions *)

(** [s[i] ^= v] on bytes. *)
Definition xor_at (s : list Z) (i : nat) (v : Z) : option (list Z) :=
  b <- nth_error s i ;; Some (firstn i s ++ wrap U8 (Z.lxor b v) :: skipn (S i) s).

Definition ge_tobytes (h : ge_p2 cmach) : option (list Z) :=
  recip <- fe_invert (p2_Z h) ;;
  x <- fe_mul (p2_X h) recip ;;
  y <- fe_mul (p2_Y h) recip ;;
  s <- fe_tobytes y ;;
  n <- fe_isnegative x ;;
  xor_at s 31 (Z.shiftl n 7).

Definition ge_p3_tobytes (h : ge_p3 cmach) : option (list Z) :=
  recip <- fe_invert (p3_Z h) ;;
  x <- fe_mul (p3_X h) recip ;;
  y <- fe_mul (p3_Y h) recip ;;
  s <- fe_tobytes y ;;
  n <- fe_isnegative x ;;
  xor_at s 31 (Z.shiftl n 7).

(** The candidate for [x] and its two checks; [None] where the function returns -1. *)
Definition ge_frombytes_root (u v : fe cmach) : option (option (fe cmach)) :=
  hX <- fe_divpowm1 u v ;;
  vxx <- fe_sq hX ;;
  vxx <- fe_mul vxx v ;;
  check <- fe_sub vxx u ;;
  nz <- fe_isnonzero check ;;
  if nz =? 0 then Some (Some hX) else
  check <- fe_add vxx u ;;
  nz <- fe_isnonzero check ;;
  if nz =? 0 then (hX <- fe_mul hX fe_sqrtm1 ;; Some (Some hX)) else Some None.

(** The choice of the sign of [x], [bit] being [s[31] >> 7]. *)
Definition ge_frombytes_sign (hX : fe cmach) (bit : Z) : option (option (fe cmach)) :=
  n <- fe_isnegative hX ;;
  if n =? bit then Some (Some hX) else
  nz <- fe_isnonzero hX ;;
  if nz =? 0 then Some None else (hX <- fe_neg hX ;; Some (Some hX)).

(** The result: [Some None] is the return value -1, [Some (Some h)] is 0 with the point [h]. *)
Definition ge_frombytes_vartime (s : list Z) : option (option (ge_p3 cmach)) :=
  h <- @fe_frombytes_load cmach s ;;
  if fe_not_canonical h then Some None else
  hY <- fe_frombytes_carry h ;;
  let hZ := fe_1 in
  u <- fe_sq hY ;;
  v <- fe_mul u fe_d ;;
  u <- fe_sub u hZ ;;
  v <- fe_add v hZ ;;
  root <- ge_frombytes_root u v ;;
  match root with
  | None => Some None
  | Some hX =>
      s31 <- nth_error s 31 ;;
      signed <- ge_frombytes_sign hX (Z.shiftr s31 7) ;;
      match signed with
      | None => Some None
      | Some hX => hT <- fe_mul hX hY ;; Some (Some (mk_p3 hX hY hZ hT))
      end
  end.

(** ** The encoding of a point *)

Definition enc (P : point) : Z := Zmod.unsigned (py P) + 2 ^ 255 * (Zmod.unsigned (px P) mod 2).

(** [s] is the 32-byte encoding of [P]. *)
Definition encodes (s : list Z) (P : point) : Prop :=
  le_val s = enc P /\ Forall byte s /\ length s = 32%nat.

Lemma unsigned_range (x : F) : 0 <= Zmod.unsigned x < p25519.
Proof. apply Zmod.unsigned_pos_bound. reflexivity. Qed.

Lemma feF_mod f : Zmod.unsigned (feF f) = fe_val f mod p25519.
Proof. apply Zmod.unsigned_of_Z. Qed.

(** ** Inversion *)

Lemma fe_invert_F f : fe_in f fe_wide -> feF f <> 0%F ->
  total (fe_invert f) (fun r => fe_in r fe_tight /\ feF r = (1 / feF f)%F).
Proof.
  intros Bf Hf. eapply total_mono; [apply fe_invert_ok, Bf|]. intros r [Br Hr]. split; [exact Br|].
  unfold feF at 1. rewrite Hr.
  rewrite toF_pow by discriminate. fold (feF f). rewrite Zmod.fermat_inv; [|exact Hf|apply p25519_prime].
  field. exact Hf.
Qed.

Lemma fe_tight_wide f : fe_in f fe_tight -> fe_in f fe_wide.
Proof. apply fe_le_in. vm_compute. reflexivity. Qed.
Lemma fe_small_wide f : fe_in f fe_small -> fe_in f fe_wide.
Proof. apply fe_le_in. vm_compute. reflexivity. Qed.
Lemma fe_tight_loose f : fe_in f fe_tight -> fe_in f fe_loose.
Proof. apply fe_le_in. vm_compute. reflexivity. Qed.

(** [fe_step b rel F]: a field operation with its bound and its equation. *)
Ltac fe_run b rel vl :=
  eapply (fe_total _ _ b); [eapply rel; eassumption|vm_compute; reflexivity|apply vl; auto].
Ltac fe_step b rel vl :=
  eapply total_bind; [fe_run b rel vl|];
  let h := fresh "h" in let B := fresh "B" in let E := fresh "E" in
  intros h [B E]; cbn beta in *.

(** The top byte of a value below 2^255 and the sign bit. *)
Lemma xor_at_top s n : Forall byte s -> length s = 32%nat -> le_val s < 2 ^ 255 -> n = 0 \/ n = 1 ->
  total (xor_at s 31 (Z.shiftl n 7)) (fun r => le_val r = le_val s + 2 ^ 255 * n /\ Forall byte r /\
    length r = 32%nat).
Proof.
  intros Hs Hl Hv Hn. unfold xor_at.
  destruct (nth_error_byte s 31 Hs ltac:(lia)) as [-> Hb].
  assert (s = firstn 31 s ++ [nth 31 s 0]) as Es.
  { rewrite <- (firstn_skipn 31 s) at 1. f_equal.
    pose proof (length_skipn 31 s) as L. rewrite Hl in L.
    destruct (skipn 31 s) as [|b [|? ?]] eqn:Ek; try discriminate L.
    f_equal. change (nth 31 s 0) with (nth (31 + 0) s 0). rewrite <- nth_skipn, Ek. reflexivity. }
  assert (length (firstn 31 s) = 31%nat) as L1 by (rewrite length_firstn, Hl; reflexivity).
  assert (Forall byte (firstn 31 s)) as F1.
  { rewrite Es in Hs. apply Forall_app in Hs. apply Hs. }
  assert (le_val s = le_val (firstn 31 s) + 2 ^ 248 * nth 31 s 0) as Ev.
  { rewrite Es at 1. rewrite le_val_app, L1. cbn [le_val]. change (256 ^ Z.of_nat 31) with (2 ^ 248). lia. }
  pose proof (le_val_range _ F1) as R1. rewrite L1 in R1. change (256 ^ Z.of_nat 31) with (2 ^ 248) in R1.
  rewrite (skipn_all2 s) by lia.
  set (b := nth 31 s 0) in *. clearbody b. unfold byte in Hb.
  assert (0 <= b < 128) as Hb' by (revert R1 Ev Hv; norm_pow2; lia).
  assert (Z.lxor b (Z.shiftl n 7) = b + 128 * n) as X.
  { rewrite Z.lxor_lor.
    - rewrite lor_shift by lia. norm_pow2. lia.
    - destruct Hn as [-> | ->]; [rewrite Z.shiftl_0_l; apply Z.land_0_r|].
      apply Z.bits_inj'. intros k Hk. rewrite Z.land_spec, Z.bits_0.
      change (Z.shiftl 1 7) with (2 ^ 7). rewrite Z.pow2_bits_eqb by lia.
      destruct (Z.eqb_spec 7 k) as [<- | ]; [|apply andb_false_r].
      rewrite <- (Z.mod_small b (2 ^ 7)) by lia. rewrite Z.mod_pow2_bits_high by lia. reflexivity. }
  cbn [obind]. rewrite X, wrap_id by (apply in_ity_spec; cbn; lia).
  apply total_ret. split; [|split].
  - rewrite le_val_app, L1. cbn [le_val]. change (256 ^ Z.of_nat 31) with (2 ^ 248). rewrite Ev.
    norm_pow2. lia.
  - apply Forall_app. split; [exact F1|]. constructor; [unfold byte; lia|constructor].
  - rewrite length_app, L1. reflexivity.
Qed.

(** Both encoders after the inversion: [x] and [y] are the affine coordinates. *)
Lemma encode_ok P x y : fe_in x fe_tight -> fe_in y fe_tight -> feF x = px P -> feF y = py P ->
  total (s <- fe_tobytes y ;; n <- fe_isnegative x ;; xor_at s 31 (Z.shiftl n 7))
    (fun s => encodes s P).
Proof.
  intros Bx By Ex Ey.
  apply fe_tight_loose in Bx. apply fe_tight_loose in By.
  eapply total_bind; [apply fe_tobytes_ok, By|]. intros s (Vs & Hs & Ls). cbn beta.
  rewrite fe_isnegative_ok by assumption. cbn [obind].
  rewrite <- (feF_mod x), Ex. rewrite <- (feF_mod y), Ey in Vs.
  pose proof (unsigned_range (py P)). pose proof (Z.mod_pos_bound (Zmod.unsigned (px P)) 2 ltac:(lia)).
  eapply total_mono; [apply xor_at_top; [assumption..| |lia]|].
  - rewrite Vs. unfold p25519 in *. lia.
  - cbn beta. unfold encodes, enc. rewrite Vs. tauto.
Qed.

Lemma ge_tobytes_ok p P : p2_is p P -> total (ge_tobytes p) (fun s => encodes s P).
Proof.
  intros [[BX BY BZ] [NZ RX RY]]. unfold ge_tobytes. ge_cbn.
  eapply total_bind; [apply fe_invert_F; [apply fe_tight_wide, BZ|exact NZ]|]. intros h [B E].
  fe_step fe_tight fe_mul_rel fe_mul_F.
  fe_step fe_tight fe_mul_rel fe_mul_F.
  apply encode_ok; [assumption..| |].
  - rewrite E0, E, RX. field. exact NZ.
  - rewrite E1, E, RY. field. exact NZ.
Qed.

Lemma ge_p3_tobytes_ok p P : p3_is p P -> total (ge_p3_tobytes p) (fun s => encodes s P).
Proof.
  intros [[BX BY BZ BT] [NZ RX RY RT]]. unfold ge_p3_tobytes. ge_cbn.
  eapply total_bind; [apply fe_invert_F; [apply fe_tight_wide, BZ|exact NZ]|]. intros h [B E].
  fe_step fe_tight fe_mul_rel fe_mul_F.
  fe_step fe_tight fe_mul_rel fe_mul_F.
  apply encode_ok; [assumption..| |].
  - rewrite E0, E, RX. field. exact NZ.
  - rewrite E1, E, RY. field. exact NZ.
Qed.

(** The encoding determines the point. *)
Lemma root_unique (x x' y : F) : on_curve x y -> on_curve x' y -> x = x' \/ x = (- x')%F.
Proof.
  unfold on_curve. intros C C'.
  assert ((1 + ed_d * (y * y)) * ((x - x') * (x + x')) = 0)%F as E.
  { transitivity ((1 + ed_d * (x * x) * (y * y) - (y * y - x * x)) -
      (1 + ed_d * (x' * x') * (y * y) - (y * y - x' * x')))%F; [ring|]. rewrite C, C'. ring. }
  assert (1 + ed_d * (y * y) <> 0)%F as Hv.
  { intros E0. apply F_1_nz. assert (y = 0%F) as ->; [|rewrite <- E0; ring].
    apply (ed_nonsquare ed_i). rewrite ed_i_spec.
    replace (ed_d * (y * y))%F with ((1 + ed_d * (y * y)) - 1)%F by ring. rewrite E0. ring. }
  apply F_mul_0 in E as [E|E]; [contradiction|]. apply F_mul_0 in E as [E|E].
  - left. replace x with ((x - x') + x')%F by ring. rewrite E. ring.
  - right. replace x with ((x + x') - x')%F by ring. rewrite E. ring.
Qed.

Lemma parity_0 : Zmod.unsigned (0%F : F) mod 2 = 0.
Proof. vm_compute. reflexivity. Qed.

(** Opposite residues other than 0 have different parities. *)
Lemma parity_opp (x : F) : x <> 0%F ->
  Zmod.unsigned (- x)%F mod 2 = 1 - Zmod.unsigned x mod 2.
Proof.
  intros Hx. pose proof (unsigned_range x) as R.
  assert (Zmod.unsigned x <> 0) as Hz by (apply Zmod.unsigned_nz, Hx).
  rewrite Zmod.unsigned_opp.
  replace (- Zmod.unsigned x mod p25519) with (p25519 - Zmod.unsigned x).
  - set (z := Zmod.unsigned x) in *. clearbody z. clear x Hx. unfold p25519 in *.
    pose proof (Z.div_mod z 2 ltac:(lia)). pose proof (Z.mod_pos_bound z 2 ltac:(lia)).
    symmetry. apply Z.mod_unique with (q := 2 ^ 254 - 10 - z / 2); [left; lia|]. norm_pow2. lia.
  - apply cong_small; [lia|]. exists 1. lia.
Qed.

Lemma encodes_unique s P Q : encodes s P -> encodes s Q -> P = Q.
Proof.
  intros (EP & _ & _) (EQ & _ & _). rewrite EP in EQ. unfold enc in EQ.
  pose proof (unsigned_range (py P)). pose proof (unsigned_range (py Q)).
  pose proof (Z.mod_pos_bound (Zmod.unsigned (px P)) 2 ltac:(lia)).
  pose proof (Z.mod_pos_bound (Zmod.unsigned (px Q)) 2 ltac:(lia)).
  assert (Zmod.unsigned (py P) = Zmod.unsigned (py Q) /\
          Zmod.unsigned (px P) mod 2 = Zmod.unsigned (px Q) mod 2) as [Ey Ex]
    by (unfold p25519 in *; lia).
  apply Zmod.unsigned_inj in Ey.
  assert (px P = px Q) as E; [|apply point_eq; assumption].
  pose proof (p_curve P) as C. rewrite Ey in C.
  destruct (root_unique _ _ _ C (p_curve Q)) as [E|E]; [exact E|].
  destruct (F_eq_dec (px Q) 0) as [Z|NZ].
  - rewrite E, Z. ring.
  - rewrite E, parity_opp in Ex by assumption. lia.
Qed.

(** ** The square root *)

Section Root.
Local Open Scope F_scope.

Lemma F_pow_3 (x : F) : Zmod.pow x 3 = x * x * x.
Proof. change 3%Z with (Z.succ 2). rewrite Zmod.pow_succ_nonneg_r, Zmod.pow_2_r by discriminate. ring. Qed.

Lemma F_pow_7 (x : F) : Zmod.pow x 7 = x * x * x * (x * x * x) * x.
Proof.
  change 7%Z with (Z.succ (3 + 3)).
  rewrite Zmod.pow_succ_nonneg_r, Zmod.pow_add_r_nonneg, !F_pow_3 by discriminate. ring.
Qed.

(** The exponent of [fe_divpowm1]. *)
Definition root_exp : Z := (p25519 - 5) / 8.

Lemma root_exp_nonneg : (0 <= root_exp)%Z.
Proof. vm_compute. discriminate. Qed.

Definition uv7 (u v : F) : F := u * (v * v * v * (v * v * v) * v).

Lemma fe_divpowm1_F u v : fe_in u fe_wide -> fe_in v fe_wide -> total (fe_divpowm1 u v) (fun r =>
  fe_in r fe_tight /\ feF r = Zmod.pow (uv7 (feF u) (feF v)) root_exp * (feF v * feF v * feF v) * feF u).
Proof.
  intros Bu Bv. eapply total_mono; [apply fe_divpowm1_ok; assumption|]. intros r [Br Hr].
  split; [exact Br|]. unfold feF at 1. rewrite Hr.
  rewrite !toF_mul, (toF_pow _ 3), (toF_pow _ ((p25519 - 5) / 8)), toF_mul, (toF_pow _ 7)
    by first [apply root_exp_nonneg|lia].
  fold (feF u) (feF v) root_exp. rewrite F_pow_3, F_pow_7. reflexivity.
Qed.

(** The square of the candidate misses [u / v] by a fourth root of unity. *)
Lemma candidate_square u v n : (0 <= n)%Z ->
  let x := Zmod.pow (uv7 u v) n * (v * v * v) * u in
  x * x * v = u * Zmod.pow (uv7 u v) (2 * n + 1).
Proof.
  intros Hn x. unfold x. replace (2 * n + 1)%Z with (Z.succ (n + n)) by lia.
  rewrite Zmod.pow_succ_nonneg_r, Zmod.pow_add_r_nonneg by lia.
  generalize (Zmod.pow (uv7 u v) n). intros q. unfold uv7. ring.
Qed.

(** If [u / v] has a square root, that root of unity is 1 or -1. *)
Lemma candidate_sign u v n z : p25519 = (4 * (2 * n + 1) + 1)%Z -> (0 <= n)%Z -> v <> 0 ->
  z * z * v = u -> u <> 0 ->
  Zmod.pow (uv7 u v) (2 * n + 1) = 1 \/ Zmod.pow (uv7 u v) (2 * n + 1) = - (1).
Proof.
  intros Hp Hn Hv Ez Hu. set (w := z * (v * v * v * v)).
  assert (w <> 0) as Hw.
  { unfold w. apply F_mul_nz; [|auto with fe_F nocore]. intros ->. apply Hu. rewrite <- Ez. ring. }
  assert (uv7 u v = w * w) as Ew by (unfold uv7, w; rewrite <- Ez; ring).
  set (q := Zmod.pow (uv7 u v) (2 * n + 1)).
  assert (q * q = 1) as Eq.
  { unfold q. rewrite Ew, Zmod.pow_mul_l_nonneg by lia. rewrite <- !Zmod.pow_add_r_nonneg by lia.
    rewrite <- (Zmod.fermat_nz w Hw p25519_prime). f_equal. lia. }
  assert ((q - 1) * (q + 1) = 0) as E by (transitivity (q * q - 1); [ring|]; rewrite Eq; ring).
  apply F_mul_0 in E as [E|E].
  - left. replace q with ((q - 1) + 1) by ring. rewrite E. ring.
  - right. replace q with ((q + 1) - 1) by ring. rewrite E. ring.
Qed.
End Root.

Lemma isnonzero_F f : fe_in f fe_loose ->
  fe_isnonzero f = Some (if F_eqb (feF f) 0%F then 0 else 1).
Proof.
  intros Hf. rewrite fe_isnonzero_ok by assumption. unfold F_eqb, Zmod.eqb. rewrite feF_mod.
  reflexivity.
Qed.

(** [ge_frombytes_root] finds a square root of [u / v] exactly when there is one. *)
Lemma ge_frombytes_root_ok u v : fe_in u fe_small -> fe_in v fe_small -> feF v <> 0%F ->
  total (ge_frombytes_root u v) (fun r =>
    match r with
    | Some x => fe_in x fe_tight /\ (feF x * feF x * feF v = feF u)%F
    | None => forall z, (z * z * feF v <> feF u)%F
    end).
Proof.
  intros Bu Bv Nv. unfold ge_frombytes_root.
  eapply total_bind; [apply fe_divpowm1_F; apply fe_small_wide; assumption|]. intros h [B E].
  pose proof (candidate_square (feF u) (feF v) root_exp root_exp_nonneg) as Sq. cbv zeta in Sq.
  rewrite <- E in Sq.
  pose proof (fun z => candidate_sign (feF u) (feF v) root_exp z eq_refl root_exp_nonneg Nv) as Sg.
  clear E. set (q := Zmod.pow _ (2 * root_exp + 1)) in *. clearbody q.
  fe_step fe_tight fe_sq_rel fe_sq_F. fe_step fe_tight fe_mul_rel fe_mul_F.
  rewrite E, Sq in E0. fe_step fe_loose fe_sub_rel fe_sub_F.
  rewrite isnonzero_F by assumption. cbn [obind].
  destruct (F_eqb (feF h2) 0%F) eqn:Q1.
  { apply F_eqb_eq in Q1. apply total_ret. split; [assumption|]. rewrite Sq.
    rewrite E1, E0 in Q1. transitivity ((feF u * q - feF u) + feF u)%F; [ring|]. rewrite Q1. ring. }
  cbn [Z.eqb]. fe_step fe_loose fe_add_rel fe_add_F. rewrite isnonzero_F by assumption. cbn [obind].
  destruct (F_eqb (feF h3) 0%F) eqn:Q2.
  - apply F_eqb_eq in Q2. pose proof fe_sqrtm1_rel as Bi.
    eapply total_bind; [fe_run fe_tight fe_mul_rel fe_mul_F|]. intros x [Bx Ex]. cbn beta in *.
    apply total_ret. split; [assumption|]. rewrite Ex, feF_sqrtm1.
    transitivity ((ed_i * ed_i) * (feF h * feF h * feF v))%F; [ring|]. rewrite Sq, ed_i_spec.
    rewrite E2, E0 in Q2. transitivity (feF u - (feF u * q + feF u))%F; [ring|]. rewrite Q2. ring.
  - apply total_ret. intros z Hz.
    assert (feF h2 <> 0%F) as N1 by (intros H%F_eqb_eq; congruence).
    assert (feF h3 <> 0%F) as N2 by (intros H%F_eqb_eq; congruence).
    rewrite E1, E0 in N1. rewrite E2, E0 in N2.
    destruct (F_eq_dec (feF u) 0%F) as [Zu|Nu]; [apply N1; rewrite Zu; ring|].
    destruct (Sg z Hz Nu) as [-> | ->]; [apply N1|apply N2]; ring.
Qed.

(** ** The decoder *)

Lemma ge_frombytes_sign_ok x bit : fe_in x fe_tight -> bit = 0 \/ bit = 1 ->
  total (ge_frombytes_sign x bit) (fun r =>
    match r with
    | Some x' => fe_in x' fe_tight /\ (feF x' = feF x \/ feF x' = - feF x)%F /\
                 Zmod.unsigned (feF x') mod 2 = bit
    | None => feF x = 0%F /\ bit = 1
    end).
Proof.
  intros Bx Hb. unfold ge_frombytes_sign. pose proof (fe_tight_loose x Bx) as Bl.
  rewrite fe_isnegative_ok by assumption. rewrite <- (feF_mod x). cbn [obind].
  destruct (Z.eqb_spec (Zmod.unsigned (feF x) mod 2) bit) as [E|N].
  { apply total_ret. auto. }
  rewrite isnonzero_F by assumption. cbn [obind].
  pose proof (Z.mod_pos_bound (Zmod.unsigned (feF x)) 2 ltac:(lia)).
  destruct (F_eqb (feF x) 0%F) eqn:Q.
  - apply total_ret. apply F_eqb_eq in Q. split; [exact Q|]. rewrite Q in N.
    rewrite parity_0 in N. lia.
  - cbn [Z.eqb]. assert (feF x <> 0%F) as Nx by (intros E%F_eqb_eq; congruence).
    clear Bl. eapply total_bind; [fe_run fe_tight fe_neg_rel fe_neg_F|]. intros x' [Bx' Ex']. cbn beta in *.
    apply total_ret. split; [assumption|]. split; [auto|]. rewrite Ex', parity_opp by assumption. lia.
Qed.

Section CurveRoot.
Local Open Scope F_scope.
Lemma curve_root x y : on_curve x y <-> x * x * (ed_d * (y * y) + 1) = y * y - 1.
Proof.
  unfold on_curve. split; intros E.
  - transitivity (1 + ed_d * (x * x) * (y * y) + x * x - 1); [ring|]. rewrite <- E. ring.
  - transitivity (1 + (y * y - 1) - x * x); [ring|]. rewrite <- E. ring.
Qed.

Lemma root_denominator y : ed_d * (y * y) + 1 <> 0.
Proof.
  intros E0. apply F_1_nz. assert (y = 0) as ->; [|rewrite <- E0; ring].
  apply (ed_nonsquare ed_i). rewrite ed_i_spec.
  replace (ed_d * (y * y)) with ((ed_d * (y * y) + 1) - 1) by ring. rewrite E0. ring.
Qed.
End CurveRoot.

(** The two parts of an encoding. *)
Lemma encodes_split s P : Forall byte s -> length s = 32%nat ->
  encodes s P <-> le_val s mod 2 ^ 255 = Zmod.unsigned (py P) /\
                  Z.shiftr (nth 31 s 0) 7 = Zmod.unsigned (px P) mod 2.
Proof.
  intros Hs Hl. pose proof (nth_byte s Hs 31) as B. pose proof (bytes_range s 32 Hs Hl) as R.
  change (8 * Z.of_nat 32) with 256 in R.
  assert (Z.shiftr (nth 31 s 0) 7 = le_val s / 2 ^ 255) as ->.
  { rewrite Z.shiftr_div_pow2 by lia.
    pose proof (le_val_skipn s 31 Hs) as K. change (8 * Z.of_nat 31) with 248 in K.
    change (nth 31 s 0) with (nth (31 + 0) s 0). rewrite nth_skipn_0.
    pose proof (length_skipn 31 s) as L. rewrite Hl in L.
    destruct (skipn 31 s) as [|b [|? ?]]; try discriminate L. cbn [le_val] in K. cbn [nth].
    replace b with (le_val s / 2 ^ 248) by lia. rewrite Z.div_div by lia. reflexivity. }
  pose proof (Z.div_mod (le_val s) (2 ^ 255) ltac:(lia)) as D.
  pose proof (Z.mod_pos_bound (le_val s) (2 ^ 255) ltac:(lia)).
  pose proof (unsigned_range (py P)) as Y.
  pose proof (Z.mod_pos_bound (Zmod.unsigned (px P)) 2 ltac:(lia)).
  unfold encodes, enc, p25519 in *. split.
  - intros (E & _ & _). lia.
  - intros (E1 & E2). split; [|auto]. lia.
Qed.

Lemma ge_frombytes_vartime_ok s : Forall byte s -> length s = 32%nat ->
  total (ge_frombytes_vartime s) (fun r =>
    match r with
    | Some h => exists P, p3_is h P /\ encodes s P
    | None => forall P, ~ encodes s P
    end).
Proof.
  intros Hs Hl. pose proof (fe_frombytes_ok s Hs Hl) as FB. unfold ge_frombytes_vartime.
  pose proof (fun P => encodes_split s P Hs Hl) as EnS.
  rewrite fe_frombytes_load_ok in FB |- * by assumption.
  cbn [obind] in *. rewrite fe_not_canonical_spec by assumption.
  destruct (Z.leb_spec p25519 (le_val s mod 2 ^ 255)) as [NC|Can].
  { apply total_ret. intros P [E1 _]%EnS. pose proof (unsigned_range (py P)). lia. }
  eapply total_bind; [exact FB|]. clear FB. intros hY [BY EY]. cbn beta zeta in *.
  set (y := feF hY). assert (Zmod.unsigned y = le_val s mod 2 ^ 255) as Uy.
  { unfold y. rewrite feF_mod. symmetry. apply cong_small; [|symmetry; exact EY].
    split; [|exact Can]. apply Z.mod_pos_bound. lia. }
  fe_step fe_tight fe_sq_rel fe_sq_F. pose proof fe_d_rel as Bd. pose proof fe_1_rel as B1.
  fe_step fe_tight fe_mul_rel fe_mul_F.
  fe_step fe_small fe_sub_rel fe_sub_F. fe_step fe_small fe_add_rel fe_add_F.
  rewrite feF_1 in *. rewrite feF_d in *. rewrite E0, E in E2. rewrite E in E1. fold y in E1, E2.
  assert (feF h2 = ed_d * (y * y) + 1)%F as V by (rewrite E2; ring).
  eapply total_bind; [apply ge_frombytes_root_ok; [assumption..|rewrite V; apply root_denominator]|].
  intros [x|]; cbn beta; rewrite E1, V.
  2:{ intros NR. apply total_ret. intros P [Ey _]%EnS. rewrite <- Uy in Ey.
      apply Zmod.unsigned_inj in Ey. apply (NR (px P)), curve_root. rewrite Ey. apply p_curve. }
  intros [Bx Cx%curve_root].
  destruct (nth_error_byte s 31 Hs ltac:(lia)) as [-> B31]. cbn [obind].
  eapply total_bind; [apply ge_frombytes_sign_ok; [exact Bx|]|].
  { unfold byte in B31. rewrite Z.shiftr_div_pow2 by lia. change (2 ^ 7) with 128.
    assert (0 <= nth 31 s 0 / 128 < 2); [|lia].
    split; [apply Z.div_pos; lia|apply Z.div_lt_upper_bound; lia]. }
  intros [x'|]; cbn beta.
  - intros (Bx' & Sx & Par). fe_step fe_tight fe_mul_rel fe_mul_F. apply total_ret.
    assert (on_curve (feF x') y) as Cx'.
    { destruct Sx as [-> | ->]; [exact Cx|apply opp_on_curve, Cx]. }
    exists (mk_point _ _ (proj2 (on_curveb_ok _ _) Cx')). split.
    + split; split; ge_cbn; cbn [px py]; try assumption; rewrite ?feF_1;
        first [apply fe_1_tight|exact F_1_nz|fold y; ring|rewrite E3; fold y; ring].
    + apply EnS. cbn [px py]. rewrite Uy, Par. auto.
  - intros [Zx Bit]. apply total_ret. intros P [Ey Ex]%EnS. rewrite <- Uy in Ey.
    apply Zmod.unsigned_inj in Ey. rewrite Bit in Ex. pose proof (p_curve P) as C. rewrite <- Ey in C.
    destruct (root_unique _ _ _ C Cx) as [E'|E']; rewrite E', Zx, ?Zmod.opp_zero, parity_0 in Ex; discriminate Ex.
Qed.
