(* ===== verification/Digits.v ===== *)
(** * Signed digits of scalars (crypto-ops.c)

    The three recodings of a 32-byte scalar: the radix-16 digits of
    [ge_scalarmult_base] and of [ge_scalarmult], and [slide], the sliding window
    of the variable-time multiplications.  The theorems: the digits are in
    range and sum up to the scalar. *)

From Stdlib Require Import ZArith Lia List Bool.
Import ListNotations.
From S2P Require Import Prelude.
Set Default Goal Selector "!".

(** ** Positional values *)

(** The value of digits in radix [b], least significant first. *)
Fixpoint digits_val (b : Z) (ds : list Z) : Z :=
  match ds with [] => 0 | d :: ds => d + b * digits_val b ds end.

Lemma digits_val_app b ds es :
  digits_val b (ds ++ es) = digits_val b ds + b ^ Z.of_nat (length ds) * digits_val b es.
Proof.
  induction ds as [|d ds IH]; cbn [digits_val app length]; [rewrite Z.pow_0_r; lia|].
  rewrite IH, Nat2Z.inj_succ, Z.pow_succ_r by lia. ring.
Qed.

(** ** Radix 16, as [ge_scalarmult] writes them *)

(** [(signed char) v] *)
Definition schar (v : Z) : Z := wrap I8 v.

Lemma schar_id v : -128 <= v <= 127 -> schar v = v.
Proof. intros H. apply wrap_id, in_ity_spec. cbn. lia. Qed.

(** The loop over [a[0] .. a[30]]: the digits [e[2 i]], [e[2 i + 1]] and the last carry. *)
Fixpoint sm_recode (bs : list Z) (carry : Z) : list Z * Z :=
  match bs with
  | [] => ([], carry)
  | a :: bs =>
      let carry := carry + a in
      let carry2 := Z.shiftr (carry + 8) 4 in
      let e0 := schar (carry - Z.shiftl carry2 4) in
      let carry := Z.shiftr (carry2 + 8) 4 in
      let e1 := schar (carry2 - Z.shiftl carry 4) in
      let '(es, c) := sm_recode bs carry in (e0 :: e1 :: es, c)
  end.

Definition sm_digits (a : list Z) : list Z :=
  let '(e, carry) := sm_recode (firstn 31 a) 0 in
  let carry := carry + nth 31 a 0 in
  let carry2 := Z.shiftr (carry + 8) 4 in
  e ++ [schar (carry - Z.shiftl carry2 4); schar carry2].

(** ** Radix 16, as [ge_scalarmult_base] writes them *)

(** [e[2 i]], [e[2 i + 1]]: the nibbles of the scalar. *)
Fixpoint smb_nibbles (a : list Z) : list Z :=
  match a with
  | [] => []
  | b :: a => schar (Z.land (Z.shiftr b 0) 15) :: schar (Z.land (Z.shiftr b 4) 15) :: smb_nibbles a
  end.

(** The loop over [e[0] .. e[62]], then [e[63] += carry]. *)
Fixpoint smb_carry (e : list Z) (carry : Z) : list Z :=
  match e with
  | [] => []
  | [x] => [schar (x + carry)]
  | x :: e =>
      let x := schar (x + carry) in
      let carry := schar (x + 8) in
      let carry := schar (Z.shiftr carry 4) in
      schar (x - Z.shiftl carry 4) :: smb_carry e carry
  end.

Definition smb_digits (a : list Z) : list Z := smb_carry (smb_nibbles a) 0.

(** A digit of the fixed windows. *)
Definition digit8 (e : Z) : Prop := -8 <= e <= 8.

Lemma nibble_split b c : 0 <= b < 256 -> 0 <= c <= 1 ->
  let s := c + b in let c2 := (s + 8) / 16 in let c' := (c2 + 8) / 16 in
  -8 <= s - c2 * 16 <= 7 /\ -8 <= c2 - c' * 16 <= 7 /\ 0 <= c' <= 1 /\
  s = (s - c2 * 16) + 16 * (c2 - c' * 16) + 256 * c'.
Proof.
  intros Hb Hc. cbv zeta.
  pose proof (Z.div_mod (c + b + 8) 16 ltac:(lia)). pose proof (Z.mod_pos_bound (c + b + 8) 16 ltac:(lia)).
  set (q := (c + b + 8) / 16) in *. clearbody q.
  pose proof (Z.div_mod (q + 8) 16 ltac:(lia)). pose proof (Z.mod_pos_bound (q + 8) 16 ltac:(lia)). lia.
Qed.

Ltac shifts4 := rewrite ?(Z.shiftr_div_pow2 _ 4), ?(Z.shiftl_mul_pow2 _ 4) by lia; change (2 ^ 4) with 16.

Lemma sm_recode_ok bs : forall c, Forall byte bs -> 0 <= c <= 1 ->
  let '(es, c') := sm_recode bs c in
  length es = (2 * length bs)%nat /\ Forall digit8 es /\ 0 <= c' <= 1 /\
  digits_val 16 es + 16 ^ Z.of_nat (length es) * c' = le_val bs + c.
Proof.
  induction bs as [|b bs IH]; intros c Hs Hc; cbn [sm_recode].
  { cbn. split; [reflexivity|]. split; [constructor|]. lia. }
  inversion_clear Hs as [|? ? Hb Hs']. unfold byte in Hb.
  pose proof (nibble_split b c Hb Hc) as N. cbv zeta in N. shifts4.
  set (c2 := (c + b + 8) / 16) in *. set (c' := (c2 + 8) / 16) in *.
  rewrite !schar_id by lia. specialize (IH c' Hs' ltac:(lia)).
  destruct (sm_recode bs c') as [es c'']. destruct IH as (L & D & C & V).
  cbn [length digits_val le_val]. rewrite L. split; [lia|]. split; [|split; [exact C|]].
  - repeat constructor; try lia. exact D.
  - rewrite !Nat2Z.inj_succ, !Z.pow_succ_r by lia. rewrite L in V. nia.
Qed.

Lemma sm_digits_ok a : Forall byte a -> length a = 32%nat -> nth 31 a 0 <= 127 ->
  length (sm_digits a) = 64%nat /\ Forall digit8 (sm_digits a) /\
  digits_val 16 (sm_digits a) = le_val a.
Proof.
  intros Ha Hl Ht. unfold sm_digits.
  assert (a = firstn 31 a ++ [nth 31 a 0]) as Ea.
  { do 32 (destruct a as [|? a]; [discriminate Hl|]). destruct a; [reflexivity|discriminate Hl]. }
  set (top := nth 31 a 0) in *. set (bs := firstn 31 a) in *.
  assert (Forall byte bs /\ byte top) as [Hb Hbt].
  { rewrite Ea in Ha. apply Forall_app in Ha as [H1 H2]. inversion_clear H2. auto. }
  assert (length bs = 31%nat) as Lb by (unfold bs; rewrite length_firstn, Hl; reflexivity).
  pose proof (sm_recode_ok bs 0 Hb ltac:(lia)) as R. destruct (sm_recode bs 0) as [es c].
  destruct R as (L & D & C & V). rewrite Lb in L. unfold byte in Hbt. shifts4.
  pose proof (nibble_split top c Hbt C) as N. cbv zeta in N.
  set (c2 := (c + top + 8) / 16) in *.
  assert (0 <= c2 < 9) by (split; [apply Z.div_pos; lia|apply Z.div_lt_upper_bound; lia]).
  rewrite !schar_id by lia. rewrite length_app, L. split; [reflexivity|]. split.
  - apply Forall_app. split; [exact D|]. repeat constructor; unfold digit8; lia.
  - rewrite digits_val_app, Ea, le_val_app, L, Lb. rewrite L in V. cbn [digits_val le_val].
    change (16 ^ Z.of_nat (2 * 31)) with (2 ^ 248) in *. change (256 ^ Z.of_nat 31) with (2 ^ 248).
    revert V. norm_pow2. lia.
Qed.

Lemma land_15 z : Z.land z 15 = z mod 16.
Proof. change 15 with (Z.ones 4). apply Z.land_ones. lia. Qed.

Lemma smb_nibbles_ok a : Forall byte a ->
  length (smb_nibbles a) = (2 * length a)%nat /\ Forall (fun e => 0 <= e <= 15) (smb_nibbles a) /\
  digits_val 16 (smb_nibbles a) = le_val a.
Proof.
  induction 1 as [|b a Hb Ha IH]; cbn [smb_nibbles length digits_val le_val]; [auto|].
  destruct IH as (L & D & V). unfold byte in Hb. rewrite Z.shiftr_0_r.
  rewrite !land_15, Z.shiftr_div_pow2 by lia. change (2 ^ 4) with 16.
  pose proof (Z.mod_pos_bound b 16 ltac:(lia)). pose proof (Z.mod_pos_bound (b / 16) 16 ltac:(lia)).
  rewrite !schar_id by lia. split; [lia|]. split; [repeat constructor; auto; lia|].
  rewrite V. pose proof (Z.div_mod b 16 ltac:(lia)).
  rewrite (Z.mod_small (b / 16)); [lia|]. split; [apply Z.div_pos; lia|apply Z.div_lt_upper_bound; lia].
Qed.

Lemma smb_carry_ok e : forall c, Forall (fun e => 0 <= e <= 15) e -> 0 <= c <= 1 ->
  (1 <= length e)%nat -> last e 0 <= 7 ->
  length (smb_carry e c) = length e /\ Forall digit8 (smb_carry e c) /\
  digits_val 16 (smb_carry e c) = digits_val 16 e + c.
Proof.
  induction e as [|x [|y e] IH]; intros c He Hc Hl Ht; [cbn in Hl; lia| |].
  - inversion_clear He as [|? ? Hx _]. cbn [smb_carry length digits_val last] in *.
    rewrite schar_id by lia. split; [reflexivity|]. split; [repeat constructor; lia|lia].
  - inversion_clear He as [|? ? Hx He'].
    change (smb_carry (x :: y :: e) c) with
      (let x := schar (x + c) in let carry := schar (x + 8) in let carry := schar (Z.shiftr carry 4) in
       schar (x - Z.shiftl carry 4) :: smb_carry (y :: e) carry).
    cbv zeta. shifts4.
    rewrite !(schar_id (x + c)), (schar_id (x + c + 8)) by lia.
    pose proof (Z.div_mod (x + c + 8) 16 ltac:(lia)). pose proof (Z.mod_pos_bound (x + c + 8) 16 ltac:(lia)).
    set (q := (x + c + 8) / 16) in *. assert (0 <= q <= 1) by lia. clearbody q.
    rewrite !(schar_id q), schar_id by lia.
    specialize (IH q He' ltac:(lia) ltac:(cbn; lia) Ht). destruct IH as (L & D & V).
    cbn [length digits_val] in *. rewrite L. split; [reflexivity|]. split; [constructor; [unfold digit8; lia|exact D]|].
    rewrite V. lia.
Qed.

Lemma smb_digits_ok a : Forall byte a -> length a = 32%nat -> nth 31 a 0 <= 127 ->
  length (smb_digits a) = 64%nat /\ Forall digit8 (smb_digits a) /\
  digits_val 16 (smb_digits a) = le_val a.
Proof.
  intros Ha Hl Ht. destruct (smb_nibbles_ok a Ha) as (L & D & V).
  assert (last (smb_nibbles a) 0 <= 7) as Hlast.
  { clear L D V. do 32 (destruct a as [|? a]; [discriminate Hl|]). destruct a; [|discriminate Hl].
    cbn [nth smb_nibbles last] in *.
    repeat (lazymatch goal with H : Forall byte (_ :: _ :: _) |- _ => inversion_clear H as [|? ? _ Ha'] end; rename Ha' into Ha).
    inversion_clear Ha as [|? ? Hb _]. unfold byte in Hb.
    rewrite land_15, Z.shiftr_div_pow2 by lia. change (2 ^ 4) with 16.
    match goal with |- schar (?z / 16 mod 16) <= 7 =>
      assert (0 <= z / 16 < 8) by (split; [apply Z.div_pos; lia|apply Z.div_lt_upper_bound; lia]);
      rewrite Z.mod_small by lia; rewrite schar_id by lia; lia end. }
  unfold smb_digits. rewrite Hl in L. destruct (smb_carry_ok (smb_nibbles a) 0) as (L' & D' & V');
    [assumption|lia|lia|assumption|]. rewrite L', V', L, V. split; [reflexivity|]. split; [exact D'|lia].
Qed.

(** ** The sliding window *)

(** [r[i] = v] *)
Definition upd (i : nat) (v : Z) (r : list Z) : list Z := firstn i r ++ v :: skipn (S i) r.

Section Slide.
(** The length of the array [r]: 256 in the code. *)
Context (lim : nat).

(** [for (k = i + b; k < 256; ++k) { if (!r[k]) { r[k] = 1; break; } r[k] = 0; }] with [n]
    iterations left. *)
Fixpoint slide_carry (n k : nat) (r : list Z) : list Z :=
  match n with
  | O => r
  | S n => if nth k r 0 =? 0 then upd k 1 r else slide_carry n (S k) (upd k 0 r)
  end.

(** [for (b = 1; b <= 6 && i + b < 256; ++b)] with [n] iterations left at [b]. *)
Fixpoint slide_window (n b i : nat) (r : list Z) : list Z :=
  match n with
  | O => r
  | S n =>
    if (i + b <? lim)%nat then
      let ri := nth i r 0 in let rb := nth (i + b) r 0 in let sh := Z.shiftl rb (Z.of_nat b) in
      if rb =? 0 then slide_window n (S b) i r
      else if ri + sh <=? 15 then slide_window n (S b) i (upd (i + b) 0 (upd i (schar (ri + sh)) r))
      else if -15 <=? ri - sh then
        slide_window n (S b) i (slide_carry (lim - (i + b)) (i + b) (upd i (schar (ri - sh)) r))
      else r
    else r
  end.

(** One iteration of the outer loop. *)
Definition slide_at (r : list Z) (i : nat) : list Z :=
  if nth i r 0 =? 0 then r else slide_window 6 1 i r.
End Slide.

(** The bits of the scalar. *)
Definition slide_bits (a : list Z) : list Z :=
  map (fun i => schar (Z.land 1 (Z.shiftr (nth (i / 8) a 0) (Z.of_nat (i mod 8))))) (seq 0 256).

Definition slide (a : list Z) : list Z := fold_left (slide_at 256) (seq 0 256) (slide_bits a).

(** A digit of the sliding windows. *)
Definition digit15 (e : Z) : Prop := e = 0 \/ -15 <= e <= 15 /\ Z.odd e = true.
Definition bit (b : Z) : Prop := b = 0 \/ b = 1.

(** The processed digits before [i] play no further role. *)
Lemma nth_pre (p r : list Z) k : nth (length p + k) (p ++ r) 0 = nth k r 0.
Proof. rewrite app_nth2_plus. reflexivity. Qed.

Lemma upd_pre p r k v : upd (length p + k) v (p ++ r) = p ++ upd k v r.
Proof.
  unfold upd. rewrite firstn_app_2, <- app_assoc. f_equal. f_equal. f_equal.
  rewrite <- Nat.add_succ_r, skipn_app, skipn_all2 by lia. cbn [app]. f_equal. lia.
Qed.

Lemma slide_carry_pre p n : forall k r,
  slide_carry n (length p + k) (p ++ r) = p ++ slide_carry n k r.
Proof.
  induction n as [|n IH]; intros k r; cbn [slide_carry]; [reflexivity|].
  rewrite nth_pre, !upd_pre, <- Nat.add_succ_r, IH. destruct (_ =? 0); reflexivity.
Qed.

Lemma slide_window_pre p m n : forall b r,
  slide_window (length p + m) n b (length p) (p ++ r) = p ++ slide_window m n b 0 r.
Proof.
  induction n as [|n IH]; intros b r; cbn [slide_window]; [reflexivity|].
  replace (length p + b <? length p + m)%nat with (0 + b <? m)%nat
    by (destruct (Nat.ltb_spec (0 + b) m), (Nat.ltb_spec (length p + b) (length p + m)); lia).
  destruct (0 + b <? m)%nat; [|reflexivity].
  pose proof (nth_pre p r 0) as N0. rewrite Nat.add_0_r in N0.
  pose proof (fun v => upd_pre p r 0 v) as U0. rewrite Nat.add_0_r in U0.
  cbv zeta. rewrite nth_pre, N0, !U0, upd_pre, slide_carry_pre, !IH. cbn [Nat.add].
  replace (length p + m - (length p + b))%nat with (m - b)%nat by lia.
  destruct (_ =? 0); [reflexivity|]. destruct (_ <=? 15); [reflexivity|].
  destruct (-15 <=? _); reflexivity.
Qed.

Lemma slide_at_pre p m r : slide_at (length p + m) (p ++ r) (length p) = p ++ slide_at m r 0.
Proof.
  unfold slide_at. pose proof (nth_pre p r 0) as N0. rewrite Nat.add_0_r in N0.
  rewrite N0, slide_window_pre. destruct (_ =? 0); reflexivity.
Qed.

(** The carry of the window is an increment of the remaining bits. *)
Fixpoint incr (r : list Z) : list Z :=
  match r with [] => [] | b :: r => if b =? 0 then 1 :: r else 0 :: incr r end.

Lemma slide_carry_incr r : slide_carry (length r) 0 r = incr r.
Proof.
  induction r as [|b r IH]; [reflexivity|]. cbn [length slide_carry incr nth].
  change (upd 0 1 (b :: r)) with (1 :: r). change (upd 0 0 (b :: r)) with ([0] ++ r).
  pose proof (slide_carry_pre [0] (length r) 0 r) as E. cbn [length Nat.add] in E.
  rewrite E, IH. reflexivity.
Qed.

Lemma incr_ok r : Forall bit r ->
  length (incr r) = length r /\ Forall bit (incr r) /\
  (digits_val 2 r + 1 < 2 ^ Z.of_nat (length r) -> digits_val 2 (incr r) = digits_val 2 r + 1).
Proof.
  induction 1 as [|b r Hb Hr IH]; cbn [incr length digits_val]; [cbn; auto with zarith|].
  destruct IH as (L & B & V). destruct Hb as [-> | ->]; cbn [Z.eqb length digits_val].
  - split; [reflexivity|]. split; [constructor; [right; reflexivity|assumption]|lia].
  - rewrite L. split; [reflexivity|]. split; [constructor; [left; reflexivity|assumption]|].
    rewrite Nat2Z.inj_succ, Z.pow_succ_r by lia. intros H. rewrite V by lia. lia.
Qed.

(** The steps of the window on a list with at least five entries. *)
Section Window.
Context (e x1 x2 x3 x4 : Z) (rest : list Z).
Let m := (5 + length rest)%nat.

Lemma win_1 n : bit x1 -> 0 <= e <= 1 ->
  slide_window m (S n) 1 0 (e :: x1 :: x2 :: x3 :: x4 :: rest) =
  slide_window m n 2 0 (e + 2 * x1 :: 0 :: x2 :: x3 :: x4 :: rest).
Proof.
  intros Hx He. unfold m. cbn [slide_window Nat.add Nat.ltb Nat.leb nth Z.of_nat].
  destruct Hx as [-> | ->]; cbn [Z.eqb]; [rewrite Z.mul_0_r, Z.add_0_r; reflexivity|].
  change (Z.shiftl 1 _) with 2. destruct (Z.leb_spec (e + 2) 15); [|lia].
  rewrite schar_id by lia. reflexivity.
Qed.
Lemma win_2 n : bit x2 -> 0 <= e <= 3 ->
  slide_window m (S n) 2 0 (e :: x1 :: x2 :: x3 :: x4 :: rest) =
  slide_window m n 3 0 (e + 4 * x2 :: x1 :: 0 :: x3 :: x4 :: rest).
Proof.
  intros Hx He. unfold m. cbn [slide_window Nat.add Nat.ltb Nat.leb nth Z.of_nat].
  destruct Hx as [-> | ->]; cbn [Z.eqb]; [rewrite Z.mul_0_r, Z.add_0_r; reflexivity|].
  change (Z.shiftl 1 _) with 4. destruct (Z.leb_spec (e + 4) 15); [|lia].
  rewrite schar_id by lia. reflexivity.
Qed.
Lemma win_3 n : bit x3 -> 0 <= e <= 7 ->
  slide_window m (S n) 3 0 (e :: x1 :: x2 :: x3 :: x4 :: rest) =
  slide_window m n 4 0 (e + 8 * x3 :: x1 :: x2 :: 0 :: x4 :: rest).
Proof.
  intros Hx He. unfold m. cbn [slide_window Nat.add Nat.ltb Nat.leb nth Z.of_nat].
  destruct Hx as [-> | ->]; cbn [Z.eqb]; [rewrite Z.mul_0_r, Z.add_0_r; reflexivity|].
  change (Z.shiftl 1 _) with 8. destruct (Z.leb_spec (e + 8) 15); [|lia].
  rewrite schar_id by lia. reflexivity.
Qed.
Lemma win_4 n : bit x4 -> 1 <= e <= 15 ->
  slide_window m (S n) 4 0 (e :: x1 :: x2 :: x3 :: x4 :: rest) =
  slide_window m n 5 0
    (e - 16 * x4 :: x1 :: x2 :: x3 :: 0 :: if x4 =? 0 then rest else incr rest).
Proof.
  intros Hx He. unfold m. cbn [slide_window Nat.add Nat.ltb Nat.leb nth Z.of_nat].
  destruct Hx as [-> | ->]; cbn [Z.eqb]; [rewrite Z.mul_0_r, Z.sub_0_r; reflexivity|].
  change (Z.shiftl 1 _) with 16. destruct (Z.leb_spec (e + 16) 15); [lia|].
  destruct (Z.leb_spec (-15) (e - 16)); [|lia]. rewrite schar_id by lia. f_equal.
  change (upd 0 (e - 16) (e :: x1 :: x2 :: x3 :: 1 :: rest)) with
    ([e - 16; x1; x2; x3] ++ 1 :: rest).
  pose proof (slide_carry_pre [e - 16; x1; x2; x3] (length (1 :: rest)) 0 (1 :: rest)) as E.
  rewrite slide_carry_incr in E. cbn [length Nat.add] in *.
  replace (S (S (S (S (S (length rest))))) - 4)%nat with (S (length rest)) by lia.
  rewrite E. reflexivity.
Qed.

Lemma win_stop : -15 <= e <= 15 -> Forall bit rest ->
  slide_window m 2 5 0 (e :: x1 :: x2 :: x3 :: x4 :: rest) = e :: x1 :: x2 :: x3 :: x4 :: rest.
Proof.
  intros He Hr. assert (forall k, bit (nth k rest 0)) as B.
  { intros k. destruct (nth_in_or_default k rest 0) as [H|H]; [|left; exact H].
    eapply Forall_forall; eassumption. }
  assert (forall z, bit z -> (z =? 0) = false -> z = 1) as One.
  { intros z [-> | ->]; [discriminate|reflexivity]. }
  cbn [slide_window]. destruct (0 + 5 <? m)%nat; [|reflexivity]. cbn [Nat.add nth].
  destruct (nth 0 rest 0 =? 0) eqn:Q5.
  - destruct (6 <? m)%nat; [|reflexivity]. destruct (nth 1 rest 0 =? 0) eqn:Q6; [reflexivity|].
    rewrite (One _ (B 1%nat) Q6). change (Z.shiftl 1 (Z.of_nat 6)) with 64.
    destruct (Z.leb_spec (e + 64) 15); [lia|]. destruct (Z.leb_spec (-15) (e - 64)); [lia|reflexivity].
  - rewrite (One _ (B 0%nat) Q5). change (Z.shiftl 1 (Z.of_nat 5)) with 32.
    destruct (Z.leb_spec (e + 32) 15); [lia|]. destruct (Z.leb_spec (-15) (e - 32)); [lia|reflexivity].
Qed.
End Window.

(** What one iteration of the outer loop makes of the remaining bits [r]: a digit and fewer
    bits, of the same value, as long as that value is at most half of the range. *)
Definition slide_step_post (r t : list Z) : Prop :=
  match t with
  | [] => False
  | e :: t => length r = S (length t) /\ digit15 e /\ Forall bit t /\
      digits_val 2 r = e + 2 * digits_val 2 t /\
      (t <> [] -> digits_val 2 t <= 2 ^ (Z.of_nat (length t) - 1))
  end.

Lemma slide_at_long b0 b1 b2 b3 b4 rest :
  bit b0 -> bit b1 -> bit b2 -> bit b3 -> bit b4 -> Forall bit rest ->
  slide_at (5 + length rest) (b0 :: b1 :: b2 :: b3 :: b4 :: rest) 0 =
  if b0 =? 0 then b0 :: b1 :: b2 :: b3 :: b4 :: rest
  else b0 + 2 * b1 + 4 * b2 + 8 * b3 - 16 * b4 :: 0 :: 0 :: 0 :: 0 ::
         if b4 =? 0 then rest else incr rest.
Proof.
  intros H0 H1 H2 H3 H4 Hr. unfold slide_at. cbn [nth].
  destruct (b0 =? 0) eqn:Q; [reflexivity|]. apply Z.eqb_neq in Q. unfold bit in *.
  rewrite win_1 by (assumption || lia). rewrite win_2 by (assumption || lia).
  rewrite win_3 by (assumption || lia). rewrite win_4 by (assumption || lia).
  destruct (incr_ok rest Hr) as (L & B & _).
  destruct (b4 =? 0)%Z; [apply win_stop; [lia|assumption]|].
  rewrite <- L. apply win_stop; [lia|assumption].
Qed.

Lemma digits_val_bits r : Forall bit r -> 0 <= digits_val 2 r < 2 ^ Z.of_nat (length r).
Proof.
  induction 1 as [|b r Hb _ IH]; cbn [digits_val length]; [cbn; lia|].
  rewrite Nat2Z.inj_succ, Z.pow_succ_r by lia. destruct Hb as [-> | ->]; lia.
Qed.

(** A list of fewer than five bits is read off at once. *)
Lemma slide_at_short r : Forall bit r -> r <> [] -> (length r < 5)%nat ->
  digits_val 2 r <= 2 ^ (Z.of_nat (length r) - 1) -> slide_step_post r (slide_at (length r) r 0).
Proof.
  intros Hr Hn Hl. destruct r as [|b0 [|b1 [|b2 [|b3 [|b4 r]]]]]; cbn in Hl; try lia; [contradiction|..];
  repeat match goal with H : Forall bit (_ :: _) |- _ => inversion_clear H end; clear Hn Hl;
  repeat match goal with H : bit ?b |- _ => destruct H as [-> | ->] end;
  intros Hv; vm_compute in Hv; try (exfalso; apply Hv; reflexivity); vm_compute;
  repeat split; try (left; reflexivity); try (right; split; [split; discriminate|reflexivity]);
  try (repeat constructor; fail); try discriminate;
  repeat (apply Forall_cons; [left; reflexivity|]); try apply Forall_nil.
Qed.

Lemma pow2_even n : n = 0%nat \/ exists K, 2 ^ Z.of_nat n = 2 * K.
Proof.
  destruct n as [|n]; [auto|right]. exists (2 ^ Z.of_nat n).
  rewrite Nat2Z.inj_succ, Z.pow_succ_r by lia. reflexivity.
Qed.

Lemma slide_at_ok r : Forall bit r -> r <> [] -> digits_val 2 r <= 2 ^ (Z.of_nat (length r) - 1) ->
  slide_step_post r (slide_at (length r) r 0).
Proof.
  intros Hr Hn Hv. destruct (Nat.lt_ge_cases (length r) 5); [apply slide_at_short; assumption|].
  destruct r as [|b0 [|b1 [|b2 [|b3 [|b4 rest]]]]]; cbn [length] in *; try lia. clear Hn H.
  inversion_clear Hr as [|? ? H0 H]. inversion_clear H as [|? ? H1 H'].
  inversion_clear H' as [|? ? H2 H]. inversion_clear H as [|? ? H3 H'].
  inversion_clear H' as [|? ? H4 Hr].
  pose proof (slide_at_long b0 b1 b2 b3 b4 rest H0 H1 H2 H3 H4 Hr) as SL. cbn [Nat.add] in SL.
  rewrite SL. clear SL.
  unfold bit in H0, H1, H2, H3, H4. pose proof (digits_val_bits rest Hr) as R. destruct (incr_ok rest Hr) as (L & B & V).
  set (n := length rest) in *. set (W := digits_val 2 rest) in *.
  cbn [digits_val] in Hv. fold W in Hv.
  replace (Z.of_nat (S (S (S (S (S n))))) - 1) with (4 + Z.of_nat n) in Hv by lia.
  rewrite Z.pow_add_r in Hv by lia. change (2 ^ 4) with 16 in Hv.
  assert (Forall bit [b1; b2; b3; b4] /\ Forall bit [0; 0; 0; 0]) as [Hb Hz]
    by (split; repeat (apply Forall_cons; [assumption || (left; reflexivity)|]); apply Forall_nil).
  destruct (Z.eqb_spec b0 0) as [E0|N0].
  { cbn [slide_step_post length digits_val]. fold n W. split; [reflexivity|]. split; [left; exact E0|].
    split; [exact (proj2 (Forall_app bit [b1; b2; b3; b4] rest) (conj Hb Hr))|]. split; [lia|].
    intros _. replace (Z.of_nat (S (S (S (S n)))) - 1) with (3 + Z.of_nat n) by lia.
    rewrite Z.pow_add_r by lia. change (2 ^ 3) with 8. lia. }
  cbn [slide_step_post length digits_val].
  assert (digit15 (b0 + 2 * b1 + 4 * b2 + 8 * b3 - 16 * b4)) as D.
  { right. split; [lia|]. rewrite Z.odd_spec. exists (b1 + 2 * b2 + 4 * b3 - 8 * b4). lia. }
  assert (forall t, length t = n -> Forall bit t -> digits_val 2 t = W + b4 ->
    S (S (S (S (S n)))) = S (S (S (S (S (length t))))) /\
    digit15 (b0 + 2 * b1 + 4 * b2 + 8 * b3 - 16 * b4) /\ Forall bit (0 :: 0 :: 0 :: 0 :: t) /\
    b0 + 2 * (b1 + 2 * (b2 + 2 * (b3 + 2 * (b4 + 2 * W)))) =
      b0 + 2 * b1 + 4 * b2 + 8 * b3 - 16 * b4 +
      2 * (0 + 2 * (0 + 2 * (0 + 2 * (0 + 2 * digits_val 2 t)))) /\
    (0 :: 0 :: 0 :: 0 :: t <> [] ->
     0 + 2 * (0 + 2 * (0 + 2 * (0 + 2 * digits_val 2 t))) <= 2 ^ (Z.of_nat (S (S (S (S (length t))))) - 1))) as Main.
  { intros t Lt Bt Vt. rewrite Lt, Vt. split; [reflexivity|]. split; [exact D|].
    split; [exact (proj2 (Forall_app bit [0; 0; 0; 0] t) (conj Hz Bt))|]. split; [lia|]. intros _.
    replace (Z.of_nat (S (S (S (S n)))) - 1) with (3 + Z.of_nat n) by lia.
    rewrite Z.pow_add_r by lia. change (2 ^ 3) with 8.
    assert (n = 0%nat \/ exists K, 2 ^ Z.of_nat n = 2 * K) as [E|[K EK]]
      by apply pow2_even.
    - rewrite E in *. change (2 ^ Z.of_nat 0) with 1 in *. lia.
    - lia. }
  destruct (Z.eqb_spec b4 0) as [E4|N4].
  - apply Main; [reflexivity|assumption|]. fold W. lia.
  - apply Main; [exact L|exact B|]. rewrite V; [lia|].
    assert (n = 0%nat \/ exists K, 2 ^ Z.of_nat n = 2 * K) as [E|[K EK]]
      by apply pow2_even.
    + rewrite E in *. change (2 ^ Z.of_nat 0) with 1 in *. lia.
    + lia.
Qed.

Lemma slide_fold n : forall pre r, length r = n -> Forall bit r ->
  (n <> 0%nat -> digits_val 2 r <= 2 ^ (Z.of_nat n - 1)) ->
  exists t, fold_left (slide_at (length pre + n)) (seq (length pre) n) (pre ++ r) = pre ++ t /\
    length t = n /\ Forall digit15 t /\ digits_val 2 t = digits_val 2 r.
Proof.
  induction n as [|n IH]; intros pre r Hl Hr Hv; cbn [seq fold_left].
  { exists []. destruct r; [|discriminate]. auto. }
  rewrite slide_at_pre. pose proof (slide_at_ok r Hr) as S0. rewrite Hl in S0.
  specialize (S0 ltac:(intros ->; discriminate) (Hv ltac:(discriminate))).
  destruct (slide_at (S n) r 0) as [|e t]; [contradiction|]. cbn [slide_step_post] in S0.
  destruct S0 as (L & D & B & V & H). rewrite Hl in L. injection L as L.
  replace (pre ++ e :: t) with ((pre ++ [e]) ++ t) by (rewrite <- app_assoc; reflexivity).
  specialize (IH (pre ++ [e]) t (eq_sym L) B). rewrite length_app in IH. cbn [length] in IH.
  replace (length pre + 1 + n)%nat with (length pre + S n)%nat in IH by lia.
  rewrite Nat.add_1_r in IH.
  destruct IH as (t' & F & L' & D' & V').
  { intros Hn. rewrite L. apply H. intros ->. cbn in L. lia. }
  exists (e :: t'). rewrite F, <- app_assoc. split; [reflexivity|]. cbn [length digits_val].
  split; [lia|]. split; [constructor; assumption|]. lia.
Qed.

(** The bits of a byte string. *)
Definition byte_bits (b : Z) : list Z :=
  map (fun k => Z.land 1 (Z.shiftr b (Z.of_nat k))) (seq 0 8).

Lemma land_1_mod z : Z.land 1 z = z mod 2.
Proof. rewrite Z.land_comm. change 1 with (Z.ones 1). apply Z.land_ones. lia. Qed.

Lemma byte_bits_ok b : byte b -> Forall bit (byte_bits b) /\ digits_val 2 (byte_bits b) = b.
Proof.
  intros Hb. unfold byte in Hb. unfold byte_bits. cbn [seq map digits_val]. rewrite !land_1_mod.
  rewrite !Z.shiftr_div_pow2 by lia. cbn [Z.of_nat Pos.of_succ_nat Pos.succ]. norm_pow2. split.
  - assert (forall z, bit (z mod 2)) as B
      by (intros z; unfold bit; pose proof (Z.mod_pos_bound z 2 ltac:(lia)); lia).
    repeat (constructor; [apply B|]). constructor.
  - change (2 ^ 0) with 1. rewrite Z.div_1_r.
    Z.to_euclidean_division_equations. lia.
Qed.

Lemma slide_bits_concat a : length a = 32%nat -> Forall byte a ->
  slide_bits a = flat_map byte_bits a.
Proof.
  intros Hl Ha. assert (forall z, schar (Z.land 1 z) = Z.land 1 z) as S1.
  { intros z. rewrite land_1_mod. pose proof (Z.mod_pos_bound z 2 ltac:(lia)). apply schar_id. lia. }
  unfold slide_bits. erewrite map_ext; [|intros i; apply S1].
  do 32 (destruct a as [|? a]; [discriminate Hl|]). destruct a; [|discriminate Hl]. reflexivity.
Qed.

Lemma flat_bits_ok a : Forall byte a ->
  length (flat_map byte_bits a) = (8 * length a)%nat /\ Forall bit (flat_map byte_bits a) /\
  digits_val 2 (flat_map byte_bits a) = le_val a.
Proof.
  induction 1 as [|b a Hb _ IH]; cbn [flat_map length le_val]; [auto|].
  destruct IH as (L & B & V). destruct (byte_bits_ok b Hb) as [B' V'].
  rewrite length_app, L, digits_val_app, V', V. change (length (byte_bits b)) with 8%nat.
  split; [lia|]. split; [apply Forall_app; auto|]. change (2 ^ Z.of_nat 8) with 256. lia.
Qed.

Lemma slide_ok a : Forall byte a -> length a = 32%nat -> le_val a <= 2 ^ 255 ->
  length (slide a) = 256%nat /\ Forall digit15 (slide a) /\ digits_val 2 (slide a) = le_val a.
Proof.
  intros Ha Hl Hv. unfold slide. rewrite slide_bits_concat by assumption.
  destruct (flat_bits_ok a Ha) as (L & B & V). rewrite Hl in L.
  destruct (slide_fold 256 [] (flat_map byte_bits a) L B) as (t & F & Lt & D & Vt).
  { intros _. rewrite V. exact Hv. }
  cbn [app length Nat.add] in F. rewrite F, Vt, V. auto.
Qed.
