(* ===== verification/GeScalar.v ===== *)
(** * Scalar multiplication (crypto-ops.c)

    Constant-time selection from tables of multiples, the fixed-window
    multiplication [ge_scalarmult], the tables and loops of the variable-time
    double multiplications.  The theorems: each computes the multiple, or the
    sum of multiples, of the represented points that its comment promises. *)

From Stdlib Require Import ZArith Lia List Bool Setoid Morphisms.
Import ListNotations.
From S2P Require Import Prelude Primes AbGroup Edwards Loads FieldElt FieldBytes Ge GeCorrect Digits.
Set Default Goal Selector "!".

(** ** Selection *)

Definition equal (b c : Z) : Z :=
  let ub := wrap U8 b in
  let uc := wrap U8 c in
  let x := Z.lxor ub uc in
  let y := x in
  let y := wrap U32 (y - 1) in
  let y := Z.shiftr y 31 in
  wrap U8 y.

Definition negative (b : Z) : Z :=
  let x := wrap U64 b in
  let x := Z.shiftr x 63 in
  wrap U8 x.

(** [unsigned char babs = b - (((-bnegative) & b) << 1);] *)
Definition babs (b : Z) : Z := wrap U8 (b - Z.shiftl (Z.land (- negative b) b) 1).

Definition ge_cached_cmov (t u : ge_cached cmach) (b : Z) : option (ge_cached cmach) :=
  tp <- fe_cmov (YplusX t) (YplusX u) b ;;
  tm <- fe_cmov (YminusX t) (YminusX u) b ;;
  tZ <- fe_cmov (c_Z t) (c_Z u) b ;;
  tT <- fe_cmov (T2d t) (T2d u) b ;;
  Some (mk_cached tp tm tZ tT).

Definition ge_precomp_cmov (t u : ge_precomp cmach) (b : Z) : option (ge_precomp cmach) :=
  tp <- fe_cmov (yplusx t) (yplusx u) b ;;
  tm <- fe_cmov (yminusx t) (yminusx u) b ;;
  tx <- fe_cmov (xy2d t) (xy2d u) b ;;
  Some (mk_precomp tp tm tx).

(** The successive moves from the entries of a table, the [j]-th one when [ab] is [j]. *)
Fixpoint moves {E} (cmov : E -> E -> Z -> option E) (cur : E) (tab : list E) (ab j : Z) : option E :=
  match tab with
  | [] => Some cur
  | a :: tab => cur <- cmov cur a (equal (schar ab) j) ;; moves cmov cur tab ab (j + 1)
  end.

(** ** [ge_scalarmult] *)

(** [Ai[0] .. Ai[n]] from [Ai[0] = c]. *)
Fixpoint sm_table (n : nat) (A : ge_p3 cmach) (c : ge_cached cmach)
    : option (list (ge_cached cmach)) :=
  match n with
  | O => Some [c]
  | S n =>
      t <- ge_add A c ;;
      u <- ge_p1p1_to_p3 t ;;
      c' <- ge_p3_to_cached u ;;
      Ai <- sm_table n A c' ;;
      Some (c :: Ai)
  end.

(** The choice of [cur] in the loop of [ge_scalarmult]. *)
Definition sm_select (Ai : list (ge_cached cmach)) (b : Z) : option (ge_cached cmach) :=
  cur <- moves ge_cached_cmov ge_cached_0 Ai (babs b) 1 ;;
  mT <- fe_neg (T2d cur) ;;
  let minuscur := mk_cached (fe_copy (YminusX cur)) (fe_copy (YplusX cur)) (fe_copy (c_Z cur)) mT in
  ge_cached_cmov cur minuscur (negative b).

(** One iteration of the loop. *)
Definition sm_step (Ai : list (ge_cached cmach)) (r : ge_p2 cmach) (b : Z) : option (ge_p2 cmach) :=
  t <- ge_p2_dbl r ;; r <- ge_p1p1_to_p2 t ;;
  t <- ge_p2_dbl r ;; r <- ge_p1p1_to_p2 t ;;
  t <- ge_p2_dbl r ;; r <- ge_p1p1_to_p2 t ;;
  t <- ge_p2_dbl r ;; u <- ge_p1p1_to_p3 t ;;
  cur <- sm_select Ai b ;;
  t <- ge_add u cur ;;
  ge_p1p1_to_p2 t.

(** A loop whose body may fail. *)
Fixpoint mfold {A B} (f : A -> B -> option A) (a : A) (bs : list B) : option A :=
  match bs with [] => Some a | b :: bs => a' <- f a b ;; mfold f a' bs end.

Definition ge_scalarmult (a : list Z) (A : ge_p3 cmach) : option (ge_p2 cmach) :=
  let e := sm_digits a in
  c <- ge_p3_to_cached A ;;
  Ai <- sm_table 7 A c ;;
  mfold (sm_step Ai) ge_p2_0 (rev e).

(** ** Variable-time multiplications *)

(** [r[1] .. r[7]] of [ge_dsm_precomp], [n] of them left to compute from the last one, [c]. *)
Fixpoint dsm_table (n : nat) (s2 : ge_p3 cmach) (c : ge_cached cmach)
    : option (list (ge_cached cmach)) :=
  match n with
  | O => Some [c]
  | S n =>
      t <- ge_add s2 c ;;
      u <- ge_p1p1_to_p3 t ;;
      c' <- ge_p3_to_cached u ;;
      r <- dsm_table n s2 c' ;;
      Some (c :: r)
  end.

Definition ge_dsm_precomp (s : ge_p3 cmach) : option (list (ge_cached cmach)) :=
  r0 <- ge_p3_to_cached s ;;
  t <- ge_p3_dbl s ;;
  s2 <- ge_p1p1_to_p3 t ;;
  dsm_table 7 s2 r0.

(** The addition of a digit's multiple of a table of odd multiples. *)
Definition dsm_add (Ai : list (ge_cached cmach)) (t : ge_p1p1 cmach) (d : Z) : option (ge_p1p1 cmach) :=
  if 0 <? d then
    u <- ge_p1p1_to_p3 t ;; c <- nth_error Ai (Z.to_nat (Z.quot d 2)) ;; ge_add u c
  else if d <? 0 then
    u <- ge_p1p1_to_p3 t ;; c <- nth_error Ai (Z.to_nat (Z.quot (- d) 2)) ;; ge_sub u c
  else Some t.

Definition dsm_madd (Bi : list (ge_precomp cmach)) (t : ge_p1p1 cmach) (d : Z) : option (ge_p1p1 cmach) :=
  if 0 <? d then
    u <- ge_p1p1_to_p3 t ;; c <- nth_error Bi (Z.to_nat (Z.quot d 2)) ;; ge_madd u c
  else if d <? 0 then
    u <- ge_p1p1_to_p3 t ;; c <- nth_error Bi (Z.to_nat (Z.quot (- d) 2)) ;; ge_msub u c
  else Some t.

(** The first loop: skip the leading positions where both digits are 0. *)
Fixpoint skip_zeros (ds : list (Z * Z)) : list (Z * Z) :=
  match ds with
  | [] => []
  | (a, b) :: ds' => if negb (a =? 0) || negb (b =? 0) then ds else skip_zeros ds'
  end.

Definition dsmp_step (Ai Bi : list (ge_cached cmach)) (r : ge_p2 cmach) (d : Z * Z)
    : option (ge_p2 cmach) :=
  t <- ge_p2_dbl r ;;
  t <- dsm_add Ai t (fst d) ;;
  t <- dsm_add Bi t (snd d) ;;
  ge_p1p1_to_p2 t.

Definition ge_double_scalarmult_precomp_vartime (a : list Z) (A : ge_p3 cmach) (b : list Z)
    (Bi : list (ge_cached cmach)) : option (ge_p2 cmach) :=
  let aslide := slide a in
  let bslide := slide b in
  Ai <- ge_dsm_precomp A ;;
  mfold (dsmp_step Ai Bi) ge_p2_0 (skip_zeros (rev (combine aslide bslide))).

Definition dsmb_step (Ai : list (ge_cached cmach)) (Bi : list (ge_precomp cmach)) (r : ge_p2 cmach)
    (d : Z * Z) : option (ge_p2 cmach) :=
  t <- ge_p2_dbl r ;;
  t <- dsm_add Ai t (fst d) ;;
  t <- dsm_madd Bi t (snd d) ;;
  ge_p1p1_to_p2 t.

(** ** Selection is right *)

Lemma equal_ok b c : -128 <= b <= 127 -> -128 <= c <= 127 -> equal b c = if b =? c then 1 else 0.
Proof.
  intros Hb Hc. unfold equal. rewrite !(wrap_U8 b), !(wrap_U8 c).
  pose proof (Z.mod_pos_bound b 256 ltac:(lia)) as Bb. pose proof (Z.mod_pos_bound c 256 ltac:(lia)) as Bc.
  assert (b = c <-> b mod 256 = c mod 256) as Q.
  { split; [intros ->; reflexivity|]. intros E. apply cong_eq_mod in E; [|discriminate]. destruct E as [k E]. clear Bb Bc. lia. }
  set (ub := b mod 256) in *. set (uc := c mod 256) in *. clearbody ub uc.
  pose proof (lxor_range ub uc 8 ltac:(lia) ltac:(lia) ltac:(lia)) as R.
  assert (0 <= Z.lxor ub uc) by (apply Z.lxor_nonneg; lia).
  destruct (Z.eqb_spec b c) as [E|N].
  - apply Q in E. subst uc. rewrite Z.lxor_nilpotent. reflexivity.
  - assert (Z.lxor ub uc <> 0) by (intros E%Z.lxor_eq; tauto).
    rewrite (wrap_id U32) by (apply in_ity_spec; cbn; norm_pow2; lia).
    rewrite Z.shiftr_div_pow2, Z.div_small by (norm_pow2; lia). reflexivity.
Qed.

Lemma negative_ok b : -128 <= b <= 127 -> negative b = if b <? 0 then 1 else 0.
Proof.
  intros Hb. unfold negative. destruct (Z.ltb_spec b 0).
  - assert (wrap U64 b = b + 2 ^ 64) as ->.
    { apply wrap_unique; [cbn; norm_pow2; lia|]. exists (-1). cbn. norm_pow2. lia. }
    rewrite Z.shiftr_div_pow2 by lia. replace ((b + 2 ^ 64) / 2 ^ 63) with 1; [reflexivity|].
    apply Z.div_unique with (r := b + 2 ^ 63); norm_pow2; lia.
  - rewrite (wrap_id U64 b) by (apply in_ity_spec; cbn; norm_pow2; lia).
    rewrite Z.shiftr_div_pow2, Z.div_small by (norm_pow2; lia). reflexivity.
Qed.

Lemma babs_ok b : -128 <= b <= 127 -> babs b = Z.abs b.
Proof.
  intros Hb. unfold babs. rewrite negative_ok by assumption. destruct (Z.ltb_spec b 0).
  - rewrite Z.land_m1_l, Z.shiftl_mul_pow2 by lia. rewrite wrap_id by (apply in_ity_spec; cbn; lia). lia.
  - change (- (0)) with 0. rewrite Z.land_0_l, Z.shiftl_0_l.
    rewrite wrap_id by (apply in_ity_spec; cbn; lia). lia.
Qed.

Lemma fe_tight_int32 f : fe_in f fe_tight -> fe_in f fe_int32.
Proof. apply fe_le_in. vm_compute. reflexivity. Qed.
Lemma fe_loose_int32 f : fe_in f fe_loose -> fe_in f fe_int32.
Proof. apply fe_le_in. vm_compute. reflexivity. Qed.

#[export] Hint Resolve fe_tight_int32 fe_loose_int32 : fe_F.

Lemma ge_cached_cmov_ok t u b : ca_in t ca_bound -> ca_in u ca_bound -> b = 0 \/ b = 1 ->
  ge_cached_cmov t u b = Some (if b =? 1 then u else t).
Proof.
  intros [] [] Hb. unfold ge_cached_cmov. cbn [YplusX YminusX c_Z T2d ca_bound] in *.
  rewrite !fe_cmov_ok by (auto with fe_F nocore). cbn [obind]. destruct t, u, (b =? 1); reflexivity.
Qed.

Lemma ge_precomp_cmov_ok t u b : pc_in t pc_bound -> pc_in u pc_bound -> b = 0 \/ b = 1 ->
  ge_precomp_cmov t u b = Some (if b =? 1 then u else t).
Proof.
  intros [] [] Hb. unfold ge_precomp_cmov. cbn [yplusx yminusx xy2d pc_bound] in *.
  rewrite !fe_cmov_ok by (auto with fe_F nocore). cbn [obind]. destruct t, u, (b =? 1); reflexivity.
Qed.

(** Tables of multiples of [P]: entry [j] holds the multiple by [mult j]. *)
Section Tables.
Context {E : Type} (is_rep : E -> point -> Prop).

Definition multiples (mult : nat -> Z) (P : point) (tab : list E) : Prop :=
  forall j c, nth_error tab j = Some c -> is_rep c (gmul (mult j) P).

Lemma multiples_cons f P c tab : is_rep c (gmul (f 0%nat) P) ->
  multiples (fun i => f (S i)) P tab -> multiples f P (c :: tab).
Proof. intros Hc Ht [|j] x Hx; [injection Hx as <-; exact Hc|exact (Ht j x Hx)]. Qed.

Lemma multiples_ext f g P tab : (forall i, f i = g i) -> multiples f P tab -> multiples g P tab.
Proof. intros E0 H j c Hc. rewrite <- E0. exact (H j c Hc). Qed.

Context (cmov : E -> E -> Z -> option E).
Context (cmov_ok : forall t u P Q b, is_rep t P -> is_rep u Q -> b = 0 \/ b = 1 ->
  cmov t u b = Some (if b =? 1 then u else t)).

(** The moves pick the entry with the given index. *)
Lemma moves_ok P ab tab : forall cur j, 0 <= ab <= 8 -> 1 <= j -> j + Z.of_nat (length tab) <= 128 ->
  multiples (fun i => j + Z.of_nat i) P tab ->
  (ab < j -> is_rep cur (gmul ab P)) -> (j <= ab -> is_rep cur gzero) ->
  ab < j + Z.of_nat (length tab) ->
  total (moves cmov cur tab ab j) (fun r => is_rep r (gmul ab P)).
Proof.
  induction tab as [|a tab IH]; intros cur j Hab Hj Hl HT Hdone Hz Hr; cbn [moves length] in *.
  { apply total_ret, Hdone. lia. }
  assert (is_rep a (gmul j P)) as Ha.
  { specialize (HT 0%nat a eq_refl). cbn [Z.of_nat] in HT. rewrite Z.add_0_r in HT. exact HT. }
  rewrite schar_id by lia. rewrite equal_ok by lia.
  assert (exists R, is_rep cur R) as [R Bc] by (destruct (Z.lt_ge_cases ab j); eauto).
  rewrite (cmov_ok cur a R (gmul j P)) by (assumption || (destruct (ab =? j); auto)). cbn [obind].
  apply IH; try lia.
  - intros i c Hi. specialize (HT (S i) c Hi). cbn beta in HT. rewrite Nat2Z.inj_succ in HT.
    replace (j + 1 + Z.of_nat i) with (j + Z.succ (Z.of_nat i)) by lia. exact HT.
  - intros H. destruct (Z.eqb_spec ab j) as [-> | N]; cbn [Z.eqb]; [exact Ha|apply Hdone; lia].
  - intros H. destruct (Z.eqb_spec ab j); [lia|]. cbn [Z.eqb]. apply Hz. lia.
Qed.
End Tables.

Lemma cached_cmov_is t u P Q b : ca_is t P -> ca_is u Q -> b = 0 \/ b = 1 ->
  ge_cached_cmov t u b = Some (if b =? 1 then u else t).
Proof. intros [] [] Hb. apply ge_cached_cmov_ok; assumption. Qed.

Lemma precomp_cmov_is t u P Q b : pc_is t P -> pc_is u Q -> b = 0 \/ b = 1 ->
  ge_precomp_cmov t u b = Some (if b =? 1 then u else t).
Proof. intros [] [] Hb. apply ge_precomp_cmov_ok; assumption. Qed.

(** The negated entries. *)
Lemma cached_neg_is c P mT : ca_is c P -> fe_in mT fe_tight -> feF mT = (- feF (T2d c))%F ->
  ca_is (mk_cached (fe_copy (YminusX c)) (fe_copy (YplusX c)) (fe_copy (c_Z c)) mT) (gopp P).
Proof.
  intros [[] []] B E. split; split; ge_cbn; rewrite ?feF_copy, ?fe_copy_id; try assumption;
  cbn [px py gopp ed_group ed_opp].
  - rewrite rc_m. ring.
  - rewrite rc_p. ring.
  - rewrite E, rc_T. ring.
Qed.

Lemma precomp_neg_is c P mT : pc_is c P -> fe_in mT fe_tight -> feF mT = (- feF (xy2d c))%F ->
  pc_is (mk_precomp (fe_copy (yminusx c)) (fe_copy (yplusx c)) mT) (gopp P).
Proof.
  intros [[] []] B E. split; split; ge_cbn; rewrite ?feF_copy, ?fe_copy_id; try assumption;
  cbn [px py gopp ed_group ed_opp].
  - rewrite rp_m. ring.
  - rewrite rp_p. ring.
  - rewrite E, rp_x. ring.
Qed.

Lemma fe_neg_tight f : fe_in f fe_tight ->
  total (fe_neg f) (fun h => fe_in h fe_tight /\ feF h = (- feF f)%F).
Proof.
  intros Hf. eapply fe_total; [eapply fe_neg_rel; eassumption|vm_compute; reflexivity|apply fe_neg_F].
Qed.

Lemma gmul_abs b P : (if b <? 0 then gopp (gmul (Z.abs b) P) else gmul (Z.abs b) P) = gmul b P.
Proof.
  destruct (Z.ltb_spec b 0).
  - rewrite <- gmul_opp. f_equal. lia.
  - f_equal. lia.
Qed.

Lemma sm_select_ok Ai b P : multiples ca_is (fun i => 1 + Z.of_nat i) P Ai -> length Ai = 8%nat ->
  digit8 b -> total (sm_select Ai b) (fun r => ca_is r (gmul b P)).
Proof.
  intros HT HL Hb. unfold digit8 in Hb. unfold sm_select. rewrite babs_ok by lia.
  eapply total_bind.
  { apply (moves_ok ca_is ge_cached_cmov cached_cmov_is P (Z.abs b) Ai); rewrite ?HL; try lia; [exact HT| |].
    - intros H. replace (Z.abs b) with 0 by lia. apply ge_cached_0_ok.
    - intros _. apply ge_cached_0_ok. }
  intros cur Hc. cbn beta in Hc.
  eapply total_bind; [apply fe_neg_tight, Hc|]. intros mT [BT ET]. cbv zeta.
  pose proof (cached_neg_is _ _ _ Hc BT ET) as Hm. rewrite negative_ok by lia.
  rewrite (cached_cmov_is _ _ _ _ _ Hc Hm) by (destruct (b <? 0); auto). apply total_ret.
  rewrite <- (gmul_abs b P). destruct (b <? 0); assumption.
Qed.

(** ** Fixed windows *)

Lemma sm_table_ok P A n : forall c k, p3_is A P -> ca_is c (gmul k P) ->
  total (sm_table n A c) (fun tab => length tab = S n /\ multiples ca_is (fun i => k + Z.of_nat i) P tab).
Proof.
  induction n as [|n IH]; intros c k HA Hc; cbn [sm_table].
  { apply total_ret. split; [reflexivity|]. apply multiples_cons; [rewrite Z.add_0_r; exact Hc|].
    intros [|j] x Hx; discriminate. }
  eapply total_bind; [apply ge_add_ok; eassumption|]. intros t Ht.
  eapply total_bind; [apply ge_p1p1_to_p3_ok, Ht|]. intros u Hu.
  eapply total_bind; [apply ge_p3_to_cached_ok, Hu|]. intros c' Hc'. cbn beta in *.
  rewrite gadd_comm, <- gmul_succ in Hc'.
  eapply total_bind; [apply (IH c' (k + 1) HA Hc')|]. intros tab [L M]. apply total_ret.
  split; [cbn; lia|]. apply multiples_cons; [rewrite Z.add_0_r; exact Hc|].
  eapply multiples_ext; [|exact M]. intros i. cbn beta. lia.
Qed.

Lemma sm_step_ok Ai P r R b : multiples ca_is (fun i => 1 + Z.of_nat i) P Ai -> length Ai = 8%nat ->
  digit8 b -> p2_is r R -> total (sm_step Ai r b) (fun r' => p2_is r' (gadd (gmul 16 R) (gmul b P))).
Proof.
  intros HT HL Hb Hr. unfold sm_step.
  do 3 (eapply total_bind; [apply ge_p2_dbl_ok; eassumption|]; cbn beta; intros ? ?;
        eapply total_bind; [apply ge_p1p1_to_p2_ok; eassumption|]; cbn beta; intros ? ?).
  eapply total_bind; [apply ge_p2_dbl_ok; eassumption|]. cbn beta. intros t Ht.
  eapply total_bind; [apply ge_p1p1_to_p3_ok; eassumption|]. cbn beta. intros u Hu.
  eapply total_bind; [apply sm_select_ok; eassumption|]. cbn beta. intros c Hc.
  eapply total_bind; [apply ge_add_ok; eassumption|]. cbn beta. intros t' Ht'.
  apply ge_p1p1_to_p2_ok. exact Ht'.
Qed.

(** Horner's rule: a loop that multiplies by [b] and adds the digit, most significant digit first. *)
Lemma mfold_horner {D} (step : ge_p2 cmach -> D -> option (ge_p2 cmach)) (okd : D -> Prop)
    (v : D -> point) (b : Z) :
  (forall r R d, okd d -> p2_is r R -> total (step r d) (fun r' => p2_is r' (gadd (gmul b R) (v d)))) ->
  forall ds r R, Forall okd ds -> p2_is r R ->
  total (mfold step r ds)
    (fun r' => p2_is r' (fold_left (fun R d => gadd (gmul b R) (v d)) ds R)).
Proof.
  intros Hs. induction ds as [|d ds IH]; intros r R Hd Hr; cbn [mfold fold_left].
  - apply total_ret, Hr.
  - inversion_clear Hd. eapply total_bind; [apply Hs; eassumption|]. cbn beta. intros r' Hr'.
    apply IH; assumption.
Qed.

Lemma horner_val b ds P :
  fold_left (fun R d => gadd (gmul b R) (gmul d P)) (rev ds) gzero = gmul (digits_val b ds) P.
Proof.
  induction ds as [|d ds IH]; cbn [rev digits_val]; [reflexivity|].
  rewrite fold_left_app, IH. cbn [fold_left]. rewrite gadd_comm, <- gmul_mul, <- gmul_add. reflexivity.
Qed.

Lemma ge_scalarmult_ok a A P : Forall byte a -> length a = 32%nat -> nth 31 a 0 <= 127 -> p3_is A P ->
  total (ge_scalarmult a A) (fun r => p2_is r (gmul (le_val a) P)).
Proof.
  intros Ha Hl Ht HA. destruct (sm_digits_ok a Ha Hl Ht) as (L & D & V). unfold ge_scalarmult. cbv zeta.
  eapply total_bind; [apply ge_p3_to_cached_ok, HA|]. cbn beta. intros c Hc.
  eapply total_bind; [apply (sm_table_ok P A 7 c 1 HA Hc)|]. cbn beta. intros Ai [LA MA].
  rewrite <- V, <- horner_val.
  apply (mfold_horner (sm_step Ai) digit8 (fun d => gmul d P) 16).
  - intros r R d Hd Hr. apply sm_step_ok; assumption.
  - apply Forall_rev, D.
  - apply ge_p2_0_ok.
Qed.

(** ** Sliding windows *)

Lemma dsm_table_ok P s2 n : forall c k, p3_is s2 (gadd P P) -> ca_is c (gmul k P) ->
  total (dsm_table n s2 c)
    (fun tab => length tab = S n /\ multiples ca_is (fun i => k + 2 * Z.of_nat i) P tab).
Proof.
  induction n as [|n IH]; intros c k HA Hc; cbn [dsm_table].
  { apply total_ret. split; [reflexivity|]. apply multiples_cons; [rewrite Z.add_0_r; exact Hc|].
    intros [|j] x Hx; discriminate. }
  eapply total_bind; [apply ge_add_ok; eassumption|]. intros t Ht.
  eapply total_bind; [apply ge_p1p1_to_p3_ok, Ht|]. intros u Hu.
  eapply total_bind; [apply ge_p3_to_cached_ok, Hu|]. intros c' Hc'. cbn beta in *.
  rewrite gadd_comm, <- gmul_2, <- gmul_add in Hc'.
  eapply total_bind; [apply (IH c' (k + 2) HA Hc')|]. intros tab [L M]. apply total_ret.
  split; [cbn; lia|]. apply multiples_cons; [rewrite Z.add_0_r; exact Hc|].
  eapply multiples_ext; [|exact M]. intros i. cbn beta. lia.
Qed.

(** The odd multiples [P], [3 P], .. [15 P]. *)
Definition odd_multiples {E} (is_rep : E -> point -> Prop) (P : point) (tab : list E) : Prop :=
  length tab = 8%nat /\ multiples is_rep (fun i => 1 + 2 * Z.of_nat i) P tab.

Lemma ge_dsm_precomp_ok s P : p3_is s P ->
  total (ge_dsm_precomp s) (odd_multiples ca_is P).
Proof.
  intros Hs. unfold ge_dsm_precomp.
  eapply total_bind; [apply ge_p3_to_cached_ok, Hs|]. cbn beta. intros c Hc.
  eapply total_bind; [apply ge_p3_dbl_ok, Hs|]. cbn beta. intros t Ht.
  eapply total_bind; [apply ge_p1p1_to_p3_ok, Ht|]. cbn beta. intros s2 Hs2.
  apply (dsm_table_ok P s2 7 c 1 Hs2 Hc).
Qed.

(** Entry [d / 2] of such a table is the multiple by the odd digit [d]. *)
Lemma odd_entry {E} (is_rep : E -> point -> Prop) P tab d : odd_multiples is_rep P tab ->
  0 < d <= 15 -> Z.odd d = true ->
  exists c, nth_error tab (Z.to_nat (Z.quot d 2)) = Some c /\ is_rep c (gmul d P).
Proof.
  intros [L M] Hd Ho. apply Z.odd_spec in Ho as [k ->].
  replace (Z.quot (2 * k + 1) 2) with k by (rewrite Z.quot_div_nonneg by lia; Z.to_euclidean_division_equations; lia).
  destruct (nth_error tab (Z.to_nat k)) as [c|] eqn:Q.
  - exists c. split; [reflexivity|]. specialize (M _ _ Q). cbn beta in M. rewrite Z2Nat.id in M by lia.
    rewrite Z.add_comm in M. exact M.
  - apply nth_error_None in Q. lia.
Qed.

Lemma odd_opp d : Z.odd (- d) = Z.odd d.
Proof. apply Z.odd_opp. Qed.

Lemma dsm_add_ok Ai P t T d : odd_multiples ca_is P Ai -> digit15 d -> p1_is t T ->
  total (dsm_add Ai t d) (fun t' => p1_is t' (gadd T (gmul d P))).
Proof.
  intros HT Hd Ht. unfold dsm_add. unfold digit15 in Hd.
  destruct (Z.ltb_spec 0 d); [|destruct (Z.ltb_spec d 0)].
  - destruct (odd_entry ca_is P Ai d HT) as (c & -> & Hc); [lia|intuition lia|].
    eapply total_bind; [apply ge_p1p1_to_p3_ok, Ht|]. cbn beta. intros u Hu. cbn [obind].
    apply ge_add_ok; assumption.
  - destruct (odd_entry ca_is P Ai (- d) HT) as (c & -> & Hc);
      [lia|rewrite odd_opp; intuition lia|].
    eapply total_bind; [apply ge_p1p1_to_p3_ok, Ht|]. cbn beta. intros u Hu. cbn [obind].
    eapply total_mono; [apply ge_sub_ok; eassumption|]. cbn beta. intros r.
    rewrite <- gmul_opp, Z.opp_involutive. trivial.
  - apply total_ret. replace d with 0 by lia. rewrite gmul_0, gadd_0_r. exact Ht.
Qed.

Lemma dsm_madd_ok Bi P t T d : odd_multiples pc_is P Bi -> digit15 d -> p1_is t T ->
  total (dsm_madd Bi t d) (fun t' => p1_is t' (gadd T (gmul d P))).
Proof.
  intros HT Hd Ht. unfold dsm_madd. unfold digit15 in Hd.
  destruct (Z.ltb_spec 0 d); [|destruct (Z.ltb_spec d 0)].
  - destruct (odd_entry pc_is P Bi d HT) as (c & -> & Hc); [lia|intuition lia|].
    eapply total_bind; [apply ge_p1p1_to_p3_ok, Ht|]. cbn beta. intros u Hu. cbn [obind].
    apply ge_madd_ok; assumption.
  - destruct (odd_entry pc_is P Bi (- d) HT) as (c & -> & Hc);
      [lia|rewrite odd_opp; intuition lia|].
    eapply total_bind; [apply ge_p1p1_to_p3_ok, Ht|]. cbn beta. intros u Hu. cbn [obind].
    eapply total_mono; [apply ge_msub_ok; eassumption|]. cbn beta. intros r.
    rewrite <- gmul_opp, Z.opp_involutive. trivial.
  - apply total_ret. replace d with 0 by lia. rewrite gmul_0, gadd_0_r. exact Ht.
Qed.

(** The two digits of one position. *)
Definition digits15 (d : Z * Z) : Prop := digit15 (fst d) /\ digit15 (snd d).
Definition pair_val (P Q : point) (d : Z * Z) : point := gadd (gmul (fst d) P) (gmul (snd d) Q).

Lemma dsmp_step_ok Ai Bi P Q r R d : odd_multiples ca_is P Ai -> odd_multiples ca_is Q Bi ->
  digits15 d -> p2_is r R ->
  total (dsmp_step Ai Bi r d) (fun r' => p2_is r' (gadd (gmul 2 R) (pair_val P Q d))).
Proof.
  intros HA HB [Ha Hb] Hr. unfold dsmp_step, pair_val.
  eapply total_bind; [apply ge_p2_dbl_ok, Hr|]. cbn beta. intros t0 H0.
  eapply total_bind; [apply (dsm_add_ok Ai P); eassumption|]. cbn beta. intros t1 H1.
  eapply total_bind; [apply (dsm_add_ok Bi Q); eassumption|]. cbn beta. intros t2 H2.
  rewrite gadd_assoc, gmul_2. apply ge_p1p1_to_p2_ok, H2.
Qed.

Lemma dsmb_step_ok Ai Bi P Q r R d : odd_multiples ca_is P Ai -> odd_multiples pc_is Q Bi ->
  digits15 d -> p2_is r R ->
  total (dsmb_step Ai Bi r d) (fun r' => p2_is r' (gadd (gmul 2 R) (pair_val P Q d))).
Proof.
  intros HA HB [Ha Hb] Hr. unfold dsmb_step, pair_val.
  eapply total_bind; [apply ge_p2_dbl_ok, Hr|]. cbn beta. intros t0 H0.
  eapply total_bind; [apply (dsm_add_ok Ai P); eassumption|]. cbn beta. intros t1 H1.
  eapply total_bind; [apply (dsm_madd_ok Bi Q); eassumption|]. cbn beta. intros t2 H2.
  rewrite gadd_assoc, gmul_2. apply ge_p1p1_to_p2_ok, H2.
Qed.

(** Skipping leading zeros does not change the value. *)
Lemma skip_zeros_val P Q ds :
  fold_left (fun R d => gadd (gmul 2 R) (pair_val P Q d)) (skip_zeros ds) gzero =
  fold_left (fun R d => gadd (gmul 2 R) (pair_val P Q d)) ds gzero.
Proof.
  induction ds as [|[a b] ds IH]; cbn [skip_zeros]; [reflexivity|].
  destruct (Z.eqb_spec a 0) as [-> |]; [|reflexivity]. destruct (Z.eqb_spec b 0) as [-> |]; [|reflexivity].
  cbn [negb orb]. rewrite IH. cbn [fold_left]. f_equal. unfold pair_val. cbn [fst snd].
  rewrite !gmul_0, gmul_2, !gadd_0_l. reflexivity.
Qed.

Lemma skip_zeros_ok (P : Z * Z -> Prop) ds : Forall P ds -> Forall P (skip_zeros ds).
Proof.
  induction 1 as [|[a b] ds H Hs IH]; cbn [skip_zeros]; [constructor|].
  destruct (negb (a =? 0) || negb (b =? 0)); [constructor; assumption|exact IH].
Qed.

Lemma pair_horner P Q : forall xs ys, length xs = length ys ->
  fold_left (fun R d => gadd (gmul 2 R) (pair_val P Q d)) (rev (combine xs ys)) gzero =
  gadd (gmul (digits_val 2 xs) P) (gmul (digits_val 2 ys) Q).
Proof.
  induction xs as [|x xs IH]; intros [|y ys] L; try discriminate L.
  - cbn [combine rev fold_left digits_val]. rewrite !gmul_0. symmetry. apply gadd_0_l.
  - injection L as L. cbn [combine rev digits_val]. rewrite fold_left_app, IH by exact L.
    cbn [fold_left]. unfold pair_val. cbn [fst snd].
    rewrite gmul_gadd, <- !gmul_mul, gadd_swap, <- !gmul_add.
    f_equal; f_equal; lia.
Qed.

Lemma combine_digits xs : forall ys, Forall digit15 xs -> Forall digit15 ys ->
  Forall digits15 (combine xs ys).
Proof.
  induction xs as [|x xs IH]; intros ys Hx Hy; [constructor|].
  destruct ys as [|y ys]; cbn [combine]; [constructor|]. inversion_clear Hx. inversion_clear Hy.
  constructor; [split; assumption|]. apply IH; assumption.
Qed.

(** Both variable-time loops, from the digits on. *)
Lemma dsm_loop_ok step P Q a b : (forall r R d, digits15 d -> p2_is r R ->
    total (step r d) (fun r' => p2_is r' (gadd (gmul 2 R) (pair_val P Q d)))) ->
  Forall byte a -> length a = 32%nat -> le_val a <= 2 ^ 255 ->
  Forall byte b -> length b = 32%nat -> le_val b <= 2 ^ 255 ->
  total (mfold step ge_p2_0 (skip_zeros (rev (combine (slide a) (slide b)))))
    (fun r => p2_is r (gadd (gmul (le_val a) P) (gmul (le_val b) Q))).
Proof.
  intros Hs Ha La Va Hb Lb Vb. destruct (slide_ok a Ha La Va) as (L1 & D1 & V1).
  destruct (slide_ok b Hb Lb Vb) as (L2 & D2 & V2).
  rewrite <- V1, <- V2, <- pair_horner by congruence. rewrite <- skip_zeros_val.
  apply (mfold_horner step digits15 (pair_val P Q) 2 Hs); [|apply ge_p2_0_ok].
  apply skip_zeros_ok, Forall_rev, combine_digits; assumption.
Qed.

Lemma ge_double_scalarmult_precomp_vartime_ok a A b Bi P Q :
  Forall byte a -> length a = 32%nat -> le_val a <= 2 ^ 255 ->
  Forall byte b -> length b = 32%nat -> le_val b <= 2 ^ 255 ->
  p3_is A P -> odd_multiples ca_is Q Bi ->
  total (ge_double_scalarmult_precomp_vartime a A b Bi)
    (fun r => p2_is r (gadd (gmul (le_val a) P) (gmul (le_val b) Q))).
Proof.
  intros Ha La Va Hb Lb Vb HA HB. unfold ge_double_scalarmult_precomp_vartime. cbv zeta.
  eapply total_bind; [apply ge_dsm_precomp_ok, HA|]. intros Ai HAi.
  apply dsm_loop_ok; [|assumption..]. intros r R d Hd Hr. apply dsmp_step_ok; assumption.
Qed.
