(* ===== verification/BaseCheck.v ===== *)
(** * The tables of crypto-ops-data.c hold the multiples they should

    A check by evaluation: each entry is compared, without inversions, with the
    sum of two earlier ones, and each row with 256 times the one before.  The
    soundness proof turns the check into: [ge_base[i][j]] represents
    [(j + 1) * 256^i * B], and [ge_Bi[j]] represents [(2 j + 1) * B].  The multiples of the base
    point that the code computes from the tables follow. *)

From Stdlib Require Import ZArith Lia List Bool Zmod Field.
Import ListNotations.
From S2P Require Import Prelude Primes AbGroup Edwards FieldElt FieldBytes Ge GeCorrect Digits GeScalar BaseTable.
Set Default Goal Selector "!".

(** ** The base point *)

Definition B_x : Z := 15112221349535400772501151409588531511454012693041857206046113283949847762202.
Definition B_y : Z := 46316835694926478169428394003475163141307993866256225615783033603165251855960.

Lemma B_on : on_curveb (toF B_x) (toF B_y) = true.
Proof. vm_compute. reflexivity. Qed.

(** The Ed25519 base point: [y = 4/5], with even [x]. *)
Definition ed_B : point := mk_point (toF B_x) (toF B_y) B_on.

(** ** The check *)

(** Reduction modulo [p] of any integer. *)
Definition p_wide : Z := Eval vm_compute in 2 ^ 512.
Definition p_times_4 : Z := Eval vm_compute in 4 * p25519.
Definition rd (x : Z) : Z :=
  if (0 <=? x) && (x <? p_wide) then p_red x else x mod p25519.

Lemma rd_F x : toF (rd x) = toF x.
Proof.
  apply toF_eq. unfold rd. destruct (_ && _)%bool eqn:Q; [|apply cong_mod; discriminate].
  apply andb_true_iff in Q as [Q1%Z.leb_le Q2%Z.ltb_lt]. rewrite p_red_wide by auto.
  apply cong_mod. discriminate.
Qed.

(** Equality modulo [p]. *)
Definition eqm (x y : Z) : bool := rd (x - y + p_times_4) =? 0.

Lemma eqm_F x y : eqm x y = true -> toF x = toF y.
Proof.
  unfold eqm. change p_times_4 with (4 * p25519). rewrite Z.eqb_eq. intros E. apply (f_equal toF) in E. rewrite rd_F in E.
  apply toF_eq in E as [k E]. apply toF_eq. exists (k - 4). lia.
Qed.

(** An entry as residues: [y + x], [y - x], [2 d x y] and [4 x y]. *)
Definition entry : Type := (Z * Z * Z * Z)%type.

Definition load (q : ge_precomp cmach) : entry :=
  let a := rd (fe_val (yplusx q) + p_times_4) in
  let b := rd (fe_val (yminusx q) + p_times_4) in
  let c := rd (fe_val (xy2d q) + p_times_4) in
  (a, b, c, rd ((a - b + p_lit) * (a + b))).

(** The limbs are within bounds and the third component belongs to the others. *)
Definition tightb (f : fe cmach) : bool :=
  let e z := Z.abs z <=? 101 * 2 ^ 25 / 100 in let o z := Z.abs z <=? 101 * 2 ^ 24 / 100 in
  let '(L10 f0 f1 f2 f3 f4 f5 f6 f7 f8 f9) := f in
  e f0 && o f1 && e f2 && o f3 && e f4 && o f5 && e f6 && o f7 && e f8 && o f9.

Definition well_formed (q : ge_precomp cmach) (e : entry) : bool :=
  let '(a, b, c, h) := e in
  tightb (yplusx q) && tightb (yminusx q) && tightb (xy2d q) && eqm (2 * c) (rd (d_Z * h)).

(** [e3] is the sum of [e1] and [e2]. *)
Definition is_sum (e1 e2 e3 : entry) : bool :=
  let '(a1, b1, c1, _) := e1 in let '(a2, b2, _, h2) := e2 in let '(a3, b3, _, _) := e3 in
  let u := rd (a1 * a2) in let v := rd (b1 * b2) in let w := rd (c1 * h2) in
  eqm (rd ((a3 - b3 + p_lit) * (8 + w))) (8 * (u - v)) &&
  eqm (rd ((a3 + b3) * (8 + p_lit - w))) (8 * (u + v)).

(** Projective doubling. *)
Definition pdbl (p : Z * Z * Z) : Z * Z * Z :=
  let '(X, Y, Z) := p in
  let xx := rd (X * X) in let yy := rd (Y * Y) in let zz := rd (Z * Z) in
  let s := rd ((X + Y) * (X + Y)) in
  let y' := yy + xx in let z' := yy - xx + p_lit in let x' := s - y' + 2 * p_lit in
  let t' := 2 * zz - (yy - xx) + p_lit in
  (rd (rd x' * rd t'), rd (rd y' * rd z'), rd (rd z' * rd t')).

(** [e] is the affine form of [p]. *)
Definition is_affine (e : entry) (p : Z * Z * Z) : bool :=
  let '(a, b, _, _) := e in let '(X, Y, Z) := p in
  eqm (rd ((a - b + p_lit) * Z)) (2 * X) && eqm (rd ((a + b) * Z)) (2 * Y).

Definition proj (e : entry) : Z * Z * Z := let '(a, b, _, _) := e in (a - b + p_lit, a + b, 2).

(** The entries after [e1], each the sum of its predecessor and [e0]; the last one is returned. *)
Fixpoint check_sums (e0 e1 : entry) (qs : list (ge_precomp cmach)) : option entry :=
  match qs with
  | [] => Some e1
  | q :: qs => let e := load q in
      if well_formed q e && is_sum e1 e0 e then check_sums e0 e qs else None
  end.

Fixpoint check_rows (p : Z * Z * Z) (rows : list (list (ge_precomp cmach))) : bool :=
  match rows with
  | [] => true
  | (q :: qs) :: rows =>
      let e := load q in
      if well_formed q e && is_affine e p && (length qs =? 7)%nat then
        match check_sums e e qs with
        | Some e8 => check_rows (pdbl (pdbl (pdbl (pdbl (pdbl (proj e8)))))) rows
        | None => false
        end
      else false
  | [] :: _ => false
  end.

(** A table of odd multiples; [twice] holds the double of its first entry. *)
Definition check_odd (p : Z * Z * Z) (twice : option (ge_precomp cmach)) (tab : list (ge_precomp cmach))
    : bool :=
  match twice, tab with
  | Some q2, q :: qs =>
      let e := load q in
      well_formed q e && is_affine e p && well_formed q2 (load q2) && is_sum e e (load q2) &&
      (length qs =? 7)%nat &&
      match check_sums (load q2) e qs with Some _ => true | None => false end
  | _, _ => false
  end.

Lemma base_checked : check_rows (B_x, B_y, 1) ge_base = true.
Proof. vm_compute. reflexivity. Qed.

Lemma Bi_checked : check_odd (B_x, B_y, 1) (nth_error ge_base_0 1) ge_Bi = true.
Proof. vm_compute. reflexivity. Qed.

(** ** Soundness *)

Section Soundness.
Local Open Scope F_scope.

Definition two : F := 1 + 1.

(** The first two residues determine the point. *)
Definition entry_is (e : entry) (P : point) : Prop :=
  let '(a, b, _, _) := e in toF a = py P + px P /\ toF b = py P - px P.
(** All four residues belong to it. *)
Definition entry_full (e : entry) (P : point) : Prop :=
  let '(a, b, c, h) := e in
  entry_is e P /\ toF c = two * ed_d * px P * py P /\ toF h = two * two * px P * py P.

Lemma toF_lit : toF p_lit = 0.
Proof. apply F_eqb_eq. vm_compute. reflexivity. Qed.
Lemma toF_4p : toF p_times_4 = 0.
Proof. apply F_eqb_eq. vm_compute. reflexivity. Qed.
Lemma toF_2 : toF 2 = two.
Proof. apply F_eqb_eq. vm_compute. reflexivity. Qed.
Lemma toF_8 : toF 8 = two * two * two.
Proof. apply F_eqb_eq. vm_compute. reflexivity. Qed.

Lemma two_nz : two <> 0.
Proof. exact F_two. Qed.

Ltac push :=
  repeat (rewrite ?rd_F, ?toF_add, ?toF_sub, ?toF_mul, ?toF_lit, ?toF_4p, ?toF_2, ?toF_8 in * ).

Lemma half_eq (a b x y : F) : a - b = two * x -> a + b = two * y -> a = y + x /\ b = y - x.
Proof.
  intros E1 E2. split; apply (F_mul_cancel_r two); try exact two_nz.
  - transitivity ((a + b) + (a - b)); [unfold two; ring|]. rewrite E1, E2. ring.
  - transitivity ((a + b) - (a - b)); [unfold two; ring|]. rewrite E1, E2. ring.
Qed.

Lemma tightb_ok f : tightb f = true -> fe_in f fe_tight.
Proof.
  destruct f as [f0 f1 f2 f3 f4 f5 f6 f7 f8 f9]. unfold tightb. cbv zeta. rewrite !andb_true_iff, !Z.leb_le. intros H.
  repeat match goal with H : _ /\ _ |- _ => destruct H end.
  split; unfold irel, in_itv; cbn [l0 l1 l2 l3 l4 l5 l6 l7 l8 l9 fst snd fe_tight fe_bound]; lia.
Qed.

Lemma load_full q P : well_formed q (load q) = true -> entry_is (load q) P ->
  entry_full (load q) P /\ pc_is q P.
Proof.
  unfold load. set (a := rd _). set (b := rd _). set (c := rd _). set (h := rd _).
  unfold well_formed, entry_full, entry_is. cbv iota. rewrite !andb_true_iff.
  intros [[[T1 T2] T3] Ec%eqm_F] [Ea Eb].
  assert (toF h = two * two * px P * py P) as Eh.
  { unfold h. push. rewrite Ea, Eb. unfold two. ring. }
  assert (toF c = two * ed_d * px P * py P) as Ec'.
  { push. change (toF d_Z) with ed_d in Ec. rewrite Eh in Ec. apply (F_mul_cancel_r two); [exact two_nz|].
    transitivity (two * toF c); [ring|]. rewrite Ec. ring. }
  split; [auto|]. split; split; ge_cbn; try (apply tightb_ok; assumption).
  - rewrite <- Ea. unfold a. push. unfold feF. ring.
  - rewrite <- Eb. unfold b. push. unfold feF. ring.
  - transitivity (toF c); [unfold c; push; unfold feF; ring|]. rewrite Ec'. unfold two. ring.
Qed.

Lemma is_sum_ok e1 e2 e3 P Q : entry_full e1 P -> entry_full e2 Q -> is_sum e1 e2 e3 = true ->
  entry_is e3 (gadd P Q).
Proof.
  destruct e1 as [[[a1 b1] c1] h1], e2 as [[[a2 b2] c2] h2], e3 as [[[a3 b3] c3] h3].
  unfold is_sum. intros ([A1 B1] & C1 & _) ([A2 B2] & _ & H2). cbv zeta.
  rewrite andb_true_iff. intros [E1%eqm_F E2%eqm_F]. push.
  destruct (ed_denominators _ _ _ _ (p_curve P) (p_curve Q)) as [D1 D2].
  rewrite A1, A2, B1, B2, C1, H2 in *. pose proof two_nz as N.
  assert (two * two * two <> 0) as N8 by auto with fe_F nocore.
  unfold entry_is. apply half_eq; cbn [gadd ed_group px py ed_add]; unfold add_x, add_y.
  - apply (F_mul_cancel_r (two * two * two * (1 + ed_d * px P * px Q * py P * py Q)));
      [auto with fe_F nocore|].
    transitivity (two * two * two * two * (px P * py Q + py P * px Q)).
    + etransitivity; [|etransitivity; [exact E1|unfold two; ring]]. ring.
    + field. exact D1.
  - apply (F_mul_cancel_r (two * two * two * (1 - ed_d * px P * px Q * py P * py Q)));
      [auto with fe_F nocore|].
    transitivity (two * two * two * two * (py P * py Q + px P * px Q)).
    + etransitivity; [|etransitivity; [exact E2|unfold two; ring]]. ring.
    + field. exact D2.
Qed.

(** Projective coordinates. *)
Definition proj_is (p : Z * Z * Z) (P : point) : Prop :=
  let '(X, Y, Z) := p in toF Z <> 0 /\ toF X = px P * toF Z /\ toF Y = py P * toF Z.

Lemma proj_ok e P : entry_is e P -> proj_is (proj e) P.
Proof.
  destruct e as [[[a b] c] h]. intros [A B]. unfold proj, proj_is. push. rewrite A, B.
  split; [exact two_nz|]. unfold two. split; ring.
Qed.

Lemma is_affine_ok e p P : proj_is p P -> is_affine e p = true -> entry_is e P.
Proof.
  destruct e as [[[a b] c] h], p as [[X Y] Z]. intros (NZ & EX & EY). unfold is_affine.
  rewrite andb_true_iff. intros [E1%eqm_F E2%eqm_F]. push. rewrite EX in E1. rewrite EY in E2.
  unfold entry_is. apply half_eq.
  - transitivity ((toF a - toF b + 0) * toF Z / toF Z); [field; exact NZ|]. rewrite E1. field. exact NZ.
  - transitivity ((toF a + toF b) * toF Z / toF Z); [field; exact NZ|]. rewrite E2. field. exact NZ.
Qed.

Lemma pdbl_ok p P : proj_is p P -> proj_is (pdbl p) (gadd P P).
Proof.
  destruct p as [[X Y] Z]. intros (NZ & EX & EY). unfold pdbl, proj_is. push.
  rewrite EX, EY in *. pose proof (p_curve P) as C. unfold on_curve in C.
  destruct (ed_denominators _ _ _ _ (p_curve P) (p_curve P)) as [D1 D2].
  cbn [gadd ed_group px py ed_add]. unfold add_x, add_y.
  set (x := px P) in *. set (y := py P) in *. clearbody x y. set (z := toF Z) in *. clearbody z.
  replace (1 + ed_d * x * x * y * y) with (y * y - x * x) in * by (rewrite C; ring).
  replace (1 - ed_d * x * x * y * y) with (two - (y * y - x * x)) in * by (rewrite C; unfold two; ring).
  clear C. unfold two in *. split; [|split].
  - replace ((y * z * (y * z) - x * z * (x * z) + 0) * ((1 + 1) * (z * z) - (y * z * (y * z) - x * z * (x * z)) + 0))
      with ((z * z) * (y * y - x * x) * ((z * z) * (1 + 1 - (y * y - x * x)))) by ring.
    auto 6 with fe_F nocore.
  - field. exact D1.
  - field. exact D2.
Qed.
End Soundness.

(** Along a row: the entries are [k P0 + P], [(k + 1) P0 + P], ... *)
Lemma check_sums_ok P0 e0 qs : forall e1 P1 e8, entry_full e0 P0 -> entry_full e1 P1 ->
  check_sums e0 e1 qs = Some e8 ->
  entry_full e8 (gadd (gmul (Z.of_nat (length qs)) P0) P1) /\
  forall j q, nth_error qs j = Some q -> pc_is q (gadd (gmul (Z.of_nat (S j)) P0) P1).
Proof.
  induction qs as [|q qs IH]; intros e1 P1 e8 H0 H1; cbn [check_sums].
  { intros [= <-]. rewrite gmul_0, gadd_0_l. split; [exact H1|]. intros [|j] x Hx; discriminate. }
  destruct (well_formed q (load q) && is_sum e1 e0 (load q)) eqn:Q; [|discriminate].
  apply andb_true_iff in Q as [W HS]. intros Hs.
  destruct (load_full q (gadd P1 P0) W (is_sum_ok _ _ _ _ _ H1 H0 HS)) as [Fq Pq].
  destruct (IH (load q) (gadd P1 P0) e8 H0 Fq Hs) as [F8 Hj].
  assert (forall n, gadd (gmul (Z.of_nat (S n)) P0) P1 = gadd (gmul (Z.of_nat n) P0) (gadd P1 P0)) as Sh.
  { intros n. rewrite Nat2Z.inj_succ. unfold Z.succ. rewrite gmul_succ, (gadd_comm P1), gadd_assoc. reflexivity. }
  cbn [length]. rewrite Sh. split; [exact F8|].
  intros [|j] x Hx.
  - injection Hx as <-. rewrite Sh, gmul_0, gadd_0_l. exact Pq.
  - rewrite Sh. apply Hj, Hx.
Qed.

Lemma pdbl_5 p P : proj_is p P -> proj_is (pdbl (pdbl (pdbl (pdbl (pdbl p))))) (gmul 32 P).
Proof. intros H. do 5 apply pdbl_ok. exact H. Qed.

Lemma check_rows_ok rows : forall p P, proj_is p P -> check_rows p rows = true ->
  forall i row, nth_error rows i = Some row ->
  length row = 8%nat /\ multiples pc_is (fun j => (1 + Z.of_nat j) * 256 ^ Z.of_nat i) P row.
Proof.
  induction rows as [|row0 rows IH]; intros p P Hp Hc i row Hi; [destruct i; discriminate|].
  destruct row0 as [|q qs]; [discriminate|]. cbn [check_rows] in Hc.
  destruct (_ && _)%bool eqn:Q in Hc; [|discriminate].
  apply andb_true_iff in Q as [Q L%Nat.eqb_eq]. apply andb_true_iff in Q as [W A].
  destruct (load_full q P W (is_affine_ok _ _ _ Hp A)) as [Fq Pq].
  destruct (check_sums (load q) (load q) qs) as [e8|] eqn:Hs; [|discriminate].
  destruct (check_sums_ok P (load q) qs (load q) P e8 Fq Fq Hs) as [F8 Hj].
  destruct i as [|i].
  - injection Hi as <-. split; [cbn; lia|]. rewrite Z.pow_0_r.
    intros j c Hx. rewrite Z.mul_1_r, Z.add_comm, gmul_succ.
    destruct j as [|j]; [injection Hx as <-; rewrite gmul_0, gadd_0_l; exact Pq|].
    apply Hj, Hx.
  - rewrite L, <- gmul_succ in F8. change (Z.of_nat 7 + 1) with 8 in F8.
    assert (entry_is e8 (gmul 8 P)) as E8 by (destruct e8 as [[[? ?] ?] ?]; apply F8).
    apply proj_ok, pdbl_5 in E8. rewrite <- gmul_mul in E8. change (32 * 8) with 256 in E8.
    destruct (IH _ _ E8 Hc i row Hi) as [Lr Mr]. split; [exact Lr|].
    intros j c Hx. specialize (Mr j c Hx). cbn beta in *. rewrite <- gmul_mul in Mr.
    replace ((1 + Z.of_nat j) * 256 ^ Z.of_nat (S i)) with ((1 + Z.of_nat j) * 256 ^ Z.of_nat i * 256);
      [exact Mr|]. rewrite Nat2Z.inj_succ, Z.pow_succ_r by lia. ring.
Qed.

Lemma proj_B : proj_is (B_x, B_y, 1) ed_B.
Proof.
  unfold proj_is. rewrite toF_1. cbn [px py ed_B]. split; [exact F_1_nz|]. split; ring.
Qed.

Lemma ge_base_ok i row : nth_error ge_base i = Some row ->
  length row = 8%nat /\ multiples pc_is (fun j => (1 + Z.of_nat j) * 256 ^ Z.of_nat i) ed_B row.
Proof. apply (check_rows_ok ge_base _ _ proj_B base_checked). Qed.

Lemma check_odd_ok p P twice tab : proj_is p P -> check_odd p twice tab = true ->
  odd_multiples pc_is P tab.
Proof.
  intros Hp. unfold check_odd. destruct twice as [q2|]; [|discriminate].
  destruct tab as [|q qs]; [discriminate|]. rewrite !andb_true_iff.
  intros [[[[[W A] W2] HS] L%Nat.eqb_eq] C].
  destruct (load_full q P W (is_affine_ok _ _ _ Hp A)) as [Fq Pq].
  assert (entry_full (load q2) (gmul 2 P)) as F2.
  { exact (proj1 (load_full q2 _ W2 (is_sum_ok _ _ _ _ _ Fq Fq HS))). }
  destruct (check_sums (load q2) (load q) qs) as [e8|] eqn:Hs; [|discriminate].
  destruct (check_sums_ok _ _ _ _ _ _ F2 Fq Hs) as [_ Hj].
  split; [cbn; lia|]. intros [|j] c Hx.
  - injection Hx as <-. exact Pq.
  - specialize (Hj j c Hx). rewrite <- gmul_mul, <- gmul_succ in Hj.
    replace (1 + 2 * Z.of_nat (S j)) with (Z.of_nat (S j) * 2 + 1) by lia. exact Hj.
Qed.

Lemma ge_Bi_ok : odd_multiples pc_is ed_B ge_Bi.
Proof. exact (check_odd_ok _ _ _ _ proj_B Bi_checked). Qed.

Local Close Scope F_scope.

(** ** Multiplication of the base point (crypto-ops.c)

    [select], [ge_scalarmult_base] and [ge_double_scalarmult_base_vartime], which
    read the tables of BaseTable.v.  The theorems: they compute [a B] and
    [a A + b B] for every scalar within the documented bound. *)

(** ** The functions *)

Definition select (pos : nat) (b : Z) : option (ge_precomp cmach) :=
  row <- nth_error ge_base pos ;;
  t <- moves ge_precomp_cmov ge_precomp_0 row (babs b) 1 ;;
  mx <- fe_neg (xy2d t) ;;
  let minust := mk_precomp (fe_copy (yminusx t)) (fe_copy (yplusx t)) mx in
  ge_precomp_cmov t minust (negative b).

(** One iteration of either loop, at index [i] of the digits [e]. *)
Definition smb_step (e : list Z) (h : ge_p3 cmach) (i : nat) : option (ge_p3 cmach) :=
  t <- select (i / 2) (nth i e 0) ;;
  r <- ge_madd h t ;;
  ge_p1p1_to_p3 r.

Definition ge_scalarmult_base (a : list Z) : option (ge_p3 cmach) :=
  let e := smb_digits a in
  h <- mfold (smb_step e) ge_p3_0 (map (fun i => 2 * i + 1)%nat (seq 0 32)) ;;
  r <- ge_p3_dbl h ;; s <- ge_p1p1_to_p2 r ;;
  r <- ge_p2_dbl s ;; s <- ge_p1p1_to_p2 r ;;
  r <- ge_p2_dbl s ;; s <- ge_p1p1_to_p2 r ;;
  r <- ge_p2_dbl s ;; h <- ge_p1p1_to_p3 r ;;
  mfold (smb_step e) h (map (fun i => 2 * i)%nat (seq 0 32)).

Definition ge_double_scalarmult_base_vartime (a : list Z) (A : ge_p3 cmach) (b : list Z)
    : option (ge_p2 cmach) :=
  let aslide := slide a in
  let bslide := slide b in
  Ai <- ge_dsm_precomp A ;;
  mfold (dsmb_step Ai ge_Bi) ge_p2_0 (skip_zeros (rev (combine aslide bslide))).

(** ** Correctness *)

Lemma select_ok pos b : (pos < 32)%nat -> digit8 b ->
  total (select pos b) (fun r => pc_is r (gmul (b * 256 ^ Z.of_nat pos) ed_B)).
Proof.
  intros Hp Hb. unfold digit8 in Hb. unfold select.
  destruct (nth_error ge_base pos) as [row|] eqn:Q.
  2:{ apply nth_error_None in Q. cbn in Q. lia. }
  destruct (ge_base_ok pos row Q) as [L M]. set (P := gmul (256 ^ Z.of_nat pos) ed_B).
  assert (multiples pc_is (fun j => 1 + Z.of_nat j) P row) as M'.
  { intros j c Hc. unfold P. rewrite <- gmul_mul. exact (M j c Hc). }
  cbn [obind]. rewrite babs_ok by lia. rewrite gmul_mul. fold P.
  eapply total_bind.
  { apply (moves_ok pc_is ge_precomp_cmov precomp_cmov_is P (Z.abs b) row); rewrite ?L; try lia;
      [exact M'| |].
    - intros H. replace (Z.abs b) with 0 by lia. apply ge_precomp_0_ok.
    - intros _. apply ge_precomp_0_ok. }
  intros cur Hc. cbn beta in Hc.
  eapply total_bind; [apply fe_neg_tight, Hc|]. intros mT [BT ET]. cbv zeta.
  pose proof (precomp_neg_is _ _ _ Hc BT ET) as Hm. rewrite negative_ok by lia.
  rewrite (precomp_cmov_is _ _ _ _ _ Hc Hm) by (destruct (b <? 0); auto). apply total_ret.
  rewrite <- (gmul_abs b P). destruct (b <? 0); assumption.
Qed.

(** The sum of [f i * 256^i] for [k <= i < k + n]. *)
Fixpoint sum256 (f : nat -> Z) (k n : nat) : Z :=
  match n with O => 0 | S n => f k * 256 ^ Z.of_nat k + sum256 f (S k) n end.

Lemma smb_fold e (g : nat -> nat) n : Forall digit8 e -> forall k h H, (k + n <= 32)%nat ->
  (forall i, (i < 32)%nat -> (g i / 2 = i)%nat /\ (g i < length e)%nat) -> p3_is h H ->
  total (mfold (smb_step e) h (map g (seq k n)))
    (fun h' => p3_is h' (gadd H (gmul (sum256 (fun i => nth (g i) e 0) k n) ed_B))).
Proof.
  intros He. induction n as [|n IH]; intros k h H Hk Hg Hh; cbn [seq map mfold sum256].
  { apply total_ret. rewrite gmul_0, gadd_0_r. exact Hh. }
  destruct (Hg k ltac:(lia)) as [Gk Lk].
  eapply total_bind.
  - unfold smb_step. rewrite Gk. eapply total_bind.
    { apply (select_ok k (nth (g k) e 0)); [lia|]. eapply Forall_forall; [exact He|]. apply nth_In, Lk. }
    intros t Ht. cbn beta in Ht.
    eapply total_bind; [apply ge_madd_ok; eassumption|]. intros r Hr. apply ge_p1p1_to_p3_ok, Hr.
  - intros h' Hh'. cbn beta in Hh'. rewrite gmul_add, gadd_assoc. apply IH; [lia|exact Hg|exact Hh'].
Qed.

Lemma sum256_shift f k n : sum256 f (S k) n = 256 * sum256 (fun i => f (S i)) k n.
Proof.
  revert k. induction n as [|n IH]; intros k; cbn [sum256]; [lia|].
  rewrite IH, Nat2Z.inj_succ, Z.pow_succ_r by lia. ring.
Qed.

Lemma sum256_ext f g k n : (forall i, f i = g i) -> sum256 f k n = sum256 g k n.
Proof. intros E. revert k. induction n as [|n IH]; intros k; cbn [sum256]; [|rewrite E, IH]; reflexivity. Qed.

(** The digits at even and at odd positions. *)
Lemma digits_interleave n : forall e, length e = (2 * n)%nat ->
  digits_val 16 e = 16 * sum256 (fun i => nth (2 * i + 1) e 0) 0 n + sum256 (fun i => nth (2 * i) e 0) 0 n.
Proof.
  induction n as [|n IH]; intros e Hl.
  { destruct e; [reflexivity|discriminate]. }
  destruct e as [|x [|y e]]; [discriminate|cbn in Hl; lia|]. cbn [digits_val sum256].
  rewrite !sum256_shift. rewrite (IH e) by (cbn [length] in Hl; lia).
  rewrite (sum256_ext (fun i => nth (2 * S i + 1) (x :: y :: e) 0) (fun i => nth (2 * i + 1) e 0))
    by (intros i; replace (2 * S i + 1)%nat with (S (S (2 * i + 1))) by lia; reflexivity).
  rewrite (sum256_ext (fun i => nth (2 * S i) (x :: y :: e) 0) (fun i => nth (2 * i) e 0))
    by (intros i; replace (2 * S i)%nat with (S (S (2 * i))) by lia; reflexivity).
  cbn [Nat.mul Nat.add nth]. rewrite Z.pow_0_r. ring.
Qed.

Lemma ge_scalarmult_base_ok a : Forall byte a -> length a = 32%nat -> nth 31 a 0 <= 127 ->
  total (ge_scalarmult_base a) (fun h => p3_is h (gmul (le_val a) ed_B)).
Proof.
  intros Ha Hl Ht. destruct (smb_digits_ok a Ha Hl Ht) as (L & D & V). unfold ge_scalarmult_base. cbv zeta.
  set (e := smb_digits a) in *. clearbody e.
  eapply total_bind.
  { apply (smb_fold e (fun i => 2 * i + 1)%nat 32 D 0 ge_p3_0 gzero); [lia| |apply ge_p3_0_ok].
    intros i Hi. split; [|lia]. symmetry. apply Nat.div_unique with (r := 1%nat); lia. }
  cbn beta. rewrite gadd_0_l. intros h Hh.
  eapply total_bind; [apply ge_p3_dbl_ok, Hh|]. cbn beta. intros r0 H0.
  eapply total_bind; [apply ge_p1p1_to_p2_ok, H0|]. cbn beta. clear H0. intros s0 H0.
  do 2 (eapply total_bind; [apply ge_p2_dbl_ok; eassumption|]; cbn beta; intros ? ?;
        eapply total_bind; [apply ge_p1p1_to_p2_ok; eassumption|]; cbn beta; intros ? ?).
  eapply total_bind; [apply ge_p2_dbl_ok; eassumption|]. cbn beta. intros r1 H1'.
  eapply total_bind; [apply ge_p1p1_to_p3_ok; eassumption|]. cbn beta. intros h1 Hh1.
  rewrite <- V, (digits_interleave 32 e L), gmul_add, gmul_mul.
  apply (smb_fold e (fun i => 2 * i)%nat 32 D 0 h1); [lia| |exact Hh1].
  intros i Hi. split; [|lia]. symmetry. apply Nat.div_unique with (r := 0%nat); lia.
Qed.

Lemma ge_double_scalarmult_base_vartime_ok a A b P :
  Forall byte a -> length a = 32%nat -> le_val a <= 2 ^ 255 ->
  Forall byte b -> length b = 32%nat -> le_val b <= 2 ^ 255 -> p3_is A P ->
  total (ge_double_scalarmult_base_vartime a A b)
    (fun r => p2_is r (gadd (gmul (le_val a) P) (gmul (le_val b) ed_B))).
Proof.
  intros Ha La Va Hb Lb Vb HA. unfold ge_double_scalarmult_base_vartime. cbv zeta.
  eapply total_bind; [apply ge_dsm_precomp_ok, HA|]. intros Ai HAi.
  apply dsm_loop_ok; [|assumption..]. intros r R d Hd Hr.
  apply dsmb_step_ok; [exact HAi|exact ge_Bi_ok|exact Hd|exact Hr].
Qed.
