(* ===== verification/HashToPoint.v ===== *)
(** * Hashing to the curve (crypto-ops.c, [ge_fromfe_frombytes_vartime])

    An Elligator-style map from any 32 bytes to a point of the curve.  The
    theorems: on every input the function is defined, every [assert] in it holds
    (those of debug builds included), and the result represents a point of the
    curve within the bounds [ge_mul8] needs. *)

From Stdlib Require Import ZArith Lia List Bool Zmod Field Setoid Morphisms.
Import ListNotations.
From S2P Require Import Prelude Primes AbGroup Edwards Loads FieldElt FieldBytes Ge GeCorrect GeBytes.
Set Default Goal Selector "!".

(** ** The function *)


(** From [fe_divpowm1] to the label [setsign]: [r->X], [z] and [sign]. *)
Definition fromfe_negative (rX z w x : fe cmach) : option (fe cmach * fe cmach * Z) :=
  x <- fe_mul x fe_sqrtm1 ;;
  y <- fe_sub w x ;;
  nz <- fe_isnonzero y ;;
  if negb (nz =? 0) then
    y <- fe_add w x ;;
    nz <- fe_isnonzero y ;;
    _ <- c_assert (nz =? 0) ;;
    rX <- fe_mul rX fe_fffb3 ;; Some (rX, z, 1)
  else
    rX <- fe_mul rX fe_fffb4 ;; Some (rX, z, 1).

Definition fromfe_positive (rX z u v : fe cmach) : option (fe cmach * fe cmach * Z) :=
  rX <- fe_mul rX u ;;
  z <- fe_mul z v ;;
  Some (rX, z, 0).

Definition fromfe_root (u v w x : fe cmach) : option (fe cmach * fe cmach * Z) :=
  rX <- fe_divpowm1 w x ;;
  y <- fe_sq rX ;;
  x <- fe_mul y x ;;
  y <- fe_sub w x ;;
  let z := fe_copy fe_ma in
  nz <- fe_isnonzero y ;;
  if negb (nz =? 0) then
    y <- fe_add w x ;;
    nz <- fe_isnonzero y ;;
    if negb (nz =? 0) then fromfe_negative rX z w x
    else rX <- fe_mul rX fe_fffb1 ;; fromfe_positive rX z u v
  else rX <- fe_mul rX fe_fffb2 ;; fromfe_positive rX z u v.

(** The label [setsign]. *)
Definition fromfe_setsign (rX : fe cmach) (sign : Z) : option (fe cmach) :=
  n <- fe_isnegative rX ;;
  if negb (n =? sign) then
    nz <- fe_isnonzero rX ;;
    _ <- c_assert (negb (nz =? 0)) ;;
    fe_neg rX
  else Some rX.

(** The curve equation, as a debug build asserts it. *)
Definition fromfe_check (r : ge_p2 cmach) : option unit :=
  check_iz <- fe_invert (p2_Z r) ;;
  check_x <- fe_mul (p2_X r) check_iz ;;
  check_y <- fe_mul (p2_Y r) check_iz ;;
  check_x <- fe_sq check_x ;;
  check_y <- fe_sq check_y ;;
  check_v <- fe_mul check_x check_y ;;
  check_v <- fe_mul fe_d check_v ;;
  check_v <- fe_add check_v check_x ;;
  check_v <- fe_sub check_v check_y ;;
  let check_x := fe_1 in
  check_v <- fe_add check_v check_x ;;
  nz <- fe_isnonzero check_v ;;
  c_assert (nz =? 0).

Definition ge_fromfe_frombytes_vartime (s : list Z) : option (ge_p2 cmach) :=
  h <- @fe_fromfe_load cmach s ;;
  u <- fe_frombytes_carry h ;;
  v <- fe_sq2 u ;;
  let w := fe_1 in
  w <- fe_add v w ;;
  x <- fe_sq w ;;
  y <- fe_mul fe_ma2 v ;;
  x <- fe_add x y ;;
  '(rX, z, sign) <- fromfe_root u v w x ;;
  rX <- fromfe_setsign rX sign ;;
  rZ <- fe_add z w ;;
  rY <- fe_sub z w ;;
  rX <- fe_mul rX rZ ;;
  let r := mk_p2 rX rY rZ in
  _ <- fromfe_check r ;;
  Some r.

(** ** The map on residues *)

Section Map.
Local Open Scope F_scope.

(** The Montgomery coefficient. *)
Definition mont_A : F := toF 486662.

Lemma mont_A_d : mont_A * (1 + ed_d) = (1 + 1) * (1 - ed_d).
Proof. apply F_eqb_eq. vm_compute. reflexivity. Qed.
Lemma feF_ma : feF fe_ma = - mont_A.
Proof. apply F_eqb_eq. vm_compute. reflexivity. Qed.
Lemma feF_ma2 : feF fe_ma2 = - (mont_A * mont_A).
Proof. apply F_eqb_eq. vm_compute. reflexivity. Qed.

(** The constants are the square roots their comments say. *)
Definition AA2 : F := mont_A * (mont_A + (1 + 1)).
Lemma fffb1_sq : feF fe_fffb1 * feF fe_fffb1 = - ((1 + 1) * AA2).
Proof. apply F_eqb_eq. vm_compute. reflexivity. Qed.
Lemma fffb2_sq : feF fe_fffb2 * feF fe_fffb2 = (1 + 1) * AA2.
Proof. apply F_eqb_eq. vm_compute. reflexivity. Qed.
Lemma fffb3_sq : feF fe_fffb3 * feF fe_fffb3 = - (ed_i * AA2).
Proof. apply F_eqb_eq. vm_compute. reflexivity. Qed.
Lemma fffb4_sq : feF fe_fffb4 * feF fe_fffb4 = ed_i * AA2.
Proof. apply F_eqb_eq. vm_compute. reflexivity. Qed.
Lemma AA2_nz : AA2 <> 0.
Proof. apply F_neq. vm_compute. reflexivity. Qed.
Lemma mont_A_nz : mont_A <> 0.
Proof. apply F_neq. vm_compute. reflexivity. Qed.

(** 2 is not a square. *)
Lemma two_euler : powmod p_red 2 (Z.to_pos ((p25519 - 1) / 2)) = (p25519 - 1)%Z.
Proof. vm_compute. reflexivity. Qed.

Lemma two_nonsquare (a b : F) : a * a = (1 + 1) * (b * b) -> b = 0.
Proof.
  intros E. destruct (F_eq_dec b 0) as [|Hb]; [assumption|exfalso].
  destruct (toF_surj (a / b)) as (z & _ & Ez).
  apply (euler_nonsquare p25519 ((p25519 - 1) / 2) p_red z 2 p25519_prime eq_refl eq_refl p_red_ok
    ltac:(split; [discriminate|reflexivity]) two_euler eq_refl).
  apply toF_eq. rewrite toF_mul, <- Ez. change 2%Z with (1 + 1)%Z. rewrite toF_add, toF_1.
  transitivity (a * a / (b * b)); [field; exact Hb|]. rewrite E. field. exact Hb.
Qed.

(** [w = 2 u^2 + 1] and [x = w^2 - 2 A^2 u^2] never vanish. *)
Lemma map_w_nz u : (1 + 1) * (u * u) + 1 <> 0.
Proof.
  intros E. assert (u = 0) as ->.
  { apply (two_nonsquare ed_i). rewrite ed_i_spec.
    transitivity (((1 + 1) * (u * u) + 1) - 1); [rewrite E; ring|ring]. }
  apply F_1_nz. rewrite <- E. ring.
Qed.

Lemma map_x_nz u w : w = (1 + 1) * (u * u) + 1 ->
  w * w + - (mont_A * mont_A) * ((1 + 1) * (u * u)) <> 0.
Proof.
  intros Ew E. assert (mont_A * u = 0) as Z.
  { apply (two_nonsquare w). transitivity (w * w + - (mont_A * mont_A) * ((1 + 1) * (u * u)) +
      (1 + 1) * (mont_A * u * (mont_A * u))); [ring|]. rewrite E. ring. }
  apply F_mul_0 in Z as [Z|Z]; [exact (mont_A_nz Z)|]. subst u.
  apply F_1_nz. rewrite <- E, Ew. ring.
Qed.

(** The point with [x^2 (z^2 + A z w + w^2) = - (A + 2) z w] and [y = (z - w) / (z + w)]. *)
Lemma map_curve X z w :
  X * X * (z * z + mont_A * z * w + w * w) = - ((mont_A + (1 + 1)) * z * w) ->
  (z - w) * (z - w) - X * X * ((z + w) * (z + w)) =
  (z + w) * (z + w) + ed_d * (X * X) * ((z - w) * (z - w)).
Proof.
  intros K. pose proof mont_A_d as D.
  assert (X * X * ((1 + ed_d) * (z * z + w * w) + (1 + 1) * (1 - ed_d) * z * w) =
          - ((1 + 1) * (1 + 1)) * z * w) as E.
  { rewrite <- D. transitivity ((1 + ed_d) * (X * X * (z * z + mont_A * z * w + w * w))); [ring|].
    rewrite K. transitivity (- (mont_A * (1 + ed_d) + (1 + 1) * (1 + ed_d)) * z * w); [ring|].
    rewrite D. ring. }
  transitivity ((z + w) * (z + w) + ed_d * (X * X) * ((z - w) * (z - w)) +
    (- ((1 + 1) * (1 + 1)) * z * w -
     X * X * ((1 + ed_d) * (z * z + w * w) + (1 + 1) * (1 - ed_d) * z * w))); [ring|].
  rewrite E. ring.
Qed.

Lemma map_Z_nz X z w : w <> 0 ->
  X * X * (z * z + mont_A * z * w + w * w) = - ((mont_A + (1 + 1)) * z * w) -> z + w <> 0.
Proof.
  intros Hw K E. pose proof (map_curve X z w K) as C. rewrite E in C.
  assert (z = - w) as -> by (transitivity ((z + w) - w); [ring|rewrite E; ring]).
  assert (X * (- w - w) = 0) as Z.
  { apply (ed_nonsquare (- w - w)). transitivity ((- w - w) * (- w - w) - X * X * (0 * 0)); [ring|].
    rewrite C. ring. }
  assert (((1 + 1) * w) * ((1 + 1) * w) = 0) as E0.
  { transitivity ((- w - w) * (- w - w) - X * X * (0 * 0)); [ring|]. rewrite C.
    transitivity (ed_d * (X * (- w - w)) * (X * (- w - w))); [ring|]. rewrite Z. ring. }
  apply (F_mul_nz ((1 + 1) * w) ((1 + 1) * w)); auto with fe_F nocore.
Qed.

(** A fourth root of unity. *)
Lemma candidate_unit u v n : p25519 = (4 * (2 * n + 1) + 1)%Z -> (0 <= n)%Z -> v <> 0 -> u <> 0 ->
  let q := Zmod.pow (uv7 u v) (2 * n + 1) in q = 1 \/ q = - (1) \/ q = ed_i \/ q = - ed_i.
Proof.
  intros Hp Hn Hv Hu q.
  assert (uv7 u v <> 0) as Nz by (unfold uv7; auto 20 with fe_F nocore).
  assert ((q - 1) * (q + 1) * ((q - ed_i) * (q + ed_i)) = 0) as E.
  { transitivity ((q * q - 1) * (q * q - ed_i * ed_i)); [ring|]. rewrite ed_i_spec.
    transitivity (q * q * (q * q) - 1); [ring|].
    assert (q * q * (q * q) = 1) as ->; [|ring].
    unfold q. rewrite <- !Zmod.pow_add_r_nonneg by lia.
    rewrite <- (Zmod.fermat_nz _ Nz p25519_prime). f_equal. lia. }
  assert (forall a : F, q - a = 0 -> q = a) as S by (intros a Ea; transitivity ((q - a) + a); [ring|rewrite Ea; ring]).
  apply F_mul_0 in E as [E|E]; apply F_mul_0 in E as [E|E].
  - left. apply S, E.
  - right. left. apply S. rewrite <- E. ring.
  - right. right. left. apply S, E.
  - right. right. right. apply S. rewrite <- E. ring.
Qed.
End Map.

(** ** Correctness *)

Lemma constants_tight : fe_in fe_ma fe_tight /\ fe_in fe_ma2 fe_tight /\ fe_in fe_fffb1 fe_tight /\
  fe_in fe_fffb2 fe_tight /\ fe_in fe_fffb3 fe_tight /\ fe_in fe_fffb4 fe_tight /\
  fe_in fe_sqrtm1 fe_tight /\ fe_in fe_d fe_tight.
Proof. repeat apply conj; (eapply fe_le_in; [|apply fe_const_rel]; vm_compute; reflexivity). Qed.

(** The equation that the root and [z] satisfy, and what [setsign] needs. *)
Definition root_post (w : F) (r : fe cmach * fe cmach * Z) : Prop :=
  let '(rX, z, sign) := r in
  fe_in rX fe_tight /\ fe_in z fe_tight /\ (sign = 0 \/ sign = 1 /\ feF rX <> 0%F) /\
  (feF rX * feF rX * (feF z * feF z + mont_A * feF z * w + w * w) =
   - ((mont_A + (1 + 1)) * feF z * w))%F.

Section RootCorrect.
Context (u v w x : fe cmach).
Context (Bu : fe_in u fe_tight) (Bv : fe_in v fe_tight) (Bw : fe_in w fe_small) (Bx : fe_in x fe_loose).
Context (Ev : feF v = ((1 + 1) * (feF u * feF u))%F) (Ew : feF w = (feF v + 1)%F).
Context (Ex : feF x = (feF w * feF w + - (mont_A * mont_A) * feF v)%F).
Local Open Scope F_scope.

Lemma nonzero_test f : fe_in f fe_loose ->
  exists nz, fe_isnonzero f = Some nz /\ (if (nz =? 0)%Z then feF f = 0 else feF f <> 0).
Proof.
  intros H. exists (if F_eqb (feF f) 0 then 0 else 1)%Z. split; [apply isnonzero_F, H|].
  destruct (F_eqb (feF f) 0) eqn:Q; cbn; [apply F_eqb_eq, Q|apply F_neq, Q].
Qed.

Lemma w_nz : feF w <> 0.
Proof. rewrite Ew, Ev. apply map_w_nz. Qed.

Lemma x_nz : feF x <> 0.
Proof. rewrite Ex, Ev. apply map_x_nz. rewrite Ew, Ev. reflexivity. Qed.

Lemma fromfe_positive_ok rX z : fe_in rX fe_tight -> z = fe_ma ->
  feF rX * feF rX * feF x = (1 + 1) * AA2 * feF w ->
  total (fromfe_positive rX z u v) (root_post (feF w)).
Proof.
  intros BX -> K. destruct constants_tight as [Bm _]. unfold fromfe_positive.
  fe_step fe_tight fe_mul_rel fe_mul_F. fe_step fe_tight fe_mul_rel fe_mul_F.
  apply total_ret. split; [assumption|]. split; [assumption|]. split; [left; reflexivity|].
  rewrite E, E0, feF_ma.
  transitivity (feF u * feF u * (feF rX * feF rX * feF x)); [rewrite Ex, Ew; ring|].
  rewrite K. unfold AA2. rewrite Ev. ring.
Qed.

Lemma negative_post rX : fe_in rX fe_tight -> feF rX * feF rX * feF x = AA2 * feF w ->
  root_post (feF w) (rX, fe_ma, 1%Z).
Proof.
  intros BX K. split; [assumption|]. split; [apply constants_tight|]. split.
  - right. split; [reflexivity|]. intros Z. rewrite Z in K.
    apply (F_mul_nz AA2 (feF w) AA2_nz w_nz). rewrite <- K. ring.
  - rewrite feF_ma. transitivity (feF rX * feF rX * feF x); [rewrite Ex, Ew; ring|].
    rewrite K. unfold AA2. ring.
Qed.

(** [rX^2 x = q w], the fourth root of unity [q] being neither 1 nor -1. *)
Lemma fromfe_negative_ok rX xx q : fe_in rX fe_tight -> fe_in xx fe_tight ->
  feF rX * feF rX * feF x = feF w * q -> feF xx = feF w * q -> q = ed_i \/ q = - ed_i ->
  total (fromfe_negative rX fe_ma w xx) (root_post (feF w)).
Proof.
  intros BX Bxx K Exx Hq. pose proof constants_tight as (_ & _ & _ & _ & B3 & B4 & Bi & _).
  pose proof ed_i_spec as I. pose proof w_nz as NW. unfold fromfe_negative.
  fe_step fe_tight fe_mul_rel fe_mul_F. rewrite feF_sqrtm1, Exx in E.
  fe_step fe_loose fe_sub_rel fe_sub_F.
  destruct (nonzero_test h0 B0) as (nz & -> & Hz). cbn [obind]. destruct (nz =? 0)%Z; cbn [negb].
  - fe_step fe_tight fe_mul_rel fe_mul_F. apply total_ret, negative_post; [assumption|].
    rewrite E1. transitivity (feF rX * feF rX * feF x * (feF fe_fffb4 * feF fe_fffb4)); [ring|].
    rewrite K, fffb4_sq. transitivity (feF w * q * ed_i * AA2); [ring|]. rewrite <- E.
    rewrite E0 in Hz. replace (feF h) with (feF w) by
      (transitivity ((feF w - feF h) + feF h); [ring|rewrite Hz; ring]). ring.
  - fe_step fe_loose fe_add_rel fe_add_F.
    assert (feF h = - feF w) as Em.
    { destruct Hq as [-> | ->]; rewrite E.
      - transitivity (feF w * (ed_i * ed_i)); [ring|]. rewrite I. ring.
      - exfalso. apply Hz. rewrite E0, E.
        transitivity (feF w * (1 + ed_i * ed_i)); [ring|]. rewrite I. ring. }
    destruct (nonzero_test h1 B1) as (nz' & -> & Hz'). cbn [obind].
    rewrite E1, Em in Hz'. destruct (nz' =? 0)%Z; cbn [c_assert obind].
    2:{ exfalso. apply Hz'. ring. }
    fe_step fe_tight fe_mul_rel fe_mul_F. apply total_ret, negative_post; [assumption|].
    rewrite E2. transitivity (feF rX * feF rX * feF x * (feF fe_fffb3 * feF fe_fffb3)); [ring|].
    rewrite K, fffb3_sq. transitivity (- (feF w * q * ed_i) * AA2); [ring|]. rewrite <- E, Em. ring.
Qed.

Lemma fromfe_root_ok : total (fromfe_root u v w x) (root_post (feF w)).
Proof.
  pose proof constants_tight as (_ & _ & B1' & B2' & _). pose proof w_nz as NW. unfold fromfe_root.
  eapply total_bind; [apply fe_divpowm1_F; [apply fe_small_wide, Bw|apply fe_loose_wide, Bx]|].
  intros rX [BX EX].
  pose proof (candidate_square (feF w) (feF x) root_exp root_exp_nonneg) as Sq. cbv zeta in Sq.
  rewrite <- EX in Sq. clear EX.
  pose proof (candidate_unit (feF w) (feF x) root_exp eq_refl root_exp_nonneg x_nz NW) as Hq.
  cbv zeta in Hq. set (q := Zmod.pow _ (2 * root_exp + 1)) in *. clearbody q.
  fe_step fe_tight fe_sq_rel fe_sq_F. fe_step fe_tight fe_mul_rel fe_mul_F. rewrite E, Sq in E0.
  fe_step fe_loose fe_sub_rel fe_sub_F. cbv zeta. rewrite fe_copy_id.
  destruct (nonzero_test h1 B1) as (nz & -> & Hz). cbn [obind]. rewrite E1, E0 in Hz.
  destruct (nz =? 0)%Z; cbn [negb].
  { fe_step fe_tight fe_mul_rel fe_mul_F. apply fromfe_positive_ok; [assumption|reflexivity|].
    rewrite E2. transitivity (feF rX * feF rX * feF x * (feF fe_fffb2 * feF fe_fffb2)); [ring|].
    rewrite Sq, fffb2_sq. replace (feF w * q) with (feF w) by
      (transitivity ((feF w - feF w * q) + feF w * q); [ring|rewrite Hz; ring]). ring. }
  fe_step fe_loose fe_add_rel fe_add_F.
  destruct (nonzero_test h2 B2) as (nz' & -> & Hz'). cbn [obind]. rewrite E2, E0 in Hz'.
  destruct (nz' =? 0)%Z; cbn [negb].
  { fe_step fe_tight fe_mul_rel fe_mul_F. apply fromfe_positive_ok; [assumption|reflexivity|].
    rewrite E3. transitivity (feF rX * feF rX * feF x * (feF fe_fffb1 * feF fe_fffb1)); [ring|].
    rewrite Sq, fffb1_sq. replace (feF w * q) with (- feF w) by
      (transitivity ((feF w + feF w * q) - feF w); [rewrite Hz'; ring|ring]). ring. }
  apply (fromfe_negative_ok rX h0 q); try assumption.
  destruct Hq as [-> | [-> | Hq]]; [exfalso; apply Hz; ring|exfalso; apply Hz'; ring|exact Hq].
Qed.
End RootCorrect.

Section Result.
Local Open Scope F_scope.

Lemma fromfe_setsign_ok rX sign : fe_in rX fe_tight -> sign = 0%Z \/ sign = 1%Z /\ feF rX <> 0 ->
  total (fromfe_setsign rX sign) (fun r => fe_in r fe_tight /\ feF r * feF r = feF rX * feF rX).
Proof.
  intros BX Hs. unfold fromfe_setsign. pose proof (fe_tight_loose rX BX) as BL.
  rewrite fe_isnegative_ok, <- feF_mod by assumption. cbn [obind].
  destruct (Z.eqb_spec (Zmod.unsigned (feF rX) mod 2) sign) as [E|N]; cbn [negb]; [apply total_ret; auto|].
  assert (feF rX <> 0) as NX.
  { destruct Hs as [-> |[_ H]]; [|exact H]. intros Z. apply N. rewrite Z. apply parity_0. }
  destruct (nonzero_test rX BL) as (nz & -> & Hz). cbn [obind].
  destruct (nz =? 0)%Z; [contradiction|]. cbn [negb c_assert obind]. clear BL.
  eapply total_mono; [fe_run fe_tight fe_neg_rel fe_neg_F|]. cbn beta. intros r [B E].
  split; [exact B|]. rewrite E. ring.
Qed.

Definition check_bound : fe citv := fe_bound (163 * 2 ^ 26 / 100) (163 * 2 ^ 25 / 100).

Lemma fromfe_check_ok r P : p2_in r h2p_bound -> p2_rep r P -> fromfe_check r = Some tt.
Proof.
  intros [BX BY BZ] [NZ RX RY]. unfold h2p_bound in *. ge_cbn. unfold fromfe_check.
  cut (total (fromfe_check r) (fun _ => True)); [intros ([] & E & _); exact E|].
  pose proof constants_tight as (_ & _ & _ & _ & _ & _ & _ & Bd). pose proof fe_1_rel as B1'.
  unfold fromfe_check.
  eapply total_bind; [apply fe_invert_F; [apply fe_loose_wide, BZ|exact NZ]|]. intros h [B E].
  fe_step fe_tight fe_mul_rel fe_mul_F. fe_step fe_tight fe_mul_rel fe_mul_F.
  assert (feF h0 = px P) as X by (rewrite E0, E, RX; field; exact NZ).
  assert (feF h1 = py P) as Y by (rewrite E1, E, RY; field; exact NZ). rewrite X, Y in *. clear E E0 E1.
  fe_step fe_tight fe_sq_rel fe_sq_F. fe_step fe_tight fe_sq_rel fe_sq_F.
  fe_step fe_tight fe_mul_rel fe_mul_F. fe_step fe_tight fe_mul_rel fe_mul_F.
  fe_step fe_loose fe_add_rel fe_add_F. fe_step check_bound fe_sub_rel fe_sub_F.
  fe_step fe_wide fe_add_rel fe_add_F.
  rewrite fe_isnonzero_wide by assumption. cbn [obind].
  assert (feF h8 = 0) as Z.
  { rewrite E5, E4, E3, E2, E1, E0, E, X, Y, feF_1, feF_d. pose proof (p_curve P) as C. unfold on_curve in C.
    transitivity (1 + ed_d * (px P * px P) * (py P * py P) - (py P * py P - px P * px P)); [ring|].
    rewrite C. ring. }
  apply (f_equal Zmod.unsigned) in Z. rewrite feF_mod in Z. rewrite Z. exists tt. auto.
Qed.

Lemma map_point X z w : w <> 0 ->
  X * X * (z * z + mont_A * z * w + w * w) = - ((mont_A + (1 + 1)) * z * w) ->
  exists P, px P = X /\ py P = (z - w) / (z + w).
Proof.
  intros Hw K. pose proof (map_Z_nz X z w Hw K) as NZ.
  assert (on_curve X ((z - w) / (z + w))) as C.
  { unfold on_curve. pose proof (map_curve X z w K) as C.
    set (y := (z - w) / (z + w)). assert (y * (z + w) = z - w) as Y by (unfold y; field; exact NZ).
    rewrite <- Y in C. clearbody y. apply (F_mul_cancel_r ((z + w) * (z + w))); [auto with fe_F nocore|].
    transitivity (y * (z + w) * (y * (z + w)) - X * X * ((z + w) * (z + w))); [ring|]. rewrite C. ring. }
  exists (mk_point X ((z - w) / (z + w)) (proj2 (on_curveb_ok _ _) C)). split; reflexivity.
Qed.

Lemma ge_fromfe_frombytes_vartime_ok s : Forall byte s -> length s = 32%nat ->
  total (ge_fromfe_frombytes_vartime s) (fun r => p2_in r h2p_bound /\ exists P, p2_rep r P).
Proof.
  intros Hs Hl. pose proof (fe_fromfe_ok s Hs Hl) as (u & Eu & Bu & _).
  pose proof constants_tight as (_ & Bm2 & _). pose proof fe_1_rel as B1'.
  unfold ge_fromfe_frombytes_vartime. rewrite fe_fromfe_load_ok in * by assumption. cbn [obind] in *.
  rewrite Eu. cbn [obind]. clear Eu.
  fe_step fe_tight fe_sq2_rel fe_sq2_F. fe_step fe_small fe_add_rel fe_add_F. rewrite feF_1 in E0.
  fe_step fe_tight fe_sq_rel fe_sq_F. fe_step fe_tight fe_mul_rel fe_mul_F.
  fe_step fe_loose fe_add_rel fe_add_F. rewrite E1, E2, feF_ma2 in E3.
  eapply total_bind; [apply fromfe_root_ok; eassumption|]. intros [[rX z] sign] (BX & Bz & Hsg & K).
  eapply total_bind; [apply fromfe_setsign_ok; eassumption|]. intros r [Br Er]. cbn beta in *.
  fe_step fe_loose fe_add_rel fe_add_F. fe_step fe_loose fe_sub_rel fe_sub_F.
  fe_step fe_tight fe_mul_rel fe_mul_F. rewrite <- Er in K.
  pose proof (w_nz u h h0 E E0) as NW.
  destruct (map_point _ _ _ NW K) as (P & PX & PY). pose proof (map_Z_nz _ _ _ NW K) as NZ.
  assert (p2_in (mk_p2 h6 h5 h4) h2p_bound) as Bd by (split; ge_cbn; assumption).
  assert (p2_rep (mk_p2 h6 h5 h4) P) as Rp.
  { split; ge_cbn; rewrite ?PX, ?PY, ?E6, ?E5, ?E4; [exact NZ|ring|field; exact NZ]. }
  cbv zeta. rewrite (fromfe_check_ok _ P Bd Rp). cbn [obind]. apply total_ret. eauto.
Qed.
End Result.
