(* ===== verification/CurveOrder.v ===== *)
(** * The order of the curve

    The curve has exactly [8 l] points, so [8 l Q = 0] for every point [Q].  The
    order [l] of the base point is prime (a Pocklington certificate), a point of
    order 8 completes it to a point of order [8 l], and a second coset would need
    [16 l] points, more than the [2 p] encodings there are.  What the signature
    scheme relies on follows: the multiple by 8 of any point, as hash-to-point
    returns it, has order dividing [l]. *)

From Stdlib Require Import ZArith Lia List Bool Zmod Field FinFun.
Import ListNotations.
From S2P Require Import Prelude Bytes Primes AbGroup Edwards ScalarValues GeCorrect GeBytes BaseCheck.
Set Default Goal Selector "!".

(** ** The order of the base point

    [l B = 0] for the group order [l] of ScalarValues.v, by a double-and-add on
    residues that is proved to follow the group.  With it, reducing a scalar
    modulo [l] (sc_reduce, sc_reduce32) does not change the multiple of [B]. *)

(** Projective addition of the base point. *)
Definition padd_B (p : Z * Z * Z) : Z * Z * Z :=
  let '(X, Y, Z) := p in
  let zz := rd (Z * Z) in
  let c := rd (X * B_x) in let d := rd (Y * B_y) in
  let e := rd (d_Z * rd (c * d)) in
  let f := rd (zz + p_lit - e) in let g := rd (zz + e) in
  let s := rd ((X + Y) * (B_x + B_y)) in
  let m := rd (s - (c + d) + 2 * p_lit) in
  (rd (rd (Z * f) * m), rd (rd (Z * g) * rd (c + d)), rd (f * g)).

Fixpoint pmul_B (n : positive) : Z * Z * Z :=
  match n with
  | xH => (B_x, B_y, 1)
  | xO n => pdbl (pmul_B n)
  | xI n => padd_B (pdbl (pmul_B n))
  end.

Definition is_zero (p : Z * Z * Z) : bool := let '(X, Y, Z) := p in (rd X =? 0) && eqm Y Z.

Lemma order_checked : is_zero (pmul_B (Z.to_pos l25519)) = true.
Proof. vm_compute. reflexivity. Qed.

Section Soundness.
Local Open Scope F_scope.

Lemma toF_d : toF d_Z = ed_d.
Proof. reflexivity. Qed.

Lemma padd_B_ok p P : proj_is p P -> proj_is (padd_B p) (gadd P ed_B).
Proof.
  destruct p as [[X Y] Z]. intros (NZ & EX & EY). unfold padd_B, proj_is.
  repeat (rewrite ?rd_F, ?toF_add, ?toF_sub, ?toF_mul, ?toF_lit, ?toF_d, ?toF_2).
  destruct (ed_denominators _ _ _ _ (p_curve P) (p_curve ed_B)) as [D1 D2].
  cbn [gadd ed_group px py ed_add]. change (toF B_x) with (px ed_B). change (toF B_y) with (py ed_B).
  unfold add_x, add_y. rewrite EX, EY.
  set (x := px P) in *. set (y := py P) in *. set (a := px ed_B) in *. set (b := py ed_B) in *.
  clearbody x y a b. set (z := toF Z) in *. clearbody z.
  assert (z * z + 0 - ed_d * (x * z * a * (y * z * b)) = z * z * (1 - ed_d * x * a * y * b)) as F by ring.
  assert (z * z + ed_d * (x * z * a * (y * z * b)) = z * z * (1 + ed_d * x * a * y * b)) as G by ring.
  split; [|split].
  - rewrite F, G. auto 10 with fe_F nocore.
  - rewrite F, G. field. exact D1.
  - rewrite F, G. field. exact D2.
Qed.

Lemma pmul_B_ok n : proj_is (pmul_B n) (gmul (Zpos n) ed_B).
Proof.
  induction n as [n IH|n IH|]; cbn [pmul_B].
  - change (Zpos n~1) with (2 * Zpos n + 1)%Z. rewrite gmul_succ, gmul_double.
    apply padd_B_ok, pdbl_ok, IH.
  - change (Zpos n~0) with (2 * Zpos n)%Z. rewrite gmul_double. apply pdbl_ok, IH.
  - rewrite gmul_1. apply proj_B.
Qed.

Lemma is_zero_ok p P : proj_is p P -> is_zero p = true -> P = gzero.
Proof.
  destruct p as [[X Y] Z]. intros (NZ & EX & EY). unfold is_zero. rewrite andb_true_iff, Z.eqb_eq.
  intros [H1 H2%eqm_F]. apply (f_equal toF) in H1. rewrite rd_F, toF_0, EX in H1. rewrite EY in H2.
  apply point_eq; cbn [gzero ed_group px py ed_zero]; apply (F_mul_cancel_r (toF Z)); try exact NZ.
  - rewrite H1. ring.
  - rewrite H2. ring.
Qed.
End Soundness.

Lemma order_B : gmul l25519 ed_B = gzero.
Proof.
  change l25519 with (Zpos (Z.to_pos l25519)). eapply is_zero_ok; [apply pmul_B_ok|apply order_checked].
Qed.

(** Multiples of [B] depend on the scalar modulo [l] only. *)
Lemma gmul_B_mod n : gmul (n mod l25519) ed_B = gmul n ed_B.
Proof. apply gmul_mod_order; [discriminate|apply order_B]. Qed.

Local Close Scope F_scope.

(** ** [l] is prime *)

Lemma order_prime_2551 : Z.prime 2551.
Proof. trial. Qed.
#[local] Hint Resolve order_prime_2551 : primes.
Lemma order_prime_1224481 : Z.prime 1224481.
Proof. pock 2 2551 (@nil Z). Qed.
#[local] Hint Resolve order_prime_1224481 : primes.
Lemma order_prime_531581 : Z.prime 531581.
Proof. trial. Qed.
#[local] Hint Resolve order_prime_531581 : primes.
Lemma order_prime_1257559732178653 : Z.prime 1257559732178653.
Proof. pock 2 1224481 [531581]. Qed.
#[local] Hint Resolve order_prime_1257559732178653 : primes.
Lemma order_prime_4434155615661930479 : Z.prime 4434155615661930479.
Proof. pock 2 1257559732178653 (@nil Z). Qed.
#[local] Hint Resolve order_prime_4434155615661930479 : primes.
Lemma order_prime_172054593956031949258510691 : Z.prime 172054593956031949258510691.
Proof. pock 2 4434155615661930479 (@nil Z). Qed.
#[local] Hint Resolve order_prime_172054593956031949258510691 : primes.
Lemma order_prime_19757330305831588566944191468367130476339 : Z.prime 19757330305831588566944191468367130476339.
Proof. pock 2 172054593956031949258510691 (@nil Z). Qed.
#[local] Hint Resolve order_prime_19757330305831588566944191468367130476339 : primes.
Lemma order_prime_276602624281642239937218680557139826668747 : Z.prime 276602624281642239937218680557139826668747.
Proof. pock 2 19757330305831588566944191468367130476339 (@nil Z). Qed.
#[local] Hint Resolve order_prime_276602624281642239937218680557139826668747 : primes.
Lemma l25519_prime : Z.prime l25519.
Proof. change l25519 with 7237005577332262213973186563042994240857116359379907606001950938285454250989. pock 2 276602624281642239937218680557139826668747 (@nil Z). Qed.

(** ** A point of order 8 *)

Definition T_x : Z := 14399317868200118260347934320527232580618823971194345261214217575416788799818.
Definition T_y : Z := 2707385501144840649318225287225658788936804267575313519463743609750303402022.

Lemma T_on : on_curveb (toF T_x) (toF T_y) = true.
Proof. vm_compute. reflexivity. Qed.

Definition ed_T : point := mk_point (toF T_x) (toF T_y) T_on.

Lemma proj_T : proj_is (T_x, T_y, 1) ed_T.
Proof.
  unfold proj_is. rewrite toF_1. split; [exact F_1_nz|]. cbn [px py ed_T]. split; ring.
Qed.

Definition T4 : Z * Z * Z := Eval vm_compute in pdbl (pdbl (T_x, T_y, 1)).

Lemma proj_T4 : proj_is T4 (gmul 4 ed_T).
Proof.
  change 4 with (2 * 2). rewrite gmul_double, gmul_2.
  replace T4 with (pdbl (pdbl (T_x, T_y, 1))) by (vm_compute; reflexivity). apply pdbl_ok, pdbl_ok, proj_T.
Qed.

(** The neutral element has [Y = Z]. *)
Lemma proj_nz p P : proj_is p P -> F_eqb (toF (snd (fst p))) (toF (snd p)) = false -> P <> gzero.
Proof.
  destruct p as [[X Y] Z]. cbn [fst snd]. intros (_ & _ & H) N ->. apply F_neq in N. apply N.
  rewrite H. cbn [py gzero ed_group ed_zero]. ring.
Qed.

Lemma T4_nz : gmul 4 ed_T <> gzero.
Proof. apply (proj_nz T4); [exact proj_T4|]. vm_compute. reflexivity. Qed.

Lemma T8_zero : gmul 8 ed_T = gzero.
Proof.
  change 8 with (2 * 4). rewrite gmul_double. apply (is_zero_ok (pdbl T4)); [apply pdbl_ok, proj_T4|].
  vm_compute. reflexivity.
Qed.

(** ** A point of order [8 l] *)

Definition ed_G : point := gadd ed_B ed_T.

Lemma l_odd : l25519 = 2 * ((l25519 - 1) / 2) + 1.
Proof. reflexivity. Qed.

Lemma G_order : gmul (8 * l25519) ed_G = gzero.
Proof.
  unfold ed_G. rewrite gmul_gadd, (gmul_mul 8 l25519 ed_B), order_B, gmul_zero.
  rewrite Z.mul_comm, gmul_mul, T8_zero, gmul_zero. apply gadd_0_l.
Qed.

Lemma G_not_4l : gmul (4 * l25519) ed_G <> gzero.
Proof.
  unfold ed_G. rewrite gmul_gadd, (gmul_mul 4 l25519 ed_B), order_B, gmul_zero, gadd_0_l.
  rewrite l_odd. generalize ((l25519 - 1) / 2). intros k.
  replace (4 * (2 * k + 1)) with (k * 8 + 4) by lia.
  rewrite gmul_add, gmul_mul, T8_zero, gmul_zero, gadd_0_l. exact T4_nz.
Qed.

Definition B8 : Z * Z * Z := Eval vm_compute in pmul_B 8.

Lemma B8_nz : gmul 8 ed_B <> gzero.
Proof.
  intros E. assert (proj_is B8 (gmul 8 ed_B)) as P.
  { replace B8 with (pmul_B 8) by (vm_compute; reflexivity). apply pmul_B_ok. }
  revert E. apply (proj_nz B8); [exact P|]. vm_compute. reflexivity.
Qed.

Lemma G_not_8 : gmul 8 ed_G <> gzero.
Proof. unfold ed_G. rewrite gmul_gadd, T8_zero, gadd_0_r. exact B8_nz. Qed.

(** Every proper divisor of [8 l] divides [4 l] or 8. *)
Lemma divisor_8l l g : Z.prime l -> (g | 8 * l) -> 0 < g < 8 * l -> (g | 4 * l) \/ (g | 8).
Proof.
  intros Pl D Hg. pose proof (Z.prime_ge_2 l Pl) as L2.
  destruct (Z.eq_dec (Z.gcd l g) 1) as [C|N].
  - right. apply (Z.gauss g l 8); [rewrite Z.mul_comm; exact D|]. rewrite Z.gcd_comm. exact C.
  - left. assert (l | g) as [k Ek].
    { destruct (Z.eq_dec (Z.gcd l g) l) as [E|NE]; [rewrite <- E; apply Z.gcd_divide_r|].
      exfalso. destruct Pl as [_ Pl]. pose proof (Z.gcd_nonneg l g) as G0.
      pose proof (Z.gcd_divide_l l g) as Dl. pose proof (Z.divide_pos_le (Z.gcd l g) l ltac:(lia) Dl).
      assert (Z.gcd l g <> 0) by (intros E0; apply Z.gcd_eq_0_l in E0; lia).
      apply (Pl (Z.gcd l g)); [lia|exact Dl]. }
    subst g. apply Z.mul_divide_cancel_r in D; [|lia]. apply Z.mul_divide_mono_r.
    assert (0 < k < 8) as Hk by nia.
    destruct D as [j Ej]. assert (k = 1 \/ k = 2 \/ k = 4) as [-> |[-> | ->]]; [|exists 4; reflexivity|exists 2; reflexivity|exists 1; reflexivity].
    assert (k = 1 \/ k = 2 \/ k = 3 \/ k = 4 \/ k = 5 \/ k = 6 \/ k = 7) by lia. lia.
Qed.

Lemma G_multiple_nz n : 0 < n < 8 * l25519 -> gmul n ed_G <> gzero.
Proof.
  intros Hn E. set (g := Z.gcd n (8 * l25519)).
  assert (gmul g ed_G = gzero) as Eg.
  { destruct (Z.gcd_bezout n (8 * l25519) g eq_refl) as (a & b & Hab). rewrite <- Hab.
    rewrite gmul_add, (gmul_mul a n), (gmul_mul b (8 * l25519)), E, G_order, !gmul_zero. apply gadd_0_l. }
  assert (g | n) as Dn by apply Z.gcd_divide_l. assert (g | 8 * l25519) as Dl by apply Z.gcd_divide_r.
  pose proof (Z.gcd_nonneg n (8 * l25519)) as G0. fold g in G0.
  assert (g <> 0) by (intros G1; apply Z.gcd_eq_0_l in G1; lia).
  pose proof (Z.divide_pos_le _ _ (proj1 Hn) Dn). clearbody g.
  destruct (divisor_8l l25519 g l25519_prime Dl ltac:(lia)) as [[k Ek]|[k Ek]].
  - apply G_not_4l. rewrite Ek, gmul_mul, Eg. apply gmul_zero.
  - apply G_not_8. rewrite Ek, gmul_mul, Eg. apply gmul_zero.
Qed.

Lemma G_inj a b : 0 <= a < 8 * l25519 -> 0 <= b < 8 * l25519 -> gmul a ed_G = gmul b ed_G -> a = b.
Proof.
  assert (forall a b, 0 <= a < 8 * l25519 -> 0 <= b < 8 * l25519 -> a < b ->
    gmul a ed_G = gmul b ed_G -> False) as H.
  { intros x y Hx Hy L E. apply (G_multiple_nz (y - x)); [lia|].
    rewrite gmul_sub, E. apply gadd_opp_r. }
  intros Ha Hb E. destruct (Z.lt_trichotomy a b) as [L|[L|L]]; [|exact L|]; exfalso; eauto.
Qed.

(** ** Counting *)

(** An injective map between initial segments. *)
Lemma pigeonhole n m (f : nat -> nat) : (forall i, (i < n)%nat -> (f i < m)%nat) ->
  (forall i j, (i < n)%nat -> (j < n)%nat -> f i = f j -> i = j) -> (n <= m)%nat.
Proof.
  intros Hf Hi. rewrite <- (length_seq n 0), <- (length_seq m 0), <- (length_map f (seq 0 n)).
  apply NoDup_incl_length.
  - apply Injective_map_NoDup_in; [|apply seq_NoDup].
    intros i j Hi' Hj'. apply in_seq in Hi', Hj'. apply Hi; lia.
  - intros x Hx. apply in_map_iff in Hx as (i & <- & Hi'). apply in_seq in Hi'. apply in_seq.
    pose proof (Hf i). lia.
Qed.

Lemma pigeonhole_Z n m (f : Z -> Z) : 0 <= n -> 0 <= m -> (forall i, 0 <= i < n -> 0 <= f i < m) ->
  (forall i j, 0 <= i < n -> 0 <= j < n -> f i = f j -> i = j) -> n <= m.
Proof.
  intros Hn Hm Hf Hi. apply Z2Nat.inj_le; [assumption..|].
  apply (pigeonhole _ _ (fun i => Z.to_nat (f (Z.of_nat i)))).
  - intros i L. pose proof (Hf (Z.of_nat i)). lia.
  - intros i j Li Lj E. pose proof (Hf (Z.of_nat i)). pose proof (Hf (Z.of_nat j)).
    apply Nat2Z.inj, Hi; lia.
Qed.

(** A point as a number below [2 p]: [y], and the parity of [x]. *)
Definition point_index (P : point) : Z := Zmod.unsigned (py P) + p25519 * (Zmod.unsigned (px P) mod 2).

Lemma point_index_range P : 0 <= point_index P < 2 * p25519.
Proof.
  unfold point_index. pose proof (unsigned_range (py P)) as R.
  pose proof (Z.mod_pos_bound (Zmod.unsigned (px P)) 2 ltac:(lia)) as M.
  set (y := Zmod.unsigned (py P)) in *. set (s := _ mod 2) in *. clearbody y s. revert R.
  generalize p25519. intros p R. nia.
Qed.

Lemma point_index_inj P Q : point_index P = point_index Q -> P = Q.
Proof.
  unfold point_index. intros E. pose proof (unsigned_range (py P)) as R. pose proof (unsigned_range (py Q)) as R'.
  pose proof (Z.mod_pos_bound (Zmod.unsigned (px P)) 2 ltac:(lia)) as M.
  pose proof (Z.mod_pos_bound (Zmod.unsigned (px Q)) 2 ltac:(lia)) as M'.
  assert (Zmod.unsigned (py P) = Zmod.unsigned (py Q) /\
          Zmod.unsigned (px P) mod 2 = Zmod.unsigned (px Q) mod 2) as [Ey Ex].
  { clear - E R R' M M'. set (y := Zmod.unsigned (py P)) in *. set (y' := Zmod.unsigned (py Q)) in *.
    set (s := Zmod.unsigned (px P) mod 2) in *. set (s' := Zmod.unsigned (px Q) mod 2) in *.
    clearbody y y' s s'. revert E R R'. generalize p25519. intros p E R R'.
    assert (s = 0 \/ s = 1) as [-> | ->] by lia; assert (s' = 0 \/ s' = 1) as [-> | ->] by lia; lia. }
  assert (0 <= enc P < 256 ^ Z.of_nat 32) as B.
  { unfold enc. change (256 ^ Z.of_nat 32) with (2 ^ 256).
    assert (p25519 < 2 ^ 255) as PB by reflexivity. revert PB R. norm_pow2. lia. }
  assert (enc Q = enc P) as EQ by (unfold enc; rewrite Ey, Ex; reflexivity).
  apply (encodes_unique (le_bytes 32 (enc P))); unfold encodes; rewrite le_bytes_val by exact B;
    (split; [congruence|]; split; [apply le_bytes_byte|apply le_bytes_length]).
Qed.

Lemma too_few_points : 2 * p25519 < 16 * l25519.
Proof. vm_compute. reflexivity. Qed.

Lemma l25519_pos : 0 < l25519.
Proof. vm_compute. reflexivity. Qed.

Lemma point_eq_dec (P Q : point) : {P = Q} + {P <> Q}.
Proof.
  destruct (F_eq_dec (px P) (px Q)) as [Ex|N]; [|right; congruence].
  destruct (F_eq_dec (py P) (py Q)) as [Ey|N]; [left; apply point_eq; assumption|right; congruence].
Qed.

(** Every point has order dividing [8 l]. *)
Lemma curve_order Q : gmul (8 * l25519) Q = gzero.
Proof.
  destruct (point_eq_dec (gmul (8 * l25519) Q) gzero) as [|N]; [assumption|exfalso].
  assert (forall a, gmul (8 * l25519) (gmul a ed_G) = gzero) as Z8.
  { intros a. rewrite <- gmul_mul, (Z.mul_comm _ a), gmul_mul, G_order. apply gmul_zero. }
  pose proof G_inj as GI. pose proof too_few_points as TF. pose proof l25519_pos as L0.
  pose proof (point_index_range gzero) as P0. generalize dependent l25519. intros l N Z8 GI TF L0.
  set (h i := if i <? 8 * l then gmul i ed_G else gadd Q (gmul (i - 8 * l) ed_G)).
  assert (forall i j, i < 8 * l <= j -> h i <> h j) as X.
  { intros i j [Hi Hj]. unfold h. rewrite (proj2 (Z.ltb_lt i _) Hi), (proj2 (Z.ltb_ge j _) Hj).
    intros E. apply N. replace Q with (gmul (i - (j - 8 * l)) ed_G); [apply Z8|].
    rewrite gmul_sub, E, <- gadd_assoc, gadd_opp_r. apply gadd_0_r. }
  assert (forall i j, 0 <= i < 16 * l -> 0 <= j < 16 * l -> h i = h j -> i = j) as I.
  { intros i j Hi Hj E. destruct (Z.lt_ge_cases i (8 * l)) as [Li|Li], (Z.lt_ge_cases j (8 * l)) as [Lj|Lj].
    - unfold h in E. rewrite (proj2 (Z.ltb_lt _ _) Li), (proj2 (Z.ltb_lt _ _) Lj) in E. apply GI; lia || exact E.
    - destruct (X i j); [lia|exact E].
    - destruct (X j i); [lia|symmetry; exact E].
    - unfold h in E. rewrite (proj2 (Z.ltb_ge _ _) Li), (proj2 (Z.ltb_ge _ _) Lj) in E.
      apply gadd_cancel_l, GI in E; lia. }
  enough (16 * l <= 2 * p25519) by lia.
  apply (pigeonhole_Z _ _ (fun i => point_index (h i))); [lia|lia|intros; apply point_index_range|].
  intros i j Hi Hj E. apply I; [assumption..|]. apply point_index_inj, E.
Qed.

(** The multiple of a point by the cofactor has order dividing [l]. *)
Lemma cofactor_order Q : gmul l25519 (gmul 8 Q) = gzero.
Proof. rewrite <- gmul_mul, Z.mul_comm. apply curve_order. Qed.
