(* ===== verification/Crypto.v ===== *)
(** * Keys, signatures and ring signatures (crypto.cpp)

    The functions of [crypto_ops], over crypto-ops.c.  Two components are used
    through their interface: [FastHash], which keccak.c implements, and
    [RandomSource], which random.c implements; the mutex that serialises the use
    of the generator is the threading of its state.  A function that returns
    [bool] with an output argument returns an [option] of the output; [abort()]
    and failed assertions are [None] of the outer option.

    Byte strings of the types [Hash], [PublicKey], [SecretKey], [KeyImage] and
    [KeyDerivation] have 32 bytes and those of [Signature] have 64. *)

From Stdlib Require Import ZArith Lia List Bool.
Import ListNotations.
From S2P Require Import Prelude Bytes Keccak Varint Primes AbGroup Edwards FieldElt Loads Scalar ScalarValues ScalarCorrect Ge GeCorrect GeBytes Digits GeScalar BaseTable BaseCheck HashToPoint CurveOrder.
Set Default Goal Selector "!".

(** ** Interfaces *)

Definition bytes_n (n : nat) (s : list Z) : Prop := Forall byte s /\ length s = n.

(** A hash function on byte strings below [2^31] bytes, with 32-byte results. *)
Class FastHash := {
  fast_hash : list Z -> option (list Z);
  fast_hash_ok : forall data, Z.of_nat (length data) < 2 ^ 31 -> total (fast_hash data) (bytes_n 32)
}.

(** A source of random bytes with a state. *)
Class RandomSource := {
  rnd : Type;
  rnd_ok : rnd -> Prop;
  random_bytes : nat -> rnd -> option (list Z * rnd);
  random_bytes_ok : forall n r, rnd_ok r ->
    total (random_bytes n r) (fun '(bs, r') => bytes_n n bs /\ rnd_ok r')
}.

#[export, refine] Instance keccak_hash : FastHash := { fast_hash := cn_fast_hash }.
Proof. intros data H. apply cn_fast_hash_ok, H. Defined.

#[export, refine] Instance keccak_random : RandomSource :=
  { rnd := rng; rnd_ok := rng_ok; random_bytes := generate_random_bytes }.
Proof.
  intros n r H. eapply total_mono; [apply generate_random_bytes_ok, H|].
  intros [bs r'] (L & B & R). unfold bytes_n. auto.
Defined.

(** Equality of byte strings, as [memcmp] compares them. *)
Definition bytes_eqb (a b : list Z) : bool := (length a =? length b)%nat && forallb (fun '(x, y) => x =? y) (combine a b).

Lemma bytes_eqb_iff a b : bytes_eqb a b = true <-> a = b.
Proof.
  unfold bytes_eqb. rewrite andb_true_iff, Nat.eqb_eq, forallb_forall. split.
  - intros [L H]. revert b L H. induction a as [|x a IH]; intros [|y b] L H; try discriminate L; [reflexivity|].
    f_equal; [apply Z.eqb_eq, (H (x, y)); left; reflexivity|]. apply IH; [injection L; auto|].
    intros p Hp. apply H. right. exact Hp.
  - intros ->. split; [reflexivity|]. intros [x y] H. apply Z.eqb_eq.
    induction b as [|z b IH]; [destruct H|]. destruct H as [[= <- <-]|H]; auto.
Qed.

(** ** The functions *)

Section CryptoOps.
Context {FH : FastHash} {RS : RandomSource}.

Definition random_scalar (r : rnd) : option (list Z * rnd) :=
  '(tmp, r) <- random_bytes 64 r ;;
  res <- @sc_reduce cmach tmp ;;
  Some (res, r).

Definition hash_to_scalar (data : list Z) : option (list Z) :=
  h <- fast_hash data ;; @sc_reduce32 cmach h.

Definition generate_keys (r : rnd) : option (list Z * list Z * rnd) :=
  '(sec, r) <- random_scalar r ;;
  point <- ge_scalarmult_base sec ;;
  pub <- ge_p3_tobytes point ;;
  Some (pub, sec, r).

Definition check_key (key : list Z) : option bool :=
  point <- ge_frombytes_vartime key ;;
  Some (match point with Some _ => true | None => false end).

Definition secret_key_to_public_key (sec : list Z) : option (option (list Z)) :=
  c <- @sc_check cmach sec ;;
  if negb (c =? 0) then Some None else
  point <- ge_scalarmult_base sec ;;
  pub <- ge_p3_tobytes point ;;
  Some (Some pub).

Definition generate_key_derivation (key1 key2 : list Z) : option (option (list Z)) :=
  c <- @sc_check cmach key2 ;;
  _ <- c_assert (c =? 0) ;;
  point <- ge_frombytes_vartime key1 ;;
  match point with
  | None => Some None
  | Some point =>
      point2 <- ge_scalarmult key2 point ;;
      point3 <- ge_mul8 point2 ;;
      point2 <- ge_p1p1_to_p2 point3 ;;
      derivation <- ge_tobytes point2 ;;
      Some (Some derivation)
  end.

Definition derivation_to_scalar (derivation : list Z) (output_index : Z) : option (list Z) :=
  let out := write_varint output_index in
  _ <- c_assert (length out <=? 10)%nat ;;
  hash_to_scalar (derivation ++ out).

Definition derivation_to_scalar_suffix (derivation : list Z) (output_index : Z) (suffix : list Z)
    : option (list Z) :=
  _ <- c_assert (length suffix <=? 32)%nat ;;
  let out := write_varint output_index in
  _ <- c_assert (length out <=? 10 + 32)%nat ;;
  hash_to_scalar (derivation ++ out ++ suffix).

(** The common part of the [derive_public_key] functions, from the decoded base key on. *)
Definition add_to_base (point1 : ge_p3 cmach) (scalar : list Z) : option (list Z) :=
  point2 <- ge_scalarmult_base scalar ;;
  point3 <- ge_p3_to_cached point2 ;;
  point4 <- ge_add point1 point3 ;;
  point5 <- ge_p1p1_to_p2 point4 ;;
  ge_tobytes point5.

(** The common part of the [underive_public_key] functions. *)
Definition sub_from_derived (point1 : ge_p3 cmach) (scalar : list Z) : option (list Z) :=
  point2 <- ge_scalarmult_base scalar ;;
  point3 <- ge_p3_to_cached point2 ;;
  point4 <- ge_sub point1 point3 ;;
  point5 <- ge_p1p1_to_p2 point4 ;;
  ge_tobytes point5.

Definition derive_public_key (derivation : list Z) (output_index : Z) (base : list Z)
    : option (option (list Z)) :=
  point1 <- ge_frombytes_vartime base ;;
  match point1 with
  | None => Some None
  | Some point1 =>
      scalar <- derivation_to_scalar derivation output_index ;;
      derived_key <- add_to_base point1 scalar ;;
      Some (Some derived_key)
  end.

Definition derive_public_key_suffix (derivation : list Z) (output_index : Z) (base suffix : list Z)
    : option (option (list Z)) :=
  point1 <- ge_frombytes_vartime base ;;
  match point1 with
  | None => Some None
  | Some point1 =>
      scalar <- derivation_to_scalar_suffix derivation output_index suffix ;;
      derived_key <- add_to_base point1 scalar ;;
      Some (Some derived_key)
  end.

Definition underive_public_key_and_get_scalar (derivation : list Z) (output_index : Z) (derived_key : list Z)
    : option (option (list Z * list Z)) :=
  point1 <- ge_frombytes_vartime derived_key ;;
  match point1 with
  | None => Some None
  | Some point1 =>
      hashed_derivation <- derivation_to_scalar derivation output_index ;;
      base <- sub_from_derived point1 hashed_derivation ;;
      Some (Some (base, hashed_derivation))
  end.

Definition derive_secret_key (derivation : list Z) (output_index : Z) (base : list Z) : option (list Z) :=
  c <- @sc_check cmach base ;;
  _ <- c_assert (c =? 0) ;;
  scalar <- derivation_to_scalar derivation output_index ;;
  @sc_add cmach base scalar.

Definition derive_secret_key_suffix (derivation : list Z) (output_index : Z) (base suffix : list Z)
    : option (list Z) :=
  c <- @sc_check cmach base ;;
  _ <- c_assert (c =? 0) ;;
  scalar <- derivation_to_scalar_suffix derivation output_index suffix ;;
  @sc_add cmach base scalar.

Definition underive_public_key (derivation : list Z) (output_index : Z) (derived_key : list Z)
    : option (option (list Z)) :=
  point1 <- ge_frombytes_vartime derived_key ;;
  match point1 with
  | None => Some None
  | Some point1 =>
      scalar <- derivation_to_scalar derivation output_index ;;
      base <- sub_from_derived point1 scalar ;;
      Some (Some base)
  end.

Definition underive_public_key_suffix (derivation : list Z) (output_index : Z) (derived_key suffix : list Z)
    : option (option (list Z)) :=
  point1 <- ge_frombytes_vartime derived_key ;;
  match point1 with
  | None => Some None
  | Some point1 =>
      scalar <- derivation_to_scalar_suffix derivation output_index suffix ;;
      base <- sub_from_derived point1 scalar ;;
      Some (Some base)
  end.

(** [struct s_comm]: the bytes that are hashed. *)
Definition s_comm (h key comm : list Z) : list Z := h ++ key ++ comm.

(** The debug check that [sec] and [pub] belong together. *)
Definition assert_key_pair (pub sec : list Z) : option unit :=
  c <- @sc_check cmach sec ;;
  _ <- c_assert (c =? 0) ;;
  t <- ge_scalarmult_base sec ;;
  t2 <- ge_p3_tobytes t ;;
  c_assert (bytes_eqb pub t2).

Definition generate_signature (prefix_hash pub sec : list Z) (r : rnd) : option (list Z * rnd) :=
  _ <- assert_key_pair pub sec ;;
  '(k, r) <- random_scalar r ;;
  tmp3 <- ge_scalarmult_base k ;;
  comm <- ge_p3_tobytes tmp3 ;;
  sig <- hash_to_scalar (s_comm prefix_hash pub comm) ;;
  sig32 <- @sc_mulsub cmach sig sec k ;;
  Some (sig ++ sig32, r).

Definition sig_c (sig : list Z) : list Z := firstn 32 sig.
Definition sig_r (sig : list Z) : list Z := skipn 32 sig.

(** [sc_check(sig) == 0 && sc_check(sig + 32) == 0]: the second test runs only after the first. *)
Definition sig_canonical (sig : list Z) : option bool :=
  c1 <- @sc_check cmach (sig_c sig) ;;
  if negb (c1 =? 0) then Some false else
  c2 <- @sc_check cmach (sig_r sig) ;;
  Some (c2 =? 0).

Definition check_signature (prefix_hash pub sig : list Z) : option bool :=
  valid <- check_key pub ;;
  _ <- c_assert valid ;;
  tmp3 <- ge_frombytes_vartime pub ;;
  match tmp3 with
  | None => None (* abort() *)
  | Some tmp3 =>
      valid <- sig_canonical sig ;;
      if negb valid then Some false else
      tmp2 <- ge_double_scalarmult_base_vartime (sig_c sig) tmp3 (sig_r sig) ;;
      comm <- ge_tobytes tmp2 ;;
      c <- hash_to_scalar (s_comm prefix_hash pub comm) ;;
      c <- @sc_sub cmach c (sig_c sig) ;;
      Some (sc_isnonzero c =? 0)
  end.

Definition hash_to_ec (key : list Z) : option (ge_p3 cmach) :=
  h <- fast_hash key ;;
  point <- ge_fromfe_frombytes_vartime h ;;
  point2 <- ge_mul8 point ;;
  ge_p1p1_to_p3 point2.

Definition hash_data_to_ec (data : list Z) : option (list Z) :=
  h <- fast_hash data ;;
  point <- ge_fromfe_frombytes_vartime h ;;
  point2 <- ge_mul8 point ;;
  point <- ge_p1p1_to_p2 point2 ;;
  ge_tobytes point.

Definition generate_key_image (pub sec : list Z) : option (list Z) :=
  c <- @sc_check cmach sec ;;
  _ <- c_assert (c =? 0) ;;
  point <- hash_to_ec pub ;;
  point2 <- ge_scalarmult sec point ;;
  ge_tobytes point2.

Definition generate_incomplete_key_image (pub : list Z) : option (list Z) :=
  point <- hash_to_ec pub ;; ge_p3_tobytes point.

(** ** Ring signatures

    The array [sig] of signatures is a list of 64-byte strings; an access out of
    its range is a failure.  The buffer [buf] is the bytes written so far: the
    hash of the prefix and then [ab[0].a], [ab[0].b], [ab[1].a] and so on. *)

(** The debug check that every key of the ring is valid. *)
Fixpoint assert_keys (pubs : list (list Z)) : option unit :=
  match pubs with
  | [] => Some tt
  | pub :: pubs =>
      valid <- check_key pub ;;
      _ <- c_assert valid ;;
      assert_keys pubs
  end.

(** The two commitments [ab[i].a] and [ab[i].b] of a ring member with the signature [(c, r)]. *)
Definition ring_commit (image_pre : list (ge_cached cmach)) (pub c r : list Z) : option (list Z) :=
  tmp3 <- ge_frombytes_vartime pub ;;
  match tmp3 with
  | None => None (* abort() *)
  | Some tmp3 =>
      tmp2 <- ge_double_scalarmult_base_vartime c tmp3 r ;;
      a <- ge_tobytes tmp2 ;;
      tmp3 <- hash_to_ec pub ;;
      tmp2 <- ge_double_scalarmult_precomp_vartime r tmp3 c image_pre ;;
      b <- ge_tobytes tmp2 ;;
      Some (a ++ b)
  end.

(** The commitments of the signer, from the random scalar [k]. *)
Definition ring_commit_own (pub k : list Z) : option (list Z) :=
  tmp3 <- ge_scalarmult_base k ;;
  a <- ge_p3_tobytes tmp3 ;;
  tmp3 <- hash_to_ec pub ;;
  tmp2 <- ge_scalarmult k tmp3 ;;
  b <- ge_tobytes tmp2 ;;
  Some (a ++ b).

(** [sig[i] = v] *)
Definition sig_store (i : nat) (v : list Z) (sig : list (list Z)) : option (list (list Z)) :=
  _ <- c_assert (i <? length sig)%nat ;; Some (set_nth i v sig).

(** The locals of the loop of [generate_ring_signature]; [k] is unset before the turn of the signer. *)
Record ring_state := mk_ring_state {
  rg_rnd : rnd;
  rg_sum : list Z;
  rg_k : option (list Z);
  rg_buf : list Z;
  rg_sig : list (list Z)
}.

(** One turn of that loop. *)
Definition ring_turn (image_pre : list (ge_cached cmach)) (sec_index i : nat) (pub : list Z)
    (st : ring_state) : option ring_state :=
  if (i =? sec_index)%nat then
    '(k, r) <- random_scalar (rg_rnd st) ;;
    ab <- ring_commit_own pub k ;;
    Some (mk_ring_state r (rg_sum st) (Some k) (rg_buf st ++ ab) (rg_sig st))
  else
    '(c, r) <- random_scalar (rg_rnd st) ;;
    '(r', r) <- random_scalar r ;;
    sig <- sig_store i (c ++ r') (rg_sig st) ;;
    ab <- ring_commit image_pre pub c r' ;;
    sum <- @sc_add cmach (rg_sum st) c ;;
    Some (mk_ring_state r sum (rg_k st) (rg_buf st ++ ab) sig).

Fixpoint ring_turns (image_pre : list (ge_cached cmach)) (sec_index i : nat) (pubs : list (list Z))
    (st : ring_state) : option ring_state :=
  match pubs with
  | [] => Some st
  | pub :: pubs =>
      st <- ring_turn image_pre sec_index i pub st ;;
      ring_turns image_pre sec_index (S i) pubs st
  end.

(** The debug checks of [generate_ring_signature]. *)
Definition assert_ring (image : list Z) (pubs : list (list Z)) (sec : list Z) (sec_index : nat) : option unit :=
  _ <- c_assert (sec_index <? length pubs)%nat ;;
  let pub := nth sec_index pubs [] in
  _ <- assert_key_pair pub sec ;;
  t3 <- generate_key_image pub sec ;;
  _ <- c_assert (bytes_eqb image t3) ;;
  assert_keys pubs.

Definition generate_ring_signature (prefix_hash image : list Z) (pubs : list (list Z)) (sec : list Z)
    (sec_index : nat) (sig : list (list Z)) (r : rnd) : option (list (list Z) * rnd) :=
  _ <- assert_ring image pubs sec sec_index ;;
  image_unp <- ge_frombytes_vartime image ;;
  match image_unp with
  | None => None (* abort() *)
  | Some image_unp =>
      image_pre <- ge_dsm_precomp image_unp ;;
      st <- ring_turns image_pre sec_index 0 pubs (mk_ring_state r sc_0 None prefix_hash sig) ;;
      h <- hash_to_scalar (rg_buf st) ;;
      c <- @sc_sub cmach h (rg_sum st) ;;
      k <- rg_k st ;;
      r' <- @sc_mulsub cmach c sec k ;;
      sig <- sig_store sec_index (c ++ r') (rg_sig st) ;;
      Some (sig, rg_rnd st)
  end.

(** The loop of [check_ring_signature], with the buffer and the sum at its end; [None] inside is
    its [return false]. *)
Fixpoint check_turns (image_pre : list (ge_cached cmach)) (pubs : list (list Z)) (sig : list (list Z))
    (sum buf : list Z) : option (option (list Z * list Z)) :=
  match pubs, sig with
  | [], _ => Some (Some (sum, buf))
  | _ :: _, [] => None (* sig[i] out of range *)
  | pub :: pubs, s :: sig =>
      valid <- sig_canonical s ;;
      if negb valid then Some None else
      ab <- ring_commit image_pre pub (sig_c s) (sig_r s) ;;
      sum <- @sc_add cmach sum (sig_c s) ;;
      check_turns image_pre pubs sig sum (buf ++ ab)
  end.

Definition check_ring_signature (prefix_hash image : list Z) (pubs sig : list (list Z)) : option bool :=
  _ <- assert_keys pubs ;;
  image_unp <- ge_frombytes_vartime image ;;
  match image_unp with
  | None => Some false
  | Some image_unp =>
      image_pre <- ge_dsm_precomp image_unp ;;
      res <- check_turns image_pre pubs sig sc_0 prefix_hash ;;
      match res with
      | None => Some false
      | Some (sum, buf) =>
          h <- hash_to_scalar buf ;;
          h <- @sc_sub cmach h sum ;;
          Some (sc_isnonzero h =? 0)
      end
  end.
End CryptoOps.
