(* ===== verification/CryptoCorrect.v ===== *)
(** * Correctness of crypto.cpp

    The lemmas behind the theorems on keys and signatures: every function is total
    on well-formed arguments, and its result is described in the group of the
    curve. *)

From Stdlib Require Import ZArith Lia List Bool.
Import ListNotations.
From S2P Require Import Prelude Bytes Keccak Varint Primes AbGroup Edwards FieldElt Loads Scalar ScalarValues ScalarCorrect Ge GeCorrect GeBytes Digits GeScalar BaseTable BaseCheck HashToPoint CurveOrder Crypto.
Set Default Goal Selector "!".

(** ** Scalars and points as byte strings *)

(** A reduced scalar: what [sc_check] accepts. *)
Definition scalar (s : list Z) : Prop := bytes_n 32 s /\ le_val s < l25519.

Lemma l25519_lt : l25519 <= 2 ^ 255.
Proof. apply Z.leb_le. vm_compute. reflexivity. Qed.

Lemma sc_encodes_scalar v s : sc_encodes v s -> scalar s.
Proof.
  intros (V & B & L). split; [split; assumption|]. rewrite V. apply Z.mod_pos_bound, l25519_pos.
Qed.

Lemma scalar_range s : scalar s -> 0 <= le_val s < l25519.
Proof. intros ((B & _) & H). pose proof (le_val_range s B). lia. Qed.

Lemma scalar_le s : scalar s -> le_val s <= 2 ^ 255.
Proof. intros (_ & H). pose proof l25519_lt. lia. Qed.

Lemma scalar_top s : scalar s -> nth 31 s 0 <= 127.
Proof.
  intros ((B & L) & H). pose proof l25519_lt as T.
  pose proof (le_val_skipn s 31 B) as K. change (8 * Z.of_nat 31) with 248 in K.
  change (nth 31 s 0) with (nth (31 + 0) s 0). rewrite nth_skipn_0.
  pose proof (length_skipn 31 s) as L'. rewrite L in L'.
  destruct (skipn 31 s) as [|b [|? ?]]; try discriminate L'. cbn [le_val nth] in *.
  assert (le_val s / 2 ^ 248 < 128); [|lia].
  apply Z.div_lt_upper_bound; [lia|]. change (2 ^ 248 * 128) with (2 ^ 255). lia.
Qed.

(** [sc_check] decides [scalar]. *)
Lemma sc_check_scalar s : bytes_n 32 s ->
  exists c, @sc_check cmach s = Some c /\ (c =? 0) = (le_val s <? l25519).
Proof.
  intros [B L]. eexists. split; [apply sc_check_ok; assumption|]. destruct (_ <? _); reflexivity.
Qed.

Lemma sc_check_ok0 s : scalar s -> @sc_check cmach s = Some 0.
Proof.
  intros ((B & L) & H). rewrite sc_check_ok by assumption. apply Z.ltb_lt in H. rewrite H. reflexivity.
Qed.

Lemma encodes_inj s t P : encodes s P -> encodes t P -> s = t.
Proof. intros (V & B & L) (V' & B' & L'). apply le_val_inj; congruence. Qed.

Lemma encodes_bytes s P : encodes s P -> bytes_n 32 s.
Proof. intros (_ & B & L). split; assumption. Qed.

Lemma bytes_eqb_refl a : bytes_eqb a a = true.
Proof. apply bytes_eqb_iff. reflexivity. Qed.

Lemma bytes_n_app n m a b : bytes_n n a -> bytes_n m b -> bytes_n (n + m) (a ++ b).
Proof.
  intros [A La] [B Lb]. split; [apply Forall_app; split; assumption|]. rewrite length_app. congruence.
Qed.

(** ** The group operations on reduced scalars *)

Lemma smb_ok s : scalar s -> total (ge_scalarmult_base s) (fun h => p3_is h (gmul (le_val s) ed_B)).
Proof. intros H. pose proof (scalar_top s H). destruct H as ((B & L) & _). apply ge_scalarmult_base_ok; assumption. Qed.

Lemma sm_ok s A P : scalar s -> p3_is A P -> total (ge_scalarmult s A) (fun h => p2_is h (gmul (le_val s) P)).
Proof. intros H. pose proof (scalar_top s H). destruct H as ((B & L) & _). apply ge_scalarmult_ok; assumption. Qed.

Lemma dsb_ok a A b P : scalar a -> scalar b -> p3_is A P ->
  total (ge_double_scalarmult_base_vartime a A b)
    (fun r => p2_is r (gadd (gmul (le_val a) P) (gmul (le_val b) ed_B))).
Proof.
  intros Ha Hb. pose proof (scalar_le a Ha). pose proof (scalar_le b Hb).
  destruct Ha as ((Ba & La) & _), Hb as ((Bb & Lb) & _). apply ge_double_scalarmult_base_vartime_ok; assumption.
Qed.

Lemma dsp_ok a A b Bi P Q : scalar a -> scalar b -> p3_is A P -> odd_multiples ca_is Q Bi ->
  total (ge_double_scalarmult_precomp_vartime a A b Bi)
    (fun r => p2_is r (gadd (gmul (le_val a) P) (gmul (le_val b) Q))).
Proof.
  intros Ha Hb. pose proof (scalar_le a Ha). pose proof (scalar_le b Hb).
  destruct Ha as ((Ba & La) & _), Hb as ((Bb & Lb) & _). apply ge_double_scalarmult_precomp_vartime_ok; assumption.
Qed.

Lemma frombytes_ok s P : encodes s P ->
  exists h, ge_frombytes_vartime s = Some (Some h) /\ p3_is h P.
Proof.
  intros E. destruct (encodes_bytes s P E) as [B L].
  destruct (ge_frombytes_vartime_ok s B L) as ([h|] & R & H); [|destruct (H P E)].
  destruct H as (Q & HQ & EQ). rewrite (encodes_unique s Q P EQ E) in HQ. eauto.
Qed.

Lemma frombytes_none s : bytes_n 32 s -> (forall P, ~ encodes s P) -> ge_frombytes_vartime s = Some None.
Proof.
  intros [B L] N. destruct (ge_frombytes_vartime_ok s B L) as ([h|] & R & H); [|exact R].
  destruct H as (Q & _ & EQ). destruct (N Q EQ).
Qed.

(** Every string of 32 bytes is the encoding of a point or of none. *)
Lemma encodes_dec s : bytes_n 32 s -> (exists P, encodes s P) \/ (forall P, ~ encodes s P).
Proof.
  intros [B L]. destruct (ge_frombytes_vartime_ok s B L) as ([h|] & _ & H); [|auto].
  destruct H as (P & _ & E). eauto.
Qed.

Create HintDb crypto discriminated.
#[export] Hint Constants Opaque : crypto.
#[export] Hint Resolve smb_ok sm_ok dsb_ok dsp_ok ge_p3_tobytes_ok ge_tobytes_ok ge_p1p1_to_p2_ok ge_p1p1_to_p3_ok
  ge_add_ok ge_sub_ok ge_p3_to_cached_ok ge_mul8_ok ge_dsm_precomp_ok sc_encodes_scalar encodes_bytes : crypto.

(** [step]: run the next call of a sequence, with the lemma about it from the hints. *)
Ltac step := eapply total_bind; [eauto 3 with crypto nocore|]; cbn beta; intros ? ?.
Ltac done_with := apply total_ret.

Section CryptoOps.
Context {FH : FastHash} {RS : RandomSource}.

Lemma random_scalar_ok r : rnd_ok r -> total (random_scalar r) (fun '(s, r') => scalar s /\ rnd_ok r').
Proof.
  intros H. unfold random_scalar. eapply total_bind; [apply random_bytes_ok, H|]. intros [tmp r'] ((B & L) & H').
  eapply total_bind; [apply sc_reduce_ok; assumption|]. cbn beta. intros s Hs. apply total_ret.
  eauto using sc_encodes_scalar.
Qed.

Lemma hash_to_scalar_ok data : Z.of_nat (length data) < 2 ^ 31 -> total (hash_to_scalar data) scalar.
Proof.
  intros H. unfold hash_to_scalar. eapply total_bind; [apply fast_hash_ok, H|]. intros h [B L].
  eapply total_mono; [apply sc_reduce32_ok; assumption|]. apply sc_encodes_scalar.
Qed.

Lemma generate_keys_ok r : rnd_ok r -> total (generate_keys r)
  (fun '(pub, sec, r') => scalar sec /\ encodes pub (gmul (le_val sec) ed_B) /\ rnd_ok r').
Proof.
  intros H. unfold generate_keys. eapply total_bind; [apply random_scalar_ok, H|]. intros [sec r'] [Hs Hr].
  step. step. apply total_ret. auto.
Qed.

Lemma check_key_ok key : bytes_n 32 key ->
  exists b, check_key key = Some b /\ (b = true <-> exists P, encodes key P).
Proof.
  intros H. unfold check_key. destruct (encodes_dec key H) as [(P & E)|N].
  - destruct (frombytes_ok key P E) as (h & -> & _). exists true. split; [reflexivity|]. split; eauto.
  - rewrite (frombytes_none key H N). exists false. split; [reflexivity|]. split; [discriminate|].
    intros (P & E). destruct (N P E).
Qed.

Lemma check_key_true key P : encodes key P -> check_key key = Some true.
Proof.
  intros E. destruct (check_key_ok key (encodes_bytes key P E)) as (b & -> & H). f_equal. apply H. eauto.
Qed.

Lemma secret_key_to_public_key_ok sec : bytes_n 32 sec ->
  total (secret_key_to_public_key sec) (fun r =>
    match r with
    | Some pub => scalar sec /\ encodes pub (gmul (le_val sec) ed_B)
    | None => l25519 <= le_val sec
    end).
Proof.
  intros H. unfold secret_key_to_public_key. destruct (sc_check_scalar sec H) as (c & -> & E). cbn [obind].
  rewrite E. destruct (Z.ltb_spec (le_val sec) l25519) as [Lt|Ge]; cbn [negb]; [|apply total_ret; exact Ge].
  assert (scalar sec) as Hs by (split; assumption). step. step. apply total_ret. auto.
Qed.

(** *** Derivation of one-time keys *)

Lemma generate_key_derivation_ok key1 key2 P : encodes key1 P -> scalar key2 ->
  total (generate_key_derivation key1 key2)
    (fun r => exists d, r = Some d /\ encodes d (gmul (8 * le_val key2) P)).
Proof.
  intros E H. unfold generate_key_derivation. rewrite (sc_check_ok0 key2 H). cbn [obind c_assert Z.eqb].
  destruct (frombytes_ok key1 P E) as (h & -> & Hh). cbn [obind]. do 4 step. apply total_ret.
  eexists. split; [reflexivity|]. rewrite gmul_mul. assumption.
Qed.

Lemma write_varint_short i : 0 <= i < 2 ^ 64 -> (length (write_varint i) <= 10)%nat.
Proof. intros H. apply (write_varint_ok i H). Qed.

Lemma derivation_to_scalar_ok d i : bytes_n 32 d -> 0 <= i < 2 ^ 64 ->
  derivation_to_scalar d i = hash_to_scalar (d ++ write_varint i) /\ total (derivation_to_scalar d i) scalar.
Proof.
  intros [B L] H. pose proof (write_varint_short i H) as Lw.
  assert (derivation_to_scalar d i = hash_to_scalar (d ++ write_varint i)) as E.
  { unfold derivation_to_scalar. apply Nat.leb_le in Lw. rewrite Lw. reflexivity. }
  split; [exact E|]. rewrite E. apply hash_to_scalar_ok. rewrite length_app. lia.
Qed.

Lemma derivation_to_scalar_suffix_ok d i x : bytes_n 32 d -> 0 <= i < 2 ^ 64 -> (length x <= 32)%nat ->
  total (derivation_to_scalar_suffix d i x) scalar.
Proof.
  intros [B L] H Lx. pose proof (write_varint_short i H) as Lw. unfold derivation_to_scalar_suffix.
  assert (length (write_varint i) <= 10 + 32)%nat as Lw' by lia.
  apply Nat.leb_le in Lx as Lx'. apply Nat.leb_le in Lw'. rewrite Lx', Lw'. cbn [obind c_assert].
  apply hash_to_scalar_ok. rewrite !length_app. lia.
Qed.

Lemma add_to_base_ok h P s : p3_is h P -> scalar s ->
  total (add_to_base h s) (fun k => encodes k (gadd P (gmul (le_val s) ed_B))).
Proof. intros Hh Hs. unfold add_to_base. do 4 step. eauto with crypto nocore. Qed.

Lemma sub_from_derived_ok h P s : p3_is h P -> scalar s ->
  total (sub_from_derived h s) (fun k => encodes k (gadd P (gopp (gmul (le_val s) ed_B)))).
Proof. intros Hh Hs. unfold sub_from_derived. do 4 step. eauto with crypto nocore. Qed.

Lemma derive_secret_ok base s : scalar base -> scalar s ->
  total (@sc_add cmach base s) (fun k => scalar k /\ gmul (le_val k) ed_B = gadd (gmul (le_val base) ed_B) (gmul (le_val s) ed_B)).
Proof.
  intros ((B & L) & _) ((B' & L') & _). eapply total_mono; [apply sc_add_ok; assumption|]. intros k Hk.
  split; [eauto using sc_encodes_scalar|]. destruct Hk as (-> & _). rewrite gmul_B_mod. apply gmul_add.
Qed.

(** *** Signatures *)

Lemma assert_key_pair_ok pub sec : scalar sec -> encodes pub (gmul (le_val sec) ed_B) ->
  assert_key_pair pub sec = Some tt.
Proof.
  intros Hs E. unfold assert_key_pair. rewrite (sc_check_ok0 sec Hs). cbn [obind c_assert Z.eqb].
  destruct (smb_ok sec Hs) as (t & -> & Ht). cbn [obind].
  destruct (ge_p3_tobytes_ok t _ Ht) as (t2 & -> & E2). cbn [obind].
  rewrite (encodes_inj pub t2 _ E E2), bytes_eqb_refl. reflexivity.
Qed.

Lemma mod_sub_zero a b m : 0 <= a < m -> 0 <= b < m -> (a - b) mod m = 0 <-> a = b.
Proof.
  intros Ha Hb. split; [|intros ->; rewrite Z.sub_diag; apply Z.mod_0_l; lia].
  intros E. apply Z.mod_divide in E as [k K]; [|lia].
  assert (- m < k * m < m) as R by lia. assert (k = 0); [|lia].
  assert (-1 < k < 1); [|lia]. split; apply (Z.mul_lt_mono_pos_r m); lia.
Qed.

(** The last step of the checks: the difference is zero when the scalars are equal. *)
Lemma sc_sub_zero h c : scalar h -> scalar c ->
  total (@sc_sub cmach h c) (fun d => (sc_isnonzero d =? 0) = true <-> h = c).
Proof.
  intros Hh Hc. pose proof (scalar_range h Hh) as Rh. pose proof (scalar_range c Hc) as Rc.
  destruct Hh as ((Bh & Lh) & _), Hc as ((Bc & Lc) & _).
  eapply total_mono; [apply sc_sub_ok; assumption|]. intros d (V & B & L).
  rewrite sc_isnonzero_ok, V by assumption. pose proof (mod_sub_zero _ _ _ Rh Rc) as M.
  destruct (Z.eqb_spec ((le_val h - le_val c) mod l25519) 0) as [E|N]; cbn [Z.eqb].
  - split; [intros _|reflexivity]. apply le_val_inj; [assumption..|congruence|]. apply M, E.
  - split; [discriminate|]. intros ->. destruct N. apply M. reflexivity.
Qed.

Lemma sig_parts sig : bytes_n 64 sig -> bytes_n 32 (sig_c sig) /\ bytes_n 32 (sig_r sig).
Proof.
  intros [B L]. split; split; [apply firstn_byte, B|unfold sig_c; rewrite length_firstn, L; reflexivity|
    apply skipn_byte, B|unfold sig_r; rewrite length_skipn, L; reflexivity].
Qed.

Lemma sig_c_app c r : bytes_n 32 c -> sig_c (c ++ r) = c.
Proof. intros [_ L]. unfold sig_c. rewrite firstn_app, L, Nat.sub_diag, firstn_all2, app_nil_r by lia. reflexivity. Qed.

Lemma sig_r_app c r : bytes_n 32 c -> sig_r (c ++ r) = r.
Proof. intros [_ L]. unfold sig_r. rewrite skipn_app, L, Nat.sub_diag, skipn_all2 by lia. reflexivity. Qed.

Lemma sig_canonical_ok sig : bytes_n 64 sig ->
  exists b, sig_canonical sig = Some b /\ (b = true <-> scalar (sig_c sig) /\ scalar (sig_r sig)).
Proof.
  intros [Hc Hr]%sig_parts. unfold sig_canonical, scalar.
  destruct (sc_check_scalar _ Hc) as (c1 & -> & E1), (sc_check_scalar _ Hr) as (c2 & -> & E2). cbn [obind].
  rewrite E1. destruct (Z.ltb_spec (le_val (sig_c sig)) l25519); cbn [negb].
  - exists (c2 =? 0). split; [reflexivity|]. rewrite E2, Z.ltb_lt. tauto.
  - exists false. split; [reflexivity|]. split; [discriminate|]. intros ((_ & ?) & _). lia.
Qed.

Lemma s_comm_length h key comm : bytes_n 32 h -> bytes_n 32 key -> bytes_n 32 comm ->
  Z.of_nat (length (s_comm h key comm)) < 2 ^ 31.
Proof. intros [_ L1] [_ L2] [_ L3]. unfold s_comm. rewrite !length_app, L1, L2, L3. reflexivity. Qed.

(** What a signature [(c, r)] of a key [P] has to satisfy. *)
Definition sig_valid (prefix_hash pub : list Z) (P : point) (c r : list Z) : Prop :=
  scalar c /\ scalar r /\
  exists comm, encodes comm (gadd (gmul (le_val c) P) (gmul (le_val r) ed_B)) /\
    hash_to_scalar (s_comm prefix_hash pub comm) = Some c.

Lemma check_signature_ok h pub P sig : bytes_n 32 h -> encodes pub P -> bytes_n 64 sig ->
  exists b, check_signature h pub sig = Some b /\ (b = true <-> sig_valid h pub P (sig_c sig) (sig_r sig)).
Proof.
  intros Hh E Hs. unfold check_signature, sig_valid. rewrite (check_key_true pub P E). cbn [obind c_assert].
  destruct (frombytes_ok pub P E) as (t & -> & Ht). cbn [obind].
  destruct (sig_canonical_ok sig Hs) as ([] & -> & C); cbn [obind negb].
  2: { exists false. split; [reflexivity|]. split; [discriminate|]. intros (Hc & Hr & _). apply C. auto. }
  destruct (proj1 C eq_refl) as [Hc Hr]. destruct (dsb_ok _ _ _ _ Hc Hr Ht) as (t2 & -> & H2). cbn [obind].
  destruct (ge_tobytes_ok _ _ H2) as (comm & -> & Ec). cbn [obind].
  destruct (hash_to_scalar_ok (s_comm h pub comm)) as (c & Eh & Sc).
  { apply s_comm_length; eauto using encodes_bytes. }
  rewrite Eh. cbn [obind]. destruct (sc_sub_zero c (sig_c sig) Sc Hc) as (d & -> & Z). cbn [obind].
  eexists. split; [reflexivity|]. rewrite Z. split.
  - intros ->. split; [assumption|]. split; [assumption|]. exists comm. split; [assumption|]. rewrite Eh. reflexivity.
  - intros (_ & _ & comm' & E' & H'). rewrite (encodes_inj comm' comm _ E' Ec), Eh in H'. congruence.
Qed.

(** The equation of a response [r = k - c s] for a point of the order of the group. *)
Lemma response_eq c s k v Q : gmul l25519 Q = gzero -> v = (k - c * s) mod l25519 ->
  gadd (gmul c (gmul s Q)) (gmul v Q) = gmul k Q.
Proof.
  intros O ->. rewrite gmul_mod_order by (exact O || (pose proof l25519_pos; lia)).
  rewrite <- gmul_mul, <- gmul_add. f_equal. lia.
Qed.

Lemma generate_signature_ok h pub sec r : bytes_n 32 h -> scalar sec -> encodes pub (gmul (le_val sec) ed_B) ->
  rnd_ok r -> total (generate_signature h pub sec r) (fun '(sig, r') => bytes_n 64 sig /\ rnd_ok r' /\
    sig_valid h pub (gmul (le_val sec) ed_B) (sig_c sig) (sig_r sig)).
Proof.
  intros Hh Hs E Hr. unfold generate_signature. rewrite (assert_key_pair_ok pub sec Hs E). cbn [obind].
  eapply total_bind; [apply random_scalar_ok, Hr|]. intros [k r'] [Hk Hr'].
  step. eapply total_bind; [eauto with crypto nocore|]. cbn beta. intros comm Ec.
  assert (Z.of_nat (length (s_comm h pub comm)) < 2 ^ 31) as Lc by (apply s_comm_length; eauto using encodes_bytes).
  destruct (hash_to_scalar_ok _ Lc) as (c & Eh & Hc). rewrite Eh. cbn [obind].
  pose proof Hc as ((Bc & Ldc) & _). pose proof Hs as ((Bs & Ls) & _). pose proof Hk as ((Bk & Lk) & _).
  eapply total_bind; [apply sc_mulsub_ok; assumption|]. cbn beta. intros v Hv. apply total_ret.
  pose proof (sc_encodes_scalar _ _ Hv) as Sv. destruct Hc as [Hc Hc'], Sv as [Sv Sv'].
  rewrite (sig_c_app c v Hc), (sig_r_app c v Hc). split; [apply (bytes_n_app 32 32); assumption|]. split; [assumption|].
  split; [split; assumption|]. split; [split; assumption|]. exists comm. split; [|exact Eh].
  rewrite (response_eq _ _ (le_val k)); [exact Ec|apply order_B|apply Hv].
Qed.

(** *** Hashing to a point and key images *)

(** [hash_to_ec] leaves a representation of [H] for the key [pub]. *)
Definition hash_point (pub : list Z) (H : point) : Prop := exists h, hash_to_ec pub = Some h /\ p3_is h H.

Lemma hash_to_ec_ok pub : bytes_n 32 pub -> exists Q, hash_point pub (gmul 8 Q).
Proof.
  intros [B L]. unfold hash_point, hash_to_ec.
  destruct (fast_hash_ok pub) as (h & -> & Bh & Lh); [rewrite L; reflexivity|]. cbn [obind].
  destruct (ge_fromfe_frombytes_vartime_ok h Bh Lh) as (p & -> & Bp & Q & Rp). cbn [obind]. exists Q.
  destruct (ge_mul8_h2p p Q Bp Rp) as (p8 & -> & H8). cbn [obind]. apply ge_p1p1_to_p3_ok, H8.
Qed.

Lemma hash_point_fun pub H H' : hash_point pub H -> hash_point pub H' -> H = H'.
Proof.
  intros (h & E & Hh) (h' & E' & Hh'). rewrite E in E'. injection E' as <-.
  destruct (ge_p3_tobytes_ok h H Hh) as (s & Es & Hs), (ge_p3_tobytes_ok h H' Hh') as (s' & Es' & Hs').
  rewrite Es in Es'. injection Es' as <-. exact (encodes_unique s H H' Hs Hs').
Qed.

Lemma hash_point_order pub H : bytes_n 32 pub -> hash_point pub H -> gmul l25519 H = gzero.
Proof.
  intros B HH. destruct (hash_to_ec_ok pub B) as (Q & HQ). rewrite (hash_point_fun pub H _ HH HQ).
  apply cofactor_order.
Qed.

Lemma hash_data_to_ec_ok data : Z.of_nat (length data) < 2 ^ 31 ->
  total (hash_data_to_ec data) (fun s => exists Q, encodes s (gmul 8 Q)).
Proof.
  intros L. unfold hash_data_to_ec. eapply total_bind; [apply fast_hash_ok, L|]. intros h [Bh Lh].
  eapply total_bind; [apply ge_fromfe_frombytes_vartime_ok; assumption|]. intros p (Bp & Q & Rp).
  eapply total_bind; [apply (ge_mul8_h2p p Q); assumption|]. cbn beta. intros p8 H8. step.
  eapply total_mono; [eauto with crypto nocore|]. cbn beta. eauto.
Qed.

Lemma generate_key_image_ok pub sec H : hash_point pub H -> scalar sec ->
  total (generate_key_image pub sec) (fun image => encodes image (gmul (le_val sec) H)).
Proof.
  intros (h & E & Hh) Hs. unfold generate_key_image. rewrite (sc_check_ok0 sec Hs). cbn [obind c_assert Z.eqb].
  rewrite E. cbn [obind]. step. eauto with crypto nocore.
Qed.

Lemma generate_incomplete_key_image_ok pub H : hash_point pub H ->
  total (generate_incomplete_key_image pub) (fun s => encodes s H).
Proof.
  intros (h & E & Hh). unfold generate_incomplete_key_image. rewrite E. cbn [obind]. eauto with crypto nocore.
Qed.

(** *** Ring signatures *)

(** [ab] holds the encodings of [A] and [B]. *)
Definition commits (ab : list Z) (A B : point) : Prop :=
  exists a b, ab = a ++ b /\ encodes a A /\ encodes b B.

Lemma commits_inj ab ab' A B : commits ab A B -> commits ab' A B -> ab = ab'.
Proof.
  intros (a & b & -> & Ha & Hb) (a' & b' & -> & Ha' & Hb').
  rewrite (encodes_inj a a' A Ha Ha'), (encodes_inj b b' B Hb Hb'). reflexivity.
Qed.

Lemma commits_length ab A B : commits ab A B -> length ab = 64%nat.
Proof. intros (a & b & -> & (_ & _ & La) & (_ & _ & Lb)). rewrite length_app, La, Lb. reflexivity. Qed.

Lemma ring_commit_ok pre I pub P H c r : odd_multiples ca_is I pre -> encodes pub P -> hash_point pub H ->
  scalar c -> scalar r -> total (ring_commit pre pub c r) (fun ab => commits ab
    (gadd (gmul (le_val c) P) (gmul (le_val r) ed_B)) (gadd (gmul (le_val r) H) (gmul (le_val c) I))).
Proof.
  intros Hp E (h & Eh & Hh) Hc Hr. unfold ring_commit. destruct (frombytes_ok pub P E) as (t & -> & Ht). cbn [obind].
  step. eapply total_bind; [eauto with crypto nocore|]. cbn beta. intros sa Ea. rewrite Eh. cbn [obind].
  step. eapply total_bind; [eauto with crypto nocore|]. cbn beta. intros sb Eb. apply total_ret.
  exists sa, sb. auto.
Qed.

Lemma ring_commit_own_ok pub H k : hash_point pub H -> scalar k ->
  total (ring_commit_own pub k) (fun ab => commits ab (gmul (le_val k) ed_B) (gmul (le_val k) H)).
Proof.
  intros (h & Eh & Hh) Hk. unfold ring_commit_own. step.
  eapply total_bind; [eauto with crypto nocore|]. cbn beta. intros sa Ea. rewrite Eh. cbn [obind].
  step. eapply total_bind; [eauto with crypto nocore|]. cbn beta. intros sb Eb. apply total_ret.
  exists sa, sb. auto.
Qed.

(** The members of a ring with their signatures: the bytes they contribute to the buffer and the
    sum of their challenges. *)
Inductive ring_members (I : point) : list (list Z) -> list (list Z) -> list Z -> Z -> Prop :=
| ring_nil : ring_members I [] [] [] 0
| ring_cons pub P H s ab pubs sigs buf v :
    encodes pub P -> hash_point pub H -> bytes_n 64 s -> scalar (sig_c s) -> scalar (sig_r s) ->
    commits ab (gadd (gmul (le_val (sig_c s)) P) (gmul (le_val (sig_r s)) ed_B))
      (gadd (gmul (le_val (sig_r s)) H) (gmul (le_val (sig_c s)) I)) ->
    ring_members I pubs sigs buf v ->
    ring_members I (pub :: pubs) (s :: sigs) (ab ++ buf) (le_val (sig_c s) + v).

(** A ring signature is valid when the challenges add up to the hash of the commitments. *)
Definition ring_valid (prefix_hash image : list Z) (pubs sigs : list (list Z)) : Prop :=
  exists I buf v h, encodes image I /\ ring_members I pubs sigs buf v /\
    hash_to_scalar (prefix_hash ++ buf) = Some h /\ le_val h = v mod l25519.

Lemma ring_members_fun I pubs sigs buf v : ring_members I pubs sigs buf v ->
  forall buf' v', ring_members I pubs sigs buf' v' -> buf = buf' /\ v = v'.
Proof.
  induction 1 as [|pub P H s ab pubs sigs buf v E HH B Hc Hr C M IH]; intros buf' v' M'; inversion M'; subst.
  - auto.
  - destruct (IH _ _ ltac:(eassumption)) as [<- <-]. split; [|reflexivity]. f_equal.
    eapply commits_inj; [exact C|]. rewrite (encodes_unique pub P P0), (hash_point_fun pub H H0) by assumption.
    assumption.
Qed.

Lemma ring_members_length I pubs sigs buf v : ring_members I pubs sigs buf v ->
  length buf = (64 * length pubs)%nat /\ Forall (bytes_n 64) sigs /\ length sigs = length pubs.
Proof.
  induction 1 as [|pub P H s ab pubs sigs buf v E HH B Hc Hr C M (IH & F & L)]; [auto|].
  rewrite length_app, (commits_length _ _ _ C), IH. cbn [length]. split; [lia|]. split; [auto|congruence].
Qed.

Lemma ring_members_app I pubs sigs buf v pubs' sigs' buf' v' : ring_members I pubs sigs buf v ->
  ring_members I pubs' sigs' buf' v' -> ring_members I (pubs ++ pubs') (sigs ++ sigs') (buf ++ buf') (v + v').
Proof.
  induction 1 as [|pub P H s ab pubs sigs buf v E HH B Hc Hr C M IH]; intros M'; [exact M'|].
  cbn [app]. rewrite <- app_assoc, <- Z.add_assoc. econstructor; eauto.
Qed.

Lemma assert_keys_ok pubs : Forall (fun pub => exists P, encodes pub P) pubs -> assert_keys pubs = Some tt.
Proof.
  induction 1 as [|pub pubs (P & E) _ IH]; cbn [assert_keys]; [reflexivity|].
  rewrite (check_key_true pub P E). exact IH.
Qed.

Lemma sum_step sum c v t : sc_encodes (le_val sum + le_val c) t -> forall w,
  sc_encodes (le_val t + v) w -> sc_encodes (le_val sum + (le_val c + v)) w.
Proof.
  intros (-> & _) w (V & B). split; [|exact B]. rewrite V, Zplus_mod_idemp_l. f_equal. lia.
Qed.

Lemma check_turns_ok I pre pubs : odd_multiples ca_is I pre -> Forall (fun pub => exists P, encodes pub P) pubs ->
  forall sigs sum buf, Forall (bytes_n 64) sigs -> length sigs = length pubs -> scalar sum ->
  (exists sum' buf' v, check_turns pre pubs sigs sum buf = Some (Some (sum', buf ++ buf')) /\
     ring_members I pubs sigs buf' v /\ sc_encodes (le_val sum + v) sum') \/
  (check_turns pre pubs sigs sum buf = Some None /\ forall buf' v, ~ ring_members I pubs sigs buf' v).
Proof.
  intros Hp. induction 1 as [|pub pubs (P & E) Hk IH]; intros [|s sigs] sum buf Hs L Sm; try discriminate L;
    cbn [check_turns].
  - left. exists sum, [], 0. rewrite app_nil_r, Z.add_0_r. split; [reflexivity|]. split; [constructor|].
    destruct (scalar_range sum Sm) as [R1 R2], Sm as ((B & Ls) & _). split; [|auto]. rewrite Z.mod_small; auto.
  - inversion_clear Hs as [|? ? Bs Hs']. injection L as L.
    destruct (sig_canonical_ok s Bs) as ([] & -> & C); cbn [obind negb].
    2: { right. split; [reflexivity|]. intros buf' v M. inversion M; subst. assert (false = true) by (apply C; auto). discriminate. }
    destruct (proj1 C eq_refl) as [Hc Hr]. destruct (hash_to_ec_ok pub (encodes_bytes _ _ E)) as (Q & HQ).
    destruct (ring_commit_ok pre I pub P _ _ _ Hp E HQ Hc Hr) as (ab & -> & Hab). cbn [obind].
    pose proof Sm as ((Bm & Lm) & _). pose proof Hc as ((Bc & Lc) & _).
    destruct (sc_add_ok sum (sig_c s) Bm Lm Bc Lc) as (t & -> & Ht). cbn [obind].
    destruct (IH sigs t (buf ++ ab) Hs' L (sc_encodes_scalar _ _ Ht)) as [(sum' & buf' & v & -> & M & V)|(-> & N)].
    + left. exists sum', (ab ++ buf'), (le_val (sig_c s) + v). rewrite app_assoc. split; [reflexivity|].
      split; [econstructor; eauto|]. eapply sum_step; eassumption.
    + right. split; [reflexivity|]. intros buf' v M. inversion M; subst. eapply N. eassumption.
Qed.

(** The bytes that are hashed for a ring of [n] keys fit the length of the hash function. *)
Definition ring_size_ok (n : nat) : Prop := 32 + 64 * Z.of_nat n < 2 ^ 31.

Lemma ring_hash_ok h buf n : bytes_n 32 h -> length buf = (64 * n)%nat -> ring_size_ok n ->
  total (hash_to_scalar (h ++ buf)) scalar.
Proof. intros [_ L] Lb R. apply hash_to_scalar_ok. rewrite length_app, L, Lb. unfold ring_size_ok in R. lia. Qed.

Lemma sc_0_scalar : scalar sc_0.
Proof. split; [split; [apply bytesb_ok; reflexivity|reflexivity]|]. apply l25519_pos. Qed.

Lemma scalar_encodes s v : scalar s -> sc_encodes v s -> forall h, scalar h -> h = s <-> le_val h = v mod l25519.
Proof.
  intros ((B & L) & _) (V & _) h ((Bh & Lh) & _). rewrite <- V. split; [intros ->; reflexivity|].
  intros E. apply le_val_inj; congruence.
Qed.

Lemma check_ring_signature_ok h image pubs sigs : bytes_n 32 h -> bytes_n 32 image ->
  Forall (fun pub => exists P, encodes pub P) pubs -> Forall (bytes_n 64) sigs -> length sigs = length pubs ->
  ring_size_ok (length pubs) ->
  exists b, check_ring_signature h image pubs sigs = Some b /\ (b = true <-> ring_valid h image pubs sigs).
Proof.
  intros Hh Hi Hk Hs L R. unfold check_ring_signature, ring_valid. rewrite (assert_keys_ok pubs Hk). cbn [obind].
  destruct (encodes_dec image Hi) as [(I & E)|N].
  2: { rewrite (frombytes_none image Hi N). exists false. split; [reflexivity|]. split; [discriminate|].
       intros (I & ? & ? & ? & E & _). destruct (N I E). }
  destruct (frombytes_ok image I E) as (u & -> & Hu). cbn [obind].
  destruct (ge_dsm_precomp_ok u I Hu) as (pre & -> & Hp). cbn [obind].
  destruct (check_turns_ok I pre pubs Hp Hk sigs sc_0 h Hs L sc_0_scalar) as [(sum & buf & v & -> & M & V)|(-> & N)].
  2: { exists false. split; [reflexivity|]. split; [discriminate|]. intros (I' & buf & v & ? & E' & M & _).
       rewrite (encodes_unique image I' I E' E) in M. destruct (N buf v M). }
  cbn [obind]. destruct (ring_hash_ok h buf _ Hh (proj1 (ring_members_length _ _ _ _ _ M)) R) as (g & Eg & Sg).
  rewrite Eg. cbn [obind]. change (le_val sc_0 + v) with (0 + v) in V. rewrite Z.add_0_l in V.
  pose proof (sc_encodes_scalar _ _ V) as Sv.
  destruct (sc_sub_zero g sum Sg Sv) as (d & -> & Z). cbn [obind]. eexists. split; [reflexivity|].
  rewrite Z, (scalar_encodes sum v Sv V g Sg). split.
  - intros Eh. exists I, buf, v, g. auto.
  - intros (I' & buf' & v' & g' & E' & M' & Eg' & Eh). rewrite (encodes_unique image I' I E' E) in M'.
    destruct (ring_members_fun _ _ _ _ _ M _ _ M') as [<- <-]. rewrite Eg in Eg'. congruence.
Qed.

Lemma sig_store_app pre post x v : sig_store (length pre) v (pre ++ x :: post) = Some (pre ++ v :: post).
Proof.
  unfold sig_store. replace (length pre <? length (pre ++ x :: post))%nat with true.
  - cbn [obind c_assert]. rewrite set_nth_app. reflexivity.
  - symmetry. apply Nat.ltb_lt. rewrite length_app. cbn [length]. lia.
Qed.

Lemma ring_turns_app pre idx l1 : forall i l2 st,
  ring_turns pre idx i (l1 ++ l2) st = (st <- ring_turns pre idx i l1 st ;; ring_turns pre idx (i + length l1) l2 st).
Proof.
  induction l1 as [|pub l1 IH]; intros i l2 st; cbn [ring_turns app length obind]; [rewrite Nat.add_0_r; reflexivity|].
  destruct (ring_turn pre idx i pub st) as [st'|]; cbn [obind]; [|reflexivity].
  rewrite IH, Nat.add_succ_comm. reflexivity.
Qed.

(** What the turns of the members [pubs] other than the signer do: their signatures are random, the
    commitments fit them, and the sum grows by their challenges. *)
Definition turns_done (I : point) (pubs done rest : list (list Z)) (st st' : ring_state) : Prop :=
  rnd_ok (rg_rnd st') /\ rg_k st' = rg_k st /\
  exists sigs buf v, rg_sig st' = done ++ sigs ++ rest /\ rg_buf st' = rg_buf st ++ buf /\
    ring_members I pubs sigs buf v /\ sc_encodes (le_val (rg_sum st) + v) (rg_sum st').

Lemma ring_turn_other I pre idx pub P st done x rest : odd_multiples ca_is I pre -> encodes pub P ->
  length done <> idx -> rnd_ok (rg_rnd st) -> scalar (rg_sum st) -> rg_sig st = done ++ x :: rest ->
  total (ring_turn pre idx (length done) pub st) (turns_done I [pub] done rest st).
Proof.
  intros Hp E N Hr Sm Es. unfold ring_turn. apply Nat.eqb_neq in N. rewrite N.
  eapply total_bind; [apply random_scalar_ok, Hr|]. intros [c r1] [Hc Hr1].
  eapply total_bind; [apply random_scalar_ok, Hr1|]. intros [s r2] [Hs Hr2].
  rewrite Es, sig_store_app. cbn [obind].
  destruct (hash_to_ec_ok pub (encodes_bytes _ _ E)) as (Q & HQ).
  eapply total_bind; [apply (ring_commit_ok pre I pub P _ c s Hp E HQ Hc Hs)|]. cbn beta. intros ab Hab.
  eapply total_bind; [apply sc_add_ok; [apply Sm|apply Sm|apply Hc|apply Hc]|]. cbn beta. intros t Ht.
  apply total_ret. split; [exact Hr2|]. split; [reflexivity|]. pose proof (proj1 Hc) as Bc.
  exists [c ++ s], (ab ++ []), (le_val (sig_c (c ++ s)) + 0). cbn [rg_sig rg_buf rg_sum].
  split; [reflexivity|]. split; [rewrite app_nil_r; reflexivity|].
  split; [econstructor|]; rewrite ?(sig_c_app c s Bc), ?(sig_r_app c s Bc), ?Z.add_0_r; eauto using ring_nil.
  apply (bytes_n_app 32 32); [exact Bc|apply Hs].
Qed.

Lemma sc_encodes_self s : scalar s -> sc_encodes (le_val s + 0) s.
Proof.
  intros S. destruct (scalar_range s S) as [R1 R2], S as ((B & L) & _). split; [|auto].
  rewrite Z.add_0_r, Z.mod_small; auto.
Qed.

Lemma ring_turns_others I pre idx pubs : odd_multiples ca_is I pre -> Forall (fun pub => exists P, encodes pub P) pubs ->
  forall st done todo rest, (idx < length done \/ length done + length pubs <= idx)%nat ->
  rnd_ok (rg_rnd st) -> scalar (rg_sum st) -> rg_sig st = done ++ todo ++ rest -> length todo = length pubs ->
  total (ring_turns pre idx (length done) pubs st) (turns_done I pubs done rest st).
Proof.
  intros Hp. induction 1 as [|pub pubs (P & E) _ IH]; intros st done [|x todo] rest Hi Hr Sm Es Lt; try discriminate Lt;
    cbn [ring_turns length] in *.
  - apply total_ret. split; [exact Hr|]. split; [reflexivity|]. exists [], [], 0. rewrite app_nil_r.
    split; [exact Es|]. split; [reflexivity|]. split; [constructor|apply sc_encodes_self, Sm].
  - eapply total_bind; [apply (ring_turn_other I pre idx pub P st done x (todo ++ rest)); auto; lia|].
    intros st1 (Hr1 & K1 & sigs1 & buf1 & v1 & Es1 & Eb1 & M1 & V1).
    destruct (ring_members_length _ _ _ _ _ M1) as (_ & _ & L1). destruct sigs1 as [|s [|? ?]]; try discriminate L1.
    replace (S (length done)) with (length (done ++ [s])) by (rewrite length_app; cbn; lia).
    eapply total_mono; [apply (IH st1 (done ++ [s]) todo rest)|].
    + rewrite length_app. cbn [length]. lia.
    + exact Hr1.
    + eauto using sc_encodes_scalar.
    + rewrite Es1, <- app_assoc. reflexivity.
    + lia.
    + intros st2 (Hr2 & K2 & sigs2 & buf2 & v2 & Es2 & Eb2 & M2 & V2). split; [exact Hr2|]. split; [congruence|].
      exists ([s] ++ sigs2), (buf1 ++ buf2), (v1 + v2). rewrite Es2, Eb2, Eb1, <- !app_assoc.
      split; [reflexivity|]. split; [reflexivity|]. split; [apply (ring_members_app I [pub]); assumption|].
      destruct V1 as (V1 & _), V2 as (V2 & B2). split; [|exact B2].
      rewrite V2, V1, Zplus_mod_idemp_l. f_equal. lia.
Qed.

Lemma assert_ring_ok image pubs1 pub pubs2 sec H : scalar sec -> encodes pub (gmul (le_val sec) ed_B) ->
  hash_point pub H -> encodes image (gmul (le_val sec) H) ->
  Forall (fun pub => exists P, encodes pub P) (pubs1 ++ pub :: pubs2) ->
  assert_ring image (pubs1 ++ pub :: pubs2) sec (length pubs1) = Some tt.
Proof.
  intros Hs E HH EI Hk. unfold assert_ring. cbv zeta. rewrite nth_middle.
  replace (length pubs1 <? length (pubs1 ++ pub :: pubs2))%nat with true
    by (symmetry; apply Nat.ltb_lt; rewrite length_app; cbn; lia).
  cbn [obind c_assert]. rewrite (assert_key_pair_ok pub sec Hs E). cbn [obind].
  destruct (generate_key_image_ok pub sec H HH Hs) as (t & -> & Et). cbn [obind].
  rewrite (encodes_inj image t _ EI Et), bytes_eqb_refl. apply assert_keys_ok, Hk.
Qed.

(** The turn of the signer. *)
Lemma ring_turn_own pre i pub H st : hash_point pub H -> rnd_ok (rg_rnd st) ->
  total (ring_turn pre i i pub st) (fun st' => rnd_ok (rg_rnd st') /\ rg_sum st' = rg_sum st /\ rg_sig st' = rg_sig st /\
    exists k ab, rg_k st' = Some k /\ scalar k /\ rg_buf st' = rg_buf st ++ ab /\
      commits ab (gmul (le_val k) ed_B) (gmul (le_val k) H)).
Proof.
  intros HH Hr. unfold ring_turn. rewrite Nat.eqb_refl.
  eapply total_bind; [apply random_scalar_ok, Hr|]. intros [k r] [Hk Hr'].
  eapply total_bind; [apply (ring_commit_own_ok pub H k HH Hk)|]. cbn beta. intros ab Hab. apply total_ret.
  cbn. eauto 10.
Qed.

(** All turns: what is left is the signature of the signer, from [k]. *)
Lemma ring_turns_ok I pre pubs1 pub pubs2 H h r sig :
  odd_multiples ca_is I pre -> hash_point pub H -> rnd_ok r ->
  Forall (fun pub => exists P, encodes pub P) (pubs1 ++ pub :: pubs2) -> length sig = length (pubs1 ++ pub :: pubs2) ->
  total (ring_turns pre (length pubs1) 0 (pubs1 ++ pub :: pubs2) (mk_ring_state r sc_0 None h sig)) (fun st =>
    rnd_ok (rg_rnd st) /\ exists sigs1 x sigs2 buf1 ab buf2 v1 v2 k,
      rg_sig st = sigs1 ++ x :: sigs2 /\ rg_buf st = h ++ buf1 ++ ab ++ buf2 /\ rg_k st = Some k /\ scalar k /\
      ring_members I pubs1 sigs1 buf1 v1 /\ ring_members I pubs2 sigs2 buf2 v2 /\
      commits ab (gmul (le_val k) ed_B) (gmul (le_val k) H) /\ sc_encodes (v1 + v2) (rg_sum st)).
Proof.
  intros Hp HH Hr [Hk1 Hk2]%Forall_app L. inversion_clear Hk2 as [|? ? _ Hk2'].
  rewrite length_app in L. cbn [length] in L.
  destruct (nth_error sig (length pubs1)) as [x|] eqn:Ex; [|apply nth_error_None in Ex; lia].
  apply nth_error_split in Ex as (s1 & s2 & -> & L1). rewrite length_app in L. cbn [length] in L.
  rewrite ring_turns_app. eapply total_bind.
  { apply (ring_turns_others I pre (length pubs1) pubs1 Hp Hk1 _ [] s1 (x :: s2)); cbn; auto using sc_0_scalar; lia. }
  intros st1 (Hr1 & _ & sigs1 & buf1 & v1 & Es1 & Eb1 & M1 & V1). cbn [app] in Es1.
  pose proof (proj2 (proj2 (ring_members_length _ _ _ _ _ M1))) as Lg1.
  cbn [ring_turns Nat.add]. eapply total_bind; [apply (ring_turn_own pre _ pub H st1 HH Hr1)|].
  intros st2 (Hr2 & Em2 & Es2 & k & ab & K2 & Hk & Eb2 & Hab).
  replace (S (length pubs1)) with (length (sigs1 ++ [x])) by (rewrite length_app; cbn; lia).
  eapply total_mono; [apply (ring_turns_others I pre (length pubs1) pubs2 Hp Hk2' st2 (sigs1 ++ [x]) s2 [])|].
  - rewrite length_app. cbn. lia.
  - exact Hr2.
  - rewrite Em2. eauto using sc_encodes_scalar.
  - rewrite Es2, Es1, <- app_assoc, app_nil_r. reflexivity.
  - lia.
  - intros st3 (Hr3 & K3 & sigs2 & buf2 & v2 & Es3 & Eb3 & M2 & V2). split; [exact Hr3|].
    exists sigs1, x, sigs2, buf1, ab, buf2, v1, v2, k. rewrite Es3, Eb3, Eb2, Eb1, K3, <- !app_assoc, app_nil_r.
    cbn [rg_buf app]. rewrite <- ?app_assoc. do 7 (split; [auto|]).
    destruct V1 as (V1 & _), V2 as (V2 & B2). split; [|exact B2].
    rewrite V2, Em2, V1, Zplus_mod_idemp_l. reflexivity.
Qed.

Lemma challenge_sum g a b m : (a + ((g - (a + b) mod m) mod m + b)) mod m = g mod m.
Proof.
  replace (a + ((g - (a + b) mod m) mod m + b)) with ((g - (a + b) mod m) mod m + (a + b)) by ring.
  rewrite Zplus_mod_idemp_l. replace (g - (a + b) mod m + (a + b)) with (g + (a + b) - (a + b) mod m) by ring.
  rewrite Zminus_mod_idemp_r. f_equal. ring.
Qed.

Lemma generate_ring_signature_ok h image pubs1 pub pubs2 sec H r sig : bytes_n 32 h -> scalar sec ->
  encodes pub (gmul (le_val sec) ed_B) -> hash_point pub H -> encodes image (gmul (le_val sec) H) ->
  Forall (fun pub => exists P, encodes pub P) (pubs1 ++ pub :: pubs2) -> length sig = length (pubs1 ++ pub :: pubs2) ->
  ring_size_ok (length (pubs1 ++ pub :: pubs2)) -> rnd_ok r ->
  total (generate_ring_signature h image (pubs1 ++ pub :: pubs2) sec (length pubs1) sig r)
    (fun '(sigs, r') => ring_valid h image (pubs1 ++ pub :: pubs2) sigs /\ rnd_ok r').
Proof.
  intros Hh Hs E HH EI Hk L R Hr. unfold generate_ring_signature.
  rewrite (assert_ring_ok image pubs1 pub pubs2 sec H) by assumption. cbn [obind].
  destruct (frombytes_ok image _ EI) as (u & -> & Hu). cbn [obind].
  eapply total_bind; [apply ge_dsm_precomp_ok, Hu|]. intros pre Hp.
  eapply total_bind; [apply (ring_turns_ok _ pre pubs1 pub pubs2 H h r sig Hp HH Hr Hk L)|].
  intros st (Hr' & sigs1 & x & sigs2 & buf1 & ab & buf2 & v1 & v2 & k & -> & -> & -> & Sk & M1 & M2 & Hab & V).
  destruct (ring_members_length _ _ _ _ _ M1) as (Lb1 & _ & Lg1), (ring_members_length _ _ _ _ _ M2) as (Lb2 & _ & _).
  assert (length (buf1 ++ ab ++ buf2) = (64 * length (pubs1 ++ pub :: pubs2))%nat) as Lb.
  { rewrite !length_app, Lb1, Lb2, (commits_length _ _ _ Hab). cbn [length]. lia. }
  destruct (ring_hash_ok h _ _ Hh Lb R) as (g & Eg & Sg). rewrite Eg. cbn [obind].
  pose proof (proj1 V) as Vs. apply sc_encodes_scalar in V as Ss.
  eapply total_bind; [apply sc_sub_ok; [apply Sg|apply Sg|apply Ss|apply Ss]|]. cbn beta. intros c Hc.
  apply sc_encodes_scalar in Hc as Sc. cbn [obind].
  eapply total_bind; [apply sc_mulsub_ok; [apply Sc|apply Sc|apply Hs|apply Hs|apply Sk|apply Sk]|]. cbn beta. intros s Hsr.
  apply sc_encodes_scalar in Hsr as Sr. rewrite <- Lg1, sig_store_app. cbn [obind]. apply total_ret.
  split; [|exact Hr']. pose proof (proj1 Sc) as Bc. exists (gmul (le_val sec) H), (buf1 ++ ab ++ buf2), (v1 + (le_val c + v2)), g.
  split; [exact EI|]. split.
  - apply ring_members_app; [exact M1|]. rewrite <- (sig_c_app c s Bc) at 2.
    eapply (ring_cons _ pub); [exact E|exact HH| | | | |exact M2]; rewrite ?(sig_c_app c s Bc), ?(sig_r_app c s Bc).
    + apply (bytes_n_app 32 32); [exact Bc|apply Sr].
    + exact Sc.
    + exact Sr.
    + rewrite (response_eq _ _ (le_val k)) by (exact order_B || apply Hsr).
      rewrite gadd_comm, (response_eq _ _ (le_val k)) by (exact (hash_point_order pub H (encodes_bytes _ _ E) HH) || apply Hsr).
      exact Hab.
  - split; [exact Eg|]. pose proof (scalar_range g Sg) as Rg. rewrite <- (Z.mod_small (le_val g) l25519) by exact Rg.
    destruct Hc as (-> & _). rewrite Vs.
    symmetry. apply challenge_sum.
Qed.

(** A key image that differs by a point [T] of small order is accepted with the same signature
    when the order divides every challenge. *)
Lemma ring_members_torsion I T m pubs sigs buf v : gmul m T = gzero ->
  ring_members I pubs sigs buf v -> Forall (fun s => (m | le_val (sig_c s))) sigs ->
  ring_members (gadd I T) pubs sigs buf v.
Proof.
  intros HT. induction 1 as [|pub P H s ab pubs sigs buf v E HH B Hc Hr C M IH]; intros D; [constructor|].
  inversion_clear D as [|? ? [q D1] D2]. econstructor; eauto.
  assert (gmul (le_val (sig_c s)) T = gzero) as Z by (rewrite D1, gmul_mul, HT; apply gmul_zero).
  rewrite gmul_gadd, Z, gadd_0_r. exact C.
Qed.
End CryptoOps.
