(* ===== verification/FieldSpec.v ===== *)
(** * What the field and scalar arithmetic of crypto-ops.c promises

    The theorems about [fe_*], stated over the machine semantics: every operation
    is defined (no signed overflow) on inputs within the documented bounds, its
    result is within the bounds the next operation needs, and its value is the
    field operation modulo [2^255 - 19].  Encoding is canonical, decoding inverts
    it, and squaring, doubling and inversion agree with multiplication.
    The theorems about [sc_*] follow: reduced results modulo the order of the base
    point. *)

From Stdlib Require Import ZArith Lia List Bool Zmod Field.
Import ListNotations.
From S2P Require Import Prelude Primes Edwards Loads FieldElt FieldBytes Scalar ScalarValues ScalarCorrect GeCorrect GeBytes BaseCheck.
Set Default Goal Selector "!".

(** ** Inputs of the witnesses *)

Definition w_limbs : fe cmach := L10 1 (-2) 3 (-4) 5 (-6) 7 (-8) 9 (-10).

Lemma w_limbs_tight : fe_in w_limbs fe_tight.
Proof. apply tightb_ok. reflexivity. Qed.

Lemma w_limbs_small : fe_in w_limbs fe_small.
Proof. eapply fe_le_in; [|apply w_limbs_tight]. vm_compute. reflexivity. Qed.

Lemma w_limbs_loose : fe_in w_limbs fe_loose.
Proof. eapply fe_le_in; [|apply w_limbs_tight]. vm_compute. reflexivity. Qed.

Lemma w_limbs_wide : fe_in w_limbs fe_wide.
Proof. eapply fe_le_in; [|apply w_limbs_tight]. vm_compute. reflexivity. Qed.

(** ** Addition, subtraction, negation *)

(** On limbs within 1.1 * 2^25 / 2^24, [fe_add], [fe_sub] and [fe_neg] never overflow a
    32-bit limb, compute the sum, the difference and the opposite exactly, and stay within
    1.1 * 2^26 / 2^25 (negation within the input bounds). *)
Theorem fe_linear_spec f g : fe_in f fe_small -> fe_in g fe_small ->
  (exists h, fe_add f g = Some h /\ fe_in h fe_loose /\ fe_val h = fe_val f + fe_val g) /\
  (exists h, fe_sub f g = Some h /\ fe_in h fe_loose /\ fe_val h = fe_val f - fe_val g) /\
  (exists h, fe_neg f = Some h /\ fe_in h fe_small /\ fe_val h = - fe_val f).
Proof.
  intros Hf Hg. split; [apply fe_add_ok; assumption|].
  split; [apply fe_sub_ok; assumption|apply fe_neg_ok, Hf].
Qed.

Lemma fe_linear_witness :
  exists h, fe_sub w_limbs w_limbs = Some h /\ fe_in h fe_loose /\ fe_val h = fe_val w_limbs - fe_val w_limbs.
Proof. exact (proj1 (proj2 (fe_linear_spec w_limbs w_limbs w_limbs_small w_limbs_small))). Defined.

(** ** Multiplication *)

(** On limbs within 1.65 * 2^26 / 2^25 no intermediate 64-bit product, sum or carry of
    [fe_mul] overflows, the result is the product modulo [2^255 - 19], and its limbs are within
    1.01 * 2^25 / 2^24. *)
Theorem fe_mul_spec f g : fe_in f fe_wide -> fe_in g fe_wide ->
  exists h, fe_mul f g = Some h /\ fe_in h fe_tight /\ fe_val h ≡[p25519] fe_val f * fe_val g.
Proof. apply fe_mul_ok. Qed.

Lemma fe_mul_witness : exists h, fe_mul w_limbs w_limbs = Some h /\ fe_in h fe_tight /\
  fe_val h ≡[p25519] fe_val w_limbs * fe_val w_limbs.
Proof. apply (fe_mul_spec w_limbs w_limbs); apply w_limbs_wide. Defined.

(** The products of [fe_sq] and those of [fe_mul] at equal arguments. *)
Lemma fe_sq_products_mul (f : fe cmach) h k :
  fe_sq_products f = Some h -> fe_mul_products f f = Some k -> h = k.
Proof.
  intros H K. revert h H. change (post (fe_sq_products f) (fun h => h = k)).
  revert k K. change (post (fe_mul_products f f) (fun k => post (fe_sq_products f) (fun h => h = k))).
  destruct f. unfold fe_mul_products, fe_sq_products. repeat cpost_step. cbn [v_lit cmach].
  f_equal; ring.
Qed.

(** [fe_sq] returns exactly the limbs that [fe_mul] returns on two copies of its argument,
    and [fe_sq2] is within the same bounds with twice the value. *)
Theorem fe_sq_is_mul f : fe_in f fe_wide ->
  fe_sq f = fe_mul f f /\
  exists h, fe_sq2 f = Some h /\ fe_in h fe_tight /\ fe_val h ≡[p25519] 2 * (fe_val f * fe_val f).
Proof.
  intros H. split; [|apply fe_sq2_ok, H].
  destruct (fe_sq_ok f H) as (h & E & _), (fe_mul_ok f f H H) as (k & K & _).
  unfold fe_sq, fe_mul in *.
  destruct (fe_sq_products f) as [s|] eqn:Es; [|discriminate].
  destruct (fe_mul_products f f) as [m|] eqn:Em; [|discriminate].
  cbn [obind]. f_equal. exact (fe_sq_products_mul f s m Es Em).
Qed.

Lemma fe_sq_is_mul_witness : fe_sq w_limbs = fe_mul w_limbs w_limbs.
Proof. apply (fe_sq_is_mul w_limbs), w_limbs_wide. Defined.

(** ** Inversion *)

Lemma cong_pow_0 m a n : 0 < n -> a ≡[m] 0 -> a ^ n ≡[m] 0.
Proof.
  intros Hn H. rewrite (cong_pow m a 0 n) by (assumption || lia). rewrite Z.pow_0_l by exact Hn.
  reflexivity.
Qed.

Lemma toF_nz z : z mod p25519 <> 0 <-> toF z <> 0%F.
Proof.
  rewrite <- toF_0, toF_eq, cong_eq_mod, Z.mod_0_l by discriminate. reflexivity.
Qed.

(** [fe_invert] is total within bounds; the product of a nonzero element with its result is 1
    in the field, and 0 is sent to 0, the convention [ge_tobytes] relies on. *)
Theorem fe_invert_spec f : fe_in f fe_wide ->
  exists h, fe_invert f = Some h /\ fe_in h fe_tight /\
    fe_val f * fe_val h ≡[p25519] (if fe_val f mod p25519 =? 0 then 0 else 1) /\
    (fe_val f mod p25519 = 0 -> fe_val h ≡[p25519] 0).
Proof.
  intros H. destruct (Z.eqb_spec (fe_val f mod p25519) 0) as [E|N].
  - destruct (fe_invert_ok f H) as (h & Eh & B & V). exists h. split; [exact Eh|]. split; [exact B|].
    assert (fe_val f ≡[p25519] 0) as Z0.
    { apply cong_eq_mod; [discriminate|]. rewrite E. reflexivity. }
    assert (fe_val h ≡[p25519] 0) as Zh.
    { rewrite V. apply (cong_pow_0 p25519 _ (p25519 - 2)); [reflexivity|exact Z0]. }
    split; [|intros _; exact Zh]. rewrite Zh. exists 0. ring.
  - destruct (fe_invert_F f H) as (h & Eh & B & V); [apply toF_nz, N|].
    exists h. split; [exact Eh|]. split; [exact B|]. split; [|contradiction].
    apply toF_eq. rewrite toF_mul, toF_1. fold (feF f) (feF h). rewrite V. field.
    apply toF_nz, N.
Qed.

Lemma fe_invert_witness : exists h, fe_invert w_limbs = Some h /\
  fe_val w_limbs * fe_val h ≡[p25519] 1.
Proof.
  destruct (fe_invert_spec w_limbs w_limbs_wide) as (h & E & _ & V & _). exists h. split; [exact E|].
  exact V.
Defined.

(** ** Encoding *)

(** [fe_tobytes] writes the 32 bytes of the residue in [0 .. p - 1]; two elements get the same
    bytes exactly when they are equal modulo [p]. *)
Theorem fe_tobytes_canonical f g : fe_in f fe_loose -> fe_in g fe_loose ->
  (exists s, fe_tobytes f = Some s /\ Forall byte s /\ length s = 32%nat /\
             le_val s = fe_val f mod p25519) /\
  (fe_tobytes f = fe_tobytes g <-> fe_val f ≡[p25519] fe_val g).
Proof.
  intros Hf Hg. destruct (fe_tobytes_ok f Hf) as (s & Es & Vs & Bs & Ls).
  destruct (fe_tobytes_ok g Hg) as (t & Et & Vt & Bt & Lt).
  split; [exists s; auto|]. rewrite Es, Et, cong_eq_mod, <- Vs, <- Vt by discriminate. split.
  - intros [= ->]. reflexivity.
  - intros E. f_equal. apply le_val_inj; try assumption. exact (eq_trans Ls (eq_sym Lt)).
Qed.

Lemma fe_tobytes_witness :
  fe_tobytes w_limbs = fe_tobytes w_limbs <-> fe_val w_limbs ≡[p25519] fe_val w_limbs.
Proof. exact (proj2 (fe_tobytes_canonical w_limbs w_limbs w_limbs_loose w_limbs_loose)). Defined.

(** Decoding and encoding are inverse: the 32 bytes of a residue below [p] are loaded, carried
    and written back unchanged. *)
Theorem fe_bytes_roundtrip s : Forall byte s -> length s = 32%nat -> le_val s < p25519 ->
  exists h f, @fe_frombytes_load cmach s = Some h /\ fe_not_canonical h = false /\
    fe_frombytes_carry h = Some f /\ fe_in f fe_tight /\ fe_tobytes f = Some s.
Proof.
  intros Bs Ls V. pose proof (le_val_range s Bs) as R.
  assert (le_val s mod 2 ^ 255 = le_val s) as M.
  { apply Z.mod_small. split; [apply R|]. eapply Z.lt_trans; [exact V|reflexivity]. }
  pose proof (fe_frombytes_ok s Bs Ls) as (f & E & Hf & Vf).
  rewrite fe_frombytes_load_ok in * by assumption. cbn [obind] in E.
  eexists _, f. split; [reflexivity|]. split.
  { rewrite fe_not_canonical_spec, M by assumption. apply Z.leb_gt, V. }
  split; [exact E|]. split; [exact Hf|].
  destruct (fe_tobytes_ok f (fe_tight_loose f Hf)) as (t & -> & Vt & Bt & Lt). f_equal.
  apply le_val_inj; try assumption; [exact (eq_trans Lt (eq_sym Ls))|]. rewrite Vt.
  rewrite M, cong_eq_mod in Vf by discriminate. rewrite Vf. apply Z.mod_small. split; [apply R|exact V].
Qed.

Lemma fe_bytes_roundtrip_witness : let s := repeat 7 32 in
  exists h f, @fe_frombytes_load cmach s = Some h /\ fe_not_canonical h = false /\
    fe_frombytes_carry h = Some f /\ fe_in f fe_tight /\ fe_tobytes f = Some s.
Proof.
  apply (fe_bytes_roundtrip (repeat 7 32)); [apply bytesb_ok; reflexivity|reflexivity|].
  vm_compute. reflexivity.
Defined.

(** The tests of field elements: [fe_isnonzero] is 0 exactly on the multiples of [p], and
    [fe_isnegative] is the parity of the residue. *)
Theorem fe_tests_spec f : fe_in f fe_loose ->
  fe_isnonzero f = Some (if fe_val f mod p25519 =? 0 then 0 else 1) /\
  fe_isnegative f = Some ((fe_val f mod p25519) mod 2).
Proof. intros H. split; [apply fe_isnonzero_ok, H|apply fe_isnegative_ok, H]. Qed.

Lemma fe_tests_witness : fe_isnonzero w_limbs = Some 1.
Proof. exact (proj1 (fe_tests_spec w_limbs w_limbs_loose)). Defined.

(** Bit 31 of [(b - 1) & ~b] is clear unless [b] is 0. *)
Lemma cmov_mask_31 b : 1 <= b < 2 ^ 32 ->
  Z.testbit (Z.land (wrap U32 (b - 1)) (wrap U32 (Z.lnot b))) 31 = false.
Proof.
  intros Hb. assert (forall x, 0 <= x < 2 ^ 32 -> Z.testbit x 31 = (2 ^ 31 <=? x)) as T.
  { intros x Hx. destruct (Z.leb_spec (2 ^ 31) x).
    - apply Z.testbit_true; [lia|]. assert (x / 2 ^ 31 = 1) as -> by
        (symmetry; apply Z.div_unique with (r := x - 2 ^ 31); lia). reflexivity.
    - apply Z.testbit_false; [lia|]. rewrite Z.div_small by lia. reflexivity. }
  rewrite Z.land_spec, wrap_id by (apply in_ity_spec; cbn; lia).
  assert (wrap U32 (Z.lnot b) = 2 ^ 32 - 1 - b) as ->.
  { apply wrap_unique; [cbn; lia|]. exists (-1). unfold Z.lnot. cbn. lia. }
  rewrite !T by lia. destruct (Z.leb_spec (2 ^ 31) (b - 1)); [|reflexivity]. apply Z.leb_gt. lia.
Qed.

Lemma cmov_assert_other b : 2 <= b < 2 ^ 32 -> cmov_assert b = false.
Proof.
  intros Hb. unfold cmov_assert. apply Z.eqb_neq. intros E. apply (f_equal (fun z => Z.testbit z 31)) in E.
  rewrite Z.lor_spec, cmov_mask_31 in E by lia.
  rewrite (wrap_id U32 (b - 1)) in E by (apply in_ity_spec; cbn; lia).
  replace (b - 2) with (b - 1 - 1) in E by lia. rewrite cmov_mask_31 in E by lia. discriminate.
Qed.

(** [fe_cmov] with [b] 0 or 1 keeps or replaces every limb of any 32-bit contents, by masks
    and exclusive or alone, and its assertion rejects every other 32-bit [b]. *)
Theorem fe_cmov_spec f g : fe_in f fe_int32 -> fe_in g fe_int32 ->
  fe_cmov f g 0 = Some f /\ fe_cmov f g 1 = Some g /\
  forall b, 2 <= b < 2 ^ 32 -> fe_cmov f g b = None.
Proof.
  intros Hf Hg. split; [apply (fe_cmov_ok f g 0); auto|]. split; [apply (fe_cmov_ok f g 1); auto|].
  intros b Hb. destruct f, g. unfold fe_cmov. rewrite cmov_assert_other by exact Hb. reflexivity.
Qed.

Lemma fe_cmov_witness : fe_cmov w_limbs fe_1 1 = Some fe_1.
Proof.
  apply (fe_cmov_spec w_limbs fe_1); (eapply fe_le_in; [|apply tightb_ok; reflexivity]);
    vm_compute; reflexivity.
Defined.

(** An element whose fifth canonical limb is [2^25]: the value [2^127]. *)
Definition w_shift : fe cmach := L10 0 0 0 0 (- 2 ^ 25) 1 0 0 0 0.

(** Writing byte 12, [fe_tobytes] shifts [h4] left by 6 in [int32_t]; within the bounds of the
    function the carried [h4] reaches values whose shifted value exceeds [INT32_MAX], so the code
    relies on the shift wrapping (only the low 8 bits are kept, and the bytes are right). *)
Theorem fe_tobytes_shift_wraps :
  fe_in w_shift fe_loose /\
  exists q r, fe_tobytes_q w_shift = Some q /\ q = 0 /\ fe_tobytes_carry w_shift = Some r /\
    i_max I32 < l4 r * 2 ^ 6 /\ total (fe_tobytes w_shift) (fun s => le_val s = fe_val w_shift).
Proof.
  assert (fe_in w_shift fe_loose) as H.
  { eapply fe_le_in; [|apply tightb_ok; reflexivity]. vm_compute. reflexivity. }
  split; [exact H|]. eexists _, _. split; [vm_compute; reflexivity|]. split; [reflexivity|].
  split; [vm_compute; reflexivity|]. split; [vm_compute; reflexivity|].
  destruct (fe_tobytes_ok w_shift H) as (s & E & V & _). exists s. split; [exact E|].
  rewrite V. vm_compute. reflexivity.
Qed.

(** ** What the scalar arithmetic of crypto-ops.c promises

    The theorems about [sc_*]: every function is defined on all byte strings of
    its input length, and writes the canonical 32-byte encoding of the result
    modulo the group order [l = 2^252 + 27742317777372353535851937790883648493].
    [sc_check] accepts exactly the canonical encodings. *)

Definition w_32 : list Z := map (fun i => Z.of_nat (255 - 7 * i)) (seq 0 32).
Definition w_64 : list Z := map (fun i => Z.of_nat (255 - 3 * i)) (seq 0 64).

Lemma w_32_bytes : Forall byte w_32.
Proof. apply bytesb_ok. reflexivity. Qed.
Lemma w_64_bytes : Forall byte w_64.
Proof. apply bytesb_ok. reflexivity. Qed.

(** [sc_reduce] turns any 64 bytes into the 32 bytes of their value modulo [l]; no
    intermediate 64-bit sum, product or carry overflows. *)
Theorem sc_reduce_spec s : Forall byte s -> length s = 64%nat ->
  exists r, @sc_reduce cmach s = Some r /\
    le_val r = le_val s mod l25519 /\ Forall byte r /\ length r = 32%nat.
Proof. apply sc_reduce_ok. Qed.

Lemma sc_reduce_witness : exists r, @sc_reduce cmach w_64 = Some r /\
  le_val r = le_val w_64 mod l25519 /\ Forall byte r /\ length r = 32%nat.
Proof. apply (sc_reduce_spec w_64); [apply w_64_bytes|reflexivity]. Defined.

(** [sc_reduce32] reduces any 32 bytes modulo [l]; the result passes [sc_check], and the
    reduction changes nothing exactly when the input already passed. *)
Theorem sc_reduce32_check s : Forall byte s -> length s = 32%nat ->
  exists r, @sc_reduce32 cmach s = Some r /\ le_val r = le_val s mod l25519 /\
    @sc_check cmach r = Some 0 /\ (r = s <-> @sc_check cmach s = Some 0).
Proof.
  intros Hs Ls. destruct (sc_reduce32_ok s Hs Ls) as (r & E & V & Br & Lr).
  assert (0 <= le_val s mod l25519 < l25519) as R by (apply Z.mod_pos_bound; reflexivity).
  exists r. split; [exact E|]. split; [exact V|].
  rewrite !sc_check_ok, V by assumption. apply proj2 in R as R'. apply Z.ltb_lt in R'. rewrite R'.
  split; [reflexivity|]. pose proof (le_val_range s Hs) as P. split.
  - intros ->. rewrite V, R'. reflexivity.
  - destruct (Z.ltb_spec (le_val s) l25519); [|discriminate]. intros _.
    apply le_val_inj; [assumption..|congruence|]. rewrite V. apply Z.mod_small. lia.
Qed.

Lemma sc_reduce32_witness : exists r, @sc_reduce32 cmach w_32 = Some r /\
  le_val r = le_val w_32 mod l25519 /\ @sc_check cmach r = Some 0 /\
  (r = w_32 <-> @sc_check cmach w_32 = Some 0).
Proof. apply (sc_reduce32_check w_32); [apply w_32_bytes|reflexivity]. Defined.

(** [sc_add] and [sc_sub] compute the sum and the difference modulo [l] of any two 32-byte
    strings, so subtracting what was added gives back the reduced first operand. *)
Theorem sc_add_sub a b : Forall byte a -> length a = 32%nat -> Forall byte b -> length b = 32%nat ->
  (exists r, @sc_add cmach a b = Some r /\ sc_encodes (le_val a + le_val b) r) /\
  (exists r, @sc_sub cmach a b = Some r /\ sc_encodes (le_val a - le_val b) r) /\
  (s <- @sc_add cmach a b ;; sc_sub s b) = @sc_reduce32 cmach a.
Proof.
  intros Ha La Hb Lb. split; [apply sc_add_ok; assumption|].
  split; [apply sc_sub_ok; assumption|].
  destruct (sc_add_ok a b Ha La Hb Lb) as (r & -> & Vr & Br & Lr). cbn [obind].
  destruct (sc_sub_ok r b Br Lr Hb Lb) as (t & -> & Vt & Bt & Lt).
  destruct (sc_reduce32_ok a Ha La) as (u & -> & Vu & Bu & Lu). f_equal.
  apply le_val_inj; [assumption..|congruence|]. rewrite Vt, Vu, Vr.
  rewrite Zminus_mod_idemp_l. f_equal. lia.
Qed.

Lemma sc_add_sub_witness :
  (s <- @sc_add cmach w_32 (repeat 255 32) ;; sc_sub s (repeat 255 32)) = @sc_reduce32 cmach w_32.
Proof.
  apply (sc_add_sub w_32 (repeat 255 32));
    [apply w_32_bytes|reflexivity|apply bytesb_ok; reflexivity|reflexivity].
Defined.

(** [sc_mulsub] computes [c - a b] modulo [l] for any three 32-byte strings: the last step of
    every signature of crypto.cpp. *)
Theorem sc_mulsub_spec a b c : Forall byte a -> length a = 32%nat ->
  Forall byte b -> length b = 32%nat -> Forall byte c -> length c = 32%nat ->
  exists r, @sc_mulsub cmach a b c = Some r /\
    le_val r = (le_val c - le_val a * le_val b) mod l25519 /\ Forall byte r /\ length r = 32%nat.
Proof. apply sc_mulsub_ok. Qed.

Lemma sc_mulsub_witness : exists r, @sc_mulsub cmach w_32 w_32 w_32 = Some r /\
  le_val r = (le_val w_32 - le_val w_32 * le_val w_32) mod l25519 /\ Forall byte r /\ length r = 32%nat.
Proof. apply (sc_mulsub_spec w_32 w_32 w_32); (apply w_32_bytes || reflexivity). Defined.

(** The tests of scalars: [sc_check] returns 0 exactly when the 32 bytes encode an integer
    below [l] and a nonzero value otherwise, and [sc_isnonzero] returns 0 exactly on the zero
    string. *)
Theorem sc_tests_spec s : Forall byte s -> length s = 32%nat ->
  (exists c, @sc_check cmach s = Some c /\ (c = 0 <-> le_val s < l25519)) /\
  (sc_isnonzero s = 0 <-> s = repeat 0 32).
Proof.
  intros Hs Ls. split.
  - eexists. split; [apply sc_check_ok; assumption|]. destruct (Z.ltb_spec (le_val s) l25519); lia.
  - rewrite sc_isnonzero_ok by assumption. destruct (Z.eqb_spec (le_val s) 0) as [E|N].
    + split; [intros _|reflexivity]. apply le_val_inj; [assumption|apply bytesb_ok; reflexivity|exact Ls|].
      rewrite E. reflexivity.
    + split; [discriminate|]. intros ->. exfalso. apply N. reflexivity.
Qed.

Lemma sc_tests_witness : exists c, @sc_check cmach w_32 = Some c /\ (c = 0 <-> le_val w_32 < l25519).
Proof. apply (sc_tests_spec w_32); [apply w_32_bytes|reflexivity]. Defined.
