(* ===== verification/CurveSpec.v ===== *)
(** * What the group operations of crypto-ops.c promise

    The theorems about [ge_*]: each representation change and group operation
    refines the group of the curve, encodings are canonical and decoding accepts
    exactly them, and the scalar multiplications compute multiples. *)

From Stdlib Require Import ZArith Lia List Bool Zmod Field.
Import ListNotations.
From S2P Require Import Prelude Bytes Primes AbGroup Edwards FieldElt ScalarValues Ge GeCorrect GeBytes Digits GeScalar BaseTable BaseCheck.
Set Default Goal Selector "!".

(** ** Inputs of the witnesses: the base point *)

Definition w_scalar : list Z := le_bytes 32 (l25519 - 5).

Lemma w_scalar_bytes : Forall byte w_scalar.
Proof. apply bytesb_ok. reflexivity. Qed.

Lemma w_scalar_top : nth 31 w_scalar 0 <= 127.
Proof. apply Z.leb_le. vm_compute. reflexivity. Qed.

Lemma w_scalar_le : le_val w_scalar <= 2 ^ 255.
Proof. apply Z.leb_le. vm_compute. reflexivity. Qed.

Definition w_y2 : list Z := le_bytes 32 2.

Lemma w_y2_bytes : Forall byte w_y2.
Proof. apply bytesb_ok. reflexivity. Qed.

Lemma w_y2_le : le_val w_y2 <= 2 ^ 255.
Proof. apply Z.leb_le. vm_compute. reflexivity. Qed.

Definition B_p3 : ge_p3 cmach := @mk_p3 cmach
  (L10 (-14297830) (-7645148) 16144683 (-16471763) 27570974 (-2696100) (-26142465) 8378389 20764389 8758491)
  (L10 (-26843541) (-6710886) 13421773 (-13421773) 26843546 6710886 (-13421773) 13421773 (-26843546) (-6710886))
  fe_1
  (L10 28827062 (-6116119) (-27349572) 244363 8635006 11264893 19351346 13413597 16611511 (-6414980)).

Lemma B_p3_is : p3_is B_p3 ed_B.
Proof.
  split; split; ge_cbn.
  1-4: apply tightb_ok; reflexivity.
  - exact F_1_nz.
  - apply F_eqb_eq. vm_compute. reflexivity.
  - apply F_eqb_eq. vm_compute. reflexivity.
  - apply F_eqb_eq. vm_compute. reflexivity.
Qed.

(** [run lem]: the next call of a sequence satisfies [lem]. *)
Ltac run lem := eapply total_bind; [apply lem; eassumption|]; cbn beta; intros ? ?.

(** ** The group operations *)

(** [ge_p3_to_cached] followed by [ge_add] or [ge_sub] computes the sum or the difference of any
    two points of the curve, without exceptional cases, and the result goes through
    [ge_p1p1_to_p3] and [ge_p1p1_to_p2] within the bounds of the next operation. *)
Theorem ge_add_sub_spec p q P Q : p3_is p P -> p3_is q Q ->
  total (c <- ge_p3_to_cached q ;; r <- ge_add p c ;; ge_p1p1_to_p3 r)
    (fun h => p3_is h (gadd P Q)) /\
  total (c <- ge_p3_to_cached q ;; r <- ge_sub p c ;; ge_p1p1_to_p2 r)
    (fun h => p2_is h (gadd P (gopp Q))).
Proof.
  intros Hp Hq. split; run ge_p3_to_cached_ok.
  - run ge_add_ok. apply ge_p1p1_to_p3_ok. assumption.
  - run ge_sub_ok. apply ge_p1p1_to_p2_ok. assumption.
Qed.

Lemma ge_add_sub_witness :
  total (c <- ge_p3_to_cached B_p3 ;; r <- ge_add B_p3 c ;; ge_p1p1_to_p3 r)
    (fun h => p3_is h (gadd ed_B ed_B)).
Proof. apply (ge_add_sub_spec B_p3 B_p3 ed_B ed_B B_p3_is B_p3_is). Defined.

(** [ge_madd] and [ge_msub] agree with the general addition on a point in the affine form of
    the tables. *)
Theorem ge_madd_msub_spec p q P Q : p3_is p P -> pc_is q Q ->
  total (r <- ge_madd p q ;; ge_p1p1_to_p3 r) (fun h => p3_is h (gadd P Q)) /\
  total (r <- ge_msub p q ;; ge_p1p1_to_p3 r) (fun h => p3_is h (gadd P (gopp Q))).
Proof.
  intros Hp Hq. split.
  - run ge_madd_ok. apply ge_p1p1_to_p3_ok. assumption.
  - run ge_msub_ok. apply ge_p1p1_to_p3_ok. assumption.
Qed.

Lemma ge_madd_msub_witness :
  total (r <- ge_msub B_p3 ge_precomp_0 ;; ge_p1p1_to_p3 r) (fun h => p3_is h (gadd ed_B (gopp gzero))).
Proof. apply (ge_madd_msub_spec B_p3 ge_precomp_0 ed_B gzero B_p3_is ge_precomp_0_ok). Defined.

(** [ge_p3_dbl] and [ge_p2_dbl] double, and [ge_mul8] multiplies by the cofactor 8. *)
Theorem ge_dbl_mul8_spec p P : p3_is p P ->
  total (r <- ge_p3_dbl p ;; ge_p1p1_to_p3 r) (fun h => p3_is h (gmul 2 P)) /\
  total (r <- ge_p2_dbl (ge_p3_to_p2 p) ;; ge_p1p1_to_p2 r) (fun h => p2_is h (gmul 2 P)) /\
  total (r <- ge_mul8 (ge_p3_to_p2 p) ;; ge_p1p1_to_p2 r) (fun h => p2_is h (gmul 8 P)).
Proof.
  intros Hp. pose proof (ge_p3_to_p2_ok p P Hp) as H2. rewrite gmul_2. split; [|split].
  - run ge_p3_dbl_ok. apply ge_p1p1_to_p3_ok. assumption.
  - run ge_p2_dbl_ok. apply ge_p1p1_to_p2_ok. assumption.
  - run ge_mul8_ok. apply ge_p1p1_to_p2_ok. assumption.
Qed.

Lemma ge_dbl_mul8_witness :
  total (r <- ge_p3_dbl B_p3 ;; ge_p1p1_to_p3 r) (fun h => p3_is h (gmul 2 ed_B)).
Proof. apply (ge_dbl_mul8_spec B_p3 ed_B B_p3_is). Defined.

(** ** Encoding of points *)

(** A representation determines its point. *)
Lemma p3_is_fun h P Q : p3_is h P -> p3_is h Q -> P = Q.
Proof.
  intros [_ [NZ X Y _]] [_ [_ X' Y' _]]. apply point_eq.
  - apply (F_mul_cancel_r (feF (p3_Z h))); congruence.
  - apply (F_mul_cancel_r (feF (p3_Z h))); congruence.
Qed.

(** [ge_p3_tobytes] and [ge_tobytes] write the same 32 bytes for one point, whatever its
    projective representation, and different bytes for different points. *)
Theorem ge_tobytes_canonical p q P Q : p3_is p P -> p2_is q Q ->
  exists s t, ge_p3_tobytes p = Some s /\ ge_tobytes q = Some t /\
    encodes s P /\ encodes t Q /\ (s = t <-> P = Q).
Proof.
  intros Hp Hq. destruct (ge_p3_tobytes_ok p P Hp) as (s & Es & Hs).
  destruct (ge_tobytes_ok q Q Hq) as (t & Et & Ht). exists s, t. do 4 (split; [assumption|]). split.
  - intros ->. exact (encodes_unique t P Q Hs Ht).
  - intros <-. destruct Hs as (Vs & Bs & Ls), Ht as (Vt & Bt & Lt).
    apply le_val_inj; [assumption..|congruence|congruence].
Qed.

Lemma ge_tobytes_witness : exists s t, ge_p3_tobytes B_p3 = Some s /\ ge_tobytes ge_p2_0 = Some t /\
  encodes s ed_B /\ encodes t gzero /\ (s = t <-> ed_B = gzero).
Proof. apply (ge_tobytes_canonical B_p3 ge_p2_0 ed_B gzero B_p3_is ge_p2_0_ok). Defined.

(** [ge_frombytes_vartime] accepts exactly the encodings of points: it returns 0 with the point
    when the 32 bytes encode one, and -1 when no point has that encoding. *)
Theorem ge_frombytes_exact s : Forall byte s -> length s = 32%nat ->
  exists r, ge_frombytes_vartime s = Some r /\
    (forall P, encodes s P <-> exists h, r = Some h /\ p3_is h P) /\
    (r = None <-> forall P, ~ encodes s P).
Proof.
  intros Hs Ls. destruct (ge_frombytes_vartime_ok s Hs Ls) as (r & E & H). exists r.
  split; [exact E|]. destruct r as [h|].
  - destruct H as (P & HP & EP). split.
    + intros Q. split; [intros EQ; rewrite (encodes_unique s Q P EQ EP); eauto|].
      intros (h' & [= <-] & HQ). rewrite <- (p3_is_fun h P Q HP HQ). exact EP.
    + split; [discriminate|]. intros N. destruct (N P EP).
  - split; [|tauto]. intros P. split; [intros EP; destruct (H P EP)|]. intros (? & ? & _). discriminate.
Qed.

Lemma ge_frombytes_witness : exists r, ge_frombytes_vartime w_y2 = Some r /\
  (forall P, encodes w_y2 P <-> exists h, r = Some h /\ p3_is h P) /\
  (r = None <-> forall P, ~ encodes w_y2 P).
Proof. apply (ge_frombytes_exact w_y2); [apply bytesb_ok|]; reflexivity. Defined.

(** Encoding then decoding returns the point: [ge_frombytes_vartime] on the bytes of
    [ge_p3_tobytes] returns 0 with a representation of the same point, which encodes to the same
    bytes again. *)
Theorem ge_bytes_roundtrip p P : p3_is p P ->
  exists s h, ge_p3_tobytes p = Some s /\ ge_frombytes_vartime s = Some (Some h) /\
    p3_is h P /\ ge_p3_tobytes h = Some s.
Proof.
  intros Hp. destruct (ge_p3_tobytes_ok p P Hp) as (s & Es & Hs). pose proof Hs as (_ & Bs & Ls).
  destruct (ge_frombytes_vartime_ok s Bs Ls) as ([h|] & E & H); [|destruct (H P Hs)].
  destruct H as (Q & HQ & EQ). rewrite (encodes_unique s Q P EQ Hs) in *.
  exists s, h. do 3 (split; [assumption|]).
  destruct (ge_p3_tobytes_ok h P HQ) as (t & -> & Ht). f_equal.
  destruct Hs as (Vs & _ & _), Ht as (Vt & Bt & Lt). apply le_val_inj; [assumption..| |]; congruence.
Qed.

Lemma ge_bytes_roundtrip_witness : exists s h, ge_p3_tobytes B_p3 = Some s /\
  ge_frombytes_vartime s = Some (Some h) /\ p3_is h ed_B /\ ge_p3_tobytes h = Some s.
Proof. apply (ge_bytes_roundtrip B_p3 ed_B B_p3_is). Defined.

(** ** Digits of scalars *)

(** [slide] recodes a scalar up to [2^255] into 256 digits that are 0 or odd between -15 and
    15, with the same value in radix 2. *)
Theorem slide_spec a : Forall byte a -> length a = 32%nat -> le_val a <= 2 ^ 255 ->
  length (slide a) = 256%nat /\
  Forall (fun d => d = 0 \/ (-15 <= d <= 15 /\ Z.odd d = true)) (slide a) /\
  digits_val 2 (slide a) = le_val a.
Proof.
  intros Ha La Va. destruct (slide_ok a Ha La Va) as (L & D & V). split; [exact L|]. split; [|exact V].
  eapply Forall_impl; [|exact D]. unfold digit15. tauto.
Qed.

Lemma slide_witness : digits_val 2 (slide w_scalar) = le_val w_scalar.
Proof.
  exact (proj2 (proj2 (slide_spec w_scalar w_scalar_bytes eq_refl w_scalar_le))).
Defined.

(** The two signed radix-16 recodings, the single pass of [ge_scalarmult] and the two passes of
    [ge_scalarmult_base], both give 64 digits between -8 and 8 with the value of the scalar. *)
Theorem radix16_spec a : Forall byte a -> length a = 32%nat -> nth 31 a 0 <= 127 ->
  let ok e := length e = 64%nat /\ Forall (fun d => -8 <= d <= 8) e /\ digits_val 16 e = le_val a in
  ok (sm_digits a) /\ ok (smb_digits a).
Proof. intros Ha La Ta. split; [apply sm_digits_ok|apply smb_digits_ok]; assumption. Qed.

Lemma radix16_witness : digits_val 16 (smb_digits w_scalar) = le_val w_scalar.
Proof.
  exact (proj2 (proj2 (proj2 (radix16_spec w_scalar w_scalar_bytes eq_refl w_scalar_top)))).
Defined.

(** ** The tables *)

(** The precomputed tables hold what the functions that read them assume: [ge_base[i][j]] is
    [(j + 1) 256^i B] for the 32 rows of 8 entries, [ge_Bi[j]] is [(2 j + 1) B] for 8 entries,
    and every limb is within the bounds of a product. *)
Theorem base_tables_spec :
  length ge_base = 32%nat /\ length ge_Bi = 8%nat /\
  (forall i row, nth_error ge_base i = Some row -> length row = 8%nat) /\
  (forall i j row q, nth_error ge_base i = Some row -> nth_error row j = Some q ->
     pc_is q (gmul ((1 + Z.of_nat j) * 256 ^ Z.of_nat i) ed_B)) /\
  (forall j q, nth_error ge_Bi j = Some q -> pc_is q (gmul (1 + 2 * Z.of_nat j) ed_B)).
Proof.
  split; [reflexivity|]. split; [reflexivity|]. split; [intros i row H; apply (ge_base_ok i row H)|].
  split; [|exact (proj2 ge_Bi_ok)].
  intros i j row q H Hq. exact (proj2 (ge_base_ok i row H) j q Hq).
Qed.

(** ** Scalar multiplication *)

(** [ge_scalarmult] computes [a P] for every point of the curve and every scalar below
    [2^255]. *)
Theorem ge_scalarmult_spec a A P : Forall byte a -> length a = 32%nat -> nth 31 a 0 <= 127 ->
  p3_is A P -> exists r, ge_scalarmult a A = Some r /\ p2_is r (gmul (le_val a) P).
Proof. apply ge_scalarmult_ok. Qed.

Lemma ge_scalarmult_witness :
  exists r, ge_scalarmult w_scalar B_p3 = Some r /\ p2_is r (gmul (le_val w_scalar) ed_B).
Proof.
  exact (ge_scalarmult_spec w_scalar B_p3 ed_B w_scalar_bytes eq_refl w_scalar_top B_p3_is).
Defined.

(** [ge_scalarmult_base] computes [a B], and its encoded result is the one of [ge_scalarmult]
    on any representation of the base point. *)
Theorem ge_scalarmult_base_agrees a A : Forall byte a -> length a = 32%nat -> nth 31 a 0 <= 127 ->
  p3_is A ed_B ->
  exists h r s, ge_scalarmult_base a = Some h /\ p3_is h (gmul (le_val a) ed_B) /\
    ge_scalarmult a A = Some r /\ ge_p3_tobytes h = Some s /\ ge_tobytes r = Some s.
Proof.
  intros Ha La Ta HA. destruct (ge_scalarmult_base_ok a Ha La Ta) as (h & Eh & Hh).
  destruct (ge_scalarmult_ok a A ed_B Ha La Ta HA) as (r & Er & Hr).
  destruct (ge_p3_tobytes_ok h _ Hh) as (s & Es & Vs & Bs & Ls).
  destruct (ge_tobytes_ok r _ Hr) as (t & Et & Vt & Bt & Lt).
  exists h, r, s. do 4 (split; [assumption|]). rewrite Et. f_equal.
  apply le_val_inj; [assumption..| |]; congruence.
Qed.

Lemma ge_scalarmult_base_witness :
  exists h r s, ge_scalarmult_base w_scalar = Some h /\ p3_is h (gmul (le_val w_scalar) ed_B) /\
    ge_scalarmult w_scalar B_p3 = Some r /\ ge_p3_tobytes h = Some s /\ ge_tobytes r = Some s.
Proof.
  exact (ge_scalarmult_base_agrees w_scalar B_p3 w_scalar_bytes eq_refl w_scalar_top B_p3_is).
Defined.

(** The two variable-time double multiplications compute [a P + b B] and, from the table
    [ge_dsm_precomp] makes of [Q], [a P + b Q], for scalars up to [2^255]. *)
Theorem ge_double_scalarmult_spec a b A B P Q :
  Forall byte a -> length a = 32%nat -> le_val a <= 2 ^ 255 ->
  Forall byte b -> length b = 32%nat -> le_val b <= 2 ^ 255 -> p3_is A P -> p3_is B Q ->
  total (ge_double_scalarmult_base_vartime a A b)
    (fun r => p2_is r (gadd (gmul (le_val a) P) (gmul (le_val b) ed_B))) /\
  total (Bi <- ge_dsm_precomp B ;; ge_double_scalarmult_precomp_vartime a A b Bi)
    (fun r => p2_is r (gadd (gmul (le_val a) P) (gmul (le_val b) Q))).
Proof.
  intros. split; [apply ge_double_scalarmult_base_vartime_ok; assumption|].
  run ge_dsm_precomp_ok. apply ge_double_scalarmult_precomp_vartime_ok; assumption.
Qed.

Lemma ge_double_scalarmult_witness :
  total (ge_double_scalarmult_base_vartime w_scalar B_p3 w_y2)
    (fun r => p2_is r (gadd (gmul (le_val w_scalar) ed_B) (gmul (le_val w_y2) ed_B))).
Proof.
  exact (proj1 (ge_double_scalarmult_spec w_scalar w_y2 B_p3 B_p3 ed_B ed_B w_scalar_bytes eq_refl
    w_scalar_le w_y2_bytes eq_refl w_y2_le B_p3_is B_p3_is)).
Defined.
