(* ===== verification/CryptoSpec.v ===== *)
(** * What crypto.cpp promises

    The theorems about keys, one-time keys, signatures and ring signatures, over
    any hash function and any random source that keep their interfaces; the
    witnesses use keccak.c and random.c. *)

From Stdlib Require Import ZArith Lia List Bool.
Import ListNotations.
From S2P Require Import Prelude Bytes Keccak Varint Primes AbGroup Edwards FieldElt Loads Scalar ScalarValues ScalarCorrect Ge GeCorrect GeBytes Digits GeScalar BaseTable BaseCheck HashToPoint CurveOrder Crypto CryptoCorrect.
Set Default Goal Selector "!".

(** ** Inputs of the witnesses *)

Definition w_hash : list Z := le_bytes 32 12345.
Definition w_sec : list Z := le_bytes 32 (l25519 - 5).
Definition w_sec' : list Z := le_bytes 32 77.

Lemma w_hash_bytes : bytes_n 32 w_hash.
Proof. split; [apply le_bytes_byte|reflexivity]. Qed.

Lemma w_sec_scalar : scalar w_sec.
Proof. split; [split; [apply le_bytes_byte|reflexivity]|]. apply Z.ltb_lt. vm_compute. reflexivity. Qed.

Lemma w_sec'_scalar : scalar w_sec'.
Proof. split; [split; [apply le_bytes_byte|reflexivity]|]. apply Z.ltb_lt. vm_compute. reflexivity. Qed.

(** A generator seeded with 32 bytes of the operating system. *)
Definition w_rng : @rnd keccak_random := Eval vm_compute in
  match init_random (le_bytes 32 99) rng_static with Some r => r | None => rng_static end.

Lemma w_rng_ok : @rnd_ok keccak_random w_rng.
Proof.
  destruct (init_random_ok (le_bytes 32 99) (le_bytes_byte 32 99)) as (r & E & H).
  vm_compute in E. injection E as <-. exact H.
Qed.

Section Spec.
Context {FH : FastHash} {RS : RandomSource}.

(** The public key of a secret key, from the code. *)
Lemma public_key_of sec : scalar sec ->
  exists pub, secret_key_to_public_key sec = Some (Some pub) /\ encodes pub (gmul (le_val sec) ed_B).
Proof.
  intros H. destruct (secret_key_to_public_key_ok sec (proj1 H)) as ([pub|] & E & R); [exists pub; tauto|].
  destruct H. lia.
Qed.

Lemma public_key_inv sec pub : bytes_n 32 sec -> secret_key_to_public_key sec = Some (Some pub) ->
  scalar sec /\ encodes pub (gmul (le_val sec) ed_B).
Proof.
  intros H E. destruct (secret_key_to_public_key_ok sec H) as (r & E' & R). rewrite E in E'.
  injection E' as <-. exact R.
Qed.

Lemma keys_valid pubs : Forall (bytes_n 32) pubs -> Forall (fun pub => check_key pub = Some true) pubs ->
  Forall (fun pub => exists P, encodes pub P) pubs.
Proof.
  rewrite !Forall_forall. intros B C pub H. destruct (check_key_ok pub (B pub H)) as (b & E & K).
  rewrite (C pub H) in E. injection E as <-. apply K. reflexivity.
Qed.

(** ** Signatures *)

(** C17: every signature that [generate_signature] makes with a secret key is accepted by
    [check_signature] under its public key, for any message hash and any state of the random
    generator; no assertion fails on the way. *)
Theorem signature_complete h pub sec r : bytes_n 32 h -> bytes_n 32 sec -> rnd_ok r ->
  secret_key_to_public_key sec = Some (Some pub) ->
  exists sig r', generate_signature h pub sec r = Some (sig, r') /\ bytes_n 64 sig /\ rnd_ok r' /\
    check_signature h pub sig = Some true.
Proof.
  intros Hh Bs Hr E. destruct (public_key_inv sec pub Bs E) as [Hs Hp].
  destruct (generate_signature_ok h pub sec r Hh Hs Hp Hr) as ([sig r'] & Eg & Bg & Hr' & V).
  exists sig, r'. do 3 (split; [assumption|]).
  destruct (check_signature_ok h pub _ sig Hh Hp Bg) as (b & -> & C). f_equal. apply C, V.
Qed.

(** C15: [check_signature] accepts exactly the signatures [(c, r)] of two reduced scalars for which
    [c] is the hash of the message, the key and the encoding of [c P + r B]; it never accepts a
    second encoding of the same scalars, and it never fails on a valid key. *)
Theorem check_signature_exact h pub sig : bytes_n 32 h -> bytes_n 32 pub -> bytes_n 64 sig ->
  check_key pub = Some true ->
  exists P b, encodes pub P /\ check_signature h pub sig = Some b /\
    (b = true <-> scalar (sig_c sig) /\ scalar (sig_r sig) /\
      exists comm, encodes comm (gadd (gmul (le_val (sig_c sig)) P) (gmul (le_val (sig_r sig)) ed_B)) /\
        hash_to_scalar (s_comm h pub comm) = Some (sig_c sig)).
Proof.
  intros Hh Bp Bs E. destruct (check_key_ok pub Bp) as (b & E' & K). rewrite E in E'. injection E' as <-.
  destruct (proj1 K eq_refl) as (P & EP). exists P.
  destruct (check_signature_ok h pub P sig Hh EP Bs) as (b & Eb & C). exists b. auto.
Qed.

(** ** One-time keys *)

(** Adding a scalar on both sides of a key pair, and taking it off the public side again. *)
Lemma one_time_core sec s base : scalar sec -> scalar s -> encodes base (gmul (le_val sec) ed_B) ->
  exists h pub h' k, ge_frombytes_vartime base = Some (Some h) /\ add_to_base h s = Some pub /\
    ge_frombytes_vartime pub = Some (Some h') /\ sub_from_derived h' s = Some base /\
    @sc_add cmach sec s = Some k /\ secret_key_to_public_key k = Some (Some pub).
Proof.
  intros Ss Sc Pb.
  destruct (frombytes_ok base _ Pb) as (h & Eh & Hh).
  destruct (add_to_base_ok h _ s Hh Sc) as (pub & Ep & Pp).
  destruct (derive_secret_ok sec s Ss Sc) as (k & Ek & Sk & Gk).
  destruct (frombytes_ok pub _ Pp) as (h' & Eh' & Hh').
  destruct (sub_from_derived_ok h' _ s Hh' Sc) as (base' & Eb & Pb').
  rewrite <- gadd_assoc, gadd_opp_r, gadd_0_r in Pb'. rewrite (encodes_inj base' base _ Pb' Pb) in Eb.
  destruct (public_key_of k Sk) as (pub' & E' & P'). rewrite Gk in P'.
  rewrite (encodes_inj pub' pub _ P' Pp) in E'. exists h, pub, h', k. auto 10.
Qed.

(** The two ends of a key derivation agree: the derivation of [A = a B] with [b] is the
    derivation of [B' = b B] with [a]. *)
Theorem key_derivation_symmetric a b A B' : bytes_n 32 a -> bytes_n 32 b ->
  secret_key_to_public_key a = Some (Some A) -> secret_key_to_public_key b = Some (Some B') ->
  exists d, generate_key_derivation A b = Some (Some d) /\ generate_key_derivation B' a = Some (Some d) /\
    bytes_n 32 d.
Proof.
  intros Ha Hb EA EB. destruct (public_key_inv a A Ha EA) as [Sa PA], (public_key_inv b B' Hb EB) as [Sb PB].
  destruct (generate_key_derivation_ok A b _ PA Sb) as (? & -> & d & -> & Ed).
  destruct (generate_key_derivation_ok B' a _ PB Sa) as (? & -> & d' & -> & Ed').
  exists d. split; [reflexivity|]. split; [|eauto using encodes_bytes]. do 2 f_equal. symmetry.
  apply (encodes_inj d d' _ Ed). rewrite <- !gmul_mul in *.
  replace (8 * le_val b * le_val a) with (8 * le_val a * le_val b) by ring. exact Ed'.
Qed.

(** One-time keys fit together: the key that [derive_public_key] makes from a public key is the
    public key of what [derive_secret_key] makes from its secret key, and [underive_public_key]
    (and [underive_public_key_and_get_scalar]) takes it back to the key it came from. *)
Theorem one_time_key_roundtrip d i sec base : bytes_n 32 d -> 0 <= i < 2 ^ 64 -> bytes_n 32 sec ->
  secret_key_to_public_key sec = Some (Some base) ->
  exists pub k s, derive_public_key d i base = Some (Some pub) /\ derive_secret_key d i sec = Some k /\
    secret_key_to_public_key k = Some (Some pub) /\
    underive_public_key d i pub = Some (Some base) /\
    underive_public_key_and_get_scalar d i pub = Some (Some (base, s)) /\
    derivation_to_scalar d i = Some s.
Proof.
  intros Hd Hi Bs E. destruct (public_key_inv sec base Bs E) as [Ss Pb].
  destruct (derivation_to_scalar_ok d i Hd Hi) as (_ & s & Es & Sc).
  destruct (one_time_core sec s base Ss Sc Pb) as (h & pub & h' & k & Eh & Ep & Eh' & Eb & Ek & Epk).
  exists pub, k, s. unfold derive_public_key, derive_secret_key, underive_public_key, underive_public_key_and_get_scalar.
  rewrite Eh, Eh', (sc_check_ok0 sec Ss), Es. cbn [obind c_assert Z.eqb]. rewrite Ep, Ek, Eb. cbn [obind].
  auto 10.
Qed.

(** The variants with a suffix of up to 32 bytes fit together in the same way. *)
Theorem one_time_key_suffix_roundtrip d i sec base x : bytes_n 32 d -> 0 <= i < 2 ^ 64 -> (length x <= 32)%nat ->
  bytes_n 32 sec -> secret_key_to_public_key sec = Some (Some base) ->
  exists pub k, derive_public_key_suffix d i base x = Some (Some pub) /\ derive_secret_key_suffix d i sec x = Some k /\
    secret_key_to_public_key k = Some (Some pub) /\ underive_public_key_suffix d i pub x = Some (Some base).
Proof.
  intros Hd Hi Lx Bs E. destruct (public_key_inv sec base Bs E) as [Ss Pb].
  destruct (derivation_to_scalar_suffix_ok d i x Hd Hi Lx) as (s & Es & Sc).
  destruct (one_time_core sec s base Ss Sc Pb) as (h & pub & h' & k & Eh & Ep & Eh' & Eb & Ek & Epk).
  exists pub, k. unfold derive_public_key_suffix, derive_secret_key_suffix, underive_public_key_suffix.
  rewrite Eh, Eh', (sc_check_ok0 sec Ss), Es. cbn [obind c_assert Z.eqb]. rewrite Ep, Ek, Eb. cbn [obind].
  auto 10.
Qed.
(** ** Key pairs and key images *)

(** [generate_keys] is total on any good state of the random generator and leaves it good; its
    secret key is a reduced scalar, its public key the one [secret_key_to_public_key] computes from
    it, and [check_key] accepts it. *)
Theorem generate_keys_pair r : rnd_ok r ->
  exists pub sec r', generate_keys r = Some (pub, sec, r') /\ rnd_ok r' /\ @sc_check cmach sec = Some 0 /\
    secret_key_to_public_key sec = Some (Some pub) /\ check_key pub = Some true.
Proof.
  intros H. destruct (generate_keys_ok r H) as ([[pub sec] r'] & E & Ss & Ep & Hr'). exists pub, sec, r'.
  split; [exact E|]. split; [exact Hr'|]. split; [apply sc_check_ok0, Ss|].
  split; [|exact (check_key_true pub _ Ep)]. destruct (public_key_of sec Ss) as (pub' & -> & Ep').
  rewrite (encodes_inj pub' pub _ Ep' Ep). reflexivity.
Qed.

(** Key images are well defined: for every key and reduced secret, [generate_key_image] writes
    the encoding of [s H] for the point [H] that [generate_incomplete_key_image] writes; [H] and
    the image are in the subgroup of prime order [l], whatever the hash is. *)
Theorem key_image_spec pub sec : bytes_n 32 pub -> scalar sec ->
  exists H base image, generate_incomplete_key_image pub = Some base /\ encodes base H /\
    generate_key_image pub sec = Some image /\ encodes image (gmul (le_val sec) H) /\
    gmul l25519 H = gzero /\ gmul l25519 (gmul (le_val sec) H) = gzero.
Proof.
  intros Hp Hs. destruct (hash_to_ec_ok pub Hp) as (Q & HQ). exists (gmul 8 Q).
  destruct (generate_incomplete_key_image_ok pub _ HQ) as (base & Eb & Pb).
  destruct (generate_key_image_ok pub sec _ HQ Hs) as (image & Ei & Pi). exists base, image.
  do 4 (split; [assumption|]). pose proof (cofactor_order Q) as O. split; [exact O|].
  rewrite <- gmul_mul, Z.mul_comm, gmul_mul, O. apply gmul_zero.
Qed.

(** What the functions do with a string that is not the encoding of a point: the ones that
    return a status return false and write nothing, [check_signature] stops on its assertion; and
    [secret_key_to_public_key] returns false for exactly the strings that [sc_check] refuses. *)
Theorem bad_key_errors key sec d i h sig : bytes_n 32 key -> scalar sec -> check_key key = Some false ->
  (forall P, ~ encodes key P) /\
  generate_key_derivation key sec = Some None /\ derive_public_key d i key = Some None /\
  underive_public_key d i key = Some None /\ check_ring_signature h key [] [] = Some false /\
  check_signature h key sig = None /\
  (forall s, bytes_n 32 s -> secret_key_to_public_key s = Some None <-> @sc_check cmach s <> Some 0).
Proof.
  intros B Hs C. destruct (check_key_ok key B) as (b & E & K). rewrite C in E. injection E as <-.
  assert (forall P, ~ encodes key P) as N by (intros P HP; assert (false = true) by (apply K; eauto); discriminate).
  pose proof (frombytes_none key B N) as F. split; [exact N|].
  unfold generate_key_derivation, derive_public_key, underive_public_key, check_ring_signature, check_signature.
  rewrite (sc_check_ok0 sec Hs), F, C. do 5 (split; [reflexivity|]). intros s Bs.
  destruct (secret_key_to_public_key_ok s Bs) as (r & -> & R), (sc_check_scalar s Bs) as (c & -> & Ec).
  destruct r as [pub|].
  - destruct R as ((_ & Lt) & _). apply Z.ltb_lt in Lt. rewrite Lt in Ec. apply Z.eqb_eq in Ec as ->.
    split; [discriminate|]. intros []. reflexivity.
  - apply Z.ltb_ge in R. rewrite R in Ec. apply Z.eqb_neq in Ec. split; [congruence|reflexivity].
Qed.

(** ** Ring signatures *)

(** C14: every ring signature that [generate_ring_signature] makes with the secret key of any member
    of the ring and its key image is accepted by [check_ring_signature], for rings of any size that
    the length of the hash function admits, any message hash and any state of the random
    generator; no assertion fails and [abort] is not reached. *)
Theorem ring_signature_complete h pubs sec_index pub sec sig r : bytes_n 32 h ->
  Forall (bytes_n 32) pubs -> Forall (fun pub => check_key pub = Some true) pubs -> ring_size_ok (length pubs) ->
  nth_error pubs sec_index = Some pub -> bytes_n 32 sec -> secret_key_to_public_key sec = Some (Some pub) ->
  length sig = length pubs -> rnd_ok r ->
  exists image sigs r', generate_key_image pub sec = Some image /\
    generate_ring_signature h image pubs sec sec_index sig r = Some (sigs, r') /\ rnd_ok r' /\
    check_ring_signature h image pubs sigs = Some true.
Proof.
  intros Hh Bp Ck R Hn Bs E L Hr. pose proof (keys_valid pubs Bp Ck) as Hk.
  destruct (public_key_inv sec pub Bs E) as [Ss Ep]. destruct (hash_to_ec_ok pub (encodes_bytes _ _ Ep)) as (Q & HQ).
  destruct (generate_key_image_ok pub sec _ HQ Ss) as (image & Ei & Pi). exists image.
  apply nth_error_split in Hn as (pubs1 & pubs2 & -> & <-).
  destruct (generate_ring_signature_ok h image pubs1 pub pubs2 sec _ r sig Hh Ss Ep HQ Pi Hk L R Hr) as ([sigs r'] & Eg & V & Hr').
  exists sigs, r'. do 3 (split; [assumption|]). pose proof V as (I & buf & v & g & _ & M & _).
  destruct (ring_members_length _ _ _ _ _ M) as (_ & Bg & Lg).
  destruct (check_ring_signature_ok h image _ sigs Hh (encodes_bytes _ _ Pi) Hk Bg Lg R) as (b & -> & C).
  f_equal. apply C, V.
Qed.

(** C16: [check_ring_signature] accepts exactly when the image decodes to a point [I], every [c_j]
    and [r_j] is a reduced scalar, and the sum of the [c_j] is the hash of the message and of the
    encodings of [c_j P_j + r_j B] and [r_j H_j + c_j I] (the relation [ring_members]). *)
Theorem check_ring_signature_exact h image pubs sigs : bytes_n 32 h -> bytes_n 32 image ->
  Forall (bytes_n 32) pubs -> Forall (fun pub => check_key pub = Some true) pubs -> Forall (bytes_n 64) sigs ->
  length sigs = length pubs -> ring_size_ok (length pubs) ->
  exists b, check_ring_signature h image pubs sigs = Some b /\
    (b = true <-> exists I buf v g, encodes image I /\ ring_members I pubs sigs buf v /\
       hash_to_scalar (h ++ buf) = Some g /\ le_val g = v mod l25519).
Proof.
  intros Hh Hi Bp Ck Bs L R. exact (check_ring_signature_ok h image pubs sigs Hh Hi (keys_valid pubs Bp Ck) Bs L R).
Qed.

(** C30: [check_ring_signature] does not tie a signature to one key image: a signature accepted for
    the image [I] is accepted for the different image [I + T], for every point [T] of order
    dividing 8, when 8 divides its challenges. *)
Theorem key_image_malleable h image image' pubs sigs I T : bytes_n 32 h ->
  Forall (bytes_n 32) pubs -> Forall (fun pub => check_key pub = Some true) pubs -> Forall (bytes_n 64) sigs ->
  length sigs = length pubs -> ring_size_ok (length pubs) ->
  encodes image I -> encodes image' (gadd I T) -> gmul 8 T = gzero -> T <> gzero ->
  Forall (fun s => le_val (sig_c s) mod 8 = 0) sigs ->
  check_ring_signature h image pubs sigs = Some true ->
  image' <> image /\ check_ring_signature h image' pubs sigs = Some true.
Proof.
  intros Hh Bp Ck Bs L R E E' HT NT D C. pose proof (keys_valid pubs Bp Ck) as Hk. split.
  { intros ->. apply NT, (gadd_cancel_l I). rewrite gadd_0_r. exact (encodes_unique image _ _ E' E). }
  destruct (check_ring_signature_ok h image pubs sigs Hh (encodes_bytes _ _ E) Hk Bs L R) as (b & Eb & V).
  rewrite C in Eb. injection Eb as <-. destruct (proj1 V eq_refl) as (I0 & buf & v & g & E0 & M & Eg & Vg).
  rewrite (encodes_unique image I0 I E0 E) in M.
  destruct (check_ring_signature_ok h image' pubs sigs Hh (encodes_bytes _ _ E') Hk Bs L R) as (b & -> & V').
  f_equal. apply V'. exists (gadd I T), buf, v, g. do 2 (split; [try assumption|]); [|auto].
  apply (ring_members_torsion I T 8); [exact HT|exact M|]. eapply Forall_impl; [|exact D].
  intros s Hs. apply Z.mod_divide; [lia|exact Hs].
Qed.
End Spec.

(** ** Witnesses *)

Lemma signature_witness : exists pub sig r', secret_key_to_public_key w_sec = Some (Some pub) /\
  generate_signature w_hash pub w_sec w_rng = Some (sig, r') /\ check_signature w_hash pub sig = Some true.
Proof.
  destruct (public_key_of w_sec w_sec_scalar) as (pub & E & _).
  destruct (signature_complete w_hash pub w_sec w_rng w_hash_bytes (proj1 w_sec_scalar) w_rng_ok E) as (sig & r' & G & _ & _ & C).
  exists pub, sig, r'. auto.
Defined.

Lemma check_signature_witness : exists pub P b, encodes pub P /\ check_signature w_hash pub (le_bytes 64 5) = Some b /\
  (b = true -> scalar (sig_c (le_bytes 64 5))).
Proof.
  destruct (public_key_of w_sec w_sec_scalar) as (pub & _ & E).
  destruct (check_signature_exact w_hash pub (le_bytes 64 5) w_hash_bytes (encodes_bytes _ _ E)
    (conj (le_bytes_byte 64 5) eq_refl) (check_key_true pub _ E)) as (P & b & EP & Eb & C).
  exists pub, P, b. split; [exact EP|]. split; [exact Eb|]. intros ->. apply C. reflexivity.
Defined.

Lemma key_derivation_witness : exists A B' d, secret_key_to_public_key w_sec = Some (Some A) /\
  secret_key_to_public_key w_sec' = Some (Some B') /\
  generate_key_derivation A w_sec' = Some (Some d) /\ generate_key_derivation B' w_sec = Some (Some d).
Proof.
  destruct (public_key_of w_sec w_sec_scalar) as (A & EA & _), (public_key_of w_sec' w_sec'_scalar) as (B' & EB & _).
  destruct (key_derivation_symmetric w_sec w_sec' A B' (proj1 w_sec_scalar) (proj1 w_sec'_scalar) EA EB) as (d & D1 & D2 & _).
  exists A, B', d. auto.
Defined.

Lemma one_time_key_witness : exists base pub k, secret_key_to_public_key w_sec = Some (Some base) /\
  derive_public_key w_hash 300 base = Some (Some pub) /\ derive_secret_key w_hash 300 w_sec = Some k /\
  secret_key_to_public_key k = Some (Some pub) /\ underive_public_key w_hash 300 pub = Some (Some base).
Proof.
  destruct (public_key_of w_sec w_sec_scalar) as (base & E & _).
  destruct (one_time_key_roundtrip w_hash 300 w_sec base w_hash_bytes ltac:(lia) (proj1 w_sec_scalar) E)
    as (pub & k & s & H1 & H2 & H3 & H4 & _).
  exists base, pub, k. auto.
Defined.

Lemma one_time_key_suffix_witness : exists base pub k, secret_key_to_public_key w_sec = Some (Some base) /\
  derive_public_key_suffix w_hash 300 base [1; 2; 3] = Some (Some pub) /\
  derive_secret_key_suffix w_hash 300 w_sec [1; 2; 3] = Some k /\ secret_key_to_public_key k = Some (Some pub).
Proof.
  destruct (public_key_of w_sec w_sec_scalar) as (base & E & _).
  destruct (one_time_key_suffix_roundtrip w_hash 300 w_sec base [1; 2; 3] w_hash_bytes ltac:(lia) ltac:(cbn; lia)
    (proj1 w_sec_scalar) E) as (pub & k & H1 & H2 & H3 & _).
  exists base, pub, k. auto.
Defined.

Lemma generate_keys_witness : exists pub sec r', generate_keys w_rng = Some (pub, sec, r') /\ check_key pub = Some true.
Proof.
  destruct (generate_keys_pair w_rng w_rng_ok) as (pub & sec & r' & E & _ & _ & _ & C). exists pub, sec, r'. auto.
Defined.

Lemma key_image_witness : exists image P, generate_key_image w_hash w_sec = Some image /\ encodes image P /\
  gmul l25519 P = gzero.
Proof.
  destruct (key_image_spec w_hash w_sec w_hash_bytes w_sec_scalar) as (H & base & image & _ & _ & E & P & _ & O).
  exists image, (gmul (le_val w_sec) H). auto.
Defined.

Lemma w_bad_key : check_key (le_bytes 32 2) = Some false.
Proof. vm_compute. reflexivity. Qed.

Lemma bad_key_witness : generate_key_derivation (le_bytes 32 2) w_sec = Some None.
Proof.
  exact (proj1 (proj2 (bad_key_errors (le_bytes 32 2) w_sec [] 0 [] [] (conj (le_bytes_byte 32 2) eq_refl) w_sec_scalar w_bad_key))).
Defined.

Lemma ring_signature_witness : exists pub1 pub2 image sigs r',
  secret_key_to_public_key w_sec' = Some (Some pub2) /\ generate_key_image pub2 w_sec' = Some image /\
  generate_ring_signature w_hash image [pub1; pub2] w_sec' 1 [[]; []] w_rng = Some (sigs, r') /\
  check_ring_signature w_hash image [pub1; pub2] sigs = Some true.
Proof.
  destruct (public_key_of w_sec w_sec_scalar) as (pub1 & E1 & P1), (public_key_of w_sec' w_sec'_scalar) as (pub2 & E2 & P2).
  destruct (ring_signature_complete w_hash [pub1; pub2] 1 pub2 w_sec' [[]; []] w_rng w_hash_bytes
    (Forall_cons _ (encodes_bytes _ _ P1) (Forall_cons _ (encodes_bytes _ _ P2) (Forall_nil _)))
    (Forall_cons _ (check_key_true pub1 _ P1) (Forall_cons _ (check_key_true pub2 _ P2) (Forall_nil _)))
    ltac:(reflexivity) eq_refl (proj1 w_sec'_scalar) E2 eq_refl w_rng_ok) as (image & sigs & r' & EI & G & _ & C).
  exists pub1, pub2, image, sigs, r'. auto.
Defined.

Lemma check_ring_signature_witness : exists pub b,
  check_ring_signature w_hash (le_bytes 32 1) [pub] [le_bytes 64 5] = Some b /\
  (b = true -> exists I, encodes (le_bytes 32 1) I).
Proof.
  destruct (public_key_of w_sec w_sec_scalar) as (pub & _ & P).
  destruct (check_ring_signature_exact w_hash (le_bytes 32 1) [pub] [le_bytes 64 5] w_hash_bytes
    (conj (le_bytes_byte 32 1) eq_refl) (Forall_cons _ (encodes_bytes _ _ P) (Forall_nil _))
    (Forall_cons _ (check_key_true pub _ P) (Forall_nil _))
    (Forall_cons _ (conj (le_bytes_byte 64 5) eq_refl) (Forall_nil _)) eq_refl ltac:(reflexivity)) as (b & E & C).
  exists pub, b. split; [exact E|]. intros ->. destruct (proj1 C eq_refl) as (I & _ & _ & _ & EI & _). eauto.
Defined.

(** A hash function that is constant, for an example of a signature all of whose challenges are 0. *)
#[local, refine] Instance zero_hash : FastHash | 100 := { fast_hash _ := Some (repeat 0 32) }.
Proof. intros. apply total_ret. split; [apply bytesb_ok; reflexivity|reflexivity]. Defined.

Lemma enc_bytes P : Z.leb 0 (enc P) = true -> Z.ltb (enc P) (256 ^ 32) = true -> encodes (le_bytes 32 (enc P)) P.
Proof.
  intros H1 H2. split; [|split; [apply le_bytes_byte|apply le_bytes_length]].
  apply Z.leb_le in H1. apply Z.ltb_lt in H2. apply le_bytes_val. split; assumption.
Qed.

Lemma enc_zero : encodes (le_bytes 32 (enc gzero)) gzero.
Proof. apply enc_bytes; vm_compute; reflexivity. Qed.

Lemma enc_T : encodes (le_bytes 32 (enc (gadd gzero ed_T))) (gadd gzero ed_T).
Proof. rewrite gadd_0_l. apply enc_bytes; vm_compute; reflexivity. Qed.

Lemma T_nz : ed_T <> gzero.
Proof. intros E. apply T4_nz. rewrite E. apply gmul_zero. Qed.

Definition w_sig0 : list Z := repeat 0 64.

Lemma w_sig0_bytes : bytes_n 64 w_sig0.
Proof. split; [apply bytesb_ok; reflexivity|reflexivity]. Qed.

Lemma zero_ring_accepted pub P : encodes pub P ->
  @check_ring_signature zero_hash w_hash (le_bytes 32 (enc gzero)) [pub] [w_sig0] = Some true.
Proof.
  intros E. pose proof w_sig0_bytes as Bs.
  destruct (@check_ring_signature_ok zero_hash w_hash (le_bytes 32 (enc gzero)) [pub] [w_sig0] w_hash_bytes
    (encodes_bytes _ _ enc_zero) (Forall_cons _ (ex_intro _ P E) (Forall_nil _)) (Forall_cons _ Bs (Forall_nil _))
    eq_refl ltac:(reflexivity)) as (b & -> & C).
  f_equal. apply C. set (z := le_bytes 32 (enc gzero)) in *.
  destruct (@hash_to_ec_ok zero_hash pub (encodes_bytes _ _ E)) as (Q & HQ).
  exists gzero, ((z ++ z) ++ []), (le_val (sig_c w_sig0) + 0), (repeat 0 32).
  split; [exact enc_zero|]. split; [|split; [vm_compute|]; reflexivity].
  assert (scalar (repeat 0 32)) as S0 by exact sc_0_scalar.
  apply (@ring_cons zero_hash gzero pub P _ w_sig0 (z ++ z) [] [] [] 0 E HQ Bs S0 S0); [|constructor].
  exists z, z. split; [reflexivity|]. change (le_val (sig_c w_sig0)) with 0. change (le_val (sig_r w_sig0)) with 0.
  rewrite !gmul_0, gadd_0_l. split; exact enc_zero.
Qed.

Lemma key_image_malleable_witness : exists pub image image', image' <> image /\
  @check_ring_signature zero_hash w_hash image [pub] [w_sig0] = Some true /\
  @check_ring_signature zero_hash w_hash image' [pub] [w_sig0] = Some true.
Proof.
  destruct (public_key_of w_sec w_sec_scalar) as (pub & _ & P).
  destruct (@key_image_malleable zero_hash w_hash (le_bytes 32 (enc gzero)) (le_bytes 32 (enc (gadd gzero ed_T))) [pub] [w_sig0]
    gzero ed_T w_hash_bytes (Forall_cons _ (encodes_bytes _ _ P) (Forall_nil _))
    (Forall_cons _ (check_key_true pub _ P) (Forall_nil _))
    (Forall_cons _ w_sig0_bytes (Forall_nil _)) eq_refl ltac:(reflexivity)
    enc_zero enc_T T8_zero T_nz (Forall_cons w_sig0 eq_refl (Forall_nil _)) (zero_ring_accepted pub _ P)) as [N C].
  exists pub, (le_bytes 32 (enc gzero)), (le_bytes 32 (enc (gadd gzero ed_T))). split; [exact N|].
  split; [exact (zero_ring_accepted pub _ P)|exact C].
Defined.
