(* ===== verification/TreeHash.v ===== *)
(** * The Merkle tree of transaction hashes (tree-hash.c)

    [tree_hash], [tree_depth], [tree_branch] and [tree_hash_from_branch], with the
    buffer [ints] updated in place as the code does, over the hash function of the
    interface [FastHash].  A hash is a string of 32 bytes, an array of hashes a
    list; an access out of the range of an array is a failure. *)

From Stdlib Require Import ZArith Lia List Bool.
Import ListNotations.
From S2P Require Import Prelude Bytes Crypto.
Set Default Goal Selector "!".

Section TreeHash.
Context {FH : FastHash}.

(** [cn_fast_hash(a[i], 2 * HASH_SIZE, ...)]: the hash of two neighbours. *)
Definition hash_pair (a : list (list Z)) (i : nat) : option (list Z) :=
  x <- nth_error a i ;; y <- nth_error a (S i) ;; fast_hash (x ++ y).

(** [a[j] = h] *)
Definition store (a : list (list Z)) (j : nat) (h : list Z) : option (list (list Z)) :=
  _ <- c_assert (j <? length a)%nat ;; Some (set_nth j h a).

(** [for (...; j < j + n; i += 2, ++j) cn_fast_hash(hashes[i], 2 * HASH_SIZE, ints[j]);]
    with the last value of [i]. *)
Fixpoint pair_into (hashes : list (list Z)) (n i j : nat) (ints : list (list Z))
    : option (list (list Z) * nat) :=
  match n with
  | O => Some (ints, i)
  | S n =>
      h <- hash_pair hashes i ;;
      ints <- store ints j h ;;
      pair_into hashes n (S (S i)) (S j) ints
  end.

(** The same loop where the source is [ints] itself. *)
Fixpoint pair_within (n i j : nat) (ints : list (list Z)) : option (list (list Z)) :=
  match n with
  | O => Some ints
  | S n =>
      h <- hash_pair ints i ;;
      ints <- store ints j h ;;
      pair_within n (S (S i)) (S j) ints
  end.

(** [for (i = 1; i < 8 * sizeof(size_t); i <<= 1) cnt |= cnt >> i; cnt &= ~(cnt >> 1);] *)
Definition tree_cnt (count : Z) : Z :=
  let cnt := fold_left (fun cnt i => Z.lor cnt (Z.shiftr cnt i)) [1; 2; 4; 8; 16; 32] (count - 1) in
  Z.land cnt (Z.lnot (Z.shiftr cnt 1)).

(** [memcpy(ints, src, n * HASH_SIZE)] into an array of [cnt] hashes just allocated. *)
Definition alloc_copy (cnt n : nat) (src : list (list Z)) : option (list (list Z)) :=
  _ <- c_assert ((n <=? cnt)%nat && (n <=? length src)%nat) ;;
  Some (firstn n src ++ repeat [] (cnt - n)).

(** [while (cnt > 2) { cnt >>= 1; ... }]; [fuel] is above the number of turns. *)
Fixpoint tree_reduce (fuel : nat) (cnt : nat) (ints : list (list Z)) : option (list (list Z)) :=
  match fuel with
  | O => None
  | S fuel =>
      if (2 <? cnt)%nat then
        let cnt := Nat.div2 cnt in
        ints <- pair_within cnt 0 0 ints ;;
        tree_reduce fuel cnt ints
      else Some ints
  end.

Definition tree_hash (hashes : list (list Z)) : option (list Z) :=
  let count := length hashes in
  _ <- c_assert (0 <? count)%nat ;;
  if (count =? 1)%nat then nth_error hashes 0
  else if (count =? 2)%nat then hash_pair hashes 0
  else
    let cnt := Z.to_nat (tree_cnt (Z.of_nat count)) in
    ints <- alloc_copy cnt (2 * cnt - count) hashes ;;
    '(ints, i) <- pair_into hashes (cnt - (2 * cnt - count)) (2 * cnt - count) (2 * cnt - count) ints ;;
    _ <- c_assert (i =? count)%nat ;;
    ints <- tree_reduce 64 cnt ints ;;
    hash_pair ints 0.

(** [for (i = sizeof(size_t) << 2; i > 0; i >>= 1)] *)
Definition depth_steps : list Z := [32; 16; 8; 4; 2; 1].

Definition depth_step (st : Z * Z) (i : Z) : Z * Z :=
  let '(count, depth) := st in
  if 0 <? Z.shiftr count i then (Z.shiftr count i, depth + i) else (count, depth).

Definition tree_depth (count : Z) : option Z :=
  _ <- c_assert (0 <? count) ;;
  Some (snd (fold_left depth_step depth_steps (count, 0))).

(** The largest power of two up to [count] and its exponent. *)
Definition cnt_step (count : Z) (st : Z * Z) (i : Z) : Z * Z :=
  let '(cnt, depth) := st in
  if wrap U64 (Z.shiftl cnt i) <=? count then (wrap U64 (Z.shiftl cnt i), depth + i) else (cnt, depth).

Definition branch_cnt (count : Z) : Z * Z := fold_left (cnt_step count) depth_steps (1, 0).

(** [while (depth > 0)] of [tree_branch]; the last argument is the array [branch]. *)
Fixpoint branch_loop (depth : nat) (cnt : nat) (ints branch : list (list Z)) : option (list (list Z)) :=
  match depth with
  | O => Some branch
  | S depth =>
      _ <- c_assert (cnt =? 2 ^ S depth)%nat ;;
      let cnt := Nat.div2 cnt in
      b <- nth_error ints 0 ;;
      branch <- store branch depth b ;;
      ints <- pair_within (cnt - 1) 1 0 ints ;;
      branch_loop depth cnt ints branch
  end.

Definition tree_branch (hashes branch : list (list Z)) : option (list (list Z)) :=
  let count := length hashes in
  _ <- c_assert (0 <? count)%nat ;;
  let '(cnt, depth) := branch_cnt (Z.of_nat count) in
  _ <- c_assert (cnt =? wrap U64 (Z.shiftl 1 depth)) ;;
  d <- tree_depth (Z.of_nat count) ;;
  _ <- c_assert (depth =? d) ;;
  let cnt := Z.to_nat cnt in
  ints <- alloc_copy (cnt - 1) (2 * cnt - count - 1) (skipn 1 hashes) ;;
  '(ints, i) <- pair_into hashes (cnt - 1 - (2 * cnt - count - 1)) (2 * cnt - count) (2 * cnt - count - 1) ints ;;
  _ <- c_assert (i =? count)%nat ;;
  branch_loop (Z.to_nat depth) cnt ints branch.

(** [path && (path[depth >> 3] & (1 << (depth & 7))) != 0]; [path] is a null pointer or an array. *)
Definition path_bit (path : option (list Z)) (depth : nat) : option bool :=
  match path with
  | None => Some false
  | Some bytes =>
      b <- nth_error bytes (Nat.div depth 8) ;;
      Some (negb (Z.land b (Z.shiftl 1 (Z.of_nat (Nat.modulo depth 8))) =? 0))
  end.

(** The loop of [tree_hash_from_branch] with the two halves of [buffer]; they are unset as long as
    [from_leaf] is 1. *)
Fixpoint from_branch_loop (branch : list (list Z)) (depth : nat) (leaf : list Z) (path : option (list Z))
    (buffer : option (list Z * list Z)) : option (option (list Z * list Z)) :=
  match depth with
  | O => Some buffer
  | S depth =>
      right <- path_bit path depth ;;
      cur <- match buffer with None => Some leaf | Some (b0, b1) => fast_hash (b0 ++ b1) end ;;
      b <- nth_error branch depth ;;
      from_branch_loop branch depth leaf path (Some (if right : bool then (b, cur) else (cur, b)))
  end.

Definition tree_hash_from_branch (branch : list (list Z)) (depth : nat) (leaf : list Z) (path : option (list Z))
    : option (list Z) :=
  if (depth =? 0)%nat then Some leaf else
  buffer <- from_branch_loop branch depth leaf path None ;;
  '(b0, b1) <- buffer ;;
  fast_hash (b0 ++ b1).
(** ** Reference: Merkle trees *)

(** The hash of two hashes; [fast_hash] is defined on them. *)
Definition hnode (a b : list Z) : list Z := match fast_hash (a ++ b) with Some h => h | None => [] end.

Lemma hnode_ok a b : bytes_n 32 a -> bytes_n 32 b -> fast_hash (a ++ b) = Some (hnode a b) /\ bytes_n 32 (hnode a b).
Proof.
  intros [_ La] [_ Lb]. unfold hnode. destruct (fast_hash_ok (a ++ b)) as (h & -> & H); [|auto].
  rewrite length_app, La, Lb. reflexivity.
Qed.

(** One level of the tree up. *)
Fixpoint pairup (l : list (list Z)) : list (list Z) :=
  match l with a :: b :: l => hnode a b :: pairup l | _ => [] end.

(** The tree over [2^d] leaves. *)
Fixpoint mtree (d : nat) (l : list (list Z)) : list Z :=
  match d with
  | O => nth 0 l []
  | S d => hnode (mtree d (firstn (2 ^ d) l)) (mtree d (skipn (2 ^ d) l))
  end.

(** The last level of a tree that is not full: with [cnt] the power of two below their number, the
    first leaves stay and the others are hashed in pairs, which leaves [cnt] hashes. *)
Definition level0 (cnt : nat) (hashes : list (list Z)) : list (list Z) :=
  let k := (2 * cnt - length hashes)%nat in firstn k hashes ++ pairup (skipn k hashes).

Definition merkle_root (hashes : list (list Z)) : list Z :=
  let d := Nat.log2 (length hashes - 1) in mtree d (level0 (2 ^ d) hashes).

(** Induction two elements at a time. *)
Lemma pairs_ind (P : list (list Z) -> Prop) : P [] -> (forall a, P [a]) ->
  (forall a b l, P l -> P (a :: b :: l)) -> forall l, P l.
Proof.
  intros H0 H1 H2 l. assert (P l /\ forall a, P (a :: l)) as [H _]; [|exact H].
  induction l as [|x l [IH1 IH2]]; auto.
Qed.

Lemma pairup_length l n : length l = (2 * n)%nat -> length (pairup l) = n.
Proof.
  revert n. induction l as [| |a b l IH] using pairs_ind; cbn; intros n L; [lia|lia|].
  destruct n as [|n]; [lia|]. rewrite (IH n); lia.
Qed.

Lemma pairup_hashes l : Forall (bytes_n 32) l -> Forall (bytes_n 32) (pairup l).
Proof.
  induction l as [| |a b l IH] using pairs_ind; intros H; [constructor..|].
  inversion_clear H as [|? ? Ha H']. inversion_clear H' as [|? ? Hb H]. cbn. constructor; [apply hnode_ok|]; auto.
Qed.

Lemma pairup_firstn n : forall l, pairup (firstn (2 * n) l) = firstn n (pairup l).
Proof.
  induction n as [|n IH]; intros l; [reflexivity|]. replace (2 * S n)%nat with (S (S (2 * n))) by lia.
  destruct l as [|a [|b l]]; [reflexivity..|]. cbn [firstn pairup]. rewrite IH. reflexivity.
Qed.

Lemma pairup_skipn n : forall l, pairup (skipn (2 * n) l) = skipn n (pairup l).
Proof.
  induction n as [|n IH]; intros l; [reflexivity|]. replace (2 * S n)%nat with (S (S (2 * n))) by lia.
  destruct l as [|a [|b l]]; [reflexivity..|]. cbn [skipn pairup]. apply IH.
Qed.

Lemma mtree_pairup d : forall l, length l = (2 ^ S d)%nat -> mtree d (pairup l) = mtree (S d) l.
Proof.
  induction d as [|d IH]; intros l L.
  - destruct l as [|a [|b [|c l]]]; try discriminate L. reflexivity.
  - assert (2 ^ S d = 2 * 2 ^ d)%nat as E by (cbn; lia). pose proof (Nat.pow_succ_r' 2 (S d)) as E'.
    cbn [mtree]. rewrite E, <- pairup_firstn, <- pairup_skipn, <- E.
    rewrite !IH by (rewrite ?length_firstn, ?length_skipn; lia). reflexivity.
Qed.

(** ** The loops *)

Lemma nth_error_at {A} (l r : list A) x : nth_error (l ++ x :: r) (length l) = Some x.
Proof. rewrite nth_error_app2, Nat.sub_diag by lia. reflexivity. Qed.

Lemma store_at l r x h : store (l ++ x :: r) (length l) h = Some (l ++ h :: r).
Proof.
  unfold store. replace (length l <? length (l ++ x :: r))%nat with true
    by (symmetry; apply Nat.ltb_lt; rewrite length_app; cbn; lia).
  cbn [c_assert obind]. rewrite set_nth_app. reflexivity.
Qed.

Lemma hash_pair_at l x y r : bytes_n 32 x -> bytes_n 32 y -> hash_pair (l ++ x :: y :: r) (length l) = Some (hnode x y).
Proof.
  intros Hx Hy. unfold hash_pair. rewrite nth_error_at. cbn [obind].
  replace (l ++ x :: y :: r) with ((l ++ [x]) ++ y :: r) by (rewrite <- app_assoc; reflexivity).
  replace (S (length l)) with (length (l ++ [x])) by (rewrite length_app; cbn; lia).
  rewrite nth_error_at. apply hnode_ok; assumption.
Qed.

Lemma pair_into_ok hashes n : forall pre src rest done room, hashes = pre ++ src ++ rest -> length src = (2 * n)%nat ->
  Forall (bytes_n 32) src -> length room = n ->
  pair_into hashes n (length pre) (length done) (done ++ room) = Some (done ++ pairup src, (length pre + 2 * n)%nat).
Proof.
  induction n as [|n IH]; intros pre src rest done room E L H R.
  - destruct src; [|discriminate L]. destruct room; [|discriminate R]. cbn. rewrite Nat.add_0_r. reflexivity.
  - destruct src as [|x [|y src]]; try (cbn in L; lia). destruct room as [|m room]; [discriminate R|].
    inversion_clear H as [|? ? Hx H']. inversion_clear H' as [|? ? Hy H]. cbn [pair_into].
    rewrite E at 1. cbn [app]. rewrite hash_pair_at by assumption. cbn [obind]. rewrite store_at. cbn [obind].
    replace (S (S (length pre))) with (length (pre ++ [x; y])) by (rewrite length_app; cbn; lia).
    replace (done ++ hnode x y :: room) with ((done ++ [hnode x y]) ++ room) by (rewrite <- app_assoc; reflexivity).
    replace (S (length done)) with (length (done ++ [hnode x y])) by (rewrite length_app; cbn; lia).
    rewrite (IH (pre ++ [x; y]) src rest (done ++ [hnode x y]) room).
    + rewrite <- app_assoc, length_app. cbn [app length pairup]. f_equal. f_equal. lia.
    + rewrite E, <- app_assoc. reflexivity.
    + cbn in L. lia.
    + exact H.
    + cbn in R. lia.
Qed.

(** In place, the entries written never reach the ones that are still to be read. *)
Lemma pair_within_ok n : forall done gap src rest, length src = (2 * n)%nat -> Forall (bytes_n 32) src ->
  exists junk, pair_within n (length done + length gap) (length done) (done ++ gap ++ src ++ rest) =
    Some (done ++ pairup src ++ junk ++ rest) /\ length junk = (length gap + n)%nat.
Proof.
  induction n as [|n IH]; intros done gap src rest L H.
  - destruct src; [|discriminate L]. exists gap. cbn. auto.
  - destruct src as [|x [|y src]]; try (cbn in L; lia).
    inversion_clear H as [|? ? Hx H']. inversion_clear H' as [|? ? Hy H]. cbn [pair_within].
    rewrite app_assoc, <- length_app. cbn [app]. rewrite hash_pair_at by assumption. cbn [obind].
    rewrite length_app, <- app_assoc. set (h := hnode x y).
    assert (exists gap', store (done ++ gap ++ x :: y :: src ++ rest) (length done) h = Some ((done ++ [h]) ++ gap' ++ src ++ rest) /\
      length gap' = S (length gap)) as (gap' & -> & Lg).
    { destruct gap as [|m gap]; cbn [app]; rewrite store_at.
      - exists [y]. rewrite <- app_assoc. auto.
      - exists (gap ++ [x; y]). rewrite <- !app_assoc, length_app. cbn. auto with arith. }
    cbn [obind]. destruct (IH (done ++ [h]) gap' src rest) as (junk & E & Lj); [cbn in L; lia|exact H|].
    rewrite length_app, Lg in E. cbn [length] in E.
    replace (S (S (length done + length gap))) with (length done + 1 + S (length gap))%nat by lia.
    replace (S (length done)) with (length done + 1)%nat by lia. rewrite E. exists junk.
    rewrite <- app_assoc. cbn [app pairup]. split; [reflexivity|lia].
Qed.
Lemma tree_reduce_ok k : forall fuel l rest, (k < fuel)%nat -> length l = (2 ^ S k)%nat -> Forall (bytes_n 32) l ->
  exists a b rest', tree_reduce fuel (2 ^ S k) (l ++ rest) = Some (a :: b :: rest') /\
    bytes_n 32 a /\ bytes_n 32 b /\ hnode a b = mtree (S k) l.
Proof.
  induction k as [|k IH]; intros [|fuel] l rest F L H; try lia.
  - destruct l as [|a [|b [|? ?]]]; try discriminate L. inversion_clear H as [|? ? Ha H'].
    inversion_clear H' as [|? ? Hb _]. exists a, b, rest. cbn. auto.
  - cbn [tree_reduce]. pose proof (Nat.pow_succ_r' 2 (S k)) as E. pose proof (Nat.pow_nonzero 2 (S k)) as N.
    pose proof (Nat.pow_succ_r' 2 k) as E0. pose proof (Nat.pow_nonzero 2 k) as N0.
    replace (2 <? 2 ^ S (S k))%nat with true by (symmetry; apply Nat.ltb_lt; lia).
    cbv zeta. rewrite E, Nat.div2_double.
    destruct (pair_within_ok (2 ^ S k) [] [] l rest) as (junk & Ew & _); [lia|exact H|]. cbn [app length Nat.add] in Ew.
    rewrite Ew. cbn [obind].
    destruct (IH fuel (pairup l) (junk ++ rest)) as (a & b & rest' & Er & Ha & Hb & M);
      [lia|apply pairup_length; lia|apply pairup_hashes, H|].
    exists a, b, rest'. rewrite Er, M. rewrite mtree_pairup by exact L. auto.
Qed.

(** ** The powers of two *)

(** Setting every bit below a set bit, in steps of doubled width. *)
Definition smeared (c0 : Z) (w : nat) (c : Z) : Prop := forall n, 0 <= n ->
  Z.testbit c n = existsb (fun j => Z.testbit c0 (n + Z.of_nat j)) (seq 0 w).

Lemma existsb_shift (f : Z -> bool) n w k : existsb (fun j => f (n + Z.of_nat k + Z.of_nat j)) (seq 0 w) =
  existsb (fun j => f (n + Z.of_nat j)) (seq k w).
Proof.
  enough (forall a, existsb (fun j => f (n + Z.of_nat k + Z.of_nat j)) (seq a w) =
    existsb (fun j => f (n + Z.of_nat j)) (seq (k + a) w)) as E by (rewrite E, Nat.add_0_r; reflexivity).
  induction w as [|w IH]; intros a; cbn [seq existsb]; [reflexivity|]. rewrite IH, Nat.add_succ_r.
  replace (n + Z.of_nat k + Z.of_nat a) with (n + Z.of_nat (k + a)) by lia. reflexivity.
Qed.

Lemma smear_step c0 w c : smeared c0 w c -> smeared c0 (w + w) (Z.lor c (Z.shiftr c (Z.of_nat w))).
Proof.
  intros H n Hn. rewrite Z.lor_spec, Z.shiftr_spec, !H by lia. rewrite seq_app, existsb_app. f_equal.
  apply (existsb_shift (Z.testbit c0)).
Qed.

Lemma smeared_ones c0 c n : 0 < c0 < 2 ^ 64 -> smeared c0 64 c -> 0 <= n -> Z.testbit c n = (n <=? Z.log2 c0).
Proof.
  intros R H Hn. rewrite (H n Hn). assert (Z.log2 c0 < 64) as L by (apply Z.log2_lt_pow2; lia).
  destruct (Z.leb_spec n (Z.log2 c0)) as [Le|Gt].
  - apply existsb_exists. exists (Z.to_nat (Z.log2 c0 - n)). split; [apply in_seq; lia|].
    rewrite Z2Nat.id by lia. replace (n + (Z.log2 c0 - n)) with (Z.log2 c0) by lia. apply Z.bit_log2. lia.
  - apply not_true_iff_false. intros (j & _ & B)%existsb_exists. rewrite Z.bits_above_log2 in B by lia. discriminate.
Qed.

Lemma tree_cnt_ok count : 2 <= count <= 2 ^ 64 -> tree_cnt count = 2 ^ Z.log2 (count - 1).
Proof.
  intros R. unfold tree_cnt. cbn [fold_left]. set (c := Z.lor _ (Z.shiftr _ 32)).
  assert (smeared (count - 1) 64 c) as S.
  { assert (smeared (count - 1) 1 (count - 1)) as S1
      by (intros n Hn; cbn; rewrite Z.add_0_r, orb_false_r; reflexivity).
    exact (smear_step _ 32 _ (smear_step _ 16 _ (smear_step _ 8 _ (smear_step _ 4 _ (smear_step _ 2 _
      (smear_step _ 1 _ S1)))))). }
  clearbody c. apply Z.bits_inj'. intros n Hn.
  rewrite Z.land_spec, Z.lnot_spec, Z.shiftr_spec, !(smeared_ones (count - 1) c), Z.pow2_bits_eqb by (lia || exact S || apply Z.log2_nonneg).
  destruct (Z.leb_spec n (Z.log2 (count - 1))), (Z.leb_spec (n + 1) (Z.log2 (count - 1))), (Z.eqb_spec (Z.log2 (count - 1)) n);
    cbn; lia || reflexivity.
Qed.

(** The binary searches of [tree_depth] and [tree_branch]: with [w] bits to go, the exponent found so
    far is [depth]. *)
Definition search_inv (count w depth : Z) : Prop := 0 <= depth /\ depth + w <= 64 /\ 2 ^ depth <= count < 2 ^ (depth + w).

Lemma search_step count i depth : 0 < i -> search_inv count (2 * i) depth ->
  exists depth', depth_step (Z.shiftr count depth, depth) i = (Z.shiftr count depth', depth') /\
    cnt_step count (2 ^ depth, depth) i = (2 ^ depth', depth') /\ search_inv count i depth'.
Proof.
  intros Hi (Hd & H64 & L & U). unfold depth_step, cnt_step. replace (depth + 2 * i) with (depth + i + i) in * by lia.
  rewrite Z.shiftr_shiftr, Z.shiftr_div_pow2, Z.shiftl_mul_pow2, <- Z.pow_add_r by lia.
  pose proof (Z.pow_pos_nonneg 2 (depth + i)) as P. rewrite wrap_id.
  - destruct (Z.leb_spec (2 ^ (depth + i)) count) as [Le|Gt].
    + exists (depth + i). replace (0 <? count / 2 ^ (depth + i)) with true by (symmetry; apply Z.ltb_lt, Z.div_str_pos; lia).
      rewrite (Z.shiftr_div_pow2 count (depth + i)) by lia. split; [reflexivity|]. split; [reflexivity|]. red. lia.
    + exists depth. rewrite Z.div_small by lia. split; [reflexivity|]. split; [reflexivity|]. red. lia.
  - apply in_ity_spec. cbn [U64 i_min i_max]. assert (2 ^ (depth + i) < 2 ^ 64) by (apply Z.pow_lt_mono_r; lia). lia.
Qed.

(** Both find the logarithm. *)
Lemma searches_ok count : 1 <= count < 2 ^ 64 ->
  tree_depth count = Some (Z.log2 count) /\ branch_cnt count = (2 ^ Z.log2 count, Z.log2 count).
Proof.
  intros R. unfold tree_depth, branch_cnt, depth_steps. replace (0 <? count) with true by (symmetry; apply Z.ltb_lt; lia).
  cbn [obind c_assert fold_left]. assert (search_inv count (2 * 32) 0) as I0 by (red; lia).
  destruct (search_step count 32 0 ltac:(lia) I0) as (d1 & D1 & C1 & I1).
  destruct (search_step count 16 d1 ltac:(lia) I1) as (d2 & D2 & C2 & I2).
  destruct (search_step count 8 d2 ltac:(lia) I2) as (d3 & D3 & C3 & I3).
  destruct (search_step count 4 d3 ltac:(lia) I3) as (d4 & D4 & C4 & I4).
  destruct (search_step count 2 d4 ltac:(lia) I4) as (d5 & D5 & C5 & I5).
  destruct (search_step count 1 d5 ltac:(lia) I5) as (d6 & D6 & C6 & Hd & _ & L & U).
  rewrite Z.shiftr_0_r in D1. change (2 ^ 0) with 1 in C1.
  rewrite D1, D2, D3, D4, D5, D6, C1, C2, C3, C4, C5, C6. cbn [snd].
  rewrite (Z.log2_unique count d6 Hd) by (rewrite Z.add_1_r in U; lia). auto.
Qed.
(** ** The functions *)

Lemma log2_of_nat n : Z.log2 (Z.of_nat n) = Z.of_nat (Nat.log2 n).
Proof.
  destruct (Nat.eq_dec n 0) as [->|N]; [reflexivity|]. pose proof (Nat.log2_spec n ltac:(lia)) as [L U].
  apply Z.log2_unique; [lia|]. rewrite <- Nat2Z.inj_succ. rewrite <- !(Nat2Z.inj_pow 2). lia.
Qed.

Lemma pow_log2_nat n : Z.to_nat (2 ^ Z.log2 (Z.of_nat n)) = (2 ^ Nat.log2 n)%nat.
Proof. rewrite log2_of_nat, <- (Nat2Z.inj_pow 2), Nat2Z.id. reflexivity. Qed.

Lemma level0_length cnt hashes : (cnt <= length hashes <= 2 * cnt)%nat -> length (level0 cnt hashes) = cnt.
Proof.
  intros H. unfold level0. cbv zeta. rewrite length_app, length_firstn.
  rewrite (pairup_length _ (length hashes - cnt)%nat) by (rewrite length_skipn; lia). lia.
Qed.

Lemma Forall_firstn {A} (P : A -> Prop) n l : Forall P l -> Forall P (firstn n l).
Proof. intros H. rewrite <- (firstn_skipn n l) in H. apply Forall_app in H. tauto. Qed.

Lemma Forall_drop {A} (P : A -> Prop) n l : Forall P l -> Forall P (skipn n l).
Proof. intros H. rewrite <- (firstn_skipn n l) in H. apply Forall_app in H. tauto. Qed.

Lemma level0_hashes cnt hashes : Forall (bytes_n 32) hashes -> Forall (bytes_n 32) (level0 cnt hashes).
Proof. intros H. apply Forall_app. split; [apply Forall_firstn, H|apply pairup_hashes, Forall_drop, H]. Qed.

Lemma tree_hash_ok hashes : Forall (bytes_n 32) hashes -> (0 < length hashes)%nat -> Z.of_nat (length hashes) < 2 ^ 63 ->
  tree_hash hashes = Some (merkle_root hashes).
Proof.
  intros H L U. destruct hashes as [|a [|b [|c l]]]; [cbn in L; lia|reflexivity| |].
  { inversion_clear H as [|? ? Ha H']. inversion_clear H' as [|? ? Hb _].
    exact (hash_pair_at [] a b [] Ha Hb). }
  set (hashes := a :: b :: c :: l) in *. set (d := Nat.log2 (length hashes - 1)). unfold tree_hash. cbv zeta.
  replace (0 <? length hashes)%nat with true by reflexivity.
  replace (length hashes =? 1)%nat with false by reflexivity. replace (length hashes =? 2)%nat with false by reflexivity.
  cbn [obind c_assert]. assert (3 <= length hashes)%nat as L3 by (cbn; lia). clearbody hashes. clear a b c l L.
  pose proof (Nat.log2_spec (length hashes - 1) ltac:(lia)) as [Lo Hi]. fold d in Lo, Hi.
  assert (1 <= d)%nat as D1 by (apply Nat.log2_le_pow2; cbn; lia).
  rewrite tree_cnt_ok by lia. replace (Z.of_nat (length hashes) - 1) with (Z.of_nat (length hashes - 1)) by lia.
  rewrite pow_log2_nat. fold d. pose proof (Nat.pow_succ_r' 2 d) as P.
  set (cnt := (2 ^ d)%nat) in *. set (k := (2 * cnt - length hashes)%nat). unfold alloc_copy.
  replace ((k <=? cnt)%nat && (k <=? length hashes)%nat) with true
    by (symmetry; apply andb_true_intro; split; apply Nat.leb_le; lia).
  cbn [obind c_assert]. pose proof (length_firstn k hashes) as Lk. rewrite Nat.min_l in Lk by lia.
  pose proof (pair_into_ok hashes (cnt - k) (firstn k hashes) (skipn k hashes) [] (firstn k hashes) (repeat [] (cnt - k))) as E.
  rewrite Lk in E. rewrite E; clear E;
    [|rewrite app_nil_r, firstn_skipn; reflexivity|rewrite length_skipn; lia|apply Forall_drop, H|apply repeat_length].
  cbn [obind]. replace (k + 2 * (cnt - k) =? length hashes)%nat with true by (symmetry; apply Nat.eqb_eq; lia).
  cbn [obind c_assert]. change (firstn k hashes ++ pairup (skipn k hashes)) with (level0 cnt hashes).
  assert (exists d', d = S d') as (d' & Ed) by (exists (d - 1)%nat; lia).
  assert (d' < 64)%nat as D64.
  { pose proof (log2_of_nat (length hashes - 1)) as Q. fold d in Q.
    assert (Z.log2 (Z.of_nat (length hashes - 1)) < 64) by (apply Z.log2_lt_pow2; lia). lia. }
  destruct (tree_reduce_ok d' 64 (level0 cnt hashes) [] D64) as (x & y & r & Er & Hx & Hy & M).
  { rewrite <- Ed. apply level0_length. fold cnt. lia. }
  { apply level0_hashes, H. }
  rewrite app_nil_r, <- Ed in Er. fold cnt in Er. rewrite Er. cbn [obind].
  pose proof (hash_pair_at [] x y r Hx Hy) as E. cbn [app length] in E. rewrite E, M.
  unfold merkle_root. cbv zeta. fold d. unfold cnt. rewrite <- Ed. reflexivity.
Qed.

(** The branch of the first leaf in the tree over [l]: its siblings, the ones near the root first. *)
Fixpoint first_branch (d : nat) (l : list (list Z)) : list (list Z) :=
  match d with O => [] | S d => first_branch d (pairup l) ++ [nth 1 l []] end.

Lemma branch_loop_ok d : forall x ints rest old suf, length (x :: ints) = (2 ^ d)%nat ->
  Forall (bytes_n 32) (x :: ints) -> length old = d ->
  branch_loop d (2 ^ d) (ints ++ rest) (old ++ suf) = Some (first_branch d (x :: ints) ++ suf).
Proof.
  induction d as [|d IH]; intros x ints rest old suf L H Lo.
  - destruct old; [|discriminate Lo]. reflexivity.
  - pose proof (Nat.pow_succ_r' 2 d) as P. pose proof (Nat.pow_nonzero 2 d ltac:(lia)) as P0.
    destruct ints as [|b ints]; [cbn [length] in L; lia|]. cbn [branch_loop]. rewrite Nat.eqb_refl. cbn [obind c_assert].
    cbv zeta. rewrite P, Nat.div2_double. cbn [app nth_error obind].
    destruct old as [|y0 old0] using rev_ind; [discriminate Lo|]. clear IHold0.
    rewrite length_app in Lo. cbn [length] in Lo. rewrite <- app_assoc. cbn [app].
    replace (store (old0 ++ y0 :: suf) d b) with (Some (old0 ++ b :: suf))
      by (rewrite <- (store_at old0 suf y0 b); f_equal; lia).
    cbn [obind].
    inversion_clear H as [|? ? Hx H']. inversion_clear H' as [|? ? Hb H]. cbn [length] in L.
    destruct (pair_within_ok (2 ^ d - 1) [] [b] ints rest) as (junk & Ew & _); [lia|exact H|].
    cbn [app length Nat.add] in Ew. rewrite Ew. cbn [obind].
    rewrite (IH (hnode x b) (pairup ints) (junk ++ rest) old0 (b :: suf)); [|cbn [length]; rewrite (pairup_length _ (2 ^ d - 1)); lia| |lia].
    + cbn [first_branch pairup nth]. rewrite <- app_assoc. reflexivity.
    + constructor; [apply hnode_ok; assumption|apply pairup_hashes, H].
Qed.

(** The two ways to find the first full level give the same root. *)
Lemma root_of_level hashes : (0 < length hashes)%nat ->
  mtree (Nat.log2 (length hashes)) (level0 (2 ^ Nat.log2 (length hashes)) hashes) = merkle_root hashes.
Proof.
  intros L. unfold merkle_root. cbv zeta. pose proof (Nat.log2_spec (length hashes) L) as [Lo Hi].
  set (d := Nat.log2 (length hashes)) in *. destruct (Nat.eq_dec (length hashes) (2 ^ d)) as [E|N].
  - assert (level0 (2 ^ d) hashes = hashes) as ->.
    { unfold level0. cbv zeta. rewrite E. replace (2 * 2 ^ d - 2 ^ d)%nat with (length hashes) by lia.
      rewrite firstn_all, skipn_all. apply app_nil_r. }
    destruct d as [|d'] eqn:Ed.
    { destruct hashes as [|a [|? ?]]; try discriminate E. reflexivity. }
    rewrite E. replace (2 ^ S d' - 1)%nat with (Nat.pred (2 ^ S d')) by lia. rewrite Nat.log2_pred_pow2 by lia. cbn [Nat.pred].
    rewrite <- mtree_pairup by exact E. f_equal. unfold level0. cbv zeta. rewrite E, Nat.pow_succ_r', Nat.sub_diag. reflexivity.
  - assert (Nat.log2 (length hashes - 1) = d) as -> by (apply Nat.log2_unique; lia). reflexivity.
Qed.

Lemma tree_branch_ok hashes branch : Forall (bytes_n 32) hashes -> (0 < length hashes)%nat ->
  Z.of_nat (length hashes) < 2 ^ 63 -> (Nat.log2 (length hashes) <= length branch)%nat ->
  let d := Nat.log2 (length hashes) in
  tree_branch hashes branch = Some (first_branch d (level0 (2 ^ d) hashes) ++ skipn d branch).
Proof.
  intros H L U B d. unfold tree_branch. cbv zeta. pose proof (Nat.log2_spec (length hashes) L) as [Lo Hi]. fold d in Lo, Hi, B.
  pose proof (Nat.pow_succ_r' 2 d) as P. pose proof (Nat.pow_nonzero 2 d ltac:(lia)) as P0.
  replace (0 <? length hashes)%nat with true by (symmetry; apply Nat.ltb_lt; lia). cbn [obind c_assert].
  destruct (searches_ok (Z.of_nat (length hashes)) ltac:(lia)) as [-> ->]. rewrite Z.shiftl_1_l.
  assert (Z.log2 (Z.of_nat (length hashes)) < 63) as D63 by (apply Z.log2_lt_pow2; lia).
  rewrite wrap_id.
  2: { apply in_ity_spec. cbn [U64 i_min i_max]. pose proof (Z.log2_nonneg (Z.of_nat (length hashes))).
       pose proof (Z.pow_pos_nonneg 2 (Z.log2 (Z.of_nat (length hashes)))).
       assert (2 ^ Z.log2 (Z.of_nat (length hashes)) < 2 ^ 64) by (apply Z.pow_lt_mono_r; lia). lia. }
  rewrite !Z.eqb_refl. cbn [obind c_assert]. rewrite Z.eqb_refl. cbn [obind c_assert]. rewrite pow_log2_nat, log2_of_nat, Nat2Z.id. fold d.
  set (cnt := (2 ^ d)%nat) in *. destruct hashes as [|h0 l] eqn:Eh; [cbn in L; lia|]. cbn [skipn]. rewrite <- Eh in *.
  assert (length hashes = S (length l)) as Ll by (rewrite Eh; reflexivity).
  set (k := (2 * cnt - length hashes - 1)%nat). unfold alloc_copy.
  replace ((k <=? cnt - 1)%nat && (k <=? length l)%nat) with true
    by (symmetry; apply andb_true_intro; split; apply Nat.leb_le; lia).
  cbn [obind c_assert]. pose proof (length_firstn k l) as Lk. rewrite Nat.min_l in Lk by lia.
  pose proof (pair_into_ok hashes (cnt - 1 - k) (h0 :: firstn k l) (skipn k l) [] (firstn k l) (repeat [] (cnt - 1 - k))) as E.
  cbn [length] in E. rewrite Lk in E. replace (2 * cnt - length hashes)%nat with (S k) by lia.
  rewrite E; clear E; [|rewrite app_nil_r, <- app_comm_cons, firstn_skipn; exact Eh|rewrite length_skipn; lia| |apply repeat_length].
  2: { rewrite Eh in H. inversion_clear H. apply Forall_drop. assumption. }
  cbn [obind]. replace (S k + 2 * (cnt - 1 - k) =? length hashes)%nat with true by (symmetry; apply Nat.eqb_eq; lia).
  cbn [obind c_assert].
  assert (level0 cnt hashes = h0 :: firstn k l ++ pairup (skipn k l)) as E0.
  { unfold level0. cbv zeta. replace (2 * cnt - length hashes)%nat with (S k) by lia. rewrite Eh. reflexivity. }
  rewrite <- (firstn_skipn d branch) at 1. rewrite <- (app_nil_r (firstn k l ++ pairup (skipn k l))).
  rewrite (branch_loop_ok d h0); rewrite <- ?E0.
  - reflexivity.
  - apply level0_length. lia.
  - apply level0_hashes, H.
  - rewrite length_firstn. lia.
Qed.
(** ** Branches *)

(** The root from a leaf and its branch, the siblings near the root first; [right] tells the side of
    the leaf at each level. *)
Fixpoint climb (branch : list (list Z)) (right : nat -> bool) (leaf : list Z) : list Z :=
  match branch with
  | [] => leaf
  | b :: branch =>
      let c := climb branch (fun k => right (S k)) leaf in
      if right O then hnode b c else hnode c b
  end.

Lemma climb_snoc branch b : forall right leaf, climb (branch ++ [b]) right leaf =
  climb branch right (if right (length branch) then hnode b leaf else hnode leaf b).
Proof. induction branch as [|x branch IH]; intros right leaf; cbn; [reflexivity|]. rewrite IH. reflexivity. Qed.

Lemma climb_hash branch : forall right leaf, Forall (bytes_n 32) branch -> bytes_n 32 leaf -> bytes_n 32 (climb branch right leaf).
Proof.
  induction branch as [|b branch IH]; intros right leaf H Hl; cbn [climb]; [exact Hl|].
  inversion_clear H as [|? ? Hb H']. destruct (right O); apply hnode_ok; auto.
Qed.

(** The branch of the leaf on a given path, and the leaf. *)
Fixpoint leaf_at (d : nat) (l : list (list Z)) (right : nat -> bool) : list Z :=
  match d with
  | O => nth 0 l []
  | S d => leaf_at d (if right O then skipn (2 ^ d) l else firstn (2 ^ d) l) (fun k => right (S k))
  end.

Fixpoint siblings (d : nat) (l : list (list Z)) (right : nat -> bool) : list (list Z) :=
  match d with
  | O => []
  | S d =>
      mtree d (if right O then firstn (2 ^ d) l else skipn (2 ^ d) l) ::
      siblings d (if right O then skipn (2 ^ d) l else firstn (2 ^ d) l) (fun k => right (S k))
  end.

Lemma climb_siblings d : forall l right, climb (siblings d l right) right (leaf_at d l right) = mtree d l.
Proof.
  induction d as [|d IH]; intros l right; cbn [siblings leaf_at climb mtree]; [reflexivity|].
  rewrite IH. destruct (right O); reflexivity.
Qed.

Lemma siblings_length d : forall l right, length (siblings d l right) = d.
Proof. induction d as [|d IH]; intros l right; cbn; [|rewrite IH]; reflexivity. Qed.

Lemma first_branch_length d : forall l, length (first_branch d l) = d.
Proof. induction d as [|d IH]; intros l; cbn; [reflexivity|]. rewrite length_app, IH. cbn. lia. Qed.

Lemma nth_hash l i : Forall (bytes_n 32) l -> (i < length l)%nat -> bytes_n 32 (nth i l []).
Proof. intros H L. rewrite Forall_forall in H. apply H, nth_In, L. Qed.

Lemma first_branch_ok d : forall l, length l = (2 ^ d)%nat -> Forall (bytes_n 32) l ->
  climb (first_branch d l) (fun _ => false) (nth 0 l []) = mtree d l /\ Forall (bytes_n 32) (first_branch d l).
Proof.
  induction d as [|d IH]; intros l L H; [split; [reflexivity|constructor]|]. pose proof (Nat.pow_succ_r' 2 d) as P.
  pose proof (Nat.pow_nonzero 2 d ltac:(lia)) as P0.
  destruct (IH (pairup l)) as [E F]; [apply pairup_length; lia|apply pairup_hashes, H|]. cbn [first_branch]. split.
  - rewrite climb_snoc, <- mtree_pairup, <- E by exact L. destruct l as [|a [|b l]]; [cbn in L; lia..|]. reflexivity.
  - apply Forall_app. split; [exact F|]. constructor; [|constructor]. apply nth_hash; [exact H|lia].
Qed.

(** The value the two halves of [buffer] stand for. *)
Definition buffer_value (leaf : list Z) (buffer : option (list Z * list Z)) : list Z :=
  match buffer with None => leaf | Some (b0, b1) => hnode b0 b1 end.

Definition buffer_ok (buffer : option (list Z * list Z)) : Prop :=
  match buffer with None => True | Some (b0, b1) => bytes_n 32 b0 /\ bytes_n 32 b1 end.

Lemma from_branch_loop_ok branch leaf path right d :
  (forall k b, (k < d)%nat -> nth_error branch k = Some b -> bytes_n 32 b) -> bytes_n 32 leaf ->
  (forall k, (k < d)%nat -> path_bit path k = Some (right k)) -> (d <= length branch)%nat ->
  forall buffer, buffer_ok buffer -> exists buffer', from_branch_loop branch d leaf path buffer = Some buffer' /\
    buffer_ok buffer' /\ (d <> O \/ buffer <> None -> buffer' <> None) /\
    buffer_value leaf buffer' = climb (firstn d branch) right (buffer_value leaf buffer).
Proof.
  intros H Hl. induction d as [|d IH]; intros Hp L buffer B; cbn [from_branch_loop].
  { exists buffer. cbn. repeat split; try assumption. intros [[]|N]; [reflexivity|exact N]. }
  rewrite (Hp d) by lia. cbn [obind].
  assert (bytes_n 32 (buffer_value leaf buffer)) as Hv.
  { destruct buffer as [[b0 b1]|]; [apply hnode_ok; apply B|exact Hl]. }
  replace (match buffer with None => Some leaf | Some (b0, b1) => fast_hash (b0 ++ b1) end)
    with (Some (buffer_value leaf buffer)) by (destruct buffer as [[b0 b1]|]; [symmetry; apply hnode_ok; apply B|reflexivity]).
  cbn [obind]. destruct (nth_error branch d) as [b|] eqn:Eb; [|apply nth_error_None in Eb; lia]. cbn [obind].
  assert (bytes_n 32 b) as Hb by (apply (H d b); [lia|exact Eb]).
  set (v := buffer_value leaf buffer) in *. set (buffer1 := Some (if right d then (b, v) else (v, b))).
  destruct (IH ltac:(intros; apply (H k); [lia|assumption]) ltac:(intros; apply Hp; lia) ltac:(lia) buffer1) as (buffer' & E & Bo & Ne & V).
  { unfold buffer1. destruct (right d); cbn; auto. }
  exists buffer'. split; [exact E|]. split; [exact Bo|]. split; [intros _; apply Ne; right; discriminate|].
  rewrite V. pose proof (firstn_skipn_middle d branch Eb) as M.
  replace (firstn (S d) branch) with (firstn d branch ++ [b]).
  - rewrite climb_snoc, length_firstn, Nat.min_l by lia. unfold buffer1. destruct (right d); reflexivity.
  - rewrite <- M at 2. rewrite firstn_app, length_firstn, Nat.min_l, firstn_firstn, Nat.min_r by lia.
    replace (S d - d)%nat with 1%nat by lia. reflexivity.
Qed.

Lemma tree_hash_from_branch_ok branch leaf path right d :
  (forall k b, (k < d)%nat -> nth_error branch k = Some b -> bytes_n 32 b) -> bytes_n 32 leaf ->
  (forall k, (k < d)%nat -> path_bit path k = Some (right k)) -> (d <= length branch)%nat ->
  tree_hash_from_branch branch d leaf path = Some (climb (firstn d branch) right leaf).
Proof.
  intros H Hl Hp L. unfold tree_hash_from_branch. destruct (Nat.eqb_spec d 0) as [->|N]; [reflexivity|].
  destruct (from_branch_loop_ok branch leaf path right d H Hl Hp L None I) as (buffer & -> & B & Ne & V). cbn [obind].
  destruct buffer as [[b0 b1]|]; [|destruct (Ne (or_introl N)); reflexivity]. cbn [obind].
  rewrite (proj1 (hnode_ok b0 b1 (proj1 B) (proj2 B))). f_equal. exact V.
Qed.

(** Two branches with the same root and path: the leaves are equal, or two different inputs have the
    same hash. *)
Definition collision : Prop :=
  exists x y, x <> y /\ length x = 64%nat /\ length y = 64%nat /\ fast_hash x = fast_hash y.

Lemma app_inj_length {A} (a b c d : list A) : length a = length c -> a ++ b = c ++ d -> a = c /\ b = d.
Proof.
  revert c. induction a as [|x a IH]; intros [|y c] L E; try discriminate L; [auto|].
  injection L as L. injection E as -> E. destruct (IH c L E) as [-> ->]. auto.
Qed.

Lemma hnode_inj a b c d : bytes_n 32 a -> bytes_n 32 b -> bytes_n 32 c -> bytes_n 32 d -> hnode a b = hnode c d ->
  a = c /\ b = d \/ collision.
Proof.
  intros Ha Hb Hc Hd E. destruct (hnode_ok a b Ha Hb) as [E1 _], (hnode_ok c d Hc Hd) as [E2 _].
  destruct Ha as [_ La], Hb as [_ Lb], Hc as [_ Lc], Hd as [_ Ld].
  destruct (list_eq_dec Z.eq_dec (a ++ b) (c ++ d)) as [Eq|N].
  - left. apply app_inj_length; [congruence|exact Eq].
  - right. exists (a ++ b), (c ++ d). split; [exact N|].
    rewrite !length_app, La, Lb, Lc, Ld. split; [reflexivity|]. split; [reflexivity|]. congruence.
Qed.

Lemma climb_binding branch : forall branch' right leaf leaf', length branch' = length branch ->
  Forall (bytes_n 32) branch -> Forall (bytes_n 32) branch' -> bytes_n 32 leaf -> bytes_n 32 leaf' ->
  climb branch right leaf = climb branch' right leaf' -> leaf = leaf' \/ collision.
Proof.
  induction branch as [|b branch IH]; intros [|b' branch'] right leaf leaf' L H H' Hl Hl' E; try discriminate L; cbn [climb] in E.
  - auto.
  - injection L as L. inversion_clear H as [|? ? Hb Hr]. inversion_clear H' as [|? ? Hb' Hr'].
    pose proof (climb_hash branch (fun k => right (S k)) leaf Hr Hl) as C.
    pose proof (climb_hash branch' (fun k => right (S k)) leaf' Hr' Hl') as C'.
    destruct (right O); apply hnode_inj in E as [[E1 E2]|]; auto; eapply IH; eassumption.
Qed.

Lemma hashes_nth (l : list (list Z)) d : Forall (bytes_n 32) l ->
  forall k b, (k < d)%nat -> nth_error l k = Some b -> bytes_n 32 b.
Proof. intros H k b _ E. rewrite Forall_forall in H. apply H, (nth_error_In _ k), E. Qed.

Lemma tree_hash_from_branch_first branch rest d leaf : Forall (bytes_n 32) branch -> length branch = d -> bytes_n 32 leaf ->
  tree_hash_from_branch (branch ++ rest) d leaf None = Some (climb branch (fun _ => false) leaf).
Proof.
  intros H L Hl. rewrite (tree_hash_from_branch_ok _ leaf None (fun _ => false) d).
  - rewrite firstn_app, L, Nat.sub_diag, firstn_all2, firstn_O, app_nil_r by lia. reflexivity.
  - intros k b Hk E. rewrite nth_error_app1 in E by lia. exact (hashes_nth branch d H k b Hk E).
  - exact Hl.
  - reflexivity.
  - rewrite length_app. lia.
Qed.

Lemma level0_first cnt hashes : (0 < length hashes < 2 * cnt)%nat -> nth 0 (level0 cnt hashes) [] = nth 0 hashes [].
Proof.
  intros H. unfold level0. cbv zeta. destruct hashes as [|h l]; [cbn in H; lia|].
  destruct (2 * cnt - length (h :: l))%nat eqn:E; [lia|]. reflexivity.
Qed.

Lemma mtree_hash d : forall l, Forall (bytes_n 32) l -> length l = (2 ^ d)%nat -> bytes_n 32 (mtree d l).
Proof.
  induction d as [|d IH]; intros l H L; cbn [mtree].
  - apply nth_hash; [exact H|]. cbn in L. lia.
  - pose proof (Nat.pow_succ_r' 2 d) as P. apply hnode_ok; apply IH; auto using Forall_firstn, Forall_drop;
      rewrite ?length_firstn, ?length_skipn; lia.
Qed.

Lemma siblings_hashes d : forall l right, Forall (bytes_n 32) l -> length l = (2 ^ d)%nat ->
  Forall (bytes_n 32) (siblings d l right) /\ bytes_n 32 (leaf_at d l right).
Proof.
  induction d as [|d IH]; intros l right H L; cbn [siblings leaf_at].
  - split; [constructor|]. apply nth_hash; [exact H|]. cbn in L. lia.
  - pose proof (Nat.pow_succ_r' 2 d) as P.
    assert (forall b : bool, Forall (bytes_n 32) (if b then skipn (2 ^ d) l else firstn (2 ^ d) l) /\
      length (if b then skipn (2 ^ d) l else firstn (2 ^ d) l) = (2 ^ d)%nat) as G.
    { intros []; (split; [auto using Forall_firstn, Forall_drop|]); rewrite ?length_firstn, ?length_skipn; lia. }
    destruct (IH _ (fun k => right (S k)) (proj1 (G (right O))) (proj2 (G (right O)))) as [S1 S2]. split; [|exact S2].
    constructor; [|exact S1]. replace (if right O then firstn (2 ^ d) l else skipn (2 ^ d) l)
      with (if negb (right O) then skipn (2 ^ d) l else firstn (2 ^ d) l) by (destruct (right O); reflexivity).
    apply mtree_hash; apply G.
Qed.
End TreeHash.
