(* ===== verification/HashSpec.v ===== *)
(** * What the hash functions, the random generator, the varints and the Merkle tree promise *)

From Stdlib Require Import ZArith Lia List Bool.
Import ListNotations.
From S2P Require Import Prelude Bytes Keccak Varint Primes Edwards Ge GeCorrect HashToPoint Crypto TreeHash.
Set Default Goal Selector "!".

(** ** Keccak *)

(** C35: [keccakf] with 24 rounds is the permutation Keccak-f[1600] of FIPS 202 (with its rotation
    offsets and round constants computed from their definitions), and [cn_fast_hash] returns the
    first 32 bytes of the sponge of rate 136 over it with multi-rate padding, for every input
    shorter than [2^31] bytes. *)
Theorem keccak_is_fips202 st data : length st = 25%nat -> Z.of_nat (length data) < 2 ^ 31 ->
  hash_permutation st = Fips202.keccak_f st /\
  hash_process data = Some (bytes64 (Sponge.sponge 136 data)) /\
  cn_fast_hash data = Some (firstn 32 (bytes64 (Sponge.sponge 136 data))).
Proof.
  intros L H. split; [exact (keccakf_fips st L)|]. pose proof (keccak1600_spec data H) as E.
  split; [exact E|]. unfold cn_fast_hash, hash_process. rewrite E. reflexivity.
Qed.

Lemma keccak_witness : hash_permutation (repeat 7 25) = Fips202.keccak_f (repeat 7 25) /\
  cn_fast_hash [1; 2; 3] = Some (firstn 32 (bytes64 (Sponge.sponge 136 [1; 2; 3]))).
Proof.
  destruct (keccak_is_fips202 (repeat 7 25) [1; 2; 3] eq_refl eq_refl) as (A & _ & B). exact (conj A B).
Defined.

(** ** The random generator *)

(** Whatever calls of [init_random], [generate_random_bytes] and [deinit_random] have returned,
    the generator is off or idle with 25 words of 64 bits; when it is idle every request is
    answered with as many bytes as asked and leaves it idle, a second [init_random] stops; when it
    is off, requests and [deinit_random] stop on their assertions. *)
Theorem rng_invariant r : rng_reachable r ->
  length (rng_words r) = 25%nat /\ Forall word64 (rng_words r) /\
  (curstate r = 1 /\ (forall n, total (generate_random_bytes n r) (fun '(bs, r') =>
      length bs = n /\ Forall byte bs /\ rng_reachable r' /\ curstate r' = 1)) /\
    (forall seed, init_random seed r = None) \/
   curstate r = 0 /\ (forall n, generate_random_bytes n r = None) /\ deinit_random r = None /\
    (forall seed, Forall byte seed -> total (init_random seed r) (fun r' => rng_reachable r' /\ curstate r' = 1))).
Proof.
  intros H. destruct (rng_reachable_inv r H) as (L & W & C). split; [exact L|]. split; [exact W|].
  destruct C as [C|C]; [right|left]; (split; [exact C|]).
  - unfold generate_random_bytes, deinit_random, init_random. rewrite C. split; [reflexivity|]. split; [reflexivity|].
    intros seed B. apply total_ret. split; [|reflexivity]. eapply reach_step; [exact H|].
    eapply (rng_init seed); [exact B|]. unfold init_random. rewrite C. reflexivity.
  - split; [|unfold init_random; rewrite C; reflexivity]. intros n.
    destruct (generate_random_bytes_ok n r (conj L (conj W C))) as ([bs r'] & E & Ln & B & (_ & _ & C')).
    exists (bs, r'). split; [exact E|]. split; [exact Ln|]. split; [exact B|]. split; [|exact C'].
    eapply reach_step; [exact H|]. eapply rng_generate. exact E.
Qed.

Lemma rng_invariant_witness : exists r, init_random (le_bytes 32 99) rng_static = Some r /\
  total (generate_random_bytes 1000 r) (fun '(bs, r') => length bs = 1000%nat /\ Forall byte bs /\ rng_reachable r' /\ curstate r' = 1).
Proof.
  destruct (init_random (le_bytes 32 99) rng_static) as [r|] eqn:E; [|discriminate E]. exists r. split; [reflexivity|].
  assert (curstate r = 1) as C by (injection E as <-; reflexivity).
  destruct (rng_invariant r (reach_step _ _ reach_static (rng_init _ _ _ (le_bytes_byte 32 99) E)))
    as (_ & _ & [(_ & G & _)|(C0 & _)]); [exact (G 1000%nat)|rewrite C in C0; discriminate C0].
Defined.

(** ** Varints *)

(** The two encoders agree, and each decoder inverts them: [readVarint] of width [w] accepts an
    input exactly when it starts with the encoding of an integer below [2^w], which it returns with
    the rest; so every integer has one encoding. *)
Theorem varint_roundtrip w inp v rest : 0 < w <= 64 -> Forall byte inp ->
  writeVarint v = write_varint v /\
  (readVarint w inp = inr (v, rest) <-> 0 <= v < 2 ^ w /\ inp = writeVarint v ++ rest).
Proof. intros Hw B. split; [apply writeVarint_eq|apply readVarint_ok; assumption]. Qed.

Lemma varint_witness : readVarint 32 (writeVarint 300 ++ [7; 8]) = inr (300, [7; 8]).
Proof.
  apply (proj2 (varint_roundtrip 32 (writeVarint 300 ++ [7; 8]) 300 [7; 8] ltac:(lia) (bytesb_ok (writeVarint 300 ++ [7; 8]) eq_refl))).
  split; [lia|reflexivity].
Defined.

(** [read_varint] of 64 bits, the decoder of addresses, reads every encoding and returns its
    length, but it does not tell an encoding that is cut off from a complete one: on a proper
    prefix of an encoding it returns the number of bytes of the prefix, where [readVarint] throws. *)
Theorem read_varint_truncated v rest n : 0 <= v < 2 ^ 64 -> (0 < n < length (write_varint v))%nat ->
  read_varint 64 (write_varint v ++ rest) = (Z.of_nat (length (write_varint v)), v, rest) /\
  read_varint 64 (firstn n (write_varint v)) = (Z.of_nat n, group_val (firstn n (write_varint v)), []) /\
  exists e, readVarint 64 (firstn n (write_varint v)) = inl e.
Proof.
  intros Hv Hn. destruct (write_varint_ok v Hv) as (C & V & _). set (bs := write_varint v) in *.
  pose proof (firstn_skipn n bs) as S. split; [|split].
  - unfold read_varint. rewrite (read_varint_loop_accepts 64 ltac:(lia) bs 0 0 0 rest C); rewrite ?V; [|lia..].
    f_equal. f_equal; lia.
  - unfold read_varint. rewrite (read_varint_loop_prefix 64 ltac:(lia) (firstn n bs) 0 0 0 (skipn n bs)).
    + rewrite length_firstn, Nat.min_l by lia. f_equal. f_equal; lia.
    + rewrite S. exact C.
    + intros E. apply (f_equal (@length Z)) in E. rewrite length_skipn in E. cbn [length] in E. lia.
    + lia.
    + cbn. lia.
    + rewrite S, V. cbn. lia.
  - apply readVarint_loop_open, (canonical_prefix _ true (skipn n bs)); [rewrite S; exact C|].
    intros E. apply (f_equal (@length Z)) in E. rewrite length_skipn in E. cbn [length] in E. lia.
Qed.

Lemma read_varint_truncated_witness : read_varint 64 (firstn 1 (write_varint 300)) = (1, 44, []) /\
  exists e, readVarint 64 (firstn 1 (write_varint 300)) = inl e.
Proof. exact (proj2 (read_varint_truncated 300 [] 1 ltac:(lia) ltac:(change (length (write_varint 300)) with 2%nat; lia))). Defined.

(** ** The Merkle tree *)

Section Tree.
Context {FH : FastHash}.

(** C34: [tree_hash] computes the root of the Merkle tree: for any number of hashes below [2^63], with
    [2^d] the power of two below their number, the last ones are hashed in pairs to leave [2^d],
    and the root is the recursive binary tree over them; the in-place reduction never reads an
    entry it has overwritten, and its assertions hold. *)
Theorem tree_hash_merkle hashes : Forall (bytes_n 32) hashes -> (0 < length hashes)%nat ->
  Z.of_nat (length hashes) < 2 ^ 63 -> tree_hash hashes = Some (merkle_root hashes).
Proof. apply tree_hash_ok. Qed.

(** The branch that [tree_branch] writes into an array of at least [tree_depth] entries proves
    the first hash: [tree_hash_from_branch] takes it and the first hash back to the root of
    [tree_hash], and the rest of the array is not touched. *)
Theorem tree_branch_roundtrip hashes branch : Forall (bytes_n 32) hashes -> (0 < length hashes)%nat ->
  Z.of_nat (length hashes) < 2 ^ 63 -> (Nat.log2 (length hashes) <= length branch)%nat ->
  let d := Nat.log2 (length hashes) in
  tree_depth (Z.of_nat (length hashes)) = Some (Z.of_nat d) /\
  exists branch', tree_branch hashes branch = Some branch' /\ length branch' = length branch /\
    skipn d branch' = skipn d branch /\
    tree_hash_from_branch branch' d (nth 0 hashes []) None = tree_hash hashes.
Proof.
  intros H L U B d. pose proof (Nat.log2_spec (length hashes) L) as [Lo Hi]. fold d in Lo, Hi, B.
  pose proof (Nat.pow_succ_r' 2 d) as P. pose proof (Nat.pow_nonzero 2 d ltac:(lia)) as P0.
  destruct (searches_ok (Z.of_nat (length hashes)) ltac:(lia)) as [-> _]. rewrite log2_of_nat. split; [reflexivity|].
  assert (length (level0 (2 ^ d) hashes) = (2 ^ d)%nat) as Ll by (apply level0_length; lia).
  destruct (first_branch_ok d (level0 (2 ^ d) hashes) Ll (level0_hashes _ _ H)) as [E F].
  pose proof (first_branch_length d (level0 (2 ^ d) hashes)) as Lb.
  eexists. split; [apply tree_branch_ok; assumption|]. fold d. rewrite length_app, Lb, length_skipn. split; [lia|].
  split; [rewrite skipn_app, Lb, Nat.sub_diag, (skipn_all2 (first_branch _ _)) by lia; reflexivity|].
  rewrite tree_hash_ok, <- root_of_level by assumption. fold d. rewrite <- E.
  rewrite (tree_hash_from_branch_first _ (skipn d branch) d), level0_first by (assumption || lia || (apply nth_hash; lia || assumption)). reflexivity.
Qed.

(** Branches prove leaves: from the siblings on the path to any leaf of a full tree,
    [tree_hash_from_branch] computes the root, and two branches of the same depth and path that give
    the same root have the same leaf, or give two different inputs of 64 bytes with the same hash. *)
Theorem branch_proves_leaf d l right path branch branch' leaf leaf' :
  (forall k, (k < d)%nat -> path_bit path k = Some (right k)) ->
  Forall (bytes_n 32) l -> length l = (2 ^ d)%nat ->
  Forall (bytes_n 32) branch -> Forall (bytes_n 32) branch' -> length branch = d -> length branch' = d ->
  bytes_n 32 leaf -> bytes_n 32 leaf' ->
  tree_hash_from_branch (siblings d l right) d (leaf_at d l right) path = Some (mtree d l) /\
  (tree_hash_from_branch branch d leaf path = tree_hash_from_branch branch' d leaf' path ->
   leaf = leaf' \/ exists x y, x <> y /\ length x = 64%nat /\ length y = 64%nat /\ fast_hash x = fast_hash y).
Proof.
  intros Hp Hl Ll Hb Hb' Lb Lb' Hf Hf'. destruct (siblings_hashes d l right Hl Ll) as [Hs Ha]. split.
  - rewrite (tree_hash_from_branch_ok _ _ path right d (hashes_nth _ d Hs) Ha Hp) by (rewrite siblings_length; lia).
    rewrite firstn_all2 by (rewrite siblings_length; lia). f_equal. apply climb_siblings.
  - rewrite (tree_hash_from_branch_ok branch leaf path right d), (tree_hash_from_branch_ok branch' leaf' path right d)
      by (assumption || (apply hashes_nth; assumption) || lia).
    rewrite !firstn_all2 by lia. intros E. apply (climb_binding branch branch' right leaf leaf'); congruence.
Qed.
End Tree.

Definition w_leaf (n : Z) : list Z := le_bytes 32 n.
Definition w_leaves : list (list Z) := map w_leaf [1; 2; 3; 4; 5; 6; 7].

Lemma w_leaf_hash n : bytes_n 32 (w_leaf n).
Proof. split; [apply le_bytes_byte|apply le_bytes_length]. Qed.

Lemma w_leaves_hashes l : Forall (bytes_n 32) (map w_leaf l).
Proof. apply Forall_map, Forall_forall. intros n _. apply w_leaf_hash. Qed.

Lemma tree_hash_witness : tree_hash w_leaves = Some (merkle_root w_leaves).
Proof. apply (tree_hash_merkle w_leaves (w_leaves_hashes _)); [cbn; lia|reflexivity]. Defined.

Lemma tree_branch_witness : exists branch', tree_branch w_leaves [[]; []; []] = Some branch' /\
  tree_hash_from_branch branch' 2 (w_leaf 1) None = tree_hash w_leaves.
Proof.
  destruct (tree_branch_roundtrip w_leaves [[]; []; []] (w_leaves_hashes _) ltac:(cbn; lia) ltac:(reflexivity) ltac:(cbn; lia))
    as (_ & b & E & _ & _ & T). exists b. split; [exact E|exact T].
Defined.

(** The third of four leaves. *)
Lemma branch_proves_leaf_witness :
  tree_hash_from_branch (siblings 2 (map w_leaf [1; 2; 3; 4]) (fun k => (k =? 0)%nat)) 2 (w_leaf 3) (Some [1]) =
  Some (mtree 2 (map w_leaf [1; 2; 3; 4])).
Proof.
  exact (proj1 (branch_proves_leaf 2 (map w_leaf [1; 2; 3; 4]) (fun k => (k =? 0)%nat) (Some [1])
    (map w_leaf [1; 2]) (map w_leaf [1; 2]) (w_leaf 3) (w_leaf 3)
    ltac:(intros [|[|k]] Hk; [reflexivity..|lia]) (w_leaves_hashes _) eq_refl (w_leaves_hashes _) (w_leaves_hashes _)
    eq_refl eq_refl (w_leaf_hash 3) (w_leaf_hash 3))).
Defined.

(** ** Hashing to the curve *)

(** C37: [ge_fromfe_frombytes_vartime] is total: every string of 32 bytes is mapped to a point of the
    curve, in projective coordinates with a nonzero [Z] and with limbs that [ge_mul8] accepts; its
    assertions (a square root exists in the branch taken, the sign, the curve equation) never
    fail. *)
Theorem hash_to_point_total s : Forall byte s -> length s = 32%nat ->
  exists r P, ge_fromfe_frombytes_vartime s = Some r /\ p2_rep r P /\
    exists t u, ge_mul8 r = Some t /\ ge_p1p1_to_p2 t = Some u /\ p2_is u (AbGroup.gmul 8 P).
Proof.
  intros B L. destruct (ge_fromfe_frombytes_vartime_ok s B L) as (r & E & Br & P & R). exists r, P.
  split; [exact E|]. split; [exact R|]. destruct (ge_mul8_h2p r P Br R) as (t & Et & Ht).
  destruct (ge_p1p1_to_p2_ok t _ Ht) as (u & Eu & Hu). exists t, u. auto.
Qed.

Lemma hash_to_point_witness : exists r P, ge_fromfe_frombytes_vartime (w_leaf 9) = Some r /\ p2_rep r P.
Proof.
  destruct (hash_to_point_total (w_leaf 9) (le_bytes_byte 32 9) eq_refl) as (r & P & E & R & _). exists r, P. auto.
Defined.
