(* ===== verification/IntUtil.v ===== *)
(** * 128-bit and byte-order helpers (Common/int-util.h)

    [mul128], [div_with_reminder], [div128_32], and [SWAP64] on 64-bit words, which wrap around as [uint64_t] does.
    Then byte arrays seen as words, and exclusive or on words and lists, for the block
    functions of the slow hash. *)

From Stdlib Require Import ZArith Lia List Bool.
Import ListNotations.
From S2P Require Import Prelude Bytes.
Set Default Goal Selector "!".

Abbreviation u64 := (wrap U64).
Abbreviation u32 := (wrap U32).

Definition hi_dword (val : Z) : Z := Z.shiftr val 32.
Definition lo_dword (val : Z) : Z := Z.land val 0xFFFFFFFF.

(** The pair of [product_lo] and [product_hi]. *)
Definition mul128 (multiplier multiplicand : Z) : option (Z * Z) :=
  let a := hi_dword multiplier in
  let b := lo_dword multiplier in
  let c := hi_dword multiplicand in
  let d := lo_dword multiplicand in
  let ac := u64 (a * c) in
  let ad := u64 (a * d) in
  let bc := u64 (b * c) in
  let bd := u64 (b * d) in
  let adbc := u64 (ad + bc) in
  let adbc_carry := if adbc <? ad then 1 else 0 in
  let product_lo := u64 (bd + u64 (Z.shiftl adbc 32)) in
  let product_lo_carry := if product_lo <? bd then 1 else 0 in
  let product_hi := u64 (u64 (u64 (ac + Z.shiftr adbc 32) + u64 (Z.shiftl adbc_carry 32)) + product_lo_carry) in
  _ <- c_assert (ac <=? product_hi) ;;
  Some (product_lo, product_hi).

(** The quotient and the new remainder; a division by zero is undefined. *)
Definition div_with_reminder (dividend divisor remainder : Z) : option (Z * Z) :=
  let dividend := Z.lor dividend (u64 (Z.shiftl remainder 32)) in
  if divisor =? 0 then None else Some (dividend / divisor, u32 (dividend mod divisor)).

(** [quotient_hi], [quotient_lo] and the remainder. *)
Definition div128_32 (dividend_hi dividend_lo divisor : Z) : option (Z * Z * Z) :=
  let w3 := hi_dword dividend_hi in
  let w2 := lo_dword dividend_hi in
  let w1 := hi_dword dividend_lo in
  let w0 := lo_dword dividend_lo in
  '(q3, r) <- div_with_reminder w3 divisor 0 ;;
  let quotient_hi := u64 (Z.shiftl q3 32) in
  '(q2, r) <- div_with_reminder w2 divisor r ;;
  let quotient_hi := Z.lor quotient_hi q2 in
  '(q1, r) <- div_with_reminder w1 divisor r ;;
  let quotient_lo := u64 (Z.shiftl q1 32) in
  '(q0, r) <- div_with_reminder w0 divisor r ;;
  let quotient_lo := Z.lor quotient_lo q0 in
  Some (quotient_hi, quotient_lo, r).

(** Reversal of the bytes of a word. *)
Definition SWAP64 (x : Z) : Z :=
  Z.lor (Z.lor (Z.lor (Z.lor (Z.lor (Z.lor (Z.lor
    (u64 (Z.shiftl (Z.land x 0x00000000000000ff) 56))
    (u64 (Z.shiftl (Z.land x 0x000000000000ff00) 40)))
    (u64 (Z.shiftl (Z.land x 0x0000000000ff0000) 24)))
    (u64 (Z.shiftl (Z.land x 0x00000000ff000000) 8)))
    (Z.shiftr (Z.land x 0x000000ff00000000) 8))
    (Z.shiftr (Z.land x 0x0000ff0000000000) 24))
    (Z.shiftr (Z.land x 0x00ff000000000000) 40))
    (Z.shiftr (Z.land x 0xff00000000000000) 56).

(** ** Words *)

Lemma u64_mod z : u64 z = z mod 2 ^ 64.
Proof. unfold wrap. cbn [i_min i_max U64]. rewrite Z.sub_0_r. reflexivity. Qed.

Lemma u64_small z : 0 <= z < 2 ^ 64 -> u64 z = z.
Proof. intros H. rewrite u64_mod. apply Z.mod_small, H. Qed.

Lemma u64_word z : word64 (u64 z).
Proof. rewrite u64_mod. apply Z.mod_pos_bound. reflexivity. Qed.

Lemma u32_small z : 0 <= z < 2 ^ 32 -> u32 z = z.
Proof. intros H. apply wrap_id, in_ity_spec. cbn [i_min i_max U32]. lia. Qed.

(** The halves of a word. *)
Lemma dwords v : word64 v -> v = hi_dword v * 2 ^ 32 + lo_dword v /\ 0 <= hi_dword v < 2 ^ 32 /\ 0 <= lo_dword v < 2 ^ 32.
Proof.
  intros H. unfold word64, hi_dword, lo_dword in *. rewrite Z.shiftr_div_pow2 by lia.
  change 0xFFFFFFFF with (Z.ones 32). rewrite Z.land_ones by lia.
  pose proof (Z.div_mod v (2 ^ 32) ltac:(lia)). pose proof (Z.mod_pos_bound v (2 ^ 32) ltac:(lia)).
  assert (0 <= v / 2 ^ 32) by (apply Z.div_pos; lia).
  assert (v / 2 ^ 32 < 2 ^ 32) by (apply Z.div_lt_upper_bound; lia). lia.
Qed.

(** A sum that wraps is smaller than its terms: the test the code makes for the carry. *)
Lemma carry_add a b : word64 a -> word64 b ->
  a + b = u64 (a + b) + 2 ^ 64 * (if u64 (a + b) <? a then 1 else 0).
Proof.
  unfold word64. intros Ha Hb. rewrite u64_mod. destruct (Z.lt_ge_cases (a + b) (2 ^ 64)) as [L|G].
  - rewrite Z.mod_small by lia. destruct (Z.ltb_spec (a + b) a); lia.
  - replace ((a + b) mod 2 ^ 64) with (a + b - 2 ^ 64) by (apply Z.mod_unique with (q := 1); lia).
    destruct (Z.ltb_spec (a + b - 2 ^ 64) a); lia.
Qed.

Lemma mul_bound a b m n : 0 <= a < m -> 0 <= b < n -> 0 <= a * b <= (m - 1) * (n - 1).
Proof. intros. nia. Qed.

(** [mul128] is the product of 128 bits; its assertion holds. *)
Lemma mul128_ok x y : word64 x -> word64 y ->
  exists lo hi, mul128 x y = Some (lo, hi) /\ word64 lo /\ word64 hi /\ x * y = hi * 2 ^ 64 + lo.
Proof.
  intros Hx Hy. destruct (dwords x Hx) as (Ex & Ha & Hb), (dwords y Hy) as (Ey & Hc & Hd). unfold mul128. cbv zeta.
  set (a := hi_dword x) in *. set (b := lo_dword x) in *. set (c := hi_dword y) in *. set (d := lo_dword y) in *.
  pose proof (mul_bound a c _ _ Ha Hc) as Bac. pose proof (mul_bound a d _ _ Ha Hd) as Bad.
  pose proof (mul_bound b c _ _ Hb Hc) as Bbc. pose proof (mul_bound b d _ _ Hb Hd) as Bbd.
  rewrite (u64_small (a * c)), (u64_small (a * d)), (u64_small (b * c)), (u64_small (b * d)) by lia.
  pose proof (carry_add (a * d) (b * c) ltac:(split; lia) ltac:(split; lia)) as C1.
  pose proof (u64_word (a * d + b * c)) as W1. set (m := u64 (a * d + b * c)) in *.
  set (k1 := if m <? a * d then 1 else 0) in *.
  assert (0 <= k1 <= 1) as K1 by (unfold k1; destruct (m <? a * d); lia). clearbody k1.
  assert (u64 (Z.shiftl m 32) = m mod 2 ^ 32 * 2 ^ 32) as E1.
  { rewrite u64_mod, Z.shiftl_mul_pow2 by lia. change (2 ^ 64) with (2 ^ 32 * 2 ^ 32). apply Zmult_mod_distr_r. }
  rewrite E1, Z.shiftr_div_pow2 by lia. unfold word64 in W1.
  pose proof (Z.div_mod m (2 ^ 32) ltac:(lia)) as D. pose proof (Z.mod_pos_bound m (2 ^ 32) ltac:(lia)) as M.
  assert (0 <= m / 2 ^ 32 < 2 ^ 32) as Q by (split; [apply Z.div_pos|apply Z.div_lt_upper_bound]; lia).
  set (mh := m / 2 ^ 32) in *. set (ml := m mod 2 ^ 32) in *. clearbody mh ml m.
  pose proof (carry_add (b * d) (ml * 2 ^ 32) ltac:(split; lia) ltac:(split; lia)) as C2.
  pose proof (u64_word (b * d + ml * 2 ^ 32)) as W2. set (lo := u64 (b * d + ml * 2 ^ 32)) in *.
  set (k2 := if lo <? b * d then 1 else 0) in *.
  assert (0 <= k2 <= 1) as K2 by (unfold k2; destruct (lo <? b * d); lia). clearbody k2 lo.
  rewrite Z.shiftl_mul_pow2 by lia.
  assert (x * y = (a * c + mh + k1 * 2 ^ 32 + k2) * 2 ^ 64 + lo) as P.
  { rewrite Ex, Ey. transitivity (a * c * 2 ^ 64 + (a * d + b * c) * 2 ^ 32 + b * d); [ring|]. rewrite C1. lia. }
  assert (x * y < 2 ^ 128) as U by (unfold word64 in *; nia). unfold word64 in W2.
  rewrite (u64_small (k1 * 2 ^ 32)) by lia.
  rewrite (u64_small (a * c + mh)), (u64_small (a * c + mh + k1 * 2 ^ 32)), (u64_small (a * c + mh + k1 * 2 ^ 32 + k2)) by lia.
  replace (a * c <=? a * c + mh + k1 * 2 ^ 32 + k2) with true by (symmetry; apply Z.leb_le; lia).
  cbn [c_assert obind]. eexists _, _. split; [reflexivity|]. unfold word64. lia.
Qed.

Lemma div_with_reminder_ok w d r : 0 <= w < 2 ^ 32 -> 0 < d < 2 ^ 32 -> 0 <= r < d ->
  exists q r', div_with_reminder w d r = Some (q, r') /\ r * 2 ^ 32 + w = q * d + r' /\ 0 <= r' < d /\ 0 <= q < 2 ^ 32.
Proof.
  intros Hw Hd Hr. unfold div_with_reminder. cbv zeta.
  rewrite (u64_small (Z.shiftl r 32)) by (rewrite Z.shiftl_mul_pow2; lia). rewrite lor_shift by lia.
  replace (d =? 0) with false by (symmetry; apply Z.eqb_neq; lia). set (n := w + 2 ^ 32 * r).
  pose proof (Z.div_mod n d ltac:(lia)) as D. pose proof (Z.mod_pos_bound n d ltac:(lia)) as M.
  rewrite u32_small by lia. eexists _, _. split; [reflexivity|]. split; [unfold n in *; lia|]. split; [exact M|].
  split; [apply Z.div_pos; unfold n; lia|]. apply Z.div_lt_upper_bound; unfold n; nia.
Qed.

Lemma join_dwords q p : 0 <= q < 2 ^ 32 -> 0 <= p < 2 ^ 32 -> Z.lor (u64 (Z.shiftl q 32)) p = q * 2 ^ 32 + p.
Proof.
  intros Hq Hp. rewrite u64_small by (rewrite Z.shiftl_mul_pow2; lia). rewrite Z.lor_comm, lor_shift by lia. lia.
Qed.

(** [div128_32] is the division of 128 bits by 32 bits. *)
Lemma div128_32_ok hi lo d : word64 hi -> word64 lo -> 0 < d < 2 ^ 32 ->
  exists qh ql, div128_32 hi lo d = Some (qh, ql, (hi * 2 ^ 64 + lo) mod d) /\ word64 qh /\ word64 ql /\
    qh * 2 ^ 64 + ql = (hi * 2 ^ 64 + lo) / d.
Proof.
  intros Hh Hl Hd. destruct (dwords hi Hh) as (Eh & B3 & B2), (dwords lo Hl) as (El & B1 & B0). unfold div128_32. cbv zeta.
  set (w3 := hi_dword hi) in *. set (w2 := lo_dword hi) in *. set (w1 := hi_dword lo) in *. set (w0 := lo_dword lo) in *.
  destruct (div_with_reminder_ok w3 d 0 B3 Hd ltac:(lia)) as (q3 & r3 & -> & E3 & R3 & Q3). cbn [obind].
  destruct (div_with_reminder_ok w2 d r3 B2 Hd R3) as (q2 & r2 & -> & E2 & R2 & Q2). cbn [obind].
  destruct (div_with_reminder_ok w1 d r2 B1 Hd R2) as (q1 & r1 & -> & E1 & R1 & Q1). cbn [obind].
  destruct (div_with_reminder_ok w0 d r1 B0 Hd R1) as (q0 & r0 & -> & E0 & R0 & Q0). cbn [obind].
  rewrite !join_dwords by assumption. exists (q3 * 2 ^ 32 + q2), (q1 * 2 ^ 32 + q0).
  assert (hi * 2 ^ 64 + lo = ((q3 * 2 ^ 32 + q2) * 2 ^ 64 + (q1 * 2 ^ 32 + q0)) * d + r0) as E.
  { rewrite Eh, El. transitivity ((((w3 * 2 ^ 32 + w2) * 2 ^ 32 + w1) * 2 ^ 32) + w0); [ring|].
    assert (w3 = q3 * d + r3) as -> by lia. transitivity (((q3 * d * 2 ^ 32 + (r3 * 2 ^ 32 + w2)) * 2 ^ 32 + w1) * 2 ^ 32 + w0); [ring|].
    rewrite E2. transitivity (((q3 * 2 ^ 32 + q2) * d * 2 ^ 32 + (r2 * 2 ^ 32 + w1)) * 2 ^ 32 + w0); [ring|].
    rewrite E1. transitivity ((((q3 * 2 ^ 32 + q2) * 2 ^ 32 + q1) * d * 2 ^ 32) + (r1 * 2 ^ 32 + w0)); [ring|].
    rewrite E0. ring. }
  split; [|split; [unfold word64; lia|split; [unfold word64; lia|]]].
  - do 2 f_equal. apply Z.mod_unique with (q := (q3 * 2 ^ 32 + q2) * 2 ^ 64 + (q1 * 2 ^ 32 + q0)); lia.
  - apply Z.div_unique with (r := r0); lia.
Qed.

(** ** Byte order *)

(** Bit [i] of a word whose bytes are reversed. *)
Definition swapped_bit (i : Z) : Z := 8 * (7 - i / 8) + i mod 8.

Lemma testbit_u64 z i : 0 <= i < 64 -> Z.testbit (u64 z) i = Z.testbit z i.
Proof. intros H. rewrite u64_mod. apply Z.mod_pow2_bits_low. lia. Qed.

(** A property of the 64 bit positions. *)
Lemma forall_bits (P : Z -> Prop) : Forall P (map Z.of_nat (seq 0 64)) -> forall i, 0 <= i < 64 -> P i.
Proof.
  intros H i Hi. rewrite Forall_forall in H. apply H. apply in_map_iff. exists (Z.to_nat i). split; [lia|].
  apply in_seq. lia.
Qed.

Lemma land_bit (x m i : Z) : Z.testbit (Z.land x m) i = if Z.testbit m i then Z.testbit x i else false.
Proof. rewrite Z.land_spec. destruct (Z.testbit m i); [apply andb_true_r|apply andb_false_r]. Qed.

Lemma shl_bit (x k i : Z) : 0 <= i < 64 -> Z.testbit (u64 (Z.shiftl x k)) i = Z.testbit x (i - k).
Proof. intros H. rewrite testbit_u64 by exact H. apply Z.shiftl_spec. lia. Qed.

Lemma shr_bit (x k i : Z) : 0 <= i < 64 -> Z.testbit (Z.shiftr x k) i = Z.testbit x (i + k).
Proof. intros H. apply Z.shiftr_spec. lia. Qed.

Lemma SWAP64_bits x : forall i, 0 <= i < 64 -> Z.testbit (SWAP64 x) i = Z.testbit x (swapped_bit i).
Proof.
  apply forall_bits. unfold SWAP64, swapped_bit. cbn [map seq Z.of_nat Pos.of_succ_nat Pos.succ].
  repeat (apply Forall_cons; [rewrite !Z.lor_spec, !shl_bit, !shr_bit, !land_bit by lia; cbn -[Z.testbit];
    rewrite ?orb_false_r, ?orb_false_l; reflexivity|]).
  apply Forall_nil.
Qed.

(** The bytes of a word. *)
Lemma le_bytes_nth n : forall v k, (k < n)%nat -> nth k (le_bytes n v) 0 = v / 2 ^ (8 * Z.of_nat k) mod 256.
Proof.
  induction n as [|n IH]; intros v k Hk; [lia|]. cbn [le_bytes]. destruct k as [|k]; cbn [nth].
  - rewrite Z.mul_0_r, Z.pow_0_r, Z.div_1_r. reflexivity.
  - rewrite IH by lia. rewrite Nat2Z.inj_succ. replace (8 * Z.succ (Z.of_nat k)) with (8 + 8 * Z.of_nat k) by lia.
    rewrite Z.pow_add_r, <- Z.div_div by lia. reflexivity.
Qed.

Lemma le_bytes_split n m : forall v, le_bytes (n + m) v = le_bytes n (v mod 256 ^ Z.of_nat n) ++ le_bytes m (v / 256 ^ Z.of_nat n).
Proof.
  induction n as [|n IH]; intros v; cbn [Nat.add le_bytes app]; [rewrite Z.div_1_r; reflexivity|].
  rewrite Nat2Z.inj_succ, Z.pow_succ_r, <- Z.div_div by lia. f_equal; [|rewrite IH; do 2 f_equal];
    rewrite Z.rem_mul_r by lia; rewrite (Z.mul_comm 256); [rewrite Z.mod_add, Z.mod_mod by lia|rewrite Z.div_add, (Z.div_small (v mod 256)) by (apply Z.mod_pos_bound || idtac; lia)]; reflexivity.
Qed.

Lemma byte_of_bits v w k j : 0 <= k -> 0 <= j -> (forall i, 0 <= i < 8 -> Z.testbit v (k + i) = Z.testbit w (j + i)) ->
  v / 2 ^ k mod 256 = w / 2 ^ j mod 256.
Proof.
  intros Hk Hj H. change 256 with (2 ^ 8). apply Z.bits_inj'. intros i Hi. destruct (Z.lt_ge_cases i 8) as [L|G].
  - rewrite !Z.mod_pow2_bits_low, !Z.div_pow2_bits, !(Z.add_comm i) by lia. apply H. lia.
  - rewrite !Z.mod_pow2_bits_high by lia. reflexivity.
Qed.

Lemma SWAP64_bytes x : le_bytes 8 (SWAP64 x) = rev (le_bytes 8 x).
Proof.
  apply (nth_ext _ _ 0 0); [rewrite length_rev, !le_bytes_length; reflexivity|]. rewrite le_bytes_length. intros k Hk.
  rewrite rev_nth, le_bytes_length, !le_bytes_nth by (rewrite ?le_bytes_length; lia).
  apply byte_of_bits; [lia..|]. intros i Hi. rewrite SWAP64_bits by lia. f_equal. unfold swapped_bit.
  replace ((8 * Z.of_nat k + i) / 8) with (Z.of_nat k) by (apply Z.div_unique with (r := i); lia).
  replace ((8 * Z.of_nat k + i) mod 8) with i by (apply Z.mod_unique with (q := Z.of_nat k); lia). lia.
Qed.

(** ** 32-bit words and bitwise operations on byte strings

    Byte arrays seen as 32-bit words, rotations, and exclusive or on words and on
    byte strings, shared by the block functions of the slow hash and by the stream
    cipher. *)

(** ** Words in memory *)

(** A byte array seen as 32-bit words, and back. *)
Fixpoint words32 (n : nat) (bs : list Z) : list Z :=
  match n with O => [] | S n => le_val (firstn 4 bs) :: words32 n (skipn 4 bs) end.

Definition bytes32 (ws : list Z) : list Z := flat_map (le_bytes 4) ws.

Lemma words32_length n bs : length (words32 n bs) = n.
Proof. revert bs. induction n as [|n IH]; intros bs; cbn; [|rewrite IH]; reflexivity. Qed.

Lemma bytes32_length ws : length (bytes32 ws) = (4 * length ws)%nat.
Proof.
  unfold bytes32. induction ws as [|w ws IH]; cbn [flat_map length]; [reflexivity|].
  rewrite length_app, le_bytes_length, IH. lia.
Qed.

Lemma bytes32_byte ws : Forall byte (bytes32 ws).
Proof.
  unfold bytes32. induction ws as [|w ws IH]; cbn [flat_map]; [constructor|].
  apply Forall_app. split; [apply le_bytes_byte|exact IH].
Qed.

Lemma words32_app n : forall m bs cs, length bs = (4 * n)%nat -> words32 (n + m) (bs ++ cs) = words32 n bs ++ words32 m cs.
Proof.
  induction n as [|n IH]; intros m bs cs L.
  - destruct bs; [reflexivity|discriminate].
  - do 4 (destruct bs as [|? bs]; [cbn in L; lia|]). cbn [Nat.add words32 app firstn skipn]. f_equal.
    apply IH. cbn in L. lia.
Qed.

Lemma words32_firstn n : forall bs, words32 n (firstn (4 * n) bs) = words32 n bs.
Proof.
  induction n as [|n IH]; intros bs; [reflexivity|]. replace (4 * S n)%nat with (4 + 4 * n)%nat by lia. cbn [words32].
  rewrite firstn_firstn, Nat.min_l by lia. f_equal. rewrite skipn_firstn_comm, <- (IH (skipn _ bs)). f_equal. f_equal. lia.
Qed.

Lemma bytes32_app a b : bytes32 (a ++ b) = bytes32 a ++ bytes32 b.
Proof. apply flat_map_app. Qed.

(** A 32-bit word. *)
Definition word32 (w : Z) : Prop := 0 <= w < 2 ^ 32.

Lemma words32_word n : forall bs, Forall byte bs -> Forall word32 (words32 n bs).
Proof.
  induction n as [|n IH]; intros bs H; cbn [words32]; constructor.
  - pose proof (le_val_range (firstn 4 bs) (firstn_byte 4 bs H)) as R. unfold word32.
    pose proof (firstn_le_length 4 bs) as L.
    assert (256 ^ Z.of_nat (length (firstn 4 bs)) <= 256 ^ 4) by (apply Z.pow_le_mono_r; lia).
    change (2 ^ 32) with (256 ^ 4). lia.
  - apply IH, skipn_byte, H.
Qed.

Lemma bytes32_words n : forall bs, Forall byte bs -> length bs = (4 * n)%nat -> bytes32 (words32 n bs) = bs.
Proof.
  unfold bytes32. induction n as [|n IH]; intros bs H L; cbn [words32 flat_map].
  - destruct bs; [reflexivity|discriminate].
  - rewrite <- (firstn_skipn 4 bs) at 3. f_equal.
    + rewrite <- (le_bytes_of_val (firstn 4 bs)) at 2 by (apply firstn_byte, H).
      rewrite length_firstn, L. f_equal. lia.
    + apply IH; [apply skipn_byte, H|]. rewrite length_skipn, L. lia.
Qed.

Lemma words32_bytes ws : Forall word32 ws -> words32 (length ws) (bytes32 ws) = ws.
Proof.
  induction 1 as [|w ws Hw F IH]; [reflexivity|]. change (bytes32 (w :: ws)) with (le_bytes 4 w ++ bytes32 ws).
  cbn [length words32]. change (firstn 4 (le_bytes 4 w ++ bytes32 ws)) with (le_bytes 4 w).
  change (skipn 4 (le_bytes 4 w ++ bytes32 ws)) with (bytes32 ws). rewrite IH, le_bytes_val; [reflexivity|exact Hw].
Qed.

Lemma words64_bytes ws : Forall word64 ws -> words64 (length ws) (bytes64 ws) = ws.
Proof.
  induction 1 as [|w ws Hw F IH]; [reflexivity|]. change (bytes64 (w :: ws)) with (le_bytes 8 w ++ bytes64 ws).
  cbn [length words64]. change (firstn 8 (le_bytes 8 w ++ bytes64 ws)) with (le_bytes 8 w).
  change (skipn 8 (le_bytes 8 w ++ bytes64 ws)) with (bytes64 ws). rewrite IH, le_bytes_val; [reflexivity|exact Hw].
Qed.

(** ** Exclusive or *)

Fixpoint xor_list (a b : list Z) : list Z :=
  match a, b with x :: a, y :: b => Z.lxor x y :: xor_list a b | _, _ => [] end.

Lemma xor_list_length a : forall b, length (xor_list a b) = Nat.min (length a) (length b).
Proof. induction a as [|x a IH]; intros [|y b]; cbn; [..|rewrite IH]; reflexivity. Qed.

Lemma xor_list_comm a : forall b, xor_list a b = xor_list b a.
Proof. induction a as [|x a IH]; intros [|y b]; cbn; [reflexivity..|]. rewrite IH, Z.lxor_comm. reflexivity. Qed.

Lemma xor_list_assoc a : forall b c, xor_list a (xor_list b c) = xor_list (xor_list a b) c.
Proof. induction a as [|x a IH]; intros [|y b] [|z c]; cbn; [reflexivity..|]. rewrite IH, Z.lxor_assoc. reflexivity. Qed.

Lemma xor_list_cancel a : forall b, (length a <= length b)%nat -> xor_list (xor_list a b) b = a.
Proof.
  induction a as [|x a IH]; intros [|y b] H; cbn in *; [reflexivity..|lia|].
  rewrite IH, Z.lxor_assoc, Z.lxor_nilpotent, Z.lxor_0_r by lia. reflexivity.
Qed.

Lemma xor_list_app a : forall a' b b', length a = length b -> xor_list (a ++ a') (b ++ b') = xor_list a b ++ xor_list a' b'.
Proof. induction a as [|x a IH]; intros a' [|y b] b' H; cbn in *; try lia; [reflexivity|]. rewrite IH by lia. reflexivity. Qed.

Lemma lxor_bounded k a b : 0 <= k -> 0 <= a < 2 ^ k -> 0 <= b < 2 ^ k -> 0 <= Z.lxor a b < 2 ^ k.
Proof.
  intros Hk Ha Hb. assert (0 <= Z.lxor a b) as P by (apply Z.lxor_nonneg; lia). split; [exact P|]. destruct (Z.eq_dec (Z.lxor a b) 0) as [-> |N]; [apply Z.pow_pos_nonneg; lia|].
  apply Z.log2_lt_pow2; [lia|].
  pose proof (Z.log2_lxor a b (proj1 Ha) (proj1 Hb)). destruct (Z.eq_dec k 0) as [-> |Nk].
  - assert (a = 0) as -> by lia. assert (b = 0) as -> by lia. contradiction.
  - assert (forall x, 0 <= x < 2 ^ k -> Z.log2 x < k) as L.
    { intros x Hx. destruct (Z.eq_dec x 0) as [-> |Nx]; [change (Z.log2 0) with 0; lia|]. apply Z.log2_lt_pow2; lia. }
    pose proof (L a Ha). pose proof (L b Hb). lia.
Qed.

Lemma byte_lxor a b : byte a -> byte b -> byte (Z.lxor a b).
Proof. exact (lxor_bounded 8 a b ltac:(lia)). Qed.

Lemma word32_lxor a b : word32 a -> word32 b -> word32 (Z.lxor a b).
Proof. exact (lxor_bounded 32 a b ltac:(lia)). Qed.

Lemma xor_list_byte a : forall b, Forall byte a -> Forall byte b -> Forall byte (xor_list a b).
Proof.
  induction a as [|x a IH]; intros [|y b] Ha Hb; cbn; [constructor..|]. inversion_clear Ha. inversion_clear Hb.
  constructor; [apply byte_lxor; assumption|apply IH; assumption].
Qed.

Lemma lxor_mod_pow2 a b k : 0 <= k -> Z.lxor a b mod 2 ^ k = Z.lxor (a mod 2 ^ k) (b mod 2 ^ k).
Proof.
  intros Hk. apply Z.bits_inj'. intros i Hi. rewrite Z.lxor_spec. destruct (Z.lt_ge_cases i k).
  - rewrite !Z.mod_pow2_bits_low, Z.lxor_spec by lia. reflexivity.
  - rewrite !Z.mod_pow2_bits_high by lia. reflexivity.
Qed.

Lemma lxor_div_pow2 a b k : 0 <= k -> Z.lxor a b / 2 ^ k = Z.lxor (a / 2 ^ k) (b / 2 ^ k).
Proof. intros Hk. rewrite <- !Z.shiftr_div_pow2 by exact Hk. apply Z.shiftr_lxor. Qed.

(** Exclusive or of words is exclusive or of their bytes. *)
Lemma le_bytes_lxor n : forall a b, le_bytes n (Z.lxor a b) = xor_list (le_bytes n a) (le_bytes n b).
Proof.
  induction n as [|n IH]; intros a b; cbn; [reflexivity|]. change 256 with (2 ^ 8).
  rewrite lxor_mod_pow2, lxor_div_pow2, IH by lia. reflexivity.
Qed.

Lemma bytes32_xor a : forall b, bytes32 (xor_list a b) = xor_list (bytes32 a) (bytes32 b).
Proof.
  induction a as [|x a IH]; intros [|y b]; try reflexivity.
  cbn [xor_list]. change (bytes32 (Z.lxor x y :: xor_list a b)) with (le_bytes 4 (Z.lxor x y) ++ bytes32 (xor_list a b)).
  change (bytes32 (x :: a)) with (le_bytes 4 x ++ bytes32 a). change (bytes32 (y :: b)) with (le_bytes 4 y ++ bytes32 b).
  rewrite le_bytes_lxor, xor_list_app, IH by (rewrite !le_bytes_length; reflexivity). reflexivity.
Qed.
