(* ===== verification/Aes.v ===== *)
(** * The AES rounds of the slow hash (aesb.h, oaes_lib.c, slow-hash.c)

    The program has AES twice: in C, with tables ([aesb_single_round],
    [aesb_pseudo_round]) and the key expansion of OpenAES ([oaes_key_expand]), and with
    the AES instructions of the processor ([ExpandAESKey256]).  Module [Fips197] is the
    standard both are compared with: the field with 256 elements, the S-box as inversion
    followed by an affine map, the four transformations, the key expansion.  The
    instructions are those of the processor's manual, which defines them by these
    transformations.  A 128-bit value is its 16 bytes in memory, in the order of their
    addresses. *)

From Stdlib Require Import ZArith Lia List Bool Btauto.
Import ListNotations.
From S2P Require Import Prelude Bytes IntUtil.
Set Default Goal Selector "!".

(** ** The standard *)

Module Fips197.

(** Multiplication by x in the field with 256 elements, and multiplication. *)
Definition xtime (b : Z) : Z := if Z.testbit b 7 then Z.lxor (Z.shiftl b 1) 0x11b else Z.shiftl b 1.

Fixpoint gmul_loop (n : nat) (a b : Z) : Z :=
  match n with
  | O => 0
  | S n => Z.lxor (if Z.testbit b 0 then a else 0) (gmul_loop n (xtime a) (Z.shiftr b 1))
  end.
Definition gmul (a b : Z) : Z := gmul_loop 8 a b.

(** The inverse is the power 254; that of 0 is 0. *)
Definition ginv (a : Z) : Z := Nat.iter 253 (gmul a) a.

Definition affine (b : Z) : Z :=
  fold_left Z.lxor (map (fun i : nat =>
    let i := Z.of_nat i in
    let bit k := Z.testbit b ((i + k) mod 8) in
    Z.shiftl (Z.b2z (xorb (xorb (xorb (xorb (xorb (bit 0) (bit 4)) (bit 5)) (bit 6)) (bit 7)) (Z.testbit 0x63 i))) i) (seq 0 8)) 0.

Definition SBox (b : Z) : Z := affine (ginv b).

(** The state is 16 bytes, column by column. *)
Definition SubBytes (sbox : Z -> Z) (s : list Z) : list Z := map sbox s.
Definition ShiftRows (s : list Z) : list Z :=
  flat_map (fun c => map (fun r => nth (4 * ((c + r) mod 4) + r) s 0) (seq 0 4)) (seq 0 4).
Definition MixColumn (s : list Z) (c : nat) : list Z :=
  let b r := nth (4 * c + r mod 4) s 0 in
  map (fun r => Z.lxor (Z.lxor (Z.lxor (gmul 2 (b r)) (gmul 3 (b (r + 1)%nat))) (b (r + 2)%nat)) (b (r + 3)%nat)) (seq 0 4).
Definition MixColumns (s : list Z) : list Z := flat_map (MixColumn s) (seq 0 4).
Definition AddRoundKey (s k : list Z) : list Z := xor_list s k.

Definition round (s k : list Z) : list Z := AddRoundKey (MixColumns (ShiftRows (SubBytes SBox s))) k.

(** The key expansion; a word is its four bytes. *)
Definition RotWord (w : list Z) : list Z := match w with a :: w => w ++ [a] | [] => [] end.
Definition SubWord (w : list Z) : list Z := map SBox w.
Definition Rcon (i : nat) : list Z := [Nat.iter (i - 1) xtime 1; 0; 0; 0].

Definition next_word (Nk : nat) (w : list (list Z)) (i : nat) : list (list Z) :=
  let temp := nth (i - 1) w [] in
  let temp := if (i mod Nk =? 0)%nat then xor_list (SubWord (RotWord temp)) (Rcon (i / Nk))
    else if ((6 <? Nk) && (i mod Nk =? 4))%nat then SubWord temp else temp in
  w ++ [xor_list (nth (i - Nk) w []) temp].

(** The words of the [Nr + 1] round keys for a key of [Nk] words, with [Nr = Nk + 6]. *)
Definition KeyExpansion (Nk : nat) (key : list Z) : list (list Z) :=
  fold_left (next_word Nk) (seq Nk (4 * (Nk + 7) - Nk)) (chunks Nk 4 key).

End Fips197.

(** ** aesb.h *)

Definition WPOLY : Z := 0x011b.
Definition f2 (x : Z) : Z := Z.lxor (Z.shiftl x 1) (Z.land (Z.shiftr x 7) 1 * WPOLY).
Definition f3 (x : Z) : Z := Z.lxor (f2 x) x.

Definition sb_data (w : Z -> Z) : list Z := map w
  [0x63; 0x7c; 0x77; 0x7b; 0xf2; 0x6b; 0x6f; 0xc5; 0x30; 0x01; 0x67; 0x2b; 0xfe; 0xd7; 0xab; 0x76;
   0xca; 0x82; 0xc9; 0x7d; 0xfa; 0x59; 0x47; 0xf0; 0xad; 0xd4; 0xa2; 0xaf; 0x9c; 0xa4; 0x72; 0xc0;
   0xb7; 0xfd; 0x93; 0x26; 0x36; 0x3f; 0xf7; 0xcc; 0x34; 0xa5; 0xe5; 0xf1; 0x71; 0xd8; 0x31; 0x15;
   0x04; 0xc7; 0x23; 0xc3; 0x18; 0x96; 0x05; 0x9a; 0x07; 0x12; 0x80; 0xe2; 0xeb; 0x27; 0xb2; 0x75;
   0x09; 0x83; 0x2c; 0x1a; 0x1b; 0x6e; 0x5a; 0xa0; 0x52; 0x3b; 0xd6; 0xb3; 0x29; 0xe3; 0x2f; 0x84;
   0x53; 0xd1; 0x00; 0xed; 0x20; 0xfc; 0xb1; 0x5b; 0x6a; 0xcb; 0xbe; 0x39; 0x4a; 0x4c; 0x58; 0xcf;
   0xd0; 0xef; 0xaa; 0xfb; 0x43; 0x4d; 0x33; 0x85; 0x45; 0xf9; 0x02; 0x7f; 0x50; 0x3c; 0x9f; 0xa8;
   0x51; 0xa3; 0x40; 0x8f; 0x92; 0x9d; 0x38; 0xf5; 0xbc; 0xb6; 0xda; 0x21; 0x10; 0xff; 0xf3; 0xd2;
   0xcd; 0x0c; 0x13; 0xec; 0x5f; 0x97; 0x44; 0x17; 0xc4; 0xa7; 0x7e; 0x3d; 0x64; 0x5d; 0x19; 0x73;
   0x60; 0x81; 0x4f; 0xdc; 0x22; 0x2a; 0x90; 0x88; 0x46; 0xee; 0xb8; 0x14; 0xde; 0x5e; 0x0b; 0xdb;
   0xe0; 0x32; 0x3a; 0x0a; 0x49; 0x06; 0x24; 0x5c; 0xc2; 0xd3; 0xac; 0x62; 0x91; 0x95; 0xe4; 0x79;
   0xe7; 0xc8; 0x37; 0x6d; 0x8d; 0xd5; 0x4e; 0xa9; 0x6c; 0x56; 0xf4; 0xea; 0x65; 0x7a; 0xae; 0x08;
   0xba; 0x78; 0x25; 0x2e; 0x1c; 0xa6; 0xb4; 0xc6; 0xe8; 0xdd; 0x74; 0x1f; 0x4b; 0xbd; 0x8b; 0x8a;
   0x70; 0x3e; 0xb5; 0x66; 0x48; 0x03; 0xf6; 0x0e; 0x61; 0x35; 0x57; 0xb9; 0x86; 0xc1; 0x1d; 0x9e;
   0xe1; 0xf8; 0x98; 0x11; 0x69; 0xd9; 0x8e; 0x94; 0x9b; 0x1e; 0x87; 0xe9; 0xce; 0x55; 0x28; 0xdf;
   0x8c; 0xa1; 0x89; 0x0d; 0xbf; 0xe6; 0x42; 0x68; 0x41; 0x99; 0x2d; 0x0f; 0xb0; 0x54; 0xbb; 0x16].

Definition bytes2word (b0 b1 b2 b3 : Z) : Z :=
  Z.lor (Z.lor (Z.lor (u32 (Z.shiftl b3 24)) (u32 (Z.shiftl b2 16))) (u32 (Z.shiftl b1 8))) b0.

Definition u0 (p : Z) : Z := bytes2word (f2 p) p p (f3 p).
Definition u1 (p : Z) : Z := bytes2word (f3 p) (f2 p) p p.
Definition u2 (p : Z) : Z := bytes2word p (f3 p) (f2 p) p.
Definition u3 (p : Z) : Z := bytes2word p p (f3 p) (f2 p).

Definition t_fn : list (list Z) := [sb_data u0; sb_data u1; sb_data u2; sb_data u3].

Definition to_byte (x : Z) : Z := Z.land x 0xff.
Definition bval (x n : Z) : Z := to_byte (Z.shiftr x (8 * n)).

Definition fwd_var (x : list Z) (r c : nat) : Z := nth ((c + r) mod 4) x 0.
Definition rf1 (r c : nat) : Z := Z.of_nat r.

Definition table (tab : list (list Z)) (r : nat) (i : Z) : Z := nth (Z.to_nat i) (nth r tab []) 0.

Definition four_tables (x : list Z) (tab : list (list Z)) (c : nat) : Z :=
  Z.lxor (Z.lxor (Z.lxor (table tab 0 (bval (fwd_var x 0 c) (rf1 0 c))) (table tab 1 (bval (fwd_var x 1 c) (rf1 1 c))))
    (table tab 2 (bval (fwd_var x 2 c) (rf1 2 c)))) (table tab 3 (bval (fwd_var x 3 c) (rf1 3 c))).

Definition fwd_rnd (x k : list Z) (c : nat) : Z := Z.lxor (nth c k 0) (four_tables x t_fn c).

(** [round(fwd_rnd, y, x, k)]; [k] are the key words from the pointer on. *)
Definition aes_round_words (x k : list Z) : list Z := map (fwd_rnd x k) (seq 0 4).

Definition aesb_single_round (inp expandedKey : list Z) : list Z :=
  bytes32 (aes_round_words (words32 4 inp) (words32 4 expandedKey)).

Definition N_COLS : nat := 4.
Definition aesb_pseudo_round (inp expandedKey : list Z) : list Z :=
  let kp := words32 40 expandedKey in
  bytes32 (fold_left (fun b i => aes_round_words b (skipn (i * N_COLS) kp)) (seq 0 10) (words32 4 inp)).

(** ** oaes_lib.c *)

Definition OAES_RKEY_LEN : nat := 4.
Definition OAES_COL_LEN : nat := 4.
Definition OAES_ROUND_BASE : nat := 7.

Definition oaes_gf_8 : list Z := [0x01; 0x02; 0x04; 0x08; 0x10; 0x20; 0x40; 0x80; 0x1b; 0x36].

Definition oaes_sub_byte_value : list (list Z) :=
  [[0x63; 0x7c; 0x77; 0x7b; 0xf2; 0x6b; 0x6f; 0xc5; 0x30; 0x01; 0x67; 0x2b; 0xfe; 0xd7; 0xab; 0x76];
   [0xca; 0x82; 0xc9; 0x7d; 0xfa; 0x59; 0x47; 0xf0; 0xad; 0xd4; 0xa2; 0xaf; 0x9c; 0xa4; 0x72; 0xc0];
   [0xb7; 0xfd; 0x93; 0x26; 0x36; 0x3f; 0xf7; 0xcc; 0x34; 0xa5; 0xe5; 0xf1; 0x71; 0xd8; 0x31; 0x15];
   [0x04; 0xc7; 0x23; 0xc3; 0x18; 0x96; 0x05; 0x9a; 0x07; 0x12; 0x80; 0xe2; 0xeb; 0x27; 0xb2; 0x75];
   [0x09; 0x83; 0x2c; 0x1a; 0x1b; 0x6e; 0x5a; 0xa0; 0x52; 0x3b; 0xd6; 0xb3; 0x29; 0xe3; 0x2f; 0x84];
   [0x53; 0xd1; 0x00; 0xed; 0x20; 0xfc; 0xb1; 0x5b; 0x6a; 0xcb; 0xbe; 0x39; 0x4a; 0x4c; 0x58; 0xcf];
   [0xd0; 0xef; 0xaa; 0xfb; 0x43; 0x4d; 0x33; 0x85; 0x45; 0xf9; 0x02; 0x7f; 0x50; 0x3c; 0x9f; 0xa8];
   [0x51; 0xa3; 0x40; 0x8f; 0x92; 0x9d; 0x38; 0xf5; 0xbc; 0xb6; 0xda; 0x21; 0x10; 0xff; 0xf3; 0xd2];
   [0xcd; 0x0c; 0x13; 0xec; 0x5f; 0x97; 0x44; 0x17; 0xc4; 0xa7; 0x7e; 0x3d; 0x64; 0x5d; 0x19; 0x73];
   [0x60; 0x81; 0x4f; 0xdc; 0x22; 0x2a; 0x90; 0x88; 0x46; 0xee; 0xb8; 0x14; 0xde; 0x5e; 0x0b; 0xdb];
   [0xe0; 0x32; 0x3a; 0x0a; 0x49; 0x06; 0x24; 0x5c; 0xc2; 0xd3; 0xac; 0x62; 0x91; 0x95; 0xe4; 0x79];
   [0xe7; 0xc8; 0x37; 0x6d; 0x8d; 0xd5; 0x4e; 0xa9; 0x6c; 0x56; 0xf4; 0xea; 0x65; 0x7a; 0xae; 0x08];
   [0xba; 0x78; 0x25; 0x2e; 0x1c; 0xa6; 0xb4; 0xc6; 0xe8; 0xdd; 0x74; 0x1f; 0x4b; 0xbd; 0x8b; 0x8a];
   [0x70; 0x3e; 0xb5; 0x66; 0x48; 0x03; 0xf6; 0x0e; 0x61; 0x35; 0x57; 0xb9; 0x86; 0xc1; 0x1d; 0x9e];
   [0xe1; 0xf8; 0x98; 0x11; 0x69; 0xd9; 0x8e; 0x94; 0x9b; 0x1e; 0x87; 0xe9; 0xce; 0x55; 0x28; 0xdf];
   [0x8c; 0xa1; 0x89; 0x0d; 0xbf; 0xe6; 0x42; 0x68; 0x41; 0x99; 0x2d; 0x0f; 0xb0; 0x54; 0xbb; 0x16]].

Definition oaes_sub_byte (byte : Z) : Z :=
  let _x := Z.land byte 0x0f in
  let _y := Z.shiftr (Z.land byte 0xf0) 4 in
  nth (Z.to_nat _x) (nth (Z.to_nat _y) oaes_sub_byte_value []) 0.

Definition oaes_word_rot_left (word : list Z) : list Z := skipn 1 word ++ firstn 1 word.

(** One turn of the loop of [oaes_key_expand]; [exp_data] are the bytes that are written so far. *)
Definition oaes_key_turn (key_base : nat) (exp_data : list Z) (_i : nat) : list Z :=
  let _temp := firstn OAES_COL_LEN (skipn ((_i - 1) * OAES_RKEY_LEN) exp_data) in
  let _temp :=
    if (0 =? _i mod key_base)%nat then
      let _temp := map oaes_sub_byte (oaes_word_rot_left _temp) in
      set_nth 0 (Z.lxor (nth 0 _temp 0) (nth (_i / key_base - 1) oaes_gf_8 0)) _temp
    else if ((6 <? key_base) && (4 =? _i mod key_base))%nat then map oaes_sub_byte _temp
    else _temp in
  exp_data ++ map (fun _j => Z.lxor (nth ((_i - key_base) * OAES_RKEY_LEN + _j) exp_data 0) (nth _j _temp 0)) (seq 0 OAES_COL_LEN).

Definition oaes_key_expand (data : list Z) : list Z :=
  let key_base := (length data / OAES_RKEY_LEN)%nat in
  let num_keys := (key_base + OAES_ROUND_BASE)%nat in
  fold_left (oaes_key_turn key_base) (seq key_base (num_keys * OAES_RKEY_LEN - key_base)) data.

(** The expanded key, or [None] for [OAES_RET_ARG3]; memory is available. *)
Definition oaes_key_import_data (data : list Z) : option (list Z) :=
  match length data with
  | 16%nat | 24%nat | 32%nat => Some (oaes_key_expand data)
  | _ => None
  end.

(** ** The instructions *)

Definition _mm_xor_si128 (a b : list Z) : list Z := xor_list a b.
(** A shift of the value to the left by [imm] bytes. *)
Definition _mm_slli_si128 (a : list Z) (imm : nat) : list Z := firstn 16 (repeat 0 imm ++ a).
Definition dword (a : list Z) (i : nat) : list Z := firstn 4 (skipn (4 * i) a).
(** Two bits of [imm] choose the word for each position. *)
Definition _mm_shuffle_epi32 (a : list Z) (imm : Z) : list Z :=
  flat_map (fun i : nat => dword a (Z.to_nat (Z.land (Z.shiftr imm (2 * Z.of_nat i)) 3))) (seq 0 4).
Definition _mm_aeskeygenassist_si128 (a : list Z) (imm : Z) : list Z :=
  let X1 := Fips197.SubWord (dword a 1) in
  let X3 := Fips197.SubWord (dword a 3) in
  X1 ++ xor_list (Fips197.RotWord X1) [imm; 0; 0; 0] ++ X3 ++ xor_list (Fips197.RotWord X3) [imm; 0; 0; 0].
Definition _mm_aesenc_si128 (a RoundKey : list Z) : list Z :=
  _mm_xor_si128 (Fips197.MixColumns (Fips197.SubBytes Fips197.SBox (Fips197.ShiftRows a))) RoundKey.

(** ** slow-hash.c: the key expansion with instructions *)

(** The new values of the variables that the pointers refer to. *)
Definition ExpandAESKey256_sub1 (tmp1 tmp2 : list Z) : list Z * list Z :=
  let tmp2 := _mm_shuffle_epi32 tmp2 0xFF in
  let tmp4 := _mm_slli_si128 tmp1 4 in
  let tmp1 := _mm_xor_si128 tmp1 tmp4 in
  let tmp4 := _mm_slli_si128 tmp4 4 in
  let tmp1 := _mm_xor_si128 tmp1 tmp4 in
  let tmp4 := _mm_slli_si128 tmp4 4 in
  let tmp1 := _mm_xor_si128 tmp1 tmp4 in
  let tmp1 := _mm_xor_si128 tmp1 tmp2 in
  (tmp1, tmp2).

Definition ExpandAESKey256_sub2 (tmp1 tmp3 : list Z) : list Z :=
  let tmp4 := _mm_aeskeygenassist_si128 tmp1 0x00 in
  let tmp2 := _mm_shuffle_epi32 tmp4 0xAA in
  let tmp4 := _mm_slli_si128 tmp3 4 in
  let tmp3 := _mm_xor_si128 tmp3 tmp4 in
  let tmp4 := _mm_slli_si128 tmp4 4 in
  let tmp3 := _mm_xor_si128 tmp3 tmp4 in
  let tmp4 := _mm_slli_si128 tmp4 4 in
  let tmp3 := _mm_xor_si128 tmp3 tmp4 in
  _mm_xor_si128 tmp3 tmp2.

(** Two of the stores [keys[i] = ...], for a round constant: the new [tmp1] and [tmp3]. *)
Definition expand_pair (tmp1 tmp3 : list Z) (rcon : Z) : list Z * list Z :=
  let tmp2 := _mm_aeskeygenassist_si128 tmp3 rcon in
  let '(tmp1, _) := ExpandAESKey256_sub1 tmp1 tmp2 in
  (tmp1, ExpandAESKey256_sub2 tmp1 tmp3).

Fixpoint expand_pairs (tmp1 tmp3 : list Z) (rcons : list Z) : list Z :=
  match rcons with
  | [] => []
  | [rcon] => fst (ExpandAESKey256_sub1 tmp1 (_mm_aeskeygenassist_si128 tmp3 rcon))
  | rcon :: rcons => let '(tmp1, tmp3) := expand_pair tmp1 tmp3 rcon in tmp1 ++ tmp3 ++ expand_pairs tmp1 tmp3 rcons
  end.

(** The 15 keys in [keybuf], of which the first two are given. *)
Definition ExpandAESKey256 (keybuf : list Z) : list Z :=
  keybuf ++ expand_pairs (firstn 16 keybuf) (firstn 16 (skipn 16 keybuf)) [0x01; 0x02; 0x04; 0x08; 0x10; 0x20; 0x40].

(** ** AES: the tables and the instructions against the standard

    [aesb_single_round] and [aesb_pseudo_round] compute the rounds of FIPS 197, and so
    does the instruction; [oaes_key_expand] and [ExpandAESKey256] compute its key
    expansion. *)

(** ** Finite checks *)

Lemma byte_forall (P : Z -> bool) : forallb P (map Z.of_nat (seq 0 256)) = true -> forall b, byte b -> P b = true.
Proof.
  rewrite forallb_forall. intros H b Hb. apply H, in_map_iff. exists (Z.to_nat b). unfold byte in Hb. split; [lia|].
  apply in_seq. lia.
Qed.

Fixpoint same_list (a b : list Z) : bool :=
  match a, b with [], [] => true | x :: a, y :: b => (x =? y) && same_list a b | _, _ => false end.

Lemma same_list_eq a : forall b, same_list a b = true -> a = b.
Proof.
  induction a as [|x a IH]; intros [|y b] H; cbn in H; try discriminate; [reflexivity|].
  apply andb_true_iff in H as [E H]. apply Z.eqb_eq in E as ->. rewrite (IH b H). reflexivity.
Qed.

(** The column that a byte contributes to, in row [r]. *)
Definition contribution (r : nat) (b : Z) : list Z :=
  let s := Fips197.SBox b in
  nth r [[Fips197.gmul 2 s; s; s; Fips197.gmul 3 s]; [Fips197.gmul 3 s; Fips197.gmul 2 s; s; s];
    [s; Fips197.gmul 3 s; Fips197.gmul 2 s; s]; [s; s; Fips197.gmul 3 s; Fips197.gmul 2 s]] [].

Lemma table_contribution r b : (r < 4)%nat -> byte b -> le_bytes 4 (table t_fn r b) = contribution r b.
Proof.
  intros Hr Hb. apply same_list_eq. do 4 (destruct r as [|r]; [apply (byte_forall (fun b => same_list (le_bytes 4 (table t_fn _ b)) (contribution _ b))); [vm_compute; reflexivity|exact Hb]|]).
  lia.
Qed.

Lemma oaes_sub_byte_SBox b : byte b -> oaes_sub_byte b = Fips197.SBox b.
Proof. intros Hb. apply Z.eqb_eq. apply (byte_forall (fun b => oaes_sub_byte b =? Fips197.SBox b)); [vm_compute; reflexivity|exact Hb]. Qed.

Lemma SBox_byte b : byte b -> byte (Fips197.SBox b).
Proof.
  intros Hb. assert (((0 <=? Fips197.SBox b) && (Fips197.SBox b <? 256)) = true) as H
    by (apply (byte_forall (fun b => (0 <=? Fips197.SBox b) && (Fips197.SBox b <? 256))); [vm_compute; reflexivity|exact Hb]).
  unfold byte. lia.
Qed.

Lemma gmul_byte a b : (a = 2 \/ a = 3) -> byte b -> byte (Fips197.gmul a b).
Proof.
  intros Ha Hb. assert (((0 <=? Fips197.gmul a b) && (Fips197.gmul a b <? 256)) = true) as H.
  { destruct Ha as [-> | ->]; [apply (byte_forall (fun b => (0 <=? Fips197.gmul 2 b) && (Fips197.gmul 2 b <? 256)))
      |apply (byte_forall (fun b => (0 <=? Fips197.gmul 3 b) && (Fips197.gmul 3 b <? 256)))]; (vm_compute; reflexivity) || exact Hb. }
  unfold byte. lia.
Qed.

Lemma table_word r b : (r < 4)%nat -> word32 (table t_fn r b).
Proof.
  intros Hr. unfold table. assert (Forall (Forall word32) t_fn) as F.
  { apply Forall_forall. intros l Hl. apply Forall_forall. intros w Hw.
    assert (forallb (fun l => forallb (fun w => (0 <=? w) && (w <? 2 ^ 32)) l) t_fn = true) as C by (vm_compute; reflexivity).
    rewrite forallb_forall in C. specialize (C l Hl). rewrite forallb_forall in C. specialize (C w Hw). unfold word32. lia. }
  assert (Forall word32 (nth r t_fn [])) as G by (rewrite Forall_forall in F; apply F, nth_In; exact Hr).
  destruct (Nat.lt_ge_cases (Z.to_nat b) (length (nth r t_fn []))) as [H|H].
  - rewrite Forall_forall in G. apply G, nth_In, H.
  - rewrite nth_overflow by exact H. unfold word32. lia.
Qed.

(** ** Blocks *)

(** The 16 bytes of a 128-bit value. *)
Definition is_block (s : list Z) : Prop := length s = 16%nat /\ Forall byte s.

Ltac explicit s :=
  repeat (destruct s as [|? s]; [cbn [length] in *; lia|]); destruct s as [|? s]; [|cbn [length] in *; lia].

Ltac xor_ac := apply Z.bits_inj; intro; rewrite !Z.lxor_spec; btauto.

Lemma bval_nth bs n : Forall byte bs -> (length bs = 4)%nat -> (n < 4)%nat -> bval (le_val bs) (Z.of_nat n) = nth n bs 0.
Proof.
  intros F L Hn. unfold bval, to_byte. change 0xff with (Z.ones 8). rewrite Z.land_ones, Z.shiftr_div_pow2, Z.pow_mul_r by lia.
  change (2 ^ 8) with 256. rewrite <- (firstn_skipn n bs), le_val_app, length_firstn, Nat.min_l by lia.
  assert (0 <= le_val (firstn n bs) < 256 ^ Z.of_nat n) as R.
  { pose proof (le_val_range (firstn n bs) (firstn_byte n bs F)) as R. rewrite length_firstn, Nat.min_l in R by lia. exact R. }
  rewrite Z.mul_comm, Z.div_add, Z.div_small, Z.add_0_l by lia. rewrite app_nth2, length_firstn, Nat.min_l, Nat.sub_diag by (rewrite ?length_firstn; lia).
  destruct (skipn n bs) as [|b r] eqn:E; [apply (f_equal (@length Z)) in E; rewrite length_skipn in E; cbn in E; lia|].
  cbn [le_val nth]. assert (byte b) as Hb. { apply skipn_byte with (n := n) in F. rewrite E in F. inversion F. assumption. }
  rewrite Z.mul_comm, Z_mod_plus_full. apply Z.mod_small, Hb.
Qed.

Lemma le_bytes_val4 bs : length bs = 4%nat -> Forall byte bs -> le_bytes 4 (le_val bs) = bs.
Proof. intros L F. rewrite <- L. apply le_bytes_of_val, F. Qed.

Lemma fwd_rnd_bytes (x k : list (list Z)) c : length x = 4%nat -> Forall (fun w => length w = 4%nat /\ Forall byte w) x ->
  length (nth c k []) = 4%nat -> Forall byte (nth c k []) ->
  le_bytes 4 (fwd_rnd (map le_val x) (map le_val k) c) =
  xor_list (nth c k []) (xor_list (xor_list (xor_list (contribution 0 (nth 0 (nth (c mod 4) x []) 0)) (contribution 1 (nth 1 (nth ((c + 1) mod 4) x []) 0)))
    (contribution 2 (nth 2 (nth ((c + 2) mod 4) x []) 0))) (contribution 3 (nth 3 (nth ((c + 3) mod 4) x []) 0))).
Proof.
  intros Lx Fx Lk Fk. unfold fwd_rnd, four_tables. rewrite !le_bytes_lxor. change 0 with (le_val []) at 1. rewrite map_nth, (le_bytes_val4 (nth c k [])) by assumption.
  assert (forall i, (i < 4)%nat -> length (nth i x []) = 4%nat /\ Forall byte (nth i x [])) as A.
  { intros i Hi. rewrite Forall_forall in Fx. apply Fx, nth_In. lia. }
  assert (forall r, (r < 4)%nat -> le_bytes 4 (table t_fn r (bval (fwd_var (map le_val x) r c) (rf1 r c))) = contribution r (nth r (nth ((c + r) mod 4) x []) 0)) as T.
  { intros r Hr. unfold fwd_var, rf1. change 0 with (le_val []) at 1. rewrite map_nth.
    destruct (A ((c + r) mod 4)%nat ltac:(apply Nat.mod_upper_bound; lia)) as [L F].
    rewrite bval_nth by assumption. apply table_contribution; [exact Hr|]. rewrite Forall_forall in F. apply F, nth_In. lia. }
  rewrite !T by lia. rewrite Nat.add_0_r. reflexivity.
Qed.

Lemma single_round_fips s k : is_block s -> is_block k -> aesb_single_round s k = Fips197.round s k.
Proof.
  intros [Ls Fs] [Lk Fk]. explicit s. explicit k. repeat match goal with H : Forall byte (_ :: _) |- _ => inversion_clear H end.
  unfold aesb_single_round, aes_round_words, bytes32.
  change (words32 4 [z; z0; z1; z2; z3; z4; z5; z6; z7; z8; z9; z10; z11; z12; z13; z14])
    with (map le_val [[z; z0; z1; z2]; [z3; z4; z5; z6]; [z7; z8; z9; z10]; [z11; z12; z13; z14]]).
  change (words32 4 [z15; z16; z17; z18; z19; z20; z21; z22; z23; z24; z25; z26; z27; z28; z29; z30])
    with (map le_val [[z15; z16; z17; z18]; [z19; z20; z21; z22]; [z23; z24; z25; z26]; [z27; z28; z29; z30]]).
  rewrite flat_map_concat_map, map_map. erewrite map_ext_in; [|intros c Hc; apply fwd_rnd_bytes].
  - cbn -[Z.lxor Fips197.gmul Fips197.SBox]. repeat (apply f_equal2; [xor_ac|]). reflexivity.
  - reflexivity.
  - repeat first [assumption | constructor].
  - apply in_seq in Hc. do 4 (destruct c as [|c]; [reflexivity|]). lia.
  - apply in_seq in Hc. do 4 (destruct c as [|c]; [repeat first [assumption | constructor]|]). lia.
Qed.

Lemma sub_shift (sbox : Z -> Z) s : length s = 16%nat -> Fips197.SubBytes sbox (Fips197.ShiftRows s) = Fips197.ShiftRows (Fips197.SubBytes sbox s).
Proof. intros L. explicit s. reflexivity. Qed.

Lemma aesenc_fips s k : length s = 16%nat -> _mm_aesenc_si128 s k = Fips197.round s k.
Proof. intros L. unfold _mm_aesenc_si128. rewrite sub_shift by exact L. reflexivity. Qed.

Lemma round_block s k : is_block s -> is_block k -> is_block (Fips197.round s k).
Proof.
  intros Hs Hk. rewrite <- single_round_fips by assumption. unfold aesb_single_round, aes_round_words. split; [apply bytes32_length|apply bytes32_byte].
Qed.

(** The i-th round key in the expanded key. *)
Definition round_key (i : nat) (key : list Z) : list Z := firstn 16 (skipn (16 * i) key).

Lemma round_key_block i n key : length key = (16 * n)%nat -> Forall byte key -> (i < n)%nat -> is_block (round_key i key).
Proof.
  intros L F Hi. split; [unfold round_key; rewrite length_firstn, length_skipn, L; lia|]. apply firstn_byte, skipn_byte, F.
Qed.

Lemma skipn_words32 i : forall n bs, skipn i (words32 n bs) = words32 (n - i) (skipn (4 * i) bs).
Proof.
  induction i as [|i IH]; intros n bs; [cbn [Nat.mul skipn]; rewrite Nat.sub_0_r; reflexivity|].
  destruct n as [|n]; [reflexivity|]. cbn [words32 Nat.sub]. rewrite skipn_cons, IH, skipn_skipn. do 2 f_equal. lia.
Qed.

Lemma nth_words32 n : forall c bs, (c < n)%nat -> nth c (words32 n bs) 0 = le_val (firstn 4 (skipn (4 * c) bs)).
Proof.
  induction n as [|n IH]; intros c bs H; [lia|]. destruct c as [|c]; [reflexivity|]. cbn [words32 nth]. rewrite IH, skipn_skipn by lia.
  do 3 f_equal. lia.
Qed.

(** A round looks at the first four words of the key only. *)
Lemma aes_round_words_key x n key : (4 <= n)%nat -> aes_round_words x (words32 n key) = aes_round_words x (words32 4 (firstn 16 key)).
Proof.
  intros Hn. unfold aes_round_words. apply map_ext_in. intros c Hc. apply in_seq in Hc. unfold fwd_rnd. f_equal.
  rewrite !nth_words32 by lia. do 4 (destruct c as [|c]; [do 17 (destruct key as [|? key]; [reflexivity|]); reflexivity|]). lia.
Qed.

Lemma pseudo_round_fips s key n : is_block s -> length key = (16 * n)%nat -> Forall byte key -> (10 <= n)%nat ->
  aesb_pseudo_round s key = fold_left (fun s i => Fips197.round s (round_key i key)) (seq 0 10) s.
Proof.
  intros Hs L F Hn. unfold aesb_pseudo_round.
  assert (forall rs x, is_block x -> Forall (fun i => (i < 10)%nat) rs ->
    bytes32 (fold_left (fun b i => aes_round_words b (skipn (i * N_COLS) (words32 40 key))) rs (words32 4 x)) =
    fold_left (fun s i => Fips197.round s (round_key i key)) rs x) as G.
  { induction rs as [|i rs IH]; intros x Hx Fr; cbn [fold_left].
    - apply bytes32_words; [apply Hx|apply (proj1 Hx)].
    - inversion_clear Fr as [|? ? Hi Fr']. unfold N_COLS at 2. rewrite skipn_words32, aes_round_words_key by lia.
      replace (4 * (i * 4))%nat with (16 * i)%nat by lia. change (firstn 16 (skipn (16 * i) key)) with (round_key i key).
      assert (is_block (round_key i key)) as Hk by (apply (round_key_block i n); [exact L|exact F|lia]).
      rewrite <- (single_round_fips x) by assumption.
      rewrite <- IH; [|rewrite single_round_fips by assumption; apply round_block; assumption|exact Fr']. f_equal. f_equal.
      unfold aesb_single_round. symmetry. apply (words32_bytes (aes_round_words _ _)).
      unfold aes_round_words. apply Forall_map, Forall_forall. intros c Hc. apply in_seq in Hc. unfold fwd_rnd, four_tables.
      assert (forall r b, (r < 4)%nat -> word32 (table t_fn r b)) as T by apply table_word. 
      repeat apply word32_lxor; try (apply T; lia). rewrite nth_words32 by lia.
      pose proof (words32_word 4 _ (proj2 Hk)) as W. rewrite Forall_forall in W. rewrite <- (nth_words32 4) by lia. apply W, nth_In. rewrite words32_length. lia. }
  apply G; [exact Hs|]. apply Forall_forall. intros i Hi. apply in_seq in Hi. lia.
Qed.

(** ** The key expansion of OpenAES *)

Definition is_word (w : list Z) : Prop := length w = 4%nat /\ Forall byte w.

Lemma xor_word_is a b : is_word a -> is_word b -> is_word (xor_list a b).
Proof. intros [La Fa] [Lb Fb]. split; [rewrite xor_list_length, La, Lb; reflexivity|apply xor_list_byte; assumption]. Qed.

Lemma concat_word ws : Forall is_word ws -> forall i, (i < length ws)%nat -> firstn 4 (skipn (i * 4) (concat ws)) = nth i ws [].
Proof.
  induction 1 as [|w ws [L _] F IH]; intros i H; [cbn in H; lia|]. destruct w as [|a [|b [|c [|d [|? ?]]]]]; try discriminate L.
  destruct i as [|i]; [reflexivity|]. cbn [length] in H. apply (IH i). lia.
Qed.

Lemma concat_length ws : Forall is_word ws -> length (concat ws) = (4 * length ws)%nat.
Proof. induction 1 as [|w ws [L _] F IH]; cbn [concat length]; [reflexivity|]. rewrite length_app, L, IH. lia. Qed.

Lemma concat_byte ws : Forall is_word ws -> Forall byte (concat ws).
Proof. induction 1 as [|w ws [_ B] F IH]; cbn [concat]; [constructor|]. apply Forall_app. split; assumption. Qed.

Lemma nth_firstn_skipn k : forall j (l : list Z) n, (j < n)%nat -> nth (k + j) l 0 = nth j (firstn n (skipn k l)) 0.
Proof.
  induction k as [|k IH]; intros j l n H; cbn [Nat.add skipn].
  - revert l n H. induction j as [|j IHj]; intros [|x l] [|n] H; try lia; cbn; try reflexivity. apply IHj. lia.
  - destruct l as [|x l]; [destruct n, j; reflexivity|]. apply IH, H.
Qed.

Lemma xor_by_index (l w temp : list Z) k : firstn 4 (skipn k l) = w -> length w = 4%nat -> length temp = 4%nat ->
  map (fun _j => Z.lxor (nth (k + _j) l 0) (nth _j temp 0)) (seq 0 4) = xor_list w temp.
Proof.
  intros E Lw Lt. erewrite map_ext_in; [|intros j Hj; apply in_seq in Hj; rewrite (nth_firstn_skipn k j l 4) by lia; rewrite E; reflexivity].
  explicit w. explicit temp. reflexivity.
Qed.

Lemma sub_word_is w : is_word w -> map oaes_sub_byte w = Fips197.SubWord w /\ is_word (Fips197.SubWord w).
Proof.
  intros [L F]. unfold Fips197.SubWord. split; [apply map_ext_in; intros b Hb; apply oaes_sub_byte_SBox; rewrite Forall_forall in F; apply F, Hb|].
  split; [rewrite length_map; exact L|]. apply Forall_map. revert F. apply Forall_impl, SBox_byte.
Qed.

Lemma rot_word_is w : is_word w -> oaes_word_rot_left w = Fips197.RotWord w /\ is_word (Fips197.RotWord w).
Proof.
  intros [L F]. explicit w. split; [reflexivity|]. split; [reflexivity|].
  repeat match goal with H : Forall byte (_ :: _) |- _ => inversion_clear H end. repeat first [assumption | constructor].
Qed.

Lemma rcon_table i : (1 <= i <= 10)%nat -> Fips197.Rcon i = [nth (i - 1) oaes_gf_8 0; 0; 0; 0] /\ is_word (Fips197.Rcon i).
Proof.
  intros H. assert (i = 1 \/ i = 2 \/ i = 3 \/ i = 4 \/ i = 5 \/ i = 6 \/ i = 7 \/ i = 8 \/ i = 9 \/ i = 10)%nat as C by lia.
  repeat (destruct C as [-> |C]; [split; [reflexivity|split; [reflexivity|repeat constructor; vm_compute; intuition discriminate]]|]).
  subst i. split; [reflexivity|split; [reflexivity|repeat constructor; vm_compute; intuition discriminate]].
Qed.

Lemma set_first w g : length w = 4%nat -> set_nth 0 (Z.lxor (nth 0 w 0) g) w = xor_list w [g; 0; 0; 0].
Proof. intros L. explicit w. cbn. rewrite !Z.lxor_0_r. reflexivity. Qed.

(** A turn of the loop appends the next word of the standard. *)
Lemma turn_fips Nk ws i : Forall is_word ws -> length ws = i -> (1 <= Nk <= i)%nat -> (i / Nk <= 10)%nat ->
  oaes_key_turn Nk (concat ws) i = concat (Fips197.next_word Nk ws i) /\ Forall is_word (Fips197.next_word Nk ws i).
Proof.
  intros F L HN Hd. assert (forall k, (k < i)%nat -> is_word (nth k ws [])) as A by (intros k Hk; rewrite Forall_forall in F; apply F, nth_In; lia).
  assert (1 <= i / Nk)%nat as Hd' by (apply Nat.div_le_lower_bound; lia).
  unfold oaes_key_turn, Fips197.next_word, OAES_COL_LEN, OAES_RKEY_LEN. rewrite concat_word by (assumption || lia).
  rewrite (Nat.eqb_sym 0), (Nat.eqb_sym 4). pose proof (A (i - 1)%nat ltac:(lia)) as W. set (temp := nth (i - 1) ws []) in *.
  destruct (rot_word_is temp W) as [Er Wr]. destruct (sub_word_is _ Wr) as [Es Ws]. destruct (sub_word_is _ W) as [Es' Ws'].
  destruct (rcon_table (i / Nk) ltac:(lia)) as [Ec Wc]. rewrite Er, Es, Es', set_first, <- Ec by apply Ws.
  set (next := if (i mod Nk =? 0)%nat then _ else _).
  assert (is_word next) as Wn by (unfold next; destruct (i mod Nk =? 0)%nat; [apply xor_word_is; assumption|destruct ((6 <? Nk) && (i mod Nk =? 4))%nat; assumption]).
  assert (is_word (xor_list (nth (i - Nk) ws []) next)) as Wx by (apply xor_word_is; [apply A; lia|exact Wn]).
  split; [|apply Forall_app; split; [exact F|constructor; [exact Wx|constructor]]].
  rewrite concat_app. f_equal. cbn [concat]. rewrite app_nil_r. apply xor_by_index; [apply concat_word; [exact F|lia]|apply A; lia|apply Wn].
Qed.

Lemma expansion_fips Nk n : forall ws, Forall is_word ws -> (1 <= Nk <= length ws)%nat -> ((length ws + n - 1) / Nk <= 10)%nat ->
  fold_left (oaes_key_turn Nk) (seq (length ws) n) (concat ws) = concat (fold_left (Fips197.next_word Nk) (seq (length ws) n) ws) /\
  Forall is_word (fold_left (Fips197.next_word Nk) (seq (length ws) n) ws) /\
  length (fold_left (Fips197.next_word Nk) (seq (length ws) n) ws) = (length ws + n)%nat.
Proof.
  induction n as [|n IH]; intros ws F HN Hd; cbn [seq fold_left]; [rewrite Nat.add_0_r; auto|].
  assert (length ws / Nk <= 10)%nat as Hd' by (etransitivity; [apply Nat.Div0.div_le_mono; instantiate (1 := (length ws + S n - 1)%nat); lia|exact Hd]).
  destruct (turn_fips Nk ws (length ws) F eq_refl HN Hd') as [E F']. rewrite E.
  assert (length (Fips197.next_word Nk ws (length ws)) = S (length ws)) as L by (unfold Fips197.next_word; rewrite length_app; cbn; lia).
  rewrite <- L. replace (length ws + S n)%nat with (length (Fips197.next_word Nk ws (length ws)) + n)%nat in * by lia. apply IH; [exact F'|lia|exact Hd].
Qed.

Lemma chunks_ok n : forall bs, length bs = (4 * n)%nat -> Forall byte bs ->
  concat (chunks n 4 bs) = bs /\ length (chunks n 4 bs) = n /\ Forall is_word (chunks n 4 bs).
Proof.
  induction n as [|n IH]; intros bs L F; cbn [chunks concat length].
  - destruct bs; [auto|discriminate].
  - destruct (IH (skipn 4 bs)) as (E1 & E2 & E3); [rewrite length_skipn; lia|apply skipn_byte, F|]. rewrite E1, E2.
    split; [apply firstn_skipn|]. split; [reflexivity|]. constructor; [split; [rewrite length_firstn; lia|apply firstn_byte, F]|exact E3].
Qed.

(** The key expansion of OpenAES is that of the standard, for the three lengths of keys. *)
Lemma oaes_expand_fips Nk key : (Nk = 4 \/ Nk = 6 \/ Nk = 8)%nat -> length key = (4 * Nk)%nat -> Forall byte key ->
  oaes_key_expand key = concat (Fips197.KeyExpansion Nk key) /\ Forall is_word (Fips197.KeyExpansion Nk key) /\
  length (Fips197.KeyExpansion Nk key) = (4 * (Nk + 7))%nat.
Proof.
  intros HN L F. unfold oaes_key_expand, Fips197.KeyExpansion, OAES_ROUND_BASE, OAES_RKEY_LEN. rewrite L, (Nat.mul_comm 4 Nk), Nat.div_mul by lia.
  destruct (chunks_ok Nk key L F) as (E1 & E2 & E3). pose proof (expansion_fips Nk (4 * (Nk + 7) - Nk) (chunks Nk 4 key) E3) as X. rewrite E1, E2 in X.
  rewrite (Nat.mul_comm (Nk + 7)). destruct X as (X1 & X2 & X3); [lia|destruct HN as [-> |[-> | ->]]; vm_compute; lia|].
  split; [exact X1|]. split; [exact X2|]. rewrite X3. lia.
Qed.

(** ** The key expansion with instructions *)

Ltac words := repeat match goal with H : length ?w = 4%nat |- _ => is_var w; explicit w; clear H end.
Ltac xor_all := cbn -[Z.lxor Fips197.SBox]; repeat (apply f_equal2; [apply Z.bits_inj; intro; rewrite !Z.lxor_spec, ?Z.bits_0; btauto|]); reflexivity.

(** Four words from the four before them, the first of which is combined with [t]. *)
Definition word_chain (t : list Z) (a : list (list Z)) : list (list Z) :=
  match a with
  | [a0; a1; a2; a3] =>
      let b0 := xor_list a0 t in let b1 := xor_list a1 b0 in let b2 := xor_list a2 b1 in [b0; b1; b2; xor_list a3 b2]
  | _ => []
  end.

Lemma sub1_chain a0 a1 a2 a3 c0 c1 c2 c3 rcon : length a0 = 4%nat -> length a1 = 4%nat -> length a2 = 4%nat -> length a3 = 4%nat ->
  length c0 = 4%nat -> length c1 = 4%nat -> length c2 = 4%nat -> length c3 = 4%nat ->
  fst (ExpandAESKey256_sub1 (concat [a0; a1; a2; a3]) (_mm_aeskeygenassist_si128 (concat [c0; c1; c2; c3]) rcon)) =
  concat (word_chain (xor_list (Fips197.SubWord (Fips197.RotWord c3)) [rcon; 0; 0; 0]) [a0; a1; a2; a3]).
Proof. intros. words. xor_all. Qed.

Lemma sub2_chain a0 a1 a2 a3 c0 c1 c2 c3 : length a0 = 4%nat -> length a1 = 4%nat -> length a2 = 4%nat -> length a3 = 4%nat ->
  length c0 = 4%nat -> length c1 = 4%nat -> length c2 = 4%nat -> length c3 = 4%nat ->
  ExpandAESKey256_sub2 (concat [a0; a1; a2; a3]) (concat [c0; c1; c2; c3]) = concat (word_chain (Fips197.SubWord a3) [c0; c1; c2; c3]).
Proof. intros. words. xor_all. Qed.

Lemma next_word_local p n pre l : length pre = (8 * p)%nat -> length l = n -> (8 <= n)%nat ->
  Fips197.next_word 8 (pre ++ l) (8 * p + n) =
  pre ++ l ++ [xor_list (nth (n - 8) l [])
    (let temp := nth (n - 1) l [] in
     if (n mod 8 =? 0)%nat then xor_list (Fips197.SubWord (Fips197.RotWord temp)) (Fips197.Rcon (p + n / 8))
     else if (n mod 8 =? 4)%nat then Fips197.SubWord temp else temp)].
Proof.
  intros Lp Ll Hn. unfold Fips197.next_word. rewrite (Nat.mul_comm 8 p), (Nat.add_comm (p * 8)), Nat.Div0.mod_add, Nat.div_add by lia.
  rewrite !app_nth2 by lia. rewrite Lp. replace (n + p * 8 - 1 - 8 * p)%nat with (n - 1)%nat by lia.
  replace (n + p * 8 - 8 - 8 * p)%nat with (n - 8)%nat by lia. rewrite <- app_assoc, (Nat.add_comm p). reflexivity.
Qed.

Ltac next_word p n L := rewrite (next_word_local p n _ (_ :: _) L) by (reflexivity || lia); cbn [app];
  try (replace (S (8 * p + n)) with (8 * p + S n)%nat by lia).

(** Four or eight words of the standard at once. *)
Lemma four_words p pre a0 a1 a2 a3 c0 c1 c2 c3 : length pre = (8 * p)%nat ->
  fold_left (Fips197.next_word 8) (seq (8 * p + 8) 4) (pre ++ [a0; a1; a2; a3; c0; c1; c2; c3]) =
  pre ++ [a0; a1; a2; a3; c0; c1; c2; c3] ++ word_chain (xor_list (Fips197.SubWord (Fips197.RotWord c3)) (Fips197.Rcon (p + 1))) [a0; a1; a2; a3].
Proof.
  intros L. cbn [seq fold_left]. next_word p 8%nat L. next_word p 9%nat L. next_word p 10%nat L. next_word p 11%nat L. reflexivity.
Qed.

Lemma eight_words p pre a0 a1 a2 a3 c0 c1 c2 c3 : length pre = (8 * p)%nat ->
  let b := word_chain (xor_list (Fips197.SubWord (Fips197.RotWord c3)) (Fips197.Rcon (p + 1))) [a0; a1; a2; a3] in
  fold_left (Fips197.next_word 8) (seq (8 * p + 8) 8) (pre ++ [a0; a1; a2; a3; c0; c1; c2; c3]) =
  (pre ++ [a0; a1; a2; a3; c0; c1; c2; c3]) ++ b ++ word_chain (Fips197.SubWord (nth 3 b [])) [c0; c1; c2; c3].
Proof.
  intros L b. change (seq (8 * p + 8) 8) with (seq (8 * p + 8) (4 + 4)). rewrite seq_app, fold_left_app, four_words by exact L. fold b.
  unfold b, word_chain at 1. set (b0 := xor_list a0 _). set (b1 := xor_list a1 b0). set (b2 := xor_list a2 b1). cbn [app seq fold_left].
  replace (8 * p + 8 + 4)%nat with (8 * p + 12)%nat by lia. next_word p 12%nat L. next_word p 13%nat L. next_word p 14%nat L. next_word p 15%nat L.
  rewrite <- app_assoc. reflexivity.
Qed.

Lemma chain_words t a0 a1 a2 a3 : length t = 4%nat -> length a0 = 4%nat -> length a1 = 4%nat -> length a2 = 4%nat -> length a3 = 4%nat ->
  exists b0 b1 b2 b3, word_chain t [a0; a1; a2; a3] = [b0; b1; b2; b3] /\ length b0 = 4%nat /\ length b1 = 4%nat /\ length b2 = 4%nat /\ length b3 = 4%nat.
Proof. intros. do 4 eexists. split; [reflexivity|]. rewrite !xor_list_length. lia. Qed.

Lemma expand_pairs_fips n : forall p pre a0 a1 a2 a3 c0 c1 c2 c3, length pre = (8 * p)%nat ->
  length a0 = 4%nat -> length a1 = 4%nat -> length a2 = 4%nat -> length a3 = 4%nat ->
  length c0 = 4%nat -> length c1 = 4%nat -> length c2 = 4%nat -> length c3 = 4%nat ->
  concat (pre ++ [a0; a1; a2; a3; c0; c1; c2; c3]) ++
    expand_pairs (concat [a0; a1; a2; a3]) (concat [c0; c1; c2; c3]) (map (fun i => nth 0 (Fips197.Rcon i) 0) (seq (p + 1) (S n))) =
  concat (fold_left (Fips197.next_word 8) (seq (8 * p + 8) (8 * n + 4)) (pre ++ [a0; a1; a2; a3; c0; c1; c2; c3])).
Proof.
  induction n as [|n IH]; intros p pre a0 a1 a2 a3 c0 c1 c2 c3 L A0 A1 A2 A3 C0 C1 C2 C3.
  - change (8 * 0 + 4)%nat with 4%nat. rewrite four_words by exact L. cbn [seq map expand_pairs]. rewrite sub1_chain, app_assoc, (concat_app (pre ++ _)) by assumption. reflexivity.
  - replace (8 * S n + 4)%nat with (8 + (8 * n + 4))%nat by lia. rewrite seq_app, fold_left_app, eight_words by exact L.
    set (t := xor_list (Fips197.SubWord (Fips197.RotWord c3)) (Fips197.Rcon (p + 1))).
    assert (length t = 4%nat) as Lt by (unfold t, Fips197.Rcon, Fips197.SubWord; rewrite xor_list_length, length_map; words; reflexivity).
    destruct (chain_words t a0 a1 a2 a3 Lt A0 A1 A2 A3) as (b0 & b1 & b2 & b3 & Eb & B0 & B1 & B2 & B3).
    destruct (chain_words (Fips197.SubWord b3) c0 c1 c2 c3) as (d0 & d1 & d2 & d3 & Ed & D0 & D1 & D2 & D3); [unfold Fips197.SubWord; rewrite length_map; exact B3|assumption..|].
    rewrite Eb. cbn [nth]. rewrite Ed.
    change (map (fun i => nth 0 (Fips197.Rcon i) 0) (seq (p + 1) (S (S n))))
      with (nth 0 (Fips197.Rcon (p + 1)) 0 :: map (fun i => nth 0 (Fips197.Rcon i) 0) (seq (S (p + 1)) (S n))).
    replace (S (p + 1)) with (S p + 1)%nat by lia. cbn [expand_pairs]. destruct (map _ (seq (S p + 1) (S n))) as [|r rs] eqn:Er; [discriminate|]. rewrite <- Er.
    unfold expand_pair. rewrite (surjective_pairing (ExpandAESKey256_sub1 _ _)), sub1_chain by assumption.
    change [nth 0 (Fips197.Rcon (p + 1)) 0; 0; 0; 0] with (Fips197.Rcon (p + 1)). fold t. rewrite Eb, sub2_chain, Ed by assumption.
    replace (8 * p + 8 + 8)%nat with (8 * S p + 8)%nat by lia. cbn [app].
    rewrite <- (IH (S p) (pre ++ [a0; a1; a2; a3; c0; c1; c2; c3])); [|rewrite length_app; cbn; lia|assumption..].
    rewrite (concat_app _ [b0; b1; b2; b3; d0; d1; d2; d3]), <- app_assoc. f_equal. change [b0; b1; b2; b3; d0; d1; d2; d3] with ([b0; b1; b2; b3] ++ [d0; d1; d2; d3]).
    rewrite concat_app, <- app_assoc. reflexivity.
Qed.

Lemma ExpandAESKey256_fips key : length key = 32%nat -> ExpandAESKey256 key = concat (Fips197.KeyExpansion 8 key).
Proof.
  intros L. explicit key. unfold ExpandAESKey256, Fips197.KeyExpansion.
  apply (expand_pairs_fips 6 0 [] [_; _; _; _] [_; _; _; _] [_; _; _; _] [_; _; _; _] [_; _; _; _] [_; _; _; _] [_; _; _; _] [_; _; _; _]); reflexivity.
Qed.

(** Both expansions give the same 15 round keys. *)
Lemma expansions_agree key : length key = 32%nat -> Forall byte key ->
  oaes_key_import_data key = Some (ExpandAESKey256 key) /\ length (ExpandAESKey256 key) = (16 * 15)%nat /\ Forall byte (ExpandAESKey256 key).
Proof.
  intros L F. destruct (oaes_expand_fips 8 key ltac:(lia) L F) as (E & W & Lw). unfold oaes_key_import_data. rewrite L, E, <- ExpandAESKey256_fips by exact L.
  split; [reflexivity|]. rewrite ExpandAESKey256_fips by exact L. split; [rewrite concat_length, Lw by exact W; reflexivity|apply concat_byte, W].
Qed.
