(* ===== verification/Blake256.v ===== *)
(** * BLAKE-256 (blake256.c, hash-extra-blake.c)

    The compression function, the buffering of [blake256_update], the padding of
    [blake256_final_h], the hash functions, and HMAC.  Lengths are bytes here and bits in
    the code, which is only ever given whole bytes.  Module [BlakeSpec] is the definition of the
    hash: the padded message block by block, with the counter of the message bits.

    [blake256_update] is right for one call on a fresh state, which is how [blake256_hash]
    uses it; on a state with buffered bytes it may skip or reorder them. *)

From Stdlib Require Import ZArith Lia List Bool.
Import ListNotations.
From S2P Require Import Prelude Bytes IntUtil.
Set Default Goal Selector "!".

(** Big-endian words. *)
Definition U8TO32 (p : list Z) : Z :=
  Z.lor (Z.lor (Z.lor (u32 (Z.shiftl (nth 0 p 0) 24)) (u32 (Z.shiftl (nth 1 p 0) 16))) (u32 (Z.shiftl (nth 2 p 0) 8))) (nth 3 p 0).
Definition U32TO8 (v : Z) : list Z := [Z.shiftr v 24 mod 256; Z.shiftr v 16 mod 256; Z.shiftr v 8 mod 256; v mod 256].

Definition sigma : list (list nat) := [
  [0; 1; 2; 3; 4; 5; 6; 7; 8; 9; 10; 11; 12; 13; 14; 15];
  [14; 10; 4; 8; 9; 15; 13; 6; 1; 12; 0; 2; 11; 7; 5; 3];
  [11; 8; 12; 0; 5; 2; 15; 13; 10; 14; 3; 6; 7; 1; 9; 4];
  [7; 9; 3; 1; 13; 12; 11; 14; 2; 6; 5; 10; 4; 0; 15; 8];
  [9; 0; 5; 7; 2; 4; 10; 15; 14; 1; 11; 12; 6; 8; 3; 13];
  [2; 12; 6; 10; 0; 11; 8; 3; 4; 13; 7; 5; 15; 14; 1; 9];
  [12; 5; 1; 15; 14; 13; 4; 10; 0; 7; 6; 3; 9; 2; 8; 11];
  [13; 11; 7; 14; 12; 1; 3; 9; 5; 0; 15; 4; 8; 6; 2; 10];
  [6; 15; 14; 9; 11; 3; 0; 8; 12; 2; 13; 7; 1; 4; 10; 5];
  [10; 2; 8; 4; 7; 6; 1; 5; 15; 11; 9; 14; 3; 12; 13; 0];
  [0; 1; 2; 3; 4; 5; 6; 7; 8; 9; 10; 11; 12; 13; 14; 15];
  [14; 10; 4; 8; 9; 15; 13; 6; 1; 12; 0; 2; 11; 7; 5; 3];
  [11; 8; 12; 0; 5; 2; 15; 13; 10; 14; 3; 6; 7; 1; 9; 4];
  [7; 9; 3; 1; 13; 12; 11; 14; 2; 6; 5; 10; 4; 0; 15; 8]]%nat.

Definition cst : list Z := [
  0x243F6A88; 0x85A308D3; 0x13198A2E; 0x03707344; 0xA4093822; 0x299F31D0; 0x082EFA98; 0xEC4E6C89;
  0x452821E6; 0x38D01377; 0xBE5466CF; 0x34E90C6C; 0xC0AC29B7; 0xC97C50DD; 0x3F84D5B5; 0xB5470917].

Definition padding : list Z := 0x80 :: repeat 0 63.

Record state := mk_state { st_h : list Z; st_s : list Z; st_t0 : Z; st_t1 : Z; buflen : Z; nullt : bool; st_buf : list Z }.

(** ** The compression function *)

Definition ROT (x n : Z) : Z := Z.lor (u32 (Z.shiftl x (32 - n))) (Z.shiftr x n).

Definition at32 (v : list Z) (i : nat) : Z := nth i v 0.

Definition G (m : list Z) (i : nat) (v : list Z) (a b c d e : nat) : list Z :=
  let sig k := nth k (nth i sigma []) 0%nat in
  let v := set_nth a (u32 (at32 v a + u32 (Z.lxor (at32 m (sig e)) (at32 cst (sig (e + 1)%nat)) + at32 v b))) v in
  let v := set_nth d (ROT (Z.lxor (at32 v d) (at32 v a)) 16) v in
  let v := set_nth c (u32 (at32 v c + at32 v d)) v in
  let v := set_nth b (ROT (Z.lxor (at32 v b) (at32 v c)) 12) v in
  let v := set_nth a (u32 (at32 v a + u32 (Z.lxor (at32 m (sig (e + 1)%nat)) (at32 cst (sig e)) + at32 v b))) v in
  let v := set_nth d (ROT (Z.lxor (at32 v d) (at32 v a)) 8) v in
  let v := set_nth c (u32 (at32 v c + at32 v d)) v in
  set_nth b (ROT (Z.lxor (at32 v b) (at32 v c)) 7) v.

Definition blake_round (m : list Z) (v : list Z) (i : nat) : list Z :=
  let v := G m i v 0 4 8 12 0 in
  let v := G m i v 1 5 9 13 2 in
  let v := G m i v 2 6 10 14 4 in
  let v := G m i v 3 7 11 15 6 in
  let v := G m i v 3 4 9 14 14 in
  let v := G m i v 2 7 8 13 12 in
  let v := G m i v 0 5 10 15 8 in
  G m i v 1 6 11 12 10.

(** The 16 words at the start of the compression. *)
Definition compress_start (st : state) : list Z :=
  let v := firstn 8 (st_h st) ++ [Z.lxor (at32 (st_s st) 0) 0x243F6A88; Z.lxor (at32 (st_s st) 1) 0x85A308D3;
    Z.lxor (at32 (st_s st) 2) 0x13198A2E; Z.lxor (at32 (st_s st) 3) 0x03707344; 0xA4093822; 0x299F31D0; 0x082EFA98; 0xEC4E6C89] in
  if nullt st then v else
    let v := set_nth 12 (Z.lxor (at32 v 12) (st_t0 st)) v in
    let v := set_nth 13 (Z.lxor (at32 v 13) (st_t0 st)) v in
    let v := set_nth 14 (Z.lxor (at32 v 14) (st_t1 st)) v in
    set_nth 15 (Z.lxor (at32 v 15) (st_t1 st)) v.

(** The new chain value. *)
Definition compress_end (h s v : list Z) : list Z :=
  let h := fold_left (fun h i => set_nth (i mod 8) (Z.lxor (at32 h (i mod 8)) (at32 v i)) h) (seq 0 16) h in
  fold_left (fun h i => set_nth i (Z.lxor (at32 h i) (at32 s (i mod 4))) h) (seq 0 8) h.

Definition blake256_compress (st : state) (block : list Z) : state :=
  let m := map (fun i => U8TO32 (skipn (i * 4) block)) (seq 0 16) in
  let v := fold_left (blake_round m) (seq 0 14) (compress_start st) in
  mk_state (compress_end (st_h st) (st_s st) v) (st_s st) (st_t0 st) (st_t1 st) (buflen st) (nullt st) (st_buf st).

Definition blake256_init (buf : list Z) : state :=
  mk_state [0x6A09E667; 0xBB67AE85; 0x3C6EF372; 0xA54FF53A; 0x510E527F; 0x9B05688C; 0x1F83D9AB; 0x5BE0CD19] [0; 0; 0; 0] 0 0 0 false buf.
Definition blake224_init (buf : list Z) : state :=
  mk_state [0xC1059ED8; 0x367CD507; 0x3070DD17; 0xF70E5939; 0xFFC00B31; 0x68581511; 0x64F98FA7; 0xBEFA4FA4] [0; 0; 0; 0] 0 0 0 false buf.

(** ** Buffering *)

Definition with_buf (buf : list Z) (st : state) : state := mk_state (st_h st) (st_s st) (st_t0 st) (st_t1 st) (buflen st) (nullt st) buf.
Definition with_buflen (n : Z) (st : state) : state := mk_state (st_h st) (st_s st) (st_t0 st) (st_t1 st) n (nullt st) (st_buf st).
Definition with_nullt (st : state) : state := mk_state (st_h st) (st_s st) (st_t0 st) (st_t1 st) (buflen st) true (st_buf st).
(** [st->t[0] -= n] *)
Definition sub_t (n : Z) (st : state) : state := mk_state (st_h st) (st_s st) (u32 (st_t0 st - n)) (st_t1 st) (buflen st) (nullt st) (st_buf st).

(** [st->t[0] += 512; if (st->t[0] == 0) st->t[1]++] *)
Definition count_block (st : state) : state :=
  let t0 := u32 (st_t0 st + 512) in
  mk_state (st_h st) (st_s st) t0 (if t0 =? 0 then u32 (st_t1 st + 1) else st_t1 st) (buflen st) (nullt st) (st_buf st).

(** [memcpy(st->buf + used, data, length)] *)
Definition put_buf (used : nat) (data : list Z) (st : state) : state :=
  with_buf (firstn used (st_buf st) ++ data ++ skipn (used + length data) (st_buf st)) st.

(** The loop over whole blocks; [fuel] bounds their number. *)
Fixpoint blake_blocks (fuel : nat) (st : state) (data : list Z) : state * list Z :=
  match fuel with
  | O => (st, data)
  | S fuel =>
      if (64 <=? length data)%nat then blake_blocks fuel (blake256_compress (count_block st) data) (skipn 64 data)
      else (st, data)
  end.

Definition blake256_update (st : state) (data : list Z) : state :=
  let used := Z.to_nat (Z.shiftr (buflen st) 3) in
  let fill := (64 - used)%nat in
  let '(st, data, used) :=
    if negb (used =? 0)%nat && (fill <=? length data mod 64)%nat then
      let st := count_block (put_buf used (firstn fill data) st) in
      (blake256_compress st (st_buf st), skipn fill data, 0%nat)
    else (st, data, used) in
  let '(st, data) := blake_blocks (length data) st data in
  match data with
  | [] => with_buflen 0 st
  | _ => with_buflen (8 * Z.of_nat used + 8 * Z.of_nat (length data)) (put_buf used data st)
  end.

Definition blake224_update := blake256_update.

(** ** The end of a message *)

Definition blake256_final_h (st : state) (pa pb : Z) : state * list Z :=
  let lo := u32 (st_t0 st + buflen st) in
  let hi := if lo <? buflen st then u32 (st_t1 st + 1) else st_t1 st in
  let msglen := U32TO8 hi ++ U32TO8 lo in
  let bytes n := Z.to_nat (Z.shiftr n 3) in
  let st :=
    if buflen st =? 440 then blake256_update (sub_t 8 st) [pa]
    else
      let st :=
        if buflen st <? 440 then
          let st := if buflen st =? 0 then with_nullt st else st in
          blake256_update (sub_t (440 - buflen st) st) (firstn (bytes (440 - buflen st)) padding)
        else
          let st := blake256_update (sub_t (512 - buflen st) st) (firstn (bytes (512 - buflen st)) padding) in
          with_nullt (blake256_update (sub_t 440 st) (firstn 55 (skipn 1 padding))) in
      sub_t 8 (blake256_update st [pb]) in
  let st := blake256_update (sub_t 64 st) msglen in
  (st, flat_map U32TO8 (firstn 8 (st_h st))).

Definition blake256_final (st : state) : list Z := snd (blake256_final_h st 0x81 0x01).
(** All 32 bytes, of which the first 28 are the digest. *)
Definition blake224_final (st : state) : list Z := snd (blake256_final_h st 0x80 0x00).

(** A local variable of type [state] has a buffer with unknown contents, [buf]. *)
Definition blake256_hash (buf inp : list Z) : list Z := blake256_final (blake256_update (blake256_init buf) inp).
Definition blake224_hash (buf inp : list Z) : list Z := blake224_final (blake224_update (blake224_init buf) inp).

Definition hash_extra_blake := blake256_hash.

(** ** HMAC *)

Record hmac_state := mk_hmac { inner : state; outer : state }.

(** [pad[i] ^= key[i]] for the bytes of the key, over [memset(pad, c, 64)]; at most 64 bytes *)
Definition hmac_pad (c : Z) (key : list Z) : list Z := xor_list (repeat c (length key)) key ++ repeat c (64 - length key).

Definition hmac_blake256_init (buf key : list Z) : hmac_state :=
  let key := if (64 <? length key)%nat then blake256_hash buf key else key in
  mk_hmac (blake256_update (blake256_init buf) (hmac_pad 0x36 key)) (blake256_update (blake256_init buf) (hmac_pad 0x5c key)).
Definition hmac_blake224_init (buf key : list Z) : hmac_state :=
  let key := if (64 <? length key)%nat then firstn 28 (blake256_hash buf key) else key in
  mk_hmac (blake224_update (blake224_init buf) (hmac_pad 0x36 key)) (blake224_update (blake224_init buf) (hmac_pad 0x5c key)).

Definition hmac_blake256_update (st : hmac_state) (data : list Z) : hmac_state := mk_hmac (blake256_update (inner st) data) (outer st).
Definition hmac_blake224_update (st : hmac_state) (data : list Z) : hmac_state := mk_hmac (blake224_update (inner st) data) (outer st).

Definition hmac_blake256_final (st : hmac_state) : list Z := blake256_final (blake256_update (outer st) (blake256_final (inner st))).
Definition hmac_blake224_final (st : hmac_state) : list Z := blake224_final (blake224_update (outer st) (firstn 28 (blake224_final (inner st)))).

Definition hmac_blake256_hash (buf key inp : list Z) : list Z := hmac_blake256_final (hmac_blake256_update (hmac_blake256_init buf key) inp).
Definition hmac_blake224_hash (buf key inp : list Z) : list Z := hmac_blake224_final (hmac_blake224_update (hmac_blake224_init buf key) inp).

(** ** BLAKE-256: the code against the definition of the hash

    [blake256_hash] is the iteration of the compression function over the padded message;
    [blake256_update] on a state with buffered bytes is not always what one call on all
    bytes is. *)

(** ** The definition *)

Module BlakeSpec.

(** The compression function with salt 0 and a 64-bit counter. *)
Definition compress (h block : list Z) (t : Z) : list Z :=
  st_h (blake256_compress (mk_state h [0; 0; 0; 0] (t mod 2 ^ 32) (t / 2 ^ 32) 0 false []) block).

(** A one, zeros, the bit that tells the digest sizes apart, and the length in bits, up to a multiple of 64 bytes. *)
Definition pad (mark : Z) (len : nat) : list Z :=
  let r := (len mod 64)%nat in
  (if (r =? 55)%nat then [0x80 + mark] else 0x80 :: repeat 0 (if (r <? 55)%nat then 54 - r else 118 - r) ++ [mark]) ++
  U32TO8 (8 * Z.of_nat len / 2 ^ 32) ++ U32TO8 (8 * Z.of_nat len mod 2 ^ 32).

(** The number of message bits up to block [i], and 0 for a block without message bits. *)
Definition counter (len i : nat) : Z := if (64 * i <? len)%nat then 8 * Z.of_nat (Nat.min len (64 * (i + 1))) else 0.

(** A function over the blocks of [data], from block [i] on. *)
Fixpoint over_blocks (f : list Z -> nat -> list Z -> list Z) (h : list Z) (i blocks : nat) (data : list Z) : list Z :=
  match blocks with
  | O => h
  | S blocks => over_blocks f (f h i (firstn 64 data)) (i + 1) blocks (skipn 64 data)
  end.

Definition iterate (len : nat) : list Z -> nat -> nat -> list Z -> list Z := over_blocks (fun h i block => compress h block (counter len i)).

Definition hash (iv : list Z) (mark : Z) (msg : list Z) : list Z :=
  let padded := msg ++ pad mark (length msg) in
  flat_map U32TO8 (firstn 8 (iterate (length msg) iv 0 (length padded / 64) padded)).

End BlakeSpec.

(** ** The compression function *)

(** What [blake256_compress] makes of the chain value. *)
Definition compressed (h block : list Z) (t0 t1 : Z) (nt : bool) : list Z :=
  st_h (blake256_compress (mk_state h [0; 0; 0; 0] t0 t1 0 nt []) block).

Lemma block_words block : (64 <= length block)%nat ->
  map (fun i => U8TO32 (skipn (i * 4) block)) (seq 0 16) = map (fun i => U8TO32 (skipn (i * 4) (firstn 64 block))) (seq 0 16).
Proof. intros L. do 64 (destruct block as [|? block]; [cbn in L; lia|]). reflexivity. Qed.

Lemma compressed_firstn h block t0 t1 nt : (64 <= length block)%nat -> compressed h block t0 t1 nt = compressed h (firstn 64 block) t0 t1 nt.
Proof. intros L. unfold compressed, blake256_compress. rewrite (block_words block L). reflexivity. Qed.

Lemma set_same (v : list Z) : forall i, set_nth i (Z.lxor (at32 v i) 0) v = v.
Proof.
  unfold at32. setoid_rewrite Z.lxor_0_r. induction v as [|x v IH]; intros [|i]; cbn; try reflexivity. f_equal. apply IH.
Qed.

Lemma start_null h t0 t1 : compress_start (mk_state h [0; 0; 0; 0] t0 t1 0 true []) = compress_start (mk_state h [0; 0; 0; 0] 0 0 0 false []).
Proof. unfold compress_start. cbn [nullt st_t0 st_t1 st_h st_s]. rewrite !set_same. reflexivity. Qed.

Lemma compressed_null h block t0 t1 : compressed h block t0 t1 true = compressed h block 0 0 false.
Proof. unfold compressed, blake256_compress. rewrite start_null. cbn [st_h st_s]. reflexivity. Qed.

Lemma compressed_spec h block t : compressed h block (t mod 2 ^ 32) (t / 2 ^ 32) false = BlakeSpec.compress h block t.
Proof. unfold compressed, BlakeSpec.compress. reflexivity. Qed.

Lemma compress_fields h t0 t1 n nt buf block : blake256_compress (mk_state h [0; 0; 0; 0] t0 t1 n nt buf) block =
  mk_state (compressed h block t0 t1 nt) [0; 0; 0; 0] t0 t1 n nt buf.
Proof.
  unfold compressed, blake256_compress, compress_start. cbn [st_h st_s st_t0 st_t1 nullt buflen st_buf]. reflexivity.
Qed.

#[local] Opaque blake256_compress compressed.

(** ** States with buffered bytes *)

Record rep (st : state) (h : list Z) (t0 t1 : Z) (nt : bool) (content : list Z) : Prop := {
  rp_h : st_h st = h;
  rp_s : st_s st = [0; 0; 0; 0];
  rp_t0 : st_t0 st = t0;
  rp_t1 : st_t1 st = t1;
  rp_null : nullt st = nt;
  rp_len : buflen st = 8 * Z.of_nat (length content);
  rp_content : firstn (length content) (st_buf st) = content;
  rp_buf : length (st_buf st) = 64%nat;
  rp_size : (length content < 64)%nat
}.

Lemma used_bytes n : Z.to_nat (Z.shiftr (8 * Z.of_nat n) 3) = n.
Proof. rewrite Z.shiftr_div_pow2, Z.mul_comm, Z.div_mul by lia. lia. Qed.

Lemma blocks_none st data : (length data < 64)%nat -> blake_blocks (length data) st data = (st, data).
Proof. intros L. destruct data as [|x data]; [reflexivity|]. cbn [blake_blocks length] in *. rewrite (proj2 (Nat.leb_gt _ _)) by exact L. reflexivity. Qed.

Lemma put_content (buf c d : list Z) : firstn (length c) buf = c -> length buf = 64%nat -> (length c + length d <= 64)%nat ->
  let buf' := firstn (length c) buf ++ d ++ skipn (length c + length d) buf in
  length buf' = 64%nat /\ firstn (length (c ++ d)) buf' = c ++ d.
Proof.
  intros E L H buf'. unfold buf'. rewrite E. split; [rewrite !length_app, length_skipn; lia|].
  rewrite app_assoc, firstn_app, Nat.sub_diag, firstn_all, firstn_O, app_nil_r. reflexivity.
Qed.

Lemma update_fits st h t0 t1 nt c d : rep st h t0 t1 nt c -> d <> [] -> (length c + length d < 64)%nat -> rep (blake256_update st d) h t0 t1 nt (c ++ d).
Proof.
  intros [E1 E2 E3 E4 E5 E6 E7 E8 E9] N L. unfold blake256_update. rewrite E6, used_bytes.
  replace (negb (length c =? 0)%nat && (64 - length c <=? length d mod 64)%nat) with false
    by (rewrite (Nat.mod_small (length d)), (proj2 (Nat.leb_gt _ _)), andb_false_r by lia; reflexivity).
  rewrite blocks_none by lia. destruct d as [|x d]; [contradiction|].
  destruct (put_content (st_buf st) c (x :: d) E7 E8 ltac:(lia)) as [B1 B2].
  constructor; cbn [st_h st_s st_t0 st_t1 nullt buflen st_buf put_buf with_buf with_buflen]; try assumption; rewrite length_app; lia.
Qed.

Lemma update_full st h t0 t1 nt c d : rep st h t0 t1 nt c -> c <> [] -> (length c + length d = 64)%nat ->
  let t0' := u32 (t0 + 512) in
  let t1' := if t0' =? 0 then u32 (t1 + 1) else t1 in
  rep (blake256_update st d) (compressed h (c ++ d) t0' t1' nt) t0' t1' nt [].
Proof.
  intros [E1 E2 E3 E4 E5 E6 E7 E8 E9] N L t0' t1'. unfold blake256_update. rewrite E6, used_bytes.
  assert (0 < length c)%nat as P by (destruct c; [contradiction|cbn; lia]).
  replace (negb (length c =? 0)%nat && (64 - length c <=? length d mod 64)%nat) with true
    by (rewrite (Nat.mod_small (length d)), (proj2 (Nat.leb_le _ _)), (proj2 (Nat.eqb_neq _ _)) by lia; reflexivity).
  replace (64 - length c)%nat with (length d) by lia. rewrite firstn_all, skipn_all. cbn [length blake_blocks].
  destruct (put_content (st_buf st) c d E7 E8 ltac:(lia)) as [B1 B2].
  replace (length (c ++ d)) with 64%nat in B2 by (rewrite length_app; lia). rewrite <- B1, firstn_all in B2.
  assert (count_block (put_buf (length c) d st) = mk_state h [0; 0; 0; 0] t0' t1' (buflen st) nt (c ++ d)) as X.
  { unfold count_block, put_buf, with_buf. cbn [st_h st_s st_t0 st_t1 nullt buflen st_buf]. rewrite E1, E2, E3, E4, E5, B2. reflexivity. }
  rewrite X, compress_fields. constructor; try reflexivity; cbn; [rewrite length_app; lia|lia].
Qed.

Lemma rep_sub st h t0 t1 nt c n : rep st h t0 t1 nt c -> rep (sub_t n st) h (u32 (t0 - n)) t1 nt c.
Proof. intros [E1 E2 E3 E4 E5 E6 E7 E8 E9]. constructor; try assumption. cbn. rewrite E3. reflexivity. Qed.

Lemma rep_nullt st h t0 t1 nt c : rep st h t0 t1 nt c -> rep (with_nullt st) h t0 t1 true c.
Proof. intros [E1 E2 E3 E4 E5 E6 E7 E8 E9]. constructor; try assumption. reflexivity. Qed.

(** ** Whole blocks *)

(** The two words of the counter after [k] blocks. *)
Definition lo (k : nat) : Z := (512 * Z.of_nat k) mod 2 ^ 32.
Definition hi (k : nat) : Z := 512 * Z.of_nat k / 2 ^ 32.

Lemma u32_mod z : u32 z = z mod 2 ^ 32.
Proof. unfold wrap. cbn [i_min i_max U32]. rewrite Z.sub_0_r. reflexivity. Qed.

(** Adding [c] bits, at most a block, to the counter. *)
Lemma counter_add k c : 0 < c <= 512 -> 512 * Z.of_nat k + c < 2 ^ 64 ->
  u32 (lo k + c) = (512 * Z.of_nat k + c) mod 2 ^ 32 /\
  (if u32 (lo k + c) =? 0 then u32 (hi k + 1) else hi k) = (512 * Z.of_nat k + c) / 2 ^ 32 /\
  (c < 512 -> u32 (lo k + c) <> 0 /\ (u32 (lo k + c) <? c) = false).
Proof.
  intros Hc Hk. unfold lo, hi. rewrite !u32_mod. set (a := 512 * Z.of_nat k) in *.
  assert (a mod 512 = 0) as D by (unfold a; rewrite Z.mul_comm; apply Z.mod_mul; lia).
  pose proof (Z.div_mod a (2 ^ 32)) as E. pose proof (Z.mod_pos_bound a (2 ^ 32)) as B.
  assert ((a mod 2 ^ 32) mod 512 = 0) as D' by (change (2 ^ 32) with (512 * 2 ^ 23); rewrite Z.rem_mul_r, D by lia; rewrite Z.add_0_l, Z.mul_comm; apply Z.mod_mul; lia).
  set (q := a / 2 ^ 32) in *. set (r := a mod 2 ^ 32) in *. assert (0 <= q < 2 ^ 32) as Hq by (unfold q; split; [apply Z.div_pos; lia|apply Z.div_lt_upper_bound; lia]).
  pose proof (Z.div_mod r 512) as Er. rewrite D' in Er. set (m := r / 512) in *. assert (r <= 2 ^ 32 - 512) as Hr by lia.
  destruct (Z.eq_dec (r + c) (2 ^ 32)) as [X|X].
  - assert ((a + c) / 2 ^ 32 = q + 1 /\ (a + c) mod 2 ^ 32 = 0) as [E1 E2].
    { replace (a + c) with ((q + 1) * 2 ^ 32) by lia. split; [apply Z.div_mul; lia|apply Z.mod_mul; lia]. }
    rewrite E1, E2, X, Z.mod_same by lia. rewrite Z.eqb_refl. split; [reflexivity|]. split; [apply Z.mod_small|lia].
    assert ((q + 1) * 2 ^ 32 < 2 ^ 64) by lia. lia.
  - assert ((a + c) / 2 ^ 32 = q /\ (a + c) mod 2 ^ 32 = r + c) as [E1 E2].
    { split; [symmetry; apply Z.div_unique with (r := r + c); lia|symmetry; apply Z.mod_unique with (q := q); lia]. }
    rewrite E1, E2, (Z.mod_small (r + c)), (proj2 (Z.eqb_neq (r + c) 0)), (proj2 (Z.ltb_ge (r + c) c)) by lia. repeat split; lia.
Qed.

Definition full_block (h : list Z) (i : nat) (block : list Z) : list Z := BlakeSpec.compress h block (512 * Z.of_nat (i + 1)).

Lemma counter_block k : 512 * Z.of_nat (k + 1) < 2 ^ 64 ->
  u32 (lo k + 512) = lo (k + 1) /\ (if u32 (lo k + 512) =? 0 then u32 (hi k + 1) else hi k) = hi (k + 1).
Proof.
  intros H. destruct (counter_add k 512 ltac:(lia) ltac:(lia)) as (E1 & E2 & _). rewrite E1 at 1. rewrite E2. unfold lo, hi.
  replace (512 * Z.of_nat (k + 1)) with (512 * Z.of_nat k + 512) by lia. split; reflexivity.
Qed.

Lemma blocks_spec fuel : forall data k h n buf, (length data <= fuel)%nat -> 512 * Z.of_nat (k + length data / 64) < 2 ^ 64 ->
  blake_blocks fuel (mk_state h [0; 0; 0; 0] (lo k) (hi k) n false buf) data =
  (mk_state (BlakeSpec.over_blocks full_block h k (length data / 64) data) [0; 0; 0; 0] (lo (k + length data / 64)) (hi (k + length data / 64)) n false buf,
   skipn (64 * (length data / 64)) data).
Proof.
  induction fuel as [|fuel IH]; intros data k h n buf L B.
  - destruct data; [|cbn in L; lia]. cbn. rewrite Nat.add_0_r. reflexivity.
  - cbn [blake_blocks]. destruct (Nat.leb_spec 64 (length data)) as [G|G].
    + assert (length data / 64 = S (length (skipn 64 data) / 64))%nat as E.
      { rewrite length_skipn. replace (length data) with (length data - 64 + 1 * 64)%nat at 1 by lia. rewrite Nat.div_add by lia. lia. }
      rewrite E in *. unfold count_block. cbn [st_h st_s st_t0 st_t1 nullt buflen st_buf].
      destruct (counter_block k ltac:(lia)) as [E1 E2]. rewrite E2, E1, compress_fields, compressed_firstn by lia.
      change (compressed h (firstn 64 data) (lo (k + 1)) (hi (k + 1)) false) with (full_block h k (firstn 64 data)).
      rewrite IH; [|rewrite length_skipn; lia|replace (k + 1 + length (skipn 64 data) / 64)%nat with (k + S (length (skipn 64 data) / 64))%nat by lia; exact B].
      cbn [BlakeSpec.over_blocks]. rewrite skipn_skipn. replace (k + 1 + length (skipn 64 data) / 64)%nat with (k + S (length (skipn 64 data) / 64))%nat by lia.
      do 2 f_equal. lia.
    + rewrite Nat.div_small by exact G. rewrite Nat.add_0_r. reflexivity.
Qed.

(** One call of [blake256_update] on a fresh state. *)
Lemma first_update iv buf msg : length buf = 64%nat -> 8 * Z.of_nat (length msg) < 2 ^ 64 ->
  let n := (length msg / 64)%nat in
  rep (blake256_update (mk_state iv [0; 0; 0; 0] 0 0 0 false buf) msg)
    (BlakeSpec.over_blocks full_block iv 0 n msg) (lo n) (hi n) false (skipn (64 * n) msg).
Proof.
  intros Lb B n. unfold blake256_update. cbn [buflen].
  pose proof (Nat.div_mod (length msg) 64 ltac:(lia)) as D. pose proof (Nat.mod_upper_bound (length msg) 64 ltac:(lia)) as U. fold n in D.
  change (Z.to_nat (Z.shiftr 0 3)) with 0%nat. cbn [Nat.eqb negb andb].
  pose proof (blocks_spec (length msg) msg 0 iv 0 buf ltac:(lia) ltac:(cbn [Nat.add]; fold n; lia)) as X. change (lo 0) with 0 in X. change (hi 0) with 0 in X.
  rewrite X. fold n. cbn [Nat.add].
  assert (length (skipn (64 * n) msg) < 64)%nat as Ls by (rewrite length_skipn; lia).
  destruct (skipn (64 * n) msg) as [|x rest] eqn:E; [constructor; cbn; try reflexivity; assumption || lia|].
  destruct (put_content buf [] (x :: rest) eq_refl Lb ltac:(cbn [length] in *; lia)) as [B1 B2].
  constructor; cbn [st_h st_s st_t0 st_t1 nullt buflen st_buf put_buf with_buf with_buflen]; try reflexivity; try assumption; lia.
Qed.

(** ** The end of the message *)

Lemma u32_add a b : u32 (u32 a + b) = u32 (a + b).
Proof. rewrite !u32_mod. apply Zplus_mod_idemp_l. Qed.

Lemma u32_sub a b : u32 (u32 a - b) = u32 (a - b).
Proof. rewrite !u32_mod. apply Zminus_mod_idemp_l. Qed.

Lemma lo_word n : u32 (lo n) = lo n.
Proof. unfold lo. rewrite u32_mod. apply Z.mod_mod. lia. Qed.

(** The block with the last [8 * r] bits of the message, whose counter was set back before. *)
Lemma last_counter n r k h block : (0 < r < 64)%nat -> 512 * Z.of_nat n + 8 * Z.of_nat r < 2 ^ 64 -> k = 512 - 8 * Z.of_nat r ->
  let t0' := u32 (u32 (lo n - k) + 512) in
  compressed h block t0' (if t0' =? 0 then u32 (hi n + 1) else hi n) false = BlakeSpec.compress h block (512 * Z.of_nat n + 8 * Z.of_nat r).
Proof.
  intros Hr B -> t0'. destruct (counter_add n (8 * Z.of_nat r) ltac:(lia) B) as (E1 & E2 & E3).
  assert (t0' = u32 (lo n + 8 * Z.of_nat r)) as E by (unfold t0'; rewrite u32_add; f_equal; lia).
  rewrite E, E2, E1. apply compressed_spec.
Qed.

(** The bytes of the length. *)
Definition length_field (bits : Z) : list Z := U32TO8 (bits / 2 ^ 32) ++ U32TO8 (bits mod 2 ^ 32).

Lemma final_length n r : (r < 64)%nat -> 512 * Z.of_nat n + 8 * Z.of_nat r < 2 ^ 64 ->
  U32TO8 (if u32 (lo n + 8 * Z.of_nat r) <? 8 * Z.of_nat r then u32 (hi n + 1) else hi n) ++ U32TO8 (u32 (lo n + 8 * Z.of_nat r)) =
  length_field (512 * Z.of_nat n + 8 * Z.of_nat r).
Proof.
  intros Hr B. unfold length_field. destruct r as [|r].
  - change (8 * Z.of_nat 0) with 0. rewrite !Z.add_0_r, lo_word. assert (0 <= lo n) by (apply Z.mod_pos_bound; lia).
    rewrite (proj2 (Z.ltb_ge _ _)) by assumption. reflexivity.
  - destruct (counter_add n (8 * Z.of_nat (S r)) ltac:(lia) B) as (E1 & E2 & E3). destruct E3 as [N X]; [lia|].
    rewrite X. rewrite (proj2 (Z.eqb_neq _ _) N) in E2. rewrite E2, E1. reflexivity.
Qed.

Lemma length_field_length bits : length (length_field bits) = 8%nat.
Proof. reflexivity. Qed.

(** The chain value after the end of the message [c] is the rest of. *)
Definition finished (mark : Z) (n : nat) (h c : list Z) : list Z :=
  let bits := 512 * Z.of_nat n + 8 * Z.of_nat (length c) in
  let r := length c in
  if (r =? 55)%nat then BlakeSpec.compress h (c ++ [0x80 + mark] ++ length_field bits) bits
  else if (r =? 0)%nat then BlakeSpec.compress h (0x80 :: repeat 0 54 ++ [mark] ++ length_field bits) 0
  else if (r <? 55)%nat then BlakeSpec.compress h (c ++ (0x80 :: repeat 0 (54 - r)) ++ [mark] ++ length_field bits) bits
  else BlakeSpec.compress (BlakeSpec.compress h (c ++ 0x80 :: repeat 0 (63 - r)) bits) (repeat 0 55 ++ [mark] ++ length_field bits) 0.

Lemma padding_firstn k : (k < 64)%nat -> firstn (S k) padding = 0x80 :: repeat 0 k.
Proof. intros H. unfold padding. cbn [firstn]. f_equal. do 64 (destruct k as [|k]; [reflexivity|]). lia. Qed.

Lemma bytes_of_bits k : 0 <= k -> Z.to_nat (Z.shiftr (8 * k) 3) = Z.to_nat k.
Proof. intros H. rewrite Z.shiftr_div_pow2, Z.mul_comm, Z.div_mul by lia. reflexivity. Qed.

Lemma final_55 st h n c mark pa : rep st h (lo n) (hi n) false c -> length c = 55%nat -> 512 * Z.of_nat n + 440 < 2 ^ 64 -> pa = 0x80 + mark ->
  snd (blake256_final_h st pa mark) = flat_map U32TO8 (firstn 8 (finished mark n h c)).
Proof.
  intros R L B ->. unfold blake256_final_h, finished. rewrite (rp_t0 _ _ _ _ _ _ R), (rp_t1 _ _ _ _ _ _ R), (rp_len _ _ _ _ _ _ R), L.
  change (8 * Z.of_nat 55 =? 440) with true. change (55 =? 55)%nat with true. cbv iota. rewrite (final_length n 55) by (lia || exact B).
  pose proof (rep_sub _ _ _ _ _ _ 64 (update_fits _ _ _ _ _ _ [0x80 + mark] (rep_sub _ _ _ _ _ _ 8 R) ltac:(discriminate) ltac:(rewrite L; cbn; lia))) as R2.
  pose proof (update_full _ _ _ _ _ _ (length_field (512 * Z.of_nat n + 8 * Z.of_nat 55)) R2 ltac:(destruct c; discriminate) ltac:(rewrite length_app, L; reflexivity)) as R3.
  cbv zeta in R3. cbn [snd]. rewrite (rp_h _ _ _ _ _ _ R3), u32_sub. replace (lo n - 8 - 64) with (lo n - 72) by lia.
  rewrite (last_counter n 55) by (lia || exact B). rewrite <- app_assoc. reflexivity.
Qed.

Lemma final_short st h n c mark pa : rep st h (lo n) (hi n) false c -> (length c < 55)%nat -> 512 * Z.of_nat n + 440 < 2 ^ 64 ->
  snd (blake256_final_h st pa mark) = flat_map U32TO8 (firstn 8 (finished mark n h c)).
Proof.
  intros R L B. unfold blake256_final_h, finished. rewrite (rp_t0 _ _ _ _ _ _ R), (rp_t1 _ _ _ _ _ _ R), (rp_len _ _ _ _ _ _ R).
  rewrite (final_length n (length c)) by lia. set (field := length_field _). set (r := length c) in *.
  rewrite (proj2 (Z.eqb_neq (8 * Z.of_nat r) 440)), (proj2 (Z.ltb_lt (8 * Z.of_nat r) 440)), (proj2 (Nat.eqb_neq r 55)), (proj2 (Nat.ltb_lt r 55)) by lia.
  set (st1 := if 8 * Z.of_nat r =? 0 then with_nullt st else st).
  assert (rep st1 h (lo n) (hi n) (8 * Z.of_nat r =? 0) c) as R1 by (unfold st1; destruct (8 * Z.of_nat r =? 0); [apply rep_nullt with (nt := false)|]; exact R).
  rewrite (rp_len _ _ _ _ _ _ R1). fold r. replace (440 - 8 * Z.of_nat r) with (8 * Z.of_nat (S (54 - r))) by lia. rewrite used_bytes, padding_firstn by lia.
  pose proof (update_fits _ _ _ _ _ _ (0x80 :: repeat 0 (54 - r)) (rep_sub _ _ _ _ _ _ (8 * Z.of_nat (S (54 - r))) R1) ltac:(discriminate)
    ltac:(cbn [length]; rewrite repeat_length; fold r; lia)) as R2.
  assert (length (c ++ 0x80 :: repeat 0 (54 - r)) = 55%nat) as L2 by (rewrite length_app; cbn [length]; rewrite repeat_length; fold r; lia).
  pose proof (rep_sub _ _ _ _ _ _ 64 (rep_sub _ _ _ _ _ _ 8 (update_fits _ _ _ _ _ _ [mark] R2 ltac:(discriminate) ltac:(rewrite L2; cbn; lia)))) as R3.
  pose proof (update_full _ _ _ _ _ _ field R3 ltac:(destruct c; discriminate) ltac:(rewrite length_app, L2; reflexivity)) as R4. cbv zeta in R4.
  cbn [snd]. rewrite (rp_h _ _ _ _ _ _ R4), !u32_sub, <- !Z.sub_add_distr, u32_sub. replace (lo n - 8 * Z.of_nat (S (54 - r)) - (8 + 64)) with (lo n - (512 - 8 * Z.of_nat r)) by lia.
  rewrite <- !app_assoc. destruct (Nat.eq_dec r 0) as [E0|N0].
  - rewrite (proj2 (Z.eqb_eq (8 * Z.of_nat r) 0)), (proj2 (Nat.eqb_eq r 0)), compressed_null by lia. rewrite E0.
    assert (c = []) as -> by (destruct c; [reflexivity|cbn in r; lia]). reflexivity.
  - rewrite (proj2 (Z.eqb_neq (8 * Z.of_nat r) 0)), (proj2 (Nat.eqb_neq r 0)) by lia. rewrite (last_counter n r) by lia. reflexivity.
Qed.

Lemma final_long st h n c mark pa : rep st h (lo n) (hi n) false c -> (55 < length c)%nat -> 512 * Z.of_nat n + 8 * Z.of_nat (length c) < 2 ^ 64 ->
  snd (blake256_final_h st pa mark) = flat_map U32TO8 (firstn 8 (finished mark n h c)).
Proof.
  intros R L B. pose proof (rp_size _ _ _ _ _ _ R) as Hs. unfold blake256_final_h, finished. rewrite (rp_t0 _ _ _ _ _ _ R), (rp_t1 _ _ _ _ _ _ R), (rp_len _ _ _ _ _ _ R).
  rewrite (final_length n (length c)) by (lia || exact B). set (field := length_field _). set (r := length c) in *.
  rewrite (proj2 (Z.eqb_neq (8 * Z.of_nat r) 440)), (proj2 (Z.ltb_ge (8 * Z.of_nat r) 440)), (proj2 (Nat.eqb_neq r 55)), (proj2 (Nat.eqb_neq r 0)), (proj2 (Nat.ltb_ge r 55)) by lia.
  replace (512 - 8 * Z.of_nat r) with (8 * Z.of_nat (S (63 - r))) by lia. rewrite used_bytes, padding_firstn by lia.
  pose proof (update_full _ _ _ _ _ _ (0x80 :: repeat 0 (63 - r)) (rep_sub _ _ _ _ _ _ (8 * Z.of_nat (S (63 - r))) R) ltac:(destruct c; [cbn in r; lia|discriminate])
    ltac:(cbn [length]; rewrite repeat_length; fold r; lia)) as R1. cbv zeta in R1.
  rewrite (last_counter n r) in R1 by lia. change (firstn 55 (skipn 1 padding)) with (repeat 0 55).
  pose proof (rep_nullt _ _ _ _ _ _ (update_fits _ _ _ _ _ _ (repeat 0 55) (rep_sub _ _ _ _ _ _ 440 R1) ltac:(discriminate) ltac:(cbn; lia))) as R2.
  pose proof (rep_sub _ _ _ _ _ _ 64 (rep_sub _ _ _ _ _ _ 8 (update_fits _ _ _ _ _ _ [mark] R2 ltac:(discriminate) ltac:(cbn; lia)))) as R3.
  pose proof (update_full _ _ _ _ _ _ field R3 ltac:(discriminate) ltac:(reflexivity)) as R4. cbv zeta in R4.
  cbn [snd]. rewrite (rp_h _ _ _ _ _ _ R4), compressed_null. cbn [app]. rewrite <- app_assoc. reflexivity.
Qed.

Lemma final_spec st h n c mark pa : rep st h (lo n) (hi n) false c -> 512 * Z.of_nat n + 512 <= 2 ^ 64 -> pa = 0x80 + mark ->
  snd (blake256_final_h st pa mark) = flat_map U32TO8 (firstn 8 (finished mark n h c)).
Proof.
  intros R B Ep. pose proof (rp_size _ _ _ _ _ _ R). destruct (Nat.lt_trichotomy (length c) 55) as [H1|[H1|H1]];
    [apply final_short with (1 := R); lia|apply final_55 with (1 := R); (assumption || lia)|apply final_long with (1 := R); lia].
Qed.

(** ** The whole hash *)

#[local] Opaque BlakeSpec.compress.

Lemma over_blocks_ext f g blocks : forall h i data, (forall j h b, (i <= j < i + blocks)%nat -> f h j b = g h j b) ->
  BlakeSpec.over_blocks f h i blocks data = BlakeSpec.over_blocks g h i blocks data.
Proof.
  induction blocks as [|blocks IH]; intros h i data E; cbn [BlakeSpec.over_blocks]; [reflexivity|]. rewrite (E i) by lia. apply IH. intros j h' b Hj. apply E. lia.
Qed.

Lemma over_blocks_app f m n : forall h i a b, (64 * n <= length a)%nat ->
  BlakeSpec.over_blocks f h i (n + m) (a ++ b) = BlakeSpec.over_blocks f (BlakeSpec.over_blocks f h i n a) (i + n) m (skipn (64 * n) a ++ b).
Proof.
  induction n as [|n IH]; intros h i a b L; [rewrite Nat.add_0_r; reflexivity|]. cbn [Nat.add BlakeSpec.over_blocks].
  rewrite firstn_app, skipn_app. replace (64 - length a)%nat with 0%nat by lia. rewrite firstn_O, skipn_O, app_nil_r.
  rewrite IH by (rewrite length_skipn; lia). rewrite skipn_skipn.
  replace (64 * n + 64)%nat with (64 * S n)%nat by lia. replace (i + 1 + n)%nat with (i + S n)%nat by lia. reflexivity.
Qed.

Lemma hash_of_parts iv mark msg : 8 * Z.of_nat (length msg) < 2 ^ 64 ->
  let n := (length msg / 64)%nat in
  BlakeSpec.hash iv mark msg = flat_map U32TO8 (firstn 8 (finished mark n (BlakeSpec.over_blocks full_block iv 0 n msg) (skipn (64 * n) msg))).
Proof.
  intros B n. pose proof (Nat.div_mod (length msg) 64 ltac:(lia)) as D. pose proof (Nat.mod_upper_bound (length msg) 64 ltac:(lia)) as U. fold n in D.
  set (r := (length msg mod 64)%nat) in *. assert (length (skipn (64 * n) msg) = r) as Lr by (rewrite length_skipn; lia).
  unfold BlakeSpec.hash. apply (f_equal (fun h => flat_map U32TO8 (firstn 8 h))). unfold BlakeSpec.iterate.
  assert (forall m, BlakeSpec.over_blocks (fun h i block => BlakeSpec.compress h block (BlakeSpec.counter (length msg) i)) iv 0 (n + m) (msg ++ BlakeSpec.pad mark (length msg)) =
    BlakeSpec.over_blocks (fun h i block => BlakeSpec.compress h block (BlakeSpec.counter (length msg) i)) (BlakeSpec.over_blocks full_block iv 0 n msg) n m
      (skipn (64 * n) msg ++ BlakeSpec.pad mark (length msg))) as A.
  { intros m. rewrite over_blocks_app, (over_blocks_ext _ full_block n) by (lia || (intros j h b Hj; unfold full_block, BlakeSpec.counter;
      rewrite (proj2 (Nat.ltb_lt _ _)), Nat.min_r by lia; replace (8 * Z.of_nat (64 * (j + 1))) with (512 * Z.of_nat (j + 1)) by lia; reflexivity)). reflexivity. }
  assert (BlakeSpec.counter (length msg) n = if (r =? 0)%nat then 0 else 512 * Z.of_nat n + 8 * Z.of_nat r) as C.
  { unfold BlakeSpec.counter. destruct (Nat.eqb_spec r 0) as [E|E]; [rewrite (proj2 (Nat.ltb_ge _ _)) by lia; reflexivity|].
    rewrite (proj2 (Nat.ltb_lt _ _)), Nat.min_l by lia. lia. }
  assert (BlakeSpec.counter (length msg) (n + 1) = 0) as C' by (unfold BlakeSpec.counter; rewrite (proj2 (Nat.ltb_ge _ _)) by lia; reflexivity).
  assert (8 * Z.of_nat (length msg) = 512 * Z.of_nat n + 8 * Z.of_nat r) as Eb by lia.
  set (h := BlakeSpec.over_blocks full_block iv 0 n msg) in *. set (c := skipn (64 * n) msg) in *.
  unfold finished. rewrite Lr, length_app. unfold BlakeSpec.pad in *. fold r in A |- *. rewrite Eb in *.
  change (U32TO8 ((512 * Z.of_nat n + 8 * Z.of_nat r) / 2 ^ 32) ++ U32TO8 ((512 * Z.of_nat n + 8 * Z.of_nat r) mod 2 ^ 32)) with (length_field (512 * Z.of_nat n + 8 * Z.of_nat r)) in *.
  set (field := length_field _) in *. assert (length field = 8%nat) as Lf by reflexivity.
  set (body := if (r =? 55)%nat then _ else _) in *.
  assert (length body = if (r <=? 55)%nat then 56 - r else 120 - r)%nat as Lbody.
  { unfold body. destruct (Nat.eqb_spec r 55) as [-> |N]; [reflexivity|]. cbn [length]. rewrite length_app, repeat_length. cbn [length].
    destruct (Nat.leb_spec r 55); destruct (Nat.ltb_spec r 55); lia. }
  rewrite length_app, Lbody, Lf. destruct (Nat.leb_spec r 55) as [H|H].
  - replace (length msg + (56 - r + 8))%nat with ((n + 1) * 64)%nat by lia. rewrite Nat.div_mul, A by lia. cbn [BlakeSpec.over_blocks]. rewrite C.
    rewrite firstn_all2 by (rewrite !length_app, Lr, Lbody, Lf; lia). unfold body.
    destruct (Nat.eqb_spec r 55) as [E|N]; [rewrite E; reflexivity|]. rewrite (proj2 (Nat.ltb_lt r 55)) by lia.
    destruct (Nat.eqb_spec r 0) as [E|N0]; [rewrite E, (proj1 (length_zero_iff_nil c)) by lia; reflexivity|].
    cbn [app]. rewrite <- app_assoc. reflexivity.
  - replace (length msg + (120 - r + 8))%nat with ((n + 2) * 64)%nat by lia. rewrite Nat.div_mul, A by lia. cbn [BlakeSpec.over_blocks]. rewrite C, C'.
    unfold body in *. rewrite (proj2 (Nat.eqb_neq r 55)), (proj2 (Nat.eqb_neq r 0)), (proj2 (Nat.ltb_ge r 55)) in * by lia.
    replace (118 - r)%nat with ((63 - r) + 55)%nat by lia. rewrite repeat_app.
    replace (c ++ ((0x80 :: (repeat 0 (63 - r) ++ repeat 0 55) ++ [mark]) ++ field)) with ((c ++ 0x80 :: repeat 0 (63 - r)) ++ (repeat 0 55 ++ [mark] ++ field))
      by (rewrite <- !app_assoc; cbn [app]; rewrite <- !app_assoc; reflexivity).
    assert (length (c ++ 0x80 :: repeat 0 (63 - r)) = 64%nat) as L64 by (rewrite length_app, Lr; cbn [length]; rewrite repeat_length; lia).
    rewrite firstn_app, skipn_app, L64, Nat.sub_diag, firstn_O, skipn_O, app_nil_r, (firstn_all2 (c ++ _)), (skipn_all2 (c ++ _)) by lia. reflexivity.
Qed.

(** [blake256_final] after one call of [blake256_update] on a fresh state *)
Lemma hash_spec iv mark pa buf msg : length buf = 64%nat -> 8 * Z.of_nat (length msg) < 2 ^ 64 -> pa = 0x80 + mark ->
  snd (blake256_final_h (blake256_update (mk_state iv [0; 0; 0; 0] 0 0 0 false buf) msg) pa mark) = BlakeSpec.hash iv mark msg.
Proof.
  intros Lb B Ep. rewrite hash_of_parts by exact B. apply final_spec; [apply first_update; assumption| |exact Ep].
  pose proof (Nat.div_mod (length msg) 64 ltac:(lia)). assert (Z.of_nat (length msg / 64) < 2 ^ 55) by lia. lia.
Qed.
