(* ===== verification/Groestl.v ===== *)
(** * Groestl-256 (groestl.c, groestl_tables.h, hash-extra-groestl.c)

    The two permutations with tables on words, the compression function, buffering and
    padding, and the output transformation.  A matrix of 8 by 8 bytes is kept column by
    column in 16 words of 32 bits, of which the code also takes single bytes: memory is
    little-endian.  Module [GroestlSpec] pads a message and compresses block after block;
    the code does the same, whatever its buffer contains before. *)

From Stdlib Require Import ZArith Lia List Bool.
Import ListNotations.
From S2P Require Import Prelude Bytes Keccak IntUtil.
Set Default Goal Selector "!".

Definition ROWS : nat := 8.
Definition LENGTHFIELDLEN : nat := ROWS.
Definition COLS512 : nat := 8.
Definition SIZE512 : nat := ROWS * COLS512.
Definition HASH_BIT_LEN : Z := 256.

Definition T : list Z := [
  0xa5f432c6; 0xc6a597f4; 0x84976ff8; 0xf884eb97; 0x99b05eee; 0xee99c7b0; 0x8d8c7af6; 0xf68df78c;
  0xd17e8ff; 0xff0de517; 0xbddc0ad6; 0xd6bdb7dc; 0xb1c816de; 0xdeb1a7c8; 0x54fc6d91; 0x915439fc;
  0x50f09060; 0x6050c0f0; 0x3050702; 0x2030405; 0xa9e02ece; 0xcea987e0; 0x7d87d156; 0x567dac87;
  0x192bcce7; 0xe719d52b; 0x62a613b5; 0xb56271a6; 0xe6317c4d; 0x4de69a31; 0x9ab559ec; 0xec9ac3b5;
  0x45cf408f; 0x8f4505cf; 0x9dbca31f; 0x1f9d3ebc; 0x40c04989; 0x894009c0; 0x879268fa; 0xfa87ef92;
  0x153fd0ef; 0xef15c53f; 0xeb2694b2; 0xb2eb7f26; 0xc940ce8e; 0x8ec90740; 0xb1de6fb; 0xfb0bed1d;
  0xec2f6e41; 0x41ec822f; 0x67a91ab3; 0xb3677da9; 0xfd1c435f; 0x5ffdbe1c; 0xea256045; 0x45ea8a25;
  0xbfdaf923; 0x23bf46da; 0xf7025153; 0x53f7a602; 0x96a145e4; 0xe496d3a1; 0x5bed769b; 0x9b5b2ded;
  0xc25d2875; 0x75c2ea5d; 0x1c24c5e1; 0xe11cd924; 0xaee9d43d; 0x3dae7ae9; 0x6abef24c; 0x4c6a98be;
  0x5aee826c; 0x6c5ad8ee; 0x41c3bd7e; 0x7e41fcc3; 0x206f3f5; 0xf502f106; 0x4fd15283; 0x834f1dd1;
  0x5ce48c68; 0x685cd0e4; 0xf4075651; 0x51f4a207; 0x345c8dd1; 0xd134b95c; 0x818e1f9; 0xf908e918;
  0x93ae4ce2; 0xe293dfae; 0x73953eab; 0xab734d95; 0x53f59762; 0x6253c4f5; 0x3f416b2a; 0x2a3f5441;
  0xc141c08; 0x80c1014; 0x52f66395; 0x955231f6; 0x65afe946; 0x46658caf; 0x5ee27f9d; 0x9d5e21e2;
  0x28784830; 0x30286078; 0xa1f8cf37; 0x37a16ef8; 0xf111b0a; 0xa0f1411; 0xb5c4eb2f; 0x2fb55ec4;
  0x91b150e; 0xe091c1b; 0x365a7e24; 0x2436485a; 0x9bb6ad1b; 0x1b9b36b6; 0x3d4798df; 0xdf3da547;
  0x266aa7cd; 0xcd26816a; 0x69bbf54e; 0x4e699cbb; 0xcd4c337f; 0x7fcdfe4c; 0x9fba50ea; 0xea9fcfba;
  0x1b2d3f12; 0x121b242d; 0x9eb9a41d; 0x1d9e3ab9; 0x749cc458; 0x5874b09c; 0x2e724634; 0x342e6872;
  0x2d774136; 0x362d6c77; 0xb2cd11dc; 0xdcb2a3cd; 0xee299db4; 0xb4ee7329; 0xfb164d5b; 0x5bfbb616;
  0xf601a5a4; 0xa4f65301; 0x4dd7a176; 0x764decd7; 0x61a314b7; 0xb76175a3; 0xce49347d; 0x7dcefa49;
  0x7b8ddf52; 0x527ba48d; 0x3e429fdd; 0xdd3ea142; 0x7193cd5e; 0x5e71bc93; 0x97a2b113; 0x139726a2;
  0xf504a2a6; 0xa6f55704; 0x68b801b9; 0xb96869b8; 0x0; 0x0; 0x2c74b5c1; 0xc12c9974;
  0x60a0e040; 0x406080a0; 0x1f21c2e3; 0xe31fdd21; 0xc8433a79; 0x79c8f243; 0xed2c9ab6; 0xb6ed772c;
  0xbed90dd4; 0xd4beb3d9; 0x46ca478d; 0x8d4601ca; 0xd9701767; 0x67d9ce70; 0x4bddaf72; 0x724be4dd;
  0xde79ed94; 0x94de3379; 0xd467ff98; 0x98d42b67; 0xe82393b0; 0xb0e87b23; 0x4ade5b85; 0x854a11de;
  0x6bbd06bb; 0xbb6b6dbd; 0x2a7ebbc5; 0xc52a917e; 0xe5347b4f; 0x4fe59e34; 0x163ad7ed; 0xed16c13a;
  0xc554d286; 0x86c51754; 0xd762f89a; 0x9ad72f62; 0x55ff9966; 0x6655ccff; 0x94a7b611; 0x119422a7;
  0xcf4ac08a; 0x8acf0f4a; 0x1030d9e9; 0xe910c930; 0x60a0e04; 0x406080a; 0x819866fe; 0xfe81e798;
  0xf00baba0; 0xa0f05b0b; 0x44ccb478; 0x7844f0cc; 0xbad5f025; 0x25ba4ad5; 0xe33e754b; 0x4be3963e;
  0xf30eaca2; 0xa2f35f0e; 0xfe19445d; 0x5dfeba19; 0xc05bdb80; 0x80c01b5b; 0x8a858005; 0x58a0a85;
  0xadecd33f; 0x3fad7eec; 0xbcdffe21; 0x21bc42df; 0x48d8a870; 0x7048e0d8; 0x40cfdf1; 0xf104f90c;
  0xdf7a1963; 0x63dfc67a; 0xc1582f77; 0x77c1ee58; 0x759f30af; 0xaf75459f; 0x63a5e742; 0x426384a5;
  0x30507020; 0x20304050; 0x1a2ecbe5; 0xe51ad12e; 0xe12effd; 0xfd0ee112; 0x6db708bf; 0xbf6d65b7;
  0x4cd45581; 0x814c19d4; 0x143c2418; 0x1814303c; 0x355f7926; 0x26354c5f; 0x2f71b2c3; 0xc32f9d71;
  0xe13886be; 0xbee16738; 0xa2fdc835; 0x35a26afd; 0xcc4fc788; 0x88cc0b4f; 0x394b652e; 0x2e395c4b;
  0x57f96a93; 0x93573df9; 0xf20d5855; 0x55f2aa0d; 0x829d61fc; 0xfc82e39d; 0x47c9b37a; 0x7a47f4c9;
  0xacef27c8; 0xc8ac8bef; 0xe73288ba; 0xbae76f32; 0x2b7d4f32; 0x322b647d; 0x95a442e6; 0xe695d7a4;
  0xa0fb3bc0; 0xc0a09bfb; 0x98b3aa19; 0x199832b3; 0xd168f69e; 0x9ed12768; 0x7f8122a3; 0xa37f5d81;
  0x66aaee44; 0x446688aa; 0x7e82d654; 0x547ea882; 0xabe6dd3b; 0x3bab76e6; 0x839e950b; 0xb83169e;
  0xca45c98c; 0x8cca0345; 0x297bbcc7; 0xc729957b; 0xd36e056b; 0x6bd3d66e; 0x3c446c28; 0x283c5044;
  0x798b2ca7; 0xa779558b; 0xe23d81bc; 0xbce2633d; 0x1d273116; 0x161d2c27; 0x769a37ad; 0xad76419a;
  0x3b4d96db; 0xdb3bad4d; 0x56fa9e64; 0x6456c8fa; 0x4ed2a674; 0x744ee8d2; 0x1e223614; 0x141e2822;
  0xdb76e492; 0x92db3f76; 0xa1e120c; 0xc0a181e; 0x6cb4fc48; 0x486c90b4; 0xe4378fb8; 0xb8e46b37;
  0x5de7789f; 0x9f5d25e7; 0x6eb20fbd; 0xbd6e61b2; 0xef2a6943; 0x43ef862a; 0xa6f135c4; 0xc4a693f1;
  0xa8e3da39; 0x39a872e3; 0xa4f7c631; 0x31a462f7; 0x37598ad3; 0xd337bd59; 0x8b8674f2; 0xf28bff86;
  0x325683d5; 0xd532b156; 0x43c54e8b; 0x8b430dc5; 0x59eb856e; 0x6e59dceb; 0xb7c218da; 0xdab7afc2;
  0x8c8f8e01; 0x18c028f; 0x64ac1db1; 0xb16479ac; 0xd26df19c; 0x9cd2236d; 0xe03b7249; 0x49e0923b;
  0xb4c71fd8; 0xd8b4abc7; 0xfa15b9ac; 0xacfa4315; 0x709faf3; 0xf307fd09; 0x256fa0cf; 0xcf25856f;
  0xafea20ca; 0xcaaf8fea; 0x8e897df4; 0xf48ef389; 0xe9206747; 0x47e98e20; 0x18283810; 0x10182028;
  0xd5640b6f; 0x6fd5de64; 0x888373f0; 0xf088fb83; 0x6fb1fb4a; 0x4a6f94b1; 0x7296ca5c; 0x5c72b896;
  0x246c5438; 0x3824706c; 0xf1085f57; 0x57f1ae08; 0xc7522173; 0x73c7e652; 0x51f36497; 0x975135f3;
  0x2365aecb; 0xcb238d65; 0x7c8425a1; 0xa17c5984; 0x9cbf57e8; 0xe89ccbbf; 0x21635d3e; 0x3e217c63;
  0xdd7cea96; 0x96dd377c; 0xdc7f1e61; 0x61dcc27f; 0x86919c0d; 0xd861a91; 0x85949b0f; 0xf851e94;
  0x90ab4be0; 0xe090dbab; 0x42c6ba7c; 0x7c42f8c6; 0xc4572671; 0x71c4e257; 0xaae529cc; 0xccaa83e5;
  0xd873e390; 0x90d83b73; 0x50f0906; 0x6050c0f; 0x103f4f7; 0xf701f503; 0x12362a1c; 0x1c123836;
  0xa3fe3cc2; 0xc2a39ffe; 0x5fe18b6a; 0x6a5fd4e1; 0xf910beae; 0xaef94710; 0xd06b0269; 0x69d0d26b;
  0x91a8bf17; 0x17912ea8; 0x58e87199; 0x995829e8; 0x2769533a; 0x3a277469; 0xb9d0f727; 0x27b94ed0;
  0x384891d9; 0xd938a948; 0x1335deeb; 0xeb13cd35; 0xb3cee52b; 0x2bb356ce; 0x33557722; 0x22334455;
  0xbbd604d2; 0xd2bbbfd6; 0x709039a9; 0xa9704990; 0x89808707; 0x7890e80; 0xa7f2c133; 0x33a766f2;
  0xb6c1ec2d; 0x2db65ac1; 0x22665a3c; 0x3c227866; 0x92adb815; 0x15922aad; 0x2060a9c9; 0xc9208960;
  0x49db5c87; 0x874915db; 0xff1ab0aa; 0xaaff4f1a; 0x7888d850; 0x5078a088; 0x7a8e2ba5; 0xa57a518e;
  0x8f8a8903; 0x38f068a; 0xf8134a59; 0x59f8b213; 0x809b9209; 0x980129b; 0x1739231a; 0x1a173439;
  0xda751065; 0x65daca75; 0x315384d7; 0xd731b553; 0xc651d584; 0x84c61351; 0xb8d303d0; 0xd0b8bbd3;
  0xc35edc82; 0x82c31f5e; 0xb0cbe229; 0x29b052cb; 0x7799c35a; 0x5a77b499; 0x11332d1e; 0x1e113c33;
  0xcb463d7b; 0x7bcbf646; 0xfc1fb7a8; 0xa8fc4b1f; 0xd6610c6d; 0x6dd6da61; 0x3a4e622c; 0x2c3a584e].

(** ** One round *)

(** [T[2 * x]] and [T[2 * x + 1]]: a column of eight bytes. *)
Definition column_of (x : Z) : Z * Z := (nth (Z.to_nat (2 * x)) T 0, nth (Z.to_nat (2 * x + 1)) T 0).

Definition ROTATE_COLUMN_DOWN (v : Z * Z) (amount_bytes : Z) : Z * Z :=
  let '(v1, v2) := v in
  (Z.lor (u32 (Z.shiftl v1 (8 * amount_bytes))) (Z.shiftr v2 (8 * (4 - amount_bytes))),
   Z.lor (u32 (Z.shiftl v2 (8 * amount_bytes))) (Z.shiftr v1 (8 * (4 - amount_bytes)))).

Definition xor_column (u v : Z * Z) : Z * Z := (Z.lxor (fst u) (fst v), Z.lxor (snd u) (snd v)).
(** [tl ^= tv1; tu ^= tv2]: the halves change places. *)
Definition xor_swapped (u v : Z * Z) : Z * Z := (Z.lxor (fst u) (snd v), Z.lxor (snd u) (fst v)).

(** [COLUMN(x, y, i, c0, ..., c7)]: the words [y[i]] and [y[i + 1]]. *)
Definition COLUMN (x : list Z) (c : list nat) : Z * Z :=
  let byte_at k j := nth (4 * nth k c 0%nat + j) x 0 in
  let t := column_of (byte_at 0 0)%nat in
  let t := xor_column t (ROTATE_COLUMN_DOWN (column_of (byte_at 1 1)%nat) 1) in
  let t := xor_column t (ROTATE_COLUMN_DOWN (column_of (byte_at 2 2)%nat) 2) in
  let t := xor_column t (ROTATE_COLUMN_DOWN (column_of (byte_at 3 3)%nat) 3) in
  let t := xor_swapped t (column_of (byte_at 4 0)%nat) in
  let t := xor_swapped t (ROTATE_COLUMN_DOWN (column_of (byte_at 5 1)%nat) 1) in
  let t := xor_swapped t (ROTATE_COLUMN_DOWN (column_of (byte_at 6 2)%nat) 2) in
  xor_swapped t (ROTATE_COLUMN_DOWN (column_of (byte_at 7 3)%nat) 3).

(** The columns that are taken for [y[i]], [y[i + 1]]. *)
Definition columns_P : list (nat * list nat) := [(0, [0; 2; 4; 6; 9; 11; 13; 15]); (2, [2; 4; 6; 8; 11; 13; 15; 1]); (4, [4; 6; 8; 10; 13; 15; 1; 3]); (6, [6; 8; 10; 12; 15; 1; 3; 5]); (8, [8; 10; 12; 14; 1; 3; 5; 7]); (10, [10; 12; 14; 0; 3; 5; 7; 9]); (12, [12; 14; 0; 2; 5; 7; 9; 11]); (14, [14; 0; 2; 4; 7; 9; 11; 13])]%nat.
Definition columns_Q : list (nat * list nat) := [(0, [2; 6; 10; 14; 1; 5; 9; 13]); (2, [4; 8; 12; 0; 3; 7; 11; 15]); (4, [6; 10; 14; 2; 5; 9; 13; 1]); (6, [8; 12; 0; 4; 7; 11; 15; 3]); (8, [10; 14; 2; 6; 9; 13; 1; 5]); (10, [12; 0; 4; 8; 11; 15; 3; 7]); (12, [14; 2; 6; 10; 13; 1; 5; 9]); (14, [0; 4; 8; 12; 15; 3; 7; 11])]%nat.

Definition all_columns (x32 : list Z) (cols : list (nat * list nat)) : list Z :=
  let x := bytes32 x32 in
  flat_map (fun '(_, c) => let '(tu, tl) := COLUMN x c in [tu; tl]) cols.

Definition not32 (x : Z) : Z := u32 (Z.lnot x).

(** [x32[2 * i] ^= (i << 4) ^ r] *)
Definition RND512P (x32 : list Z) (r : Z) : list Z :=
  all_columns (map (fun i => if Nat.even i then Z.lxor (nth i x32 0) (Z.lxor (8 * Z.of_nat i) r) else nth i x32 0) (seq 0 16)) columns_P.

(** [x32[2 * i] = ~x32[2 * i]; x32[2 * i + 1] ^= (0xffffffff - (i << 28)) ^ r] *)
Definition RND512Q (x32 : list Z) (r : Z) : list Z :=
  all_columns (map (fun i => if Nat.even i then not32 (nth i x32 0)
    else Z.lxor (nth i x32 0) (Z.lxor (0xffffffff - Z.shiftl (Z.of_nat (i / 2)) 28) r)) (seq 0 16)) columns_Q.

(** ** The compression function *)

Definition P512 (x : list Z) : list Z := fold_left (fun x r => RND512P x (Z.of_nat r)) (seq 0 10) x.
Definition Q512 (x : list Z) : list Z := fold_left (fun x r => RND512Q x (Z.shiftl (Z.of_nat r) 24)) (seq 0 10) x.

Definition F512 (h m : list Z) : list Z :=
  let Qtmp := Q512 m in
  let Ptmp := P512 (xor_list h m) in
  xor_list h (xor_list Ptmp Qtmp).

(** ** Messages *)

Record hashState := mk_state { chaining : list Z; block_counter1 : Z; block_counter2 : Z; buffer : list Z; buf_ptr : nat; bits_in_last_byte : Z }.

Definition next_counter (ctx : hashState) : hashState :=
  let c1 := u32 (block_counter1 ctx + 1) in
  mk_state (chaining ctx) c1 (if c1 =? 0 then u32 (block_counter2 ctx + 1) else block_counter2 ctx) (buffer ctx) (buf_ptr ctx) (bits_in_last_byte ctx).

(** All whole blocks of the input; [fuel] bounds their number. *)
Fixpoint Transform (fuel : nat) (ctx : hashState) (input : list Z) : hashState :=
  match fuel with
  | O => ctx
  | S fuel =>
      if (SIZE512 <=? length input)%nat then
        let ctx := mk_state (F512 (chaining ctx) (words32 16 input)) (block_counter1 ctx) (block_counter2 ctx) (buffer ctx) (buf_ptr ctx) (bits_in_last_byte ctx) in
        Transform fuel (next_counter ctx) (skipn SIZE512 input)
      else ctx
  end.

Definition OutputTransformation (ctx : hashState) : hashState :=
  mk_state (xor_list (chaining ctx) (P512 (chaining ctx))) (block_counter1 ctx) (block_counter2 ctx) (buffer ctx) (buf_ptr ctx) (bits_in_last_byte ctx).

Definition ROTL32 (v n : Z) : Z := Z.land (Z.lor (u32 (Z.shiftl v n)) (Z.shiftr v (32 - n))) 0xffffffff.
Definition u32BIG (a : Z) : Z := Z.lor (Z.land (ROTL32 a 8) 0x00FF00FF) (Z.land (ROTL32 a 24) 0xFF00FF00).

(** [buffer] has unknown contents at the start. *)
Definition Init (buf : list Z) : hashState := mk_state (repeat 0 15 ++ [u32BIG HASH_BIT_LEN]) 0 0 buf 0 0.

(** [ctx->buffer[ctx->buf_ptr++] = b] *)
Definition put_byte (ctx : hashState) (b : Z) : hashState :=
  mk_state (chaining ctx) (block_counter1 ctx) (block_counter2 ctx) (set_nth (buf_ptr ctx) b (buffer ctx)) (buf_ptr ctx + 1) (bits_in_last_byte ctx).
Definition with_ptr (n : nat) (ctx : hashState) : hashState :=
  mk_state (chaining ctx) (block_counter1 ctx) (block_counter2 ctx) (buffer ctx) n (bits_in_last_byte ctx).
Definition with_bits (rem : Z) (ctx : hashState) : hashState :=
  mk_state (chaining ctx) (block_counter1 ctx) (block_counter2 ctx) (buffer ctx) (buf_ptr ctx) rem.

(** [input] are the whole bytes and, when [rem] is not 0, one more byte with the last [rem] bits. *)
Definition put_rem (ctx : hashState) (rem : Z) (last : Z) : hashState := if rem =? 0 then ctx else put_byte (with_bits rem ctx) last.

(** [msglen] is an [int]: a negative one is as good as 0. *)
Definition Update (ctx : hashState) (input : list Z) (databitlen : Z) : hashState :=
  let msglen := Z.to_nat (wrap I32 (databitlen / 8)) in
  let rem := databitlen mod 8 in
  let last := nth msglen input 0 in
  let input := firstn msglen input in
  let bulk ctx input :=
    let ctx := Transform (length input) ctx input in
    let rest := skipn (length input / SIZE512 * SIZE512) input in
    put_rem (fold_left put_byte rest ctx) rem last in
  if (buf_ptr ctx =? 0)%nat then bulk ctx input
  else
    let n := (SIZE512 - buf_ptr ctx)%nat in
    let ctx := fold_left put_byte (firstn n input) ctx in
    if (buf_ptr ctx <? SIZE512)%nat then put_rem ctx rem last
    else
      let ctx := with_ptr 0 ctx in
      bulk (Transform 1 ctx (buffer ctx)) (skipn n input).

(** [while (buf_ptr < n) buffer[buf_ptr++] = 0] *)
Definition fill_zeros (n : nat) (ctx : hashState) : hashState := fold_left put_byte (repeat 0 (n - buf_ptr ctx)) ctx.

Definition Final (ctx : hashState) : list Z :=
  let ctx :=
    let BILB := bits_in_last_byte ctx in
    if BILB =? 0 then put_byte ctx 0x80
    else
      let i := (buf_ptr ctx - 1)%nat in
      let b := Z.land (nth i (buffer ctx) 0) (Z.shiftl (Z.shiftl 1 BILB - 1) (8 - BILB)) in
      let b := Z.lxor b (Z.shiftl 1 (7 - BILB)) in
      mk_state (chaining ctx) (block_counter1 ctx) (block_counter2 ctx) (set_nth i b (buffer ctx)) (buf_ptr ctx) 0 in
  let ctx :=
    if (SIZE512 - LENGTHFIELDLEN <? buf_ptr ctx)%nat then
      let ctx := fill_zeros SIZE512 ctx in
      with_ptr 0 (Transform 1 ctx (buffer ctx))
    else ctx in
  let ctx := next_counter (fill_zeros (SIZE512 - LENGTHFIELDLEN) ctx) in
  (* the two counters, most significant byte first *)
  let field := rev (le_bytes 4 (block_counter1 ctx) ++ le_bytes 4 (block_counter2 ctx)) in
  let ctx := mk_state (chaining ctx) 0 0 (firstn (SIZE512 - LENGTHFIELDLEN) (buffer ctx) ++ field) (SIZE512 - LENGTHFIELDLEN) (bits_in_last_byte ctx) in
  let ctx := OutputTransformation (Transform 1 ctx (buffer ctx)) in
  skipn (SIZE512 - Z.to_nat (HASH_BIT_LEN / 8)) (bytes32 (chaining ctx)).

Definition groestl (buf data : list Z) (databitlen : Z) : list Z := Final (Update (Init buf) data databitlen).

Definition hash_extra_groestl (buf data : list Z) : list Z := groestl buf data (8 * Z.of_nat (length data)).

(** ** The standard's view of messages

    A message is padded with a one bit, zeros and the number of blocks; the blocks are
    compressed one after the other. *)

Module GroestlSpec.

Definition pad (len : nat) : list Z :=
  let r := (len mod 64)%nat in
  let zeros := (if r <=? 55 then 55 - r else 119 - r)%nat in
  let blocks := Z.of_nat ((len + 1 + zeros + 8) / 64) in
  0x80 :: repeat 0 zeros ++ rev (le_bytes 8 blocks).

Definition compress (h block : list Z) : list Z := F512 h (words32 16 block).

Definition chained (h : list Z) (blocks : list (list Z)) : list Z := fold_left compress blocks h.

Definition hash (msg : list Z) : list Z :=
  let padded := msg ++ pad (length msg) in
  let h := chained (repeat 0 15 ++ [u32BIG HASH_BIT_LEN]) (chunks (length padded / 64) 64 padded) in
  skipn 32 (bytes32 (xor_list h (P512 h))).

End GroestlSpec.

#[local] Opaque F512 P512.

(** ** Buffering *)

(** The two words of the number of blocks. *)
Definition low (k : nat) : Z := Z.of_nat k mod 2 ^ 32.
Definition high (k : nat) : Z := Z.of_nat k / 2 ^ 32.

Lemma groestl_counter_next h k buf p bits : Z.of_nat (k + 1) < 2 ^ 64 ->
  next_counter (mk_state h (low k) (high k) buf p bits) = mk_state h (low (k + 1)) (high (k + 1)) buf p bits.
Proof.
  intros B. unfold next_counter, low, high. cbn [chaining block_counter1 block_counter2 buffer buf_ptr bits_in_last_byte].
  replace (Z.of_nat (k + 1)) with (Z.of_nat k + 1) in * by lia. set (a := Z.of_nat k) in *. assert (0 <= a) by (unfold a; lia). clearbody a.
  pose proof (Z.div_mod a (2 ^ 32) ltac:(lia)) as E. pose proof (Z.mod_pos_bound a (2 ^ 32) ltac:(lia)) as R.
  assert (0 <= a / 2 ^ 32 < 2 ^ 32) as Q by (split; [apply Z.div_pos; lia|apply Z.div_lt_upper_bound; lia]).
  destruct (Z.eq_dec (a mod 2 ^ 32) (2 ^ 32 - 1)) as [X|X].
  - replace (a + 1) with ((a / 2 ^ 32 + 1) * 2 ^ 32) by lia. rewrite Z.div_mul, Z.mod_mul, X by lia.
    change (u32 (2 ^ 32 - 1 + 1)) with 0. rewrite Z.eqb_refl, u32_small by lia. reflexivity.
  - rewrite u32_small, (proj2 (Z.eqb_neq _ _)) by lia. f_equal; [apply Z.mod_unique with (q := a / 2 ^ 32)|apply Z.div_unique with (r := a mod 2 ^ 32 + 1)]; lia.
Qed.

(** [h] after [k] blocks, and the bytes [c] of the next one *)
Definition rep (st : hashState) (h : list Z) (k : nat) (c : list Z) : Prop :=
  exists buf, st = mk_state h (low k) (high k) buf (length c) 0 /\ holds 64 c buf.

Lemma groestl_rep_put l : forall st h k c, rep st h k c -> (length c + length l <= 64)%nat -> rep (fold_left put_byte l st) h k (c ++ l).
Proof.
  induction l as [|b l IH]; intros st h k c R L; cbn [fold_left length] in *; [rewrite app_nil_r; exact R|].
  destruct R as (buf & -> & H). replace (c ++ b :: l) with ((c ++ [b]) ++ l) by (rewrite <- app_assoc; reflexivity). apply IH; [|rewrite length_app; cbn; lia].
  eexists. split; [|apply holds_set; [exact H|lia]]. unfold put_byte. cbn. rewrite length_app. reflexivity.
Qed.

Lemma groestl_rep_zeros st h k c n : rep st h k c -> (length c <= n <= 64)%nat -> rep (fill_zeros n st) h k (c ++ repeat 0 (n - length c)).
Proof.
  intros R L. unfold fill_zeros. assert (buf_ptr st = length c) as -> by (destruct R as (buf & -> & _); reflexivity).
  apply groestl_rep_put; [exact R|rewrite repeat_length; lia].
Qed.

Lemma Transform_spec fuel : forall input h k buf p bits, (length input / 64 <= fuel)%nat -> Z.of_nat (k + length input / 64) < 2 ^ 64 ->
  Transform fuel (mk_state h (low k) (high k) buf p bits) input =
  mk_state (GroestlSpec.chained h (chunks (length input / 64) 64 input)) (low (k + length input / 64)) (high (k + length input / 64)) buf p bits.
Proof.
  unfold GroestlSpec.chained. induction fuel as [|fuel IH]; intros input h k buf p bits L B.
  - replace (length input / 64)%nat with 0%nat by lia. cbn [Transform chunks fold_left]. rewrite Nat.add_0_r. reflexivity.
  - cbn [Transform]. unfold SIZE512, ROWS, COLS512. change (8 * 8)%nat with 64%nat. destruct (Nat.leb_spec 64 (length input)) as [G|G].
    + assert (length input / 64 = S (length (skipn 64 input) / 64))%nat as E.
      { rewrite length_skipn. replace (length input) with (length input - 64 + 1 * 64)%nat at 1 by lia. rewrite Nat.div_add by lia. lia. }
      rewrite E in *. cbn [chaining block_counter1 block_counter2 buffer buf_ptr bits_in_last_byte chunks fold_left].
      rewrite groestl_counter_next, IH by lia. rewrite <- (words32_firstn 16 input).
      replace (k + 1 + length (skipn 64 input) / 64)%nat with (k + S (length (skipn 64 input) / 64))%nat by lia. reflexivity.
    + rewrite Nat.div_small by exact G. cbn [chunks fold_left]. rewrite Nat.add_0_r. reflexivity.
Qed.

(** A full buffer is compressed. *)
Lemma Transform_buffer st h k c : rep st h k c -> length c = 64%nat -> Z.of_nat (k + 1) < 2 ^ 64 -> 
  with_ptr 0 (Transform 1 st (buffer st)) = mk_state (GroestlSpec.compress h c) (low (k + 1)) (high (k + 1)) c 0 0.
Proof.
  intros (buf & -> & H) L B. cbn [buffer]. rewrite (holds_full _ _ _ H L). pose proof (Transform_spec 1 c h k c (length c) 0) as X.
  rewrite L in X |- *. rewrite X by (cbn; lia). change (64 / 64)%nat with 1%nat. cbn [chunks]. unfold GroestlSpec.chained. cbn [fold_left]. rewrite firstn_all2 by lia. reflexivity.
Qed.

Lemma whole_bytes n : (8 * Z.of_nat n) / 8 = Z.of_nat n /\ (8 * Z.of_nat n) mod 8 = 0.
Proof. rewrite Z.mul_comm. split; [apply Z.div_mul|apply Z.mod_mul]; lia. Qed.

Lemma int_small z : 0 <= z < 2 ^ 31 -> wrap I32 z = z.
Proof. intros H. unfold wrap. cbn [i_min i_max I32]. rewrite Z.mod_small by lia. lia. Qed.

Definition iv : list Z := repeat 0 15 ++ [u32BIG HASH_BIT_LEN].

Lemma groestl_Update_spec buf msg : length buf = 64%nat -> Z.of_nat (length msg) < 2 ^ 31 ->
  let n := (length msg / 64)%nat in
  rep (Update (Init buf) msg (8 * Z.of_nat (length msg))) (GroestlSpec.chained iv (chunks n 64 msg)) n (skipn (64 * n) msg).
Proof.
  intros L B n. pose proof (Nat.div_mod (length msg) 64 ltac:(lia)) as D. pose proof (Nat.mod_upper_bound (length msg) 64 ltac:(lia)) as U. fold n in D.
  unfold Update. destruct (whole_bytes (length msg)) as [-> ->]. rewrite int_small, Nat2Z.id, firstn_all by lia. cbn [Init buf_ptr Nat.eqb]. unfold put_rem. cbn [Z.eqb].
  unfold Init. change (mk_state _ 0 0 buf 0 0) with (mk_state iv (low 0) (high 0) buf 0 0). rewrite Transform_spec by (fold n; lia). fold n. cbn [Nat.add].
  unfold SIZE512, ROWS, COLS512. change (8 * 8)%nat with 64%nat. fold n. rewrite (Nat.mul_comm n 64).
  apply (groestl_rep_put (skipn (64 * n) msg) _ _ n []); [exists buf; split; [reflexivity|apply holds_nil, L]|rewrite length_skipn; cbn [length]; lia].
Qed.

(** ** The end of the message *)

(** The chain value after the last block, with the number of blocks in it. *)
Definition ended (h : list Z) (k : nat) (c : list Z) : list Z :=
  GroestlSpec.compress h (c ++ repeat 0 (56 - length c) ++ rev (le_bytes 8 (Z.of_nat (k + 1)))).

Lemma number_field k : le_bytes 4 (low k) ++ le_bytes 4 (high k) = le_bytes 8 (Z.of_nat k).
Proof. symmetry. apply (le_bytes_split 4 4). Qed.

Lemma with_length_field st h k c : rep st h k c -> (length c <= 56)%nat -> Z.of_nat (k + 1) < 2 ^ 64 ->
  let st := next_counter (fill_zeros 56 st) in
  let field := rev (le_bytes 4 (block_counter1 st) ++ le_bytes 4 (block_counter2 st)) in
  chaining (Transform 1 (mk_state (chaining st) 0 0 (firstn 56 (buffer st) ++ field) 56 (bits_in_last_byte st)) (firstn 56 (buffer st) ++ field)) = ended h k c.
Proof.
  intros R L B. destruct (groestl_rep_zeros st h k c 56 R ltac:(lia)) as (buf & -> & _ & E). rewrite groestl_counter_next by exact B. cbv zeta.
  cbn [chaining block_counter1 block_counter2 buffer bits_in_last_byte]. rewrite number_field.
  rewrite length_app, repeat_length in E. replace (length c + (56 - length c))%nat with 56%nat in E by lia. rewrite E.
  set (block := (c ++ _) ++ _). assert (length block = 64%nat) as Lb by (unfold block; rewrite !length_app, length_rev, le_bytes_length, repeat_length; lia).
  change (mk_state h 0 0 block 56 0) with (mk_state h (low 0) (high 0) block 56 0). rewrite Transform_spec by (rewrite Lb; cbn; lia). rewrite Lb.
  cbn [chaining]. change (64 / 64)%nat with 1%nat. unfold GroestlSpec.chained. cbn [chunks fold_left]. rewrite firstn_all2 by lia. unfold ended, block. rewrite <- app_assoc. reflexivity.
Qed.

(** What [Final] makes of a state. *)
Lemma groestl_Final_spec st h k c : rep st h k c -> (length c < 64)%nat -> Z.of_nat (k + 2) < 2 ^ 64 ->
  let h' := if (length c <=? 55)%nat then ended h k (c ++ [0x80]) else ended (GroestlSpec.compress h (c ++ 0x80 :: repeat 0 (63 - length c))) (k + 1) [] in
  Final st = skipn 32 (bytes32 (xor_list h' (P512 h'))).
Proof.
  intros R L B. unfold Final. assert (bits_in_last_byte st = 0) as -> by (destruct R as (buf & -> & _); reflexivity). cbn [Z.eqb].
  pose proof (groestl_rep_put [0x80] st h k c R ltac:(cbn; lia)) as R1. cbn [fold_left] in R1.
  assert (buf_ptr (put_byte st 0x80) = (length c + 1)%nat) as -> by (destruct R1 as (buf & -> & _); cbn; rewrite length_app; reflexivity).
  unfold SIZE512, LENGTHFIELDLEN, ROWS, COLS512. change (8 * 8 - 8)%nat with 56%nat. change (8 * 8)%nat with 64%nat. change (64 - 8)%nat with 56%nat.
  change (64 - Z.to_nat (HASH_BIT_LEN / 8))%nat with 32%nat. unfold OutputTransformation. cbn [chaining buffer].
  destruct (Nat.leb_spec (length c) 55) as [S|S].
  - rewrite (proj2 (Nat.ltb_ge _ _)) by lia. rewrite (with_length_field _ h k (c ++ [0x80]) R1) by (rewrite ?length_app; cbn; lia). reflexivity.
  - rewrite (proj2 (Nat.ltb_lt _ _)) by lia. pose proof (groestl_rep_zeros _ h k _ 64 R1 ltac:(rewrite length_app; cbn; lia)) as R2.
    rewrite length_app, <- app_assoc in R2. cbn [length app] in R2. replace (64 - (length c + 1))%nat with (63 - length c)%nat in R2 by lia.
    assert (length (c ++ 0x80 :: repeat 0 (63 - length c)) = 64%nat) as L2 by (rewrite length_app; cbn [length]; rewrite repeat_length; lia).
    rewrite (Transform_buffer _ _ _ _ R2 L2) by lia. set (h2 := GroestlSpec.compress _ _).
    rewrite (with_length_field _ h2 (k + 1) []); [reflexivity| |cbn; lia|lia].
    eexists. split; [reflexivity|apply holds_nil, L2].
Qed.

(** The code hashes as the standard does, whatever its buffer contains. *)
Lemma groestl_spec buf msg : length buf = 64%nat -> Z.of_nat (length msg) < 2 ^ 31 -> hash_extra_groestl buf msg = GroestlSpec.hash msg.
Proof.
  intros Lb B. pose proof (groestl_Update_spec buf msg Lb B) as R. cbv zeta in R. unfold hash_extra_groestl, groestl.
  pose proof (Nat.div_mod (length msg) 64 ltac:(lia)) as D. pose proof (Nat.mod_upper_bound (length msg) 64 ltac:(lia)) as U.
  set (n := (length msg / 64)%nat) in *. set (r := (length msg mod 64)%nat) in *. assert (length (skipn (64 * n) msg) = r) as Lr by (rewrite length_skipn; lia).
  rewrite (groestl_Final_spec _ _ _ _ R) by lia. unfold GroestlSpec.hash. cbv zeta. rewrite Lr. fold iv.
  match goal with |- context [if _ then ?a else ?b] => set (h' := if (r <=? 55)%nat then a else b) end.
  replace (GroestlSpec.chained iv _) with h'; [reflexivity|]. unfold h', GroestlSpec.pad. fold r. rewrite length_app. cbn [length]. rewrite length_app, repeat_length, length_rev, le_bytes_length.
  set (h := GroestlSpec.chained iv (chunks n 64 msg)). destruct (Nat.leb_spec r 55) as [S|S].
  - replace (length msg + 1 + (55 - r) + 8)%nat with ((n + 1) * 64)%nat by lia. replace (length msg + Datatypes.S (55 - r + 8))%nat with ((n + 1) * 64)%nat by lia.
    rewrite Nat.div_mul by lia. rewrite chunks_snoc; [|rewrite length_app, Lr; cbn [length]; rewrite length_app, repeat_length, length_rev, le_bytes_length; lia|lia].
    unfold GroestlSpec.chained. rewrite fold_left_app. cbn [fold_left]. fold h. unfold ended. rewrite length_app, Lr, <- app_assoc. cbn [length app].
    replace (56 - (r + 1))%nat with (55 - r)%nat by lia. reflexivity.
  - replace (length msg + 1 + (119 - r) + 8)%nat with ((n + 1 + 1) * 64)%nat by lia. replace (length msg + Datatypes.S (119 - r + 8))%nat with ((n + 1 + 1) * 64)%nat by lia.
    rewrite Nat.div_mul by lia. replace (119 - r)%nat with (63 - r + 56)%nat by lia. rewrite repeat_app, <- app_assoc.
    set (first := 0x80 :: repeat 0 (63 - r)). set (last := repeat 0 56 ++ _). change (0x80 :: repeat 0 (63 - r) ++ last) with (first ++ last).
    assert (length first = 64 - r)%nat as Lf by (unfold first; cbn [length]; rewrite repeat_length; lia).
    rewrite app_assoc, chunks_snoc.
    2:{ unfold last. rewrite skipn_all2 by (rewrite length_app; lia). reflexivity. }
    2:{ rewrite length_app. lia. }
    rewrite (skipn_all2 (msg ++ first)) by (rewrite length_app; lia). rewrite chunks_snoc by (rewrite ?length_app; lia).
    unfold GroestlSpec.chained. rewrite !fold_left_app. cbn [fold_left]. fold h. unfold ended. reflexivity.
Qed.

Lemma all_columns_length cols x : length (all_columns x cols) = (2 * length cols)%nat.
Proof. unfold all_columns. induction cols as [|[i c] cols IH]; [reflexivity|]. cbn [flat_map length]. rewrite length_app, IH. destruct (COLUMN (bytes32 x) c). cbn. lia. Qed.

#[local] Transparent F512 P512.

Lemma P512_length x : length (P512 x) = 16%nat.
Proof. unfold P512. cbn [seq fold_left]. unfold RND512P at 1. rewrite all_columns_length. reflexivity. Qed.

Lemma Q512_length x : length (Q512 x) = 16%nat.
Proof. unfold Q512. cbn [seq fold_left]. unfold RND512Q at 1. rewrite all_columns_length. reflexivity. Qed.

Lemma F512_length h m : length h = 16%nat -> length (F512 h m) = 16%nat.
Proof. intros L. unfold F512. rewrite !xor_list_length, P512_length, Q512_length, L. reflexivity. Qed.

Lemma groestl_digest msg : length (GroestlSpec.hash msg) = 32%nat.
Proof.
  unfold GroestlSpec.hash. fold iv. set (blocks := chunks _ _ _). assert (length (GroestlSpec.chained iv blocks) = 16%nat) as L.
  { unfold GroestlSpec.chained. apply fold_left_inv; [|reflexivity]. intros h b _ Hh. apply F512_length, Hh. }
  rewrite length_skipn, bytes32_length, xor_list_length, P512_length, L. reflexivity.
Qed.
