(* ===== verification/Jh.v ===== *)
(** * JH (jh.c, hash-extra-jh.c)

    The bitslice implementation: the state of 1024 bits is 8 rows of two 64-bit words, kept
    as the list [x[0][0]; x[0][1]; x[1][0]; ...].  The S-boxes, the linear transform and the
    permutation of the columns work on whole words.  Module [JhSpec] pads a message and
    compresses block after block; one call of [jh_hash] does the same and reads no byte
    behind its input. *)

From Stdlib Require Import ZArith Lia List Bool.
Import ListNotations.
From S2P Require Import Prelude Bytes Keccak IntUtil.
Set Default Goal Selector "!".

Definition JH224_H0 : list Z := [
  0x2d; 0xfe; 0xdd; 0x62; 0xf9; 0x9a; 0x98; 0xac; 0xae; 0x7c; 0xac; 0xd6; 0x19; 0xd6; 0x34; 0xe7;
  0xa4; 0x83; 0x10; 0x5; 0xbc; 0x30; 0x12; 0x16; 0xb8; 0x60; 0x38; 0xc6; 0xc9; 0x66; 0x14; 0x94;
  0x66; 0xd9; 0x89; 0x9f; 0x25; 0x80; 0x70; 0x6f; 0xce; 0x9e; 0xa3; 0x1b; 0x1d; 0x9b; 0x1a; 0xdc;
  0x11; 0xe8; 0x32; 0x5f; 0x7b; 0x36; 0x6e; 0x10; 0xf9; 0x94; 0x85; 0x7f; 0x2; 0xfa; 0x6; 0xc1;
  0x1b; 0x4f; 0x1b; 0x5c; 0xd8; 0xc8; 0x40; 0xb3; 0x97; 0xf6; 0xa1; 0x7f; 0x6e; 0x73; 0x80; 0x99;
  0xdc; 0xdf; 0x93; 0xa5; 0xad; 0xea; 0xa3; 0xd3; 0xa4; 0x31; 0xe8; 0xde; 0xc9; 0x53; 0x9a; 0x68;
  0x22; 0xb4; 0xa9; 0x8a; 0xec; 0x86; 0xa1; 0xe4; 0xd5; 0x74; 0xac; 0x95; 0x9c; 0xe5; 0x6c; 0xf0;
  0x15; 0x96; 0xd; 0xea; 0xb5; 0xab; 0x2b; 0xbf; 0x96; 0x11; 0xdc; 0xf0; 0xdd; 0x64; 0xea; 0x6e].
Definition JH256_H0 : list Z := [
  0xeb; 0x98; 0xa3; 0x41; 0x2c; 0x20; 0xd3; 0xeb; 0x92; 0xcd; 0xbe; 0x7b; 0x9c; 0xb2; 0x45; 0xc1;
  0x1c; 0x93; 0x51; 0x91; 0x60; 0xd4; 0xc7; 0xfa; 0x26; 0x0; 0x82; 0xd6; 0x7e; 0x50; 0x8a; 0x3;
  0xa4; 0x23; 0x9e; 0x26; 0x77; 0x26; 0xb9; 0x45; 0xe0; 0xfb; 0x1a; 0x48; 0xd4; 0x1a; 0x94; 0x77;
  0xcd; 0xb5; 0xab; 0x26; 0x2; 0x6b; 0x17; 0x7a; 0x56; 0xf0; 0x24; 0x42; 0xf; 0xff; 0x2f; 0xa8;
  0x71; 0xa3; 0x96; 0x89; 0x7f; 0x2e; 0x4d; 0x75; 0x1d; 0x14; 0x49; 0x8; 0xf7; 0x7d; 0xe2; 0x62;
  0x27; 0x76; 0x95; 0xf7; 0x76; 0x24; 0x8f; 0x94; 0x87; 0xd5; 0xb6; 0x57; 0x47; 0x80; 0x29; 0x6c;
  0x5c; 0x5e; 0x27; 0x2d; 0xac; 0x8e; 0xd; 0x6c; 0x51; 0x84; 0x50; 0xc6; 0x57; 0x5; 0x7a; 0xf;
  0x7b; 0xe4; 0xd3; 0x67; 0x70; 0x24; 0x12; 0xea; 0x89; 0xe3; 0xab; 0x13; 0xd3; 0x1c; 0xd7; 0x69].
Definition JH384_H0 : list Z := [
  0x48; 0x1e; 0x3b; 0xc6; 0xd8; 0x13; 0x39; 0x8a; 0x6d; 0x3b; 0x5e; 0x89; 0x4a; 0xde; 0x87; 0x9b;
  0x63; 0xfa; 0xea; 0x68; 0xd4; 0x80; 0xad; 0x2e; 0x33; 0x2c; 0xcb; 0x21; 0x48; 0xf; 0x82; 0x67;
  0x98; 0xae; 0xc8; 0x4d; 0x90; 0x82; 0xb9; 0x28; 0xd4; 0x55; 0xea; 0x30; 0x41; 0x11; 0x42; 0x49;
  0x36; 0xf5; 0x55; 0xb2; 0x92; 0x48; 0x47; 0xec; 0xc7; 0x25; 0xa; 0x93; 0xba; 0xf4; 0x3c; 0xe1;
  0x56; 0x9b; 0x7f; 0x8a; 0x27; 0xdb; 0x45; 0x4c; 0x9e; 0xfc; 0xbd; 0x49; 0x63; 0x97; 0xaf; 0xe;
  0x58; 0x9f; 0xc2; 0x7d; 0x26; 0xaa; 0x80; 0xcd; 0x80; 0xc0; 0x8b; 0x8c; 0x9d; 0xeb; 0x2e; 0xda;
  0x8a; 0x79; 0x81; 0xe8; 0xf8; 0xd5; 0x37; 0x3a; 0xf4; 0x39; 0x67; 0xad; 0xdd; 0xd1; 0x7a; 0x71;
  0xa9; 0xb4; 0xd3; 0xbd; 0xa4; 0x75; 0xd3; 0x94; 0x97; 0x6c; 0x3f; 0xba; 0x98; 0x42; 0x73; 0x7f].
Definition JH512_H0 : list Z := [
  0x6f; 0xd1; 0x4b; 0x96; 0x3e; 0x0; 0xaa; 0x17; 0x63; 0x6a; 0x2e; 0x5; 0x7a; 0x15; 0xd5; 0x43;
  0x8a; 0x22; 0x5e; 0x8d; 0xc; 0x97; 0xef; 0xb; 0xe9; 0x34; 0x12; 0x59; 0xf2; 0xb3; 0xc3; 0x61;
  0x89; 0x1d; 0xa0; 0xc1; 0x53; 0x6f; 0x80; 0x1e; 0x2a; 0xa9; 0x5; 0x6b; 0xea; 0x2b; 0x6d; 0x80;
  0x58; 0x8e; 0xcc; 0xdb; 0x20; 0x75; 0xba; 0xa6; 0xa9; 0xf; 0x3a; 0x76; 0xba; 0xf8; 0x3b; 0xf7;
  0x1; 0x69; 0xe6; 0x5; 0x41; 0xe3; 0x4a; 0x69; 0x46; 0xb5; 0x8a; 0x8e; 0x2e; 0x6f; 0xe6; 0x5a;
  0x10; 0x47; 0xa7; 0xd0; 0xc1; 0x84; 0x3c; 0x24; 0x3b; 0x6e; 0x71; 0xb1; 0x2d; 0x5a; 0xc1; 0x99;
  0xcf; 0x57; 0xf6; 0xec; 0x9d; 0xb1; 0xf8; 0x56; 0xa7; 0x6; 0x88; 0x7c; 0x57; 0x16; 0xb1; 0x56;
  0xe3; 0xc2; 0xfc; 0xdf; 0xe6; 0x85; 0x17; 0xfb; 0x54; 0x5a; 0x46; 0x78; 0xcc; 0x8c; 0xdd; 0x4b].

Definition E8_bitslice_roundconstant : list (list Z) := [
  [0x72; 0xd5; 0xde; 0xa2; 0xdf; 0x15; 0xf8; 0x67; 0x7b; 0x84; 0x15; 0xa; 0xb7; 0x23; 0x15; 0x57; 0x81; 0xab; 0xd6; 0x90; 0x4d; 0x5a; 0x87; 0xf6; 0x4e; 0x9f; 0x4f; 0xc5; 0xc3; 0xd1; 0x2b; 0x40];
  [0xea; 0x98; 0x3a; 0xe0; 0x5c; 0x45; 0xfa; 0x9c; 0x3; 0xc5; 0xd2; 0x99; 0x66; 0xb2; 0x99; 0x9a; 0x66; 0x2; 0x96; 0xb4; 0xf2; 0xbb; 0x53; 0x8a; 0xb5; 0x56; 0x14; 0x1a; 0x88; 0xdb; 0xa2; 0x31];
  [0x3; 0xa3; 0x5a; 0x5c; 0x9a; 0x19; 0xe; 0xdb; 0x40; 0x3f; 0xb2; 0xa; 0x87; 0xc1; 0x44; 0x10; 0x1c; 0x5; 0x19; 0x80; 0x84; 0x9e; 0x95; 0x1d; 0x6f; 0x33; 0xeb; 0xad; 0x5e; 0xe7; 0xcd; 0xdc];
  [0x10; 0xba; 0x13; 0x92; 0x2; 0xbf; 0x6b; 0x41; 0xdc; 0x78; 0x65; 0x15; 0xf7; 0xbb; 0x27; 0xd0; 0xa; 0x2c; 0x81; 0x39; 0x37; 0xaa; 0x78; 0x50; 0x3f; 0x1a; 0xbf; 0xd2; 0x41; 0x0; 0x91; 0xd3];
  [0x42; 0x2d; 0x5a; 0xd; 0xf6; 0xcc; 0x7e; 0x90; 0xdd; 0x62; 0x9f; 0x9c; 0x92; 0xc0; 0x97; 0xce; 0x18; 0x5c; 0xa7; 0xb; 0xc7; 0x2b; 0x44; 0xac; 0xd1; 0xdf; 0x65; 0xd6; 0x63; 0xc6; 0xfc; 0x23];
  [0x97; 0x6e; 0x6c; 0x3; 0x9e; 0xe0; 0xb8; 0x1a; 0x21; 0x5; 0x45; 0x7e; 0x44; 0x6c; 0xec; 0xa8; 0xee; 0xf1; 0x3; 0xbb; 0x5d; 0x8e; 0x61; 0xfa; 0xfd; 0x96; 0x97; 0xb2; 0x94; 0x83; 0x81; 0x97];
  [0x4a; 0x8e; 0x85; 0x37; 0xdb; 0x3; 0x30; 0x2f; 0x2a; 0x67; 0x8d; 0x2d; 0xfb; 0x9f; 0x6a; 0x95; 0x8a; 0xfe; 0x73; 0x81; 0xf8; 0xb8; 0x69; 0x6c; 0x8a; 0xc7; 0x72; 0x46; 0xc0; 0x7f; 0x42; 0x14];
  [0xc5; 0xf4; 0x15; 0x8f; 0xbd; 0xc7; 0x5e; 0xc4; 0x75; 0x44; 0x6f; 0xa7; 0x8f; 0x11; 0xbb; 0x80; 0x52; 0xde; 0x75; 0xb7; 0xae; 0xe4; 0x88; 0xbc; 0x82; 0xb8; 0x0; 0x1e; 0x98; 0xa6; 0xa3; 0xf4];
  [0x8e; 0xf4; 0x8f; 0x33; 0xa9; 0xa3; 0x63; 0x15; 0xaa; 0x5f; 0x56; 0x24; 0xd5; 0xb7; 0xf9; 0x89; 0xb6; 0xf1; 0xed; 0x20; 0x7c; 0x5a; 0xe0; 0xfd; 0x36; 0xca; 0xe9; 0x5a; 0x6; 0x42; 0x2c; 0x36];
  [0xce; 0x29; 0x35; 0x43; 0x4e; 0xfe; 0x98; 0x3d; 0x53; 0x3a; 0xf9; 0x74; 0x73; 0x9a; 0x4b; 0xa7; 0xd0; 0xf5; 0x1f; 0x59; 0x6f; 0x4e; 0x81; 0x86; 0xe; 0x9d; 0xad; 0x81; 0xaf; 0xd8; 0x5a; 0x9f];
  [0xa7; 0x5; 0x6; 0x67; 0xee; 0x34; 0x62; 0x6a; 0x8b; 0xb; 0x28; 0xbe; 0x6e; 0xb9; 0x17; 0x27; 0x47; 0x74; 0x7; 0x26; 0xc6; 0x80; 0x10; 0x3f; 0xe0; 0xa0; 0x7e; 0x6f; 0xc6; 0x7e; 0x48; 0x7b];
  [0xd; 0x55; 0xa; 0xa5; 0x4a; 0xf8; 0xa4; 0xc0; 0x91; 0xe3; 0xe7; 0x9f; 0x97; 0x8e; 0xf1; 0x9e; 0x86; 0x76; 0x72; 0x81; 0x50; 0x60; 0x8d; 0xd4; 0x7e; 0x9e; 0x5a; 0x41; 0xf3; 0xe5; 0xb0; 0x62];
  [0xfc; 0x9f; 0x1f; 0xec; 0x40; 0x54; 0x20; 0x7a; 0xe3; 0xe4; 0x1a; 0x0; 0xce; 0xf4; 0xc9; 0x84; 0x4f; 0xd7; 0x94; 0xf5; 0x9d; 0xfa; 0x95; 0xd8; 0x55; 0x2e; 0x7e; 0x11; 0x24; 0xc3; 0x54; 0xa5];
  [0x5b; 0xdf; 0x72; 0x28; 0xbd; 0xfe; 0x6e; 0x28; 0x78; 0xf5; 0x7f; 0xe2; 0xf; 0xa5; 0xc4; 0xb2; 0x5; 0x89; 0x7c; 0xef; 0xee; 0x49; 0xd3; 0x2e; 0x44; 0x7e; 0x93; 0x85; 0xeb; 0x28; 0x59; 0x7f];
  [0x70; 0x5f; 0x69; 0x37; 0xb3; 0x24; 0x31; 0x4a; 0x5e; 0x86; 0x28; 0xf1; 0x1d; 0xd6; 0xe4; 0x65; 0xc7; 0x1b; 0x77; 0x4; 0x51; 0xb9; 0x20; 0xe7; 0x74; 0xfe; 0x43; 0xe8; 0x23; 0xd4; 0x87; 0x8a];
  [0x7d; 0x29; 0xe8; 0xa3; 0x92; 0x76; 0x94; 0xf2; 0xdd; 0xcb; 0x7a; 0x9; 0x9b; 0x30; 0xd9; 0xc1; 0x1d; 0x1b; 0x30; 0xfb; 0x5b; 0xdc; 0x1b; 0xe0; 0xda; 0x24; 0x49; 0x4f; 0xf2; 0x9c; 0x82; 0xbf];
  [0xa4; 0xe7; 0xba; 0x31; 0xb4; 0x70; 0xbf; 0xff; 0xd; 0x32; 0x44; 0x5; 0xde; 0xf8; 0xbc; 0x48; 0x3b; 0xae; 0xfc; 0x32; 0x53; 0xbb; 0xd3; 0x39; 0x45; 0x9f; 0xc3; 0xc1; 0xe0; 0x29; 0x8b; 0xa0];
  [0xe5; 0xc9; 0x5; 0xfd; 0xf7; 0xae; 0x9; 0xf; 0x94; 0x70; 0x34; 0x12; 0x42; 0x90; 0xf1; 0x34; 0xa2; 0x71; 0xb7; 0x1; 0xe3; 0x44; 0xed; 0x95; 0xe9; 0x3b; 0x8e; 0x36; 0x4f; 0x2f; 0x98; 0x4a];
  [0x88; 0x40; 0x1d; 0x63; 0xa0; 0x6c; 0xf6; 0x15; 0x47; 0xc1; 0x44; 0x4b; 0x87; 0x52; 0xaf; 0xff; 0x7e; 0xbb; 0x4a; 0xf1; 0xe2; 0xa; 0xc6; 0x30; 0x46; 0x70; 0xb6; 0xc5; 0xcc; 0x6e; 0x8c; 0xe6];
  [0xa4; 0xd5; 0xa4; 0x56; 0xbd; 0x4f; 0xca; 0x0; 0xda; 0x9d; 0x84; 0x4b; 0xc8; 0x3e; 0x18; 0xae; 0x73; 0x57; 0xce; 0x45; 0x30; 0x64; 0xd1; 0xad; 0xe8; 0xa6; 0xce; 0x68; 0x14; 0x5c; 0x25; 0x67];
  [0xa3; 0xda; 0x8c; 0xf2; 0xcb; 0xe; 0xe1; 0x16; 0x33; 0xe9; 0x6; 0x58; 0x9a; 0x94; 0x99; 0x9a; 0x1f; 0x60; 0xb2; 0x20; 0xc2; 0x6f; 0x84; 0x7b; 0xd1; 0xce; 0xac; 0x7f; 0xa0; 0xd1; 0x85; 0x18];
  [0x32; 0x59; 0x5b; 0xa1; 0x8d; 0xdd; 0x19; 0xd3; 0x50; 0x9a; 0x1c; 0xc0; 0xaa; 0xa5; 0xb4; 0x46; 0x9f; 0x3d; 0x63; 0x67; 0xe4; 0x4; 0x6b; 0xba; 0xf6; 0xca; 0x19; 0xab; 0xb; 0x56; 0xee; 0x7e];
  [0x1f; 0xb1; 0x79; 0xea; 0xa9; 0x28; 0x21; 0x74; 0xe9; 0xbd; 0xf7; 0x35; 0x3b; 0x36; 0x51; 0xee; 0x1d; 0x57; 0xac; 0x5a; 0x75; 0x50; 0xd3; 0x76; 0x3a; 0x46; 0xc2; 0xfe; 0xa3; 0x7d; 0x70; 0x1];
  [0xf7; 0x35; 0xc1; 0xaf; 0x98; 0xa4; 0xd8; 0x42; 0x78; 0xed; 0xec; 0x20; 0x9e; 0x6b; 0x67; 0x79; 0x41; 0x83; 0x63; 0x15; 0xea; 0x3a; 0xdb; 0xa8; 0xfa; 0xc3; 0x3b; 0x4d; 0x32; 0x83; 0x2c; 0x83];
  [0xa7; 0x40; 0x3b; 0x1f; 0x1c; 0x27; 0x47; 0xf3; 0x59; 0x40; 0xf0; 0x34; 0xb7; 0x2d; 0x76; 0x9a; 0xe7; 0x3e; 0x4e; 0x6c; 0xd2; 0x21; 0x4f; 0xfd; 0xb8; 0xfd; 0x8d; 0x39; 0xdc; 0x57; 0x59; 0xef];
  [0x8d; 0x9b; 0xc; 0x49; 0x2b; 0x49; 0xeb; 0xda; 0x5b; 0xa2; 0xd7; 0x49; 0x68; 0xf3; 0x70; 0xd; 0x7d; 0x3b; 0xae; 0xd0; 0x7a; 0x8d; 0x55; 0x84; 0xf5; 0xa5; 0xe9; 0xf0; 0xe4; 0xf8; 0x8e; 0x65];
  [0xa0; 0xb8; 0xa2; 0xf4; 0x36; 0x10; 0x3b; 0x53; 0xc; 0xa8; 0x7; 0x9e; 0x75; 0x3e; 0xec; 0x5a; 0x91; 0x68; 0x94; 0x92; 0x56; 0xe8; 0x88; 0x4f; 0x5b; 0xb0; 0x5c; 0x55; 0xf8; 0xba; 0xbc; 0x4c];
  [0xe3; 0xbb; 0x3b; 0x99; 0xf3; 0x87; 0x94; 0x7b; 0x75; 0xda; 0xf4; 0xd6; 0x72; 0x6b; 0x1c; 0x5d; 0x64; 0xae; 0xac; 0x28; 0xdc; 0x34; 0xb3; 0x6d; 0x6c; 0x34; 0xa5; 0x50; 0xb8; 0x28; 0xdb; 0x71];
  [0xf8; 0x61; 0xe2; 0xf2; 0x10; 0x8d; 0x51; 0x2a; 0xe3; 0xdb; 0x64; 0x33; 0x59; 0xdd; 0x75; 0xfc; 0x1c; 0xac; 0xbc; 0xf1; 0x43; 0xce; 0x3f; 0xa2; 0x67; 0xbb; 0xd1; 0x3c; 0x2; 0xe8; 0x43; 0xb0];
  [0x33; 0xa; 0x5b; 0xca; 0x88; 0x29; 0xa1; 0x75; 0x7f; 0x34; 0x19; 0x4d; 0xb4; 0x16; 0x53; 0x5c; 0x92; 0x3b; 0x94; 0xc3; 0xe; 0x79; 0x4d; 0x1e; 0x79; 0x74; 0x75; 0xd7; 0xb6; 0xee; 0xaf; 0x3f];
  [0xea; 0xa8; 0xd4; 0xf7; 0xbe; 0x1a; 0x39; 0x21; 0x5c; 0xf4; 0x7e; 0x9; 0x4c; 0x23; 0x27; 0x51; 0x26; 0xa3; 0x24; 0x53; 0xba; 0x32; 0x3c; 0xd2; 0x44; 0xa3; 0x17; 0x4a; 0x6d; 0xa6; 0xd5; 0xad];
  [0xb5; 0x1d; 0x3e; 0xa6; 0xaf; 0xf2; 0xc9; 0x8; 0x83; 0x59; 0x3d; 0x98; 0x91; 0x6b; 0x3c; 0x56; 0x4c; 0xf8; 0x7c; 0xa1; 0x72; 0x86; 0x60; 0x4d; 0x46; 0xe2; 0x3e; 0xcc; 0x8; 0x6e; 0xc7; 0xf6];
  [0x2f; 0x98; 0x33; 0xb3; 0xb1; 0xbc; 0x76; 0x5e; 0x2b; 0xd6; 0x66; 0xa5; 0xef; 0xc4; 0xe6; 0x2a; 0x6; 0xf4; 0xb6; 0xe8; 0xbe; 0xc1; 0xd4; 0x36; 0x74; 0xee; 0x82; 0x15; 0xbc; 0xef; 0x21; 0x63];
  [0xfd; 0xc1; 0x4e; 0xd; 0xf4; 0x53; 0xc9; 0x69; 0xa7; 0x7d; 0x5a; 0xc4; 0x6; 0x58; 0x58; 0x26; 0x7e; 0xc1; 0x14; 0x16; 0x6; 0xe0; 0xfa; 0x16; 0x7e; 0x90; 0xaf; 0x3d; 0x28; 0x63; 0x9d; 0x3f];
  [0xd2; 0xc9; 0xf2; 0xe3; 0x0; 0x9b; 0xd2; 0xc; 0x5f; 0xaa; 0xce; 0x30; 0xb7; 0xd4; 0xc; 0x30; 0x74; 0x2a; 0x51; 0x16; 0xf2; 0xe0; 0x32; 0x98; 0xd; 0xeb; 0x30; 0xd8; 0xe3; 0xce; 0xf8; 0x9a];
  [0x4b; 0xc5; 0x9e; 0x7b; 0xb5; 0xf1; 0x79; 0x92; 0xff; 0x51; 0xe6; 0x6e; 0x4; 0x86; 0x68; 0xd3; 0x9b; 0x23; 0x4d; 0x57; 0xe6; 0x96; 0x67; 0x31; 0xcc; 0xe6; 0xa6; 0xf3; 0x17; 0xa; 0x75; 0x5];
  [0xb1; 0x76; 0x81; 0xd9; 0x13; 0x32; 0x6c; 0xce; 0x3c; 0x17; 0x52; 0x84; 0xf8; 0x5; 0xa2; 0x62; 0xf4; 0x2b; 0xcb; 0xb3; 0x78; 0x47; 0x15; 0x47; 0xff; 0x46; 0x54; 0x82; 0x23; 0x93; 0x6a; 0x48];
  [0x38; 0xdf; 0x58; 0x7; 0x4e; 0x5e; 0x65; 0x65; 0xf2; 0xfc; 0x7c; 0x89; 0xfc; 0x86; 0x50; 0x8e; 0x31; 0x70; 0x2e; 0x44; 0xd0; 0xb; 0xca; 0x86; 0xf0; 0x40; 0x9; 0xa2; 0x30; 0x78; 0x47; 0x4e];
  [0x65; 0xa0; 0xee; 0x39; 0xd1; 0xf7; 0x38; 0x83; 0xf7; 0x5e; 0xe9; 0x37; 0xe4; 0x2c; 0x3a; 0xbd; 0x21; 0x97; 0xb2; 0x26; 0x1; 0x13; 0xf8; 0x6f; 0xa3; 0x44; 0xed; 0xd1; 0xef; 0x9f; 0xde; 0xe7];
  [0x8b; 0xa0; 0xdf; 0x15; 0x76; 0x25; 0x92; 0xd9; 0x3c; 0x85; 0xf7; 0xf6; 0x12; 0xdc; 0x42; 0xbe; 0xd8; 0xa7; 0xec; 0x7c; 0xab; 0x27; 0xb0; 0x7e; 0x53; 0x8d; 0x7d; 0xda; 0xaa; 0x3e; 0xa8; 0xde];
  [0xaa; 0x25; 0xce; 0x93; 0xbd; 0x2; 0x69; 0xd8; 0x5a; 0xf6; 0x43; 0xfd; 0x1a; 0x73; 0x8; 0xf9; 0xc0; 0x5f; 0xef; 0xda; 0x17; 0x4a; 0x19; 0xa5; 0x97; 0x4d; 0x66; 0x33; 0x4c; 0xfd; 0x21; 0x6a];
  [0x35; 0xb4; 0x98; 0x31; 0xdb; 0x41; 0x15; 0x70; 0xea; 0x1e; 0xf; 0xbb; 0xed; 0xcd; 0x54; 0x9b; 0x9a; 0xd0; 0x63; 0xa1; 0x51; 0x97; 0x40; 0x72; 0xf6; 0x75; 0x9d; 0xbf; 0x91; 0x47; 0x6f; 0xe2]].

(** ** Words *)

Definition inv64 (x : Z) : Z := u64 (Z.lnot x).

Definition SWAP1 (x : Z) : Z := Z.lor (u64 (Z.shiftl (Z.land x 0x5555555555555555) 1)) (Z.shiftr (Z.land x 0xaaaaaaaaaaaaaaaa) 1).
Definition SWAP2 (x : Z) : Z := Z.lor (u64 (Z.shiftl (Z.land x 0x3333333333333333) 2)) (Z.shiftr (Z.land x 0xcccccccccccccccc) 2).
Definition SWAP4 (x : Z) : Z := Z.lor (u64 (Z.shiftl (Z.land x 0x0f0f0f0f0f0f0f0f) 4)) (Z.shiftr (Z.land x 0xf0f0f0f0f0f0f0f0) 4).
Definition SWAP8 (x : Z) : Z := Z.lor (u64 (Z.shiftl (Z.land x 0x00ff00ff00ff00ff) 8)) (Z.shiftr (Z.land x 0xff00ff00ff00ff00) 8).
Definition SWAP16 (x : Z) : Z := Z.lor (u64 (Z.shiftl (Z.land x 0x0000ffff0000ffff) 16)) (Z.shiftr (Z.land x 0xffff0000ffff0000) 16).
Definition SWAP32 (x : Z) : Z := Z.lor (u64 (Z.shiftl x 32)) (Z.shiftr x 32).

(** Eight words, [m0] to [m7]. *)
Record words8 := mk8 { w0 : Z; w1 : Z; w2 : Z; w3 : Z; w4 : Z; w5 : Z; w6 : Z; w7 : Z }.

(** The linear transform. *)
Definition L (m : words8) : words8 :=
  let '(mk8 m0 m1 m2 m3 m4 m5 m6 m7) := m in
  let m4 := Z.lxor m4 m1 in
  let m5 := Z.lxor m5 m2 in
  let m6 := Z.lxor m6 (Z.lxor m0 m3) in
  let m7 := Z.lxor m7 m0 in
  let m0 := Z.lxor m0 m5 in
  let m1 := Z.lxor m1 m6 in
  let m2 := Z.lxor m2 (Z.lxor m4 m7) in
  let m3 := Z.lxor m3 m4 in
  mk8 m0 m1 m2 m3 m4 m5 m6 m7.

(** Two S-boxes in parallel. *)
Definition SS (m : words8) (cc0 cc1 : Z) : words8 :=
  let '(mk8 m0 m1 m2 m3 m4 m5 m6 m7) := m in
  let m3 := inv64 m3 in
  let m7 := inv64 m7 in
  let m0 := Z.lxor m0 (Z.land (inv64 m2) cc0) in
  let m4 := Z.lxor m4 (Z.land (inv64 m6) cc1) in
  let temp0 := Z.lxor cc0 (Z.land m0 m1) in
  let temp1 := Z.lxor cc1 (Z.land m4 m5) in
  let m0 := Z.lxor m0 (Z.land m2 m3) in
  let m4 := Z.lxor m4 (Z.land m6 m7) in
  let m3 := Z.lxor m3 (Z.land (inv64 m1) m2) in
  let m7 := Z.lxor m7 (Z.land (inv64 m5) m6) in
  let m1 := Z.lxor m1 (Z.land m0 m2) in
  let m5 := Z.lxor m5 (Z.land m4 m6) in
  let m2 := Z.lxor m2 (Z.land m0 (inv64 m3)) in
  let m6 := Z.lxor m6 (Z.land m4 (inv64 m7)) in
  let m0 := Z.lxor m0 (Z.lor m1 m3) in
  let m4 := Z.lxor m4 (Z.lor m5 m7) in
  let m3 := Z.lxor m3 (Z.land m1 m2) in
  let m7 := Z.lxor m7 (Z.land m5 m6) in
  let m1 := Z.lxor m1 (Z.land temp0 m0) in
  let m5 := Z.lxor m5 (Z.land temp1 m4) in
  let m2 := Z.lxor m2 temp0 in
  let m6 := Z.lxor m6 temp1 in
  mk8 m0 m1 m2 m3 m4 m5 m6 m7.

(** ** The bijective function E8 *)

Definition x_at (x : list Z) (row i : nat) : Z := nth (2 * row + i) x 0.
Definition x_set (row i : nat) (v : Z) (x : list Z) : list Z := set_nth (2 * row + i) v x.

(** A round on one half: S-boxes, linear transform and [swap] on the odd rows. *)
Definition half_round (roundnumber : nat) (swap : Z -> Z) (x : list Z) (i : nat) : list Z :=
  let c := words64 4 (nth roundnumber E8_bitslice_roundconstant []) in
  let m := mk8 (x_at x 0 i) (x_at x 2 i) (x_at x 4 i) (x_at x 6 i) (x_at x 1 i) (x_at x 3 i) (x_at x 5 i) (x_at x 7 i) in
  let m := L (SS m (nth i c 0) (nth (i + 2) c 0)) in
  let x := x_set 0 i (w0 m) (x_set 2 i (w1 m) (x_set 4 i (w2 m) (x_set 6 i (w3 m) x))) in
  x_set 1 i (swap (w4 m)) (x_set 3 i (swap (w5 m)) (x_set 5 i (swap (w6 m)) (x_set 7 i (swap (w7 m)) x))).

Definition E8_round (x : list Z) (roundnumber : nat) (swap : Z -> Z) : list Z := fold_left (half_round roundnumber swap) [0; 1]%nat x.

(** The words of the odd rows change places. *)
Definition swap_halves (x : list Z) : list Z :=
  fold_left (fun x i => let temp0 := x_at x i 0 in x_set i 1 temp0 (x_set i 0 (x_at x i 1) x)) [1; 3; 5; 7]%nat x.

Definition seven_rounds (x : list Z) (roundnumber : nat) : list Z :=
  let x := E8_round x (roundnumber + 0) SWAP1 in
  let x := E8_round x (roundnumber + 1) SWAP2 in
  let x := E8_round x (roundnumber + 2) SWAP4 in
  let x := E8_round x (roundnumber + 3) SWAP8 in
  let x := E8_round x (roundnumber + 4) SWAP16 in
  let x := E8_round x (roundnumber + 5) SWAP32 in
  let x := E8_round x (roundnumber + 6) (fun w => w) in
  swap_halves x.

Definition E8 (x : list Z) : list Z := fold_left seven_rounds [0; 7; 14; 21; 28; 35]%nat x.

(** ** Messages *)

Record hashState := mk_state { hashbitlen : Z; databitlen : Z; datasize_in_buffer : Z; x : list Z; buffer : list Z }.

Definition with_x (v : list Z) (state : hashState) : hashState :=
  mk_state (hashbitlen state) (databitlen state) (datasize_in_buffer state) v (buffer state).
Definition with_buffer (v : list Z) (state : hashState) : hashState :=
  mk_state (hashbitlen state) (databitlen state) (datasize_in_buffer state) (x state) v.
Definition with_size (v : Z) (state : hashState) : hashState :=
  mk_state (hashbitlen state) (databitlen state) v (x state) (buffer state).

(** The compression function. *)
Definition F8 (state : hashState) : hashState :=
  let m := words64 8 (buffer state) in
  let v := xor_list (firstn 8 (x state)) m ++ skipn 8 (x state) in
  let v := E8 v in
  with_x (firstn 8 v ++ xor_list (skipn 8 v) m) state.

(** [x0] and [buf] are the unknown contents of the fields. *)
Definition Init (x0 buf : list Z) (hashbitlen : Z) : hashState :=
  mk_state hashbitlen 0 0
    (if hashbitlen =? 224 then words64 16 JH224_H0
     else if hashbitlen =? 256 then words64 16 JH256_H0
     else if hashbitlen =? 384 then words64 16 JH384_H0
     else if hashbitlen =? 512 then words64 16 JH512_H0 else x0) buf.

(** [memcpy(state->buffer + at_, data, n)]; undefined when the data or the buffer ends before. *)
Definition copy_in (at_ n : nat) (data : list Z) (state : hashState) : option hashState :=
  if (n <=? length data)%nat && (at_ + n <=? 64)%nat then
    Some (with_buffer (firstn at_ (buffer state) ++ firstn n data ++ skipn (at_ + n) (buffer state)) state)
  else None.

(** The loop over whole blocks, with the number of bits that are left; [fuel] bounds the number of blocks. *)
Fixpoint hash_blocks (fuel : nat) (state : hashState) (data : list Z) (bits : Z) : option (hashState * list Z * Z) :=
  match fuel with
  | O => Some (state, data, bits)
  | S fuel =>
      if 512 <=? bits then
        state <- copy_in 0 64 data state ;;
        hash_blocks fuel (F8 state) (skipn 64 data) (bits - 512)
      else Some (state, data, bits)
  end.

Definition Update (state : hashState) (data : list Z) (bits : Z) : option hashState :=
  let state := mk_state (hashbitlen state) (u64 (databitlen state + bits)) (datasize_in_buffer state) (x state) (buffer state) in
  let used := Z.to_nat (Z.shiftr (datasize_in_buffer state) 3) in
  '(state, bits) <-
    (if (0 <? datasize_in_buffer state) && (datasize_in_buffer state + bits <? 512) then
       state <- copy_in used (if Z.land bits 7 =? 0 then 64 - used else 64 - used + 1) data state ;;
       Some (with_size (datasize_in_buffer state + bits) state, 0)
     else Some (state, bits)) ;;
  '(state, data, bits) <-
    (if (0 <? datasize_in_buffer state) && (512 <=? datasize_in_buffer state + bits) then
       let used := Z.to_nat (Z.shiftr (datasize_in_buffer state) 3) in
       state <- copy_in used (64 - used) data state ;;
       let bits := bits - (512 - datasize_in_buffer state) in
       Some (with_size 0 (F8 state), skipn (64 - used) data, bits)
     else Some (state, data, bits)) ;;
  '(state, data, bits) <- hash_blocks (Z.to_nat (bits / 512)) state data bits ;;
  if 0 <? bits then
    let n := Z.to_nat (Z.shiftr (Z.land bits 0x1ff) 3) in
    state <- copy_in 0 (if Z.land bits 7 =? 0 then n else n + 1) data state ;;
    Some (with_size bits state)
  else Some state.

(** The last block: zeros and the length, most significant byte first. *)
Definition length_block (first databitlen : Z) : list Z := first :: repeat 0 55 ++ rev (le_bytes 8 databitlen).

Definition Final (state : hashState) : list Z :=
  let bits := databitlen state in
  let state :=
    if Z.land bits 0x1ff =? 0 then F8 (with_buffer (length_block 0x80 bits) state)
    else
      let n := Z.to_nat (Z.shiftr (Z.land bits 0x1ff) 3) in
      let keep := if Z.land (datasize_in_buffer state) 7 =? 0 then n else (n + 1)%nat in
      let buf := firstn keep (buffer state) ++ repeat 0 (64 - keep) in
      let buf := set_nth n (Z.lor (nth n buf 0) (Z.shiftl 1 (7 - Z.land bits 7))) buf in
      let state := F8 (with_buffer buf state) in
      F8 (with_buffer (length_block 0 bits) state) in
  let out := bytes64 (x state) in
  if hashbitlen state =? 224 then firstn 28 (skipn (64 + 36) out)
  else if hashbitlen state =? 256 then firstn 32 (skipn (64 + 32) out)
  else if hashbitlen state =? 384 then firstn 48 (skipn (64 + 16) out)
  else if hashbitlen state =? 512 then firstn 64 (skipn 64 out) else [].

(** [None] within is [BAD_HASHLEN]. *)
Definition jh_hash (x0 buf : list Z) (hashbitlen : Z) (data : list Z) (databitlen : Z) : option (option (list Z)) :=
  if (hashbitlen =? 224) || (hashbitlen =? 256) || (hashbitlen =? 384) || (hashbitlen =? 512) then
    state <- Update (Init x0 buf hashbitlen) data databitlen ;;
    Some (Some (Final state))
  else Some None.

Definition hash_extra_jh (x0 buf data : list Z) : option (list Z) :=
  r <- jh_hash x0 buf (32 * 8) data (8 * Z.of_nat (length data)) ;; r.

(** ** The standard's view of messages

    A message is padded with a one bit, zeros and its length, so that at least 512 bits
    are added. *)

Module JhSpec.

Definition pad (len : nat) : list Z :=
  let r := (len mod 64)%nat in
  let zeros := (if r =? 0 then 47 else 111 - r)%nat in
  0x80 :: repeat 0 zeros ++ rev (le_bytes 16 (8 * Z.of_nat len)).

(** The block goes into the first half of the state before [E8] and into the second half after it. *)
Definition compress (h block : list Z) : list Z :=
  let m := words64 8 block in
  let v := E8 (xor_list (firstn 8 h) m ++ skipn 8 h) in
  firstn 8 v ++ xor_list (skipn 8 v) m.

Definition chained (h : list Z) (blocks : list (list Z)) : list Z := fold_left compress blocks h.

Definition hash (msg : list Z) : list Z :=
  let padded := msg ++ pad (length msg) in
  skipn 96 (bytes64 (chained (words64 16 JH256_H0) (chunks (length padded / 64) 64 padded))).

End JhSpec.

(** ** Lengths *)

Lemma E8_length v : length (E8 v) = length v.
Proof.
  assert (forall r swap v, length (E8_round v r swap) = length v) as R.
  { intros r swap u. unfold E8_round, half_round. cbn [fold_left]. unfold x_set. rewrite !set_nth_length. reflexivity. }
  assert (forall u, length (swap_halves u) = length u) as S by (intros u; unfold swap_halves, x_set; cbn [fold_left]; rewrite !set_nth_length; reflexivity).
  unfold E8. apply (fold_left_inv (fun u => length u = length v)); [|reflexivity]. intros u r _ <-. unfold seven_rounds. rewrite S, !R. reflexivity.
Qed.

Lemma jh_compress_length h block : length h = 16%nat -> length (JhSpec.compress h block) = 16%nat.
Proof.
  intros L. unfold JhSpec.compress. rewrite length_app, xor_list_length, length_firstn, length_skipn, E8_length, length_app, xor_list_length, length_firstn, length_skipn, words64_length, L. reflexivity.
Qed.

Lemma jh_digest msg : length (JhSpec.hash msg) = 32%nat.
Proof.
  unfold JhSpec.hash. cbv zeta. rewrite length_skipn, bytes64_length. unfold JhSpec.chained.
  rewrite (fold_left_inv (fun h => length h = 16%nat)); [reflexivity|intros h b _; apply jh_compress_length|apply words64_length].
Qed.

#[local] Opaque E8.

(** ** Buffering *)

Lemma F8_spec hl dl ds v buf : F8 (mk_state hl dl ds v buf) = mk_state hl dl ds (JhSpec.compress v buf) buf.
Proof. reflexivity. Qed.

(** A copy to the start of the buffer. *)
Lemma copy_start n data hl dl ds v buf : (n <= length data)%nat -> (n <= 64)%nat -> length buf = 64%nat ->
  exists buf', copy_in 0 n data (mk_state hl dl ds v buf) = Some (mk_state hl dl ds v buf') /\ holds 64 (firstn n data) buf'.
Proof.
  intros L1 L2 Lb. unfold copy_in. rewrite (proj2 (Nat.leb_le _ _)) by exact L1. rewrite (proj2 (Nat.leb_le _ _)) by (cbn; exact L2). cbn [andb].
  eexists. split; [reflexivity|]. assert (length (firstn n data) = n) as Ln by (rewrite length_firstn; lia).
  pose proof (holds_put 64 [] (firstn n data) buf (holds_nil _ _ Lb)) as H. cbn [length Nat.add] in H |- *. rewrite Ln in H. apply H. exact L2.
Qed.

Lemma hash_blocks_spec n : forall data hl dl ds v buf, length buf = 64%nat -> (64 * n <= length data < 64 * n + 64)%nat ->
  exists buf', hash_blocks n (mk_state hl dl ds v buf) data (8 * Z.of_nat (length data)) =
    Some (mk_state hl dl ds (JhSpec.chained v (chunks n 64 data)) buf', skipn (64 * n) data, 8 * Z.of_nat (length data - 64 * n)) /\ length buf' = 64%nat.
Proof.
  unfold JhSpec.chained. induction n as [|n IH]; intros data hl dl ds v buf Lb L; cbn [hash_blocks].
  - exists buf. rewrite Nat.sub_0_r. auto.
  - rewrite (proj2 (Z.leb_le _ _)) by lia. destruct (copy_start 64 data hl dl ds v buf) as (b1 & -> & H); [lia|lia|exact Lb|]. cbn [obind].
    pose proof (holds_full _ _ _ H ltac:(rewrite length_firstn; lia)) as ->. rewrite F8_spec.
    destruct (IH (skipn 64 data) hl dl ds (JhSpec.compress v (firstn 64 data)) (firstn 64 data)) as (b2 & E & L2);
      [rewrite length_firstn; lia|rewrite length_skipn; lia|].
    rewrite length_skipn in E. replace (8 * Z.of_nat (length data) - 512) with (8 * Z.of_nat (length data - 64)) by lia. rewrite E.
    exists b2. split; [|exact L2]. rewrite skipn_skipn. replace (length data - 64 - 64 * n)%nat with (length data - 64 * S n)%nat by lia. replace (64 * n + 64)%nat with (64 * S n)%nat by lia.
    change (chunks (S n) 64 data) with (firstn 64 data :: chunks n 64 (skipn 64 data)). rewrite fold_left_cons. reflexivity.
Qed.

Lemma bit_shift n : Z.to_nat (Z.shiftr (8 * Z.of_nat n) 3) = n.
Proof. rewrite Z.shiftr_div_pow2, Z.mul_comm, Z.div_mul by lia. apply Nat2Z.id. Qed.

Lemma bit_rest n : Z.land (8 * Z.of_nat n) 7 = 0.
Proof. change 7 with (Z.ones 3). rewrite Z.land_ones, Z.mul_comm by lia. apply Z.mod_mul. lia. Qed.

Lemma bit_block n : Z.land (8 * Z.of_nat n) 0x1ff = 8 * Z.of_nat (n mod 64).
Proof.
  change 0x1ff with (Z.ones 9). rewrite Z.land_ones by lia. change (2 ^ 9) with (8 * 64). rewrite Zmult_mod_distr_l, Nat2Z.inj_mod. reflexivity.
Qed.

Definition iv : list Z := words64 16 JH256_H0.

(** The state after a message: the whole blocks are in the chain value. *)
Lemma jh_Update_spec x0 buf msg : length buf = 64%nat -> 8 * Z.of_nat (length msg) < 2 ^ 64 ->
  let n := (length msg / 64)%nat in
  exists buf' ds, Update (Init x0 buf 256) msg (8 * Z.of_nat (length msg)) =
    Some (mk_state 256 (8 * Z.of_nat (length msg)) ds (JhSpec.chained iv (chunks n 64 msg)) buf') /\ Z.land ds 7 = 0 /\ holds 64 (skipn (64 * n) msg) buf'.
Proof.
  intros Lb B n. pose proof (Nat.div_mod (length msg) 64 ltac:(lia)) as D. pose proof (Nat.mod_upper_bound (length msg) 64 ltac:(lia)) as U. fold n in D.
  unfold Update, Init. cbn [hashbitlen databitlen datasize_in_buffer x buffer Z.eqb Pos.eqb]. cbn [Z.ltb Z.compare andb obind datasize_in_buffer]. change (0 <? 0) with false. cbn [andb obind].
  rewrite Z.add_0_l, u64_small by lia. fold iv. replace (Z.to_nat (8 * Z.of_nat (length msg) / 512)) with n.
  2:{ change 512 with (8 * 64). rewrite Z.div_mul_cancel_l by lia. rewrite <- (Nat2Z.inj_div _ 64), Nat2Z.id. reflexivity. }
  destruct (hash_blocks_spec n msg 256 (8 * Z.of_nat (length msg)) 0 iv buf Lb ltac:(lia)) as (b1 & -> & L1). cbn [obind].
  set (r := (length msg - 64 * n)%nat). assert (length (skipn (64 * n) msg) = r) as Lr by (apply length_skipn).
  destruct (Nat.eq_dec r 0) as [Z|P].
  - rewrite Z. cbn [Z.of_nat Z.mul Z.ltb Z.compare]. exists b1, 0. split; [reflexivity|]. split; [reflexivity|].
    rewrite (proj1 (length_zero_iff_nil _) (eq_trans Lr Z)). apply holds_nil, L1.
  - rewrite (proj2 (Z.ltb_lt _ _)), bit_rest, bit_block by lia. cbn [Z.eqb]. rewrite bit_shift, (Nat.mod_small r) by lia.
    destruct (copy_start r (skipn (64 * n) msg) 256 (8 * Z.of_nat (length msg)) 0 (JhSpec.chained iv (chunks n 64 msg)) b1) as (b2 & -> & H); [lia|lia|exact L1|]. cbn [obind].
    exists b2, (8 * Z.of_nat r). split; [reflexivity|]. split; [apply bit_rest|]. rewrite <- Lr, firstn_all in H. exact H.
Qed.

(** ** The end of the message *)

Lemma set_zero c k v : (0 < k)%nat -> set_nth (length c) v (c ++ repeat 0 k) = c ++ v :: repeat 0 (k - 1).
Proof. destruct k as [|k]; [lia|]. intros _. cbn [repeat]. rewrite set_nth_app. cbn [Nat.sub]. rewrite Nat.sub_0_r. reflexivity. Qed.

Lemma length_16 v : 0 <= v < 2 ^ 64 -> rev (le_bytes 16 v) = repeat 0 8 ++ rev (le_bytes 8 v).
Proof.
  intros H. rewrite (le_bytes_split 8 8), rev_app_distr. change (256 ^ Z.of_nat 8) with (2 ^ 64). rewrite Z.mod_small, Z.div_small by exact H. reflexivity.
Qed.

(** What [Final] makes of a state. *)
Lemma jh_Final_spec ds h buf len c : holds 64 c buf -> length c = (len mod 64)%nat -> Z.land ds 7 = 0 -> 8 * Z.of_nat len < 2 ^ 64 ->
  let field := rev (le_bytes 8 (8 * Z.of_nat len)) in
  Final (mk_state 256 (8 * Z.of_nat len) ds h buf) = firstn 32 (skipn 96 (bytes64
    (match c with
     | [] => JhSpec.compress h (0x80 :: repeat 0 55 ++ field)
     | _ => JhSpec.compress (JhSpec.compress h (c ++ 0x80 :: repeat 0 (63 - length c))) (repeat 0 56 ++ field)
     end))).
Proof.
  intros H Lc Hd B field. pose proof (Nat.mod_upper_bound len 64 ltac:(lia)) as U. unfold Final. cbn [databitlen datasize_in_buffer x buffer]. rewrite bit_block, <- Lc, Hd, bit_rest, bit_shift. cbn [Z.eqb].
  destruct c as [|a c']; [reflexivity|]. set (c := a :: c') in *. assert (0 < length c)%nat as P by (unfold c; cbn [length]; lia).
  rewrite (proj2 (Z.eqb_neq (8 * Z.of_nat (length c)) 0)) by lia.
  rewrite (proj2 H). replace (nth (length c) (c ++ repeat 0 (64 - length c)) 0) with 0.
  2:{ rewrite app_nth2, Nat.sub_diag by lia. destruct (64 - length c)%nat; reflexivity. }
  rewrite set_zero by lia. replace (64 - length c - 1)%nat with (63 - length c)%nat by lia. reflexivity.
Qed.

(** The code hashes as the standard does, whatever its state contains. *)
Lemma jh_spec x0 buf msg : length buf = 64%nat -> Z.of_nat (length msg) < 2 ^ 61 -> hash_extra_jh x0 buf msg = Some (JhSpec.hash msg).
Proof.
  intros Lb B. unfold hash_extra_jh, jh_hash. change (32 * 8) with 256. cbn [Z.eqb Pos.eqb orb].
  destruct (jh_Update_spec x0 buf msg Lb ltac:(lia)) as (b1 & ds & -> & Hd & H). cbn [obind].
  pose proof (Nat.div_mod (length msg) 64 ltac:(lia)) as D. pose proof (Nat.mod_upper_bound (length msg) 64 ltac:(lia)) as U.
  set (n := (length msg / 64)%nat) in *. set (c := skipn (64 * n) msg) in *. assert (length c = (length msg mod 64)%nat) as Lc by (unfold c; rewrite length_skipn; lia).
  rewrite (jh_Final_spec ds _ b1 (length msg) c H Lc Hd) by lia. set (h := JhSpec.chained iv (chunks n 64 msg)).
  apply (f_equal Some). rewrite <- (firstn_all2 (n := 32) (JhSpec.hash msg)) by (rewrite jh_digest; lia). apply (f_equal (fun h => firstn 32 (skipn 96 (bytes64 h)))). unfold JhSpec.pad. rewrite <- Lc, length_16 by lia. set (field := rev (le_bytes 8 _)).
  assert (length field = 8%nat) as Lf by (unfold field; rewrite length_rev; apply le_bytes_length). rewrite app_assoc, <- repeat_app.
  rewrite length_app. cbn [length]. rewrite length_app, repeat_length, Lf. fold iv. destruct c as [|a c'] eqn:Ec.
  - cbn [length Nat.eqb] in *. change (47 + 8)%nat with 55%nat. replace (length msg + S (55 + 8))%nat with ((n + 1) * 64)%nat by lia. rewrite Nat.div_mul by lia.
    rewrite chunks_snoc; [|fold c; rewrite Ec; cbn [app length]; rewrite length_app, repeat_length, Lf; reflexivity|lia].
    fold c. rewrite Ec. unfold JhSpec.chained. rewrite fold_left_app. fold (JhSpec.chained iv (chunks n 64 msg)). fold h. rewrite fold_left_cons. reflexivity.
  - rewrite <- Ec in *. set (r := length c) in *. assert (0 < r)%nat as Pr by (unfold r; rewrite Ec; cbn; lia). rewrite (proj2 (Nat.eqb_neq r 0)) by lia.
    replace (111 - r + 8)%nat with (63 - r + 56)%nat by lia. replace (length msg + S (63 - r + 56 + 8))%nat with ((n + 1 + 1) * 64)%nat by lia. rewrite Nat.div_mul by lia.
    rewrite repeat_app, <- app_assoc. set (first := 0x80 :: repeat 0 (63 - r)). set (last := repeat 0 56 ++ field). change (0x80 :: repeat 0 (63 - r) ++ last) with (first ++ last).
    assert (length first = 64 - r)%nat as Lfi by (unfold first; cbn [length]; rewrite repeat_length; lia).
    rewrite app_assoc, chunks_snoc.
    2:{ unfold last. rewrite (skipn_all2 (msg ++ first)) by (rewrite length_app; lia). cbn [app]. rewrite length_app, repeat_length, Lf. reflexivity. }
    2:{ rewrite length_app. lia. }
    rewrite (skipn_all2 (msg ++ first)) by (rewrite length_app; lia). rewrite chunks_snoc by (fold c; rewrite ?length_app; fold r; lia). fold c.
    unfold JhSpec.chained. rewrite !fold_left_app. fold (JhSpec.chained iv (chunks n 64 msg)). fold h. rewrite !fold_left_cons. rewrite Ec. reflexivity.
Qed.

