(* ===== verification/Skein.v ===== *)
(** * Skein (skein.c, hash-extra-skein.c)

    Threefish on 8 and on 16 words of 64 bits, the chaining of blocks with their tweaks,
    and the hash.  [Skein_512] serves digests up to 512 bits, [Skein1024] longer ones; the
    code for 256-bit states cannot be reached in this configuration, and the code for MACs
    and trees is left out by the preprocessor.

    The 1024-bit key schedule is the looping version: tweak and key words are parts of one
    array [kw] whose windows move through it and overlap.

    Module [SkeinSpec] has the configuration, the message and the output as three chains
    of blocks with tweaks; the code does the same, and its table of initial chain values
    is right. *)

From Stdlib Require Import ZArith Lia List Bool.
Import ListNotations.
From S2P Require Import Prelude Bytes Keccak IntUtil.
Set Default Goal Selector "!".

Definition SKEIN_MK_64 (hi32 lo32 : Z) : Z := u64 (lo32 + u64 (Z.shiftl hi32 32)).
Abbreviation MK_64 := SKEIN_MK_64.

Definition SKEIN_T1_POS_BIT_PAD : Z := 119 - 64.
Definition SKEIN_T1_POS_BLK_TYPE : Z := 120 - 64.
Definition SKEIN_T1_POS_FIRST : Z := 126 - 64.
Definition SKEIN_T1_POS_FINAL : Z := 127 - 64.
Definition SKEIN_T1_FLAG_FIRST : Z := Z.shiftl 1 SKEIN_T1_POS_FIRST.
Definition SKEIN_T1_FLAG_FINAL : Z := Z.shiftl 1 SKEIN_T1_POS_FINAL.
Definition SKEIN_T1_FLAG_BIT_PAD : Z := Z.shiftl 1 SKEIN_T1_POS_BIT_PAD.
Definition SKEIN_BLK_TYPE_CFG : Z := 4.
Definition SKEIN_BLK_TYPE_MSG : Z := 48.
Definition SKEIN_BLK_TYPE_OUT : Z := 63.
Definition SKEIN_T1_BLK_TYPE (type : Z) : Z := Z.shiftl type SKEIN_T1_POS_BLK_TYPE.
Definition SKEIN_T1_BLK_TYPE_CFG_FINAL : Z := Z.lor (SKEIN_T1_BLK_TYPE SKEIN_BLK_TYPE_CFG) SKEIN_T1_FLAG_FINAL.
Definition SKEIN_T1_BLK_TYPE_OUT_FINAL : Z := Z.lor (SKEIN_T1_BLK_TYPE SKEIN_BLK_TYPE_OUT) SKEIN_T1_FLAG_FINAL.
Definition SKEIN_VERSION : Z := 1.
Definition SKEIN_ID_STRING_LE : Z := 0x33414853.
Definition SKEIN_SCHEMA_VER : Z := SKEIN_MK_64 SKEIN_VERSION SKEIN_ID_STRING_LE.
Definition SKEIN_KS_PARITY : Z := SKEIN_MK_64 0x1BD11BDA 0xA9FC1A22.
Definition SKEIN_CFG_STR_LEN : Z := 4 * 8.
Definition SKEIN_CFG_TREE_INFO_SEQUENTIAL : Z := 0.

Definition SKEIN_512_IV_224 : list Z := [
  MK_64 0xCCD06162 0x48677224; MK_64 0xCBA65CF3 0xA92339EF; MK_64 0x8CCD69D6 0x52FF4B64; MK_64 0x398AED7B 0x3AB890B4;
  MK_64 0x0F59D1B1 0x457D2BD0; MK_64 0x6776FE65 0x75D4EB3D; MK_64 0x99FBC70E 0x997413E9; MK_64 0x9E2CFCCF 0xE1C41EF7].
Definition SKEIN_512_IV_256 : list Z := [
  MK_64 0xCCD044A1 0x2FDB3E13; MK_64 0xE8359030 0x1A79A9EB; MK_64 0x55AEA061 0x4F816E6F; MK_64 0x2A2767A4 0xAE9B94DB;
  MK_64 0xEC06025E 0x74DD7683; MK_64 0xE7A436CD 0xC4746251; MK_64 0xC36FBAF9 0x393AD185; MK_64 0x3EEDBA18 0x33EDFC13].
Definition SKEIN_512_IV_384 : list Z := [
  MK_64 0xA3F6C6BF 0x3A75EF5F; MK_64 0xB0FEF9CC 0xFD84FAA4; MK_64 0x9D77DD66 0x3D770CFE; MK_64 0xD798CBF3 0xB468FDDA;
  MK_64 0x1BC4A666 0x8A0E4465; MK_64 0x7ED7D434 0xE5807407; MK_64 0x548FC1AC 0xD4EC44D6; MK_64 0x266E1754 0x6AA18FF8].
Definition SKEIN_512_IV_512 : list Z := [
  MK_64 0x4903ADFF 0x749C51CE; MK_64 0x0D95DE39 0x9746DF03; MK_64 0x8FD19341 0x27C79BCE; MK_64 0x9A255629 0xFF352CB1;
  MK_64 0x5DB62599 0xDF6CA7B0; MK_64 0xEABE394C 0xA9D5C3F4; MK_64 0x991112C7 0x1A75B523; MK_64 0xAE18A40B 0x660FCC33].
Definition SKEIN1024_IV_384 : list Z := [
  MK_64 0x5102B6B8 0xC1894A35; MK_64 0xFEEBC9E3 0xFE8AF11A; MK_64 0x0C807F06 0xE32BED71; MK_64 0x60C13A52 0xB41A91F6;
  MK_64 0x9716D35D 0xD4917C38; MK_64 0xE780DF12 0x6FD31D3A; MK_64 0x797846B6 0xC898303A; MK_64 0xB172C2A8 0xB3572A3B;
  MK_64 0xC9BC8203 0xA6104A6C; MK_64 0x65909338 0xD75624F4; MK_64 0x94BCC568 0x4B3F81A0; MK_64 0x3EBBF51E 0x10ECFD46;
  MK_64 0x2DF50F0B 0xEEB08542; MK_64 0x3B5A6530 0x0DBC6516; MK_64 0x484B9CD2 0x167BBCE1; MK_64 0x2D136947 0xD4CBAFEA].
Definition SKEIN1024_IV_512 : list Z := [
  MK_64 0xCAEC0E5D 0x7C1B1B18; MK_64 0xA01B0E04 0x5F03E802; MK_64 0x33840451 0xED912885; MK_64 0x374AFB04 0xEAEC2E1C;
  MK_64 0xDF25A0E2 0x813581F7; MK_64 0xE4004093 0x8B12F9D2; MK_64 0xA662D539 0xC2ED39B6; MK_64 0xFA8B85CF 0x45D8C75A;
  MK_64 0x8316ED8E 0x29EDE796; MK_64 0x053289C0 0x2E9F91B8; MK_64 0xC3F8EF1D 0x6D518B73; MK_64 0xBDCEC3C4 0xD5EF332E;
  MK_64 0x549A7E52 0x22974487; MK_64 0x67070872 0x5B749816; MK_64 0xB9CD28FB 0xF0581BD1; MK_64 0x0E2940B8 0x15804974].
Definition SKEIN1024_IV_1024 : list Z := [
  MK_64 0xD593DA07 0x41E72355; MK_64 0x15B5E511 0xAC73E00C; MK_64 0x5180E5AE 0xBAF2C4F0; MK_64 0x03BD41D3 0xFCBCAFAF;
  MK_64 0x1CAEC6FD 0x1983A898; MK_64 0x6E510B8B 0xCDD0589F; MK_64 0x77E2BDFD 0xC6394ADA; MK_64 0xC11E1DB5 0x24DCB0A3;
  MK_64 0xD6D14AF9 0xC6329AB5; MK_64 0x6A9B0BFC 0x6EB67E0D; MK_64 0x9243C60D 0xCCFF1332; MK_64 0x1A1F1DDE 0x743F02D4;
  MK_64 0x0996753C 0x10ED0BB8; MK_64 0x6572DD22 0xF2B4969A; MK_64 0x61FD3062 0xD00A579A; MK_64 0x1DE0536E 0x8682E539].

(** The rotation amounts, a list for each of eight rounds. *)
Definition R_512 : list (list Z) := [[46; 36; 19; 37]; [33; 27; 14; 42]; [17; 49; 36; 39]; [44; 9; 54; 56]; [39; 30; 34; 24]; [13; 50; 10; 17]; [25; 29; 39; 43]; [8; 35; 56; 22]].
Definition R1024 : list (list Z) := [[24; 13; 8; 47; 8; 17; 22; 37]; [38; 19; 10; 55; 49; 18; 23; 52]; [33; 4; 51; 13; 34; 41; 59; 17]; [5; 20; 48; 41; 47; 28; 16; 25]; [41; 9; 37; 31; 12; 47; 44; 30]; [16; 34; 56; 51; 4; 53; 42; 41]; [31; 44; 47; 46; 19; 42; 44; 25]; [9; 48; 35; 52; 23; 31; 37; 20]].

Definition SKEIN_512_ROUNDS_TOTAL : nat := 72.
Definition SKEIN1024_ROUNDS_TOTAL : nat := 80.

(** ** Rounds *)

Definition RotL_64 (x N : Z) : Z := Z.lor (u64 (Z.shiftl x N)) (Z.shiftr x (64 - N)).

(** [Xa += Xb; Xb = RotL_64(Xb, r); Xb ^= Xa] *)
Definition mix (X : list Z) (a b : nat) (r : Z) : list Z :=
  let X := set_nth a (u64 (nth a X 0 + nth b X 0)) X in
  let X := set_nth b (RotL_64 (nth b X 0) r) X in
  set_nth b (Z.lxor (nth b X 0) (nth a X 0)) X.

(** [Round512] and [Round1024]: [p] are the numbers of the words, in pairs. *)
Fixpoint skein_round (X : list Z) (p : list nat) (rot : list Z) : list Z :=
  match p, rot with
  | a :: b :: p, r :: rot => skein_round (mix X a b r) p rot
  | _, _ => X
  end.

(** The words of the state that four rounds in a row combine. *)
Definition pairs_512 : list (list nat) := [[0; 1; 2; 3; 4; 5; 6; 7]; [2; 1; 4; 7; 6; 5; 0; 3]; [4; 1; 6; 3; 0; 5; 2; 7]; [6; 1; 0; 7; 2; 5; 4; 3]]%nat.
Definition pairs1024 : list (list nat) := [
  [0; 1; 2; 3; 4; 5; 6; 7; 8; 9; 10; 11; 12; 13; 14; 15]; [0; 9; 2; 13; 6; 11; 4; 15; 10; 7; 12; 3; 14; 5; 8; 1];
  [0; 7; 2; 5; 4; 3; 6; 1; 12; 15; 14; 13; 8; 11; 10; 9]; [0; 15; 2; 11; 6; 13; 4; 9; 14; 1; 8; 5; 10; 3; 12; 7]]%nat.

Definition four_rounds (pairs : list (list nat)) (rots : list (list Z)) (from : nat) (X : list Z) : list Z :=
  fold_left (fun X i => skein_round X (nth i pairs []) (nth (from + i) rots [])) (seq 0 4) X.

(** ** Threefish on 8 words *)

(** [I512(R)]: inject the key. *)
Definition I512 (ks ts : list Z) (X : list Z) (R : nat) : list Z :=
  let k i := nth ((R + 1 + i) mod 9) ks 0 in
  let t i := nth ((R + i) mod 3) ts 0 in
  map (fun i => u64 (nth i X 0 + (match i with
    | 5%nat => u64 (k 5%nat + t 1%nat) | 6%nat => u64 (k 6%nat + t 2%nat) | 7%nat => u64 (u64 (k 7%nat + Z.of_nat R) + 1) | _ => k i end))) (seq 0 8).

Definition R512_8_rounds (ks ts : list Z) (X : list Z) (R : nat) : list Z :=
  let X := four_rounds pairs_512 R_512 0 X in
  let X := I512 ks ts X (2 * R) in
  let X := four_rounds pairs_512 R_512 4 X in
  I512 ks ts X (2 * R + 1).

(** The new chaining words from the old ones, the tweak and the block. *)
Definition block_512 (X : list Z) (T0 T1 : Z) (w : list Z) : list Z :=
  let ks := X ++ [Z.lxor (fold_left Z.lxor (skipn 1 X) (nth 0 X 0)) SKEIN_KS_PARITY] in
  let ts := [T0; T1; Z.lxor T0 T1] in
  let V := map (fun i => u64 (nth i w 0 + (match i with 5%nat => u64 (nth 5 ks 0 + T0) | 6%nat => u64 (nth 6 ks 0 + T1) | _ => nth i ks 0 end))) (seq 0 8) in
  let V := fold_left (R512_8_rounds ks ts) (seq 0 (SKEIN_512_ROUNDS_TOTAL / 8)) V in
  xor_list V w.

(** ** Threefish on 16 words *)

(** [ts] is [kw] and [ks] is [kw + 3]. *)
Definition ks_at (kw : list Z) (i : nat) : Z := nth (3 + i) kw 0.
Definition ts_at (kw : list Z) (i : nat) : Z := nth i kw 0.

(** [I1024(R)] with [s] for [r + (R)]: inject the key and move the windows on. *)
Definition I1024 (st : list Z * list Z) (s : nat) : list Z * list Z :=
  let '(X, kw) := st in
  let X := map (fun i => u64 (nth i X 0 + (match i with
    | 13%nat => u64 (ks_at kw (s + 13) + ts_at kw s) | 14%nat => u64 (ks_at kw (s + 14) + ts_at kw (s + 1))
    | 15%nat => u64 (ks_at kw (s + 15) + Z.of_nat s) | _ => ks_at kw (s + i) end))) (seq 0 16) in
  let kw := set_nth (3 + (s + 16)) (ks_at kw (s - 1)) kw in
  let kw := set_nth (s + 2) (ts_at kw (s - 1)) kw in
  (X, kw).

(** The body of the loop, for [r]. *)
Definition R1024_8_rounds (st : list Z * list Z) (r : nat) : list Z * list Z :=
  let '(X, kw) := st in
  let '(X, kw) := I1024 (four_rounds pairs1024 R1024 0 X, kw) (r + 0) in
  I1024 (four_rounds pairs1024 R1024 4 X, kw) (r + 1).

(** [kw] as it is for the first block of a call; every block writes what it reads later. *)
Definition block1024 (X : list Z) (T0 T1 : Z) (w : list Z) : list Z :=
  let kw := [T0; T1; Z.lxor T0 T1] ++ X ++ [Z.lxor (fold_left Z.lxor (skipn 1 X) (nth 0 X 0)) SKEIN_KS_PARITY] ++ repeat 0 20 in
  let V := map (fun i => u64 (nth i w 0 + (match i with 13%nat => u64 (ks_at kw 13 + T0) | 14%nat => u64 (ks_at kw 14 + T1) | _ => ks_at kw i end))) (seq 0 16) in
  let '(V, _) := fold_left R1024_8_rounds (map (fun i => 2 * i + 1)%nat (seq 0 (SKEIN1024_ROUNDS_TOTAL / 8))) (V, kw) in
  xor_list V w.

(** ** Contexts

    The functions for the two sizes differ in the number of words and in the block function. *)

Record Ctxt := mk_ctxt { hashBitLen : Z; bCnt : nat; T0 : Z; T1 : Z; X : list Z; b : list Z }.

(** [Skein_Start_New_Type]: [T0 = 0; T1 = FIRST | type; bCnt = 0] *)
Definition Skein_Start_New_Type (ctx : Ctxt) (type : Z) : Ctxt := mk_ctxt (hashBitLen ctx) 0 0 (Z.lor SKEIN_T1_FLAG_FIRST type) (X ctx) (b ctx).

Definition with_X (v : list Z) (ctx : Ctxt) : Ctxt := mk_ctxt (hashBitLen ctx) (bCnt ctx) (T0 ctx) (T1 ctx) v (b ctx).
Definition with_b (n : nat) (v : list Z) (ctx : Ctxt) : Ctxt := mk_ctxt (hashBitLen ctx) n (T0 ctx) (T1 ctx) (X ctx) v.
Definition with_T1 (v : Z) (ctx : Ctxt) : Ctxt := mk_ctxt (hashBitLen ctx) (bCnt ctx) (T0 ctx) v (X ctx) (b ctx).

Section Sizes.

Variable WCNT : nat.
Variable block : list Z -> Z -> Z -> list Z -> list Z.

Definition BLOCK_BYTES : nat := 8 * WCNT.

(** [Process_Block]; [blkCnt] is not 0 in any call. *)
Fixpoint Process_Block (ctx : Ctxt) (blkPtr : list Z) (blkCnt : nat) (byteCntAdd : Z) : Ctxt :=
  match blkCnt with
  | O => ctx
  | S blkCnt =>
      let t0 := u64 (T0 ctx + byteCntAdd) in
      let v := block (X ctx) t0 (T1 ctx) (words64 WCNT blkPtr) in
      let ctx := mk_ctxt (hashBitLen ctx) (bCnt ctx) t0 (Z.land (T1 ctx) (u64 (Z.lnot SKEIN_T1_FLAG_FIRST))) v (b ctx) in
      Process_Block ctx (skipn BLOCK_BYTES blkPtr) blkCnt byteCntAdd
  end.

(** The initial chaining words from the configuration block. *)
Definition computed_IV (ctx : Ctxt) : Ctxt :=
  let ctx := Skein_Start_New_Type ctx SKEIN_T1_BLK_TYPE_CFG_FINAL in
  let cfg := bytes64 ([SKEIN_SCHEMA_VER; hashBitLen ctx; SKEIN_CFG_TREE_INFO_SEQUENTIAL] ++ repeat 0 (WCNT - 3)) in
  Process_Block (with_X (repeat 0 WCNT) ctx) cfg 1 SKEIN_CFG_STR_LEN.

Definition Skein_Init (ivs : list (Z * list Z)) (ctx : Ctxt) (len : Z) : Ctxt :=
  let ctx := mk_ctxt len (bCnt ctx) (T0 ctx) (T1 ctx) (X ctx) (b ctx) in
  let ctx := match find (fun '(n, _) => len =? n) ivs with Some (_, iv) => with_X iv ctx | None => computed_IV ctx end in
  Skein_Start_New_Type ctx (SKEIN_T1_BLK_TYPE SKEIN_BLK_TYPE_MSG).

(** [memcpy(&ctx->b[ctx->h.bCnt], msg, n); ctx->h.bCnt += n] *)
Definition put_b (ctx : Ctxt) (msg : list Z) : Ctxt :=
  with_b (bCnt ctx + length msg) (firstn (bCnt ctx) (b ctx) ++ msg ++ skipn (bCnt ctx + length msg) (b ctx)) ctx.

Definition Skein_Update (ctx : Ctxt) (msg : list Z) : Ctxt :=
  let '(ctx, msg) :=
    if (BLOCK_BYTES <? length msg + bCnt ctx)%nat then
      let '(ctx, msg) :=
        if (bCnt ctx =? 0)%nat then (ctx, msg)
        else
          let n := (BLOCK_BYTES - bCnt ctx)%nat in
          let ctx := put_b ctx (firstn n msg) in
          (with_b 0 (b ctx) (Process_Block ctx (b ctx) 1 (Z.of_nat BLOCK_BYTES)), skipn n msg) in
      if (BLOCK_BYTES <? length msg)%nat then
        let n := ((length msg - 1) / BLOCK_BYTES)%nat in
        (Process_Block ctx msg n (Z.of_nat BLOCK_BYTES), skipn (n * BLOCK_BYTES) msg)
      else (ctx, msg)
    else (ctx, msg) in
  match msg with [] => ctx | _ => put_b ctx msg end.

(** The output blocks from number [i] on; [fuel] bounds their number. *)
Fixpoint output_blocks (fuel : nat) (ctx : Ctxt) (key : list Z) (i byteCnt : nat) : list Z :=
  match fuel with
  | O => []
  | S fuel =>
      if (i * BLOCK_BYTES <? byteCnt)%nat then
        let ctr := le_bytes 8 (Z.of_nat i) ++ repeat 0 (BLOCK_BYTES - 8) in
        let ctx := Process_Block (Skein_Start_New_Type ctx SKEIN_T1_BLK_TYPE_OUT_FINAL) ctr 1 8 in
        let n := Nat.min (byteCnt - i * BLOCK_BYTES) BLOCK_BYTES in
        firstn n (bytes64 (X ctx)) ++ output_blocks fuel (with_X key ctx) key (i + 1) byteCnt
      else []
  end.

Definition Skein_Final (ctx : Ctxt) : list Z :=
  let ctx := with_T1 (Z.lor (T1 ctx) SKEIN_T1_FLAG_FINAL) ctx in
  let ctx := with_b (bCnt ctx) (firstn (bCnt ctx) (b ctx) ++ repeat 0 (BLOCK_BYTES - bCnt ctx)) ctx in
  let ctx := Process_Block ctx (b ctx) 1 (Z.of_nat (bCnt ctx)) in
  let byteCnt := Z.to_nat (Z.shiftr (u64 (hashBitLen ctx + 7)) 3) in
  output_blocks (byteCnt / BLOCK_BYTES + 1) ctx (X ctx) 0 byteCnt.

End Sizes.

Definition Skein_512_Process_Block := Process_Block 8 block_512.
Definition Skein_512_Init := Skein_Init 8 block_512 [(512, SKEIN_512_IV_512); (384, SKEIN_512_IV_384); (256, SKEIN_512_IV_256); (224, SKEIN_512_IV_224)].
Definition Skein_512_Update := Skein_Update 8 block_512.
Definition Skein_512_Final := Skein_Final 8 block_512.

Definition Skein1024_Process_Block := Process_Block 16 block1024.
Definition Skein1024_Init := Skein_Init 16 block1024 [(512, SKEIN1024_IV_512); (384, SKEIN1024_IV_384); (1024, SKEIN1024_IV_1024)].
Definition Skein1024_Update := Skein_Update 16 block1024.
Definition Skein1024_Final := Skein_Final 16 block1024.

(** ** The hash *)

(** [statebits] and the context it selects. *)
Record hashState := mk_state { statebits : Z; ctx : Ctxt }.

Definition SKEIN_512_NIST_MAX_HASHBITS : Z := 512.

(** [c0] are the unknown contents of the context. *)
Definition Init (c0 : Ctxt) (hashbitlen : Z) : hashState :=
  if hashbitlen <=? SKEIN_512_NIST_MAX_HASHBITS then mk_state (64 * 8) (Skein_512_Init c0 (u64 hashbitlen))
  else mk_state (64 * 16) (Skein1024_Init c0 (u64 hashbitlen)).

Definition update_bytes (state : hashState) (msg : list Z) : hashState :=
  if Z.land (Z.shiftr (statebits state) 8) 3 =? 2 then mk_state (statebits state) (Skein_512_Update (ctx state) msg)
  else mk_state (statebits state) (Skein1024_Update (ctx state) msg).

(** [data] has [databitlen] bits, in whole bytes or with a partial last byte. *)
Definition Update (state : hashState) (data : list Z) (databitlen : Z) : hashState :=
  let n := Z.to_nat (Z.shiftr databitlen 3) in
  if Z.land databitlen 7 =? 0 then update_bytes state (firstn n data)
  else
    let mask := Z.shiftl 1 (7 - Z.land databitlen 7) in
    let last := Z.lor (Z.land (nth n data 0) (wrap U8 (0 - mask))) mask in
    let state := update_bytes (update_bytes state (firstn n data)) [last] in
    mk_state (statebits state) (with_T1 (Z.lor (T1 (ctx state)) SKEIN_T1_FLAG_BIT_PAD) (ctx state)).

Definition Final (state : hashState) : list Z :=
  if Z.land (Z.shiftr (statebits state) 8) 3 =? 2 then Skein_512_Final (ctx state) else Skein1024_Final (ctx state).

Definition skein_hash (c0 : Ctxt) (hashbitlen : Z) (data : list Z) (databitlen : Z) : list Z := Final (Update (Init c0 hashbitlen) data databitlen).

Definition hash_extra_skein (c0 : Ctxt) (data : list Z) : list Z := skein_hash c0 (8 * 32) data (8 * Z.of_nat (length data)).

(** ** The standard's view of messages

    A message is cut into blocks, the last one filled with zeros; every block goes through
    Threefish with the number of bytes so far, the type of the message and marks for the
    first and the last block.  The configuration, the message and the output are three
    such messages. *)

Module SkeinSpec.

Definition blocks (len : nat) : nat := ((len - 1) / 64 + 1)%nat.

Definition tweak_type (type : Z) (first last : bool) : Z :=
  (if last then 2 ^ 63 else 0) + (if first then 2 ^ 62 else 0) + type * 2 ^ 56.

Definition ubi_block (type : Z) (msg : list Z) (X : list Z) (i : nat) : list Z :=
  let piece := firstn 64 (skipn (64 * i) msg) in
  block_512 X (Z.of_nat (64 * i + length piece)) (tweak_type type (i =? 0)%nat (i + 1 =? blocks (length msg))%nat)
    (words64 8 (piece ++ repeat 0 (64 - length piece))).

Definition ubi (type : Z) (X msg : list Z) : list Z := fold_left (ubi_block type msg) (seq 0 (blocks (length msg))) X.

(** The identifier, the version and the length of the digest in bits. *)
Definition config (bits : Z) : list Z := le_bytes 4 0x33414853 ++ le_bytes 2 1 ++ [0; 0] ++ le_bytes 8 bits ++ repeat 0 16.

(** A digest of at most 64 bytes. *)
Definition hash (bytes : nat) (msg : list Z) : list Z :=
  let iv := ubi 4 (repeat 0 8) (config (8 * Z.of_nat bytes)) in
  firstn bytes (bytes64 (ubi 63 (ubi 48 iv msg) (repeat 0 8))).

End SkeinSpec.

(** The table of initial chain values is what the configuration gives. *)
Lemma precomputed_IVs : Forall (fun '(n, iv) => SkeinSpec.ubi 4 (repeat 0 8) (SkeinSpec.config n) = iv)
  [(224, SKEIN_512_IV_224); (256, SKEIN_512_IV_256); (384, SKEIN_512_IV_384); (512, SKEIN_512_IV_512)].
Proof. repeat apply Forall_cons; [vm_compute; reflexivity..|apply Forall_nil]. Qed.

#[local] Opaque block_512.

(** ** Buffering *)

Abbreviation Process := (Process_Block 8 block_512).

Definition MSG : Z := SKEIN_T1_BLK_TYPE SKEIN_BLK_TYPE_MSG.
Definition MSG_FIRST : Z := Z.lor SKEIN_T1_FLAG_FIRST MSG.

(** The type word before block [i]. *)
Definition t1 (i : nat) : Z := if (i =? 0)%nat then MSG_FIRST else MSG.

(** The chain value before block [i] of a message. *)
Definition chain_before (X msg : list Z) (i : nat) : list Z := fold_left (SkeinSpec.ubi_block 48 msg) (seq 0 i) X.

Lemma block_words8 bs : words64 8 (firstn 64 bs) = words64 8 bs.
Proof. exact (words64_firstn 8 bs). Qed.

(** Whole blocks that are not the last one. *)
Lemma skein_Process_spec n : forall i X0 msg len bc b, (64 * (i + n) < length msg)%nat -> Z.of_nat (length msg) < 2 ^ 64 ->
  Process (mk_ctxt len bc (Z.of_nat (64 * i)) (t1 i) (chain_before X0 msg i) b) (skipn (64 * i) msg) n 64 =
  mk_ctxt len bc (Z.of_nat (64 * (i + n))) (t1 (i + n)) (chain_before X0 msg (i + n)) b.
Proof.
  induction n as [|n IH]; intros i X0 msg len bc b L B; [rewrite Nat.add_0_r; reflexivity|].
  cbn [Process_Block T0 T1 X hashBitLen bCnt]. change BLOCK_BYTES with (fun n => 8 * n)%nat. cbv beta. rewrite skipn_skipn.
  replace (8 * 8 + 64 * i)%nat with (64 * (i + 1))%nat by lia. replace (i + S n)%nat with (i + 1 + n)%nat in * by lia.
  rewrite u64_small by lia. replace (Z.of_nat (64 * i) + 64) with (Z.of_nat (64 * (i + 1))) by lia. rewrite <- (IH (i + 1)%nat X0 msg len bc b) by lia.
  assert (Z.land (t1 i) (u64 (Z.lnot SKEIN_T1_FLAG_FIRST)) = t1 (i + 1)) as -> by (rewrite Nat.add_1_r; unfold t1; destruct (i =? 0)%nat; reflexivity).
  do 2 f_equal. unfold chain_before. rewrite seq_app, fold_left_app. cbn [seq fold_left Nat.add]. unfold SkeinSpec.ubi_block at 2.
  assert (length (firstn 64 (skipn (64 * i) msg)) = 64%nat) as -> by (rewrite length_firstn, length_skipn; lia).
  rewrite Nat.sub_diag, app_nil_r, block_words8. replace (64 * i + 64)%nat with (64 * (i + 1))%nat by lia. f_equal.
  replace (i + 1 =? SkeinSpec.blocks (length msg))%nat with false; [unfold t1; destruct (i =? 0)%nat; reflexivity|].
  symmetry. apply Nat.eqb_neq. unfold SkeinSpec.blocks. assert (i + 1 <= (length msg - 1) / 64)%nat by (apply Nat.div_le_lower_bound; lia). lia.
Qed.

(** The context after a message: all blocks but the last one are in the chain value. *)
Lemma skein_Update_spec X0 msg len b0 : length b0 = 64%nat -> Z.of_nat (length msg) < 2 ^ 64 ->
  let n := ((length msg - 1) / 64)%nat in
  exists b, Skein_512_Update (mk_ctxt len 0 0 MSG_FIRST X0 b0) msg = mk_ctxt len (length msg - 64 * n) (Z.of_nat (64 * n)) (t1 n) (chain_before X0 msg n) b /\
    holds 64 (skipn (64 * n) msg) b.
Proof.
  intros L B n. unfold Skein_512_Update, Skein_Update. cbn [bCnt Nat.eqb]. rewrite Nat.add_0_r. change (BLOCK_BYTES 8) with 64%nat.
  pose proof (Nat.div_mod (length msg - 1) 64 ltac:(lia)) as D. pose proof (Nat.mod_upper_bound (length msg - 1) 64 ltac:(lia)) as U. fold n in D.
  set (rest := skipn (64 * n) msg). assert (length rest = length msg - 64 * n)%nat as Lr by (unfold rest; apply length_skipn).
  assert ((if (64 <? length msg)%nat then if (64 <? length msg)%nat then (Process (mk_ctxt len 0 0 MSG_FIRST X0 b0) msg n (Z.of_nat 64), skipn (n * 64) msg)
    else (mk_ctxt len 0 0 MSG_FIRST X0 b0, msg) else (mk_ctxt len 0 0 MSG_FIRST X0 b0, msg)) =
    (mk_ctxt len 0 (Z.of_nat (64 * n)) (t1 n) (chain_before X0 msg n) b0, rest)) as E.
  { destruct (Nat.ltb_spec 64 (length msg)) as [G|G].
    - rewrite (Nat.mul_comm n 64). fold rest. f_equal. apply (skein_Process_spec n 0 X0 msg len 0 b0); lia.
    - assert (n = 0)%nat as E0 by (apply Nat.div_small; lia). unfold rest. rewrite E0. reflexivity. }
  fold n. rewrite E. destruct rest as [|x rest'] eqn:Er; [|rewrite <- Er in *].
  - exists b0. cbn [length] in Lr. rewrite <- Lr. split; [reflexivity|apply holds_nil, L].
  - unfold put_b, with_b. cbn [bCnt b hashBitLen T0 T1 X]. eexists.
    split; [|exact (holds_put 64 [] rest b0 (holds_nil _ _ L) ltac:(cbn [length]; lia))]. cbn [length Nat.add]. rewrite Lr. reflexivity.
Qed.

(** ** The last block and the output *)

(** A block that is first and last. *)
Lemma ubi_single type X0 msg : (length msg <= 64)%nat ->
  SkeinSpec.ubi type X0 msg = block_512 X0 (Z.of_nat (length msg)) (SkeinSpec.tweak_type type true true) (words64 8 (msg ++ repeat 0 (64 - length msg))).
Proof.
  intros L. unfold SkeinSpec.ubi. assert (SkeinSpec.blocks (length msg) = 1)%nat as E by (unfold SkeinSpec.blocks; rewrite Nat.div_small by lia; reflexivity).
  rewrite E. cbn [seq fold_left]. unfold SkeinSpec.ubi_block. rewrite E, Nat.mul_0_r, skipn_O, firstn_all2 by exact L. reflexivity.
Qed.

Lemma skein_Final_spec X0 msg buf : holds 64 (skipn (64 * ((length msg - 1) / 64)) msg) buf -> Z.of_nat (length msg) < 2 ^ 64 ->
  let n := ((length msg - 1) / 64)%nat in
  Skein_512_Final (mk_ctxt 256 (length msg - 64 * n) (Z.of_nat (64 * n)) (t1 n) (chain_before X0 msg n) buf) =
  firstn 32 (bytes64 (SkeinSpec.ubi 63 (SkeinSpec.ubi 48 X0 msg) (repeat 0 8))).
Proof.
  intros H B n. fold n in H. set (rest := skipn (64 * n) msg) in *. assert (length rest = length msg - 64 * n)%nat as Lr by (unfold rest; apply length_skipn).
  pose proof (Nat.div_mod (length msg - 1) 64 ltac:(lia)) as D. pose proof (Nat.mod_upper_bound (length msg - 1) 64 ltac:(lia)) as U. fold n in D.
  unfold Skein_512_Final, Skein_Final. cbn [with_T1 with_b bCnt b hashBitLen T0 T1 X]. change (BLOCK_BYTES 8) with 64%nat.
  rewrite <- Lr, (proj2 H). cbn [Process_Block with_T1 with_b T0 T1 X hashBitLen bCnt b].
  rewrite (u64_small (Z.of_nat (64 * n) + Z.of_nat (length rest))) by lia. set (X1 := block_512 _ _ _ _). assert (X1 = SkeinSpec.ubi 48 X0 msg) as <-.
  { unfold SkeinSpec.ubi, SkeinSpec.blocks. fold n. rewrite seq_app, fold_left_app. cbn [seq fold_left Nat.add]. fold (chain_before X0 msg n).
    unfold SkeinSpec.ubi_block, SkeinSpec.blocks, X1. fold n rest. rewrite (firstn_all2 rest), Nat.eqb_refl by lia.
    f_equal; [lia|unfold t1; destruct (n =? 0)%nat; reflexivity]. }
  rewrite ubi_single by (cbn; lia). reflexivity.
Qed.

(** The code hashes as the standard does, whatever its context contains. *)
Lemma skein_spec c0 msg : length (b c0) = 64%nat -> Z.of_nat (length msg) < 2 ^ 61 -> hash_extra_skein c0 msg = SkeinSpec.hash 32 msg.
Proof.
  intros L B. unfold hash_extra_skein, skein_hash, Update. rewrite Z.shiftr_div_pow2, (Z.mul_comm 8 (Z.of_nat _)), Z.div_mul, Nat2Z.id, firstn_all by lia.
  change 7 with (Z.ones 3). rewrite Z.land_ones, Z.mod_mul by lia. cbn [Z.eqb]. unfold Init. cbn [Z.leb Z.compare].
  change (8 * 32 <=? SKEIN_512_NIST_MAX_HASHBITS) with true. cbv iota. unfold update_bytes, Final. cbn [statebits ctx].
  change (Z.land (Z.shiftr (64 * 8) 8) 3 =? 2) with true. cbv iota.
  change (Skein_512_Init c0 (u64 (8 * 32))) with (mk_ctxt 256 0 0 MSG_FIRST SKEIN_512_IV_256 (b c0)).
  destruct (skein_Update_spec SKEIN_512_IV_256 msg 256 (b c0) L ltac:(lia)) as (b1 & -> & H). cbn [statebits ctx].
  change (Z.land (Z.shiftr (64 * 8) 8) 3 =? 2) with true. cbv iota. rewrite skein_Final_spec by (exact H || lia).
  unfold SkeinSpec.hash. cbv zeta. change (8 * Z.of_nat 32) with 256. pose proof precomputed_IVs as P. rewrite Forall_forall in P.
  pose proof (P (256, SKEIN_512_IV_256) ltac:(right; left; reflexivity)) as ->. reflexivity.
Qed.

#[local] Transparent block_512.

Lemma block_512_length X T0 T1 w : (length w = 8 -> length (block_512 X T0 T1 w) = 8)%nat.
Proof.
  intros L. unfold block_512. rewrite xor_list_length, L. apply Nat.min_r. change (SKEIN_512_ROUNDS_TOTAL / 8)%nat with 9%nat. cbn [seq fold_left].
  unfold R512_8_rounds at 1, I512 at 1. rewrite length_map. reflexivity.
Qed.

Lemma skein_digest msg : length (SkeinSpec.hash 32 msg) = 32%nat.
Proof.
  unfold SkeinSpec.hash. rewrite ubi_single by (cbn; lia). rewrite length_firstn, bytes64_length, block_512_length by apply words64_length. reflexivity.
Qed.
