(* ===== verification/SlowHash.v ===== *)
(** * The slow hash (slow-hash.c, slow-hash.inl, hash.h)

    [cn_slow_hash]: the hash state of Keccak fills a scratchpad of 2 MiB with AES, half a
    million steps read and write it at addresses that depend on the data, AES folds it back
    into the state, and one of four other hash functions finishes.  The code is compiled
    twice from slow-hash.inl, with AES instructions and with tables, and chooses when the
    program starts; the 128-bit product is an instruction or [mul128].  Class [Build] has
    these differences, as the preprocessor does.

    The scratchpad is a map from block numbers to blocks of 16 bytes.  Nothing of its earlier
    contents is used: a read of a block that has not been written is [None], and is proved
    not to happen. *)

From Stdlib Require Import ZArith Lia List Bool NArith.
From S2P Require Import Prelude Bytes IntUtil Keccak Aes Blake256 Groestl Jh Skein.
From stdpp Require Import base gmap.
Import ListNotations.
Open Scope Z_scope.
Open Scope cmon_scope.
Set Default Goal Selector "!".

Definition MEMORY : Z := Z.shiftl 1 21.
Definition AES_BLOCK_SIZE : nat := 16.
Definition AES_KEY_SIZE : nat := 32.
Definition INIT_SIZE_BLK : nat := 8.
Definition INIT_SIZE_BYTE : nat := INIT_SIZE_BLK * AES_BLOCK_SIZE.

(** ** What differs between builds *)

Class Build := {
  (** From 32 bytes to the round keys. *)
  expand_key : list Z -> option (list Z);
  (** Ten rounds on each of the blocks of [text]. *)
  encrypt_text : list (list Z) -> list Z -> list (list Z);
  (** One round on [c_x] with the key [a_x]. *)
  one_round : list Z -> list Z -> list Z;
  (** The low and the high word of a product. *)
  multiply : Z -> Z -> option (Z * Z)
}.

(** [expkey[j]] *)
Definition expkey (ExpandedKey : list Z) (j : nat) : list Z := firstn 16 (skipn (16 * j) ExpandedKey).

(** [mulq] *)
Definition mulq (a b : Z) : option (Z * Z) := Some ((a * b) mod 2 ^ 64, a * b / 2 ^ 64).

Definition aesni_build (multiply : Z -> Z -> option (Z * Z)) : Build := {|
  expand_key key := Some (ExpandAESKey256 key);
  encrypt_text xmminput ExpandedKey :=
    fold_left (fun xmminput j => map (fun x => _mm_aesenc_si128 x (expkey ExpandedKey j)) xmminput) (seq 0 10) xmminput;
  one_round := _mm_aesenc_si128;
  multiply := multiply |}.

Definition noaesni_build (multiply : Z -> Z -> option (Z * Z)) : Build := {|
  expand_key := oaes_key_import_data;
  encrypt_text xmminput ExpandedKey := map (fun x => aesb_pseudo_round x ExpandedKey) xmminput;
  one_round := aesb_single_round;
  multiply := multiply |}.

(** ** The finishing hash *)

(** The unknown contents of the local variables of the four hash functions. *)
Record stack := mk_stack { blake_buf : list Z; groestl_buf : list Z; jh_x : list Z; jh_buf : list Z; skein_ctx : Ctxt }.

Definition extra_hashes (g : stack) (i : Z) (data : list Z) : option (list Z) :=
  if i =? 0 then Some (hash_extra_blake (blake_buf g) data)
  else if i =? 1 then Some (hash_extra_groestl (groestl_buf g) data)
  else if i =? 2 then hash_extra_jh (jh_x g) (jh_buf g) data
  else Some (hash_extra_skein (skein_ctx g) data).

(** ** The scratchpad *)

Abbreviation scratchpad := (gmap Z (list Z)).

(** [_mm_store_si128(&longoutput[(i >> 4) + k], xmminput[k])] for all k, from block [n] on *)
Fixpoint store_text (n : Z) (xmminput : list (list Z)) (m : scratchpad) : scratchpad :=
  match xmminput with [] => m | x :: rest => store_text (n + 1) rest (<[n := x]> m) end.

(** [_mm_xor_si128(longoutput[(i >> 4) + k], xmminput[k])] for all k *)
Fixpoint xor_text (n : Z) (xmminput : list (list Z)) (m : scratchpad) : option (list (list Z)) :=
  match xmminput with
  | [] => Some []
  | x :: rest =>
      v <- m !! n ;;
      rest <- xor_text (n + 1) rest m ;;
      Some (_mm_xor_si128 v x :: rest)
  end.

(** The block at [long_state[a & 0x1FFFF0]]. *)
Definition block_number (a : Z) : Z := Z.land a 0x1FFFF0 / 16.

Section Slow_hash.

Context {B : Build}.

(** A turn of the first loop, at byte [i]. *)
Definition fill_step (ExpandedKey : list Z) (st : Z * list (list Z) * scratchpad) : Z * list (list Z) * scratchpad :=
  let '(i, xmminput, long_state) := st in
  let xmminput := encrypt_text xmminput ExpandedKey in
  (i + Z.of_nat INIT_SIZE_BYTE, xmminput, store_text (Z.shiftr i 4) xmminput long_state).

(** The variables of the main loop. *)
Record mix_state := mk_mix { ms_a0 : Z; ms_a1 : Z; ms_b : list Z; ms_long : scratchpad }.

Definition mix_step (st : mix_state) : option mix_state :=
  let at_a := block_number (ms_a0 st) in
  c_x <- ms_long st !! at_a ;;
  let a_x := bytes64 [ms_a0 st; ms_a1 st] in
  let c_x := one_round c_x a_x in
  let c0 := nth 0 (words64 2 c_x) 0 in
  let b_x := _mm_xor_si128 (ms_b st) c_x in
  let m := <[at_a := b_x]> (ms_long st) in
  let at_c := block_number c0 in
  nextblock <- m !! at_c ;;
  let b0 := nth 0 (words64 2 nextblock) 0 in
  let b1 := nth 1 (words64 2 nextblock) 0 in
  '(lo, hi) <- multiply c0 b0 ;;
  let a0 := u64 (ms_a0 st + hi) in
  let a1 := u64 (ms_a1 st + lo) in
  let m := <[at_c := bytes64 [a0; a1]]> m in
  Some (mk_mix (Z.lxor a0 b0) (Z.lxor a1 b1) c_x m).

(** A turn of the last loop, at byte [i]. *)
Definition fold_step (ExpandedKey : list Z) (m : scratchpad) (st : Z * list (list Z)) : option (Z * list (list Z)) :=
  let '(i, xmminput) := st in
  xmminput <- xor_text (Z.shiftr i 4) xmminput m ;;
  Some (i + Z.of_nat INIT_SIZE_BYTE, encrypt_text xmminput ExpandedKey).

(** A loop whose body may be undefined. *)
Definition repeat_step {A} (n : N) (f : A -> option A) (x : A) : option A := N.iter n (fun r => x <- r ;; f x) (Some x).

(** The number of turns of the first and the last loop. *)
Definition text_turns : N := Z.to_N (MEMORY / Z.of_nat INIT_SIZE_BYTE).

(** [state] are the 200 bytes of [ctx->state]; the state before the last permutation. *)
Definition slow_core (state : list Z) : option (list Z) :=
  let text := chunks INIT_SIZE_BLK 16 (skipn 64 state) in
  ExpandedKey <- expand_key (firstn AES_KEY_SIZE state) ;;
  let '(_, _, long_state) := N.iter text_turns (fill_step ExpandedKey) (0, text, ∅) in
  let k := words64 8 state in
  let kw i := nth i k 0 in
  let a := map (fun i => Z.lxor (kw i) (kw (i + 4)%nat)) (seq 0 2) in
  let b := map (fun i => Z.lxor (kw (i + 2)%nat) (kw (i + 6)%nat)) (seq 0 2) in
  st <- repeat_step 0x80000 mix_step (mk_mix (nth 0 a 0) (nth 1 a 0) (bytes64 b) long_state) ;;
  ExpandedKey <- expand_key (firstn AES_KEY_SIZE (skipn 32 state)) ;;
  '(_, xmminput) <- repeat_step text_turns (fold_step ExpandedKey (ms_long st)) (0, text) ;;
  Some (firstn 64 state ++ concat xmminput ++ skipn 192 state).

Definition cn_slow_hash_inl (g : stack) (data : list Z) : option (list Z) :=
  state <- hash_process data ;;
  state <- slow_core state ;;
  let state := bytes64 (hash_permutation (words64 25 state)) in
  extra_hashes g (Z.land (nth 0 state 0) 3) state.

End Slow_hash.

(** The choice that [detect_aes] makes from the processor's features; [multiply] is that of the compiler. *)
Definition cn_slow_hash_fp (ecx : Z) (multiply : Z -> Z -> option (Z * Z)) : stack -> list Z -> option (list Z) :=
  if negb (Z.land ecx (Z.shiftl 1 25) =? 0) then cn_slow_hash_inl (B := aesni_build multiply) else cn_slow_hash_inl (B := noaesni_build multiply).

Definition cn_slow_hash_f := cn_slow_hash_fp.
