(* ===== verification/Difficulty.v ===== *)
(** * The proof-of-work test (CryptoNoteCore/Difficulty.cpp)

    A hash, read as a number of 256 bits with the least significant byte first,
    meets a difficulty when their product does not overflow 256 bits. *)

From Stdlib Require Import ZArith Lia List Bool.
Import ListNotations.
From S2P Require Import Prelude Bytes IntUtil.
Set Default Goal Selector "!".

(** [mul] where the compiler has 128-bit integers, giving [low] and [high]. *)
Definition mul (a b : Z) : Z * Z :=
  let res := (a * b) mod 2 ^ 128 in (u64 res, u64 (Z.shiftr res 64)).

(** [mul] elsewhere. *)
Definition mul_portable (a b : Z) : option (Z * Z) := mul128 a b.

Definition cadd (a b : Z) : bool := u64 (a + b) <? a.
Definition cadc (a b : Z) (c : bool) : bool := (u64 (a + b) <? a) || (c && (u64 (a + b) =? u64 (-1))).

(** The words of the hash are read in little-endian order, which is the order of the machine. *)
Definition check_hash (hash : list Z) (difficulty : Z) : bool :=
  let h := words64 4 hash in
  let '(top, high) := mul (nth 3 h 0) difficulty in
  if negb (high =? 0) then false else
  let '(low, cur) := mul (nth 0 h 0) difficulty in
  let '(low, high) := mul (nth 1 h 0) difficulty in
  let carry := cadd cur low in
  let cur := high in
  let '(low, high) := mul (nth 2 h 0) difficulty in
  let carry := cadc cur low carry in
  let carry := cadc high top carry in
  negb carry.

(** ** Correctness *)

Lemma mul_ok a b : word64 a -> word64 b ->
  let '(lo, hi) := mul a b in word64 lo /\ word64 hi /\ a * b = hi * 2 ^ 64 + lo.
Proof.
  unfold word64. intros Ha Hb. unfold mul. cbv zeta.
  assert (0 <= a * b < 2 ^ 128) as R by nia. rewrite (Z.mod_small (a * b)) by exact R.
  rewrite Z.shiftr_div_pow2, !u64_mod by lia. pose proof (Z.div_mod (a * b) (2 ^ 64) ltac:(lia)) as D.
  pose proof (Z.mod_pos_bound (a * b) (2 ^ 64) ltac:(lia)) as M.
  assert (0 <= a * b / 2 ^ 64 < 2 ^ 64) as Q by (split; [apply Z.div_pos|apply Z.div_lt_upper_bound]; lia).
  rewrite (Z.mod_small (a * b / 2 ^ 64)) by exact Q. lia.
Qed.

(** The two versions of [mul] agree. *)
Lemma mul_portable_ok a b : word64 a -> word64 b -> mul_portable a b = Some (mul a b).
Proof.
  intros Ha Hb. pose proof (mul_ok a b Ha Hb) as M. destruct (mul a b) as [lo hi]. destruct M as (Wl & Wh & E).
  destruct (mul128_ok a b Ha Hb) as (lo' & hi' & E' & Wl' & Wh' & E2). unfold mul_portable. rewrite E'. unfold word64 in *.
  assert (hi = hi' /\ lo = lo') as [-> ->] by lia. reflexivity.
Qed.

(** The carry out of a sum, with a carry in. *)
Lemma cadd_ok a b : word64 a -> word64 b -> cadd a b = (2 ^ 64 <=? a + b).
Proof.
  intros Ha Hb. unfold cadd. pose proof (carry_add a b Ha Hb) as C. pose proof (u64_word (a + b)) as W. unfold word64 in *.
  destruct (u64 (a + b) <? a); symmetry; [apply Z.leb_le|apply Z.leb_gt]; lia.
Qed.

Lemma cadc_ok a b c : word64 a -> word64 b -> cadc a b c = (2 ^ 64 <=? a + b + Z.b2z c).
Proof.
  intros Ha Hb. unfold cadc. change (u64 (-1)) with (2 ^ 64 - 1). pose proof (carry_add a b Ha Hb) as C.
  pose proof (u64_word (a + b)) as W. unfold word64 in *. destruct (Z.ltb_spec (u64 (a + b)) a) as [L|G]; cbn [orb].
  - symmetry. apply Z.leb_le. destruct c; cbn [Z.b2z]; lia.
  - destruct c; cbn [andb Z.b2z].
    + destruct (Z.eqb_spec (u64 (a + b)) (2 ^ 64 - 1)); symmetry; [apply Z.leb_le|apply Z.leb_gt]; lia.
    + symmetry. apply Z.leb_gt. lia.
Qed.

Lemma hash_words hash : Forall byte hash -> length hash = 32%nat -> exists w0 w1 w2 w3,
  words64 4 hash = [w0; w1; w2; w3] /\ word64 w0 /\ word64 w1 /\ word64 w2 /\ word64 w3 /\
  le_val hash = w0 + 2 ^ 64 * (w1 + 2 ^ 64 * (w2 + 2 ^ 64 * w3)).
Proof.
  intros B L. pose proof (words64_word 4 hash B) as W. pose proof (bytes64_words 4 hash B L) as E.
  destruct (words64 4 hash) as [|w0 [|w1 [|w2 [|w3 [|]]]]] eqn:Ew; try discriminate Ew.
  inversion_clear W as [|? ? W0 W']. inversion_clear W' as [|? ? W1 W]. inversion_clear W as [|? ? W2 W'].
  inversion_clear W' as [|? ? W3 _]. exists w0, w1, w2, w3. do 5 (split; [assumption || reflexivity|]).
  rewrite <- E. unfold bytes64. cbn [flat_map]. rewrite app_nil_r, !le_val_app, !le_bytes_length.
  change (256 ^ Z.of_nat 8) with (2 ^ 64). unfold word64 in *.
  rewrite !le_bytes_val by (change (256 ^ Z.of_nat 8) with (2 ^ 64); assumption). reflexivity.
Qed.

Lemma check_hash_ok hash difficulty : Forall byte hash -> length hash = 32%nat -> word64 difficulty ->
  check_hash hash difficulty = (le_val hash * difficulty <? 2 ^ 256).
Proof.
  intros B L Hd. destruct (hash_words hash B L) as (w0 & w1 & w2 & w3 & E & W0 & W1 & W2 & W3 & V).
  unfold check_hash. cbv zeta. rewrite E, V. cbn [nth].
  pose proof (mul_ok w3 difficulty W3 Hd) as M3. destruct (mul w3 difficulty) as [top h3]. destruct M3 as (T1 & T2 & M3).
  pose proof (mul_ok w0 difficulty W0 Hd) as M0. destruct (mul w0 difficulty) as [l0 h0]. destruct M0 as (A1 & A2 & M0).
  pose proof (mul_ok w1 difficulty W1 Hd) as M1. destruct (mul w1 difficulty) as [l1 h1]. destruct M1 as (B1 & B2 & M1).
  pose proof (mul_ok w2 difficulty W2 Hd) as M2. destruct (mul w2 difficulty) as [l2 h2]. destruct M2 as (C1 & C2 & M2).
  set (c1 := cadd h0 l1). set (c2 := cadc h1 l2 c1). rewrite cadc_ok by assumption. unfold c2. rewrite cadc_ok by assumption.
  unfold c1. rewrite cadd_ok by assumption. clear c1 c2. unfold word64 in *.
  assert ((w0 + 2 ^ 64 * (w1 + 2 ^ 64 * (w2 + 2 ^ 64 * w3))) * difficulty =
    l0 + 2 ^ 64 * (h0 + l1) + 2 ^ 128 * (h1 + l2) + 2 ^ 192 * (h2 + top) + 2 ^ 256 * h3) as ->.
  { transitivity (w0 * difficulty + 2 ^ 64 * (w1 * difficulty + 2 ^ 64 * (w2 * difficulty + 2 ^ 64 * (w3 * difficulty)))); [ring|].
    rewrite M0, M1, M2, M3. ring. }
  destruct (Z.eqb_spec h3 0) as [->|N]; cbn [negb].
  2: { symmetry. apply Z.ltb_ge. nia. }
  destruct (Z.leb_spec (2 ^ 64) (h0 + l1)); cbn [Z.b2z];
  match goal with |- context [Z.b2z (?a <=? ?b)] => destruct (Z.leb_spec a b) end; cbn [Z.b2z];
  match goal with |- negb (?a <=? ?b) = _ => destruct (Z.leb_spec a b) end; cbn [negb]; symmetry;
    (apply Z.ltb_lt; lia) || (apply Z.ltb_ge; lia).
Qed.
