(* ===== verification/Base58.v ===== *)
(** * Base 58 encoding of addresses (Common/Base58.cpp)

    Blocks of 8 bytes are written as 11 digits in base 58, a shorter last block as
    the number of digits in [encoded_block_sizes].  Strings are lists of
    character codes.  A function that returns [bool] returns [option] of its
    output; failed assertions and accesses out of range are [None] of the outer
    option. *)

From Stdlib Require Import String Ascii.
From Stdlib Require Import ZArith Lia List Bool.
Import ListNotations.
From S2P Require Import Prelude Bytes IntUtil Varint Crypto.
Set Default Goal Selector "!".

Definition codes (s : string) : list Z := map (fun a => Z.of_nat (nat_of_ascii a)) (list_ascii_of_string s).

Definition alphabet : list Z :=
  Eval vm_compute in codes "123456789ABCDEFGHJKLMNPQRSTUVWXYZabcdefghijkmnopqrstuvwxyz".
Definition alphabet_size : Z := 58.
Definition encoded_block_sizes : list nat := [0; 2; 3; 5; 6; 7; 9; 10; 11]%nat.
Definition full_block_size : nat := 8.
Definition full_encoded_block_size : nat := nth full_block_size encoded_block_sizes 0%nat.
Definition addr_checksum_size : nat := 4.

(** [alphabet[i]] *)
Definition letter (i : Z) : Z := nth (Z.to_nat i) alphabet 0.

(** The table of [struct reverse_alphabet] and its lookup. *)
Definition reverse_alphabet : list Z :=
  fold_left (fun m_data i => set_nth (Z.to_nat (letter (Z.of_nat i) - letter 0)) (Z.of_nat i) m_data) (seq 0 58)
    (repeat (-1) (Z.to_nat (letter (alphabet_size - 1) - letter 0 + 1))).

Definition reverse_letter (c : Z) : Z :=
  let idx := c - letter 0 in
  if (0 <=? idx) && (idx <? Z.of_nat (length reverse_alphabet)) then nth (Z.to_nat idx) reverse_alphabet (-1) else -1.

(** The table of [struct decoded_block_sizes] and its lookup. *)
Definition decoded_block_sizes : list Z :=
  fold_left (fun m_data i => set_nth (nth i encoded_block_sizes 0%nat) (Z.of_nat i) m_data) (seq 0 9)
    (repeat (-1) (full_encoded_block_size + 1)).

Definition decoded_block_size (encoded_block_size : nat) : option Z :=
  _ <- c_assert (encoded_block_size <=? full_encoded_block_size)%nat ;;
  Some (nth encoded_block_size decoded_block_sizes (-1)).

Definition uint_8be_to_64 (data : list Z) (size : nat) : option Z :=
  _ <- c_assert ((1 <=? size)%nat && (size <=? 8)%nat && (size <=? length data)%nat) ;;
  Some (fold_left (fun res b => Z.lor (u64 (Z.shiftl res 8)) b) (firstn size data) 0).

Definition uint_64_to_8be (num : Z) (size : nat) : option (list Z) :=
  _ <- c_assert ((1 <=? size)%nat && (size <=? 8)%nat) ;;
  let num_be := SWAP64 num in
  Some (skipn (8 - size) (le_bytes 8 num_be)).

(** [while (0 < num)]: the digits are written from the end of the block; an [i] below 0 is out of it. *)
Fixpoint encode_digits (fuel : nat) (i num : Z) (res : list Z) : option (list Z) :=
  match fuel with
  | O => None
  | S fuel =>
      if 0 <? num then
        let remainder := num mod alphabet_size in
        let num := num / alphabet_size in
        _ <- c_assert (0 <=? i) ;;
        encode_digits fuel (i - 1) num (set_nth (Z.to_nat i) (letter remainder) res)
      else Some res
  end.

(** The part of the result that belongs to the block, which holds [alphabet[0]] at first. *)
Definition encode_block (block : list Z) (size : nat) : option (list Z) :=
  _ <- c_assert ((1 <=? size)%nat && (size <=? full_block_size)%nat) ;;
  num <- uint_8be_to_64 block size ;;
  let n := nth size encoded_block_sizes 0%nat in
  encode_digits 65 (Z.of_nat n - 1) num (repeat (letter 0) n).

(** The loop over the letters of a block, the last one first; [Some None] is [return false]. *)
Fixpoint decode_digits (letters : list Z) (res_num order : Z) : option (option Z) :=
  match letters with
  | [] => Some (Some res_num)
  | c :: letters =>
      let digit := reverse_letter c in
      if digit <? 0 then Some None else
      '(product_lo, product_hi) <- mul128 order digit ;;
      let tmp := u64 (res_num + product_lo) in
      if (tmp <? res_num) || negb (0 =? product_hi) then Some None else
      decode_digits letters tmp (u64 (order * alphabet_size))
  end.

Definition decode_block (block : list Z) (size : nat) : option (option (list Z)) :=
  _ <- c_assert ((1 <=? size)%nat && (size <=? full_encoded_block_size)%nat && (size <=? length block)%nat) ;;
  res_size <- decoded_block_size size ;;
  if res_size <=? 0 then Some None else
  num <- decode_digits (rev (firstn size block)) 0 1 ;;
  match num with
  | None => Some None
  | Some res_num =>
      if (res_size <? Z.of_nat full_block_size) && (u64 (Z.shiftl 1 (8 * res_size)) <=? res_num) then Some None else
      res <- uint_64_to_8be res_num (Z.to_nat res_size) ;;
      Some (Some res)
  end.

(** The loop over the full blocks and the last block. *)
Fixpoint encode_blocks (full_block_count last_block_size : nat) (data : list Z) : option (list Z) :=
  match full_block_count with
  | O => if (0 <? last_block_size)%nat then encode_block data last_block_size else Some []
  | S n =>
      res <- encode_block data full_block_size ;;
      rest <- encode_blocks n last_block_size (skipn full_block_size data) ;;
      Some (res ++ rest)
  end.

Definition encode (data : list Z) : option (list Z) :=
  match data with
  | [] => Some []
  | _ => encode_blocks (length data / full_block_size) (length data mod full_block_size) data
  end.

Fixpoint decode_blocks (full_block_count last_block_size : nat) (enc : list Z) : option (option (list Z)) :=
  match full_block_count with
  | O => if (0 <? last_block_size)%nat then decode_block enc last_block_size else Some (Some [])
  | S n =>
      block <- decode_block enc full_encoded_block_size ;;
      match block with
      | None => Some None
      | Some block =>
          rest <- decode_blocks n last_block_size (skipn full_encoded_block_size enc) ;;
          match rest with None => Some None | Some rest => Some (Some (block ++ rest)) end
      end
  end.

Definition decode (enc : list Z) : option (option (list Z)) :=
  match enc with
  | [] => Some (Some [])
  | _ =>
      let full_block_count := (length enc / full_encoded_block_size)%nat in
      let last_block_size := (length enc mod full_encoded_block_size)%nat in
      last_block_decoded_size <- decoded_block_size last_block_size ;;
      if last_block_decoded_size <? 0 then Some None else
      decode_blocks full_block_count last_block_size enc
  end.

Section Addresses.
Context {FH : FastHash}.

Definition encode_addr (tag : Z) (data : list Z) : option (list Z) :=
  let buf := write_varint tag ++ data in
  hash <- fast_hash buf ;;
  encode (buf ++ firstn addr_checksum_size hash).

(** The tag and the data. *)
Definition decode_addr (addr : list Z) : option (option (Z * list Z)) :=
  r <- decode addr ;;
  match r with
  | None => Some None
  | Some addr_data =>
      if (length addr_data <=? addr_checksum_size)%nat then Some None else
      let checksum := skipn (length addr_data - addr_checksum_size) addr_data in
      let addr_data := firstn (length addr_data - addr_checksum_size) addr_data in
      hash <- fast_hash addr_data ;;
      let expected_checksum := firstn addr_checksum_size hash in
      if negb (bytes_eqb expected_checksum checksum) then Some None else
      let '(read, tag, _) := read_varint 64 addr_data in
      if read <=? 0 then Some None else
      Some (Some (tag, skipn (Z.to_nat read) addr_data))
  end.
End Addresses.

(** ** Digits *)

Lemma reverse_of_letter d : 0 <= d < 58 -> reverse_letter (letter d) = d.
Proof.
  intros H. assert (forallb (fun i => reverse_letter (letter (Z.of_nat i)) =? Z.of_nat i) (seq 0 58) = true) as T
    by (vm_compute; reflexivity).
  rewrite forallb_forall in T. specialize (T (Z.to_nat d) ltac:(apply in_seq; lia)).
  rewrite Z2Nat.id in T by lia. apply Z.eqb_eq, T.
Qed.

Lemma letter_of_reverse c : 0 <= reverse_letter c -> reverse_letter c < 58 /\ letter (reverse_letter c) = c.
Proof.
  intros H. assert (forallb (fun i => let d := reverse_letter (Z.of_nat i + letter 0) in
    (d <? 0) || ((d <? 58) && (letter d =? Z.of_nat i + letter 0))) (seq 0 74) = true) as T by (vm_compute; reflexivity).
  rewrite forallb_forall in T. unfold reverse_letter in H. cbv zeta in H.
  change (Z.of_nat (length reverse_alphabet)) with 74 in H.
  destruct ((0 <=? c - letter 0) && (c - letter 0 <? 74)) eqn:E; [|lia]. apply andb_prop in E as [E1 E2].
  specialize (T (Z.to_nat (c - letter 0)) ltac:(apply in_seq; lia)). rewrite Z2Nat.id in T by lia.
  replace (c - letter 0 + letter 0) with c in T by lia. cbv zeta in T.
  assert (reverse_letter c = nth (Z.to_nat (c - letter 0)) reverse_alphabet (-1)) as R.
  { unfold reverse_letter. cbv zeta. change (Z.of_nat (length reverse_alphabet)) with 74. rewrite E1, E2. reflexivity. }
  rewrite <- R in H. destruct (Z.ltb_spec (reverse_letter c) 0); [lia|]. cbn [orb] in T. apply andb_prop in T as [T1 T2].
  split; [apply Z.ltb_lt, T1|apply Z.eqb_eq, T2].
Qed.

(** The digits of a number, the least significant first, and their value. *)
Fixpoint digs (n : nat) (v : Z) : list Z :=
  match n with O => [] | S n => v mod 58 :: digs n (v / 58) end.
Fixpoint val58 (ds : list Z) : Z := match ds with [] => 0 | d :: ds => d + 58 * val58 ds end.

Definition digit (d : Z) : Prop := 0 <= d < 58.

Lemma digs_length n v : length (digs n v) = n.
Proof. revert v. induction n as [|n IH]; intros v; cbn; [|rewrite IH]; reflexivity. Qed.

Lemma digs_digit n v : Forall digit (digs n v).
Proof. revert v. induction n as [|n IH]; intros v; constructor; [apply Z.mod_pos_bound; lia|apply IH]. Qed.

Lemma digs_val n : forall v, 0 <= v < 58 ^ Z.of_nat n -> val58 (digs n v) = v.
Proof.
  induction n as [|n IH]; intros v H; cbn [digs val58]; [cbn in H; lia|].
  rewrite Nat2Z.inj_succ, Z.pow_succ_r in H by lia.
  rewrite IH by (split; [apply Z.div_pos; lia|apply Z.div_lt_upper_bound; lia]).
  pose proof (Z.div_mod v 58). lia.
Qed.

Lemma val58_range ds : Forall digit ds -> 0 <= val58 ds < 58 ^ Z.of_nat (length ds).
Proof.
  induction 1 as [|d ds Hd _ IH]; [cbn; lia|]. cbn [val58 length]. rewrite Nat2Z.inj_succ, Z.pow_succ_r by lia.
  unfold digit in Hd. lia.
Qed.

Lemma digs_of_val ds : Forall digit ds -> digs (length ds) (val58 ds) = ds.
Proof.
  induction 1 as [|d ds Hd _ IH]; cbn [length digs val58]; [reflexivity|]. unfold digit in Hd.
  replace ((d + 58 * val58 ds) mod 58) with d by (apply Z.mod_unique with (q := val58 ds); lia).
  replace ((d + 58 * val58 ds) / 58) with (val58 ds) by (apply Z.div_unique with (r := d); lia).
  rewrite IH. reflexivity.
Qed.

(** A number as [n] letters, the most significant first. *)
Definition letters (n : nat) (v : Z) : list Z := rev (map letter (digs n v)).

Lemma letters_length n v : length (letters n v) = n.
Proof. unfold letters. rewrite length_rev, length_map, digs_length. reflexivity. Qed.

Lemma letters_0 n : letters n 0 = repeat (letter 0) n.
Proof.
  unfold letters. assert (map letter (digs n 0) = repeat (letter 0) n) as ->.
  { induction n as [|n IH]; cbn; [reflexivity|]. rewrite Zmod_0_l, Zdiv_0_l, IH. reflexivity. }
  generalize (letter 0). intros c. induction n as [|n IH]; cbn [repeat rev]; [reflexivity|]. rewrite IH, <- repeat_cons. reflexivity.
Qed.

Lemma encode_digits_ok n : forall fuel v tail, (n < fuel)%nat -> 0 <= v < 58 ^ Z.of_nat n ->
  encode_digits fuel (Z.of_nat n - 1) v (repeat (letter 0) n ++ tail) = Some (letters n v ++ tail).
Proof.
  induction n as [|n IH]; intros [|fuel] v tail F H; try lia; cbn [encode_digits].
  - cbn in H. replace v with 0 by lia. reflexivity.
  - destruct (Z.ltb_spec 0 v) as [P|Z0].
    + replace (0 <=? Z.of_nat (S n) - 1) with true by (symmetry; apply Z.leb_le; lia). cbn [c_assert obind].
      replace (Z.to_nat (Z.of_nat (S n) - 1)) with n by lia.
      replace (Z.of_nat (S n) - 1 - 1) with (Z.of_nat n - 1) by lia.
      assert (set_nth n (letter (v mod alphabet_size)) (repeat (letter 0) (S n) ++ tail) =
        repeat (letter 0) n ++ letter (v mod 58) :: tail) as ->.
      { cbn [repeat]. rewrite repeat_cons, <- app_assoc. cbn [app].
        rewrite <- (repeat_length (letter 0) n) at 1. apply set_nth_app. }
      rewrite Nat2Z.inj_succ, Z.pow_succ_r in H by lia. unfold alphabet_size.
      rewrite IH by (lia || (split; [apply Z.div_pos|apply Z.div_lt_upper_bound]; lia)).
      unfold letters. cbn [digs map rev]. rewrite <- app_assoc. reflexivity.
    + replace v with 0 by lia. rewrite letters_0. reflexivity.
Qed.

(** The decoder of the letters of a block accepts digits whose value fits a word. *)
Lemma pow58_word k : (k <= 10)%nat -> 0 < 58 ^ Z.of_nat k < 2 ^ 64.
Proof.
  intros H. split; [lia|]. apply Z.le_lt_trans with (58 ^ 10); [|reflexivity]. apply Z.pow_le_mono_r; lia.
Qed.

Lemma decode_digits_ok cs : forall k acc, word64 acc -> (k + length cs <= 11)%nat ->
  exists r, decode_digits cs acc (u64 (58 ^ Z.of_nat k)) = Some r /\
    forall v, r = Some v <-> Forall digit (map reverse_letter cs) /\
      v = acc + 58 ^ Z.of_nat k * val58 (map reverse_letter cs) /\ v < 2 ^ 64.
Proof.
  induction cs as [|c cs IH]; intros k acc Ha L; cbn [decode_digits map val58 length] in *.
  - exists (Some acc). split; [reflexivity|]. intros v. unfold word64 in Ha. split.
    + intros [= <-]. split; [constructor|]. lia.
    + intros (_ & -> & _). f_equal. lia.
  - pose proof (pow58_word k ltac:(lia)) as P. rewrite (u64_small (58 ^ Z.of_nat k)) by lia.
    destruct (Z.ltb_spec (reverse_letter c) 0) as [N|D].
    { exists None. split; [reflexivity|]. intros v. split; [discriminate|]. intros (F & _). inversion_clear F. unfold digit in *. lia. }
    destruct (letter_of_reverse c D) as [D58 _]. set (d := reverse_letter c) in *.
    destruct (mul128_ok (58 ^ Z.of_nat k) d ltac:(split; lia) ltac:(split; lia)) as (lo & hi & -> & Wl & Wh & E). cbn [obind].
    pose proof (carry_add acc lo Ha Wl) as C. pose proof (u64_word (acc + lo)) as W. unfold word64 in *.
    assert (forall v, Forall digit (d :: map reverse_letter cs) /\ v = acc + 58 ^ Z.of_nat k * (d + 58 * val58 (map reverse_letter cs)) /\ v < 2 ^ 64 <->
      acc + 58 ^ Z.of_nat k * d < 2 ^ 64 /\ Forall digit (map reverse_letter cs) /\
      v = acc + 58 ^ Z.of_nat k * d + 58 ^ Z.of_nat (S k) * val58 (map reverse_letter cs) /\ v < 2 ^ 64) as Q.
    { intros v. rewrite Nat2Z.inj_succ, Z.pow_succ_r by lia. split.
      - intros (F & -> & V). inversion_clear F as [|? ? F1 F2]. pose proof (val58_range _ F2). split; [nia|]. split; [exact F2|]. lia.
      - intros (_ & F & -> & V). split; [constructor; [unfold digit; lia|exact F]|]. lia. }
    destruct (Z.ltb_spec (u64 (acc + lo)) acc) as [Ov|NOv]; cbn [orb].
    { exists None. split; [reflexivity|]. intros v. rewrite Q. split; [discriminate|]. lia. }
    destruct (Z.eqb_spec 0 hi) as [<-|Nh]; cbn [negb].
    2: { exists None. split; [reflexivity|]. intros v. rewrite Q. split; [discriminate|]. nia. }
    assert (u64 (58 ^ Z.of_nat k * alphabet_size) = u64 (58 ^ Z.of_nat (S k))) as ->
      by (rewrite Nat2Z.inj_succ, Z.pow_succ_r by lia; f_equal; unfold alphabet_size; lia).
    destruct (IH (S k) (u64 (acc + lo)) W ltac:(lia)) as (r & -> & R). exists r. split; [reflexivity|].
    intros v. rewrite Q, R. replace (u64 (acc + lo)) with (acc + 58 ^ Z.of_nat k * d) by lia.
    split; [intros (F & -> & V)|intros (_ & F & -> & V)]; repeat split; auto; lia.
Qed.

(** ** Blocks *)

(** Big-endian reading. *)
Lemma be_val bs : forall acc, Forall byte bs -> (length bs <= 8)%nat -> 0 <= acc < 256 ^ (8 - Z.of_nat (length bs)) ->
  fold_left (fun res b => Z.lor (u64 (Z.shiftl res 8)) b) bs acc = acc * 256 ^ Z.of_nat (length bs) + le_val (rev bs).
Proof.
  induction bs as [|b bs IH]; intros acc H L A; cbn [fold_left rev length] in *; [cbn; lia|].
  inversion_clear H as [|? ? B H']. unfold byte in B.
  assert (256 ^ (8 - Z.of_nat (length bs)) = 256 * 256 ^ (8 - Z.of_nat (S (length bs)))) as P.
  { rewrite <- Z.pow_succ_r by lia. f_equal. lia. }
  assert (256 ^ (8 - Z.of_nat (length bs)) <= 256 ^ 8) as P8 by (apply Z.pow_le_mono_r; lia). change (256 ^ 8) with (2 ^ 64) in P8.
  rewrite u64_small by (rewrite Z.shiftl_mul_pow2 by lia; change (2 ^ 8) with 256; lia).
  rewrite Z.lor_comm, lor_shift by lia. change (2 ^ 8) with 256. rewrite IH by (assumption || lia).
  rewrite le_val_app, length_rev, Nat2Z.inj_succ, Z.pow_succ_r by lia. cbn [le_val]. ring.
Qed.

Definition enc_size (n : nat) : nat := nth n encoded_block_sizes 0%nat.

Lemma enc_size_fits n : (n <= 8)%nat -> 256 ^ Z.of_nat n <= 58 ^ Z.of_nat (enc_size n).
Proof. intros H. do 9 (destruct n as [|n]; [apply Z.leb_le; vm_compute; reflexivity|]). lia. Qed.

Lemma decoded_of_enc n : (n <= 8)%nat -> decoded_block_size (enc_size n) = Some (Z.of_nat n) /\ (enc_size n <= 11)%nat /\ (enc_size n = 0 <-> n = 0)%nat.
Proof. intros H. do 9 (destruct n as [|n]; [vm_compute; repeat split; (discriminate || lia)|]). lia. Qed.

Lemma decoded_sizes m : (m <= 11)%nat -> exists k, decoded_block_size m = Some k /\
  (k = -1 \/ (0 <= k <= 8 /\ m = enc_size (Z.to_nat k))).
Proof.
  intros H. do 12 (destruct m as [|m]; [eexists; split; [vm_compute; reflexivity|];
    ((left; reflexivity) || (right; split; [lia|reflexivity]))|]). lia.
Qed.

Lemma uint_8be_to_64_ok data size : (1 <= size <= 8)%nat -> (size <= length data)%nat -> Forall byte (firstn size data) ->
  uint_8be_to_64 data size = Some (le_val (rev (firstn size data))).
Proof.
  intros H L B. unfold uint_8be_to_64.
  replace ((1 <=? size)%nat && (size <=? 8)%nat && (size <=? length data)%nat) with true
    by (symmetry; rewrite !andb_true_iff, !Nat.leb_le; lia).
  cbn [c_assert obind]. f_equal. rewrite be_val; [lia|exact B|rewrite length_firstn; lia|].
  split; [lia|]. apply Z.pow_pos_nonneg; [lia|]. rewrite length_firstn. lia.
Qed.

Lemma uint_64_to_8be_ok num size : (1 <= size <= 8)%nat -> uint_64_to_8be num size = Some (rev (le_bytes size num)).
Proof.
  intros H. unfold uint_64_to_8be.
  replace ((1 <=? size)%nat && (size <=? 8)%nat) with true by (symmetry; rewrite andb_true_iff, !Nat.leb_le; lia).
  cbn [c_assert obind]. cbv zeta. rewrite SWAP64_bytes, skipn_rev, le_bytes_length.
  replace (8 - (8 - size))%nat with size by lia. do 2 f_equal. apply (nth_ext _ _ 0 0).
  - rewrite length_firstn, !le_bytes_length. lia.
  - rewrite length_firstn, le_bytes_length. intros k Hk. rewrite nth_firstn.
    replace (k <? size)%nat with true by (symmetry; apply Nat.ltb_lt; lia). rewrite !le_bytes_nth by lia. reflexivity.
Qed.

(** The letters of a block of bytes. *)
Definition block_letters (data : list Z) : list Z := letters (enc_size (length data)) (le_val (rev data)).

Lemma block_value data : Forall byte data -> 0 <= le_val (rev data) < 256 ^ Z.of_nat (length data).
Proof. intros B. rewrite <- length_rev. apply le_val_range, Forall_rev, B. Qed.

Lemma encode_block_ok block size : (1 <= size <= 8)%nat -> (size <= length block)%nat -> Forall byte (firstn size block) ->
  encode_block block size = Some (block_letters (firstn size block)).
Proof.
  intros H L B. unfold encode_block, full_block_size.
  replace ((1 <=? size)%nat && (size <=? 8)%nat) with true by (symmetry; rewrite andb_true_iff, !Nat.leb_le; lia).
  cbn [c_assert obind]. rewrite uint_8be_to_64_ok by assumption. cbn [obind]. cbv zeta. fold (enc_size size).
  assert (length (firstn size block) = size) as Lf by (rewrite length_firstn; lia).
  pose proof (block_value _ B) as V. rewrite Lf in V. pose proof (enc_size_fits size ltac:(lia)).
  destruct (decoded_of_enc size ltac:(lia)) as (_ & L11 & _).
  pose proof (encode_digits_ok (enc_size size) 65 (le_val (rev (firstn size block))) [] ltac:(lia) ltac:(lia)) as E.
  rewrite !app_nil_r in E. rewrite E. unfold block_letters. rewrite Lf. reflexivity.
Qed.

(** A string of letters read back. *)
Lemma letters_reverse n v : 0 <= v < 58 ^ Z.of_nat n ->
  Forall digit (map reverse_letter (rev (letters n v))) /\ val58 (map reverse_letter (rev (letters n v))) = v.
Proof.
  intros H. unfold letters. rewrite rev_involutive, map_map.
  assert (map (fun x => reverse_letter (letter x)) (digs n v) = digs n v) as ->.
  { pose proof (digs_digit n v) as D. induction D as [|d ds Hd _ IH]; cbn [map]; [reflexivity|].
    rewrite reverse_of_letter, IH by exact Hd. reflexivity. }
  split; [apply digs_digit|apply digs_val, H].
Qed.

Lemma letters_of_reverse cs : Forall digit (map reverse_letter cs) ->
  rev cs = letters (length cs) (val58 (map reverse_letter cs)).
Proof.
  intros D. unfold letters. f_equal. rewrite <- (length_map reverse_letter cs), digs_of_val by exact D.
  rewrite map_map. induction cs as [|c cs IH]; cbn [map] in *; [reflexivity|].
  inversion_clear D as [|? ? Dc D']. rewrite <- IH by exact D'. f_equal. symmetry. apply letter_of_reverse, Dc.
Qed.

(** [decode_block] accepts exactly the letters of blocks. *)
Lemma decode_block_ok block size : (1 <= size <= 11)%nat -> (size <= length block)%nat ->
  exists r, decode_block block size = Some r /\ forall data, r = Some data <->
    Forall byte data /\ (1 <= length data <= 8)%nat /\ size = enc_size (length data) /\ firstn size block = block_letters data.
Proof.
  intros H L. unfold decode_block. change full_encoded_block_size with 11%nat. change full_block_size with 8%nat.
  replace ((1 <=? size)%nat && (size <=? 11)%nat && (size <=? length block)%nat) with true
    by (symmetry; rewrite !andb_true_iff, !Nat.leb_le; lia).
  cbn [c_assert obind]. destruct (decoded_sizes size ltac:(lia)) as (k & Ek & C). rewrite Ek. cbn [obind].
  destruct (Z.leb_spec k 0) as [N|P].
  { exists None. split; [reflexivity|]. intros data. split; [discriminate|]. intros (_ & Ld & E & _).
    destruct (decoded_of_enc (length data) ltac:(lia)) as (Ed & _). rewrite <- E, Ek in Ed. injection Ed as Ed. lia. }
  destruct C as [->|[Rk Es]]; [lia|]. destruct (Z_of_nat_complete k ltac:(lia)) as [n ->]. rewrite Nat2Z.id in Es.
  set (cs := rev (firstn size block)). assert (length cs = size) as Lc by (unfold cs; rewrite length_rev, length_firstn; lia).
  destruct (decode_digits_ok cs 0 0 ltac:(split; [lia|reflexivity]) ltac:(lia)) as (r & Er & R).
  change (u64 (58 ^ Z.of_nat 0)) with 1 in Er. rewrite Er. cbn [obind].
  assert (forall data, Forall byte data /\ (1 <= length data <= 8)%nat /\ size = enc_size (length data) /\ firstn size block = block_letters data ->
    length data = n /\ r = Some (le_val (rev data))) as Back.
  { intros data (B & Ld & E & F). assert (length data = n) as Ln.
    { destruct (decoded_of_enc (length data) ltac:(lia)) as (Ed & _). rewrite <- E, Ek in Ed. injection Ed as Ed. lia. }
    split; [exact Ln|]. apply R. pose proof (block_value data B) as V. pose proof (enc_size_fits (length data) ltac:(lia)) as Fit.
    unfold cs. rewrite F. unfold block_letters. destruct (letters_reverse (enc_size (length data)) (le_val (rev data)) ltac:(lia)) as [D Vd].
    rewrite Vd. split; [exact D|]. split; [cbn; lia|].
    apply Z.lt_le_trans with (256 ^ Z.of_nat (length data)); [lia|]. change (2 ^ 64) with (256 ^ 8). apply Z.pow_le_mono_r; lia. }
  destruct r as [v|].
  2: { exists None. split; [reflexivity|]. intros data. split; [discriminate|]. intros X. destruct (Back data X) as [_ ?]. discriminate. }
  destruct (proj1 (R v) eq_refl) as (D & Ev & V64). rewrite Z.pow_0_r, Z.mul_1_l, Z.add_0_l in Ev.
  pose proof (val58_range _ D) as Vr.
  assert ((Z.of_nat n <? Z.of_nat 8) && (u64 (Z.shiftl 1 (8 * Z.of_nat n)) <=? v) = (256 ^ Z.of_nat n <=? v)) as T.
  { rewrite Z.shiftl_1_l, Z.pow_mul_r by lia. change (2 ^ 8) with 256. destruct (Z.ltb_spec (Z.of_nat n) (Z.of_nat 8)) as [Ln|Gn]; cbn [andb].
    - rewrite u64_small; [reflexivity|]. split; [lia|]. change (2 ^ 64) with (256 ^ 8). apply Z.pow_lt_mono_r; lia.
    - replace (Z.of_nat n) with 8 by lia. symmetry. apply Z.leb_gt. exact V64. }
  rewrite T. destruct (Z.leb_spec (256 ^ Z.of_nat n) v) as [Big|Fits].
  { exists None. split; [reflexivity|]. intros data. split; [discriminate|]. intros X. destruct (Back data X) as [Ln [= E]].
    pose proof (block_value data (proj1 X)) as Bv. rewrite Ln in Bv. lia. }
  rewrite Nat2Z.id, uint_64_to_8be_ok by lia. cbn [obind]. eexists. split; [reflexivity|]. intros data. split.
  - intros [= <-]. split; [apply Forall_rev, le_bytes_byte|]. rewrite length_rev, le_bytes_length. split; [lia|]. split; [exact Es|].
    unfold block_letters. rewrite length_rev, le_bytes_length, rev_involutive, le_bytes_val, <- Es by lia.
    rewrite <- (rev_involutive (firstn size block)). fold cs. rewrite (letters_of_reverse cs D), Lc, <- Ev. reflexivity.
  - intros X. destruct (Back data X) as [Ln [= E]]. f_equal. rewrite E, <- Ln, <- (length_rev data).
    rewrite le_bytes_of_val by (apply Forall_rev, X). apply rev_involutive.
Qed.

(** ** Strings *)

Lemma encode_blocks_ok q k : (k <= 7)%nat -> forall data, length data = (8 * q + k)%nat -> Forall byte data ->
  exists enc, encode_blocks q k data = Some enc /\ length enc = (11 * q + enc_size k)%nat.
Proof.
  intros Hk. induction q as [|q IH]; intros data L B; cbn [encode_blocks].
  - destruct (Nat.ltb_spec 0 k).
    + rewrite encode_block_ok by (lia || apply firstn_byte; assumption). eexists. split; [reflexivity|].
      unfold block_letters. rewrite letters_length, length_firstn. replace (Nat.min k (length data)) with k by lia. lia.
    + exists []. replace k with 0%nat by lia. auto.
  - change full_block_size with 8%nat. rewrite encode_block_ok by (lia || apply firstn_byte; assumption). cbn [obind].
    destruct (IH (skipn 8 data)) as (rest & -> & Lr); [rewrite length_skipn; lia|apply skipn_byte, B|]. cbn [obind].
    eexists. split; [reflexivity|]. unfold block_letters. rewrite length_app, letters_length, length_firstn, Lr.
    replace (Nat.min 8 (length data)) with 8%nat by lia. change (enc_size 8) with 11%nat. lia.
Qed.

Lemma encode_blocks_cons q k data enc : (8 <= length data)%nat -> Forall byte data ->
  encode_blocks (S q) k data = Some enc <-> exists rest, encode_blocks q k (skipn 8 data) = Some rest /\
    enc = block_letters (firstn 8 data) ++ rest.
Proof.
  intros L B. cbn [encode_blocks]. change full_block_size with 8%nat.
  rewrite encode_block_ok by (lia || apply firstn_byte; assumption). cbn [obind].
  destruct (encode_blocks q k (skipn 8 data)) as [rest|]; cbn [obind].
  - split; [intros [= <-]; eauto|]. intros (rest' & [= <-] & ->). reflexivity.
  - split; [discriminate|]. intros (? & ? & _). discriminate.
Qed.

Lemma decode_blocks_ok q k : (k <= 7)%nat -> forall enc, length enc = (11 * q + enc_size k)%nat ->
  exists r, decode_blocks q (enc_size k) enc = Some r /\
    forall data, r = Some data <-> Forall byte data /\ length data = (8 * q + k)%nat /\ encode_blocks q k data = Some enc.
Proof.
  intros Hk. destruct (decoded_of_enc k ltac:(lia)) as (Dk & L11 & Z). induction q as [|q IH]; intros enc L; cbn [decode_blocks].
  - destruct (Nat.ltb_spec 0 (enc_size k)) as [P|N].
    + destruct (decode_block_ok enc (enc_size k) ltac:(lia) ltac:(lia)) as (r & -> & R). exists r. split; [reflexivity|].
      intros data. rewrite R, firstn_all2 by lia. cbn [encode_blocks]. replace (0 <? k)%nat with true by (symmetry; apply Nat.ltb_lt; lia). split.
      * intros (B & Ld & E & F). assert (length data = k) as Lk.
        { destruct (decoded_of_enc (length data) ltac:(lia)) as (Ed & _). rewrite <- E, Dk in Ed. injection Ed as Ed. lia. }
        split; [exact B|]. split; [lia|]. rewrite encode_block_ok by (lia || apply firstn_byte; assumption).
        rewrite firstn_all2 by lia. congruence.
      * intros (B & Ld & E). rewrite encode_block_ok in E by (lia || apply firstn_byte; assumption).
        rewrite firstn_all2 in E by lia. injection E as <-. replace (length data) with k by lia. repeat split; auto; lia.
    + assert (k = 0)%nat as -> by lia. exists (Some []). split; [reflexivity|]. destruct enc; [|cbn in L; lia].
      intros data. cbn [encode_blocks Nat.ltb Nat.leb]. split; [intros [= <-]; auto|]. intros (_ & Ld & _). destruct data; [reflexivity|discriminate Ld].
  - change full_encoded_block_size with 11%nat. destruct (decode_block_ok enc 11 ltac:(lia) ltac:(lia)) as (r1 & -> & R1). cbn [obind].
    destruct (IH (skipn 11 enc)) as (r2 & -> & R2); [rewrite length_skipn; lia|].
    assert (forall data, Forall byte data /\ length data = (8 * S q + k)%nat /\ encode_blocks (S q) k data = Some enc <->
      (8 <= length data)%nat /\ r1 = Some (firstn 8 data) /\ r2 = Some (skipn 8 data)) as Split.
    { intros data. rewrite R1, R2. split.
      - intros (B & Ld & E). split; [lia|]. apply encode_blocks_cons in E as (rest & Er & E); [|lia|exact B].
        assert (length (block_letters (firstn 8 data)) = 11%nat) as Lb.
        { unfold block_letters. rewrite letters_length, length_firstn. replace (Nat.min 8 (length data)) with 8%nat by lia. reflexivity. }
        assert (firstn 11 enc = block_letters (firstn 8 data) /\ skipn 11 enc = rest) as [F1 F2].
        { rewrite E, firstn_app, skipn_app, Lb, Nat.sub_diag, firstn_all2, skipn_all2, firstn_O, app_nil_r by lia. auto. }
        rewrite length_firstn, length_skipn, F1, F2. replace (Nat.min 8 (length data)) with 8%nat by lia.
        split; [split; [apply firstn_byte, B|]; split; [lia|]; split; reflexivity|].
        split; [apply skipn_byte, B|]. split; [lia|exact Er].
      - intros (L8 & (B1 & _ & _ & F1) & (B2 & Ld & Er)).
        assert (Forall byte data) as B by (rewrite <- (firstn_skipn 8 data); apply Forall_app; auto).
        split; [exact B|]. rewrite length_skipn in Ld. split; [lia|]. apply encode_blocks_cons; [exact L8|exact B|].
        exists (skipn 11 enc). split; [exact Er|]. rewrite <- F1. symmetry. apply firstn_skipn. }
    destruct r1 as [b|]; cbn [obind].
    + destruct r2 as [rest|]; (eexists; split; [reflexivity|]); intros data; rewrite Split.
      * destruct (proj1 (R1 b) eq_refl) as (_ & _ & Es & _). assert (length b = 8%nat) as Lb.
        { destruct (proj1 (R1 b) eq_refl) as (_ & Lb & _). destruct (decoded_of_enc (length b) ltac:(lia)) as (Ed & _).
          rewrite <- Es in Ed. change (decoded_block_size 11) with (Some 8) in Ed. injection Ed as Ed. lia. }
        split.
        -- intros [= <-]. rewrite firstn_app, skipn_app, Lb, Nat.sub_diag, firstn_all2, skipn_all2, firstn_O, app_nil_r, length_app by lia.
           cbn [skipn app]. repeat split; auto; lia.
        -- intros (_ & E1 & E2). assert (b = firstn 8 data) as -> by congruence. assert (rest = skipn 8 data) as -> by congruence.
           f_equal. apply firstn_skipn.
      * split; [discriminate|]. intros (_ & _ & ?). discriminate.
    + eexists. split; [reflexivity|]. intros data. rewrite Split. split; [discriminate|]. intros (_ & ? & _). discriminate.
Qed.

Lemma b58_encode_ok data : Forall byte data ->
  exists enc, encode data = Some enc /\ length enc = (11 * (length data / 8) + enc_size (length data mod 8))%nat.
Proof.
  intros B. pose proof (Nat.div_mod_eq (length data) 8) as D. pose proof (Nat.mod_upper_bound (length data) 8 ltac:(lia)) as M.
  destruct (encode_blocks_ok (length data / 8) (length data mod 8) ltac:(lia) data D B) as (enc & E & L).
  destruct data as [|b data]; [exists []; auto|]. exists enc. auto.
Qed.

(** [decode] returns the one string of bytes whose encoding it is given, or false. *)
Lemma decode_ok enc : exists r, decode enc = Some r /\
  forall data, r = Some data <-> Forall byte data /\ encode data = Some enc.
Proof.
  assert (forall data, Forall byte data -> encode data = Some enc ->
    length enc = (11 * (length data / 8) + enc_size (length data mod 8))%nat) as Len.
  { intros data B E. destruct (b58_encode_ok data B) as (enc' & E' & L). congruence. }
  destruct enc as [|c enc0] eqn:Ee.
  { exists (Some []). split; [reflexivity|]. intros data. split; [intros [= <-]; auto|]. intros (B & E).
    apply Len in E; [|exact B]. cbn [length] in E. pose proof (Nat.div_mod_eq (length data) 8) as D.
    pose proof (Nat.mod_upper_bound (length data) 8 ltac:(lia)) as M.
    destruct (decoded_of_enc (length data mod 8) ltac:(lia)) as (_ & _ & Z). destruct data; [reflexivity|cbn [length] in *; lia]. }
  rewrite <- Ee in *. unfold decode. replace (match enc with [] => Some (Some []) | _ :: _ => _ end) with
    (last_block_decoded_size <- decoded_block_size (length enc mod 11) ;;
     if last_block_decoded_size <? 0 then Some None else decode_blocks (length enc / 11) (length enc mod 11) enc)
    by (rewrite Ee; reflexivity).
  pose proof (Nat.div_mod_eq (length enc) 11) as D. pose proof (Nat.mod_upper_bound (length enc) 11 ltac:(lia)) as M.
  assert (forall data, Forall byte data -> encode data = Some enc -> (length data / 8 = length enc / 11)%nat /\
    (enc_size (length data mod 8) = length enc mod 11)%nat) as Parts.
  { intros data B E. pose proof (Len data B E) as L. pose proof (Nat.mod_upper_bound (length data) 8 ltac:(lia)) as M8.
    assert (enc_size (length data mod 8) < 11)%nat as S11.
    { revert M8. generalize (length data mod 8)%nat. intros k K. do 8 (destruct k as [|k]; [cbn; lia|]). lia. }
    apply (Nat.div_mod_unique 11); lia. }
  destruct (decoded_sizes (length enc mod 11) ltac:(lia)) as (k & Ek & C). rewrite Ek. cbn [obind].
  destruct C as [->|[Rk Es]].
  { exists None. split; [reflexivity|]. intros data. split; [discriminate|]. intros (B & E). destruct (Parts data B E) as [_ P].
    pose proof (Nat.mod_upper_bound (length data) 8 ltac:(lia)) as M8.
    destruct (decoded_of_enc (length data mod 8) ltac:(lia)) as (Ed & _). rewrite P, Ek in Ed. assert (-1 = Z.of_nat (length data mod 8)) by congruence. lia. }
  replace (k <? 0) with false by (symmetry; apply Z.ltb_ge; lia). destruct (Z_of_nat_complete k ltac:(lia)) as [n ->]. rewrite Nat2Z.id in Es.
  assert (n <= 7)%nat as N7.
  { destruct (Nat.eq_dec n 8) as [->|]; [change (enc_size 8) with 11%nat in Es; lia|lia]. }
  rewrite Es. destruct (decode_blocks_ok (length enc / 11) n N7 enc ltac:(lia)) as (r & -> & R). exists r. split; [reflexivity|].
  intros data. rewrite R. pose proof (Nat.div_mod_eq (length data) 8) as D8. pose proof (Nat.mod_upper_bound (length data) 8 ltac:(lia)) as M8.
  assert (forall q k, (length data / 8 = q)%nat -> (length data mod 8 = k)%nat -> (0 < length enc)%nat ->
    encode data = Some enc <-> encode_blocks q k data = Some enc) as Enc.
  { intros q j <- <- P. destruct data; [|reflexivity]. cbn. split; intros [= <-]; cbn in P; lia. }
  assert (0 < length enc)%nat as Pos by (rewrite Ee; cbn; lia). split.
  - intros (B & Ld & E). split; [exact B|]. apply (Enc (length enc / 11)%nat n); [| |exact Pos|exact E].
    + symmetry. apply Nat.div_unique with (r := n); lia.
    + symmetry. apply Nat.mod_unique with (q := (length enc / 11)%nat); lia.
  - intros (B & E). destruct (Parts data B E) as [P1 P2]. assert (length data mod 8 = n)%nat as Pn.
    { destruct (decoded_of_enc (length data mod 8) ltac:(lia)) as (Ed & _). rewrite P2, Ek in Ed.
      apply Nat2Z.inj. congruence. }
    split; [exact B|]. split; [lia|]. apply (Enc _ _ P1 Pn Pos), E.
Qed.

(** ** Addresses *)

Section AddressLemmas.
Context {FH : FastHash}.

Lemma firstn_app_length {A} (a b : list A) : firstn (length a) (a ++ b) = a.
Proof. rewrite firstn_app, Nat.sub_diag, firstn_O, firstn_all, app_nil_r. reflexivity. Qed.

Lemma skipn_app_length {A} (a b : list A) : skipn (length a) (a ++ b) = b.
Proof. rewrite skipn_app, Nat.sub_diag, skipn_all. reflexivity. Qed.

Lemma write_varint_bytes tag : 0 <= tag < 2 ^ 64 -> Forall byte (write_varint tag) /\ (0 < length (write_varint tag))%nat.
Proof.
  intros H. destruct (write_varint_ok tag H) as (C & _ & _). split; [exact (canonical_byte _ _ C)|].
  destruct (write_varint tag); [contradiction|]. cbn. lia.
Qed.

(** What [decode_addr] does with the decoded string [buf ++ sum]. *)
Lemma decode_addr_split addr addr_data : decode addr = Some (Some addr_data) -> Forall byte addr_data ->
  Z.of_nat (length addr_data) < 2 ^ 31 -> (4 < length addr_data)%nat ->
  exists buf sum h, addr_data = buf ++ sum /\ length sum = 4%nat /\ fast_hash buf = Some h /\ Forall byte h /\ length h = 32%nat /\
    decode_addr addr = Some (if bytes_eqb (firstn 4 h) sum then
      let '(read, tag, _) := read_varint 64 buf in if read <=? 0 then None else Some (tag, skipn (Z.to_nat read) buf) else None).
Proof.
  intros E B L G. set (n := (length addr_data - 4)%nat). exists (firstn n addr_data), (skipn n addr_data).
  destruct (fast_hash_ok (firstn n addr_data)) as (h & Eh & Bh & Lh); [rewrite length_firstn; lia|]. exists h.
  split; [symmetry; apply firstn_skipn|]. split; [rewrite length_skipn; lia|]. do 3 (split; [assumption|]).
  unfold decode_addr, addr_checksum_size. rewrite E. cbn [obind].
  replace (length addr_data <=? 4)%nat with false by (symmetry; apply Nat.leb_gt; lia). cbv zeta. fold n. rewrite Eh. cbn [obind].
  destruct (bytes_eqb _ _); cbn [negb]; [|reflexivity]. destruct (read_varint 64 (firstn n addr_data)) as [[read tag] rest].
  destruct (read <=? 0); reflexivity.
Qed.

Lemma decode_encode data enc : Forall byte data -> encode data = Some enc -> decode enc = Some (Some data).
Proof.
  intros B E. destruct (decode_ok enc) as (r & -> & R). f_equal. apply R. auto.
Qed.

Lemma encode_addr_ok tag data : 0 <= tag < 2 ^ 64 -> Forall byte data -> Z.of_nat (length data) + 14 < 2 ^ 31 ->
  total (encode_addr tag data) (fun addr => decode_addr addr = Some (Some (tag, data))).
Proof.
  intros Ht B L. destruct (write_varint_ok tag Ht) as (C & V & L10), (write_varint_bytes tag Ht) as [Bv Pv].
  unfold encode_addr. cbv zeta. set (buf := write_varint tag ++ data).
  assert (Forall byte buf) as Bb by (apply Forall_app; auto).
  assert (length buf = length (write_varint tag) + length data)%nat as Lb by apply length_app.
  destruct (fast_hash_ok buf) as (h & Eh & Bh & Lh); [lia|]. rewrite Eh. cbn [obind]. unfold addr_checksum_size.
  assert (Forall byte (buf ++ firstn 4 h)) as Ba by (apply Forall_app; split; [exact Bb|apply firstn_byte, Bh]).
  destruct (b58_encode_ok _ Ba) as (addr & Ea & _). rewrite Ea. apply total_ret.
  assert (length (firstn 4 h) = 4%nat) as L4 by (rewrite length_firstn, Lh; reflexivity).
  destruct (decode_addr_split addr _ (decode_encode _ _ Ba Ea) Ba) as (buf' & sum & h' & E & Ls & Eh' & _ & _ & D);
    [rewrite length_app, L4; lia|rewrite length_app, L4; lia|].
  assert (buf' = buf /\ sum = firstn 4 h) as [-> ->].
  { assert (length buf' = length buf) as Le by (apply (f_equal (@length Z)) in E; rewrite !length_app in E; lia).
    pose proof (firstn_app_length buf (firstn 4 h)) as F. rewrite E, <- Le, firstn_app_length in F. subst buf'.
    apply app_inv_head in E. auto. }
  rewrite Eh in Eh'. injection Eh' as <-. rewrite (proj2 (bytes_eqb_iff _ _) eq_refl) in D. rewrite D. unfold read_varint, buf.
  rewrite (read_varint_loop_accepts 64 ltac:(lia) _ 0 0 0 data C) by (rewrite ?V; lia). rewrite V.
  replace (0 + Z.of_nat (length (write_varint tag)) <=? 0) with false by (symmetry; apply Z.leb_gt; lia).
  replace (Z.to_nat (0 + Z.of_nat (length (write_varint tag)))) with (length (write_varint tag)) by lia.
  rewrite skipn_app_length. do 3 f_equal. lia.
Qed.

(** An address that is accepted is the encoding of its parts, or ends inside its tag. *)
Lemma decode_addr_ok addr : Z.of_nat (length addr) < 2 ^ 31 ->
  exists r, decode_addr addr = Some r /\ forall tag data, r = Some (tag, data) ->
    encode_addr tag data = Some addr \/
    data = [] /\ exists buf h, Forall (fun b => 128 <= b < 256) buf /\ fast_hash buf = Some h /\ encode (buf ++ firstn 4 h) = Some addr.
Proof.
  intros L. destruct (decode_ok addr) as (r & Er & R). destruct r as [addr_data|].
  2: { exists None. unfold decode_addr. rewrite Er. split; [reflexivity|discriminate]. }
  destruct (proj1 (R addr_data) eq_refl) as [B E].
  assert (length addr_data <= length addr)%nat as Le.
  { destruct (b58_encode_ok addr_data B) as (a & Ea & La). rewrite E in Ea. injection Ea as <-.
    pose proof (Nat.div_mod_eq (length addr_data) 8) as D. pose proof (Nat.mod_upper_bound (length addr_data) 8 ltac:(lia)) as M.
    assert (forall k, (k < 8)%nat -> (k <= enc_size k)%nat) as K by (intros k Hk; do 8 (destruct k as [|k]; [cbn; lia|]); lia).
    specialize (K _ M). lia. }
  destruct (Nat.leb_spec (length addr_data) 4) as [Sm|G].
  { exists None. unfold decode_addr. rewrite Er. cbn [obind]. unfold addr_checksum_size.
    replace (length addr_data <=? 4)%nat with true by (symmetry; apply Nat.leb_le; lia). split; [reflexivity|discriminate]. }
  destruct (decode_addr_split addr addr_data Er B ltac:(lia) G) as (buf & sum & h & -> & Ls & Eh & Bh & Lh & D).
  eexists. split; [exact D|]. intros tag data. destruct (bytes_eqb (firstn 4 h) sum) eqn:Q; [|discriminate].
  apply bytes_eqb_iff in Q as <-. apply Forall_app in B as [Bb _].
  destruct (read_varint 64 buf) as [[read tag'] rest] eqn:Rv. destruct (Z.leb_spec read 0) as [|P]; [discriminate|].
  intros [= -> <-]. unfold read_varint in Rv.
  apply (read_varint_loop_ok 64 ltac:(lia)) in Rv; [|exact Bb|lia|cbn; lia].
  destruct Rv as [[->| ->]|[(bs & -> & C & V & V64 & N)|(F & -> & N)]]; [lia..| |].
  - left. cbn in V. rewrite Z.mul_1_l in V. rewrite N. replace (Z.to_nat (0 + Z.of_nat (length bs))) with (length bs) by lia.
    rewrite skipn_app_length. assert (write_varint tag = bs) as W.
    { pose proof (group_val_nonneg bs). destruct (write_varint_ok tag ltac:(lia)) as (C' & V' & _).
      apply (canonical_unique _ true true); [exact C'|exact C|lia]. }
    unfold encode_addr. cbv zeta. rewrite W, Eh. exact E.
  - right. rewrite N. rewrite skipn_all2 by lia. split; [reflexivity|]. exists buf, h. split; [|auto].
    rewrite Forall_forall in *. intros b Hb. specialize (F b Hb). specialize (Bb b Hb). unfold byte in Bb. lia.
Qed.
End AddressLemmas.
