(* ===== verification/Currency.v ===== *)
(** * Consensus arithmetic (CryptoNoteCore/Currency.cpp and helpers)

    Block rewards and their penalty for large blocks, interest on deposits, amounts
    and fees of transactions, the decomposition of amounts, and the next
    difficulty.  Amounts are 64-bit words that wrap around; [None] is a failed
    assertion or undefined behaviour, and a function that returns [bool] with an
    output argument returns an [option] of the output. *)

From Stdlib Require Import ZArith Lia List Bool Permutation Sorted.
Import ListNotations.
From S2P Require Import Prelude Bytes IntUtil.
Set Default Goal Selector "!".

(** ** Parameters (CryptoNoteConfig.h and the members of [Currency]) *)

Definition COIN : Z := 100000000.
Definition BLOCK_REWARD_GENESIS : Z := 1 * COIN.
Definition BLOCK_REWARD_FIRST : Z := 1844000000 * COIN.
Definition START_BLOCK_REWARD : Z := 200 * COIN.
Definition MIN_BLOCK_REWARD : Z := 200 * COIN.
Definition BLOCK_REWARD_LOSS : Z := 0 * COIN.
Definition REWARD_CHANGING_INTERVAL : Z := 11000.

Record currency := mk_currency {
  m_moneySupply : Z;
  m_blockGrantedFullRewardZone : Z;
  m_defaultDustThreshold : Z;
  m_difficultyTarget : Z;
  m_difficultyWindow : nat;
  m_difficultyCut : nat;
  m_depositMinTerm : Z;
  m_depositMaxTerm : Z;
  m_depositMinTotalRateFactor : Z;
  m_depositMaxTotalRate : Z;
  m_maxBlockSizeInitial : Z;
  m_maxBlockSizeGrowthSpeedNumerator : Z;
  m_maxBlockSizeGrowthSpeedDenominator : Z;
  m_fusionTxMaxSize : Z;
  m_fusionTxMinInputCount : nat;
  m_fusionTxMinInOutCountRatio : nat;
  m_maxBlockHeight : Z;
  m_minedMoneyUnlockWindow : Z;
  m_timestampCheckWindow : nat;
  m_blockFutureTimeLimit : Z;
  m_rewardBlocksWindow : nat;
  m_difficultyLag : nat;
  m_depositMinAmount : Z;
  m_lockedTxAllowedDeltaSeconds : Z;
  m_lockedTxAllowedDeltaBlocks : Z;
  m_upgradeHeight : Z;
  m_upgradeVotingThreshold : Z;
  m_upgradeVotingWindow : Z;
  m_upgradeWindow : Z
}.

(** The values [CurrencyBuilder] sets. *)
Definition default_currency : currency := {|
  m_moneySupply := 500000000000000000;
  m_blockGrantedFullRewardZone := 32000;
  m_defaultDustThreshold := 100000;
  m_difficultyTarget := 240;
  m_difficultyWindow := 240;
  m_difficultyCut := 30;
  m_depositMinTerm := 11000;
  m_depositMaxTerm := 12 * 11000;
  m_depositMinTotalRateFactor := 77000;
  m_depositMaxTotalRate := 11;
  m_maxBlockSizeInitial := 32000 * 10;
  m_maxBlockSizeGrowthSpeedNumerator := 100 * 1024;
  m_maxBlockSizeGrowthSpeedDenominator := 365 * 24 * 60 * 60 / 240;
  m_fusionTxMaxSize := 32000 * 30 / 100;
  m_fusionTxMinInputCount := 12;
  m_fusionTxMinInOutCountRatio := 4;
  m_maxBlockHeight := 500000000;
  m_minedMoneyUnlockWindow := 30;
  m_timestampCheckWindow := 30;
  m_blockFutureTimeLimit := 60 * 60 * 2;
  m_rewardBlocksWindow := 100;
  m_difficultyLag := 15;
  m_depositMinAmount := 150 * COIN;
  m_lockedTxAllowedDeltaSeconds := 240 * 1;
  m_lockedTxAllowedDeltaBlocks := 1;
  m_upgradeHeight := 0;
  m_upgradeVotingThreshold := 90;
  m_upgradeVotingWindow := 24 * 60 * 60 / 240;
  m_upgradeWindow := 24 * 60 * 60 / 240
|}.

(** ** Rewards *)

(** CryptoNoteBasicImpl.cpp *)
Definition getPenalizedAmount (amount medianSize currentBlockSize : Z) : option Z :=
  _ <- c_assert (currentBlockSize <=? u64 (2 * medianSize)) ;;
  _ <- c_assert (medianSize <=? i_max U32) ;;
  _ <- c_assert (currentBlockSize <=? i_max U32) ;;
  if amount =? 0 then Some 0 else
  if currentBlockSize <=? medianSize then Some amount else
  '(productLo, productHi) <- mul128 amount (u64 (currentBlockSize * u64 (u64 (2 * medianSize) - currentBlockSize))) ;;
  '(penalizedAmountHi, penalizedAmountLo, _) <- div128_32 productHi productLo (u32 medianSize) ;;
  '(penalizedAmountHi, penalizedAmountLo, _) <- div128_32 penalizedAmountHi penalizedAmountLo (u32 medianSize) ;;
  _ <- c_assert (0 =? penalizedAmountHi) ;;
  _ <- c_assert (penalizedAmountLo <? amount) ;;
  Some penalizedAmountLo.

Section Currency.
Variable cur : currency.

Definition baseRewardFunction (alreadyGeneratedCoins height : Z) : Z :=
  let base_reward :=
    if height =? 0 then BLOCK_REWARD_GENESIS
    else if height =? 1 then BLOCK_REWARD_FIRST
    else u64 (START_BLOCK_REWARD - u64 (height / REWARD_CHANGING_INTERVAL * BLOCK_REWARD_LOSS)) in
  let base_reward := Z.max base_reward MIN_BLOCK_REWARD in
  Z.min base_reward (u64 (m_moneySupply cur - alreadyGeneratedCoins)).

(** The pair of [reward] and [emissionChange]; [Some None] when the block is too big. *)
Definition getBlockReward (medianSize currentBlockSize alreadyGeneratedCoins fee height : Z)
    : option (option (Z * Z)) :=
  _ <- c_assert (alreadyGeneratedCoins <=? m_moneySupply cur) ;;
  let baseReward := baseRewardFunction alreadyGeneratedCoins height in
  let medianSize := Z.max medianSize (m_blockGrantedFullRewardZone cur) in
  if u64 (2 * medianSize) <? currentBlockSize then Some None else
  penalizedBaseReward <- getPenalizedAmount baseReward medianSize currentBlockSize ;;
  let emissionChange := wrap I64 penalizedBaseReward in
  let reward := u64 (penalizedBaseReward + fee) in
  Some (Some (reward, emissionChange)).

Definition calculateInterest (amount term : Z) : option Z :=
  _ <- c_assert ((m_depositMinTerm cur <=? term) && (term <=? m_depositMaxTerm cur)) ;;
  _ <- c_assert (m_depositMinTotalRateFactor cur <? u64 (term * m_depositMaxTotalRate cur)) ;;
  let a := u64 (u64 (term * m_depositMaxTotalRate cur) - m_depositMinTotalRateFactor cur) in
  let a := u64 (a * 5000) / 1037 in
  '(bLo, bHi) <- mul128 amount a ;;
  _ <- c_assert (m_depositMaxTerm cur <? i_max U32 / 1000) ;;
  '(interestHi, interestLo, _) <- div128_32 bHi bLo (u32 (1000 * m_depositMaxTerm cur)) ;;
  _ <- c_assert (interestHi =? 0) ;;
  Some interestLo.

(** ** Transactions: the parts that carry amounts (include/CryptoNote.h) *)

Inductive TransactionInput :=
| BaseInput (blockIndex : Z)
| KeyInput (amount : Z) (outputIndexes : list Z) (keyImage : list Z)
| MultisignatureInput (amount signatureCount outputIndex term : Z).

Fixpoint calculateTotalTransactionInterest (inputs : list TransactionInput) (interest : Z) : option Z :=
  match inputs with
  | [] => Some interest
  | MultisignatureInput amount _ _ term :: inputs =>
      if negb (term =? 0) then
        i <- calculateInterest amount term ;;
        calculateTotalTransactionInterest inputs (u64 (interest + i))
      else calculateTotalTransactionInterest inputs interest
  | _ :: inputs => calculateTotalTransactionInterest inputs interest
  end.

Definition getTransactionInputAmount (inp : TransactionInput) : option Z :=
  match inp with
  | KeyInput amount _ _ => Some amount
  | MultisignatureInput amount _ _ term =>
      if term =? 0 then Some amount else
      i <- calculateInterest amount term ;; Some (u64 (amount + i))
  | BaseInput _ => Some 0
  end.

Fixpoint getTransactionAllInputsAmount (inputs : list TransactionInput) (amount : Z) : option Z :=
  match inputs with
  | [] => Some amount
  | inp :: inputs =>
      a <- getTransactionInputAmount inp ;;
      getTransactionAllInputsAmount inputs (u64 (amount + a))
  end.

(** The fee; [Some None] when more goes out than comes in. *)
Definition getTransactionFee (inputs : list TransactionInput) (outputs : list Z) : option (option Z) :=
  amount_in <- getTransactionAllInputsAmount inputs 0 ;;
  let amount_out := fold_left (fun amount_out o => u64 (amount_out + o)) outputs 0 in
  if amount_in <? amount_out then Some None else Some (Some (u64 (amount_in - amount_out))).

Definition maxBlockCumulativeSize (height : Z) : option Z :=
  _ <- c_assert (height <=? i_max U64 / m_maxBlockSizeGrowthSpeedNumerator cur) ;;
  let maxSize := u64 (m_maxBlockSizeInitial cur +
    u64 (height * m_maxBlockSizeGrowthSpeedNumerator cur) / m_maxBlockSizeGrowthSpeedDenominator cur) in
  _ <- c_assert (m_maxBlockSizeInitial cur <=? maxSize) ;;
  Some maxSize.
End Currency.

(** ** Decomposition of amounts (CryptoNoteFormatUtils.h, CryptoNoteTools.cpp)

    The handlers of the chunks and of the dust append to one list, as both callers
    have it. *)

Record dec_state := mk_dec { dec_handled : bool; dec_dust : Z; dec_out : list Z }.

Fixpoint decompose_loop (fuel : nat) (amount order dust_threshold : Z) (st : dec_state) : option dec_state :=
  match fuel with
  | O => None
  | S fuel =>
      if amount =? 0 then Some st else
      let chunk := u64 (amount mod 10 * order) in
      let amount := amount / 10 in
      let order := u64 (order * 10) in
      let st :=
        if u64 (dec_dust st + chunk) <=? dust_threshold then
          mk_dec (dec_handled st) (u64 (dec_dust st + chunk)) (dec_out st)
        else
          let st := if negb (dec_handled st) && negb (0 =? dec_dust st)
                    then mk_dec true (dec_dust st) (dec_out st ++ [dec_dust st]) else st in
          if negb (0 =? chunk) then mk_dec (dec_handled st) (dec_dust st) (dec_out st ++ [chunk]) else st in
      decompose_loop fuel amount order dust_threshold st
  end.

Definition decompose_amount_into_digits (amount dust_threshold : Z) : option (list Z) :=
  if 0 =? amount then Some [] else
  st <- decompose_loop 21 amount 1 dust_threshold (mk_dec false 0 []) ;;
  if negb (dec_handled st) && negb (0 =? dec_dust st) then Some (dec_out st ++ [dec_dust st]) else Some (dec_out st).

Definition decomposeAmount (amount dustThreshold : Z) : option (list Z) := decompose_amount_into_digits amount dustThreshold.

(** [while (maxOuts < outAmounts.size())] of [constructMinerTx]: the last amount is added to the
    one before it. *)
Fixpoint merge_outs (fuel maxOuts : nat) (outAmounts : list Z) : list Z :=
  match fuel with
  | O => outAmounts
  | S fuel =>
      if (maxOuts <? length outAmounts)%nat then
        let n := length outAmounts in
        let outAmounts := set_nth (n - 2) (u64 (nth (n - 2) outAmounts 0 + nth (n - 1) outAmounts 0)) outAmounts in
        merge_outs fuel maxOuts (firstn (n - 1) outAmounts)
      else outAmounts
  end.

(** The amounts of the outputs of a miner transaction. *)
Definition miner_outs (cur : currency) (blockReward : Z) (maxOuts : nat) : option (option (list Z)) :=
  outAmounts <- decompose_amount_into_digits blockReward (m_defaultDustThreshold cur) ;;
  if (maxOuts <? 1)%nat then Some None else
  let outAmounts := merge_outs (length outAmounts) maxOuts outAmounts in
  let summaryAmounts := fold_left (fun s a => u64 (s + a)) outAmounts 0 in
  if negb (summaryAmounts =? blockReward) then Some None else Some (Some outAmounts).

(** ** Fusion transactions *)

Fixpoint insert (x : Z) (l : list Z) : list Z :=
  match l with [] => [x] | y :: l => if x <=? y then x :: y :: l else y :: insert x l end.
(** [std::sort] of integers: the one sorted permutation. *)
Definition zsort (l : list Z) : list Z := fold_right insert [] l.

Definition list_eqb (a b : list Z) : bool := (length a =? length b)%nat && forallb (fun '(x, y) => x =? y) (combine a b).

(** [for (auto amount : inputsAmounts)]: [None] inside when an amount is dust. *)
Fixpoint fusion_inputs (dust : Z) (inputsAmounts : list Z) (inputAmount : Z) : option Z :=
  match inputsAmounts with
  | [] => Some inputAmount
  | amount :: inputsAmounts =>
      if amount <? dust then None else fusion_inputs dust inputsAmounts (u64 (inputAmount + amount))
  end.

Definition isFusionTransaction (cur : currency) (inputsAmounts outputsAmounts : list Z) (size : Z) : option bool :=
  if m_fusionTxMaxSize cur <? size then Some false else
  if (length inputsAmounts <? m_fusionTxMinInputCount cur)%nat then Some false else
  if (length inputsAmounts <? length outputsAmounts * m_fusionTxMinInOutCountRatio cur)%nat then Some false else
  match fusion_inputs (m_defaultDustThreshold cur) inputsAmounts 0 with
  | None => Some false
  | Some inputAmount =>
      expectedOutputsAmounts <- decomposeAmount inputAmount (m_defaultDustThreshold cur) ;;
      Some (list_eqb (zsort expectedOutputsAmounts) outputsAmounts)
  end.

Definition PRETTY_AMOUNTS : list Z := Eval vm_compute in
  flat_map (fun k => map (fun d => Z.of_nat d * 10 ^ Z.of_nat k) (seq 1 9)) (seq 0 19) ++ [10 ^ 19].

(** The index of the first element that is not below [x], or the length. *)
Fixpoint lower_bound (l : list Z) (x : Z) : nat :=
  match l with [] => O | y :: l => if y <? x then S (lower_bound l x) else O end.

(** [amountPowerOfTen], when the amount is applicable. *)
Definition isAmountApplicableInFusionTransactionInput (cur : currency) (amount threshold : Z) : option Z :=
  if threshold <=? amount then None else
  if amount <? m_defaultDustThreshold cur then None else
  let it := lower_bound PRETTY_AMOUNTS amount in
  if (it =? length PRETTY_AMOUNTS)%nat || negb (amount =? nth it PRETTY_AMOUNTS 0) then None else
  Some (wrap U8 (Z.of_nat it / 9)).

(** ** The next difficulty *)

(** [v.resize(n)] *)
Definition resize (n : nat) (l : list Z) : list Z := firstn n l ++ repeat 0 (n - length l).

Definition nextDifficulty (cur : currency) (timestamps cumulativeDifficulties : list Z) : option Z :=
  let window := m_difficultyWindow cur in
  let cut := m_difficultyCut cur in
  _ <- c_assert (2 <=? window)%nat ;;
  let '(timestamps, cumulativeDifficulties) :=
    if (window <? length timestamps)%nat then (resize window timestamps, resize window cumulativeDifficulties)
    else (timestamps, cumulativeDifficulties) in
  let length_ := length timestamps in
  _ <- c_assert (length_ =? length cumulativeDifficulties)%nat ;;
  _ <- c_assert (length_ <=? window)%nat ;;
  if (length_ <=? 1)%nat then Some 1 else
  let timestamps := zsort timestamps in
  _ <- c_assert (2 * cut <=? window - 2)%nat ;;
  let '(cutBegin, cutEnd) :=
    if (length_ <=? window - 2 * cut)%nat then (0%nat, length_)
    else let cutBegin := ((length_ - (window - 2 * cut) + 1) / 2)%nat in (cutBegin, (cutBegin + (window - 2 * cut))%nat) in
  _ <- c_assert ((cutBegin + 2 <=? cutEnd)%nat && (cutEnd <=? length_)%nat) ;;
  let timeSpan := u64 (nth (cutEnd - 1) timestamps 0 - nth cutBegin timestamps 0) in
  let timeSpan := if timeSpan =? 0 then 1 else timeSpan in
  let totalWork := u64 (nth (cutEnd - 1) cumulativeDifficulties 0 - nth cutBegin cumulativeDifficulties 0) in
  _ <- c_assert (0 <? totalWork) ;;
  '(low, high) <- mul128 totalWork (m_difficultyTarget cur) ;;
  if negb (high =? 0) || (u64 (u64 (low + timeSpan) - 1) <? low) then Some 0 else
  Some (u64 (u64 (low + timeSpan) - 1) / timeSpan).

(** ** The reward of a block (Common/Math.h, Blockchain.cpp) *)

Definition medianValue (v : list Z) : Z :=
  match v with
  | [] => 0
  | [x] => x
  | _ =>
      let n := Nat.div (length v) 2 in
      let v := zsort v in
      if Nat.odd (length v) then nth n v 0 else u64 (nth (n - 1) v 0 + nth n v 0) / 2
  end.

(** The reward and the emission of a block that is accepted; [Some None] otherwise.  The outputs of
    the first two blocks are not compared with the reward. *)
Definition validate_miner_transaction (cur : currency) (outputs : list Z) (height cumulativeBlockSize : Z)
    (lastBlocksSizes : list Z) (alreadyGeneratedCoins fee : Z) : option (option (Z * Z)) :=
  let minerReward := fold_left (fun r o => u64 (r + o)) outputs 0 in
  let blocksSizeMedian := medianValue lastBlocksSizes in
  r <- getBlockReward cur blocksSizeMedian cumulativeBlockSize alreadyGeneratedCoins fee height ;;
  match r with
  | None => Some None
  | Some (reward, emissionChange) =>
      if (1 <? height) && ((reward <? minerReward) || (minerReward <? reward)) then Some None
      else Some (Some (reward, emissionChange))
  end.

(** ** Rewards: correctness *)

(** The penalty: the amount times [c (2 m - c) / m^2], rounded down. *)
Lemma getPenalizedAmount_ok amount m c : word64 amount -> 0 < m <= 2 ^ 32 - 1 -> 0 <= c <= 2 ^ 32 - 1 -> c <= 2 * m ->
  getPenalizedAmount amount m c = Some (if c <=? m then amount else amount * (c * (2 * m - c)) / (m * m)).
Proof.
  intros Ha Hm Hc Hcm. unfold getPenalizedAmount. rewrite (u64_small (2 * m)) by lia.
  replace (c <=? 2 * m) with true by (symmetry; apply Z.leb_le; lia).
  replace (m <=? i_max U32) with true by (symmetry; apply Z.leb_le; cbn; lia).
  replace (c <=? i_max U32) with true by (symmetry; apply Z.leb_le; cbn; lia). cbn [c_assert obind].
  destruct (Z.eqb_spec amount 0) as [->|Nz].
  { destruct (c <=? m); reflexivity. }
  destruct (Z.leb_spec c m) as [Le|Gt]; [reflexivity|]. unfold word64 in Ha.
  rewrite (u64_small (2 * m - c)) by lia. assert (0 <= c * (2 * m - c) < m * m) as B by nia.
  rewrite (u64_small (c * (2 * m - c))) by nia.
  destruct (mul128_ok amount (c * (2 * m - c))) as (lo & hi & -> & Wl & Wh & E); [exact Ha|split; nia|]. cbn [obind].
  rewrite (u32_small m) by lia.
  destruct (div128_32_ok hi lo m Wh Wl ltac:(lia)) as (qh & ql & -> & Wqh & Wql & Q). cbn [obind].
  destruct (div128_32_ok qh ql m Wqh Wql ltac:(lia)) as (ph & pl & -> & Wph & Wpl & P). cbn [obind].
  rewrite Q, <- E, Z.div_div in P by lia. set (r := amount * (c * (2 * m - c)) / (m * m)) in *.
  assert (0 <= r < amount) as R by (split; [apply Z.div_pos; nia|apply Z.div_lt_upper_bound; nia]).
  unfold word64 in *. assert (ph = 0 /\ pl = r) as [-> ->] by lia. cbn [Z.eqb c_assert obind].
  replace (r <? amount) with true by (symmetry; apply Z.ltb_lt; lia). reflexivity.
Qed.

(** What the parameters of a currency satisfy: supply and sizes within the widths of the code. *)
Record currency_ok (cur : currency) : Prop := {
  ok_supply : 0 <= m_moneySupply cur < 2 ^ 63;
  ok_zone : 0 < m_blockGrantedFullRewardZone cur <= 2 ^ 31 - 1
}.

Lemma default_currency_ok : currency_ok default_currency.
Proof. split; cbn; lia. Qed.

(** The reward before the penalty, within what is left of the supply. *)
Lemma baseReward_range cur generated height : currency_ok cur -> 0 <= generated <= m_moneySupply cur -> 0 <= height < 2 ^ 32 ->
  baseRewardFunction cur generated height =
    Z.min (if height =? 0 then MIN_BLOCK_REWARD else if height =? 1 then BLOCK_REWARD_FIRST else START_BLOCK_REWARD)
      (m_moneySupply cur - generated) /\
  0 <= baseRewardFunction cur generated height <= m_moneySupply cur - generated.
Proof.
  intros [S _] G H. unfold baseRewardFunction. cbv zeta. rewrite (u64_small (m_moneySupply cur - generated)) by lia.
  unfold BLOCK_REWARD_LOSS. rewrite Z.mul_0_l, Z.mul_0_r. change (u64 0) with 0. rewrite Z.sub_0_r.
  change (u64 START_BLOCK_REWARD) with START_BLOCK_REWARD.
  destruct (height =? 0); [|destruct (height =? 1)]; (split; [reflexivity|]); cbv [MIN_BLOCK_REWARD BLOCK_REWARD_FIRST BLOCK_REWARD_GENESIS START_BLOCK_REWARD COIN]; lia.
Qed.

(** Sorting. *)
Lemma insert_perm x l : Permutation (x :: l) (insert x l).
Proof.
  induction l as [|y l IH]; cbn; [reflexivity|]. destruct (x <=? y); [reflexivity|].
  rewrite perm_swap, IH. reflexivity.
Qed.

Lemma zsort_perm l : Permutation l (zsort l).
Proof. induction l as [|x l IH]; cbn; [reflexivity|]. rewrite IH at 1. apply insert_perm. Qed.

Lemma insert_sorted x l : StronglySorted Z.le l -> StronglySorted Z.le (insert x l).
Proof.
  induction 1 as [|y l S IH F]; cbn; [repeat constructor|]. destruct (Z.leb_spec x y) as [L|G].
  - constructor; [constructor; assumption|]. constructor; [exact L|]. eapply Forall_impl; [|exact F]. cbn. lia.
  - constructor; [exact IH|]. rewrite <- (insert_perm x l). constructor; [lia|exact F].
Qed.

Lemma zsort_sorted l : StronglySorted Z.le (zsort l).
Proof. induction l as [|x l IH]; cbn; [constructor|]. apply insert_sorted, IH. Qed.

Lemma sorted_unique l : forall m, StronglySorted Z.le l -> StronglySorted Z.le m -> Permutation l m -> l = m.
Proof.
  induction l as [|x l IH]; intros m Sl Sm P; [apply Permutation_nil in P; auto|].
  destruct m as [|y m]; [apply Permutation_sym, Permutation_nil in P; discriminate|].
  inversion_clear Sl as [|? ? Sl' Fl]. inversion_clear Sm as [|? ? Sm' Fm].
  assert (x = y) as ->.
  { assert (x <= y /\ y <= x); [|lia]. rewrite Forall_forall in Fl, Fm. split.
    - assert (In y (x :: l)) as [->|H] by (rewrite P; left; reflexivity); [lia|apply Fl, H].
    - assert (In x (y :: m)) as [->|H] by (rewrite <- P; left; reflexivity); [lia|apply Fm, H]. }
  f_equal. apply IH; [assumption..|]. apply Permutation_cons_inv in P. exact P.
Qed.

Lemma zsort_ext l m : Permutation l m -> zsort l = zsort m.
Proof.
  intros P. apply sorted_unique; [apply zsort_sorted..|]. rewrite <- !zsort_perm. exact P.
Qed.

Lemma sorted_nth l : StronglySorted Z.le l -> forall i j, (i <= j < length l)%nat -> nth i l 0 <= nth j l 0.
Proof.
  induction 1 as [|x l S IH F]; intros i j H; [cbn in H; lia|]. destruct i as [|i], j as [|j]; cbn [nth length] in *; try lia.
  - rewrite Forall_forall in F. apply F, nth_In. lia.
  - apply IH. lia.
Qed.

Lemma Forall_prefix {A} (P : A -> Prop) n l : Forall P l -> Forall P (firstn n l).
Proof. intros F. rewrite <- (firstn_skipn n l) in F. apply Forall_app in F. tauto. Qed.

Lemma sorted_firstn n l : StronglySorted Z.lt l -> StronglySorted Z.lt (firstn n l).
Proof.
  intros S. revert n. induction S as [|x l S IH F]; intros [|n]; cbn; constructor; [apply IH|apply Forall_prefix, F].
Qed.

Lemma sorted_lt_nth l : StronglySorted Z.lt l -> forall i j, (i < j < length l)%nat -> nth i l 0 < nth j l 0.
Proof.
  induction 1 as [|x l S IH F]; intros i j H; [cbn in H; lia|]. destruct i as [|i], j as [|j]; cbn [nth length] in *; try lia.
  - rewrite Forall_forall in F. apply F, nth_In. lia.
  - apply IH. lia.
Qed.

(** ** The next difficulty: correctness *)

(** The part of [len] sorted timestamps that counts. *)
Definition cut_range (cur : currency) (len : nat) : nat * nat :=
  let keep := (m_difficultyWindow cur - 2 * m_difficultyCut cur)%nat in
  if (len <=? keep)%nat then (0%nat, len) else let b := ((len - keep + 1) / 2)%nat in (b, (b + keep)%nat).

Record difficulty_ok (cur : currency) : Prop := {
  ok_window : (2 + 2 * m_difficultyCut cur <= m_difficultyWindow cur)%nat;
  ok_target : word64 (m_difficultyTarget cur)
}.

Lemma default_difficulty_ok : difficulty_ok default_currency.
Proof. split; cbn; [lia|]. split; [lia|reflexivity]. Qed.

Lemma cut_range_ok cur len : difficulty_ok cur -> (2 <= len <= m_difficultyWindow cur)%nat ->
  let '(b, e) := cut_range cur len in (b + 2 <= e <= len)%nat.
Proof.
  intros [W _] H. unfold cut_range. cbv zeta. destruct (Nat.leb_spec len (m_difficultyWindow cur - 2 * m_difficultyCut cur)) as [L|G]; [lia|].
  set (k := (m_difficultyWindow cur - 2 * m_difficultyCut cur)%nat) in *.
  pose proof (Nat.div_mod_eq (len - k + 1) 2). pose proof (Nat.mod_upper_bound (len - k + 1) 2). lia.
Qed.

(** Rounded-up division as the code writes it, with its test for overflow. *)
Lemma ceil_div low span : word64 low -> 0 < span < 2 ^ 64 ->
  (u64 (u64 (low + span) - 1) <? low) = (2 ^ 64 <=? low + span - 1) /\
  (low + span - 1 < 2 ^ 64 -> u64 (u64 (low + span) - 1) = low + span - 1).
Proof.
  unfold word64. intros Hl Hs.
  assert (u64 (u64 (low + span) - 1) = (low + span - 1) mod 2 ^ 64) as E.
  { rewrite !u64_mod, Zminus_mod_idemp_l. reflexivity. }
  rewrite E. destruct (Z.lt_ge_cases (low + span - 1) (2 ^ 64)) as [L|G].
  - rewrite Z.mod_small by lia. split; [|lia]. destruct (Z.ltb_spec (low + span - 1) low), (Z.leb_spec (2 ^ 64) (low + span - 1)); lia || reflexivity.
  - replace ((low + span - 1) mod 2 ^ 64) with (low + span - 1 - 2 ^ 64) by (apply Z.mod_unique with (q := 1); lia).
    split; [|lia]. destruct (Z.ltb_spec (low + span - 1 - 2 ^ 64) low), (Z.leb_spec (2 ^ 64) (low + span - 1)); lia || reflexivity.
Qed.

Lemma nextDifficulty_ok cur ts cds : difficulty_ok cur -> length ts = length cds -> (2 <= length ts <= m_difficultyWindow cur)%nat ->
  Forall word64 ts -> Forall word64 cds -> StronglySorted Z.lt cds ->
  let '(b, e) := cut_range cur (length ts) in
  let span := Z.max 1 (nth (e - 1) (zsort ts) 0 - nth b (zsort ts) 0) in
  let work := nth (e - 1) cds 0 - nth b cds 0 in
  let product := work * m_difficultyTarget cur in
  0 < work /\
  nextDifficulty cur ts cds = Some (if product + span - 1 <? 2 ^ 64 then (product + span - 1) / span else 0).
Proof.
  intros D L R Wt Wc Sc. pose proof (cut_range_ok cur (length ts) D R) as C. unfold nextDifficulty. cbv zeta.
  fold (cut_range cur (length ts)).
  replace (2 <=? m_difficultyWindow cur)%nat with true by (symmetry; apply Nat.leb_le; lia). cbn [c_assert obind].
  replace (m_difficultyWindow cur <? length ts)%nat with false by (symmetry; apply Nat.ltb_ge; lia).
  rewrite <- L, Nat.eqb_refl. cbn [c_assert obind].
  replace (length ts <=? m_difficultyWindow cur)%nat with true by (symmetry; apply Nat.leb_le; lia). cbn [c_assert obind].
  replace (length ts <=? 1)%nat with false by (symmetry; apply Nat.leb_gt; lia).
  replace (2 * m_difficultyCut cur <=? m_difficultyWindow cur - 2)%nat with true by (symmetry; apply Nat.leb_le; destruct D; lia).
  cbn [c_assert obind]. unfold cut_range in *. cbv zeta in *. destruct (if (length ts <=? _)%nat then _ else _) as [b e].
  replace ((b + 2 <=? e)%nat && (e <=? length ts)%nat) with true by (symmetry; rewrite andb_true_iff, !Nat.leb_le; lia).
  cbn [c_assert obind]. pose proof (Permutation_length (zsort_perm ts)) as Lz.
  assert (forall l i, Forall word64 l -> word64 (nth i l 0)) as Wn.
  { intros l i F. destruct (nth_in_or_default i l 0) as [H| ->]; [|split; lia]. rewrite Forall_forall in F. apply F, H. }
  assert (Forall word64 (zsort ts)) as Wz by (rewrite <- zsort_perm; exact Wt).
  pose proof (sorted_nth _ (zsort_sorted ts) b (e - 1) ltac:(lia)) as St.
  pose proof (Wn _ b Wz) as W1. pose proof (Wn _ (e - 1)%nat Wz) as W2. pose proof (Wn _ b Wc) as W3. pose proof (Wn _ (e - 1)%nat Wc) as W4.
  assert (nth b cds 0 < nth (e - 1) cds 0) as Sw by (apply sorted_lt_nth; [exact Sc|lia]).
  unfold word64 in *. rewrite (u64_small (nth (e - 1) (zsort ts) 0 - _)), (u64_small (nth (e - 1) cds 0 - _)) by lia.
  set (work := nth (e - 1) cds 0 - nth b cds 0) in *. set (t := nth (e - 1) (zsort ts) 0 - nth b (zsort ts) 0) in *.
  replace (if t =? 0 then 1 else t) with (Z.max 1 t) by (destruct (Z.eqb_spec t 0); lia).
  set (span := Z.max 1 t). split; [lia|]. replace (0 <? work) with true by (symmetry; apply Z.ltb_lt; lia). cbn [c_assert obind].
  destruct (mul128_ok work (m_difficultyTarget cur)) as (lo & hi & -> & Wl & Wh & E); [split; lia|apply D|]. cbn [obind].
  destruct (ceil_div lo span Wl ltac:(lia)) as [Ov Ev]. rewrite Ov. unfold word64 in *. rewrite E.
  destruct (Z.eqb_spec hi 0) as [->|Nh]; cbn [negb orb].
  - rewrite Z.mul_0_l, Z.add_0_l. destruct (Z.leb_spec (2 ^ 64) (lo + span - 1)) as [G|G].
    + replace (lo + span - 1 <? 2 ^ 64) with false by (symmetry; apply Z.ltb_ge; lia). reflexivity.
    + replace (lo + span - 1 <? 2 ^ 64) with true by (symmetry; apply Z.ltb_lt; lia). rewrite Ev by lia. reflexivity.
  - replace (hi * 2 ^ 64 + lo + span - 1 <? 2 ^ 64) with false by (symmetry; apply Z.ltb_ge; lia). reflexivity.
Qed.

Lemma resize_short n l : (n <= length l)%nat -> resize n l = firstn n l.
Proof. intros H. unfold resize. replace (n - length l)%nat with 0%nat by lia. apply app_nil_r. Qed.

(** Only the first [m_difficultyWindow] entries count. *)
Lemma nextDifficulty_window cur ts cds : length ts = length cds ->
  nextDifficulty cur ts cds = nextDifficulty cur (firstn (m_difficultyWindow cur) ts) (firstn (m_difficultyWindow cur) cds).
Proof.
  intros L. set (w := m_difficultyWindow cur). destruct (Nat.ltb_spec w (length ts)) as [G|Le].
  - unfold nextDifficulty. fold w. cbv zeta. rewrite !length_firstn.
    replace (w <? Nat.min w (length ts))%nat with false by (symmetry; apply Nat.ltb_ge; lia).
    apply Nat.ltb_lt in G as G'. rewrite G', !resize_short by lia. rewrite !length_firstn. reflexivity.
  - rewrite !firstn_all2 by lia. reflexivity.
Qed.

(** ** Interest: correctness *)

Record deposit_ok (cur : currency) : Prop := {
  ok_terms : 0 < m_depositMinTerm cur <= m_depositMaxTerm cur;
  ok_max_term : m_depositMaxTerm cur < 4294967;
  ok_factor : 0 <= m_depositMinTotalRateFactor cur < m_depositMinTerm cur * m_depositMaxTotalRate cur;
  ok_rate : m_depositMaxTerm cur * m_depositMaxTotalRate cur * 5000 < 2 ^ 64;
  ok_yield : (m_depositMaxTerm cur * m_depositMaxTotalRate cur - m_depositMinTotalRateFactor cur) * 5000 / 1037 <= 1000 * m_depositMaxTerm cur
}.

Lemma default_deposit_ok : deposit_ok default_currency.
Proof. split; cbn; try lia. apply Z.leb_le. vm_compute. reflexivity. Qed.

(** The rate of a term, in units of [1 / (1000 * m_depositMaxTerm)]. *)
Definition term_rate (cur : currency) (term : Z) : Z :=
  (term * m_depositMaxTotalRate cur - m_depositMinTotalRateFactor cur) * 5000 / 1037.

Lemma term_rate_range cur term : deposit_ok cur -> m_depositMinTerm cur <= term <= m_depositMaxTerm cur ->
  0 <= term_rate cur term <= 1000 * m_depositMaxTerm cur.
Proof.
  intros [T M F R Y] H. unfold term_rate. assert (0 < m_depositMaxTotalRate cur) by nia. split.
  - apply Z.div_pos; nia.
  - etransitivity; [|exact Y]. apply Z.div_le_mono; nia.
Qed.

Lemma calculateInterest_ok cur amount term : deposit_ok cur -> word64 amount ->
  m_depositMinTerm cur <= term <= m_depositMaxTerm cur ->
  calculateInterest cur amount term = Some (amount * term_rate cur term / (1000 * m_depositMaxTerm cur)) /\
  0 <= amount * term_rate cur term / (1000 * m_depositMaxTerm cur) <= amount.
Proof.
  intros D Ha H. pose proof (term_rate_range cur term D H) as T. destruct D as [Dt Dm Df Dr Dy].
  assert (0 < m_depositMaxTotalRate cur) as R0 by nia. unfold word64 in Ha.
  assert (0 <= amount * term_rate cur term / (1000 * m_depositMaxTerm cur) <= amount) as B.
  { split; [apply Z.div_pos; nia|]. apply Z.div_le_upper_bound; nia. }
  split; [|exact B]. unfold calculateInterest.
  replace ((m_depositMinTerm cur <=? term) && (term <=? m_depositMaxTerm cur)) with true by (symmetry; rewrite andb_true_iff, !Z.leb_le; lia).
  cbn [c_assert obind]. assert (m_depositMinTerm cur * m_depositMaxTotalRate cur <= term * m_depositMaxTotalRate cur) by nia.
  assert (term * m_depositMaxTotalRate cur <= m_depositMaxTerm cur * m_depositMaxTotalRate cur) by nia.
  rewrite (u64_small (term * m_depositMaxTotalRate cur)) by lia.
  replace (m_depositMinTotalRateFactor cur <? term * m_depositMaxTotalRate cur) with true by (symmetry; apply Z.ltb_lt; lia).
  cbn [c_assert obind]. cbv zeta. rewrite (u64_small (term * m_depositMaxTotalRate cur - _)), (u64_small (_ * 5000)) by lia.
  fold (term_rate cur term).
  destruct (mul128_ok amount (term_rate cur term)) as (lo & hi & -> & Wl & Wh & E); [exact Ha|split; lia|]. cbn [obind].
  change (i_max U32 / 1000) with 4294967. replace (m_depositMaxTerm cur <? 4294967) with true by (symmetry; apply Z.ltb_lt; lia).
  cbn [c_assert obind]. rewrite (u32_small (1000 * m_depositMaxTerm cur)) by lia.
  destruct (div128_32_ok hi lo (1000 * m_depositMaxTerm cur) Wh Wl ltac:(lia)) as (qh & ql & -> & Wqh & Wql & Q). cbn [obind].
  rewrite <- E in Q. unfold word64 in *. assert (qh = 0) as -> by nia. cbn [Z.eqb c_assert obind]. f_equal. lia.
Qed.

(** ** Amounts: correctness *)

Definition sumZ (l : list Z) : Z := fold_right Z.add 0 l.

Lemma sumZ_app a b : sumZ (a ++ b) = sumZ a + sumZ b.
Proof. induction a as [|x a IH]; cbn; [reflexivity|]. unfold sumZ in *. lia. Qed.

Lemma sumZ_nonneg l : Forall (fun a => 0 <= a) l -> 0 <= sumZ l.
Proof. induction 1 as [|x l H _ IH]; cbn; [lia|]. unfold sumZ in IH. lia. Qed.

(** Adding up with wrap-around is exact when the total fits. *)
Lemma fold_sum l : forall acc, Forall (fun a => 0 <= a) l -> 0 <= acc -> acc + sumZ l < 2 ^ 64 ->
  fold_left (fun s a => u64 (s + a)) l acc = acc + sumZ l.
Proof.
  induction l as [|x l IH]; intros acc H Ha S; cbn [fold_left sumZ fold_right] in *; [lia|].
  inversion_clear H as [|? ? Hx H']. pose proof (sumZ_nonneg l H') as P. unfold sumZ in *.
  rewrite u64_small by lia. rewrite IH by (assumption || lia). lia.
Qed.

(** A part of an amount: dust, or one digit and zeros. *)
Definition part_ok (threshold a : Z) : Prop :=
  0 < a /\ (a <= threshold \/ exists d k, 1 <= d <= 9 /\ 0 <= k /\ a = d * 10 ^ k).

(** The loop after [k] digits: all of them are dust, or some chunk was too big for the dust, and the
    dust, if any, has been written. *)
Definition dec_inv (amount threshold : Z) (k : nat) (st : dec_state) : Prop :=
  let low := amount mod 10 ^ Z.of_nat k in
  0 <= dec_dust st <= low /\ dec_dust st <= threshold /\ Forall (part_ok threshold) (dec_out st) /\
  (dec_out st = [] /\ dec_handled st = false /\ dec_dust st = low \/
   sumZ (dec_out st) = low /\ (dec_handled st = true \/ dec_dust st = 0) /\
   exists c, 0 < c < 10 ^ Z.of_nat k /\ threshold < dec_dust st + c).

Lemma mod_step a k : 0 <= a -> a mod 10 ^ Z.of_nat (S k) = a / 10 ^ Z.of_nat k mod 10 * 10 ^ Z.of_nat k + a mod 10 ^ Z.of_nat k.
Proof.
  intros H. rewrite Nat2Z.inj_succ, Z.pow_succ_r, Z.mul_comm, Z.rem_mul_r by lia. ring.
Qed.

(** One turn keeps the invariant. *)
Lemma dec_step_ok amount threshold k st : word64 amount -> 0 <= threshold -> dec_inv amount threshold k st ->
  let chunk := amount / 10 ^ Z.of_nat k mod 10 * 10 ^ Z.of_nat k in
  dec_inv amount threshold (S k)
    (if dec_dust st + chunk <=? threshold then mk_dec (dec_handled st) (dec_dust st + chunk) (dec_out st)
     else let st := if negb (dec_handled st) && negb (0 =? dec_dust st)
                    then mk_dec true (dec_dust st) (dec_out st ++ [dec_dust st]) else st in
          if negb (0 =? chunk) then mk_dec (dec_handled st) (dec_dust st) (dec_out st ++ [chunk]) else st).
Proof.
  intros Ha Ht I chunk. unfold word64 in Ha. unfold dec_inv in I. cbv zeta in I. destruct I as (Dl & Dt & F & C). pose proof (mod_step amount k ltac:(lia)) as M.
  set (p := 10 ^ Z.of_nat k) in *. set (low := amount mod p) in *.
  assert (0 < p) as Pp by (unfold p; lia). pose proof (Z.mod_pos_bound (amount / p) 10 ltac:(lia)) as Bd.
  set (d := amount / p mod 10) in *. assert (0 <= chunk) as C0 by (unfold chunk; nia).
  assert (10 ^ Z.of_nat (S k) = 10 * p) as P10 by (rewrite Nat2Z.inj_succ, Z.pow_succ_r by lia; reflexivity).
  assert (chunk < 10 * p) as C1 by (unfold chunk; nia).
  unfold dec_inv. rewrite M, P10. fold chunk. destruct (Z.leb_spec (dec_dust st + chunk) threshold) as [Le|Gt]; cbn [dec_dust dec_handled dec_out].
  - split; [lia|]. split; [lia|]. split; [exact F|]. destruct C as [(-> & -> & ->)|(S & Hd & c & Hc & Th)].
    + left. split; [reflexivity|]. split; [reflexivity|]. lia.
    + assert (chunk = 0) as Cz.
      { destruct (Z.eq_dec d 0) as [Zd|Nd]; [unfold chunk; lia|]. assert (p <= chunk) by (unfold chunk; nia). lia. }
      rewrite Cz, Z.add_0_r, Z.add_0_l. right. split; [exact S|]. split; [exact Hd|]. exists c. lia.
  - assert (1 <= d) as D1 by (destruct (Z.eq_dec d 0) as [Zd|Nd]; [unfold chunk in Gt; nia|lia]).
    assert (part_ok threshold chunk) as Pc.
    { assert (0 < chunk) by (unfold chunk; nia). split; [assumption|]. right. exists d, (Z.of_nat k). split; [lia|]. split; [lia|reflexivity]. }
    assert (0 < chunk) as Cp by apply Pc. replace (negb (0 =? chunk)) with true by (symmetry; apply negb_true_iff, Z.eqb_neq; lia).
    set (st1 := if negb (dec_handled st) && negb (0 =? dec_dust st) then mk_dec true (dec_dust st) (dec_out st ++ [dec_dust st]) else st).
    assert (dec_dust st1 = dec_dust st /\ Forall (part_ok threshold) (dec_out st1) /\ sumZ (dec_out st1) = low /\
      (dec_handled st1 = true \/ dec_dust st1 = 0)) as (E1 & F1 & S1 & H1).
    { unfold st1. destruct C as [(Eo & Eh & Ed)|(S & Hd & _)].
      - rewrite Eh, Eo. cbn [negb andb]. destruct (Z.eqb_spec 0 (dec_dust st)) as [Z0|Nz]; cbn [negb].
        + rewrite Eo. split; [reflexivity|]. split; [constructor|]. split; [cbn [sumZ fold_right]; lia|]. right. lia.
        + cbn [dec_dust dec_out dec_handled app]. split; [reflexivity|]. split; [constructor; [|constructor]; split; [lia|left; lia]|].
          split; [cbn [sumZ fold_right]; lia|auto].
      - destruct (dec_handled st) eqn:Eh; cbn [negb andb]; [rewrite Eh; auto|].
        destruct Hd as [Hd|Hd]; [discriminate|]. rewrite Hd. cbn. rewrite Eh. auto. }
    clearbody st1. cbv zeta. cbn [dec_dust dec_handled dec_out]. rewrite E1. split; [lia|]. split; [lia|]. split; [apply Forall_app; auto|]. right. rewrite sumZ_app, S1. cbn [sumZ fold_right].
    split; [lia|]. split; [rewrite <- E1; exact H1|]. exists chunk. lia.
Qed.

Lemma decompose_loop_ok amount threshold n : word64 amount -> 0 <= threshold -> forall fuel k st,
  (k + n = 20)%nat -> (n < fuel)%nat -> dec_inv amount threshold k st ->
  exists st' k', decompose_loop fuel (amount / 10 ^ Z.of_nat k) (u64 (10 ^ Z.of_nat k)) threshold st = Some st' /\
    dec_inv amount threshold k' st' /\ amount mod 10 ^ Z.of_nat k' = amount.
Proof.
  intros Ha Ht. induction n as [|n IH]; intros [|fuel] k st Hk Hf I; try lia; cbn [decompose_loop];
    unfold word64 in Ha.
  - assert (k = 20)%nat as -> by lia. change (10 ^ Z.of_nat 20) with (10 ^ 20). rewrite Z.div_small by (change (2 ^ 64) with 18446744073709551616 in Ha; lia).
    cbn [Z.eqb]. exists st, 20%nat. split; [reflexivity|]. split; [exact I|]. apply Z.mod_small.
    change (10 ^ Z.of_nat 20) with 100000000000000000000. lia.
  - assert (0 < 10 ^ Z.of_nat k) as P by lia. destruct (Z.eqb_spec (amount / 10 ^ Z.of_nat k) 0) as [Z0|Nz].
    { exists st, k. split; [reflexivity|]. split; [exact I|]. apply Z.mod_small. apply Z.div_small_iff in Z0; lia. }
    assert (10 ^ Z.of_nat k <= 10 ^ 19) as P19 by (apply Z.pow_le_mono_r; lia).
    rewrite (u64_small (10 ^ Z.of_nat k)) by (change (2 ^ 64) with 18446744073709551616; lia).
    pose proof (dec_step_ok amount threshold k st Ha Ht I) as S. cbv zeta in S |- *.
    pose proof (mod_step amount k ltac:(lia)) as M. pose proof (Z.mod_le amount (10 ^ Z.of_nat (Datatypes.S k)) ltac:(lia) ltac:(lia)) as Lm.
    pose proof (Z.mod_pos_bound amount (10 ^ Z.of_nat k) P) as Bm. pose proof (Z.mod_pos_bound (amount / 10 ^ Z.of_nat k) 10 ltac:(lia)) as Bd.
    assert (0 <= amount / 10 ^ Z.of_nat k mod 10 * 10 ^ Z.of_nat k) as C0 by nia. destruct I as ((D0 & D1) & _).
    rewrite (u64_small (amount / 10 ^ Z.of_nat k mod 10 * 10 ^ Z.of_nat k)) by lia.
    rewrite (u64_small (dec_dust st + _)) by lia.
    rewrite Z.div_div by lia. replace (10 ^ Z.of_nat k * 10) with (10 ^ Z.of_nat (Datatypes.S k)) by (rewrite Nat2Z.inj_succ, Z.pow_succ_r by lia; ring).
    apply (IH fuel (Datatypes.S k)); [lia|lia|exact S].
Qed.

Lemma decompose_ok amount threshold : word64 amount -> 0 <= threshold ->
  exists parts, decompose_amount_into_digits amount threshold = Some parts /\ sumZ parts = amount /\ Forall (part_ok threshold) parts.
Proof.
  intros Ha Ht. unfold decompose_amount_into_digits. destruct (Z.eqb_spec 0 amount) as [<-|N]; [exists []; auto|].
  destruct (decompose_loop_ok amount threshold 20 Ha Ht 21 0 (mk_dec false 0 []) ltac:(lia) ltac:(lia)) as (st & k & E & I & M).
  { unfold dec_inv. cbn [dec_dust dec_out dec_handled]. rewrite Z.mod_1_r. split; [lia|]. split; [lia|]. split; [constructor|auto]. }
  rewrite Z.div_1_r in E. change (u64 (10 ^ Z.of_nat 0)) with 1 in E. rewrite E. cbn [obind].
  destruct I as (Dl & Dt & F & C). rewrite M in *. destruct C as [(Eo & Eh & Ed)|(S & Hd & _)].
  - rewrite Eh, Eo. cbn [negb andb]. replace (0 =? dec_dust st) with false by (symmetry; apply Z.eqb_neq; lia). cbn [negb app].
    eexists. split; [reflexivity|]. split; [cbn; lia|]. constructor; [|constructor]. unfold word64 in Ha. split; [lia|left; lia].
  - replace (negb (dec_handled st) && negb (0 =? dec_dust st)) with false; [eauto|].
    destruct Hd as [-> | ->]; [reflexivity|]. symmetry. apply andb_false_r.
Qed.

(** *** The outputs of a miner transaction *)

Lemma merge_step l : (2 <= length l)%nat -> Forall (fun a => 0 <= a) l -> sumZ l < 2 ^ 64 ->
  let n := length l in
  let l' := firstn (n - 1) (set_nth (n - 2) (u64 (nth (n - 2) l 0 + nth (n - 1) l 0)) l) in
  length l' = (n - 1)%nat /\ sumZ l' = sumZ l /\ Forall (fun a => 0 <= a) l'.
Proof.
  intros L F S n l'. destruct (@exists_last _ l) as (l1 & y & E1); [intros ->; cbn in L; lia|].
  destruct (@exists_last _ l1) as (l0 & x & E0); [intros ->; rewrite E1 in L; cbn in L; lia|].
  assert (l = l0 ++ x :: [y]) as E by (rewrite E1, E0, <- app_assoc; reflexivity).
  assert (length l0 = n - 2)%nat as L0 by (unfold n; rewrite E, length_app; cbn; lia).
  assert (nth (n - 2) l 0 = x) as Nx by (rewrite E, <- L0; apply nth_middle).
  assert (nth (n - 1) l 0 = y) as Ny.
  { replace (n - 1)%nat with (length (l0 ++ [x])) by (rewrite length_app; cbn; lia).
    rewrite E. change (x :: [y]) with ([x] ++ [y]). rewrite app_assoc. apply nth_middle. }
  rewrite E in F, S. apply Forall_app in F as [F0 F2]. inversion_clear F2 as [|? ? Fx F3]. inversion_clear F3 as [|? ? Fy _].
  pose proof (sumZ_nonneg l0 F0) as P0. rewrite sumZ_app in S. cbn [sumZ fold_right] in S.
  assert (l' = l0 ++ [x + y]) as E'.
  { unfold l'. rewrite Nx, Ny, u64_small by lia. rewrite E at 1. rewrite <- L0, set_nth_app.
    replace (n - 1)%nat with (length (l0 ++ [x + y])) by (rewrite length_app; cbn; lia).
    change (x + y :: [y]) with ([x + y] ++ [y]). rewrite app_assoc, firstn_app, Nat.sub_diag, firstn_O, firstn_all, app_nil_r. reflexivity. }
  rewrite E', E, !sumZ_app, length_app. cbn [sumZ fold_right length]. split; [lia|]. split; [lia|].
  apply Forall_app. split; [exact F0|]. constructor; [lia|constructor].
Qed.

Lemma merge_outs_ok maxOuts : (1 <= maxOuts)%nat -> forall fuel l, (length l <= fuel)%nat -> Forall (fun a => 0 <= a) l -> sumZ l < 2 ^ 64 ->
  length (merge_outs fuel maxOuts l) = Nat.min maxOuts (length l) /\ sumZ (merge_outs fuel maxOuts l) = sumZ l /\
  Forall (fun a => 0 <= a) (merge_outs fuel maxOuts l).
Proof.
  intros M. induction fuel as [|fuel IH]; intros l Lf F S; cbn [merge_outs]; [split; [lia|auto]|].
  destruct (Nat.ltb_spec maxOuts (length l)) as [G|Le]; [|split; [lia|auto]]. cbv zeta.
  destruct (merge_step l ltac:(lia) F S) as (L1 & S1 & F1). destruct (IH _ ltac:(rewrite L1; lia) F1 ltac:(rewrite S1; exact S)) as (L2 & S2 & F2).
  rewrite L2, S2, L1, S1. split; [lia|auto].
Qed.

Lemma part_nonneg t l : Forall (part_ok t) l -> Forall (fun a => 0 <= a) l.
Proof. intros H. eapply Forall_impl; [|exact H]. intros a [P _]. lia. Qed.

Lemma miner_outs_ok cur reward maxOuts : word64 reward -> 0 <= m_defaultDustThreshold cur -> (1 <= maxOuts)%nat ->
  exists outs, miner_outs cur reward maxOuts = Some (Some outs) /\ sumZ outs = reward /\ (length outs <= maxOuts)%nat /\
    Forall (fun a => 0 <= a) outs.
Proof.
  intros Hr Hd M. destruct (decompose_ok reward _ Hr Hd) as (parts & E & S & F). unfold miner_outs. rewrite E. cbn [obind].
  replace (maxOuts <? 1)%nat with false by (symmetry; apply Nat.ltb_ge; lia). unfold word64 in Hr.
  destruct (merge_outs_ok maxOuts M (length parts) parts ltac:(lia) (part_nonneg _ _ F) ltac:(lia)) as (Lm & Sm & Fm).
  cbv zeta. rewrite fold_sum, Z.add_0_l, Sm, S, Z.eqb_refl by (assumption || lia). cbn [negb].
  eexists. split; [reflexivity|]. split; [congruence|]. split; [lia|exact Fm].
Qed.

(** *** The reward of a block *)

Definition penalized (base m size : Z) : Z := if size <=? m then base else base * (size * (2 * m - size)) / (m * m).

Lemma penalized_range base m size : 0 <= base -> 0 < m -> 0 <= size <= 2 * m -> 0 <= penalized base m size <= base.
Proof.
  intros Hb Hm Hs. unfold penalized. destruct (Z.leb_spec size m); [lia|]. assert (0 <= size * (2 * m - size) <= m * m) by nia.
  split; [apply Z.div_pos; nia|apply Z.div_le_upper_bound; nia].
Qed.

Lemma getBlockReward_ok cur median size generated fee height : currency_ok cur ->
  0 <= median <= 2 ^ 31 - 1 -> 0 <= size <= 2 ^ 32 - 1 -> 0 <= generated <= m_moneySupply cur -> word64 fee -> 0 <= height < 2 ^ 32 ->
  let m := Z.max median (m_blockGrantedFullRewardZone cur) in
  let pen := penalized (baseRewardFunction cur generated height) m size in
  getBlockReward cur median size generated fee height = Some (if 2 * m <? size then None else Some (u64 (pen + fee), pen)).
Proof.
  intros C Hm Hs Hg Hf Hh. cbv zeta. destruct (baseReward_range cur generated height C Hg Hh) as [_ B]. destruct C as [S Z].
  unfold getBlockReward. cbv zeta. replace (generated <=? m_moneySupply cur) with true by (symmetry; apply Z.leb_le; lia). cbn [c_assert obind].
  set (base := baseRewardFunction cur generated height) in *. set (m := Z.max median (m_blockGrantedFullRewardZone cur)).
  assert (0 < m <= 2 ^ 31 - 1) as Bm by lia. rewrite (u64_small (2 * m)) by lia. clearbody m base.
  destruct (Z.ltb_spec (2 * m) size) as [G|Le]; [reflexivity|].
  rewrite getPenalizedAmount_ok by (unfold word64; lia). cbn [obind]. fold (penalized base m size).
  pose proof (penalized_range base m size ltac:(lia) ltac:(lia) ltac:(lia)) as P.
  rewrite (wrap_id I64) by (apply in_ity_spec; cbn [I64 i_min i_max]; lia). reflexivity.
Qed.

Lemma medianValue_range v b : Forall (fun x => 0 <= x <= b) v -> b < 2 ^ 63 -> 0 <= b -> 0 <= medianValue v <= b.
Proof.
  intros F B B0. unfold medianValue. destruct v as [|x [|y v]]; [lia|inversion_clear F; assumption|]. set (l := x :: y :: v) in *.
  assert (Forall (fun x => 0 <= x <= b) (zsort l)) as Fs by (rewrite <- zsort_perm; exact F).
  assert (forall i, 0 <= nth i (zsort l) 0 <= b) as N.
  { intros i. destruct (nth_in_or_default i (zsort l) 0) as [H| ->]; [|lia]. rewrite Forall_forall in Fs. apply Fs, H. }
  cbv zeta. destruct (Nat.odd _); [apply N|]. pose proof (N (Nat.div (length l) 2 - 1)%nat) as N1. pose proof (N (Nat.div (length l) 2)) as N2.
  rewrite u64_small by lia. split; [apply Z.div_pos; lia|apply Z.div_le_upper_bound; lia].
Qed.

(** A miner transaction is valid when the size is and, from the third block on, its outputs add up to
    the reward. *)
Lemma validate_miner_transaction_ok cur outputs height size sizes generated fee : currency_ok cur ->
  Forall (fun x => 0 <= x <= 2 ^ 31 - 1) sizes -> 0 <= size <= 2 ^ 32 - 1 -> 0 <= generated <= m_moneySupply cur -> word64 fee ->
  0 <= height < 2 ^ 32 ->
  let m := Z.max (medianValue sizes) (m_blockGrantedFullRewardZone cur) in
  let pen := penalized (baseRewardFunction cur generated height) m size in
  validate_miner_transaction cur outputs height size sizes generated fee =
    Some (if (size <=? 2 * m) && ((height <=? 1) || (fold_left (fun r o => u64 (r + o)) outputs 0 =? u64 (pen + fee)))
          then Some (u64 (pen + fee), pen) else None) /\
  (size <= 2 * m -> 0 <= pen <= m_moneySupply cur - generated).
Proof.
  intros C Fs Hs Hg Hf Hh m pen. pose proof (medianValue_range sizes (2 ^ 31 - 1) Fs ltac:(lia) ltac:(lia)) as Hm.
  pose proof (ok_zone _ C) as Zn. split.
  - unfold validate_miner_transaction. cbv zeta. rewrite getBlockReward_ok by assumption. cbv zeta. fold m. fold pen. cbn [obind].
    rewrite (Z.leb_antisym (2 * m)). destruct (2 * m <? size); cbn [negb andb]; [reflexivity|].
    rewrite (Z.leb_antisym 1). destruct (1 <? height); cbn [negb andb orb]; [|reflexivity].
    set (s := fold_left _ _ _). destruct (Z.ltb_spec (u64 (pen + fee)) s), (Z.ltb_spec s (u64 (pen + fee))),
      (Z.eqb_spec s (u64 (pen + fee))); cbn [orb]; try reflexivity; lia.
  - intros Le. destruct (baseReward_range cur generated height C Hg Hh) as [_ B].
    pose proof (penalized_range (baseRewardFunction cur generated height) m size ltac:(lia) ltac:(lia) ltac:(lia)) as P. fold pen in P. lia.
Qed.

(** *** Pretty amounts *)

Lemma lower_bound_ok l x : StronglySorted Z.lt l -> (lower_bound l x < length l)%nat /\ nth (lower_bound l x) l 0 = x <-> In x l.
Proof.
  intros S. split.
  - intros [L <-]. apply nth_In, L.
  - induction S as [|y l S IH F]; intros H; [destruct H|]. cbn [lower_bound]. rewrite Forall_forall in F.
    destruct (Z.ltb_spec y x) as [Lt|Ge].
    + destruct H as [->|H]; [lia|]. cbn [length nth]. destruct (IH H). split; [lia|assumption].
    + destruct H as [->|H]; [cbn; split; [lia|reflexivity]|]. specialize (F x H). lia.
Qed.

Lemma pretty_sorted : StronglySorted Z.lt PRETTY_AMOUNTS.
Proof.
  apply Sorted_StronglySorted; [exact Z.lt_trans|]. unfold PRETTY_AMOUNTS.
  repeat (apply Sorted_cons; [|(apply HdRel_cons; reflexivity) || apply HdRel_nil]). apply Sorted_nil.
Qed.

(** The amounts of one digit and zeros, up to [10^19], with their exponents. *)
Lemma pretty_nth i : (i < length PRETTY_AMOUNTS)%nat ->
  nth i PRETTY_AMOUNTS 0 = (Z.of_nat (i mod 9) + 1) * 10 ^ Z.of_nat (i / 9).
Proof.
  intros H. assert (forallb (fun i => nth i PRETTY_AMOUNTS 0 =? (Z.of_nat (i mod 9) + 1) * 10 ^ Z.of_nat (i / 9)) (seq 0 172) = true) as T
    by (vm_compute; reflexivity).
  rewrite forallb_forall in T. apply Z.eqb_eq, T, in_seq. change (length PRETTY_AMOUNTS) with 172%nat in H. lia.
Qed.
