(* ===== verification/DepositIndex.v ===== *)
(** * The index of deposits (CryptoNoteCore/DepositIndex.cpp)

    Cumulative deposit amounts and interests by height, kept only for the blocks
    that change them.  The specification is a log: the list of the amount and the
    interest of every block.  The index refines it: pushing and popping blocks
    keep the two in step, and a query by height is a sum over a prefix of the
    log. *)

From Stdlib Require Import ZArith Lia List Bool.
Import ListNotations.
From S2P Require Import Prelude Bytes IntUtil.
Set Default Goal Selector "!".

(** ** The code *)

Record DepositIndexEntry := mk_entry { height : Z; amount : Z; interest : Z }.
Record DepositIndex := mk_index { index : list DepositIndexEntry; blockCount : Z }.

Definition empty_index : DepositIndex := mk_index [] 0.

(** [index.back()], of an index that is not empty. *)
Definition back (l : list DepositIndexEntry) : option DepositIndexEntry := nth_error l (length l - 1).

Definition fullDepositAmount (d : DepositIndex) : Z := match back (index d) with None => 0 | Some e => amount e end.
Definition fullInterestAmount (d : DepositIndex) : Z := match back (index d) with None => 0 | Some e => interest e end.

Definition sumWillOverflow_i64 (x y : Z) : bool :=
  if (0 <? y) && (i_max I64 - y <? x) then true
  else if (y <? 0) && (x <? i_min I64 - y) then true else false.

Definition sumWillOverflow_u64 (x y : Z) : bool := u64 (i_max U64 - y) <? x.

Definition pushBlock (amount_ interest_ : Z) (d : DepositIndex) : option DepositIndex :=
  let lastAmount := match back (index d) with None => 0 | Some e => amount e end in
  let lastInterest := match back (index d) with None => 0 | Some e => interest e end in
  _ <- c_assert (negb (sumWillOverflow_i64 amount_ lastAmount)) ;;
  _ <- c_assert (negb (sumWillOverflow_u64 interest_ lastInterest)) ;;
  sum <- arith I64 (amount_ + lastAmount) ;;
  _ <- c_assert (0 <=? sum) ;;
  let entries := if negb (amount_ =? 0) || (0 <? interest_)
                 then index d ++ [mk_entry (blockCount d) sum (u64 (interest_ + lastInterest))] else index d in
  Some (mk_index entries (u32 (blockCount d + 1))).

Definition popBlock (d : DepositIndex) : option DepositIndex :=
  _ <- c_assert (0 <? blockCount d) ;;
  let count := u32 (blockCount d - 1) in
  let entries := match back (index d) with
                 | Some e => if height e =? count then removelast (index d) else index d
                 | None => index d
                 end in
  Some (mk_index entries count).

Definition size (d : DepositIndex) : Z := blockCount d.

(** The index of the first entry above the height. *)
Fixpoint upper_bound (l : list DepositIndexEntry) (h : Z) : nat :=
  match l with [] => O | e :: l => if h <? height e then O else S (upper_bound l h) end.

Definition upperBound (d : DepositIndex) (h : Z) : nat := upper_bound (index d) h.

(** The number of blocks popped and the new index. *)
Definition popBlocks (from : Z) (d : DepositIndex) : Z * DepositIndex :=
  if blockCount d <=? from then (0, d) else
  let it := upperBound d from in
  let it := match it with
            | O => O
            | S it => match nth_error (index d) it with
                      | Some e => if negb (height e =? from) then S it else it
                      | None => S it
                      end
            end in
  let diff := u32 (blockCount d - from) in
  (diff, mk_index (firstn it (index d)) (u32 (blockCount d - diff))).

Definition depositAmountAtHeight (d : DepositIndex) (h : Z) : Z :=
  if blockCount d =? 0 then 0 else
  match upperBound d h with
  | O => 0
  | S it => match nth_error (index d) it with Some e => amount e | None => 0 end
  end.

Definition depositInterestAtHeight (d : DepositIndex) (h : Z) : Z :=
  if blockCount d =? 0 then 0 else
  match upperBound d h with
  | O => 0
  | S it => match nth_error (index d) it with Some e => interest e | None => 0 end
  end.

(** ** The log *)

(** The change of the amount and the interest in every block. *)
Definition log : Type := list (Z * Z).

Definition amounts (bs : log) : Z := fold_right (fun b s => fst b + s) 0 bs.
Definition interests (bs : log) : Z := fold_right (fun b s => snd b + s) 0 bs.

(** The entries of a log from a height on, with the sums before it. *)
Fixpoint entries (h a i : Z) (bs : log) : list DepositIndexEntry :=
  match bs with
  | [] => []
  | (da, di) :: bs =>
      if negb (da =? 0) || (0 <? di) then mk_entry h (a + da) (i + di) :: entries (h + 1) (a + da) (i + di) bs
      else entries (h + 1) (a + da) (i + di) bs
  end.

(** Every prefix of the log keeps the amount and the interest in range. *)
Definition log_ok (bs : log) : Prop :=
  Z.of_nat (length bs) < 2 ^ 32 /\ Forall (fun b => 0 <= snd b) bs /\
  forall n, 0 <= amounts (firstn n bs) < 2 ^ 63 /\ interests (firstn n bs) < 2 ^ 64.

Definition refines (d : DepositIndex) (bs : log) : Prop :=
  log_ok bs /\ index d = entries 0 0 0 bs /\ blockCount d = Z.of_nat (length bs).

Lemma amounts_app a b : amounts (a ++ b) = amounts a + amounts b.
Proof. induction a as [|x a IH]; cbn [app amounts fold_right]; [reflexivity|]. unfold amounts in *. lia. Qed.

Lemma interests_app a b : interests (a ++ b) = interests a + interests b.
Proof. induction a as [|x a IH]; cbn [app interests fold_right]; [reflexivity|]. unfold interests in *. lia. Qed.

Lemma entries_app bs cs : forall h a i, entries h a i (bs ++ cs) =
  entries h a i bs ++ entries (h + Z.of_nat (length bs)) (a + amounts bs) (i + interests bs) cs.
Proof.
  induction bs as [|[da di] bs IH]; intros h a i; cbn [app entries amounts interests fold_right fst snd length].
  - rewrite !Z.add_0_r. reflexivity.
  - rewrite IH, Nat2Z.inj_succ. unfold amounts, interests.
    replace (h + 1 + Z.of_nat (length bs)) with (h + Z.succ (Z.of_nat (length bs))) by lia. rewrite !Z.add_assoc.
    destruct (_ || _); reflexivity.
Qed.

Lemma entries_heights bs : forall h a i, Forall (fun e => h <= height e < h + Z.of_nat (length bs)) (entries h a i bs).
Proof.
  induction bs as [|[da di] bs IH]; intros h a i; cbn [entries length]; [constructor|].
  assert (Forall (fun e => h <= height e < h + Z.of_nat (S (length bs))) (entries (h + 1) (a + da) (i + di) bs)) as F.
  { eapply Forall_impl; [|apply IH]. cbn. intros e. lia. }
  destruct (_ || _); [constructor; [cbn; lia|exact F]|exact F].
Qed.

Lemma back_app l e : back (l ++ [e]) = Some e.
Proof. unfold back. rewrite length_app, Nat.add_sub, nth_error_app2, Nat.sub_diag by (cbn; lia). reflexivity. Qed.

(** The last entry holds the sums of the whole log. *)
Lemma entries_back bs : forall h a i, Forall (fun b => 0 <= snd b) bs ->
  match back (entries h a i bs) with
  | Some e => amount e = a + amounts bs /\ interest e = i + interests bs
  | None => amounts bs = 0 /\ interests bs = 0 /\ entries h a i bs = []
  end.
Proof.
  induction bs as [|[da di] bs IH] using rev_ind; intros h a i F; [cbn; auto|].
  apply Forall_app in F as [F Fb]. inversion_clear Fb as [|? ? Fd _]. cbn [snd] in Fd. specialize (IH h a i F).
  rewrite entries_app, amounts_app, interests_app. cbn [entries amounts interests fold_right fst snd].
  destruct (negb (da =? 0) || (0 <? di)) eqn:E.
  - rewrite back_app. cbn. unfold amounts, interests. split; lia.
  - apply orb_false_elim in E as [E1 E2]. apply negb_false_iff, Z.eqb_eq in E1. apply Z.ltb_ge in E2. rewrite app_nil_r.
    fold (amounts bs) (interests bs) in *. destruct (back (entries h a i bs)) as [e|]; [lia|].
    destruct IH as (A & I & N). split; [lia|]. split; [lia|exact N].
Qed.

(** The entries up to a height are those of a prefix of the log. *)
Lemma upper_bound_app l m h : Forall (fun e => height e <= h) l -> Forall (fun e => h < height e) m -> upper_bound (l ++ m) h = length l.
Proof.
  intros Fl Fm. induction Fl as [|e l He _ IH]; cbn [app upper_bound length].
  - destruct Fm as [|e m He _]; cbn; [reflexivity|]. apply Z.ltb_lt in He. rewrite He. reflexivity.
  - apply Z.ltb_ge in He. rewrite He, IH. reflexivity.
Qed.

Lemma entries_split n bs : entries 0 0 0 bs =
  entries 0 0 0 (firstn n bs) ++ entries (Z.of_nat (length (firstn n bs))) (amounts (firstn n bs)) (interests (firstn n bs)) (skipn n bs).
Proof. rewrite <- (firstn_skipn n bs) at 1. rewrite entries_app. reflexivity. Qed.

Lemma upper_bound_entries bs h : 0 <= h ->
  upper_bound (entries 0 0 0 bs) h = length (entries 0 0 0 (firstn (Z.to_nat (h + 1)) bs)).
Proof.
  intros Hh. set (n := Z.to_nat (h + 1)). rewrite (entries_split n bs). apply upper_bound_app.
  - eapply Forall_impl; [|apply entries_heights]. cbn. intros e. rewrite length_firstn. lia.
  - destruct (Nat.le_gt_cases (length bs) n) as [L|G].
    + rewrite skipn_all2 by exact L. constructor.
    + eapply Forall_impl; [|apply entries_heights]. cbn. intros e. rewrite length_firstn. lia.
Qed.

Lemma nth_error_back l m : l <> [] -> nth_error (l ++ m) (length l - 1) = back l.
Proof. intros N. unfold back. apply nth_error_app1. destruct l; [contradiction|]. cbn. lia. Qed.

(** A query by height is a sum over a prefix. *)
Lemma at_height_ok (f : DepositIndexEntry -> Z) (g : log -> Z) bs h : 0 <= h -> g [] = 0 ->
  (forall bs, match back (entries 0 0 0 bs) with Some e => Forall (fun b => 0 <= snd b) bs -> f e = g bs
              | None => Forall (fun b => 0 <= snd b) bs -> g bs = 0 end) ->
  Forall (fun b => 0 <= snd b) bs ->
  match upper_bound (entries 0 0 0 bs) h with
  | O => 0
  | S it => match nth_error (entries 0 0 0 bs) it with Some e => f e | None => 0 end
  end = g (firstn (Z.to_nat (h + 1)) bs).
Proof.
  intros Hh G0 B F. rewrite upper_bound_entries by exact Hh. set (n := Z.to_nat (h + 1)).
  assert (Forall (fun b => 0 <= snd b) (firstn n bs)) as Fn
    by (rewrite <- (firstn_skipn n bs) in F; apply Forall_app in F; tauto).
  specialize (B (firstn n bs)). destruct (entries 0 0 0 (firstn n bs)) as [|e l] eqn:E.
  - cbn in *. symmetry. apply B, Fn.
  - rewrite (entries_split n bs), E. cbn [length]. replace (length l) with (length (e :: l) - 1)%nat by (cbn; lia).
    rewrite nth_error_back by discriminate. destruct (back (e :: l)) as [x|] eqn:Ex; [apply B, Fn|].
    exfalso. unfold back in Ex. apply nth_error_None in Ex. cbn in Ex. lia.
Qed.

Lemma amountAtHeight_ok d bs h : refines d bs -> 0 <= h -> depositAmountAtHeight d h = amounts (firstn (Z.to_nat (h + 1)) bs).
Proof.
  intros ((_ & F & _) & E & C) Hh. unfold depositAmountAtHeight, upperBound. rewrite E, C.
  destruct (Z.eqb_spec (Z.of_nat (length bs)) 0) as [Z0|N].
  - destruct bs; [|cbn in Z0; lia]. rewrite firstn_nil. reflexivity.
  - apply (at_height_ok amount amounts); [exact Hh|reflexivity| |exact F]. intros cs.
    pose proof (entries_back cs 0 0 0) as B. destruct (back _); intros Fc; destruct (B Fc); lia.
Qed.

Lemma interestAtHeight_ok d bs h : refines d bs -> 0 <= h -> depositInterestAtHeight d h = interests (firstn (Z.to_nat (h + 1)) bs).
Proof.
  intros ((_ & F & _) & E & C) Hh. unfold depositInterestAtHeight, upperBound. rewrite E, C.
  destruct (Z.eqb_spec (Z.of_nat (length bs)) 0) as [Z0|N].
  - destruct bs; [|cbn in Z0; lia]. rewrite firstn_nil. reflexivity.
  - apply (at_height_ok interest interests); [exact Hh|reflexivity| |exact F]. intros cs.
    pose proof (entries_back cs 0 0 0) as B. destruct (back _); intros Fc; [destruct (B Fc); lia|]. destruct (B Fc) as (_ & I & _). exact I.
Qed.

(** ** The operations refine those of the log *)

Lemma firstn_snoc_le {A} (l : list A) x n : (n <= length l)%nat -> firstn n (l ++ [x]) = firstn n l.
Proof. intros H. rewrite firstn_app. replace (n - length l)%nat with 0%nat by lia. cbn. apply app_nil_r. Qed.

Lemma log_ok_prefix bs n : log_ok bs -> log_ok (firstn n bs).
Proof.
  intros (L & F & S). split; [|split].
  - rewrite length_firstn. lia.
  - rewrite <- (firstn_skipn n bs) in F. apply Forall_app in F. tauto.
  - intros m. rewrite firstn_firstn. apply S.
Qed.

Lemma log_ok_all bs : log_ok bs -> 0 <= amounts bs < 2 ^ 63 /\ interests bs < 2 ^ 64.
Proof. intros (_ & _ & S). specialize (S (length bs)). rewrite firstn_all in S. exact S. Qed.

Lemma interests_nonneg bs : Forall (fun b => 0 <= snd b) bs -> 0 <= interests bs.
Proof. unfold interests. induction 1 as [|b bs H _ IH]; cbn; lia. Qed.

Lemma log_ok_snoc bs a i : log_ok bs -> Z.of_nat (length bs) + 1 < 2 ^ 32 -> 0 <= i ->
  0 <= amounts bs + a < 2 ^ 63 -> interests bs + i < 2 ^ 64 -> log_ok (bs ++ [(a, i)]).
Proof.
  intros (L & F & S) Hl Hi Ha Hi'. split; [|split].
  - rewrite length_app, Nat2Z.inj_add. cbn. lia.
  - apply Forall_app. split; [exact F|]. repeat constructor. exact Hi.
  - intros n. destruct (Nat.le_gt_cases n (length bs)) as [Le|Gt].
    + rewrite firstn_snoc_le by exact Le. apply S.
    + rewrite firstn_all2 by (rewrite length_app; cbn; lia). rewrite amounts_app, interests_app. cbn. lia.
Qed.

(** A log determines the index. *)
Lemma refines_unique d d' bs : refines d bs -> refines d' bs -> d = d'.
Proof. intros (_ & E & C) (_ & E' & C'). destruct d, d'. cbn in *. congruence. Qed.

(** The sums of the whole log. *)
Lemma full_ok d bs : refines d bs -> fullDepositAmount d = amounts bs /\ fullInterestAmount d = interests bs.
Proof.
  intros ((_ & F & _) & E & _). unfold fullDepositAmount, fullInterestAmount. rewrite E.
  pose proof (entries_back bs 0 0 0 F) as B. destruct (back _); lia.
Qed.

Lemma sumWillOverflow_i64_ok x y : x < 2 ^ 63 -> 0 <= y < 2 ^ 63 -> sumWillOverflow_i64 x y = (2 ^ 63 - 1 <? x + y).
Proof.
  intros Hx H. unfold sumWillOverflow_i64. change (i_max I64) with (2 ^ 63 - 1).
  replace (y <? 0) with false by (symmetry; apply Z.ltb_ge; lia). cbn [andb].
  destruct (Z.ltb_spec 0 y), (Z.ltb_spec (2 ^ 63 - 1 - y) x); cbn [andb]; symmetry;
    first [apply Z.ltb_lt; lia|apply Z.ltb_ge; lia].
Qed.

(** A block can be pushed when, and only when, the sums stay in range. *)
Definition pushable (bs : log) (a i : Z) : bool :=
  (0 <=? amounts bs + a) && (amounts bs + a <? 2 ^ 63) && (interests bs + i <? 2 ^ 64).

Lemma pushable_iff bs a i :
  pushable bs a i = true <-> 0 <= amounts bs + a < 2 ^ 63 /\ interests bs + i < 2 ^ 64.
Proof. unfold pushable. rewrite !andb_true_iff, Z.leb_le, !Z.ltb_lt. tauto. Qed.

Lemma pushBlock_ok d bs a i : refines d bs -> - 2 ^ 63 <= a < 2 ^ 63 -> word64 i -> Z.of_nat (length bs) + 1 < 2 ^ 32 ->
  match pushBlock a i d with
  | Some d' => pushable bs a i = true /\ refines d' (bs ++ [(a, i)])
  | None => pushable bs a i = false
  end.
Proof.
  intros R Ha Hi Hl. destruct (full_ok _ _ R) as [FA FI]. destruct R as (Ok & E & C).
  destruct (log_ok_all _ Ok) as [BA BI]. pose proof (interests_nonneg bs ltac:(apply Ok)) as I0.
  unfold pushBlock. change (match back (index d) with Some e => amount e | None => 0 end) with (fullDepositAmount d).
  change (match back (index d) with Some e => interest e | None => 0 end) with (fullInterestAmount d).
  unfold word64 in Hi. rewrite FA, FI, sumWillOverflow_i64_ok by lia. unfold sumWillOverflow_u64, pushable.
  change (i_max U64) with (2 ^ 64 - 1). rewrite (u64_small (2 ^ 64 - 1 - interests bs)) by lia. rewrite (Z.add_comm a).
  destruct (Z.ltb_spec (2 ^ 63 - 1) (amounts bs + a)) as [O|O]; cbn [negb c_assert obind].
  { replace (amounts bs + a <? 2 ^ 63) with false by (symmetry; apply Z.ltb_ge; lia). rewrite andb_false_r. reflexivity. }
  destruct (Z.ltb_spec (2 ^ 64 - 1 - interests bs) i) as [P|P]; cbn [negb c_assert obind].
  { replace (interests bs + i <? 2 ^ 64) with false by (symmetry; apply Z.ltb_ge; lia). apply andb_false_r. }
  rewrite arith_in by (unfold in_ity; apply andb_true_intro; split; apply Z.leb_le; change (i_min I64) with (- 2 ^ 63); change (i_max I64) with (2 ^ 63 - 1); lia).
  cbn [obind]. destruct (Z.leb_spec 0 (amounts bs + a)) as [N|N]; cbn [c_assert obind]; [|reflexivity].
  split; [rewrite !andb_true_iff, !Z.ltb_lt; lia|]. split; [apply log_ok_snoc; [exact Ok|lia..]|].
  cbn [index blockCount]. split.
  - rewrite entries_app, E, C. cbn [entries]. rewrite (u64_small (i + interests bs)) by lia.
    destruct (_ || _); [|rewrite app_nil_r; reflexivity]. do 2 f_equal. f_equal; lia.
  - rewrite C, length_app, Nat2Z.inj_add. cbn [length]. apply u32_small. lia.
Qed.

Lemma popBlock_ok d bs b : refines d (bs ++ [b]) -> exists d', popBlock d = Some d' /\ refines d' bs.
Proof.
  intros (Ok & E & C). assert (log_ok bs) as Ok'.
  { rewrite <- (firstn_all bs), <- (firstn_snoc_le bs b) by lia. apply log_ok_prefix, Ok. }
  rewrite length_app, Nat2Z.inj_add in C. cbn [length] in C. change (Z.of_nat 1) with 1 in C.
  unfold popBlock. rewrite C. replace (0 <? _) with true by (symmetry; apply Z.ltb_lt; lia). cbn [c_assert obind].
  replace (Z.of_nat (length bs) + 1 - 1) with (Z.of_nat (length bs)) by lia. destruct Ok' as (L & Ok').
  rewrite u32_small by lia. eexists. split; [reflexivity|]. split; [split; assumption|]. cbn [index blockCount].
  split; [|reflexivity]. rewrite E, entries_app. destruct b as [da di]. cbn [entries]. destruct (_ || _).
  - rewrite back_app. cbn [height]. rewrite Z.eqb_refl. apply removelast_last.
  - rewrite app_nil_r. destruct (back (entries 0 0 0 bs)) as [e|] eqn:B; [|reflexivity].
    assert (height e < Z.of_nat (length bs)) as H.
    { pose proof (entries_heights bs 0 0 0) as F. rewrite Forall_forall in F.
      specialize (F e (nth_error_In _ _ B)). lia. }
    apply Z.lt_neq, Z.eqb_neq in H. rewrite H. reflexivity.
Qed.

(** [popBlock] of an index of no blocks fails its assertion. *)
Lemma popBlock_empty d : refines d [] -> popBlock d = None.
Proof. intros (_ & _ & C). unfold popBlock. rewrite C. reflexivity. Qed.

Lemma firstn_succ {A} (l : list A) n x : nth_error l n = Some x -> firstn (S n) l = firstn n l ++ [x].
Proof. revert n. induction l as [|y l IH]; intros [|n] E; cbn in *; try discriminate; [congruence|]. f_equal. apply IH, E. Qed.

(** Removing from a height on is taking a prefix of the log. *)
Lemma entries_cut bs n : (n < length bs)%nat ->
  match upper_bound (entries 0 0 0 bs) (Z.of_nat n) with
  | O => O
  | S it => match nth_error (entries 0 0 0 bs) it with
            | Some e => if negb (height e =? Z.of_nat n) then S it else it
            | None => S it
            end
  end = length (entries 0 0 0 (firstn n bs)).
Proof.
  intros H. rewrite upper_bound_entries by lia. replace (Z.to_nat (Z.of_nat n + 1)) with (S n) by lia.
  destruct (nth_error bs n) as [b|] eqn:Eb; [|apply nth_error_None in Eb; lia].
  pose proof (entries_split (S n) bs) as Sp. rewrite (firstn_succ bs n b Eb) in *.
  set (rest := entries _ _ _ (skipn _ _)) in Sp. clearbody rest. rewrite Sp. clear Sp.
  rewrite entries_app. destruct b as [da di]. cbn [entries]. rewrite length_firstn, Nat.min_l by lia.
  destruct (_ || _).
  - rewrite length_app. cbn [length]. rewrite Nat.add_1_r. rewrite <- app_assoc. cbn [app].
    rewrite nth_error_app2, Nat.sub_diag by lia. cbn [nth_error height]. rewrite Z.eqb_refl. reflexivity.
  - rewrite app_nil_r. destruct (length (entries 0 0 0 (firstn n bs))) as [|it] eqn:L; [reflexivity|].
    rewrite nth_error_app1 by lia. destruct (nth_error (entries 0 0 0 (firstn n bs)) it) as [e|] eqn:Ee; [|reflexivity].
    pose proof (entries_heights (firstn n bs) 0 0 0) as F. rewrite Forall_forall in F.
    specialize (F e (nth_error_In _ _ Ee)). rewrite length_firstn in F.
    assert (height e <> Z.of_nat n) as N by lia. apply Z.eqb_neq in N. rewrite N. reflexivity.
Qed.

Lemma popBlocks_ok d bs from : refines d bs -> 0 <= from ->
  fst (popBlocks from d) = Z.max 0 (Z.of_nat (length bs) - from) /\
  refines (snd (popBlocks from d)) (firstn (Z.to_nat from) bs).
Proof.
  intros (Ok & E & C) Hf. unfold popBlocks. rewrite C. destruct (Z.leb_spec (Z.of_nat (length bs)) from) as [L|G]; cbn [fst snd].
  - rewrite firstn_all2 by lia. split; [lia|]. split; [exact Ok|]. split; assumption.
  - assert (Z.of_nat (length bs) < 2 ^ 32) as L by apply Ok. rewrite (u32_small (_ - from)) by lia. split; [lia|].
    split; [apply log_ok_prefix, Ok|]. cbn [index blockCount]. split.
    + unfold upperBound. rewrite E. pose proof (entries_cut bs (Z.to_nat from) ltac:(lia)) as Cut. rewrite !Z2Nat.id in Cut by lia.
      rewrite Cut, (entries_split (Z.to_nat from) bs), firstn_app, Nat.sub_diag, firstn_all. apply app_nil_r.
    + rewrite length_firstn, u32_small by lia. lia.
Qed.

(** ** The states of an index *)

Inductive index_step : DepositIndex -> DepositIndex -> Prop :=
| step_push d a i d' : - 2 ^ 63 <= a < 2 ^ 63 -> word64 i -> blockCount d + 1 < 2 ^ 32 -> pushBlock a i d = Some d' -> index_step d d'
| step_pop d d' : popBlock d = Some d' -> index_step d d'
| step_pops d from : 0 <= from < 2 ^ 32 -> index_step d (snd (popBlocks from d)).

Inductive index_reachable : DepositIndex -> Prop :=
| index_empty : index_reachable empty_index
| index_next d d' : index_reachable d -> index_step d d' -> index_reachable d'.

Lemma refines_empty : refines empty_index [].
Proof. repeat split; cbn; try constructor; rewrite ?firstn_nil; cbn; lia. Qed.

Lemma index_step_refines d d' bs : refines d bs -> index_step d d' -> exists bs', refines d' bs'.
Proof.
  intros R S. destruct S as [d0 a i d1 Ha Hi Hc E|d0 d1 E|d0 from Hf].
  - assert (blockCount d0 = Z.of_nat (length bs)) as C by apply R. rewrite C in Hc.
    pose proof (pushBlock_ok _ _ a i R Ha Hi Hc) as P. rewrite E in P. destruct P. eauto.
  - induction bs as [|b bs _] using rev_ind.
    + rewrite popBlock_empty in E by exact R. discriminate.
    + destruct (popBlock_ok _ _ _ R) as (d2 & E2 & R2). assert (d1 = d2) as -> by congruence. eauto.
  - eexists. apply popBlocks_ok; [exact R|lia].
Qed.

Lemma index_reachable_refines d : index_reachable d -> exists bs, refines d bs.
Proof.
  induction 1 as [|d d' _ [bs IH] S]; [eexists; apply refines_empty|]. eapply index_step_refines; eassumption.
Qed.
