(* ===== verification/StringTools.v ===== *)
(** * Hexadecimal strings and splitting (Common/StringTools.cpp)

    Strings are lists of character codes.  A function that throws on bad input is
    an [option]; one that returns [bool] is an [option] of its output too. *)

From Stdlib Require Import String Ascii.
From Stdlib Require Import ZArith Lia List Bool.
Import ListNotations.
From S2P Require Import Prelude Bytes.
Set Default Goal Selector "!".

(** ** The code *)

Definition characterValues : list Z :=
  repeat 0xff 48 ++ [0; 1; 2; 3; 4; 5; 6; 7; 8; 9] ++ repeat 0xff 7 ++ [10; 11; 12; 13; 14; 15] ++ repeat 0xff 26 ++
  [10; 11; 12; 13; 14; 15] ++ repeat 0xff 153.

(** [uint8_t fromHex(char)], which throws, and [bool fromHex(char, uint8_t&)]. *)
Definition fromHex_char (character : Z) : option Z :=
  let value := nth (Z.to_nat character) characterValues 0xff in
  if 0x0f <? value then None else Some value.

(** The loop over pairs of characters: [value1 << 4 | value2] each, when all are valid. *)
Fixpoint fromHex_pairs (text : list Z) : option (list Z) :=
  match text with
  | c1 :: c2 :: text =>
      value1 <- fromHex_char c1 ;;
      value2 <- fromHex_char c2 ;;
      data <- fromHex_pairs text ;;
      Some (wrap U8 (Z.lor (Z.shiftl value1 4) value2) :: data)
  | _ => Some []
  end.

(** [bool fromHex(text, data, bufferSize, size)]: the bytes written; [size] is their number.  The
    throwing variant with a buffer fails on the same inputs. *)
Definition fromHex_buffer (text : list Z) (bufferSize : nat) : option (list Z) :=
  if negb (Nat.land (length text) 1 =? 0)%nat then None else
  if (bufferSize <? length text / 2)%nat then None else
  fromHex_pairs text.

(** [fromHex] into a vector. *)
Definition fromHex (text : list Z) : option (list Z) :=
  if negb (Nat.land (length text) 1 =? 0)%nat then None else fromHex_pairs text.

(** [podFromHex] for an object of [n] bytes. *)
Definition podFromHex (n : nat) (text : list Z) : option (list Z) :=
  data <- fromHex_buffer text n ;;
  if (length data =? n)%nat then Some data else None.

Definition hex_digits : list Z := [48; 49; 50; 51; 52; 53; 54; 55; 56; 57; 97; 98; 99; 100; 101; 102].

Definition toHex (data : list Z) : list Z :=
  flat_map (fun b => [nth (Z.to_nat (Z.shiftr b 4)) hex_digits 0; nth (Z.to_nat (Z.land b 15)) hex_digits 0]) data.

(** [text.find(delimiter, offset)]; [None] is [npos]. *)
Fixpoint find_from (text : list Z) (delimiter : Z) : option nat :=
  match text with
  | [] => None
  | c :: text => if c =? delimiter then Some O else n <- find_from text delimiter ;; Some (S n)
  end.

Definition find (text : list Z) (delimiter : Z) (offset : nat) : option nat :=
  n <- find_from (skipn offset text) delimiter ;; Some (offset + n)%nat.

Definition substr (text : list Z) (pos count : nat) : list Z := firstn count (skipn pos text).

(** The piece before the delimiter, and the text left. *)
Definition extract (text : list Z) (delimiter : Z) : list Z * list Z :=
  match find text delimiter 0 with
  | Some delimiterPosition => (substr text 0 delimiterPosition, skipn (delimiterPosition + 1) text)
  | None => (text, [])
  end.

(** The variant with an offset: the result and the new offset. *)
Definition extract_offset (text : list Z) (delimiter : Z) (offset : nat) : list Z * nat :=
  match find text delimiter offset with
  | Some delimiterPosition =>
      let offset := (delimiterPosition + 1)%nat in (substr text offset delimiterPosition, offset)
  | None => let offset := length text in (skipn offset text, offset)
  end.

(** ** Hexadecimal strings: correctness *)

Definition hex_digit (c : Z) : Prop := 48 <= c <= 57 \/ 65 <= c <= 70 \/ 97 <= c <= 102.

Lemma fromHex_char_ok c : 0 <= c < 256 -> fromHex_char c =
  if (48 <=? c) && (c <=? 57) then Some (c - 48) else if (65 <=? c) && (c <=? 70) then Some (c - 55)
  else if (97 <=? c) && (c <=? 102) then Some (c - 87) else None.
Proof.
  intros H. assert (forallb (fun n => match fromHex_char (Z.of_nat n),
      (if (48 <=? Z.of_nat n) && (Z.of_nat n <=? 57) then Some (Z.of_nat n - 48)
       else if (65 <=? Z.of_nat n) && (Z.of_nat n <=? 70) then Some (Z.of_nat n - 55)
       else if (97 <=? Z.of_nat n) && (Z.of_nat n <=? 102) then Some (Z.of_nat n - 87) else None) with
      | Some a, Some b => a =? b | None, None => true | _, _ => false end) (seq 0 256) = true) as T by (vm_compute; reflexivity).
  rewrite forallb_forall in T. specialize (T (Z.to_nat c) ltac:(apply in_seq; lia)). rewrite Z2Nat.id in T by lia.
  destruct (fromHex_char c), (if _ && _ then _ else _); try discriminate; [apply Z.eqb_eq in T; congruence|reflexivity].
Qed.

(** [toHex] of a nibble is read back. *)
Lemma hex_nibble v : 0 <= v < 16 -> fromHex_char (nth (Z.to_nat v) hex_digits 0) = Some v /\ 0 <= nth (Z.to_nat v) hex_digits 0 < 256.
Proof.
  intros H. assert (forallb (fun n => match fromHex_char (nth n hex_digits 0) with Some v => v =? Z.of_nat n | None => false end
    && (0 <=? nth n hex_digits 0) && (nth n hex_digits 0 <? 256)) (seq 0 16) = true) as T by (vm_compute; reflexivity).
  rewrite forallb_forall in T. specialize (T (Z.to_nat v) ltac:(apply in_seq; lia)).
  destruct (fromHex_char _) as [w|]; [|discriminate]. rewrite !andb_true_iff, Z.eqb_eq, Z.leb_le, Z.ltb_lt in T. split; [f_equal; lia|lia].
Qed.

Lemma byte_nibbles b : byte b -> 0 <= Z.shiftr b 4 < 16 /\ 0 <= Z.land b 15 < 16 /\ Z.lor (Z.shiftl (Z.shiftr b 4) 4) (Z.land b 15) = b.
Proof.
  intros H. change 15 with (Z.ones 4). rewrite Z.land_ones, Z.shiftr_div_pow2 by lia. change (2 ^ 4) with 16.
  pose proof (Z.div_mod b 16 ltac:(lia)). pose proof (Z.mod_pos_bound b 16 ltac:(lia)). unfold byte in H.
  assert (0 <= b / 16 < 16) by (split; [apply Z.div_pos|apply Z.div_lt_upper_bound]; lia). split; [assumption|]. split; [assumption|].
  apply Z.bits_inj'. intros n Hn. rewrite Z.lor_spec, Z.shiftl_spec by lia.
  assert (b mod 16 = b mod 2 ^ 4) as -> by reflexivity. assert (b / 16 = Z.shiftr b 4) as -> by (rewrite Z.shiftr_div_pow2 by lia; reflexivity).
  destruct (Z.lt_ge_cases n 4).
  - rewrite Z.testbit_neg_r, Z.mod_pow2_bits_low by lia. reflexivity.
  - rewrite Z.shiftr_spec, Z.mod_pow2_bits_high, orb_false_r by lia. f_equal. lia.
Qed.

Lemma toHex_length data : length (toHex data) = (2 * length data)%nat.
Proof. unfold toHex. induction data as [|b data IH]; cbn in *; lia. Qed.

Lemma even_land n : Nat.land (2 * n) 1 = 0%nat.
Proof. change 1%nat with (Nat.ones 1). rewrite Nat.land_ones. cbn [Nat.pow]. rewrite Nat.mul_1_r, Nat.mul_comm. apply Nat.Div0.mod_mul. Qed.

Lemma fromHex_toHex_pairs data : Forall byte data -> fromHex_pairs (toHex data) = Some data.
Proof.
  induction 1 as [|b data B _ IH]; [reflexivity|]. change (toHex (b :: data)) with
    (nth (Z.to_nat (Z.shiftr b 4)) hex_digits 0 :: nth (Z.to_nat (Z.land b 15)) hex_digits 0 :: toHex data).
  cbn [fromHex_pairs]. destruct (byte_nibbles b B) as (H1 & H2 & E).
  destruct (hex_nibble _ H1) as [-> _], (hex_nibble _ H2) as [-> _]. cbn [obind]. rewrite IH. cbn [obind]. rewrite E.
  rewrite wrap_id by (apply in_ity_spec; cbn [U8 i_min i_max]; unfold byte in B; lia). reflexivity.
Qed.

Lemma podFromHex_toHex n data : Forall byte data -> length data = n -> podFromHex n (toHex data) = Some data.
Proof.
  intros B L. unfold podFromHex, fromHex_buffer. rewrite toHex_length, even_land. cbn [Nat.eqb negb].
  rewrite (Nat.mul_comm 2), Nat.div_mul by lia. replace (n <? length data)%nat with false by (symmetry; apply Nat.ltb_ge; lia).
  rewrite fromHex_toHex_pairs by exact B. cbn [obind]. rewrite L, Nat.eqb_refl. reflexivity.
Qed.

(** What is accepted: an even number of digits. *)
Lemma fromHex_pairs_ok k : forall text, Forall byte text -> length text = (2 * k)%nat ->
  match fromHex_pairs text with
  | Some data => Forall hex_digit text /\ Forall byte data /\ length data = k
  | None => Exists (fun c => ~ hex_digit c) text
  end.
Proof.
  induction k as [|k IH]; intros text B L.
  { destruct text; [|discriminate]. cbn. auto. }
  destruct text as [|c1 [|c2 text]]; try (cbn in L; lia). inversion_clear B as [|? ? B1 B']. inversion_clear B' as [|? ? B2 B3].
  cbn [fromHex_pairs]. specialize (IH text B3 ltac:(cbn in L; lia)).
  assert (forall c, byte c -> match fromHex_char c with Some v => hex_digit c /\ 0 <= v < 16 | None => ~ hex_digit c end) as D.
  { intros c Hc. rewrite fromHex_char_ok by exact Hc. unfold hex_digit. unfold byte in Hc.
    destruct (Z.leb_spec 48 c), (Z.leb_spec c 57), (Z.leb_spec 65 c), (Z.leb_spec c 70), (Z.leb_spec 97 c), (Z.leb_spec c 102); cbn; lia. }
  pose proof (D c1 B1) as D1. pose proof (D c2 B2) as D2. destruct (fromHex_char c1) as [v1|]; cbn [obind]; [|left; exact D1].
  destruct (fromHex_char c2) as [v2|]; cbn [obind]; [|right; left; exact D2].
  destruct (fromHex_pairs text) as [data|]; cbn [obind]; [|right; right; exact IH].
  destruct IH as (F & Bd & Ld). split; [constructor; [tauto|constructor; [tauto|exact F]]|]. split; [|cbn; lia].
  constructor; [|exact Bd]. pose proof (wrap_range U8 (Z.lor (Z.shiftl v1 4) v2)) as W. unfold byte. cbn [U8 i_min i_max] in W. lia.
Qed.

Lemma podFromHex_accepts n text : Forall byte text ->
  (exists data, podFromHex n text = Some data) <-> length text = (2 * n)%nat /\ Forall hex_digit text.
Proof.
  intros B. unfold podFromHex, fromHex_buffer.
  replace (Nat.land (length text) 1) with (length text mod 2)%nat by (symmetry; exact (Nat.land_ones (length text) 1)).
  pose proof (Nat.div_mod_eq (length text) 2) as D. pose proof (Nat.mod_upper_bound (length text) 2 ltac:(lia)) as U.
  destruct (Nat.eqb_spec (length text mod 2)%nat 0) as [Ev|Od]; cbn [negb obind].
  2: { split; [intros (data & [=])|]. intros [L _]. rewrite L, (Nat.mul_comm 2), Nat.Div0.mod_mul in Od. lia. }
  pose proof (fromHex_pairs_ok (length text / 2) text B ltac:(lia)) as P.
  destruct (Nat.ltb_spec n (length text / 2)); cbn [obind].
  { split; [intros (data & [=])|]. intros [L _]. lia. }
  destruct (fromHex_pairs text) as [data|]; cbn [obind].
  - destruct P as (F & _ & Ld). destruct (Nat.eqb_spec (length data) n) as [En|Nn].
    + split; [intros _; split; [lia|exact F]|eauto].
    + split; [intros (x & [=])|]. intros [L _]. lia.
  - split; [intros (x & [=])|]. intros [_ F]. apply Exists_exists in P as (c & Hc & N). rewrite Forall_forall in F. destruct (N (F c Hc)).
Qed.
