(* ===== verification/Serialization.v ===== *)
(** * Binary serialization (Serialization/, Common/StreamTools.cpp)

    The code writes one function [serialize] for both directions, over an interface
    with the two implementations [BinaryOutputStreamSerializer] and
    [BinaryInputStreamSerializer].  Here a [wire] is that pair: [put] gives the bytes
    written, [get] the value and the rest of the stream; [None] is an exception.
    The combinators below are the operations of the interface and the way the
    functions sequence them.

    [Lawful ok w]: what [put] writes for a value in [ok] is read back whatever
    follows, and whatever [get] accepts is in [ok] and is what [put] writes.  So a
    value has one binary form, and a binary form one value. *)

From Stdlib Require Import ZArith Lia List Bool.
From S2P Require Import Prelude Bytes Varint Crypto.
From stdpp Require Import base list.
Import ListNotations.
Open Scope Z_scope.
Open Scope cmon_scope.
Set Default Goal Selector "!".

Abbreviation bytes := (list Z).

Record wire (A : Type) := mk_wire { put : A -> option bytes; get : bytes -> option (A * bytes) }.
Arguments mk_wire {A}.
Arguments put {A}.
Arguments get {A}.

(** ** Operations of the serializers *)

(** [operator()] on an unsigned integer of [w] bits. *)
Definition uint (w : Z) : wire Z := mk_wire
  (fun value => Some (writeVarint value))
  (fun stream => match readVarint w stream with inr r => Some r | inl _ => None end).

(** [read] of [size] bytes: it throws when the stream ends before. *)
Definition read (size : nat) (stream : bytes) : option (bytes * bytes) :=
  if (length stream <? size)%nat then None else Some (take size stream, drop size stream).

(** [binary] on an object of [size] bytes. *)
Definition binary (size : nat) : wire bytes := mk_wire (fun value => Some value) (read size).

(** [binary] on an unsigned integer of [n] bytes, which is little-endian in memory. *)
Definition binary_uint (n : nat) : wire Z := mk_wire
  (fun value => Some (le_bytes n value))
  (fun stream => '(raw, stream) <- read n stream ;; Some (le_val raw, stream)).

Definition MAX_SIZE : Z := 100 * 1024 * 1024.

(** [operator()] on a string, and [serializeAsBinary] on a vector of bytes. *)
Definition blob : wire bytes := mk_wire
  (fun value => Some (writeVarint (Z.of_nat (length value)) ++ value))
  (fun stream =>
    '(size, stream) <- get (uint 64) stream ;;
    if MAX_SIZE <? size then None else
    if 0 <? size then read (Z.to_nat size) stream else Some ([], stream)).

(** *** Containers *)

Section Container.
Context {A : Type} (item : wire A).

Fixpoint put_items (value : list A) : option bytes :=
  match value with
  | [] => Some []
  | x :: value => b <- put item x ;; bs <- put_items value ;; Some (b ++ bs)
  end.

Fixpoint get_items (n : nat) (stream : bytes) : option (list A * bytes) :=
  match n with
  | O => Some ([], stream)
  | S n => '(x, stream) <- get item stream ;; '(value, stream) <- get_items n stream ;; Some (x :: value, stream)
  end.

(** [beginArray] and the loop over the items; on input the vector has the size that was read. *)
Definition serializeContainer : wire (list A) := mk_wire
  (fun value => bs <- put_items value ;; Some (writeVarint (Z.of_nat (length value)) ++ bs))
  (fun stream =>
    '(size, stream) <- get (uint 64) stream ;;
    if MAX_SIZE <? size then None else get_items (Z.to_nat size) stream).

(** A loop over a vector whose size is known. *)
Definition items (n : nat) : wire (list A) := mk_wire
  (fun value => if (length value =? n)%nat then put_items value else None)
  (get_items n).
End Container.

(** *** Sequences *)

(** One call after the other; the second may depend on the value of the first. *)
Definition and_then {A B} (a : wire A) (b : A -> wire B) : wire (A * B) := mk_wire
  (fun '(x, y) => bs <- put a x ;; cs <- put (b x) y ;; Some (bs ++ cs))
  (fun stream => '(x, stream) <- get a stream ;; '(y, stream) <- get (b x) stream ;; Some ((x, y), stream)).

(** A test of the value after it was written or read, which throws. *)
Definition checked {A} (p : A -> bool) (a : wire A) : wire A := mk_wire
  (fun x => bs <- put a x ;; if p x then Some bs else None)
  (fun stream => '(x, stream) <- get a stream ;; if p x then Some (x, stream) else None).

(** An object by its fields. *)
Definition object {A B} (fields : A -> B) (make : B -> A) (b : wire B) : wire A := mk_wire
  (fun x => put b (fields x))
  (fun stream => '(y, stream) <- get b stream ;; Some (make y, stream)).

(** ** Laws *)

Class Lawful {A} (ok : A -> Prop) (w : wire A) : Prop := {
  put_get : forall x, ok x -> exists bs, put w x = Some bs /\ Forall byte bs /\ forall rest, Forall byte rest -> get w (bs ++ rest) = Some (x, rest);
  get_put : forall stream x rest, Forall byte stream -> get w stream = Some (x, rest) -> ok x /\ exists bs, put w x = Some bs /\ stream = bs ++ rest
}.

(** Binary forms are not prefixes of each other. *)
Lemma put_inj {A} ok (w : wire A) : Lawful ok w -> forall x y bs cs r1 r2, ok x -> ok y -> put w x = Some bs -> put w y = Some cs ->
  Forall byte r1 -> Forall byte r2 -> bs ++ r1 = cs ++ r2 -> x = y /\ r1 = r2.
Proof.
  intros L x y bs cs r1 r2 Ox Oy Ex Ey F1 F2 E. destruct (put_get x Ox) as (bs' & Ex' & _ & G). rewrite Ex in Ex'. injection Ex' as <-.
  destruct (put_get y Oy) as (cs' & Ey' & _ & H). rewrite Ey in Ey'. injection Ey' as <-.
  pose proof (G r1 F1) as G1. rewrite E, (H r2 F2) in G1. injection G1 as <- <-. auto.
Qed.

Lemma byte_split stream bs rest : Forall byte stream -> stream = bs ++ rest -> Forall byte bs /\ Forall byte rest.
Proof. intros F ->. apply list.Forall_app, F. Qed.

(** *** Numbers and bytes *)

#[export] Instance uint_lawful w : 0 < w <= 64 -> Lawful (fun v => 0 <= v < 2 ^ w) (uint w).
Proof.
  intros Hw. assert (2 ^ w <= 2 ^ 64) as Lw by (apply Z.pow_le_mono_r; lia). split.
  - intros v Hv. exists (writeVarint v). split; [reflexivity|].
    assert (Forall byte (writeVarint v)) as Fv by (rewrite writeVarint_eq; exact (canonical_byte _ _ (proj1 (write_varint_ok v ltac:(lia))))).
    split; [exact Fv|]. intros rest Fr. cbn [uint get]. rewrite (proj2 (readVarint_ok w _ v rest Hw (proj2 (list.Forall_app _ _ _) (conj Fv Fr)))); [reflexivity|auto].
  - intros stream v rest F E. cbn [uint get put] in *. destruct (readVarint w stream) as [?|[v' r']] eqn:R; [discriminate|]. injection E as -> ->.
    apply readVarint_ok in R as [Hv R]; [|assumption..]. split; [exact Hv|]. eauto.
Qed.

Lemma read_app n bs rest : length bs = n -> read n (bs ++ rest) = Some (bs, rest).
Proof.
  intros <-. unfold read. rewrite length_app, (proj2 (Nat.ltb_ge _ _)) by lia. rewrite take_app_length, drop_app_length. reflexivity.
Qed.

Lemma read_Some n stream bs rest : read n stream = Some (bs, rest) -> stream = bs ++ rest /\ length bs = n.
Proof.
  unfold read. destruct (Nat.ltb_spec (length stream) n) as [|L]; [discriminate|]. intros [= <- <-]. rewrite take_drop, length_take_le by exact L. auto.
Qed.

#[export] Instance binary_lawful n : Lawful (bytes_n n) (binary n).
Proof.
  split.
  - intros v [F L]. exists v. split; [reflexivity|]. split; [exact F|]. intros rest _. apply read_app, L.
  - intros stream v rest F E. apply read_Some in E as [-> L]. apply list.Forall_app in F as [F _]. split; [split; assumption|]. exists v. auto.
Qed.

#[export] Instance binary_uint_lawful n : Lawful (fun v => 0 <= v < 256 ^ Z.of_nat n) (binary_uint n).
Proof.
  split.
  - intros v Hv. exists (le_bytes n v). split; [reflexivity|]. split; [apply le_bytes_byte|]. intros rest _. cbn [binary_uint get].
    rewrite read_app by apply le_bytes_length. cbn [obind]. rewrite le_bytes_val by exact Hv. reflexivity.
  - intros stream v rest F E. cbn [binary_uint get] in E. apply obind_Some in E as ([raw r] & E & [= <- <-]). apply read_Some in E as [-> L].
    apply list.Forall_app in F as [F _]. split; [rewrite <- L; apply le_val_range, F|]. exists raw. cbn [binary_uint put]. rewrite <- L, le_bytes_of_val by exact F. auto.
Qed.

Lemma size_range n : Z.of_nat n <= MAX_SIZE -> 0 <= Z.of_nat n < 2 ^ 64.
Proof. unfold MAX_SIZE. lia. Qed.

#[export] Instance blob_lawful : Lawful (fun v => Forall byte v /\ Z.of_nat (length v) <= MAX_SIZE) blob.
Proof.
  pose proof (uint_lawful 64 ltac:(lia)) as U. split.
  - intros v [F L]. destruct (put_get (Z.of_nat (length v)) (size_range _ L)) as (bs & E & Fb & G). cbn [uint put] in E. injection E as <-.
    eexists. split; [reflexivity|]. split; [apply list.Forall_app; auto|]. intros rest Fr. rewrite <- app_assoc. cbn [blob get].
    rewrite G by (apply list.Forall_app; auto). cbn [obind]. rewrite (proj2 (Z.ltb_ge _ _)) by lia. destruct v as [|x v]; [reflexivity|].
    rewrite (proj2 (Z.ltb_lt _ _)) by (cbn; lia). rewrite Nat2Z.id. apply read_app. reflexivity.
  - intros stream v rest F E. cbn [blob get] in E. apply obind_Some in E as ([size s] & Es & E). apply get_put in Es as (Hs & bs & Eb & ->); [|exact F].
    cbn [uint put] in Eb. injection Eb as <-. apply list.Forall_app in F as [_ F].
    destruct (Z.ltb_spec MAX_SIZE size) as [|L]; [discriminate|]. destruct (Z.ltb_spec 0 size) as [P|P].
    + apply read_Some in E as [-> Lv]. apply list.Forall_app in F as [F _]. assert (Z.of_nat (length v) = size) as Ev by lia.
      split; [split; [exact F|lia]|]. cbn [blob put]. rewrite Ev. eexists. split; [reflexivity|]. apply app_assoc.
    + injection E as <- <-. assert (size = 0) as -> by lia. split; [split; [constructor|unfold MAX_SIZE; cbn; lia]|]. eexists. split; [reflexivity|]. cbn [length]. rewrite app_nil_r. reflexivity.
Qed.

(** *** Containers *)

Section ContainerLaws.
Context {A : Type} (ok : A -> Prop) (item : wire A) (L : Lawful ok item).

Lemma put_items_get l : Forall ok l -> exists bs, put_items item l = Some bs /\ Forall byte bs /\
  forall rest, Forall byte rest -> get_items item (length l) (bs ++ rest) = Some (l, rest).
Proof.
  induction 1 as [|x l Ox _ (bs & E & F & G)]; [exists []; auto|]. destruct (put_get x Ox) as (b & Ex & Fb & Gx). exists (b ++ bs).
  cbn [put_items length get_items]. rewrite Ex, E. cbn [obind]. split; [reflexivity|]. split; [apply list.Forall_app; auto|]. intros rest Fr.
  rewrite <- app_assoc, Gx by (apply list.Forall_app; auto). cbn [obind]. rewrite G by exact Fr. reflexivity.
Qed.

Lemma get_items_put n : forall stream l rest, Forall byte stream -> get_items item n stream = Some (l, rest) ->
  Forall ok l /\ length l = n /\ exists bs, put_items item l = Some bs /\ stream = bs ++ rest.
Proof.
  induction n as [|n IH]; intros stream l rest F E; cbn [get_items] in E; [injection E as <- <-; split; [constructor|]; split; [reflexivity|]; exists []; auto|].
  apply obind_Some in E as ([x s] & Ex & E). apply obind_Some in E as ([l' r] & El & [= <- <-]). apply get_put in Ex as (Ox & b & Ex & ->); [|exact F].
  apply list.Forall_app in F as [_ F]. apply IH in El as (Ol & Ll & bs & El & ->); [|exact F]. split; [constructor; assumption|]. split; [cbn; lia|].
  exists (b ++ bs). cbn [put_items]. rewrite Ex, El. cbn [obind]. rewrite app_assoc. auto.
Qed.

#[export] Instance serializeContainer_lawful : Lawful (fun l => Forall ok l /\ Z.of_nat (length l) <= MAX_SIZE) (serializeContainer item).
Proof.
  pose proof (uint_lawful 64 ltac:(lia)) as U. split.
  - intros l [F Ll]. destruct (put_get (Z.of_nat (length l)) (size_range _ Ll)) as (b & E & Fb & G). cbn [uint put] in E. injection E as <-.
    destruct (put_items_get l F) as (bs & El & Fl & Gl). cbn [serializeContainer put]. rewrite El. cbn [obind]. eexists. split; [reflexivity|].
    split; [apply list.Forall_app; auto|]. intros rest Fr. rewrite <- app_assoc. cbn [serializeContainer get]. rewrite G by (apply list.Forall_app; auto). cbn [obind].
    rewrite (proj2 (Z.ltb_ge _ _)) by lia. rewrite Nat2Z.id. apply Gl, Fr.
  - intros stream l rest F E. cbn [serializeContainer get] in E. apply obind_Some in E as ([size s] & Es & E). apply get_put in Es as (Hs & b & Eb & ->); [|exact F].
    cbn [uint put] in Eb. injection Eb as <-. apply list.Forall_app in F as [_ F]. destruct (Z.ltb_spec MAX_SIZE size) as [|Lm]; [discriminate|].
    apply get_items_put in E as (Ol & Ll & bs & El & ->); [|exact F]. split; [split; [exact Ol|lia]|]. cbn [serializeContainer put]. rewrite El. cbn [obind].
    eexists. split; [reflexivity|]. rewrite Ll, Z2Nat.id by lia. apply app_assoc.
Qed.

#[export] Instance items_lawful n : Lawful (fun l => Forall ok l /\ length l = n) (items item n).
Proof.
  split.
  - intros l [F <-]. destruct (put_items_get l F) as (bs & E & Fb & G). exists bs. cbn [items put get]. rewrite Nat.eqb_refl. auto.
  - intros stream l rest F E. apply get_items_put in E as (Ol & Ll & bs & El & ->); [|exact F]. split; [auto|]. exists bs. cbn [items put].
    rewrite (proj2 (Nat.eqb_eq _ _) Ll). auto.
Qed.
End ContainerLaws.

(** *** Sequences *)

#[export] Instance and_then_lawful {A B} (okA : A -> Prop) (okB : A -> B -> Prop) (a : wire A) (b : A -> wire B) : Lawful okA a ->
  (forall x, okA x -> Lawful (okB x) (b x)) -> Lawful (fun p => okA p.1 /\ okB p.1 p.2) (and_then a b).
Proof.
  intros La Lb. split.
  - intros [x y] [Ox Oy]. cbn [fst snd] in *. pose proof (Lb x Ox) as Lx. destruct (put_get x Ox) as (bs & Ex & Fx & Gx). destruct (put_get y Oy) as (cs & Ey & Fy & Gy).
    cbn [and_then put]. rewrite Ex, Ey. cbn [obind]. eexists. split; [reflexivity|]. split; [apply list.Forall_app; auto|]. intros rest Fr. rewrite <- app_assoc. cbn [and_then get].
    rewrite Gx by (apply list.Forall_app; auto). cbn [obind]. rewrite Gy by exact Fr. reflexivity.
  - intros stream [x y] rest F E. cbn [and_then get] in E. apply obind_Some in E as ([x' s] & Ex & E). apply get_put in Ex as (Ox & bs & Ex & ->); [|exact F].
    pose proof (Lb x' Ox) as Lx. apply list.Forall_app in F as [_ F]. apply obind_Some in E as ([y' r] & Ey & [= -> -> ->]).
    apply get_put in Ey as (Oy & cs & Ey & ->); [|exact F]. cbn [fst snd]. split; [auto|]. cbn [and_then put]. rewrite Ex, Ey. cbn [obind]. eexists. split; [reflexivity|]. apply app_assoc.
Qed.

#[export] Instance checked_lawful {A} (ok : A -> Prop) p (a : wire A) : Lawful ok a -> Lawful (fun x => ok x /\ p x = true) (checked p a).
Proof.
  intros L. split.
  - intros x [Ox Px]. destruct (put_get x Ox) as (bs & Ex & Fx & Gx). exists bs. cbn [checked put get]. rewrite Ex. cbn [obind]. rewrite Px.
    split; [reflexivity|]. split; [exact Fx|]. intros rest Fr. rewrite Gx by exact Fr. cbn [obind]. rewrite Px. reflexivity.
  - intros stream x rest F E. cbn [checked get] in E. apply obind_Some in E as ([x' s] & Ex & E). destruct (p x') eqn:Px; [|discriminate]. injection E as -> ->.
    apply get_put in Ex as (Ox & bs & Ex & ->); [|exact F]. split; [auto|]. exists bs. cbn [checked put]. rewrite Ex. cbn [obind]. rewrite Px. auto.
Qed.

#[export] Instance object_lawful {A B} (ok : B -> Prop) (fields : A -> B) (make : B -> A) (b : wire B) : Lawful ok b ->
  (forall x, make (fields x) = x) -> (forall y, ok y -> fields (make y) = y) -> Lawful (fun x => ok (fields x)) (object fields make b).
Proof.
  intros L Hm Hf. split.
  - intros x Ox. destruct (put_get _ Ox) as (bs & Ex & Fx & Gx). exists bs. cbn [object put get]. split; [exact Ex|]. split; [exact Fx|]. intros rest Fr.
    rewrite Gx by exact Fr. cbn [obind]. rewrite Hm. reflexivity.
  - intros stream x rest F E. cbn [object get] in E. apply obind_Some in E as ([y s] & Ey & [= <- <-]). apply get_put in Ey as (Oy & bs & Ey & ->); [|exact F].
    rewrite (Hf y Oy). split; [exact Oy|]. exists bs. cbn [object put]. rewrite (Hf y Oy). auto.
Qed.

(** The condition may be given in another form. *)
Lemma lawful_iff {A} (ok ok' : A -> Prop) (w : wire A) : (forall x, ok x <-> ok' x) -> Lawful ok w -> Lawful ok' w.
Proof. intros H L. split; [intros x Ox; apply put_get, H, Ox|]. intros stream x rest F E. apply get_put in E as [Ox E]; [|exact F]. split; [apply H, Ox|exact E]. Qed.
