(* ===== verification/Checkpoints.v ===== *)
(** * Checkpoints (CryptoNoteCore/Checkpoints.cpp)

    The hashes that blocks of given heights must have.  [std::map] is the list of
    its pairs in increasing order of the keys, and an iterator a position of the
    list. *)

From Stdlib Require Import ZArith Lia List Bool Sorted.
Import ListNotations.
From S2P Require Import Prelude Bytes StringTools.
Set Default Goal Selector "!".

(** ** The code *)

Definition points := list (Z * list Z).

(** [m_points.find(height)], and [m_points[height] = h]. *)
Fixpoint points_find (height : Z) (m : points) : option (list Z) :=
  match m with
  | [] => None
  | (k, h) :: m => if height =? k then Some h else points_find height m
  end.

Fixpoint points_set (height : Z) (h : list Z) (m : points) : points :=
  match m with
  | [] => [(height, h)]
  | (k, h') :: m =>
      if height <? k then (height, h) :: (k, h') :: m
      else if height =? k then (k, h) :: m
      else (k, h') :: points_set height h m
  end.

(** The position of the first key above [height]. *)
Fixpoint upper_bound (height : Z) (m : points) : nat :=
  match m with
  | [] => 0
  | (k, _) :: m => if height <? k then 0 else S (upper_bound height m)
  end.

(** The result and the new points; a refusal leaves them. *)
Definition add_checkpoint (height : Z) (hash_str : list Z) (m_points : points) : bool * points :=
  match podFromHex 32 hash_str with
  | None => (false, m_points)
  | Some h =>
      match points_find height m_points with
      | Some _ => (false, m_points)
      | None => (true, points_set height h m_points)
      end
  end.

Definition is_in_checkpoint_zone (height : Z) (m_points : points) : bool :=
  match m_points with
  | [] => false
  | _ => height <=? fst (last m_points (0, []))
  end.

(** The result and [is_a_checkpoint]. *)
Definition check_block (height : Z) (h : list Z) (m_points : points) : bool * bool :=
  match points_find height m_points with
  | None => (true, false)
  | Some h' => (if list_eq_dec Z.eq_dec h' h then true else false, true)
  end.

Definition is_alternative_block_allowed (blockchain_height block_height : Z) (m_points : points) : bool :=
  if 0 =? block_height then false else
  match upper_bound blockchain_height m_points with
  | O => true
  | S it => fst (nth it m_points (0, [])) <? block_height
  end.

(** ** Correctness *)

Definition keys (m : points) : list Z := map fst m.
Definition ordered (m : points) : Prop := StronglySorted Z.lt (keys m).

Lemma ordered_nil : ordered [].
Proof. constructor. Qed.

Lemma find_In height m : forall h, points_find height m = Some h -> In (height, h) m.
Proof.
  induction m as [|[k h'] m IH]; intros h; cbn; [discriminate|].
  destruct (Z.eqb_spec height k) as [->|_]; [intros [= <-]; auto|auto].
Qed.

Lemma find_None height m : points_find height m = None <-> ~ In height (keys m).
Proof.
  induction m as [|[k h'] m IH]; cbn; [tauto|]. destruct (Z.eqb_spec height k) as [->|N].
  - split; [discriminate|tauto].
  - rewrite IH. intuition congruence.
Qed.

Lemma keys_set height h m k : In k (keys (points_set height h m)) <-> k = height \/ In k (keys m).
Proof.
  induction m as [|[k' h'] m IH]; cbn; [intuition congruence|].
  destruct (Z.ltb_spec height k'); [cbn; intuition congruence|].
  destruct (Z.eqb_spec height k') as [->|N]; cbn; [intuition congruence|]. rewrite IH. tauto.
Qed.

Lemma set_ordered height h m : ordered m -> ordered (points_set height h m).
Proof.
  unfold ordered. induction m as [|[k h'] m IH]; intros O; cbn; [repeat constructor|].
  apply StronglySorted_inv in O as [O F]. destruct (Z.ltb_spec height k).
  - constructor; [constructor; assumption|]. constructor; [assumption|].
    apply (Forall_impl (P := Z.lt k)); [cbn; intros x ?; lia|exact F].
  - destruct (Z.eqb_spec height k) as [->|N]; [constructor; assumption|].
    constructor; [apply IH, O|]. apply Forall_forall. intros x [->|Hx]%keys_set; cbn; [lia|].
    rewrite Forall_forall in F. apply F, Hx.
Qed.

Lemma find_set height h m k : ordered m -> points_find k (points_set height h m) = if k =? height then Some h else points_find k m.
Proof.
  induction m as [|[k' h'] m IH]; intros O; cbn; [reflexivity|].
  apply StronglySorted_inv in O as [O F]. destruct (Z.ltb_spec height k'); cbn; [reflexivity|].
  destruct (Z.eqb_spec height k') as [->|N]; cbn.
  - destruct (k =? k'); reflexivity.
  - destruct (Z.eqb_spec k k') as [->|Nk].
    + replace (k' =? height) with false by (symmetry; apply Z.eqb_neq; congruence). reflexivity.
    + apply IH, O.
Qed.

(** The key before the upper bound is the greatest one that is at most [height]. *)
Lemma upper_bound_ok height m : ordered m ->
  (forall k, In k (keys m) -> k <= height <-> In k (firstn (upper_bound height m) (keys m))).
Proof.
  unfold ordered. induction m as [|[k' h'] m IH]; intros O k; cbn; [tauto|].
  apply StronglySorted_inv in O as [O F]. rewrite Forall_forall in F. cbn [fst] in F. destruct (Z.ltb_spec height k'); cbn.
  - intros [<-|Hk]; [lia|]. specialize (F k Hk). lia.
  - intros [<-|Hk]; [intuition|]. rewrite (IH O k Hk). split; [tauto|]. intros [->|]; [|assumption].
    specialize (F k Hk). lia.
Qed.

Lemma points_firstn_sorted m : StronglySorted Z.lt m -> forall i k, (i < length m)%nat -> In k (firstn (S i) m) -> k <= nth i m 0.
Proof.
  induction 1 as [|a m O IH F]; intros i k L; [cbn in L; lia|]. cbn [firstn]. intros [<-|Hk].
  - destruct i; [cbn; lia|]. cbn. rewrite Forall_forall in F. specialize (F (nth i m 0)). cbn in L. apply Z.lt_le_incl, F, nth_In. lia.
  - destruct i as [|i]; [destruct Hk|]. cbn. apply IH; [cbn in L; lia|exact Hk].
Qed.

Lemma upper_bound_length height m : (upper_bound height m <= length m)%nat.
Proof. induction m as [|[k h] m IH]; cbn; [lia|]. destruct (height <? k); lia. Qed.

Lemma nth_keys m i : fst (nth i m (0, [])) = nth i (keys m) 0.
Proof. unfold keys. change 0 with (fst (0, @nil Z)) at 2. rewrite map_nth. reflexivity. Qed.

(** An alternative block is allowed when it is not the first and is above every checkpoint at or
    below the height of the chain. *)
Lemma alternative_allowed_iff chain block m : ordered m ->
  is_alternative_block_allowed chain block m = true <->
  block <> 0 /\ (forall k, In k (keys m) -> k <= chain -> k < block).
Proof.
  intros O. unfold is_alternative_block_allowed. destruct (Z.eqb_spec 0 block) as [<-|N]; [split; [discriminate|intros [[] _]; reflexivity]|].
  pose proof (upper_bound_ok chain m O) as U. pose proof (upper_bound_length chain m) as L.
  destruct (upper_bound chain m) as [|i].
  - split; [|reflexivity]. intros _. split; [congruence|]. intros k Hk Le. destruct (proj1 (U k Hk) Le).
  - assert (i < length (keys m))%nat as Li by (unfold keys; rewrite length_map; lia).
    rewrite nth_keys, Z.ltb_lt. split.
    + intros Lt. split; [congruence|]. intros k Hk Le. pose proof (points_firstn_sorted _ O i k Li (proj1 (U k Hk) Le)). lia.
    + intros [_ A]. assert (In (nth i (keys m) 0) (keys m)) as H by (apply nth_In, Li). apply A; [exact H|]. apply U; [exact H|].
      rewrite <- (firstn_skipn (S i) (keys m)) at 1. rewrite app_nth1 by (rewrite length_firstn; lia).
      apply nth_In. rewrite length_firstn. lia.
Qed.

(** The zone ends at the greatest checkpoint. *)
Lemma last_keys m d : keys m <> [] -> fst (last m (d, [])) = last (keys m) d.
Proof. induction m as [|[k h] [|p m] IH]; cbn in *; [congruence|reflexivity|]. intros _. apply IH. discriminate. Qed.

Lemma last_In (l : list Z) d : l <> [] -> In (last l d) l.
Proof. induction l as [|x [|y l] IH]; intros N; [congruence|left; reflexivity|right; apply IH; discriminate]. Qed.

Lemma sorted_last (l : list Z) : StronglySorted Z.lt l -> forall k d, In k l -> k <= last l d.
Proof.
  induction 1 as [|a l O IH F]; intros k d H; [destruct H|]. destruct l as [|b l].
  - destruct H as [<-|[]]. cbn. lia.
  - change (last (a :: b :: l) d) with (last (b :: l) d). destruct H as [<-|H]; [|apply IH, H].
    rewrite Forall_forall in F. specialize (F _ (last_In (b :: l) d ltac:(discriminate))). lia.
Qed.

Lemma checkpoint_zone_iff height m : ordered m ->
  is_in_checkpoint_zone height m = true <-> exists k, In k (keys m) /\ height <= k.
Proof.
  intros O. destruct m as [|p m]; [split; [discriminate|intros (k & [] & _)]|].
  unfold is_in_checkpoint_zone. rewrite last_keys by discriminate. rewrite Z.leb_le. split.
  - intros H. exists (last (keys (p :: m)) 0). split; [apply last_In; discriminate|exact H].
  - intros (k & Hk & H). pose proof (sorted_last _ O k 0 Hk). lia.
Qed.


(** What adding a checkpoint does. *)
Lemma add_checkpoint_ok height s m : ordered m -> let '(r, m') := add_checkpoint height s m in
  ordered m' /\
  (r = true <-> exists h, podFromHex 32 s = Some h /\ ~ In height (keys m)) /\
  (forall k, points_find k m' = if r && (k =? height) then podFromHex 32 s else points_find k m).
Proof.
  intros O. unfold add_checkpoint. destruct (podFromHex 32 s) as [h|] eqn:P.
  2: { split; [exact O|]. split; [split; [discriminate|intros (h & [=] & _)]|reflexivity]. }
  destruct (points_find height m) as [h'|] eqn:E.
  - split; [exact O|]. split; [|reflexivity]. split; [discriminate|]. intros (h0 & _ & N). apply find_None in N. congruence.
  - split; [apply set_ordered, O|]. split; [|intros k; rewrite find_set by exact O; cbn; destruct (k =? height); reflexivity].
    split; [|reflexivity]. intros _. exists h. split; [reflexivity|apply find_None, E].
Qed.
