(* ===== verification/BlockIndex.v ===== *)
(** * The index of block hashes (CryptoNoteCore/BlockIndex.h, BlockIndex.cpp)

    A [boost::multi_index] container of hashes that is both a random-access
    sequence and a set: a list that [push] keeps free of duplicates.  Peers find
    the block where their chains part with the sparse chain of one and
    [findSupplement] of the other. *)

From Stdlib Require Import ZArith Lia List Bool.
From S2P Require Import Prelude Bytes IntUtil.
From stdpp Require Import list list_numbers.
Import ListNotations.
Open Scope Z_scope.
Open Scope cmon_scope.
Set Default Goal Selector "!".

(** ** The code *)

Abbreviation hash := (list Z).

Definition bi_pop (c : list hash) : option (list hash) :=
  match c with [] => None | _ => Some (removelast c) end.

(** The flag is false, and nothing is inserted, when the hash is already there. *)
Definition bi_push (h : hash) (c : list hash) : bool * list hash :=
  if decide (h ∈ c) then (false, c) else (true, c ++ [h]).

Definition hasBlock (h : hash) (c : list hash) : bool := bool_decide (h ∈ c).

Fixpoint position (h : hash) (c : list hash) : option nat :=
  match c with
  | [] => None
  | x :: c => if decide (x = h) then Some O else n <- position h c ;; Some (S n)
  end.

Definition bi_getBlockHeight (h : hash) (c : list hash) : option Z :=
  n <- position h c ;; Some (u32 (Z.of_nat n)).

Definition bi_size (c : list hash) : Z := u32 (Z.of_nat (length c)).

(** [None] is the failed assertion. *)
Definition getBlockId (height : Z) (c : list hash) : option hash :=
  if height <? Z.of_nat (length c) then c !! Z.to_nat height else None.

Definition getBlockIds (startBlockIndex maxCount : Z) (c : list hash) : list hash :=
  if Z.of_nat (length c) <=? startBlockIndex then []
  else let count := Z.min maxCount (Z.of_nat (length c) - startBlockIndex) in
       take (Z.to_nat count) (drop (Z.to_nat startBlockIndex) c).

(** The height of the first known hash; [None] when the method returns false. *)
Fixpoint findSupplement (ids : list hash) (c : list hash) : option Z :=
  match ids with
  | [] => None
  | id :: ids => match bi_getBlockHeight id c with Some offset => Some offset | None => findSupplement ids c end
  end.

(** [for (size_t i = 1; i <= sparseChainEnd; i *= 2)] *)
Fixpoint sparse_loop (fuel : nat) (i sparseChainEnd : Z) (c : list hash) : option (list hash) :=
  match fuel with
  | O => None
  | S fuel =>
      if i <=? sparseChainEnd then
        h <- c !! Z.to_nat (sparseChainEnd - i) ;;
        rest <- sparse_loop fuel (u64 (i * 2)) sparseChainEnd c ;;
        Some (h :: rest)
      else Some []
  end.

Definition bi_buildSparseChain (startBlockId : hash) (c : list hash) : option (list hash) :=
  _ <- c_assert (hasBlock startBlockId c) ;;
  startBlockHeight <- bi_getBlockHeight startBlockId c ;;
  let sparseChainEnd := u32 (startBlockHeight + 1) in
  result <- sparse_loop 64 1 sparseChainEnd c ;;
  back <- last result ;;
  genesis <- c !! O ;;
  if decide (back = genesis) then Some result else Some (result ++ [genesis]).

Definition bi_getTailId (c : list hash) : option hash := last c.

(** ** Lookup *)

Lemma bi_pop_snoc c h : bi_pop (c ++ [h]) = Some c.
Proof. unfold bi_pop. destruct c as [|x c]; [reflexivity|]. cbn [app]. rewrite app_comm_cons, removelast_last. reflexivity. Qed.

Lemma position_Some h c n : position h c = Some n -> c !! n = Some h.
Proof.
  revert n. induction c as [|x c IH]; intros n E; cbn in E; [discriminate|]. case_decide as D.
  - injection E as <-. cbn. congruence.
  - apply obind_Some in E as (k & E & [= <-]). cbn. apply IH, E.
Qed.

Lemma position_None h c : position h c = None -> h ∉ c.
Proof.
  induction c as [|x c IH]; cbn; [intros _; apply not_elem_of_nil|]. case_decide as D; [discriminate|].
  destruct (position h c); [discriminate|]. intros _. apply not_elem_of_cons. auto.
Qed.

Lemma position_unique h c n : NoDup c -> c !! n = Some h -> position h c = Some n.
Proof.
  intros N E. destruct (position h c) as [k|] eqn:P.
  - f_equal. eapply NoDup_lookup; [exact N|apply position_Some, P|exact E].
  - apply position_None in P. destruct P. apply list_elem_of_lookup. eauto.
Qed.

(** The chain is short enough for heights of 32 bits. *)
Definition chain_ok (c : list hash) : Prop := NoDup c /\ Z.of_nat (length c) < 2 ^ 32.

Lemma height_of h c n : chain_ok c -> c !! n = Some h -> bi_getBlockHeight h c = Some (Z.of_nat n).
Proof.
  intros [N L] E. unfold bi_getBlockHeight. rewrite (position_unique h c n N E). cbn [obind].
  apply lookup_lt_Some in E. rewrite u32_small by lia. reflexivity.
Qed.

Lemma height_None h c : bi_getBlockHeight h c = None <-> h ∉ c.
Proof.
  unfold bi_getBlockHeight. destruct (position h c) as [n|] eqn:P; cbn [obind].
  - split; [discriminate|]. intros N. destruct N. apply list_elem_of_lookup. exists n. apply position_Some, P.
  - split; [intros _; apply position_None, P|reflexivity].
Qed.

Lemma push_ok h c : chain_ok c -> Z.of_nat (length c) + 1 < 2 ^ 32 ->
  chain_ok (bi_push h c).2 /\ h ∈ (bi_push h c).2 /\ ((bi_push h c).1 = true <-> h ∉ c) /\
  ((bi_push h c).1 = true -> bi_pop (bi_push h c).2 = Some c).
Proof.
  intros [N L] Lb. unfold bi_push. case_decide as D; cbn [fst snd].
  - split; [split; assumption|]. split; [exact D|]. split; [split; [discriminate|tauto]|discriminate].
  - split; [split|split; [|split]].
    + apply NoDup_app. split; [exact N|]. split; [|apply NoDup_singleton]. intros x Hx ->%list_elem_of_singleton. exact (D Hx).
    + rewrite length_app. cbn. lia.
    + apply elem_of_app. right. apply list_elem_of_singleton. reflexivity.
    + tauto.
    + intros _. unfold bi_pop. rewrite removelast_last. destruct (c ++ [h]) eqn:E; [|reflexivity]. destruct c; discriminate.
Qed.

(** ** Sparse chains *)

(** The loop ends, its first hash is the one at [e - i], and its length is logarithmic. *)
Lemma sparse_loop_ok c e : 0 < e <= Z.of_nat (length c) -> e < 2 ^ 32 -> forall fuel i, 0 < i < 2 ^ 63 -> e < i * 2 ^ (Z.of_nat fuel - 1) ->
  exists r, sparse_loop fuel i e c = Some r /\ (i <= e -> head r = c !! Z.to_nat (e - i)) /\
    (forall x, x ∈ r -> x ∈ c) /\ (r <> [] -> i * 2 ^ (Z.of_nat (length r) - 1) <= e).
Proof.
  intros He Hb. induction fuel as [|fuel IH]; intros i Hi F; [cbn in F; nia|]. cbn [sparse_loop].
  replace (Z.of_nat (S fuel) - 1) with (Z.of_nat fuel) in F by lia.
  destruct (Z.leb_spec i e) as [Le|Gt]; [|exists []; repeat split; [lia|intros x H; inversion H|congruence]].
  destruct (c !! Z.to_nat (e - i)) as [h|] eqn:Eh; [|apply lookup_ge_None in Eh; lia]. cbn [obind].
  destruct fuel as [|fuel]; [cbn in F; lia|]. rewrite u64_small by lia.
  destruct (IH (i * 2)) as (r & -> & _ & In & L); [lia|replace (Z.of_nat (S fuel) - 1) with (Z.of_nat fuel) by lia;
    replace (Z.of_nat (S fuel)) with (Z.succ (Z.of_nat fuel)) in F by lia; rewrite Z.pow_succ_r in F by lia; lia|].
  cbn [obind]. exists (h :: r). split; [reflexivity|]. split; [reflexivity|]. split.
  - intros x [->|H]%elem_of_cons; [|apply In, H]. apply list_elem_of_lookup. eauto.
  - intros _. cbn [length]. replace (Z.of_nat (S (length r)) - 1) with (Z.of_nat (length r)) by lia. destruct r as [|y r]; [cbn; lia|].
    specialize (L ltac:(discriminate)). cbn [length] in *. replace (Z.of_nat (S (length r)) - 1) with (Z.of_nat (length r)) in L by lia.
    replace (Z.of_nat (S (length r))) with (Z.succ (Z.of_nat (length r))) by lia. rewrite Z.pow_succ_r by lia. lia.
Qed.

Lemma findSupplement_app a b c : findSupplement (a ++ b) c =
  match findSupplement a c with Some h => Some h | None => findSupplement b c end.
Proof. induction a as [|x a IH]; cbn; [reflexivity|]. destruct (bi_getBlockHeight x c); auto. Qed.

Lemma findSupplement_None a c : findSupplement a c = None -> forall x, x ∈ a -> x ∉ c.
Proof.
  induction a as [|x a IH]; cbn; [intros _ y H; inversion H|]. destruct (bi_getBlockHeight x c) eqn:E; [discriminate|].
  intros H y [->|Hy]%elem_of_cons; [apply height_None, E|apply IH; assumption].
Qed.

(** Two chains that share their first [m] hashes and none after them. *)
Record forked (m : nat) (c1 c2 : list hash) : Prop := {
  fork_common : (1 <= m)%nat /\ (m <= length c1)%nat /\ (m <= length c2)%nat;
  fork_same : forall i, (i < m)%nat -> c1 !! i = c2 !! i;
  fork_apart : forall i h, (m <= i)%nat -> c1 !! i = Some h -> h ∉ c2
}.

(** A height the search may find: below the fork by at most the blocks above it. *)
Definition near_fork (m : nat) (e h : Z) : Prop := 0 <= h < Z.of_nat m /\ Z.of_nat m - 1 - h <= e - Z.of_nat m.

Lemma search_loop c1 c2 m e : chain_ok c1 -> chain_ok c2 -> forked m c1 c2 -> Z.of_nat m <= e <= Z.of_nat (length c1) -> e < 2 ^ 32 ->
  forall fuel i r, 0 < i < 2 ^ 63 -> i <= 2 * (e - Z.of_nat m) + 1 -> sparse_loop fuel i e c1 = Some r ->
  (exists h, findSupplement r c2 = Some h /\ near_fork m e h) \/
  (findSupplement r c2 = None /\ Z.of_nat m - 1 <= e - Z.of_nat m).
Proof.
  intros K1 K2 [[M1 [M2 M3]] Sm Ap] He Hb. induction fuel as [|fuel IH]; intros i r Hi Bi E; [discriminate|]. cbn [sparse_loop] in E.
  destruct (Z.leb_spec i e) as [Le|Gt].
  - apply obind_Some in E as (h & Eh & E). apply obind_Some in E as (rest & Er & [= <-]). cbn [findSupplement].
    destruct (Z.lt_ge_cases (e - i) (Z.of_nat m)) as [Lt|Ge].
    + rewrite (height_of h c2 (Z.to_nat (e - i)) K2) by (rewrite <- Sm by lia; exact Eh). left. eexists. split; [reflexivity|]. split; lia.
    + assert (h ∉ c2) as N by (apply (Ap (Z.to_nat (e - i))); [lia|exact Eh]). apply height_None in N. rewrite N.
      apply (IH (u64 (i * 2))); [| |exact Er]; rewrite u64_small by lia; lia.
  - injection E as <-. right. split; [reflexivity|]. lia.
Qed.

Lemma buildSparseChain_ok c h n : chain_ok c -> c !! n = Some h -> Z.of_nat n + 1 < 2 ^ 32 ->
  exists r, bi_buildSparseChain h c = Some r /\ head r = Some h /\ last r = c !! O /\ (forall x, x ∈ r -> x ∈ c) /\
    Z.of_nat (length r) <= Z.log2 (Z.of_nat n + 1) + 2 /\
    exists r0, sparse_loop 64 1 (Z.of_nat n + 1) c = Some r0 /\ r = r0 ++ (if decide (last r0 = c !! O) then [] else match c with [] => [] | g :: _ => [g] end).
Proof.
  intros K E Hn. pose proof (lookup_lt_Some _ _ _ E) as L. unfold bi_buildSparseChain, hasBlock.
  rewrite bool_decide_true by (apply list_elem_of_lookup; eauto). cbn [c_assert obind]. rewrite (height_of h c n K E). cbn [obind].
  rewrite u32_small by lia.
  destruct (sparse_loop_ok c (Z.of_nat n + 1) ltac:(lia) Hn 64 1 ltac:(lia) ltac:(lia)) as (r & Er & Hd & In & Lr). rewrite Er. cbn [obind].
  specialize (Hd ltac:(lia)). replace (Z.to_nat (Z.of_nat n + 1 - 1)) with n in Hd by lia. rewrite E in Hd.
  assert (r <> []) as Nr by (intros ->; discriminate). specialize (Lr Nr).
  assert (Z.of_nat (length r) <= Z.log2 (Z.of_nat n + 1) + 1) as Lg.
  { assert (Z.of_nat (length r) - 1 <= Z.log2 (Z.of_nat n + 1)); [|lia]. apply Z.log2_le_pow2; lia. }
  destruct (last r) as [b|] eqn:Eb; [|apply last_None in Eb; contradiction]. cbn [obind]. destruct c as [|g c]; [cbn in L; lia|].
  change ((g :: c) !! 0%nat) with (Some g). cbn [obind]. destruct (decide (b = g)) as [->|Nb].
  - exists r. split; [reflexivity|]. split; [exact Hd|]. split; [exact Eb|]. split; [exact In|]. split; [lia|]. exists r.
    split; [reflexivity|]. rewrite decide_True by exact Eb. rewrite app_nil_r. reflexivity.
  - exists (r ++ [g]). split; [reflexivity|]. split; [destruct r; [contradiction|exact Hd]|].
    split; [apply last_snoc|]. split; [|split; [rewrite length_app; cbn; lia|]].
    + intros x [H| ->%list_elem_of_singleton]%elem_of_app; [apply In, H|left].
    + exists r. split; [reflexivity|]. rewrite decide_False; [reflexivity|]. rewrite Eb. change ((g :: c) !! 0%nat) with (Some g). congruence.
Qed.

(** One node's sparse chain leads the other to a block near the fork. *)
Lemma supplement_near_fork c1 c2 m h n : chain_ok c1 -> chain_ok c2 -> forked m c1 c2 -> c1 !! n = Some h -> (m <= S n)%nat ->
  Z.of_nat n + 1 < 2 ^ 32 ->
  exists r off, bi_buildSparseChain h c1 = Some r /\ findSupplement r c2 = Some off /\ near_fork m (Z.of_nat n + 1) off /\
    c1 !! Z.to_nat off = c2 !! Z.to_nat off.
Proof.
  intros K1 K2 F E Hm Hn. pose proof (lookup_lt_Some _ _ _ E) as L.
  destruct (buildSparseChain_ok c1 h n K1 E Hn) as (r & Er & _ & La & _ & _ & r0 & E0 & Ra). exists r.
  assert (forall off, near_fork m (Z.of_nat n + 1) off -> c1 !! Z.to_nat off = c2 !! Z.to_nat off) as Same
    by (intros off [H _]; apply (fork_same _ _ _ F); lia).
  destruct (search_loop c1 c2 m (Z.of_nat n + 1) K1 K2 F ltac:(lia) Hn 64 1 r0 ltac:(lia) ltac:(lia) E0) as [(off & Eo & No)|[Eo B]].
  - exists off. split; [exact Er|]. split; [rewrite Ra, findSupplement_app, Eo; reflexivity|]. split; [exact No|apply Same, No].
  - exists 0. assert (near_fork m (Z.of_nat n + 1) 0) as N0 by (split; [destruct F as [[M _] _ _]; lia|lia]).
    split; [exact Er|]. split; [|split; [exact N0|apply Same, N0]]. rewrite Ra, findSupplement_app, Eo. destruct c1 as [|g c1]; [cbn in L; lia|].
    destruct F as [[M1 [M2 M3]] Sm Ap]. pose proof (Sm 0%nat ltac:(lia)) as S0. change ((g :: c1) !! 0%nat) with (Some g) in S0.
    rewrite decide_False; [cbn; rewrite (height_of g c2 0 K2 (eq_sym S0)); reflexivity|].
    intros Eg. change ((g :: c1) !! 0%nat) with (Some g) in Eg. apply (findSupplement_None _ _ Eo g).
    + rewrite last_lookup in Eg. apply list_elem_of_lookup. eauto.
    + apply list_elem_of_lookup. eauto.
Qed.
