(* ===== verification/TxStore.v ===== *)
(** * Transactions in the chain state (CryptoNoteCore/Blockchain.cpp)

    The indices over the transactions of the chain: the map from hashes to places,
    the set of spent key images, the outputs by amount, the multisignature outputs
    by amount with their use, and the payment ids.  [pushTransaction] and
    [popTransaction] update them.

    Hash tables are finite maps; the multimap of payment ids is a multiset of
    pairs.  [None] is an exception ([at] on a missing key, [boost::get] on the
    wrong alternative), an access out of the range of a vector, or a loop that
    does not end.  The hash of a transaction and the payment id in its extra field
    are arguments: the indices only store them. *)

From Stdlib Require Import ZArith Lia List Bool.
From S2P Require Import Prelude Bytes IntUtil Currency DepositIndex.
From stdpp Require Import gmap gmultiset list.
Import ListNotations.
Open Scope Z_scope.
Open Scope cmon_scope.
Set Default Goal Selector "!".

(** ** Data (include/CryptoNote.h, Blockchain.h) *)

Abbreviation bytes := (list Z).

Inductive TransactionOutputTarget :=
| KeyOutput (key : bytes)
| MultisignatureOutput (keys : list bytes) (requiredSignatureCount term : Z).

Record TransactionOutput := mk_output { out_amount : Z; target : TransactionOutputTarget }.

Record Transaction := mk_tx {
  version : Z;
  unlockTime : Z;
  inputs : list TransactionInput;
  outputs : list TransactionOutput;
  extra : bytes;
  signatures : list (list bytes)
}.

Record TransactionIndex := mk_tindex { ti_block : Z; ti_transaction : Z }.

Record MultisignatureOutputUsage := mk_usage { transactionIndex : TransactionIndex; outputIndex : Z; isUsed : bool }.

Record TransactionEntry := mk_tentry { tx : Transaction; m_global_output_indexes : list Z }.

Record Block := mk_block {
  majorVersion : Z;
  minorVersion : Z;
  nonce : Z;
  timestamp : Z;
  previousBlockHash : bytes;
  baseTransaction : Transaction;
  transactionHashes : list bytes
}.

Record BlockEntry := mk_bentry {
  bl : Block;
  be_height : Z;
  block_cumulative_size : Z;
  cumulative_difficulty : Z;
  already_generated_coins : Z;
  transactions : list TransactionEntry
}.

(** The members of [Blockchain] that transactions are indexed in. *)
Record store := mk_store {
  m_transactionMap : gmap bytes TransactionIndex;
  m_spent_keys : gset bytes;
  m_outputs : gmap Z (list (TransactionIndex * Z));
  m_multisignatureOutputs : gmap Z (list MultisignatureOutputUsage);
  m_paymentIdIndex : gmultiset (bytes * bytes)
}.

Abbreviation usages := (gmap Z (list MultisignatureOutputUsage)).

Definition empty_store : store := mk_store ∅ ∅ ∅ ∅ ∅.

(** ** Operations *)

Section Store.
Variable getObjectHash : Transaction -> bytes.
Variable getPaymentId : Transaction -> option bytes.

Definition PaymentIdIndex_add (t : Transaction) (ix : gmultiset (bytes * bytes)) : gmultiset (bytes * bytes) :=
  match getPaymentId t with None => ix | Some p => ix ⊎ {[+ (p, getObjectHash t) +]} end.

Definition PaymentIdIndex_remove (t : Transaction) (ix : gmultiset (bytes * bytes)) : gmultiset (bytes * bytes) :=
  match getPaymentId t with None => ix | Some p => ix ∖ {[+ (p, getObjectHash t) +]} end.

(** CryptoNoteFormatUtils.cpp *)
Fixpoint multisignature_diff (ins : list TransactionInput) (inputsUsage : gset (Z * Z)) : bool :=
  match ins with
  | [] => true
  | MultisignatureInput amount _ outputIndex _ :: ins =>
      if decide ((amount, outputIndex) ∈ inputsUsage) then false
      else multisignature_diff ins ({[(amount, outputIndex)]} ∪ inputsUsage)
  | _ :: ins => multisignature_diff ins inputsUsage
  end.

Definition checkMultisignatureInputsDiff (t : Transaction) : bool := multisignature_diff (inputs t) ∅.

(** [for (j = 0; j < i; ++j) m_spent_keys.erase(get<KeyInput>(inputs[i - 1 - j]).keyImage)]: the
    inputs before [i], the last one first. *)
Fixpoint erase_keys (before : list TransactionInput) (keys : gset bytes) : option (gset bytes) :=
  match before with
  | [] => Some keys
  | KeyInput _ _ keyImage :: before => erase_keys before (keys ∖ {[keyImage]})
  | _ :: _ => None
  end.

(** The loop that inserts the key images; [before] are the inputs passed, the last one first. *)
Fixpoint insert_keys (before ins : list TransactionInput) (keys : gset bytes) : option (bool * gset bytes) :=
  match ins with
  | [] => Some (true, keys)
  | KeyInput amount outputIndexes keyImage :: ins =>
      if decide (keyImage ∈ keys) then keys <- erase_keys before keys ;; Some (false, keys)
      else insert_keys (KeyInput amount outputIndexes keyImage :: before) ins ({[keyImage]} ∪ keys)
  | i :: ins => insert_keys (i :: before) ins keys
  end.

(** [m[amount]], which creates an empty vector when there is none. *)
Definition vector_of {A} (m : gmap Z (list A)) (amount : Z) : list A := default [] (m !! amount).

(** [m_multisignatureOutputs[amount][index].isUsed = b] *)
Definition set_used (b : bool) (amount index : Z) (m : gmap Z (list MultisignatureOutputUsage))
    : option (gmap Z (list MultisignatureOutputUsage)) :=
  let amountOutputs := vector_of m amount in
  u <- amountOutputs !! Z.to_nat index ;;
  Some (<[amount := <[Z.to_nat index := mk_usage (transactionIndex u) (outputIndex u) b]> amountOutputs]> m).

Fixpoint set_inputs_used (b : bool) (ins : list TransactionInput) (m : gmap Z (list MultisignatureOutputUsage))
    : option (gmap Z (list MultisignatureOutputUsage)) :=
  match ins with
  | [] => Some m
  | MultisignatureInput amount _ outputIndex _ :: ins =>
      m <- set_used b amount outputIndex m ;; set_inputs_used b ins m
  | _ :: ins => set_inputs_used b ins m
  end.

Definition U16 : ity := mk_ity 0 (2 ^ 16 - 1).

(** The body of the loop over the outputs: the global index of the output, and the new state. *)
Definition push_output (index : TransactionIndex) (output : Z) (o : TransactionOutput) (st : store) : Z * store :=
  match target o with
  | KeyOutput _ =>
      let amountOutputs := vector_of (m_outputs st) (out_amount o) in
      (u32 (Z.of_nat (length amountOutputs)),
       mk_store (m_transactionMap st) (m_spent_keys st)
         (<[out_amount o := amountOutputs ++ [(index, output)]]> (m_outputs st))
         (m_multisignatureOutputs st) (m_paymentIdIndex st))
  | MultisignatureOutput _ _ _ =>
      let amountOutputs := vector_of (m_multisignatureOutputs st) (out_amount o) in
      (u32 (Z.of_nat (length amountOutputs)),
       mk_store (m_transactionMap st) (m_spent_keys st) (m_outputs st)
         (<[out_amount o := amountOutputs ++ [mk_usage index output false]]> (m_multisignatureOutputs st))
         (m_paymentIdIndex st))
  end.

(** [for (uint16_t output = 0; output < outputs.size(); ++output)]: the counter wraps around at
    65536, so that the loop does not end on more than 65535 outputs. *)
Fixpoint push_outputs (fuel : nat) (outs : list TransactionOutput) (index : TransactionIndex) (output : Z)
    (indexes : list Z) (st : store) : option (list Z * store) :=
  match fuel with
  | O => None
  | S fuel =>
      if negb (output <? Z.of_nat (length outs)) then Some (indexes, st) else
      o <- outs !! Z.to_nat output ;;
      let '(g, st) := push_output index output o st in
      push_outputs fuel outs index (wrap U16 (output + 1)) (<[Z.to_nat output := g]> indexes) st
  end.

(** The [TransactionEntry] is the one of the block at the place the index names; its global output
    indexes are written back. *)
Definition pushTransaction (block : BlockEntry) (transactionHash : bytes) (index : TransactionIndex) (st : store)
    : option (bool * BlockEntry * store) :=
  match m_transactionMap st !! transactionHash with
  | Some _ => Some (false, block, st)
  | None =>
      let transactionMap := <[transactionHash := index]> (m_transactionMap st) in
      transaction <- transactions block !! Z.to_nat (ti_transaction index) ;;
      let t := tx transaction in
      if negb (checkMultisignatureInputsDiff t) then
        Some (false, block, mk_store (delete transactionHash transactionMap) (m_spent_keys st) (m_outputs st)
          (m_multisignatureOutputs st) (m_paymentIdIndex st))
      else
      '(inserted, keys) <- insert_keys [] (inputs t) (m_spent_keys st) ;;
      if negb inserted then
        Some (false, block, mk_store (delete transactionHash transactionMap) keys (m_outputs st)
          (m_multisignatureOutputs st) (m_paymentIdIndex st))
      else
      multisignatureOutputs <- set_inputs_used true (inputs t) (m_multisignatureOutputs st) ;;
      let st := mk_store transactionMap keys (m_outputs st) multisignatureOutputs (m_paymentIdIndex st) in
      let indexes := resize (length (outputs t)) 0 (m_global_output_indexes transaction) in
      '(indexes, st) <- push_outputs (S (length (outputs t))) (outputs t) index 0 indexes st ;;
      let st := mk_store (m_transactionMap st) (m_spent_keys st) (m_outputs st) (m_multisignatureOutputs st)
        (PaymentIdIndex_add t (m_paymentIdIndex st)) in
      let block := mk_bentry (bl block) (be_height block) (block_cumulative_size block) (cumulative_difficulty block)
        (already_generated_coins block) (<[Z.to_nat (ti_transaction index) := mk_tentry t indexes]> (transactions block)) in
      Some (true, block, st)
  end.

(** [v.back()] and [v.pop_back()], with the entry erased when the vector becomes empty. *)
Definition shrink {A} (m : gmap Z (list A)) (amount : Z) (v : list A) : gmap Z (list A) :=
  match v with [] => delete amount m | _ => <[amount := v]> m end.

(** The body of the loop over the outputs, from the last to the first; a broken consistency is only
    logged. *)
Definition pop_output (index : TransactionIndex) (output : Z) (o : TransactionOutput) (st : store) : store :=
  match target o with
  | KeyOutput _ =>
      match m_outputs st !! out_amount o with
      | None => st
      | Some amountOutputs =>
          match last amountOutputs with
          | None => st
          | Some (i, k) =>
              if negb (ti_block i =? ti_block index) || negb (ti_transaction i =? ti_transaction index) then st else
              if negb (k =? output) then st else
              mk_store (m_transactionMap st) (m_spent_keys st)
                (shrink (m_outputs st) (out_amount o) (removelast amountOutputs))
                (m_multisignatureOutputs st) (m_paymentIdIndex st)
          end
      end
  | MultisignatureOutput _ _ _ =>
      match m_multisignatureOutputs st !! out_amount o with
      | None => st
      | Some amountOutputs =>
          match last amountOutputs with
          | None => st
          | Some u =>
              if isUsed u then st else
              if negb (ti_block (transactionIndex u) =? ti_block index)
                 || negb (ti_transaction (transactionIndex u) =? ti_transaction index) then st else
              if negb (outputIndex u =? output) then st else
              mk_store (m_transactionMap st) (m_spent_keys st) (m_outputs st)
                (shrink (m_multisignatureOutputs st) (out_amount o) (removelast amountOutputs)) (m_paymentIdIndex st)
          end
      end
  end.

(** The loop: [outs] are the first [n] outputs, handled from the last on. *)
Fixpoint pop_outputs (n : nat) (outs : list TransactionOutput) (index : TransactionIndex) (st : store) : option store :=
  match n with
  | O => Some st
  | S n => o <- outs !! n ;; pop_outputs n outs index (pop_output index (Z.of_nat n) o st)
  end.

Fixpoint pop_inputs (ins : list TransactionInput) (keys : gset bytes) (m : gmap Z (list MultisignatureOutputUsage))
    : option (gset bytes * gmap Z (list MultisignatureOutputUsage)) :=
  match ins with
  | [] => Some (keys, m)
  | KeyInput _ _ keyImage :: ins => pop_inputs ins (keys ∖ {[keyImage]}) m
  | MultisignatureInput amount _ outputIndex _ :: ins =>
      m <- set_used false amount outputIndex m ;; pop_inputs ins keys m
  | BaseInput _ :: ins => pop_inputs ins keys m
  end.

Definition popTransaction (t : Transaction) (transactionHash : bytes) (st : store) : option store :=
  index <- m_transactionMap st !! transactionHash ;;
  st <- pop_outputs (length (outputs t)) (outputs t) index st ;;
  '(keys, m) <- pop_inputs (inputs t) (m_spent_keys st) (m_multisignatureOutputs st) ;;
  Some (mk_store (delete transactionHash (m_transactionMap st)) keys (m_outputs st) m
    (PaymentIdIndex_remove t (m_paymentIdIndex st))).

(** The transactions after the first, from the last to the second; [n] of them are left. *)
Fixpoint pop_block_transactions (n : nat) (block : BlockEntry) (st : store) : option store :=
  match n with
  | O => Some st
  | S n =>
      e <- transactions block !! S n ;;
      h <- transactionHashes (bl block) !! n ;;
      st <- popTransaction (tx e) h st ;;
      pop_block_transactions n block st
  end.

Definition popTransactions (block : BlockEntry) (minerTransactionHash : bytes) (st : store) : option store :=
  st <- pop_block_transactions (length (transactions block) - 1) block st ;;
  popTransaction (baseTransaction (bl block)) minerTransactionHash st.

(** ** Pushing and popping outputs *)

Fixpoint push_all (index : TransactionIndex) (k : Z) (outs : list TransactionOutput) (st : store) : list Z * store :=
  match outs with
  | [] => ([], st)
  | o :: outs =>
      let '(g, st) := push_output index k o st in
      let '(gs, st) := push_all index (k + 1) outs st in (g :: gs, st)
  end.

Lemma push_outputs_all outs index rest : forall pre fuel indexes st, outs = pre ++ rest ->
  (length rest < fuel)%nat -> length indexes = length outs -> Z.of_nat (length outs) < 2 ^ 16 ->
  push_outputs fuel outs index (Z.of_nat (length pre)) indexes st =
    Some (take (length pre) indexes ++ (push_all index (Z.of_nat (length pre)) rest st).1,
          (push_all index (Z.of_nat (length pre)) rest st).2).
Proof.
  induction rest as [|o rest IH]; intros pre [|fuel] indexes st E Hf Li Lo; try (cbn in Hf; lia); cbn [push_outputs push_all].
  - rewrite app_nil_r in E. subst pre. rewrite Z.ltb_irrefl. cbn [negb fst snd]. rewrite app_nil_r, <- Li, firstn_all. reflexivity.
  - assert (length outs = length pre + S (length rest))%nat as Le by (rewrite E, length_app; reflexivity).
    replace (Z.of_nat (length pre) <? Z.of_nat (length outs)) with true by (symmetry; apply Z.ltb_lt; lia). cbn [negb].
    rewrite Nat2Z.id, E, lookup_app_r, Nat.sub_diag by lia. cbn [obind]. change ((o :: rest) !! 0%nat) with (Some o). cbn [obind].
    destruct (push_output index (Z.of_nat (length pre)) o st) as [g st1].
    rewrite wrap_id by (apply in_ity_spec; cbn [U16 i_min i_max]; lia).
    replace (Z.of_nat (length pre) + 1) with (Z.of_nat (length (pre ++ [o]))) by (rewrite length_app; cbn; lia).
    rewrite <- E, (IH (pre ++ [o])); [|rewrite <- app_assoc; exact E|cbn in Hf; lia|rewrite length_insert; exact Li|exact Lo].
    destruct (push_all _ _ rest st1) as [gs st2]. cbn [fst snd].
    rewrite length_app, Nat.add_1_r, (take_S_r _ _ g) by (apply list_lookup_insert_eq; lia).
    rewrite take_insert_ge, <- app_assoc by lia. reflexivity.
Qed.

Lemma push_all_snoc index outs o : forall k st,
  (push_all index k (outs ++ [o]) st).2 =
    (push_output index (k + Z.of_nat (length outs)) o (push_all index k outs st).2).2.
Proof.
  induction outs as [|o' outs IH]; intros k st; cbn [app push_all].
  - rewrite Z.add_0_r. cbn [length push_all snd]. destruct (push_output index k o st). reflexivity.
  - destruct (push_output index k o' st) as [g st1]. specialize (IH (k + 1) st1).
    destruct (push_all index (k + 1) (outs ++ [o]) st1), (push_all index (k + 1) outs st1). cbn [fst snd length] in *.
    rewrite IH. f_equal. f_equal. lia.
Qed.

(** No vector of the two tables of outputs is empty. *)
Definition tables_ok (st : store) : Prop :=
  (forall a v, m_outputs st !! a = Some v -> v <> []) /\
  (forall a v, m_multisignatureOutputs st !! a = Some v -> v <> []).

Lemma snoc_not_nil {A} (v : list A) x : v ++ [x] <> [].
Proof. destruct v; discriminate. Qed.

Lemma insert_tables {A} (m : gmap Z (list A)) a x : (forall a v, m !! a = Some v -> v <> []) ->
  forall b v, <[a := vector_of m a ++ [x]]> m !! b = Some v -> v <> [].
Proof. intros H b v. rewrite lookup_insert. case_decide; [intros [= <-]; apply snoc_not_nil|apply H]. Qed.

Lemma push_output_tables index k o st : tables_ok st -> tables_ok (push_output index k o st).2.
Proof. intros [Ho Hm]. unfold push_output. destruct (target o); (split; [|]); cbn; eauto using insert_tables. Qed.

Lemma push_all_tables index outs : forall k st, tables_ok st -> tables_ok (push_all index k outs st).2.
Proof.
  induction outs as [|o outs IH]; intros k st H; cbn [push_all]; [exact H|].
  pose proof (push_output_tables index k o st H) as H1. destruct (push_output index k o st) as [g st1].
  pose proof (IH (k + 1) st1 H1). destruct (push_all index (k + 1) outs st1). assumption.
Qed.

Lemma shrink_insert {A} (m : gmap Z (list A)) a x : (forall a v, m !! a = Some v -> v <> []) ->
  shrink (<[a := vector_of m a ++ [x]]> m) a (vector_of m a) = m.
Proof.
  intros H. unfold vector_of. destruct (m !! a) as [v|] eqn:E; cbn [default from_option id].
  - specialize (H a v E). unfold shrink. destruct v as [|y v]; [contradiction|]. rewrite insert_insert_eq. apply insert_id, E.
  - cbn. apply delete_insert_id, E.
Qed.

(** Popping an output undoes pushing it. *)
Lemma pop_push_output index k o st : tables_ok st -> pop_output index k o (push_output index k o st).2 = st.
Proof.
  intros [Ho Hm]. destruct st as [tm sk os ms pi]. unfold pop_output, push_output. cbn in Ho, Hm.
  destruct (target o); cbn; rewrite lookup_insert_eq, last_snoc; cbn; rewrite !Z.eqb_refl; cbn; rewrite removelast_last, shrink_insert by assumption;
    reflexivity.
Qed.

Lemma pop_outputs_push outs index st : tables_ok st -> forall n, (n <= length outs)%nat ->
  pop_outputs n outs index (push_all index 0 (take n outs) st).2 = Some st.
Proof.
  intros H. induction n as [|n IH]; intros L; [reflexivity|]. cbn [pop_outputs].
  destruct (outs !! n) as [o|] eqn:E; [|apply lookup_ge_None in E; lia]. cbn [obind].
  rewrite (take_S_r _ _ o E), push_all_snoc, length_take, Nat.min_l, Z.add_0_l by lia.
  rewrite pop_push_output by (apply push_all_tables, H). apply IH. lia.
Qed.

(** ** Key images *)

Definition image_of (i : TransactionInput) : option bytes := match i with KeyInput _ _ image => Some image | _ => None end.
Definition images (ins : list TransactionInput) : list bytes := omap image_of ins.

Lemma insert_keys_ok ins : forall before keys keys', insert_keys before ins keys = Some (true, keys') ->
  NoDup (images ins) /\ (forall x, x ∈ images ins -> x ∉ keys) /\ keys' = list_to_set (images ins) ∪ keys.
Proof.
  induction ins as [|i ins IH]; intros before keys keys' E; cbn [insert_keys] in E.
  - injection E as <-. split; [constructor|]. split; [intros x H; inversion H|]. set_solver.
  - destruct i as [b|a o image|a c o t]; cbn in *; [eapply IH, E| |eapply IH, E].
    case_decide as D; [destruct (erase_keys before keys); discriminate|].
    destruct (IH _ _ _ E) as (N & F & ->). split; [constructor; [intros H; specialize (F _ H); set_solver|exact N]|].
    split; [|set_solver]. intros x [->|H]%elem_of_cons; [exact D|]. specialize (F x H). set_solver.
Qed.

Lemma insert_keys_complete ins : forall before keys, NoDup (images ins) -> (forall x, x ∈ images ins -> x ∉ keys) ->
  insert_keys before ins keys = Some (true, list_to_set (images ins) ∪ keys).
Proof.
  induction ins as [|i ins IH]; intros before keys N F; cbn [insert_keys].
  - do 2 f_equal. cbn. set_solver.
  - destruct i as [b|a o image|a c o t]; cbn in *; [apply IH; assumption| |apply IH; assumption].
    rewrite decide_False by (apply F; left). apply NoDup_cons in N as [Ni N]. rewrite IH; [do 2 f_equal; set_solver|exact N|].
    intros x H. specialize (F x (list_elem_of_further _ _ _ H)). intros [->%elem_of_singleton|K]%elem_of_union; auto.
Qed.

Lemma pop_inputs_ok ins : forall keys m,
  pop_inputs ins keys m = (m' <- set_inputs_used false ins m ;; Some (keys ∖ list_to_set (images ins), m')).
Proof.
  induction ins as [|i ins IH]; intros keys m; cbn [pop_inputs set_inputs_used].
  - cbn. do 2 f_equal. set_solver.
  - destruct i as [b|a o image|a c o t]; cbn.
    + rewrite IH. reflexivity.
    + rewrite IH. destruct (set_inputs_used false ins m); cbn; [|reflexivity]. do 2 f_equal. set_solver.
    + destruct (set_used false a o m); cbn; [rewrite IH|]; reflexivity.
Qed.

(** ** The use of multisignature outputs *)

Definition ms_ref (i : TransactionInput) : option (Z * Z) :=
  match i with MultisignatureInput amount _ outputIndex _ => Some (amount, outputIndex) | _ => None end.
Definition ms_refs (ins : list TransactionInput) : list (Z * Z) := omap ms_ref ins.

Lemma multisignature_diff_ok ins : forall X, multisignature_diff ins X = true <->
  NoDup (ms_refs ins) /\ (forall r, r ∈ ms_refs ins -> r ∉ X).
Proof.
  induction ins as [|i ins IH]; intros X; cbn [multisignature_diff].
  - split; [|reflexivity]. intros _. split; [constructor|intros r H; inversion H].
  - destruct i as [b|a o image|a c o t]; cbn; [apply IH..|]. case_decide as D.
    + split; [discriminate|]. intros [_ F]. destruct (F (a, o)); [left|exact D].
    + rewrite IH, NoDup_cons. split.
      * intros [N F]. split; [split; [intros H; specialize (F _ H); set_solver|exact N]|].
        intros r [->|H]%elem_of_cons; [exact D|]. specialize (F r H). set_solver.
      * intros [[Ni N] F]. split; [exact N|]. intros r H. specialize (F r (list_elem_of_further _ _ _ H)).
        intros [->%elem_of_singleton|K]%elem_of_union; auto.
Qed.

Definition with_use (b : bool) (u : MultisignatureOutputUsage) : MultisignatureOutputUsage :=
  mk_usage (transactionIndex u) (outputIndex u) b.
Definition flag (b : bool) (r : Z * Z) (m : usages) : usages := alter (alter (with_use b) (Z.to_nat r.2)) r.1 m.

Definition usage (m : usages) (r : Z * Z) : option MultisignatureOutputUsage := v <- m !! r.1 ;; v !! Z.to_nat r.2.
Definition unused (m : usages) (r : Z * Z) : Prop := 0 <= r.2 /\ exists u, usage m r = Some u /\ isUsed u = false.

Lemma set_used_flag b a o m u : usage m (a, o) = Some u -> set_used b a o m = Some (flag b (a, o) m).
Proof.
  unfold usage, set_used, vector_of, flag. cbn [fst snd]. destruct (m !! a) as [v|] eqn:E; [|discriminate]. cbn. intros Eu.
  rewrite Eu. cbn. f_equal. rewrite (alter_alt_Some _ _ _ v) by exact E. f_equal. rewrite list_insert_alter.
  apply list_alter_ext; [|reflexivity]. intros x Ex. rewrite Ex in Eu. injection Eu as ->. reflexivity.
Qed.

Lemma usage_flag b r r' m : usage (flag b r m) r' =
  if decide (r.1 = r'.1 /\ Z.to_nat r.2 = Z.to_nat r'.2) then with_use b <$> usage m r' else usage m r'.
Proof.
  unfold usage, flag. rewrite lookup_alter. destruct (decide (r.1 = r'.1)) as [E|N].
  - rewrite E. destruct (m !! r'.1) as [v|]; cbn; [|destruct (decide _); reflexivity].
    rewrite list_lookup_alter. destruct (decide (Z.to_nat r.2 = Z.to_nat r'.2)) as [E2|N2]; case_decide as D; try tauto; rewrite ?E2; reflexivity.
  - case_decide as D; [tauto|reflexivity].
Qed.

Lemma usage_flag_ne b r r' m : 0 <= r.2 -> 0 <= r'.2 -> r <> r' -> usage (flag b r m) r' = usage m r'.
Proof.
  intros H H' N. rewrite usage_flag. case_decide as D; [|reflexivity]. destruct N, r, r'. cbn in *. f_equal; [tauto|lia].
Qed.

Lemma unused_flag b r r' m : 0 <= r.2 -> r <> r' -> unused m r' -> unused (flag b r m) r'.
Proof. intros H N (P & u & E & U). split; [exact P|]. exists u. rewrite usage_flag_ne by assumption. auto. Qed.

Lemma flag_comm b b' r r' m : 0 <= r.2 -> 0 <= r'.2 -> r <> r' -> flag b r (flag b' r' m) = flag b' r' (flag b r m).
Proof.
  intros H H' N. unfold flag. destruct (decide (r.1 = r'.1)) as [E|Ne]; [|apply alter_alter_ne, Ne].
  rewrite E, !alter_alter_eq. apply alter_ext. intros v _. cbn. apply list_alter_alter_ne.
  intros En. apply N. destruct r, r'. cbn in *. f_equal; [assumption|lia].
Qed.

Lemma flag_undo r m : unused m r -> flag false r (flag true r m) = m.
Proof.
  intros (_ & u & E & U). unfold flag, usage in *. rewrite alter_alter_eq. apply alter_id. intros v Ev. rewrite Ev in E. cbn in *.
  rewrite list_alter_alter_eq. rewrite <- (list_alter_id (fun x => x) v (Z.to_nat r.2)) at 2 by reflexivity.
  apply list_alter_ext; [|reflexivity]. intros x Ex. rewrite Ex in E. injection E as ->. destruct u. cbn in *. unfold with_use. cbn. congruence.
Qed.

Definition flags (b : bool) (rs : list (Z * Z)) (m : usages) : usages := foldl (fun m r => flag b r m) m rs.

Lemma flags_cons b r rs m : flags b (r :: rs) m = flags b rs (flag b r m).
Proof. reflexivity. Qed.

Lemma set_inputs_used_flags b ins : forall m, NoDup (ms_refs ins) -> Forall (fun r => 0 <= r.2 /\ is_Some (usage m r)) (ms_refs ins) ->
  set_inputs_used b ins m = Some (flags b (ms_refs ins) m).
Proof.
  induction ins as [|i ins IH]; intros m N F; [reflexivity|].
  destruct i as [bi|a o image|a c o t]; cbn [set_inputs_used ms_refs omap list_omap ms_ref] in *; [apply IH; assumption..|].
  apply NoDup_cons in N as [Ni N]. apply Forall_cons in F as [[P [u Eu]] F]. rewrite (set_used_flag b a o m u Eu). cbn [obind].
  rewrite IH; [reflexivity|exact N|]. rewrite Forall_forall in F |- *. intros r Hr. destruct (F r Hr) as [Pr Sr]. split; [exact Pr|].
  rewrite usage_flag_ne; [exact Sr|exact P|exact Pr|]. intros <-. apply Ni, Hr.
Qed.

Lemma flag_flags b b' r rs : forall m, 0 <= r.2 -> r ∉ rs -> Forall (fun r => 0 <= r.2) rs -> flag b r (flags b' rs m) = flags b' rs (flag b r m).
Proof.
  induction rs as [|r' rs IH]; intros m H N F; [reflexivity|]. apply not_elem_of_cons in N as [N1 N2]. apply Forall_cons in F as [F1 F2].
  rewrite !flags_cons. rewrite IH by assumption. rewrite flag_comm by assumption. reflexivity.
Qed.

Lemma flags_undo rs : forall m, NoDup rs -> Forall (unused m) rs -> flags false rs (flags true rs m) = m.
Proof.
  induction rs as [|r rs IH]; intros m N F; [reflexivity|]. apply NoDup_cons in N as [Nr N]. apply Forall_cons in F as [U F].
  rewrite !flags_cons.
  rewrite flag_flags; [|apply U|exact Nr|eapply Forall_impl; [exact F|]; intros x H; apply H].
  rewrite flag_undo by exact U. apply IH; assumption.
Qed.

Lemma usage_flags b r rs : forall m, 0 <= r.2 -> Forall (fun r => 0 <= r.2) rs ->
  usage (flags b rs m) r = if decide (r ∈ rs) then with_use b <$> usage m r else usage m r.
Proof.
  induction rs as [|r' rs IH]; intros m H F; [cbn; case_decide as D; [inversion D|reflexivity]|]. apply Forall_cons in F as [P F].
  rewrite !flags_cons. rewrite IH by assumption. destruct (decide (r' = r)) as [->|N].
  - rewrite usage_flag, (decide_True (P := _ /\ _)) by auto. rewrite (decide_True (P := r ∈ r :: rs)) by left.
    case_decide; [|reflexivity]. destruct (usage m r) as [[]|]; reflexivity.
  - rewrite usage_flag_ne by assumption. destruct (decide (r ∈ rs)) as [I|I]; case_decide as D; try reflexivity.
    + destruct D. right. exact I.
    + apply elem_of_cons in D as [->|D]; [contradiction|]. contradiction.
Qed.

(** ** Pushing and popping a transaction *)

(** The multisignature outputs that the inputs refer to exist and are not used. *)
Definition spendable (t : Transaction) (st : store) : Prop := Forall (unused (m_multisignatureOutputs st)) (ms_refs (inputs t)).

(** What makes a transaction acceptable to [pushTransaction]. *)
Record acceptable (t : Transaction) (hash : bytes) (st : store) : Prop := {
  acc_hash : m_transactionMap st !! hash = None;
  acc_refs : NoDup (ms_refs (inputs t));
  acc_images : NoDup (images (inputs t));
  acc_keys : forall x, x ∈ images (inputs t) -> x ∉ m_spent_keys st
}.

(** The state after a transaction was pushed. *)
Definition push_state (t : Transaction) (hash : bytes) (index : TransactionIndex) (st : store) : list Z * store :=
  push_all index 0 (outputs t)
    (mk_store (<[hash := index]> (m_transactionMap st)) (list_to_set (images (inputs t)) ∪ m_spent_keys st) (m_outputs st)
       (flags true (ms_refs (inputs t)) (m_multisignatureOutputs st)) (PaymentIdIndex_add t (m_paymentIdIndex st))).

Definition with_payments (p : gmultiset (bytes * bytes)) (st : store) : store :=
  mk_store (m_transactionMap st) (m_spent_keys st) (m_outputs st) (m_multisignatureOutputs st) p.

Lemma push_all_payments index p outs : forall k st,
  push_all index k outs (with_payments p st) =
    ((push_all index k outs st).1, with_payments p (push_all index k outs st).2).
Proof.
  induction outs as [|o outs IH]; intros k st; [reflexivity|]. cbn [push_all].
  assert (push_output index k o (with_payments p st) =
    ((push_output index k o st).1, with_payments p (push_output index k o st).2)) as ->
    by (unfold push_output; destruct (target o); reflexivity).
  destruct (push_output index k o st) as [g st1]. cbn [fst snd]. rewrite IH. destruct (push_all index (k + 1) outs st1). reflexivity.
Qed.

Lemma push_all_frame index outs : forall k st,
  m_transactionMap (push_all index k outs st).2 = m_transactionMap st /\
  m_spent_keys (push_all index k outs st).2 = m_spent_keys st /\
  m_paymentIdIndex (push_all index k outs st).2 = m_paymentIdIndex st.
Proof.
  induction outs as [|o outs IH]; intros k st; [auto|]. cbn [push_all].
  assert (exists g os ms, push_output index k o st =
    (g, mk_store (m_transactionMap st) (m_spent_keys st) os ms (m_paymentIdIndex st))) as (g & os & ms & ->)
    by (unfold push_output; destruct (target o); eauto).
  specialize (IH (k + 1) (mk_store (m_transactionMap st) (m_spent_keys st) os ms (m_paymentIdIndex st))).
  destruct (push_all index (k + 1) outs _). exact IH.
Qed.

Definition with_entry (block : BlockEntry) (n : nat) (e : TransactionEntry) : BlockEntry :=
  mk_bentry (bl block) (be_height block) (block_cumulative_size block) (cumulative_difficulty block)
    (already_generated_coins block) (<[n := e]> (transactions block)).

Lemma acceptable_of t hash st keys : m_transactionMap st !! hash = None -> checkMultisignatureInputsDiff t = true ->
  insert_keys [] (inputs t) (m_spent_keys st) = Some (true, keys) ->
  acceptable t hash st /\ keys = list_to_set (images (inputs t)) ∪ m_spent_keys st.
Proof.
  intros H D K. destruct (insert_keys_ok _ _ _ _ K) as (N & F & ->). split; [|reflexivity].
  apply multisignature_diff_ok in D as [R _]. split; assumption.
Qed.

(** An accepted transaction. *)
Lemma pushTransaction_accepts block hash index st e : transactions block !! Z.to_nat (ti_transaction index) = Some e ->
  acceptable (tx e) hash st -> spendable (tx e) st -> Z.of_nat (length (outputs (tx e))) < 2 ^ 16 ->
  pushTransaction block hash index st =
    Some (true, with_entry block (Z.to_nat (ti_transaction index)) (mk_tentry (tx e) (push_state (tx e) hash index st).1),
          (push_state (tx e) hash index st).2).
Proof.
  intros E [Fh Fr Fi Fk] S L. unfold pushTransaction. rewrite Fh, E. cbn [obind].
  assert (checkMultisignatureInputsDiff (tx e) = true) as -> by (apply multisignature_diff_ok; split; [exact Fr|set_solver]).
  cbn [negb]. rewrite insert_keys_complete by assumption. cbn [obind negb].
  rewrite set_inputs_used_flags; [|exact Fr|eapply Forall_impl; [exact S|]; intros r (P & u & Eu & _); eauto]. cbn [obind].
  rewrite (push_outputs_all _ _ (outputs (tx e)) []); [|reflexivity|lia|apply length_resize|exact L]. cbn [obind length app take].
  unfold push_state, with_entry.
  change (mk_store (<[hash := index]> (m_transactionMap st)) ?k ?o ?f (PaymentIdIndex_add (tx e) (m_paymentIdIndex st)))
    with (with_payments (PaymentIdIndex_add (tx e) (m_paymentIdIndex st))
      (mk_store (<[hash := index]> (m_transactionMap st)) k o f (m_paymentIdIndex st))).
  rewrite push_all_payments. cbn [fst snd]. unfold with_payments.
  set (p := push_all _ _ _ _). assert (m_paymentIdIndex p.2 = m_paymentIdIndex st) as ->
    by (subst p; destruct (push_all_frame index (outputs (tx e)) (Z.of_nat 0)
          (mk_store (<[hash := index]> (m_transactionMap st)) (list_to_set (images (inputs (tx e))) ∪ m_spent_keys st)
            (m_outputs st) (flags true (ms_refs (inputs (tx e))) (m_multisignatureOutputs st)) (m_paymentIdIndex st))) as (_ & _ & ->); reflexivity).
  reflexivity.
Qed.

Lemma erase_keys_ok before : forall keys keys', erase_keys before keys = Some keys' -> keys' = keys ∖ list_to_set (images before).
Proof.
  induction before as [|i before IH]; intros keys keys' E; cbn in *; [injection E as <-; set_solver|].
  destruct i; try discriminate. cbn. apply IH in E. set_solver.
Qed.

Lemma insert_keys_false ins : forall before keys keys', (forall x, x ∈ images before -> x ∉ keys) ->
  insert_keys before ins (list_to_set (images before) ∪ keys) = Some (false, keys') -> keys' = keys.
Proof.
  induction ins as [|i ins IH]; intros before keys keys' D E; cbn [insert_keys] in E; [discriminate|].
  destruct i as [b|a o image|a c o t].
  - apply (IH (BaseInput b :: before)); assumption.
  - case_decide as M.
    + apply obind_Some in E as (k & E & [= <-]). apply erase_keys_ok in E as ->. set_solver.
    + apply (IH (KeyInput a o image :: before)); cbn.
      * intros x [->|H]%elem_of_cons; [set_solver|apply D, H].
      * rewrite <- E. f_equal. set_solver.
  - apply (IH (MultisignatureInput a c o t :: before)); assumption.
Qed.

(** A transaction that is refused changes nothing. *)
Lemma pushTransaction_false block hash index st block' st' :
  pushTransaction block hash index st = Some (false, block', st') -> block' = block /\ st' = st.
Proof.
  unfold pushTransaction. destruct st as [tm sk os ms pi]. cbn. destruct (tm !! hash) as [i|] eqn:Eh; [intros [= <- <-]; auto|].
  intros E. apply obind_Some in E as (e & _ & E). destruct (negb (checkMultisignatureInputsDiff (tx e))).
  { injection E as <- <-. rewrite delete_insert_id by exact Eh. auto. }
  apply obind_Some in E as ([ins keys] & Ek & E). destruct ins; cbn [negb] in E.
  - apply obind_Some in E as (ms' & _ & E). apply obind_Some in E as ([ix st1] & _ & E). discriminate.
  - injection E as <- <-. rewrite delete_insert_id by exact Eh.
    replace keys with sk; [auto|]. symmetry. apply (insert_keys_false (inputs (tx e)) []); [set_solver|]. rewrite <- Ek. f_equal. cbn. set_solver.
Qed.

(** What an accepted transaction satisfied. *)
Lemma pushTransaction_true block hash index st block' st' : pushTransaction block hash index st = Some (true, block', st') ->
  exists e, transactions block !! Z.to_nat (ti_transaction index) = Some e /\ acceptable (tx e) hash st.
Proof.
  unfold pushTransaction. destruct (m_transactionMap st !! hash) as [i|] eqn:Eh; [discriminate|].
  intros E. apply obind_Some in E as (e & Ee & E). exists e. split; [exact Ee|].
  destruct (checkMultisignatureInputsDiff (tx e)) eqn:D; cbn [negb] in E; [|discriminate].
  apply obind_Some in E as ([ins keys] & Ek & E). destruct ins; cbn [negb] in E; [|discriminate].
  apply (acceptable_of _ _ _ keys); assumption.
Qed.

Lemma flag_tables b r (m : usages) : (forall a v, m !! a = Some v -> v <> []) -> forall a v, flag b r m !! a = Some v -> v <> [].
Proof.
  intros H a v. unfold flag. rewrite lookup_alter. case_decide as D; [|apply H]. subst. destruct (m !! r.1) as [w|] eqn:E; [|discriminate].
  intros [= <-] N. apply (H _ _ E). apply length_zero_iff_nil. rewrite <- (length_alter (with_use b) w (Z.to_nat r.2)), N. reflexivity.
Qed.

Lemma flags_tables b rs : forall m : usages, (forall a v, m !! a = Some v -> v <> []) -> forall a v, flags b rs m !! a = Some v -> v <> [].
Proof. induction rs as [|r rs IH]; intros m H; [exact H|]. rewrite flags_cons. apply IH, flag_tables, H. Qed.

(** Popping a transaction undoes pushing it. *)
Lemma pop_push_state t hash index st : tables_ok st -> acceptable t hash st -> spendable t st ->
  popTransaction t hash (push_state t hash index st).2 = Some st.
Proof.
  intros [To Tm] [Fh Fr Fi Fk] S. unfold popTransaction, push_state.
  set (st1 := mk_store (<[hash := index]> (m_transactionMap st)) _ _ _ _).
  destruct (push_all_frame index (outputs t) 0 st1) as (Em & _). rewrite Em. cbn [st1 m_transactionMap]. rewrite lookup_insert_eq. cbn [obind].
  assert (tables_ok st1) as T1 by (split; [exact To|apply flags_tables, Tm]).
  pose proof (pop_outputs_push (outputs t) index st1 T1 (length (outputs t)) (le_n _)) as P. rewrite firstn_all in P. rewrite P. cbn [obind].
  rewrite pop_inputs_ok. cbn [st1 m_multisignatureOutputs m_spent_keys m_transactionMap m_outputs m_paymentIdIndex].
  rewrite set_inputs_used_flags; [|exact Fr|].
  2: { apply Forall_forall. intros r Hr. pose proof (proj1 (Forall_forall _ _) S r Hr) as (Pr & u & Eu & _). split; [exact Pr|].
       rewrite usage_flags; [|exact Pr|eapply Forall_impl; [exact S|]; intros x H; apply H]. rewrite Eu. case_decide; eexists; reflexivity. }
  cbn [obind]. rewrite flags_undo by assumption. rewrite delete_insert_id by exact Fh. f_equal.
  replace ((list_to_set (images (inputs t)) ∪ m_spent_keys st) ∖ list_to_set (images (inputs t))) with (m_spent_keys st) by set_solver.
  replace (PaymentIdIndex_remove t (PaymentIdIndex_add t (m_paymentIdIndex st))) with (m_paymentIdIndex st)
    by (unfold PaymentIdIndex_remove, PaymentIdIndex_add; destruct (getPaymentId t); [multiset_solver|reflexivity]).
  destruct st. reflexivity.
Qed.

Lemma push_state_tables t hash index st : tables_ok st -> tables_ok (push_state t hash index st).2.
Proof. intros [To Tm]. apply push_all_tables. split; [exact To|apply flags_tables, Tm]. Qed.
End Store.
