(* ===== verification/Ledger.v ===== *)
(** * The ledger behind the transaction indices

    The specification of the indices of TxStore.v: a list of the transactions of
    the chain, each with its hash and its place.  A state represents a ledger when
    every index is the function of the ledger it should be, and in particular no
    key image and no multisignature output is spent twice.  Pushing appends to the
    ledger and popping takes its last transaction off. *)

From Stdlib Require Import ZArith Lia List Bool.
From S2P Require Import Prelude Bytes IntUtil Currency DepositIndex TxStore.
From stdpp Require Import gmap gmultiset list.
Import ListNotations.
Open Scope Z_scope.
Open Scope cmon_scope.
Set Default Goal Selector "!".

Record ledger_entry := mk_entry { le_hash : bytes; le_tx : Transaction; le_index : TransactionIndex }.
Abbreviation ledger := (list ledger_entry).

Section Ledger.
Variable getObjectHash : Transaction -> bytes.
Variable getPaymentId : Transaction -> option bytes.

Definition spent_images (l : ledger) : list bytes := l ≫= (fun e => images (inputs (le_tx e))).
Definition spent_refs (l : ledger) : list (Z * Z) := l ≫= (fun e => ms_refs (inputs (le_tx e))).

Definition is_key_output (o : TransactionOutput) : bool := match target o with KeyOutput _ => true | _ => false end.

(** The places of the outputs of one kind and amount: of a transaction, and of a ledger. *)
Fixpoint places (key : bool) (a : Z) (index : TransactionIndex) (k : Z) (outs : list TransactionOutput)
    : list (TransactionIndex * Z) :=
  match outs with
  | [] => []
  | o :: outs =>
      if bool_decide (is_key_output o = key) && (out_amount o =? a)
      then (index, k) :: places key a index (k + 1) outs else places key a index (k + 1) outs
  end.

Definition all_places (key : bool) (a : Z) (l : ledger) : list (TransactionIndex * Z) :=
  l ≫= (fun e => places key a (le_index e) 0 (outputs (le_tx e))).

Definition payments (l : ledger) : list (bytes * bytes) :=
  omap (fun e => p <- getPaymentId (le_tx e) ;; Some (p, getObjectHash (le_tx e))) l.

Definition place_of (u : MultisignatureOutputUsage) : TransactionIndex * Z := (transactionIndex u, outputIndex u).

Record represents (st : store) (l : ledger) : Prop := {
  rep_tables : tables_ok st;
  rep_hashes : NoDup (le_hash <$> l);
  rep_map : forall h i, m_transactionMap st !! h = Some i <-> exists e, e ∈ l /\ le_hash e = h /\ le_index e = i;
  rep_images : NoDup (spent_images l);
  rep_keys : m_spent_keys st = list_to_set (spent_images l);
  rep_outputs : forall a, vector_of (m_outputs st) a = all_places true a l;
  rep_multi : forall a, place_of <$> vector_of (m_multisignatureOutputs st) a = all_places false a l;
  rep_refs : NoDup (spent_refs l);
  rep_used : forall r u, 0 <= r.2 -> usage (m_multisignatureOutputs st) r = Some u -> (isUsed u = true <-> r ∈ spent_refs l);
  rep_in_range : forall r, r ∈ spent_refs l -> 0 <= r.2 /\ is_Some (usage (m_multisignatureOutputs st) r);
  rep_payments : m_paymentIdIndex st = list_to_set_disj (payments l)
}.

Lemma represents_empty : represents empty_store [].
Proof.
  split.
  - split; intros a v E; cbv [empty_store m_outputs m_multisignatureOutputs] in E; rewrite lookup_empty in E; discriminate.
  - constructor.
  - intros h i. cbv [empty_store m_transactionMap]. rewrite lookup_empty. split; [discriminate|]. intros (e & H & _). inversion H.
  - constructor.
  - reflexivity.
  - intros a. reflexivity.
  - intros a. reflexivity.
  - constructor.
  - intros r u _ E. unfold usage, empty_store, m_multisignatureOutputs in E. rewrite lookup_empty in E. discriminate.
  - intros r H. inversion H.
  - reflexivity.
Qed.

(** ** Pushing *)

Lemma vector_insert {A} (m : gmap Z (list A)) a v b : vector_of (<[a := v]> m) b = if decide (a = b) then v else vector_of m b.
Proof. unfold vector_of. rewrite lookup_insert. case_decide; reflexivity. Qed.

Lemma push_all_outputs index outs : forall k st a,
  vector_of (m_outputs (push_all index k outs st).2) a = vector_of (m_outputs st) a ++ places true a index k outs.
Proof.
  induction outs as [|o outs IH]; intros k st a; cbn [push_all places]; [rewrite app_nil_r; reflexivity|].
  destruct (push_output index k o st) as [g st1] eqn:E. specialize (IH (k + 1) st1 a).
  destruct (push_all index (k + 1) outs st1) as [gs st2]. cbn [snd] in *. rewrite IH. unfold push_output, is_key_output in *.
  destruct (target o); injection E as <- <-; cbn [m_outputs].
  - rewrite vector_insert, bool_decide_true by reflexivity. cbn [andb]. destruct (Z.eqb_spec (out_amount o) a) as [->|N].
    + rewrite decide_True by reflexivity. rewrite <- app_assoc. reflexivity.
    + rewrite decide_False by exact N. reflexivity.
  - rewrite bool_decide_false by discriminate. reflexivity.
Qed.

Lemma push_all_multi index outs : forall k st a,
  vector_of (m_multisignatureOutputs (push_all index k outs st).2) a =
    vector_of (m_multisignatureOutputs st) a ++ ((fun p => mk_usage p.1 p.2 false) <$> places false a index k outs).
Proof.
  induction outs as [|o outs IH]; intros k st a; cbn [push_all places]; [rewrite app_nil_r; reflexivity|].
  destruct (push_output index k o st) as [g st1] eqn:E. specialize (IH (k + 1) st1 a).
  destruct (push_all index (k + 1) outs st1) as [gs st2]. cbn [snd] in *. rewrite IH. unfold push_output, is_key_output in *.
  destruct (target o); injection E as <- <-; cbn [m_multisignatureOutputs].
  - rewrite bool_decide_false by discriminate. reflexivity.
  - rewrite vector_insert, bool_decide_true by reflexivity. cbn [andb]. destruct (Z.eqb_spec (out_amount o) a) as [->|N].
    + rewrite decide_True by reflexivity. rewrite <- app_assoc. reflexivity.
    + rewrite decide_False by exact N. reflexivity.
Qed.

Lemma usage_vector (m : usages) r : usage m r = vector_of m r.1 !! Z.to_nat r.2.
Proof. unfold usage, vector_of. destruct (m !! r.1); reflexivity. Qed.

Lemma flag_places b r (m : usages) a : place_of <$> vector_of (flag b r m) a = place_of <$> vector_of m a.
Proof.
  unfold flag, vector_of. rewrite lookup_alter. case_decide as D; [|reflexivity]. subst. destruct (m !! r.1) as [v|]; [|reflexivity]. cbn.
  apply list_eq. intros i. rewrite !list_lookup_fmap, list_lookup_alter. case_decide as E; [|reflexivity]. subst.
  destruct (v !! Z.to_nat r.2); reflexivity.
Qed.

Lemma flags_places b rs : forall (m : usages) a, place_of <$> vector_of (flags b rs m) a = place_of <$> vector_of m a.
Proof. induction rs as [|r rs IH]; intros m a; [reflexivity|]. rewrite flags_cons, IH. apply flag_places. Qed.

Lemma places_back (ps : list (TransactionIndex * Z)) : place_of <$> ((fun p => mk_usage p.1 p.2 false) <$> ps) = ps.
Proof. rewrite <- list_fmap_compose. rewrite <- (list_fmap_id ps) at 2. apply list_fmap_ext. intros i [x y] _. reflexivity. Qed.

Lemma spent_unused l st t : represents st l -> spendable t st -> forall r, r ∈ spent_refs l -> r ∉ ms_refs (inputs t).
Proof.
  intros R S r Hr Ht. pose proof (proj1 (Forall_forall _ _) S r Ht) as (P & u & E & U).
  apply (rep_used _ _ R r u P E) in Hr. congruence.
Qed.

(** The use of the multisignature outputs after a push. *)
Lemma usage_push_all index outs k st r u : usage (m_multisignatureOutputs st) r = Some u ->
  usage (m_multisignatureOutputs (push_all index k outs st).2) r = Some u.
Proof. rewrite !usage_vector, push_all_multi. apply lookup_app_l_Some. Qed.

Lemma usage_push_all_inv index outs k st r u : usage (m_multisignatureOutputs (push_all index k outs st).2) r = Some u ->
  usage (m_multisignatureOutputs st) r = Some u \/ usage (m_multisignatureOutputs st) r = None /\ isUsed u = false.
Proof.
  rewrite !usage_vector, push_all_multi. intros [E|[L E]]%lookup_app_Some; [auto|]. right.
  split; [apply lookup_ge_None, L|]. rewrite list_lookup_fmap in E. destruct (_ !! _); [|discriminate]. injection E as <-. reflexivity.
Qed.

Lemma spent_refs_app l e : spent_refs (l ++ [e]) = spent_refs l ++ ms_refs (inputs (le_tx e)).
Proof. unfold spent_refs. rewrite bind_app. cbn. rewrite app_nil_r. reflexivity. Qed.

Lemma spent_images_app l e : spent_images (l ++ [e]) = spent_images l ++ images (inputs (le_tx e)).
Proof. unfold spent_images. rewrite bind_app. cbn. rewrite app_nil_r. reflexivity. Qed.

Lemma all_places_app key a l e : all_places key a (l ++ [e]) = all_places key a l ++ places key a (le_index e) 0 (outputs (le_tx e)).
Proof. unfold all_places. rewrite bind_app. cbn. rewrite app_nil_r. reflexivity. Qed.

Lemma payments_app l e : list_to_set_disj (payments (l ++ [e])) =@{gmultiset _}
  PaymentIdIndex_add getObjectHash getPaymentId (le_tx e) (list_to_set_disj (payments l)).
Proof.
  unfold payments, PaymentIdIndex_add. rewrite omap_app, list_to_set_disj_app. cbn [omap list_omap].
  destruct (getPaymentId (le_tx e)); cbn [obind list_to_set_disj list_to_set_disj_cons foldr]; rewrite ?list_to_set_disj_cons, ?list_to_set_disj_nil, ?(right_id_L ∅ (⊎)); reflexivity.
Qed.

Section Push.
Context (st : store) (l : ledger) (t : Transaction) (h : bytes) (index : TransactionIndex).
Hypothesis (R : represents st l) (F : acceptable t h st) (S : spendable t st).

Let st' : store := (push_state getObjectHash getPaymentId t h index st).2.
Let e : ledger_entry := mk_entry h t index.

Lemma refs_nonneg : Forall (fun r => 0 <= r.2) (ms_refs (inputs t)).
Proof. eapply Forall_impl; [exact S|]. intros r H. apply H. Qed.

Lemma push_used r u : 0 <= r.2 -> usage (m_multisignatureOutputs st') r = Some u -> (isUsed u = true <-> r ∈ spent_refs (l ++ [e])).
Proof.
  intros P E. rewrite spent_refs_app. cbn [le_tx e]. rewrite elem_of_app. apply usage_push_all_inv in E.
  cbn [m_multisignatureOutputs] in E. rewrite !usage_flags in E by (exact P || exact refs_nonneg). destruct E as [E|[E U]].
  - destruct (decide (r ∈ ms_refs (inputs t))) as [D|D].
    + destruct (usage (m_multisignatureOutputs st) r); [|discriminate]. injection E as <-. cbn. tauto.
    + rewrite (rep_used _ _ R r u P E). tauto.
  - rewrite U. split; [discriminate|]. intros [H|H].
    + destruct (rep_in_range _ _ R r H) as [_ [w Ew]]. rewrite Ew in E. case_decide; discriminate.
    + pose proof (proj1 (Forall_forall _ _) S r H) as (_ & w & Ew & _). rewrite Ew in E. case_decide; discriminate.
Qed.

Lemma push_in_range r : r ∈ spent_refs (l ++ [e]) -> 0 <= r.2 /\ is_Some (usage (m_multisignatureOutputs st') r).
Proof.
  intros H. assert (0 <= r.2 /\ is_Some (usage (m_multisignatureOutputs st) r)) as [P [u E]].
  { rewrite spent_refs_app, elem_of_app in H. destruct H as [H|H]; [apply (rep_in_range _ _ R), H|].
    pose proof (proj1 (Forall_forall _ _) S r H) as (P & u & E & _). eauto. }
  split; [exact P|]. destruct (decide (r ∈ ms_refs (inputs t))) as [D|D].
  - exists (with_use true u). apply usage_push_all. cbn [m_multisignatureOutputs].
    rewrite usage_flags, decide_True by (assumption || exact refs_nonneg). rewrite E. reflexivity.
  - exists u. apply usage_push_all. cbn [m_multisignatureOutputs].
    rewrite usage_flags, decide_False by (assumption || exact refs_nonneg). exact E.
Qed.

Lemma push_represents : represents st' (l ++ [e]).
Proof.
  destruct F as [Fh Fr Fi Fk]. destruct (push_all_frame index (outputs t) 0
    (mk_store (<[h := index]> (m_transactionMap st)) (list_to_set (images (inputs t)) ∪ m_spent_keys st) (m_outputs st)
       (flags true (ms_refs (inputs t)) (m_multisignatureOutputs st)) (PaymentIdIndex_add getObjectHash getPaymentId t (m_paymentIdIndex st))))
    as (Em & Ek & Ep). assert (forall x, x ∈ l -> le_hash x <> h) as Nh.
  { intros x Hx <-. assert (m_transactionMap st !! le_hash x = Some (le_index x)) as E by (apply (rep_map _ _ R); eauto). congruence. }
  split.
  - apply push_state_tables, (rep_tables _ _ R).
  - rewrite fmap_app. apply NoDup_app. split; [apply (rep_hashes _ _ R)|]. split; [|apply NoDup_singleton].
    intros x (y & -> & Hy)%list_elem_of_fmap E%list_elem_of_singleton. exact (Nh y Hy E).
  - intros h' i. unfold st', push_state. rewrite Em. cbn [m_transactionMap]. rewrite lookup_insert. case_decide as D.
    + subst h'. split; [intros [= <-]; exists e; rewrite elem_of_app, list_elem_of_singleton; auto|].
      intros (x & [Hx| ->%list_elem_of_singleton]%elem_of_app & E & I); [destruct (Nh x Hx E)|]. cbn in I. congruence.
    + rewrite (rep_map _ _ R). split.
      * intros (x & Hx & E). exists x. rewrite elem_of_app. auto.
      * intros (x & [Hx| ->%list_elem_of_singleton]%elem_of_app & E & I); [eauto|]. cbn in E. congruence.
  - rewrite spent_images_app. apply NoDup_app. split; [apply (rep_images _ _ R)|]. split; [|exact Fi].
    intros x Hx Ht. apply (Fk x Ht). rewrite (rep_keys _ _ R). apply elem_of_list_to_set, Hx.
  - unfold st', push_state. rewrite Ek. cbn [m_spent_keys]. rewrite (rep_keys _ _ R), spent_images_app, list_to_set_app_L. cbn [le_tx e]. set_solver.
  - intros a. unfold st', push_state. rewrite push_all_outputs, all_places_app. cbn [m_outputs]. rewrite (rep_outputs _ _ R). reflexivity.
  - intros a. unfold st', push_state. rewrite push_all_multi, fmap_app, places_back, all_places_app. cbn [m_multisignatureOutputs].
    rewrite flags_places, (rep_multi _ _ R). reflexivity.
  - rewrite spent_refs_app. apply NoDup_app. split; [apply (rep_refs _ _ R)|]. split; [|exact Fr]. exact (spent_unused l st t R S).
  - exact push_used.
  - exact push_in_range.
  - unfold st', push_state. rewrite Ep, payments_app. cbn [m_paymentIdIndex le_tx e]. rewrite (rep_payments _ _ R). reflexivity.
Qed.
End Push.

(** ** Histories

    The states that pushes and pops lead to, each with the ledger of the
    transactions pushed and not popped since.  The outputs that the multisignature
    inputs of a pushed transaction refer to are free, which [checkTransactionInputs]
    has found before. *)
Inductive history : store -> ledger -> Prop :=
| history_start : history empty_store []
| history_push st l block h index e block' st' : history st l ->
    transactions block !! Z.to_nat (ti_transaction index) = Some e -> spendable (tx e) st ->
    Z.of_nat (length (outputs (tx e))) < 2 ^ 16 ->
    pushTransaction getObjectHash getPaymentId block h index st = Some (true, block', st') ->
    history st' (l ++ [mk_entry h (tx e) index])
| history_refused st l block h index block' st' : history st l ->
    pushTransaction getObjectHash getPaymentId block h index st = Some (false, block', st') ->
    history st' l
| history_pop st l e st' : history st (l ++ [e]) ->
    popTransaction getObjectHash getPaymentId (le_tx e) (le_hash e) st = Some st' ->
    history st' l.

(** The states that pushes alone lead to. *)
Inductive built : store -> ledger -> Prop :=
| built_start : built empty_store []
| built_push st l t h index : built st l -> acceptable t h st -> spendable t st ->
    built (push_state getObjectHash getPaymentId t h index st).2 (l ++ [mk_entry h t index]).

Lemma built_represents st l : built st l -> represents st l.
Proof. induction 1 as [|st l t h index B R F S]; [exact represents_empty|]. apply push_represents; assumption. Qed.

Lemma built_last st l e : built st (l ++ [e]) -> exists st0, built st0 l /\ acceptable (le_tx e) (le_hash e) st0 /\
  spendable (le_tx e) st0 /\ st = (push_state getObjectHash getPaymentId (le_tx e) (le_hash e) (le_index e) st0).2.
Proof.
  intros B. inversion B as [|st0 l0 t h index B0 F S E1 E2]; [destruct l; discriminate|].
  apply app_inj_tail in E2 as [-> <-]. exists st0. auto.
Qed.

Lemma built_pop st l e : built st (l ++ [e]) ->
  exists st0, popTransaction getObjectHash getPaymentId (le_tx e) (le_hash e) st = Some st0 /\ built st0 l.
Proof.
  intros (st0 & B & F & S & ->)%built_last. exists st0. split; [|exact B].
  apply pop_push_state; [apply (rep_tables _ _ (built_represents _ _ B))|assumption..].
Qed.

Lemma history_built st l : history st l -> built st l.
Proof.
  induction 1 as [|st l block h index e block' st' H IH E S L P|st l block h index block' st' H IH P|st l e st' H IH P].
  - constructor.
  - destruct (pushTransaction_true _ _ _ _ _ _ _ _ P) as (e' & E' & F). rewrite E in E'. injection E' as <-.
    rewrite (pushTransaction_accepts _ _ _ _ _ _ e E F S L) in P. injection P as <- <-. apply built_push; assumption.
  - apply pushTransaction_false in P as [_ ->]. exact IH.
  - destruct (built_pop _ _ _ IH) as (st0 & P0 & B). rewrite P in P0. injection P0 as <-. exact B.
Qed.

(** ** Global indexes *)

(** The global indexes a push returns lead to the outputs. *)
Definition found_at (index : TransactionIndex) (k : Z) (o : TransactionOutput) (g : Z) (st : store) : Prop :=
  (if is_key_output o then vector_of (m_outputs st) (out_amount o)
   else place_of <$> vector_of (m_multisignatureOutputs st) (out_amount o)) !! Z.to_nat g = Some (index, k).

Lemma found_push_all index k o g outs index' k' st : found_at index k o g st -> found_at index k o g (push_all index' k' outs st).2.
Proof.
  unfold found_at. destruct (is_key_output o).
  - rewrite push_all_outputs. apply lookup_app_l_Some.
  - rewrite push_all_multi, fmap_app. apply lookup_app_l_Some.
Qed.

Lemma found_push_output index k o st : Z.of_nat (length (vector_of (m_outputs st) (out_amount o))) < 2 ^ 32 ->
  Z.of_nat (length (vector_of (m_multisignatureOutputs st) (out_amount o))) < 2 ^ 32 ->
  found_at index k o (push_output index k o st).1 (push_output index k o st).2.
Proof.
  intros L1 L2. unfold found_at, push_output, is_key_output. destruct (target o); cbn [fst snd m_outputs m_multisignatureOutputs];
    rewrite vector_insert, decide_True, u32_small, Nat2Z.id by (reflexivity || lia).
  - rewrite lookup_app_r, Nat.sub_diag by lia. reflexivity.
  - rewrite fmap_app, lookup_app_r, length_fmap, Nat.sub_diag by (rewrite ?length_fmap; lia). reflexivity.
Qed.

Lemma push_all_found index outs : forall k st,
  (forall a, Z.of_nat (length (vector_of (m_outputs st) a) + length outs) <= 2 ^ 32) ->
  (forall a, Z.of_nat (length (vector_of (m_multisignatureOutputs st) a) + length outs) <= 2 ^ 32) ->
  forall i o, outs !! i = Some o -> exists g, (push_all index k outs st).1 !! i = Some g /\
    found_at index (k + Z.of_nat i) o g (push_all index k outs st).2.
Proof.
  induction outs as [|o' outs IH]; intros k st L1 L2 i o E; [discriminate|]. cbn [push_all].
  pose proof (found_push_output index k o' st) as F.
  assert (forall a, Z.of_nat (length (vector_of (m_outputs (push_output index k o' st).2) a) + length outs) <= 2 ^ 32) as L1'.
  { intros a. specialize (L1 a). cbn [length] in L1. unfold push_output. destruct (target o'); cbn [snd m_outputs]; [|lia].
    rewrite vector_insert. case_decide as D; [subst; rewrite length_app; cbn [length]; lia|lia]. }
  assert (forall a, Z.of_nat (length (vector_of (m_multisignatureOutputs (push_output index k o' st).2) a) + length outs) <= 2 ^ 32) as L2'.
  { intros a. specialize (L2 a). cbn [length] in L2. unfold push_output. destruct (target o'); cbn [snd m_multisignatureOutputs]; [lia|].
    rewrite vector_insert. case_decide as D; [subst; rewrite length_app; cbn [length]; lia|lia]. }
  specialize (L1 (out_amount o')). specialize (L2 (out_amount o')). cbn [length] in L1, L2. specialize (F ltac:(lia) ltac:(lia)).
  destruct (push_output index k o' st) as [g st1]. cbn [fst snd] in *. specialize (IH (k + 1) st1 L1' L2').
  destruct i as [|i]; cbn in E.
  - injection E as ->. exists g. apply (found_push_all index k o g outs index (k + 1)) in F.
    destruct (push_all index (k + 1) outs st1) as [gs st2]. rewrite Z.add_0_r. auto.
  - destruct (IH i o E) as (g' & Eg & Fg). exists g'. destruct (push_all index (k + 1) outs st1) as [gs st2]. split; [exact Eg|].
    replace (k + Z.of_nat (S i)) with (k + 1 + Z.of_nat i) by lia. exact Fg.
Qed.
End Ledger.
