(* ===== verification/BlockchainIndices.v ===== *)
(** * Secondary indices over the blocks (CryptoNoteCore/BlockchainIndices.cpp)

    Blocks by timestamp, the number of transactions up to each height, and the
    alternative blocks by height.  [std::multimap] is the list of its pairs in the
    order of iteration: increasing keys, equal keys in the order of insertion.  An
    unordered multimap is a multiset of pairs. *)

From Stdlib Require Import ZArith Lia List Bool Sorted.
From S2P Require Import Prelude Bytes IntUtil Currency TxStore.
From stdpp Require Import gmap gmultiset list.
Import ListNotations.
Open Scope Z_scope.
Open Scope cmon_scope.
Set Default Goal Selector "!".

(** [boost::get<BaseInput>(block.baseTransaction.inputs.front()).blockIndex] *)
Definition base_index (b : Block) : option Z :=
  match inputs (baseTransaction b) with BaseInput blockIndex :: _ => Some blockIndex | _ => None end.

(** ** Blocks by timestamp *)

Abbreviation timestamps := (list (Z * bytes)).

Fixpoint ts_add (timestamp : Z) (hash : bytes) (index : timestamps) : timestamps :=
  match index with
  | [] => [(timestamp, hash)]
  | (k, h) :: rest => if timestamp <? k then (timestamp, hash) :: (k, h) :: rest else (k, h) :: ts_add timestamp hash rest
  end.

(** The first pair of the equal range with the hash is erased; no pair outside of the range has the key. *)
Fixpoint ts_remove (timestamp : Z) (hash : bytes) (index : timestamps) : bool * timestamps :=
  match index with
  | [] => (false, [])
  | (k, h) :: rest =>
      if (k =? timestamp) && bool_decide (h = hash) then (true, rest)
      else let '(r, rest) := ts_remove timestamp hash rest in (r, (k, h) :: rest)
  end.

Fixpoint ts_lower_bound (timestamp : Z) (index : timestamps) : nat :=
  match index with [] => O | (k, _) :: rest => if k <? timestamp then S (ts_lower_bound timestamp rest) else O end.

Fixpoint ts_upper_bound (timestamp : Z) (index : timestamps) : nat :=
  match index with [] => O | (k, _) :: rest => if timestamp <? k then O else S (ts_upper_bound timestamp rest) end.

(** The hashes appended, their number within the interval, and the result; [None] when the interval
    is refused before the outputs are written. *)
Definition ts_find (timestampBegin timestampEnd hashesNumberLimit : Z) (index : timestamps)
    : option (list bytes * Z * bool) :=
  if timestampEnd <? timestampBegin then None else
  let begin := ts_lower_bound timestampBegin index in
  let end_ := ts_upper_bound timestampEnd index in
  let range := take (end_ - begin) (drop begin index) in
  let hashes := snd <$> take (Z.to_nat hashesNumberLimit) range in
  Some (hashes, u32 (Z.of_nat (length range)), negb (Nat.eqb (length hashes) 0)).

(** ** Numbers of transactions *)

Record GeneratedTransactionsIndex := mk_generated { gen_index : gmap Z Z; lastGeneratedTxNumber : Z }.

Definition gen_empty : GeneratedTransactionsIndex := mk_generated ∅ 0.

Definition gen_add (block : Block) (g : GeneratedTransactionsIndex) : option (bool * GeneratedTransactionsIndex) :=
  blockHeight <- base_index block ;;
  if negb (Z.of_nat (size (gen_index g)) =? blockHeight) then Some (false, g) else
  match gen_index g !! blockHeight with
  | Some _ => Some (false, g)
  | None =>
      let n := u64 (lastGeneratedTxNumber g + Z.of_nat (length (transactionHashes block)) + 1) in
      Some (true, mk_generated (<[blockHeight := n]> (gen_index g)) n)
  end.

Definition gen_remove (block : Block) (g : GeneratedTransactionsIndex) : option (bool * GeneratedTransactionsIndex) :=
  blockHeight <- base_index block ;;
  if negb (blockHeight =? u64 (Z.of_nat (size (gen_index g)) - 1)) then Some (false, g) else
  _ <- gen_index g !! blockHeight ;;
  let index := delete blockHeight (gen_index g) in
  if negb (blockHeight =? 0) then
    n <- index !! (blockHeight - 1) ;; Some (true, mk_generated index n)
  else Some (true, mk_generated index 0).

Definition gen_find (height : Z) (g : GeneratedTransactionsIndex) : option Z := gen_index g !! height.

(** The counter is left as it is. *)
Definition gen_clear (g : GeneratedTransactionsIndex) : GeneratedTransactionsIndex := mk_generated ∅ (lastGeneratedTxNumber g).

(** ** Alternative blocks *)

Section Orphans.
Variable get_block_hash : Block -> bytes.

Definition orphan_add (block : Block) (index : gmultiset (Z * bytes)) : option (gmultiset (Z * bytes)) :=
  blockHeight <- base_index block ;; Some (index ⊎ {[+ (blockHeight, get_block_hash block) +]}).

Definition orphan_remove (block : Block) (index : gmultiset (Z * bytes)) : option (bool * gmultiset (Z * bytes)) :=
  blockHeight <- base_index block ;;
  let p := (blockHeight, get_block_hash block) in
  Some (bool_decide (p ∈ index), index ∖ {[+ p +]}).

Definition orphan_find (height : Z) (index : gmultiset (Z * bytes)) : list bytes :=
  snd <$> filter (fun p => p.1 = height) (elements index).
End Orphans.

(** ** Correctness: timestamps *)

Definition ts_ok (index : timestamps) : Prop := StronglySorted (fun a b => a.1 <= b.1) index.

Lemma ts_add_permutation t h index : ts_add t h index ≡ₚ (t, h) :: index.
Proof.
  induction index as [|[k x] index IH]; cbn; [reflexivity|]. destruct (t <? k); [reflexivity|]. rewrite IH. apply Permutation_swap.
Qed.

Lemma ts_add_ok t h index : ts_ok index -> ts_ok (ts_add t h index).
Proof.
  unfold ts_ok. induction 1 as [|[k x] index O IH F]; cbn; [repeat constructor|].
  destruct (Z.ltb_spec t k).
  - constructor; [constructor; assumption|]. constructor; [cbn; lia|]. eapply Forall_impl; [exact F|]. cbn. intros p ?. lia.
  - constructor; [exact IH|]. rewrite ts_add_permutation. constructor; [cbn; lia|exact F].
Qed.

(** Removing undoes adding a pair that was not there. *)
Lemma ts_remove_add t h index : (t, h) ∉ index -> ts_remove t h (ts_add t h index) = (true, index).
Proof.
  induction index as [|[k x] index IH]; intros N.
  - cbn. rewrite Z.eqb_refl, bool_decide_true by reflexivity. reflexivity.
  - apply not_elem_of_cons in N as [N1 N2]. cbn. destruct (t <? k); cbn.
    + rewrite Z.eqb_refl, bool_decide_true by reflexivity. reflexivity.
    + replace ((k =? t) && bool_decide (x = h)) with false; [rewrite IH by exact N2; reflexivity|].
      destruct (Z.eqb_spec k t) as [->|]; [|reflexivity]. rewrite bool_decide_false; [reflexivity|]. congruence.
Qed.

Lemma ts_lower_spec t index : ts_ok index ->
  Forall (fun p => p.1 < t) (take (ts_lower_bound t index) index) /\ Forall (fun p => t <= p.1) (drop (ts_lower_bound t index) index).
Proof.
  induction 1 as [|[k x] index O IH F]; cbn; [auto|]. destruct (Z.ltb_spec k t); cbn; [split; [constructor; [assumption|]|]; apply IH|].
  split; [constructor|]. constructor; [assumption|]. eapply Forall_impl; [exact F|]. cbn. intros p ?. lia.
Qed.

Lemma ts_upper_spec t index : ts_ok index ->
  Forall (fun p => p.1 <= t) (take (ts_upper_bound t index) index) /\ Forall (fun p => t < p.1) (drop (ts_upper_bound t index) index).
Proof.
  induction 1 as [|[k x] index O IH F]; cbn; [auto|]. destruct (Z.ltb_spec t k); cbn.
  - split; [constructor|]. constructor; [assumption|]. eapply Forall_impl; [exact F|]. cbn. intros p ?. lia.
  - split; [constructor; [assumption|]|]; apply IH.
Qed.

Lemma filter_all {A} (P : A -> Prop) `{forall x, Decision (P x)} (l : list A) : Forall P l -> filter P l = l.
Proof. induction 1 as [|x l Hx _ IH]; [reflexivity|]. rewrite filter_cons_True, IH by exact Hx. reflexivity. Qed.

Lemma filter_none {A} (P : A -> Prop) `{forall x, Decision (P x)} (l : list A) : Forall (fun x => ~ P x) l -> filter P l = [].
Proof. induction 1 as [|x l Hx _ IH]; [reflexivity|]. rewrite filter_cons_False, IH by exact Hx. reflexivity. Qed.

Lemma ts_bounds_le b e index : ts_ok index -> b <= e -> (ts_lower_bound b index <= ts_upper_bound e index)%nat.
Proof.
  intros O H. induction O as [|[k x] index O IH F]; cbn; [lia|]. destruct (Z.ltb_spec k b), (Z.ltb_spec e k); lia.
Qed.

(** The range between the bounds is what lies within the interval. *)
Lemma ts_range b e index : ts_ok index -> b <= e ->
  take (ts_upper_bound e index - ts_lower_bound b index) (drop (ts_lower_bound b index) index) =
  filter (fun p => b <= p.1 <= e) index.
Proof.
  intros O H. pose proof (ts_bounds_le b e index O H) as L.
  destruct (ts_lower_spec b index O) as [L1 L2], (ts_upper_spec e index O) as [U1 U2].
  assert (take (ts_upper_bound e index - ts_lower_bound b index) (drop (ts_lower_bound b index) index) =
    drop (ts_lower_bound b index) (take (ts_upper_bound e index) index)) as E by (rewrite take_drop_commute; do 2 f_equal; lia).
  set (lo := ts_lower_bound b index) in *. set (up := ts_upper_bound e index) in *.
  rewrite <- (take_drop lo index) at 2. rewrite filter_app.
  rewrite (filter_none _ (take lo index)) by (eapply Forall_impl; [exact L1|]; cbn; intros; lia). cbn [app].
  rewrite <- (take_drop (up - lo) (drop lo index)) at 2. rewrite filter_app, drop_drop.
  replace (lo + (up - lo))%nat with up by lia.
  rewrite (filter_none _ (drop up index)) by (eapply Forall_impl; [exact U2|]; cbn; intros; lia). rewrite app_nil_r.
  symmetry. apply filter_all, Forall_forall. intros p Hp. rewrite Forall_forall in L2, U1. split.
  - apply L2. eapply subseteq_take, Hp.
  - apply U1. rewrite E in Hp. eapply subseteq_drop, Hp.
Qed.

Lemma ts_find_ok b e limit index : ts_ok index -> b <= e ->
  ts_find b e limit index =
    Some (snd <$> take (Z.to_nat limit) (filter (fun p => b <= p.1 <= e) index),
          u32 (Z.of_nat (length (filter (fun p => b <= p.1 <= e) index))),
          negb (Nat.eqb (length (take (Z.to_nat limit) (filter (fun p => b <= p.1 <= e) index))) 0)).
Proof.
  intros O H. unfold ts_find. replace (e <? b) with false by (symmetry; apply Z.ltb_ge, H).
  rewrite ts_range, length_fmap by assumption. reflexivity.
Qed.

(** ** Correctness: numbers of transactions

    The index of a chain whose blocks have [cs] transactions each. *)

Record counts (g : GeneratedTransactionsIndex) (cs : list Z) : Prop := {
  cnt_size : size (gen_index g) = length cs;
  cnt_index : forall h, gen_index g !! h =
    if decide (0 <= h < Z.of_nat (length cs)) then Some (sumZ (take (S (Z.to_nat h)) cs)) else None;
  cnt_last : lastGeneratedTxNumber g = sumZ cs
}.

Lemma counts_empty : counts gen_empty [].
Proof. split; [reflexivity| |reflexivity]. intros h. cbn [gen_empty gen_index]. rewrite lookup_empty, decide_False by (cbn; lia). reflexivity. Qed.

Lemma sumZ_snoc cs c : sumZ (cs ++ [c]) = sumZ cs + c.
Proof. rewrite sumZ_app. cbn. lia. Qed.

Definition tx_count (b : Block) : Z := Z.of_nat (length (transactionHashes b)) + 1.

Section Counts.
Context (g : GeneratedTransactionsIndex) (cs : list Z) (b : Block).
Hypothesis (C : counts g cs) (H : base_index b = Some (Z.of_nat (length cs))).
Hypothesis (B : 0 <= sumZ cs + tx_count b < 2 ^ 64) (L : Z.of_nat (length cs) < 2 ^ 64 - 1).

Let g' : GeneratedTransactionsIndex :=
  mk_generated (<[Z.of_nat (length cs) := sumZ (cs ++ [tx_count b])]> (gen_index g)) (sumZ (cs ++ [tx_count b])).

Lemma gen_fresh : gen_index g !! Z.of_nat (length cs) = None.
Proof. rewrite (cnt_index _ _ C), decide_False by lia. reflexivity. Qed.

Lemma gen_add_ok : gen_add b g = Some (true, g').
Proof.
  unfold gen_add. rewrite H. cbn [obind]. rewrite (cnt_size _ _ C), Z.eqb_refl, gen_fresh. cbn [negb].
  rewrite (cnt_last _ _ C), <- Z.add_assoc. fold (tx_count b). rewrite u64_small, <- sumZ_snoc by exact B. reflexivity.
Qed.

Lemma gen_add_counts : counts g' (cs ++ [tx_count b]).
Proof.
  split; cbn [g' gen_index lastGeneratedTxNumber].
  - rewrite map_size_insert_None, (cnt_size _ _ C), length_app by exact gen_fresh. cbn. lia.
  - intros h. rewrite lookup_insert, length_app. cbn [length]. case_decide as D.
    + subst h. rewrite decide_True by lia. rewrite Nat2Z.id, take_ge by (rewrite length_app; cbn; lia). reflexivity.
    + rewrite (cnt_index _ _ C). destruct (decide (0 <= h < Z.of_nat (length cs))) as [I|I].
      * rewrite decide_True, take_app_le by lia. reflexivity.
      * rewrite decide_False by lia. reflexivity.
  - reflexivity.
Qed.

Lemma gen_remove_add : gen_remove b g' = Some (true, g).
Proof.
  unfold gen_remove. rewrite H. cbn [obind g' gen_index]. rewrite map_size_insert_None, (cnt_size _ _ C) by exact gen_fresh.
  replace (u64 (Z.of_nat (S (length cs)) - 1)) with (Z.of_nat (length cs)) by (rewrite u64_small; lia).
  rewrite Z.eqb_refl, lookup_insert_eq, delete_insert_id by exact gen_fresh. cbn [negb obind].
  pose proof (cnt_last _ _ C) as E. destruct (Z.eqb_spec (Z.of_nat (length cs)) 0) as [Z0|N]; cbn [negb].
  - destruct cs; [|cbn in Z0; lia]. cbn in E. destruct g as [ix n]. cbn in *. congruence.
  - rewrite (cnt_index _ _ C), decide_True by lia. cbn [obind].
    rewrite take_ge by lia. destruct g as [ix n]. cbn in *. congruence.
Qed.
End Counts.

(** Clearing the index keeps the counter, so that the numbers found afterwards start from it. *)
Lemma gen_clear_stale g b : base_index b = Some 0 -> 0 <= lastGeneratedTxNumber g + tx_count b < 2 ^ 64 ->
  exists g', gen_add b (gen_clear g) = Some (true, g') /\ gen_find 0 g' = Some (lastGeneratedTxNumber g + tx_count b).
Proof.
  intros H B. unfold gen_add, gen_clear. rewrite H. cbn [obind gen_index lastGeneratedTxNumber]. rewrite map_size_empty, lookup_empty.
  cbn [Z.of_nat Z.eqb negb]. eexists. split; [reflexivity|]. unfold gen_find. cbn [gen_index]. rewrite lookup_insert_eq.
  rewrite <- Z.add_assoc. fold (tx_count b). rewrite u64_small by exact B. reflexivity.
Qed.

(** ** Correctness: alternative blocks *)

Lemma orphan_remove_add get_block_hash b index index' : orphan_add get_block_hash b index = Some index' ->
  orphan_remove get_block_hash b index' = Some (true, index).
Proof.
  unfold orphan_add, orphan_remove. destruct (base_index b) as [h|]; cbn [obind]; [|discriminate]. intros [= <-].
  rewrite bool_decide_true by multiset_solver. do 2 f_equal. multiset_solver.
Qed.

(** Removing, in general. *)
Lemma ts_remove_perm t h index : (t, h) ∈ index ->
  exists index', ts_remove t h index = (true, index') /\ index ≡ₚ (t, h) :: index' /\ (ts_ok index -> ts_ok index').
Proof.
  induction index as [|[k x] index IH]; intros Hin; [inversion Hin|]. cbn [ts_remove].
  destruct ((k =? t) && bool_decide (x = h)) eqn:E.
  - apply andb_true_iff in E as [->%Z.eqb_eq ->%bool_decide_eq_true]. exists index. split; [reflexivity|]. split; [reflexivity|].
    intros O. apply StronglySorted_inv in O. tauto.
  - assert ((t, h) ∈ index) as Hin'.
    { apply elem_of_cons in Hin as [[= -> ->]|Hin]; [|exact Hin]. rewrite Z.eqb_refl, bool_decide_true in E by reflexivity. discriminate. }
    destruct (IH Hin') as (index' & -> & P & O). exists ((k, x) :: index'). split; [reflexivity|]. split; [rewrite P; apply Permutation_swap|].
    intros Ok. apply StronglySorted_inv in Ok as [Ok F]. constructor; [apply O, Ok|]. rewrite P in F. apply Forall_cons in F. tauto.
Qed.

Lemma gen_remove_counts g cs b : counts g (cs ++ [tx_count b]) -> base_index b = Some (Z.of_nat (length cs)) ->
  Z.of_nat (length cs) < 2 ^ 64 -> exists g', gen_remove b g = Some (true, g') /\ counts g' cs.
Proof.
  intros [S X T] H L. unfold gen_remove. rewrite H. cbn [obind]. rewrite S, length_app. cbn [length].
  replace (u64 (Z.of_nat (length cs + 1) - 1)) with (Z.of_nat (length cs)) by (rewrite u64_small; lia). rewrite Z.eqb_refl. cbn [negb].
  rewrite length_app in X. cbn [length] in X. pose proof (X (Z.of_nat (length cs))) as X0. rewrite decide_True in X0 by lia. rewrite X0. cbn [obind].
  assert (forall n, n = sumZ cs -> counts (mk_generated (delete (Z.of_nat (length cs)) (gen_index g)) n) cs) as C.
  { intros n ->. split; cbn [gen_index lastGeneratedTxNumber]; [|intros h|reflexivity].
    - rewrite map_size_delete_Some, S, length_app by eauto. cbn [length]. lia.
    - rewrite lookup_delete. case_decide as D; [subst h; rewrite decide_False by lia; reflexivity|]. rewrite X.
      destruct (decide (0 <= h < Z.of_nat (length cs))); [rewrite decide_True, take_app_le by lia; reflexivity|rewrite decide_False by lia; reflexivity]. }
  destruct (Z.eqb_spec (Z.of_nat (length cs)) 0) as [Z0|N]; cbn [negb].
  - eexists. split; [reflexivity|]. apply C. destruct cs; [reflexivity|cbn in Z0; lia].
  - rewrite lookup_delete_ne, X, decide_True by lia. cbn [obind]. eexists. split; [reflexivity|]. apply C.
    rewrite take_app_le, take_ge by lia. reflexivity.
Qed.
