(* ===== verification/UpgradeDetector.v ===== *)
(** * The upgrade detector (CryptoNoteCore/UpgradeDetector.h)

    Blocks vote for the next major version by their minor version; when enough of
    a window of blocks do, the upgrade happens a fixed number of blocks later.  The
    detector keeps the height at which the voting was completed and is told of
    every block pushed and popped.  [None] is a failed assertion or an access out
    of the range of the chain. *)

From Stdlib Require Import ZArith Lia List Bool.
From S2P Require Import Prelude Bytes IntUtil Currency TxStore.
From stdpp Require Import gmap list.
Import ListNotations.
Open Scope Z_scope.
Open Scope cmon_scope.
Set Default Goal Selector "!".

Definition UNDEF_HEIGHT : Z := 2 ^ 64 - 1.
Definition BLOCK_MAJOR_VERSION_1 : Z := 1.
Definition BLOCK_MAJOR_VERSION_2 : Z := 2.
Definition BLOCK_MINOR_VERSION_1 : Z := 1.

Abbreviation blocks := (list BlockEntry).

(** [m_blockchain.size()] *)
Definition chain_height (chain : blocks) : Z := Z.of_nat (length chain).

Section Detector.
Variable cur : currency.
Variable m_targetVersion : Z.

(** ** The code *)

Definition calculateUpgradeHeight (voteCompleteHeight : Z) : Z := u64 (voteCompleteHeight + m_upgradeWindow cur).
Definition maxUpgradeDistance : Z := m_upgradeWindow cur.

(** [m_blockchain.back()] and [m_blockchain[i]] *)
Definition version_at (chain : blocks) (i : Z) : option Z := e <- chain !! Z.to_nat i ;; Some (majorVersion (bl e)).
Definition back_version (chain : blocks) : option Z := e <- last chain ;; Some (majorVersion (bl e)).

(** The votes among the [n] blocks from height [i] on. *)
Fixpoint voteCounter (chain : blocks) (i : Z) (n : nat) (count : Z) : option Z :=
  match n with
  | O => Some count
  | S n =>
      e <- chain !! Z.to_nat i ;;
      let vote := (majorVersion (bl e) =? m_targetVersion - 1) && (minorVersion (bl e) =? BLOCK_MINOR_VERSION_1) in
      voteCounter chain (i + 1) n (if vote then u32 (count + 1) else count)
  end.

Definition isVotingComplete (chain : blocks) (height : Z) : option bool :=
  _ <- c_assert (m_upgradeHeight cur =? UNDEF_HEIGHT) ;;
  _ <- c_assert (1 <? m_upgradeVotingWindow cur) ;;
  _ <- c_assert ((0 <? m_upgradeVotingThreshold cur) && (m_upgradeVotingThreshold cur <=? 100)) ;;
  if height <? m_upgradeVotingWindow cur - 1 then Some false else
  votes <- voteCounter chain (height + 1 - m_upgradeVotingWindow cur) (Z.to_nat (m_upgradeVotingWindow cur)) 0 ;;
  Some (u64 (m_upgradeVotingThreshold cur * m_upgradeVotingWindow cur) <=? u32 (100 * votes)).

(** [for (i = i; i <= probableUpgradeHeight; ++i)], with [n] heights left. *)
Fixpoint find_voting (chain : blocks) (i : Z) (n : nat) : option Z :=
  match n with
  | O => Some UNDEF_HEIGHT
  | S n => c <- isVotingComplete chain i ;; if c : bool then Some i else find_voting chain (i + 1) n
  end.

Definition findVotingCompleteHeight (chain : blocks) (probableUpgradeHeight : Z) : option Z :=
  _ <- c_assert (m_upgradeHeight cur =? UNDEF_HEIGHT) ;;
  let probableVotingCompleteHeight :=
    if maxUpgradeDistance <? probableUpgradeHeight then probableUpgradeHeight - maxUpgradeDistance else 0 in
  find_voting chain probableVotingCompleteHeight (Z.to_nat (probableUpgradeHeight - probableVotingCompleteHeight + 1)).

(** [std::lower_bound] by the major version, on a chain whose versions increase: the first block
    whose version is not below the target. *)
Fixpoint version_lower_bound (chain : blocks) : nat :=
  match chain with
  | [] => O
  | e :: chain => if majorVersion (bl e) <? m_targetVersion then S (version_lower_bound chain) else O
  end.

Definition upgradeHeight (m_votingCompleteHeight : Z) : Z :=
  if m_upgradeHeight cur =? UNDEF_HEIGHT then
    if m_votingCompleteHeight =? UNDEF_HEIGHT then UNDEF_HEIGHT else calculateUpgradeHeight m_votingCompleteHeight
  else m_upgradeHeight cur.

(** The result and the new [m_votingCompleteHeight]. *)
Definition init (chain : blocks) (m_votingCompleteHeight : Z) : option (bool * Z) :=
  if m_upgradeHeight cur =? UNDEF_HEIGHT then
    match last chain with
    | None => Some (true, UNDEF_HEIGHT)
    | Some e =>
        if m_targetVersion - 1 =? majorVersion (bl e) then
          h <- findVotingCompleteHeight chain (chain_height chain - 1) ;; Some (true, h)
        else if m_targetVersion <=? majorVersion (bl e) then
          let it := version_lower_bound chain in
          match chain !! it with
          | None => Some (false, m_votingCompleteHeight)
          | Some e =>
              if negb (majorVersion (bl e) =? m_targetVersion) then Some (false, m_votingCompleteHeight) else
              h <- findVotingCompleteHeight chain (Z.of_nat it) ;;
              if h =? UNDEF_HEIGHT then Some (false, h) else Some (true, h)
          end
        else Some (true, UNDEF_HEIGHT)
    end
  else
    match last chain with
    | None => Some (true, m_votingCompleteHeight)
    | Some e =>
        if chain_height chain <=? u64 (m_upgradeHeight cur + 1) then
          Some (majorVersion (bl e) =? m_targetVersion - 1, m_votingCompleteHeight)
        else
          v <- version_at chain (m_upgradeHeight cur) ;;
          if negb (v =? m_targetVersion - 1) then Some (false, m_votingCompleteHeight) else
          v' <- version_at chain (m_upgradeHeight cur + 1) ;;
          Some (v' =? m_targetVersion, m_votingCompleteHeight)
    end.

Definition blockPushed (chain : blocks) (m_votingCompleteHeight : Z) : option Z :=
  _ <- c_assert (negb (chain_height chain =? 0)) ;;
  v <- back_version chain ;;
  if negb (m_upgradeHeight cur =? UNDEF_HEIGHT) then
    if chain_height chain <=? u64 (m_upgradeHeight cur + 1) then
      _ <- c_assert (v =? m_targetVersion - 1) ;; Some m_votingCompleteHeight
    else
      _ <- c_assert (v =? m_targetVersion) ;; Some m_votingCompleteHeight
  else if negb (m_votingCompleteHeight =? UNDEF_HEIGHT) then
    _ <- c_assert (m_votingCompleteHeight <? chain_height chain) ;;
    if chain_height chain <=? upgradeHeight m_votingCompleteHeight then
      _ <- c_assert (v =? m_targetVersion - 1) ;;
      (* the division of the size for the log *)
      _ <- c_assert (negb (60 * 60 / m_difficultyTarget cur =? 0)) ;;
      Some m_votingCompleteHeight
    else if chain_height chain =? u64 (upgradeHeight m_votingCompleteHeight + 1) then
      _ <- c_assert (v =? m_targetVersion - 1) ;; Some m_votingCompleteHeight
    else
      _ <- c_assert (v =? m_targetVersion) ;; Some m_votingCompleteHeight
  else
    let lastBlockHeight := chain_height chain - 1 in
    c <- isVotingComplete chain lastBlockHeight ;;
    Some (if c : bool then lastBlockHeight else m_votingCompleteHeight).

Definition blockPopped (chain : blocks) (m_votingCompleteHeight : Z) : option Z :=
  if negb (m_votingCompleteHeight =? UNDEF_HEIGHT) then
    _ <- c_assert (m_upgradeHeight cur =? UNDEF_HEIGHT) ;;
    if chain_height chain =? m_votingCompleteHeight then Some UNDEF_HEIGHT
    else _ <- c_assert (m_votingCompleteHeight <? chain_height chain) ;; Some m_votingCompleteHeight
  else Some m_votingCompleteHeight.

(** Blockchain.cpp *)
Definition get_block_major_version_for_height (m_votingCompleteHeight height : Z) : Z :=
  if upgradeHeight m_votingCompleteHeight <? height then m_targetVersion else BLOCK_MAJOR_VERSION_1.
End Detector.

(** ** Correctness of the voting *)

Record voting_ok (cur : currency) : Prop := {
  vo_voting : m_upgradeHeight cur = UNDEF_HEIGHT;
  vo_window : 1 < m_upgradeVotingWindow cur < 2 ^ 24;
  vo_threshold : 0 < m_upgradeVotingThreshold cur <= 100;
  vo_upgrade : 0 <= m_upgradeWindow cur < 2 ^ 62;
  vo_target : 0 < m_difficultyTarget cur <= 60 * 60
}.

Section Voting.
Context (cur : currency) (V : voting_ok cur).

Abbreviation complete := (isVotingComplete cur BLOCK_MAJOR_VERSION_2).

Lemma voteCounter_total n : forall chain i count, 0 <= i -> i + Z.of_nat n <= chain_height chain ->
  exists votes, voteCounter BLOCK_MAJOR_VERSION_2 chain i n count = Some votes.
Proof.
  unfold chain_height. induction n as [|n IH]; intros chain i count H L; cbn [voteCounter]; [eauto|].
  destruct (lookup_lt_is_Some_2 chain (Z.to_nat i)) as [e ->]; [lia|]. cbn [obind]. apply IH; lia.
Qed.

Lemma voteCounter_app n more : forall chain i count, 0 <= i -> i + Z.of_nat n <= chain_height chain ->
  voteCounter BLOCK_MAJOR_VERSION_2 (chain ++ more) i n count = voteCounter BLOCK_MAJOR_VERSION_2 chain i n count.
Proof.
  unfold chain_height. induction n as [|n IH]; intros chain i count H L; cbn [voteCounter]; [reflexivity|].
  rewrite lookup_app_l by lia. destruct (chain !! Z.to_nat i); cbn [obind]; [|reflexivity]. apply IH; lia.
Qed.

Lemma complete_unfold chain h : complete chain h =
  if h <? m_upgradeVotingWindow cur - 1 then Some false else
  votes <- voteCounter BLOCK_MAJOR_VERSION_2 chain (h + 1 - m_upgradeVotingWindow cur) (Z.to_nat (m_upgradeVotingWindow cur)) 0 ;;
  Some (u64 (m_upgradeVotingThreshold cur * m_upgradeVotingWindow cur) <=? u32 (100 * votes)).
Proof.
  destruct V as [E W T U D]. unfold isVotingComplete. rewrite E, Z.eqb_refl. cbn [c_assert obind].
  replace (1 <? m_upgradeVotingWindow cur) with true by (symmetry; apply Z.ltb_lt; lia).
  replace (0 <? m_upgradeVotingThreshold cur) with true by (symmetry; apply Z.ltb_lt; lia).
  replace (m_upgradeVotingThreshold cur <=? 100) with true by (symmetry; apply Z.leb_le; lia). reflexivity.
Qed.

(** The voting at a height depends on the blocks up to it only. *)
Lemma complete_app chain more h : 0 <= h < chain_height chain -> complete (chain ++ more) h = complete chain h.
Proof.
  intros H. destruct V as [E W T U D]. rewrite !complete_unfold. destruct (Z.ltb_spec h (m_upgradeVotingWindow cur - 1)); [reflexivity|].
  rewrite voteCounter_app by lia. reflexivity.
Qed.

Lemma complete_total chain h : 0 <= h < chain_height chain -> exists c, complete chain h = Some c.
Proof.
  intros H. destruct V as [E W T U D]. rewrite complete_unfold. destruct (Z.ltb_spec h (m_upgradeVotingWindow cur - 1)); [eauto|].
  destruct (voteCounter_total (Z.to_nat (m_upgradeVotingWindow cur)) chain (h + 1 - m_upgradeVotingWindow cur) 0) as [n ->]; [lia..|].
  cbn [obind]. eauto.
Qed.

(** [v] is the first height at which the voting is complete. *)
Definition first_complete (chain : blocks) (v : Z) : Prop :=
  v = UNDEF_HEIGHT /\ (forall h, 0 <= h < chain_height chain -> complete chain h = Some false) \/
  0 <= v < chain_height chain /\ complete chain v = Some true /\ (forall h, 0 <= h < v -> complete chain h = Some false).

Lemma first_complete_unique chain v w : chain_height chain <= 2 ^ 62 -> first_complete chain v -> first_complete chain w -> v = w.
Proof.
  intros L [[-> F]|(R & C & F)] [[-> F']|(R' & C' & F')]; [reflexivity|rewrite F in C' by lia; discriminate|rewrite F' in C by lia; discriminate|].
  destruct (Z.lt_trichotomy v w) as [Lt|[->|Lt]]; [rewrite F' in C by lia; discriminate|reflexivity|rewrite F in C' by lia; discriminate].
Qed.

(** The blocks after the upgrade have the new version, the others the old one. *)
Definition versions_ok (chain : blocks) (v : Z) : Prop :=
  forall h e, chain !! h = Some e -> majorVersion (bl e) = get_block_major_version_for_height cur BLOCK_MAJOR_VERSION_2 v (Z.of_nat h).

(** The states the detector goes through; a block is pushed with the version expected at its height,
    which [checkBlockVersion] tests. *)
Inductive detector_run : blocks -> Z -> Prop :=
| run_empty : detector_run [] UNDEF_HEIGHT
| run_push chain v e v' : detector_run chain v ->
    majorVersion (bl e) = get_block_major_version_for_height cur BLOCK_MAJOR_VERSION_2 v (chain_height chain) ->
    chain_height chain < 2 ^ 62 -> blockPushed cur BLOCK_MAJOR_VERSION_2 (chain ++ [e]) v = Some v' ->
    detector_run (chain ++ [e]) v'
| run_pop chain v e v' : detector_run (chain ++ [e]) v ->
    blockPopped cur chain v = Some v' -> detector_run chain v'.

Lemma version_for v h : v = UNDEF_HEIGHT \/ 0 <= v < 2 ^ 62 -> h < UNDEF_HEIGHT ->
  get_block_major_version_for_height cur BLOCK_MAJOR_VERSION_2 v h =
  if negb (v =? UNDEF_HEIGHT) && (v + m_upgradeWindow cur <? h) then 2 else 1.
Proof.
  destruct V as [E W T U D]. intros H Hh. unfold get_block_major_version_for_height, upgradeHeight, calculateUpgradeHeight. rewrite E, Z.eqb_refl.
  destruct (Z.eqb_spec v UNDEF_HEIGHT) as [->|N]; cbn [negb andb].
  - replace (UNDEF_HEIGHT <? h) with false by (symmetry; apply Z.ltb_ge; lia). reflexivity.
  - rewrite u64_small by (destruct H; [contradiction|]; lia). reflexivity.
Qed.

Lemma chain_height_snoc (chain : blocks) e : chain_height (chain ++ [e]) = chain_height chain + 1.
Proof. unfold chain_height. rewrite length_app. cbn [length]. lia. Qed.

Lemma back_snoc (chain : blocks) e : back_version (chain ++ [e]) = Some (majorVersion (bl e)).
Proof. unfold back_version. rewrite last_snoc. reflexivity. Qed.

Lemma chain_height_nonneg (chain : blocks) : 0 <= chain_height chain.
Proof. unfold chain_height. lia. Qed.

(** What a block pushed with the right version does: no assertion fails, and the detector again knows
    the first height at which the voting is complete. *)
Lemma blockPushed_ok chain v e : first_complete chain v -> chain_height chain < 2 ^ 62 ->
  majorVersion (bl e) = get_block_major_version_for_height cur BLOCK_MAJOR_VERSION_2 v (chain_height chain) ->
  exists v', blockPushed cur BLOCK_MAJOR_VERSION_2 (chain ++ [e]) v = Some v' /\ first_complete (chain ++ [e]) v' /\
    (v' = v \/ v = UNDEF_HEIGHT /\ v' = chain_height chain).
Proof.
  intros F L M. pose proof (chain_height_nonneg chain) as P. destruct V as [E W T U D].
  assert (v = UNDEF_HEIGHT \/ 0 <= v < 2 ^ 62) as Hv by (destruct F as [[-> _]|[? _]]; [auto|lia]).
  rewrite version_for in M by (assumption || unfold UNDEF_HEIGHT; lia).
  unfold blockPushed. rewrite back_snoc, chain_height_snoc, E, Z.eqb_refl. cbn [negb obind].
  replace (chain_height chain + 1 =? 0) with false by (symmetry; apply Z.eqb_neq; lia). cbn [negb c_assert obind].
  destruct F as [[-> F]|(Fv & Fc & F)].
  - rewrite Z.eqb_refl in *. cbn [negb andb] in *. replace (chain_height chain + 1 - 1) with (chain_height chain) by lia.
    destruct (complete_total (chain ++ [e]) (chain_height chain)) as [c Ec]; [rewrite chain_height_snoc; lia|]. rewrite Ec. cbn [obind].
    assert (forall h, 0 <= h < chain_height chain -> complete (chain ++ [e]) h = Some false) as F'
      by (intros h Hh; rewrite complete_app by exact Hh; apply F, Hh).
    destruct c; eexists; (split; [reflexivity|]).
    + split; [|auto]. right. split; [rewrite chain_height_snoc; lia|]. auto.
    + split; [|auto]. left. split; [reflexivity|]. intros h Hh. rewrite chain_height_snoc in Hh.
      destruct (Z.eq_dec h (chain_height chain)) as [->|]; [exact Ec|]. apply F'. lia.
  - assert (v <> UNDEF_HEIGHT) as Nv by (unfold UNDEF_HEIGHT; lia).
    replace (v =? UNDEF_HEIGHT) with false in * by (symmetry; apply Z.eqb_neq, Nv). cbn [negb andb] in *.
    replace (v <? chain_height chain + 1) with true by (symmetry; apply Z.ltb_lt; lia). cbn [c_assert obind].
    exists v. split; [|split; [|auto]].
    2: { right. split; [rewrite chain_height_snoc; lia|]. split; [rewrite complete_app by lia; exact Fc|].
         intros h Hh. rewrite complete_app by lia. apply F, Hh. }
    unfold upgradeHeight, calculateUpgradeHeight. rewrite E, Z.eqb_refl.
    replace (v =? UNDEF_HEIGHT) with false by (symmetry; apply Z.eqb_neq, Nv). rewrite !u64_small by lia.
    assert (0 < 60 * 60 / m_difficultyTarget cur) as Q by (apply Z.div_str_pos; lia).
    replace (60 * 60 / m_difficultyTarget cur =? 0) with false by (symmetry; apply Z.eqb_neq; lia).
    destruct (Z.ltb_spec (v + m_upgradeWindow cur) (chain_height chain)), (Z.leb_spec (chain_height chain + 1) (v + m_upgradeWindow cur)),
      (Z.eqb_spec (chain_height chain + 1) (v + m_upgradeWindow cur + 1)); rewrite M; try lia; reflexivity.
Qed.

Lemma blockPopped_ok chain v e : first_complete (chain ++ [e]) v -> chain_height chain < 2 ^ 62 ->
  exists v', blockPopped cur chain v = Some v' /\ first_complete chain v' /\ (v' = v \/ v = chain_height chain /\ v' = UNDEF_HEIGHT).
Proof.
  intros F L. pose proof (chain_height_nonneg chain) as P. unfold blockPopped. rewrite (vo_voting _ V).
  destruct F as [[-> F]|(Fv & Fc & F)]; rewrite ?chain_height_snoc in *.
  - rewrite Z.eqb_refl. cbn [negb]. eexists. split; [reflexivity|]. split; [|auto]. left. split; [reflexivity|].
    intros h Hh. rewrite <- (complete_app chain [e]) by exact Hh. apply F. lia.
  - assert (forall h, 0 <= h < v -> complete chain h = Some false) as F'
      by (intros h Hh; rewrite <- (complete_app chain [e]) by lia; apply F, Hh).
    destruct (Z.eqb_spec v UNDEF_HEIGHT) as [->|N]; cbn [negb].
    + unfold UNDEF_HEIGHT in Fv. lia.
    + rewrite Z.eqb_refl. cbn [c_assert obind]. destruct (Z.eqb_spec (chain_height chain) v) as [E|Ne].
      * exists UNDEF_HEIGHT. split; [reflexivity|]. split; [|auto]. left. split; [reflexivity|]. intros h Hh. apply F'. lia.
      * replace (v <? chain_height chain) with true by (symmetry; apply Z.ltb_lt; lia). exists v. split; [reflexivity|]. split; [|auto].
        right. split; [lia|]. split; [rewrite <- (complete_app chain [e]) by lia; exact Fc|exact F'].
Qed.

(** The invariant of the detector. *)
Record detector_inv (chain : blocks) (v : Z) : Prop := {
  di_first : first_complete chain v;
  di_versions : versions_ok chain v;
  di_height : chain_height chain <= 2 ^ 62
}.

Lemma first_range chain v : first_complete chain v -> chain_height chain <= 2 ^ 62 -> v = UNDEF_HEIGHT \/ 0 <= v < 2 ^ 62.
Proof. intros [[-> _]|[? _]] L; [auto|lia]. Qed.

Lemma detector_push_inv chain v e v' : detector_inv chain v -> chain_height chain < 2 ^ 62 ->
  majorVersion (bl e) = get_block_major_version_for_height cur BLOCK_MAJOR_VERSION_2 v (chain_height chain) ->
  blockPushed cur BLOCK_MAJOR_VERSION_2 (chain ++ [e]) v = Some v' -> detector_inv (chain ++ [e]) v'.
Proof.
  intros [F O L] Lt M E. destruct (blockPushed_ok chain v e F Lt M) as (w & Ew & Fw & Cw). rewrite E in Ew. injection Ew as <-.
  split; [exact Fw| |rewrite chain_height_snoc; lia]. pose proof (vo_upgrade _ V) as U.
  pose proof (first_range _ _ F L) as Rv. pose proof (first_range _ _ Fw ltac:(rewrite chain_height_snoc; lia)) as Rw.
  intros h b Eb. assert (Z.of_nat h < chain_height (chain ++ [e])) as Hh by (unfold chain_height; apply lookup_lt_Some in Eb; lia).
  rewrite chain_height_snoc in Hh. rewrite version_for by (assumption || unfold UNDEF_HEIGHT; lia).
  assert (majorVersion (bl b) = get_block_major_version_for_height cur BLOCK_MAJOR_VERSION_2 v (Z.of_nat h)) as ->.
  { apply lookup_app_Some in Eb as [Eb|[Le Eb]]; [exact (O h b Eb)|]. apply list_lookup_singleton_Some in Eb as [Z0 <-].
    rewrite M. f_equal. unfold chain_height. lia. }
  rewrite version_for by (assumption || unfold UNDEF_HEIGHT; lia). destruct Cw as [->|[-> ->]]; [reflexivity|].
  rewrite Z.eqb_refl. cbn [negb andb]. replace (chain_height chain + m_upgradeWindow cur <? Z.of_nat h) with false by (symmetry; apply Z.ltb_ge; lia).
  rewrite andb_false_r. reflexivity.
Qed.

Lemma detector_pop_inv chain v e v' : detector_inv (chain ++ [e]) v -> blockPopped cur chain v = Some v' -> detector_inv chain v'.
Proof.
  intros [F O L] E. rewrite chain_height_snoc in L. destruct (blockPopped_ok chain v e F ltac:(lia)) as (w & Ew & Fw & Cw).
  rewrite E in Ew. injection Ew as <-. split; [exact Fw| |lia]. pose proof (vo_upgrade _ V) as U.
  pose proof (first_range _ _ F ltac:(rewrite chain_height_snoc; lia)) as Rv. pose proof (first_range _ _ Fw ltac:(lia)) as Rw.
  intros h b Eb. assert (Z.of_nat h < chain_height chain) as Hh by (unfold chain_height; apply lookup_lt_Some in Eb; lia).
  rewrite (O h b) by (apply lookup_app_l_Some, Eb). rewrite !version_for by (assumption || unfold UNDEF_HEIGHT; lia).
  destruct Cw as [->|[-> ->]]; [reflexivity|]. rewrite Z.eqb_refl. cbn [negb andb].
  replace (chain_height chain + m_upgradeWindow cur <? Z.of_nat h) with false by (symmetry; apply Z.ltb_ge; lia).
  rewrite andb_false_r. reflexivity.
Qed.

Lemma detector_run_inv chain v : detector_run chain v -> detector_inv chain v.
Proof.
  induction 1 as [|chain v e v' R I M L E|chain v e v' R I E].
  - split; [left; split; [reflexivity|]| |]; [intros h Hh; unfold chain_height in Hh; cbn [length] in Hh; lia|intros h e E; destruct h; discriminate|unfold chain_height; cbn [length]; lia].
  - eapply detector_push_inv; eassumption.
  - eapply detector_pop_inv; eassumption.
Qed.

(** The search of [init] for the height. *)
Lemma find_voting_ok chain n : forall i, 0 <= i -> i + Z.of_nat n = chain_height chain ->
  exists v, find_voting cur BLOCK_MAJOR_VERSION_2 chain i n = Some v /\
    (v = UNDEF_HEIGHT /\ (forall h, i <= h < chain_height chain -> complete chain h = Some false) \/
     i <= v < chain_height chain /\ complete chain v = Some true /\ (forall h, i <= h < v -> complete chain h = Some false)).
Proof.
  induction n as [|n IH]; intros i H L; cbn [find_voting].
  - exists UNDEF_HEIGHT. split; [reflexivity|]. left. split; [reflexivity|]. intros h Hh. lia.
  - destruct (complete_total chain i ltac:(lia)) as [c Ec]. rewrite Ec. cbn [obind]. destruct c.
    + exists i. split; [reflexivity|]. right. split; [lia|]. split; [exact Ec|]. intros h Hh. lia.
    + destruct (IH (i + 1) ltac:(lia) ltac:(lia)) as (v & Ev & Cv). exists v. split; [exact Ev|].
      assert (forall h, i <= h -> h = i \/ i + 1 <= h) as S by lia.
      destruct Cv as [[-> C]|(Rv & Cv & C)].
      * left. split; [reflexivity|]. intros h Hh. destruct (S h ltac:(lia)) as [->|]; [exact Ec|apply C; lia].
      * right. split; [lia|]. split; [exact Cv|]. intros h Hh. destruct (S h ltac:(lia)) as [->|]; [exact Ec|apply C; lia].
Qed.

(** Before the upgrade, [init] finds the height that the detector has kept. *)
Lemma init_before_upgrade chain v e x : detector_inv (chain ++ [e]) v -> majorVersion (bl e) = BLOCK_MAJOR_VERSION_1 ->
  init cur BLOCK_MAJOR_VERSION_2 (chain ++ [e]) x = Some (true, v).
Proof.
  intros [F O L] M. rewrite chain_height_snoc in L. pose proof (chain_height_nonneg chain) as P. pose proof (vo_upgrade _ V) as U.
  unfold init. rewrite (vo_voting _ V), Z.eqb_refl, last_snoc, M.
  rewrite (eq_refl : (BLOCK_MAJOR_VERSION_2 - 1 =? BLOCK_MAJOR_VERSION_1) = true). unfold findVotingCompleteHeight, maxUpgradeDistance. rewrite (vo_voting _ V), Z.eqb_refl. cbn [c_assert obind].
  rewrite chain_height_snoc. replace (chain_height chain + 1 - 1) with (chain_height chain) by lia.
  set (start := if m_upgradeWindow cur <? chain_height chain then chain_height chain - m_upgradeWindow cur else 0).
  assert (0 <= start <= chain_height chain /\ chain_height chain <= start + m_upgradeWindow cur) as S
    by (unfold start; destruct (Z.ltb_spec (m_upgradeWindow cur) (chain_height chain)); lia).
  destruct (find_voting_ok (chain ++ [e]) (Z.to_nat (chain_height chain - start + 1)) start) as (w & Ew & Cw); [lia|rewrite chain_height_snoc; lia|].
  rewrite Ew. cbn [obind]. do 2 f_equal.
  pose proof (first_range _ _ F ltac:(rewrite chain_height_snoc; lia)) as Rv. rewrite !chain_height_snoc in Cw.
  specialize (O (length chain) e ltac:(rewrite lookup_app_r, Nat.sub_diag by lia; reflexivity)). fold (chain_height chain) in O.
  rewrite M, version_for in O by (assumption || unfold UNDEF_HEIGHT; lia).
  destruct F as [[-> F]|(Fv & Fc & F)]; rewrite ?chain_height_snoc in *.
  - destruct Cw as [[-> _]|(Rw & Cw & _)]; [reflexivity|]. rewrite F in Cw by lia. discriminate.
  - assert (start <= v) as Sv.
    { unfold start. destruct (Z.ltb_spec (m_upgradeWindow cur) (chain_height chain)); [|lia].
      replace (v =? UNDEF_HEIGHT) with false in O by (symmetry; apply Z.eqb_neq; unfold UNDEF_HEIGHT; lia). cbn [negb andb] in O.
      destruct (Z.ltb_spec (v + m_upgradeWindow cur) (chain_height chain)); [discriminate|lia]. }
    destruct Cw as [[-> C]|(Rw & Cw & C)]; [rewrite C in Fc by lia; discriminate|].
    destruct (Z.lt_trichotomy w v) as [Lt|[->|Lt]]; [rewrite F in Cw by lia; discriminate|reflexivity|rewrite C in Fc by lia; discriminate].
Qed.
End Voting.

(** ** After the upgrade

    [init] takes the height of the first block of the new version for the upgrade
    height, which is the height before it, and so begins its search one block too
    late.  A node whose chain went through the voting at the last possible height
    and is restarted after the upgrade does not find it. *)

Definition small_voting : currency :=
  match default_currency with
  | mk_currency a b c d e f g h i j k l m n o p q r s t u v w x y _ _ _ _ =>
      mk_currency a b c d e f g h i j k l m n o p q r s t u v w x y UNDEF_HEIGHT 90 2 2
  end.

Definition versioned (major minor : Z) : BlockEntry :=
  mk_bentry (mk_block major minor 0 0 [] (mk_tx 1 0 [] [] [] []) []) 0 0 0 0 [].

(** Two votes, the two blocks until the upgrade, and the first block after it. *)
Definition upgraded_chain : blocks := [versioned 1 1; versioned 1 1; versioned 1 0; versioned 1 0; versioned 2 0].

Lemma small_voting_ok : voting_ok small_voting.
Proof. split; cbn [small_voting m_upgradeHeight m_upgradeVotingWindow m_upgradeVotingThreshold m_upgradeWindow m_difficultyTarget default_currency]; reflexivity || lia. Qed.

Lemma upgraded_run : detector_run small_voting upgraded_chain 1.
Proof.
  assert (forall n, (n <= 5)%nat -> detector_run small_voting (take n upgraded_chain) (if (n <? 2)%nat then UNDEF_HEIGHT else 1)) as P.
  { induction n as [|n IH]; intros L; [constructor|]. specialize (IH ltac:(lia)).
    destruct (upgraded_chain !! n) as [e|] eqn:E; [|apply lookup_ge_None in E; cbn in E; lia].
    rewrite (take_S_r _ _ e E). eapply run_push; [exact IH|..];
      do 5 (destruct n as [|n]; [injection E as <-; vm_compute; reflexivity|]); lia. }
  exact (P 5%nat ltac:(lia)).
Qed.

Lemma init_misses_upgrade : init small_voting BLOCK_MAJOR_VERSION_2 upgraded_chain UNDEF_HEIGHT = Some (false, UNDEF_HEIGHT).
Proof. vm_compute. reflexivity. Qed.
