(* ===== verification/TxCheck.v ===== *)
(** * Checks of transactions (CryptoNoteCore: Blockchain.cpp, Blockchain.h, CryptoNoteFormatUtils.cpp, Core.cpp)

    The checks a transaction passes on its own ([check_tx_semantic] and its parts)
    and against the chain ([checkTransactionInputs], [check_tx_outputs]): the outputs
    that its key inputs refer to exist and are unlocked, the ring signatures are
    valid, the multisignature outputs exist, are unlocked, not used, and signed for.

    The results are [bool]s; [None] is a failed assertion, an access out of range or
    an exception.  The state read is the list of blocks and the indices of
    TxStore.v; the time is an argument. *)

From Stdlib Require Import ZArith Lia List Bool.
From S2P Require Import Prelude Bytes IntUtil Currency Crypto CryptoCorrect TxStore UpgradeDetector.
From stdpp Require Import gmap gmultiset list.
Import ListNotations.
Open Scope Z_scope.
Open Scope cmon_scope.
Set Default Goal Selector "!".

Definition TRANSACTION_VERSION_1 : Z := 1.
Definition TRANSACTION_VERSION_2 : Z := 2.

(** What the checks use of the cryptography. *)
Class CryptoChecks := {
  ck_key : bytes -> option bool;
  ck_signature : bytes -> bytes -> bytes -> option bool;
  ck_ring_signature : bytes -> bytes -> list bytes -> list bytes -> option bool;
  ck_key_total : forall key, bytes_n 32 key -> exists b, ck_key key = Some b
}.

#[refine, export] Instance crypto_checks {FH : FastHash} : CryptoChecks := {
  ck_key := check_key;
  ck_signature := check_signature;
  ck_ring_signature := check_ring_signature
}.
Proof.
  intros key K. destruct (check_key_ok key K) as (b & E & _). exists b. exact E.
Defined.

(** ** A transaction on its own *)

Section Semantic.
Context {CK : CryptoChecks}.
Variable cur : currency.

Definition check_inputs_types_supported (t : Transaction) : bool :=
  forallb (fun i => match i with
    | MultisignatureInput _ _ _ _ => negb (version t <? TRANSACTION_VERSION_2)
    | KeyInput _ _ _ => true
    | BaseInput _ => false
    end) (inputs t).

(** The keys of a multisignature output. *)
Fixpoint check_keys (keys : list bytes) : option bool :=
  match keys with
  | [] => Some true
  | key :: keys => b <- ck_key key ;; if negb b then Some false else check_keys keys
  end.

(** [error] tells whether the caller passes a string for the message: the message for a
    multisignature output in an old transaction is written without asking. *)
Fixpoint check_outs (error : bool) (v : Z) (outs : list TransactionOutput) : option bool :=
  match outs with
  | [] => Some true
  | out :: outs =>
      match target out with
      | KeyOutput key =>
          if out_amount out =? 0 then Some false else
          b <- ck_key key ;;
          if negb b then Some false else check_outs error v outs
      | MultisignatureOutput keys requiredSignatureCount _ =>
          if v <? TRANSACTION_VERSION_2 then (if error then Some false else None) else
          if Z.of_nat (length keys) <? requiredSignatureCount then Some false else
          b <- check_keys keys ;;
          if negb b then Some false else check_outs error v outs
      end
  end.

Definition check_outs_valid (error : bool) (t : Transaction) : option bool := check_outs error (version t) (outputs t).

Definition DEPOSIT_MAX_TOTAL_RATE : Z := 11.

(** The amount of an input with the greatest interest it can have; [Some None] when it overflows. *)
Definition input_amount_bound (i : TransactionInput) : option (option Z) :=
  match i with
  | KeyInput amount _ _ => Some (Some amount)
  | MultisignatureInput amount _ _ term =>
      if term =? 0 then Some (Some amount) else
      '(lo, hi) <- mul128 amount DEPOSIT_MAX_TOTAL_RATE ;;
      '(maxInterestHi, maxInterestLo, _) <- div128_32 hi lo 100 ;;
      if 0 <? maxInterestHi then Some None else
      if u64 (i_max U64 - maxInterestLo) <? amount then Some None else
      Some (Some (u64 (amount + maxInterestLo)))
  | BaseInput _ => Some (Some 0)
  end.

Fixpoint inputs_overflow (ins : list TransactionInput) (money : Z) : option bool :=
  match ins with
  | [] => Some true
  | i :: ins =>
      r <- input_amount_bound i ;;
      match r with
      | None => Some false
      | Some amount => if u64 (amount + money) <? money then Some false else inputs_overflow ins (u64 (money + amount))
      end
  end.

Definition check_inputs_overflow (t : Transaction) : option bool := inputs_overflow (inputs t) 0.

Fixpoint outs_overflow (outs : list TransactionOutput) (money : Z) : bool :=
  match outs with
  | [] => true
  | o :: outs => if u64 (out_amount o + money) <? money then false else outs_overflow outs (u64 (money + out_amount o))
  end.

Definition check_outs_overflow (t : Transaction) : bool := outs_overflow (outputs t) 0.

Definition check_money_overflow (t : Transaction) : option bool :=
  b <- check_inputs_overflow t ;; Some (b && check_outs_overflow t).

(** [get_outs_money_amount] and [getOutputAmount] *)
Definition get_outs_money_amount (t : Transaction) : Z := fold_left (fun a o => u64 (a + out_amount o)) (outputs t) 0.

Fixpoint keyimages_diff (ins : list TransactionInput) (ki : gset bytes) : bool :=
  match ins with
  | [] => true
  | KeyInput _ _ keyImage :: ins => if decide (keyImage ∈ ki) then false else keyimages_diff ins ({[keyImage]} ∪ ki)
  | _ :: ins => keyimages_diff ins ki
  end.

Definition check_tx_inputs_keyimages_diff (t : Transaction) : bool := keyimages_diff (inputs t) ∅.

Definition check_tx_semantic (t : Transaction) : option bool :=
  if (length (inputs t) =? 0)%nat then Some false else
  if negb (check_inputs_types_supported t) then Some false else
  b <- check_outs_valid true t ;;
  if negb b then Some false else
  b <- check_money_overflow t ;;
  if negb b then Some false else
  amount_in <- getTransactionAllInputsAmount cur (inputs t) 0 ;;
  let amount_out := get_outs_money_amount t in
  if amount_in <? amount_out then Some false else
  if negb (check_tx_inputs_keyimages_diff t) then Some false else
  Some (checkMultisignatureInputsDiff t).
End Semantic.

(** ** A transaction against the chain *)

(** [res[i] += res[i - 1]] for [i] from 1 on. *)
Fixpoint offsets_from (previous : Z) (off : list Z) : list Z :=
  match off with [] => [] | o :: off => let a := u32 (o + previous) in a :: offsets_from a off end.

Definition relative_output_offsets_to_absolute (off : list Z) : list Z :=
  match off with [] => [] | o :: off => o :: offsets_from o off end.

Section Inputs.
Context {CK : CryptoChecks}.
Variable cur : currency.
(** The hash of the prefix of a transaction. *)
Variable getPrefixHash : Transaction -> bytes.
(** [time(NULL)] *)
Variable now : Z.
Variable m_is_in_checkpoint_zone : bool.

Definition transactionByIndex (m_blocks : blocks) (index : TransactionIndex) : option TransactionEntry :=
  b <- m_blocks !! Z.to_nat (ti_block index) ;; transactions b !! Z.to_nat (ti_transaction index).

Definition getCurrentBlockchainHeight (m_blocks : blocks) : Z := u32 (chain_height m_blocks).

Definition is_tx_spendtime_unlocked (m_blocks : blocks) (unlock_time : Z) : bool :=
  if unlock_time <? m_maxBlockHeight cur then
    unlock_time <=? u64 (u32 (getCurrentBlockchainHeight m_blocks - 1) + m_lockedTxAllowedDeltaBlocks cur)
  else unlock_time <=? u64 (now + m_lockedTxAllowedDeltaSeconds cur).

(** [outputs_visitor::handle_output]: the key collected, when the output is accepted. *)
Definition handle_output (m_blocks : blocks) (t : Transaction) (out : TransactionOutput) : option bytes :=
  if negb (is_tx_spendtime_unlocked m_blocks (unlockTime t)) then None else
  match target out with KeyOutput key => Some key | _ => None end.

(** The loop over the offsets: the result, the keys collected, and the height of the block of the
    last output when it is above [max]. *)
Fixpoint scan_offsets (m_blocks : blocks) (amount_outs_vec : list (TransactionIndex * Z)) (offsets : list Z)
    (keys : list bytes) (max : Z) : option (bool * list bytes * Z) :=
  match offsets with
  | [] => Some (true, keys, max)
  | i :: offsets =>
      if Z.of_nat (length amount_outs_vec) <=? i then Some (false, keys, max) else
      '(index, k) <- amount_outs_vec !! Z.to_nat i ;;
      t <- transactionByIndex m_blocks index ;;
      if negb (k <? Z.of_nat (length (outputs (tx t)))) then Some (false, keys, max) else
      out <- outputs (tx t) !! Z.to_nat k ;;
      match handle_output m_blocks (tx t) out with
      | None => Some (false, keys, max)
      | Some key =>
          let max := if (length offsets =? 0)%nat && (max <? ti_block index) then ti_block index else max in
          scan_offsets m_blocks amount_outs_vec offsets (keys ++ [key]) max
      end
  end.

Definition scanOutputKeysForIndexes (m_blocks : blocks) (st : store) (amount : Z) (outputIndexes : list Z) (max : Z)
    : option (bool * list bytes * Z) :=
  match m_outputs st !! amount with
  | None => Some (false, [], max)
  | Some amount_outs_vec =>
      if (length outputIndexes =? 0)%nat then Some (false, [], max) else
      scan_offsets m_blocks amount_outs_vec (relative_output_offsets_to_absolute outputIndexes) [] max
  end.

(** The result and the greatest height of a block used. *)
Definition check_tx_input (m_blocks : blocks) (st : store) (amount : Z) (outputIndexes : list Z) (keyImage : bytes)
    (tx_prefix_hash : bytes) (sig : list bytes) (max : Z) : option (bool * Z) :=
  '(r, output_keys, max) <- scanOutputKeysForIndexes m_blocks st amount outputIndexes max ;;
  if negb r then Some (false, max) else
  if negb (length outputIndexes =? length output_keys)%nat then Some (false, max) else
  if negb (length sig =? length output_keys)%nat then Some (false, max) else
  if m_is_in_checkpoint_zone then Some (true, max) else
  b <- ck_ring_signature tx_prefix_hash keyImage output_keys sig ;; Some (b, max).

(** [while (inputSignatureIndex < input.signatureCount)]: each signature is by a later key than the
    one before it. *)
Fixpoint check_signatures (hash : bytes) (keys sigs : list bytes) : option bool :=
  match sigs with
  | [] => Some true
  | sig :: sigs' =>
      match keys with
      | [] => Some false
      | key :: keys => b <- ck_signature hash key sig ;; check_signatures hash keys (if b : bool then sigs' else sigs)
      end
  end.

Definition validateInput (m_blocks : blocks) (st : store) (amount signatureCount outputIndex_ term_ : Z)
    (transactionPrefixHash : bytes) (transactionSignatures : list bytes) : option bool :=
  _ <- c_assert (signatureCount =? Z.of_nat (length transactionSignatures)) ;;
  match m_multisignatureOutputs st !! amount with
  | None => Some false
  | Some amountOutputs =>
      if Z.of_nat (length amountOutputs) <=? outputIndex_ then Some false else
      u <- amountOutputs !! Z.to_nat outputIndex_ ;;
      if isUsed u then Some false else
      e <- transactionByIndex m_blocks (transactionIndex u) ;;
      if negb (is_tx_spendtime_unlocked m_blocks (unlockTime (tx e))) then Some false else
      out <- outputs (tx e) !! Z.to_nat (outputIndex u) ;;
      _ <- c_assert (out_amount out =? amount) ;;
      match target out with
      | KeyOutput _ => None
      | MultisignatureOutput keys requiredSignatureCount term =>
          if negb (signatureCount =? requiredSignatureCount) then Some false else
          if negb (term_ =? term) then Some false else
          if negb (term =? 0) && (getCurrentBlockchainHeight m_blocks <? u32 (ti_block (transactionIndex u) + term)) then Some false else
          check_signatures transactionPrefixHash keys transactionSignatures
      end
  end.

(** The loop over the inputs: every input consumes a vector of signatures. *)
Fixpoint check_inputs (m_blocks : blocks) (st : store) (tx_prefix_hash : bytes) (ins : list TransactionInput)
    (sigs : list (list bytes)) (max : Z) : option (bool * Z) :=
  match ins with
  | [] => Some (true, max)
  | txin :: ins =>
      match sigs with
      | [] => None (* assert(inputIndex < tx.signatures.size()) *)
      | sig :: sigs =>
          match txin with
          | KeyInput amount outputIndexes keyImage =>
              if (length outputIndexes =? 0)%nat then Some (false, max) else
              if decide (keyImage ∈ m_spent_keys st) then Some (false, max) else
              '(r, max) <- check_tx_input m_blocks st amount outputIndexes keyImage tx_prefix_hash sig max ;;
              if negb r then Some (false, max) else check_inputs m_blocks st tx_prefix_hash ins sigs max
          | MultisignatureInput amount signatureCount outputIndex term =>
              r <- validateInput m_blocks st amount signatureCount outputIndex term tx_prefix_hash sig ;;
              if negb r then Some (false, max) else check_inputs m_blocks st tx_prefix_hash ins sigs max
          | BaseInput _ => Some (false, max)
          end
      end
  end.

(** The result and [*pmax_used_block_height]. *)
Definition checkTransactionInputs (m_blocks : blocks) (st : store) (t : Transaction) : option (bool * Z) :=
  check_inputs m_blocks st (getPrefixHash t) (inputs t) (signatures t) 0.

Definition haveTransactionKeyImagesAsSpent (st : store) (t : Transaction) : bool :=
  existsb (fun i => match i with KeyInput _ _ keyImage => bool_decide (keyImage ∈ m_spent_keys st) | _ => false end) (inputs t).

Fixpoint check_tx_outs (v : Z) (outs : list TransactionOutput) : bool :=
  match outs with
  | [] => true
  | out :: outs =>
      match target out with
      | KeyOutput _ => check_tx_outs v outs
      | MultisignatureOutput _ _ term =>
          if v <? TRANSACTION_VERSION_2 then false else
          if negb (term =? 0) then
            if (term <? m_depositMinTerm cur) || (m_depositMaxTerm cur <? term) then false else
            if out_amount out <? m_depositMinAmount cur then false else check_tx_outs v outs
          else check_tx_outs v outs
      end
  end.

Definition check_tx_outputs (t : Transaction) : bool := check_tx_outs (version t) (outputs t).
End Inputs.

(** ** Correctness of the checks of a transaction on its own *)

Lemma keyimages_diff_ok ins : forall X, keyimages_diff ins X = true <->
  NoDup (images ins) /\ (forall x, x ∈ images ins -> x ∉ X).
Proof.
  induction ins as [|i ins IH]; intros X; cbn [keyimages_diff].
  - split; [|reflexivity]. intros _. split; [constructor|intros r H; inversion H].
  - destruct i as [b|a o image|a c o t]; cbn; [apply IH| |apply IH]. case_decide as D.
    + split; [discriminate|]. intros [_ F]. destruct (F image); [left|exact D].
    + rewrite IH, NoDup_cons. split.
      * intros [N F]. split; [split; [intros H; specialize (F _ H); set_solver|exact N]|].
        intros r [->|H]%elem_of_cons; [exact D|]. specialize (F r H). set_solver.
      * intros [[Ni N] F]. split; [exact N|]. intros r H. specialize (F r (list_elem_of_further _ _ _ H)).
        intros [->%elem_of_singleton|K]%elem_of_union; auto.
Qed.

(** The interest never exceeds the rate that the overflow check allows for. *)
Record rate_ok (cur : currency) : Prop := {
  ro_deposit : deposit_ok cur;
  ro_bound : forall term, m_depositMinTerm cur <= term <= m_depositMaxTerm cur ->
    100 * term_rate cur term <= DEPOSIT_MAX_TOTAL_RATE * (1000 * m_depositMaxTerm cur)
}.

Lemma default_rate_ok : rate_ok default_currency.
Proof.
  split; [exact default_deposit_ok|]. intros term H. unfold term_rate.
  assert (forall a b, a <= b -> 100 * (a * 5000 / 1037) <= 100 * (b * 5000 / 1037)) as M
    by (intros a b L; apply Z.mul_le_mono_nonneg_l; [lia|]; apply Z.div_le_mono; lia).
  etransitivity; [apply (M _ (m_depositMaxTerm default_currency * m_depositMaxTotalRate default_currency - m_depositMinTotalRateFactor default_currency))|].
  - cbn [m_depositMinTerm m_depositMaxTerm m_depositMaxTotalRate default_currency] in *. lia.
  - apply Z.leb_le. vm_compute. reflexivity.
Qed.

(** The test of a sum for overflow. *)
Lemma overflow_test m a : word64 m -> word64 a -> (u64 (a + m) <? m) = negb (m + a <? 2 ^ 64).
Proof.
  unfold word64. intros Hm Ha. destruct (Z.ltb_spec (m + a) (2 ^ 64)) as [L|G]; cbn [negb].
  - rewrite u64_small by lia. apply Z.ltb_ge. lia.
  - replace (u64 (a + m)) with (a + m - 2 ^ 64); [apply Z.ltb_lt; lia|].
    unfold wrap. cbn [U64 i_min i_max]. rewrite Z.add_0_l. apply Z.mod_unique_pos with (q := 1); lia.
Qed.

Section Amounts.
Context (cur : currency) (R : rate_ok cur).

(** An input with its types: amounts are words, and a term is zero or one that deposits can have. *)
Definition input_typed (i : TransactionInput) : Prop :=
  match i with
  | BaseInput _ => True
  | KeyInput amount _ _ => word64 amount
  | MultisignatureInput amount _ outputIndex term =>
      word64 amount /\ 0 <= outputIndex /\ (term = 0 \/ m_depositMinTerm cur <= term <= m_depositMaxTerm cur)
  end.

(** The amount of an input with its interest, and with the greatest interest. *)
Definition input_value (i : TransactionInput) : Z :=
  match i with
  | BaseInput _ => 0
  | KeyInput amount _ _ => amount
  | MultisignatureInput amount _ _ term =>
      if term =? 0 then amount else amount + amount * term_rate cur term / (1000 * m_depositMaxTerm cur)
  end.

Definition input_bound (i : TransactionInput) : Z :=
  match i with
  | BaseInput _ => 0
  | KeyInput amount _ _ => amount
  | MultisignatureInput amount _ _ term => if term =? 0 then amount else amount + amount * DEPOSIT_MAX_TOTAL_RATE / 100
  end.

Lemma input_value_bound i : input_typed i -> 0 <= input_value i <= input_bound i.
Proof.
  destruct R as [D B]. destruct i as [b|a o k|a c o t]; cbn; unfold word64; [lia..|]. intros (Ha & _ & Ht).
  destruct (Z.eqb_spec t 0) as [->|N]; [lia|]. assert (m_depositMinTerm cur <= t <= m_depositMaxTerm cur) as T by (destruct Ht; [contradiction|assumption]).
  pose proof (proj2 (calculateInterest_ok cur a t D Ha T)) as I. specialize (B t T). destruct D as [Dt _ _ _ _].
  split; [lia|]. apply Zplus_le_compat_l. apply Z.div_le_lower_bound; [lia|].
  pose proof (Z.mul_div_le (a * term_rate cur t) (1000 * m_depositMaxTerm cur) ltac:(lia)). nia.
Qed.

Lemma input_amount_ok i : input_typed i -> word64 (input_value i) -> getTransactionInputAmount cur i = Some (input_value i).
Proof.
  destruct i as [b|a o k|a c o t]; cbn; [reflexivity..|]. intros (Ha & _ & Ht) W.
  destruct (Z.eqb_spec t 0) as [->|N]; [reflexivity|]. destruct Ht as [|Ht]; [contradiction|].
  rewrite (proj1 (calculateInterest_ok cur a t (ro_deposit _ R) Ha Ht)). cbn [obind]. rewrite u64_small by exact W. reflexivity.
Qed.

Lemma input_bound_ok i : input_typed i ->
  input_amount_bound i = Some (if input_bound i <? 2 ^ 64 then Some (input_bound i) else None).
Proof.
  destruct i as [b|a o k|a c o t]; cbn [input_typed input_amount_bound input_bound].
  - reflexivity.
  - unfold word64. intros H. replace (a <? 2 ^ 64) with true by (symmetry; apply Z.ltb_lt; lia). reflexivity.
  - intros (Ha & _ & _). unfold word64 in Ha. destruct (Z.eqb_spec t 0) as [->|N].
    { replace (a <? 2 ^ 64) with true by (symmetry; apply Z.ltb_lt; lia). reflexivity. }
    destruct (mul128_ok a DEPOSIT_MAX_TOTAL_RATE) as (lo & hi & -> & Wl & Wh & E); [exact Ha|unfold DEPOSIT_MAX_TOTAL_RATE; split; lia|]. cbn [obind].
    destruct (div128_32_ok hi lo 100 Wh Wl ltac:(lia)) as (qh & ql & -> & Wqh & Wql & Q). cbn [obind]. rewrite <- E in Q.
    unfold word64 in *. assert (a * DEPOSIT_MAX_TOTAL_RATE / 100 < 2 ^ 64) as L
      by (unfold DEPOSIT_MAX_TOTAL_RATE; apply Z.div_lt_upper_bound; lia).
    assert (qh = 0 /\ ql = a * DEPOSIT_MAX_TOTAL_RATE / 100) as [-> ->] by nia. cbn [Z.ltb Z.compare].
    change (i_max U64) with (2 ^ 64 - 1). rewrite u64_small by lia.
    destruct (Z.ltb_spec (2 ^ 64 - 1 - a * DEPOSIT_MAX_TOTAL_RATE / 100) a), (Z.ltb_spec (a + a * DEPOSIT_MAX_TOTAL_RATE / 100) (2 ^ 64)); try lia; [reflexivity|].
    rewrite u64_small by lia. reflexivity.
Qed.

Lemma inputs_overflow_ok ins : forall money, Forall input_typed ins -> word64 money ->
  inputs_overflow ins money = Some (money + sumZ (map input_bound ins) <? 2 ^ 64).
Proof.
  induction ins as [|i ins IH]; intros money T W; cbn [inputs_overflow map sumZ fold_right].
  - unfold word64 in W. replace (money + 0 <? 2 ^ 64) with true by (symmetry; apply Z.ltb_lt; lia). reflexivity.
  - inversion_clear T as [|? ? Ti T']. rewrite input_bound_ok by exact Ti. cbn [obind]. fold (sumZ (map input_bound ins)).
    pose proof (input_value_bound i Ti) as P. unfold word64 in W.
    assert (0 <= sumZ (map input_bound ins)) as S.
    { apply sumZ_nonneg, Forall_map. eapply Forall_impl; [exact T'|]. intros j Hj. pose proof (input_value_bound j Hj). lia. }
    destruct (Z.ltb_spec (input_bound i) (2 ^ 64)).
    2: { replace (money + _ <? 2 ^ 64) with false by (symmetry; apply Z.ltb_ge; lia). reflexivity. }
    rewrite overflow_test by (unfold word64; lia). destruct (Z.ltb_spec (money + input_bound i) (2 ^ 64)); cbn [negb].
    + rewrite u64_small, IH by (assumption || unfold word64; lia). do 2 f_equal. lia.
    + replace (money + _ <? 2 ^ 64) with false by (symmetry; apply Z.ltb_ge; lia). reflexivity.
Qed.

Lemma outs_overflow_ok outs : forall money, Forall (fun o => word64 (out_amount o)) outs -> word64 money ->
  outs_overflow outs money = (money + sumZ (map out_amount outs) <? 2 ^ 64).
Proof.
  induction outs as [|o outs IH]; intros money T W; cbn [outs_overflow map sumZ fold_right].
  - unfold word64 in W. replace (money + 0 <? 2 ^ 64) with true by (symmetry; apply Z.ltb_lt; lia). reflexivity.
  - inversion_clear T as [|? ? To T']. fold (sumZ (map out_amount outs)).
    assert (0 <= sumZ (map out_amount outs)) as S by (apply sumZ_nonneg, Forall_map; eapply Forall_impl; [exact T'|]; intros j []; lia).
    rewrite overflow_test by assumption. unfold word64 in *. destruct (Z.ltb_spec (money + out_amount o) (2 ^ 64)); cbn [negb].
    + rewrite u64_small, IH by (assumption || unfold word64; lia). f_equal. lia.
    + symmetry. apply Z.ltb_ge. lia.
Qed.

(** The amounts that come in add up without a wrap-around when the bounds do. *)
Lemma inputs_amount_ok ins : forall acc, Forall input_typed ins -> 0 <= acc -> acc + sumZ (map input_bound ins) < 2 ^ 64 ->
  getTransactionAllInputsAmount cur ins acc = Some (acc + sumZ (map input_value ins)).
Proof.
  induction ins as [|i ins IH]; intros acc T Ha S; cbn [getTransactionAllInputsAmount map sumZ fold_right] in *; [f_equal; lia|].
  inversion_clear T as [|? ? Ti T']. fold (sumZ (map input_bound ins)) in S. fold (sumZ (map input_value ins)).
  pose proof (input_value_bound i Ti) as P. assert (0 <= sumZ (map input_bound ins)) as Sb.
  { apply sumZ_nonneg, Forall_map. eapply Forall_impl; [exact T'|]. intros j Hj. pose proof (input_value_bound j Hj). lia. }
  rewrite input_amount_ok by (assumption || unfold word64; lia). cbn [obind]. rewrite u64_small, IH by (assumption || lia). f_equal. lia.
Qed.

Lemma outs_amount_ok t : Forall (fun o => word64 (out_amount o)) (outputs t) -> sumZ (map out_amount (outputs t)) < 2 ^ 64 ->
  get_outs_money_amount t = sumZ (map out_amount (outputs t)).
Proof.
  intros T S. unfold get_outs_money_amount. rewrite <- (Z.add_0_l (sumZ _)).
  rewrite <- fold_sum; [|apply Forall_map; eapply Forall_impl; [exact T|]; intros o []; lia|lia..].
  clear. generalize 0. induction (outputs t) as [|o outs IH]; intros a; [reflexivity|]. cbn. apply IH.
Qed.
End Amounts.

(** An input whose term no deposit can have: its interest is asked for all the same. *)
Definition bad_term (cur : currency) (i : TransactionInput) : Prop :=
  match i with
  | MultisignatureInput _ _ _ term => term <> 0 /\ ~ m_depositMinTerm cur <= term <= m_depositMaxTerm cur
  | _ => False
  end.

Lemma bad_term_amount cur ins : Exists (bad_term cur) ins -> forall acc, getTransactionAllInputsAmount cur ins acc = None.
Proof.
  induction 1 as [i ins B|i ins _ IH]; intros acc; cbn [getTransactionAllInputsAmount].
  - destruct i as [| |a n o term]; [destruct B..|]. destruct B as [N B]. cbn [getTransactionInputAmount].
    rewrite (proj2 (Z.eqb_neq _ _) N). unfold calculateInterest.
    replace ((m_depositMinTerm cur <=? term) && (term <=? m_depositMaxTerm cur)) with false
      by (symmetry; apply andb_false_iff; rewrite !Z.leb_gt; lia). reflexivity.
  - destruct (getTransactionInputAmount cur i); cbn [obind]; [apply IH|reflexivity].
Qed.

Section Valid.
Context {CK : CryptoChecks} (cur : currency) (R : rate_ok cur).

Definition keys_of (o : TransactionOutput) : list bytes :=
  match target o with KeyOutput key => [key] | MultisignatureOutput keys _ _ => keys end.

(** What an output of a transaction of version [v] must satisfy. *)
Definition output_valid (v : Z) (o : TransactionOutput) : Prop :=
  Forall (fun key => ck_key key = Some true) (keys_of o) /\
  match target o with
  | KeyOutput _ => out_amount o <> 0
  | MultisignatureOutput keys requiredSignatureCount _ => TRANSACTION_VERSION_2 <= v /\ requiredSignatureCount <= Z.of_nat (length keys)
  end.

Lemma check_keys_ok keys : Forall (bytes_n 32) keys ->
  exists b, check_keys keys = Some b /\ (b = true <-> Forall (fun key => ck_key key = Some true) keys).
Proof.
  induction 1 as [|key keys K _ (b & E & IH)]; cbn [check_keys]; [exists true; split; [reflexivity|split; auto]|].
  destruct (ck_key_total key K) as [c Ec]. rewrite Ec. cbn [obind]. destruct c; cbn [negb].
  - exists b. split; [exact E|]. rewrite IH, Forall_cons. tauto.
  - exists false. split; [reflexivity|]. rewrite Forall_cons, Ec. intuition discriminate.
Qed.

Lemma check_outs_ok v outs : Forall (fun o => Forall (bytes_n 32) (keys_of o)) outs ->
  exists b, check_outs true v outs = Some b /\ (b = true <-> Forall (output_valid v) outs).
Proof.
  induction 1 as [|o outs K _ (b & E & IH)]; cbn [check_outs]; [exists true; split; [reflexivity|split; auto]|].
  setoid_rewrite Forall_cons. unfold output_valid at 1. unfold keys_of in *. destruct (target o) as [key|keys n term].
  - inversion_clear K as [|? ? K1 _]. destruct (Z.eqb_spec (out_amount o) 0); [exists false; split; [reflexivity|intuition discriminate]|].
    destruct (ck_key_total key K1) as [c Ec]. rewrite Ec. cbn [obind]. destruct c; cbn [negb].
    + exists b. split; [exact E|]. rewrite IH, Forall_singleton. tauto.
    + exists false. split; [reflexivity|]. rewrite Forall_singleton, Ec. intuition discriminate.
  - destruct (Z.ltb_spec v TRANSACTION_VERSION_2); [exists false; split; [reflexivity|]; intuition (discriminate || lia)|].
    destruct (Z.ltb_spec (Z.of_nat (length keys)) n); [exists false; split; [reflexivity|]; intuition (discriminate || lia)|].
    destruct (check_keys_ok keys K) as (c & -> & Ec). cbn [obind]. destruct c; cbn [negb].
    + exists b. split; [exact E|]. rewrite IH, <- Ec. intuition.
    + exists false. split; [reflexivity|]. rewrite <- Ec. intuition discriminate.
Qed.

(** A transaction with its types, the terms of its inputs those of deposits. *)
Record tx_typed (t : Transaction) : Prop := {
  ty_inputs : Forall (input_typed cur) (inputs t);
  ty_amounts : Forall (fun o => word64 (out_amount o)) (outputs t);
  ty_keys : Forall (fun o => Forall (bytes_n 32) (keys_of o)) (outputs t)
}.

(** What [check_tx_semantic] stands for. *)
Record semantic (t : Transaction) : Prop := {
  se_inputs : inputs t <> [];
  se_types : check_inputs_types_supported t = true;
  se_outputs : Forall (output_valid (version t)) (outputs t);
  se_in_fits : sumZ (map input_bound (inputs t)) < 2 ^ 64;
  se_out_fits : sumZ (map out_amount (outputs t)) < 2 ^ 64;
  se_balance : sumZ (map out_amount (outputs t)) <= sumZ (map (input_value cur) (inputs t));
  se_images : NoDup (images (inputs t));
  se_refs : NoDup (ms_refs (inputs t))
}.

Lemma check_tx_semantic_ok t : tx_typed t -> exists b, check_tx_semantic cur t = Some b /\ (b = true <-> semantic t).
Proof.
  intros [Ti Ta Tk]. unfold check_tx_semantic, check_outs_valid, check_money_overflow, check_inputs_overflow, check_outs_overflow.
  destruct (check_outs_ok (version t) (outputs t) Tk) as (bo & Eo & So).
  assert (forall (P : Prop), ~ P -> exists b, Some false = Some b /\ (b = true <-> P)) as No
    by (intros P N; exists false; split; [reflexivity|]; split; [discriminate|contradiction]).
  destruct (Nat.eqb_spec (length (inputs t)) 0) as [E0|N0].
  { apply No. intros []. destruct (inputs t); [congruence|discriminate]. }
  destruct (check_inputs_types_supported t) eqn:Et; cbn [negb]; [|apply No; intros []; congruence].
  rewrite Eo. cbn [obind]. destruct bo; cbn [negb]; [|apply No; intros [? ? F]; apply So in F; discriminate].
  rewrite (inputs_overflow_ok cur R) by (assumption || unfold word64; lia). cbn [obind].
  rewrite outs_overflow_ok by (assumption || unfold word64; lia). rewrite !Z.add_0_l.
  destruct (Z.ltb_spec (sumZ (map input_bound (inputs t))) (2 ^ 64)); cbn [andb negb]; [|apply No; intros []; lia].
  destruct (Z.ltb_spec (sumZ (map out_amount (outputs t))) (2 ^ 64)); cbn [negb]; [|apply No; intros []; lia].
  rewrite (inputs_amount_ok cur R), outs_amount_ok by (assumption || lia). cbn [obind]. rewrite Z.add_0_l.
  destruct (Z.ltb_spec (sumZ (map (input_value cur) (inputs t))) (sumZ (map out_amount (outputs t)))); [apply No; intros []; lia|].
  pose proof (keyimages_diff_ok (inputs t) ∅) as Ki. pose proof (multisignature_diff_ok (inputs t) ∅) as Km.
  unfold check_tx_inputs_keyimages_diff, checkMultisignatureInputsDiff.
  destruct (keyimages_diff (inputs t) ∅); cbn [negb].
  - exists (multisignature_diff (inputs t) ∅). split; [reflexivity|]. rewrite Km. split.
    + intros [Nr _]. split; try assumption; [destruct (inputs t); [cbn in N0; lia|discriminate]|apply So; reflexivity|apply Ki; reflexivity].
    + intros []. split; [assumption|set_solver].
  - apply No. intros []. assert (false = true) by (apply Ki; split; [assumption|set_solver]). discriminate.
Qed.
End Valid.

(** ** Correctness of the checks against the chain *)

Section Against.
Context {CK : CryptoChecks} (cur : currency) (getPrefixHash : Transaction -> bytes) (now : Z) (zone : bool).
Context (m_blocks : blocks) (st : store).

Lemma validateInput_unused amount count index term hash sigs : 0 <= index ->
  validateInput cur now m_blocks st amount count index term hash sigs = Some true -> unused (m_multisignatureOutputs st) (amount, index).
Proof.
  unfold validateInput, unused, usage. intros P. destruct (c_assert _) as [[]|]; cbn [obind]; [|discriminate]. cbn [fst snd].
  destruct (m_multisignatureOutputs st !! amount) as [v|] eqn:E; [|discriminate]. cbn [obind].
  destruct (Z.leb_spec (Z.of_nat (length v)) index); [discriminate|]. destruct (v !! Z.to_nat index) as [u|]; cbn [obind]; [|discriminate].
  destruct (isUsed u) eqn:U; [discriminate|]. intros _. eauto.
Qed.

(** The inputs of a transaction that passes are not spent. *)
Lemma check_inputs_unspent hash ins : forall sigs max max', Forall (fun r => 0 <= r.2) (ms_refs ins) ->
  check_inputs cur now zone m_blocks st hash ins sigs max = Some (true, max') ->
  Forall (unused (m_multisignatureOutputs st)) (ms_refs ins) /\ (forall x, x ∈ images ins -> x ∉ m_spent_keys st).
Proof.
  induction ins as [|i ins IH]; intros sigs max max' P E; [split; [constructor|intros x H; inversion H]|].
  cbn [check_inputs] in E. destruct sigs as [|sig sigs]; [discriminate|]. destruct i as [b|a o image|a c o t]; [discriminate|..].
  - destruct (length o =? 0)%nat; [discriminate|]. case_decide as D; [discriminate|].
    apply obind_Some in E as ([r m] & _ & E). destruct r; cbn [negb] in E; [|discriminate].
    destruct (IH _ _ _ P E) as [F N]. split; [exact F|]. intros x. cbn. intros [->|H]%elem_of_cons; [exact D|apply N, H].
  - apply obind_Some in E as (r & Ev & E). destruct r; cbn [negb] in E; [|discriminate].
    cbn in P. apply Forall_cons in P as [P0 P]. destruct (IH _ _ _ P E) as [F N]. split; [|exact N].
    cbn. constructor; [|exact F]. eapply validateInput_unused, Ev. exact P0.
Qed.

Lemma checkTransactionInputs_unspent t max : Forall (fun r => 0 <= r.2) (ms_refs (inputs t)) ->
  checkTransactionInputs cur getPrefixHash now zone m_blocks st t = Some (true, max) ->
  spendable t st /\ (forall x, x ∈ images (inputs t) -> x ∉ m_spent_keys st).
Proof. intros P E. eapply check_inputs_unspent; [exact P|exact E]. Qed.
End Against.
