(* ===== verification/Blockchain.v ===== *)
(** * Adding and removing blocks (CryptoNoteCore/Blockchain.cpp)

    The state of the main chain and its operations on whole blocks: [pushBlock]
    validates a block and its transactions, pushing them one by one, and enters the
    block into every index; [popBlock] takes the last block off again.

    The hashes of blocks and transactions, their sizes, the payment id of a
    transaction and the slow hash of a block are arguments of the model: they are
    computed from the binary form, which it does not have.  The transactions of a
    block come from the pool and go back to it: they are an argument of [pushBlock]
    and a result of [popBlock].  [None] is a failed assertion, an exception, or an
    access out of range. *)

From Stdlib Require Import ZArith Lia List Bool.
From S2P Require Import Prelude Bytes IntUtil Difficulty Currency DepositIndex Checkpoints BlockIndex TxStore Ledger BlockchainIndices UpgradeDetector TxCheck.
From stdpp Require Import gmap gmultiset list.
Import ListNotations.
Open Scope Z_scope.
Open Scope cmon_scope.
Set Default Goal Selector "!".

(** ** State *)

Record chain := mk_chain {
  m_blocks : blocks;
  m_blockIndex : list bytes;
  m_store : store;
  m_depositIndex : DepositIndex.DepositIndex;
  m_timestampIndex : list (Z * bytes);
  m_generatedTransactionsIndex : GeneratedTransactionsIndex;
  m_votingCompleteHeight : Z;
  m_current_block_cumul_sz_limit : Z
}.

Definition empty_chain : chain := mk_chain [] [] empty_store DepositIndex.empty_index [] gen_empty UNDEF_HEIGHT 0.

(** [block_verification_context] *)
Record bvc := mk_bvc { m_added_to_main_chain : bool; m_verifivation_failed : bool }.
Definition added : bvc := mk_bvc true false.
Definition failed : bvc := mk_bvc false true.

Definition NULL_HASH : bytes := repeat 0 32.

Definition get_block_height (b : Block) : Z :=
  match inputs (baseTransaction b) with [BaseInput blockIndex] => blockIndex | _ => 0 end.

(** What the model takes from the binary form of blocks and transactions. *)
Class Codec := {
  get_block_hash : Block -> bytes;
  get_block_longhash : Block -> option bytes;
  getObjectHash : Transaction -> bytes;
  getPrefixHash : Transaction -> bytes;
  getObjectBinarySize : Transaction -> Z;
  getPaymentId : Transaction -> option bytes
}.

Section Blockchain.
Context {CK : CryptoChecks} {CO : Codec}.
Variable cur : currency.
Variable m_checkpoints : points.
Variable m_is_in_checkpoint_zone : bool.
(** [time(NULL)] *)
Variable now : Z.

(** ** Queries *)

Definition getTailId (c : chain) : option bytes :=
  match m_blocks c with [] => Some NULL_HASH | _ => bi_getTailId (m_blockIndex c) end.

Definition difficultyBlocksCount : nat := m_difficultyWindow cur + m_difficultyLag cur.

Definition getDifficultyForNextBlock (c : chain) : option Z :=
  let offset := (length (m_blocks c) - Nat.min (length (m_blocks c)) difficultyBlocksCount)%nat in
  let offset := if (offset =? 0)%nat then 1%nat else offset in
  let window := drop offset (m_blocks c) in
  nextDifficulty cur ((fun e => timestamp (bl e)) <$> window) (cumulative_difficulty <$> window).

Definition getCoinsInCirculation (c : chain) : Z :=
  match last (m_blocks c) with None => 0 | Some e => already_generated_coins e end.

Definition coinsEmittedAtHeight (c : chain) (height : Z) : option Z :=
  e <- m_blocks c !! Z.to_nat height ;; Some (already_generated_coins e).

Definition difficultyAtHeight (c : chain) (height : Z) : option Z :=
  current <- m_blocks c !! Z.to_nat height ;;
  if height <? 1 then Some (cumulative_difficulty current) else
  previous <- m_blocks c !! Z.to_nat (height - 1) ;;
  Some (u64 (cumulative_difficulty current - cumulative_difficulty previous)).

(** The sizes appended; [None] is the result [false]. *)
Definition getBackwardBlocksSize (c : chain) (from_height : Z) (count : nat) : option (list Z) :=
  if negb (from_height <? chain_height (m_blocks c)) then None else
  let n := Z.to_nat (from_height + 1) in
  Some (block_cumulative_size <$> drop (n - Nat.min n count) (take n (m_blocks c))).

Definition get_last_n_blocks_sizes (c : chain) (count : nat) : list Z :=
  match m_blocks c with
  | [] => []
  | _ => default [] (getBackwardBlocksSize c (chain_height (m_blocks c) - 1) count)
  end.

Definition check_block_timestamp (timestamps : list Z) (b : Block) : bool :=
  if (length timestamps <? m_timestampCheckWindow cur)%nat then true else
  negb (timestamp b <? medianValue timestamps).

Definition check_block_timestamp_main (c : chain) (b : Block) : bool :=
  if u64 (now + m_blockFutureTimeLimit cur) <? timestamp b then false else
  let offset := (length (m_blocks c) - m_timestampCheckWindow cur)%nat in
  check_block_timestamp ((fun e => timestamp (bl e)) <$> drop offset (m_blocks c)) b.

Definition checkBlockVersion (c : chain) (b : Block) : bool :=
  majorVersion b =? get_block_major_version_for_height cur BLOCK_MAJOR_VERSION_2 (m_votingCompleteHeight c) (get_block_height b).

Definition checkCumulativeBlockSize (cumulativeBlockSize height : Z) : option bool :=
  maxBlockCumulativeSize <- maxBlockCumulativeSize cur height ;; Some (negb (maxBlockCumulativeSize <? cumulativeBlockSize)).

Definition next_cumulative_size_limit (c : chain) : Z :=
  let median := medianValue (get_last_n_blocks_sizes c (m_rewardBlocksWindow cur)) in
  let median := if median <=? m_blockGrantedFullRewardZone cur then m_blockGrantedFullRewardZone cur else median in
  u64 (median * 2).

Definition checkProofOfWork (b : Block) (currentDiffic : Z) : bool :=
  match get_block_longhash b with None => false | Some proofOfWork => check_hash proofOfWork currentDiffic end.

Definition prevalidate_miner_transaction (b : Block) (height : Z) : option bool :=
  match inputs (baseTransaction b) with
  | [BaseInput blockIndex] =>
      if negb (blockIndex =? height) then Some false else
      if negb (unlockTime (baseTransaction b) =? u64 (height + m_minedMoneyUnlockWindow cur)) then Some false else
      v <- check_outs_valid false (baseTransaction b) ;;
      if negb v then Some false else
      Some (check_outs_overflow (baseTransaction b))
  | _ => Some false
  end.

(** ** Pushing a block *)

Inductive push_result :=
| Invalid (st : store)
| Pushed (block : BlockEntry) (st : store) (cumulative_block_size fee_summary interestSummary : Z).

Definition with_transactions (block : BlockEntry) (ts : list TransactionEntry) : BlockEntry :=
  mk_bentry (bl block) (be_height block) (block_cumulative_size block) (cumulative_difficulty block) (already_generated_coins block) ts.

(** The loop over the transactions, with [i] done: they are pushed one by one, and popped again when
    one of them is invalid.  The result of [pushTransaction] is not looked at. *)
Fixpoint push_transactions (m_blocks : blocks) (minerTransactionHash : bytes) (txs : list Transaction) (i : nat) (block : BlockEntry)
    (index : TransactionIndex) (st : store) (cumulative_block_size fee_summary interestSummary : Z) : option push_result :=
  match txs with
  | [] => Some (Pushed block st cumulative_block_size fee_summary interestSummary)
  | t :: txs =>
      tx_id <- transactionHashes (bl block) !! i ;;
      let extended := with_transactions block (transactions block ++ [mk_tentry t []]) in
      let blob_size := getObjectBinarySize t in
      amount_in <- getTransactionAllInputsAmount cur (inputs t) 0 ;;
      let fee := u64 (amount_in - get_outs_money_amount t) in
      let version_ok := negb ((majorVersion (bl block) =? BLOCK_MAJOR_VERSION_1) && (TRANSACTION_VERSION_1 <? version t)) in
      '(inputs_ok, _) <- checkTransactionInputs cur getPrefixHash now m_is_in_checkpoint_zone m_blocks st t ;;
      let outputs_ok := check_tx_outputs cur t in
      if negb (version_ok && inputs_ok && outputs_ok) then
        st <- popTransactions getObjectHash getPaymentId block minerTransactionHash st ;; Some (Invalid st)
      else
      let index := mk_tindex (ti_block index) (wrap U16 (ti_transaction index + 1)) in
      '(_, block, st) <- pushTransaction getObjectHash getPaymentId extended tx_id index st ;;
      interest <- calculateTotalTransactionInterest cur (inputs t) 0 ;;
      push_transactions m_blocks minerTransactionHash txs (S i) block index st (u64 (cumulative_block_size + blob_size))
        (u64 (fee_summary + fee)) (u64 (interestSummary + interest))
  end.

(** The deposits of a block, less those it takes out. *)
Definition deposit_of_input (deposit : Z) (i : TransactionInput) : Z :=
  match i with MultisignatureInput amount _ _ term => if 0 <? term then wrap I64 (deposit - amount) else deposit | _ => deposit end.

Definition deposit_of_output (deposit : Z) (o : TransactionOutput) : Z :=
  match target o with MultisignatureOutput _ _ term => if 0 <? term then wrap I64 (deposit + out_amount o) else deposit | _ => deposit end.

Definition block_deposit (block : BlockEntry) : Z :=
  fold_left (fun d e => fold_left deposit_of_output (outputs (tx e)) (fold_left deposit_of_input (inputs (tx e)) d)) (transactions block) 0.

Definition pushToDepositIndex (block : BlockEntry) (interest : Z) (d : DepositIndex.DepositIndex) : option DepositIndex.DepositIndex :=
  DepositIndex.pushBlock (block_deposit block) interest d.

(** [pushBlock(BlockEntry&)] *)
Definition push_entry (block : BlockEntry) (c : chain) : option chain :=
  let blockHash := get_block_hash (bl block) in
  let blocks := m_blocks c ++ [block] in
  let blockIndex := snd (bi_push blockHash (m_blockIndex c)) in
  '(_, generated) <- gen_add (bl block) (m_generatedTransactionsIndex c) ;;
  _ <- c_assert (bi_size blockIndex =? chain_height blocks) ;;
  Some (mk_chain blocks blockIndex (m_store c) (m_depositIndex c) (ts_add (timestamp (bl block)) blockHash (m_timestampIndex c))
    generated (m_votingCompleteHeight c) (m_current_block_cumul_sz_limit c)).

Definition with_store (st : store) (c : chain) : chain :=
  mk_chain (m_blocks c) (m_blockIndex c) st (m_depositIndex c) (m_timestampIndex c) (m_generatedTransactionsIndex c)
    (m_votingCompleteHeight c) (m_current_block_cumul_sz_limit c).

(** The checks before the first transaction is pushed: the difficulty of the block when they pass. *)
Definition check_block_header (blockData : Block) (c : chain) : option (Z + bvc) :=
  let blockHash := get_block_hash blockData in
  if hasBlock blockHash (m_blockIndex c) then Some (inr failed) else
  if negb (checkBlockVersion c blockData) then Some (inr failed) else
  tail <- getTailId c ;;
  if negb (bool_decide (previousBlockHash blockData = tail)) then Some (inr failed) else
  if negb (check_block_timestamp_main c blockData) then Some (inr failed) else
  currentDifficulty <- getDifficultyForNextBlock c ;;
  if currentDifficulty =? 0 then Some (inr (mk_bvc false false)) else
  let passes :=
    if is_in_checkpoint_zone (getCurrentBlockchainHeight (m_blocks c)) m_checkpoints then
      fst (check_block (getCurrentBlockchainHeight (m_blocks c)) blockHash m_checkpoints)
    else checkProofOfWork blockData currentDifficulty in
  if negb passes then Some (inr failed) else
  v <- prevalidate_miner_transaction blockData (u32 (chain_height (m_blocks c))) ;;
  if negb v then Some (inr failed) else Some (inl currentDifficulty).

Definition finish_block (block : BlockEntry) (cumulative_block_size currentDifficulty emissionChange interestSummary : Z) (c : chain) : BlockEntry :=
  let already_generated_coins := getCoinsInCirculation c in
  mk_bentry (bl block) (u32 (chain_height (m_blocks c))) cumulative_block_size
    (match last (m_blocks c) with None => currentDifficulty | Some e => u64 (currentDifficulty + cumulative_difficulty e) end)
    (u64 (u64 (already_generated_coins + u64 emissionChange) + interestSummary)) (transactions block).

Definition pushBlock (blockData : Block) (txs : list Transaction) (c : chain) : option (bool * bvc * chain) :=
  header <- check_block_header blockData c ;;
  match header with
  | inr v => Some (false, v, c)
  | inl currentDifficulty =>
      let minerTransactionHash := getObjectHash (baseTransaction blockData) in
      let block := mk_bentry blockData 0 0 0 0 [mk_tentry (baseTransaction blockData) []] in
      let transactionIndex := mk_tindex (u32 (chain_height (m_blocks c))) 0 in
      '(_, block, st) <- pushTransaction getObjectHash getPaymentId block minerTransactionHash transactionIndex (m_store c) ;;
      result <- push_transactions (m_blocks c) minerTransactionHash txs 0 block transactionIndex st
        (getObjectBinarySize (baseTransaction blockData)) 0 0 ;;
      match result with
      | Invalid st => Some (false, failed, with_store st c)
      | Pushed block st cumulative_block_size fee_summary interestSummary =>
          size_ok <- checkCumulativeBlockSize cumulative_block_size (chain_height (m_blocks c)) ;;
          if negb size_ok then Some (false, failed, with_store st c) else
          r <- validate_miner_transaction cur (out_amount <$> outputs (baseTransaction blockData)) (u32 (chain_height (m_blocks c)))
            cumulative_block_size (get_last_n_blocks_sizes c (m_rewardBlocksWindow cur)) (getCoinsInCirculation c) fee_summary ;;
          match r with
          | None =>
              st <- popTransactions getObjectHash getPaymentId block minerTransactionHash st ;;
              Some (false, failed, with_store st c)
          | Some (reward, emissionChange) =>
              let block := finish_block block cumulative_block_size currentDifficulty emissionChange interestSummary c in
              c <- push_entry block (with_store st c) ;;
              deposits <- pushToDepositIndex block interestSummary (m_depositIndex c) ;;
              voting <- blockPushed cur BLOCK_MAJOR_VERSION_2 (m_blocks c) (m_votingCompleteHeight c) ;;
              Some (true, added, mk_chain (m_blocks c) (m_blockIndex c) (m_store c) deposits (m_timestampIndex c)
                (m_generatedTransactionsIndex c) voting (next_cumulative_size_limit c))
          end
      end
  end.

(** ** Popping a block *)

(** The transactions that go back to the pool, and the new state. *)
Definition popBlock (blockHash : bytes) (c : chain) : option (list Transaction * chain) :=
  match last (m_blocks c) with
  | None => Some ([], c)
  | Some block =>
      let txs := tx <$> tail (transactions block) in
      st <- popTransactions getObjectHash getPaymentId block (getObjectHash (baseTransaction (bl block))) (m_store c) ;;
      let timestampIndex := snd (ts_remove (timestamp (bl block)) blockHash (m_timestampIndex c)) in
      '(_, generated) <- gen_remove (bl block) (m_generatedTransactionsIndex c) ;;
      deposits <- DepositIndex.popBlock (m_depositIndex c) ;;
      let blocks := removelast (m_blocks c) in
      blockIndex <- bi_pop (m_blockIndex c) ;;
      _ <- c_assert (bi_size blockIndex =? chain_height blocks) ;;
      voting <- blockPopped cur blocks (m_votingCompleteHeight c) ;;
      Some (txs, mk_chain blocks blockIndex st deposits timestampIndex generated voting (m_current_block_cumul_sz_limit c))
  end.

(** The loop of [switch_to_alternative_blockchain] that disconnects the blocks from [split_height] on:
    [for (size_t i = m_blocks.size() - 1; i >= split_height; i--)]. *)
Fixpoint disconnect (fuel : nat) (i split_height : Z) (disconnected_chain : list Block) (c : chain) : option (list Block * chain) :=
  match fuel with
  | O => None
  | S fuel =>
      if i <? split_height then Some (disconnected_chain, c) else
      e <- m_blocks c !! Z.to_nat i ;;
      '(_, c) <- popBlock (get_block_hash (bl e)) c ;;
      disconnect fuel (u64 (i - 1)) split_height (bl e :: disconnected_chain) c
  end.

(** [None] is a read past the end of the chain: the height one above the last block is let through. *)
Definition getBlockByHeight (c : chain) (blockHeight : Z) : option (option (bytes * Block)) :=
  if getCurrentBlockchainHeight (m_blocks c) <? blockHeight then Some None else
  hash <- getBlockId blockHeight (m_blockIndex c) ;;
  e <- m_blocks c !! Z.to_nat blockHeight ;;
  Some (Some (hash, bl e)).

Definition getBlockContainingTransaction (c : chain) (txId : bytes) : option (option (bytes * Z)) :=
  match m_transactionMap (m_store c) !! txId with
  | None => Some None
  | Some it =>
      e <- m_blocks c !! Z.to_nat (ti_block it) ;;
      blockId <- getBlockId (be_height e) (m_blockIndex c) ;;
      Some (Some (blockId, be_height e))
  end.
End Blockchain.
