(* ===== verification/BlockFormat.v ===== *)
(** * The binary form of transactions and blocks (CryptoNoteCore/CryptoNoteSerialization.cpp)

    The [serialize] functions as wires, the conversions from and to byte arrays and
    the hashes and sizes computed from them (CryptoNoteTools.h,
    CryptoNoteFormatUtils.cpp).  [binary_codec] is the codec of the chain that they
    make; the slow hash of the proof of work stays an argument.

    The fields of an object are nested pairs in the order of serialization. *)

From Stdlib Require Import ZArith Lia List Bool.
From S2P Require Import Prelude Bytes Varint Crypto TreeHash IntUtil Currency DepositIndex TxStore BlockchainIndices UpgradeDetector TxCheck Blockchain Serialization.
From stdpp Require Import base list.
Import ListNotations.
Open Scope Z_scope.
Open Scope cmon_scope.
Set Default Goal Selector "!".

(** ** Formats *)

(** [serializePod] on hashes, keys and key images, and on signatures. *)
Definition pod32 : wire bytes := binary 32.
Definition signature_pod : wire bytes := binary 64.

Definition serializeVarintVector : wire (list Z) := serializeContainer (uint 32).

Definition serialize_KeyInput : wire (Z * (list Z * bytes)) :=
  and_then (uint 64) (fun _ => and_then serializeVarintVector (fun _ => pod32)).

Definition serialize_MultisignatureInput : wire (Z * (Z * (Z * Z))) :=
  and_then (uint 64) (fun _ => and_then (uint 8) (fun _ => and_then (uint 32) (fun _ => uint 32))).

(** The tag and the value; an unknown tag throws. *)
Definition serialize_TransactionInput : wire TransactionInput := mk_wire
  (fun i =>
    match i with
    | BaseInput blockIndex => bs <- put (uint 32) blockIndex ;; Some (0xff :: bs)
    | KeyInput amount outputIndexes keyImage => bs <- put serialize_KeyInput (amount, (outputIndexes, keyImage)) ;; Some (0x2 :: bs)
    | MultisignatureInput amount signatureCount outputIndex term =>
        bs <- put serialize_MultisignatureInput (amount, (signatureCount, (outputIndex, term))) ;; Some (0x3 :: bs)
    end)
  (fun stream =>
    '(tag, stream) <- get (binary_uint 1) stream ;;
    if tag =? 0xff then '(blockIndex, stream) <- get (uint 32) stream ;; Some (BaseInput blockIndex, stream)
    else if tag =? 0x2 then
      '(v, stream) <- get serialize_KeyInput stream ;; let '(amount, (outputIndexes, keyImage)) := v in Some (KeyInput amount outputIndexes keyImage, stream)
    else if tag =? 0x3 then
      '(v, stream) <- get serialize_MultisignatureInput stream ;;
      let '(amount, (signatureCount, (outputIndex, term))) := v in Some (MultisignatureInput amount signatureCount outputIndex term, stream)
    else None).

Definition serialize_MultisignatureOutput : wire (list bytes * (Z * Z)) :=
  and_then (serializeContainer pod32) (fun _ => and_then (uint 8) (fun _ => uint 32)).

Definition serialize_TransactionOutputTarget : wire TransactionOutputTarget := mk_wire
  (fun o =>
    match o with
    | KeyOutput key => bs <- put pod32 key ;; Some (0x2 :: bs)
    | MultisignatureOutput keys requiredSignatureCount term =>
        bs <- put serialize_MultisignatureOutput (keys, (requiredSignatureCount, term)) ;; Some (0x3 :: bs)
    end)
  (fun stream =>
    '(tag, stream) <- get (binary_uint 1) stream ;;
    if tag =? 0x2 then '(key, stream) <- get pod32 stream ;; Some (KeyOutput key, stream)
    else if tag =? 0x3 then
      '(v, stream) <- get serialize_MultisignatureOutput stream ;;
      let '(keys, (requiredSignatureCount, term)) := v in Some (MultisignatureOutput keys requiredSignatureCount term, stream)
    else None).

Definition serialize_TransactionOutput : wire TransactionOutput :=
  object (fun o => (out_amount o, target o)) (fun '(amount, t) => mk_output amount t)
    (and_then (uint 64) (fun _ => serialize_TransactionOutputTarget)).

(** The fields of [TransactionPrefix]. *)
Definition prefix : Type := Z * (Z * (list TransactionInput * (list TransactionOutput * bytes))).

Definition prefix_of (t : Transaction) : prefix := (version t, (unlockTime t, (inputs t, (outputs t, extra t)))).

Definition serialize_TransactionPrefix : wire prefix :=
  and_then (checked (fun version => negb (TRANSACTION_VERSION_2 <? version)) (uint 8)) (fun _ => and_then (uint 64) (fun _ =>
    and_then (serializeContainer serialize_TransactionInput) (fun _ => and_then (serializeContainer serialize_TransactionOutput) (fun _ => blob)))).

Definition getSignaturesCount (i : TransactionInput) : nat :=
  match i with
  | BaseInput _ => 0
  | KeyInput _ outputIndexes _ => length outputIndexes
  | MultisignatureInput _ signatureCount _ _ => Z.to_nat signatureCount
  end.

(** The loop over the inputs and their signatures. *)
Fixpoint put_signatures (ins : list TransactionInput) (signatures : list (list bytes)) : option bytes :=
  match ins, signatures with
  | [], [] => Some []
  | i :: ins, s :: signatures => b <- put (items signature_pod (getSignaturesCount i)) s ;; bs <- put_signatures ins signatures ;; Some (b ++ bs)
  | _, _ => None
  end.

Fixpoint get_signatures (ins : list TransactionInput) (stream : bytes) : option (list (list bytes) * bytes) :=
  match ins with
  | [] => Some ([], stream)
  | i :: ins => '(s, stream) <- get (items signature_pod (getSignaturesCount i)) stream ;; '(signatures, stream) <- get_signatures ins stream ;; Some (s :: signatures, stream)
  end.

(** On output the vector of signatures may be empty when no input has any. *)
Definition serialize_signatures (ins : list TransactionInput) : wire (list (list bytes)) := mk_wire
  (fun signatures =>
    match signatures with
    | [] => if forallb (fun i => getSignaturesCount i =? 0)%nat ins then Some [] else None
    | _ => if (length ins =? length signatures)%nat then put_signatures ins signatures else None
    end)
  (get_signatures ins).

Definition serialize_Transaction : wire Transaction :=
  object (fun t => (prefix_of t, signatures t))
    (fun '((version, (unlockTime, (inputs, (outputs, extra)))), signatures) => mk_tx version unlockTime inputs outputs extra signatures)
    (and_then serialize_TransactionPrefix (fun p => serialize_signatures p.2.2.1)).

(** The fields of [BlockHeader]. *)
Definition header : Type := Z * (Z * (Z * (bytes * Z))).

Definition header_of (b : Block) : header := (majorVersion b, (minorVersion b, (timestamp b, (previousBlockHash b, nonce b)))).

Definition serializeBlockHeader : wire header :=
  and_then (checked (fun majorVersion => negb (BLOCK_MAJOR_VERSION_2 <? majorVersion)) (uint 8)) (fun _ => and_then (uint 8) (fun _ => and_then (uint 64) (fun _ =>
    and_then pod32 (fun _ => binary_uint 4)))).

Definition serialize_Block : wire Block :=
  object (fun b => (header_of b, (baseTransaction b, transactionHashes b)))
    (fun '((majorVersion, (minorVersion, (timestamp, (previousBlockHash, nonce)))), (baseTransaction, transactionHashes)) =>
      mk_block majorVersion minorVersion nonce timestamp previousBlockHash baseTransaction transactionHashes)
    (and_then serializeBlockHeader (fun _ => and_then serialize_Transaction (fun _ => serializeContainer pod32))).

(** ** Byte arrays (CryptoNoteTools.h) *)

Definition toBinaryArray {A} (w : wire A) (object : A) : option bytes := put w object.

(** All bytes must be used. *)
Definition fromBinaryArray {A} (w : wire A) (binaryArray : bytes) : option A :=
  match get w binaryArray with Some (object, []) => Some object | _ => None end.

Definition objectBinarySize {A} (w : wire A) (object : A) : Z :=
  match toBinaryArray w object with Some ba => Z.of_nat (length ba) | None => i_max U64 end.

Section Hashes.
Context {FH : FastHash}.

(** [getObjectHash]: the null hash when the object cannot be written; [None] is an abort in the hash function. *)
Definition objectHash {A} (w : wire A) (object : A) : option bytes :=
  match toBinaryArray w object with Some ba => fast_hash ba | None => Some NULL_HASH end.

Definition get_tx_tree_hash (b : Block) : option bytes :=
  h <- objectHash serialize_Transaction (baseTransaction b) ;; tree_hash (h :: transactionHashes b).

(** [Some None] when the header cannot be written. *)
Definition get_block_hashing_blob (b : Block) : option (option bytes) :=
  match toBinaryArray serializeBlockHeader (header_of b) with
  | None => Some None
  | Some ba =>
      treeRootHash <- get_tx_tree_hash b ;;
      Some (Some (ba ++ treeRootHash ++ write_varint (u64 (Z.of_nat (length (transactionHashes b)) + 1))))
  end.

(** The hash of the blob as an object, with its length in front. *)
Definition block_hash (b : Block) : option bytes :=
  ba <- get_block_hashing_blob b ;;
  match ba with None => Some NULL_HASH | Some ba => objectHash blob ba end.

Definition block_longhash (cn_slow_hash : bytes -> bytes) (b : Block) : option bytes :=
  match get_block_hashing_blob b with Some (Some ba) => Some (cn_slow_hash ba) | _ => None end.

(** The transaction, its hash and the hash of its prefix. *)
Definition parseAndValidateTransactionFromBinaryArray (tx_blob : bytes) : option (option (Transaction * bytes * bytes)) :=
  match fromBinaryArray serialize_Transaction tx_blob with
  | None => Some None
  | Some t => tx_hash <- fast_hash tx_blob ;; tx_prefix_hash <- objectHash serialize_TransactionPrefix (prefix_of t) ;; Some (Some (t, tx_hash, tx_prefix_hash))
  end.
End Hashes.

(** ** Objects that have a binary form *)

Definition sized {A} (ok : A -> Prop) (l : list A) : Prop := Forall ok l /\ Z.of_nat (length l) <= MAX_SIZE.

Definition input_format (i : TransactionInput) : Prop :=
  match i with
  | BaseInput blockIndex => 0 <= blockIndex < 2 ^ 32
  | KeyInput amount outputIndexes keyImage => 0 <= amount < 2 ^ 64 /\ sized (fun o => 0 <= o < 2 ^ 32) outputIndexes /\ bytes_n 32 keyImage
  | MultisignatureInput amount signatureCount outputIndex term =>
      0 <= amount < 2 ^ 64 /\ 0 <= signatureCount < 2 ^ 8 /\ 0 <= outputIndex < 2 ^ 32 /\ 0 <= term < 2 ^ 32
  end.

Definition target_format (o : TransactionOutputTarget) : Prop :=
  match o with
  | KeyOutput key => bytes_n 32 key
  | MultisignatureOutput keys requiredSignatureCount term => sized (bytes_n 32) keys /\ 0 <= requiredSignatureCount < 2 ^ 8 /\ 0 <= term < 2 ^ 32
  end.

Definition output_format (o : TransactionOutput) : Prop := 0 <= out_amount o < 2 ^ 64 /\ target_format (target o).

Definition signatures_format (ins : list TransactionInput) (signatures : list (list bytes)) : Prop :=
  Forall2 (fun i s => Forall (bytes_n 64) s /\ length s = getSignaturesCount i) ins signatures.

Record prefix_format (t : Transaction) : Prop := {
  tf_version : 0 <= version t <= TRANSACTION_VERSION_2;
  tf_unlock : 0 <= unlockTime t < 2 ^ 64;
  tf_inputs : sized input_format (inputs t);
  tf_outputs : sized output_format (outputs t);
  tf_extra : sized byte (extra t)
}.

Definition tx_format (t : Transaction) : Prop := prefix_format t /\ signatures_format (inputs t) (signatures t).

Record block_header_format (b : Block) : Prop := {
  bf_major : 0 <= majorVersion b <= BLOCK_MAJOR_VERSION_2;
  bf_minor : 0 <= minorVersion b < 2 ^ 8;
  bf_time : 0 <= timestamp b < 2 ^ 64;
  bf_previous : bytes_n 32 (previousBlockHash b);
  bf_nonce : 0 <= nonce b < 2 ^ 32
}.

Definition block_format (b : Block) : Prop :=
  block_header_format b /\ tx_format (baseTransaction b) /\ sized (bytes_n 32) (transactionHashes b).

(** *** The laws *)

(** The laws of a composite wire from those of its parts, then its condition. *)
Ltac wire_parts := lazymatch goal with
  | |- Lawful _ (uint _) => apply uint_lawful; split; [reflexivity|discriminate]
  | |- Lawful _ (binary _) => apply binary_lawful
  | |- Lawful _ (binary_uint _) => apply binary_uint_lawful
  | |- Lawful _ blob => apply blob_lawful
  | |- Lawful _ (serializeContainer _) => eapply serializeContainer_lawful; wire_parts
  | |- Lawful _ (checked _ _) => eapply checked_lawful; wire_parts
  | |- Lawful _ (and_then _ _) => eapply and_then_lawful; [wire_parts|intros; wire_parts]
  | L : Lawful _ ?w |- Lawful _ ?w => exact L
  end.
Ltac wire_law := eapply lawful_iff; [|wire_parts].

(** A tag byte in front of a form. *)
Lemma get_tag tag rest : 0 <= tag < 256 -> get (binary_uint 1) (tag :: rest) = Some (tag, rest).
Proof. intros H. cbn [binary_uint get]. change (tag :: rest) with ([tag] ++ rest). rewrite (read_app 1 [tag] rest) by reflexivity. cbn [obind le_val]. rewrite Z.mul_0_r, Z.add_0_r. reflexivity. Qed.

Lemma get_tag_Some stream tag rest : Forall byte stream -> get (binary_uint 1) stream = Some (tag, rest) -> stream = tag :: rest /\ 0 <= tag < 256 /\ Forall byte rest.
Proof.
  intros F E. pose proof F as F'. apply (get_put (Lawful := binary_uint_lawful 1)) in E as (H & bs & [= <-] & E); [|exact F]. change (256 ^ Z.of_nat 1) with 256 in H.
  cbn [le_bytes] in E. rewrite Z.mod_small in E by lia. subst stream. apply list.Forall_cons in F' as [_ F']. auto.
Qed.

Lemma key_input_law : Lawful (fun v => 0 <= v.1 < 2 ^ 64 /\ sized (fun o => 0 <= o < 2 ^ 32) v.2.1 /\ bytes_n 32 v.2.2) serialize_KeyInput.
Proof. unfold serialize_KeyInput, serializeVarintVector, pod32, sized. wire_law. intros [a [o k]]. cbn. tauto. Qed.

Lemma multisignature_input_law : Lawful (fun v => 0 <= v.1 < 2 ^ 64 /\ 0 <= v.2.1 < 2 ^ 8 /\ 0 <= v.2.2.1 < 2 ^ 32 /\ 0 <= v.2.2.2 < 2 ^ 32) serialize_MultisignatureInput.
Proof. unfold serialize_MultisignatureInput. wire_law. intros [a [c [o t]]]. cbn [fst snd]. tauto. Qed.

Lemma multisignature_output_law : Lawful (fun v => sized (bytes_n 32) v.1 /\ 0 <= v.2.1 < 2 ^ 8 /\ 0 <= v.2.2 < 2 ^ 32) serialize_MultisignatureOutput.
Proof. unfold serialize_MultisignatureOutput, pod32, sized. wire_law. intros [k [c t]]. cbn [fst snd]. tauto. Qed.

(** Writing a value behind its tag, and reading it. *)
Lemma tagged_put {A} (ok : A -> Prop) (w : wire A) tag x : Lawful ok w -> 0 <= tag < 256 -> ok x ->
  exists bs, put w x = Some bs /\ Forall byte (tag :: bs) /\
    forall rest, Forall byte rest -> get (binary_uint 1) ((tag :: bs) ++ rest) = Some (tag, bs ++ rest) /\ get w (bs ++ rest) = Some (x, rest).
Proof.
  intros L Ht Ox. destruct (put_get x Ox) as (bs & E & F & G). exists bs. split; [exact E|]. split; [constructor; [exact Ht|exact F]|].
  intros rest Fr. split; [apply get_tag, Ht|apply G, Fr].
Qed.

Lemma input_law : Lawful input_format serialize_TransactionInput.
Proof.
  pose proof (uint_lawful 32 ltac:(lia)) as L1. pose proof key_input_law as L2. pose proof multisignature_input_law as L3. split.
  - intros [h|a o k|a c o t] H; cbn [serialize_TransactionInput put get].
    + destruct (tagged_put _ _ 0xff h L1 ltac:(lia) H) as (bs & -> & F & G). eexists. split; [reflexivity|]. split; [exact F|]. intros rest Fr.
      destruct (G rest Fr) as [-> G2]. cbn [obind Z.eqb Pos.eqb]. rewrite G2. reflexivity.
    + destruct (tagged_put _ _ 0x2 (a, (o, k)) L2 ltac:(lia) H) as (bs & -> & F & G). eexists. split; [reflexivity|]. split; [exact F|]. intros rest Fr.
      destruct (G rest Fr) as [-> G2]. cbn [obind Z.eqb Pos.eqb]. rewrite G2. reflexivity.
    + destruct (tagged_put _ _ 0x3 (a, (c, (o, t))) L3 ltac:(lia) H) as (bs & -> & F & G). eexists. split; [reflexivity|]. split; [exact F|]. intros rest Fr.
      destruct (G rest Fr) as [-> G2]. cbn [obind Z.eqb Pos.eqb]. rewrite G2. reflexivity.
  - intros stream i rest F E. cbn [serialize_TransactionInput get] in E. apply obind_Some in E as ([tag s] & Et & E). apply get_tag_Some in Et as (-> & _ & Fs); [|exact F].
    destruct (Z.eqb_spec tag 0xff) as [->|_]; [|destruct (Z.eqb_spec tag 2) as [->|_]; [|destruct (Z.eqb_spec tag 3) as [->|_]; [|discriminate]]].
    + apply obind_Some in E as ([h r] & E & [= <- <-]). apply get_put in E as (H & bs & E & ->); [|exact Fs]. split; [exact H|].
      cbn [serialize_TransactionInput put]. rewrite E. eexists. split; reflexivity.
    + apply obind_Some in E as ([[a [o k]] r] & E & [= <- <-]). apply get_put in E as (H & bs & E & ->); [|exact Fs]. split; [exact H|].
      cbn [serialize_TransactionInput put]. rewrite E. eexists. split; reflexivity.
    + apply obind_Some in E as ([[a [c [o t]]] r] & E & [= <- <-]). apply get_put in E as (H & bs & E & ->); [|exact Fs]. split; [exact H|].
      cbn [serialize_TransactionInput put]. rewrite E. eexists. split; reflexivity.
Qed.

Lemma target_law : Lawful target_format serialize_TransactionOutputTarget.
Proof.
  pose proof (binary_lawful 32) as L1. pose proof multisignature_output_law as L2. split.
  - intros [k|ks c t] H; cbn [serialize_TransactionOutputTarget put get].
    + destruct (tagged_put _ _ 0x2 k L1 ltac:(lia) H) as (bs & E & F & G). unfold pod32. rewrite E. eexists. split; [reflexivity|]. split; [exact F|]. intros rest Fr.
      destruct (G rest Fr) as [-> G2]. cbn [obind Z.eqb Pos.eqb]. rewrite G2. reflexivity.
    + destruct (tagged_put _ _ 0x3 (ks, (c, t)) L2 ltac:(lia) H) as (bs & -> & F & G). eexists. split; [reflexivity|]. split; [exact F|]. intros rest Fr.
      destruct (G rest Fr) as [-> G2]. cbn [obind Z.eqb Pos.eqb]. rewrite G2. reflexivity.
  - intros stream i rest F E. cbn [serialize_TransactionOutputTarget get] in E. apply obind_Some in E as ([tag s] & Et & E). apply get_tag_Some in Et as (-> & _ & Fs); [|exact F].
    destruct (Z.eqb_spec tag 2) as [->|_]; [|destruct (Z.eqb_spec tag 3) as [->|_]; [|discriminate]].
    + apply obind_Some in E as ([k r] & E & [= <- <-]). apply (get_put (Lawful := L1)) in E as (H & bs & E & ->); [|exact Fs]. split; [exact H|].
      cbn [serialize_TransactionOutputTarget put]. unfold pod32. rewrite E. eexists. split; reflexivity.
    + apply obind_Some in E as ([[ks [c t]] r] & E & [= <- <-]). apply get_put in E as (H & bs & E & ->); [|exact Fs]. split; [exact H|].
      cbn [serialize_TransactionOutputTarget put]. rewrite E. eexists. split; reflexivity.
Qed.

Lemma output_law : Lawful output_format serialize_TransactionOutput.
Proof.
  pose proof target_law as L. unfold serialize_TransactionOutput. eapply lawful_iff; [|eapply object_lawful; [wire_parts|intros []; reflexivity|intros [] _; reflexivity]].
  intros o. reflexivity.
Qed.

Definition prefix_ok (p : prefix) : Prop :=
  (0 <= p.1 < 2 ^ 8 /\ negb (TRANSACTION_VERSION_2 <? p.1) = true) /\ 0 <= p.2.1 < 2 ^ 64 /\ sized input_format p.2.2.1 /\ sized output_format p.2.2.2.1 /\ sized byte p.2.2.2.2.

Lemma prefix_ok_iff t : prefix_ok (prefix_of t) <-> prefix_format t.
Proof.
  unfold prefix_ok. cbn [prefix_of fst snd]. rewrite negb_true_iff, Z.ltb_ge. unfold TRANSACTION_VERSION_2. split.
  - intros (V & U & I & O & E). split; unfold TRANSACTION_VERSION_2; auto. lia.
  - intros [V U I O E]. unfold TRANSACTION_VERSION_2 in V. repeat split; try apply I; try apply O; try apply E; lia.
Qed.

Lemma prefix_law : Lawful prefix_ok serialize_TransactionPrefix.
Proof.
  pose proof input_law as L1. pose proof output_law as L2. unfold serialize_TransactionPrefix. wire_law. intros [v [u [i [o e]]]]. reflexivity.
Qed.

Lemma signatures_law ins : Lawful (signatures_format ins) (serialize_signatures ins).
Proof.
  assert (forall i, Lawful (fun s => Forall (bytes_n 64) s /\ length s = getSignaturesCount i) (items signature_pod (getSignaturesCount i))) as L
    by (intros i; apply items_lawful, binary_lawful).
  assert (forall sigs, signatures_format ins sigs -> exists bs, put_signatures ins sigs = Some bs /\ Forall byte bs /\
    forall rest, Forall byte rest -> get_signatures ins (bs ++ rest) = Some (sigs, rest)) as P.
  { induction 1 as [|i s ins sigs H _ (bs & E & F & G)]; [exists []; auto|]. destruct (put_get (Lawful := L i) s H) as (b & Eb & Fb & Gb).
    exists (b ++ bs). cbn [put_signatures get_signatures]. rewrite Eb, E. cbn [obind]. split; [reflexivity|]. split; [apply list.Forall_app; auto|].
    intros rest Fr. rewrite <- app_assoc, Gb by (apply list.Forall_app; auto). cbn [obind]. rewrite G by exact Fr. reflexivity. }
  split.
  - intros sigs H. destruct (P sigs H) as (bs & E & F & G). exists bs. cbn [serialize_signatures put get]. split; [|auto].
    rewrite <- E, (Forall2_length _ _ _ H), Nat.eqb_refl. destruct H; [reflexivity|]. reflexivity.
  - cbn [serialize_signatures put get]. intros stream sigs rest F E.
    assert (signatures_format ins sigs /\ exists bs, put_signatures ins sigs = Some bs /\ stream = bs ++ rest) as (H & bs & Es & ->).
    { clear P. revert stream sigs F E. induction ins as [|i ins IH]; intros stream sigs F E; cbn [get_signatures] in E; [injection E as <- <-; split; [constructor|]; exists []; auto|].
      apply obind_Some in E as ([s r] & Es & E). apply (get_put (Lawful := L i)) in Es as (H & b & Eb & ->); [|exact F]. apply list.Forall_app in F as [_ F].
      apply obind_Some in E as ([ss r'] & E & [= <- <-]). apply IH in E as (H' & bs & E & ->); [|exact F]. split; [constructor; assumption|].
      exists (b ++ bs). cbn [put_signatures]. rewrite Eb, E. cbn [obind]. rewrite app_assoc. auto. }
    split; [exact H|]. exists bs. split; [|reflexivity]. rewrite <- Es, (Forall2_length _ _ _ H), Nat.eqb_refl. destruct H; reflexivity.
Qed.

Lemma transaction_law : Lawful tx_format serialize_Transaction.
Proof.
  unfold serialize_Transaction. eapply lawful_iff; [|eapply object_lawful;
    [eapply and_then_lawful; [exact prefix_law|intros p _; exact (signatures_law p.2.2.1)]|intros []; reflexivity|intros [[v [u [i [o e]]]] s] _; reflexivity]].
  intros t. cbv beta. cbn [fst snd]. rewrite prefix_ok_iff. reflexivity.
Qed.

Definition header_fields_ok (h : header) : Prop :=
  (0 <= h.1 < 2 ^ 8 /\ negb (BLOCK_MAJOR_VERSION_2 <? h.1) = true) /\ 0 <= h.2.1 < 2 ^ 8 /\ 0 <= h.2.2.1 < 2 ^ 64 /\ bytes_n 32 h.2.2.2.1 /\ 0 <= h.2.2.2.2 < 256 ^ Z.of_nat 4.

Lemma header_fields_iff b : header_fields_ok (header_of b) <-> block_header_format b.
Proof.
  unfold header_fields_ok. cbn [header_of fst snd]. rewrite negb_true_iff, Z.ltb_ge. change (256 ^ Z.of_nat 4) with (2 ^ 32). unfold BLOCK_MAJOR_VERSION_2. split.
  - intros (V & M & T & P & N). split; unfold BLOCK_MAJOR_VERSION_2; auto. lia.
  - intros [V M T P N]. unfold BLOCK_MAJOR_VERSION_2 in V. repeat split; try apply P; lia.
Qed.

Lemma header_law : Lawful header_fields_ok serializeBlockHeader.
Proof. unfold serializeBlockHeader, pod32. wire_law. intros [v [m [t [p n]]]]. reflexivity. Qed.

Lemma block_law : Lawful block_format serialize_Block.
Proof.
  pose proof header_law as L1. pose proof transaction_law as L2. unfold serialize_Block, pod32. eapply lawful_iff; [|eapply object_lawful;
    [wire_parts|intros []; reflexivity|intros [[v [m [t [p n]]]] [x y]] _; reflexivity]].
  intros b. cbv beta. cbn [fst snd]. rewrite header_fields_iff. reflexivity.
Qed.

(** *** Byte arrays *)

Lemma byte_array_exact {A} (ok : A -> Prop) (w : wire A) : Lawful ok w ->
  (forall x, ok x -> exists ba, toBinaryArray w x = Some ba /\ Forall byte ba /\ fromBinaryArray w ba = Some x) /\
  (forall ba x, Forall byte ba -> fromBinaryArray w ba = Some x -> ok x /\ toBinaryArray w x = Some ba).
Proof.
  intros L. unfold toBinaryArray, fromBinaryArray. split.
  - intros x Ox. destruct (put_get x Ox) as (ba & E & F & G). exists ba. split; [exact E|]. split; [exact F|].
    specialize (G [] ltac:(constructor)). rewrite app_nil_r in G. rewrite G. reflexivity.
  - intros ba x F E. destruct (get w ba) as [[y [|? ?]]|] eqn:G; [|discriminate..]. injection E as ->. apply get_put in G as (O & bs & E & ->); [|exact F].
    rewrite app_nil_r. auto.
Qed.

(** A transaction whose inputs need no signatures is written the same way with no vectors of signatures. *)
Lemma unsigned_form t : Forall (fun i => getSignaturesCount i = 0%nat) (inputs t) ->
  toBinaryArray serialize_Transaction (mk_tx (version t) (unlockTime t) (inputs t) (outputs t) (extra t) []) =
  toBinaryArray serialize_Transaction (mk_tx (version t) (unlockTime t) (inputs t) (outputs t) (extra t) (repeat [] (length (inputs t)))).
Proof.
  intros F. unfold toBinaryArray, serialize_Transaction. cbn [object put and_then prefix_of version unlockTime inputs outputs extra signatures fst snd].
  destruct (put serialize_TransactionPrefix _) as [bs|]; [|reflexivity]. cbn [obind]. f_equal. cbn [serialize_signatures put].
  assert (forallb (fun i => getSignaturesCount i =? 0)%nat (inputs t) = true) as -> by (apply forallb_forall; intros i Hi; rewrite (proj1 (List.Forall_forall _ _) F i Hi); reflexivity).
  destruct (inputs t) as [|i ins]; [reflexivity|]. cbn [length repeat]. change ([] :: repeat [] (length ins)) with (repeat (@nil bytes) (length (i :: ins))). rewrite repeat_length, Nat.eqb_refl.
  enough (put_signatures (i :: ins) (repeat [] (length (i :: ins))) = Some []) as -> by reflexivity.
  induction F as [|j js Fj _ IH]; [reflexivity|]. cbn [length repeat put_signatures]. rewrite Fj. cbn [items put length Nat.eqb put_items obind]. rewrite IH. reflexivity.
Qed.
