(* ===== verification/Binding.v ===== *)
(** * What a block hash commits to

    Two blocks with the same hash are equal, or two different strings among those that
    are hashed for them have the same fast hash: the hash covers the header, the root of
    the Merkle tree over the transactions and their number, and every part has one
    binary form.  [binary_codec] is the codec of the chain made of these functions. *)

From Stdlib Require Import ZArith Lia List Bool.
From S2P Require Import Prelude Bytes Varint Crypto TreeHash IntUtil Currency DepositIndex TxStore BlockchainIndices UpgradeDetector TxCheck Blockchain Serialization BlockFormat.
From stdpp Require Import base list sets.
Import ListNotations.
Open Scope Z_scope.
Open Scope cmon_scope.
Set Default Goal Selector "!".

Section Binding.
Context {FH : FastHash}.

(** Two different strings, one of [xs] and one of [ys], with the same fast hash. *)
Definition collision_in (xs ys : list bytes) : Prop := exists x y h, x ∈ xs /\ y ∈ ys /\ x <> y /\ fast_hash x = Some h /\ fast_hash y = Some h.

Lemma collision_mono xs ys xs' ys' : collision_in xs ys -> xs ⊆ xs' -> ys ⊆ ys' -> collision_in xs' ys'.
Proof. intros (x & y & h & Hx & Hy & N & Ex & Ey) S S'. exists x, y, h. auto 10. Qed.

Lemma hash_inj x y h xs ys : fast_hash x = Some h -> fast_hash y = Some h -> x ∈ xs -> y ∈ ys -> x = y \/ collision_in xs ys.
Proof. intros Ex Ey Hx Hy. destruct (decide (x = y)) as [E|N]; [auto|]. right. exists x, y, h. auto 10. Qed.

(** Strings whose hashes are different. *)
Lemma distinct_hashes xs : NoDup (fast_hash <$> remove_dups xs) -> ~ collision_in xs xs.
Proof.
  intros F (x & y & h & Hx & Hy & N & Ex & Ey). rewrite <- elem_of_remove_dups in Hx, Hy. apply list_elem_of_lookup in Hx as [i Hi], Hy as [j Hj].
  assert (i = j) as ->; [|congruence]. eapply (NoDup_lookup _ i j (Some h) F); rewrite list_lookup_fmap; [rewrite Hi|rewrite Hj]; cbn; congruence.
Qed.

(** ** Merkle trees *)

(** The strings that are hashed for a row of pairs, for a full tree and for the tree of [tree_hash]. *)
Fixpoint pairup_inputs (l : list bytes) : list bytes :=
  match l with a :: b :: l => (a ++ b) :: pairup_inputs l | _ => [] end.

Fixpoint mtree_inputs (d : nat) (l : list bytes) : list bytes :=
  match d with
  | O => []
  | S d => (mtree d (take (2 ^ d) l) ++ mtree d (drop (2 ^ d) l)) :: mtree_inputs d (take (2 ^ d) l) ++ mtree_inputs d (drop (2 ^ d) l)
  end.

Definition level0_inputs (cnt : nat) (l : list bytes) : list bytes := pairup_inputs (drop (2 * cnt - length l) l).

Definition merkle_inputs (l : list bytes) : list bytes :=
  let d := Nat.log2 (length l - 1) in level0_inputs (2 ^ d) l ++ mtree_inputs d (level0 (2 ^ d) l).

Lemma node_inj a b c d xs ys : bytes_n 32 a -> bytes_n 32 b -> bytes_n 32 c -> bytes_n 32 d -> hnode a b = hnode c d -> a ++ b ∈ xs -> c ++ d ∈ ys ->
  a = c /\ b = d \/ collision_in xs ys.
Proof.
  intros Ha Hb Hc Hd E Hx Hy. destruct (hnode_ok a b Ha Hb) as [E1 _], (hnode_ok c d Hc Hd) as [E2 _]. rewrite <- E in E2.
  destruct (hash_inj _ _ _ xs ys E1 E2 Hx Hy) as [X|]; [|auto]. left. apply app_inj_length in X; [exact X|]. rewrite (proj2 Ha), (proj2 Hc). reflexivity.
Qed.

Lemma pairup_inj l : forall l', Forall (bytes_n 32) l -> Forall (bytes_n 32) l' -> length l = length l' -> Nat.Even (length l) -> pairup l = pairup l' ->
  l = l' \/ collision_in (pairup_inputs l) (pairup_inputs l').
Proof.
  induction l as [|a|a b l IH] using pairs_ind; intros l' F F' L Ev E.
  - destruct l'; [auto|discriminate].
  - destruct Ev as [k Ek]. cbn in Ek. lia.
  - destruct l' as [|a' [|b' l']]; [discriminate..|]. cbn [pairup] in E. injection E as E1 E2. injection L as L.
    apply list.Forall_cons in F as [Fa F]. apply list.Forall_cons in F as [Fb F]. apply list.Forall_cons in F' as [Fa' F']. apply list.Forall_cons in F' as [Fb' F'].
    cbn [pairup_inputs]. destruct (node_inj _ _ _ _ ((a ++ b) :: pairup_inputs l) ((a' ++ b') :: pairup_inputs l') Fa Fb Fa' Fb' E1) as [[-> ->]|]; [left..| |auto].
    destruct (IH l' F F' L) as [->|C]; [destruct Ev as [k Ek]; exists (k - 1)%nat; cbn in Ek; lia|exact E2|auto|]. right. eapply collision_mono; [exact C|set_solver..].
Qed.

Lemma mtree_inj d : forall l l', Forall (bytes_n 32) l -> Forall (bytes_n 32) l' -> length l = (2 ^ d)%nat -> length l' = (2 ^ d)%nat -> mtree d l = mtree d l' ->
  l = l' \/ collision_in (mtree_inputs d l) (mtree_inputs d l').
Proof.
  induction d as [|d IH]; intros l l' F F' L L' E.
  - destruct l as [|a [|? ?]], l' as [|a' [|? ?]]; try discriminate. cbn in E. subst. auto.
  - cbn [mtree mtree_inputs] in E |- *. rewrite Nat.pow_succ_r' in L, L'.
    assert (forall m, Forall (bytes_n 32) m -> length m = (2 * 2 ^ d)%nat ->
      Forall (bytes_n 32) (take (2 ^ d) m) /\ length (take (2 ^ d) m) = (2 ^ d)%nat /\ Forall (bytes_n 32) (drop (2 ^ d) m) /\ length (drop (2 ^ d) m) = (2 ^ d)%nat) as Halves.
    { intros m Fm Lm. rewrite length_take, length_drop. repeat split; [apply Forall_take, Fm|lia|apply list.Forall_drop, Fm|lia]. }
    destruct (Halves l F L) as (F1 & L1 & F2 & L2), (Halves l' F' L') as (F1' & L1' & F2' & L2').
    eapply node_inj in E; [|apply mtree_hash; assumption..|left|left]. destruct E as [[E1 E2]|]; [|right; eassumption].
    destruct (IH _ _ F1 F1' L1 L1' E1) as [E3|C]; [|right; eapply collision_mono; [exact C|set_solver..]].
    destruct (IH _ _ F2 F2' L2 L2' E2) as [E4|C]; [|right; eapply collision_mono; [exact C|set_solver..]].
    left. rewrite <- (take_drop (2 ^ d) l), <- (take_drop (2 ^ d) l'). congruence.
Qed.

Lemma level0_inj cnt l l' : Forall (bytes_n 32) l -> Forall (bytes_n 32) l' -> length l = length l' -> (cnt <= length l <= 2 * cnt)%nat ->
  level0 cnt l = level0 cnt l' -> l = l' \/ collision_in (level0_inputs cnt l) (level0_inputs cnt l').
Proof.
  intros F F' L H E. unfold level0, level0_inputs in *. rewrite <- L in *. set (k := (2 * cnt - length l)%nat) in *.
  apply app_inj_length in E as [E1 E2]; [|rewrite !length_firstn; lia].
  destruct (pairup_inj (drop k l) (drop k l')) as [E3|]; [apply list.Forall_drop, F|apply list.Forall_drop, F'|rewrite !length_drop; lia| |exact E2| |auto].
  - rewrite length_drop. exists (length l - cnt)%nat. lia.
  - left. rewrite <- (take_drop k l), <- (take_drop k l'). f_equal; [exact E1|exact E3].
Qed.

(** The root binds the leaves, when their number is known. *)
Lemma root_inj l l' : Forall (bytes_n 32) l -> Forall (bytes_n 32) l' -> length l = length l' -> (0 < length l)%nat ->
  merkle_root l = merkle_root l' -> l = l' \/ collision_in (merkle_inputs l) (merkle_inputs l').
Proof.
  intros F F' L P E. unfold merkle_root, merkle_inputs in *. rewrite <- L in *. set (d := Nat.log2 (length l - 1)) in *.
  assert (2 ^ d <= length l <= 2 * 2 ^ d)%nat as H.
  { destruct (Nat.eq_dec (length l) 1%nat) as [E1|N]; [unfold d; rewrite E1; cbn; lia|].
    pose proof (Nat.log2_spec (length l - 1) ltac:(lia)) as [Lo Hi]. fold d in Lo, Hi. rewrite Nat.pow_succ_r' in Hi. lia. }
  apply mtree_inj in E; [|apply level0_hashes; assumption|apply level0_hashes; assumption|apply level0_length; lia|apply level0_length; lia].
  destruct E as [E|C]; [|right; eapply collision_mono; [exact C|set_solver..]].
  destruct (level0_inj _ l l' F F' L H E) as [|C]; [auto|right; eapply collision_mono; [exact C|set_solver..]].
Qed.

(** ** Blocks *)

(** The hash of the miner transaction is defined. *)
Definition short_block (b : Block) : Prop := block_format b /\ objectBinarySize serialize_Transaction (baseTransaction b) < 2 ^ 31.

Lemma write_varint_inj v v' : 0 <= v < 2 ^ 64 -> 0 <= v' < 2 ^ 64 -> write_varint v = write_varint v' -> v = v'.
Proof. intros H H' E. destruct (write_varint_ok v H) as (_ & V & _), (write_varint_ok v' H') as (_ & V' & _). congruence. Qed.

Lemma writeVarint_short v : 0 <= v < 2 ^ 64 -> (length (writeVarint v) <= 10)%nat.
Proof. intros H. rewrite writeVarint_eq. apply (write_varint_ok v H). Qed.

Lemma header_short b ba : block_header_format b -> toBinaryArray serializeBlockHeader (header_of b) = Some ba -> Forall byte ba /\ (length ba <= 66)%nat.
Proof.
  intros H E. split.
  - destruct (put_get (Lawful := header_law) (header_of b)) as (bs & E' & F & _); [apply header_fields_iff, H|]. unfold toBinaryArray in E. congruence.
  - destruct H as [V M T [_ P] N]. unfold BLOCK_MAJOR_VERSION_2 in V. unfold toBinaryArray, serializeBlockHeader in E. cbn [and_then put checked uint pod32 binary binary_uint header_of obind] in E.
    destruct (negb _); [|discriminate]. cbn [obind] in E. injection E as <-. rewrite !length_app, P. cbn [length].
    pose proof (writeVarint_short (majorVersion b) ltac:(lia)). pose proof (writeVarint_short (minorVersion b) ltac:(lia)). pose proof (writeVarint_short (timestamp b) T). lia.
Qed.

(** The hash of the miner transaction and the root of the tree. *)
Lemma tree_hash_of b : short_block b -> exists ba h, toBinaryArray serialize_Transaction (baseTransaction b) = Some ba /\ fast_hash ba = Some h /\ bytes_n 32 h /\
  get_tx_tree_hash b = Some (merkle_root (h :: transactionHashes b)) /\ bytes_n 32 (merkle_root (h :: transactionHashes b)).
Proof.
  intros [(_ & Ft & [Fh Lh]) Sz]. destruct (put_get (Lawful := transaction_law) _ Ft) as (ba & E & _). change (put serialize_Transaction (baseTransaction b)) with (toBinaryArray serialize_Transaction (baseTransaction b)) in E.
  unfold objectBinarySize in Sz. rewrite E in Sz. destruct (fast_hash_ok ba Sz) as (h & Eh & Bh). exists ba, h. split; [exact E|]. split; [exact Eh|]. split; [exact Bh|].
  assert (Forall (bytes_n 32) (h :: transactionHashes b)) as F by (constructor; assumption). unfold MAX_SIZE in Lh.
  unfold get_tx_tree_hash, objectHash. rewrite E, Eh. cbn [obind]. split; [apply tree_hash_ok; [exact F|cbn; lia|cbn [length]; lia]|].
  unfold merkle_root. set (l := h :: transactionHashes b) in *. assert (1 <= length l)%nat as P by (cbn; lia). clearbody l. cbv zeta. set (d := Nat.log2 (length l - 1)).
  apply mtree_hash; [apply level0_hashes, F|apply level0_length].
  destruct (Nat.eq_dec (length l) 1%nat) as [E1|N]; [unfold d; rewrite E1; cbn; lia|].
  pose proof (Nat.log2_spec (length l - 1) ltac:(lia)) as [Lo Hi]. fold d in Lo, Hi. rewrite Nat.pow_succ_r' in Hi. lia.
Qed.

(** The bytes that are hashed, and the hash. *)
Lemma block_hash_of b : short_block b -> exists hdr root h, toBinaryArray serializeBlockHeader (header_of b) = Some hdr /\ get_tx_tree_hash b = Some root /\ bytes_n 32 root /\
  (let ba := hdr ++ root ++ write_varint (Z.of_nat (length (transactionHashes b)) + 1) in
   get_block_hashing_blob b = Some (Some ba) /\ Forall byte ba /\ Z.of_nat (length ba) <= 108 /\ fast_hash (writeVarint (Z.of_nat (length ba)) ++ ba) = Some h) /\
  block_hash b = Some h /\ bytes_n 32 h.
Proof.
  intros S. destruct (tree_hash_of b S) as (_ & m & _ & _ & _ & Er & Br). destruct S as [(Fh & _ & [_ Lh]) _].
  destruct (put_get (Lawful := header_law) (header_of b)) as (hdr & E & _); [apply header_fields_iff, Fh|]. change (put serializeBlockHeader (header_of b)) with (toBinaryArray serializeBlockHeader (header_of b)) in E.
  destruct (header_short b hdr Fh E) as [Fb Lb]. unfold MAX_SIZE in Lh. set (root := merkle_root _) in *. set (v := Z.of_nat (length (transactionHashes b)) + 1).
  assert (0 <= v < 2 ^ 64) as Hv by lia. destruct (write_varint_ok v Hv) as (C & _ & Lv). set (ba := hdr ++ root ++ write_varint v).
  assert (get_block_hashing_blob b = Some (Some ba)) as Eb by (unfold get_block_hashing_blob; rewrite E, Er; cbn [obind]; fold v; rewrite u64_small by lia; reflexivity).
  assert (Z.of_nat (length ba) <= 108) as La by (unfold ba; rewrite !length_app, (proj2 Br); lia).
  assert (Forall byte ba) as Fa by (unfold ba; rewrite !list.Forall_app; split; [exact Fb|]; split; [exact (proj1 Br)|exact (canonical_byte _ _ C)]).
  pose proof (writeVarint_short (Z.of_nat (length ba)) ltac:(lia)) as Lw.
  destruct (fast_hash_ok (writeVarint (Z.of_nat (length ba)) ++ ba)) as (h & Eh & Bh); [rewrite length_app; lia|].
  exists hdr, root, h. repeat (split; [assumption|]). split; [repeat (split; [assumption|]); assumption|].
  split; [|exact Bh]. unfold block_hash. rewrite Eb. cbn [obind]. unfold objectHash, toBinaryArray. cbn [blob put]. exact Eh.
Qed.

Lemma framed_inj a a' : Forall byte a -> Forall byte a' -> Z.of_nat (length a) < 2 ^ 64 -> Z.of_nat (length a') < 2 ^ 64 ->
  writeVarint (Z.of_nat (length a)) ++ a = writeVarint (Z.of_nat (length a')) ++ a' -> a = a'.
Proof.
  intros F F' L L' E. pose proof (uint_lawful 64 ltac:(lia)) as U.
  exact (proj2 (put_inj _ _ U (Z.of_nat (length a)) (Z.of_nat (length a')) _ _ a a' ltac:(cbv beta; lia) ltac:(cbv beta; lia) eq_refl eq_refl F F' E)).
Qed.

(** The strings that are hashed for a transaction, and for a block: its miner transaction, the nodes of the tree of
    transactions, and the blob of the block behind its length. *)
Definition tx_preimages (t : Transaction) : list bytes := option_list (toBinaryArray serialize_Transaction t).

Definition block_preimages (b : Block) : list bytes :=
  tx_preimages (baseTransaction b) ++
  from_option (fun h => merkle_inputs (h :: transactionHashes b)) [] (objectHash serialize_Transaction (baseTransaction b)) ++
  match get_block_hashing_blob b with Some (Some ba) => [writeVarint (Z.of_nat (length ba)) ++ ba] | _ => [] end.

(** A block hash commits to the block. *)
Lemma block_hash_binding b b' : short_block b -> short_block b' -> block_hash b = block_hash b' -> b = b' \/ collision_in (block_preimages b) (block_preimages b').
Proof.
  intros S S' E. destruct (block_hash_of b S) as (hd & root & h & Eh & Er & Br & (Ebb & Fa & La & Ef) & Eb & _).
  destruct (block_hash_of b' S') as (hd' & root' & h' & Eh' & Er' & Br' & (Ebb' & Fa' & La' & Ef') & Eb' & _). rewrite Eb, Eb' in E. injection E as <-.
  destruct (tree_hash_of b S) as (ba & m & Em & Hm & Bm & Er2 & _). destruct (tree_hash_of b' S') as (ba' & m' & Em' & Hm' & Bm' & Er2' & _).
  unfold block_preimages. rewrite Ebb, Ebb'. clear Ebb Ebb'. unfold tx_preimages, objectHash. rewrite Em, Em'. cbn [obind option_list]. rewrite Hm, Hm'. cbn [from_option].
  destruct (hash_inj _ _ _ ([ba] ++ merkle_inputs (m :: transactionHashes b) ++ [writeVarint (Z.of_nat (length (hd ++ root ++ write_varint (Z.of_nat (length (transactionHashes b)) + 1)))) ++ hd ++ root ++ write_varint (Z.of_nat (length (transactionHashes b)) + 1)])
    ([ba'] ++ merkle_inputs (m' :: transactionHashes b') ++ [writeVarint (Z.of_nat (length (hd' ++ root' ++ write_varint (Z.of_nat (length (transactionHashes b')) + 1)))) ++ hd' ++ root' ++ write_varint (Z.of_nat (length (transactionHashes b')) + 1)]) Ef Ef') as [X|]; [set_solver..| |auto].
  apply framed_inj in X; [|assumption|assumption|lia|lia].
  apply list.Forall_app in Fa as [_ Fa]. apply list.Forall_app in Fa' as [_ Fa']. pose proof S as [(Hh & Ht & [Fx Lx]) _]. pose proof S' as [(Hh' & Ht' & [Fx' Lx']) _].
  apply (put_inj _ _ header_law) with (x := header_of b) (y := header_of b') in X as [Xh X]; [|apply header_fields_iff; assumption..|exact Eh|exact Eh'|exact Fa|exact Fa'].
  apply app_inj_length in X as [Xr Xc]; [|rewrite (proj2 Br), (proj2 Br'); reflexivity]. unfold MAX_SIZE in Lx, Lx'. apply write_varint_inj in Xc; [|lia|lia].
  assert (merkle_root (m :: transactionHashes b) = merkle_root (m' :: transactionHashes b')) as R by congruence.
  destruct (root_inj (m :: transactionHashes b) (m' :: transactionHashes b')) as [[= <- Xt]|]; [constructor; assumption|constructor; assumption|cbn [length]; lia|cbn; lia|exact R| |right; eapply collision_mono; [eassumption|set_solver..]].
  destruct (hash_inj _ _ _ [ba] [ba'] Hm Hm') as [Y|C]; [set_solver..| |right; eapply collision_mono; [exact C|set_solver..]]. left.
  destruct (put_inj _ _ transaction_law (baseTransaction b) (baseTransaction b') ba ba' [] [] Ht Ht' Em Em' ltac:(constructor) ltac:(constructor) ltac:(rewrite Y; reflexivity)) as [Xb _].
  destruct b, b'. cbn in *. injection Xh as -> -> -> -> ->. congruence.
Qed.

(** A transaction hash commits to the transaction. *)
Lemma tx_hash_binding t t' h : tx_format t -> tx_format t' -> objectHash serialize_Transaction t = Some h -> objectHash serialize_Transaction t' = Some h ->
  t = t' \/ collision_in (tx_preimages t) (tx_preimages t').
Proof.
  intros F F' E E'. destruct (put_get (Lawful := transaction_law) t F) as (ba & Ea & _), (put_get (Lawful := transaction_law) t' F') as (ba' & Ea' & _).
  unfold tx_preimages, objectHash, toBinaryArray in *. rewrite Ea in *. rewrite Ea' in *. destruct (hash_inj _ _ _ [ba] [ba'] E E') as [Y|]; [set_solver..| |auto]. left.
  exact (proj1 (put_inj _ _ transaction_law t t' ba ba' [] [] F F' Ea Ea' ltac:(constructor) ltac:(constructor) ltac:(rewrite Y; reflexivity))).
Qed.
End Binding.
