(* ===== verification/TransactionExtra.v ===== *)
(** * The extra field of transactions (CryptoNoteCore/TransactionExtra.cpp)

    Parsing and writing of the fields in [extra]: the key of the transaction, the
    nonce with the payment id, the tag of merged mining, messages, the time to live
    and padding.  A byte that is no tag is skipped.  The parser returns whether the
    bytes were well formed; the fields before an error stay in the vector.

    Each turn of the loop takes at least the tag from the stream, so as many turns
    as there are bytes are enough. *)

From Stdlib Require Import ZArith Lia List Bool.
From S2P Require Import Prelude Bytes Varint Crypto TreeHash IntUtil Currency StringTools DepositIndex TxStore BlockchainIndices UpgradeDetector TxCheck Blockchain Serialization BlockFormat Binding.
From stdpp Require Import base list.
Import ListNotations.
Open Scope Z_scope.
Open Scope cmon_scope.
Set Default Goal Selector "!".

(** ** Data *)

Inductive TransactionExtraField :=
| TransactionExtraPadding (size : Z)
| TransactionExtraPublicKey (publicKey : bytes)
| TransactionExtraNonce (nonce : bytes)
| TransactionExtraMergeMiningTag (depth : Z) (merkleRoot : bytes)
| tx_extra_message (data : bytes)
| TransactionExtraTTL (ttl : Z).

Definition TX_EXTRA_PADDING_MAX_COUNT : Z := 255.
Definition TX_EXTRA_NONCE_MAX_COUNT : Z := 255.

(** ** Parsing *)

(** The loop over the padding: the size and the rest, or [None] when a byte is not zero. *)
Fixpoint padding_loop (stream : bytes) (size : Z) : option (Z * bytes) :=
  match stream with
  | [] => Some (size, [])
  | b :: stream' => if size <=? TX_EXTRA_PADDING_MAX_COUNT then if b =? 0 then padding_loop stream' (size + 1) else None else Some (size, stream)
  end.

(** [doSerialize] of the tag of merged mining. *)
Definition merge_mining_fields : wire (Z * bytes) := and_then (uint 64) (fun _ => pod32).

(** The fields are in a string of their own; what follows them in the string is not looked at. *)
Definition serialize_MergeMiningTag : wire (Z * bytes) := mk_wire
  (fun v => field <- put merge_mining_fields v ;; put blob field)
  (fun stream => '(field, stream) <- get blob stream ;; '(v, _) <- get merge_mining_fields field ;; Some (v, stream)).

(** The field behind tag [c]: nothing for an unknown tag; [None] is an error. *)
Definition parse_field (c : Z) (stream : bytes) : option (option TransactionExtraField * bytes) :=
  if c =? 0x00 then
    '(size, stream) <- padding_loop stream 1 ;;
    if TX_EXTRA_PADDING_MAX_COUNT <? size then None else Some (Some (TransactionExtraPadding size), stream)
  else if c =? 0x01 then '(publicKey, stream) <- get pod32 stream ;; Some (Some (TransactionExtraPublicKey publicKey), stream)
  else if c =? 0x02 then
    '(size, stream) <- get (binary_uint 1) stream ;;
    '(nonce, stream) <- (if 0 <? size then read (Z.to_nat size) stream else Some ([], stream)) ;;
    Some (Some (TransactionExtraNonce nonce), stream)
  else if c =? 0x03 then '((depth, merkleRoot), stream) <- get serialize_MergeMiningTag stream ;; Some (Some (TransactionExtraMergeMiningTag depth merkleRoot), stream)
  else if c =? 0x04 then '(data, stream) <- get blob stream ;; Some (Some (tx_extra_message data), stream)
  else if c =? 0x05 then
    '(_, stream) <- get (uint 8) stream ;;
    '(ttl, stream) <- get (uint 64) stream ;; Some (Some (TransactionExtraTTL ttl), stream)
  else Some (None, stream).

(** The result and the fields; [None] when the fuel is used up. *)
Fixpoint parse_loop (fuel : nat) (stream : bytes) (fields : list TransactionExtraField) : option (bool * list TransactionExtraField) :=
  match stream with
  | [] => Some (true, fields)
  | c :: stream =>
      match fuel with
      | O => None
      | S fuel =>
          match parse_field c stream with
          | None => Some (false, fields)
          | Some (f, stream) => parse_loop fuel stream (fields ++ match f with Some f => [f] | None => [] end)
          end
      end
  end.

Definition parseTransactionExtra (transactionExtra : bytes) : option (bool * list TransactionExtraField) :=
  parse_loop (length transactionExtra) transactionExtra [].

(** ** Writing *)

Definition addTransactionPublicKeyToExtra (tx_extra tx_pub_key : bytes) : bytes := tx_extra ++ 0x01 :: tx_pub_key.

Definition addExtraNonceToTransactionExtra (tx_extra extra_nonce : bytes) : bool * bytes :=
  if TX_EXTRA_NONCE_MAX_COUNT <? Z.of_nat (length extra_nonce) then (false, tx_extra)
  else (true, tx_extra ++ 0x02 :: wrap U8 (Z.of_nat (length extra_nonce)) :: extra_nonce).

Definition appendMergeMiningTagToExtra (tx_extra : bytes) (mm_tag : Z * bytes) : bool * bytes :=
  match toBinaryArray serialize_MergeMiningTag mm_tag with None => (false, tx_extra) | Some b => (true, tx_extra ++ 0x03 :: b) end.

Definition append_message_to_extra (tx_extra message : bytes) : bool * bytes :=
  match toBinaryArray blob message with None => (false, tx_extra) | Some b => (true, tx_extra ++ 0x04 :: b) end.

Definition appendTTLToExtra (tx_extra : bytes) (ttl : Z) : bytes :=
  let ttlData := write_varint ttl in
  let extraFieldSize := write_varint (Z.of_nat (length ttlData)) in
  tx_extra ++ 0x05 :: extraFieldSize ++ ttlData.

(** [ExtraSerializerVisitor] *)
Definition write_field (extra : bytes) (f : TransactionExtraField) : bool * bytes :=
  match f with
  | TransactionExtraPadding size => if TX_EXTRA_PADDING_MAX_COUNT <? size then (false, extra) else (true, extra ++ repeat 0 (Z.to_nat size))
  | TransactionExtraPublicKey publicKey => (true, addTransactionPublicKeyToExtra extra publicKey)
  | TransactionExtraNonce nonce => addExtraNonceToTransactionExtra extra nonce
  | TransactionExtraMergeMiningTag depth merkleRoot => appendMergeMiningTagToExtra extra (depth, merkleRoot)
  | tx_extra_message data => append_message_to_extra extra data
  | TransactionExtraTTL ttl => (true, appendTTLToExtra extra ttl)
  end.

Fixpoint writeTransactionExtra (tx_extra : bytes) (tx_extra_fields : list TransactionExtraField) : bool * bytes :=
  match tx_extra_fields with
  | [] => (true, tx_extra)
  | f :: fields => let '(r, tx_extra) := write_field tx_extra f in if negb r then (false, tx_extra) else writeTransactionExtra tx_extra fields
  end.

(** ** Queries *)

(** [findTransactionExtraFieldByType] for four of the types. *)
Fixpoint find_key (fields : list TransactionExtraField) : option bytes :=
  match fields with [] => None | TransactionExtraPublicKey k :: _ => Some k | _ :: fields => find_key fields end.
Fixpoint find_nonce (fields : list TransactionExtraField) : option bytes :=
  match fields with [] => None | TransactionExtraNonce n :: _ => Some n | _ :: fields => find_nonce fields end.
Fixpoint find_ttl (fields : list TransactionExtraField) : option Z :=
  match fields with [] => None | TransactionExtraTTL t :: _ => Some t | _ :: fields => find_ttl fields end.

Fixpoint find_merge_mining (fields : list TransactionExtraField) : option (Z * bytes) :=
  match fields with [] => None | TransactionExtraMergeMiningTag d m :: _ => Some (d, m) | _ :: fields => find_merge_mining fields end.

Definition getTransactionPublicKeyFromExtra (tx_extra : bytes) : option bytes :=
  '(_, fields) <- parseTransactionExtra tx_extra ;; Some (default (repeat 0 32) (find_key fields)).

Definition getMergeMiningTagFromExtra (tx_extra : bytes) : option (option (Z * bytes)) :=
  '(_, fields) <- parseTransactionExtra tx_extra ;; Some (find_merge_mining fields).

Definition setPaymentIdToTransactionExtraNonce (payment_id : bytes) : bytes := 0x00 :: payment_id.

Definition getPaymentIdFromTransactionExtraNonce (extra_nonce : bytes) : option bytes :=
  match extra_nonce with
  | c :: payment_id => if (length extra_nonce =? 33)%nat && (c =? 0x00) then Some payment_id else None
  | [] => None
  end.

(** [Some None] when there is none or the extra field is malformed. *)
Definition getPaymentIdFromTxExtra (extra : bytes) : option (option bytes) :=
  '(r, fields) <- parseTransactionExtra extra ;;
  Some (if (r : bool) then nonce <- find_nonce fields ;; getPaymentIdFromTransactionExtraNonce nonce else None).

(** The payment id for the index (BlockchainExplorerDataBuilder.cpp): an error of the parser is not looked at. *)
Definition index_payment_id (t : Transaction) : option (option bytes) :=
  '(_, fields) <- parseTransactionExtra (extra t) ;; Some (nonce <- find_nonce fields ;; getPaymentIdFromTransactionExtraNonce nonce).

(** A payment id is 64 hexadecimal digits. *)
Definition createTxExtraWithPaymentId (paymentIdString extra : bytes) : bool * bytes :=
  match podFromHex 32 paymentIdString with
  | None => (false, extra)
  | Some paymentIdBin => addExtraNonceToTransactionExtra extra (setPaymentIdToTransactionExtraNonce paymentIdBin)
  end.

(** The time to live that the pool reads. *)
Definition getTTL (t : Transaction) : option Z := '(_, fields) <- parseTransactionExtra (extra t) ;; Some (default 0 (find_ttl fields)).

(** ** Parsing ends *)

Lemma padding_rest stream : forall size size' rest, padding_loop stream size = Some (size', rest) -> exists pre, stream = pre ++ rest.
Proof.
  induction stream as [|b stream IH]; intros size size' rest E; cbn [padding_loop] in E; [injection E as _ <-; exists []; reflexivity|].
  destruct (size <=? TX_EXTRA_PADDING_MAX_COUNT); [|injection E as _ <-; exists []; reflexivity]. destruct (b =? 0); [|discriminate].
  apply IH in E as [pre ->]. exists (b :: pre). reflexivity.
Qed.

(** What a wire reads is a prefix. *)
Lemma get_rest {A} ok (w : wire A) stream x rest : Lawful ok w -> Forall byte stream -> get w stream = Some (x, rest) -> exists pre, stream = pre ++ rest.
Proof. intros L F E. apply get_put in E as (_ & bs & _ & ->); [|exact F]. eauto. Qed.

Lemma merge_fields_law : Lawful (fun v => 0 <= v.1 < 2 ^ 64 /\ bytes_n 32 v.2) merge_mining_fields.
Proof. unfold merge_mining_fields, pod32. wire_law. intros [d r]. reflexivity. Qed.

Lemma prefix_trans {A} (s pre s' pre' rest : list A) : s = pre ++ s' -> s' = pre' ++ rest -> exists p, s = p ++ rest.
Proof. intros -> ->. exists (pre ++ pre'). apply app_assoc. Qed.

Lemma parse_field_rest c stream f rest : Forall byte stream -> parse_field c stream = Some (f, rest) -> exists pre, stream = pre ++ rest.
Proof.
  intros F E. unfold parse_field in E. repeat match type of E with (if ?b then _ else _) = _ => destruct b end.
  - apply obind_Some in E as ([size s] & E1 & E). destruct (_ <? _); [discriminate|]. injection E as _ <-. exact (padding_rest _ _ _ _ E1).
  - apply obind_Some in E as ([k s] & E1 & [= _ <-]). exact (get_rest _ _ _ _ _ (binary_lawful 32) F E1).
  - apply obind_Some in E as ([size s] & E1 & E). destruct (get_rest _ _ _ _ _ (binary_uint_lawful 1) F E1) as [pre Es].
    apply obind_Some in E as ([n r] & E2 & [= _ <-]). destruct (0 <? size); [|injection E2 as _ <-; eauto]. apply read_Some in E2 as [E2 _]. exact (prefix_trans _ _ _ _ _ Es E2).
  - apply obind_Some in E as ([[d m] s] & E1 & [= _ <-]). cbn [serialize_MergeMiningTag get] in E1. apply obind_Some in E1 as ([field r] & E2 & E1).
    apply obind_Some in E1 as ([v w] & _ & [= _ <-]). exact (get_rest _ _ _ _ _ blob_lawful F E2).
  - apply obind_Some in E as ([d s] & E1 & [= _ <-]). exact (get_rest _ _ _ _ _ blob_lawful F E1).
  - apply obind_Some in E as ([x s] & E1 & E). destruct (get_rest _ _ _ _ _ (uint_lawful 8 ltac:(lia)) F E1) as [pre ->]. apply list.Forall_app in F as [_ F].
    apply obind_Some in E as ([t r] & E2 & [= _ <-]). destruct (get_rest _ _ _ _ _ (uint_lawful 64 ltac:(lia)) F E2) as [pre' ->]. exists (pre ++ pre'). apply app_assoc.
  - injection E as _ <-. exists []. reflexivity.
Qed.

Lemma parse_loop_total fuel : forall stream fields, Forall byte stream -> (length stream <= fuel)%nat -> exists r fs, parse_loop fuel stream fields = Some (r, fields ++ fs).
Proof.
  induction fuel as [|fuel IH]; intros [|c stream] fields F L; cbn [parse_loop]; [exists true, []; rewrite app_nil_r; reflexivity|cbn in L; lia|exists true, []; rewrite app_nil_r; reflexivity|].
  apply list.Forall_cons in F as [_ F]. destruct (parse_field c stream) as [[f rest]|] eqn:E; [|exists false, []; rewrite app_nil_r; reflexivity].
  destruct (parse_field_rest c stream f rest F E) as [pre ->]. apply list.Forall_app in F as [_ F]. cbn [length] in L. rewrite length_app in L.
  destruct (IH rest (fields ++ match f with Some f => [f] | None => [] end) F ltac:(lia)) as (r & fs & ->). rewrite <- app_assoc. eauto.
Qed.

Lemma parse_total extra : Forall byte extra -> exists r fields, parseTransactionExtra extra = Some (r, fields).
Proof. intros F. destruct (parse_loop_total (length extra) extra [] F (le_n _)) as (r & fs & E). exact (ex_intro _ r (ex_intro _ fs E)). Qed.

(** ** Writing and parsing *)

Definition field_ok (f : TransactionExtraField) : Prop :=
  match f with
  | TransactionExtraPadding size => 1 <= size <= TX_EXTRA_PADDING_MAX_COUNT
  | TransactionExtraPublicKey publicKey => bytes_n 32 publicKey
  | TransactionExtraNonce nonce => Forall byte nonce /\ Z.of_nat (length nonce) <= TX_EXTRA_NONCE_MAX_COUNT
  | TransactionExtraMergeMiningTag depth merkleRoot => 0 <= depth < 2 ^ 64 /\ bytes_n 32 merkleRoot
  | tx_extra_message data => Forall byte data /\ Z.of_nat (length data) <= MAX_SIZE
  | TransactionExtraTTL ttl => 0 <= ttl < 2 ^ 64
  end.

Definition is_padding (f : TransactionExtraField) : bool := match f with TransactionExtraPadding _ => true | _ => false end.

(** Padding can only come last: its zeros would take in what follows, or refuse it. *)
Fixpoint padding_last (fields : list TransactionExtraField) : Prop :=
  match fields with [] => True | f :: fields => (is_padding f = true -> fields = []) /\ padding_last fields end.

Lemma padding_loop_zeros n : forall size, size + Z.of_nat n <= TX_EXTRA_PADDING_MAX_COUNT -> padding_loop (repeat 0 n) size = Some (size + Z.of_nat n, []).
Proof.
  induction n as [|n IH]; intros size H; cbn [repeat padding_loop]; [rewrite Z.add_0_r; reflexivity|].
  rewrite (proj2 (Z.leb_le _ _)) by lia. rewrite IH by lia. do 2 f_equal. lia.
Qed.

Lemma write_parse_field f : field_ok f -> exists c body, (forall extra, write_field extra f = (true, extra ++ c :: body)) /\ Forall byte (c :: body) /\
  forall rest, Forall byte rest -> (is_padding f = true -> rest = []) -> parse_field c (body ++ rest) = Some (Some f, rest).
Proof.
  destruct f as [size|k|n|d m|x|t]; intros H; cbn [field_ok write_field is_padding] in *.
  - unfold TX_EXTRA_PADDING_MAX_COUNT in *. exists 0, (repeat 0 (Z.to_nat (size - 1))). split; [|split].
    + intros extra. rewrite (proj2 (Z.ltb_ge _ _)) by lia. replace (Z.to_nat size) with (S (Z.to_nat (size - 1))) by lia. reflexivity.
    + change (0 :: repeat 0 (Z.to_nat (size - 1))) with (repeat 0 (S (Z.to_nat (size - 1)))). apply List.Forall_forall. intros x Hx. apply repeat_spec in Hx. subst. unfold byte. lia.
    + intros rest _ Hr. rewrite (Hr eq_refl), app_nil_r. unfold parse_field. cbn [Z.eqb]. rewrite padding_loop_zeros by (unfold TX_EXTRA_PADDING_MAX_COUNT; lia). cbn [obind].
      unfold TX_EXTRA_PADDING_MAX_COUNT. rewrite (proj2 (Z.ltb_ge _ _)) by lia. replace (1 + Z.of_nat (Z.to_nat (size - 1))) with size by lia. reflexivity.
  - exists 1, k. split; [reflexivity|]. split; [constructor; [unfold byte; lia|apply H]|]. intros rest Fr _. unfold parse_field. cbn [Z.eqb Pos.eqb].
    destruct (put_get (Lawful := binary_lawful 32) k H) as (bs & [= <-] & _ & G). unfold pod32. rewrite (G rest Fr). reflexivity.
  - destruct H as [Fn Ln]. unfold TX_EXTRA_NONCE_MAX_COUNT in Ln. exists 2, (Z.of_nat (length n) :: n). split; [|split].
    + intros extra. unfold addExtraNonceToTransactionExtra, TX_EXTRA_NONCE_MAX_COUNT. rewrite (proj2 (Z.ltb_ge _ _)) by lia. rewrite wrap_id by (apply in_ity_spec; cbn; lia). reflexivity.
    + constructor; [unfold byte; lia|]. constructor; [unfold byte; lia|exact Fn].
    + intros rest Fr _. unfold parse_field. cbn [Z.eqb Pos.eqb]. cbn [app]. rewrite get_tag by lia. cbn [obind]. destruct n as [|b n]; [reflexivity|].
      rewrite (proj2 (Z.ltb_lt _ _)) by (cbn; lia). rewrite Nat2Z.id, read_app by reflexivity. reflexivity.
  - destruct (put_get (Lawful := merge_fields_law) (d, m) H) as (fs & Ef & Ff & Gf).
    assert (length fs <= 42)%nat as Lf.
    { cbn [merge_mining_fields and_then put uint pod32 binary obind] in Ef. injection Ef as <-. rewrite length_app, (proj2 (proj2 H)). pose proof (writeVarint_short d (proj1 H)). lia. }
    assert (Z.of_nat (length fs) <= MAX_SIZE) as Lm by (unfold MAX_SIZE; lia).
    destruct (put_get (Lawful := blob_lawful) fs (conj Ff Lm)) as (bs & Eb & Fb & Gb). exists 3, bs. split; [|split].
    + intros extra. unfold appendMergeMiningTagToExtra, toBinaryArray. cbn [serialize_MergeMiningTag put]. rewrite Ef. cbn [obind]. rewrite Eb. reflexivity.
    + constructor; [unfold byte; lia|exact Fb].
    + intros rest Fr _. unfold parse_field. cbn [Z.eqb Pos.eqb]. cbn [serialize_MergeMiningTag get]. rewrite Gb by exact Fr. cbn [obind].
      specialize (Gf [] ltac:(constructor)). rewrite app_nil_r in Gf. rewrite Gf. reflexivity.
  - destruct (put_get (Lawful := blob_lawful) x H) as (bs & Eb & Fb & Gb). exists 4, bs. split; [|split].
    + intros extra. unfold append_message_to_extra, toBinaryArray. rewrite Eb. reflexivity.
    + constructor; [unfold byte; lia|exact Fb].
    + intros rest Fr _. unfold parse_field. cbn [Z.eqb Pos.eqb]. rewrite Gb by exact Fr. reflexivity.
  - pose proof (write_varint_ok t H) as (_ & _ & Lt). set (n := Z.of_nat (length (write_varint t))). assert (0 <= n < 2 ^ 8) as Hn by lia.
    destruct (put_get (Lawful := uint_lawful 8 ltac:(lia)) n Hn) as (b1 & E1 & F1 & G1). destruct (put_get (Lawful := uint_lawful 64 ltac:(lia)) t H) as (b2 & E2 & F2 & G2).
    cbn [uint put] in E1, E2. rewrite writeVarint_eq in E1, E2. injection E1 as <-. injection E2 as <-. exists 5, (write_varint n ++ write_varint t). split; [reflexivity|]. split.
    + constructor; [unfold byte; lia|apply list.Forall_app; auto].
    + intros rest Fr _. unfold parse_field. cbn [Z.eqb Pos.eqb]. rewrite <- app_assoc, G1 by (apply list.Forall_app; auto). cbn [obind]. rewrite G2 by exact Fr. reflexivity.
Qed.

Lemma write_parse fields : Forall field_ok fields -> padding_last fields -> exists ba, (forall extra, writeTransactionExtra extra fields = (true, extra ++ ba)) /\ Forall byte ba /\
  forall fuel acc, (length ba <= fuel)%nat -> parse_loop fuel ba acc = Some (true, acc ++ fields).
Proof.
  induction fields as [|f fields IH]; intros F P.
  - exists []. split; [intros extra; rewrite app_nil_r; reflexivity|]. split; [constructor|]. intros fuel acc _. rewrite app_nil_r. destruct fuel; reflexivity.
  - apply list.Forall_cons in F as [Ff F]. destruct P as [Pf P]. destruct (IH F P) as (ba & W & Fb & G). destruct (write_parse_field f Ff) as (c & body & Wf & Fc & Gf).
    exists ((c :: body) ++ ba). split; [|split].
    + intros extra. cbn [writeTransactionExtra]. rewrite Wf. cbn [negb]. rewrite W, <- app_assoc. reflexivity.
    + apply list.Forall_app. auto.
    + intros [|fuel] acc L; cbn [app length] in L; [lia|]. cbn [app parse_loop]. rewrite Gf; [|exact Fb|].
      * rewrite G by (rewrite length_app in L; lia). rewrite <- app_assoc. reflexivity.
      * intros Pd. rewrite (Pf Pd) in W. specialize (W []). cbn [writeTransactionExtra app] in W. injection W as <-. reflexivity.
Qed.

(** The payment id in a fresh extra field. *)
Lemma payment_id_roundtrip id : bytes_n 32 id ->
  addExtraNonceToTransactionExtra [] (setPaymentIdToTransactionExtraNonce id) = (true, 2 :: 33 :: 0 :: id) /\ getPaymentIdFromTxExtra (2 :: 33 :: 0 :: id) = Some (Some id).
Proof.
  intros [F L]. split.
  - unfold addExtraNonceToTransactionExtra, setPaymentIdToTransactionExtraNonce. cbn [length]. rewrite L. reflexivity.
  - assert (field_ok (TransactionExtraNonce (0 :: id))) as Fo by (split; [constructor; [unfold byte; lia|exact F]|cbn [length]; rewrite L; discriminate]).
    destruct (write_parse [TransactionExtraNonce (0 :: id)]) as (ba & W & _ & G); [constructor; [exact Fo|constructor]|cbn; split; [discriminate|exact I]|].
    specialize (W []). cbn [writeTransactionExtra write_field] in W. unfold addExtraNonceToTransactionExtra in W. cbn [length] in W. rewrite L in W. cbn in W. injection W as <-. change (wrap U8 (Z.of_nat 33)) with 33 in G.
    unfold getPaymentIdFromTxExtra, parseTransactionExtra. rewrite (G _ [] (le_n _)). cbn [obind app find_nonce getPaymentIdFromTransactionExtraNonce length]. rewrite L. reflexivity.
Qed.
