(* ===== verification/TransfersContainer.v ===== *)
(** * The outputs of an account (Transfers/TransfersContainer.cpp)

    The container a wallet keeps for one account: the transactions that concern it,
    and the outputs it received, which are unconfirmed, available or spent.  It adds
    and confirms transactions, forgets them when the chain is detached, and tells
    which outputs may be spent and what they are worth.

    The containers of boost with several indices are lists: those with an ordered
    index in the order of that index, where a new element goes behind its equals, the
    others in the order of insertion.  The order in which a hashed index lists the
    elements of a range is not specified: it is the function [arrange] of the class
    [HashOrder].  An operation ends with a result, with an exception, which keeps the
    changes made before it, or with a failed assertion or an undefined access. *)

From Stdlib Require Import ZArith Lia List Bool.
From S2P Require Import Prelude Bytes IntUtil Currency TxStore Blockchain TransactionExtra.
From stdpp Require Import gmap list.
Import ListNotations.
Open Scope Z_scope.
Set Default Goal Selector "!".

(** ** Data (include/ITransfersContainer.h, TransfersContainer.h) *)

Definition UNCONFIRMED_TRANSACTION_GLOBAL_OUTPUT_INDEX : Z := 4294967295.
(** IWalletLegacy.h *)
Definition WALLET_LEGACY_UNCONFIRMED_TRANSACTION_HEIGHT : Z := 4294967295.
Abbreviation UNCONFIRMED := WALLET_LEGACY_UNCONFIRMED_TRANSACTION_HEIGHT.
Definition ACCOUNT_OWN_ID : Z := 0.

Record TransactionInformation := mk_info {
  ti_transactionHash : bytes;
  ti_publicKey : bytes;
  ti_blockHeight : Z;
  ti_timestamp : Z;
  ti_unlockTime : Z;
  ti_totalAmountIn : Z;
  ti_totalAmountOut : Z;
  ti_extra : bytes;
  ti_paymentId : bytes;
  ti_messages : list bytes;
  ti_id : Z
}.

(** [type] with the union behind it. *)
Inductive output_union :=
| KeyData (outputKey : bytes)
| MultisignatureData (requiredSignatures term : Z).

Record TransactionOutputInformation := mk_output_info {
  o_union : output_union;
  o_amount : Z;
  globalOutputIndex : Z;
  outputInTransaction : Z;
  o_transactionHash : bytes;
  o_transactionPublicKey : bytes;
  o_id : Z
}.

Record TransactionOutputInformationIn := mk_in { in_info :> TransactionOutputInformation; keyImage : bytes }.

Record TransactionOutputInformationEx := mk_ex {
  ex_in :> TransactionOutputInformationIn;
  ex_unlockTime : Z;
  ex_blockHeight : Z;
  ex_transactionIndex : Z;
  visible : bool
}.

Record TransactionBlockInfo := mk_block_info { tb_height : Z; tb_timestamp : Z; tb_transactionIndex : Z }.

Record SpentTransactionOutput := mk_spent {
  sp_ex :> TransactionOutputInformationEx;
  spendingBlock : TransactionBlockInfo;
  spendingTransactionHash : bytes;
  inputInTransaction : Z
}.

Definition TransactionOutputKey : Type := bytes * Z.

Record TransferUnlockJob := mk_job { unlockHeight : Z; transactionOutputKey : TransactionOutputKey }.

(** A key image stands behind the pointer. *)
Inductive SpentOutputDescriptor := ByKeyImage (image : bytes) | ByIndex (amount globalIndex : Z).
#[export] Instance descriptor_eq : EqDecision SpentOutputDescriptor.
Proof. solve_decision. Defined.

Definition getTransactionOutputKey (o : TransactionOutputInformation) : TransactionOutputKey := (o_transactionHash o, outputInTransaction o).

Definition getSpentOutputDescriptor (o : TransactionOutputInformationIn) : SpentOutputDescriptor :=
  match o_union o with
  | KeyData _ => ByKeyImage (keyImage o)
  | MultisignatureData _ _ => ByIndex (o_amount o) (globalOutputIndex o)
  end.

Definition is_key (o : TransactionOutputInformation) : bool := match o_union o with KeyData _ => true | _ => false end.
(** [type == Multisignature ? term : 0] *)
Definition deposit_term (o : TransactionOutputInformation) : Z := match o_union o with KeyData _ => 0 | MultisignatureData _ term => term end.

Record container := mk_container {
  m_transactions : list TransactionInformation;
  m_unconfirmedTransfers : list TransactionOutputInformationEx;
  m_availableTransfers : list TransactionOutputInformationEx;
  m_spentTransfers : list SpentTransactionOutput;
  m_transfersUnlockJobs : list TransferUnlockJob;
  m_currentHeight : Z;
  m_transactionsBM : list TransactionInformation
}.

Definition empty_container : container := mk_container [] [] [] [] [] 0 [].

Definition with_transactions l c := mk_container l (m_unconfirmedTransfers c) (m_availableTransfers c) (m_spentTransfers c) (m_transfersUnlockJobs c) (m_currentHeight c) (m_transactionsBM c).
Definition with_unconfirmed l c := mk_container (m_transactions c) l (m_availableTransfers c) (m_spentTransfers c) (m_transfersUnlockJobs c) (m_currentHeight c) (m_transactionsBM c).
Definition with_available l c := mk_container (m_transactions c) (m_unconfirmedTransfers c) l (m_spentTransfers c) (m_transfersUnlockJobs c) (m_currentHeight c) (m_transactionsBM c).
Definition with_spent l c := mk_container (m_transactions c) (m_unconfirmedTransfers c) (m_availableTransfers c) l (m_transfersUnlockJobs c) (m_currentHeight c) (m_transactionsBM c).
Definition with_jobs l c := mk_container (m_transactions c) (m_unconfirmedTransfers c) (m_availableTransfers c) (m_spentTransfers c) l (m_currentHeight c) (m_transactionsBM c).
Definition with_height h c := mk_container (m_transactions c) (m_unconfirmedTransfers c) (m_availableTransfers c) (m_spentTransfers c) (m_transfersUnlockJobs c) h (m_transactionsBM c).
Definition with_transactionsBM l c := mk_container (m_transactions c) (m_unconfirmedTransfers c) (m_availableTransfers c) (m_spentTransfers c) (m_transfersUnlockJobs c) (m_currentHeight c) l.

(** ** Computations over the container *)

Inductive failure :=
| BlockBelowHeight | AlreadyAdded | BadGlobalIndex | TransferExists | AlreadySpent | SpendingUnconfirmed
| InvalidAmount | UnconfirmedBlock | NotEnoughIndices | HeightDecreases.

Inductive outcome (A : Type) := Abort | Throw (e : failure) (c : container) | Done (a : A) (c : container).
Arguments Abort {A}.
Arguments Throw {A} e c.
Arguments Done {A} a c.

Definition M (A : Type) : Type := container -> outcome A.
Definition ret {A} (a : A) : M A := fun c => Done a c.
Definition bind {A B} (m : M A) (k : A -> M B) : M B :=
  fun c => match m c with Abort => Abort | Throw e c => Throw e c | Done a c => k a c end.
Definition throw {A} (e : failure) : M A := fun c => Throw e c.
Definition gets {A} (f : container -> A) : M A := fun c => Done (f c) c.
Definition modify (f : container -> container) : M unit := fun c => Done tt (f c).
Definition assert_that (b : bool) : M unit := fun c => if b then Done tt c else Abort.
(** A result that must exist. *)
Definition lift {A} (o : option A) : M A := fun c => match o with Some a => Done a c | None => Abort end.

Declare Scope transfers_scope.
Delimit Scope transfers_scope with transfers.
Notation "x <-- m ;; k" := (bind m (fun x => k)) (at level 100, m at next level, right associativity) : transfers_scope.
Notation "m ;;; k" := (bind m (fun _ => k)) (at level 100, right associativity) : transfers_scope.
Open Scope transfers_scope.

Fixpoint iterate {A} (f : A -> M unit) (l : list A) : M unit :=
  match l with [] => ret tt | x :: l => f x ;;; iterate f l end.

(** The order of a hashed index. *)
Class HashOrder := {
  arrange : forall {A : Type}, list A -> list A;
  arrange_perm : forall A (l : list A), arrange l ≡ₚ l
}.

Section Container.
Context {HO : HashOrder} {CO : Codec}.
Variable cur : currency.
Variable m_transactionSpendableAge : Z.
(** [time(NULL)] *)
Variable now : Z.

(** ** Indices *)

Definition by_descriptor (d : SpentOutputDescriptor) (l : list TransactionOutputInformationEx) : list TransactionOutputInformationEx :=
  arrange (List.filter (fun x : TransactionOutputInformationEx => bool_decide (getSpentOutputDescriptor x = d)) l).
Definition spent_by_descriptor (d : SpentOutputDescriptor) (l : list SpentTransactionOutput) : list SpentTransactionOutput :=
  arrange (List.filter (fun x : SpentTransactionOutput => bool_decide (getSpentOutputDescriptor x = d)) l).
Definition by_transaction (h : bytes) (l : list TransactionOutputInformationEx) : list TransactionOutputInformationEx :=
  arrange (List.filter (fun x : TransactionOutputInformationEx => bool_decide (o_transactionHash x = h)) l).
Definition spent_by_transaction (h : bytes) (l : list SpentTransactionOutput) : list SpentTransactionOutput :=
  arrange (List.filter (fun x : SpentTransactionOutput => bool_decide (o_transactionHash x = h)) l).
Definition by_spending (h : bytes) (l : list SpentTransactionOutput) : list SpentTransactionOutput :=
  arrange (List.filter (fun x : SpentTransactionOutput => bool_decide (spendingTransactionHash x = h)) l).

Definition find_output (k : TransactionOutputKey) (l : list TransactionOutputInformationEx) : option TransactionOutputInformationEx :=
  List.find (fun x : TransactionOutputInformationEx => bool_decide (getTransactionOutputKey x = k)) l.
Definition find_spent (k : TransactionOutputKey) (l : list SpentTransactionOutput) : option SpentTransactionOutput :=
  List.find (fun x : SpentTransactionOutput => bool_decide (getTransactionOutputKey x = k)) l.
Definition find_transaction (h : bytes) (l : list TransactionInformation) : option TransactionInformation :=
  List.find (fun t => bool_decide (ti_transactionHash t = h)) l.

Definition erase_output (k : TransactionOutputKey) (l : list TransactionOutputInformationEx) : list TransactionOutputInformationEx :=
  List.filter (fun x : TransactionOutputInformationEx => negb (bool_decide (getTransactionOutputKey x = k))) l.
Definition erase_spent (k : TransactionOutputKey) (l : list SpentTransactionOutput) : list SpentTransactionOutput :=
  List.filter (fun x : SpentTransactionOutput => negb (bool_decide (getTransactionOutputKey x = k))) l.
Definition erase_transaction (h : bytes) (l : list TransactionInformation) : list TransactionInformation :=
  List.filter (fun t => negb (bool_decide (ti_transactionHash t = h))) l.

(** [emplace]: nothing is added when a unique index has an equal element. *)
Definition emplace_output (x : TransactionOutputInformationEx) (l : list TransactionOutputInformationEx) : option (list TransactionOutputInformationEx) :=
  match find_output (getTransactionOutputKey x) l with Some _ => None | None => Some (l ++ [x]) end.
Definition emplace_spent (x : SpentTransactionOutput) (l : list SpentTransactionOutput) : option (list SpentTransactionOutput) :=
  match find_spent (getTransactionOutputKey x) l with
  | Some _ => None
  | None => if existsb (fun y : SpentTransactionOutput => bool_decide (getSpentOutputDescriptor y = getSpentOutputDescriptor x)) l then None else Some (l ++ [x])
  end.

Fixpoint job_insert (j : TransferUnlockJob) (l : list TransferUnlockJob) : list TransferUnlockJob :=
  match l with [] => [j] | y :: l => if unlockHeight j <? unlockHeight y then j :: y :: l else y :: job_insert j l end.
Definition emplace_job (j : TransferUnlockJob) (l : list TransferUnlockJob) : option (list TransferUnlockJob) :=
  if existsb (fun y => bool_decide (transactionOutputKey y = transactionOutputKey j)) l then None else Some (job_insert j l).

Fixpoint info_insert (t : TransactionInformation) (l : list TransactionInformation) : list TransactionInformation :=
  match l with [] => [t] | y :: l => if ti_blockHeight t <? ti_blockHeight y then t :: y :: l else y :: info_insert t l end.
Definition emplace_transaction (t : TransactionInformation) (l : list TransactionInformation) : option (list TransactionInformation) :=
  match find_transaction (ti_transactionHash t) l with Some _ => None | None => Some (info_insert t l) end.

(** [upper_bound]: the number of jobs before the first one above the height. *)
Fixpoint upper_bound (h : Z) (l : list TransferUnlockJob) : nat :=
  match l with [] => 0 | j :: l => if h <? unlockHeight j then 0 else S (upper_bound h l) end.

(** ** Lists of iterators *)

Definition lessTIterator (x y : TransactionOutputInformationEx) : bool :=
  (ex_blockHeight x <? ex_blockHeight y) || ((ex_blockHeight x =? ex_blockHeight y) && (ex_transactionIndex x <? ex_transactionIndex y)).

Fixpoint sort_insert (x : TransactionOutputInformationEx) (l : list TransactionOutputInformationEx) : list TransactionOutputInformationEx :=
  match l with [] => [x] | y :: l => if lessTIterator y x then y :: sort_insert x l else x :: y :: l end.
(** The order of equal elements is that of [arrange]. *)
Definition sort (l : list TransactionOutputInformationEx) : list TransactionOutputInformationEx := fold_right sort_insert [] l.

Definition findFirstByAmount (amount : Z) (l : list TransactionOutputInformationEx) : option TransactionOutputInformationEx :=
  List.find (fun x : TransactionOutputInformationEx => o_amount x =? amount) l.

Fixpoint min_from (best : TransactionOutputInformationEx) (l : list TransactionOutputInformationEx) : TransactionOutputInformationEx :=
  match l with [] => best | x :: l => min_from (if lessTIterator x best then x else best) l end.
Definition minElement (l : list TransactionOutputInformationEx) : option TransactionOutputInformationEx :=
  match l with [] => None | x :: l => Some (min_from x l) end.

(** ** Unlock jobs *)

Definition makeTransferUnlockJob (output : TransactionOutputInformationEx) (transactionSpendableAge : Z) : TransferUnlockJob :=
  let unlockTime := u32 (if ex_unlockTime output =? 0 then ex_blockHeight output else ex_unlockTime output) in
  let aged := u32 (u32 (ex_blockHeight output + transactionSpendableAge) + 1) in
  let height :=
    if negb (deposit_term output =? 0) then Z.max (Z.max unlockTime (u32 (ex_blockHeight output + deposit_term output))) aged
    else Z.max unlockTime aged in
  mk_job height (getTransactionOutputKey output).

Definition make_job (output : TransactionOutputInformationEx) : TransferUnlockJob :=
  makeTransferUnlockJob output (u32 m_transactionSpendableAge).

Definition addUnlockJob (output : TransactionOutputInformationEx) : M unit :=
  jobs <-- gets m_transfersUnlockJobs ;;
  jobs <-- lift (emplace_job (make_job output) jobs) ;;
  modify (with_jobs jobs).

Definition deleteUnlockJob (output : TransactionOutputInformationEx) : M unit :=
  modify (fun c => with_jobs (List.filter (fun j => negb (bool_decide (transactionOutputKey j = getTransactionOutputKey output)))
    (m_transfersUnlockJobs c)) c).

Definition getAvailableOutput (k : TransactionOutputKey) : M TransactionOutputInformation :=
  l <-- gets m_availableTransfers ;;
  x <-- lift (find_output k l) ;;
  ret (in_info x).

Fixpoint outputs_of (jobs : list TransferUnlockJob) : M (list TransactionOutputInformation) :=
  match jobs with
  | [] => ret []
  | j :: jobs => o <-- getAvailableOutput (transactionOutputKey j) ;; os <-- outputs_of jobs ;; ret (o :: os)
  end.

(** The iterators from [start] to [end]: without an end when [start] lies behind it. *)
Definition jobs_between (start stop : nat) (jobs : list TransferUnlockJob) : M (list TransactionOutputInformation) :=
  assert_that (start <=? stop)%nat ;;;
  outputs_of (drop start (take stop jobs)).

Definition getUnlockingTransfers (prevHeight currentHeight : Z) : M (list TransactionOutputInformation) :=
  assert_that (negb (currentHeight <? prevHeight)) ;;;
  jobs <-- gets m_transfersUnlockJobs ;;
  jobs_between (if prevHeight =? 0 then 0%nat else upper_bound (u32 (prevHeight + 1)) jobs) (upper_bound (u32 (currentHeight + 1)) jobs) jobs.

Definition getLockingTransfers (prevHeight currentHeight : Z) : M (list TransactionOutputInformation) :=
  if prevHeight <? currentHeight then ret []
  else
    jobs <-- gets m_transfersUnlockJobs ;;
    jobs_between (upper_bound (u32 (currentHeight + 1)) jobs) (upper_bound (u32 (prevHeight + 1)) jobs) jobs.

Definition doAdvanceHeight (height : Z) : M (list TransactionOutputInformation) :=
  prevHeight <-- gets m_currentHeight ;;
  if height <? prevHeight then throw HeightDecreases
  else
    modify (with_height height) ;;;
    getUnlockingTransfers prevHeight height.

Definition advanceHeight : Z -> M (list TransactionOutputInformation) := doAdvanceHeight.

(** ** Visibility of outputs with the same key image *)

Definition set_visible (v : bool) (x : TransactionOutputInformationEx) : TransactionOutputInformationEx :=
  mk_ex (ex_in x) (ex_unlockTime x) (ex_blockHeight x) (ex_transactionIndex x) v.
Definition set_spent_visible (v : bool) (x : SpentTransactionOutput) : SpentTransactionOutput :=
  mk_spent (set_visible v x) (spendingBlock x) (spendingTransactionHash x) (inputInTransaction x).

Definition updateVisibility (d : SpentOutputDescriptor) (v : bool) (l : list TransactionOutputInformationEx) : list TransactionOutputInformationEx :=
  map (fun x : TransactionOutputInformationEx => if bool_decide (getSpentOutputDescriptor x = d) then set_visible v x else x) l.
Definition updateSpentVisibility (d : SpentOutputDescriptor) (v : bool) (l : list SpentTransactionOutput) : list SpentTransactionOutput :=
  map (fun x : SpentTransactionOutput => if bool_decide (getSpentOutputDescriptor x = d) then set_spent_visible v x else x) l.
(** [replace] of one element by itself with [visible] set. *)
Definition show_output (k : TransactionOutputKey) (l : list TransactionOutputInformationEx) : list TransactionOutputInformationEx :=
  map (fun x : TransactionOutputInformationEx => if bool_decide (getTransactionOutputKey x = k) then set_visible true x else x) l.

Definition updateTransfersVisibility (image : bytes) : M unit :=
  let d := ByKeyImage image in
  unconfirmedCount <-- gets (fun c => length (by_descriptor d (m_unconfirmedTransfers c))) ;;
  availableCount <-- gets (fun c => length (by_descriptor d (m_availableTransfers c))) ;;
  spentCount <-- gets (fun c => length (spent_by_descriptor d (m_spentTransfers c))) ;;
  assert_that (spentCount <=? 1)%nat ;;;
  if (0 <? spentCount)%nat then
    modify (fun c => with_unconfirmed (updateVisibility d false (m_unconfirmedTransfers c)) c) ;;;
    modify (fun c => with_available (updateVisibility d false (m_availableTransfers c)) c) ;;;
    modify (fun c => with_spent (updateSpentVisibility d true (m_spentTransfers c)) c)
  else if (0 <? availableCount)%nat then
    modify (fun c => with_unconfirmed (updateVisibility d false (m_unconfirmedTransfers c)) c) ;;;
    modify (fun c => with_available (updateVisibility d false (m_availableTransfers c)) c) ;;;
    available <-- gets (fun c => by_descriptor d (m_availableTransfers c)) ;;
    earliest <-- lift (minElement available) ;;
    modify (fun c => with_available (show_output (getTransactionOutputKey earliest) (m_availableTransfers c)) c)
  else
    modify (fun c => with_unconfirmed (updateVisibility d (unconfirmedCount =? 1)%nat (m_unconfirmedTransfers c)) c).

Definition update_if_key (o : TransactionOutputInformationIn) : M unit :=
  if is_key o then updateTransfersVisibility (keyImage o) else ret tt.

(** ** Reading a transaction (CryptoNoteCore/Transaction.cpp, TransactionUtils.cpp) *)

(** [getTransactionInputAmount] of TransactionUtils.cpp *)
Definition input_amount (i : TransactionInput) : Z :=
  match i with BaseInput _ => 0 | KeyInput amount _ _ => amount | MultisignatureInput amount _ _ _ => amount end.

Definition getInputTotalAmount (t : Transaction) : Z := fold_left (fun val i => u64 (val + input_amount i)) (inputs t) 0.
Definition getOutputTotalAmount (t : Transaction) : Z := fold_left (fun val o => u64 (val + out_amount o)) (outputs t) 0.

(** [type == tx.getOutputType(index)] *)
Definition same_type (o : TransactionOutputInformation) (t : Transaction) : bool :=
  match outputs t !! Z.to_nat (outputInTransaction o) with
  | Some out => match o_union o, target out with
    | KeyData _, KeyOutput _ | MultisignatureData _ _, MultisignatureOutput _ _ _ => true
    | _, _ => false
    end
  | None => false
  end.

(** ** Adding a transaction *)

Definition information (block : TransactionBlockInfo) (t : Transaction) (messages : list bytes) (id : Z) (publicKey paymentId : bytes) : TransactionInformation :=
  mk_info (getObjectHash t) publicKey (tb_height block) (tb_timestamp block) (TxStore.unlockTime t) (getInputTotalAmount t)
    (getOutputTotalAmount t) (extra t) paymentId messages id.

(** The private [addTransaction]; without an identity it stays undefined in the code and is 0 here. *)
Definition add_information (block : TransactionBlockInfo) (t : Transaction) (messages : list bytes) (id : Z) : M unit :=
  publicKey <-- lift (getTransactionPublicKeyFromExtra (extra t)) ;;
  paymentId <-- lift (index_payment_id t) ;;
  l <-- gets m_transactions ;;
  l <-- lift (emplace_transaction (information block t messages id publicKey (default NULL_HASH paymentId)) l) ;;
  modify (with_transactions l).

Definition stored (block : TransactionBlockInfo) (t : Transaction) (transfer : TransactionOutputInformationIn) : TransactionOutputInformationEx :=
  mk_ex (mk_in (mk_output_info (o_union transfer) (o_amount transfer) (globalOutputIndex transfer) (outputInTransaction transfer)
    (getObjectHash t) (o_transactionPublicKey transfer) (o_id transfer)) (keyImage transfer))
    (TxStore.unlockTime t) (tb_height block) (tb_transactionIndex block) true.

(** A multisignature output must be new among the confirmed ones. *)
Definition check_new (o : TransactionOutputInformationIn) : M unit :=
  if is_key o then ret tt
  else
    c <-- gets (fun c => c) ;;
    let d := getSpentOutputDescriptor o in
    if (0 <? length (by_descriptor d (m_availableTransfers c)))%nat || (0 <? length (spent_by_descriptor d (m_spentTransfers c)))%nat
    then throw TransferExists else ret tt.

(** A confirmed output enters the container. *)
Definition insert_available (x : TransactionOutputInformationEx) : M unit :=
  addUnlockJob x ;;;
  l <-- gets m_availableTransfers ;;
  l <-- lift (emplace_output x l) ;;
  modify (with_available l).

Definition insert_unconfirmed (x : TransactionOutputInformationEx) : M unit :=
  l <-- gets m_unconfirmedTransfers ;;
  l <-- lift (emplace_output x l) ;;
  modify (with_unconfirmed l).

Definition add_output (block : TransactionBlockInfo) (t : Transaction) (transfer : TransactionOutputInformationIn) : M unit :=
  assert_that (outputInTransaction transfer <? Z.of_nat (length (outputs t))) ;;;
  assert_that (same_type transfer t) ;;;
  assert_that (0 <? o_amount transfer) ;;;
  let transferIsUnconfirmed := globalOutputIndex transfer =? UNCONFIRMED_TRANSACTION_GLOBAL_OUTPUT_INDEX in
  if negb (Bool.eqb (tb_height block =? UNCONFIRMED) transferIsUnconfirmed) then throw BadGlobalIndex
  else
    let info := stored block t transfer in
    (if transferIsUnconfirmed then insert_unconfirmed info else check_new transfer ;;; insert_available info) ;;;
    update_if_key info.

Fixpoint addTransactionOutputs (block : TransactionBlockInfo) (t : Transaction) (transfers : list TransactionOutputInformationIn) (outputsAdded : bool) : M bool :=
  match transfers with
  | [] => ret outputsAdded
  | transfer :: transfers =>
      if negb (o_id transfer =? ACCOUNT_OWN_ID) then addTransactionOutputs block t transfers outputsAdded
      else add_output block t transfer ;;; addTransactionOutputs block t transfers true
  end.

Definition copyToSpent (block : TransactionBlockInfo) (t : Transaction) (inputIndex : nat) (output : TransactionOutputInformationEx) : M unit :=
  assert_that (negb (ex_blockHeight output =? UNCONFIRMED)) ;;;
  assert_that (negb (globalOutputIndex output =? UNCONFIRMED_TRANSACTION_GLOBAL_OUTPUT_INDEX)) ;;;
  l <-- gets m_spentTransfers ;;
  l <-- lift (emplace_spent (mk_spent output block (getObjectHash t) (u32 (Z.of_nat inputIndex))) l) ;;
  modify (with_spent l).

(** An available output moves to the spent ones. *)
Definition spend (block : TransactionBlockInfo) (t : Transaction) (i : nat) (output : TransactionOutputInformationEx) : M unit :=
  deleteUnlockJob output ;;;
  copyToSpent block t i output ;;;
  modify (fun c => with_available (erase_output (getTransactionOutputKey output) (m_availableTransfers c)) c).

(** One input; the result tells whether it spends an output of the container. *)
Definition add_input (block : TransactionBlockInfo) (t : Transaction) (i : nat) (input : TransactionInput) : M bool :=
  match input with
  | KeyInput amount _ image =>
      let d := ByKeyImage image in
      spent <-- gets (fun c => spent_by_descriptor d (m_spentTransfers c)) ;;
      if (0 <? length spent)%nat then throw AlreadySpent
      else
        available <-- gets (fun c => by_descriptor d (m_availableTransfers c)) ;;
        unconfirmed <-- gets (fun c => by_descriptor d (m_unconfirmedTransfers c)) ;;
        if (length available =? 0)%nat then
          if (0 <? length unconfirmed)%nat then throw SpendingUnconfirmed else ret false
        else match findFirstByAmount amount (sort available) with
          | None => throw InvalidAmount
          | Some output =>
              assert_that (bool_decide (keyImage output = image)) ;;;
              spend block t i output ;;;
              updateTransfersVisibility image ;;;
              ret true
          end
  | MultisignatureInput amount _ outputIndex _ =>
      available <-- gets (fun c => by_descriptor (ByIndex amount outputIndex) (m_availableTransfers c)) ;;
      match available with
      | [] => ret false
      | output :: _ => spend block t i output ;;; ret true
      end
  | BaseInput _ => ret false
  end.

Fixpoint add_inputs (block : TransactionBlockInfo) (t : Transaction) (i : nat) (ins : list TransactionInput) (inputsAdded : bool) : M bool :=
  match ins with
  | [] => ret inputsAdded
  | input :: ins => r <-- add_input block t i input ;; add_inputs block t (S i) ins (inputsAdded || r)
  end.

Definition addTransactionInputs (block : TransactionBlockInfo) (t : Transaction) : M bool := add_inputs block t 0 (inputs t) false.

(** The result and the outputs that are unlocked. *)
Definition addTransaction (block : TransactionBlockInfo) (t : Transaction) (transfers : list TransactionOutputInformationIn)
    (messages : list bytes) (id : Z) : M (bool * list TransactionOutputInformation) :=
  c <-- gets (fun c => c) ;;
  if tb_height block <? m_currentHeight c then throw BlockBelowHeight
  else match find_transaction (getObjectHash t) (m_transactions c) with
  | Some _ => throw AlreadyAdded
  | None =>
      outputsAdded <-- addTransactionOutputs block t transfers false ;;
      inputsAdded <-- addTransactionInputs block t ;;
      let added := outputsAdded || inputsAdded in
      (if added then add_information block t messages id else ret tt) ;;;
      if negb (tb_height block =? UNCONFIRMED) then
        finishedJobs <-- doAdvanceHeight (tb_height block) ;; ret (added, finishedJobs)
      else ret (added, [])
  end.

(** Messages for another identity of the wallet: the transaction alone is kept. *)
Definition addTransactionBM (block : TransactionBlockInfo) (t : Transaction) (messages : list bytes) (id : Z) : M bool :=
  c <-- gets (fun c => c) ;;
  if tb_height block <? m_currentHeight c then throw BlockBelowHeight
  else match find_transaction (getObjectHash t) (m_transactionsBM c) with
  | Some _ => ret false
  | None =>
      publicKey <-- lift (getTransactionPublicKeyFromExtra (extra t)) ;;
      let info := mk_info (getObjectHash t) publicKey (tb_height block) (tb_timestamp block) (TxStore.unlockTime t) 0 0 (extra t) NULL_HASH messages id in
      l <-- lift (emplace_transaction info (m_transactionsBM c)) ;;
      modify (with_transactionsBM l) ;;; ret true
  end.

(** ** Removing transactions *)

(** A spent output becomes available again. *)
Definition unspend (k : TransactionOutputKey) : M unit :=
  l <-- gets m_spentTransfers ;;
  it <-- lift (find_spent k l) ;;
  assert_that (negb (ex_blockHeight it =? UNCONFIRMED)) ;;;
  assert_that (negb (globalOutputIndex it =? UNCONFIRMED_TRANSACTION_GLOBAL_OUTPUT_INDEX)) ;;;
  insert_available (sp_ex it) ;;;
  modify (fun c => with_spent (erase_spent k (m_spentTransfers c)) c) ;;;
  update_if_key it.

Definition drop_unconfirmed (k : TransactionOutputKey) : M unit :=
  l <-- gets m_unconfirmedTransfers ;;
  it <-- lift (find_output k l) ;;
  modify (fun c => with_unconfirmed (erase_output k (m_unconfirmedTransfers c)) c) ;;;
  update_if_key it.

Definition drop_available (k : TransactionOutputKey) : M unit :=
  l <-- gets m_availableTransfers ;;
  it <-- lift (find_output k l) ;;
  deleteUnlockJob it ;;;
  modify (fun c => with_available (erase_output k (m_availableTransfers c)) c) ;;;
  update_if_key it.

(** Each loop erases the element it is at: it visits the elements the range had at its start. *)
Definition deleteTransactionTransfers (h : bytes) : M unit :=
  spent <-- gets (fun c => by_spending h (m_spentTransfers c)) ;;
  iterate unspend (map (fun x : SpentTransactionOutput => getTransactionOutputKey x) spent) ;;;
  unconfirmed <-- gets (fun c => by_transaction h (m_unconfirmedTransfers c)) ;;
  iterate drop_unconfirmed (map (fun x : TransactionOutputInformationEx => getTransactionOutputKey x) unconfirmed) ;;;
  available <-- gets (fun c => by_transaction h (m_availableTransfers c)) ;;
  iterate drop_available (map (fun x : TransactionOutputInformationEx => getTransactionOutputKey x) available).

Definition deleteUnconfirmedTransaction (h : bytes) : M bool :=
  l <-- gets m_transactions ;;
  match find_transaction h l with
  | None => ret false
  | Some it =>
      if negb (ti_blockHeight it =? UNCONFIRMED) then ret false
      else
        deleteTransactionTransfers (ti_transactionHash it) ;;;
        modify (fun c => with_transactions (erase_transaction h (m_transactions c)) c) ;;;
        ret true
  end.

(** The loop of [detach] from the end of the index by height; [rest] are the elements before the iterator, the last one first. *)
Fixpoint detach_loop (height : Z) (rest : list TransactionInformation) (deletedTransactions : list bytes) : M (list bytes) :=
  match rest with
  | [] => ret deletedTransactions
  | it :: rest =>
      let h := ti_transactionHash it in
      let delete :=
        deleteTransactionTransfers h ;;;
        modify (fun c => with_transactions (erase_transaction h (m_transactions c)) c) ;;;
        detach_loop height rest (deletedTransactions ++ [h]) in
      if ti_blockHeight it =? UNCONFIRMED then
        spent <-- gets (fun c => by_spending h (m_spentTransfers c)) ;;
        if existsb (fun x : SpentTransactionOutput => height <=? ex_blockHeight x) spent then delete
        else detach_loop height rest deletedTransactions
      else if height <=? ti_blockHeight it then delete
      else ret deletedTransactions
  end.

(** The deleted transactions and the outputs that are locked again. *)
Definition detach (height : Z) : M (list bytes * list TransactionOutputInformation) :=
  assert_that (height <? UNCONFIRMED) ;;;
  l <-- gets m_transactions ;;
  deletedTransactions <-- detach_loop height (rev l) [] ;;
  prevHeight <-- gets m_currentHeight ;;
  let currentHeight := if height =? 0 then 0 else height - 1 in
  modify (with_height currentHeight) ;;;
  lockedTransfers <-- getLockingTransfers prevHeight currentHeight ;;
  ret (deletedTransactions, lockedTransfers).

(** ** Confirming a transaction *)

Definition confirmed (block : TransactionBlockInfo) (globalIndex : Z) (x : TransactionOutputInformationEx) : TransactionOutputInformationEx :=
  mk_ex (mk_in (mk_output_info (o_union x) (o_amount x) globalIndex (outputInTransaction x) (o_transactionHash x) (o_transactionPublicKey x) (o_id x))
    (keyImage x)) (ex_unlockTime x) (tb_height block) (tb_transactionIndex block) (visible x).

Definition confirm_output (block : TransactionBlockInfo) (globalIndices : list Z) (k : TransactionOutputKey) : M unit :=
  l <-- gets m_unconfirmedTransfers ;;
  transfer <-- lift (find_output k l) ;;
  assert_that (ex_blockHeight transfer =? UNCONFIRMED) ;;;
  assert_that (globalOutputIndex transfer =? UNCONFIRMED_TRANSACTION_GLOBAL_OUTPUT_INDEX) ;;;
  match globalIndices !! Z.to_nat (outputInTransaction transfer) with
  | None => throw NotEnoughIndices
  | Some globalIndex =>
      let transfer := confirmed block globalIndex transfer in
      check_new transfer ;;;
      insert_available transfer ;;;
      modify (fun c => with_unconfirmed (erase_output k (m_unconfirmedTransfers c)) c) ;;;
      update_if_key transfer
  end.

Definition confirm_spending (block : TransactionBlockInfo) (k : TransactionOutputKey) : M unit :=
  l <-- gets m_spentTransfers ;;
  transfer <-- lift (find_spent k l) ;;
  assert_that (tb_height (spendingBlock transfer) =? UNCONFIRMED) ;;;
  modify (fun c => with_spent (map (fun x : SpentTransactionOutput => if bool_decide (getTransactionOutputKey x = k)
    then mk_spent (sp_ex x) block (spendingTransactionHash x) (inputInTransaction x) else x) (m_spentTransfers c)) c).

Definition set_block (block : TransactionBlockInfo) (t : TransactionInformation) : TransactionInformation :=
  mk_info (ti_transactionHash t) (ti_publicKey t) (tb_height block) (tb_timestamp block) (ti_unlockTime t) (ti_totalAmountIn t)
    (ti_totalAmountOut t) (ti_extra t) (ti_paymentId t) (ti_messages t) (ti_id t).

Definition markTransactionConfirmed (block : TransactionBlockInfo) (h : bytes) (globalIndices : list Z) : M bool :=
  if tb_height block =? UNCONFIRMED then throw UnconfirmedBlock
  else
    l <-- gets m_transactions ;;
    match find_transaction h l with
    | None => ret false
    | Some txInfo =>
        if negb (ti_blockHeight txInfo =? UNCONFIRMED) then ret false
        else
          modify (with_transactions (info_insert (set_block block txInfo) (erase_transaction h l))) ;;;
          unconfirmed <-- gets (fun c => by_transaction h (m_unconfirmedTransfers c)) ;;
          iterate (confirm_output block globalIndices) (map (fun x : TransactionOutputInformationEx => getTransactionOutputKey x) unconfirmed) ;;;
          spent <-- gets (fun c => by_spending h (m_spentTransfers c)) ;;
          iterate (confirm_spending block) (map (fun x : SpentTransactionOutput => getTransactionOutputKey x) spent) ;;;
          ret true
    end.

(** ** Queries *)

(** [Flags] *)
Definition IncludeStateUnlocked : Z := 0x01.
Definition IncludeStateLocked : Z := 0x02.
Definition IncludeStateSoftLocked : Z := 0x04.
Definition IncludeStateSpent : Z := 0x08.
Definition IncludeTypeKey : Z := 0x100.
Definition IncludeTypeMultisignature : Z := 0x200.
Definition IncludeTypeDeposit : Z := 0x400.
Definition IncludeStateAll : Z := 0xff.
Definition IncludeTypeAll : Z := 0xff00.
Definition IncludeAllUnlocked : Z := Z.lor IncludeTypeAll IncludeStateUnlocked.
Definition IncludeAll : Z := Z.lor IncludeTypeAll IncludeStateAll.

(** [(flags & f) != 0] *)
Definition has (flags f : Z) : bool := negb (Z.land flags f =? 0).

Definition isSpendTimeUnlocked (currentHeight : Z) (info : TransactionOutputInformationEx) : bool :=
  let isOuputUnlocked :=
    if ex_unlockTime info <? m_maxBlockHeight cur then ex_unlockTime info <=? u64 (currentHeight + m_lockedTxAllowedDeltaBlocks cur)
    else ex_unlockTime info <=? u64 (now + m_lockedTxAllowedDeltaSeconds cur) in
  if isOuputUnlocked && negb (deposit_term info =? 0) then u32 (ex_blockHeight info + deposit_term info) <=? u32 (currentHeight + 1)
  else isOuputUnlocked.

(** [m_currentHeight < info.blockHeight + m_transactionSpendableAge] *)
Definition soft_locked (currentHeight : Z) (info : TransactionOutputInformationEx) : bool :=
  currentHeight <? u64 (ex_blockHeight info + m_transactionSpendableAge).

Definition state_of (currentHeight : Z) (info : TransactionOutputInformationEx) : Z :=
  if (ex_blockHeight info =? UNCONFIRMED) || negb (isSpendTimeUnlocked currentHeight info) then IncludeStateLocked
  else if soft_locked currentHeight info then IncludeStateSoftLocked
  else IncludeStateUnlocked.

(** The static [isIncluded]. *)
Definition included_as (output : TransactionOutputInformation) (state flags : Z) : bool :=
  ((has flags IncludeTypeKey && is_key output) ||
   (has flags IncludeTypeMultisignature && negb (is_key output) && (deposit_term output =? 0)) ||
   (has flags IncludeTypeDeposit && negb (is_key output) && (0 <? deposit_term output))) &&
  has flags state.

Definition isIncluded (currentHeight : Z) (info : TransactionOutputInformationEx) (flags : Z) : bool :=
  included_as info (state_of currentHeight info) flags.

Definition transfersCount (c : container) : nat :=
  length (m_unconfirmedTransfers c) + length (m_availableTransfers c) + length (m_spentTransfers c).
Definition transactionsCount (c : container) : nat := length (m_transactions c).

(** The outputs [balance] and [getOutputs] choose. *)
Definition selected (flags : Z) (c : container) : list TransactionOutputInformationEx :=
  List.filter (fun t => visible t && isIncluded (m_currentHeight c) t flags) (arrange (m_availableTransfers c)) ++
  (if has flags IncludeStateLocked
   then List.filter (fun t : TransactionOutputInformationEx => visible t && included_as t IncludeStateLocked flags) (arrange (m_unconfirmedTransfers c)) else []).

Definition balance (flags : Z) (c : container) : Z := fold_left (fun amount t => u64 (amount + o_amount t)) (map in_info (map ex_in (selected flags c))) 0.
Definition getOutputs (transfers : list TransactionOutputInformation) (flags : Z) (c : container) : list TransactionOutputInformation :=
  transfers ++ map in_info (map ex_in (selected flags c)).

Definition total (l : list TransactionOutputInformationEx) (amount : Z) : Z := fold_left (fun amount (t : TransactionOutputInformationEx) => u64 (amount + o_amount t)) l amount.

(** The transaction, [amountIn] and [amountOut]. *)
Definition getTransactionInformation (h : bytes) (c : container) : option (TransactionInformation * Z * Z) :=
  match find_transaction h (m_transactions c) with
  | None => None
  | Some info =>
      let amountOut :=
        if ti_blockHeight info =? UNCONFIRMED then total (by_transaction h (m_unconfirmedTransfers c)) 0
        else total (map sp_ex (spent_by_transaction h (m_spentTransfers c))) (total (by_transaction h (m_availableTransfers c)) 0) in
      let amountIn := total (map sp_ex (by_spending h (m_spentTransfers c))) 0 in
      Some (info, amountIn, amountOut)
  end.

Definition getTransactionInformationBM (h : bytes) (c : container) : option TransactionInformation := find_transaction h (m_transactionsBM c).

Definition getTransactionOutputs (h : bytes) (flags : Z) (c : container) : list TransactionOutputInformation :=
  map in_info (map ex_in (
    List.filter (fun t => isIncluded (m_currentHeight c) t flags) (by_transaction h (m_availableTransfers c)) ++
    (if has flags IncludeStateLocked
     then List.filter (fun t : TransactionOutputInformationEx => included_as t IncludeStateLocked flags) (by_transaction h (m_unconfirmedTransfers c)) else []) ++
    (if has flags IncludeStateSpent
     then List.filter (fun t : TransactionOutputInformationEx => included_as t IncludeStateAll flags) (map sp_ex (spent_by_transaction h (m_spentTransfers c))) else []))).

Definition getTransactionInputs (h : bytes) (flags : Z) : M (list TransactionOutputInformation) :=
  assert_that (negb (has flags IncludeStateAll)) ;;;
  let flags := Z.lor flags IncludeStateUnlocked in
  spent <-- gets (fun c => by_spending h (m_spentTransfers c)) ;;
  ret (map in_info (map ex_in (List.filter (fun t : TransactionOutputInformationEx => included_as t IncludeStateUnlocked flags) (map sp_ex spent)))).

Definition getUnconfirmedTransactions (c : container) : list bytes :=
  map ti_transactionHash (List.filter (fun t => ti_blockHeight t =? UNCONFIRMED) (arrange (m_transactions c))).

(** [TransactionSpentOutputInformation]: the output, the height and time of the block, the hash of the spending transaction, the key image, the input. *)
Definition getSpentOutputs (c : container) : list (TransactionOutputInformation * Z * Z * bytes * bytes * Z) :=
  map (fun o : SpentTransactionOutput => (in_info (ex_in (sp_ex o)), tb_height (spendingBlock o), tb_timestamp (spendingBlock o),
    spendingTransactionHash o, keyImage o, inputInTransaction o)) (arrange (m_spentTransfers c)).

Inductive TransferState := TransferUnconfirmed | TransferLocked | TransferAvailable | TransferSpent.

(** A spent output is read through the iterator into the unconfirmed ones, which is at their end. *)
Definition getTransfer (h : bytes) (index : Z) : M (option (TransactionOutputInformation * TransferState)) :=
  let transferId := (h, index) in
  c <-- gets (fun c => c) ;;
  match find_output transferId (m_availableTransfers c) with
  | Some x =>
      ret (Some (in_info x, if negb (isSpendTimeUnlocked (m_currentHeight c) x) || soft_locked (m_currentHeight c) x then TransferLocked else TransferAvailable))
  | None =>
      let unconfirmedIt := find_output transferId (m_unconfirmedTransfers c) in
      match unconfirmedIt with
      | Some x => ret (Some (in_info x, TransferUnconfirmed))
      | None =>
          match find_spent transferId (m_spentTransfers c) with
          | Some _ => x <-- lift unconfirmedIt ;; ret (Some (in_info x, TransferSpent))
          | None => ret None
          end
      end
  end.

(** The jobs of a file of version 0; [emplace] adds nothing when a job for the output is there. *)
Definition rebuildTransfersUnlockJobs (available : list TransactionOutputInformationEx) (spent : list SpentTransactionOutput) : list TransferUnlockJob :=
  fold_left (fun jobs x => match emplace_job (make_job x) jobs with Some jobs => jobs | None => jobs end) (arrange available ++ map sp_ex (arrange spent)) [].

End Container.
