(* ===== verification/TransfersInvariant.v ===== *)
(** * What the container of transfers keeps true

    [account] is the content of a container without its order and without the marks
    of visibility; [represents] relates the two and holds the invariants: every
    output is in one of the three collections, its transaction is known at its
    height, spent outputs are spent by known transactions, there is one unlock job for
    each available output, and among the outputs of one key image exactly the right
    ones are visible.  The lemmas show, operation by operation, that no assertion
    fails and how the content changes. *)

From Stdlib Require Import ZArith Lia List Bool Sorted.
From S2P Require Import Prelude Bytes IntUtil Currency TxStore Blockchain TransactionExtra TransfersContainer.
From stdpp Require Import gmap list.
Import ListNotations.
Open Scope Z_scope.
Open Scope transfers_scope.
Set Default Goal Selector "!".

(** ** Outcomes *)

(** The computation ends with a result for which [P] holds; exceptions are allowed when [E] holds. *)
Definition wp {A} (E : Prop) (P : A -> container -> Prop) (o : outcome A) : Prop :=
  match o with Abort => False | Throw _ _ => E | Done a c => P a c end.

Lemma wp_bind {A B} E (P : B -> container -> Prop) (m : M A) (k : A -> M B) c :
  wp E (fun a c => wp E P (k a c)) (m c) -> wp E P (bind m k c).
Proof. unfold bind. destruct (m c); intros H; exact H. Qed.

Lemma wp_mono {A} E (P Q : A -> container -> Prop) o : (forall a c, P a c -> Q a c) -> wp E P o -> wp E Q o.
Proof. destruct o; cbn; auto. Qed.

Lemma wp_weaken {A} (E E' : Prop) (P : A -> container -> Prop) o : (E -> E') -> wp E P o -> wp E' P o.
Proof. destruct o; cbn; auto. Qed.

Lemma wp_gets {A B} E (P : B -> container -> Prop) (f : container -> A) k c : wp E P (k (f c) c) -> wp E P (bind (gets f) k c).
Proof. intros H. exact H. Qed.
Lemma wp_modify {B} E (P : B -> container -> Prop) f k c : wp E P (k tt (f c)) -> wp E P (bind (modify f) k c).
Proof. intros H. exact H. Qed.
Lemma wp_assert {B} E (P : B -> container -> Prop) b k c : b = true -> wp E P (k tt c) -> wp E P (bind (assert_that b) k c).
Proof. intros -> H. exact H. Qed.
Lemma wp_lift {A B} E (P : B -> container -> Prop) (o : option A) a k c : o = Some a -> wp E P (k a c) -> wp E P (bind (lift o) k c).
Proof. intros -> H. exact H. Qed.

(** The invariant of a loop speaks of the elements still to visit. *)
Lemma wp_iterate {A B} E (I : list B -> container -> Prop) (f : A -> M unit) (g : B -> A) :
  (forall x l c, I (x :: l) c -> wp E (fun _ c => I l c) (f (g x) c)) ->
  forall l c, I l c -> wp E (fun _ c => I [] c) (iterate f (map g l) c).
Proof.
  intros Step. induction l as [|x l IH]; intros c H; [exact H|]. cbn [map iterate].
  apply wp_bind. eapply wp_mono; [|exact (Step x l c H)]. intros ? c'. exact (IH c').
Qed.

(** Fields of an updated container. *)
Ltac fields := cbn [negb wp ret m_transactions m_unconfirmedTransfers m_availableTransfers m_spentTransfers m_transfersUnlockJobs m_currentHeight
  with_transactions with_unconfirmed with_available with_spent with_jobs with_height].
Ltac run := unfold bind, gets, assert_that, modify, throw, ret, lift; fields.

(** ** Content *)

Definition strip : TransactionOutputInformationEx -> TransactionOutputInformationEx := set_visible true.
Definition strip_spent : SpentTransactionOutput -> SpentTransactionOutput := set_spent_visible true.

Record account := mk_account {
  a_transactions : list TransactionInformation;
  a_unconfirmed : list TransactionOutputInformationEx;
  a_available : list TransactionOutputInformationEx;
  a_spent : list SpentTransactionOutput
}.

(** Equal up to order. *)
Record account_equiv (a b : account) : Prop := {
  ae_t : a_transactions a = a_transactions b;
  ae_u : a_unconfirmed a ≡ₚ a_unconfirmed b;
  ae_a : a_available a ≡ₚ a_available b;
  ae_s : a_spent a ≡ₚ a_spent b
}.
#[export] Instance account_equivalence : Equivalence account_equiv.
Proof.
  split.
  - intros a. constructor; reflexivity.
  - intros a b []. constructor; symmetry; assumption.
  - intros a b c [] []. constructor; etransitivity; eassumption.
Qed.

Definition content (c : container) : account :=
  mk_account (m_transactions c) (map strip (m_unconfirmedTransfers c)) (map strip (m_availableTransfers c)) (map strip_spent (m_spentTransfers c)).

Abbreviation key_of := (fun x : TransactionOutputInformationEx => getTransactionOutputKey x).
Abbreviation spent_key := (fun x : SpentTransactionOutput => getTransactionOutputKey x).
Abbreviation desc_of := (fun x : TransactionOutputInformationEx => getSpentOutputDescriptor x).
Abbreviation spent_desc := (fun x : SpentTransactionOutput => getSpentOutputDescriptor x).
Abbreviation hash_of := (fun x : TransactionOutputInformationEx => o_transactionHash x).
Abbreviation info_of := (fun x : TransactionOutputInformationEx => in_info (ex_in x)).
Abbreviation is_multisig := (fun x : TransactionOutputInformationEx => negb (is_key x)).

(** The hashes and heights of transactions. *)
Definition known (l : list TransactionInformation) (h : bytes) (height : Z) : Prop :=
  exists t, In t l /\ ti_transactionHash t = h /\ ti_blockHeight t = height.

Definition confirmed_output (T : bytes -> Z -> Prop) (x : TransactionOutputInformationEx) : Prop :=
  ex_blockHeight x <> UNCONFIRMED /\ globalOutputIndex x <> UNCONFIRMED_TRANSACTION_GLOBAL_OUTPUT_INDEX /\ T (o_transactionHash x) (ex_blockHeight x).
Definition unconfirmed_output (T : bytes -> Z -> Prop) (x : TransactionOutputInformationEx) : Prop :=
  ex_blockHeight x = UNCONFIRMED /\ globalOutputIndex x = UNCONFIRMED_TRANSACTION_GLOBAL_OUTPUT_INDEX /\ T (o_transactionHash x) UNCONFIRMED.
Definition spent_output (T : bytes -> Z -> Prop) (x : SpentTransactionOutput) : Prop :=
  confirmed_output T x /\ T (spendingTransactionHash x) (tb_height (spendingBlock x)).

(** The outputs of an account over the transactions [T]. *)
Record outputs_ok (T : bytes -> Z -> Prop) (a : account) : Prop := {
  ok_keys : List.NoDup (map key_of (a_unconfirmed a ++ a_available a ++ map sp_ex (a_spent a)));
  ok_unconfirmed : Forall (unconfirmed_output T) (a_unconfirmed a);
  ok_available : Forall (confirmed_output T) (a_available a);
  ok_spent : Forall (spent_output T) (a_spent a);
  ok_spent_once : List.NoDup (map spent_desc (a_spent a));
  ok_multisig : List.NoDup (map desc_of (List.filter is_multisig (a_available a ++ map sp_ex (a_spent a))))
}.

(** Spending transactions come after those they spend from in the order of heights. *)
Definition in_order (a : account) : Prop :=
  forall s l1 l2, In s (a_spent a) -> a_transactions a = l1 ++ l2 ->
  In (o_transactionHash s) (map ti_transactionHash l2) -> In (spendingTransactionHash s) (map ti_transactionHash l2).

Record account_ok (a : account) : Prop := {
  ok_outputs : outputs_ok (known (a_transactions a)) a;
  ok_hashes : List.NoDup (map ti_transactionHash (a_transactions a));
  ok_heights : Forall (fun t => ti_blockHeight t <= UNCONFIRMED) (a_transactions a);
  ok_sorted : StronglySorted (fun t t' => ti_blockHeight t <= ti_blockHeight t') (a_transactions a);
  ok_order : in_order a
}.

(** ** Visibility *)

Section Visibility.
Abbreviation seen := (fun x : TransactionOutputInformationEx => visible x = true).
Abbreviation unseen := (fun x : TransactionOutputInformationEx => visible x = false).

(** The outputs with one descriptor. *)
Definition same (d : SpentOutputDescriptor) (l : list TransactionOutputInformationEx) : list TransactionOutputInformationEx :=
  List.filter (fun x : TransactionOutputInformationEx => bool_decide (getSpentOutputDescriptor x = d)) l.

(** The outputs of one key image: the spent one is visible, else the earliest available one, else a single unconfirmed one. *)
Record image_visible (u a s : list TransactionOutputInformationEx) : Prop := {
  iv_spent : s <> [] -> Forall unseen u /\ Forall unseen a /\ Forall seen s;
  iv_available : s = [] -> a <> [] -> Forall unseen u /\
    exists x rest, a ≡ₚ x :: rest /\ visible x = true /\ Forall unseen rest /\ Forall (fun y => lessTIterator y x = false) rest;
  iv_unconfirmed : s = [] -> a = [] -> Forall (fun x => visible x = (length u =? 1)%nat) u
}.

Definition visible_at (d : SpentOutputDescriptor) (c : container) : Prop :=
  image_visible (same d (m_unconfirmedTransfers c)) (same d (m_availableTransfers c)) (same d (map sp_ex (m_spentTransfers c))).

Definition multisig_seen (c : container) : Prop :=
  Forall (fun x => is_multisig x = true -> visible x = true)
    (m_unconfirmedTransfers c ++ m_availableTransfers c ++ map sp_ex (m_spentTransfers c)).
End Visibility.

Section Representation.
Context {HO : HashOrder} {CO : Codec}.
Variable cur : currency.
Variable age now : Z.
Abbreviation job := (make_job age).

Record jobs_ok (c : container) : Prop := {
  jo_jobs : m_transfersUnlockJobs c ≡ₚ map job (m_availableTransfers c);
  jo_sorted : StronglySorted (fun j j' => unlockHeight j <= unlockHeight j') (m_transfersUnlockJobs c)
}.

(** The container holds the content [a] at the height [ht], with outputs over the transactions [T]; the marks may be wrong at one descriptor. *)
Record holds (T : bytes -> Z -> Prop) (at_ : option SpentOutputDescriptor) (a : account) (ht : Z) (c : container) : Prop := {
  ho_height : m_currentHeight c = ht;
  ho_content : account_equiv (content c) a;
  ho_outputs : outputs_ok T a;
  ho_jobs : jobs_ok c;
  ho_visible : forall image, at_ <> Some (ByKeyImage image) -> visible_at (ByKeyImage image) c;
  ho_multisig : multisig_seen c
}.

Definition represents (c : container) (a : account) : Prop := holds (known (a_transactions a)) None a (m_currentHeight c) c /\ account_ok a.

(** ** Lists with unique keys *)

Lemma find_key {A K} `{EqDecision K} (f : A -> K) l x : List.NoDup (map f l) -> In x l -> List.find (fun y => bool_decide (f y = f x)) l = Some x.
Proof.
  induction l as [|y l IH]; [intros _ []|]. cbn [map List.find]. intros N [->|I]; [rewrite bool_decide_true by reflexivity; reflexivity|].
  apply NoDup_cons_iff in N as [N N']. case_bool_decide as D; [|exact (IH N' I)]. exfalso. apply N. rewrite D. apply in_map, I.
Qed.

Lemma find_key_none {A K} `{EqDecision K} (f : A -> K) l k : ~ In k (map f l) <-> List.find (fun y => bool_decide (f y = k)) l = None.
Proof.
  split.
  - intros N. destruct (List.find _ l) as [y|] eqn:F; [|reflexivity]. apply find_some in F as [I E]. apply bool_decide_eq_true in E.
    exfalso. apply N. rewrite <- E. apply in_map, I.
  - intros F I. apply in_map_iff in I as (y & E & I). pose proof (find_none _ _ F y I) as D. cbn in D. rewrite bool_decide_true in D by exact E. discriminate.
Qed.

Lemma filter_keep_all {A} (f : A -> bool) l : (forall x, In x l -> f x = true) -> List.filter f l = l.
Proof. induction l as [|x l IH]; intros H; [reflexivity|]. cbn. rewrite (H x) by (left; reflexivity). f_equal. apply IH. intros y I. apply H. right. exact I. Qed.

Lemma erase_key_absent {A K} `{EqDecision K} (f : A -> K) l k : ~ In k (map f l) -> List.filter (fun y => negb (bool_decide (f y = k))) l = l.
Proof. intros N. apply filter_keep_all. intros x I. rewrite bool_decide_false; [reflexivity|]. intros E. apply N. rewrite <- E. apply in_map, I. Qed.

Lemma erase_key_perm {A K} `{EqDecision K} (f : A -> K) l x : List.NoDup (map f l) -> In x l ->
  l ≡ₚ x :: List.filter (fun y => negb (bool_decide (f y = f x))) l.
Proof.
  induction l as [|y l IH]; [intros _ []|]. cbn [map]. intros N [->|I]; apply NoDup_cons_iff in N as [N N'].
  - cbn [List.filter]. rewrite bool_decide_true by reflexivity. cbn [negb]. rewrite erase_key_absent by exact N. reflexivity.
  - cbn [List.filter]. rewrite bool_decide_false; [|intros D; apply N; rewrite D; apply in_map, I]. cbn [negb].
    rewrite (IH N' I) at 1. apply perm_swap.
Qed.

Lemma filter_perm {A} (f : A -> bool) l l' : l ≡ₚ l' -> List.filter f l ≡ₚ List.filter f l'.
Proof.
  induction 1 as [|x l l' P IH|x y l|l l' l'' P IH P' IH']; cbn; [reflexivity| | |etransitivity; eassumption].
  - destruct (f x); [constructor|]; exact IH.
  - destruct (f x), (f y); try reflexivity. apply perm_swap.
Qed.

Lemma existsb_key {A K} `{EqDecision K} (f : A -> K) l k : existsb (fun y => bool_decide (f y = k)) l = false <-> ~ In k (map f l).
Proof.
  split.
  - intros X I. apply in_map_iff in I as (y & E & I). apply not_true_iff_false in X. apply X, existsb_exists. exists y. split; [exact I|].
    apply bool_decide_eq_true, E.
  - intros N. apply not_true_iff_false. intros X. apply existsb_exists in X as (y & I & E). apply bool_decide_eq_true in E. apply N. rewrite <- E.
    apply in_map, I.
Qed.

(** ** Outputs *)

(** The content with the marks. *)
Definition raw (c : container) : account := mk_account (m_transactions c) (m_unconfirmedTransfers c) (m_availableTransfers c) (m_spentTransfers c).

Lemma outputs_perm T a b : account_equiv a b -> outputs_ok T a -> outputs_ok T b.
Proof.
  intros [Et Eu Ea Es] [K U A S O X]. constructor.
  - eapply Permutation_NoDup; [|exact K]. apply Permutation_map. rewrite Eu, Ea, Es. reflexivity.
  - rewrite <- Eu. exact U.
  - rewrite <- Ea. exact A.
  - rewrite <- Es. exact S.
  - eapply Permutation_NoDup; [|exact O]. rewrite Es. reflexivity.
  - eapply Permutation_NoDup; [|exact X]. apply Permutation_map, filter_perm. rewrite Ea, Es. reflexivity.
Qed.

Lemma filter_map_comm {A B} (f : B -> bool) (g : A -> B) l : List.filter f (map g l) = map g (List.filter (fun x => f (g x)) l).
Proof. induction l as [|x l IH]; [reflexivity|]. cbn. destruct (f (g x)); cbn; rewrite IH; reflexivity. Qed.

Lemma map_strip_spent l : map sp_ex (map strip_spent l) = map strip (map sp_ex l).
Proof. rewrite !map_map. reflexivity. Qed.

(** The marks do not matter. *)
Lemma outputs_raw T c : outputs_ok T (content c) <-> outputs_ok T (raw c).
Proof.
  split; intros [K U A S O X]; constructor; cbn in *;
    rewrite ?map_strip_spent, <- ?map_app, ?map_map, ?Forall_map, ?filter_map_comm, ?map_map in *; assumption.
Qed.

Lemma holds_raw T d a ht c : holds T d a ht c -> outputs_ok T (raw c).
Proof. intros H. apply outputs_raw. eapply outputs_perm; [symmetry; apply H|apply H]. Qed.

Lemma nodup_app {A} (l l' : list A) : List.NoDup (l ++ l') <-> List.NoDup l /\ List.NoDup l' /\ (forall x, In x l -> ~ In x l').
Proof.
  rewrite <- !NoDup_ListNoDup, NoDup_app. setoid_rewrite list_elem_of_In. tauto.
Qed.

Section Keys.
Context {T : bytes -> Z -> Prop} {a : account} (OK : outputs_ok T a).

Lemma keys_app : List.NoDup (map key_of (a_unconfirmed a)) /\ List.NoDup (map key_of (a_available a)) /\ List.NoDup (map spent_key (a_spent a)) /\
  (forall k, In k (map key_of (a_unconfirmed a)) -> ~ In k (map key_of (a_available a)) /\ ~ In k (map spent_key (a_spent a))) /\
  (forall k, In k (map key_of (a_available a)) -> ~ In k (map spent_key (a_spent a))).
Proof.
  pose proof (ok_keys _ _ OK) as K. rewrite !map_app, map_map in K.
  apply nodup_app in K as (KU & K & D). apply nodup_app in K as (KA & KS & D').
  repeat split; [exact KU|exact KA|exact KS|..].
  - intros I. apply (D _ H), in_app_iff. left. exact I.
  - intros I. apply (D _ H), in_app_iff. right. exact I.
  - intros k I J. exact (D' k I J).
Qed.
End Keys.

(** ** Elements of the container *)

Lemma in_content {A B} (f : A -> B) l l' y : map f l ≡ₚ l' -> In y l' -> exists x, In x l /\ f x = y.
Proof. intros P I. apply (Permutation_in _ (symmetry P)) in I. apply in_map_iff in I as (x & E & I). exists x. split; assumption. Qed.

Section Elements.
Context {T : bytes -> Z -> Prop} {d : option SpentOutputDescriptor} {a : account} {ht : Z} {c : container} (H : holds T d a ht c).

Lemma spent_element s : In s (a_spent a) -> exists s', find_spent (getTransactionOutputKey s) (m_spentTransfers c) = Some s' /\ strip_spent s' = s /\
  m_spentTransfers c ≡ₚ s' :: erase_spent (getTransactionOutputKey s) (m_spentTransfers c).
Proof.
  intros I. destruct (in_content _ _ _ _ (ae_s _ _ (ho_content _ _ _ _ _ H)) I) as (x & J & E). exists x.
  destruct (keys_app (holds_raw _ _ _ _ _ H)) as (_ & _ & N & _). rewrite <- E.
  split; [exact (find_key spent_key _ x N J)|]. split; [reflexivity|]. exact (erase_key_perm spent_key _ x N J).
Qed.

Lemma available_element x : In x (a_available a) -> exists x', find_output (getTransactionOutputKey x) (m_availableTransfers c) = Some x' /\ strip x' = x /\
  m_availableTransfers c ≡ₚ x' :: erase_output (getTransactionOutputKey x) (m_availableTransfers c).
Proof.
  intros I. destruct (in_content _ _ _ _ (ae_a _ _ (ho_content _ _ _ _ _ H)) I) as (y & J & E). exists y.
  destruct (keys_app (holds_raw _ _ _ _ _ H)) as (_ & N & _). rewrite <- E.
  split; [exact (find_key key_of _ y N J)|]. split; [reflexivity|]. exact (erase_key_perm key_of _ y N J).
Qed.

Lemma unconfirmed_element x : In x (a_unconfirmed a) -> exists x', find_output (getTransactionOutputKey x) (m_unconfirmedTransfers c) = Some x' /\ strip x' = x /\
  m_unconfirmedTransfers c ≡ₚ x' :: erase_output (getTransactionOutputKey x) (m_unconfirmedTransfers c).
Proof.
  intros I. destruct (in_content _ _ _ _ (ae_u _ _ (ho_content _ _ _ _ _ H)) I) as (y & J & E). exists y.
  destruct (keys_app (holds_raw _ _ _ _ _ H)) as (N & _). rewrite <- E.
  split; [exact (find_key key_of _ y N J)|]. split; [reflexivity|]. exact (erase_key_perm key_of _ y N J).
Qed.
End Elements.

(** ** Marks of visibility *)

Lemma image_visible_perm u a s u' a' s' : u ≡ₚ u' -> a ≡ₚ a' -> s ≡ₚ s' -> image_visible u a s -> image_visible u' a' s'.
Proof.
  intros Pu Pa Ps [V W X].
  assert (forall l l' : list TransactionOutputInformationEx, l ≡ₚ l' -> l' = [] -> l = []) as Nil
    by (intros l l' P ->; apply Permutation_nil_r, P).
  constructor.
  - intros N. rewrite <- Pu, <- Pa, <- Ps. apply V. intros Z. apply N, (Nil _ _ (symmetry Ps)), Z.
  - intros Z N. rewrite <- Pu. destruct W as (U & x & rest & P & R); [exact (Nil _ _ Ps Z)|intros Z'; apply N, (Nil _ _ (symmetry Pa)), Z'|].
    split; [exact U|]. exists x, rest. rewrite <- Pa. split; [exact P|exact R].
  - intros Z Z'. rewrite <- (Permutation_length Pu), <- Pu. apply X; [exact (Nil _ _ Ps Z)|exact (Nil _ _ Pa Z')].
Qed.

(** The elements that a step takes out or puts in belong to the descriptor [d]. *)
Definition touches (d : SpentOutputDescriptor) (x : TransactionOutputInformationEx) : Prop :=
  forall image, getSpentOutputDescriptor x = ByKeyImage image -> d = ByKeyImage image.

Lemma same_cons d x l : same d (x :: l) = if bool_decide (getSpentOutputDescriptor x = d) then x :: same d l else same d l.
Proof. reflexivity. Qed.

Lemma same_app d l l' : same d (l ++ l') = same d l ++ same d l'.
Proof. apply List.filter_app. Qed.

Lemma same_touched d image l : Forall (touches d) l -> d <> ByKeyImage image -> same (ByKeyImage image) l = [].
Proof.
  intros F N. induction F as [|x l Tx F IH]; [reflexivity|]. cbn. rewrite bool_decide_false; [exact IH|]. intros E. exact (N (Tx image E)).
Qed.

Lemma same_delta d image l0 x l y l' : l ≡ₚ x ++ l0 -> l' ≡ₚ y ++ l0 -> Forall (touches d) x -> Forall (touches d) y -> d <> ByKeyImage image ->
  same (ByKeyImage image) l ≡ₚ same (ByKeyImage image) l'.
Proof.
  intros P P' Fx Fy N. unfold same. rewrite (filter_perm _ _ _ P), (filter_perm _ _ _ P'). fold (same (ByKeyImage image) (x ++ l0)).
  fold (same (ByKeyImage image) (y ++ l0)). rewrite !same_app, (same_touched d image x), (same_touched d image y) by assumption. reflexivity.
Qed.

(** A step replaces parts of the three collections. *)
Record delta (d : SpentOutputDescriptor) (c c' : container) : Prop := {
  de_u : exists l0 x y, m_unconfirmedTransfers c ≡ₚ x ++ l0 /\ m_unconfirmedTransfers c' ≡ₚ y ++ l0 /\ Forall (touches d) x /\ Forall (touches d) y /\
    Forall (fun z => is_multisig z = true -> visible z = true) y;
  de_a : exists l0 x y, m_availableTransfers c ≡ₚ x ++ l0 /\ m_availableTransfers c' ≡ₚ y ++ l0 /\ Forall (touches d) x /\ Forall (touches d) y /\
    Forall (fun z => is_multisig z = true -> visible z = true) y;
  de_s : exists l0 x y, map sp_ex (m_spentTransfers c) ≡ₚ x ++ l0 /\ map sp_ex (m_spentTransfers c') ≡ₚ y ++ l0 /\ Forall (touches d) x /\ Forall (touches d) y /\
    Forall (fun z => is_multisig z = true -> visible z = true) y
}.

Lemma holds_delta T d a a' ht c c' : holds T None a ht c -> delta d c c' -> m_currentHeight c' = ht -> account_equiv (content c') a' -> outputs_ok T a' ->
  jobs_ok c' -> holds T (Some d) a' ht c'.
Proof.
  intros [_ _ _ _ V X] [(u0 & u & u' & Pu & Pu' & Tu & Tu' & Mu) (a0 & x & x' & Pa & Pa' & Ta & Ta' & Ma) (s0 & s & s' & Ps & Ps' & Ts & Ts' & Ms)] Eh Ec O J.
  constructor; try assumption.
  - intros image N. assert (d <> ByKeyImage image) as N' by congruence.
    eapply image_visible_perm; [..|apply (V image); discriminate]; eapply (same_delta d); eassumption.
  - unfold multisig_seen in *. rewrite Pu, Pa, Ps, !list.Forall_app in X. rewrite Pu', Pa', Ps', !list.Forall_app. tauto.
Qed.

(** ** [updateTransfersVisibility] *)

Lemma map_marks (f : TransactionOutputInformationEx -> TransactionOutputInformationEx) l : (forall x, strip (f x) = strip x) -> map strip (map f l) = map strip l.
Proof. intros H. rewrite map_map. apply map_ext, H. Qed.

Lemma mark_strip (b : bool) v x : strip (if b then set_visible v x else x) = strip x.
Proof. destruct b; reflexivity. Qed.

(** Marks on the outputs of [d] leave those of other descriptors alone. *)
Lemma mark_desc (b : bool) v x : getSpentOutputDescriptor (ex_in (if b then set_visible v x else x)) = getSpentOutputDescriptor x.
Proof. destruct b; reflexivity. Qed.

Lemma same_marks (f : TransactionOutputInformationEx -> TransactionOutputInformationEx) d l :
  (forall x, getSpentOutputDescriptor (f x) = getSpentOutputDescriptor x) -> same d (map f l) = map f (same d l).
Proof. intros H. unfold same. rewrite filter_map_comm. f_equal. apply filter_ext. intros x. rewrite H. reflexivity. Qed.

Lemma same_desc d l x : In x (same d l) -> getSpentOutputDescriptor x = d.
Proof. intros I. apply List.filter_In in I as [_ D]. apply bool_decide_eq_true in D. exact D. Qed.

Lemma same_update d d' v l : d <> d' -> same d' (updateVisibility d v l) = same d' l.
Proof.
  intros N. unfold updateVisibility. rewrite same_marks by (intros; apply mark_desc). rewrite <- (map_id (same d' l)) at 2. apply map_ext_in.
  intros x I. apply same_desc in I. rewrite bool_decide_false; [reflexivity|congruence].
Qed.

Lemma same_update_eq d v l : same d (updateVisibility d v l) = map (set_visible v) (same d l).
Proof.
  unfold updateVisibility. rewrite same_marks by (intros; apply mark_desc). apply map_ext_in. intros x I. apply same_desc in I.
  rewrite bool_decide_true by exact I. reflexivity.
Qed.

Lemma update_spent_map d v l : map sp_ex (updateSpentVisibility d v l) = updateVisibility d v (map sp_ex l).
Proof. unfold updateSpentVisibility, updateVisibility. rewrite !map_map. apply map_ext. intros x. case_bool_decide; reflexivity. Qed.

Lemma by_descriptor_perm d l : by_descriptor d l ≡ₚ same d l.
Proof. apply arrange_perm. Qed.

Lemma spent_descriptor_perm d l : map sp_ex (spent_by_descriptor d l) ≡ₚ same d (map sp_ex l).
Proof. unfold spent_by_descriptor, same. rewrite arrange_perm, filter_map_comm. reflexivity. Qed.

Lemma spent_count d l : length (spent_by_descriptor d l) = length (same d (map sp_ex l)).
Proof. rewrite <- (Permutation_length (spent_descriptor_perm d l)), length_map. reflexivity. Qed.

Lemma same_once d l : List.NoDup (map desc_of l) -> (length (same d l) <= 1)%nat.
Proof.
  induction l as [|x l IH]; [intros; cbn; lia|]. cbn [map]. intros N. apply NoDup_cons_iff in N as [N N']. rewrite same_cons. case_bool_decide as D; [|exact (IH N')].
  subst d. enough (same (getSpentOutputDescriptor x) l = []) as -> by (cbn; lia).
  destruct (same _ l) as [|y r] eqn:E; [reflexivity|]. exfalso. assert (In y (same (getSpentOutputDescriptor x) l)) as I by (rewrite E; left; reflexivity).
  apply List.filter_In in I as [I D]. apply bool_decide_eq_true in D. apply N. rewrite <- D. exact (in_map desc_of _ _ I).
Qed.

(** The minimum of a list. *)
Lemma less_irrefl x : lessTIterator x x = false.
Proof. unfold lessTIterator. rewrite Z.ltb_irrefl, Z.eqb_refl, Z.ltb_irrefl. reflexivity. Qed.

Lemma less_spec x y : lessTIterator x y = false <->
  ex_blockHeight y < ex_blockHeight x \/ (ex_blockHeight y = ex_blockHeight x /\ ex_transactionIndex y <= ex_transactionIndex x).
Proof.
  unfold lessTIterator. rewrite orb_false_iff, andb_false_iff, !Z.ltb_ge, Z.eqb_neq. lia.
Qed.

Lemma less_true x y : lessTIterator x y = true <->
  ex_blockHeight x < ex_blockHeight y \/ (ex_blockHeight y = ex_blockHeight x /\ ex_transactionIndex x < ex_transactionIndex y).
Proof. unfold lessTIterator. rewrite orb_true_iff, andb_true_iff, !Z.ltb_lt, Z.eqb_eq. lia. Qed.

Lemma min_from_spec l : forall best, In (min_from best l) (best :: l) /\ Forall (fun y => lessTIterator y (min_from best l) = false) (best :: l).
Proof.
  induction l as [|x l IH]; intros best; cbn [min_from]; [split; [left; reflexivity|repeat constructor; apply less_irrefl]|].
  destruct (IH (if lessTIterator x best then x else best)) as [I F]. apply list.Forall_cons in F as [F0 F].
  destruct (lessTIterator x best) eqn:L; (split; [destruct I as [<-|I]; [auto with datatypes|right; right; exact I]|]).
  - repeat constructor; [|exact F0|exact F]. apply less_true in L. apply less_spec in F0. apply less_spec. lia.
  - repeat constructor; [exact F0| |exact F]. apply less_spec in L. apply less_spec in F0. apply less_spec. lia.
Qed.

(** New marks on the outputs of [d] alone. *)
Record remarked (d : SpentOutputDescriptor) (l l' : list TransactionOutputInformationEx) : Prop := {
  re_strip : map strip l' = map strip l;
  re_same : forall d', d <> d' -> same d' l' = same d' l
}.

Lemma remarked_refl d l : remarked d l l.
Proof. split; reflexivity. Qed.

Lemma remarked_update d v l : remarked d l (updateVisibility d v l).
Proof.
  split.
  - apply map_marks. intros x. apply mark_strip.
  - intros d' N. apply same_update, N.
Qed.

Lemma remarked_trans d l l' l'' : remarked d l l' -> remarked d l' l'' -> remarked d l l''.
Proof.
  intros [P Q] [P' Q']. split; [congruence|]. intros d' N. rewrite Q', Q by exact N. reflexivity.
Qed.

Lemma remarked_show d x l : List.NoDup (map key_of l) -> In x l -> getSpentOutputDescriptor x = d -> remarked d l (show_output (getTransactionOutputKey x) l).
Proof.
  intros N I D. split; [apply map_marks; intros y; apply mark_strip|]. intros d' N'. unfold show_output. rewrite same_marks by (intros; apply mark_desc).
  rewrite <- (map_id (same d' l)) at 2. apply map_ext_in. intros y J. pose proof (same_desc _ _ _ J) as E. rewrite bool_decide_false; [reflexivity|].
  intros K. apply List.filter_In in J as [J _]. enough (y = x) by congruence.
  pose proof (find_key key_of l x N I) as F. pose proof (find_key key_of l y N J) as F'. cbv beta in F, F'. rewrite K in F'. congruence.
Qed.

Lemma remarked_multisig d l l' : remarked d l l' -> (forall i, d <> ByIndex (fst i) (snd i)) ->
  Forall (fun x => is_multisig x = true -> visible x = true) l -> Forall (fun x => is_multisig x = true -> visible x = true) l'.
Proof.
  intros [_ Q] N F. rewrite List.Forall_forall in *. intros x I X.
  enough (In x (same (getSpentOutputDescriptor x) l)) as J by (apply List.filter_In in J as [J _]; exact (F x J X)).
  rewrite <- Q.
  - apply List.filter_In. split; [exact I|]. apply bool_decide_eq_true. reflexivity.
  - unfold getSpentOutputDescriptor. unfold is_key in X. destruct (o_union x); [discriminate X|]. apply (N (_, _)).
Qed.

Lemma job_strip l : map job (map strip l) = map job l.
Proof. rewrite map_map. reflexivity. Qed.

Lemma holds_marks T image a ht c c' : holds T (Some (ByKeyImage image)) a ht c ->
  remarked (ByKeyImage image) (m_unconfirmedTransfers c) (m_unconfirmedTransfers c') ->
  remarked (ByKeyImage image) (m_availableTransfers c) (m_availableTransfers c') ->
  map strip_spent (m_spentTransfers c') = map strip_spent (m_spentTransfers c) ->
  remarked (ByKeyImage image) (map sp_ex (m_spentTransfers c)) (map sp_ex (m_spentTransfers c')) ->
  m_transactions c' = m_transactions c -> m_transfersUnlockJobs c' = m_transfersUnlockJobs c -> m_currentHeight c' = m_currentHeight c ->
  visible_at (ByKeyImage image) c' -> holds T None a ht c'.
Proof.
  intros [Eh Ec O [J J'] V X] Ru Ra Es Rs Et Ej Eh' Vi. constructor; try assumption; [congruence|..].
  - rewrite <- Ec. unfold content. rewrite (re_strip _ _ _ Ru), (re_strip _ _ _ Ra), Es, Et. reflexivity.
  - split; rewrite Ej; [|exact J']. rewrite J, <- (job_strip (m_availableTransfers c)), <- (job_strip (m_availableTransfers c')), (re_strip _ _ _ Ra). reflexivity.
  - intros i _. destruct (decide (image = i)) as [<-|N]; [exact Vi|].
    assert (ByKeyImage image <> ByKeyImage i) as N' by congruence. unfold visible_at. rewrite (re_same _ _ _ Ru), (re_same _ _ _ Ra), (re_same _ _ _ Rs) by exact N'.
    apply V. congruence.
  - unfold multisig_seen in *. rewrite !list.Forall_app in *. destruct X as (Xu & Xa & Xs). assert (forall i, ByKeyImage image <> ByIndex (fst i) (snd i)) as N by discriminate.
    split; [exact (remarked_multisig _ _ _ Ru N Xu)|split; [exact (remarked_multisig _ _ _ Ra N Xa)|exact (remarked_multisig _ _ _ Rs N Xs)]].
Qed.

Lemma all_set v l : Forall (fun x : TransactionOutputInformationEx => visible x = v) (map (set_visible v) l).
Proof. apply Forall_map. apply List.Forall_forall. reflexivity. Qed.

Lemma nodup_map_filter {A B} (f : A -> B) (g : A -> bool) l : List.NoDup (map f l) -> List.NoDup (map f (List.filter g l)).
Proof.
  induction l as [|x l IH]; cbn; [auto|]. intros N. apply NoDup_cons_iff in N as [N N']. destruct (g x); [|exact (IH N')]. constructor; [|exact (IH N')].
  intros J. apply N. apply in_map_iff in J as (z & Ez & J). apply List.filter_In in J as [J _]. rewrite <- Ez. apply in_map, J.
Qed.

(** Showing the earliest of hidden outputs. *)
Lemma show_earliest d m l : List.NoDup (map key_of l) -> In m (same d l) -> Forall (fun y => lessTIterator y m = false) (same d l) ->
  Forall (fun y => visible y = false) (same d l) ->
  exists x rest, same d (show_output (getTransactionOutputKey m) l) ≡ₚ x :: rest /\ visible x = true /\ Forall (fun y => visible y = false) rest /\
    Forall (fun y => lessTIterator y x = false) rest.
Proof.
  intros N I F V. set (k := getTransactionOutputKey m). set (rest := List.filter (fun y => negb (bool_decide (key_of y = key_of m))) (same d l)).
  assert (same d l ≡ₚ m :: rest) as P by (apply (erase_key_perm key_of); [apply nodup_map_filter, N|exact I]).
  rewrite P in F, V. apply list.Forall_cons in F as [_ F]. apply list.Forall_cons in V as [_ V]. exists (set_visible true m), rest.
  split; [|split; [reflexivity|split; [exact V|exact F]]].
  unfold show_output. rewrite same_marks by (intros; apply mark_desc). rewrite P. cbn [map]. rewrite bool_decide_true by reflexivity.
  apply perm_skip. rewrite <- (map_id rest) at 2. apply eq_subrelation; [exact _|]. apply map_ext_in. intros y J. apply List.filter_In in J as [_ J].
  apply negb_true_iff, bool_decide_eq_false in J. rewrite bool_decide_false by exact J. reflexivity.
Qed.

Lemma update_ok T image a ht c : holds T (Some (ByKeyImage image)) a ht c -> wp False (fun _ c' => holds T None a ht c') (updateTransfersVisibility image c).
Proof.
  intros H. pose proof (holds_raw _ _ _ _ _ H) as R. destruct (keys_app R) as (_ & NA & _). cbn in NA. set (d := ByKeyImage image) in *.
  assert (length (spent_by_descriptor d (m_spentTransfers c)) <= 1)%nat as L.
  { rewrite spent_count. apply same_once. rewrite map_map. apply (ok_spent_once _ _ R). }
  unfold updateTransfersVisibility. fold d. run. rewrite (proj2 (Nat.leb_le _ _) L). fields.
  rewrite spent_count. pose proof (Permutation_length (by_descriptor_perm d (m_availableTransfers c))) as LA. rewrite LA.
  pose proof (Permutation_length (by_descriptor_perm d (m_unconfirmedTransfers c))) as LU. rewrite LU.
  destruct (Nat.ltb_spec 0 (length (same d (map sp_ex (m_spentTransfers c))))) as [Ls|Ls];
    [|assert (same d (map sp_ex (m_spentTransfers c)) = []) as Zs by (apply length_zero_iff_nil; lia);
      destruct (Nat.ltb_spec 0 (length (same d (m_availableTransfers c)))) as [La|La]].
  - eapply (holds_marks T image a ht c); fields; try reflexivity; try apply remarked_update; [exact H| | |].
    + unfold updateSpentVisibility. rewrite map_map. apply map_ext. intros x. case_bool_decide; reflexivity.
    + rewrite update_spent_map. apply remarked_update.
    + unfold visible_at. fields. fold d. rewrite update_spent_map, !same_update_eq. split; [intros _; repeat split; apply all_set|intros Z|intros Z];
        destruct (same d (map sp_ex _)); cbn in *; solve [lia|discriminate].
  - set (A1 := updateVisibility d false (m_availableTransfers c)). pose proof (by_descriptor_perm d A1) as PA.
    assert (same d A1 = map (set_visible false) (same d (m_availableTransfers c))) as EA by apply same_update_eq.
    destruct (by_descriptor d A1) as [|x l] eqn:B; [apply Permutation_length in PA; rewrite EA, length_map in PA; cbn in PA; lia|].
    cbn [minElement]. fields. destruct (min_from_spec l x) as [I F]. set (m := min_from x l) in *. rewrite PA in F. apply (Permutation_in _ PA) in I.
    assert (List.NoDup (map key_of A1)) as NA1.
    { unfold A1, updateVisibility. rewrite map_map. erewrite map_ext; [exact NA|]. intros y. cbn. case_bool_decide; reflexivity. }
    eapply (holds_marks T image a ht c); fields; try reflexivity; [exact H|apply remarked_update| |apply remarked_refl|].
    + fold d A1. eapply remarked_trans; [apply remarked_update|]. fold A1. apply remarked_show; [exact NA1|apply List.filter_In in I; tauto|exact (same_desc _ _ _ I)].
    + unfold visible_at. fields. fold d A1. rewrite same_update_eq, Zs.
      destruct (show_earliest d m A1) as (x' & rest & P & W); [exact NA1|exact I|exact F|rewrite EA; apply all_set|].
      split; [congruence|intros _ _; split; [apply all_set|exists x', rest; split; [exact P|exact W]]|].
      intros _ Z. rewrite Z in P. apply Permutation_nil_cons in P. destruct P.
  - assert (same d (m_availableTransfers c) = []) as Za by (apply length_zero_iff_nil; lia).
    eapply (holds_marks T image a ht c); fields; try reflexivity; try apply remarked_refl; [exact H|apply remarked_update|].
    unfold visible_at. fields. fold d. rewrite same_update_eq, Zs, Za. split; [congruence|congruence|]. intros _ _. rewrite length_map. apply all_set.
Qed.

Lemma holds_any T d a ht c : holds T None a ht c -> holds T d a ht c.
Proof. intros [Eh Ec O J V X]. constructor; try assumption. intros i _. apply V. discriminate. Qed.

Lemma update_if_ok T x a ht c : holds T (Some (getSpentOutputDescriptor x)) a ht c -> wp False (fun _ c' => holds T None a ht c') (update_if_key x c).
Proof.
  unfold update_if_key, is_key, getSpentOutputDescriptor. destruct (o_union x); [apply update_ok|]. intros [Eh Ec O J V X]. cbn. constructor; try assumption.
  intros i _. apply V. discriminate.
Qed.

End Representation.
