(* ===== verification/TransfersSteps.v ===== *)
(** * Single steps of the container of transfers

    An output is received, spent, made available again, confirmed or dropped: for each
    of these steps, that no assertion fails and what the container holds after it. *)

From Stdlib Require Import ZArith Lia List Bool Sorted.
From S2P Require Import Prelude Bytes IntUtil Currency TxStore Blockchain TransactionExtra TransfersContainer TransfersInvariant.
From stdpp Require Import gmap list.
Import ListNotations.
Open Scope Z_scope.
Open Scope transfers_scope.
Set Default Goal Selector "!".

(** ** Outputs of an account *)

Ltac parts := cbn [a_transactions a_unconfirmed a_available a_spent] in *.

Section Outputs.
Variable T : bytes -> Z -> Prop.
Variables (t : list TransactionInformation) (U A : list TransactionOutputInformationEx) (S : list SpentTransactionOutput).
Abbreviation fresh_key x := (~ In (key_of x) (map key_of (U ++ A ++ map sp_ex S))).
Abbreviation fresh_multisig x := (is_key (in_info (ex_in x)) = false -> ~ In (desc_of x) (map desc_of (A ++ map sp_ex S))).

Lemma multisig_fresh x : fresh_multisig x -> List.NoDup (map desc_of (List.filter is_multisig (A ++ map sp_ex S))) ->
  List.NoDup (map desc_of (List.filter is_multisig ((x :: A) ++ map sp_ex S))).
Proof.
  intros F N. cbn. destruct (is_key x); [exact N|]. cbn. constructor; [|exact N]. intros I. apply (F eq_refl).
  apply in_map_iff in I as (y & E & I). apply List.filter_In in I as [I _]. rewrite <- E. exact (in_map desc_of _ _ I).
Qed.

Lemma ok_receive x : outputs_ok T (mk_account t U A S) -> fresh_key x -> confirmed_output T x -> fresh_multisig x -> outputs_ok T (mk_account t U (x :: A) S).
Proof.
  intros [K HU HA HS O X] Fk Fx Fm. constructor; cbn in *; try assumption.
  - eapply Permutation_NoDup; [apply Permutation_map, Permutation_middle|]. cbn. constructor; assumption.
  - constructor; assumption.
  - apply multisig_fresh; assumption.
Qed.

Lemma ok_receive_unconfirmed x : outputs_ok T (mk_account t U A S) -> fresh_key x -> unconfirmed_output T x -> outputs_ok T (mk_account t (x :: U) A S).
Proof. intros [K HU HA HS O X] Fk Fx. constructor; cbn in *; try assumption; constructor; assumption. Qed.

Lemma spent_middle s : (A ++ map sp_ex (s :: S)) ≡ₚ (sp_ex s :: A) ++ map sp_ex S.
Proof. cbn. symmetry. apply Permutation_middle. Qed.

Lemma ok_spend s : outputs_ok T (mk_account t U (sp_ex s :: A) S) -> T (spendingTransactionHash s) (tb_height (spendingBlock s)) ->
  ~ In (spent_desc s) (map spent_desc S) -> outputs_ok T (mk_account t U A (s :: S)).
Proof.
  intros [K HU HA HS O X] Ts Fs. parts. apply list.Forall_cons in HA as [Hs HA]. constructor; parts; try assumption.
  - eapply Permutation_NoDup; [|exact K]. apply Permutation_map. apply Permutation_app_head. symmetry. exact (spent_middle s).
  - constructor; [split; assumption|assumption].
  - constructor; assumption.
  - eapply Permutation_NoDup; [|exact X]. apply Permutation_map, filter_perm. symmetry. exact (spent_middle s).
Qed.

Lemma ok_unspend s : outputs_ok T (mk_account t U A (s :: S)) -> outputs_ok T (mk_account t U (sp_ex s :: A) S).
Proof.
  intros [K HU HA HS O X]. parts. apply list.Forall_cons in HS as [[Hs Ts] HS]. apply NoDup_cons_iff in O as [_ O]. constructor; parts; try assumption.
  - eapply Permutation_NoDup; [|exact K]. apply Permutation_map. apply Permutation_app_head. exact (spent_middle s).
  - constructor; assumption.
  - eapply Permutation_NoDup; [|exact X]. apply Permutation_map, filter_perm. exact (spent_middle s).
Qed.

Lemma ok_drop_unconfirmed x : outputs_ok T (mk_account t (x :: U) A S) -> outputs_ok T (mk_account t U A S).
Proof.
  intros [K HU HA HS O X]. cbn in *. apply NoDup_cons_iff in K as [_ K]. apply list.Forall_cons in HU as [_ HU]. constructor; assumption.
Qed.

Lemma ok_drop_available x : outputs_ok T (mk_account t U (x :: A) S) -> outputs_ok T (mk_account t U A S).
Proof.
  intros [K HU HA HS O X]. cbn in *. apply list.Forall_cons in HA as [_ HA]. constructor; cbn; try assumption.
  - apply (Permutation_NoDup (Permutation_map _ (symmetry (Permutation_middle _ _ _)))) in K. cbn in K. apply NoDup_cons_iff in K as [_ K]. exact K.
  - destruct (negb (is_key x)); [apply NoDup_cons_iff in X as [_ X]|]; exact X.
Qed.

Lemma key_fresh_unconfirmed x : outputs_ok T (mk_account t (x :: U) A S) -> fresh_key x.
Proof. intros [K _ _ _ _ _]. cbn in K. apply NoDup_cons_iff in K as [K _]. exact K. Qed.

Lemma ok_respend s s' : outputs_ok T (mk_account t U A (s :: S)) -> sp_ex s' = sp_ex s -> T (spendingTransactionHash s') (tb_height (spendingBlock s')) ->
  outputs_ok T (mk_account t U A (s' :: S)).
Proof.
  intros [K HU HA HS O X] E Ts. cbn in *. apply list.Forall_cons in HS as [[Hs _] HS]. constructor; cbn; rewrite ?E; try assumption.
  constructor; [split; [rewrite E; exact Hs|exact Ts]|exact HS].
Qed.
End Outputs.

(** ** Unlock jobs *)

Lemma job_insert_perm j l : job_insert j l ≡ₚ j :: l.
Proof. induction l as [|y l IH]; [reflexivity|]. cbn. destruct (_ <? _); [reflexivity|]. rewrite IH. apply perm_swap. Qed.

Lemma job_insert_sorted j l : StronglySorted (fun j j' => unlockHeight j <= unlockHeight j') l ->
  StronglySorted (fun j j' => unlockHeight j <= unlockHeight j') (job_insert j l).
Proof.
  induction 1 as [|y l S IH F]; [repeat constructor|]. cbn. destruct (Z.ltb_spec (unlockHeight j) (unlockHeight y)).
  - constructor; [constructor; assumption|]. constructor; [lia|]. apply (Forall_impl _ _ _ F). intros; lia.
  - constructor; [exact IH|]. rewrite job_insert_perm. constructor; [lia|exact F].
Qed.

Lemma sorted_filter {A} (R : A -> A -> Prop) f l : StronglySorted R l -> StronglySorted R (List.filter f l).
Proof.
  induction 1 as [|y l S IH F]; [constructor|]. cbn. destruct (f y); [|exact IH]. constructor; [exact IH|]. rewrite List.Forall_forall in *.
  intros x I. apply List.filter_In in I as [I _]. exact (F x I).
Qed.

Section Steps.
Context {HO : HashOrder} {CO : Codec}.
Variable cur : currency.
Variable age now : Z.
Abbreviation job := (make_job age).
Abbreviation holds := (holds age).
Abbreviation jobs_ok := (jobs_ok age).

Lemma jobs_keys c : jobs_ok c -> map transactionOutputKey (m_transfersUnlockJobs c) ≡ₚ map key_of (m_availableTransfers c).
Proof. intros [J _]. rewrite J, map_map. reflexivity. Qed.

Lemma insert_available_eq c x : jobs_ok c -> ~ In (key_of x) (map key_of (m_availableTransfers c)) ->
  let c' := with_available (m_availableTransfers c ++ [x]) (with_jobs (job_insert (job x) (m_transfersUnlockJobs c)) c) in
  insert_available age x c = Done tt c' /\ jobs_ok c'.
Proof.
  intros J F. cbn zeta. split.
  - unfold insert_available, addUnlockJob. run. unfold emplace_job.
    rewrite (proj2 (existsb_key transactionOutputKey _ _)); [|rewrite (jobs_keys c J); exact F]. fields. unfold emplace_output, find_output.
    rewrite (proj1 (find_key_none key_of _ _) F). reflexivity.
  - destruct J as [J J']. split; fields; [|apply job_insert_sorted, J']. rewrite job_insert_perm, map_app, J, Permutation_app_comm. reflexivity.
Qed.

Lemma jobs_delete c c' x : jobs_ok c -> List.NoDup (map key_of (m_availableTransfers c)) -> m_availableTransfers c ≡ₚ x :: m_availableTransfers c' ->
  m_transfersUnlockJobs c' = List.filter (fun j => negb (bool_decide (transactionOutputKey j = key_of x))) (m_transfersUnlockJobs c) -> jobs_ok c'.
Proof.
  intros [J J'] N P E. split; rewrite E; [|apply sorted_filter, J'].
  rewrite (Permutation_map key_of P) in N. cbn in N. apply NoDup_cons_iff in N as [N _].
  assert (m_transfersUnlockJobs c ≡ₚ map job (x :: m_availableTransfers c')) as J1 by (rewrite J; apply Permutation_map, P). clear J E.
  rewrite (filter_perm _ _ _ J1). cbn. rewrite bool_decide_true by reflexivity. cbn. apply eq_subrelation; [exact _|]. apply filter_keep_all. intros j I.
  apply in_map_iff in I as (y & <- & I). rewrite bool_decide_false; [reflexivity|]. intros E. apply N. cbn in E. rewrite <- E. exact (in_map key_of _ _ I).
Qed.
(** ** Moving outputs *)

Lemma touches_self x : touches (desc_of x) x.
Proof. intros image E. exact E. Qed.

Lemma touches_confirmed block g x : touches (desc_of (confirmed block g x)) x.
Proof. intros image. unfold getSpentOutputDescriptor. cbn. destruct (o_union x); [auto|discriminate]. Qed.

Lemma seen_strip l : Forall (fun z : TransactionOutputInformationEx => is_multisig z = true -> visible z = true) (map strip l).
Proof. apply Forall_map, List.Forall_forall. reflexivity. Qed.

(** An element of the container with its mark: a multisignature output is visible. *)
Lemma seen_available T d a ht c x : holds T d a ht c -> In x (m_availableTransfers c) -> is_multisig x = true -> visible x = true.
Proof. intros H I. pose proof (ho_multisig _ _ _ _ _ _ H) as X. unfold multisig_seen in X. rewrite !list.Forall_app in X. destruct X as (_ & X & _). rewrite List.Forall_forall in X. apply X, I. Qed.
Lemma seen_unconfirmed T d a ht c x : holds T d a ht c -> In x (m_unconfirmedTransfers c) -> is_multisig x = true -> visible x = true.
Proof. intros H I. pose proof (ho_multisig _ _ _ _ _ _ H) as X. unfold multisig_seen in X. rewrite !list.Forall_app in X. destruct X as (X & _). rewrite List.Forall_forall in X. apply X, I. Qed.
Lemma seen_spent T d a ht c x : holds T d a ht c -> In x (m_spentTransfers c) -> is_multisig (sp_ex x) = true -> visible x = true.
Proof. intros H I. pose proof (ho_multisig _ _ _ _ _ _ H) as X. unfold multisig_seen in X. rewrite !list.Forall_app in X. destruct X as (_ & _ & X). rewrite List.Forall_forall in X. apply X, in_map, I. Qed.

(** A collection that a step leaves alone, adds to or takes from. *)
Lemma part_same d (l : list TransactionOutputInformationEx) : exists l0 x y, l ≡ₚ x ++ l0 /\ l ≡ₚ y ++ l0 /\ Forall (touches d) x /\ Forall (touches d) y /\
  Forall (fun z => is_multisig z = true -> visible z = true) y.
Proof. exists l, [], []. repeat split; try reflexivity; constructor. Qed.
Lemma part_add d (l l' : list TransactionOutputInformationEx) z : l' ≡ₚ z :: l -> touches d z -> (is_multisig z = true -> visible z = true) ->
  exists l0 x y, l ≡ₚ x ++ l0 /\ l' ≡ₚ y ++ l0 /\ Forall (touches d) x /\ Forall (touches d) y /\ Forall (fun z => is_multisig z = true -> visible z = true) y.
Proof. intros P D V. exists l, [], [z]. repeat split; try exact P; try reflexivity; repeat constructor; assumption. Qed.
Lemma part_take d (l l' : list TransactionOutputInformationEx) z : l ≡ₚ z :: l' -> touches d z ->
  exists l0 x y, l ≡ₚ x ++ l0 /\ l' ≡ₚ y ++ l0 /\ Forall (touches d) x /\ Forall (touches d) y /\ Forall (fun z => is_multisig z = true -> visible z = true) y.
Proof. intros P D. exists l', [z], []. repeat split; try exact P; try reflexivity; repeat constructor; assumption. Qed.

Lemma snoc_perm {A} (x : A) l : l ++ [x] ≡ₚ x :: l.
Proof. apply Permutation_app_comm. Qed.

(** The keys of the content are those of the container. *)
Lemma fresh_raw T d a ht c k : holds T d a ht c -> ~ In k (map key_of (a_unconfirmed a ++ a_available a ++ map sp_ex (a_spent a))) ->
  ~ In k (map key_of (m_unconfirmedTransfers c)) /\ ~ In k (map key_of (m_availableTransfers c)) /\ ~ In k (map spent_key (m_spentTransfers c)).
Proof.
  intros H F. destruct (ho_content _ _ _ _ _ _ H) as [_ Pu Pa Ps]. rewrite <- Pu, <- Pa, <- Ps in F. cbn in F. rewrite !map_app, !map_map, !in_app_iff in F. tauto.
Qed.

Lemma receive_ok T a ht c x : holds T None a ht c -> ~ In (key_of x) (map key_of (a_unconfirmed a ++ a_available a ++ map sp_ex (a_spent a))) ->
  confirmed_output T x -> (is_key x = false -> visible x = true /\ ~ In (desc_of x) (map desc_of (a_available a ++ map sp_ex (a_spent a)))) ->
  wp False (fun _ => holds T None (mk_account (a_transactions a) (a_unconfirmed a) (strip x :: a_available a) (a_spent a)) ht)
    ((insert_available age x ;;; update_if_key x) c).
Proof.
  intros H F X M. destruct (fresh_raw _ _ _ _ _ _ H F) as (_ & Fa & _). destruct (insert_available_eq c x (ho_jobs _ _ _ _ _ _ H) Fa) as [E J].
  apply wp_bind. rewrite E. fields. apply update_if_ok. destruct a as [t U A S]. parts.
  eapply holds_delta; [exact H|..]; fields; [|apply H| | |exact J].
  - constructor; fields; [apply part_same| |apply part_same]. eapply part_add; [apply snoc_perm|apply touches_self|]. intros N. apply M, negb_true_iff, N.
  - destruct (ho_content _ _ _ _ _ _ H) as [Pt Pu Pa Ps]. constructor; cbn in *; try assumption. rewrite map_app, Pa. apply snoc_perm.
  - apply ok_receive; [apply H|exact F|exact X|]. intros N. apply M, N.
Qed.

Lemma holds_equiv T d a b ht c : account_equiv a b -> holds T d a ht c -> holds T d b ht c.
Proof.
  intros E [Eh Ec O J V X]. constructor; try assumption; [rewrite <- E; exact Ec|exact (outputs_perm _ _ _ E O)].
Qed.

Lemma receive_unconfirmed_ok T a ht c x : holds T None a ht c -> ~ In (key_of x) (map key_of (a_unconfirmed a ++ a_available a ++ map sp_ex (a_spent a))) ->
  unconfirmed_output T x -> visible x = true ->
  wp False (fun _ => holds T None (mk_account (a_transactions a) (strip x :: a_unconfirmed a) (a_available a) (a_spent a)) ht)
    ((insert_unconfirmed x ;;; update_if_key x) c).
Proof.
  intros H F X M. destruct (fresh_raw _ _ _ _ _ _ H F) as (Fu & _).
  apply wp_bind. unfold insert_unconfirmed. run. unfold emplace_output, find_output. rewrite (proj1 (find_key_none key_of _ _) Fu). fields.
  apply update_if_ok. destruct a as [t U A S]. parts. pose proof (ho_jobs _ _ _ _ _ _ H) as [J J'].
  eapply holds_delta; [exact H|..]; fields; [|apply H| | |split; assumption].
  - constructor; fields; [|apply part_same|apply part_same]. eapply part_add; [apply snoc_perm|apply touches_self|]. intros _. exact M.
  - destruct (ho_content _ _ _ _ _ _ H) as [Pt Pu Pa Ps]. constructor; cbn in *; try assumption. rewrite map_app, Pu. apply snoc_perm.
  - apply ok_receive_unconfirmed; [apply H|exact F|exact X].
Qed.

(** An available output, with its mark in the container. *)
Lemma available_raw T d a ht c A0 x : holds T d a ht c -> In x (m_availableTransfers c) -> a_available a ≡ₚ strip x :: A0 ->
  m_availableTransfers c ≡ₚ x :: erase_output (key_of x) (m_availableTransfers c) /\
  map strip (erase_output (key_of x) (m_availableTransfers c)) ≡ₚ A0.
Proof.
  intros H I P. destruct (keys_app (holds_raw _ _ _ _ _ _ H)) as (_ & N & _). pose proof (erase_key_perm key_of _ x N I) as E.
  split; [exact E|]. apply (Permutation_cons_inv (a := strip x)). rewrite <- P. rewrite <- (ae_a _ _ (ho_content _ _ _ _ _ _ H)). cbn.
  symmetry. rewrite E at 1. reflexivity.
Qed.

Lemma spend_ok T a ht c block t i x A0 : holds T None a ht c -> In x (m_availableTransfers c) -> a_available a ≡ₚ strip x :: A0 ->
  T (getObjectHash t) (tb_height block) -> ~ In (desc_of x) (map spent_desc (a_spent a)) ->
  wp False (fun _ => holds T (Some (desc_of x)) (mk_account (a_transactions a) (a_unconfirmed a) A0
    (mk_spent (strip x) block (getObjectHash t) (u32 (Z.of_nat i)) :: a_spent a)) ht) (spend block t i x c).
Proof.
  intros H I P Tt F. destruct (available_raw _ _ _ _ _ _ _ H I P) as [Pr P0]. pose proof (holds_raw _ _ _ _ _ _ H) as R.
  destruct (keys_app R) as (_ & NA & _ & _ & D). cbn in NA, D.
  assert (confirmed_output T x) as (X1 & X2 & X3) by (pose proof (ok_available _ _ R) as X; rewrite List.Forall_forall in X; exact (X x I)).
  assert (~ In (key_of x) (map spent_key (m_spentTransfers c))) as Fk by (apply D, (in_map key_of), I).
  assert (~ In (desc_of x) (map spent_desc (m_spentTransfers c))) as Fd.
  { intros J. apply F. rewrite <- (ae_s _ _ (ho_content _ _ _ _ _ _ H)). cbn. rewrite map_map. exact J. }
  unfold spend, deleteUnlockJob, copyToSpent. run. rewrite (proj2 (Z.eqb_neq _ _) X1), (proj2 (Z.eqb_neq _ _) X2). fields. unfold emplace_spent, find_spent. cbn [getTransactionOutputKey sp_ex].
  rewrite (proj1 (find_key_none spent_key _ _) Fk). rewrite (proj2 (existsb_key spent_desc _ _) Fd). fields.
  destruct a as [ti U A S]. parts. set (s' := mk_spent x block (getObjectHash t) (u32 (Z.of_nat i))).
  eapply holds_delta; [exact H|..]; fields; [|apply H| | |].
  - constructor; fields; [apply part_same|eapply part_take; [exact Pr|apply touches_self]|]. rewrite map_app. cbn [map].
    eapply part_add; [apply snoc_perm|apply touches_self|]. intros N. exact (seen_available _ _ _ _ _ _ H I N).
  - destruct (ho_content _ _ _ _ _ _ H) as [Pt Pu Pa Ps]. constructor; cbn in *; try assumption. rewrite map_app, Ps. apply snoc_perm.
  - apply ok_spend; cbn; [|exact Tt|exact F]. eapply outputs_perm; [|apply H]. constructor; cbn; try reflexivity. exact P.
  - eapply jobs_delete; [apply H|exact NA|exact Pr|reflexivity].
Qed.

Lemma unspend_ok T a ht c s S0 : holds T None a ht c -> a_spent a ≡ₚ s :: S0 ->
  wp False (fun _ => holds T None (mk_account (a_transactions a) (a_unconfirmed a) (sp_ex s :: a_available a) S0) ht) (unspend age (spent_key s) c).
Proof.
  intros H P. assert (In s (a_spent a)) as I by (rewrite P; left; reflexivity).
  destruct (spent_element _ H s I) as (s' & E & Es & Pr). pose proof (holds_raw _ _ _ _ _ _ H) as R.
  pose proof (find_some _ _ E) as [I' Ek]. apply bool_decide_eq_true in Ek.
  assert (spent_output T s') as ((X1 & X2 & X3) & _) by (pose proof (ok_spent _ _ R) as X; rewrite List.Forall_forall in X; exact (X s' I')).
  destruct (keys_app R) as (_ & _ & NS & _ & D). cbn in NS, D.
  assert (~ In (key_of s') (map key_of (m_availableTransfers c))) as Fa by (intros J; exact (D _ J (in_map spent_key _ _ I'))).
  unfold unspend. run. rewrite E, (proj2 (Z.eqb_neq _ _) X1), (proj2 (Z.eqb_neq _ _) X2). fields.
  destruct (insert_available_eq c s' (ho_jobs _ _ _ _ _ _ H) Fa) as [Ei J]. rewrite Ei. fields. apply update_if_ok.
  assert (map strip_spent (erase_spent (spent_key s) (m_spentTransfers c)) ≡ₚ S0) as P0.
  { apply (Permutation_cons_inv (a := s)). rewrite <- P, <- (ae_s _ _ (ho_content _ _ _ _ _ _ H)). cbn. symmetry. rewrite Pr at 1. cbn. rewrite Es. reflexivity. }
  destruct a as [ti U A S]. parts.
  eapply holds_delta; [exact H|..]; fields; [|apply H| | |destruct J; split; assumption].
  - constructor; fields; [apply part_same|eapply part_add; [apply snoc_perm|apply touches_self|]|].
    + intros N. exact (seen_spent _ _ _ _ _ _ H I' N).
    + eapply part_take; [|apply touches_self]. rewrite Pr at 1. reflexivity.
  - destruct (ho_content _ _ _ _ _ _ H) as [Pt Pu Pa Ps]. constructor; cbn in *; try assumption. rewrite map_app, Pa. cbn. rewrite snoc_perm.
    apply eq_subrelation; [exact _|]. f_equal. rewrite <- Es. reflexivity.
  - apply ok_unspend. eapply outputs_perm; [|apply H]. constructor; cbn; try reflexivity. exact P.
Qed.

Lemma unconfirmed_raw T d a ht c U0 x : holds T d a ht c -> a_unconfirmed a ≡ₚ x :: U0 ->
  exists x', find_output (key_of x) (m_unconfirmedTransfers c) = Some x' /\ In x' (m_unconfirmedTransfers c) /\ strip x' = x /\
    m_unconfirmedTransfers c ≡ₚ x' :: erase_output (key_of x) (m_unconfirmedTransfers c) /\
    map strip (erase_output (key_of x) (m_unconfirmedTransfers c)) ≡ₚ U0.
Proof.
  intros H P. assert (In x (a_unconfirmed a)) as I by (rewrite P; left; reflexivity). destruct (unconfirmed_element _ H x I) as (x' & E & Ex & Pr).
  exists x'. split; [exact E|]. split; [exact (proj1 (find_some _ _ E))|]. split; [exact Ex|]. split; [exact Pr|].
  apply (Permutation_cons_inv (a := x)). rewrite <- P, <- (ae_u _ _ (ho_content _ _ _ _ _ _ H)). cbn. symmetry. rewrite Pr at 1. cbn. rewrite Ex. reflexivity.
Qed.

Lemma drop_unconfirmed_ok T a ht c x U0 : holds T None a ht c -> a_unconfirmed a ≡ₚ x :: U0 ->
  wp False (fun _ => holds T None (mk_account (a_transactions a) U0 (a_available a) (a_spent a)) ht) (drop_unconfirmed (key_of x) c).
Proof.
  intros H P. destruct (unconfirmed_raw _ _ _ _ _ _ _ H P) as (x' & E & I & Ex & Pr & P0). unfold drop_unconfirmed. run. rewrite E. apply update_if_ok.
  destruct a as [ti U A S]. parts. pose proof (ho_jobs _ _ _ _ _ _ H) as [J J'].
  eapply holds_delta; [exact H|..]; fields; [|apply H| | |split; assumption].
  - constructor; fields; [eapply part_take; [exact Pr|apply touches_self]|apply part_same|apply part_same].
  - destruct (ho_content _ _ _ _ _ _ H) as [Pt Pu Pa Ps]. constructor; cbn in *; assumption.
  - eapply (ok_drop_unconfirmed _ _ _ _ _ x), outputs_perm; [|apply H]. constructor; cbn; try reflexivity. exact P.
Qed.

Lemma drop_available_ok T a ht c x A0 : holds T None a ht c -> a_available a ≡ₚ x :: A0 ->
  wp False (fun _ => holds T None (mk_account (a_transactions a) (a_unconfirmed a) A0 (a_spent a)) ht) (drop_available (key_of x) c).
Proof.
  intros H P. assert (In x (a_available a)) as I by (rewrite P; left; reflexivity). destruct (available_element _ H x I) as (x' & E & Ex & Pr).
  pose proof (find_some _ _ E) as [I' Ek]. apply bool_decide_eq_true in Ek. rewrite <- Ex in P. destruct (available_raw _ _ _ _ _ _ _ H I' P) as [_ P0]. rewrite Ek in P0.
  destruct (keys_app (holds_raw _ _ _ _ _ _ H)) as (_ & NA & _). cbn in NA.
  unfold drop_available, deleteUnlockJob. run. rewrite E. fields. apply update_if_ok. destruct a as [ti U A S]. parts.
  eapply holds_delta; [exact H|..]; fields; [|apply H| | |].
  - constructor; fields; [apply part_same|eapply part_take; [exact Pr|apply touches_self]|apply part_same].
  - destruct (ho_content _ _ _ _ _ _ H) as [Pt Pu Pa Ps]. constructor; cbn in *; assumption.
  - eapply (ok_drop_available _ _ _ _ _ (strip x')), outputs_perm; [|apply H]. constructor; cbn; try reflexivity. exact P.
  - eapply jobs_delete; [apply H|exact NA|exact Pr|]. fields. reflexivity.
Qed.

Lemma same_count d l : (0 < length (same d l))%nat <-> In d (map desc_of l).
Proof.
  split.
  - intros L. destruct (same d l) as [|y r] eqn:E; [cbn in L; lia|]. assert (In y (same d l)) as I by (rewrite E; left; reflexivity).
    rewrite <- (same_desc _ _ _ I). apply List.filter_In in I as [I _]. exact (in_map desc_of _ _ I).
  - intros I. apply in_map_iff in I as (y & E & I). assert (In y (same d l)) as J by (apply List.filter_In; split; [exact I|apply bool_decide_eq_true, E]).
    destruct (same d l); [destruct J|cbn; lia].
Qed.

(** A multisignature output that is new among the confirmed ones. *)
Definition new_multisig (a : account) (o : TransactionOutputInformationIn) : Prop :=
  is_key o = false -> ~ In (getSpentOutputDescriptor o) (map desc_of (a_available a ++ map sp_ex (a_spent a))).

(** [check_new] passes exactly these. *)
Lemma check_new_ok E T a ht c (o : TransactionOutputInformationIn) : holds T None a ht c -> new_multisig a o \/ E ->
  wp E (fun _ c' => c' = c /\ new_multisig a o) (check_new o c).
Proof.
  intros H Fine. unfold check_new, new_multisig in *. destruct (is_key o) eqn:K; [run; split; [reflexivity|discriminate]|]. run. set (d := getSpentOutputDescriptor o) in *.
  rewrite spent_count, (Permutation_length (by_descriptor_perm d (m_availableTransfers c))).
  assert (In d (map desc_of (a_available a ++ map sp_ex (a_spent a))) <-> (0 < length (same d (m_availableTransfers c)))%nat \/ (0 < length (same d (map sp_ex (m_spentTransfers c))))%nat) as X.
  { destruct (ho_content _ _ _ _ _ _ H) as [_ _ Pa Ps]. rewrite <- Pa, <- Ps. cbn. rewrite map_app, map_strip_spent, !map_map, in_app_iff, !same_count, !map_map. reflexivity. }
  destruct (Nat.ltb_spec 0 (length (same d (m_availableTransfers c)))) as [La|La]; [cbn; destruct Fine as [Fine|]; [destruct (Fine eq_refl); tauto|assumption]|].
  destruct (Nat.ltb_spec 0 (length (same d (map sp_ex (m_spentTransfers c))))) as [Ls|Ls]; [cbn; destruct Fine as [Fine|]; [destruct (Fine eq_refl); tauto|assumption]|].
  cbn. split; [reflexivity|]. intros _ J. apply X in J. lia.
Qed.

(** There is an index for the output, and the confirmed output is new. *)
Definition confirm_fine (a : account) (block : TransactionBlockInfo) (globalIndices : list Z) (x : TransactionOutputInformationEx) : Prop :=
  exists g, globalIndices !! Z.to_nat (outputInTransaction x) = Some g /\ new_multisig a (confirmed block g x).

Lemma confirm_output_ok E T a ht c x U0 block globalIndices : confirm_fine a block globalIndices x \/ E -> holds T None a ht c -> a_unconfirmed a ≡ₚ x :: U0 -> tb_height block <> UNCONFIRMED ->
  Forall (fun g => g <> UNCONFIRMED_TRANSACTION_GLOBAL_OUTPUT_INDEX) globalIndices -> T (o_transactionHash x) (tb_height block) ->
  wp E (fun _ c' => exists g, globalIndices !! Z.to_nat (outputInTransaction x) = Some g /\
    holds T None (mk_account (a_transactions a) U0 (confirmed block g x :: a_available a) (a_spent a)) ht c') (confirm_output age block globalIndices (key_of x) c).
Proof.
  intros Fine H P Hb Hg Tx. destruct (unconfirmed_raw _ _ _ _ _ _ _ H P) as (x' & Ef & I & Ex & Pr & P0). pose proof (holds_raw _ _ _ _ _ _ H) as R.
  assert (unconfirmed_output T x') as (X1 & X2 & X3) by (pose proof (ok_unconfirmed _ _ R) as X; rewrite List.Forall_forall in X; exact (X x' I)).
  assert (outputInTransaction x = outputInTransaction x') as Eo by (rewrite <- Ex; reflexivity). rewrite Eo.
  unfold confirm_output. run. rewrite Ef. fields. rewrite (proj2 (Z.eqb_eq _ _) X1), (proj2 (Z.eqb_eq _ _) X2). fields.
  destruct (globalIndices !! Z.to_nat (outputInTransaction x')) as [g|] eqn:G; [|destruct Fine as [(g & Eg & _)|HE]; [rewrite Eo in Eg; congruence|exact HE]]. set (y := confirmed block g x').
  assert (new_multisig a y \/ E) as Fy.
  { destruct Fine as [(g' & Eg & Fy)|HE]; [left|right; exact HE]. rewrite Eo in Eg. replace g' with g in Fy by congruence. rewrite <- Ex in Fy. exact Fy. }
  pose proof (check_new_ok E _ _ _ _ y H Fy) as Cn. destruct (check_new y c) as [|e c0|[] c0]; [destruct Cn|exact Cn|]. destruct Cn as [-> Fm]. fields.
  assert (~ In (key_of y) (map key_of (m_availableTransfers c))) as Fa.
  { destruct (keys_app R) as (_ & _ & _ & D & _). apply (D (key_of x')). exact (in_map key_of _ _ I). }
  destruct (insert_available_eq c y (ho_jobs _ _ _ _ _ _ H) Fa) as [Ei J]. rewrite Ei. fields. apply (wp_weaken False); [tauto|].
  destruct a as [ti U A S]. parts. eapply wp_mono; [|apply update_if_ok with (a := mk_account ti U0 (strip y :: A) S)].
  - intros ? c'' Hc. exists g. split; [reflexivity|]. replace (confirmed block g x) with (strip y); [exact Hc|]. unfold y; rewrite <- Ex; reflexivity.
  - assert (outputs_ok T (mk_account ti (x :: U0) A S)) as O
      by (eapply outputs_perm; [|apply H]; constructor; cbn; try reflexivity; exact P).
    eapply holds_delta; [exact H|..]; fields; [|apply H| | |destruct J; split; assumption].
    + constructor; fields; [eapply part_take; [exact Pr|exact (touches_confirmed block g x')]|eapply part_add; [apply snoc_perm|apply touches_self|]|apply part_same].
      intros N. exact (seen_unconfirmed _ _ _ _ _ _ H I N).
    + destruct (ho_content _ _ _ _ _ _ H) as [Pt Pu Pa Ps]. constructor; cbn in *; try assumption. rewrite map_app, Pa. apply snoc_perm.
    + apply ok_receive; [exact (ok_drop_unconfirmed _ _ _ _ _ _ O)| | |exact Fm].
      * pose proof (key_fresh_unconfirmed _ _ _ _ _ _ O) as F. rewrite <- Ex in F. exact F.
      * split; [exact Hb|]. split; [cbn; rewrite Forall_forall in Hg; apply Hg; eapply list_elem_of_lookup_2, G|]. rewrite <- Ex in Tx. exact Tx.
Qed.

Lemma confirm_spending_ok T a ht c s S0 block : holds T None a ht c -> a_spent a ≡ₚ s :: S0 -> tb_height (spendingBlock s) = UNCONFIRMED ->
  T (spendingTransactionHash s) (tb_height block) ->
  wp False (fun _ => holds T None (mk_account (a_transactions a) (a_unconfirmed a) (a_available a)
    (mk_spent (sp_ex s) block (spendingTransactionHash s) (inputInTransaction s) :: S0)) ht) (confirm_spending block (spent_key s) c).
Proof.
  intros H P Hs Ts. assert (In s (a_spent a)) as I by (rewrite P; left; reflexivity).
  destruct (spent_element _ H s I) as (s' & E & Es & Pr). pose proof (find_some _ _ E) as [I' Ek]. apply bool_decide_eq_true in Ek.
  destruct (keys_app (holds_raw _ _ _ _ _ _ H)) as (_ & _ & NS & _). cbn in NS.
  unfold confirm_spending. run. rewrite E. replace (spendingBlock s') with (spendingBlock s) by (rewrite <- Es; reflexivity). rewrite Hs. cbn [Z.eqb wp]. rewrite Z.eqb_refl. fields.
  set (S1 := map _ (m_spentTransfers c)). set (f := fun x : SpentTransactionOutput => mk_spent (sp_ex x) block (spendingTransactionHash x) (inputInTransaction x)).
  set (rest := erase_spent (spent_key s) (m_spentTransfers c)) in *.
  assert (S1 ≡ₚ f s' :: rest) as P1.
  { unfold S1. rewrite Pr at 1. cbn [map]. rewrite bool_decide_true by exact Ek. apply perm_skip, eq_subrelation; [exact _|].
    rewrite <- (map_id rest) at 2. apply map_ext_in. intros z J. apply List.filter_In in J as [_ J]. apply negb_true_iff, bool_decide_eq_false in J.
    rewrite bool_decide_false by exact J. reflexivity. }
  assert (map strip_spent rest ≡ₚ S0) as P0.
  { apply (Permutation_cons_inv (a := s)). rewrite <- P, <- (ae_s _ _ (ho_content _ _ _ _ _ _ H)). cbn. symmetry. rewrite Pr at 1. cbn. rewrite Es. reflexivity. }
  assert (map sp_ex S1 = map sp_ex (m_spentTransfers c)) as Em by (unfold S1; rewrite map_map; apply map_ext; intros z; case_bool_decide; reflexivity).
  destruct a as [ti U A S]. parts. destruct H as [Eh Ec O [J J'] V X]. constructor; fields; [exact Eh| | |split; assumption| |].
  - destruct Ec as [Pt Pu Pa Ps]. constructor; cbn in *; try assumption. rewrite P1. cbn. rewrite P0, <- Es. reflexivity.
  - eapply (ok_respend _ _ _ _ _ s); [|reflexivity|exact Ts]. eapply outputs_perm; [|exact O]. constructor; cbn; try reflexivity. exact P.
  - intros i N. unfold visible_at. fields. rewrite Em. exact (V i N).
  - unfold multisig_seen. fields. rewrite Em. exact X.
Qed.

End Steps.
