(* ===== verification/TransfersOps.v ===== *)
(** * Operations on the container of transfers

    What deleting, detaching, adding and confirming transactions do to the content of
    a container, and the outputs whose unlock jobs lie between two heights; then what the queries
    answer. *)

From Stdlib Require Import ZArith Lia List Bool Sorted.
From S2P Require Import Prelude Bytes IntUtil Currency TxStore Blockchain TransactionExtra TransfersContainer TransfersInvariant TransfersSteps.
From stdpp Require Import gmap list.
Import ListNotations.
Open Scope Z_scope.
Open Scope transfers_scope.
Set Default Goal Selector "!".

(** ** The content without some transactions *)

Definition among (hs : list bytes) (h : bytes) : bool := bool_decide (h ∈ hs).

(** The transactions [hs] are forgotten: what they received is gone, what they spent is available. *)
Definition without (hs : list bytes) (a : account) : account := mk_account
  (List.filter (fun t => negb (among hs (ti_transactionHash t))) (a_transactions a))
  (List.filter (fun x : TransactionOutputInformationEx => negb (among hs (o_transactionHash x))) (a_unconfirmed a))
  (List.filter (fun x : TransactionOutputInformationEx => negb (among hs (o_transactionHash x)))
    (a_available a ++ map sp_ex (List.filter (fun s => among hs (spendingTransactionHash s)) (a_spent a))))
  (List.filter (fun s => negb (among hs (spendingTransactionHash s))) (a_spent a)).

Definition with_infos (t : list TransactionInformation) (a : account) : account := mk_account t (a_unconfirmed a) (a_available a) (a_spent a).

Lemma among_cons hs h k : among (h :: hs) k = bool_decide (k = h) || among hs k.
Proof. unfold among. rewrite <- bool_decide_or. apply bool_decide_ext. rewrite elem_of_cons. reflexivity. Qed.
Lemma among_one h k : among [h] k = bool_decide (k = h).
Proof. rewrite among_cons. apply orb_false_r. Qed.
Lemma among_spec hs h : among hs h = true <-> In h hs.
Proof. unfold among. rewrite bool_decide_eq_true. apply list_elem_of_In. Qed.
Lemma among_false hs h : among hs h = false <-> ~ In h hs.
Proof. rewrite <- among_spec, not_true_iff_false. reflexivity. Qed.

Lemma split_filter {A} (f : A -> bool) l : l ≡ₚ List.filter f l ++ List.filter (fun x => negb (f x)) l.
Proof.
  induction l as [|x l IH]; [reflexivity|]. cbn. destruct (f x); cbn; [rewrite <- IH; reflexivity|]. rewrite <- Permutation_middle, <- IH. reflexivity.
Qed.

Section Ops.
Context {HO : HashOrder} {CO : Codec}.
Variable cur : currency.
Variable age now : Z.
Abbreviation holds := (holds age).
Abbreviation represents := (represents age).

(** ** Deleting the transfers of a transaction *)

Lemma unspend_all T t U ht K : forall R A c, holds T None (mk_account t U A (R ++ K)) ht c ->
  wp False (fun _ => holds T None (mk_account t U (A ++ map sp_ex R) K) ht) (iterate (unspend age) (map spent_key R) c).
Proof.
  induction R as [|s R IH]; intros A c H; cbn [map iterate]; [rewrite app_nil_r; exact H|]. apply wp_bind.
  eapply wp_mono; [|apply (unspend_ok age _ _ _ _ s (R ++ K) H); reflexivity]. intros ? c' H'. parts. eapply wp_mono; [|exact (IH _ _ H')].
  intros ? c'' H''. eapply holds_equiv; [|exact H'']. constructor; parts; try reflexivity. cbn. apply Permutation_middle.
Qed.

Lemma drop_unconfirmed_all T t A S ht K : forall R c, holds T None (mk_account t (R ++ K) A S) ht c ->
  wp False (fun _ => holds T None (mk_account t K A S) ht) (iterate drop_unconfirmed (map key_of R) c).
Proof.
  induction R as [|x R IH]; intros c H; cbn [map iterate]; [exact H|]. apply wp_bind.
  eapply wp_mono; [|apply (drop_unconfirmed_ok age _ _ _ _ x (R ++ K) H); reflexivity]. intros ? c' H'. exact (IH _ H').
Qed.

Lemma drop_available_all T t U S ht K : forall R c, holds T None (mk_account t U (R ++ K) S) ht c ->
  wp False (fun _ => holds T None (mk_account t U K S) ht) (iterate (drop_available) (map key_of R) c).
Proof.
  induction R as [|x R IH]; intros c H; cbn [map iterate]; [exact H|]. apply wp_bind.
  eapply wp_mono; [|apply (drop_available_ok age _ _ _ _ x (R ++ K) H); reflexivity]. intros ? c' H'. exact (IH _ H').
Qed.

(** A range of an index is a part of the content. *)
Lemma range_content {A} (f : A -> bool) (g : A -> A) l l' : map g l ≡ₚ l' -> (forall x, f (g x) = f x) ->
  l' ≡ₚ map g (arrange (List.filter f l)) ++ List.filter (fun x => negb (f x)) l'.
Proof.
  intros P E. rewrite (split_filter f l') at 1. apply Permutation_app_tail. rewrite arrange_perm, <- (filter_perm _ _ _ P), filter_map_comm.
  apply Permutation_map, eq_subrelation; [exact _|]. apply filter_ext, E.
Qed.

Lemma delete_ok T a ht c h : holds T None a ht c ->
  wp False (fun _ => holds T None (with_infos (a_transactions a) (without [h] a)) ht) (deleteTransactionTransfers age h c).
Proof.
  intros H. unfold deleteTransactionTransfers, with_infos, without. destruct a as [t U A S]. parts. apply wp_gets, wp_bind.
  set (fs := fun s : SpentTransactionOutput => bool_decide (spendingTransactionHash s = h)).
  set (fx := fun x : TransactionOutputInformationEx => bool_decide (o_transactionHash x = h)).
  pose proof (range_content fs strip_spent _ _ (ae_s _ _ (ho_content _ _ _ _ _ _ H)) (fun _ => eq_refl)) as PS. parts.
  set (R := map strip_spent (arrange (List.filter fs (m_spentTransfers c)))) in *.
  replace (map _ (by_spending h (m_spentTransfers c))) with (map spent_key R) by (unfold R; rewrite map_map; reflexivity).
  assert (map sp_ex R ≡ₚ map sp_ex (List.filter (fun s => among [h] (spendingTransactionHash s)) S)) as ER.
  { apply Permutation_map. apply (Permutation_app_inv_r (List.filter (fun x => negb (fs x)) S)). rewrite <- PS.
    rewrite (split_filter fs S) at 1. apply Permutation_app_tail, eq_subrelation; [exact _|]. apply filter_ext. intros s. symmetry. apply among_one. }
  eapply wp_mono; [|apply (unspend_all T t U ht (List.filter (fun x => negb (fs x)) S) R A); eapply holds_equiv; [|exact H]; constructor; parts; try reflexivity; exact PS].
  intros ? c1 H1. cbv beta in H1. apply wp_gets, wp_bind.
  pose proof (range_content fx strip _ _ (ae_u _ _ (ho_content _ _ _ _ _ _ H1)) (fun _ => eq_refl)) as PU. parts.
  set (RU := map strip (arrange (List.filter fx (m_unconfirmedTransfers c1)))) in *.
  replace (map _ (by_transaction h (m_unconfirmedTransfers c1))) with (map key_of RU) by (unfold RU; rewrite map_map; reflexivity).
  eapply wp_mono; [|apply (drop_unconfirmed_all T t (A ++ map sp_ex R) (List.filter (fun x => negb (fs x)) S) ht (List.filter (fun x => negb (fx x)) U) RU); eapply holds_equiv; [|exact H1]; constructor; parts; try reflexivity; exact PU].
  intros ? c2 H2. cbv beta in H2. apply wp_gets.
  pose proof (range_content fx strip _ _ (ae_a _ _ (ho_content _ _ _ _ _ _ H2)) (fun _ => eq_refl)) as PA. parts.
  set (RA := map strip (arrange (List.filter fx (m_availableTransfers c2)))) in *.
  replace (map _ (by_transaction h (m_availableTransfers c2))) with (map key_of RA) by (unfold RA; rewrite map_map; reflexivity).
  eapply wp_mono; [|apply (drop_available_all T t (List.filter (fun x => negb (fx x)) U) (List.filter (fun x => negb (fs x)) S) ht (List.filter (fun x => negb (fx x)) (A ++ map sp_ex R)) RA); eapply holds_equiv; [|exact H2]; constructor; parts; try reflexivity; exact PA].
  intros ? c3 H3. cbv beta in H3. eapply holds_equiv; [|exact H3].
  assert (forall {B} (f : B -> bytes) (l : list B), List.filter (fun x => negb (bool_decide (f x = h))) l = List.filter (fun x => negb (among [h] (f x))) l) as Ea
    by (intros B f l; apply filter_ext; intros x; rewrite among_one; reflexivity).
  constructor; parts; [reflexivity|apply eq_subrelation; [exact _|apply (Ea _ hash_of)]| |apply eq_subrelation; [exact _|apply (Ea _ spendingTransactionHash)]].
  unfold fx. rewrite (Ea _ hash_of). apply filter_perm. rewrite ER. reflexivity.
Qed.
(** ** Forgetting a transaction *)

Lemma outputs_narrow (T T' : bytes -> Z -> Prop) (P : bytes -> Prop) a : outputs_ok T a -> (forall k z, P k -> T k z -> T' k z) ->
  Forall (fun x : TransactionOutputInformationEx => P (o_transactionHash x)) (a_unconfirmed a ++ a_available a ++ map sp_ex (a_spent a)) ->
  Forall (fun s => P (spendingTransactionHash s)) (a_spent a) -> outputs_ok T' a.
Proof.
  intros [K HU HA HS O X] N PX PS. rewrite !list.Forall_app, Forall_map in PX. destruct PX as (PU & PA & PE). constructor; try assumption.
  - rewrite List.Forall_forall in *. intros x I. destruct (HU x I) as (X1 & X2 & X3). repeat split; auto.
  - rewrite List.Forall_forall in *. intros x I. destruct (HA x I) as (X1 & X2 & X3). repeat split; auto.
  - rewrite List.Forall_forall in *. intros s I. destruct (HS s I) as ((X1 & X2 & X3) & X4). repeat split; auto.
Qed.

Lemma filter_split {A} (f : A -> bool) l : forall l1 l2, List.filter f l = l1 ++ l2 ->
  exists k1 k2, l = k1 ++ k2 /\ List.filter f k1 = l1 /\ List.filter f k2 = l2.
Proof.
  induction l as [|x l IH]; intros l1 l2 E; cbn in E.
  - symmetry in E. apply app_nil in E as [-> ->]. exists [], []. repeat split.
  - destruct (f x) eqn:F.
    + destruct l1 as [|y l1]; cbn in E.
      * exists [], (x :: l). cbn. rewrite F. repeat split. exact E.
      * injection E as -> E. destruct (IH _ _ E) as (k1 & k2 & -> & <- & <-). exists (y :: k1), k2. cbn. rewrite F. repeat split.
    + destruct (IH _ _ E) as (k1 & k2 & -> & <- & <-). exists (x :: k1), k2. cbn. rewrite F. repeat split.
Qed.

(** No other transaction spends what [h] received. *)
Definition forgettable (h : bytes) (a : account) : Prop := forall s, In s (a_spent a) -> o_transactionHash s = h -> spendingTransactionHash s = h.

Lemma in_without {A} (f : A -> bytes) h l x : In x (List.filter (fun y => negb (among [h] (f y))) l) <-> In x l /\ f x <> h.
Proof. rewrite List.filter_In, among_one, negb_true_iff, bool_decide_eq_false. reflexivity. Qed.

Lemma known_without l h k z : k <> h -> known l k z -> known (List.filter (fun t => negb (among [h] (ti_transactionHash t))) l) k z.
Proof. intros N (t & I & Eh & Ez). exists t. split; [apply in_without; split; congruence|]. split; assumption. Qed.

(** One spent output is in order. *)
Definition spent_in_order (l : list TransactionInformation) (s : SpentTransactionOutput) : Prop :=
  forall l1 l2, l = l1 ++ l2 -> In (o_transactionHash s) (map ti_transactionHash l2) -> In (spendingTransactionHash s) (map ti_transactionHash l2).

Lemma order_erase h l s : spendingTransactionHash s <> h -> spent_in_order l s ->
  spent_in_order (List.filter (fun t => negb (among [h] (ti_transactionHash t))) l) s.
Proof.
  intros N OR l1 l2 E J. destruct (filter_split _ _ _ _ E) as (k1 & k2 & E' & <- & <-). apply in_map_iff in J as (t & Et & J). apply List.filter_In in J as [J _].
  assert (In (o_transactionHash s) (map ti_transactionHash k2)) as J2 by (rewrite <- Et; apply in_map, J).
  pose proof (OR k1 k2 E' J2) as J3. apply in_map_iff in J3 as (t' & Et' & J3). rewrite <- Et'. apply in_map, in_without. split; [exact J3|congruence].
Qed.

Lemma without_ok h a : account_ok a -> forgettable h a -> outputs_ok (known (a_transactions a)) (with_infos (a_transactions a) (without [h] a)) -> account_ok (without [h] a).
Proof.
  intros [_ NH HH SH OR] F O. constructor; cbn [without a_transactions].
  - eapply (outputs_narrow _ _ (fun k => k <> h)); [|intros k z; apply known_without|..].
    + destruct O as [K HU HA HS OO X]. constructor; assumption.
    + cbn [without a_unconfirmed a_available a_spent]. rewrite !list.Forall_app, !List.Forall_forall. split; [|split].
      * intros x I. apply in_without in I. apply I.
      * intros x I. apply in_without in I. apply I.
      * intros x I. apply in_map_iff in I as (s & <- & I). apply in_without in I as [I N]. intros E. exact (N (F s I E)).
    + apply List.Forall_forall. intros s I. apply in_without in I. apply I.
  - apply nodup_map_filter, NH.
  - apply List.Forall_forall. intros t I. apply List.filter_In in I as [I _]. rewrite List.Forall_forall in HH. exact (HH t I).
  - apply sorted_filter, SH.
  - intros s l1 l2 I. cbn [a_transactions a_spent without] in *. apply in_without in I as [I N]. apply (order_erase h _ s N). intros k1 k2. exact (OR s k1 k2 I).
Qed.

Lemma known_unique l h z z' : List.NoDup (map ti_transactionHash l) -> known l h z -> known l h z' -> z = z'.
Proof.
  intros N (t & I & <- & <-) (t' & I' & E & <-). enough (t = t') by congruence.
  pose proof (find_key ti_transactionHash l t N I) as F. pose proof (find_key ti_transactionHash l t' N I') as F'. rewrite E in F'. congruence.
Qed.

Lemma erase_without h l : erase_transaction h l = List.filter (fun t => negb (among [h] (ti_transactionHash t))) l.
Proof. apply filter_ext. intros t. rewrite among_one. reflexivity. Qed.

(** Deleting a transaction with its transfers. *)
Lemma forget_ok a c h : represents c a -> forgettable h a ->
  wp False (fun _ c' => represents c' (without [h] a) /\ m_currentHeight c' = m_currentHeight c)
    ((deleteTransactionTransfers age h ;;; modify (fun c => with_transactions (erase_transaction h (m_transactions c)) c)) c).
Proof.
  intros [H OK] F. apply wp_bind. eapply wp_mono; [|exact (delete_ok _ _ _ _ h H)]. intros ? c' H'. cbv beta in H'. unfold modify. fields.
  pose proof (without_ok h a OK F (ho_outputs _ _ _ _ _ _ H')) as OK'. split; [|exact (ho_height _ _ _ _ _ _ H')]. split; [|exact OK'].
  destruct H' as [Eh Ec O [J J'] V X]. constructor; fields; try assumption; [reflexivity| |apply OK'|split; assumption].
  destruct Ec as [Pt Pu Pa Ps]. constructor; cbn in *; try assumption. rewrite Pt. apply erase_without.
Qed.

Lemma unconfirmed_forgettable a h : account_ok a -> known (a_transactions a) h UNCONFIRMED -> forgettable h a.
Proof.
  intros [O N _ _ _] K s I E. pose proof (ok_spent _ _ O) as X. rewrite List.Forall_forall in X. destruct (X s I) as [(X1 & _ & X3) _].
  rewrite E in X3. destruct (X1 (known_unique _ _ _ _ N X3 K)).
Qed.

Lemma find_transaction_spec h l t : find_transaction h l = Some t -> In t l /\ ti_transactionHash t = h.
Proof. intros E. apply find_some in E as [I D]. apply bool_decide_eq_true in D. split; assumption. Qed.

(** [deleteUnconfirmedTransaction] forgets an unconfirmed transaction and nothing else. *)
Lemma delete_unconfirmed_ok a c h : represents c a ->
  wp False (fun r c' => m_currentHeight c' = m_currentHeight c /\
    if (r : bool) then known (a_transactions a) h UNCONFIRMED /\ represents c' (without [h] a) else c' = c /\ ~ known (a_transactions a) h UNCONFIRMED)
    (deleteUnconfirmedTransaction age h c).
Proof.
  intros R. destruct R as [H OK]. pose proof (ae_t _ _ (ho_content _ _ _ _ _ _ H)) as Et. cbn in Et.
  unfold deleteUnconfirmedTransaction. apply wp_gets. rewrite Et. destruct (find_transaction h (a_transactions a)) as [t|] eqn:E.
  - apply find_transaction_spec in E as [I Eh]. destruct (Z.eqb_spec (ti_blockHeight t) UNCONFIRMED) as [Eu|Nu]; cbn [negb].
    + assert (known (a_transactions a) h UNCONFIRMED) as K by (exists t; auto). rewrite Eh.
      apply wp_bind. pose proof (forget_ok a c h (conj H OK) (unconfirmed_forgettable a h OK K)) as W.
      unfold bind in W. destruct (deleteTransactionTransfers age h c) as [|e c'|[] c']; [exact W|exact W|]. unfold modify in *. cbn in *. tauto.
    + cbn. split; [reflexivity|]. split; [reflexivity|]. intros K. apply Nu. apply (known_unique _ h _ _ (ok_hashes _ OK)); [exists t; auto|exact K].
  - cbn. split; [reflexivity|]. split; [reflexivity|]. intros (t & I & Eh & _). pose proof (find_none _ _ E t I) as D. cbn in D. rewrite bool_decide_true in D by exact Eh. discriminate.
Qed.

(** ** Unlock jobs between two heights *)

Abbreviation sorted_jobs := (StronglySorted (fun j j' => unlockHeight j <= unlockHeight j')).

Lemma upper_bound_take h l : sorted_jobs l -> take (upper_bound h l) l = List.filter (fun j => unlockHeight j <=? h) l.
Proof.
  induction 1 as [|j l S IH F]; [reflexivity|]. cbn [upper_bound List.filter]. destruct (Z.ltb_spec h (unlockHeight j)) as [L|L].
  - rewrite (proj2 (Z.leb_gt _ _) L). symmetry. rewrite List.Forall_forall in F. clear -F L. induction l as [|y l IH]; [reflexivity|]. cbn.
    rewrite (proj2 (Z.leb_gt (unlockHeight y) h)); [|specialize (F y (or_introl eq_refl)); lia]. apply IH. intros z I. apply F. right. exact I.
  - rewrite (proj2 (Z.leb_le _ _) L). cbn. rewrite IH. reflexivity.
Qed.

Lemma upper_bound_drop h l : sorted_jobs l -> drop (upper_bound h l) l = List.filter (fun j => h <? unlockHeight j) l.
Proof.
  induction 1 as [|j l S IH F]; [reflexivity|]. cbn [upper_bound List.filter]. destruct (Z.ltb_spec h (unlockHeight j)) as [L|L]; [|cbn; exact IH].
  cbn. f_equal. symmetry. apply filter_keep_all. intros y I. rewrite List.Forall_forall in F. apply Z.ltb_lt. specialize (F y I). lia.
Qed.

Lemma upper_bound_mono lo hi l : lo <= hi -> (upper_bound lo l <= upper_bound hi l)%nat.
Proof.
  intros L. induction l as [|j l IH]; [cbn; lia|]. cbn. destruct (Z.ltb_spec lo (unlockHeight j)), (Z.ltb_spec hi (unlockHeight j)); lia.
Qed.

Lemma upper_bound_restrict lo hi l : lo <= hi -> sorted_jobs l -> upper_bound lo (List.filter (fun j => unlockHeight j <=? hi) l) = upper_bound lo l.
Proof.
  intros L. induction 1 as [|j l S IH F]; [reflexivity|]. cbn [List.filter upper_bound]. destruct (Z.leb_spec (unlockHeight j) hi) as [Lj|Lj].
  - cbn [upper_bound]. rewrite IH. reflexivity.
  - rewrite (proj2 (Z.ltb_lt lo (unlockHeight j))) by lia. rewrite <- upper_bound_take by exact S. destruct l as [|y l]; [reflexivity|]. cbn.
    rewrite List.Forall_forall in F. specialize (F y (or_introl eq_refl)). rewrite (proj2 (Z.ltb_lt hi (unlockHeight y))) by lia. reflexivity.
Qed.

Definition unlocks_between (lo hi : Z) (x : TransactionOutputInformationEx) : bool := (unlockHeight (make_job age x) <=? hi) && (lo <? unlockHeight (make_job age x)).

Lemma filter_filter {A} (f g : A -> bool) l : List.filter f (List.filter g l) = List.filter (fun x => g x && f x) l.
Proof. induction l as [|x l IH]; [reflexivity|]. cbn. destruct (g x); cbn; [destruct (f x)|]; rewrite IH; reflexivity. Qed.

Lemma jobs_slice lo hi l : lo <= hi -> sorted_jobs l ->
  drop (upper_bound lo l) (take (upper_bound hi l) l) = List.filter (fun j => (unlockHeight j <=? hi) && (lo <? unlockHeight j)) l.
Proof.
  intros L S. rewrite upper_bound_take by exact S. rewrite <- (upper_bound_restrict lo hi l L S), upper_bound_drop; [|apply sorted_filter, S]. apply filter_filter.
Qed.

Lemma outputs_of_ok c A : List.NoDup (map key_of (m_availableTransfers c)) -> (forall x, In x A -> In x (m_availableTransfers c)) ->
  outputs_of (map (make_job age) A) c = Done (map info_of A) c.
Proof.
  intros N. induction A as [|x A IH]; intros I; [reflexivity|]. cbn [map outputs_of]. unfold getAvailableOutput. run. unfold find_output.
  cbn [make_job makeTransferUnlockJob transactionOutputKey]. rewrite (find_key key_of _ x N) by (apply I; left; reflexivity). fields.
  rewrite IH by (intros y J; apply I; right; exact J). reflexivity.
Qed.

(** The jobs of a slice name the outputs whose unlock height lies in it. *)
Lemma slice_ok T d a ht c lo hi : holds T d a ht c -> lo <= hi ->
  exists os, jobs_between (upper_bound lo (m_transfersUnlockJobs c)) (upper_bound hi (m_transfersUnlockJobs c)) (m_transfersUnlockJobs c) c = Done os c /\
    os ≡ₚ map info_of (List.filter (unlocks_between lo hi) (a_available a)).
Proof.
  intros H L. pose proof (ho_jobs _ _ _ _ _ _ H) as [J J']. destruct (keys_app (holds_raw _ _ _ _ _ _ H)) as (_ & N & _). cbn in N.
  unfold jobs_between. run. rewrite (proj2 (Nat.leb_le _ _) (upper_bound_mono lo hi _ L)), jobs_slice by assumption. fields.
  set (f := fun j => (unlockHeight j <=? hi) && (lo <? unlockHeight j)).
  assert (List.filter f (m_transfersUnlockJobs c) ≡ₚ map (make_job age) (List.filter (unlocks_between lo hi) (m_availableTransfers c))) as P.
  { rewrite (filter_perm _ _ _ J), filter_map_comm. reflexivity. }
  apply Permutation_map_inv in P as (A & E & P). rewrite E. exists (map info_of A). split.
  - apply outputs_of_ok; [exact N|]. intros x I. apply (Permutation_in _ (symmetry P)) in I. apply List.filter_In in I. apply I.
  - rewrite <- P. destruct (ho_content _ _ _ _ _ _ H) as [_ _ Pa _]. cbn in Pa. rewrite <- (filter_perm _ _ _ Pa), filter_map_comm, map_map. reflexivity.
Qed.

Lemma with_height_holds T d a ht c h : holds T d a ht c -> holds T d a h (with_height h c).
Proof. intros [Eh Ec O [J J'] V X]. constructor; try assumption; [reflexivity|split; assumption]. Qed.

(** ** Heights *)

Lemma u32_nonneg z : 0 <= u32 z.
Proof. apply (wrap_range U32 z). cbn. lia. Qed.

Lemma job_nonneg x : 0 <= unlockHeight (make_job age x).
Proof.
  unfold make_job, makeTransferUnlockJob. cbn zeta. pose proof (u32_nonneg (u32 (ex_blockHeight x + u32 age) + 1)). destruct (negb _); cbn [unlockHeight]; lia.
Qed.

(** The height above which jobs are reported: none was reported at height 0. *)
Definition reported (height : Z) : Z := if height =? 0 then -1 else height + 1.

Lemma upper_bound_zero c T d a ht : holds T d a ht c -> upper_bound (-1) (m_transfersUnlockJobs c) = 0%nat.
Proof.
  intros H. pose proof (ho_jobs _ _ _ _ _ _ H) as [J _]. destruct (m_transfersUnlockJobs c) as [|j l]; [reflexivity|]. cbn.
  assert (In j (map (make_job age) (m_availableTransfers c))) as I by (rewrite <- J; left; reflexivity). apply in_map_iff in I as (x & <- & _).
  rewrite (proj2 (Z.ltb_lt _ _)); [reflexivity|]. pose proof (job_nonneg x). lia.
Qed.

Lemma advance_ok T a ht c h : holds T None a ht c -> 0 <= ht -> h < UNCONFIRMED ->
  wp (h < ht) (fun os c' => ht <= h /\ c' = with_height h c /\ os ≡ₚ map info_of (List.filter (unlocks_between (reported ht) (h + 1)) (a_available a))) (doAdvanceHeight h c).
Proof.
  intros H Hp Hh. unfold doAdvanceHeight. apply wp_gets. rewrite (ho_height _ _ _ _ _ _ H). destruct (Z.ltb_spec h ht) as [L|L]; [exact L|].
  apply wp_modify. unfold getUnlockingTransfers. apply wp_assert; [apply negb_true_iff, Z.ltb_ge, L|]. apply wp_gets.
  pose proof (with_height_holds _ _ _ _ _ h H) as H'. rewrite !u32_small by (unfold WALLET_LEGACY_UNCONFIRMED_TRANSACTION_HEIGHT in *; lia).
  destruct (slice_ok _ _ _ _ _ (reported ht) (h + 1) H') as (os & E & P); [unfold reported; destruct (_ =? _); lia|].
  replace (if ht =? 0 then 0%nat else _) with (upper_bound (reported ht) (m_transfersUnlockJobs (with_height h c))).
  - rewrite E. cbn. auto.
  - unfold reported. destruct (ht =? 0); [|reflexivity]. exact (upper_bound_zero _ _ _ _ _ H').
Qed.

(** ** Detaching *)

(** The transactions [detach] deletes. *)
Definition doomed (a : account) (height : Z) (t : TransactionInformation) : bool :=
  if ti_blockHeight t =? UNCONFIRMED then existsb (fun s => bool_decide (spendingTransactionHash s = ti_transactionHash t) && (height <=? ex_blockHeight s)) (a_spent a)
  else height <=? ti_blockHeight t.

Definition deleted (a : account) (height : Z) : list bytes := map ti_transactionHash (List.filter (doomed a height) (rev (a_transactions a))).

Lemma account_ok_equiv a b : account_equiv a b -> account_ok a -> account_ok b.
Proof.
  intros E [O N HH SH OR]. pose proof (ae_t _ _ E) as Et. constructor; rewrite <- ?Et; try assumption; [exact (outputs_perm _ _ _ E O)|].
  intros s l1 l2 I E2. apply OR with (l1 := l1); [rewrite (ae_s _ _ E); exact I|rewrite Et; exact E2].
Qed.

Lemma represents_equiv a b c : account_equiv a b -> represents c a -> represents c b.
Proof.
  intros E [H OK]. split; [|exact (account_ok_equiv _ _ E OK)]. rewrite <- (ae_t _ _ E). exact (holds_equiv _ _ _ _ _ _ _ E H).
Qed.

Lemma among_app hs h k : among (hs ++ [h]) k = among hs k || among [h] k.
Proof. apply eq_true_iff_eq. rewrite orb_true_iff, !among_spec, in_app_iff. reflexivity. Qed.

Lemma filter_out_app {A} (f : A -> bytes) hs h l :
  List.filter (fun x => negb (among [h] (f x))) (List.filter (fun x => negb (among hs (f x))) l) = List.filter (fun x => negb (among (hs ++ [h]) (f x))) l.
Proof. rewrite filter_filter. apply filter_ext. intros x. rewrite among_app, negb_orb. reflexivity. Qed.

Lemma filter_either hs h S : List.filter (fun s => among (hs ++ [h]) (spendingTransactionHash s)) S ≡ₚ
  List.filter (fun s => among hs (spendingTransactionHash s)) S ++
  List.filter (fun s => negb (among hs (spendingTransactionHash s)) && among [h] (spendingTransactionHash s)) S.
Proof.
  rewrite (split_filter (fun s => among hs (spendingTransactionHash s)) (List.filter _ S)), !filter_filter. apply eq_subrelation; [exact _|].
  f_equal; apply filter_ext; intros s; rewrite among_app; destruct (among hs _), (among [h] _); reflexivity.
Qed.

Lemma without_app hs h a : account_ok (without hs a) -> account_equiv (without [h] (without hs a)) (without (hs ++ [h]) a).
Proof.
  intros OK. destruct a as [t U A S]. unfold without at 1 3. cbn [without a_transactions a_unconfirmed a_available a_spent].
  constructor; cbn [a_transactions a_unconfirmed a_available a_spent]; [apply filter_out_app|apply eq_subrelation; [exact _|apply (filter_out_app hash_of)]| |
    apply eq_subrelation; [exact _|apply filter_out_app]].
  rewrite !filter_filter. set (f := fun x : TransactionOutputInformationEx => negb (among (hs ++ [h]) (o_transactionHash x))).
  assert (forall s, In s S -> among hs (spendingTransactionHash s) = false -> among hs (o_transactionHash s) = false) as N.
  { intros s I F. pose proof (ok_spent _ _ (ok_outputs _ OK)) as X. rewrite List.Forall_forall in X. cbn in X.
    destruct (X s) as [(_ & _ & (ti & J & E & _)) _]; [apply List.filter_In; rewrite F; auto|]. apply List.filter_In in J as [_ J]. rewrite <- E.
    apply negb_true_iff, J. }
  rewrite !List.filter_app.
  rewrite !(filter_out_app hash_of), <- app_assoc. fold f. apply Permutation_app_head.
  rewrite (filter_perm f _ _ (Permutation_map sp_ex (filter_either hs h S))).
  rewrite map_app, List.filter_app. apply Permutation_app_head, eq_subrelation; [exact _|].
  apply filter_ext_in. intros x I. apply in_map_iff in I as (s & <- & I). apply List.filter_In in I as [I F]. apply andb_true_iff in F as [F _].
  unfold f. rewrite among_app, (N s I) by (apply negb_true_iff, F). reflexivity.
Qed.


Lemma existsb_perm {A} (f : A -> bool) l l' : l ≡ₚ l' -> existsb f l = existsb f l'.
Proof.
  intros P. apply eq_true_iff_eq. rewrite !existsb_exists. split; intros (x & I & E); exists x; (split; [|exact E]); [rewrite <- P|rewrite P]; exact I.
Qed.

(** The test of the loop on an unconfirmed transaction. *)
Lemma spends_above T a ht c hs t height : holds T None (without hs a) ht c -> among hs (ti_transactionHash t) = false -> ti_blockHeight t = UNCONFIRMED ->
  existsb (fun x : SpentTransactionOutput => height <=? ex_blockHeight x) (by_spending (ti_transactionHash t) (m_spentTransfers c)) = doomed a height t.
Proof.
  intros H F E. unfold doomed. rewrite E, Z.eqb_refl. unfold by_spending. rewrite (existsb_perm _ _ _ (arrange_perm _ _)).
  destruct (ho_content _ _ _ _ _ _ H) as [_ _ _ Ps]. cbn in Ps. apply eq_true_iff_eq. rewrite !existsb_exists. split.
  - intros (s & I & L). apply List.filter_In in I as [I D]. exists (strip_spent s). split; [|rewrite andb_true_iff; split; [exact D|exact L]].
    apply (in_map strip_spent) in I. rewrite Ps in I. apply List.filter_In in I. apply I.
  - intros (s & I & L). apply andb_true_iff in L as [D L]. apply bool_decide_eq_true in D.
    assert (In s (map strip_spent (m_spentTransfers c))) as J by (rewrite Ps; apply List.filter_In; split; [exact I|rewrite D, F; reflexivity]).
    apply in_map_iff in J as (s' & <- & J). exists s'. split; [apply List.filter_In; split; [exact J|apply bool_decide_eq_true, D]|exact L].
Qed.

(** When the last confirmed transaction above the height is reached, nothing kept spends from it. *)
Lemma above_forgettable a height rest t done : account_ok a -> a_transactions a = rest ++ t :: done -> ti_blockHeight t <> UNCONFIRMED -> height <= ti_blockHeight t ->
  forgettable (ti_transactionHash t) (without (map ti_transactionHash (List.filter (doomed a height) (rev done))) a).
Proof.
  intros [O N HH SH OR] E Nu L s I Es. cbn in I. apply List.filter_In in I as [I F]. apply negb_true_iff, among_false in F.
  destruct (decide (spendingTransactionHash s = ti_transactionHash t)) as [|Nt]; [assumption|]. exfalso. apply F.
  assert (In (spendingTransactionHash s) (map ti_transactionHash (t :: done))) as J by (apply (OR s rest _ I E); rewrite Es; left; reflexivity).
  destruct J as [J|J]; [congruence|]. apply in_map_iff in J as (t' & Et' & J). rewrite <- Et'. apply in_map, List.filter_In. split; [rewrite <- in_rev; exact J|].
  assert (ex_blockHeight s = ti_blockHeight t) as Eh.
  { pose proof (ok_spent _ _ O) as X. rewrite List.Forall_forall in X. destruct (X s I) as [(_ & _ & K) _]. rewrite Es in K.
    apply (known_unique _ _ _ _ N K). exists t. rewrite E, in_app_iff. split; [right; left; reflexivity|]. split; reflexivity. }
  unfold doomed. destruct (Z.eqb_spec (ti_blockHeight t') UNCONFIRMED) as [Eu|Nu'].
  - apply existsb_exists. exists s. split; [exact I|]. rewrite bool_decide_true by congruence. apply Z.leb_le. lia.
  - apply Z.leb_le. rewrite E in SH. assert (ti_blockHeight t <= ti_blockHeight t'); [|lia]. clear -SH J.
    induction rest as [|y rest IH]; cbn in SH; apply StronglySorted_inv in SH as [SH F]; [|exact (IH SH)]. rewrite List.Forall_forall in F. exact (F t' J).
Qed.

Lemma hash_not_deleted a height rest t done : account_ok a -> a_transactions a = rest ++ t :: done ->
  among (map ti_transactionHash (List.filter (doomed a height) (rev done))) (ti_transactionHash t) = false.
Proof.
  intros [_ N _ _ _] E. apply among_false. intros I. apply in_map_iff in I as (t' & Et & I). apply List.filter_In in I as [I _]. apply in_rev in I.
  rewrite E, map_app in N. apply nodup_app in N as (_ & N & _). cbn in N. apply NoDup_cons_iff in N as [N _]. apply N. rewrite <- Et. apply in_map, I.
Qed.

(** The loop ends at the first confirmed transaction below the height: nothing before it is deleted. *)
Lemma below_kept a height rest t done : account_ok a -> height < UNCONFIRMED -> a_transactions a = rev rest ++ t :: done -> ti_blockHeight t < height ->
  List.filter (doomed a height) (t :: rest) = [].
Proof.
  intros OK Hh E L. assert (forall t', In t' (t :: rest) -> doomed a height t' = false) as Nd.
  { intros t' I. assert (ti_blockHeight t' <= ti_blockHeight t) as Lt.
    { destruct I as [->|I]; [lia|]. pose proof (ok_sorted _ OK) as SH. rewrite E in SH. apply in_rev in I. clear -SH I.
      induction (rev rest) as [|y k IHk]; [destruct I|]. cbn in SH. apply StronglySorted_inv in SH as [SH F]. destruct I as [->|I]; [|exact (IHk I SH)].
      rewrite List.Forall_forall in F. apply F, in_app_iff. right. left. reflexivity. }
    unfold doomed. rewrite (proj2 (Z.eqb_neq _ _)) by lia. apply Z.leb_gt. lia. }
  clear -Nd. induction (t :: rest) as [|y k IHk]; [reflexivity|]. cbn. rewrite (Nd y) by (left; reflexivity). apply IHk. intros z I. apply Nd. right. exact I.
Qed.

Lemma detach_loop_ok a height : account_ok a -> height < UNCONFIRMED -> forall rest done c,
  let hs := map ti_transactionHash (List.filter (doomed a height) (rev done)) in
  a_transactions a = rev rest ++ done -> represents c (without hs a) ->
  wp False (fun r c' => r = deleted a height /\ represents c' (without r a) /\ m_currentHeight c' = m_currentHeight c) (detach_loop age height rest hs c).
Proof.
  intros OK Hh. induction rest as [|t rest IH]; intros done c hs E R.
  - cbn [detach_loop]. run. cbn in E. unfold deleted. rewrite E. auto.
  - cbn [rev] in E. rewrite <- app_assoc in E. cbn in E. pose proof (hash_not_deleted _ height _ _ _ OK E) as Na. fold hs in Na.
    pose proof (IH (t :: done) c) as IH0. cbn [rev] in IH0. rewrite List.filter_app, map_app in IH0. fold hs in IH0. cbn [List.filter] in IH0.
    set (h := ti_transactionHash t) in *.
    assert (forgettable h (without hs a) -> doomed a height t = true -> wp False (fun r c' => r = deleted a height /\ represents c' (without r a) /\ m_currentHeight c' = m_currentHeight c)
      ((deleteTransactionTransfers age h ;;; modify (fun c => with_transactions (erase_transaction h (m_transactions c)) c) ;;; detach_loop age height rest (hs ++ [h])) c)) as Del.
    { intros F D. pose proof (forget_ok _ _ _ R F) as W. apply wp_bind. unfold bind in W. destruct (deleteTransactionTransfers age h c) as [|e c1|[] c1]; [exact W|exact W|].
      apply wp_modify. cbn in W. destruct W as [R' Eh]. specialize (IH (t :: done)). cbn [rev] in IH. rewrite List.filter_app, map_app in IH. fold hs in IH. cbn [List.filter] in IH.
      rewrite D in IH. cbn [map] in IH. fold h in IH. eapply wp_mono; [|apply IH; [exact E|]].
      - intros r c' (-> & R2 & Eh2). cbn in Eh2. split; [reflexivity|split; [exact R2|congruence]].
      - eapply represents_equiv; [|exact R']. apply without_app, R. }
    cbn [detach_loop]. fold h. destruct (Z.eqb_spec (ti_blockHeight t) UNCONFIRMED) as [Eu|Nu].
    + apply wp_gets. unfold h. rewrite (spends_above _ _ _ _ _ _ height (proj1 R) Na Eu). fold h. destruct (doomed a height t) eqn:D.
      * apply Del; [|reflexivity]. apply unconfirmed_forgettable; [apply R|]. exists t. split; [|auto]. cbn. apply List.filter_In. split; [rewrite E, in_app_iff; right; left; reflexivity|].
        fold h. rewrite Na. reflexivity.
      * cbn [map] in IH0. rewrite app_nil_r in IH0. exact (IH0 E R).
    + destruct (Z.leb_spec height (ti_blockHeight t)) as [L|L].
      * apply Del; [exact (above_forgettable _ _ _ _ _ OK E Nu L)|]. unfold doomed. rewrite (proj2 (Z.eqb_neq _ _) Nu). apply Z.leb_le, L.
      * run. split; [|split; [exact R|reflexivity]]. unfold deleted. rewrite E, rev_app_distr, rev_involutive. cbn [rev]. rewrite <- app_assoc, List.filter_app, map_app. fold hs.
        cbn [app]. rewrite (below_kept _ _ _ _ _ OK Hh E L). cbn. rewrite app_nil_r. reflexivity.
Qed.

Lemma without_none a : account_equiv (without [] a) a.
Proof.
  destruct a as [t U A S]. unfold without. constructor; cbn [a_transactions a_unconfirmed a_available a_spent].
  - apply filter_keep_all. reflexivity.
  - rewrite filter_keep_all by reflexivity. reflexivity.
  - rewrite filter_keep_all by reflexivity. replace (List.filter _ S) with (@nil SpentTransactionOutput); [cbn; rewrite app_nil_r; reflexivity|].
    symmetry. clear. induction S as [|s S IH]; [reflexivity|exact IH].
  - rewrite filter_keep_all by reflexivity. reflexivity.
Qed.

Definition height_below (height : Z) : Z := if height =? 0 then 0 else height - 1.

Lemma detach_ok a c height : represents c a -> 0 <= height < UNCONFIRMED -> 0 <= m_currentHeight c < UNCONFIRMED ->
  wp False (fun r c' => let '(hs, locked) := r in hs = deleted a height /\ represents c' (without hs a) /\ m_currentHeight c' = height_below height /\
    locked ≡ₚ if m_currentHeight c <? height_below height then []
      else map info_of (List.filter (unlocks_between (height_below height + 1) (m_currentHeight c + 1)) (a_available (without hs a)))) (detach age height c).
Proof.
  intros R Hh Hc. unfold detach. apply wp_assert; [apply Z.ltb_lt; lia|]. apply wp_gets, wp_bind.
  destruct R as [H OK]. pose proof (ae_t _ _ (ho_content _ _ _ _ _ _ H)) as Et. cbn in Et. rewrite Et.
  eapply wp_mono; [|apply (detach_loop_ok a height OK ltac:(lia) (rev (a_transactions a)) [])].
  - intros hs c' (-> & R' & Eh). apply wp_gets, wp_modify, wp_bind. fold (height_below height). rewrite Eh.
    pose proof (with_height_holds _ _ _ _ _ (height_below height) (proj1 R')) as H2. assert (0 <= height_below height <= height) as Hb by (unfold height_below; destruct (Z.eqb_spec height 0); lia).
    unfold getLockingTransfers. destruct (Z.ltb_spec (m_currentHeight c) (height_below height)) as [L|L].
    + run. split; [reflexivity|]. split; [|auto]. split; [exact H2|apply R'].
    + apply wp_gets. rewrite !u32_small by (unfold WALLET_LEGACY_UNCONFIRMED_TRANSACTION_HEIGHT in *; lia).
      destruct (slice_ok _ _ _ _ _ (height_below height + 1) (m_currentHeight c + 1) H2) as (os & E & P); [lia|]. rewrite E. run.
      split; [reflexivity|]. split; [split; [exact H2|apply R']|]. split; [reflexivity|exact P].
  - rewrite rev_involutive, app_nil_r. reflexivity.
  - eapply represents_equiv; [symmetry; apply without_none|]. split; assumption.
Qed.

End Ops.

(** ** Balance, unlocking and lookups in the container of transfers

    The visible outputs have different key images; the sums of amounts; the unlock
    job of an output lies at the height at which the output becomes spendable. *)

Section Queries.
Context {HO : HashOrder} {CO : Codec}.
Variable cur : currency.
Variable age now : Z.
Abbreviation holds := (holds age).
Abbreviation represents := (represents age).

(** ** One visible output for a key image *)

Abbreviation shown := (List.filter (fun x : TransactionOutputInformationEx => visible x)).

Lemma shown_unseen l : Forall (fun x : TransactionOutputInformationEx => visible x = false) l -> shown l = [].
Proof. induction 1 as [|x l V F IH]; [reflexivity|]. cbn. rewrite V. exact IH. Qed.

Lemma filter_comm {A} (f g : A -> bool) l : List.filter f (List.filter g l) = List.filter g (List.filter f l).
Proof. rewrite !filter_filter. apply filter_ext. intros x. apply andb_comm. Qed.

(** At most one unspent output of a key image is visible, and none when the image is spent. *)
Lemma shown_once u a s : image_visible u a s -> (length (shown (u ++ a)) <= 1)%nat /\ (s <> [] -> shown (u ++ a) = []).
Proof.
  intros [V W X]. rewrite List.filter_app. destruct s as [|y s].
  - split; [|congruence]. destruct a as [|z a].
    + cbn. rewrite app_nil_r. specialize (X eq_refl eq_refl). destruct (Nat.eqb_spec (length u) 1) as [E|N]; [|rewrite shown_unseen by exact X; cbn; lia].
      rewrite <- E. apply List.filter_length_le.
    + destruct (W eq_refl) as (U & x & rest & P & Vx & R & _); [discriminate|]. rewrite (shown_unseen _ U). cbn [app].
      rewrite (Permutation_length (filter_perm _ _ _ P)). cbn. rewrite Vx, (shown_unseen _ R). reflexivity.
  - destruct V as (U & A & _); [discriminate|]. rewrite (shown_unseen _ U), (shown_unseen _ A). cbn. split; [lia|reflexivity].
Qed.

Lemma nodup_by_count l : (forall d, (length (same d l) <= 1)%nat) -> List.NoDup (map desc_of l).
Proof.
  induction l as [|x l IH]; intros H; [constructor|]. cbn. constructor.
  - intros I. apply in_map_iff in I as (y & E & I). specialize (H (desc_of x)). cbv beta in H. rewrite same_cons, bool_decide_true in H by reflexivity. cbn in H.
    assert (In y (same (getSpentOutputDescriptor x) l)) as J by (apply List.filter_In; split; [exact I|apply bool_decide_eq_true, E]).
    destruct (same _ l); [exact J|cbn in H; lia].
  - apply IH. intros d. specialize (H d). rewrite same_cons in H. destruct (bool_decide _); cbn in H; lia.
Qed.

Lemma sub_count {A} (f g : A -> bool) l : (forall x, f x = true -> g x = true) -> (length (List.filter f l) <= length (List.filter g l))%nat.
Proof. intros H. induction l as [|x l IH]; [cbn; lia|]. cbn. destruct (f x) eqn:F; [rewrite (H x F); cbn; lia|]. destruct (g x); cbn; lia. Qed.

Lemma selected_in flags c x : In x (selected cur age now flags c) -> In x (m_unconfirmedTransfers c ++ m_availableTransfers c) /\ visible x = true.
Proof.
  unfold selected. rewrite in_app_iff. intros [I|I].
  - apply List.filter_In in I as [I V]. rewrite (arrange_perm _ _) in I. apply andb_true_iff in V as [V _]. rewrite in_app_iff. auto.
  - destruct (has flags IncludeStateLocked); [|destruct I]. apply List.filter_In in I as [I V]. rewrite (arrange_perm _ _) in I. apply andb_true_iff in V as [V _]. rewrite in_app_iff. auto.
Qed.

Abbreviation key_outputs := (List.filter (fun x : TransactionOutputInformationEx => is_key x)).

Lemma chosen_count d (p : TransactionOutputInformationEx -> bool) l : (forall x, p x = true -> visible x = true) ->
  (length (same d (List.filter p (arrange l))) <= length (shown (same d l)))%nat.
Proof.
  intros Hp. unfold same. rewrite (Permutation_length (filter_perm _ _ _ (filter_perm p _ _ (arrange_perm _ l)))), !filter_filter. apply sub_count.
  intros x E. apply andb_true_iff in E as [E1 E2]. rewrite (Hp x E1), E2. reflexivity.
Qed.

Lemma selected_count flags c d :
  (length (same d (selected cur age now flags c)) <= length (shown (same d (m_unconfirmedTransfers c) ++ same d (m_availableTransfers c))))%nat.
Proof.
  unfold selected. rewrite same_app, length_app, List.filter_app, length_app.
  match goal with |- (length (same d (List.filter ?p _)) + _ <= _)%nat => pose proof (chosen_count d p (m_availableTransfers c)) as La end.
  specialize (La ltac:(intros x E; apply andb_true_iff in E as [E _]; exact E)).
  destruct (has flags IncludeStateLocked); [|cbn; lia].
  match goal with |- (_ + length (same d (List.filter ?p _)) <= _)%nat => pose proof (chosen_count d p (m_unconfirmedTransfers c)) as Lu end.
  specialize (Lu ltac:(intros x E; apply andb_true_iff in E as [E _]; exact E)). lia.
Qed.

Lemma key_desc (x : TransactionOutputInformationIn) : is_key x = true -> exists image, getSpentOutputDescriptor x = ByKeyImage image.
Proof. unfold is_key, getSpentOutputDescriptor. destruct (o_union x); [eauto|discriminate]. Qed.

(** The key outputs that [balance] adds up have different key images, and none of them is spent. *)
Lemma selected_once T a ht c flags : holds T None a ht c ->
  List.NoDup (map desc_of (key_outputs (selected cur age now flags c))) /\
  (forall x, In x (key_outputs (selected cur age now flags c)) -> ~ In (desc_of x) (map spent_desc (m_spentTransfers c))).
Proof.
  intros H. pose proof (ho_visible _ _ _ _ _ _ H) as V. split.
  - apply nodup_by_count. intros [image|z i].
    + etransitivity; [|exact (proj1 (shown_once _ _ _ (V image ltac:(discriminate))))]. etransitivity; [|apply selected_count].
      unfold same. rewrite filter_filter. apply sub_count. intros x E. apply andb_true_iff in E. apply E.
    + destruct (same _ _) as [|x l] eqn:E; [cbn; lia|]. exfalso. assert (In x (same (ByIndex z i) (key_outputs (selected cur age now flags c)))) as I by (rewrite E; left; reflexivity).
      apply List.filter_In in I as [I D]. apply List.filter_In in I as [_ K]. destruct (key_desc x K) as (image & Ei). apply bool_decide_eq_true in D. congruence.
  - intros x I J. apply List.filter_In in I as [I K]. destruct (key_desc x K) as (image & Ei). cbv beta in J. rewrite Ei in J.
    pose proof (V image ltac:(discriminate)) as Vi. destruct (shown_once _ _ _ Vi) as [_ Z].
    assert (same (ByKeyImage image) (selected cur age now flags c) <> []) as N.
    { intros E. assert (In x (same (ByKeyImage image) (selected cur age now flags c))) as I' by (apply List.filter_In; split; [exact I|apply bool_decide_eq_true, Ei]). rewrite E in I'. exact I'. }
    apply N, length_zero_iff_nil. pose proof (selected_count flags c (ByKeyImage image)) as L. rewrite Z in L; [cbn in L; lia|].
    intros E. apply in_map_iff in J as (s & Es & J). assert (In (sp_ex s) (same (ByKeyImage image) (map sp_ex (m_spentTransfers c)))) as J'
      by (apply List.filter_In; split; [apply in_map, J|apply bool_decide_eq_true, Es]). rewrite E in J'. exact J'.
Qed.

(** ** Sums *)

Definition sum_amounts (l : list TransactionOutputInformation) : Z := fold_right (fun o z => o_amount o + z) 0 l.

Lemma sum_wraps l : forall z, fold_left (fun amount t => u64 (amount + o_amount t)) l (u64 z) = u64 (z + sum_amounts l).
Proof.
  induction l as [|o l IH]; intros z; cbn [fold_left].
  - unfold sum_amounts. cbn. rewrite Z.add_0_r. reflexivity.
  - replace (u64 (u64 z + o_amount o)) with (u64 (z + o_amount o)) by (rewrite !u64_mod, Zplus_mod_idemp_l; reflexivity).
    rewrite IH. unfold sum_amounts. cbn [fold_right]. rewrite Z.add_assoc. reflexivity.
Qed.

Lemma balance_sum flags c : balance cur age now flags c = u64 (sum_amounts (getOutputs cur age now [] flags c)).
Proof. unfold balance, getOutputs. cbn [app]. exact (sum_wraps _ 0). Qed.

(** ** Unlocking *)

(** An output that is locked by heights only, with no sum over 32 bits. *)
Record by_height (x : TransactionOutputInformationEx) : Prop := {
  bh_block : 0 <= ex_blockHeight x < UNCONFIRMED;
  bh_time : 0 <= ex_unlockTime x < m_maxBlockHeight cur;
  bh_fits : ex_unlockTime x < 2 ^ 32;
  bh_age : 0 <= age /\ ex_blockHeight x + age + 1 < 2 ^ 32;
  bh_term : 0 <= deposit_term x /\ ex_blockHeight x + deposit_term x < 2 ^ 32
}.

(** The output may be spent at the height. *)
Definition spendable (height : Z) (x : TransactionOutputInformationEx) : bool := state_of cur age now height x =? IncludeStateUnlocked.

(** The height of the job is the one from which the output may be spent. *)
Lemma job_exact x height : by_height x -> m_lockedTxAllowedDeltaBlocks cur = 1 -> 0 <= height < UNCONFIRMED ->
  spendable height x = (unlockHeight (make_job age x) <=? height + 1).
Proof.
  intros [Hb Ht Hf Ha Hm] Ed Hh. unfold WALLET_LEGACY_UNCONFIRMED_TRANSACTION_HEIGHT in *.
  unfold spendable, state_of, isSpendTimeUnlocked, soft_locked, make_job, makeTransferUnlockJob, WALLET_LEGACY_UNCONFIRMED_TRANSACTION_HEIGHT. rewrite Ed.
  rewrite (u32_small age) by lia. rewrite (u32_small (ex_blockHeight x + age)) by lia. rewrite (u32_small (ex_blockHeight x + age + 1)) by lia.
  rewrite (u32_small (ex_blockHeight x + deposit_term x)) by lia. rewrite (u32_small (height + 1)) by lia.
  rewrite (u32_small (if ex_unlockTime x =? 0 then ex_blockHeight x else ex_unlockTime x)) by (destruct (_ =? _); lia). rewrite (u64_small (height + 1)), (u64_small (ex_blockHeight x + age)) by lia.
  rewrite (proj2 (Z.ltb_lt _ _) (proj2 Ht)), (proj2 (Z.eqb_neq (ex_blockHeight x) _)) by lia. cbn [orb].
  apply eq_true_iff_eq. rewrite Z.leb_le. cbn [unlockHeight].
  destruct (Z.eqb_spec (deposit_term x) 0) as [Ez|Nz]; cbn [negb andb].
  - rewrite andb_false_r. destruct (Z.leb_spec (ex_unlockTime x) (height + 1)) as [L|L]; cbn [negb];
      [destruct (Z.ltb_spec height (ex_blockHeight x + age)) as [L'|L']|]; cbn [unlockHeight]; destruct (Z.eqb_spec (ex_unlockTime x) 0); cbn; (split; [intros E; try discriminate; lia|intros E; try reflexivity; lia]).
  - rewrite andb_true_r. destruct (Z.leb_spec (ex_unlockTime x) (height + 1)) as [L|L]; cbn [negb];
      [destruct (Z.leb_spec (ex_blockHeight x + deposit_term x) (height + 1)) as [L2|L2]; cbn [negb]; [destruct (Z.ltb_spec height (ex_blockHeight x + age)) as [L'|L']|]|]; cbn [unlockHeight]; destruct (Z.eqb_spec (ex_unlockTime x) 0); cbn; (split; [intros E; try discriminate; lia|intros E; try reflexivity; lia]).
Qed.

End Queries.
