(* ===== verification/TransfersAdd.v ===== *)
(** * Adding and confirming transactions in the container of transfers

    What [addTransaction] and [markTransactionConfirmed] do to the content of a
    container when they return, and that no assertion fails in them. *)

From Stdlib Require Import ZArith Lia List Bool Sorted.
From S2P Require Import Prelude Bytes IntUtil Currency TxStore Blockchain TransactionExtra TransfersContainer TransfersInvariant TransfersSteps TransfersOps.
From stdpp Require Import gmap list.
Import ListNotations.
Open Scope Z_scope.
Open Scope transfers_scope.
Set Default Goal Selector "!".

(** ** The order of transactions *)

Lemma info_insert_split t l : exists l1 l2, info_insert t l = l1 ++ t :: l2 /\ l = l1 ++ l2 /\ Forall (fun y => ti_blockHeight y <= ti_blockHeight t) l1 /\
  Forall (fun y => StronglySorted (fun a b => ti_blockHeight a <= ti_blockHeight b) l -> ti_blockHeight t < ti_blockHeight y) l2.
Proof.
  induction l as [|y l (l1 & l2 & E & -> & F1 & F2)]; [exists [], []; repeat split; constructor|]. cbn. destruct (Z.ltb_spec (ti_blockHeight t) (ti_blockHeight y)) as [L|L].
  - exists [], (y :: l1 ++ l2). repeat split; [constructor|]. apply List.Forall_forall. intros z I S. apply StronglySorted_inv in S as [_ S]. rewrite List.Forall_forall in S.
    destruct I as [<-|I]; [exact L|]. specialize (S z I). lia.
  - exists (y :: l1), l2. rewrite E. repeat split; [constructor; assumption|]. apply (Forall_impl _ _ _ F2). intros z Hz S. apply Hz. apply StronglySorted_inv in S. apply S.
Qed.

Lemma info_insert_perm t l : info_insert t l ≡ₚ t :: l.
Proof. destruct (info_insert_split t l) as (l1 & l2 & -> & -> & _). symmetry. apply Permutation_middle. Qed.

Lemma info_insert_sorted t l : StronglySorted (fun a b => ti_blockHeight a <= ti_blockHeight b) l ->
  StronglySorted (fun a b => ti_blockHeight a <= ti_blockHeight b) (info_insert t l).
Proof.
  induction 1 as [|y l S IH F]; [repeat constructor|]. cbn. destruct (Z.ltb_spec (ti_blockHeight t) (ti_blockHeight y)).
  - constructor; [constructor; assumption|]. constructor; [lia|]. apply (Forall_impl _ _ _ F). intros; lia.
  - constructor; [exact IH|]. rewrite info_insert_perm. constructor; [lia|exact F].
Qed.

Lemma order_insert t l (s : SpentTransactionOutput) : ~ In (ti_transactionHash t) (map ti_transactionHash l) -> o_transactionHash s <> ti_transactionHash t ->
  spent_in_order l s -> spent_in_order (info_insert t l) s.
Proof.
  intros F N H l1 l2 E I.
  set (f := fun y => negb (bool_decide (ti_transactionHash y = ti_transactionHash t))).
  assert (List.filter f (info_insert t l) = l) as Ef.
  { destruct (info_insert_split t l) as (k1 & k2 & -> & El & _). rewrite El in F |- *. rewrite map_app, in_app_iff in F.
    rewrite List.filter_app. cbn [List.filter]. unfold f. rewrite bool_decide_true by reflexivity. cbn [negb].
    rewrite (erase_key_absent ti_transactionHash k1), (erase_key_absent ti_transactionHash k2) by tauto. reflexivity. }
  rewrite E, List.filter_app in Ef. symmetry in Ef.
  assert (In (spendingTransactionHash s) (map ti_transactionHash (List.filter f l2))) as J.
  { apply (H _ _ Ef). apply in_map_iff in I as (y & Ey & I). rewrite <- Ey. apply in_map, List.filter_In. split; [exact I|]. unfold f.
    rewrite bool_decide_false by congruence. reflexivity. }
  apply in_map_iff in J as (y & Ey & J). apply List.filter_In in J as [J _]. rewrite <- Ey. apply in_map, J.
Qed.

Lemma suffix_contains {A} (p q l1 l2 : list A) x y : p ++ x :: q = l1 ++ l2 -> In y l2 -> ~ In y q -> y <> x -> In x l2.
Proof.
  intros E I N D. apply app_eq_inv in E as [(k & -> & ->)|(k & -> & E)].
  - apply in_app_iff. right. left. reflexivity.
  - destruct k as [|z k]; cbn in E; [subst l2; left; reflexivity|]. injection E as -> ->. destruct (N (proj2 (in_app_iff _ _ _) (or_intror I))).
Qed.

(** A new transaction comes after all those it spends from. *)
Lemma order_new t l (s : SpentTransactionOutput) : List.NoDup (map ti_transactionHash (info_insert t l)) -> spendingTransactionHash s = ti_transactionHash t ->
  StronglySorted (fun a b => ti_blockHeight a <= ti_blockHeight b) l ->
  (o_transactionHash s = ti_transactionHash t \/ exists y, In y l /\ ti_transactionHash y = o_transactionHash s /\ ti_blockHeight y <= ti_blockHeight t) ->
  spent_in_order (info_insert t l) s.
Proof.
  intros N Es SS H l1 l2 E I. rewrite Es. destruct H as [Eh|(y & J & Ey & L)]; [rewrite <- Eh; exact I|].
  destruct (info_insert_split t l) as (k1 & k2 & Ei & El & _ & F). rewrite Ei in N, E.
  rewrite map_app in N. cbn in N. apply nodup_app in N as (_ & N & D). apply NoDup_cons_iff in N as [N _].
  assert (In y k1) as J1.
  { rewrite El, in_app_iff in J. destruct J as [J|J]; [exact J|]. rewrite List.Forall_forall in F. specialize (F y J SS). lia. }
  assert (~ In (o_transactionHash s) (ti_transactionHash t :: map ti_transactionHash k2)) as N2 by (apply D; rewrite <- Ey; apply in_map, J1).
  apply (suffix_contains (map ti_transactionHash k1) (map ti_transactionHash k2) (map ti_transactionHash l1) _ _ (o_transactionHash s)).
  - rewrite <- map_app, <- E, map_app. reflexivity.
  - exact I.
  - intros J2. apply N2. right. exact J2.
  - intros J2. apply N2. left. symmetry. exact J2.
Qed.

(** ** Adding outputs *)

Section Add.
Context {HO : HashOrder} {CO : Codec}.
Variable cur : currency.
Variable age now : Z.
Abbreviation holds := (holds age).
Abbreviation represents := (represents age).

Definition own (transfer : TransactionOutputInformationIn) : bool := o_id transfer =? ACCOUNT_OWN_ID.

(** The assertions on a transfer. *)
Record transfer_ok (t : Transaction) (transfer : TransactionOutputInformationIn) : Prop := {
  tr_index : 0 <= outputInTransaction transfer < Z.of_nat (length (outputs t));
  tr_type : same_type transfer t = true;
  tr_amount : 0 < o_amount transfer
}.

Definition received (block : TransactionBlockInfo) (t : Transaction) (transfers : list TransactionOutputInformationIn) : list TransactionOutputInformationEx :=
  map (stored block t) (List.filter own transfers).

Abbreviation unconfirmed_block block := (tb_height block =? UNCONFIRMED).

(** The content with new outputs. *)
Definition add_received (block : TransactionBlockInfo) (xs : list TransactionOutputInformationEx) (a : account) : account :=
  mk_account (a_transactions a) (if unconfirmed_block block then a_unconfirmed a ++ xs else a_unconfirmed a)
    (if unconfirmed_block block then a_available a else a_available a ++ xs) (a_spent a).

(** The index of a transfer tells whether its block is confirmed, and a confirmed multisignature output is new. *)
Definition output_fine (a : account) (block : TransactionBlockInfo) (transfer : TransactionOutputInformationIn) : Prop :=
  unconfirmed_block block = (globalOutputIndex transfer =? UNCONFIRMED_TRANSACTION_GLOBAL_OUTPUT_INDEX) /\ (unconfirmed_block block = false -> new_multisig a transfer).

Lemma add_output_ok E T a ht c block t transfer : output_fine a block transfer \/ E -> holds T None a ht c -> transfer_ok t transfer -> T (getObjectHash t) (tb_height block) ->
  ~ In (getObjectHash t, outputInTransaction transfer) (map key_of (a_unconfirmed a ++ a_available a ++ map sp_ex (a_spent a))) ->
  wp E (fun _ => holds T None (add_received block [stored block t transfer] a) ht) (add_output age block t transfer c).
Proof.
  intros Fine H [Hi Ht Hm] TT F. unfold add_output. apply wp_assert; [apply Z.ltb_lt, Hi|]. apply wp_assert; [exact Ht|]. apply wp_assert; [apply Z.ltb_lt, Hm|].
  unfold add_received. destruct (Z.eqb_spec (tb_height block) UNCONFIRMED) as [Eb|Nb], (Z.eqb_spec (globalOutputIndex transfer) UNCONFIRMED_TRANSACTION_GLOBAL_OUTPUT_INDEX) as [Eg|Ng];
    unfold output_fine in Fine;
    rewrite ?(proj2 (Z.eqb_eq _ _) Eb), ?(proj2 (Z.eqb_neq _ _) Nb), ?(proj2 (Z.eqb_eq _ _) Eg), ?(proj2 (Z.eqb_neq _ _) Ng) in Fine; cbn [Bool.eqb negb];
    try (destruct Fine as [[Fine _]|Fine]; [discriminate Fine|exact Fine]).
  - apply (wp_weaken False); [tauto|]. eapply wp_mono; [|apply (receive_unconfirmed_ok age T a ht c (stored block t transfer) H F)]; [|split; [exact Eb|split; [exact Eg|rewrite <- Eb; exact TT]]|reflexivity].
    intros ? c' H'. eapply holds_equiv; [|exact H']. constructor; parts; try reflexivity. symmetry. apply (snoc_perm (stored block t transfer)).
  - pose proof (check_new_ok age E _ _ _ _ transfer H ltac:(destruct Fine as [[_ Fine]|Fine]; [left; exact (Fine eq_refl)|right; exact Fine])) as Cn.
    apply wp_bind, wp_bind. destruct (check_new transfer c) as [|e c0|[] c0]; [destruct Cn|exact Cn|].
    destruct Cn as [-> Fm]. fields. apply (wp_weaken False); [tauto|]. set (x := stored block t transfer) in *.
    assert (is_key x = false -> visible x = true /\ ~ In (desc_of x) (map desc_of (a_available a ++ map sp_ex (a_spent a)))) as M by (intros K; split; [reflexivity|exact (Fm K)]).
    pose proof (receive_ok age T a ht c x H F ltac:(split; [exact Nb|split; [exact Ng|exact TT]]) M) as W. unfold bind in W.
    destruct (insert_available age x c) as [|e c0|[] c0]; [destruct W|destruct W|]. fields. apply (wp_weaken False); [tauto|]. eapply wp_mono; [|exact W].
    intros ? c' H'. eapply holds_equiv; [|exact H']. constructor; parts; try reflexivity. symmetry. apply (snoc_perm x).
Qed.
Abbreviation keys a := (map key_of (a_unconfirmed a ++ a_available a ++ map sp_ex (a_spent a))).

Lemma add_received_keys block xs a : keys (add_received block xs a) ≡ₚ keys a ++ map key_of xs.
Proof.
  rewrite <- map_app. apply Permutation_map. unfold add_received. destruct (unconfirmed_block block); cbn; rewrite <- !app_assoc.
  - apply Permutation_app_head. rewrite (Permutation_app_comm xs), <- app_assoc. reflexivity.
  - do 2 apply Permutation_app_head. apply Permutation_app_comm.
Qed.

Lemma add_received_cons block x xs a : add_received block (x :: xs) a = add_received block xs (add_received block [x] a).
Proof. unfold add_received. destruct (unconfirmed_block block); cbn; rewrite <- app_assoc; reflexivity. Qed.

Lemma add_received_nil block a : add_received block [] a = a.
Proof. destruct a. unfold add_received. destruct (unconfirmed_block block); cbn; rewrite app_nil_r; reflexivity. Qed.

(** Multisignature outputs that are new one after the other. *)
Record outputs_fine (a : account) (block : TransactionBlockInfo) (t : Transaction) (transfers : list TransactionOutputInformationIn) : Prop := {
  of_index : Forall (fun tr => own tr = true -> unconfirmed_block block = (globalOutputIndex tr =? UNCONFIRMED_TRANSACTION_GLOBAL_OUTPUT_INDEX)) transfers;
  of_new : unconfirmed_block block = false -> List.NoDup (map desc_of (List.filter is_multisig (received block t transfers ++ a_available a ++ map sp_ex (a_spent a))))
}.

Lemma outputs_fine_cons a block t tr transfers : own tr = true -> outputs_fine a block t (tr :: transfers) ->
  output_fine a block tr /\ outputs_fine (add_received block [stored block t tr] a) block t transfers.
Proof.
  intros O [Fi Fn]. apply list.Forall_cons in Fi as [F0 Fi]. unfold received in Fn. cbn [List.filter] in Fn. rewrite O in Fn. cbn [map app] in Fn. split.
  - split; [exact (F0 O)|]. intros U K I. specialize (Fn U). cbn [List.filter] in Fn. cbn [stored is_key o_union in_info ex_in] in Fn. unfold is_key at 1 in Fn. cbn in Fn.
    unfold is_key in K. destruct (o_union tr) eqn:Eu; [discriminate|]. cbn in Fn. apply NoDup_cons_iff in Fn as [N _]. apply N.
    apply in_map_iff in I as (y & E & I). unfold getSpentOutputDescriptor in E at 2. rewrite Eu in E. unfold getSpentOutputDescriptor at 1. cbn. rewrite Eu.
    rewrite <- E. apply (in_map desc_of), List.filter_In. split; [apply in_app_iff; right; exact I|].
    unfold getSpentOutputDescriptor, is_key in *. destruct (o_union y); [discriminate|reflexivity].
  - split; [exact Fi|]. intros U. specialize (Fn U). unfold add_received. rewrite U. cbn [a_available a_spent]. eapply Permutation_NoDup; [|exact Fn].
    apply Permutation_map, filter_perm. unfold received. rewrite <- !app_assoc. cbn [app]. rewrite <- !Permutation_middle. reflexivity.
Qed.

Lemma add_outputs_ok E T ht block t transfers : T (getObjectHash t) (tb_height block) -> forall r a c, outputs_fine a block t transfers \/ E -> holds T None a ht c ->
  Forall (fun tr => own tr = true -> transfer_ok t tr) transfers -> List.NoDup (map outputInTransaction (map in_info (List.filter own transfers))) ->
  (forall tr, In tr (List.filter own transfers) -> ~ In (getObjectHash t, outputInTransaction tr) (keys a)) ->
  wp E (fun r' c' => r' = r || existsb own transfers /\ holds T None (add_received block (received block t transfers) a) ht c') (addTransactionOutputs age block t transfers r c).
Proof.
  intros TT. induction transfers as [|tr transfers IH]; intros r a c Fine H F N D; cbn [addTransactionOutputs].
  - run. rewrite orb_false_r. split; [reflexivity|]. unfold received. cbn. rewrite add_received_nil. exact H.
  - apply list.Forall_cons in F as [F0 F]. cbn [List.filter existsb] in *. unfold received. cbn [List.filter]. fold (own tr). destruct (own tr) eqn:O; cbn [negb].
    + assert ((output_fine a block tr \/ E) /\ (outputs_fine (add_received block [stored block t tr] a) block t transfers \/ E)) as [Fo Fine'].
      { destruct Fine as [Fine|HE]; [destruct (outputs_fine_cons _ _ _ _ _ O Fine); auto|auto]. }
      apply wp_bind. eapply wp_mono; [|apply (add_output_ok E T a ht c block t tr Fo H (F0 eq_refl) TT), D; left; reflexivity].
      intros ? c' H'. cbv beta in H'. cbn [map] in *. apply NoDup_cons_iff in N as [N0 N]. eapply wp_mono; [|apply (IH true _ c' Fine' H' F N)].
      * intros r' c'' [-> H'']. split; [rewrite orb_true_r; reflexivity|]. rewrite add_received_cons. exact H''.
      * intros tr' I J. rewrite add_received_keys in J. apply in_app_iff in J as [J|[J|[]]]; [exact (D tr' (or_intror I) J)|].
        cbn in J. injection J as J. apply N0. rewrite map_map. apply in_map_iff. exists tr'. split; [congruence|exact I].
    + rewrite orb_false_l. apply (IH r a c); try assumption. destruct Fine as [[Fi Fn]|HE]; [left|right; exact HE]. apply list.Forall_cons in Fi as [_ Fi]. split; [exact Fi|].
      unfold received in *. cbn [List.filter] in Fn. rewrite O in Fn. exact Fn.
Qed.

(** ** Sorting *)

Lemma sort_insert_perm x l : sort_insert x l ≡ₚ x :: l.
Proof. induction l as [|y l IH]; [reflexivity|]. cbn. destruct (lessTIterator y x); [|reflexivity]. rewrite IH. apply perm_swap. Qed.

Lemma sort_perm l : sort l ≡ₚ l.
Proof. induction l as [|x l IH]; [reflexivity|]. cbn. rewrite sort_insert_perm. apply perm_skip, IH. Qed.

Lemma sort_sorted l : StronglySorted (fun x y => lessTIterator y x = false) (sort l).
Proof.
  induction l as [|x l IH]; [constructor|]. cbn. fold (sort l). induction IH as [|y k S IHk F]; [repeat constructor|]. cbn. destruct (lessTIterator y x) eqn:L.
  - constructor; [exact IHk|]. rewrite sort_insert_perm. constructor; [|exact F]. apply less_true in L. apply less_spec. lia.
  - constructor; [constructor; assumption|]. constructor; [exact L|]. apply (Forall_impl _ _ _ F). intros z Lz. apply less_spec in L, Lz. apply less_spec. lia.
Qed.

(** The earliest output of an amount. *)
Lemma first_by_amount amount l x : findFirstByAmount amount (sort l) = Some x ->
  In x l /\ o_amount x = amount /\ forall y, In y l -> o_amount y = amount -> lessTIterator y x = false.
Proof.
  intros E. unfold findFirstByAmount in E. pose proof (sort_sorted l) as S. assert (forall y, In y (sort l) <-> In y l) as P by (intros y; rewrite (sort_perm l); reflexivity).
  setoid_rewrite <- P. clear P. induction S as [|z k S IH F]; [discriminate|]. cbn in E. destruct (Z.eqb_spec (o_amount z) amount) as [Ez|Nz].
  - injection E as <-. split; [left; reflexivity|]. split; [exact Ez|]. intros y [<-|I] _; [apply less_irrefl|]. rewrite List.Forall_forall in F. exact (F y I).
  - destruct (IH E) as (I & Ex & M). split; [right; exact I|]. split; [exact Ex|]. intros y [<-|J] Ey; [congruence|exact (M y J Ey)].
Qed.

(** ** Spending *)

(** The output an input refers to. *)
Definition spends (input : TransactionInput) (x : TransactionOutputInformationEx) : Prop :=
  match input with
  | BaseInput _ => False
  | KeyInput amount _ image => getSpentOutputDescriptor x = ByKeyImage image /\ o_amount x = amount
  | MultisignatureInput amount _ outputIndex _ => getSpentOutputDescriptor x = ByIndex amount outputIndex
  end.
(** An output with the key image or the place of the input. *)
Definition refers (input : TransactionInput) (x : TransactionOutputInformationEx) : Prop :=
  match input with
  | BaseInput _ => False
  | KeyInput _ _ image => getSpentOutputDescriptor x = ByKeyImage image
  | MultisignatureInput amount _ outputIndex _ => getSpentOutputDescriptor x = ByIndex amount outputIndex
  end.

Lemma desc_image x image : getSpentOutputDescriptor x = ByKeyImage image -> keyImage x = image.
Proof. unfold getSpentOutputDescriptor. destruct (o_union x); congruence. Qed.

Lemma by_descriptor_in d l x : In x (by_descriptor d l) <-> In x l /\ getSpentOutputDescriptor x = d.
Proof. rewrite (by_descriptor_perm d l). unfold same. rewrite List.filter_In, bool_decide_eq_true. reflexivity. Qed.

Lemma content_available T d a ht c x : holds T d a ht c -> In x (m_availableTransfers c) -> exists A0, a_available a ≡ₚ strip x :: A0.
Proof.
  intros H I. apply (in_map strip) in I. rewrite (ae_a _ _ (ho_content _ _ _ _ _ _ H)) in I. apply in_split in I as (l1 & l2 & ->). exists (l1 ++ l2).
  symmetry. apply Permutation_middle.
Qed.

Lemma desc_index x amount index : getSpentOutputDescriptor x = ByIndex amount index -> is_key x = false.
Proof. unfold getSpentOutputDescriptor, is_key. destruct (o_union x); congruence. Qed.

Lemma multisig_unique T t U A S x : outputs_ok T (mk_account t U (x :: A) S) -> is_key x = false -> ~ In (desc_of x) (map desc_of (A ++ map sp_ex S)).
Proof.
  intros O K I. pose proof (ok_multisig _ _ O) as N. parts. cbn [List.filter app] in N. rewrite K in N. cbn [negb map] in N. apply NoDup_cons_iff in N as [N _]. apply N.
  apply in_map_iff in I as (y & E & I). rewrite <- E. apply (in_map desc_of), List.filter_In. split; [exact I|].
  unfold getSpentOutputDescriptor, is_key in *. destruct (o_union x); [discriminate|]. destruct (o_union y); [discriminate|reflexivity].
Qed.

Lemma holds_index T amount index a ht c : holds T (Some (ByIndex amount index)) a ht c -> holds T None a ht c.
Proof. intros [Eh Ec O J V X]. constructor; try assumption. intros i _. apply V. discriminate. Qed.

(** The key image of the input is not spent. *)
Definition not_spent (a : account) (input : TransactionInput) : Prop :=
  match input with KeyInput _ _ image => ~ In (ByKeyImage image) (map spent_desc (a_spent a)) | _ => True end.

Lemma not_spent_raw T d a ht c image : holds T d a ht c -> (length (same (ByKeyImage image) (map sp_ex (m_spentTransfers c))) <= 0)%nat ->
  ~ In (ByKeyImage image) (map spent_desc (a_spent a)).
Proof.
  intros H L J. rewrite <- (ae_s _ _ (ho_content _ _ _ _ _ _ H)) in J. cbn in J. rewrite map_map in J. apply in_map_iff in J as (s & Es & J).
  assert (In (sp_ex s) (same (ByKeyImage image) (map sp_ex (m_spentTransfers c)))) as J' by (apply List.filter_In; split; [apply in_map, J|apply bool_decide_eq_true; exact Es]).
  destruct (same (ByKeyImage image) _); [exact J'|cbn in L; lia].
Qed.

(** The description of what an input did. *)
Definition input_done (T : bytes -> Z -> Prop) (a : account) (ht : Z) (block : TransactionBlockInfo) (t : Transaction) (i : nat) (input : TransactionInput) (r : bool) (c' : container) : Prop :=
  not_spent a input /\
  if r then exists x A0, a_available a ≡ₚ x :: A0 /\ spends input x /\
      (forall y, In y A0 -> spends input y -> lessTIterator y x = false) /\
      holds T None (mk_account (a_transactions a) (a_unconfirmed a) A0 (mk_spent x block (getObjectHash t) (u32 (Z.of_nat i)) :: a_spent a)) ht c'
  else holds T None a ht c' /\ Forall (fun x => ~ refers input x) (a_available a).

(** A key input spends an available output of its amount, or none of the account; its key image is not spent. *)
Definition input_fine (a : account) (input : TransactionInput) : Prop :=
  match input with
  | KeyInput amount _ image => ~ In (ByKeyImage image) (map spent_desc (a_spent a)) /\
      ((exists x, In x (a_available a) /\ getSpentOutputDescriptor x = ByKeyImage image /\ o_amount x = amount) \/
       ~ In (ByKeyImage image) (map desc_of (a_unconfirmed a ++ a_available a)))
  | _ => True
  end.

Lemma raw_desc T d a ht c k : holds T d a ht c ->
  (In k (map desc_of (a_unconfirmed a)) <-> (0 < length (by_descriptor k (m_unconfirmedTransfers c)))%nat) /\
  (In k (map desc_of (a_available a)) <-> (0 < length (by_descriptor k (m_availableTransfers c)))%nat) /\
  (In k (map spent_desc (a_spent a)) <-> (0 < length (spent_by_descriptor k (m_spentTransfers c)))%nat).
Proof.
  intros H. destruct (ho_content _ _ _ _ _ _ H) as [_ Pu Pa Ps]. rewrite <- Pu, <- Pa, <- Ps. cbn. rewrite spent_count, !(Permutation_length (by_descriptor_perm _ _)), !same_count, !map_map.
  repeat split; intros I; exact I.
Qed.

Lemma find_amount_some amount l (x : TransactionOutputInformationEx) : In x l -> o_amount x = amount -> findFirstByAmount amount (sort l) <> None.
Proof.
  intros I E F. unfold findFirstByAmount in F. rewrite <- (sort_perm l) in I. pose proof (find_none _ _ F x I) as D. cbn in D. rewrite E, Z.eqb_refl in D. discriminate.
Qed.

Lemma add_input_ok E T a ht c block t i input : input_fine a input \/ E -> holds T None a ht c -> T (getObjectHash t) (tb_height block) ->
  wp E (input_done T a ht block t i input) (add_input block t i input c).
Proof.
  intros Fine H TT. pose proof (holds_raw _ _ _ _ _ _ H) as R. destruct input as [z|amount offsets image|amount n index term]; cbn [add_input].
  - run. split; [exact Logic.I|]. split; [exact H|]. apply List.Forall_forall. intros x _ [].
  - apply wp_gets. set (d := ByKeyImage image). destruct (raw_desc _ _ _ _ _ d H) as (Du & Da & Ds). cbn in Fine. fold d in Fine.
    destruct (Nat.ltb_spec 0 (length (spent_by_descriptor d (m_spentTransfers c)))) as [Ls|Ls]; [destruct Fine as [[Fine _]|HE]; [destruct Fine; tauto|exact HE]|].
    rewrite spent_count in Ls. pose proof (not_spent_raw _ _ _ _ _ _ H Ls) as Ns. apply wp_gets, wp_gets. destruct (Nat.eqb_spec (length (by_descriptor d (m_availableTransfers c))) 0) as [La|La].
    + destruct (Nat.ltb_spec 0 (length (by_descriptor d (m_unconfirmedTransfers c)))) as [Lu|Lu].
      { destruct Fine as [[_ [(x & Ix & Dx & _)|Fine]]|HE]; [|destruct Fine; rewrite map_app, in_app_iff; tauto|exact HE].
        assert (0 < length (by_descriptor d (m_availableTransfers c)))%nat by (apply Da; rewrite <- Dx; exact (in_map desc_of _ _ Ix)). lia. }
      run. split; [exact Ns|]. split; [exact H|]. apply List.Forall_forall. intros x I Er. cbn in Er.
      destruct (in_content _ _ _ _ (ae_a _ _ (ho_content _ _ _ _ _ _ H)) I) as (y & J & <-). assert (In y (by_descriptor d (m_availableTransfers c))) as J' by (apply by_descriptor_in; split; assumption).
      rewrite (proj1 (length_zero_iff_nil _) La) in J'. exact J'.
    + destruct (findFirstByAmount amount _) as [x|] eqn:Ef.
      2: { destruct Fine as [[_ [(x & Ix & Dx & Ax)|Fine]]|HE]; [|destruct Fine; rewrite map_app, in_app_iff; right; apply Da; lia|exact HE].
           destruct (in_content _ _ _ _ (ae_a _ _ (ho_content _ _ _ _ _ _ H)) Ix) as (y & J & <-). destruct (find_amount_some amount (by_descriptor d (m_availableTransfers c)) y); [|exact Ax|exact Ef].
           apply by_descriptor_in. split; assumption. }
      apply first_by_amount in Ef as (I & Ex & Mx). apply by_descriptor_in in I as [I D].
      apply wp_assert; [apply bool_decide_eq_true, desc_image, D|]. destruct (content_available _ _ _ _ _ _ H I) as (A0 & P). apply wp_bind, (wp_weaken False); [tauto|].
      eapply wp_mono; [|apply (spend_ok age T a ht c block t i x A0 H I P TT)].
      * intros ? c' H'. cbv beta in H'. rewrite D in H'. apply wp_bind, (wp_weaken False); [tauto|]. eapply wp_mono; [|exact (update_ok _ _ _ _ _ _ H')].
        intros ? c'' H''. cbv beta in H''. run. split; [exact Ns|]. exists (strip x), A0. split; [exact P|]. split; [split; assumption|]. split; [|exact H''].
        intros y J [Dy Ey]. assert (In y (a_available a)) as J' by (rewrite P; right; exact J).
        destruct (in_content _ _ _ _ (ae_a _ _ (ho_content _ _ _ _ _ _ H)) J') as (y' & J2 & <-). apply (Mx y'); [apply by_descriptor_in; split; assumption|exact Ey].
      * cbv beta. rewrite D. exact Ns.
  - apply wp_gets. set (d := ByIndex amount index). destruct (by_descriptor d (m_availableTransfers c)) as [|x l] eqn:B.
    + run. split; [exact Logic.I|]. split; [exact H|]. apply List.Forall_forall. intros x I Er. cbn in Er.
      destruct (in_content _ _ _ _ (ae_a _ _ (ho_content _ _ _ _ _ _ H)) I) as (y & J & <-). assert (In y (by_descriptor d (m_availableTransfers c))) as J' by (apply by_descriptor_in; split; assumption).
      rewrite B in J'. exact J'.
    + assert (In x (by_descriptor d (m_availableTransfers c))) as I by (rewrite B; left; reflexivity). apply by_descriptor_in in I as [I D].
      destruct (content_available _ _ _ _ _ _ H I) as (A0 & P).
      assert (~ In d (map desc_of (A0 ++ map sp_ex (a_spent a)))) as N.
      { rewrite <- D. apply (multisig_unique T (a_transactions a) (a_unconfirmed a) _ _ (strip x)); [|apply (desc_index _ amount index), D].
        eapply outputs_perm; [|apply H]. constructor; parts; try reflexivity. exact P. }
      rewrite map_app, in_app_iff, map_map in N.
      apply wp_bind, (wp_weaken False); [tauto|]. eapply wp_mono; [|apply (spend_ok age T a ht c block t i x A0 H I P TT); cbv beta; rewrite D; tauto].
      intros ? c' H'. cbv beta in H'. rewrite D in H'. run. split; [exact Logic.I|]. exists (strip x), A0. split; [exact P|]. split; [exact D|]. split; [|exact (holds_index _ _ _ _ _ _ H')].
      intros y J Dy. exfalso. apply N. left. cbn in Dy. apply in_map_iff. exists y. split; assumption.
Qed.

(** What the inputs [ins], the first of which is number [i], did. *)
Record inputs_done (T : bytes -> Z -> Prop) (a : account) (ht : Z) (block : TransactionBlockInfo) (t : Transaction) (i : nat) (ins : list TransactionInput)
    (D : list SpentTransactionOutput) (c' : container) : Prop := {
  id_new : Forall (fun s => spendingBlock s = block /\ spendingTransactionHash s = getObjectHash t /\
    exists j input, ins !! j = Some input /\ inputInTransaction s = u32 (Z.of_nat (i + j)) /\ spends input s) D;
  id_all : forall input, In input ins -> (exists x, In x (a_available a) /\ refers input x) -> exists s, In s D /\ spends input (sp_ex s);
  id_not_spent : Forall (not_spent a) ins;
  id_holds : exists A0, a_available a ≡ₚ map sp_ex D ++ A0 /\ holds T None (mk_account (a_transactions a) (a_unconfirmed a) A0 (D ++ a_spent a)) ht c'
}.

Definition nonempty {A} (l : list A) : bool := match l with [] => false | _ => true end.

(** One input, then the others. *)
Lemma inputs_step T a ht block t i input ins x A0 D c' : a_available a ≡ₚ x :: A0 -> spends input x -> not_spent a input ->
  let s := mk_spent x block (getObjectHash t) (u32 (Z.of_nat i)) in
  inputs_done T (mk_account (a_transactions a) (a_unconfirmed a) A0 (s :: a_spent a)) ht block t (S i) ins D c' ->
  inputs_done T a ht block t i (input :: ins) (s :: D) c'.
Proof.
  intros P Sx Ns s [N C F (A1 & P1 & H1)]. constructor.
  - constructor.
    + split; [reflexivity|]. split; [reflexivity|]. exists 0%nat, input. split; [reflexivity|]. split; [cbn; rewrite Nat.add_0_r; reflexivity|exact Sx].
    + apply (Forall_impl _ _ _ N). intros s' (E1 & E2 & j & inp & Ej & Ei & Es). split; [exact E1|]. split; [exact E2|]. exists (S j), inp.
      split; [exact Ej|]. split; [rewrite Ei; do 2 f_equal; lia|exact Es].
  - intros inp [<-|I] (y & J & Ry); [exists s; split; [left; reflexivity|exact Sx]|]. rewrite P in J. destruct J as [<-|J].
    + destruct inp as [z|amount offsets image|amount n index term]; cbn in Ry; [destruct Ry| |exists s; split; [left; reflexivity|exact Ry]].
      rewrite List.Forall_forall in F. destruct (F _ I). left. exact Ry.
    + destruct (C inp I) as (s' & I' & Es); [exists y; split; assumption|]. exists s'. split; [right; exact I'|exact Es].
  - constructor; [exact Ns|]. apply (Forall_impl _ _ _ F). intros inp. destruct inp; cbn; tauto.
  - exists A1. parts. split; [rewrite P; cbn; rewrite P1; reflexivity|]. eapply holds_equiv; [|exact H1]. constructor; parts; try reflexivity. symmetry. apply Permutation_middle.
Qed.

Definition images (ins : list TransactionInput) : list bytes := flat_map (fun input => match input with KeyInput _ _ image => [image] | _ => [] end) ins.

Record inputs_fine (a : account) (ins : list TransactionInput) : Prop := {
  if_images : List.NoDup (images ins);
  if_inputs : Forall (input_fine a) ins
}.

Lemma inputs_fine_skip a input ins : inputs_fine a (input :: ins) -> inputs_fine a ins.
Proof.
  intros [N F]. apply list.Forall_cons in F as [_ F]. split; [|exact F]. unfold images in *. cbn in N. apply nodup_app in N as (_ & N & _). exact N.
Qed.

(** Spending the output of one input leaves the others fine. *)
Lemma inputs_fine_spend a input ins x A0 s : inputs_fine a (input :: ins) -> spends input x -> a_available a ≡ₚ x :: A0 -> sp_ex s = x ->
  inputs_fine (mk_account (a_transactions a) (a_unconfirmed a) A0 (s :: a_spent a)) ins.
Proof.
  intros [N F] Sx P Es. apply list.Forall_cons in F as [_ F]. unfold images in N. cbn in N. apply nodup_app in N as (_ & N & D). split; [exact N|].
  rewrite List.Forall_forall in *. intros inp I. specialize (F inp I). destruct inp as [z|amount offsets image|amount n index term]; cbn in *; [exact Logic.I| |exact Logic.I].
  assert (getSpentOutputDescriptor x <> ByKeyImage image) as Nx.
  { intros E. destruct input as [z|amount' offsets' image'|amount' n' index' term']; cbn in Sx; [exact Sx| |congruence]. destruct Sx as [Dx _]. apply (D image'); [left; reflexivity|].
    apply in_flat_map. exists (KeyInput amount offsets image). split; [exact I|]. left. congruence. }
  destruct F as [Ns F]. split.
  - intros [J|J]; [rewrite Es in J; exact (Nx J)|exact (Ns J)].
  - destruct F as [(y & J & Dy & Ay)|F]; [left|right].
    + exists y. rewrite P in J. destruct J as [<-|J]; [congruence|auto].
    + intros J. apply F. rewrite map_app, in_app_iff in *. destruct J as [J|J]; [left; exact J|right]. rewrite P. right. exact J.
Qed.

Lemma transfer_inputs_ok E T ht block t : T (getObjectHash t) (tb_height block) -> forall ins i r a c, inputs_fine a ins \/ E -> holds T None a ht c ->
  wp E (fun r' c' => exists D, r' = r || nonempty D /\ inputs_done T a ht block t i ins D c') (add_inputs block t i ins r c).
Proof.
  intros TT. induction ins as [|input ins IH]; intros i r a c Fine H; cbn [add_inputs].
  - run. exists []. rewrite orb_false_r. split; [reflexivity|]. constructor; [constructor|intros ? []|constructor|]. exists (a_available a). split; [reflexivity|].
    destruct a. exact H.
  - assert (input_fine a input \/ E) as Fi by (destruct Fine as [[_ F]|HE]; [left; apply list.Forall_cons in F; apply F|right; exact HE]).
    apply wp_bind. eapply wp_mono; [|exact (add_input_ok E T a ht c block t i input Fi H TT)]. intros [] c1 [Ns Hd].
    + destruct Hd as (x & A0 & P & Sx & _ & H1). assert (inputs_fine (mk_account (a_transactions a) (a_unconfirmed a) A0 (mk_spent x block (getObjectHash t) (u32 (Z.of_nat i)) :: a_spent a)) ins \/ E) as F2.
      { destruct Fine as [Fine|HE]; [left|right; exact HE]. eapply inputs_fine_spend; [exact Fine|exact Sx|exact P|reflexivity]. }
      eapply wp_mono; [|exact (IH (S i) (r || true) _ c1 F2 H1)]. intros r' c2 (D & -> & ID).
      exists (mk_spent x block (getObjectHash t) (u32 (Z.of_nat i)) :: D). split; [destruct r; reflexivity|]. exact (inputs_step _ _ _ _ _ _ _ _ _ _ _ _ P Sx Ns ID).
    + destruct Hd as [H1 F]. assert (inputs_fine a ins \/ E) as F2 by (destruct Fine as [Fine|HE]; [left; exact (inputs_fine_skip _ _ _ Fine)|right; exact HE]).
      eapply wp_mono; [|exact (IH (S i) (r || false) _ c1 F2 H1)]. intros r' c2 (D & -> & [N C Fn Hh]). exists D. split; [destruct r; reflexivity|].
      constructor; [|intros inp [<-|I] (y & J & Ry)| |exact Hh].
      * apply (Forall_impl _ _ _ N). intros s' (E1 & E2 & j & inp & Ej & Ei & Es). split; [exact E1|]. split; [exact E2|]. exists (S j), inp.
        split; [exact Ej|]. split; [rewrite Ei; do 2 f_equal; lia|exact Es].
      * rewrite List.Forall_forall in F. destruct (F y J Ry).
      * exact (C inp I (ex_intro _ y (conj J Ry))).
      * constructor; assumption.
Qed.

(** ** [addTransaction] *)

(** What the caller knows of a transaction it adds: the transfers are outputs of it, and blocks come in the order of heights. *)
Record new_transaction (a : account) (block : TransactionBlockInfo) (t : Transaction) (transfers : list TransactionOutputInformationIn) : Prop := {
  nt_transfers : Forall (fun tr => own tr = true -> transfer_ok t tr) transfers;
  nt_indices : List.NoDup (map outputInTransaction (map in_info (List.filter own transfers)));
  nt_extra : Forall byte (extra t);
  nt_height : 0 <= tb_height block <= UNCONFIRMED;
  nt_order : Forall (fun ti => ti_blockHeight ti <> UNCONFIRMED -> ti_blockHeight ti <= tb_height block) (a_transactions a)
}.

Lemma holds_retype T T' d a ht c : holds T d a ht c -> outputs_ok T' a -> holds T' d a ht c.
Proof. intros [Eh Ec O J V X] O'. constructor; assumption. Qed.

Lemma holds_infos T d a ht c l : holds T d a ht c -> holds T d (with_infos l a) ht (with_transactions l c).
Proof.
  intros [Eh [Pt Pu Pa Ps] O [J J'] V X]. constructor; try assumption; [constructor; try assumption; reflexivity| |split; assumption].
  destruct O as [K HU HA HS OO XX]. constructor; assumption.
Qed.

Lemma known_mono l l' h z : (forall t, In t l -> In t l') -> known l h z -> known l' h z.
Proof. intros I (t & J & E). exists t. split; [exact (I t J)|exact E]. Qed.

Lemma outputs_mono (T T' : bytes -> Z -> Prop) a : (forall h z, T h z -> T' h z) -> outputs_ok T a -> outputs_ok T' a.
Proof.
  intros M O. eapply (outputs_narrow T T' (fun _ => True)); [exact O|auto|..]; apply List.Forall_forall; intros; exact Logic.I.
Qed.

(** Outputs belong to known transactions. *)
Lemma output_known a x : outputs_ok (known (a_transactions a)) a -> In x (a_unconfirmed a ++ a_available a ++ map sp_ex (a_spent a)) ->
  known (a_transactions a) (o_transactionHash x) (ex_blockHeight x).
Proof.
  intros [_ HU HA HS _ _] I. rewrite List.Forall_forall in *. rewrite !in_app_iff in I. destruct I as [I|[I|I]].
  - destruct (HU x I) as (-> & _ & K). exact K.
  - destruct (HA x I) as (_ & _ & K). exact K.
  - apply in_map_iff in I as (s & <- & I). destruct (HS s I) as [(_ & _ & K) _]. exact K.
Qed.

Lemma known_in l h z : known l h z -> In h (map ti_transactionHash l).
Proof. intros (t & I & <- & _). apply in_map, I. Qed.

(** The content after a transaction was added. *)
Lemma added_ok a info block t xs D A0 : account_ok a -> ~ In (ti_transactionHash info) (map ti_transactionHash (a_transactions a)) ->
  ti_transactionHash info = getObjectHash t -> ti_blockHeight info = tb_height block -> tb_height block <= UNCONFIRMED ->
  Forall (fun ti => ti_blockHeight ti <> UNCONFIRMED -> ti_blockHeight ti <= tb_height block) (a_transactions a) ->
  Forall (fun s => spendingTransactionHash s = getObjectHash t) D -> Forall (fun x => hash_of x = getObjectHash t) xs ->
  a_available (add_received block xs a) ≡ₚ map sp_ex D ++ A0 ->
  outputs_ok (known (info_insert info (a_transactions a))) (mk_account (info_insert info (a_transactions a)) (a_unconfirmed (add_received block xs a)) A0 (D ++ a_spent a)) ->
  account_ok (mk_account (info_insert info (a_transactions a)) (a_unconfirmed (add_received block xs a)) A0 (D ++ a_spent a)).
Proof.
  intros [O N HH SH OR] F Eh Et Hb Ho FD Fx PA O'.
  assert (List.NoDup (map ti_transactionHash (info_insert info (a_transactions a)))) as N' by (rewrite info_insert_perm; cbn; constructor; assumption).
  constructor; cbn [a_transactions]; [exact O'|exact N'| |apply info_insert_sorted, SH|].
  - rewrite info_insert_perm. constructor; [congruence|exact HH].
  - intros s l1 l2 I. cbn [a_transactions a_spent] in *. revert l1 l2. fold (spent_in_order (info_insert info (a_transactions a)) s). apply in_app_iff in I as [I|I].
    + rewrite List.Forall_forall in FD. apply order_new; [exact N'|rewrite (FD s I), Eh; reflexivity|exact SH|].
      assert (In (sp_ex s) (a_available (add_received block xs a))) as J by (rewrite PA; apply in_app_iff; left; apply in_map, I).
      pose proof (ok_spent _ _ O') as HS. rewrite List.Forall_forall in HS. destruct (HS s) as [(X1 & _ & _) _]; [apply in_app_iff; left; exact I|].
      assert (In (sp_ex s) (a_available a) \/ In (sp_ex s) xs) as J'.
      { unfold add_received in J. destruct (unconfirmed_block block); cbn in J; [left; exact J|]. apply in_app_iff in J. exact J. }
      destruct J' as [J'|J']; [right|left; rewrite List.Forall_forall in Fx; rewrite (Fx _ J'); congruence].
      destruct (output_known a (sp_ex s) O) as (ti & Iti & E1 & E2); [rewrite !in_app_iff; auto|].
      exists ti. split; [exact Iti|]. split; [exact E1|]. rewrite List.Forall_forall in Ho. rewrite Et. apply Ho; [exact Iti|congruence].
    + apply order_insert; [exact F| |intros l1 l2; exact (OR s l1 l2 I)]. intros E. apply F. rewrite <- E.
      apply (known_in _ _ (ex_blockHeight s)), (output_known a (sp_ex s) O). rewrite !in_app_iff. right. right. apply in_map, I.
Qed.

(** The outputs [xs] of the transaction [info] are received and the outputs [D] spent by it. *)
Record transaction_added (a : account) (block : TransactionBlockInfo) (t : Transaction) (xs : list TransactionOutputInformationEx) (D : list SpentTransactionOutput)
    (info : TransactionInformation) (a' : account) : Prop := {
  ta_hash : ti_transactionHash info = getObjectHash t;
  ta_block : ti_blockHeight info = tb_height block;
  ta_transactions : a_transactions a' = info_insert info (a_transactions a);
  ta_unconfirmed : a_unconfirmed a' = a_unconfirmed (add_received block xs a);
  ta_available : a_available (add_received block xs a) ≡ₚ map sp_ex D ++ a_available a';
  ta_spent : a_spent a' = D ++ a_spent a;
  ta_inputs : Forall (fun s => spendingBlock s = block /\ spendingTransactionHash s = getObjectHash t /\
    exists j input, inputs t !! j = Some input /\ inputInTransaction s = u32 (Z.of_nat j) /\ spends input s) D;
  ta_all : forall input, In input (inputs t) -> (exists x, In x (a_available (add_received block xs a)) /\ refers input x) -> exists s, In s D /\ spends input (sp_ex s)
}.

Definition height_after (block : TransactionBlockInfo) (ht : Z) : Z := if unconfirmed_block block then ht else tb_height block.
Definition unlocked_after (block : TransactionBlockInfo) (ht : Z) (a : account) : list TransactionOutputInformation :=
  if unconfirmed_block block then [] else map info_of (List.filter (unlocks_between age (reported ht) (tb_height block + 1)) (a_available a)).

(** The end of [addTransaction]. *)
Lemma add_finish a ht c block (added : bool) : represents c a -> m_currentHeight c = ht -> 0 <= ht <= tb_height block -> tb_height block <= UNCONFIRMED ->
  wp False (fun (r : bool * list TransactionOutputInformation) c' => r.1 = added /\ represents c' a /\ m_currentHeight c' = height_after block ht /\ r.2 ≡ₚ unlocked_after block ht a)
    ((if negb (unconfirmed_block block) then finishedJobs <-- doAdvanceHeight (tb_height block) ;; ret (added, finishedJobs) else ret (added, [])) c).
Proof.
  intros [H OK] Eh Hh Hb. unfold height_after, unlocked_after. destruct (Z.eqb_spec (tb_height block) UNCONFIRMED) as [Eb|Nb]; cbn [negb].
  - run. split; [reflexivity|]. split; [split; assumption|]. split; [exact Eh|reflexivity].
  - apply wp_bind. rewrite Eh in H. pose proof (advance_ok age _ _ _ _ (tb_height block) H ltac:(lia) ltac:(lia)) as W.
    destruct (doAdvanceHeight (tb_height block) c) as [|e c'|os c']; cbn in W; [exact W|lia|]. destruct W as (_ & -> & P). run. cbn [fst snd].
    split; [reflexivity|]. split; [|split; [reflexivity|exact P]]. split; [|exact OK]. exact (with_height_holds _ _ _ _ _ _ _ H).
Qed.

Lemma add_information_ok T d a ht c block t messages id : holds T d a ht c -> Forall byte (extra t) -> ~ In (getObjectHash t) (map ti_transactionHash (a_transactions a)) ->
  exists info, ti_transactionHash info = getObjectHash t /\ ti_blockHeight info = tb_height block /\
    add_information block t messages id c = Done tt (with_transactions (info_insert info (a_transactions a)) c).
Proof.
  intros H B F. destruct (parse_total (extra t) B) as (r & fields' & E). pose proof (ae_t _ _ (ho_content _ _ _ _ _ _ H)) as Et. cbn in Et.
  unfold add_information, getTransactionPublicKeyFromExtra, index_payment_id. rewrite E. cbn [obind]. run. rewrite Et. unfold emplace_transaction, find_transaction.
  cbn [ti_transactionHash information]. rewrite (proj1 (find_key_none ti_transactionHash _ _) F). eexists. split; [|split; [|reflexivity]]; reflexivity.
Qed.

Lemma received_fresh a t block transfers tr : outputs_ok (known (a_transactions a)) a -> ~ In (getObjectHash t) (map ti_transactionHash (a_transactions a)) ->
  ~ In (getObjectHash t, outputInTransaction (in_info tr)) (keys a) /\ Forall (fun x => hash_of x = getObjectHash t) (received block t transfers).
Proof.
  intros O F. split.
  - intros I. apply in_map_iff in I as (x & E & I). apply F. injection E as E _. rewrite <- E. exact (known_in _ _ _ (output_known a x O I)).
  - apply Forall_map, List.Forall_forall. reflexivity.
Qed.

Lemma received_none block t transfers : existsb own transfers = false -> received block t transfers = [].
Proof. unfold received. induction transfers as [|tr l IH]; [reflexivity|]. cbn. destruct (own tr); [discriminate|exact IH]. Qed.

(** When no exception is thrown. *)
Record addition_fine (a : account) (ht : Z) (block : TransactionBlockInfo) (t : Transaction) (transfers : list TransactionOutputInformationIn) : Prop := {
  af_height : ht <= tb_height block;
  af_new : ~ In (getObjectHash t) (map ti_transactionHash (a_transactions a));
  af_outputs : outputs_fine a block t transfers;
  af_inputs : inputs_fine (add_received block (received block t transfers) a) (inputs t)
}.

Lemma container_add_ok E a c block t transfers messages id : addition_fine a (m_currentHeight c) block t transfers \/ E -> represents c a -> new_transaction a block t transfers -> 0 <= m_currentHeight c ->
  wp E (fun (r : bool * list TransactionOutputInformation) c' => m_currentHeight c <= tb_height block /\ ~ In (getObjectHash t) (map ti_transactionHash (a_transactions a)) /\
    exists a', represents c' a' /\ m_currentHeight c' = height_after block (m_currentHeight c) /\ r.2 ≡ₚ unlocked_after block (m_currentHeight c) a' /\
    if r.1 then exists D info, r.1 = existsb own transfers || nonempty D /\ transaction_added a block t (received block t transfers) D info a'
    else a' = a /\ existsb own transfers = false /\ Forall (fun input => Forall (fun x => ~ refers input x) (a_available a)) (inputs t))
    (addTransaction age block t transfers messages id c).
Proof.
  intros Fine [H OK] [F N B Hb Ho] Hc. unfold addTransaction. apply wp_gets. destruct (Z.ltb_spec (tb_height block) (m_currentHeight c)) as [L|L]; [destruct Fine as [[Fh _ _ _]|HE]; [lia|exact HE]|].
  pose proof (ae_t _ _ (ho_content _ _ _ _ _ _ H)) as Et. cbn in Et. rewrite Et. destruct (find_transaction _ _) as [ti|] eqn:Ef.
  { destruct Fine as [[_ Fn _ _]|HE]; [|exact HE]. apply find_transaction_spec in Ef as [I Ei]. destruct Fn. rewrite <- Ei. apply in_map, I. }
  apply (find_key_none ti_transactionHash) in Ef. set (h := getObjectHash t) in *. set (xs := received block t transfers).
  set (T := fun k z => known (a_transactions a) k z \/ (k = h /\ z = tb_height block)).
  assert (holds T None a (m_currentHeight c) c) as HT by (eapply holds_retype; [exact H|]; eapply outputs_mono; [|apply OK]; left; assumption).
  assert (T h (tb_height block)) as TT by (right; split; reflexivity).
  apply wp_bind. eapply wp_mono; [|apply (add_outputs_ok E T _ block t transfers TT false a c ltac:(destruct Fine as [[_ _ Fo _]|HE]; [left; exact Fo|right; exact HE]) HT F N); intros tr _; apply (received_fresh a t block transfers tr (ok_outputs _ OK) Ef)].
  intros ro c1 [-> H1]. fold xs in H1. apply wp_bind. unfold addTransactionInputs.
  eapply wp_mono; [|exact (transfer_inputs_ok E T _ block t TT (inputs t) 0%nat false _ c1 ltac:(destruct Fine as [[_ _ _ Fi]|HE]; [left; exact Fi|right; exact HE]) H1)]. intros ri c2 (D & -> & [ID1 ID2 _ (A0 & PA & H2)]). rewrite !orb_false_l.
  change (a_transactions (add_received block xs a)) with (a_transactions a) in H2. change (a_spent (add_received block xs a)) with (a_spent a) in H2.
  apply wp_bind. destruct (existsb own transfers || nonempty D) eqn:Added.
  - destruct (add_information_ok _ _ _ _ c2 block t messages id H2 B Ef) as (info & Eh & Eb & ->). fields.
    set (a' := mk_account (info_insert info (a_transactions a)) (a_unconfirmed (add_received block xs a)) A0 (D ++ a_spent a)).
    assert (holds (known (a_transactions a')) None a' (m_currentHeight c) (with_transactions (info_insert info (a_transactions a)) c2)) as H3.
    { pose proof (holds_infos _ _ _ _ _ (info_insert info (a_transactions a)) H2) as H3. eapply holds_retype; [exact H3|]. eapply outputs_mono; [|apply H3].
      intros k z [K|[-> ->]]; [revert K; apply known_mono; intros y I; cbn; rewrite info_insert_perm; right; exact I|]. exists info. cbn.
      split; [rewrite info_insert_perm; left; reflexivity|]. split; assumption. }
    assert (account_ok a') as OK'.
    { apply (added_ok a info block t xs); [exact OK|rewrite Eh; exact Ef|exact Eh|exact Eb|lia|exact Ho| |exact (proj2 (received_fresh a t block transfers (mk_in (mk_output_info (KeyData []) 0 0 0 [] [] 0) []) (ok_outputs _ OK) Ef))|exact PA|apply H3].
      apply (Forall_impl _ _ _ ID1). intros s (_ & Es & _). exact Es. }
    pose proof (ho_height _ _ _ _ _ _ H3) as Eh3. apply (wp_weaken False); [tauto|].
    assert (represents (with_transactions (info_insert info (a_transactions a)) c2) a') as R3 by (split; [rewrite Eh3; exact H3|exact OK']).
    eapply wp_mono; [|apply (add_finish a' (m_currentHeight c) _ block true); [exact R3|exact Eh3|lia|lia]].
    intros [r os] c' (Er & R' & Eh' & Po). cbn [fst snd] in *. subst r. split; [exact L|]. split; [exact Ef|]. exists a'. split; [exact R'|]. split; [exact Eh'|]. split; [exact Po|].
    exists D, info. split; [symmetry; exact Added|]. constructor; try assumption; try reflexivity.
  - apply orb_false_iff in Added as [An Ad]. destruct D as [|s D]; [|discriminate Ad]. cbn [map app] in PA, H2.
    assert (xs = []) as Ex by exact (received_none block t transfers An).
    fold xs in PA, H2, ID2. rewrite Ex, add_received_nil in PA, H2, ID2. run. apply (wp_weaken False); [tauto|].
    assert (holds T None a (m_currentHeight c) c2) as H2' by (eapply holds_equiv; [|exact H2]; constructor; parts; try reflexivity; symmetry; exact PA).
    assert (represents c2 a) as R2 by (split; [|exact OK]; rewrite (ho_height _ _ _ _ _ _ H2'); exact (holds_retype _ _ _ _ _ _ H2' (ok_outputs _ OK))).
    pose proof (add_finish a (m_currentHeight c) c2 block false R2 (ho_height _ _ _ _ _ _ H2') ltac:(lia) ltac:(lia)) as W. eapply wp_mono; [|exact W].
    intros [r os] c' (Er & R' & Eh' & Po). cbn [fst snd] in *. subst r. split; [exact L|]. split; [exact Ef|]. exists a. split; [exact R'|]. split; [exact Eh'|]. split; [exact Po|].
    split; [reflexivity|]. split; [exact An|]. apply List.Forall_forall. intros input I. apply List.Forall_forall. intros x J Rx.
    destruct (ID2 input I) as (s & [] & _). exists x. split; assumption.
Qed.

(** ** [markTransactionConfirmed] *)

Definition index_in (globalIndices : list Z) (x : TransactionOutputInformationEx) : Z := default 0 (globalIndices !! Z.to_nat (outputInTransaction x)).
Definition respent (block : TransactionBlockInfo) (s : SpentTransactionOutput) : SpentTransactionOutput :=
  mk_spent (sp_ex s) block (spendingTransactionHash s) (inputInTransaction s).

(** The outputs to confirm have indices, and the multisignature outputs among them are new one after the other. *)
Record confirms_fine (A : list TransactionOutputInformationEx) (S : list SpentTransactionOutput) (block : TransactionBlockInfo) (globalIndices : list Z) (R : list TransactionOutputInformationEx) : Prop := {
  cf_index : Forall (fun x : TransactionOutputInformationEx => exists g, globalIndices !! Z.to_nat (outputInTransaction x) = Some g) R;
  cf_new : List.NoDup (map desc_of (List.filter is_multisig (map (fun x => confirmed block (index_in globalIndices x) x) R ++ A ++ map sp_ex S)))
}.

Lemma confirms_fine_cons t U A S block globalIndices x R : confirms_fine A S block globalIndices (x :: R) ->
  confirm_fine (mk_account t U A S) block globalIndices x /\ confirms_fine (confirmed block (index_in globalIndices x) x :: A) S block globalIndices R.
Proof.
  intros [Fi Fn]. apply list.Forall_cons in Fi as [(g & Eg) Fi]. cbn [map app] in Fn. split.
  - exists g. split; [exact Eg|]. unfold index_in in Fn at 1. rewrite Eg in Fn. cbn [default from_option id] in Fn. set (y := confirmed block g x) in *. intros K I. parts.
    cbn [List.filter] in Fn. rewrite K in Fn. cbn [negb map] in Fn. apply NoDup_cons_iff in Fn as [N _]. apply N. apply in_map_iff in I as (z & E & I). rewrite <- E.
    apply (in_map desc_of), List.filter_In. split; [apply in_app_iff; right; exact I|]. unfold getSpentOutputDescriptor, is_key in *. destruct (o_union y); [discriminate|].
    destruct (o_union z); [discriminate|reflexivity].
  - split; [exact Fi|]. eapply Permutation_NoDup; [|exact Fn]. apply Permutation_map, filter_perm. cbn [app]. apply Permutation_middle.
Qed.

Lemma confirm_outputs_ok E T t S ht K block globalIndices h : tb_height block <> UNCONFIRMED ->
  Forall (fun g => g <> UNCONFIRMED_TRANSACTION_GLOBAL_OUTPUT_INDEX) globalIndices -> T h (tb_height block) ->
  forall R A c, confirms_fine A S block globalIndices R \/ E -> Forall (fun x => hash_of x = h) R -> holds T None (mk_account t (R ++ K) A S) ht c ->
  wp E (fun _ => holds T None (mk_account t K (A ++ map (fun x => confirmed block (index_in globalIndices x) x) R) S) ht)
    (iterate (confirm_output age block globalIndices) (map key_of R) c).
Proof.
  intros Nb Fg Th. induction R as [|x R IH]; intros A c Fine F H; cbn [map iterate]; [rewrite app_nil_r; exact H|]. apply list.Forall_cons in F as [Fx F].
  assert ((confirm_fine (mk_account t ((x :: R) ++ K) A S) block globalIndices x \/ E) /\ (confirms_fine (confirmed block (index_in globalIndices x) x :: A) S block globalIndices R \/ E)) as [F0 F1].
  { destruct Fine as [Fine|HE]; [destruct (confirms_fine_cons t ((x :: R) ++ K) _ _ _ _ _ _ Fine); auto|auto]. }
  apply wp_bind.
  eapply wp_mono; [|apply (confirm_output_ok age E T _ ht c x (R ++ K) block globalIndices F0 H); [reflexivity|exact Nb|exact Fg|rewrite Fx; exact Th]].
  intros ? c1 (g & Eg & H1). replace g with (index_in globalIndices x) in H1 by (unfold index_in; rewrite Eg; reflexivity). eapply wp_mono; [|exact (IH _ _ F1 F H1)]. intros ? c2 H2. eapply holds_equiv; [|exact H2]. constructor; parts; try reflexivity.
  cbn. apply Permutation_middle.
Qed.

Lemma confirm_spendings_ok T t U A ht block h : T h (tb_height block) ->
  forall R K c, Forall (fun s => spendingTransactionHash s = h /\ tb_height (spendingBlock s) = UNCONFIRMED) R -> holds T None (mk_account t U A (R ++ K)) ht c ->
  wp False (fun _ => holds T None (mk_account t U A (map (respent block) R ++ K)) ht) (iterate (confirm_spending block) (map spent_key R) c).
Proof.
  intros Th. induction R as [|s R IH]; intros K c F H; cbn [map iterate]; [exact H|]. apply list.Forall_cons in F as [[Es Eu] F]. apply wp_bind.
  eapply wp_mono; [|apply (confirm_spending_ok age T _ ht c s (R ++ K) block H); [reflexivity|exact Eu|rewrite Es; exact Th]].
  intros ? c1 H1. parts. eapply wp_mono; [|apply (IH (respent block s :: K) c1 F); eapply holds_equiv; [|exact H1]; constructor; parts; try reflexivity; apply Permutation_middle].
  intros ? c2 H2. eapply holds_equiv; [|exact H2]. constructor; parts; try reflexivity. symmetry. apply Permutation_middle.
Qed.

Definition confirm_spent (block : TransactionBlockInfo) (h : bytes) (s : SpentTransactionOutput) : SpentTransactionOutput :=
  if among [h] (spendingTransactionHash s) then respent block s else s.

(** The content after the transaction [info] was confirmed. *)
Definition confirm_account (block : TransactionBlockInfo) (globalIndices : list Z) (info : TransactionInformation) (a : account) : account :=
  let h := ti_transactionHash info in mk_account
  (info_insert (set_block block info) (erase_transaction h (a_transactions a)))
  (List.filter (fun x : TransactionOutputInformationEx => negb (among [h] (o_transactionHash x))) (a_unconfirmed a))
  (a_available a ++ map (fun x => confirmed block (index_in globalIndices x) x)
    (List.filter (fun x : TransactionOutputInformationEx => among [h] (o_transactionHash x)) (a_unconfirmed a)))
  (map (confirm_spent block h) (a_spent a)).

Lemma confirm_spent_perm block h R K : Forall (fun s => spendingTransactionHash s = h) R -> Forall (fun s => spendingTransactionHash s <> h) K ->
  map (confirm_spent block h) (R ++ K) = map (respent block) R ++ K.
Proof.
  intros FR FK. rewrite map_app. f_equal.
  - apply map_ext_in. intros s I. unfold confirm_spent. rewrite List.Forall_forall in FR. rewrite among_one, bool_decide_true by (apply FR, I). reflexivity.
  - rewrite <- (map_id K) at 2. apply map_ext_in. intros s I. unfold confirm_spent. rewrite List.Forall_forall in FK. rewrite among_one, bool_decide_false by (apply FK, I). reflexivity.
Qed.

(** An unconfirmed transaction spends at an unconfirmed height. *)
Lemma spender_height a s z : account_ok a -> In s (a_spent a) -> known (a_transactions a) (spendingTransactionHash s) z -> tb_height (spendingBlock s) = z.
Proof.
  intros OK I K. pose proof (ok_spent _ _ (ok_outputs _ OK)) as HS. rewrite List.Forall_forall in HS. destruct (HS s I) as [_ K'].
  exact (known_unique _ _ _ _ (ok_hashes _ OK) K' K).
Qed.

Lemma confirmed_account_ok a block globalIndices info : account_ok a -> In info (a_transactions a) -> ti_blockHeight info = UNCONFIRMED ->
  0 <= tb_height block < UNCONFIRMED -> Forall (fun ti => ti_blockHeight ti <> UNCONFIRMED -> ti_blockHeight ti <= tb_height block) (a_transactions a) ->
  outputs_ok (fun k z => known (a_transactions a) k z \/ (k = ti_transactionHash info /\ z = tb_height block)) (confirm_account block globalIndices info a) ->
  account_ok (confirm_account block globalIndices info a).
Proof.
  intros OK I Eu Hb Ho O. pose proof OK as [O0 N HH SH OR]. set (h := ti_transactionHash info) in *. set (l := erase_transaction h (a_transactions a)).
  assert (forall k z, known (a_transactions a) k z \/ (k = h /\ z = tb_height block) -> k <> h \/ z <> UNCONFIRMED -> known (info_insert (set_block block info) l) k z) as Nar.
  { intros k z Hk Hd. destruct (decide (k = h)) as [->|Nk].
    - destruct Hk as [K|[_ ->]]; [destruct (Hd); [congruence|]; exfalso; assert (z = UNCONFIRMED) by (apply (known_unique _ h _ _ N K); exists info; auto); congruence|].
      exists (set_block block info). split; [rewrite info_insert_perm; left; reflexivity|]. split; reflexivity.
    - destruct Hk as [(ti & J & E1 & E2)|[E _]]; [|congruence]. exists ti. split; [|split; assumption]. rewrite info_insert_perm. right. unfold l. rewrite erase_without.
      apply in_without. split; [exact J|congruence]. }
  assert (~ In h (map ti_transactionHash l)) as Fl.
  { intros J. apply in_map_iff in J as (y & Ey & J). unfold l in J. rewrite erase_without in J. apply in_without in J as [_ J]. congruence. }
  assert (List.NoDup (map ti_transactionHash (info_insert (set_block block info) l))) as N'.
  { rewrite info_insert_perm. cbn. constructor; [exact Fl|]. apply nodup_map_filter, N. }
  constructor; cbn [a_transactions confirm_account]; fold h l; [|exact N'| | |].
  - destruct O as [K HU HA HS O X]. constructor; try assumption.
    + rewrite List.Forall_forall in *. intros x J. destruct (HU x J) as (X1 & X2 & X3). split; [exact X1|]. split; [exact X2|]. apply Nar; [exact X3|]. left.
      apply in_without in J. apply J.
    + rewrite List.Forall_forall in *. intros x J. destruct (HA x J) as (X1 & X2 & X3). split; [exact X1|]. split; [exact X2|]. apply Nar; [exact X3|right; exact X1].
    + rewrite List.Forall_forall in *. intros s J. destruct (HS s J) as ((X1 & X2 & X3) & X4). split; [split; [exact X1|split; [exact X2|apply Nar; [exact X3|right; exact X1]]]|].
      apply Nar; [exact X4|]. cbn in J. apply in_map_iff in J as (s' & <- & J). unfold confirm_spent. rewrite among_one.
      case_bool_decide as D; [right; cbn; lia|left; exact D].
  - rewrite info_insert_perm. constructor; [cbn; lia|]. apply List.Forall_forall. intros y J. apply List.filter_In in J as [J _]. rewrite List.Forall_forall in HH. exact (HH y J).
  - apply info_insert_sorted, sorted_filter, SH.
  - intros s l1 l2 J. cbn [a_transactions a_spent confirm_account] in J |- *. fold h in J |- *. fold l. revert l1 l2. fold (spent_in_order (info_insert (set_block block info) l) s).
    apply in_map_iff in J as (s' & <- & J). destruct (output_known a (sp_ex s') O0) as (ti & Iti & E1 & E2); [rewrite !in_app_iff; right; right; apply in_map, J|].
    pose proof (ok_spent _ _ O0) as HS0. rewrite List.Forall_forall in HS0. destruct (HS0 s' J) as [(X1 & _ & _) _].
    assert (o_transactionHash s' <> h) as Nh.
    { intros E. apply X1. rewrite <- E2. apply (known_unique _ h _ _ N); [exists ti; split; [exact Iti|]; split; [congruence|reflexivity]|exists info; auto]. }
    unfold confirm_spent. rewrite among_one. case_bool_decide as D.
    + apply order_new; [exact N'|exact D|apply sorted_filter, SH|]. right. exists ti. split; [unfold l; rewrite erase_without; apply in_without; split; [exact Iti|congruence]|]. split; [exact E1|].
      cbn. rewrite List.Forall_forall in Ho. apply Ho; [exact Iti|congruence].
    + apply order_insert; [exact Fl|exact Nh|]. unfold l. rewrite erase_without. apply order_erase; [exact D|]. intros k1 k2. exact (OR s' k1 k2 J).
Qed.

(** When no exception is thrown. *)
Definition confirmation_fine (a : account) (block : TransactionBlockInfo) (h : bytes) (globalIndices : list Z) : Prop :=
  tb_height block <> UNCONFIRMED /\
  confirms_fine (a_available a) (a_spent a) block globalIndices (List.filter (fun x : TransactionOutputInformationEx => among [h] (o_transactionHash x)) (a_unconfirmed a)).

Lemma confirms_fine_perm A S block globalIndices R R' : R ≡ₚ R' -> confirms_fine A S block globalIndices R -> confirms_fine A S block globalIndices R'.
Proof.
  intros P [Fi Fn]. split; [rewrite <- P; exact Fi|]. eapply Permutation_NoDup; [|exact Fn]. apply Permutation_map, filter_perm. rewrite P. reflexivity.
Qed.

Lemma mark_ok E a c block h globalIndices : confirmation_fine a block h globalIndices \/ E -> represents c a -> 0 <= tb_height block <= UNCONFIRMED ->
  Forall (fun g => g <> UNCONFIRMED_TRANSACTION_GLOBAL_OUTPUT_INDEX) globalIndices ->
  Forall (fun ti => ti_blockHeight ti <> UNCONFIRMED -> ti_blockHeight ti <= tb_height block) (a_transactions a) ->
  wp E (fun (r : bool) c' => tb_height block <> UNCONFIRMED /\ m_currentHeight c' = m_currentHeight c /\
    if r then exists info, In info (a_transactions a) /\ ti_transactionHash info = h /\ ti_blockHeight info = UNCONFIRMED /\ represents c' (confirm_account block globalIndices info a)
    else c' = c /\ ~ known (a_transactions a) h UNCONFIRMED) (markTransactionConfirmed age block h globalIndices c).
Proof.
  intros Fine [H OK] Hb Fg Ho. unfold markTransactionConfirmed. destruct (Z.eqb_spec (tb_height block) UNCONFIRMED) as [Eb|Nb]; [destruct Fine as [[Fb _]|HE]; [congruence|exact HE]|].
  apply wp_gets. pose proof (ae_t _ _ (ho_content _ _ _ _ _ _ H)) as Et. cbn in Et. rewrite Et. destruct (find_transaction h (a_transactions a)) as [info|] eqn:Ef.
  2: { run. split; [exact Nb|]. split; [reflexivity|]. split; [reflexivity|]. intros (ti & I & Eh & _). pose proof (find_none _ _ Ef ti I) as D. cbn in D.
       rewrite bool_decide_true in D by exact Eh. discriminate. }
  apply find_transaction_spec in Ef as [I Eh]. destruct (Z.eqb_spec (ti_blockHeight info) UNCONFIRMED) as [Eu|Nu]; cbn [negb].
  2: { run. split; [exact Nb|]. split; [reflexivity|]. split; [reflexivity|]. intros K. apply Nu, (known_unique _ h _ _ (ok_hashes _ OK)); [exists info; auto|exact K]. }
  set (T := fun k z => known (a_transactions a) k z \/ (k = h /\ z = tb_height block)). assert (T h (tb_height block)) as Th by (right; auto).
  set (l := info_insert (set_block block info) (erase_transaction h (a_transactions a))). apply wp_modify, wp_gets, wp_bind.
  assert (holds T None (with_infos l a) (m_currentHeight c) (with_transactions l c)) as H1.
  { apply holds_infos. eapply holds_retype; [exact H|]. eapply outputs_mono; [|apply OK]. left. assumption. }
  destruct a as [txs U A S]. cbn [with_infos a_transactions a_unconfirmed a_available a_spent] in *.
  set (fx := fun x : TransactionOutputInformationEx => bool_decide (o_transactionHash x = h)). set (fs := fun s : SpentTransactionOutput => bool_decide (spendingTransactionHash s = h)).
  pose proof (range_content fx strip _ _ (ae_u _ _ (ho_content _ _ _ _ _ _ H)) (fun _ => eq_refl)) as PU. parts.
  set (R := map strip (arrange (List.filter fx (m_unconfirmedTransfers c)))) in *.
  assert (Forall (fun x => hash_of x = h) R) as FR.
  { apply Forall_map, List.Forall_forall. intros x J. rewrite (arrange_perm _ _) in J. apply List.filter_In in J as [_ J]. apply bool_decide_eq_true in J. exact J. }
  assert (R ≡ₚ List.filter (fun x : TransactionOutputInformationEx => among [h] (o_transactionHash x)) U) as PR.
  { apply (Permutation_app_inv_r (List.filter (fun x => negb (fx x)) U)). rewrite <- PU. rewrite (split_filter fx U) at 1.
    apply Permutation_app_tail, eq_subrelation; [exact _|]. apply filter_ext. intros x. symmetry. apply among_one. }
  assert (confirms_fine A S block globalIndices R \/ E) as FineR by (destruct Fine as [[_ Fine]|HE]; [left; exact (confirms_fine_perm _ _ _ _ _ _ (symmetry PR) Fine)|right; exact HE]).
  replace (map _ (by_transaction h _)) with (map key_of R) by (unfold R; rewrite map_map; reflexivity).
  eapply wp_mono; [|apply (confirm_outputs_ok E T l S (m_currentHeight c) (List.filter (fun x => negb (fx x)) U) block globalIndices h Nb Fg Th R A _ FineR FR); eapply holds_equiv; [|exact H1];
    constructor; parts; try reflexivity; exact PU].
  intros ? c1 H2. cbv beta in H2. apply wp_gets, wp_bind.
  pose proof (range_content fs strip_spent _ _ (ae_s _ _ (ho_content _ _ _ _ _ _ H2)) (fun _ => eq_refl)) as PS. parts.
  set (R2 := map strip_spent (arrange (List.filter fs (m_spentTransfers c1)))) in *. set (K2 := List.filter (fun x => negb (fs x)) S) in *.
  assert (Forall (fun s => spendingTransactionHash s = h) R2) as FR2.
  { apply Forall_map, List.Forall_forall. intros x J. rewrite (arrange_perm _ _) in J. apply List.filter_In in J as [_ J]. apply bool_decide_eq_true in J. exact J. }
  assert (Forall (fun s => spendingTransactionHash s = h /\ tb_height (spendingBlock s) = UNCONFIRMED) R2) as FR2'.
  { rewrite List.Forall_forall in *. intros s J. split; [exact (FR2 s J)|]. apply (spender_height (mk_account txs U A S) s _ OK); [cbn; rewrite PS; apply in_app_iff; left; exact J|].
    rewrite (FR2 s J). exists info. auto. }
  replace (map _ (by_spending h _)) with (map spent_key R2) by (unfold R2; rewrite map_map; reflexivity). apply (wp_weaken False); [tauto|].
  eapply wp_mono; [|apply (confirm_spendings_ok T l (List.filter (fun x => negb (fx x)) U) (A ++ map (fun x => confirmed block (index_in globalIndices x) x) R) (m_currentHeight c) block h Th R2 K2 c1 FR2'); eapply holds_equiv; [|exact H2]; constructor; parts; try reflexivity; exact PS].
  intros ? c2 H3. cbv beta in H3. run. split; [exact Nb|]. split; [exact (ho_height _ _ _ _ _ _ H3)|]. exists info. split; [exact I|]. split; [exact Eh|]. split; [exact Eu|].
  assert (account_equiv (mk_account l (List.filter (fun x => negb (fx x)) U) (A ++ map (fun x => confirmed block (index_in globalIndices x) x) R) (map (respent block) R2 ++ K2))
    (confirm_account block globalIndices info (mk_account txs U A S))) as Ea.
  { unfold confirm_account. rewrite Eh. constructor; parts.
    - reflexivity.
    - apply eq_subrelation; [exact _|]. apply filter_ext. intros x. rewrite among_one. reflexivity.
    - apply Permutation_app_head, Permutation_map, PR.
    - rewrite <- (confirm_spent_perm block h); [rewrite <- PS; reflexivity|exact FR2|]. apply List.Forall_forall. intros s J. apply List.filter_In in J as [_ J].
      apply negb_true_iff, bool_decide_eq_false in J. exact J. }
  pose proof (holds_equiv _ _ _ _ _ _ _ Ea H3) as H4. assert (account_ok (confirm_account block globalIndices info (mk_account txs U A S))) as OK'.
  { apply confirmed_account_ok; [exact OK|exact I|exact Eu|lia|exact Ho|]. rewrite Eh. apply H4. }
  split; [|exact OK']. rewrite (ho_height _ _ _ _ _ _ H4). exact (holds_retype _ _ _ _ _ _ H4 (ok_outputs _ OK')).
Qed.

End Add.
