(* ===== verification/TransfersFormat.v ===== *)
(** * Saving and loading the container of transfers

    [save] and [load] of TransfersContainer.cpp with the [serialize] functions they use
    (TransfersContainer.h, Serialization/SerializationOverloads.cpp), as wires.  The
    serializer has a field for the version of the wallet that its constructor does not set and
    that [save] and [load] set after the first list of transactions: its first value is
    the argument [initial].  A field that the form does not have keeps, after loading, the
    value [stray] of the memory.

    [Restores ok f w]: what [put] writes for a value in [ok] is read back as its image
    under [f].  It is one half of [Lawful], for forms that leave fields out or have
    several forms of one value. *)

From Stdlib Require Import ZArith Lia List Bool Sorted.
From S2P Require Import Prelude Bytes Varint IntUtil Currency TxStore Blockchain Crypto Serialization BlockFormat TransactionExtra TransfersContainer.
From stdpp Require Import gmap list.
Import ListNotations.
Open Scope Z_scope.
Open Scope cmon_scope.
Set Default Goal Selector "!".

(** ** Forms *)

Definition TRANSFERS_CONTAINER_STORAGE_VERSION : Z := 1.
Definition WALLET_VERSION_BM : Z := 3.

(** Written in 32 bits; older files have heights of 64 bits. *)
Definition serializeBlockHeight : wire Z := mk_wire
  (fun blockHeight => put (uint 32) blockHeight)
  (fun stream =>
    '(height, stream) <- get (uint 64) stream ;;
    if height =? 2 ^ 64 - 1 then Some (2 ^ 32 - 1, stream)
    else if 2 ^ 32 - 1 <? height then None
    else Some (height, stream)).
Definition serializeGlobalOutputIndex : wire Z := serializeBlockHeight.

Definition boolean : wire bool := mk_wire
  (fun value : bool => Some [if value then 1 else 0])
  (fun stream => '(v, stream) <- get (binary_uint 1) stream ;; Some (negb (v =? 0), stream)).

(** [writeSequence] and [readSequence] *)
Definition sequence {A} (item : wire A) : wire (list A) := serializeContainer item.

Section Format.
Variable stray : Z.

(** The fields of [TransactionInformation] but the identity. *)
Definition info_fields : Type := bytes * (bytes * (Z * (Z * (Z * (Z * (Z * (bytes * (bytes * list bytes)))))))).
Definition fields_of (t : TransactionInformation) : info_fields :=
  (ti_transactionHash t, (ti_publicKey t, (ti_blockHeight t, (ti_timestamp t, (ti_unlockTime t, (ti_totalAmountIn t, (ti_totalAmountOut t,
    (ti_extra t, (ti_paymentId t, ti_messages t))))))))).
Definition of_fields (f : info_fields) (id : Z) : TransactionInformation :=
  let '(transactionHash, (publicKey, (blockHeight, (timestamp, (unlockTime, (totalAmountIn, (totalAmountOut, (extra, (paymentId, messages))))))))) := f in
  mk_info transactionHash publicKey blockHeight timestamp unlockTime totalAmountIn totalAmountOut extra paymentId messages id.

Definition serialize_fields : wire info_fields :=
  and_then pod32 (fun _ => and_then pod32 (fun _ => and_then serializeBlockHeight (fun _ => and_then (uint 64) (fun _ => and_then (uint 64) (fun _ =>
    and_then (uint 64) (fun _ => and_then (uint 64) (fun _ => and_then (serializeContainer (uint 8)) (fun _ => and_then pod32 (fun _ => serializeContainer blob))))))))).

(** With the identity in the version of wallets with messages. *)
Definition serialize_TransactionInformation (version : Z) : wire TransactionInformation :=
  if version =? WALLET_VERSION_BM then
    object (fun t => (fields_of t, ti_id t)) (fun '(f, id) => of_fields f id) (and_then serialize_fields (fun _ => uint 8))
  else object fields_of (fun f => of_fields f stray) serialize_fields.

Definition output_type (u : output_union) : Z := match u with KeyData _ => 1 | MultisignatureData _ _ => 2 end.

(** The union behind the type.  An output of another type fails the assertion of its descriptor when it is inserted. *)
Definition serialize_union (type : Z) : wire output_union := mk_wire
  (fun u => match u with
    | KeyData outputKey => put pod32 outputKey
    | MultisignatureData requiredSignatures term => put (and_then (uint 32) (fun _ => uint 32)) (requiredSignatures, term)
    end)
  (fun stream =>
    if type =? 1 then '(k, stream) <- get pod32 stream ;; Some (KeyData k, stream)
    else if type =? 2 then
      '(v, stream) <- get (and_then (uint 32) (fun _ => uint 32)) stream ;; let '(requiredSignatures, term) := v in Some (MultisignatureData requiredSignatures term, stream)
    else None).

Definition output_fields : Type := Z * (Z * (Z * (bytes * (bytes * (Z * (Z * (Z * (bytes * bool)))))))).
Definition output_fields_of (x : TransactionOutputInformationEx) : output_fields :=
  (o_amount x, (globalOutputIndex x, (outputInTransaction x, (o_transactionPublicKey x, (keyImage x, (ex_unlockTime x, (ex_blockHeight x,
    (ex_transactionIndex x, (o_transactionHash x, visible x))))))))).
Definition output_of_fields (f : output_fields) (u : output_union) (id : Z) : TransactionOutputInformationEx :=
  let '(amount, (globalOutputIndex, (outputInTransaction, (transactionPublicKey, (keyImage, (unlockTime, (blockHeight, (transactionIndex, (transactionHash, visible))))))))) := f in
  mk_ex (mk_in (mk_output_info u amount globalOutputIndex outputInTransaction transactionHash transactionPublicKey id) keyImage) unlockTime blockHeight transactionIndex visible.

Definition serialize_output_fields : wire output_fields :=
  and_then (uint 64) (fun _ => and_then serializeGlobalOutputIndex (fun _ => and_then (uint 32) (fun _ => and_then pod32 (fun _ => and_then pod32 (fun _ =>
    and_then (uint 64) (fun _ => and_then serializeBlockHeight (fun _ => and_then (uint 32) (fun _ => and_then pod32 (fun _ => boolean))))))))).

Definition serialize_Output : wire TransactionOutputInformationEx :=
  object (fun x : TransactionOutputInformationEx => (output_type (o_union x), (output_fields_of x, o_union x))) (fun '(_, (f, u)) => output_of_fields f u stray)
    (and_then (uint 8) (fun type => and_then serialize_output_fields (fun _ => serialize_union type))).

Definition serialize_TransactionBlockInfo : wire TransactionBlockInfo :=
  object (fun b => (tb_height b, (tb_timestamp b, tb_transactionIndex b))) (fun '(height, (timestamp, transactionIndex)) => mk_block_info height timestamp transactionIndex)
    (and_then serializeBlockHeight (fun _ => and_then (uint 64) (fun _ => uint 32))).

Definition serialize_SpentTransactionOutput : wire SpentTransactionOutput :=
  object (fun s => (sp_ex s, (spendingBlock s, (spendingTransactionHash s, inputInTransaction s)))) (fun '(x, (b, (h, i))) => mk_spent x b h i)
    (and_then serialize_Output (fun _ => and_then serialize_TransactionBlockInfo (fun _ => and_then pod32 (fun _ => uint 32)))).

Definition serialize_TransferUnlockJob : wire TransferUnlockJob :=
  object (fun j => (unlockHeight j, transactionOutputKey j)) (fun '(h, k) => mk_job h k)
    (and_then (uint 32) (fun _ => and_then pod32 (fun _ => uint 32))).

Context {HO : HashOrder}.
Variable age m_wallet_version : Z.

(** ** save *)

Definition save (initial : Z) (c : container) : option bytes :=
  v <- put (uint 32) TRANSFERS_CONTAINER_STORAGE_VERSION ;;
  h <- put (uint 32) (m_currentHeight c) ;;
  transactions <- put (sequence (serialize_TransactionInformation initial)) (arrange (m_transactions c)) ;;
  transactionsBM <- (if m_wallet_version =? WALLET_VERSION_BM
    then put (sequence (serialize_TransactionInformation m_wallet_version)) (arrange (m_transactionsBM c)) else Some []) ;;
  unconfirmed <- put (sequence serialize_Output) (arrange (m_unconfirmedTransfers c)) ;;
  available <- put (sequence serialize_Output) (arrange (m_availableTransfers c)) ;;
  spent <- put (sequence serialize_SpentTransactionOutput) (arrange (m_spentTransfers c)) ;;
  jobs <- put (sequence serialize_TransferUnlockJob) (m_transfersUnlockJobs c) ;;
  Some (v ++ h ++ transactions ++ transactionsBM ++ unconfirmed ++ available ++ spent ++ jobs).

(** ** load *)

(** [std::inserter]: an element with the key of an earlier one is dropped. *)
Definition insert_all {A} (emplace : A -> list A -> option (list A)) (l : list A) : list A := fold_left (fun to x => default to (emplace x to)) l [].

(** The new state; [None] is an exception or a failed assertion, which leaves the container as it was. *)
Definition load (initial : Z) (stream : bytes) : option container :=
  '(version, stream) <- get (uint 32) stream ;;
  if TRANSFERS_CONTAINER_STORAGE_VERSION <? version then None else
  '(currentHeight, stream) <- get (uint 32) stream ;;
  '(transactions, stream) <- get (sequence (serialize_TransactionInformation initial)) stream ;;
  '(transactionsBM, stream) <- (if m_wallet_version =? WALLET_VERSION_BM
    then get (sequence (serialize_TransactionInformation m_wallet_version)) stream else Some ([], stream)) ;;
  '(unconfirmed, stream) <- get (sequence serialize_Output) stream ;;
  '(available, stream) <- get (sequence serialize_Output) stream ;;
  '(spent, stream) <- get (sequence serialize_SpentTransactionOutput) stream ;;
  let availableTransfers := insert_all emplace_output available in
  let spentTransfers := insert_all emplace_spent spent in
  '(jobs, stream) <- (if negb (version =? 0) then '(jobs, stream) <- get (sequence serialize_TransferUnlockJob) stream ;; Some (insert_all emplace_job jobs, stream)
    else Some (rebuildTransfersUnlockJobs age availableTransfers spentTransfers, stream)) ;;
  Some (mk_container (insert_all emplace_transaction transactions) (insert_all emplace_output unconfirmed) availableTransfers spentTransfers jobs
    currentHeight (insert_all emplace_transaction transactionsBM)).

End Format.

(** ** Reading back *)

Definition restores {A} (w : wire A) (x y : A) : Prop :=
  exists bs, put w x = Some bs /\ Forall byte bs /\ forall rest, Forall byte rest -> get w (bs ++ rest) = Some (y, rest).

Class Restores {A} (ok : A -> Prop) (f : A -> A) (w : wire A) : Prop := { put_restores : forall x, ok x -> restores w x (f x) }.

#[export] Instance lawful_restores {A} (ok : A -> Prop) (w : wire A) : Lawful ok w -> Restores ok id w.
Proof. intros L. split. exact put_get. Qed.

Lemma uint_restores w z : 0 < w <= 64 -> 0 <= z < 2 ^ w -> restores (uint w) z z.
Proof. intros Hw Hz. pose proof (uint_lawful w Hw) as U. exact (put_get z Hz). Qed.

Lemma restores_and {A B} (a : wire A) (b : A -> wire B) x x' y y' : restores a x x' -> restores (b x) y y' -> b x' = b x -> restores (and_then a b) (x, y) (x', y').
Proof.
  intros (bs & Ex & Fx & Gx) (cs & Ey & Fy & Gy) Eb. exists (bs ++ cs). cbn [and_then put get]. rewrite Ex, Ey. cbn [obind]. split; [reflexivity|].
  split; [apply list.Forall_app; auto|]. intros rest Fr. rewrite <- app_assoc, Gx by (apply list.Forall_app; auto). cbn [obind]. rewrite Eb, Gy by exact Fr. reflexivity.
Qed.

Lemma restores_object {A B} (fields : A -> B) (make : B -> A) (b : wire B) x y : restores b (fields x) y -> restores (object fields make b) x (make y).
Proof.
  intros (bs & E & F & G). exists bs. cbn [object put get]. split; [exact E|]. split; [exact F|]. intros rest Fr. rewrite G by exact Fr. reflexivity.
Qed.

Lemma restores_items {A} (item : wire A) f l : Forall (fun x => restores item x (f x)) l -> exists bs, put_items item l = Some bs /\ Forall byte bs /\
  forall rest, Forall byte rest -> get_items item (length l) (bs ++ rest) = Some (map f l, rest).
Proof.
  induction 1 as [|x l (b & Ex & Fb & Gx) _ (bs & E & F & G)]; [exists []; auto|]. exists (b ++ bs). cbn [put_items length get_items]. rewrite Ex, E. cbn [obind].
  split; [reflexivity|]. split; [apply list.Forall_app; auto|]. intros rest Fr. rewrite <- app_assoc, Gx by (apply list.Forall_app; auto). cbn [obind].
  rewrite G by exact Fr. reflexivity.
Qed.

#[export] Instance sequence_restores {A} (ok : A -> Prop) f (item : wire A) : Restores ok f item -> Restores (sized ok) (map f) (sequence item).
Proof.
  intros R. split. intros l [F L]. destruct (uint_restores 64 _ ltac:(lia) (size_range _ L)) as (b & E & Fb & G). cbn [uint put] in E. injection E as <-.
  destruct (restores_items item f l) as (bs & El & Fl & Gl); [exact (Forall_impl _ _ _ F put_restores)|].
  exists (writeVarint (Z.of_nat (length l)) ++ bs). unfold sequence. cbn [serializeContainer put get]. rewrite El. cbn [obind].
  split; [reflexivity|]. split; [apply list.Forall_app; auto|]. intros rest Fr. rewrite <- app_assoc, G by (apply list.Forall_app; auto). cbn [obind].
  rewrite (proj2 (Z.ltb_ge _ _)), Nat2Z.id by lia. apply Gl, Fr.
Qed.

(** *** Forms of the container *)

Definition word32 (z : Z) : Prop := 0 <= z < 2 ^ 32.
Definition word64 (z : Z) : Prop := 0 <= z < 2 ^ 64.

Lemma pod_restores h : bytes_n 32 h -> restores pod32 h h.
Proof. intros H. exact (put_get h H). Qed.

Lemma height_restores h : word32 h -> restores serializeBlockHeight h h.
Proof.
  unfold word32. intros Hh. destruct (uint_restores 64 h ltac:(lia) ltac:(lia)) as (bs & E & F & G). exists bs. cbn [serializeBlockHeight put get uint] in *.
  split; [exact E|]. split; [exact F|]. intros rest Fr. rewrite G by exact Fr. cbn [obind]. rewrite (proj2 (Z.eqb_neq _ _)), (proj2 (Z.ltb_ge _ _)) by lia. reflexivity.
Qed.

Lemma boolean_restores b : restores boolean b b.
Proof.
  exists [if b then 1 else 0]. split; [reflexivity|]. split; [repeat constructor; destruct b; cbn; lia|]. intros rest Fr. destruct b; reflexivity.
Qed.

Lemma extra_restores l : sized (fun b => 0 <= b < 2 ^ 8) l -> restores (serializeContainer (uint 8)) l l.
Proof. intros H. pose proof (uint_lawful 8 ltac:(lia)) as U. exact (put_get l H). Qed.

Lemma messages_restores l : sized (fun v => Forall byte v /\ Z.of_nat (length v) <= MAX_SIZE) l -> restores (serializeContainer blob) l l.
Proof. intros H. exact (put_get l H). Qed.

(** What the fields of a transaction and of an output are in the code. *)
Record info_format (t : TransactionInformation) : Prop := {
  if_hash : bytes_n 32 (ti_transactionHash t);
  if_key : bytes_n 32 (ti_publicKey t);
  if_height : word32 (ti_blockHeight t);
  if_words : word64 (ti_timestamp t) /\ word64 (ti_unlockTime t) /\ word64 (ti_totalAmountIn t) /\ word64 (ti_totalAmountOut t);
  if_extra : sized (fun b => 0 <= b < 2 ^ 8) (ti_extra t);
  if_payment : bytes_n 32 (ti_paymentId t);
  if_messages : sized (fun v => Forall byte v /\ Z.of_nat (length v) <= MAX_SIZE) (ti_messages t);
  if_id : 0 <= ti_id t < 2 ^ 8
}.

Definition union_format (u : output_union) : Prop :=
  match u with KeyData k => bytes_n 32 k | MultisignatureData r t => word32 r /\ word32 t end.

Record held_format (x : TransactionOutputInformationEx) : Prop := {
  hf_union : union_format (o_union x);
  hf_words : word64 (o_amount x) /\ word64 (ex_unlockTime x);
  hf_indices : word32 (globalOutputIndex x) /\ word32 (outputInTransaction x) /\ word32 (ex_blockHeight x) /\ word32 (ex_transactionIndex x);
  hf_bytes : bytes_n 32 (o_transactionHash x) /\ bytes_n 32 (o_transactionPublicKey x) /\ bytes_n 32 (keyImage x)
}.

Record spent_format (s : SpentTransactionOutput) : Prop := {
  sf_output : held_format s;
  sf_block : word32 (tb_height (spendingBlock s)) /\ word64 (tb_timestamp (spendingBlock s)) /\ word32 (tb_transactionIndex (spendingBlock s));
  sf_hash : bytes_n 32 (spendingTransactionHash s);
  sf_input : word32 (inputInTransaction s)
}.

Definition job_format (j : TransferUnlockJob) : Prop := word32 (unlockHeight j) /\ bytes_n 32 (transactionOutputKey j).1 /\ word32 (transactionOutputKey j).2.

Ltac form := repeat first
  [ apply restores_and; [| |reflexivity] | apply uint_restores; [lia|] | apply pod_restores | apply height_restores | apply boolean_restores
  | apply extra_restores | apply messages_restores ]; try assumption.

Section Laws.
Variable stray : Z.

(** What is left of a transaction and of an output after loading. *)
Definition info_loaded (version : Z) (t : TransactionInformation) : TransactionInformation :=
  if version =? WALLET_VERSION_BM then t else of_fields (fields_of t) stray.
Definition output_loaded (x : TransactionOutputInformationEx) : TransactionOutputInformationEx := output_of_fields (output_fields_of x) (o_union x) stray.
Definition spent_loaded (s : SpentTransactionOutput) : SpentTransactionOutput :=
  mk_spent (output_loaded s) (spendingBlock s) (spendingTransactionHash s) (inputInTransaction s).

Lemma fields_restores t : info_format t -> restores serialize_fields (fields_of t) (fields_of t).
Proof.
  intros [Hh Hk Hb (W1 & W2 & W3 & W4) He Hp Hm _]. unfold word64 in *. unfold serialize_fields, fields_of. form.
Qed.

#[export] Instance info_restores version : Restores info_format (info_loaded version) (serialize_TransactionInformation stray version).
Proof.
  split. intros t H. pose proof (fields_restores t H) as R. unfold serialize_TransactionInformation, info_loaded. destruct (version =? WALLET_VERSION_BM).
  - pose proof (restores_object (fun t => (fields_of t, ti_id t)) (fun '(f, id) => of_fields f id) (and_then serialize_fields (fun _ => uint 8)) t (fields_of t, ti_id t)) as P.
    cbn beta iota in P. replace (of_fields (fields_of t) (ti_id t)) with t in P by (destruct t; reflexivity). apply P. apply restores_and; [exact R|apply uint_restores; [lia|apply H]|reflexivity].
  - apply (restores_object fields_of (fun f => of_fields f stray)), R.
Qed.

Lemma union_restores u : union_format u -> restores (serialize_union (output_type u)) u u.
Proof.
  intros H. destruct u as [k|r t].
  - destruct (pod_restores k H) as (bs & E & F & G). exists bs. split; [exact E|]. split; [exact F|]. intros rest Fr. cbn [serialize_union output_type get].
    change (1 =? 1) with true. cbv iota. rewrite (G rest Fr). reflexivity.
  - assert (restores (and_then (uint 32) (fun _ => uint 32)) (r, t) (r, t)) as (bs & E & F & G) by (form; apply H).
    exists bs. split; [exact E|]. split; [exact F|]. intros rest Fr. cbn [serialize_union output_type get]. change (2 =? 1) with false. change (2 =? 2) with true. cbv iota.
    rewrite (G rest Fr). reflexivity.
Qed.

#[export] Instance output_restores : Restores held_format output_loaded (serialize_Output stray).
Proof.
  split. intros x [Hu (W1 & W2) (I1 & I2 & I3 & I4) (B1 & B2 & B3)].
  change (output_loaded x) with ((fun '(_, (f, u)) => output_of_fields f u stray) (output_type (o_union x), (output_fields_of x, o_union x))). apply restores_object.
  apply restores_and; [apply uint_restores; [lia|destruct (o_union x); cbn; lia]| |reflexivity]. apply restores_and; [|apply union_restores, Hu|reflexivity].
  unfold serialize_output_fields, output_fields_of, serializeGlobalOutputIndex. form.
Qed.

#[export] Instance spent_restores : Restores spent_format spent_loaded (serialize_SpentTransactionOutput stray).
Proof.
  split. intros s [Ho (B1 & B2 & B3) Hh Hi].
  change (spent_loaded s) with ((fun '(x, (b, (h, i))) => mk_spent x b h i) (output_loaded s, (spendingBlock s, (spendingTransactionHash s, inputInTransaction s)))).
  apply restores_object. apply restores_and; [apply put_restores, Ho| |reflexivity]. apply restores_and; [| |reflexivity]; [|form].
  destruct (spendingBlock s) as [bh bt bi]. apply (restores_object _ (fun '(height, (timestamp, transactionIndex)) => mk_block_info height timestamp transactionIndex) _ _ (bh, (bt, bi))).
  form.
Qed.

#[export] Instance job_restores : Restores job_format id serialize_TransferUnlockJob.
Proof.
  split. intros [h [k i]] (H1 & H2 & H3). apply (restores_object _ (fun '(h, k) => mk_job h k) _ _ (h, (k, i))). form.
Qed.
End Laws.
