(* ===== verification/TransfersConsumer.v ===== *)
(** * The scanner of the chain for accounts (Transfers/TransfersConsumer.cpp, TransfersSubscription.cpp)

    A consumer looks through transactions of blocks and of the pool for outputs that belong to
    its accounts, makes the transfers of them and hands them to the containers of the accounts.
    Observers that are told of changes are left out.

    [None] and [Broken] are a failed assertion or an undefined access, [Raised] an exception.
    The worker threads of [onNewBlocks] only look for outputs (and record messages), and
    what they find is sorted before it is used: here they run in the order of the blocks.
    Memory that is read before it was written has the contents [stray] and [stray_word]. *)

From Stdlib Require Import ZArith Lia List Bool.
From S2P Require Import Prelude Bytes Crypto IntUtil TxStore Blockchain TransactionExtra TransfersContainer.
From stdpp Require Import gmap list.
Import ListNotations.
Open Scope Z_scope.
Open Scope cmon_scope.
Set Default Goal Selector "!".

(** ** Data *)

(** [AccountKeys] with its [AccountPublicAddress]; the name and the identity are not used here. *)
Record AccountKeys := mk_keys {
  spendPublicKey : bytes;
  viewPublicKey : bytes;
  spendSecretKey : bytes;
  viewSecretKey : bytes
}.

Record SecretKeyBM := mk_secret_bm {
  bm_id : Z;
  m_viewSecretkey : bytes;
  m_spendSecretKey : bytes;
  m_spendPubKey : bytes
}.

Record SynchronizationStart := mk_start { start_timestamp : Z; start_height : Z }.

(** [AccountSubscription] with the container of [TransfersSubscription]. *)
Record subscription := mk_subscription {
  keys : AccountKeys;
  syncStart : SynchronizationStart;
  transactionSpendableAge : Z;
  transfers : container
}.

Record consumer := mk_consumer {
  m_syncStart : SynchronizationStart;
  m_viewSecret : bytes;
  m_subscriptions : gmap bytes subscription;
  m_spendKeys : gset bytes;
  m_poolTxs : gset bytes;
  m_viewSecretBM : list SecretKeyBM
}.

Definition with_subscriptions m s := mk_consumer (m_syncStart s) (m_viewSecret s) m (m_spendKeys s) (m_poolTxs s) (m_viewSecretBM s).
Definition with_poolTxs p s := mk_consumer (m_syncStart s) (m_viewSecret s) (m_subscriptions s) (m_spendKeys s) p (m_viewSecretBM s).
Definition with_viewSecretBM v s := mk_consumer (m_syncStart s) (m_viewSecret s) (m_subscriptions s) (m_spendKeys s) (m_poolTxs s) v.

(** ** Computations over the consumer *)

Inductive course (A : Type) := Broken | Raised (e : failure) (s : consumer) | Returned (a : A) (s : consumer).
Arguments Broken {A}.
Arguments Raised {A} e s.
Arguments Returned {A} a s.

Definition CM (A : Type) : Type := consumer -> course A.
Definition cret {A} (a : A) : CM A := fun s => Returned a s.
Definition cbind {A B} (m : CM A) (k : A -> CM B) : CM B :=
  fun s => match m s with Broken => Broken | Raised e s => Raised e s | Returned a s => k a s end.
Definition cgets {A} (f : consumer -> A) : CM A := fun s => Returned (f s) s.
Definition cmodify (f : consumer -> consumer) : CM unit := fun s => Returned tt (f s).
Definition clift {A} (o : option A) : CM A := fun s => match o with Some a => Returned a s | None => Broken end.

Declare Scope consumer_scope.
Delimit Scope consumer_scope with consumer.
Notation "x <~ m ;; k" := (cbind m (fun x => k)) (at level 100, m at next level, right associativity) : consumer_scope.
Notation "m ~; k" := (cbind m (fun _ => k)) (at level 100, right associativity) : consumer_scope.
Open Scope consumer_scope.

Fixpoint ceach {A} (f : A -> CM unit) (l : list A) : CM unit :=
  match l with [] => cret tt | x :: l => f x ~; ceach f l end.

Definition set_transfers (sub : subscription) (c : container) : subscription := mk_subscription (keys sub) (syncStart sub) (transactionSpendableAge sub) c.

(** An operation on the container of an account. *)
Definition on_container {A} (spendKey : bytes) (op : subscription -> M A) : CM A := fun s =>
  match m_subscriptions s !! spendKey with
  | None => Broken
  | Some sub =>
      let store c := with_subscriptions (<[spendKey := set_transfers sub c]> (m_subscriptions s)) s in
      match op sub (transfers sub) with
      | Abort => Broken
      | Throw e c => Raised e (store c)
      | Done a c => Returned a (store c)
      end
  end.

(** The outputs of each account. *)
Abbreviation found := (gmap bytes (list Z)).

Section Consumer.
Context {FH : FastHash} {HO : HashOrder} {CO : Codec}.
Variable stray : bytes.
Variable stray_word : Z.

(** The key a sender makes for an address (Transaction.cpp); the results of the two calls are not tested. *)
Definition derivePublicKey (to_view to_spend txKey : bytes) (outputIndex : Z) : option bytes :=
  derivation <- generate_key_derivation to_view txKey ;;
  ephemeralKey <- derive_public_key (default stray derivation) outputIndex to_spend ;;
  Some (default stray ephemeralKey).

(** ** Looking for outputs *)

(** The result of [underive_public_key] is not tested. *)
Definition checkOutputKey (derivation key : bytes) (keyIndex outputIndex : nat) (spendKeys : gset bytes) (outputs : found) : option found :=
  r <- underive_public_key derivation (Z.of_nat keyIndex) key ;;
  let spendKey := default stray r in
  Some (if bool_decide (spendKey ∈ spendKeys)
    then <[spendKey := default [] (outputs !! spendKey) ++ [u32 (Z.of_nat outputIndex)]]> outputs else outputs).

(** The keys of a multisignature output. *)
Fixpoint check_keys (derivation : bytes) (ks : list bytes) (idx : nat) (spendKeys : gset bytes) (outputs : found) : option found :=
  match ks with
  | [] => Some outputs
  | key :: ks => outputs <- checkOutputKey derivation key idx idx spendKeys outputs ;; check_keys derivation ks idx spendKeys outputs
  end.

Fixpoint find_loop (derivation : bytes) (outs : list TransactionOutput) (idx keyIndex : nat) (spendKeys : gset bytes) (outputs : found) : option found :=
  match outs with
  | [] => Some outputs
  | out :: outs =>
      match target out with
      | KeyOutput key =>
          outputs <- checkOutputKey derivation key keyIndex idx spendKeys outputs ;;
          find_loop derivation outs (S idx) (S keyIndex) spendKeys outputs
      | MultisignatureOutput ks _ _ =>
          outputs <- check_keys derivation ks idx spendKeys outputs ;;
          find_loop derivation outs (S idx) (keyIndex + length ks) spendKeys outputs
      end
  end.

Definition findMyOutputs (t : Transaction) (viewSecretKey : bytes) (spendKeys : gset bytes) : option found :=
  txPublicKey <- getTransactionPublicKeyFromExtra (extra t) ;;
  derivation <- generate_key_derivation txPublicKey viewSecretKey ;;
  match derivation with
  | None => Some ∅
  | Some derivation => find_loop derivation (outputs t) 0 0 spendKeys ∅
  end.

(** The ephemeral key pair and the key image (CryptoNoteFormatUtils.cpp). *)
Definition generate_key_image_helper (ack : AccountKeys) (tx_public_key : bytes) (real_output_index : Z) : option (bytes * bytes * bytes) :=
  recv_derivation <- generate_key_derivation tx_public_key (viewSecretKey ack) ;;
  recv_derivation <- recv_derivation ;;
  publicKey <- derive_public_key recv_derivation real_output_index (spendPublicKey ack) ;;
  publicKey <- publicKey ;;
  secretKey <- derive_secret_key recv_derivation real_output_index (spendSecretKey ack) ;;
  ki <- generate_key_image publicKey secretKey ;;
  Some (publicKey, secretKey, ki).

(** The global index: an access behind the end of the vector is undefined. *)
Definition global_index (blockInfo : TransactionBlockInfo) (globalIdxs : list Z) (idx : Z) : option Z :=
  if tb_height blockInfo =? UNCONFIRMED then Some UNCONFIRMED_TRANSACTION_GLOBAL_OUTPUT_INDEX else globalIdxs !! Z.to_nat idx.

(** One output; the hash of the transaction and, for multisignatures, the key image stay as they were. *)
Definition create_transfer (account : AccountKeys) (blockInfo : TransactionBlockInfo) (txPubKey : bytes) (idx : Z) (globalIdxs : list Z) (id : Z)
    (out : TransactionOutput) : option TransactionOutputInformationIn :=
  globalOutputIndex <- global_index blockInfo globalIdxs idx ;;
  match target out with
  | KeyOutput key =>
      '(publicKey, _, image) <- generate_key_image_helper account txPubKey idx ;;
      _ <- c_assert (bool_decide (key = publicKey)) ;;
      Some (mk_in (mk_output_info (KeyData key) (out_amount out) globalOutputIndex idx stray txPubKey id) image)
  | MultisignatureOutput _ requiredSignatureCount term =>
      Some (mk_in (mk_output_info (MultisignatureData requiredSignatureCount term) (out_amount out) globalOutputIndex idx stray txPubKey id) stray)
  end.

(** The transfers made, and false on the error [argument_out_of_domain]. *)
Fixpoint create_loop (account : AccountKeys) (blockInfo : TransactionBlockInfo) (t : Transaction) (txPubKey : bytes) (idxs globalIdxs : list Z) (id : Z)
    : option (list TransactionOutputInformationIn * bool) :=
  match idxs with
  | [] => Some ([], true)
  | idx :: idxs =>
      match outputs t !! Z.to_nat idx with
      | None => Some ([], false)
      | Some out =>
          info <- create_transfer account blockInfo txPubKey idx globalIdxs id out ;;
          '(rest, ok) <- create_loop account blockInfo t txPubKey idxs globalIdxs id ;;
          Some (info :: rest, ok)
      end
  end.

Definition createTransfers (account : AccountKeys) (blockInfo : TransactionBlockInfo) (t : Transaction) (outputs globalIdxs : list Z) (id : Z)
    : option (list TransactionOutputInformationIn * bool) :=
  txPubKey <- getTransactionPublicKeyFromExtra (extra t) ;;
  create_loop account blockInfo t txPubKey outputs globalIdxs id.

(** ** Accounts *)

(** The keys of the accounts in the order of the map. *)
Definition accounts (s : consumer) : list bytes := arrange (map fst (map_to_list (m_subscriptions s))).
Definition forEachSubscription (action : bytes -> CM unit) : CM unit := ks <~ cgets accounts ;; ceach action ks.

Definition UINT64_MAX : Z := 2 ^ 64 - 1.

Definition updateSyncStart (s : consumer) : consumer :=
  let start := fold_left (fun st (sub : subscription) =>
      mk_start (Z.min (start_timestamp st) (start_timestamp (syncStart sub))) (Z.min (start_height st) (start_height (syncStart sub))))
    (arrange (map snd (map_to_list (m_subscriptions s)))) (mk_start UINT64_MAX UINT64_MAX) in
  mk_consumer start (m_viewSecret s) (m_subscriptions s) (m_spendKeys s) (m_poolTxs s) (m_viewSecretBM s).

Definition new_consumer (viewSecret : bytes) : consumer :=
  updateSyncStart (mk_consumer (mk_start 0 0) viewSecret ∅ ∅ ∅ []).

(** [None] is the exception for another view key. *)
Definition addSubscription (k : AccountKeys) (start : SynchronizationStart) (age : Z) (s : consumer) : option consumer :=
  if negb (bool_decide (viewSecretKey k = m_viewSecret s)) then None
  else match m_subscriptions s !! spendPublicKey k with
  | Some _ => Some s
  | None =>
      Some (updateSyncStart (mk_consumer (m_syncStart s) (m_viewSecret s) (<[spendPublicKey k := mk_subscription k start age empty_container]> (m_subscriptions s))
        (m_spendKeys s ∪ {[spendPublicKey k]}) (m_poolTxs s) (m_viewSecretBM s)))
  end.

(** The result tells whether no account is left. *)
Definition removeSubscription (spendKey : bytes) (s : consumer) : bool * consumer :=
  let s := updateSyncStart (mk_consumer (m_syncStart s) (m_viewSecret s) (delete spendKey (m_subscriptions s)) (m_spendKeys s ∖ {[spendKey]}) (m_poolTxs s) (m_viewSecretBM s)) in
  (bool_decide (m_subscriptions s = ∅), s).

Definition addViewScret (v : SecretKeyBM) (s : consumer) : consumer := with_viewSecretBM (m_viewSecretBM s ++ [v]) s.

Fixpoint delete_view (id : Z) (l : list SecretKeyBM) : bool * list SecretKeyBM :=
  match l with
  | [] => (false, [])
  | v :: l => if bm_id v =? id then (true, l) else let '(r, l) := delete_view id l in (r, v :: l)
  end.
Definition deleteViewScret (id : Z) (s : consumer) : bool * consumer :=
  let '(r, l) := delete_view id (m_viewSecretBM s) in (r, with_viewSecretBM l s).

Definition initTransactionPool (uncommitedTransactions : gset bytes) (s : consumer) : consumer :=
  with_poolTxs (fold_left (fun pool (sub : subscription) =>
      fold_left (fun pool h => if bool_decide (h ∈ uncommitedTransactions) then pool else pool ∪ {[h]}) (getUnconfirmedTransactions (transfers sub)) pool)
    (arrange (map snd (map_to_list (m_subscriptions s)))) (m_poolTxs s)) s.

(** ** Transactions *)

(** The answer of the node: whether it succeeded, and the indices. *)
Variable getGlobalIndices : bytes -> bool * list Z.
(** Messages are encrypted; the decryption is an argument. *)
Variable get_messages_from_extra : bytes -> bytes -> bytes -> list bytes.

Record PreprocessInfo := mk_preprocess { pi_outputs : gmap bytes (list TransactionOutputInformationIn); pi_globalIdxs : list Z; pi_id : Z }.

Definition txPublicKey (t : Transaction) : CM bytes := clift (getTransactionPublicKeyFromExtra (extra t)).

(** The outputs of the first identity; those that were found belong to one account.
    Errors of the node and of [createTransfers] end the work for the transaction without being reported. *)
Definition preprocess_own (blockInfo : TransactionBlockInfo) (t : Transaction) (skey : SecretKeyBM) (outputs : found) (info : PreprocessInfo) : CM PreprocessInfo :=
  let '(ok, globalIdxs) := if tb_height blockInfo =? UNCONFIRMED then (true, pi_globalIdxs info) else getGlobalIndices (getObjectHash t) in
  let info := mk_preprocess (pi_outputs info) globalIdxs 0 in
  if negb ok then cret info
  else
    match outputs !! m_spendPubKey skey with
    | None => cret info
    | Some idxs =>
        subs <~ cgets m_subscriptions ;;
        match subs !! m_spendPubKey skey with
        | None => cret info
        | Some sub =>
            r <~ clift (createTransfers (keys sub) blockInfo t idxs globalIdxs (bm_id skey)) ;;
            cret (mk_preprocess (<[m_spendPubKey skey := r.1]> (pi_outputs info)) globalIdxs 0)
        end
    end.

(** A message for another identity is recorded with the first account of the map. *)
Definition preprocess_other (blockInfo : TransactionBlockInfo) (t : Transaction) (skey : SecretKeyBM) : CM unit :=
  ks <~ cgets accounts ;;
  match ks with
  | [] => cret tt
  | k :: _ =>
      pk <~ txPublicKey t ;;
      on_container k (fun _ => addTransactionBM blockInfo t (get_messages_from_extra (extra t) pk (m_spendSecretKey skey)) (bm_id skey)) ~;
      cret tt
  end.

Fixpoint preprocess_loop (blockInfo : TransactionBlockInfo) (t : Transaction) (i : nat) (views : list SecretKeyBM) (info : PreprocessInfo) : CM PreprocessInfo :=
  match views with
  | [] => cret info
  | skey :: views =>
      outputs <~ clift (findMyOutputs t (m_viewSecretkey skey) {[m_spendPubKey skey]}) ;;
      info <~ (if bool_decide (outputs = ∅) then cret info
        else if (i =? 0)%nat then preprocess_own blockInfo t skey outputs info
        else preprocess_other blockInfo t skey ~; cret info) ;;
      preprocess_loop blockInfo t (S i) views info
  end.

Definition preprocessOutputs (blockInfo : TransactionBlockInfo) (t : Transaction) : CM PreprocessInfo :=
  views <~ cgets m_viewSecretBM ;;
  preprocess_loop blockInfo t 0 views (mk_preprocess ∅ [] stray_word).

(** What one container makes of a transaction. *)
Definition processOutputs (blockInfo : TransactionBlockInfo) (t : Transaction) (transfersList : list TransactionOutputInformationIn) (globalIdxs : list Z)
    (pk : bytes) (id : Z) (sub : subscription) : M bool := fun c =>
  match find_transaction (getObjectHash t) (m_transactions c) with
  | Some info =>
      if (ti_blockHeight info =? UNCONFIRMED) && negb (tb_height blockInfo =? UNCONFIRMED)
      then bind (markTransactionConfirmed (transactionSpendableAge sub) blockInfo (getObjectHash t) globalIdxs) (fun _ => ret true) c
      else bind (assert_that (ti_blockHeight info =? tb_height blockInfo)) (fun _ => ret false) c
  | None =>
      bind (addTransaction (transactionSpendableAge sub) blockInfo t transfersList (get_messages_from_extra (extra t) pk (spendSecretKey (keys sub))) id)
        (fun r => ret r.1) c
  end.

(** The [processTransaction] with the outputs found before. *)
Definition process_found (blockInfo : TransactionBlockInfo) (t : Transaction) (info : PreprocessInfo) : CM unit :=
  pk <~ txPublicKey t ;;
  forEachSubscription (fun k =>
    on_container k (processOutputs blockInfo t (default [] (pi_outputs info !! k)) (pi_globalIdxs info) pk (pi_id info)) ~; cret tt).

Definition processTransaction (blockInfo : TransactionBlockInfo) (t : Transaction) : CM unit :=
  info <~ preprocessOutputs blockInfo t ;; process_found blockInfo t info.

(** ** Events *)

Definition onBlockchainDetach (height : Z) : CM unit :=
  forEachSubscription (fun k => on_container k (fun sub => detach (transactionSpendableAge sub) height) ~; cret tt).

Definition unconfirmedBlockInfo (index : Z) : TransactionBlockInfo := mk_block_info UNCONFIRMED 0 index.

Definition addUnconfirmedTransaction (t : Transaction) : CM unit := processTransaction (unconfirmedBlockInfo 0) t.

Definition removeUnconfirmedTransaction (h : bytes) : CM unit :=
  forEachSubscription (fun k => on_container k (fun sub => deleteUnconfirmedTransaction (transactionSpendableAge sub) h) ~; cret tt).

(** The index in the block is not set here. *)
Definition onPoolUpdated (addedTransactions : list Transaction) (deletedTransactions : list bytes) : CM unit :=
  ceach (fun t => cmodify (fun s => with_poolTxs (m_poolTxs s ∪ {[getObjectHash t]}) s) ~; processTransaction (unconfirmedBlockInfo stray_word) t) addedTransactions ~;
  ceach (fun h => cmodify (fun s => with_poolTxs (m_poolTxs s ∖ {[h]}) s) ~; removeUnconfirmedTransaction h) deletedTransactions.

(** [CompleteBlock]: the time of its block, when it has one, and its transactions. *)
Record CompleteBlock := mk_complete { cb_timestamp : option Z; cb_transactions : list Transaction }.

Fixpoint queue_transactions (height timestamp index : Z) (txs : list Transaction) : CM (list (TransactionBlockInfo * Transaction)) :=
  match txs with
  | [] => cret []
  | t :: txs =>
      pk <~ txPublicKey t ;;
      rest <~ queue_transactions height timestamp (u32 (index + 1)) txs ;;
      cret (if bool_decide (pk = repeat 0 32) then rest else (mk_block_info height timestamp index, t) :: rest)
  end.

(** The transactions of the blocks that are not too old and have a key, in order. *)
Fixpoint queue_blocks (height : Z) (blocks : list CompleteBlock) : CM (list (TransactionBlockInfo * Transaction)) :=
  match blocks with
  | [] => cret []
  | b :: blocks =>
      start <~ cgets m_syncStart ;;
      mine <~ (match cb_timestamp b with
        | None => cret []
        | Some timestamp =>
            if negb (start_timestamp start =? 0) && (timestamp <? start_timestamp start) then cret []
            else queue_transactions height timestamp 0 (cb_transactions b)
        end) ;;
      rest <~ queue_blocks (u32 (height + 1)) blocks ;;
      cret (mine ++ rest)
  end.

Fixpoint preprocess_all (items : list (TransactionBlockInfo * Transaction)) : CM (list (TransactionBlockInfo * Transaction * PreprocessInfo)) :=
  match items with
  | [] => cret []
  | (b, t) :: items => info <~ preprocessOutputs b t ;; rest <~ preprocess_all items ;; cret ((b, t, info) :: rest)
  end.

(** An exception in the first part detaches the containers from the first of the blocks. *)
Definition onNewBlocks (blocks : list CompleteBlock) (startHeight : Z) : CM bool := fun s =>
  match (items <~ queue_blocks startHeight blocks ;; preprocess_all items) s with
  | Broken => Broken
  | Raised _ s =>
      ((if startHeight =? UNCONFIRMED then cret tt else onBlockchainDetach startHeight) ~; cret false) s
  | Returned items s =>
      (ceach (fun '(b, t, info) => process_found b t info) items ~;
       forEachSubscription (fun k => on_container k (fun _ => advanceHeight (u32 (u32 (startHeight + Z.of_nat (length blocks)) - 1))) ~; cret tt) ~;
       cret true) s
  end.

End Consumer.
