(* ===== verification/TransfersScan.v ===== *)
(** * Payments are found

    An output belongs to an account when one of its keys is the one-time key of the account at the
    place of the output.  The scanner takes a key back to the key it came from; both
    ways agree, so for transactions whose multisignature outputs have one key each the scanner finds
    exactly the outputs of the account, and the transfers made of them fit the container. *)

From Stdlib Require Import ZArith Lia List Bool.
From S2P Require Import Prelude Bytes Varint AbGroup Edwards Scalar ScalarCorrect Ge GeCorrect GeBytes GeScalar Crypto CryptoCorrect CryptoSpec IntUtil Currency TxStore Blockchain TransactionExtra TransfersContainer TransfersInvariant TransfersAdd TransfersConsumer.
From stdpp Require Import gmap list.
Import ListNotations.
Open Scope Z_scope.
Open Scope cmon_scope.
Set Default Goal Selector "!".

Section Scan.
Context {FH : FastHash}.

(** ** One-time keys *)

Definition valid_key (k : bytes) : Prop := exists P, encodes k P.

(** Taking a key back and deriving it are inverse to each other. *)
Lemma underive_iff d i B k : bytes_n 32 d -> 0 <= i < 2 ^ 64 -> valid_key B -> valid_key k ->
  exists base, underive_public_key d i k = Some (Some base) /\ (base = B <-> derive_public_key d i B = Some (Some k)).
Proof.
  intros Hd Hi (PB & EB) (Pk & Ek). destruct (derivation_to_scalar_ok d i Hd Hi) as (_ & s & Es & Hs).
  destruct (frombytes_ok k Pk Ek) as (h & Fk & Hk). destruct (sub_from_derived_ok h Pk s Hk Hs) as (base & Eb & Hb).
  destruct (frombytes_ok B PB EB) as (h' & FB & HB). destruct (add_to_base_ok h' PB s HB Hs) as (pub & Ep & Hp).
  exists base. unfold underive_public_key, derive_public_key. rewrite Fk, FB, Es. cbn [obind]. rewrite Eb, Ep. cbn [obind]. split; [reflexivity|]. split.
  - intros ->. do 2 f_equal. apply (encodes_inj _ _ Pk); [|exact Ek]. rewrite (encodes_unique _ _ _ EB Hb), <- gadd_assoc, gadd_opp_l, gadd_0_r in Hp. exact Hp.
  - intros [= <-]. apply (encodes_inj _ _ PB); [|exact EB]. rewrite (encodes_unique _ _ _ Ek Hp), <- gadd_assoc, gadd_opp_r, gadd_0_r in Hb. exact Hb.
Qed.

(** The key of an account at a place exists, with its secret key and its image. *)
Lemma one_time_key d i sec B : bytes_n 32 d -> 0 <= i < 2 ^ 64 -> bytes_n 32 sec -> secret_key_to_public_key sec = Some (Some B) ->
  exists k s image, derive_public_key d i B = Some (Some k) /\ derive_secret_key d i sec = Some s /\ secret_key_to_public_key s = Some (Some k) /\
    generate_key_image k s = Some image /\ valid_key k.
Proof.
  intros Hd Hi Bs E. destruct (public_key_inv sec B Bs E) as [Ss Pb]. destruct (derivation_to_scalar_ok d i Hd Hi) as (_ & x & Ex & Sx).
  destruct (one_time_core sec x B Ss Sx Pb) as (h & k & h' & s & Eh & Ep & _ & _ & Ek & Epk). destruct (derive_secret_ok sec x Ss Sx) as (s' & Es' & Ss' & _).
  assert (s' = s) as -> by congruence. destruct (public_key_of s Ss') as (k' & Ek' & Pk). assert (k' = k) as -> by congruence.
  destruct (hash_to_ec_ok k (encodes_bytes _ _ Pk)) as (Q & HQ). destruct (generate_key_image_ok k s _ HQ Ss') as (image & Ei & _).
  exists k, s, image. unfold derive_public_key, derive_secret_key. rewrite Eh, (sc_check_ok0 sec Ss), Ex. cbn [obind c_assert Z.eqb]. rewrite Ep, Ek. cbn [obind].
  repeat split; try assumption. eexists. exact Pk.
Qed.

(** ** The scanner *)

Section Account.
Variables (stray d B : bytes).
Hypothesis Hd : bytes_n 32 d.
Hypothesis HB : valid_key B.

Definition output_keys (out : TransactionOutput) : list bytes := match target out with KeyOutput k => [k] | MultisignatureOutput ks _ _ => ks end.

(** One of the keys is the one-time key of the account at the place. *)
Definition belongs (i : nat) (out : TransactionOutput) : bool :=
  existsb (fun k => bool_decide (derive_public_key d (Z.of_nat i) B = Some (Some k))) (output_keys out).

(** The places of the outputs of the account, from [i] on. *)
Fixpoint places (i : nat) (outs : list TransactionOutput) : list Z :=
  match outs with [] => [] | out :: outs => (if belongs i out then [Z.of_nat i] else []) ++ places (S i) outs end.

Definition noted (l : list Z) (m : gmap bytes (list Z)) : gmap bytes (list Z) := match l with [] => m | _ => <[B := default [] (m !! B) ++ l]> m end.

Lemma noted_app l l' m : noted (l ++ l') m = noted l' (noted l m).
Proof.
  destruct l as [|x l]; [reflexivity|]. destruct l' as [|y l']; [rewrite app_nil_r; reflexivity|]. cbn [noted app]. rewrite lookup_insert_eq, insert_insert_eq. cbn. rewrite <- app_assoc. reflexivity.
Qed.

Lemma check_key_found k i idx m : valid_key k -> Z.of_nat i < 2 ^ 64 -> Z.of_nat idx < 2 ^ 32 ->
  checkOutputKey stray d k i idx {[B]} m = Some (noted (if bool_decide (derive_public_key d (Z.of_nat i) B = Some (Some k)) then [Z.of_nat idx] else []) m).
Proof.
  intros Hk Hi Hx. destruct (underive_iff d (Z.of_nat i) B k Hd ltac:(lia) HB Hk) as (base & E & Iff). unfold checkOutputKey. rewrite E. cbn [obind default].
  rewrite u32_small by lia. case_bool_decide as I; case_bool_decide as J; try reflexivity.
  - apply elem_of_singleton in I as ->. reflexivity.
  - apply elem_of_singleton in I. tauto.
  - destruct I. apply elem_of_singleton. tauto.
Qed.

Definition one_key (out : TransactionOutput) : Prop := length (output_keys out) = 1%nat.

Lemma find_loop_exact outs : forall i m, Forall one_key outs -> Forall (fun out => Forall valid_key (output_keys out)) outs -> Z.of_nat (i + length outs) <= 2 ^ 32 ->
  find_loop stray d outs i i {[B]} m = Some (noted (places i outs) m).
Proof.
  induction outs as [|out outs IH]; intros i m F1 Fv L; [reflexivity|]. apply list.Forall_cons in F1 as [O1 F1]. apply list.Forall_cons in Fv as [Ov Fv]. cbn [length] in L.
  cbn [find_loop places]. unfold one_key, belongs, output_keys in *. destruct (target out) as [k|ks r term].
  - apply list.Forall_cons in Ov as [Ok _]. rewrite check_key_found by (assumption || lia). cbn [obind existsb]. rewrite orb_false_r, IH by (assumption || lia). rewrite noted_app. reflexivity.
  - destruct ks as [|k [|k' ks]]; try discriminate O1. apply list.Forall_cons in Ov as [Ok _]. cbn [check_keys]. rewrite check_key_found by (assumption || lia). cbn [obind existsb length].
    rewrite orb_false_r, Nat.add_1_r, IH by (assumption || lia). rewrite noted_app. reflexivity.
Qed.

Lemma places_in i outs x : In x (places i outs) <-> exists n out, outs !! n = Some out /\ x = Z.of_nat (i + n) /\ belongs (i + n) out = true.
Proof.
  revert i. induction outs as [|out outs IH]; intros i; cbn [places]; [split; [intros []|intros (n & o & E & _); discriminate]|]. rewrite in_app_iff, IH. split.
  - intros [I|(n & o & E & Ex & Eb)].
    + destruct (belongs i out) eqn:Eb; [|destruct I]. destruct I as [<-|[]]. exists 0%nat, out. rewrite Nat.add_0_r. auto.
    + exists (S n), o. replace (i + S n)%nat with (S i + n)%nat by lia. auto.
  - intros ([|n] & o & E & Ex & Eb); [left|right].
    + injection E as <-. rewrite Nat.add_0_r in *. rewrite Eb. left. auto.
    + exists n, o. replace (S i + n)%nat with (i + S n)%nat by lia. auto.
Qed.

Lemma places_nodup i outs : List.NoDup (places i outs).
Proof.
  revert i. induction outs as [|out outs IH]; intros i; cbn [places]; [constructor|]. destruct (belongs i out); [|apply IH]. cbn. constructor; [|apply IH].
  intros I. apply places_in in I as (n & o & _ & E & _). lia.
Qed.
End Account.

(** ** Transfers *)

(** Key pairs of an account. *)
Record account_keys_ok (a : AccountKeys) : Prop := {
  ak_spend : bytes_n 32 (spendSecretKey a) /\ secret_key_to_public_key (spendSecretKey a) = Some (Some (spendPublicKey a));
  ak_view : bytes_n 32 (viewSecretKey a) /\ secret_key_to_public_key (viewSecretKey a) = Some (Some (viewPublicKey a))
}.

Lemma public_valid sec pub : bytes_n 32 sec -> secret_key_to_public_key sec = Some (Some pub) -> valid_key pub.
Proof. intros H E. destruct (public_key_inv sec pub H E) as [_ P]. eexists. exact P. Qed.

(** What a transfer says of the output at the place [x]; the account has the secret key of a key output, and its key image is the transfer's. *)
Definition describes (a : AccountKeys) (d R : bytes) (block : TransactionBlockInfo) (t : Transaction) (globalIdxs : list Z) (id x : Z) (tr : TransactionOutputInformationIn) : Prop :=
  exists out, outputs t !! Z.to_nat x = Some out /\ o_amount tr = out_amount out /\ outputInTransaction tr = x /\ o_transactionPublicKey tr = R /\ o_id tr = id /\
    global_index block globalIdxs x = Some (globalOutputIndex tr) /\
    match target out with
    | KeyOutput k => o_union tr = KeyData k /\
        exists s, derive_secret_key d x (spendSecretKey a) = Some s /\ secret_key_to_public_key s = Some (Some k) /\ generate_key_image k s = Some (keyImage tr)
    | MultisignatureOutput _ r term => o_union tr = MultisignatureData r term
    end.

Section Create.
Variables (stray : bytes) (a : AccountKeys) (d R : bytes) (block : TransactionBlockInfo) (t : Transaction) (globalIdxs : list Z) (id : Z).
Hypothesis Hd : bytes_n 32 d.
Hypothesis Ha : account_keys_ok a.
Hypothesis Ed : generate_key_derivation R (viewSecretKey a) = Some (Some d).
Hypothesis Hg : tb_height block = UNCONFIRMED \/ (length (outputs t) <= length globalIdxs)%nat.
Hypothesis Hl : Z.of_nat (length (outputs t)) <= 2 ^ 32.

Lemma create_transfer_ok n out : outputs t !! n = Some out -> belongs d (spendPublicKey a) n out = true ->
  exists tr, create_transfer stray a block R (Z.of_nat n) globalIdxs id out = Some tr /\ describes a d R block t globalIdxs id (Z.of_nat n) tr.
Proof.
  intros E Eb. assert (n < length (outputs t))%nat as Ln by (apply lookup_lt_Some in E; exact E). unfold create_transfer, describes. rewrite !Nat2Z.id.
  assert (exists g, global_index block globalIdxs (Z.of_nat n) = Some g) as (g & Eg).
  { unfold global_index. destruct (Z.eqb_spec (tb_height block) UNCONFIRMED); [eauto|]. rewrite Nat2Z.id. apply lookup_lt_is_Some. destruct Hg; [contradiction|lia]. }
  rewrite Eg. cbn [obind]. unfold belongs, output_keys in Eb. destruct (target out) as [k|ks r term] eqn:Et.
  - cbn [existsb] in Eb. rewrite orb_false_r in Eb. apply bool_decide_eq_true in Eb. destruct Ha as [[Bs Es] _].
    destruct (one_time_key d (Z.of_nat n) _ _ Hd ltac:(lia) Bs Es) as (k' & s & image & E1 & E2 & E3 & E4 & _). assert (k' = k) as -> by congruence.
    unfold generate_key_image_helper. rewrite Ed. cbn [obind]. rewrite E1. cbn [obind]. rewrite E2. cbn [obind]. rewrite E4. cbn [obind]. rewrite bool_decide_true by reflexivity. cbn [c_assert obind].
    eexists. split; [reflexivity|]. exists out. cbn. rewrite Et. repeat split; try assumption. exists s. auto.
  - eexists. split; [reflexivity|]. exists out. cbn. rewrite Et. auto 10.
Qed.

Lemma create_loop_ok idxs : Forall (fun x => exists n out, x = Z.of_nat n /\ outputs t !! n = Some out /\ belongs d (spendPublicKey a) n out = true) idxs ->
  exists trs, create_loop stray a block t R idxs globalIdxs id = Some (trs, true) /\ Forall2 (describes a d R block t globalIdxs id) idxs trs.
Proof.
  induction 1 as [|x idxs (n & out & -> & E & Eb) _ (trs & El & F)]; [exists []; split; [reflexivity|constructor]|].
  destruct (create_transfer_ok n out E Eb) as (tr & Et & D). exists (tr :: trs). cbn [create_loop]. rewrite Nat2Z.id, E, Et. cbn [obind]. rewrite El. cbn [obind].
  split; [reflexivity|]. constructor; assumption.
Qed.

(** Transfers satisfy what the container asserts. *)
Lemma describes_ok x tr : Forall (fun out => 0 < out_amount out) (outputs t) -> 0 <= x -> describes a d R block t globalIdxs id x tr -> transfer_ok t tr.
Proof.
  clear Hg Hl. intros F Hx (out & E & Ea & Ex & _ & _ & _ & Et). assert (Z.to_nat x < length (outputs t))%nat as L by (apply lookup_lt_Some in E; exact E). rewrite List.Forall_forall in F. constructor.
  - lia.
  - unfold same_type. rewrite Ex, E. destruct (target out); [destruct Et as [-> _]|rewrite Et]; reflexivity.
  - rewrite Ea. apply F. apply (list_elem_of_In _ out), list_elem_of_lookup_2 with (Z.to_nat x). exact E.
Qed.

Lemma describes_all idxs trs : Forall (fun out => 0 < out_amount out) (outputs t) -> Forall2 (describes a d R block t globalIdxs id) idxs trs -> Forall (fun x => 0 <= x) idxs -> Forall (transfer_ok t) trs.
Proof.
  intros Fp F2. induction F2 as [|x tr idxs trs D F IH]; intros Fx; [constructor|]. apply list.Forall_cons in Fx as [Hx Fx]. constructor; [exact (describes_ok x tr Fp Hx D)|exact (IH Fx)].
Qed.

Lemma describes_places idxs trs : Forall2 (describes a d R block t globalIdxs id) idxs trs -> map outputInTransaction (map in_info trs) = idxs.
Proof. induction 1 as [|x tr idxs trs (out & _ & _ & E & _) F IH]; [reflexivity|]. cbn. rewrite IH, E. reflexivity. Qed.
End Create.

(** Payments are found.  Let a sender make a transaction with the secret key [r], whose public key is in the extra
    field, every output having one key.  The scanner of an account returns exactly the places whose key is
    the one [derivePublicKey] makes of the address of the account, its assertion holds, and the transfers
    have the amounts, the indices and, for key outputs, the key image that the account can sign for; they
    meet the conditions of [addTransaction]. *)
Lemma payments_found stray a t r R block globalIdxs id : account_keys_ok a -> bytes_n 32 r -> secret_key_to_public_key r = Some (Some R) ->
  getTransactionPublicKeyFromExtra (extra t) = Some R -> Forall one_key (outputs t) -> Forall (fun out => Forall valid_key (output_keys out)) (outputs t) ->
  Forall (fun out => 0 < out_amount out) (outputs t) -> Z.of_nat (length (outputs t)) <= 2 ^ 32 ->
  tb_height block = UNCONFIRMED \/ (length (outputs t) <= length globalIdxs)%nat ->
  exists d idxs transfers, generate_key_derivation R (viewSecretKey a) = Some (Some d) /\
    findMyOutputs stray t (viewSecretKey a) {[spendPublicKey a]} = Some (match idxs with [] => ∅ | _ => {[spendPublicKey a := idxs]} end) /\
    (forall x, In x idxs <-> exists n out k, x = Z.of_nat n /\ outputs t !! n = Some out /\ In k (output_keys out) /\
      derivePublicKey stray (viewPublicKey a) (spendPublicKey a) r x = Some k) /\
    createTransfers stray a block t idxs globalIdxs id = Some (transfers, true) /\ Forall2 (describes a d R block t globalIdxs id) idxs transfers /\
    Forall (transfer_ok t) transfers /\ List.NoDup (map outputInTransaction (map in_info transfers)).
Proof.
  intros Ha Br Er Ex F1 Fv Fp Hl Hg. pose proof Ha as [[Bs Es] [Bv Ev]]. destruct (key_derivation_symmetric _ _ _ _ Bv Br Ev Er) as (d & D1 & D2 & Hd).
  pose proof (public_valid _ _ Bs Es) as HB. exists d, (places d (spendPublicKey a) 0 (outputs t)).
  assert (Forall (fun x => exists n out, x = Z.of_nat n /\ outputs t !! n = Some out /\ belongs d (spendPublicKey a) n out = true) (places d (spendPublicKey a) 0 (outputs t))) as Fb.
  { apply List.Forall_forall. intros x I. apply places_in in I as (n & out & E & -> & Eb). exists n, out. auto. }
  destruct (create_loop_ok stray a d R block t globalIdxs id Hd Ha D2 Hg Hl _ Fb) as (trs & El & F2). exists trs. split; [exact D2|]. split; [|split; [|split; [|split; [exact F2|split]]]].
  - unfold findMyOutputs. rewrite Ex. cbn [obind]. rewrite D2. cbn [obind]. rewrite find_loop_exact by assumption. unfold noted. destruct (places _ _ _ _); reflexivity.
  - intros x. rewrite places_in. cbn [Nat.add].
    assert (forall n k, Z.of_nat n < 2 ^ 64 -> derive_public_key d (Z.of_nat n) (spendPublicKey a) = Some (Some k) <-> derivePublicKey stray (viewPublicKey a) (spendPublicKey a) r (Z.of_nat n) = Some k) as Sender.
    { intros n k Hn. unfold derivePublicKey. rewrite D1. cbn [obind default from_option Datatypes.id]. destruct (one_time_key d (Z.of_nat n) _ _ Hd ltac:(lia) Bs Es) as (k' & _ & _ & E1 & _). rewrite E1. cbn [obind default from_option Datatypes.id]. split; congruence. }
    assert (forall n out, outputs t !! n = Some out -> Z.of_nat n < 2 ^ 64) as Ln by (intros n out E; apply lookup_lt_Some in E; lia). split.
    + intros (n & out & E & -> & Eb). unfold belongs in Eb. apply existsb_exists in Eb as (k & I & Ek). apply bool_decide_eq_true in Ek. exists n, out, k. rewrite <- Sender by eauto. auto.
    + intros (n & out & k & -> & E & I & Ek). exists n, out. split; [exact E|]. split; [reflexivity|]. apply existsb_exists. exists k. split; [exact I|]. apply bool_decide_eq_true, Sender; eauto.
  - unfold createTransfers. rewrite Ex. exact El.
  - apply (describes_all a d R block t globalIdxs id _ _ Fp F2). apply (Forall_impl _ _ _ Fb). intros x (n & _ & -> & _). lia.
  - assert (map outputInTransaction (map in_info trs) = places d (spendPublicKey a) 0 (outputs t)) as ->; [|apply places_nodup].
    exact (describes_places a d R block t globalIdxs id _ _ F2).
Qed.

End Scan.
