(* ===== verification/ChainInvariant.v ===== *)
(** * The invariant of the main chain

    The state of Blockchain.v in step with the list of its blocks: every index is
    the one that belongs to the blocks, and the transaction indices are those of
    the ledger of all transactions in them.  Accepted blocks keep the invariant,
    [popBlock] undoes [pushBlock], and a rejected block changes nothing, unless it
    is rejected for its size. *)

From Stdlib Require Import ZArith Lia List Bool.
From S2P Require Import Prelude Bytes IntUtil Difficulty Currency DepositIndex Checkpoints BlockIndex TxStore Ledger BlockchainIndices UpgradeDetector TxCheck Blockchain.
From stdpp Require Import gmap gmultiset list.
Import ListNotations.
Open Scope Z_scope.
Open Scope cmon_scope.
Set Default Goal Selector "!".

(** ** The ledger of a chain *)

Section Ledgers.
Context {CO : Codec}.

Abbreviation built := (Ledger.built getObjectHash getPaymentId).
Abbreviation popTx := (popTransaction getObjectHash getPaymentId).

(** The ledger entries of transactions of block [blk], in order. *)
Definition entries_from (blk : Z) (l : list (bytes * Transaction)) : ledger :=
  imap (fun i p => Ledger.mk_entry p.1 p.2 (mk_tindex blk (Z.of_nat i))) l.

Lemma entries_snoc blk l p : entries_from blk (l ++ [p]) = entries_from blk l ++ [Ledger.mk_entry p.1 p.2 (mk_tindex blk (Z.of_nat (length l)))].
Proof. unfold entries_from. rewrite imap_app. cbn. rewrite Nat.add_0_r. reflexivity. Qed.

Lemma entries_hashes blk l : le_hash <$> entries_from blk l = l.*1.
Proof. unfold entries_from. rewrite fmap_imap. apply list_eq. intros i. rewrite list_lookup_imap, list_lookup_fmap. destruct (l !! i); reflexivity. Qed.

(** The transactions of a block with their hashes. *)
Definition block_pairs (e : BlockEntry) : list (bytes * Transaction) :=
  zip (getObjectHash (baseTransaction (bl e)) :: transactionHashes (bl e)) (tx <$> transactions e).

Definition block_ledger (h : nat) (e : BlockEntry) : ledger := entries_from (Z.of_nat h) (block_pairs e).
Definition chain_ledger (bs : blocks) : ledger := concat (imap block_ledger bs).

Lemma chain_ledger_snoc bs e : chain_ledger (bs ++ [e]) = chain_ledger bs ++ block_ledger (length bs) e.
Proof. unfold chain_ledger. rewrite imap_app, concat_app. cbn. rewrite Nat.add_0_r, app_nil_r. reflexivity. Qed.

Lemma built_unique st l : built st l -> forall st', built st' l -> st = st'.
Proof.
  induction 1 as [|st l t h index B IH F S]; intros st' B'.
  - inversion B'; [reflexivity|]. destruct l; discriminate.
  - destruct (built_last _ _ _ _ _ B') as (st0 & B0 & _ & _ & ->). rewrite <- (IH st0 B0). reflexivity.
Qed.

(** Hashes that are not in the ledger are not in the map. *)
Lemma built_fresh st l h : built st l -> h ∉ le_hash <$> l -> m_transactionMap st !! h = None.
Proof.
  intros B N. destruct (m_transactionMap st !! h) as [i|] eqn:E; [|reflexivity].
  apply (rep_map _ _ _ _ (built_represents _ _ _ _ B)) in E as (e & He & <- & _). destruct N. apply list_elem_of_fmap. eauto.
Qed.

(** The entry of a transaction at its place in the block. *)
Record entry_shape (e : BlockEntry) : Prop := {
  es_base : (tx <$> transactions e) !! 0%nat = Some (baseTransaction (bl e));
  es_hashes : (length (transactions e) <= S (length (transactionHashes (bl e))))%nat
}.

Lemma pairs_length e : entry_shape e -> length (block_pairs e) = length (transactions e).
Proof. intros [_ H]. unfold block_pairs. rewrite length_zip_with, length_fmap. cbn [length]. lia. Qed.

Lemma pairs_lookup e i t h : transactions e !! S i = Some t -> transactionHashes (bl e) !! i = Some h ->
  block_pairs e !! S i = Some (h, tx t).
Proof.
  intros Et Eh. unfold block_pairs. rewrite lookup_zip_with.
  change ((getObjectHash (baseTransaction (bl e)) :: transactionHashes (bl e)) !! S i) with (transactionHashes (bl e) !! i).
  rewrite Eh, list_lookup_fmap, Et. reflexivity.
Qed.

Lemma pop_entries_ok blk L e : entry_shape e -> forall n st, (S n <= length (transactions e))%nat ->
  built st (L ++ entries_from blk (take (S n) (block_pairs e))) ->
  exists st', pop_block_transactions getObjectHash getPaymentId n e st = Some st' /\
    built st' (L ++ entries_from blk (take 1 (block_pairs e))).
Proof.
  intros Es. pose proof (pairs_length e Es) as Lp. induction n as [|n IH]; intros st Le B; [exists st; auto|].
  cbn [pop_block_transactions]. destruct (lookup_lt_is_Some_2 (transactions e) (S n)) as [t Et]; [lia|].
  pose proof (es_hashes e Es) as Lh.
  destruct (lookup_lt_is_Some_2 (transactionHashes (bl e)) n) as [h Eh]; [lia|]. rewrite Et, Eh. cbn [obind].
  rewrite (take_S_r _ _ (h, tx t)) in B by (apply pairs_lookup; assumption). rewrite entries_snoc, app_assoc in B.
  destruct (built_pop _ _ _ _ _ B) as (st' & E & B'). cbn [le_tx le_hash fst snd] in E. rewrite E. cbn [obind].
  apply IH; [lia|exact B'].
Qed.

(** Popping the transactions of a block takes its entries off the ledger. *)
Lemma popTransactions_ok blk L e st : entry_shape e -> built st (L ++ entries_from blk (block_pairs e)) ->
  exists st', popTransactions getObjectHash getPaymentId e (getObjectHash (baseTransaction (bl e))) st = Some st' /\ built st' L.
Proof.
  intros Es B. pose proof (pairs_length e Es) as Lp. pose proof (es_base e Es) as Eb. rewrite list_lookup_fmap in Eb.
  assert (0 < length (transactions e))%nat as Pos by (destruct (transactions e); [discriminate|cbn; lia]).
  unfold popTransactions. rewrite <- (firstn_all (block_pairs e)), Lp in B.
  replace (length (transactions e)) with (S (length (transactions e) - 1)) in B at 1 by lia.
  destruct (pop_entries_ok blk L e Es (length (transactions e) - 1) st) as (st1 & -> & B1); [lia|exact B|]. cbn [obind].
  assert (take 1 (block_pairs e) = [] ++ [(getObjectHash (baseTransaction (bl e)), baseTransaction (bl e))]) as E1.
  { unfold block_pairs. destruct (transactions e) as [|t ts]; [discriminate|]. injection Eb as <-. reflexivity. }
  rewrite E1, entries_snoc in B1. cbn [entries_from imap app] in B1. exact (built_pop _ _ _ _ _ B1).
Qed.
End Ledgers.

(** ** Pushing the transactions of a block *)

(** What [check_tx_semantic] and the binary form ensure of a transaction that is pushed. *)
Record tx_wf (t : Transaction) : Prop := {
  wf_images : NoDup (images (inputs t));
  wf_refs : NoDup (ms_refs (inputs t));
  wf_nonneg : Forall (fun r => 0 <= r.2) (ms_refs (inputs t));
  wf_outputs : Z.of_nat (length (outputs t)) < 2 ^ 16
}.

Section Loop.
Context {CK : CryptoChecks} {CO : Codec} (cur : currency) (zone : bool) (now : Z) (bs : blocks).

Abbreviation built := (Ledger.built getObjectHash getPaymentId).

Context (blk : Z) (L : ledger) (b : Block) (alltxs : list Transaction).
Let mh : bytes := getObjectHash (baseTransaction b).
Hypothesis (Hlen : length (transactionHashes b) = length alltxs).
Hypothesis (Hfresh : NoDup ((le_hash <$> L) ++ mh :: transactionHashes b)).
Hypothesis (Hwf : Forall tx_wf alltxs).
Hypothesis (Hshort : Z.of_nat (length alltxs) < 2 ^ 16 - 1).

(** The entry with the first [i] transactions pushed, and the state it goes with. *)
Record loop_inv (i : nat) (e : BlockEntry) (st : store) : Prop := {
  li_block : bl e = b;
  li_txs : tx <$> transactions e = baseTransaction b :: take i alltxs;
  li_built : built st (L ++ entries_from blk (block_pairs e))
}.

Lemma loop_length i e st : loop_inv i e st -> (i <= length alltxs)%nat -> length (transactions e) = S i.
Proof. intros [_ T _] H. rewrite <- (length_fmap tx), T. cbn [length]. rewrite length_take. lia. Qed.

Lemma loop_shape i e st : loop_inv i e st -> (i <= length alltxs)%nat -> entry_shape e.
Proof.
  intros I H. pose proof (loop_length i e st I H). destruct I as [B T _]. split.
  - rewrite T, B. reflexivity.
  - rewrite B, Hlen. lia.
Qed.

(** The state before the block, when its transactions are popped again. *)
Lemma loop_pop i e st : loop_inv i e st -> (i <= length alltxs)%nat ->
  exists st', popTransactions getObjectHash getPaymentId e mh st = Some st' /\ built st' L.
Proof.
  intros I H. pose proof (loop_shape i e st I H) as Es. destruct I as [B T Bu].
  destruct (popTransactions_ok blk L e st Es Bu) as (st' & E & B'). rewrite B in E. eauto.
Qed.

(** One transaction more. *)
Lemma pairs_snoc i e st t g h : loop_inv i e st -> (i < length alltxs)%nat -> transactionHashes b !! i = Some h ->
  block_pairs (with_transactions e (transactions e ++ [mk_tentry t g])) = block_pairs e ++ [(h, t)].
Proof.
  intros I H Eh. pose proof (loop_length i e st I ltac:(lia)) as Le. destruct I as [B T _]. unfold block_pairs. cbn [with_transactions bl transactions].
  rewrite B, fmap_app, <- (take_drop (S i) (getObjectHash (baseTransaction b) :: transactionHashes b)).
  rewrite (drop_S (_ :: _) h (S i)) by exact Eh. rewrite zip_with_app by (rewrite length_take, length_fmap; cbn [length]; lia).
  f_equal; [|cbn [fmap list_fmap zip_with tx]; rewrite zip_with_nil_r; reflexivity]. symmetry.
  rewrite <- (app_nil_r (tx <$> transactions e)) at 1.
  rewrite zip_with_app by (rewrite length_take, length_fmap; cbn [length]; lia). rewrite zip_with_nil_r. apply app_nil_r.
Qed.

Lemma pairs_hashes i e st : loop_inv i e st -> (i <= length alltxs)%nat -> (block_pairs e).*1 = mh :: take i (transactionHashes b).
Proof.
  intros I H. pose proof (loop_length i e st I H) as Le. destruct I as [B T _]. unfold block_pairs.
  rewrite B, <- (take_drop (S i) (getObjectHash (baseTransaction b) :: transactionHashes b)), <- (app_nil_r (tx <$> transactions e)).
  rewrite zip_with_app by (rewrite length_take, length_fmap; cbn [length]; lia). rewrite zip_with_nil_r, app_nil_r.
  rewrite fst_zip by (rewrite length_take, length_fmap; cbn [length]; lia). reflexivity.
Qed.

Lemma push_one i e st t h max : loop_inv i e st -> (i < length alltxs)%nat -> alltxs !! i = Some t -> transactionHashes b !! i = Some h ->
  checkTransactionInputs cur getPrefixHash now zone bs st t = Some (true, max) ->
  exists e' st', pushTransaction getObjectHash getPaymentId (with_transactions e (transactions e ++ [mk_tentry t []])) h
      (mk_tindex blk (Z.of_nat (S i))) st = Some (true, e', st') /\ loop_inv (S i) e' st'.
Proof.
  intros I H Et Eh C. pose proof (loop_length i e st I ltac:(lia)) as Le. pose proof (pairs_hashes i e st I ltac:(lia)) as Ph.
  assert (tx_wf t) as [W1 W2 W3 W4] by (eapply Forall_lookup_1; [exact Hwf|exact Et]).
  destruct (checkTransactionInputs_unspent _ _ _ _ _ _ _ _ W3 C) as [Sp Un].
  assert (acceptable t h st) as Ac.
  { split; try assumption. eapply built_fresh; [exact (li_built _ _ _ I)|]. rewrite fmap_app, entries_hashes, Ph.
    rewrite <- (take_drop i (transactionHashes b)), (drop_S _ h i Eh), app_comm_cons, app_assoc in Hfresh.
    apply NoDup_app in Hfresh as (_ & D & _). intros Hin. apply (D h Hin). left. }
  pose proof (pushTransaction_accepts getObjectHash getPaymentId (with_transactions e (transactions e ++ [mk_tentry t []])) h
    (mk_tindex blk (Z.of_nat (S i))) st (mk_tentry t [])) as P. cbn [with_transactions transactions ti_transaction tx] in P.
  rewrite Nat2Z.id in P. rewrite P; [|rewrite lookup_app_r by lia; replace (S i - length (transactions e))%nat with 0%nat by lia; reflexivity|assumption..].
  do 2 eexists. split; [reflexivity|]. unfold with_entry. cbn [with_transactions bl be_height block_cumulative_size cumulative_difficulty already_generated_coins transactions].
  rewrite insert_app_r_alt by lia. replace (S i - length (transactions e))%nat with 0%nat by lia. cbn [insert list_insert].
  change (mk_bentry (bl e) _ _ _ _ (transactions e ++ [?x])) with (with_transactions e (transactions e ++ [x])).
  pose proof I as [B T Bu]. split.
  - exact B.
  - cbn [with_transactions transactions]. rewrite fmap_app, T, (take_S_r _ _ t Et). reflexivity.
  - rewrite (pairs_snoc i e st) with (h := h) by assumption. rewrite entries_snoc, app_assoc.
    assert (length (block_pairs e) = S i) as -> by (rewrite <- (length_fmap fst), Ph; cbn [length]; rewrite length_take; lia).
    apply built_push; assumption.
Qed.

Lemma push_transactions_ok : forall txs i e st size fee interest r, txs = drop i alltxs -> (i <= length alltxs)%nat -> loop_inv i e st ->
  push_transactions cur zone now bs mh txs i e (mk_tindex blk (Z.of_nat i)) st size fee interest = Some r ->
  match r with
  | Invalid st' => built st' L
  | Pushed e' st' _ _ _ => loop_inv (length alltxs) e' st'
  end.
Proof.
  induction txs as [|t txs IH]; intros i e st size fee interest r Et Hi I E.
  - cbn [push_transactions] in E. injection E as <-. assert (length alltxs = i) as -> by (apply (f_equal length) in Et; rewrite length_drop in Et; cbn in Et; lia). exact I.
  - assert (alltxs !! i = Some t) as Ei by (rewrite <- (Nat.add_0_r i), <- lookup_drop, <- Et; reflexivity).
    pose proof (lookup_lt_Some _ _ _ Ei) as Li. cbn [push_transactions] in E. rewrite (li_block _ _ _ I) in E.
    apply obind_Some in E as (h & Eh & E). apply obind_Some in E as (a & _ & E). apply obind_Some in E as ([ok max] & C & E).
    destruct (negb _) eqn:V in E.
    + apply obind_Some in E as (st' & P & [= <-]). destruct (loop_pop i e st I Hi) as (st'' & P' & B). congruence.
    + assert (ok = true) as -> by (destruct ok; [reflexivity|rewrite andb_false_r in V; discriminate]).
      cbn [ti_block ti_transaction] in E.
      replace (wrap U16 (Z.of_nat i + 1)) with (Z.of_nat (S i)) in E by (rewrite wrap_id; [lia|apply in_ity_spec; cbn [U16 i_min i_max]; lia]).
      destruct (push_one i e st t h max I Li Ei Eh C) as (e' & st' & P & I'). rewrite P in E. cbn [obind] in E.
      apply obind_Some in E as (int & _ & E). eapply IH; [|exact Li|exact I'|exact E].
      apply (f_equal (drop 1)) in Et. rewrite drop_drop in Et. change (drop 1 (t :: txs)) with txs in Et. rewrite Et. f_equal. lia.
Qed.

(** The sums over the transactions of a block. *)
Definition sizes (txs : list Transaction) (acc : Z) : Z := fold_left (fun s t => u64 (s + getObjectBinarySize t)) txs acc.

Fixpoint fees (txs : list Transaction) (acc : Z) : option Z :=
  match txs with
  | [] => Some acc
  | t :: txs => a <- getTransactionAllInputsAmount cur (inputs t) 0 ;; fees txs (u64 (acc + u64 (a - get_outs_money_amount t)))
  end.

Fixpoint interest_sum (txs : list Transaction) (acc : Z) : option Z :=
  match txs with
  | [] => Some acc
  | t :: txs => i <- calculateTotalTransactionInterest cur (inputs t) 0 ;; interest_sum txs (u64 (acc + i))
  end.

Lemma interest_sum_word txs : forall acc s, word64 acc -> interest_sum txs acc = Some s -> word64 s.
Proof.
  clear. induction txs as [|t txs IH]; intros acc s H E; cbn [interest_sum] in E; [congruence|].
  apply obind_Some in E as (i & _ & E). eapply IH; [|exact E]. pose proof (wrap_range U64 (acc + i)) as R. cbn [U64 i_min i_max] in R. unfold word64. lia.
Qed.

Lemma push_transactions_sums txs : forall i e index st size fee interest e' st' size' fee' interest',
  push_transactions cur zone now bs mh txs i e index st size fee interest = Some (Pushed e' st' size' fee' interest') ->
  size' = sizes txs size /\ fees txs fee = Some fee' /\ interest_sum txs interest = Some interest'.
Proof.
  clear. induction txs as [|t txs IH]; intros i e index st size fee interest e' st' size' fee' interest' E; cbn [push_transactions] in E;
    [injection E as <- <- <- <- <-; auto|]. cbn [fees interest_sum sizes fold_left].
  apply obind_Some in E as (h & Eh & E). apply obind_Some in E as (a & -> & E). apply obind_Some in E as ([ok max] & C & E).
  destruct (negb _) in E; [apply obind_Some in E as (x & _ & E); discriminate|]. apply obind_Some in E as ([[r e1] st1] & _ & E).
  apply obind_Some in E as (int & -> & E). cbn [obind]. eapply IH, E.
Qed.
End Loop.

(** ** The invariant *)

Section Chain.
Context {CK : CryptoChecks} {CO : Codec} (cur : currency) (cps : points) (zone : bool) (now : Z).

Abbreviation built := (Ledger.built getObjectHash getPaymentId).
Abbreviation push := (pushBlock cur cps zone now).
Abbreviation hash_of := (fun e => get_block_hash (bl e)).

(** An entry at its height. *)
Record entry_at (h : nat) (e : BlockEntry) : Prop := {
  ea_base : (tx <$> transactions e) !! 0%nat = Some (baseTransaction (bl e));
  ea_length : length (transactions e) = S (length (transactionHashes (bl e)));
  ea_short : Z.of_nat (length (transactions e)) < 2 ^ 16;
  ea_height : be_height e = Z.of_nat h;
  ea_inputs : inputs (baseTransaction (bl e)) = [BaseInput (Z.of_nat h)];
  ea_outputs : Forall (fun t => Z.of_nat (length (outputs t)) < 2 ^ 16) (tx <$> transactions e)
}.

Lemma ea_index h e : entry_at h e -> base_index (bl e) = Some (Z.of_nat h).
Proof. intros Ea. unfold base_index. rewrite (ea_inputs h e Ea). reflexivity. Qed.

(** The deposits and the interest of the blocks. *)
Definition block_interest (e : BlockEntry) : Z := default 0 (interest_sum cur (tx <$> tail (transactions e)) 0).
Definition deposit_log (bs : blocks) : log := (fun e => (block_deposit e, block_interest e)) <$> bs.

Definition stamps (bs : blocks) : list (Z * bytes) := (fun e => (timestamp (bl e), get_block_hash (bl e))) <$> bs.

(** The detector: the first height with a completed vote, or nothing when the height of the upgrade
    is fixed; blocks have the version of their height. *)
Definition detector_state (bs : blocks) (v : Z) : Prop :=
  if m_upgradeHeight cur =? UNDEF_HEIGHT then detector_inv cur bs v else v = UNDEF_HEIGHT /\ versions_ok cur bs v.

Record chain_inv (c : chain) : Prop := {
  ci_short : chain_height (m_blocks c) < 2 ^ 32;
  ci_index : m_blockIndex c = hash_of <$> m_blocks c;
  ci_nodup : NoDup (m_blockIndex c);
  ci_entries : forall h e, m_blocks c !! h = Some e -> entry_at h e;
  ci_ledger : built (m_store c) (chain_ledger (m_blocks c));
  ci_times : ts_ok (m_timestampIndex c);
  ci_stamps : m_timestampIndex c ≡ₚ stamps (m_blocks c);
  ci_counts : counts (m_generatedTransactionsIndex c) ((fun e => tx_count (bl e)) <$> m_blocks c);
  ci_deposits : refines (m_depositIndex c) (deposit_log (m_blocks c));
  ci_interest : Forall (fun e => is_Some (interest_sum cur (tx <$> tail (transactions e)) 0)) (m_blocks c);
  ci_voting : detector_state (m_blocks c) (m_votingCompleteHeight c);
  ci_links : forall h e e', m_blocks c !! h = Some e -> m_blocks c !! S h = Some e' -> previousBlockHash (bl e') = hash_of e
}.

(** The parameters of the upgrade are usable. *)
Definition upgrade_ok : Prop := m_upgradeHeight cur = UNDEF_HEIGHT -> voting_ok cur.
Hypothesis (UO : upgrade_ok).

Lemma empty_chain_inv : chain_inv empty_chain.
Proof.
  split; cbn [empty_chain m_blocks m_blockIndex m_store m_depositIndex m_timestampIndex m_generatedTransactionsIndex m_votingCompleteHeight].
  - unfold chain_height. cbn [length]. lia.
  - reflexivity.
  - constructor.
  - intros h e E. destruct h; discriminate.
  - constructor.
  - constructor.
  - reflexivity.
  - exact counts_empty.
  - split; [|split; reflexivity]. split; [cbn; lia|]. split; [constructor|]. intros n. rewrite firstn_nil. cbn. lia.
  - constructor.
  - unfold detector_state. destruct (Z.eqb_spec (m_upgradeHeight cur) UNDEF_HEIGHT) as [E|N]; [|split; [reflexivity|intros h e X; destruct h; discriminate]].
    apply (detector_run_inv cur (UO E)). constructor.
  - intros h e e' E. destruct h; discriminate.
Qed.

(** A block with its transactions, new to the chain. *)
Record block_wf (b : Block) (txs : list Transaction) (c : chain) : Prop := {
  bw_length : length (transactionHashes b) = length txs;
  bw_short : Z.of_nat (length txs) < 2 ^ 16 - 1;
  bw_txs : Forall tx_wf txs;
  bw_outputs : Z.of_nat (length (outputs (baseTransaction b))) < 2 ^ 16;
  bw_fresh : NoDup ((le_hash <$> chain_ledger (m_blocks c)) ++ getObjectHash (baseTransaction b) :: transactionHashes b)
}.

Lemma prevalidate_base b h : prevalidate_miner_transaction cur b h = Some true -> inputs (baseTransaction b) = [BaseInput h].
Proof.
  unfold prevalidate_miner_transaction. destruct (inputs (baseTransaction b)) as [|[blockIndex| |] [|]]; try discriminate.
  destruct (Z.eqb_spec blockIndex h) as [->|]; [reflexivity|discriminate].
Qed.

(** What a header that passes has shown. *)
Lemma header_ok b c d : check_block_header cur cps now b c = Some (inl d) ->
  get_block_hash b ∉ m_blockIndex c /\ checkBlockVersion cur c b = true /\ Some (previousBlockHash b) = getTailId c /\
  check_block_timestamp_main cur now c b = true /\ getDifficultyForNextBlock cur c = Some d /\ d <> 0 /\
  (if is_in_checkpoint_zone (getCurrentBlockchainHeight (m_blocks c)) cps
   then fst (check_block (getCurrentBlockchainHeight (m_blocks c)) (get_block_hash b) cps) else checkProofOfWork b d) = true /\
  prevalidate_miner_transaction cur b (u32 (chain_height (m_blocks c))) = Some true.
Proof.
  unfold check_block_header, hasBlock. destruct (bool_decide (get_block_hash b ∈ m_blockIndex c)) eqn:H; [discriminate|]. apply bool_decide_eq_false in H.
  destruct (checkBlockVersion cur c b); cbn [negb]; [|discriminate]. intros E. apply obind_Some in E as (tail & Et & E).
  destruct (bool_decide (previousBlockHash b = tail)) eqn:P; cbn [negb] in E; [|discriminate]. apply bool_decide_eq_true in P.
  destruct (check_block_timestamp_main cur now c b); cbn [negb] in E; [|discriminate].
  apply obind_Some in E as (d' & Ed & E). destruct (Z.eqb_spec d' 0) as [|Nd]; [discriminate|].
  destruct (if is_in_checkpoint_zone _ _ then _ else _) eqn:W in E; cbn [negb] in E; [|discriminate].
  apply obind_Some in E as (v & Ev & E). destruct v; cbn [negb] in E; [|discriminate]. injection E as <-.
  rewrite Et, <- P. auto 10.
Qed.

Lemma header_index b c d : chain_inv c -> check_block_header cur cps now b c = Some (inl d) ->
  inputs (baseTransaction b) = [BaseInput (chain_height (m_blocks c))].
Proof.
  intros I H. apply header_ok in H as (_ & _ & _ & _ & _ & _ & _ & H). apply prevalidate_base in H. rewrite H.
  rewrite u32_small; [reflexivity|]. pose proof (ci_short c I). pose proof (chain_height_nonneg (m_blocks c)). lia.
Qed.

(** The miner transaction is always accepted. *)
Lemma push_miner b txs c d : chain_inv c -> block_wf b txs c -> check_block_header cur cps now b c = Some (inl d) ->
  exists e st, pushTransaction getObjectHash getPaymentId (mk_bentry b 0 0 0 0 [mk_tentry (baseTransaction b) []])
      (getObjectHash (baseTransaction b)) (mk_tindex (u32 (chain_height (m_blocks c))) 0) (m_store c) = Some (true, e, st) /\
    loop_inv (u32 (chain_height (m_blocks c))) (chain_ledger (m_blocks c)) b txs 0 e st.
Proof.
  intros I [W1 W2 W3 W4 W5] H. pose proof (header_index b c d I H) as Eb.
  assert (images (inputs (baseTransaction b)) = [] /\ ms_refs (inputs (baseTransaction b)) = []) as [Ei Er] by (rewrite Eb; split; reflexivity).
  assert (acceptable (baseTransaction b) (getObjectHash (baseTransaction b)) (m_store c)) as Ac.
  { split; rewrite ?Ei, ?Er; try constructor; [|intros x Hx; inversion Hx].
    eapply built_fresh; [exact (ci_ledger c I)|]. apply NoDup_app in W5 as (_ & D & _). intros Hin. apply (D _ Hin). left. }
  assert (spendable (baseTransaction b) (m_store c)) as Sp by (unfold spendable; rewrite Er; constructor).
  pose proof (pushTransaction_accepts getObjectHash getPaymentId (mk_bentry b 0 0 0 0 [mk_tentry (baseTransaction b) []])
    (getObjectHash (baseTransaction b)) (mk_tindex (u32 (chain_height (m_blocks c))) 0) (m_store c) (mk_tentry (baseTransaction b) []) eq_refl Ac Sp W4) as P.
  rewrite P. do 2 eexists. split; [reflexivity|]. split; [reflexivity|reflexivity|].
  unfold block_pairs, with_entry. cbn [bl transactions ti_transaction].
  assert (forall g, tx <$> <[Z.to_nat 0 := mk_tentry (baseTransaction b) g]> [mk_tentry (baseTransaction b) []] = [baseTransaction b]) as -> by reflexivity.
  cbn [zip_with]. rewrite zip_with_nil_r. apply (built_push _ _ _ _ _ _ (mk_tindex _ (Z.of_nat 0))); [exact (ci_ledger c I)|assumption..].
Qed.

Lemma with_store_same c : with_store (m_store c) c = c.
Proof. destruct c. reflexivity. Qed.

(** The size of a block with its transactions. *)
Definition block_size (b : Block) (txs : list Transaction) : Z := sizes txs (getObjectBinarySize (baseTransaction b)).

(** How [pushBlock] ends. *)
Inductive push_end (b : Block) (txs : list Transaction) (c : chain) : bool -> bvc -> chain -> Prop :=
| end_header v : check_block_header cur cps now b c = Some (inr v) -> push_end b txs c false v c
| end_invalid d : check_block_header cur cps now b c = Some (inl d) -> push_end b txs c false failed c
| end_oversize d e st : check_block_header cur cps now b c = Some (inl d) ->
    loop_inv (u32 (chain_height (m_blocks c))) (chain_ledger (m_blocks c)) b txs (length txs) e st ->
    checkCumulativeBlockSize cur (block_size b txs) (chain_height (m_blocks c)) = Some false ->
    push_end b txs c false failed (with_store st c)
| end_accepted d e st size fee interest reward emission c1 deposits voting :
    size = block_size b txs -> fees cur txs 0 = Some fee -> interest_sum cur txs 0 = Some interest ->
    check_block_header cur cps now b c = Some (inl d) ->
    loop_inv (u32 (chain_height (m_blocks c))) (chain_ledger (m_blocks c)) b txs (length txs) e st ->
    checkCumulativeBlockSize cur size (chain_height (m_blocks c)) = Some true ->
    validate_miner_transaction cur (out_amount <$> outputs (baseTransaction b)) (u32 (chain_height (m_blocks c)))
      size (get_last_n_blocks_sizes c (m_rewardBlocksWindow cur)) (getCoinsInCirculation c) fee = Some (Some (reward, emission)) ->
    push_entry (finish_block e size d emission interest c) (with_store st c) = Some c1 ->
    pushToDepositIndex (finish_block e size d emission interest c) interest (m_depositIndex c) = Some deposits ->
    blockPushed cur BLOCK_MAJOR_VERSION_2 (m_blocks c ++ [finish_block e size d emission interest c]) (m_votingCompleteHeight c) = Some voting ->
    push_end b txs c true added (mk_chain (m_blocks c1) (m_blockIndex c1) st deposits (m_timestampIndex c1)
      (m_generatedTransactionsIndex c1) voting (next_cumulative_size_limit cur c1)).

Lemma push_entry_frame e c c1 : push_entry e c = Some c1 ->
  m_blocks c1 = m_blocks c ++ [e] /\ m_store c1 = m_store c /\ m_depositIndex c1 = m_depositIndex c /\ m_votingCompleteHeight c1 = m_votingCompleteHeight c.
Proof.
  unfold push_entry. intros E. apply obind_Some in E as ([r g] & _ & E). apply obind_Some in E as (u & _ & [= <-]). auto.
Qed.

Lemma push_ends b txs c r v c' : chain_inv c -> block_wf b txs c -> push b txs c = Some (r, v, c') -> push_end b txs c r v c'.
Proof.
  intros I W E. unfold pushBlock in E. apply obind_Some in E as ([d|w] & Eh & E); [|injection E as <- <- <-; apply end_header, Eh].
  destruct (push_miner b txs c d I W Eh) as (e0 & st0 & P & I0). rewrite P in E. cbn [obind] in E.
  apply obind_Some in E as (res & Er & E).
  pose proof (push_transactions_ok cur zone now (m_blocks c) _ _ b txs (bw_length _ _ _ W) (bw_fresh _ _ _ W) (bw_txs _ _ _ W) (bw_short _ _ _ W)
    txs 0 e0 st0 _ _ _ res eq_refl ltac:(lia) I0 Er) as R.
  pose proof (built_unique (m_store c) _ (ci_ledger c I)) as U.
  destruct res as [st|e st size fee interest]; [injection E as <- <- <-; rewrite <- (U st R), with_store_same; eapply end_invalid, Eh|].
  destruct (push_transactions_sums cur zone now (m_blocks c) b txs _ _ _ _ _ _ _ _ _ _ _ _ Er) as (-> & Ef & Ei). fold (block_size b txs) in *.
  apply obind_Some in E as (ok & Es & E). destruct ok; cbn [negb] in E; [|injection E as <- <- <-; eapply end_oversize; eassumption].
  apply obind_Some in E as ([[reward emission]|] & Ev & E).
  - apply obind_Some in E as (c1 & Ec & E). apply obind_Some in E as (deposits & Ed & E). apply obind_Some in E as (voting & Ew & E).
    injection E as <- <- <-. pose proof (push_entry_frame _ _ _ Ec) as (F1 & F2 & F3 & F4).
    rewrite F1, F4 in Ew. rewrite F3 in Ed. rewrite F2. eapply end_accepted; try eassumption. reflexivity.
  - destruct (loop_pop _ _ b txs (bw_length _ _ _ W) _ e st R (le_n _)) as (st1 & P1 & B1). rewrite P1 in E. cbn [obind] in E.
    injection E as <- <- <-. rewrite <- (U st1 B1), with_store_same. eapply end_invalid, Eh.
Qed.

(** A rejected block leaves the chain as it was, unless it was rejected for its size. *)
Lemma rejected_unchanged b txs c v c' : chain_inv c -> block_wf b txs c -> push b txs c = Some (false, v, c') ->
  c' = c \/ checkCumulativeBlockSize cur (block_size b txs) (chain_height (m_blocks c)) = Some false /\ exists st, c' = with_store st c.
Proof. intros I W E. pose proof (push_ends _ _ _ _ _ _ I W E) as P. inversion P; subst; eauto. Qed.

(** ** Accepted blocks *)

Lemma block_deposit_range e : - 2 ^ 63 <= block_deposit e < 2 ^ 63.
Proof.
  assert (forall z, - 2 ^ 63 <= wrap I64 z < 2 ^ 63) as W by (intros z; pose proof (wrap_range I64 z) as R; cbn [I64 i_min i_max] in R; lia).
  unfold block_deposit. cut (forall d, - 2 ^ 63 <= d < 2 ^ 63 ->
    - 2 ^ 63 <= fold_left (fun d e => fold_left deposit_of_output (outputs (tx e)) (fold_left deposit_of_input (inputs (tx e)) d)) (transactions e) d < 2 ^ 63).
  { intros H. apply H. lia. }
  induction (transactions e) as [|t ts IH]; intros d H; cbn [fold_left]; [exact H|]. apply IH. clear IH.
  assert (- 2 ^ 63 <= fold_left deposit_of_input (inputs (tx t)) d < 2 ^ 63) as H1.
  { revert d H. induction (inputs (tx t)) as [|i ins IH]; intros d H; cbn [fold_left]; [exact H|]. apply IH.
    unfold deposit_of_input. destruct i as [| |a n o term]; try exact H. destruct (0 <? term); [apply W|exact H]. }
  revert H1. generalize (fold_left deposit_of_input (inputs (tx t)) d). induction (outputs (tx t)) as [|o outs IH]; intros d' H1; cbn [fold_left]; [exact H1|].
  apply IH. unfold deposit_of_output. destruct (target o) as [|k n term]; [exact H1|]. destruct (0 <? term); [apply W|exact H1].
Qed.

Lemma counts_bound c : chain_inv c -> 0 <= sumZ ((fun e => tx_count (bl e)) <$> m_blocks c) <= 2 ^ 16 * chain_height (m_blocks c).
Proof.
  intros I. assert (Forall (fun e => 0 <= tx_count (bl e) <= 2 ^ 16) (m_blocks c)) as F.
  { apply Forall_lookup_2. intros h e E. destruct (ci_entries c I h e E) as [_ L S _ _ _]. unfold tx_count. lia. }
  unfold chain_height. induction F as [|e es H _ IH]; cbn [fmap list_fmap sumZ fold_right length]; [lia|]. unfold sumZ in IH. lia.
Qed.

Lemma accepted_shape b txs c d e st size emission interest : chain_inv c -> block_wf b txs c ->
  check_block_header cur cps now b c = Some (inl d) ->
  loop_inv (u32 (chain_height (m_blocks c))) (chain_ledger (m_blocks c)) b txs (length txs) e st ->
  entry_at (length (m_blocks c)) (finish_block e size d emission interest c) /\
  tx <$> transactions (finish_block e size d emission interest c) = baseTransaction b :: txs /\
  bl (finish_block e size d emission interest c) = b /\
  built st (chain_ledger (m_blocks c ++ [finish_block e size d emission interest c])).
Proof.
  intros I W H J. pose proof (header_index b c d I H) as Eb. pose proof (loop_length _ _ b txs (bw_length _ _ _ W) _ e st J (le_n _)) as Le.
  pose proof (ci_short c I) as Sh. pose proof (chain_height_nonneg (m_blocks c)) as Nn.
  destruct J as [B T Bu]. destruct W as [W1 W2 W3 W4 _]. cbn [finish_block bl transactions]. rewrite firstn_all in T. split; [|split; [exact T|split; [exact B|]]].
  - split; cbn [finish_block bl transactions]; [rewrite T, B; reflexivity|rewrite B; lia|lia|..].
    + cbn [finish_block be_height]. rewrite u32_small by lia. reflexivity.
    + rewrite B, Eb. reflexivity.
    + rewrite T. constructor; [exact W4|]. apply (Forall_impl _ _ _ W3). intros t Wt. exact (wf_outputs t Wt).
  - rewrite chain_ledger_snoc. unfold block_ledger. rewrite u32_small in Bu by lia. exact Bu.
Qed.

Section Accepted.
Context (b : Block) (txs : list Transaction) (c : chain) (I : chain_inv c) (W : block_wf b txs c).
Context (d : Z) (e : BlockEntry) (st : store) (size fee interest reward emission : Z) (c1 : chain) (deposits : DepositIndex.DepositIndex) (voting : Z).
Hypothesis (H : check_block_header cur cps now b c = Some (inl d)).
Hypothesis (J : loop_inv (u32 (chain_height (m_blocks c))) (chain_ledger (m_blocks c)) b txs (length txs) e st).
Hypothesis (Wi : word64 interest) (Hi : interest_sum cur txs 0 = Some interest).
Let e' : BlockEntry := finish_block e size d emission interest c.
Hypothesis (Hc : push_entry e' (with_store st c) = Some c1).
Hypothesis (Hd : pushToDepositIndex e' interest (m_depositIndex c) = Some deposits).
Hypothesis (Hv : blockPushed cur BLOCK_MAJOR_VERSION_2 (m_blocks c ++ [e']) (m_votingCompleteHeight c) = Some voting).
Hypothesis (Short : chain_height (m_blocks c) + 1 < 2 ^ 32).
Let c' : chain := mk_chain (m_blocks c1) (m_blockIndex c1) st deposits (m_timestampIndex c1) (m_generatedTransactionsIndex c1) voting (next_cumulative_size_limit cur c1).
Let g' : GeneratedTransactionsIndex := mk_generated
  (<[Z.of_nat (length ((fun e => tx_count (bl e)) <$> m_blocks c)) := sumZ (((fun e => tx_count (bl e)) <$> m_blocks c) ++ [tx_count b])]>
    (gen_index (m_generatedTransactionsIndex c))) (sumZ (((fun e => tx_count (bl e)) <$> m_blocks c) ++ [tx_count b])).

Lemma accepted_bl : bl e' = b.
Proof. exact (li_block _ _ _ _ _ _ _ J). Qed.

Lemma accepted_index : base_index b = Some (Z.of_nat (length ((fun e => tx_count (bl e)) <$> m_blocks c))).
Proof. unfold base_index. rewrite (header_index b c d I H), length_fmap. reflexivity. Qed.

Lemma accepted_counts : 0 <= sumZ ((fun e => tx_count (bl e)) <$> m_blocks c) + tx_count b < 2 ^ 64 /\
  Z.of_nat (length ((fun e => tx_count (bl e)) <$> m_blocks c)) < 2 ^ 64 - 1.
Proof.
  pose proof (counts_bound c I) as C. pose proof (bw_short _ _ _ W). pose proof (bw_length _ _ _ W). unfold tx_count at 2 4.
  rewrite length_fmap. unfold chain_height in *. lia.
Qed.

Lemma accepted_entry : c1 = mk_chain (m_blocks c ++ [e']) (m_blockIndex c ++ [get_block_hash b]) st (m_depositIndex c)
  (ts_add (timestamp b) (get_block_hash b) (m_timestampIndex c)) g' (m_votingCompleteHeight c) (m_current_block_cumul_sz_limit c).
Proof.
  pose proof (proj1 (header_ok b c d H)) as Nh. unfold push_entry, bi_push in Hc.
  cbn [with_store m_blocks m_blockIndex m_store m_depositIndex m_timestampIndex m_generatedTransactionsIndex m_votingCompleteHeight m_current_block_cumul_sz_limit] in Hc.
  rewrite accepted_bl, decide_False in Hc by exact Nh. cbn [snd] in Hc.
  destruct accepted_counts as [C1 C2]. rewrite (gen_add_ok _ _ b (ci_counts c I) accepted_index C1) in Hc. cbn [obind] in Hc.
  apply obind_Some in Hc as (u & _ & [= <-]). reflexivity.
Qed.

Lemma accepted_link h x : S h = length (m_blocks c) -> m_blocks c !! h = Some x -> previousBlockHash b = hash_of x.
Proof.
  intros L Ex. pose proof (proj1 (proj2 (proj2 (header_ok b c d H)))) as T. unfold getTailId in T. destruct (m_blocks c) as [|y ys] eqn:Em; [discriminate|].
  unfold bi_getTailId in T. rewrite (ci_index c I), Em, last_lookup, length_fmap, list_lookup_fmap in T. rewrite <- L in T. cbn [Nat.pred] in T. rewrite Ex in T. injection T as ->. reflexivity.
Qed.

Lemma accepted_detector : detector_state (m_blocks c ++ [e']) voting /\ blockPopped cur (m_blocks c) voting = Some (m_votingCompleteHeight c).
Proof.
  pose proof (ci_voting c I) as V. pose proof (chain_height_nonneg (m_blocks c)) as Nn. unfold detector_state in *.
  assert (majorVersion (bl e') = get_block_major_version_for_height cur BLOCK_MAJOR_VERSION_2 (m_votingCompleteHeight c) (chain_height (m_blocks c))) as M.
  { pose proof (proj1 (proj2 (header_ok b c d H))) as Cv. unfold checkBlockVersion, get_block_height in Cv.
    rewrite (header_index b c d I H) in Cv. rewrite accepted_bl. apply Z.eqb_eq, Cv. }
  destruct (Z.eqb_spec (m_upgradeHeight cur) UNDEF_HEIGHT) as [U|N].
  - pose proof (detector_push_inv cur (UO U) _ _ _ _ V ltac:(lia) M Hv) as V'. split; [exact V'|].
    destruct (blockPopped_ok cur (UO U) (m_blocks c) voting e' (di_first _ _ _ V') ltac:(lia)) as (w & Ew & Fw & _). rewrite Ew. f_equal.
    apply (first_complete_unique cur (m_blocks c)); [lia|exact Fw|exact (di_first _ _ _ V)].
  - destruct V as [V Vs]. rewrite V in *. unfold blockPushed in Hv. rewrite (proj2 (Z.eqb_neq _ _) N) in Hv. cbn [negb] in Hv.
    apply obind_Some in Hv as (u & _ & E). apply obind_Some in E as (w & _ & E).
    assert (voting = UNDEF_HEIGHT) as -> by (destruct (_ <=? _) in E; apply obind_Some in E as (? & _ & [= <-]); reflexivity).
    split; [|reflexivity]. split; [reflexivity|]. intros h x E'. apply lookup_app_Some in E' as [E'|[L E']]; [exact (Vs h x E')|].
    apply list_lookup_singleton_Some in E' as [E' <-]. rewrite M. f_equal. unfold chain_height. lia.
Qed.

Lemma accepted_interest : interest_sum cur (tx <$> tail (transactions e')) 0 = Some interest.
Proof.
  pose proof (accepted_shape b txs c d e st size emission interest I W H J) as (_ & Et & _ & _). fold e' in Et.
  destruct (transactions e') as [|t ts]; [discriminate|]. injection Et as _ Et. cbn [tail]. change (tx <$> ts = txs) in Et. rewrite Et. exact Hi.
Qed.

Lemma accepted_log : refines deposits (deposit_log (m_blocks c ++ [e'])) /\ DepositIndex.popBlock deposits = Some (m_depositIndex c).
Proof.
  pose proof (ci_deposits c I) as Rf. pose proof (block_deposit_range e') as R.
  assert (block_interest e' = interest) as Ei by (unfold block_interest; rewrite accepted_interest; reflexivity).
  pose proof (pushBlock_ok (m_depositIndex c) _ (block_deposit e') interest Rf R Wi ltac:(unfold deposit_log; rewrite length_fmap; unfold chain_height in Short; lia)) as P.
  unfold pushToDepositIndex in Hd. rewrite Hd in P. destruct P as [_ Rf'].
  assert (deposit_log (m_blocks c ++ [e']) = deposit_log (m_blocks c) ++ [(block_deposit e', interest)]) as -> by (unfold deposit_log; rewrite fmap_app; cbn; rewrite Ei; reflexivity).
  split; [exact Rf'|]. destruct (popBlock_ok _ _ _ Rf') as (d0 & Ed & Rd). rewrite Ed. f_equal. exact (refines_unique _ _ _ Rd Rf).
Qed.

Lemma accepted_inv : chain_inv c'.
Proof.
  pose proof (accepted_shape b txs c d e st size emission interest I W H J) as (Ea & _ & Eb & Bu). fold e' in Ea, Eb, Bu.
  pose proof (proj1 (header_ok b c d H)) as Nh. destruct accepted_counts as [C1 C2]. unfold c'. rewrite accepted_entry.
  split; cbn [m_blocks m_blockIndex m_store m_depositIndex m_timestampIndex m_generatedTransactionsIndex m_votingCompleteHeight].
  - unfold chain_height in *. rewrite length_app. cbn [length]. lia.
  - rewrite fmap_app, <- (ci_index c I). cbn [fmap list_fmap]. rewrite Eb. reflexivity.
  - apply NoDup_app. split; [exact (ci_nodup c I)|]. split; [|apply NoDup_singleton]. intros x Hx ->%list_elem_of_singleton. exact (Nh Hx).
  - intros h x Ex. apply lookup_app_Some in Ex as [Ex|[Le Ex]]; [exact (ci_entries c I h x Ex)|].
    apply list_lookup_singleton_Some in Ex as [Z0 <-]. replace h with (length (m_blocks c)) by lia. exact Ea.
  - exact Bu.
  - apply ts_add_ok, (ci_times c I).
  - rewrite ts_add_permutation, (ci_stamps c I). unfold stamps. rewrite fmap_app. cbn [fmap list_fmap]. rewrite Eb. apply Permutation_cons_append.
  - rewrite fmap_app. cbn [fmap list_fmap]. rewrite Eb. exact (gen_add_counts _ _ b (ci_counts c I)).
  - exact (proj1 accepted_log).
  - apply list.Forall_app. split; [exact (ci_interest c I)|]. constructor; [rewrite accepted_interest; eauto|constructor].
  - exact (proj1 accepted_detector).
  - intros h x y Ex Ey. apply lookup_app_Some in Ey as [Ey|[Ly Ey]]; [refine (ci_links c I h x y _ Ey); rewrite lookup_app_l in Ex by (apply lookup_lt_Some in Ey; lia); exact Ex|].
    apply list_lookup_singleton_Some in Ey as [Z0 <-]. rewrite Eb. apply (accepted_link h x); [lia|]. rewrite lookup_app_l in Ex by lia. exact Ex.
Qed.

(** Popping the block gives back its transactions and the state before it, up to the limit for the
    size of blocks. *)
Lemma accepted_pop : popBlock cur (get_block_hash b) c' =
  Some (txs, mk_chain (m_blocks c) (m_blockIndex c) (m_store c) (m_depositIndex c) (m_timestampIndex c) (m_generatedTransactionsIndex c)
    (m_votingCompleteHeight c) (m_current_block_cumul_sz_limit c')).
Proof.
  pose proof (accepted_shape b txs c d e st size emission interest I W H J) as (Ea & Et & Eb & Bu). fold e' in Ea, Et, Eb, Bu.
  pose proof (proj1 (header_ok b c d H)) as Nh. destruct accepted_counts as [C1 C2]. destruct accepted_log as [_ Pd].
  unfold popBlock, c'. rewrite accepted_entry.
  cbn [m_blocks m_blockIndex m_store m_depositIndex m_timestampIndex m_generatedTransactionsIndex m_votingCompleteHeight m_current_block_cumul_sz_limit].
  rewrite last_snoc. rewrite chain_ledger_snoc in Bu.
  destruct (popTransactions_ok (Z.of_nat (length (m_blocks c))) (chain_ledger (m_blocks c)) e' st) as (st0 & -> & B0);
    [split; [exact (ea_base _ _ Ea)|rewrite (ea_length _ _ Ea); lia]|exact Bu|]. cbn [obind]. rewrite Eb.
  rewrite ts_remove_add. 2: { rewrite (ci_stamps c I). intros Hin. apply list_elem_of_fmap in Hin as (x & [= _ Ex] & Hx). apply Nh. rewrite (ci_index c I), Ex. apply list_elem_of_fmap. eauto. }
  cbn [snd]. unfold g'. rewrite (gen_remove_add _ _ b (ci_counts c I) accepted_index C1 C2). cbn [obind]. rewrite Pd. cbn [obind].
  rewrite removelast_last, bi_pop_snoc. cbn [obind]. assert (bi_size (m_blockIndex c) =? chain_height (m_blocks c) = true) as ->
    by (apply Z.eqb_eq; unfold bi_size, chain_height in *; rewrite (ci_index c I), length_fmap, u32_small by lia; reflexivity).
  cbn [c_assert obind]. rewrite (proj2 accepted_detector). cbn [obind].
  rewrite <- (built_unique _ _ (ci_ledger c I) st0 B0).
  assert (tx <$> tail (transactions e') = txs) as -> by (destruct (transactions e') as [|t ts]; [discriminate|injection Et as _ Et; exact Et]). reflexivity.
Qed.
End Accepted.

Definition restored (c c' : chain) : chain :=
  mk_chain (m_blocks c) (m_blockIndex c) (m_store c) (m_depositIndex c) (m_timestampIndex c) (m_generatedTransactionsIndex c)
    (m_votingCompleteHeight c) (m_current_block_cumul_sz_limit c').

Lemma accepted_block b txs c v c' : chain_inv c -> block_wf b txs c -> chain_height (m_blocks c) + 1 < 2 ^ 32 ->
  push b txs c = Some (true, v, c') ->
  chain_inv c' /\ popBlock cur (get_block_hash b) c' = Some (txs, restored c c') /\
  exists e, m_blocks c' = m_blocks c ++ [e] /\ bl e = b /\ tx <$> transactions e = baseTransaction b :: txs.
Proof.
  intros I W Sh E. pose proof (push_ends _ _ _ _ _ _ I W E) as P.
  inversion P as [| | |d e st size fee interest reward emission c1 deposits voting _ _ Ei H J _ _ Hc Hd Hv]; subst.
  assert (word64 interest) as Wi by (eapply interest_sum_word, Ei; unfold word64; lia).
  split; [eapply accepted_inv; eassumption|]. split; [eapply accepted_pop; eassumption|].
  pose proof (accepted_shape b txs c d e st size emission interest I W H J) as (_ & Et & Eb & _).
  eexists. cbn [m_blocks]. rewrite (proj1 (push_entry_frame _ _ _ Hc)). auto.
Qed.

(** ** Popping a block of any chain *)

Lemma popBlock_inv c bs e : chain_inv c -> m_blocks c = bs ++ [e] ->
  exists c', popBlock cur (get_block_hash (bl e)) c = Some (tx <$> tail (transactions e), c') /\ chain_inv c' /\ m_blocks c' = bs.
Proof.
  intros I E. pose proof (ci_entries c I (length bs) e ltac:(rewrite E, lookup_app_r, Nat.sub_diag by lia; reflexivity)) as Ea.
  pose proof (ci_short c I) as Sh. rewrite E in Sh. unfold chain_height in Sh. rewrite length_app in Sh. cbn [length] in Sh.
  unfold popBlock. rewrite E, last_snoc.
  pose proof (ci_ledger c I) as Bu. rewrite E, chain_ledger_snoc in Bu.
  destruct (popTransactions_ok (Z.of_nat (length bs)) (chain_ledger bs) e (m_store c)) as (st0 & -> & B0);
    [split; [exact (ea_base _ _ Ea)|rewrite (ea_length _ _ Ea); lia]|exact Bu|]. cbn [obind].
  pose proof (ci_stamps c I) as St. rewrite E in St. unfold stamps in St. rewrite fmap_app in St. cbn [fmap list_fmap] in St.
  destruct (ts_remove_perm (timestamp (bl e)) (get_block_hash (bl e)) (m_timestampIndex c)) as (ts' & -> & Pt & Ot);
    [rewrite St; apply elem_of_app; right; left|]. cbn [snd].
  pose proof (ci_counts c I) as Cn. rewrite E, fmap_app in Cn. cbn [fmap list_fmap] in Cn.
  destruct (gen_remove_counts _ _ (bl e) Cn) as (g' & -> & Cg); [rewrite length_fmap; exact (ea_index _ _ Ea)|rewrite length_fmap; lia|]. cbn [obind].
  pose proof (ci_deposits c I) as Rf. rewrite E in Rf. unfold deposit_log in Rf. rewrite fmap_app in Rf. destruct (popBlock_ok _ _ _ Rf) as (d' & -> & Rd). cbn [obind].
  rewrite removelast_last. pose proof (ci_index c I) as Ix. rewrite E, fmap_app in Ix. cbn [fmap list_fmap] in Ix.
  rewrite Ix, bi_pop_snoc. cbn [obind]. assert (bi_size (hash_of <$> bs) =? chain_height bs = true) as ->
    by (apply Z.eqb_eq; unfold bi_size, chain_height in *; rewrite length_fmap, u32_small by lia; reflexivity).
  cbn [c_assert obind]. assert (exists w, blockPopped cur bs (m_votingCompleteHeight c) = Some w /\ detector_state bs w) as (w & -> & Dw).
  { pose proof (ci_voting c I) as V. unfold detector_state in *. rewrite E in V. destruct (Z.eqb_spec (m_upgradeHeight cur) UNDEF_HEIGHT) as [U|N].
    - destruct (blockPopped_ok cur (UO U) bs (m_votingCompleteHeight c) e (di_first _ _ _ V)) as (w & Ew & _); [unfold chain_height; lia|].
      exists w. split; [exact Ew|]. eapply detector_pop_inv; [exact (UO U)|exact V|exact Ew].
    - destruct V as [V Vs]. rewrite V in Vs |- *. exists UNDEF_HEIGHT. split; [reflexivity|]. split; [reflexivity|].
      intros h x Ex. apply Vs, lookup_app_l_Some, Ex. }
  cbn [obind]. eexists. split; [reflexivity|]. split; [|reflexivity]. pose proof (ci_nodup c I) as Nd. rewrite Ix in Nd. apply NoDup_app in Nd as (Nd & _).
  split; cbn [m_blocks m_blockIndex m_store m_depositIndex m_timestampIndex m_generatedTransactionsIndex m_votingCompleteHeight].
  - unfold chain_height. lia.
  - reflexivity.
  - exact Nd.
  - intros h x Ex. apply (ci_entries c I). rewrite E. apply lookup_app_l_Some, Ex.
  - exact B0.
  - apply Ot, (ci_times c I).
  - rewrite St, <- Permutation_cons_append in Pt. apply Permutation_cons_inv in Pt. symmetry. exact Pt.
  - exact Cg.
  - exact Rd.
  - pose proof (ci_interest c I) as Fi. rewrite E in Fi. apply list.Forall_app in Fi as [Fi _]. exact Fi.
  - exact Dw.
  - intros h x y Ex Ey. refine (ci_links c I h x y _ _); rewrite E; apply lookup_app_l_Some; assumption.
Qed.

(** Disconnecting blocks leads back to every height. *)
Lemma disconnect_ok n : forall c fuel disconnected split, chain_inv c -> 1 <= split -> split + Z.of_nat n = chain_height (m_blocks c) -> (n < fuel)%nat ->
  exists c', disconnect cur fuel (chain_height (m_blocks c) - 1) split disconnected c =
      Some ((bl <$> drop (Z.to_nat split) (m_blocks c)) ++ disconnected, c') /\
    chain_inv c' /\ m_blocks c' = take (Z.to_nat split) (m_blocks c).
Proof.
  induction n as [|n IH]; intros c [|fuel] disconnected split I H1 E F; try lia; cbn [disconnect].
  - replace (chain_height (m_blocks c) - 1 <? split) with true by (symmetry; apply Z.ltb_lt; lia). exists c.
    rewrite drop_ge, take_ge by (unfold chain_height in E; lia). auto.
  - replace (chain_height (m_blocks c) - 1 <? split) with false by (symmetry; apply Z.ltb_ge; lia).
    pose proof (ci_short c I) as Sh. unfold chain_height in E, Sh. destruct (m_blocks c) as [|e bs _] eqn:Eb using rev_ind; [cbn in E; lia|].
    destruct (popBlock_inv c bs e I Eb) as (c1 & P & I1 & E1). unfold chain_height. rewrite length_app in *. cbn [length] in *.
    rewrite lookup_app_r by lia. replace (Z.to_nat (Z.of_nat (length bs + 1) - 1) - length bs)%nat with 0%nat by lia. cbn [lookup list_lookup obind].
    rewrite P. cbn [obind]. replace (u64 (Z.of_nat (length bs + 1) - 1 - 1)) with (chain_height (m_blocks c1) - 1)
      by (rewrite E1, u64_small; unfold chain_height; lia).
    destruct (IH c1 fuel (bl e :: disconnected) split I1 H1) as (c' & -> & I' & E'); [unfold chain_height; rewrite E1; lia|lia|].
    exists c'. rewrite E', E1. split; [|split; [exact I'|]].
    + rewrite drop_app_le by lia. rewrite fmap_app, <- app_assoc. reflexivity.
    + rewrite take_app_le by lia. reflexivity.
Qed.
End Chain.

(** ** Histories *)

(** The states that accepted blocks and [popBlock] lead to, whatever the time, the checkpoints and the
    zone at each step. *)
Inductive chain_run {CK : CryptoChecks} {CO : Codec} (cur : currency) : chain -> Prop :=
| run_start : chain_run cur empty_chain
| run_block cps zone now b txs c v c' : chain_run cur c -> block_wf b txs c -> chain_height (m_blocks c) + 1 < 2 ^ 32 ->
    pushBlock cur cps zone now b txs c = Some (true, v, c') -> chain_run cur c'
| run_undo c bs e txs c' : chain_run cur c -> m_blocks c = bs ++ [e] -> popBlock cur (get_block_hash (bl e)) c = Some (txs, c') -> chain_run cur c'.

Lemma chain_run_inv {CK : CryptoChecks} {CO : Codec} cur c : upgrade_ok cur -> chain_run cur c -> chain_inv cur c.
Proof.
  intros UO. induction 1 as [|cps zone now b txs c v c' _ I W Sh E|c bs e txs c' _ I Eb E].
  - apply empty_chain_inv, UO.
  - exact (proj1 (accepted_block cur cps zone now UO b txs c v c' I W Sh E)).
  - destruct (popBlock_inv cur UO c bs e I Eb) as (c'' & E' & I' & _). congruence.
Qed.
