(* ===== verification/Rebuild.v ===== *)
(** * Rebuilding the indices from the stored blocks (CryptoNoteCore/Blockchain.cpp)

    When the cache on disk is missing or does not belong to the last block,
    [rebuildCache] recomputes the block index, the transaction indices and the
    deposit index from the blocks, and [loadBlockchainIndices] the indices for
    queries.  What they compute is what the operations on the chain had built. *)

From Stdlib Require Import ZArith Lia List Bool.
From S2P Require Import Prelude Bytes IntUtil Currency DepositIndex BlockIndex TxStore Ledger BlockchainIndices UpgradeDetector TxCheck Blockchain ChainInvariant.
From stdpp Require Import gmap gmultiset list.
Import ListNotations.
Open Scope Z_scope.
Open Scope cmon_scope.
Set Default Goal Selector "!".

(** ** Operations *)

Section Rebuild.
Context {CO : Codec} (cur : currency).

(** The loop over the inputs of a transaction. *)
Fixpoint rebuild_inputs (ins : list TransactionInput) (keys : gset bytes) (m : gmap Z (list MultisignatureOutputUsage))
    : option (gset bytes * gmap Z (list MultisignatureOutputUsage)) :=
  match ins with
  | [] => Some (keys, m)
  | KeyInput _ _ keyImage :: ins => rebuild_inputs ins ({[keyImage]} ∪ keys) m
  | MultisignatureInput amount _ outputIndex _ :: ins => m <- set_used true amount outputIndex m ;; rebuild_inputs ins keys m
  | BaseInput _ :: ins => rebuild_inputs ins keys m
  end.

(** The loop over the outputs, with a counter of 16 bits. *)
Fixpoint rebuild_outputs (fuel : nat) (outs : list TransactionOutput) (index : TransactionIndex) (o : Z) (st : store) : option store :=
  match fuel with
  | O => None
  | S fuel =>
      if negb (o <? Z.of_nat (length outs)) then Some st else
      out <- outs !! Z.to_nat o ;;
      let st := match target out with
        | KeyOutput _ => mk_store (m_transactionMap st) (m_spent_keys st)
            (<[out_amount out := vector_of (m_outputs st) (out_amount out) ++ [(index, o)]]> (m_outputs st))
            (m_multisignatureOutputs st) (m_paymentIdIndex st)
        | MultisignatureOutput _ _ _ => mk_store (m_transactionMap st) (m_spent_keys st) (m_outputs st)
            (<[out_amount out := vector_of (m_multisignatureOutputs st) (out_amount out) ++ [mk_usage index o false]]> (m_multisignatureOutputs st))
            (m_paymentIdIndex st)
        end in
      rebuild_outputs fuel outs index (wrap U16 (o + 1)) st
  end.

(** A transaction that is in the map already stays where it is. *)
Definition rebuild_transaction (index : TransactionIndex) (t : Transaction) (st : store) : option store :=
  let transactionHash := getObjectHash t in
  let transactionMap := match m_transactionMap st !! transactionHash with
    | Some _ => m_transactionMap st
    | None => <[transactionHash := index]> (m_transactionMap st)
    end in
  '(keys, m) <- rebuild_inputs (inputs t) (m_spent_keys st) (m_multisignatureOutputs st) ;;
  rebuild_outputs (S (length (outputs t))) (outputs t) index 0 (mk_store transactionMap keys (m_outputs st) m (m_paymentIdIndex st)).

(** The loop over the transactions of block [b], with a counter of 16 bits; the state and the interest. *)
Fixpoint rebuild_transactions (fuel : nat) (b : Z) (ts : list TransactionEntry) (t : Z) (st : store) (interest : Z) : option (store * Z) :=
  match fuel with
  | O => None
  | S fuel =>
      if negb (t <? Z.of_nat (length ts)) then Some (st, interest) else
      transaction <- ts !! Z.to_nat t ;;
      st <- rebuild_transaction (mk_tindex b t) (tx transaction) st ;;
      i <- calculateTotalTransactionInterest cur (inputs (tx transaction)) 0 ;;
      rebuild_transactions fuel b ts (wrap U16 (t + 1)) st (u64 (interest + i))
  end.

(** The loop over the blocks, from height [b] on. *)
Fixpoint rebuild_blocks (b : Z) (bs : blocks) (c : chain) : option chain :=
  match bs with
  | [] => Some c
  | block :: bs =>
      let blockIndex := snd (bi_push (get_block_hash (bl block)) (m_blockIndex c)) in
      '(st, interest) <- rebuild_transactions (S (length (transactions block))) b (transactions block) 0 (m_store c) 0 ;;
      deposits <- pushToDepositIndex block interest (m_depositIndex c) ;;
      rebuild_blocks (u32 (b + 1)) bs (mk_chain (m_blocks c) blockIndex st deposits (m_timestampIndex c) (m_generatedTransactionsIndex c)
        (m_votingCompleteHeight c) (m_current_block_cumul_sz_limit c))
  end.

Definition rebuildCache (c : chain) : option chain :=
  rebuild_blocks 0 (m_blocks c) (mk_chain (m_blocks c) [] (mk_store ∅ ∅ ∅ ∅ (m_paymentIdIndex (m_store c))) (m_depositIndex c) (m_timestampIndex c)
    (m_generatedTransactionsIndex c) (m_votingCompleteHeight c) (m_current_block_cumul_sz_limit c)).

(** [loadBlockchainIndices] without a file that belongs to the last block. *)
Fixpoint rebuild_indices (bs : blocks) (times : list (Z * bytes)) (generated : GeneratedTransactionsIndex) (payments : gmultiset (bytes * bytes))
    : option (list (Z * bytes) * GeneratedTransactionsIndex * gmultiset (bytes * bytes)) :=
  match bs with
  | [] => Some (times, generated, payments)
  | block :: bs =>
      '(_, generated) <- gen_add (bl block) generated ;;
      rebuild_indices bs (ts_add (timestamp (bl block)) (get_block_hash (bl block)) times) generated
        (fold_left (fun p e => PaymentIdIndex_add getObjectHash getPaymentId (tx e) p) (transactions block) payments)
  end.

Definition loadBlockchainIndices (c : chain) : option chain :=
  '(times, generated, payments) <- rebuild_indices (m_blocks c) [] (gen_clear (m_generatedTransactionsIndex c)) ∅ ;;
  Some (mk_chain (m_blocks c) (m_blockIndex c) (with_payments payments (m_store c)) (m_depositIndex c) times generated
    (m_votingCompleteHeight c) (m_current_block_cumul_sz_limit c)).

(** The state of an object that has opened the file of the blocks. *)
Definition opened (bs : blocks) : chain := mk_chain bs [] empty_store DepositIndex.empty_index [] gen_empty UNDEF_HEIGHT 0.

(** The part of [Blockchain::init] that brings the indices back. *)
Definition reload (bs : blocks) : option chain := c <- rebuildCache (opened bs) ;; loadBlockchainIndices c.
End Rebuild.

(** ** A transaction *)

Lemma rebuild_inputs_set ins : forall keys m,
  rebuild_inputs ins keys m = (m' <- set_inputs_used true ins m ;; Some (list_to_set (images ins) ∪ keys, m')).
Proof.
  induction ins as [|i ins IH]; intros keys m; cbn [rebuild_inputs set_inputs_used images omap list_omap image_of].
  - cbn. do 2 f_equal. set_solver.
  - destruct i as [b|a o image|a c o t]; [apply IH| |].
    + rewrite IH. destruct (set_inputs_used true ins m); [|reflexivity]. cbn [obind image_of]. do 2 f_equal. cbn. set_solver.
    + destruct (set_used true a o m) as [m1|]; [|reflexivity]. cbn [obind]. apply IH.
Qed.

Lemma rebuild_outputs_push fuel outs index : forall o indexes st,
  rebuild_outputs fuel outs index o st = (p <- push_outputs fuel outs index o indexes st ;; Some p.2).
Proof.
  induction fuel as [|fuel IH]; intros o indexes st; [reflexivity|]. cbn [rebuild_outputs push_outputs].
  destruct (negb (o <? Z.of_nat (length outs))); [reflexivity|]. destruct (outs !! Z.to_nat o) as [out|]; [|reflexivity]. cbn [obind].
  unfold push_output. destruct (target out); apply IH.
Qed.

Section Ledger.
Context {CO : Codec} (cur : currency).

Abbreviation built := (Ledger.built getObjectHash getPaymentId).
Abbreviation pushed := (push_state getObjectHash getPaymentId).

Lemma rebuild_transaction_ok p t index st : acceptable t (getObjectHash t) st -> spendable t st -> Z.of_nat (length (outputs t)) < 2 ^ 16 ->
  rebuild_transaction index t (with_payments p st) = Some (with_payments p (pushed t (getObjectHash t) index st).2).
Proof.
  intros [Fh Fr Fi Fk] S L. unfold rebuild_transaction, with_payments at 1 2 3 4 5 6. cbn [m_transactionMap m_spent_keys m_outputs m_multisignatureOutputs m_paymentIdIndex].
  rewrite Fh, rebuild_inputs_set, set_inputs_used_flags; [|exact Fr|eapply Forall_impl; [exact S|]; intros r (P & u & Eu & _); eauto]. cbn [obind].
  rewrite (rebuild_outputs_push _ _ _ _ (replicate (length (outputs t)) 0)).
  rewrite (push_outputs_all _ _ (outputs t) []); [|reflexivity|lia|apply length_replicate|exact L]. cbn [obind snd length]. f_equal.
  unfold push_state.
  change (mk_store (<[getObjectHash t := index]> (m_transactionMap st)) ?k ?o ?f ?x) with
    (with_payments x (mk_store (<[getObjectHash t := index]> (m_transactionMap st)) k o f (m_paymentIdIndex st))).
  rewrite !push_all_payments. reflexivity.
Qed.

(** The entries of a ledger, one by one. *)
Definition rebuild_entries (l : ledger) (st : store) : option store :=
  fold_left (fun st e => st <- st ;; rebuild_transaction (le_index e) (le_tx e) st) l (Some st).

Lemma rebuild_entries_app l l' st : rebuild_entries (l ++ l') st = (st <- rebuild_entries l st ;; rebuild_entries l' st).
Proof.
  unfold rebuild_entries. rewrite fold_left_app. destruct (fold_left _ l (Some st)) as [s|]; [reflexivity|]. cbn [obind].
  induction l' as [|e l' IH]; [reflexivity|]. exact IH.
Qed.

Lemma rebuild_entries_cons e l st : rebuild_entries (e :: l) st = (st <- rebuild_transaction (le_index e) (le_tx e) st ;; rebuild_entries l st).
Proof. apply (rebuild_entries_app [e] l). Qed.

(** The hash of an entry is that of its transaction, whose outputs can be counted with 16 bits. *)
Definition plain (e : ledger_entry) : Prop := le_hash e = getObjectHash (le_tx e) /\ Z.of_nat (length (outputs (le_tx e))) < 2 ^ 16.

Lemma rebuild_built p st l : built st l -> Forall plain l -> rebuild_entries l (with_payments p empty_store) = Some (with_payments p st).
Proof.
  induction 1 as [|st l t h index B IH F S]; intros P; [reflexivity|]. apply list.Forall_app in P as [P Pe]. apply list.Forall_singleton in Pe as [Ph Po]. cbn in Ph, Po.
  rewrite rebuild_entries_app, (IH P). cbn [obind]. rewrite rebuild_entries_cons. cbn [le_index le_tx]. subst h.
  rewrite rebuild_transaction_ok by assumption. reflexivity.
Qed.
End Ledger.

(** ** Blocks *)

Lemma log_ok_pushable (bs : log) a i rest : log_ok (bs ++ (a, i) :: rest) -> pushable bs a i = true /\ 0 <= i < 2 ^ 64.
Proof.
  intros O. change (bs ++ (a, i) :: rest) with (bs ++ [(a, i)] ++ rest) in O. rewrite app_assoc in O.
  apply (log_ok_prefix _ (length (bs ++ [(a, i)]))) in O. rewrite firstn_app, firstn_all, Nat.sub_diag, firstn_O, app_nil_r in O.
  pose proof (log_ok_all _ O) as [B1 B2]. rewrite amounts_app in B1. rewrite interests_app in B2. cbn [amounts interests fold_right fst snd] in B1, B2.
  destruct O as (_ & F & _). apply List.Forall_app in F as [F Fi]. pose proof (interests_nonneg bs F). inversion Fi as [|? ? Fi' _]; subst. cbn in Fi'.
  split; [apply pushable_iff; lia|lia].
Qed.

Section Blocks.
Context {CK : CryptoChecks} {CO : Codec} (cur : currency).

Abbreviation built := (Ledger.built getObjectHash getPaymentId).
Abbreviation entry_of := (fun b (i : nat) e => Ledger.mk_entry (getObjectHash (tx e)) (tx e) (mk_tindex b (Z.of_nat i))).

(** The block lists its transactions by their hashes. *)
Definition hashed (e : BlockEntry) : Prop := transactionHashes (bl e) = (fun t => getObjectHash (tx t)) <$> tail (transactions e).

Lemma hashed_ledger h e : entry_at h e -> hashed e -> block_ledger h e = imap (entry_of (Z.of_nat h)) (transactions e).
Proof.
  intros Ea H. unfold block_ledger, entries_from, block_pairs. rewrite H. pose proof (ea_base _ _ Ea) as Eb.
  destruct (transactions e) as [|t ts]; [discriminate|]. injection Eb as <-. cbn [tail].
  change (getObjectHash (tx t) :: ((fun t => getObjectHash (tx t)) <$> ts)) with ((fun t => getObjectHash (tx t)) <$> t :: ts).
  rewrite zip_with_fmap_l, zip_with_fmap_r. generalize (t :: ts) as l. clear. intros l. apply list_eq. intros i. rewrite !list_lookup_imap.
  rewrite lookup_zip_with. destruct (l !! i); reflexivity.
Qed.

Lemma rebuild_transactions_ok b ts rest : forall pre fuel st interest st' interest', ts = pre ++ rest -> (length rest < fuel)%nat -> Z.of_nat (length ts) < 2 ^ 16 ->
  rebuild_entries (imap (fun i => entry_of b (length pre + i)%nat) rest) st = Some st' -> interest_sum cur (tx <$> rest) interest = Some interest' ->
  rebuild_transactions cur fuel b ts (Z.of_nat (length pre)) st interest = Some (st', interest').
Proof.
  induction rest as [|t rest IH]; intros pre [|fuel] st interest st' interest' E F L R Ei; try (cbn in F; lia); cbn [rebuild_transactions].
  - rewrite app_nil_r in E. subst pre. rewrite Z.ltb_irrefl. cbn [negb]. cbn in R, Ei. congruence.
  - assert (length ts = length pre + S (length rest))%nat as Le by (rewrite E, length_app; reflexivity).
    replace (Z.of_nat (length pre) <? Z.of_nat (length ts)) with true by (symmetry; apply Z.ltb_lt; lia). cbn [negb].
    rewrite Nat2Z.id, E, lookup_app_r, Nat.sub_diag by lia. change ((t :: rest) !! 0%nat) with (Some t). cbn [obind].
    cbn [imap] in R. rewrite rebuild_entries_cons in R. cbn [le_index le_tx] in R. rewrite Nat.add_0_r in R.
    apply obind_Some in R as (st1 & -> & R). cbn [obind]. cbn [fmap list_fmap interest_sum] in Ei. apply obind_Some in Ei as (i & -> & Ei). cbn [obind].
    rewrite wrap_id by (apply in_ity_spec; cbn [U16 i_min i_max]; lia).
    replace (Z.of_nat (length pre) + 1) with (Z.of_nat (length (pre ++ [t]))) by (rewrite length_app; cbn; lia).
    rewrite <- E. apply IH; [rewrite <- app_assoc; exact E|cbn in F; lia|exact L| |exact Ei].
    rewrite <- R. f_equal. apply imap_ext. intros i' x _. unfold compose.
    replace (length (pre ++ [t]) + i')%nat with (length pre + S i')%nat by (rewrite length_app; cbn; lia). reflexivity.
Qed.

Section Whole.
Context (c : chain) (I : chain_inv cur c) (Hh : Forall hashed (m_blocks c)).

Lemma block_plain h e : m_blocks c !! h = Some e -> Forall plain (block_ledger h e).
Proof.
  intros E. pose proof (ci_entries cur c I h e E) as Ea. rewrite (hashed_ledger h e Ea (Forall_lookup_1 _ _ _ _ Hh E)).
  apply Forall_lookup_2. intros i x Ex. rewrite list_lookup_imap in Ex. destruct (transactions e !! i) as [t|] eqn:Et; [|discriminate]. injection Ex as <-.
  split; [reflexivity|]. cbn. apply (Forall_lookup_1 _ _ i _ (ea_outputs _ _ Ea)). rewrite list_lookup_fmap, Et. reflexivity.
Qed.

Lemma chain_plain bs : forall pre, m_blocks c = pre ++ bs -> Forall plain (concat (imap (fun i => block_ledger (length pre + i)) bs)).
Proof.
  induction bs as [|e bs IH]; intros pre E; [constructor|]. cbn [imap concat]. apply list.Forall_app. split.
  - apply block_plain. rewrite E, lookup_app_r, Nat.add_0_r, Nat.sub_diag by lia. reflexivity.
  - specialize (IH (pre ++ [e]) ltac:(rewrite <- app_assoc; exact E)).
    erewrite imap_ext; [exact IH|]. intros i x _. unfold compose.
    replace (length (pre ++ [e]) + i)%nat with (length pre + S i)%nat by (rewrite length_app; cbn; lia). reflexivity.
Qed.

Lemma base_interest h e : m_blocks c !! h = Some e -> interest_sum cur (tx <$> transactions e) 0 = Some (block_interest cur e).
Proof.
  intros E. pose proof (ci_entries cur c I h e E) as Ea. pose proof (Forall_lookup_1 _ _ _ _ (ci_interest cur c I) E) as [i Ei].
  unfold block_interest. rewrite Ei. pose proof (ea_base _ _ Ea) as Eb. pose proof (ea_inputs _ _ Ea) as En.
  destruct (transactions e) as [|t ts]; [discriminate|]. injection Eb as Et. cbn [tail] in Ei. cbn [fmap list_fmap interest_sum]. rewrite Et, En. exact Ei.
Qed.

Lemma rebuild_blocks_ok bs : forall pre c1, m_blocks c = pre ++ bs -> m_blocks c1 = m_blocks c ->
  m_blockIndex c1 = (fun e => get_block_hash (bl e)) <$> pre -> refines (m_depositIndex c1) (deposit_log cur pre) ->
  forall st, rebuild_entries (concat (imap (fun i => block_ledger (length pre + i)) bs)) (m_store c1) = Some st ->
  rebuild_blocks cur (Z.of_nat (length pre)) bs c1 = Some (mk_chain (m_blocks c) (m_blockIndex c) st (m_depositIndex c) (m_timestampIndex c1)
    (m_generatedTransactionsIndex c1) (m_votingCompleteHeight c1) (m_current_block_cumul_sz_limit c1)).
Proof.
  induction bs as [|e bs IH]; intros pre c1 E E1 Ex Rd st R; cbn [rebuild_blocks].
  - rewrite app_nil_r in E. cbn in R. injection R as R. rewrite <- E in Ex, Rd. rewrite <- (refines_unique _ _ _ Rd (ci_deposits cur c I)), (ci_index cur c I), <- Ex, <- E1, <- R.
    destruct c1. reflexivity.
  - assert (m_blocks c !! length pre = Some e) as El by (rewrite E, lookup_app_r, Nat.sub_diag by lia; reflexivity).
    pose proof (ci_entries cur c I _ e El) as Ea. pose proof (ci_short cur c I) as Sh. unfold chain_height in Sh. rewrite E, length_app in Sh. cbn [length] in Sh.
    cbn [imap concat] in R. rewrite Nat.add_0_r, rebuild_entries_app in R. apply obind_Some in R as (st1 & R1 & R).
    rewrite (hashed_ledger _ e Ea (Forall_lookup_1 _ _ _ _ Hh El)) in R1.
    pose proof (rebuild_transactions_ok (Z.of_nat (length pre)) (transactions e) (transactions e) [] (S (length (transactions e))) (m_store c1) 0 st1
      (block_interest cur e) eq_refl ltac:(lia) (ea_short _ _ Ea) R1 (base_interest _ e El)) as Rt.
    change (Z.of_nat (length (@nil TransactionEntry))) with 0 in Rt. rewrite Rt. cbn [obind]. pose proof (ci_deposits cur c I) as (Ok & _). rewrite E in Ok. unfold deposit_log in Ok. rewrite fmap_app in Ok.
    apply log_ok_pushable in Ok as [Pu Wi].
    pose proof (pushBlock_ok (m_depositIndex c1) _ (block_deposit e) (block_interest cur e) Rd (block_deposit_range e) Wi ltac:(unfold deposit_log; rewrite length_fmap; lia)) as P.
    unfold pushToDepositIndex. destruct (DepositIndex.pushBlock _ _ _) as [d|]; [|unfold deposit_log in P; congruence]. destruct P as [_ Rd']. cbn [obind].
    replace (u32 (Z.of_nat (length pre) + 1)) with (Z.of_nat (length (pre ++ [e]))) by (rewrite u32_small, length_app; cbn [length]; lia).
    erewrite IH; [reflexivity|rewrite <- app_assoc; exact E|exact E1| | |].
    + cbn [m_blockIndex]. rewrite Ex, fmap_app. unfold bi_push. rewrite decide_False; [reflexivity|]. pose proof (ci_nodup cur c I) as Nd. rewrite (ci_index cur c I), E, fmap_app in Nd.
      apply NoDup_app in Nd as (_ & D & _). intros Hin. apply (D _ Hin). left.
    + cbn [m_depositIndex]. unfold deposit_log. rewrite fmap_app. exact Rd'.
    + cbn [m_store]. rewrite <- R. f_equal. f_equal. apply imap_ext. intros i x _. unfold compose.
      replace (length (pre ++ [e]) + i)%nat with (length pre + S i)%nat by (rewrite length_app; cbn; lia). reflexivity.
Qed.

(** *** The indices for queries *)

Lemma payments_block blk ts : forall k p l, p = list_to_set_disj (payments getObjectHash getPaymentId l) ->
  fold_left (fun p e => PaymentIdIndex_add getObjectHash getPaymentId (tx e) p) ts p =
    list_to_set_disj (payments getObjectHash getPaymentId (l ++ imap (fun i => entry_of blk (k + i)%nat) ts)).
Proof.
  induction ts as [|t ts IH]; intros k p l E; cbn [fold_left imap]; [rewrite app_nil_r; exact E|].
  rewrite (IH (S k) _ (l ++ [entry_of blk (k + 0)%nat t])) by (rewrite payments_app, E; reflexivity). rewrite <- app_assoc. cbn [app].
  erewrite (imap_ext _ ((fun i => entry_of blk (k + i)%nat) ∘ S)); [reflexivity|].
  intros i x _. unfold compose. replace (k + S i)%nat with (S k + i)%nat by lia. reflexivity.
Qed.

Lemma counts_prefix pre bs : m_blocks c = pre ++ bs -> 0 <= sumZ ((fun e => tx_count (bl e)) <$> pre) <= 2 ^ 16 * Z.of_nat (length pre).
Proof.
  intros E. assert (Forall (fun e => 0 <= tx_count (bl e) <= 2 ^ 16) pre) as F.
  { apply Forall_lookup_2. intros h e Eh. destruct (ci_entries cur c I h e) as [_ L S _ _ _]; [rewrite E; apply lookup_app_l_Some, Eh|]. unfold tx_count. lia. }
  clear E. induction F as [|e es H _ IH]; cbn [fmap list_fmap sumZ fold_right length]; [lia|]. unfold sumZ in IH. lia.
Qed.

Lemma rebuild_indices_ok bs : forall pre times generated pays, m_blocks c = pre ++ bs ->
  ts_ok times -> times ≡ₚ stamps pre -> counts generated ((fun e => tx_count (bl e)) <$> pre) ->
  pays = list_to_set_disj (payments getObjectHash getPaymentId (chain_ledger pre)) ->
  exists times' generated', rebuild_indices bs times generated pays =
      Some (times', generated', list_to_set_disj (payments getObjectHash getPaymentId (chain_ledger (m_blocks c)))) /\
    ts_ok times' /\ times' ≡ₚ stamps (m_blocks c) /\ counts generated' ((fun e => tx_count (bl e)) <$> m_blocks c).
Proof.
  induction bs as [|e bs IH]; intros pre times generated pays E Ot Pt Cn Ep; cbn [rebuild_indices].
  - rewrite app_nil_r in E. subst pre. exists times, generated. rewrite Ep. auto.
  - assert (m_blocks c !! length pre = Some e) as El by (rewrite E, lookup_app_r, Nat.sub_diag by lia; reflexivity).
    pose proof (ci_entries cur c I _ e El) as Ea. pose proof (ci_short cur c I) as Sh. unfold chain_height in Sh. rewrite E, length_app in Sh. cbn [length] in Sh.
    pose proof (counts_prefix pre (e :: bs) E) as B. assert (0 <= tx_count (bl e) <= 2 ^ 16) as Bt by (destruct Ea as [_ L S _ _ _]; unfold tx_count; lia).
    assert (base_index (bl e) = Some (Z.of_nat (length ((fun e => tx_count (bl e)) <$> pre)))) as Bi by (rewrite length_fmap; exact (ea_index _ _ Ea)).
    rewrite (gen_add_ok _ _ (bl e) Cn Bi ltac:(lia)). cbn [obind].
    destruct (IH (pre ++ [e]) (ts_add (timestamp (bl e)) (get_block_hash (bl e)) times)
      (mk_generated (<[Z.of_nat (length ((fun e => tx_count (bl e)) <$> pre)) := sumZ (((fun e => tx_count (bl e)) <$> pre) ++ [tx_count (bl e)])]> (gen_index generated))
        (sumZ (((fun e => tx_count (bl e)) <$> pre) ++ [tx_count (bl e)])))
      (fold_left (fun p e => PaymentIdIndex_add getObjectHash getPaymentId (tx e) p) (transactions e) pays)) as (times' & generated' & R & H).
    + rewrite <- app_assoc. exact E.
    + apply ts_add_ok, Ot.
    + rewrite ts_add_permutation, Pt. unfold stamps. rewrite fmap_app. apply Permutation_cons_append.
    + rewrite fmap_app. exact (gen_add_counts _ _ (bl e) Cn).
    + rewrite (payments_block (Z.of_nat (length pre)) (transactions e) 0 pays (chain_ledger pre) Ep), chain_ledger_snoc,
        (hashed_ledger _ e Ea (Forall_lookup_1 _ _ _ _ Hh El)). reflexivity.
    + exists times', generated'. split; [exact R|exact H].
Qed.

Lemma counts_unique g g' cs : counts g cs -> counts g' cs -> g = g'.
Proof.
  intros [_ I1 L1] [_ I2 L2]. destruct g as [i1 l1], g' as [i2 l2]. cbn in *. f_equal; [|congruence]. apply map_eq. intros h. rewrite I1, I2. reflexivity.
Qed.

(** Reloading gives back every index, the one of times up to the order of equal times. *)
Lemma reload_ok : exists times, reload cur (m_blocks c) =
    Some (mk_chain (m_blocks c) (m_blockIndex c) (m_store c) (m_depositIndex c) times (m_generatedTransactionsIndex c) UNDEF_HEIGHT 0) /\
  ts_ok times /\ times ≡ₚ m_timestampIndex c.
Proof.
  pose proof (rebuild_built ∅ _ _ (ci_ledger cur c I) (chain_plain (m_blocks c) [] eq_refl)) as Rb.
  pose proof (rebuild_blocks_ok (m_blocks c) [] (mk_chain (m_blocks c) [] (mk_store ∅ ∅ ∅ ∅ ∅) empty_index [] gen_empty UNDEF_HEIGHT 0) eq_refl eq_refl eq_refl refines_empty _ Rb) as Rc.
  cbn [length m_timestampIndex m_generatedTransactionsIndex m_votingCompleteHeight m_current_block_cumul_sz_limit] in Rc.
  change (rebuildCache cur (opened (m_blocks c)) = Some (mk_chain (m_blocks c) (m_blockIndex c) (with_payments ∅ (m_store c)) (m_depositIndex c) [] gen_empty UNDEF_HEIGHT 0)) in Rc.
  unfold reload. rewrite Rc. cbn [obind]. unfold loadBlockchainIndices. cbn [m_blocks m_generatedTransactionsIndex].
  destruct (rebuild_indices_ok (m_blocks c) [] [] (gen_clear gen_empty) ∅ eq_refl) as (times & generated & -> & Ot & Pt & Cn); [constructor|reflexivity|exact counts_empty|reflexivity|].
  cbn [obind m_blockIndex m_store m_depositIndex m_votingCompleteHeight m_current_block_cumul_sz_limit]. exists times.
  rewrite (counts_unique _ _ _ Cn (ci_counts cur c I)). split; [|split; [exact Ot|rewrite Pt, (ci_stamps cur c I); reflexivity]].
  rewrite <- (rep_payments _ _ _ _ (built_represents _ _ _ _ (ci_ledger cur c I))). destruct (m_store c). reflexivity.
Qed.
End Whole.
End Blocks.
