(* ===== verification/Commit.v ===== *)
(** * The chain over its binary form

    [binary_codec] gives the chain the hashes and sizes that BlockFormat.v and
    TransactionExtra.v compute.  With it the hash of the last block commits to the
    whole chain: two nodes with the same tail have the same blocks and transactions,
    or the fast hash collides on two of the strings that were hashed for them. *)

From Stdlib Require Import ZArith Lia List Bool.
From S2P Require Import Prelude Bytes Varint Crypto TreeHash IntUtil Currency DepositIndex BlockIndex TxStore Ledger BlockchainIndices UpgradeDetector TxCheck Blockchain Serialization BlockFormat Binding TransactionExtra ChainInvariant Rebuild.
From stdpp Require Import base list sets.
Import ListNotations.
Open Scope Z_scope.
Open Scope cmon_scope.
Set Default Goal Selector "!".

(** The functions the chain calls.  The default of a hash stands for an abort in the hash function, which
    only inputs of 2^31 bytes and more can cause. *)
Definition binary_codec {FH : FastHash} (cn_slow_hash : bytes -> bytes) : Codec := {|
  get_block_hash b := default NULL_HASH (block_hash b);
  get_block_longhash b := block_longhash cn_slow_hash b;
  getObjectHash t := default NULL_HASH (objectHash serialize_Transaction t);
  getPrefixHash t := default NULL_HASH (objectHash serialize_TransactionPrefix (prefix_of t));
  getObjectBinarySize t := objectBinarySize serialize_Transaction t;
  getPaymentId t := match index_payment_id t with Some (Some p) => Some p | _ => None end
|}.

Section Commit.
Context {FH : FastHash} (cn_slow_hash : bytes -> bytes).
#[local] Instance codec : Codec := binary_codec cn_slow_hash.

(** Transactions with a binary form that can be hashed. *)
Definition short_tx (t : Transaction) : Prop := tx_format t /\ objectBinarySize serialize_Transaction t < 2 ^ 31.

Lemma short_tx_hash t : short_tx t -> objectHash serialize_Transaction t = Some (getObjectHash t) /\ bytes_n 32 (getObjectHash t).
Proof.
  intros [F Sz]. cbn [getObjectHash codec binary_codec]. destruct (put_get (Lawful := transaction_law) t F) as (ba & E & _).
  unfold objectBinarySize, toBinaryArray in Sz. unfold objectHash, toBinaryArray. rewrite E in *. destruct (fast_hash_ok ba Sz) as (h & -> & B). auto.
Qed.

Lemma short_txs_inj ts : forall ts', Forall short_tx ts -> Forall short_tx ts' -> getObjectHash <$> ts = getObjectHash <$> ts' ->
  ts = ts' \/ collision_in (ts ≫= tx_preimages) (ts' ≫= tx_preimages).
Proof.
  induction ts as [|t ts IH]; intros [|t' ts'] F F' E; try discriminate; [auto|]. apply list.Forall_cons in F as [Ft F]. apply list.Forall_cons in F' as [Ft' F'].
  cbn in E. injection E as Eh E. destruct (short_tx_hash t Ft) as [Et _], (short_tx_hash t' Ft') as [Et' _]. cbn in Et, Et'. rewrite Eh in Et.
  destruct (tx_hash_binding t t' _ (proj1 Ft) (proj1 Ft') Et Et') as [->|C]; [|right; eapply collision_mono; [exact C|set_solver..]].
  destruct (IH ts' F F' E) as [->|C]; [auto|]. right. eapply collision_mono; [exact C|set_solver..].
Qed.

Lemma short_block_inj b b' : short_block b -> short_block b' -> get_block_hash b = get_block_hash b' -> b = b' \/ collision_in (block_preimages b) (block_preimages b').
Proof.
  intros S S' E. apply block_hash_binding; [exact S|exact S'|]. cbn [get_block_hash codec binary_codec] in E.
  destruct (block_hash_of b S) as (_ & _ & h & _ & _ & _ & _ & Eh & _), (block_hash_of b' S') as (_ & _ & h' & _ & _ & _ & _ & Eh' & _).
  rewrite Eh, Eh' in *. cbn in E. congruence.
Qed.

(** ** Chains *)

Context (cur : currency).

(** What the blocks of a node look like: in binary form, with their transactions listed by hash. *)
Definition wired (c : chain) : Prop := Forall (fun e => short_block (bl e) /\ hashed e /\ Forall short_tx (tx <$> transactions e)) (m_blocks c).

Lemma wired_at c h e : wired c -> m_blocks c !! h = Some e -> short_block (bl e) /\ hashed e /\ Forall short_tx (tx <$> transactions e).
Proof. intros W E. exact (Forall_lookup_1 _ _ _ _ W E). Qed.

(** The strings that are hashed for the blocks and the transactions of a chain. *)
Definition entry_preimages (e : BlockEntry) : list bytes := block_preimages (bl e) ++ ((tx <$> transactions e) ≫= tx_preimages).
Definition chain_preimages (c : chain) : list bytes := m_blocks c ≫= entry_preimages.

Lemma entry_hashed c h e : m_blocks c !! h = Some e -> entry_preimages e ⊆ chain_preimages c.
Proof. intros E x Hx. apply list_elem_of_bind. exists e. split; [exact Hx|]. apply list_elem_of_lookup. eauto. Qed.

Lemma blocks_inj c c' h h' e e' : wired c -> wired c' -> m_blocks c !! h = Some e -> m_blocks c' !! h' = Some e' -> get_block_hash (bl e) = get_block_hash (bl e') ->
  bl e = bl e' \/ collision_in (chain_preimages c) (chain_preimages c').
Proof.
  intros W W' E E' H. destruct (short_block_inj _ _ (proj1 (wired_at _ _ _ W E)) (proj1 (wired_at _ _ _ W' E')) H) as [|C]; [auto|]. right.
  pose proof (entry_hashed c h e E) as S. pose proof (entry_hashed c' h' e' E') as S'. unfold entry_preimages in *. eapply collision_mono; [exact C|set_solver..].
Qed.

(** Equal blocks below equal blocks. *)
Lemma same_below c c' : chain_inv cur c -> chain_inv cur c' -> wired c -> wired c' ->
  forall k h e e', m_blocks c !! (h + k)%nat = Some e -> m_blocks c' !! (h + k)%nat = Some e' -> bl e = bl e' ->
  (forall x x', m_blocks c !! h = Some x -> m_blocks c' !! h = Some x' -> bl x = bl x') \/ collision_in (chain_preimages c) (chain_preimages c').
Proof.
  intros I I' W W'. induction k as [|k IH]; intros h e e' E E' Eq.
  - left. rewrite Nat.add_0_r in E, E'. intros x x' Ex Ex'. congruence.
  - destruct (lookup_lt_is_Some_2 (m_blocks c) (h + k)) as [y Ey]; [apply lookup_lt_Some in E; lia|].
    destruct (lookup_lt_is_Some_2 (m_blocks c') (h + k)) as [y' Ey']; [apply lookup_lt_Some in E'; lia|].
    replace (h + S k)%nat with (S (h + k)) in E, E' by lia. pose proof (ci_links cur c I _ _ _ Ey E) as L. pose proof (ci_links cur c' I' _ _ _ Ey' E') as L'.
    rewrite Eq, L' in L. destruct (blocks_inj c c' _ _ y y' W W' Ey Ey' (eq_sym L)) as [Eb|]; [|auto].
    exact (IH h y y' Ey Ey' Eb).
Qed.

Lemma last_height c : m_blocks c <> [] -> exists e, m_blocks c !! (length (m_blocks c) - 1)%nat = Some e /\ last (m_blocks c) = Some e.
Proof.
  intros N. destruct (m_blocks c) as [|x l] using rev_ind; [contradiction|]. exists x. rewrite last_snoc, length_app. cbn [length]. split; [|reflexivity].
  replace (length l + 1 - 1)%nat with (length l) by lia. apply list_lookup_middle, eq_refl.
Qed.

(** A relation that holds at every place unless [C] holds at all places unless [C]. *)
Lemma all_or {A B} (P : A -> B -> Prop) (C : Prop) l : forall l', length l = length l' ->
  (forall h x x', l !! h = Some x -> l' !! h = Some x' -> P x x' \/ C) -> Forall2 P l l' \/ C.
Proof.
  induction l as [|y l IH]; intros [|y' l'] L H; try discriminate; [left; constructor|]. injection L as L.
  destruct (H 0%nat y y' eq_refl eq_refl) as [H0|]; [|auto]. destruct (IH l' L (fun h => H (S h))) as [Hl|]; [left; constructor; assumption|auto].
Qed.

Lemma same_entries c c' h x x' : chain_inv cur c -> chain_inv cur c' -> wired c -> wired c' -> m_blocks c !! h = Some x -> m_blocks c' !! h = Some x' -> bl x = bl x' ->
  tx <$> transactions x = tx <$> transactions x' \/ collision_in (chain_preimages c) (chain_preimages c').
Proof.
  intros I I' W W' Ex Ex' Sb. pose proof (entry_hashed _ _ _ Ex) as Sx. pose proof (entry_hashed _ _ _ Ex') as Sx'. unfold entry_preimages in Sx, Sx'. destruct (wired_at _ _ _ W Ex) as (_ & Hx & Fx), (wired_at _ _ _ W' Ex') as (_ & Hx' & Fx'). unfold hashed in Hx, Hx'. rewrite Sb, Hx' in Hx.
  pose proof (ea_base _ _ (ci_entries cur c I _ _ Ex)) as B. pose proof (ea_base _ _ (ci_entries cur c' I' _ _ Ex')) as B'.
  destruct (transactions x) as [|t ts]; [discriminate|]. destruct (transactions x') as [|t' ts']; [discriminate|]. cbn in B, B'. injection B as B. injection B' as B'.
  cbn [fmap list_fmap] in Fx, Fx' |- *. apply list.Forall_cons in Fx as [_ Fx]. apply list.Forall_cons in Fx' as [_ Fx']. cbn [tail] in Hx.
  destruct (short_txs_inj (tx <$> ts) (tx <$> ts') Fx Fx') as [Et|]; [rewrite <- !list_fmap_compose; symmetry; exact Hx|left; rewrite B, B', Sb; f_equal; exact Et|].
  right. eapply collision_mono; [eassumption|set_solver..].
Qed.

Lemma tail_of c e : chain_inv cur c -> last (m_blocks c) = Some e -> getTailId c = Some (get_block_hash (bl e)).
Proof.
  intros I L. unfold getTailId. destruct (m_blocks c) eqn:Em; [discriminate|]. rewrite <- Em in L. unfold bi_getTailId. rewrite (ci_index cur c I), fmap_last, L. reflexivity.
Qed.

Lemma tail_commits c c' : chain_inv cur c -> chain_inv cur c' -> wired c -> wired c' -> m_blocks c <> [] -> m_blocks c' <> [] -> getTailId c = getTailId c' ->
  Forall2 (fun e e' => bl e = bl e' /\ tx <$> transactions e = tx <$> transactions e') (m_blocks c) (m_blocks c') \/
  collision_in (chain_preimages c) (chain_preimages c').
Proof.
  intros I I' W W' N N' T. destruct (last_height c N) as (e & E & El), (last_height c' N') as (e' & E' & El').
  rewrite (tail_of c e I El), (tail_of c' e' I' El') in T. injection T as T.
  destruct (blocks_inj c c' _ _ e e' W W' E E' T) as [Eb|]; [|auto].
  assert (length (m_blocks c) = length (m_blocks c')) as Len.
  { pose proof (ea_inputs _ _ (ci_entries cur c I _ _ E)) as A. pose proof (ea_inputs _ _ (ci_entries cur c' I' _ _ E')) as A'. rewrite Eb, A' in A. injection A as A.
    destruct (m_blocks c), (m_blocks c'); try contradiction. cbn [length] in *. lia. }
  apply all_or; [exact Len|]. intros h x x' Ex Ex'. pose proof (lookup_lt_Some _ _ _ Ex) as Lx.
  destruct (same_below c c' I I' W W' (length (m_blocks c) - 1 - h) h e e') as [S|]; [replace (h + _)%nat with (length (m_blocks c) - 1)%nat by lia; exact E| |exact Eb| |auto].
  - replace (h + _)%nat with (length (m_blocks c') - 1)%nat by lia. exact E'.
  - pose proof (S x x' Ex Ex') as Sb. destruct (same_entries c c' h x x' I I' W W' Ex Ex' Sb); auto.
Qed.
End Commit.
