(* ===== verification/TransactionPool.v ===== *)
(** * The transaction pool (CryptoNoteCore/TransactionPool.cpp)

    The transactions that wait for a block, with the key images and multisignature
    outputs they spend, their time to live, and the indices by payment id and time.
    [add_tx] and [take_tx] put transactions in and take them out,
    [removeExpiredTransactions] drops the old ones, and [fill_block_template] chooses
    the transactions of a new block.

    The container with its two indices is the list of its elements in the order of
    the index by fee; its elements have different ids.  The chain is behind the
    interface [ITransactionValidator].  The time to live and the payment id that the
    extra field of a transaction holds are arguments.  [None] is a failed assertion. *)

From Stdlib Require Import ZArith Lia List Bool.
From S2P Require Import Prelude Bytes IntUtil Currency BlockIndex TxStore BlockchainIndices UpgradeDetector TxCheck Blockchain.
From stdpp Require Import gmap gmultiset list.
Import ListNotations.
Open Scope Z_scope.
Open Scope cmon_scope.
Set Default Goal Selector "!".

(** ** Data *)

(** ITransactionValidator.h *)
Record BlockInfo := mk_info { info_height : Z; info_id : bytes }.
Definition no_info : BlockInfo := mk_info 0 NULL_HASH.
Definition info_empty (i : BlockInfo) : bool := bool_decide (info_id i = NULL_HASH).

Class ITransactionValidator := {
  (** The result and [maxUsedBlock]. *)
  checkInputs : Transaction -> option (bool * BlockInfo);
  (** The result, [maxUsedBlock] and [lastFailed]. *)
  recheckInputs : Transaction -> BlockInfo -> BlockInfo -> option (bool * BlockInfo * BlockInfo);
  haveSpentKeyImages : Transaction -> bool;
  checkTransactionSize : Z -> bool
}.

(** Further members of [Currency]. *)
Record pool_params := mk_params {
  m_mininumFee : Z;
  m_minerTxBlobReservedSize : Z;
  m_mempoolTxLiveTime : Z;
  m_mempoolTxFromAltBlockLiveTime : Z;
  m_numberOfPeriodsToForgetTxDeletedFromPool : Z
}.

Definition default_params : pool_params := mk_params 100000 600 (60 * 60 * 14) (60 * 60 * 24) 7.

Record TransactionDetails := mk_details {
  td_id : bytes;
  td_tx : Transaction;
  td_blobSize : Z;
  td_fee : Z;
  td_keptByBlock : bool;
  td_receiveTime : Z;
  td_maxUsedBlock : BlockInfo;
  td_lastFailedBlock : BlockInfo
}.

Record pool := mk_pool {
  m_transactions : list TransactionDetails;
  m_spent_key_images : gmap bytes (gset bytes);
  m_spentOutputs : gset (Z * Z);
  m_recentlyDeletedTransactions : gmap bytes Z;
  p_paymentIdIndex : gmultiset (bytes * bytes);
  p_timestampIndex : list (Z * bytes);
  m_ttlIndex : gmap bytes Z
}.

Definition empty_pool : pool := mk_pool [] ∅ ∅ ∅ ∅ [] ∅.

Record tvc := mk_tvc {
  m_should_be_relayed : bool;
  t_verifivation_failed : bool;
  m_verifivation_impossible : bool;
  m_added_to_pool : bool;
  m_tx_fee_too_small : bool
}.

(** ** The index by fee *)

Definition product (a b : Z) : Z * Z := match mul128 a b with Some (lo, hi) => (hi, lo) | None => (0, 0) end.

(** [TransactionPriorityComparator] *)
Definition before (lhs rhs : TransactionDetails) : bool :=
  let '(lhs_hi, lhs_lo) := product (td_fee lhs) (td_blobSize rhs) in
  let '(rhs_hi, rhs_lo) := product (td_fee rhs) (td_blobSize lhs) in
  (rhs_hi <? lhs_hi) ||
  ((lhs_hi =? rhs_hi) && (rhs_lo <? lhs_lo)) ||
  ((lhs_hi =? rhs_hi) && (lhs_lo =? rhs_lo) && (td_blobSize lhs <? td_blobSize rhs)) ||
  ((lhs_hi =? rhs_hi) && (lhs_lo =? rhs_lo) && (td_blobSize lhs =? td_blobSize rhs) && (td_receiveTime lhs <? td_receiveTime rhs)).

(** A new element goes behind its equals. *)
Fixpoint fee_insert (x : TransactionDetails) (l : list TransactionDetails) : list TransactionDetails :=
  match l with [] => [x] | y :: l => if before x y then x :: y :: l else y :: fee_insert x l end.

Definition find_tx (id : bytes) (l : list TransactionDetails) : option TransactionDetails :=
  List.find (fun d => bool_decide (td_id d = id)) l.

Definition erase_tx (id : bytes) (l : list TransactionDetails) : list TransactionDetails :=
  List.filter (fun d => negb (bool_decide (td_id d = id))) l.

Definition have_tx (id : bytes) (p : pool) : bool :=
  match find_tx id (m_transactions p) with Some _ => true | None => false end.

Section Pool.
Context {CK : CryptoChecks} {CO : Codec} {TV : ITransactionValidator}.
Variable cur : currency.
Variable par : pool_params.
(** The time to live in the extra field, 0 when there is none. *)
Variable getTTL : Transaction -> Z.

(** ** Inputs *)

Definition haveSpentInputs (t : Transaction) (p : pool) : bool :=
  existsb (fun i => match i with
    | KeyInput _ _ keyImage => bool_decide (is_Some (m_spent_key_images p !! keyImage))
    | MultisignatureInput amount _ outputIndex _ => bool_decide ((amount, outputIndex) ∈ m_spentOutputs p)
    | BaseInput _ => false
    end) (inputs t).

Abbreviation image_map := (gmap bytes (gset bytes)).

(** [m[key]], which creates an empty set when there is none. *)
Definition ids_of (m : image_map) (x : bytes) : gset bytes := default ∅ (m !! x).

Fixpoint add_inputs (id : bytes) (keptByBlock : bool) (ins : list TransactionInput) (images : image_map) (outs : gset (Z * Z))
    : option (bool * image_map * gset (Z * Z)) :=
  match ins with
  | [] => Some (true, images, outs)
  | KeyInput _ _ keyImage :: ins =>
      let set := ids_of images keyImage in
      let created := <[keyImage := set]> images in
      if negb (keptByBlock || (size set =? 0)%nat) then Some (false, created, outs) else
      if decide (id ∈ set) then Some (false, created, outs) else
      add_inputs id keptByBlock ins (<[keyImage := {[id]} ∪ set]> images) outs
  | MultisignatureInput amount _ outputIndex _ :: ins =>
      if negb keptByBlock then
        _ <- c_assert (negb (bool_decide ((amount, outputIndex) ∈ outs))) ;;
        add_inputs id keptByBlock ins images ({[(amount, outputIndex)]} ∪ outs)
      else add_inputs id keptByBlock ins images outs
  | BaseInput _ :: ins => add_inputs id keptByBlock ins images outs
  end.

Fixpoint remove_inputs (id : bytes) (keptByBlock : bool) (ins : list TransactionInput) (images : image_map) (outs : gset (Z * Z))
    : option (bool * image_map * gset (Z * Z)) :=
  match ins with
  | [] => Some (true, images, outs)
  | KeyInput _ _ keyImage :: ins =>
      match images !! keyImage with
      | None => Some (false, images, outs)
      | Some set =>
          if (size set =? 0)%nat then Some (false, images, outs) else
          if decide (id ∈ set) then
            let set := set ∖ {[id]} in
            remove_inputs id keptByBlock ins (if (size set =? 0)%nat then delete keyImage images else <[keyImage := set]> images) outs
          else Some (false, images, outs)
      end
  | MultisignatureInput amount _ outputIndex _ :: ins =>
      if negb keptByBlock then
        _ <- c_assert (bool_decide ((amount, outputIndex) ∈ outs)) ;;
        remove_inputs id keptByBlock ins images (outs ∖ {[(amount, outputIndex)]})
      else remove_inputs id keptByBlock ins images outs
  | BaseInput _ :: ins => remove_inputs id keptByBlock ins images outs
  end.

Definition addTransactionInputs (id : bytes) (t : Transaction) (keptByBlock : bool) (p : pool) : option (bool * pool) :=
  '(r, images, outs) <- add_inputs id keptByBlock (inputs t) (m_spent_key_images p) (m_spentOutputs p) ;;
  Some (r, mk_pool (m_transactions p) images outs (m_recentlyDeletedTransactions p) (p_paymentIdIndex p) (p_timestampIndex p) (m_ttlIndex p)).

(** The result of the removal of the inputs is not looked at. *)
Definition removeTransaction (d : TransactionDetails) (p : pool) : option pool :=
  '(_, images, outs) <- remove_inputs (td_id d) (td_keptByBlock d) (inputs (td_tx d)) (m_spent_key_images p) (m_spentOutputs p) ;;
  Some (mk_pool (erase_tx (td_id d) (m_transactions p)) images outs (m_recentlyDeletedTransactions p)
    (PaymentIdIndex_remove getObjectHash getPaymentId (td_tx d) (p_paymentIdIndex p))
    (snd (ts_remove (td_receiveTime d) (td_id d) (p_timestampIndex p))) (delete (td_id d) (m_ttlIndex p))).

Definition take_tx (id : bytes) (p : pool) : option (option TransactionDetails * pool) :=
  match find_tx id (m_transactions p) with
  | None => Some (None, p)
  | Some d => p <- removeTransaction d p ;; Some (Some d, p)
  end.

(** ** Adding *)

(** CryptoNoteTools.cpp *)
Definition getInputsAmounts (t : Transaction) : list Z :=
  omap (fun i => match i with KeyInput amount _ _ => Some amount | MultisignatureInput amount _ _ _ => Some amount | _ => None end) (inputs t).

(** [isFusionTransaction(transaction, size)] *)
Definition isFusionTransaction_tx (t : Transaction) (size : Z) : option bool :=
  _ <- c_assert (getObjectBinarySize t =? size) ;;
  isFusionTransaction cur (getInputsAmounts t) (out_amount <$> outputs t) size.

(** What the move of the details into the container leaves of the transaction. *)
Definition moved_from (t : Transaction) : Transaction := mk_tx (version t) (unlockTime t) [] [] [] [].

Definition refused : tvc := mk_tvc false true false false false.

(** The checks before the transaction is added: the fee, whether it is a fusion transaction, whether
    the inputs are valid, and the last block used; or the answer.  [now] is [time(nullptr)]. *)
Definition accept_tx (now : Z) (t : Transaction) (blobSize : Z) (keptByBlock : bool) (p : pool)
    : option ((Z * bool * bool * BlockInfo) + tvc) :=
  if negb (check_inputs_types_supported t) then Some (inr refused) else
  inputs_amount <- getTransactionAllInputsAmount cur (inputs t) 0 ;;
  let outputs_amount := get_outs_money_amount t in
  if inputs_amount <? outputs_amount then Some (inr refused) else
  let ttl := getTTL t in
  let fee := u64 (inputs_amount - outputs_amount) in
  isFusion <- (if fee =? 0 then isFusionTransaction_tx t blobSize else Some false) ;;
  if negb keptByBlock && negb isFusion && (ttl =? 0) && (fee <? m_mininumFee par) then Some (inr (mk_tvc false true false false true)) else
  let ttl_ok :=
    if negb (ttl =? 0) && negb keptByBlock then
      if ttl <=? now then false
      else if u64 (m_mempoolTxLiveTime par + m_blockFutureTimeLimit cur) <? u64 (ttl - now) then false
      else fee =? 0
    else true in
  if negb ttl_ok then Some (inr refused) else
  if negb keptByBlock && haveSpentInputs t p then Some (inr refused) else
  '(inputsValid, maxUsedBlock) <- checkInputs t ;;
  if negb inputsValid && negb keptByBlock then Some (inr refused) else
  let maxUsedBlock := if negb inputsValid then no_info else maxUsedBlock in
  if negb keptByBlock && negb (checkTransactionSize blobSize) then
    Some (inr (mk_tvc false true (negb inputsValid) false false)) else
  Some (inl (fee, isFusion, inputsValid, maxUsedBlock)).

(** [now] is [time(nullptr)] and [received] the time of the provider. *)
Definition add_tx (now received : Z) (t : Transaction) (id : bytes) (blobSize : Z) (keptByBlock : bool) (p : pool)
    : option (bool * tvc * pool) :=
  a <- accept_tx now t blobSize keptByBlock p ;;
  match a with
  | inr v => Some (false, v, p)
  | inl (fee, isFusion, inputsValid, maxUsedBlock) =>
      let impossible := negb inputsValid in
      if negb keptByBlock && bool_decide (is_Some (m_recentlyDeletedTransactions p !! id)) then
        Some (true, mk_tvc false false impossible false false, p)
      else
      if have_tx id p then Some (false, mk_tvc false false impossible false false, p) else
      let d := mk_details id t blobSize fee keptByBlock received maxUsedBlock no_info in
      let p := mk_pool (fee_insert d (m_transactions p)) (m_spent_key_images p) (m_spentOutputs p) (m_recentlyDeletedTransactions p)
        (PaymentIdIndex_add getObjectHash getPaymentId (moved_from t) (p_paymentIdIndex p)) (ts_add received id (p_timestampIndex p))
        (if negb (getTTL t =? 0) then (if decide (is_Some (m_ttlIndex p !! id)) then m_ttlIndex p else <[id := getTTL t]> (m_ttlIndex p)) else m_ttlIndex p) in
      let relayed := inputsValid && ((0 <? fee) || isFusion || negb (getTTL t =? 0)) in
      '(r, p) <- addTransactionInputs id t keptByBlock p ;;
      if negb r then Some (false, mk_tvc relayed true impossible true false, p)
      else Some (true, mk_tvc relayed false impossible true false, p)
  end.

(** ** Expiry *)

Definition expired (now : Z) (d : TransactionDetails) (ttls : gmap bytes Z) : bool :=
  let txAge := u64 (now - td_receiveTime d) in
  let remove := (if td_keptByBlock d then m_mempoolTxFromAltBlockLiveTime par else m_mempoolTxLiveTime par) <? txAge in
  let ttlExpired := match ttls !! td_id d with Some ttl => ttl <=? now | None => false end in
  remove || ttlExpired.

(** The loop over the transactions of the pool. *)
Fixpoint remove_expired (now : Z) (l : list TransactionDetails) (p : pool) : option pool :=
  match l with
  | [] => Some p
  | d :: l =>
      if expired now d (m_ttlIndex p) then
        let p := mk_pool (m_transactions p) (m_spent_key_images p) (m_spentOutputs p)
          (match m_recentlyDeletedTransactions p !! td_id d with
           | Some _ => m_recentlyDeletedTransactions p
           | None => <[td_id d := now]> (m_recentlyDeletedTransactions p)
           end) (p_paymentIdIndex p) (p_timestampIndex p) (m_ttlIndex p) in
        p <- removeTransaction d p ;; remove_expired now l p
      else remove_expired now l p
  end.

Definition removeExpiredTransactions (now : Z) (p : pool) : option pool :=
  let forget := u64 (m_numberOfPeriodsToForgetTxDeletedFromPool par * m_mempoolTxLiveTime par) in
  let recent := filter (fun e => ~ forget < u64 (now - e.2)) (m_recentlyDeletedTransactions p) in
  let p := mk_pool (m_transactions p) (m_spent_key_images p) (m_spentOutputs p) recent (p_paymentIdIndex p) (p_timestampIndex p) (m_ttlIndex p) in
  remove_expired now (m_transactions p) p.

(** ** Block templates *)

Record BlockTemplate := mk_template { bt_keyImages : gset bytes; bt_usedOutputs : gset (Z * Z); bt_txHashes : list bytes }.

Definition canAdd (t : Transaction) (bt : BlockTemplate) : bool :=
  forallb (fun i => match i with
    | KeyInput _ _ keyImage => negb (bool_decide (keyImage ∈ bt_keyImages bt))
    | MultisignatureInput amount _ outputIndex _ => negb (bool_decide ((amount, outputIndex) ∈ bt_usedOutputs bt))
    | BaseInput _ => true
    end) (inputs t).

Fixpoint template_inputs (ins : list TransactionInput) (keys : gset bytes) (outs : gset (Z * Z)) : option (gset bytes * gset (Z * Z)) :=
  match ins with
  | [] => Some (keys, outs)
  | KeyInput _ _ keyImage :: ins =>
      _ <- c_assert (negb (bool_decide (keyImage ∈ keys))) ;; template_inputs ins ({[keyImage]} ∪ keys) outs
  | MultisignatureInput amount _ outputIndex _ :: ins =>
      _ <- c_assert (negb (bool_decide ((amount, outputIndex) ∈ outs))) ;; template_inputs ins keys ({[(amount, outputIndex)]} ∪ outs)
  | BaseInput _ :: ins => template_inputs ins keys outs
  end.

Definition addTransaction (txid : bytes) (t : Transaction) (bt : BlockTemplate) : option (bool * BlockTemplate) :=
  if negb (canAdd t bt) then Some (false, bt) else
  '(keys, outs) <- template_inputs (inputs t) (bt_keyImages bt) (bt_usedOutputs bt) ;;
  Some (true, mk_template keys outs (bt_txHashes bt ++ [txid])).

(** The result and the new check information. *)
Definition is_transaction_ready_to_go (d : TransactionDetails) : option (bool * TransactionDetails) :=
  '(r, maxUsedBlock, lastFailed) <- recheckInputs (td_tx d) (td_maxUsedBlock d) (td_lastFailedBlock d) ;;
  let d := mk_details (td_id d) (td_tx d) (td_blobSize d) (td_fee d) (td_keptByBlock d) (td_receiveTime d) maxUsedBlock lastFailed in
  Some (r && negb (haveSpentKeyImages (td_tx d)), d).

(** The transactions without a fee, the least preferred first. *)
Fixpoint fill_free (l : list TransactionDetails) (ttls : gmap bytes Z) (bt : BlockTemplate) (total_size : Z) : option (BlockTemplate * Z) :=
  match l with
  | [] => Some (bt, total_size)
  | d :: l =>
      if negb (td_fee d =? 0) then Some (bt, total_size) else
      if bool_decide (is_Some (ttls !! td_id d)) then fill_free l ttls bt total_size else
      if m_fusionTxMaxSize cur <? u64 (total_size + td_blobSize d) then fill_free l ttls bt total_size else
      '(ready, _) <- is_transaction_ready_to_go d ;;
      if ready : bool then
        '(r, bt) <- addTransaction (td_id d) (td_tx d) bt ;;
        fill_free l ttls bt (if r : bool then u64 (total_size + td_blobSize d) else total_size)
      else fill_free l ttls bt total_size
  end.

(** All transactions, the most preferred first; their check information is written back. *)
Fixpoint fill_paid (l : list TransactionDetails) (ttls : gmap bytes Z) (median_size max_total_size : Z) (bt : BlockTemplate) (total_size fee : Z)
    : option (list TransactionDetails * BlockTemplate * Z * Z) :=
  match l with
  | [] => Some ([], bt, total_size, fee)
  | d :: l =>
      let skip := '(l, bt, total_size, fee) <- fill_paid l ttls median_size max_total_size bt total_size fee ;;
                  Some (d :: l, bt, total_size, fee) in
      if bool_decide (is_Some (ttls !! td_id d)) then skip else
      let blockSizeLimit := if td_fee d =? 0 then median_size else max_total_size in
      if blockSizeLimit <? u64 (total_size + td_blobSize d) then skip else
      '(ready, d) <- is_transaction_ready_to_go d ;;
      '(r, bt) <- (if ready : bool then addTransaction (td_id d) (td_tx d) bt else Some (false, bt)) ;;
      '(l, bt, total_size, fee) <- fill_paid l ttls median_size max_total_size bt
        (if r : bool then u64 (total_size + td_blobSize d) else total_size) (if r then u64 (fee + td_fee d) else fee) ;;
      Some (d :: l, bt, total_size, fee)
  end.

Definition max_template_size (median_size maxCumulativeSize : Z) : Z :=
  Z.min (u64 (u64 (125 * median_size) / 100 - m_minerTxBlobReservedSize par)) maxCumulativeSize.

(** The hashes of the transactions, their size and their fees, and the new pool. *)
Definition fill_block_template (median_size maxCumulativeSize : Z) (p : pool) : option (list bytes * Z * Z * pool) :=
  '(bt, total_size) <- fill_free (rev (m_transactions p)) (m_ttlIndex p) (mk_template ∅ ∅ []) 0 ;;
  '(l, bt, total_size, fee) <- fill_paid (m_transactions p) (m_ttlIndex p) median_size (max_template_size median_size maxCumulativeSize) bt total_size 0 ;;
  Some (bt_txHashes bt, total_size, fee,
    mk_pool l (m_spent_key_images p) (m_spentOutputs p) (m_recentlyDeletedTransactions p) (p_paymentIdIndex p) (p_timestampIndex p) (m_ttlIndex p)).
End Pool.

(** ** The chain as the validator of the pool (Blockchain.cpp) *)

Section Validator.
Context {CK : CryptoChecks} {CO : Codec}.
Variable cur : currency.
Variable par : pool_params.
(** [time(NULL)] *)
Variable now : Z.
Variable m_is_in_checkpoint_zone : bool.
Variable c : chain.

(** [getTailId(height)] *)
Definition tail_info : option BlockInfo :=
  match m_blocks c with
  | [] => None
  | _ => id <- getTailId c ;; Some (mk_info (u32 (getCurrentBlockchainHeight (m_blocks c) - 1)) id)
  end.

Definition getBlockIdByHeight (height : Z) : option bytes :=
  _ <- c_assert (height <? bi_size (m_blockIndex c)) ;; getBlockId height (m_blockIndex c).

(** [checkTransactionInputs(tx, max_used_block_height, max_used_block_id, tail)] *)
Definition checkTransactionInputs_max (t : Transaction) (maxUsedBlock : BlockInfo) : option (bool * BlockInfo) :=
  '(res, height) <- checkTransactionInputs cur getPrefixHash now m_is_in_checkpoint_zone (m_blocks c) (m_store c) t ;;
  if negb res || negb (height <? chain_height (m_blocks c)) then Some (false, mk_info height (info_id maxUsedBlock)) else
  e <- m_blocks c !! Z.to_nat height ;;
  Some (true, mk_info height (get_block_hash (bl e))).

(** A check that, when it fails, records the tail of the chain as [lastFailed]. *)
Definition check_recording (t : Transaction) (maxUsedBlock lastFailed : BlockInfo) : option (bool * BlockInfo * BlockInfo) :=
  tail <- tail_info ;;
  '(r, maxUsedBlock) <- checkTransactionInputs_max t maxUsedBlock ;;
  Some (r, maxUsedBlock, if negb r then tail else lastFailed).

(** [checkTransactionInputs(tx, maxUsedBlock, lastFailed)] *)
Definition checkTransactionInputs_again (t : Transaction) (maxUsedBlock lastFailed : BlockInfo) : option (bool * BlockInfo * BlockInfo) :=
  let height := getCurrentBlockchainHeight (m_blocks c) in
  if info_empty maxUsedBlock then
    known <- (if negb (info_empty lastFailed) && (info_height lastFailed <? height) then
                id <- getBlockIdByHeight (info_height lastFailed) ;; Some (bool_decide (id = info_id lastFailed))
              else Some false) ;;
    if known : bool then Some (false, maxUsedBlock, lastFailed) else check_recording t maxUsedBlock lastFailed
  else
    if height <=? info_height maxUsedBlock then Some (false, maxUsedBlock, lastFailed) else
    id <- getBlockIdByHeight (info_height maxUsedBlock) ;;
    if bool_decide (id = info_id maxUsedBlock) then Some (true, maxUsedBlock, lastFailed) else
    failed_id <- getBlockIdByHeight (info_height lastFailed) ;;
    if bool_decide (info_id lastFailed = failed_id) then Some (false, maxUsedBlock, lastFailed) else
    check_recording t maxUsedBlock lastFailed.

Definition checkTransactionSize_limit (blobSize : Z) : bool :=
  negb (u64 (m_current_block_cumul_sz_limit c - m_minerTxBlobReservedSize par) <? blobSize).

#[export] Instance chain_validator : ITransactionValidator | 100 := {
  checkInputs t := '(r, max) <- checkTransactionInputs_max t no_info ;; Some (r && check_tx_outputs cur t, max);
  recheckInputs := checkTransactionInputs_again;
  haveSpentKeyImages := haveTransactionKeyImagesAsSpent (m_store c);
  checkTransactionSize := checkTransactionSize_limit
}.
End Validator.
