(* ===== verification/PoolInvariant.v ===== *)
(** * The invariant of the transaction pool

    What the pool knows of spent key images and outputs is what its transactions
    spend; every operation keeps this, no assertion fails, taking a transaction out
    again undoes adding it, and a block template spends nothing twice. *)

From Stdlib Require Import ZArith Lia List Bool.
From S2P Require Import Prelude Bytes IntUtil Currency TxStore BlockchainIndices TxCheck Blockchain TransactionPool.
From stdpp Require Import gmap gmultiset list.
Import ListNotations.
Open Scope Z_scope.
Open Scope cmon_scope.
Set Default Goal Selector "!".

(** ** Lists by id *)

Lemma fee_insert_perm d l : fee_insert d l ≡ₚ d :: l.
Proof. induction l as [|y l IH]; cbn; [reflexivity|]. destruct (before d y); [reflexivity|]. rewrite IH. apply Permutation_swap. Qed.

Lemma erase_elem id l d : d ∈ erase_tx id l <-> d ∈ l /\ td_id d <> id.
Proof.
  unfold erase_tx. rewrite !list_elem_of_In, filter_In. split; intros [H E]; (split; [exact H|]).
  - apply negb_true_iff, bool_decide_eq_false in E. exact E.
  - apply negb_true_iff, bool_decide_eq_false. exact E.
Qed.

Lemma erase_ids id l : NoDup (td_id <$> l) -> NoDup (td_id <$> erase_tx id l).
Proof.
  unfold erase_tx. induction l as [|d l IH]; intros N; cbn; [constructor|]. apply NoDup_cons in N as [Nd N].
  destruct (bool_decide (td_id d = id)); cbn; [apply IH, N|]. constructor; [|apply IH, N].
  intros (x & Ex & Hx)%list_elem_of_fmap. apply Nd. apply list_elem_of_fmap. exists x. split; [exact Ex|]. apply (erase_elem id) in Hx. tauto.
Qed.

Lemma find_elem id l d : find_tx id l = Some d -> d ∈ l /\ td_id d = id.
Proof. intros E%List.find_some. rewrite list_elem_of_In. destruct E as [H E]. apply bool_decide_eq_true in E. auto. Qed.

Lemma find_None_ids id l : find_tx id l = None -> id ∉ td_id <$> l.
Proof.
  intros E (d & -> & Hd)%list_elem_of_fmap. apply list_elem_of_In in Hd. pose proof (List.find_none _ _ E d Hd) as F. cbn in F.
  rewrite bool_decide_true in F by reflexivity. discriminate.
Qed.

Lemma find_unique l d : NoDup (td_id <$> l) -> d ∈ l -> find_tx (td_id d) l = Some d.
Proof.
  unfold find_tx. induction l as [|y l IH]; intros N H; [inversion H|]. apply NoDup_cons in N as [Ny N]. cbn.
  apply elem_of_cons in H as [->|H]; [rewrite bool_decide_true by reflexivity; reflexivity|].
  rewrite bool_decide_false; [apply IH; assumption|]. intros E. apply Ny. rewrite E. apply list_elem_of_fmap. eauto.
Qed.

Lemma erase_absent id l : id ∉ td_id <$> l -> erase_tx id l = l.
Proof.
  unfold erase_tx. induction l as [|y l IH]; intros N; [reflexivity|]. apply not_elem_of_cons in N as [Ny N]. cbn [List.filter].
  rewrite bool_decide_false by congruence. cbn [negb]. rewrite IH by exact N. reflexivity.
Qed.

Lemma erase_perm l d : NoDup (td_id <$> l) -> d ∈ l -> l ≡ₚ d :: erase_tx (td_id d) l.
Proof.
  induction l as [|y l IH]; intros N H; [inversion H|]. apply NoDup_cons in N as [Ny N]. cbn [erase_tx List.filter].
  apply elem_of_cons in H as [->|H].
  - rewrite bool_decide_true by reflexivity. cbn [negb]. fold (erase_tx (td_id y) l). rewrite erase_absent by exact Ny. reflexivity.
  - rewrite bool_decide_false by (intros E; apply Ny; rewrite E; apply list_elem_of_fmap; eauto). cbn [negb].
    fold (erase_tx (td_id d) l). rewrite (IH N H) at 1. apply Permutation_swap.
Qed.

Lemma erase_insert d l : td_id d ∉ td_id <$> l -> erase_tx (td_id d) (fee_insert d l) = l.
Proof.
  induction l as [|y l IH]; intros N; cbn [fee_insert erase_tx List.filter]; [rewrite bool_decide_true by reflexivity; reflexivity|].
  pose proof (erase_absent _ _ N) as A. apply not_elem_of_cons in N as [Ny N]. destruct (before d y); cbn [erase_tx List.filter] in *.
  - rewrite bool_decide_true by reflexivity. cbn [negb]. exact A.
  - rewrite bool_decide_false by congruence. cbn [negb]. f_equal. apply IH, N.
Qed.

(** ** Adding and removing inputs *)

Lemma set_size_empty_iff (s : gset bytes) : size s = 0%nat <-> s = ∅.
Proof. rewrite size_empty_iff. apply leibniz_equiv_iff. Qed.

Section Inputs.
Context (id : bytes) (kept : bool).

Lemma add_inputs_ok ins : forall images_ outs,
  NoDup (images ins) -> (forall x, x ∈ images ins -> id ∉ ids_of images_ x) ->
  (kept = false -> (forall x, x ∈ images ins -> ids_of images_ x = ∅) /\ NoDup (ms_refs ins) /\ (forall r, r ∈ ms_refs ins -> r ∉ outs)) ->
  exists images', add_inputs id kept ins images_ outs = Some (true, images', if kept then outs else list_to_set (ms_refs ins) ∪ outs) /\
    (forall x, images' !! x = if decide (x ∈ images ins) then Some ({[id]} ∪ ids_of images_ x) else images_ !! x).
Proof.
  induction ins as [|i ins IH]; intros images_ outs N F K; cbn [add_inputs].
  - exists images_. split; [do 2 f_equal; destruct kept; [reflexivity|cbn; set_solver]|]. intros x. rewrite decide_False; [reflexivity|]. intros H. inversion H.
  - destruct i as [b|a o image|a c o t]; cbn [images omap list_omap image_of ms_refs ms_ref] in *.
    + apply IH; assumption.
    + apply NoDup_cons in N as [Ni N]. pose proof (F image ltac:(left)) as Fi.
      assert (kept || (size (ids_of images_ image) =? 0)%nat = true) as ->.
      { destruct kept; [reflexivity|]. destruct (K eq_refl) as [Ke _]. rewrite (Ke image) by left. rewrite size_empty. reflexivity. }
      cbn [negb]. rewrite decide_False by exact Fi.
      assert (forall x, x ∈ images ins -> ids_of (<[image := {[id]} ∪ ids_of images_ image]> images_) x = ids_of images_ x) as Same.
      { intros x Hx. unfold ids_of at 1. rewrite lookup_insert_ne; [reflexivity|]. intros ->. exact (Ni Hx). }
      destruct (IH (<[image := {[id]} ∪ ids_of images_ image]> images_) outs N) as (images' & E & L).
      * intros x Hx. rewrite Same by exact Hx. apply F. right. exact Hx.
      * intros Ek. destruct (K Ek) as (K1 & K2 & K3). split; [|split; assumption]. intros x Hx. rewrite Same by exact Hx. apply K1. right. exact Hx.
      * exists images'. split; [exact E|]. intros x. rewrite L. destruct (decide (x ∈ images ins)) as [D|D].
        -- rewrite Same by exact D. rewrite decide_True by (right; exact D). reflexivity.
        -- rewrite lookup_insert. destruct (decide (image = x)) as [->|Nx]; [rewrite decide_True by left; reflexivity|].
           rewrite decide_False; [reflexivity|]. intros [->|H]%elem_of_cons; [congruence|contradiction].
    + destruct kept eqn:Ek; cbn [negb]; [apply IH; [exact N|exact F|discriminate]|].
      destruct (K eq_refl) as (K1 & K2 & K3). apply NoDup_cons in K2 as [Nr K2].
      rewrite bool_decide_false by (apply K3; left). cbn [negb c_assert obind].
      destruct (IH images_ ({[(a, o)]} ∪ outs) N F) as (images' & E & L).
      * intros _. split; [exact K1|]. split; [exact K2|]. intros r Hr. specialize (K3 r ltac:(right; exact Hr)).
        intros [->%elem_of_singleton|H]%elem_of_union; contradiction.
      * exists images'. split; [|exact L]. rewrite E. do 2 f_equal. cbn. set_solver.
Qed.

Lemma remove_inputs_ok ins : forall images_ outs,
  NoDup (images ins) -> (forall x, x ∈ images ins -> id ∈ ids_of images_ x) ->
  (kept = false -> NoDup (ms_refs ins) /\ (forall r, r ∈ ms_refs ins -> r ∈ outs)) ->
  exists images', remove_inputs id kept ins images_ outs = Some (true, images', if kept then outs else outs ∖ list_to_set (ms_refs ins)) /\
    (forall x, images' !! x = if decide (x ∈ images ins)
      then (if decide (ids_of images_ x ∖ {[id]} = ∅) then None else Some (ids_of images_ x ∖ {[id]})) else images_ !! x).
Proof.
  induction ins as [|i ins IH]; intros images_ outs N F K; cbn [remove_inputs].
  - exists images_. split; [do 2 f_equal; destruct kept; [reflexivity|cbn; set_solver]|]. intros x. rewrite decide_False; [reflexivity|]. intros H. inversion H.
  - destruct i as [b|a o image|a c o t]; cbn [images omap list_omap image_of ms_refs ms_ref] in *.
    + apply IH; assumption.
    + apply NoDup_cons in N as [Ni N]. pose proof (F image ltac:(left)) as Fi. unfold ids_of in Fi at 1.
      destruct (images_ !! image) as [s|] eqn:Es; cbn in Fi; [|set_solver].
      assert (ids_of images_ image = s) as Eid by (unfold ids_of; rewrite Es; reflexivity).
      assert ((size s =? 0)%nat = false) as -> by (apply Nat.eqb_neq; rewrite set_size_empty_iff; set_solver).
      rewrite decide_True by exact Fi.
      set (m' := if (size (s ∖ {[id]}) =? 0)%nat then delete image images_ else <[image := s ∖ {[id]}]> images_).
      assert (forall x, m' !! x = if decide (x = image) then (if decide (s ∖ {[id]} = ∅) then None else Some (s ∖ {[id]})) else images_ !! x) as Lm.
      { intros x. unfold m'. destruct (Nat.eqb_spec (size (s ∖ {[id]})) 0) as [Z0|Nz]; rewrite set_size_empty_iff in *.
        - rewrite lookup_delete. destruct (decide (image = x)) as [->|Nx]; [rewrite !decide_True by auto; reflexivity|rewrite decide_False by congruence; reflexivity].
        - rewrite lookup_insert. destruct (decide (image = x)) as [->|Nx]; [rewrite decide_True, decide_False by auto; reflexivity|rewrite decide_False by congruence; reflexivity]. }
      assert (forall x, x ∈ images ins -> ids_of m' x = ids_of images_ x) as Same.
      { intros x Hx. unfold ids_of. rewrite Lm, decide_False; [reflexivity|]. intros ->. exact (Ni Hx). }
      destruct (IH m' outs N) as (images' & E & L); [intros x Hx; rewrite Same by exact Hx; apply F; right; exact Hx|exact K|].
      exists images'. split; [exact E|]. intros x. rewrite L. destruct (decide (x ∈ images ins)) as [D|D].
      * rewrite Same by exact D. rewrite (decide_True (P := x ∈ image :: images ins)) by (right; exact D). reflexivity.
      * rewrite Lm. destruct (decide (x = image)) as [->|Nx]; [rewrite (decide_True (P := image ∈ image :: images ins)) by left; rewrite Eid; reflexivity|].
        rewrite decide_False; [reflexivity|]. intros [->|H]%elem_of_cons; contradiction.
    + destruct kept eqn:Ek; cbn [negb]; [apply IH; [exact N|exact F|discriminate]|].
      destruct (K eq_refl) as (K2 & K3). apply NoDup_cons in K2 as [Nr K2].
      rewrite bool_decide_true by (apply K3; left). cbn [c_assert obind].
      destruct (IH images_ (outs ∖ {[(a, o)]}) N F) as (images' & E & L).
      * intros _. split; [exact K2|]. intros r Hr. specialize (K3 r ltac:(right; exact Hr)). set_solver.
      * exists images'. split; [|exact L]. rewrite E. do 2 f_equal. cbn. set_solver.
Qed.
End Inputs.

(** ** The invariant *)

Record pool_ok (p : pool) : Prop := {
  po_ids : NoDup (td_id <$> m_transactions p);
  po_nonempty : forall x s, m_spent_key_images p !! x = Some s -> s <> ∅;
  po_images : forall x id, id ∈ ids_of (m_spent_key_images p) x <->
    exists d, d ∈ m_transactions p /\ td_id d = id /\ x ∈ images (inputs (td_tx d));
  po_outputs : forall r, r ∈ m_spentOutputs p <->
    exists d, d ∈ m_transactions p /\ td_keptByBlock d = false /\ r ∈ ms_refs (inputs (td_tx d));
  po_once : forall d d' r, d ∈ m_transactions p -> d' ∈ m_transactions p -> td_keptByBlock d = false -> td_keptByBlock d' = false ->
    r ∈ ms_refs (inputs (td_tx d)) -> r ∈ ms_refs (inputs (td_tx d')) -> td_id d = td_id d';
  po_wf : forall d, d ∈ m_transactions p -> NoDup (images (inputs (td_tx d))) /\ NoDup (ms_refs (inputs (td_tx d)));
  po_times : ts_ok (p_timestampIndex p);
  po_stamps : p_timestampIndex p ≡ₚ (fun d => (td_receiveTime d, td_id d)) <$> m_transactions p;
  po_ttls : forall id, is_Some (m_ttlIndex p !! id) -> id ∈ td_id <$> m_transactions p
}.

Lemma empty_pool_ok : pool_ok empty_pool.
Proof.
  split; cbn [empty_pool m_transactions m_spent_key_images m_spentOutputs p_timestampIndex m_ttlIndex].
  - constructor.
  - intros x s. rewrite lookup_empty. discriminate.
  - intros x id. unfold ids_of. rewrite lookup_empty. cbn. set_solver.
  - set_solver.
  - intros d d' r H. inversion H.
  - intros d H. inversion H.
  - constructor.
  - reflexivity.
  - intros id. rewrite lookup_empty. intros [? [=]].
Qed.

Section Operations.
Context {CK : CryptoChecks} {CO : Codec} {TV : ITransactionValidator} (cur : currency) (par : pool_params) (getTTL : Transaction -> Z).

Lemma haveSpentInputs_false t p : haveSpentInputs t p = false ->
  (forall x, x ∈ images (inputs t) -> m_spent_key_images p !! x = None) /\ (forall r, r ∈ ms_refs (inputs t) -> r ∉ m_spentOutputs p).
Proof.
  unfold haveSpentInputs. induction (inputs t) as [|i ins IH]; cbn [existsb]; intros E.
  - split; intros x H; inversion H.
  - apply orb_false_iff in E as [Ei E]. destruct (IH E) as [IH1 IH2]. destruct i as [b|a o image|a c o u]; cbn; [auto|..].
    + apply bool_decide_eq_false in Ei. split; [|exact IH2]. intros x [->|H]%elem_of_cons; [|apply IH1, H].
      destruct (m_spent_key_images p !! image); [destruct Ei; eauto|reflexivity].
    + apply bool_decide_eq_false in Ei. split; [exact IH1|]. intros r [->|H]%elem_of_cons; [exact Ei|apply IH2, H].
Qed.

(** The pool with a transaction more, before its inputs are entered. *)
Definition inserted (d : TransactionDetails) (p : pool) : pool :=
  mk_pool (fee_insert d (m_transactions p)) (m_spent_key_images p) (m_spentOutputs p) (m_recentlyDeletedTransactions p)
    (PaymentIdIndex_add getObjectHash getPaymentId (moved_from (td_tx d)) (p_paymentIdIndex p)) (ts_add (td_receiveTime d) (td_id d) (p_timestampIndex p))
    (if negb (getTTL (td_tx d) =? 0) then (if decide (is_Some (m_ttlIndex p !! td_id d)) then m_ttlIndex p else <[td_id d := getTTL (td_tx d)]> (m_ttlIndex p)) else m_ttlIndex p).

Section Add.
Context (p : pool) (d : TransactionDetails) (P : pool_ok p).
Let t : Transaction := td_tx d.
Hypothesis (F : td_id d ∉ td_id <$> m_transactions p).
Hypothesis (Wi : NoDup (images (inputs t))) (Wr : NoDup (ms_refs (inputs t))).
Hypothesis (K : td_keptByBlock d = false -> haveSpentInputs t p = false).

Lemma fresh_images x : td_id d ∉ ids_of (m_spent_key_images p) x.
Proof. intros (e & He & E & _)%(po_images p P). apply F. rewrite <- E. apply list_elem_of_fmap. eauto. Qed.

Lemma elem_inserted e : e ∈ fee_insert d (m_transactions p) <-> e = d \/ e ∈ m_transactions p.
Proof. rewrite fee_insert_perm. apply elem_of_cons. Qed.

Lemma add_images : exists images', add_inputs (td_id d) (td_keptByBlock d) (inputs t) (m_spent_key_images p) (m_spentOutputs p) =
    Some (true, images', if td_keptByBlock d then m_spentOutputs p else list_to_set (ms_refs (inputs t)) ∪ m_spentOutputs p) /\
  (forall x, images' !! x = if decide (x ∈ images (inputs t)) then Some ({[td_id d]} ∪ ids_of (m_spent_key_images p) x) else m_spent_key_images p !! x).
Proof.
  apply add_inputs_ok; [exact Wi|intros x _; apply fresh_images|]. intros Ek. destruct (haveSpentInputs_false t p (K Ek)) as [H1 H2].
  split; [|split; [exact Wr|exact H2]]. intros x Hx. unfold ids_of. rewrite (H1 x Hx). reflexivity.
Qed.

Lemma add_ok : exists p', addTransactionInputs (td_id d) t (td_keptByBlock d) (inserted d p) = Some (true, p') /\ pool_ok p' /\
  m_transactions p' = fee_insert d (m_transactions p).
Proof.
  destruct add_images as (images' & E & L). unfold addTransactionInputs. cbn [inserted m_spent_key_images m_spentOutputs m_transactions m_recentlyDeletedTransactions p_paymentIdIndex p_timestampIndex m_ttlIndex].
  rewrite E. cbn [obind]. eexists. split; [reflexivity|]. split; [|reflexivity].
  assert (forall x, ids_of images' x = if decide (x ∈ images (inputs t)) then {[td_id d]} ∪ ids_of (m_spent_key_images p) x else ids_of (m_spent_key_images p) x) as Li
    by (intros x; unfold ids_of at 1; rewrite L; destruct (decide _); reflexivity).
  split; cbn [m_transactions m_spent_key_images m_spentOutputs p_timestampIndex m_ttlIndex].
  - rewrite fee_insert_perm. cbn. constructor; [exact F|exact (po_ids p P)].
  - intros x s. rewrite L. destruct (decide _); [intros [= <-]; set_solver|apply (po_nonempty p P)].
  - intros x id. rewrite Li. setoid_rewrite elem_inserted. destruct (decide (x ∈ images (inputs t))) as [D|D].
    + rewrite elem_of_union, elem_of_singleton, (po_images p P). split.
      * intros [->|(e & He & Ee & Hx)]; [exists d; auto|exists e; auto].
      * intros (e & [->|He] & Ee & Hx); [left; congruence|right; eauto].
    + rewrite (po_images p P). split; intros (e & He & Ee & Hx); [eauto|]. destruct He as [->|He]; [contradiction|eauto].
  - intros r. setoid_rewrite elem_inserted. destruct (td_keptByBlock d) eqn:Ek.
    + rewrite (po_outputs p P). split; intros (e & He & Kk & Hr); [eauto|]. destruct He as [->|He]; [congruence|eauto].
    + rewrite elem_of_union, elem_of_list_to_set, (po_outputs p P). split.
      * intros [Hr|(e & He & Kk & Hr)]; [exists d; auto|exists e; auto].
      * intros (e & [->|He] & Kk & Hr); [left; exact Hr|right; eauto].
  - intros e e' r He He' Ke Ke' Hr Hr'. apply elem_inserted in He, He'.
    assert (forall x, x ∈ m_transactions p -> td_keptByBlock x = false -> td_keptByBlock d = false -> r ∈ ms_refs (inputs (td_tx x)) -> r ∈ ms_refs (inputs t) -> False) as C.
    { intros x Hx Kx Kd Hrx Hrt. destruct (haveSpentInputs_false t p (K Kd)) as [_ H2]. apply (H2 r Hrt). apply (po_outputs p P). eauto. }
    destruct He as [->|He], He' as [->|He']; [reflexivity|destruct (C e' He' Ke' Ke Hr' Hr)|destruct (C e He Ke Ke' Hr Hr')|].
    exact (po_once p P e e' r He He' Ke Ke' Hr Hr').
  - intros e [->|He]%elem_inserted; [split; assumption|apply (po_wf p P), He].
  - apply ts_add_ok, (po_times p P).
  - rewrite ts_add_permutation, fee_insert_perm, (po_stamps p P). reflexivity.
  - intros id Hs. rewrite fee_insert_perm. cbn. apply elem_of_cons. destruct (negb _); [|right; apply (po_ttls p P), Hs].
    destruct (decide _); [right; apply (po_ttls p P), Hs|]. rewrite lookup_insert in Hs. destruct (decide (td_id d = id)); [left; congruence|right; apply (po_ttls p P), Hs].
Qed.
End Add.

(** Removing a transaction of the pool. *)
Lemma removeTransaction_ok p d : pool_ok p -> d ∈ m_transactions p ->
  exists p', removeTransaction d p = Some p' /\ pool_ok p' /\ m_transactions p' = erase_tx (td_id d) (m_transactions p).
Proof.
  intros P Hd. destruct (po_wf p P d Hd) as [Wi Wr]. unfold removeTransaction.
  assert (forall e, e ∈ m_transactions p -> td_id e = td_id d -> e = d) as Uniq.
  { intros e He E. pose proof (find_unique _ _ (po_ids p P) He) as F1. rewrite E, (find_unique _ _ (po_ids p P) Hd) in F1. congruence. }
  destruct (remove_inputs_ok (td_id d) (td_keptByBlock d) (inputs (td_tx d)) (m_spent_key_images p) (m_spentOutputs p)) as (images' & -> & L).
  { exact Wi. }
  { intros x Hx. apply (po_images p P). eauto. }
  { intros Ek. split; [exact Wr|]. intros r Hr. apply (po_outputs p P). eauto. }
  cbn [obind]. eexists. split; [reflexivity|]. split; [|reflexivity].
  assert (forall x, ids_of images' x = if decide (x ∈ images (inputs (td_tx d))) then ids_of (m_spent_key_images p) x ∖ {[td_id d]} else ids_of (m_spent_key_images p) x) as Li.
  { intros x. unfold ids_of at 1. rewrite L. destruct (decide _); [|reflexivity]. destruct (decide (_ = ∅)) as [->|]; reflexivity. }
  split; cbn [m_transactions m_spent_key_images m_spentOutputs p_timestampIndex m_ttlIndex].
  - apply erase_ids, (po_ids p P).
  - intros x s. rewrite L. destruct (decide _); [|apply (po_nonempty p P)]. destruct (decide (_ = ∅)) as [|N]; [discriminate|intros [= <-]; exact N].
  - intros x id. rewrite Li. setoid_rewrite erase_elem. destruct (decide (x ∈ images (inputs (td_tx d)))) as [D|D].
    + rewrite elem_of_difference, elem_of_singleton, (po_images p P). split.
      * intros [(e & He & Ee & Hx) N]. exists e. split; [split; [exact He|congruence]|auto].
      * intros (e & [He Ne] & Ee & Hx). split; [eauto|congruence].
    + rewrite (po_images p P). split; intros (e & He & Ee & Hx); [|destruct He; eauto]. exists e. split; [split; [exact He|]|auto].
      intros E. apply D. rewrite <- (Uniq e He E). exact Hx.
  - intros r. setoid_rewrite erase_elem. destruct (td_keptByBlock d) eqn:Ek.
    + rewrite (po_outputs p P). split; intros (e & He & Kk & Hr); [|destruct He; eauto]. exists e. split; [split; [exact He|]|auto].
      intros E. rewrite (Uniq e He E) in Kk. congruence.
    + rewrite elem_of_difference, elem_of_list_to_set, (po_outputs p P). split.
      * intros [(e & He & Kk & Hr) N]. exists e. split; [split; [exact He|]|auto]. intros E. apply N. rewrite <- (Uniq e He E). exact Hr.
      * intros (e & [He Ne] & Kk & Hr). split; [eauto|]. intros Hr'. apply Ne. exact (po_once p P e d r He Hd Kk Ek Hr Hr').
  - intros e e' r [He _]%erase_elem [He' _]%erase_elem. apply (po_once p P); assumption.
  - intros e [He _]%erase_elem. apply (po_wf p P), He.
  - destruct (ts_remove_perm (td_receiveTime d) (td_id d) (p_timestampIndex p)) as (ix & -> & _ & O);
      [rewrite (po_stamps p P); apply list_elem_of_fmap; eauto|apply O, (po_times p P)].
  - destruct (ts_remove_perm (td_receiveTime d) (td_id d) (p_timestampIndex p)) as (ix & -> & Pm & _);
      [rewrite (po_stamps p P); apply list_elem_of_fmap; eauto|]. cbn [snd]. rewrite (po_stamps p P) in Pm.
    rewrite (erase_perm _ d (po_ids p P) Hd) in Pm at 1. cbn in Pm. apply Permutation_cons_inv in Pm. symmetry. exact Pm.
  - intros id Hs. rewrite lookup_delete in Hs. destruct (decide (td_id d = id)) as [|N]; [destruct Hs; discriminate|].
    apply (po_ttls p P) in Hs. apply list_elem_of_fmap in Hs as (e & -> & He). apply list_elem_of_fmap. exists e. split; [reflexivity|]. apply erase_elem. auto.
Qed.

(** ** Adding, taking and expiring *)

(** The details of a transaction that [accept_tx] lets through. *)
Definition details (t : Transaction) (id : bytes) (blobSize fee received : Z) (kept : bool) (max : BlockInfo) : TransactionDetails :=
  mk_details id t blobSize fee kept received max no_info.

Lemma have_tx_false id p : have_tx id p = false -> id ∉ td_id <$> m_transactions p.
Proof. unfold have_tx. destruct (find_tx id (m_transactions p)) eqn:E; [discriminate|]. intros _. apply find_None_ids, E. Qed.

Lemma have_tx_true id p : have_tx id p = true <-> id ∈ td_id <$> m_transactions p.
Proof.
  split; unfold have_tx; destruct (find_tx id (m_transactions p)) eqn:E; try discriminate; try reflexivity.
  - intros _. apply find_elem in E as [H <-]. apply list_elem_of_fmap. eauto.
  - intros H. destruct (find_None_ids _ _ E H).
Qed.

(** A transaction that is let through and is not kept by a block spends nothing the pool spends. *)
Lemma accept_unspent now t blobSize kept p fee fusion valid max :
  accept_tx cur par getTTL now t blobSize kept p = Some (inl (fee, fusion, valid, max)) -> kept = false -> haveSpentInputs t p = false.
Proof.
  unfold accept_tx. intros E ->.
  destruct (negb (check_inputs_types_supported t)); [discriminate|].
  destruct (getTransactionAllInputsAmount cur (inputs t) 0) as [a|]; [|discriminate]. cbn [obind] in E.
  destruct (a <? _); [discriminate|].
  destruct (if _ =? 0 then _ else _) as [f|]; [|discriminate]. cbn [obind negb andb] in E.
  destruct (_ && _); [discriminate|]. destruct (negb _); [discriminate|].
  destruct (haveSpentInputs t p); [discriminate|reflexivity].
Qed.

Lemma add_tx_ok now received t id blobSize kept p : pool_ok p -> NoDup (images (inputs t)) -> NoDup (ms_refs (inputs t)) ->
  accept_tx cur par getTTL now t blobSize kept p <> None ->
  exists r v p', add_tx cur par getTTL now received t id blobSize kept p = Some (r, v, p') /\ pool_ok p' /\
    (if m_added_to_pool v
     then r = true /\ t_verifivation_failed v = false /\ id ∉ td_id <$> m_transactions p /\
       exists fee max, let d := details t id blobSize fee received kept max in
         addTransactionInputs id t kept (inserted d p) = Some (true, p') /\ m_transactions p' = fee_insert d (m_transactions p)
     else p' = p).
Proof.
  intros P Wi Wr A. unfold add_tx. destruct (accept_tx cur par getTTL now t blobSize kept p) as [[[[[fee fusion] valid] max]|v]|] eqn:E;
    [|cbn; eexists _, _, _; split; [reflexivity|]; split; [exact P|]; revert E; clear; unfold accept_tx|contradiction].
  - cbn [obind]. destruct (negb kept && _); [eexists _, _, _; split; [reflexivity|]; split; [exact P|reflexivity]|].
    destruct (have_tx id p) eqn:Hh; [eexists _, _, _; split; [reflexivity|]; split; [exact P|reflexivity]|].
    apply have_tx_false in Hh. pose proof (add_ok p (details t id blobSize fee received kept max) P Hh Wi Wr (accept_unspent _ _ _ _ _ _ _ _ _ E)) as (p' & Ea & Pok & Et).
    unfold inserted, details in Ea. cbn [td_id td_tx td_keptByBlock td_receiveTime] in Ea. rewrite Ea. cbn [obind negb].
    eexists _, _, _. split; [reflexivity|]. split; [exact Pok|]. cbn. split; [reflexivity|]. split; [reflexivity|]. split; [exact Hh|].
    exists fee, max. split; [exact Ea|exact Et].
  - intros E. destruct (m_added_to_pool v) eqn:Ev; [exfalso|reflexivity]. revert E.
    repeat match goal with
    | |- (if ?b then _ else _) = _ -> _ => destruct b
    | |- obind ?a _ = _ -> _ => destruct a; cbn [obind]
    | |- (let '(_, _) := ?a in _) = _ -> _ => destruct a
    end; try discriminate; intros [= <-]; discriminate.
Qed.

(** [take_tx] *)
Lemma take_tx_ok id p : pool_ok p -> exists r p', take_tx id p = Some (r, p') /\ pool_ok p' /\
  m_transactions p' = erase_tx id (m_transactions p) /\
  match r with Some d => d ∈ m_transactions p /\ td_id d = id | None => id ∉ td_id <$> m_transactions p /\ p' = p end.
Proof.
  intros P. unfold take_tx. destruct (find_tx id (m_transactions p)) as [d|] eqn:E.
  - apply find_elem in E as [Hd <-]. destruct (removeTransaction_ok p d P Hd) as (p' & -> & P' & Et). cbn [obind]. eauto 8.
  - exists None, p. split; [reflexivity|]. split; [exact P|]. apply find_None_ids in E. split; [symmetry; apply erase_absent, E|auto].
Qed.

(** Everything but the index of payment ids. *)
Definition same_pool (p q : pool) : Prop :=
  m_transactions p = m_transactions q /\ m_spent_key_images p = m_spent_key_images q /\ m_spentOutputs p = m_spentOutputs q /\
  m_recentlyDeletedTransactions p = m_recentlyDeletedTransactions q /\ p_timestampIndex p = p_timestampIndex q /\ m_ttlIndex p = m_ttlIndex q.

Lemma take_undoes_add p d p' : pool_ok p -> td_id d ∉ td_id <$> m_transactions p ->
  NoDup (images (inputs (td_tx d))) -> NoDup (ms_refs (inputs (td_tx d))) -> (td_keptByBlock d = false -> haveSpentInputs (td_tx d) p = false) ->
  addTransactionInputs (td_id d) (td_tx d) (td_keptByBlock d) (inserted d p) = Some (true, p') ->
  exists q, take_tx (td_id d) p' = Some (Some d, q) /\ same_pool q p.
Proof.
  intros P F Wi Wr K A. destruct (add_images p d P F Wi Wr K) as (images' & E & L).
  unfold addTransactionInputs in A. cbn [inserted m_transactions m_spent_key_images m_spentOutputs m_recentlyDeletedTransactions p_paymentIdIndex p_timestampIndex m_ttlIndex] in A.
  rewrite E in A. cbn [obind] in A. apply Some_inj in A. injection A as <-.
  unfold take_tx, removeTransaction. cbn [m_transactions m_spent_key_images m_spentOutputs m_recentlyDeletedTransactions p_paymentIdIndex p_timestampIndex m_ttlIndex].
  assert (NoDup (td_id <$> fee_insert d (m_transactions p))) as N by (rewrite fee_insert_perm; cbn; constructor; [exact F|exact (po_ids p P)]).
  rewrite (find_unique _ d N) by (rewrite fee_insert_perm; left). clear N.
  assert (forall x, ids_of images' x = if decide (x ∈ images (inputs (td_tx d))) then {[td_id d]} ∪ ids_of (m_spent_key_images p) x else ids_of (m_spent_key_images p) x) as Li
    by (intros x; unfold ids_of at 1; rewrite L; destruct (decide _); reflexivity).
  destruct (remove_inputs_ok (td_id d) (td_keptByBlock d) (inputs (td_tx d)) images'
    (if td_keptByBlock d then m_spentOutputs p else list_to_set (ms_refs (inputs (td_tx d))) ∪ m_spentOutputs p)) as (images'' & -> & L').
  { exact Wi. }
  { intros x Hx. rewrite Li, decide_True by exact Hx. set_solver. }
  { intros ->. split; [exact Wr|]. intros r Hr. apply elem_of_union_l, elem_of_list_to_set, Hr. }
  cbn [obind]. eexists. split; [reflexivity|].
  unfold same_pool. cbn [m_transactions m_spent_key_images m_spentOutputs m_recentlyDeletedTransactions p_timestampIndex m_ttlIndex].
  split; [apply erase_insert, F|]. split; [|split; [|split; [reflexivity|split]]].
  - apply map_eq. intros x. rewrite L'. destruct (decide (x ∈ images (inputs (td_tx d)))) as [D|D]; [|rewrite L, decide_False by exact D; reflexivity].
    rewrite Li, (decide_True (P := x ∈ images (inputs (td_tx d)))) by exact D. pose proof (fresh_images p d P F x) as Fx.
    replace (({[td_id d]} ∪ ids_of (m_spent_key_images p) x) ∖ {[td_id d]}) with (ids_of (m_spent_key_images p) x) by set_solver.
    unfold ids_of. destruct (m_spent_key_images p !! x) as [s|] eqn:Es; cbn; [|rewrite decide_True by reflexivity; reflexivity].
    rewrite decide_False by exact (po_nonempty p P x s Es). reflexivity.
  - destruct (td_keptByBlock d) eqn:Ek; [reflexivity|]. destruct (haveSpentInputs_false _ p (K eq_refl)) as [_ H2]. apply set_eq. intros r.
    rewrite elem_of_difference, elem_of_union, elem_of_list_to_set. split; [tauto|]. intros Hr. split; [auto|]. intros Hr'. exact (H2 r Hr' Hr).
  - rewrite ts_remove_add; [reflexivity|]. rewrite (po_stamps p P). intros (e & [= Et Ei] & He)%list_elem_of_fmap. apply F. rewrite Ei. apply list_elem_of_fmap. eauto.
  - assert (m_ttlIndex p !! td_id d = None) as Nt by (destruct (m_ttlIndex p !! td_id d) eqn:Et; [destruct (F (po_ttls p P (td_id d) (mk_is_Some _ _ Et)))|reflexivity]).
    destruct (negb _); [|apply delete_id, Nt]. rewrite decide_False by (rewrite Nt; intros [? [=]]). rewrite delete_insert_id by exact Nt. reflexivity.
Qed.

(** *** Expiry *)

Lemma removeTransaction_rest d p p' : removeTransaction d p = Some p' ->
  m_ttlIndex p' = delete (td_id d) (m_ttlIndex p) /\ m_recentlyDeletedTransactions p' = m_recentlyDeletedTransactions p.
Proof. unfold removeTransaction. destruct (remove_inputs _ _ _ _ _) as [[[r im] outs]|]; [|discriminate]. intros [= <-]. auto. Qed.

Lemma pool_ok_recent p recent : pool_ok p ->
  pool_ok (mk_pool (m_transactions p) (m_spent_key_images p) (m_spentOutputs p) recent (p_paymentIdIndex p) (p_timestampIndex p) (m_ttlIndex p)).
Proof. intros [? ? ? ? ? ? ? ? ?]. split; assumption. Qed.

Lemma expired_delete now d id ttls : td_id d <> id -> expired par now d (delete id ttls) = expired par now d ttls.
Proof. intros N. unfold expired. rewrite lookup_delete_ne by congruence. reflexivity. Qed.

Definition expired_ids (now : Z) (ttls : gmap bytes Z) (l : list TransactionDetails) : list bytes :=
  td_id <$> List.filter (fun d => expired par now d ttls) l.

Lemma expired_ids_delete now id ttls l : id ∉ td_id <$> l -> expired_ids now (delete id ttls) l = expired_ids now ttls l.
Proof.
  unfold expired_ids. induction l as [|d l IH]; intros N; [reflexivity|]. apply not_elem_of_cons in N as [Nd N]. cbn [List.filter].
  rewrite expired_delete by congruence. destruct (expired par now d ttls); cbn; [f_equal|]; apply IH, N.
Qed.

Definition without (ids : list bytes) (l : list TransactionDetails) : list TransactionDetails :=
  List.filter (fun d => negb (bool_decide (td_id d ∈ ids))) l.

Lemma without_erase id ids l : without ids (erase_tx id l) = without (id :: ids) l.
Proof.
  unfold without, erase_tx. induction l as [|d l IH]; [reflexivity|]. cbn [List.filter]. destruct (decide (td_id d = id)) as [E|N].
  - rewrite (bool_decide_true (td_id d = id)) by exact E. rewrite (bool_decide_true (td_id d ∈ id :: ids)) by (rewrite E; left). exact IH.
  - rewrite (bool_decide_false (td_id d = id)) by exact N. cbn [negb List.filter]. rewrite IH.
    rewrite (bool_decide_ext (td_id d ∈ id :: ids) (td_id d ∈ ids)) by (rewrite elem_of_cons; tauto). reflexivity.
Qed.

Lemma remove_expired_ok now l : forall p, pool_ok p -> (forall d, d ∈ l -> d ∈ m_transactions p) -> NoDup (td_id <$> l) ->
  exists p', remove_expired par now l p = Some p' /\ pool_ok p' /\
    m_transactions p' = without (expired_ids now (m_ttlIndex p) l) (m_transactions p) /\
    (forall id, is_Some (m_recentlyDeletedTransactions p' !! id) <->
       is_Some (m_recentlyDeletedTransactions p !! id) \/ id ∈ expired_ids now (m_ttlIndex p) l).
Proof.
  induction l as [|d l IH]; intros p P S N; cbn [remove_expired].
  - exists p. split; [reflexivity|]. split; [exact P|]. split; [|intros id; split; [auto|intros [H|H]; [exact H|inversion H]]].
    unfold without. cbn. induction (m_transactions p) as [|e l IH]; [reflexivity|]. cbn. rewrite bool_decide_false by (intros H; inversion H). cbn. f_equal.
    clear -l. induction l as [|e l IH]; [reflexivity|]. cbn. rewrite bool_decide_false by (intros H; inversion H). cbn. f_equal. exact IH.
  - apply NoDup_cons in N as [Nd N]. unfold expired_ids. cbn [List.filter]. destruct (expired par now d (m_ttlIndex p)) eqn:Ex.
    2: { apply IH; [exact P| |exact N]. intros e He. apply S. right. exact He. }
    set (recent := match m_recentlyDeletedTransactions p !! td_id d with Some _ => _ | None => _ end).
    destruct (removeTransaction_ok _ d (pool_ok_recent p recent P) (S d ltac:(left))) as (p1 & E1 & P1 & T1). rewrite E1. cbn [obind m_transactions] in *.
    destruct (removeTransaction_rest _ _ _ E1) as [R1 R2]. cbn [m_ttlIndex m_recentlyDeletedTransactions] in R1, R2.
    destruct (IH p1 P1) as (p' & E' & P' & T' & R'); [|exact N|].
    { intros e He. rewrite T1. apply erase_elem. split; [apply S; right; exact He|]. intros Ee. apply Nd. rewrite <- Ee. apply list_elem_of_fmap. eauto. }
    rewrite R1, expired_ids_delete in T', R' by exact Nd. exists p'. split; [exact E'|]. split; [exact P'|]. split.
    + rewrite T', T1. apply without_erase.
    + intros id. rewrite R', R2. cbn [fmap list_fmap]. rewrite elem_of_cons.
      assert (is_Some (recent !! id) <-> is_Some (m_recentlyDeletedTransactions p !! id) \/ id = td_id d) as ->; [|fold (expired_ids now (m_ttlIndex p) l); tauto].
      unfold recent. destruct (m_recentlyDeletedTransactions p !! td_id d) eqn:Er; [split; [auto|intros [H| ->]; [exact H|eauto]]|].
      rewrite lookup_insert. destruct (decide (td_id d = id)) as [->|Ni]; [split; eauto|]. split; [auto|intros [H|H]; [exact H|congruence]].
Qed.

Lemma without_expired now ttls l : NoDup (td_id <$> l) -> without (expired_ids now ttls l) l = List.filter (fun d => negb (expired par now d ttls)) l.
Proof.
  intros N. unfold without. apply List.filter_ext_in. intros d Hd%list_elem_of_In. f_equal. apply eq_true_iff_eq. rewrite bool_decide_eq_true. unfold expired_ids.
  rewrite list_elem_of_fmap. split.
  - intros (e & E & [He Ex]%list_elem_of_In%filter_In). apply list_elem_of_In in He.
    pose proof (find_unique _ _ N Hd) as F1. rewrite E, (find_unique _ _ N He) in F1. injection F1 as ->. exact Ex.
  - intros Ex. exists d. split; [reflexivity|]. apply list_elem_of_In, filter_In. split; [apply list_elem_of_In, Hd|exact Ex].
Qed.

(** The pool keeps exactly the transactions that have not expired, and remembers the others. *)
Lemma removeExpired_ok now p : pool_ok p -> exists p', removeExpiredTransactions par now p = Some p' /\ pool_ok p' /\
  m_transactions p' = List.filter (fun d => negb (expired par now d (m_ttlIndex p))) (m_transactions p) /\
  (forall d, d ∈ m_transactions p -> expired par now d (m_ttlIndex p) = true -> is_Some (m_recentlyDeletedTransactions p' !! td_id d)).
Proof.
  intros P. unfold removeExpiredTransactions. cbv zeta. set (recent := filter _ _).
  destruct (remove_expired_ok now (m_transactions p) _ (pool_ok_recent p recent P)) as (p' & E & P' & T & R); [auto|exact (po_ids p P)|].
  cbn [m_transactions m_ttlIndex m_recentlyDeletedTransactions] in *. exists p'. split; [exact E|]. split; [exact P'|]. split; [rewrite T; apply without_expired, (po_ids p P)|].
  intros d Hd Ex. apply R. right. apply list_elem_of_fmap. exists d. split; [reflexivity|]. apply list_elem_of_In, filter_In. split; [apply list_elem_of_In, Hd|exact Ex].
Qed.
End Operations.
