(* ===== verification/PoolTemplate.v ===== *)
(** * Block templates of the transaction pool

    [fill_block_template] chooses transactions that are ready, do not exceed the size
    limits, and spend no key image and no output twice; and it leaves out only
    transactions that one of these rules keeps out. *)

From Stdlib Require Import ZArith Lia List Bool.
From S2P Require Import Prelude Bytes IntUtil Currency TxStore BlockchainIndices TxCheck Blockchain TransactionPool PoolInvariant.
From stdpp Require Import gmap gmultiset list.
Import ListNotations.
Open Scope Z_scope.
Open Scope cmon_scope.
Set Default Goal Selector "!".

(** ** The template *)

Definition sel_images (sel : list TransactionDetails) : list bytes := concat ((fun d => images (inputs (td_tx d))) <$> sel).
Definition sel_refs (sel : list TransactionDetails) : list (Z * Z) := concat ((fun d => ms_refs (inputs (td_tx d))) <$> sel).
Definition sel_size (sel : list TransactionDetails) : Z := sumZ (td_blobSize <$> sel).
Definition sel_fee (sel : list TransactionDetails) : Z := sumZ (td_fee <$> sel).

Lemma sel_images_snoc sel d : sel_images (sel ++ [d]) = sel_images sel ++ images (inputs (td_tx d)).
Proof. unfold sel_images. rewrite fmap_app, concat_app. cbn. rewrite app_nil_r. reflexivity. Qed.

Lemma sel_refs_snoc sel d : sel_refs (sel ++ [d]) = sel_refs sel ++ ms_refs (inputs (td_tx d)).
Proof. unfold sel_refs. rewrite fmap_app, concat_app. cbn. rewrite app_nil_r. reflexivity. Qed.

Lemma sel_size_snoc sel d : sel_size (sel ++ [d]) = sel_size sel + td_blobSize d.
Proof. unfold sel_size. rewrite fmap_app. apply sumZ_snoc. Qed.

Lemma sel_fee_snoc sel d : sel_fee (sel ++ [d]) = sel_fee sel + td_fee d.
Proof. unfold sel_fee. rewrite fmap_app. apply sumZ_snoc. Qed.

(** Two transactions spend the same key image or output. *)
Definition conflict (d e : TransactionDetails) : Prop :=
  (exists x, x ∈ images (inputs (td_tx d)) /\ x ∈ images (inputs (td_tx e))) \/
  (exists r, r ∈ ms_refs (inputs (td_tx d)) /\ r ∈ ms_refs (inputs (td_tx e))).

Lemma elem_sel_images x sel : x ∈ sel_images sel <-> exists e, e ∈ sel /\ x ∈ images (inputs (td_tx e)).
Proof.
  unfold sel_images. rewrite list_elem_of_In, in_concat. setoid_rewrite <- list_elem_of_In. setoid_rewrite list_elem_of_fmap. split.
  - intros (l & (e & -> & He) & Hx). eauto.
  - intros (e & He & Hx). eauto.
Qed.

Lemma elem_sel_refs r sel : r ∈ sel_refs sel <-> exists e, e ∈ sel /\ r ∈ ms_refs (inputs (td_tx e)).
Proof.
  unfold sel_refs. rewrite list_elem_of_In, in_concat. setoid_rewrite <- list_elem_of_In. setoid_rewrite list_elem_of_fmap. split.
  - intros (l & (e & -> & He) & Hx). eauto.
  - intros (e & He & Hx). eauto.
Qed.

Lemma canAdd_spec t bt : canAdd t bt = true <->
  (forall x, x ∈ images (inputs t) -> x ∉ bt_keyImages bt) /\ (forall r, r ∈ ms_refs (inputs t) -> r ∉ bt_usedOutputs bt).
Proof.
  unfold canAdd. induction (inputs t) as [|i ins IH]; cbn [forallb].
  - split; [intros _; split; intros x H; inversion H|reflexivity].
  - rewrite andb_true_iff, IH. destruct i as [b|a o image|a c o u]; cbn [images ms_refs omap list_omap image_of ms_ref]; [tauto|..];
      rewrite negb_true_iff, bool_decide_eq_false; setoid_rewrite elem_of_cons; split; intros H; repeat split; try intros x Hx; destruct H as [H1 H2];
      try destruct H2 as [H2 H3]; try destruct Hx as [->|Hx]; try naive_solver.
Qed.

Lemma template_inputs_ok ins : forall keys outs, NoDup (images ins) -> NoDup (ms_refs ins) ->
  (forall x, x ∈ images ins -> x ∉ keys) -> (forall r, r ∈ ms_refs ins -> r ∉ outs) ->
  template_inputs ins keys outs = Some (list_to_set (images ins) ∪ keys, list_to_set (ms_refs ins) ∪ outs).
Proof.
  induction ins as [|i ins IH]; intros keys outs Ni Nr Ki Kr; cbn [template_inputs].
  - cbn. do 2 f_equal; set_solver.
  - destruct i as [b|a o image|a c o u]; cbn [images ms_refs omap list_omap image_of ms_ref] in *; [apply IH; assumption|..].
    + apply NoDup_cons in Ni as [Nx Ni]. rewrite bool_decide_false by (apply Ki; left). cbn [negb c_assert obind].
      rewrite IH; [do 2 f_equal; cbn; set_solver|exact Ni|exact Nr| |exact Kr].
      intros x Hx. specialize (Ki x ltac:(right; exact Hx)). intros [->%elem_of_singleton|H]%elem_of_union; contradiction.
    + apply NoDup_cons in Nr as [Nx Nr]. rewrite bool_decide_false by (apply Kr; left). cbn [negb c_assert obind].
      rewrite IH; [do 2 f_equal; cbn; set_solver|exact Ni|exact Nr|exact Ki|].
      intros x Hx. specialize (Kr x ltac:(right; exact Hx)). intros [->%elem_of_singleton|H]%elem_of_union; contradiction.
Qed.

(** The template holds the selected transactions. *)
Record template_ok (sel : list TransactionDetails) (bt : BlockTemplate) : Prop := {
  to_hashes : bt_txHashes bt = td_id <$> sel;
  to_keys : bt_keyImages bt = list_to_set (sel_images sel);
  to_outs : bt_usedOutputs bt = list_to_set (sel_refs sel);
  to_images : NoDup (sel_images sel);
  to_refs : NoDup (sel_refs sel)
}.

Lemma template_empty : template_ok [] (mk_template ∅ ∅ []).
Proof. split; try reflexivity; constructor. Qed.

Definition wf_inputs (d : TransactionDetails) : Prop := NoDup (images (inputs (td_tx d))) /\ NoDup (ms_refs (inputs (td_tx d))).

Lemma addTransaction_ok sel bt d : template_ok sel bt -> wf_inputs d -> exists r bt',
  addTransaction (td_id d) (td_tx d) bt = Some (r, bt') /\ template_ok (if r : bool then sel ++ [d] else sel) bt' /\
  (r = false -> exists e, e ∈ sel /\ conflict d e).
Proof.
  intros [Th Tk To Ti Tr] [Wi Wr]. unfold addTransaction. destruct (canAdd (td_tx d) bt) eqn:C; cbn [negb].
  - apply canAdd_spec in C as [C1 C2]. rewrite template_inputs_ok by assumption. cbn [obind]. eexists true, _. split; [reflexivity|]. split; [|discriminate].
    rewrite Tk in C1. rewrite To in C2. setoid_rewrite elem_of_list_to_set in C1. setoid_rewrite elem_of_list_to_set in C2.
    split; cbn [bt_txHashes bt_keyImages bt_usedOutputs].
    + rewrite Th, fmap_app. reflexivity.
    + rewrite Tk, sel_images_snoc, list_to_set_app_L. set_solver.
    + rewrite To, sel_refs_snoc, list_to_set_app_L. set_solver.
    + rewrite sel_images_snoc. apply NoDup_app. split; [exact Ti|]. split; [intros x Hx Hx'; exact (C1 x Hx' Hx)|exact Wi].
    + rewrite sel_refs_snoc. apply NoDup_app. split; [exact Tr|]. split; [intros x Hx Hx'; exact (C2 x Hx' Hx)|exact Wr].
  - exists false, bt. split; [reflexivity|]. split; [split; assumption|]. intros _.
    destruct (decide (Exists (fun e => Exists (fun x => x ∈ images (inputs (td_tx e))) (images (inputs (td_tx d))) \/
      Exists (fun r => r ∈ ms_refs (inputs (td_tx e))) (ms_refs (inputs (td_tx d)))) sel)) as [X|X].
    + apply list.Exists_exists in X as (e & He & [X|X]); apply list.Exists_exists in X as (x & Hx & Hx'); exists e; (split; [exact He|]); [left|right]; eauto.
    + exfalso. rewrite (proj2 (canAdd_spec (td_tx d) bt)) in C; [discriminate|]. rewrite Tk, To. setoid_rewrite elem_of_list_to_set.
      setoid_rewrite elem_sel_images. setoid_rewrite elem_sel_refs.
      split; intros x Hx (e & He & Hx'); apply X; apply list.Exists_exists; exists e; (split; [exact He|]); [left|right]; apply list.Exists_exists; eauto.
Qed.

(** ** The loops *)

Section Fill.
Context {CK : CryptoChecks} {CO : Codec} {TV : ITransactionValidator} (cur : currency) (par : pool_params).

(** The validator answers, and the answer is yes. *)
Definition answered (d : TransactionDetails) : Prop := recheckInputs (td_tx d) (td_maxUsedBlock d) (td_lastFailedBlock d) <> None.

Definition ready (d : TransactionDetails) : Prop := exists max failed,
  recheckInputs (td_tx d) (td_maxUsedBlock d) (td_lastFailedBlock d) = Some (true, max, failed) /\ haveSpentKeyImages (td_tx d) = false.

(** Only the information about checks differs. *)
Definition same_tx (d e : TransactionDetails) : Prop :=
  td_id d = td_id e /\ td_tx d = td_tx e /\ td_blobSize d = td_blobSize e /\ td_fee d = td_fee e /\
  td_keptByBlock d = td_keptByBlock e /\ td_receiveTime d = td_receiveTime e.

Lemma ready_to_go d : answered d -> exists r d', is_transaction_ready_to_go d = Some (r, d') /\ same_tx d' d /\ (r = true <-> ready d).
Proof.
  unfold answered, is_transaction_ready_to_go, ready. destruct (recheckInputs _ _ _) as [[[b max] lf]|] eqn:E; [|contradiction]. intros _. cbn [obind td_tx].
  eexists _, _. split; [reflexivity|]. split; [repeat split|]. rewrite andb_true_iff, negb_true_iff. split.
  - intros [-> H]. eauto.
  - intros (max' & lf' & [= -> _ _] & H). auto.
Qed.

(** A bound of all sizes that keeps the sums below 2^63. *)
Variable limit : Z.
Hypothesis (limit_range : 0 <= limit < 2 ^ 63).

Definition size_range (d : TransactionDetails) : Prop := 0 <= td_blobSize d < 2 ^ 63.

Lemma sum_exact total d : 0 <= total <= limit -> size_range d -> u64 (total + td_blobSize d) = total + td_blobSize d.
Proof. unfold size_range. intros ? ?. apply u64_small. lia. Qed.

Section Free.
Hypothesis (fusion_limit : m_fusionTxMaxSize cur <= limit).
Variable ttls : gmap bytes Z.

(** What is true of a transaction the loops select. *)
Definition selectable (d : TransactionDetails) : Prop := ttls !! td_id d = None /\ ready d.

Lemma fill_free_ok l : forall bt total sel, Forall wf_inputs l -> Forall answered l -> Forall size_range l ->
  template_ok sel bt -> total = sel_size sel -> 0 <= total <= limit ->
  exists new bt' total', fill_free cur l ttls bt total = Some (bt', total') /\ template_ok (sel ++ new) bt' /\ total' = sel_size (sel ++ new) /\
    0 <= total' <= limit /\ Forall (fun d => d ∈ l /\ selectable d /\ td_fee d = 0) new.
Proof.
  induction l as [|d l IH]; intros bt total sel Wf An Sz T Et Rt; cbn [fill_free].
  - exists [], bt, total. rewrite app_nil_r. auto 6.
  - apply list.Forall_cons in Wf as [Wd Wf], An as [Ad An], Sz as [Sd Sz].
    assert (forall new, Forall (fun d => d ∈ l /\ selectable d /\ td_fee d = 0) new -> Forall (fun e => e ∈ d :: l /\ selectable e /\ td_fee e = 0) new) as Weaken
      by (intros new H; apply (Forall_impl _ _ _ H); intros e (H1 & H2 & H3); split; [right; exact H1|auto]).
    assert (exists new bt' total', fill_free cur l ttls bt total = Some (bt', total') /\ template_ok (sel ++ new) bt' /\ total' = sel_size (sel ++ new) /\
      0 <= total' <= limit /\ Forall (fun e => e ∈ d :: l /\ selectable e /\ td_fee e = 0) new) as Skip
      by (destruct (IH bt total sel Wf An Sz T Et Rt) as (new & bt' & total' & H1 & H2 & H3 & H4 & H5); exists new, bt', total'; auto 6).
    destruct (Z.eqb_spec (td_fee d) 0) as [Fe|Fe]; cbn [negb]; [|exists [], bt, total; rewrite app_nil_r; auto 6].
    destruct (bool_decide _) eqn:Tt; [exact Skip|]. apply bool_decide_eq_false, eq_None_not_Some in Tt.
    rewrite sum_exact by assumption. destruct (Z.ltb_spec (m_fusionTxMaxSize cur) (total + td_blobSize d)) as [|Fits]; [exact Skip|].
    destruct (ready_to_go d Ad) as (r & d' & -> & _ & Rd). cbn [obind]. destruct r; [|exact Skip].
    destruct (addTransaction_ok sel bt d T Wd) as (r & bt1 & -> & T1 & _). cbn [obind].
    destruct r; [|destruct (IH bt1 total sel Wf An Sz T1 Et Rt) as (new & bt' & total' & H1 & H2 & H3 & H4 & H5); exists new, bt', total'; auto 6].
    destruct (IH bt1 (total + td_blobSize d) (sel ++ [d]) Wf An Sz T1) as (new & bt' & total' & H1 & H2 & H3 & H4 & H5).
    + rewrite sel_size_snoc. congruence.
    + unfold size_range in Sd. lia.
    + exists (d :: new), bt', total'. rewrite <- app_assoc in H2, H3. split; [exact H1|]. split; [exact H2|]. split; [exact H3|]. split; [exact H4|].
      constructor; [|auto]. split; [left|]. split; [split; [exact Tt|tauto]|exact Fe].
Qed.
End Free.

Section Paid.
Variables (ttls : gmap bytes Z) (median max_total : Z).
Hypothesis (Lm : median <= limit) (Lt : max_total <= limit).

Definition limit_of (d : TransactionDetails) : Z := if td_fee d =? 0 then median else max_total.

(** Why a transaction is left out of a template of size [total]. *)
Definition left_out (sel : list TransactionDetails) (total : Z) (d : TransactionDetails) : Prop :=
  is_Some (ttls !! td_id d) \/ limit_of d < total + td_blobSize d \/ ~ ready d \/ exists e, e ∈ sel /\ conflict d e.

Lemma left_out_mono sel new total total' d : total <= total' -> left_out sel total d -> left_out (sel ++ new) total' d.
Proof.
  intros L [H|[H|[H|(e & He & H)]]]; [left; exact H|right; left; lia|right; right; left; exact H|].
  right; right; right. exists e. split; [apply elem_of_app; left; exact He|exact H].
Qed.

Lemma fill_paid_ok l : forall bt total fee sel, Forall wf_inputs l -> Forall answered l -> Forall size_range l ->
  template_ok sel bt -> total = sel_size sel -> 0 <= total <= limit -> fee = u64 fee ->
  exists new l' bt' total' fee', fill_paid l ttls median max_total bt total fee = Some (l', bt', total', fee') /\
    template_ok (sel ++ new) bt' /\ total' = sel_size (sel ++ new) /\ total <= total' <= limit /\ fee' = u64 (fee + sel_fee new) /\
    Forall (fun d => d ∈ l /\ selectable ttls d) new /\ Forall2 same_tx l' l /\
    Forall (fun d => d ∈ new \/ left_out (sel ++ new) total' d) l.
Proof.
  induction l as [|d l IH]; intros bt total fee sel Wf An Sz T Et Rt Uf; cbn [fill_paid].
  - exists [], [], bt, total, fee. rewrite app_nil_r. cbn. rewrite Z.add_0_r. split; [reflexivity|]. split; [exact T|]. split; [exact Et|]. split; [lia|]. split; [exact Uf|]. split; [constructor|]. split; constructor.
  - apply list.Forall_cons in Wf as [Wd Wf], An as [Ad An], Sz as [Sd Sz].
    assert (forall d' new, Forall (fun e => e ∈ l /\ selectable ttls e) new -> d' = d -> Forall (fun e => e ∈ d' :: l /\ selectable ttls e) new) as Weaken
      by (intros d' new H ->; apply (Forall_impl _ _ _ H); intros e (H1 & H2); split; [right; exact H1|exact H2]).
    (* the transaction is not selected *)
    assert (forall d' bt1 (L : left_out sel total d) (Sm : same_tx d' d), template_ok sel bt1 ->
      exists new l' bt' total' fee', (t <- fill_paid l ttls median max_total bt1 total fee ;; let '(l, bt, total, fee) := t in Some (d' :: l, bt, total, fee)) = Some (l', bt', total', fee') /\
      template_ok (sel ++ new) bt' /\ total' = sel_size (sel ++ new) /\ total <= total' <= limit /\ fee' = u64 (fee + sel_fee new) /\
      Forall (fun e => e ∈ d :: l /\ selectable ttls e) new /\ Forall2 same_tx l' (d :: l) /\ Forall (fun e => e ∈ new \/ left_out (sel ++ new) total' e) (d :: l)) as Skip.
    { intros d' bt1 L Sm T1. destruct (IH bt1 total fee sel Wf An Sz T1 Et Rt Uf) as (new & l' & bt' & total' & fee' & -> & H2 & H3 & H4 & H5 & H6 & H7 & H8). cbn [obind].
      exists new, (d' :: l'), bt', total', fee'. split; [reflexivity|]. repeat (split; [assumption || apply Weaken; auto|]). split; [constructor; assumption|].
      constructor; [right; apply (left_out_mono _ _ total); [lia|exact L]|exact H8]. }
    assert (same_tx d d) as Refl by (repeat split).
    destruct (bool_decide _) eqn:Tt; [apply Skip; [left; apply bool_decide_eq_true in Tt; exact Tt|exact Refl|exact T]|]. apply bool_decide_eq_false, eq_None_not_Some in Tt.
    rewrite sum_exact by assumption. fold (limit_of d). destruct (Z.ltb_spec (limit_of d) (total + td_blobSize d)) as [B|Fits]; [apply Skip; [right; left; exact B|exact Refl|exact T]|].
    destruct (ready_to_go d Ad) as (r & d' & -> & Sm & Rd). cbn [obind]. pose proof Sm as (Ei & Etx & Eb & Ef & _). rewrite Ei, Etx, Eb, Ef.
    destruct r; [|cbn [obind]; apply Skip; [right; right; left; intros H%Rd; discriminate|exact Sm|exact T]].
    destruct (addTransaction_ok sel bt d T Wd) as (r & bt1 & -> & T1 & Cf). cbn [obind].
    destruct r; [|apply Skip; [right; right; right; exact (Cf eq_refl)|exact Sm|exact T1]].
    rewrite sum_exact by assumption.
    destruct (IH bt1 (total + td_blobSize d) (u64 (fee + td_fee d)) (sel ++ [d]) Wf An Sz T1) as (new & l' & bt' & total' & fee' & -> & H2 & H3 & H4 & H5 & H6 & H7 & H8).
    + rewrite sel_size_snoc. congruence.
    + unfold size_range in Sd. unfold limit_of in Fits. destruct (td_fee d =? 0); lia.
    + rewrite !u64_mod, Z.mod_mod by lia. reflexivity.
    + cbn [obind]. rewrite <- app_assoc in H2, H3, H8. cbn [app] in H2, H3, H8. exists (d :: new), (d' :: l'), bt', total', fee'. split; [reflexivity|].
      split; [exact H2|]. split; [exact H3|]. split; [unfold size_range in Sd; lia|].
      split; [rewrite H5; change (sel_fee (d :: new)) with (td_fee d + sel_fee new); rewrite !u64_mod, Zplus_mod_idemp_l; f_equal; lia|].
      split; [constructor; [split; [left|split; [exact Tt|tauto]]|apply Weaken; auto]|]. split; [constructor; assumption|].
      constructor; [left; left|]. apply (Forall_impl _ _ _ H8). intros e [H|H]; [left; right; exact H|right; exact H].
Qed.
End Paid.

(** ** The pool after the check information has been written back *)

Lemma same_elem l l' : Forall2 same_tx l' l -> forall d, d ∈ l' -> exists e, e ∈ l /\ same_tx d e.
Proof.
  induction 1 as [|d e l' l S F IH]; intros x Hx; [inversion Hx|]. apply elem_of_cons in Hx as [->|Hx]; [exists e; split; [left|exact S]|].
  destruct (IH x Hx) as (y & Hy & Sy). exists y. split; [right; exact Hy|exact Sy].
Qed.

Lemma same_elem_r l l' : Forall2 same_tx l' l -> forall e, e ∈ l -> exists d, d ∈ l' /\ same_tx d e.
Proof.
  induction 1 as [|d e l' l S F IH]; intros x Hx; [inversion Hx|]. apply elem_of_cons in Hx as [->|Hx]; [exists d; split; [left|exact S]|].
  destruct (IH x Hx) as (y & Hy & Sy). exists y. split; [right; exact Hy|exact Sy].
Qed.

Lemma same_map {A} (f : TransactionDetails -> A) l l' : (forall d e, same_tx d e -> f d = f e) -> Forall2 same_tx l' l -> f <$> l' = f <$> l.
Proof. intros H. induction 1 as [|d e l' l S F IH]; [reflexivity|]. cbn. rewrite IH, (H d e S). reflexivity. Qed.

Lemma pool_ok_same p l' : pool_ok p -> Forall2 same_tx l' (m_transactions p) ->
  pool_ok (mk_pool l' (m_spent_key_images p) (m_spentOutputs p) (m_recentlyDeletedTransactions p) (p_paymentIdIndex p) (p_timestampIndex p) (m_ttlIndex p)).
Proof.
  intros P F. pose proof (same_map td_id _ _ ltac:(intros d e (H & _); exact H) F) as Ids.
  split; cbn [m_transactions m_spent_key_images m_spentOutputs p_timestampIndex m_ttlIndex].
  - rewrite Ids. exact (po_ids p P).
  - exact (po_nonempty p P).
  - intros x id. rewrite (po_images p P). split.
    + intros (e & He & <- & Hx). destruct (same_elem_r _ _ F e He) as (d & Hd & Ei & Et & _). exists d. rewrite Et. auto.
    + intros (d & Hd & <- & Hx). destruct (same_elem _ _ F d Hd) as (e & He & Ei & Et & _). exists e. rewrite <- Et. auto.
  - intros r. rewrite (po_outputs p P). split.
    + intros (e & He & K & Hx). destruct (same_elem_r _ _ F e He) as (d & Hd & Ei & Et & _ & _ & Ek & _). exists d. rewrite Et, Ek. auto.
    + intros (d & Hd & K & Hx). destruct (same_elem _ _ F d Hd) as (e & He & Ei & Et & _ & _ & Ek & _). exists e. rewrite <- Et, <- Ek. auto.
  - intros d d' r Hd Hd' K K' Hr Hr'. destruct (same_elem _ _ F d Hd) as (e & He & Ei & Et & _ & _ & Ek & _).
    destruct (same_elem _ _ F d' Hd') as (e' & He' & Ei' & Et' & _ & _ & Ek' & _). rewrite Ei, Ei'.
    apply (po_once p P e e' r); congruence.
  - intros d Hd. destruct (same_elem _ _ F d Hd) as (e & He & Ei & Et & _). rewrite Et. exact (po_wf p P e He).
  - exact (po_times p P).
  - rewrite (po_stamps p P). rewrite (same_map (fun d => (td_receiveTime d, td_id d)) _ _ ltac:(intros d e (H1 & _ & _ & _ & _ & H2); congruence) F). reflexivity.
  - rewrite Ids. exact (po_ttls p P).
Qed.

(** ** The whole operation *)

Lemma sel_ids_distinct p sel : pool_ok p -> Forall (fun d => d ∈ m_transactions p) sel -> NoDup (sel_images sel) -> NoDup (sel_refs sel) ->
  (forall d, d ∈ m_transactions p -> images (inputs (td_tx d)) <> [] \/ ms_refs (inputs (td_tx d)) <> []) -> NoDup (td_id <$> sel).
Proof.
  intros P. induction sel as [|d sel IH]; intros F Ni Nr Ne; [constructor|]. apply list.Forall_cons in F as [Fd F].
  unfold sel_images in Ni. unfold sel_refs in Nr. cbn in Ni, Nr. apply NoDup_app in Ni as (_ & Di & Ni). apply NoDup_app in Nr as (_ & Dr & Nr).
  cbn. constructor; [|apply IH; assumption]. intros (e & Ei & He)%list_elem_of_fmap.
  pose proof (proj1 (list.Forall_forall _ _) F e He) as Fe. pose proof (find_unique _ _ (po_ids p P) Fd) as U. rewrite Ei, (find_unique _ _ (po_ids p P) Fe) in U. injection U as ->.
  destruct (Ne d Fd) as [N|N].
  - destruct (images (inputs (td_tx d))) as [|x l] eqn:E; [congruence|]. apply (Di x); [left|]. apply elem_sel_images. exists d. rewrite E. split; [exact He|left].
  - destruct (ms_refs (inputs (td_tx d))) as [|x l] eqn:E; [congruence|]. apply (Dr x); [left|]. apply elem_sel_refs. exists d. rewrite E. split; [exact He|left].
Qed.

Lemma fill_ok median maxCumulativeSize p : pool_ok p -> Forall answered (m_transactions p) -> Forall size_range (m_transactions p) ->
  m_fusionTxMaxSize cur <= limit -> median <= limit -> max_template_size par median maxCumulativeSize <= limit ->
  exists sel total fee p', fill_block_template cur par median maxCumulativeSize p = Some (td_id <$> sel, total, fee, p') /\
    Forall (fun d => d ∈ m_transactions p /\ selectable (m_ttlIndex p) d) sel /\ NoDup (sel_images sel) /\ NoDup (sel_refs sel) /\
    total = sel_size sel /\ total <= limit /\ fee = u64 (sel_fee sel) /\
    Forall (fun d => d ∈ sel \/ left_out (m_ttlIndex p) median (max_template_size par median maxCumulativeSize) sel total d) (m_transactions p) /\
    pool_ok p' /\ Forall2 same_tx (m_transactions p') (m_transactions p).
Proof.
  intros P An Sz Lf Lm Lt. unfold fill_block_template.
  assert (Forall wf_inputs (m_transactions p)) as Wf by (apply list.Forall_forall; intros d Hd; apply (po_wf p P), Hd).
  assert (forall Q, Forall Q (m_transactions p) -> Forall Q (rev (m_transactions p))) as Rev by (intros Q; rewrite !List.Forall_forall; intros H d Hd%in_rev; auto).
  destruct (fill_free_ok Lf (m_ttlIndex p) (rev (m_transactions p)) (mk_template ∅ ∅ []) 0 [] (Rev _ Wf) (Rev _ An) (Rev _ Sz) template_empty eq_refl ltac:(lia))
    as (free & bt1 & total1 & -> & T1 & Et1 & Rt1 & Ff). cbn [obind app] in *.
  destruct (fill_paid_ok (m_ttlIndex p) median _ Lm Lt (m_transactions p) bt1 total1 0 free Wf An Sz T1 Et1 Rt1 eq_refl)
    as (new & l' & bt2 & total2 & fee & -> & T2 & Et2 & Rt2 & Ef & Fn & Sm & Lo). cbn [obind].
  eexists (free ++ new), total2, fee, _. rewrite <- (to_hashes _ _ T2). split; [reflexivity|]. split.
  { apply list.Forall_app. split; [|exact Fn]. apply (Forall_impl _ _ _ Ff). intros d (H & S & _). split; [apply list_elem_of_In, in_rev, list_elem_of_In, H|exact S]. }
  split; [exact (to_images _ _ T2)|]. split; [exact (to_refs _ _ T2)|]. split; [exact Et2|]. split; [lia|]. split.
  { rewrite Ef. f_equal. unfold sel_fee at 2. rewrite fmap_app. unfold sumZ. rewrite fold_right_app. fold (sumZ (td_fee <$> new)).
    assert (forall l z, Forall (fun d => td_fee d = 0) l -> fold_right Z.add z (td_fee <$> l) = z) as G by (clear; intros l z H; induction H as [|d l H F IH]; [reflexivity|cbn; rewrite IH, H; reflexivity]).
    rewrite G; [reflexivity|]. apply (Forall_impl _ _ _ Ff). tauto. }
  split; [|split; [exact (pool_ok_same p l' P Sm)|exact Sm]]. apply (Forall_impl _ _ _ Lo). intros d [H|H]; [left; apply elem_of_app; right; exact H|right; exact H].
Qed.
End Fill.
