(* ===== verification/Node.v ===== *)
(** * The chain and the pool together (CryptoNoteCore/Blockchain.cpp)

    A block names its transactions; [loadTransactions] takes them out of the pool,
    [saveTransactions] puts them back when the block is rejected or popped.
    [push_block] and [pop_block] are [pushBlock] and [popBlock] with the pool, whose
    transactions the chain of the moment validates.

    [m_is_in_checkpoint_zone] is false from the construction of the chain on: no
    statement sets it. *)

From Stdlib Require Import ZArith Lia List Bool.
From S2P Require Import Prelude Bytes IntUtil Currency DepositIndex Checkpoints BlockIndex TxStore Ledger BlockchainIndices UpgradeDetector TxCheck Blockchain ChainInvariant Rebuild TransactionPool PoolInvariant.
From stdpp Require Import gmap gmultiset list.
Import ListNotations.
Open Scope Z_scope.
Open Scope cmon_scope.
Set Default Goal Selector "!".

(** ** Operations *)

Section Node.
Context {CK : CryptoChecks} {CO : Codec}.
Variable cur : currency.
Variable par : pool_params.
Variable getTTL : Transaction -> Z.
Variable m_checkpoints : points.
(** [time(NULL)], and the time of the provider of the pool. *)
Variables now received : Z.

(** [add_tx(tx, tvc, keeped_by_block)], validated by the chain. *)
Definition add_own (c : chain) (t : Transaction) (keptByBlock : bool) (p : pool) : option (bool * tvc * pool) :=
  add_tx (TV := chain_validator cur par now false c) cur par getTTL now received t (getObjectHash t) (getObjectBinarySize t) keptByBlock p.

(** Transactions go back to the pool, in this order; [None] is the exception when one of them is not accepted. *)
Fixpoint give_back (c : chain) (txs : list Transaction) (p : pool) : option pool :=
  match txs with
  | [] => Some p
  | t :: txs => '(r, _, p) <- add_own c t true p ;; if (r : bool) then give_back c txs p else None
  end.

(** The loop of [loadTransactions]; [taken] are the transactions taken so far, the last one first. *)
Fixpoint load_loop (c : chain) (hashes : list bytes) (taken : list Transaction) (p : pool) : option (option (list Transaction) * pool) :=
  match hashes with
  | [] => Some (Some (rev taken), p)
  | h :: hashes =>
      '(r, p) <- take_tx h p ;;
      match r with
      | Some d => load_loop c hashes (td_tx d :: taken) p
      | None => p <- give_back c taken p ;; Some (None, p)
      end
  end.

Definition loadTransactions (c : chain) (b : Block) (p : pool) : option (option (list Transaction) * pool) :=
  load_loop c (transactionHashes b) [] p.

Definition saveTransactions (c : chain) (txs : list Transaction) (p : pool) : option pool := give_back c (rev txs) p.

(** [pushBlock(blockData, bvc)] *)
Definition push_block (b : Block) (c : chain) (p : pool) : option (bool * bvc * chain * pool) :=
  '(loaded, p) <- loadTransactions c b p ;;
  match loaded with
  | None => Some (false, failed, c, p)
  | Some txs =>
      '(r, v, c) <- pushBlock cur m_checkpoints false now b txs c ;;
      if negb r then p <- saveTransactions c txs p ;; Some (false, v, c, p) else Some (true, v, c, p)
  end.

(** The whole of [popBlock]: the transactions go to the pool before the indices change. *)
Definition pop_block (blockHash : bytes) (c : chain) (p : pool) : option (chain * pool) :=
  match last (m_blocks c) with
  | None => Some (c, p)
  | Some block =>
      p <- saveTransactions c (tx <$> tail (transactions block)) p ;;
      '(_, c) <- popBlock cur blockHash c ;;
      Some (c, p)
  end.

Definition with_voting (v : Z) (c : chain) : chain :=
  mk_chain (m_blocks c) (m_blockIndex c) (m_store c) (m_depositIndex c) (m_timestampIndex c) (m_generatedTransactionsIndex c) v (m_current_block_cumul_sz_limit c).

Definition update_next_comulative_size_limit (c : chain) : chain :=
  mk_chain (m_blocks c) (m_blockIndex c) (m_store c) (m_depositIndex c) (m_timestampIndex c) (m_generatedTransactionsIndex c) (m_votingCompleteHeight c)
    (next_cumulative_size_limit cur c).

(** [Blockchain::init] on the blocks of the file, without a cache that belongs to them. *)
Definition chain_init (load_existing : bool) (genesisBlock : Block) (bs : blocks) (p : pool) : option (bool * chain * pool) :=
  c <- match bs with _ :: _ => if load_existing then reload cur bs else Some (opened []) | [] => Some (opened []) end ;;
  '(ok, c, p) <- match m_blocks c with
    | [] => '(_, v, c, p) <- push_block genesisBlock c p ;; Some (negb (m_verifivation_failed v), c, p)
    | first :: _ => Some (bool_decide (get_block_hash (bl first) = get_block_hash genesisBlock), c, p)
    end ;;
  if negb ok then Some (false, c, p) else
  '(r, v) <- init cur BLOCK_MAJOR_VERSION_2 (m_blocks c) (m_votingCompleteHeight c) ;;
  let c := with_voting v c in
  if negb r then Some (false, c, p) else Some (true, update_next_comulative_size_limit c, p).
End Node.

(** ** Giving transactions back *)

Section Facts.
Context {CK : CryptoChecks} {CO : Codec} (cur : currency) (par : pool_params) (getTTL : Transaction -> Z) (now received : Z).

(** A transaction that the pool can take whatever the state: its inputs are of supported types and pay for its outputs. *)
Record sound_tx (t : Transaction) : Prop := {
  so_types : check_inputs_types_supported t = true;
  so_amounts : exists a, getTransactionAllInputsAmount cur (inputs t) 0 = Some a /\ get_outs_money_amount t <= a /\
    (u64 (a - get_outs_money_amount t) = 0 -> isFusionTransaction cur (getInputsAmounts t) (out_amount <$> outputs t) (getObjectBinarySize t) <> None);
  so_wf : tx_wf t
}.

(** The checks of the chain answer for a transaction. *)
Definition answers (c : chain) (t : Transaction) : Prop := checkTransactionInputs_max cur now false c t no_info <> None.

(** The pool of a node: every transaction is filed under its hash and can be taken again. *)
Record node_pool (p : pool) : Prop := {
  np_ok : pool_ok p;
  np_hash : forall d, d ∈ m_transactions p -> td_id d = getObjectHash (td_tx d);
  np_sound : forall d, d ∈ m_transactions p -> sound_tx (td_tx d)
}.

Lemma accept_kept c t p : sound_tx t -> answers c t ->
  exists fee fusion valid max, accept_tx (TV := chain_validator cur par now false c) cur par getTTL now t (getObjectBinarySize t) true p = Some (inl (fee, fusion, valid, max)).
Proof.
  intros [Ty (a & Ea & Le & Fu) _] An. unfold accept_tx. rewrite Ty, Ea. cbn [negb obind]. rewrite (proj2 (Z.ltb_ge _ _) Le). cbv zeta.
  assert (exists f, (if u64 (a - get_outs_money_amount t) =? 0 then isFusionTransaction_tx cur t (getObjectBinarySize t) else Some false) = Some f) as (f & ->).
  { destruct (Z.eqb_spec (u64 (a - get_outs_money_amount t)) 0) as [Z0|]; [|eauto]. unfold isFusionTransaction_tx. rewrite Z.eqb_refl. cbn [c_assert obind].
    destruct (isFusionTransaction _ _ _ _); [eauto|destruct (Fu Z0 eq_refl)]. }
  cbn [obind negb andb]. rewrite andb_false_r. cbn [negb]. unfold checkInputs, chain_validator. unfold answers in An.
  destruct (checkTransactionInputs_max cur now false c t no_info) as [[r max]|]; [|contradiction]. cbn [obind]. rewrite andb_false_r. eauto 8.
Qed.

(** A transaction that comes back is added. *)
Lemma add_own_ok c t p : node_pool p -> sound_tx t -> answers c t -> getObjectHash t ∉ td_id <$> m_transactions p ->
  exists v p' d, add_own cur par getTTL now received c t true p = Some (true, v, p') /\ node_pool p' /\
    td_tx d = t /\ td_id d = getObjectHash t /\ m_transactions p' = fee_insert d (m_transactions p).
Proof.
  intros [P Hh Hs] So An N. destruct (so_wf t So) as [Wi Wr _ _]. destruct (accept_kept c t p So An) as (fee & fusion & valid & max & A).
  unfold add_own. destruct (add_tx_ok (TV := chain_validator cur par now false c) cur par getTTL now received t (getObjectHash t) (getObjectBinarySize t) true p P Wi Wr) as (r & v & p' & E & P' & H);
    [rewrite A; discriminate|].
  assert (m_added_to_pool v = true) as Ev.
  { unfold add_tx in E. rewrite A in E. cbn [obind negb andb] in E. destruct (have_tx (getObjectHash t) p) eqn:Hp; [apply have_tx_true in Hp; contradiction|].
    apply obind_Some in E as ([b p1] & _ & E). destruct b; cbn [negb] in E; injection E as _ <- _; reflexivity. }
  rewrite Ev in H. destruct H as (-> & _ & _ & fee' & max' & _ & T). exists v, p', (details t (getObjectHash t) (getObjectBinarySize t) fee' received true max').
  split; [exact E|]. split; [|split; [reflexivity|split; [reflexivity|exact T]]].
  split; [exact P'| |]; intros e He; rewrite T in He; apply elem_inserted in He as [->|He]; auto.
Qed.

(** Transactions of different hashes that are not in the pool. *)
Lemma give_back_ok c txs : forall p, node_pool p -> Forall sound_tx txs -> Forall (answers c) txs -> NoDup ((getObjectHash <$> txs) ++ (td_id <$> m_transactions p)) ->
  exists p', give_back cur par getTTL now received c txs p = Some p' /\ node_pool p' /\ td_tx <$> m_transactions p' ≡ₚ txs ++ (td_tx <$> m_transactions p).
Proof.
  induction txs as [|t txs IH]; intros p P So An N; cbn [give_back].
  - exists p. auto.
  - apply list.Forall_cons in So as [St So], An as [At An]. cbn [fmap list_fmap app] in N. apply NoDup_cons in N as [Nt N].
    destruct (add_own_ok c t p P St At) as (v & p1 & d & -> & P1 & Ed & Ei & T1); [intros H; apply Nt, elem_of_app; right; exact H|]. cbn [obind].
    destruct (IH p1 P1 So An) as (p' & E' & P' & T').
    + rewrite T1, fee_insert_perm. cbn [fmap list_fmap]. rewrite Ei, <- Permutation_middle. constructor; assumption.
    + exists p'. split; [exact E'|]. split; [exact P'|]. rewrite T', T1, fee_insert_perm. cbn [fmap list_fmap]. rewrite Ed. symmetry. apply Permutation_middle.
Qed.

(** ** Taking transactions for a block *)

(** The transactions of the pool. *)
Definition txs_of (p : pool) : list Transaction := td_tx <$> m_transactions p.

Lemma node_ids p : node_pool p -> td_id <$> m_transactions p = getObjectHash <$> txs_of p.
Proof.
  intros P. unfold txs_of. rewrite <- list_fmap_compose. apply list_fmap_ext. intros i d E. apply (np_hash p P). apply list_elem_of_lookup. eauto.
Qed.

Lemma take_node id p : node_pool p -> exists r p', take_tx id p = Some (r, p') /\ node_pool p' /\
  match r with
  | Some d => td_id d = id /\ sound_tx (td_tx d) /\ getObjectHash (td_tx d) = id /\ txs_of p ≡ₚ td_tx d :: txs_of p'
  | None => id ∉ td_id <$> m_transactions p /\ p' = p
  end.
Proof.
  intros P. destruct (take_tx_ok id p (np_ok p P)) as (r & p' & E & P' & T & H). exists r, p'. split; [exact E|].
  assert (forall d, d ∈ m_transactions p' -> d ∈ m_transactions p) as Sub by (intros d Hd; rewrite T in Hd; apply erase_elem in Hd as [Hd _]; exact Hd).
  split; [split; [exact P'|intros d Hd; apply (np_hash p P), Sub, Hd|intros d Hd; apply (np_sound p P), Sub, Hd]|].
  destruct r as [d|]; [|exact H]. destruct H as [Hd <-]. split; [reflexivity|]. split; [exact (np_sound p P d Hd)|]. split; [symmetry; exact (np_hash p P d Hd)|].
  unfold txs_of. rewrite (erase_perm _ d (po_ids p (np_ok p P)) Hd), T. reflexivity.
Qed.

Lemma load_loop_ok c hashes : forall taken p, node_pool p -> Forall sound_tx taken -> NoDup ((getObjectHash <$> taken) ++ (getObjectHash <$> txs_of p)) ->
  Forall (answers c) taken -> Forall (answers c) (txs_of p) ->
  exists r p', load_loop cur par getTTL now received c hashes taken p = Some (r, p') /\ node_pool p' /\
    match r with
    | Some all => exists txs, all = rev taken ++ txs /\ getObjectHash <$> txs = hashes /\ Forall sound_tx txs /\ txs_of p ≡ₚ txs ++ txs_of p'
    | None => txs_of p' ≡ₚ taken ++ txs_of p /\ ~ (NoDup hashes /\ forall h, h ∈ hashes -> h ∈ getObjectHash <$> txs_of p)
    end.
Proof.
  induction hashes as [|h hashes IH]; intros taken p P So N At Ap; cbn [load_loop].
  - exists (Some (rev taken)), p. split; [reflexivity|]. split; [exact P|]. exists []. rewrite app_nil_r. auto using Forall_nil_2.
  - destruct (take_node h p P) as (r & p1 & -> & P1 & H). cbn [obind]. destruct r as [d|].
    + destruct H as (_ & Sd & Eh & T1). rewrite T1 in Ap, N. apply list.Forall_cons in Ap as [Ad Ap].
      destruct (IH (td_tx d :: taken) p1 P1) as (r & p' & E' & P' & H).
      { constructor; assumption. }
      { cbn [fmap list_fmap app] in N |- *. rewrite <- Permutation_middle in N. exact N. }
      { constructor; assumption. }
      { exact Ap. }
      exists r, p'. split; [exact E'|]. split; [exact P'|]. destruct r as [all|].
      * destruct H as (txs & -> & Et & Ft & T'). exists (td_tx d :: txs). cbn [rev]. rewrite <- app_assoc. split; [reflexivity|].
        split; [cbn; congruence|]. split; [constructor; assumption|]. rewrite T1, T'. reflexivity.
      * destruct H as [T' Nn]. split; [rewrite T', T1; apply Permutation_middle|]. intros [Nh Fa]. apply Nn. apply NoDup_cons in Nh as [Nh1 Nh].
        split; [exact Nh|]. intros x Hx. specialize (Fa x ltac:(right; exact Hx)). rewrite T1 in Fa. cbn in Fa. apply elem_of_cons in Fa as [->|Fa]; [|exact Fa].
        rewrite Eh in Hx. contradiction.
    + destruct H as [Nh ->]. destruct (give_back_ok c taken p P So At) as (p' & -> & P' & T'); [rewrite (node_ids p P); exact N|]. cbn [obind].
      exists None, p'. split; [reflexivity|]. split; [exact P'|]. split; [exact T'|]. intros [_ Fa]. apply Nh. rewrite (node_ids p P). apply Fa. left.
Qed.

Lemma pool_hashes p : node_pool p -> NoDup (getObjectHash <$> txs_of p).
Proof. intros P. rewrite <- (node_ids p P). exact (po_ids p (np_ok p P)). Qed.

(** Loading either gives the transactions of the block, or leaves the pool with the transactions it had. *)
Lemma load_ok c b p : node_pool p -> Forall (answers c) (txs_of p) ->
  exists r p', loadTransactions cur par getTTL now received c b p = Some (r, p') /\ node_pool p' /\
    match r with
    | Some txs => transactionHashes b = getObjectHash <$> txs /\ Forall sound_tx txs /\ txs_of p ≡ₚ txs ++ txs_of p'
    | None => txs_of p' ≡ₚ txs_of p /\ ~ (NoDup (transactionHashes b) /\ forall h, h ∈ transactionHashes b -> h ∈ getObjectHash <$> txs_of p)
    end.
Proof.
  intros P An. destruct (load_loop_ok c (transactionHashes b) [] p P ltac:(constructor) (pool_hashes p P) ltac:(constructor) An) as (r & p' & E & P' & H).
  exists r, p'. split; [exact E|]. split; [exact P'|]. destruct r as [all|]; [|exact H]. destruct H as (txs & -> & Et & F & T). auto.
Qed.

Lemma save_ok c txs p : node_pool p -> Forall sound_tx txs -> Forall (answers c) txs -> NoDup ((getObjectHash <$> txs) ++ (getObjectHash <$> txs_of p)) ->
  exists p', saveTransactions cur par getTTL now received c txs p = Some p' /\ node_pool p' /\ txs_of p' ≡ₚ txs ++ txs_of p.
Proof.
  intros P So An N. unfold saveTransactions. pose proof (Permutation_rev txs) as R.
  destruct (give_back_ok c (rev txs) p P) as (p' & E & P' & T); [rewrite <- R; exact So|rewrite <- R; exact An|rewrite (node_ids p P), <- R; exact N|].
  exists p'. split; [exact E|]. split; [exact P'|]. rewrite T, <- R. reflexivity.
Qed.

(** ** Blocks *)

Section Blocks.
Context (cps : points) (UO : upgrade_ok cur).

(** A block new to the chain whose transactions can be counted. *)
Record new_block (b : Block) (c : chain) : Prop := {
  nb_short : Z.of_nat (length (transactionHashes b)) < 2 ^ 16 - 1;
  nb_outputs : Z.of_nat (length (outputs (baseTransaction b))) < 2 ^ 16;
  nb_fresh : NoDup ((le_hash <$> chain_ledger (m_blocks c)) ++ getObjectHash (baseTransaction b) :: transactionHashes b)
}.

Lemma new_block_wf b txs c : new_block b c -> transactionHashes b = getObjectHash <$> txs -> Forall sound_tx txs -> block_wf b txs c.
Proof.
  intros [N1 N2 N3] E F. assert (length (transactionHashes b) = length txs) as L by (rewrite E, length_fmap; reflexivity).
  split; [exact L|lia| |exact N2|exact N3]. apply (Forall_impl _ _ _ F). intros t St. exact (so_wf t St).
Qed.

(** What a push does to the pool: an accepted block takes its transactions out, a rejected one takes nothing. *)
Lemma push_block_ok b c p : chain_inv cur c -> node_pool p -> new_block b c -> Forall (answers c) (txs_of p) ->
  (forall txs r v c', txs ⊆+ txs_of p -> pushBlock cur cps false now b txs c = Some (r, v, c') -> Forall (answers c') txs) ->
  (forall txs, txs ⊆+ txs_of p -> pushBlock cur cps false now b txs c <> None) ->
  exists r v c' p', push_block cur par getTTL cps now received b c p = Some (r, v, c', p') /\ node_pool p' /\
    if r : bool
    then exists txs, transactionHashes b = getObjectHash <$> txs /\ txs_of p ≡ₚ txs ++ txs_of p' /\ block_wf b txs c /\
      pushBlock cur cps false now b txs c = Some (true, v, c')
    else txs_of p' ≡ₚ txs_of p /\ (c' = c \/ exists txs st, transactionHashes b = getObjectHash <$> txs /\ c' = with_store st c /\
      checkCumulativeBlockSize cur (block_size b txs) (chain_height (m_blocks c)) = Some false).
Proof.
  intros I P Nb An Ap Tot. unfold push_block. destruct (load_ok c b p P An) as (r & p1 & -> & P1 & H). cbn [obind]. destruct r as [txs|].
  - destruct H as (Eh & So & T). pose proof (new_block_wf b txs c Nb Eh So) as W.
    assert (txs ⊆+ txs_of p) as Sub by (rewrite T; apply submseteq_inserts_r; reflexivity).
    destruct (pushBlock cur cps false now b txs c) as [[[r v] c']|] eqn:E; [|destruct (Tot txs Sub E)]. cbn [obind].
    destruct r; cbn [negb].
    + exists true, v, c', p1. split; [reflexivity|]. split; [exact P1|]. exists txs. auto.
    + destruct (save_ok c' txs p1 P1 So (Ap txs _ _ _ Sub E)) as (p' & -> & P' & T'); [rewrite <- fmap_app, <- T; exact (pool_hashes p P)|]. cbn [obind].
      exists false, v, c', p'. split; [reflexivity|]. split; [exact P'|]. split; [rewrite T', T; reflexivity|].
      destruct (rejected_unchanged cur cps false now b txs c v c' I W E) as [->|[Sz (st & ->)]]; [left; reflexivity|right; eauto 6].
  - exists false, failed, c, p1. split; [reflexivity|]. split; [exact P1|]. split; [exact (proj1 H)|left; reflexivity].
Qed.

(** A popped block gives its transactions back. *)
Lemma pop_block_ok bs e c p : chain_inv cur c -> node_pool p -> m_blocks c = bs ++ [e] ->
  Forall sound_tx (tx <$> tail (transactions e)) -> Forall (answers c) (tx <$> tail (transactions e)) ->
  NoDup ((getObjectHash <$> (tx <$> tail (transactions e))) ++ (getObjectHash <$> txs_of p)) ->
  exists c' p', pop_block cur par getTTL now received (get_block_hash (bl e)) c p = Some (c', p') /\ chain_inv cur c' /\ node_pool p' /\
    m_blocks c' = bs /\ txs_of p' ≡ₚ (tx <$> tail (transactions e)) ++ txs_of p /\
    popBlock cur (get_block_hash (bl e)) c = Some (tx <$> tail (transactions e), c').
Proof.
  intros I P E So An N. unfold pop_block. rewrite E, last_snoc. destruct (save_ok c _ p P So An N) as (p' & -> & P' & T). cbn [obind].
  destruct (popBlock_inv cur UO c bs e I E) as (c' & Ep & I' & Eb). rewrite Ep. cbn [obind]. eauto 10.
Qed.
End Blocks.
End Facts.

(** ** Starting again *)

Section Restart.
Context {CK : CryptoChecks} {CO : Codec} (cur : currency) (par : pool_params) (getTTL : Transaction -> Z) (now received : Z).

(** The detector finds nothing to object to when the height of the upgrade is fixed and the blocks have their versions. *)
Lemma init_fixed bs : m_upgradeHeight cur <> UNDEF_HEIGHT -> 0 <= m_upgradeHeight cur < 2 ^ 64 - 1 -> bs <> [] ->
  versions_ok cur bs UNDEF_HEIGHT -> init cur BLOCK_MAJOR_VERSION_2 bs UNDEF_HEIGHT = Some (true, UNDEF_HEIGHT).
Proof.
  intros N U Nb V. assert (forall h e, bs !! h = Some e -> majorVersion (bl e) = if m_upgradeHeight cur <? Z.of_nat h then 2 else 1) as Vs.
  { intros h e E. rewrite (V h e E). unfold get_block_major_version_for_height, upgradeHeight. rewrite (proj2 (Z.eqb_neq _ _) N). reflexivity. }
  unfold init. rewrite (proj2 (Z.eqb_neq _ _) N). rewrite u64_small by lia.
  destruct bs as [|b bs] using rev_ind; [contradiction|]. clear IHbs. rewrite last_snoc. unfold chain_height. rewrite length_app. cbn [length].
  destruct (Z.leb_spec (Z.of_nat (length bs + 1)) (m_upgradeHeight cur + 1)) as [L|L].
  - rewrite (Vs (length bs) b) by apply list_lookup_middle, eq_refl. rewrite (proj2 (Z.ltb_ge _ _)) by lia. reflexivity.
  - unfold version_at. destruct (lookup_lt_is_Some_2 (bs ++ [b]) (Z.to_nat (m_upgradeHeight cur))) as [e E]; [rewrite length_app; cbn; lia|].
    rewrite E. cbn [obind]. rewrite (Vs _ _ E), Z2Nat.id, Z.ltb_irrefl by lia. cbn [Z.eqb negb]. change (1 =? BLOCK_MAJOR_VERSION_2 - 1) with true. cbn [negb].
    destruct (lookup_lt_is_Some_2 (bs ++ [b]) (Z.to_nat (m_upgradeHeight cur + 1))) as [e' E']; [rewrite length_app; cbn; lia|].
    rewrite E'. cbn [obind]. rewrite (Vs _ _ E'), Z2Nat.id by lia. rewrite (proj2 (Z.ltb_lt _ _)) by lia. reflexivity.
Qed.

(** The detector finds what the chain had. *)
Lemma init_found c : upgrade_ok cur -> chain_inv cur c -> m_blocks c <> [] ->
  (m_upgradeHeight cur = UNDEF_HEIGHT -> (fun e => majorVersion (bl e)) <$> last (m_blocks c) = Some BLOCK_MAJOR_VERSION_1) ->
  (m_upgradeHeight cur <> UNDEF_HEIGHT -> 0 <= m_upgradeHeight cur < 2 ^ 64 - 1) ->
  init cur BLOCK_MAJOR_VERSION_2 (m_blocks c) UNDEF_HEIGHT = Some (true, m_votingCompleteHeight c).
Proof.
  intros UO I Nb Vl Vf. pose proof (ci_voting cur c I) as D. unfold detector_state in D. destruct (Z.eqb_spec (m_upgradeHeight cur) UNDEF_HEIGHT) as [U|N].
  - specialize (Vl U). destruct (m_blocks c) as [|e bs] using rev_ind; [contradiction|]. rewrite last_snoc in Vl. cbn in Vl. injection Vl as Vl.
    exact (init_before_upgrade cur (UO U) bs _ e UNDEF_HEIGHT D Vl).
  - destruct D as [-> Vs]. apply init_fixed; auto.
Qed.

(** Starting on the blocks of a chain gives the chain back. *)
Lemma chain_init_ok cps c first bs genesisBlock p : upgrade_ok cur -> chain_inv cur c -> Forall hashed (m_blocks c) ->
  m_blocks c = first :: bs -> get_block_hash (bl first) = get_block_hash genesisBlock ->
  (m_upgradeHeight cur = UNDEF_HEIGHT -> (fun e => majorVersion (bl e)) <$> last (m_blocks c) = Some BLOCK_MAJOR_VERSION_1) ->
  (m_upgradeHeight cur <> UNDEF_HEIGHT -> 0 <= m_upgradeHeight cur < 2 ^ 64 - 1) ->
  exists times, chain_init cur par getTTL cps now received true genesisBlock (m_blocks c) p =
    Some (true, mk_chain (m_blocks c) (m_blockIndex c) (m_store c) (m_depositIndex c) times (m_generatedTransactionsIndex c)
      (m_votingCompleteHeight c) (next_cumulative_size_limit cur c), p) /\ ts_ok times /\ times ≡ₚ m_timestampIndex c.
Proof.
  intros UO I Hh Eb Eg Vl Vf. destruct (reload_ok cur c I Hh) as (times & E & Ts & Tp). exists times. split; [|auto].
  pose proof (init_found c UO I ltac:(rewrite Eb; discriminate) Vl Vf) as Ei. unfold chain_init. rewrite E. destruct (m_blocks c) as [|f fs] eqn:Em; [discriminate|]. injection Eb as -> ->. cbn [obind m_blocks m_votingCompleteHeight].
  rewrite (bool_decide_eq_true_2 _ Eg). cbn [obind negb]. rewrite Ei. cbn [obind negb].
  unfold update_next_comulative_size_limit, with_voting, next_cumulative_size_limit, get_last_n_blocks_sizes, getBackwardBlocksSize. cbn [m_blocks m_blockIndex m_store m_depositIndex m_timestampIndex m_generatedTransactionsIndex m_votingCompleteHeight].
  rewrite Em. reflexivity.
Qed.
End Restart.
