(* ===== verification/AltChain.v ===== *)
(** * Alternative chains (CryptoNoteCore/Blockchain.cpp)

    Blocks that do not extend the main chain are kept by their hashes.
    [handle_alternative_block] checks such a block and files it; when its branch has
    more work than the main chain, or reaches a checkpoint,
    [switch_to_alternative_blockchain] disconnects the blocks of the main chain and
    connects those of the branch, or rolls back when one of them is not accepted.
    [addNewBlock] is the entrance for all blocks.

    The two operations call each other: the blocks of the old main chain become
    alternative blocks; [fuel] bounds the depth.  The list of iterators that the code
    hands around is the list of the entries they point to. *)

From Stdlib Require Import ZArith Lia List Bool.
From S2P Require Import Prelude Bytes IntUtil Currency DepositIndex Checkpoints BlockIndex TxStore BlockchainIndices UpgradeDetector TxCheck Blockchain TransactionPool Node.
From stdpp Require Import gmap gmultiset list.
Import ListNotations.
Open Scope Z_scope.
Open Scope cmon_scope.
Set Default Goal Selector "!".

(** ** State *)

Record node := mk_node {
  n_chain : chain;
  n_pool : pool;
  m_alternative_chains : gmap bytes BlockEntry;
  m_orthanBlocksIndex : gmultiset (Z * bytes)
}.

(** [block_verification_context] *)
Record verdict := mk_verdict {
  v_added_to_main_chain : bool;
  v_verifivation_failed : bool;
  v_marked_as_orphaned : bool;
  v_already_exists : bool;
  v_switched_to_alt_chain : bool
}.

Definition no_verdict : verdict := mk_verdict false false false false false.
Definition bad_block : verdict := mk_verdict false true false false false.
Definition orphaned : verdict := mk_verdict false false true false false.
Definition exists_already : verdict := mk_verdict false false false true false.
Definition switched (r : bool) : verdict := if r then mk_verdict true false false false true else bad_block.
Definition verdict_of (v : bvc) : verdict := mk_verdict (m_added_to_main_chain v) (m_verifivation_failed v) false false false.

Section AltChain.
Context {CK : CryptoChecks} {CO : Codec}.
Variable cur : currency.
Variable par : pool_params.
Variable getTTL : Transaction -> Z.
Variable m_checkpoints : points.
Variables now received : Z.

Abbreviation push := (push_block cur par getTTL m_checkpoints now received).
Abbreviation pop := (pop_block cur par getTTL now received).

Definition haveBlock (id : bytes) (n : node) : bool :=
  hasBlock id (m_blockIndex (n_chain n)) || bool_decide (is_Some (m_alternative_chains n !! id)).

(** ** Checks of alternative blocks *)

(** The do-while loop of [complete_timestamps_vector]. *)
Fixpoint complete_loop (bs : blocks) (start_top_height stop_offset : nat) (timestamps : list Z) : option (list Z) :=
  e <- bs !! start_top_height ;;
  let timestamps := timestamps ++ [timestamp (bl e)] in
  match start_top_height with
  | O => Some timestamps
  | S h => if (h =? stop_offset)%nat then Some timestamps else complete_loop bs h stop_offset timestamps
  end.

Definition complete_timestamps_vector (bs : blocks) (start_top_height : nat) (timestamps : list Z) : option (list Z) :=
  if (m_timestampCheckWindow cur <=? length timestamps)%nat then Some timestamps else
  let need_elements := (m_timestampCheckWindow cur - length timestamps)%nat in
  if negb (start_top_height <? length bs)%nat then Some timestamps else
  complete_loop bs start_top_height (if (need_elements <? start_top_height)%nat then start_top_height - need_elements else 0)%nat timestamps.

Definition get_next_difficulty_for_alternative_chain (bs : blocks) (alt_chain : list BlockEntry) (height : Z) : option Z :=
  let count := difficultyBlocksCount cur in
  if (length alt_chain <? count)%nat then
    let main_chain_stop_offset := Z.to_nat (match alt_chain with e :: _ => be_height e | [] => height end) in
    let main_chain_count := Nat.min (count - Nat.min count (length alt_chain)) main_chain_stop_offset in
    let main_chain_start_offset := (main_chain_stop_offset - main_chain_count)%nat in
    let main_chain_start_offset := if (main_chain_start_offset =? 0)%nat then 1%nat else main_chain_start_offset in
    if (length bs <? main_chain_stop_offset)%nat then None else
    let main := drop main_chain_start_offset (take main_chain_stop_offset bs) in
    if negb (length alt_chain + length main <=? count)%nat then Some 0 else
    let window := main ++ alt_chain in
    nextDifficulty cur ((fun e => timestamp (bl e)) <$> window) (cumulative_difficulty <$> window)
  else
    let window := drop (length alt_chain - count) alt_chain in
    nextDifficulty cur ((fun e => timestamp (bl e)) <$> window) (cumulative_difficulty <$> window).

(** The transactions that the chain or the pool have, of those of a block. *)
Fixpoint known_size (c : chain) (p : pool) (hashes : list bytes) (size : Z) : option Z :=
  match hashes with
  | [] => Some size
  | h :: hashes =>
      match m_transactionMap (m_store c) !! h with
      | Some index => e <- transactionByIndex (m_blocks c) index ;; known_size c p hashes (u64 (size + getObjectBinarySize (tx e)))
      | None =>
          match find_tx h (m_transactions p) with
          | Some d => known_size c p hashes (u64 (size + getObjectBinarySize (td_tx d)))
          | None => known_size c p hashes size
          end
      end
  end.

Definition getBlockCumulativeSize (b : Block) (n : node) : option Z :=
  known_size (n_chain n) (n_pool n) (transactionHashes b) (getObjectBinarySize (baseTransaction b)).

(** The branch that ends in a block, its first block first; the loop ends because a block is not its own
    ancestor: [fuel] is the number of alternative blocks and one. *)
Fixpoint branch (fuel : nat) (id : bytes) (alts : gmap bytes BlockEntry) : option (list (bytes * BlockEntry)) :=
  match fuel with
  | O => None
  | S fuel =>
      match alts !! id with
      | None => Some []
      | Some e => before <- branch fuel (previousBlockHash (bl e)) alts ;; Some (before ++ [(id, e)])
      end
  end.

(** The hashes of a branch, the last first, at distances that double. *)
Fixpoint alt_sparse (fuel : nat) (i : Z) (alternativeChain : list bytes) : option (list bytes) :=
  match fuel with
  | O => None
  | S fuel =>
      if Z.of_nat (length alternativeChain) <? i then Some [] else
      x <- alternativeChain !! Z.to_nat (i - 1) ;; rest <- alt_sparse fuel (u64 (i * 2)) alternativeChain ;; Some (x :: rest)
  end.

Definition doBuildSparseChain (startBlockId : bytes) (n : node) : option (list bytes) :=
  let index := m_blockIndex (n_chain n) in
  _ <- c_assert (negb (bi_size index =? 0)) ;;
  if hasBlock startBlockId index then bi_buildSparseChain startBlockId index
  else
    _ <- c_assert (bool_decide (is_Some (m_alternative_chains n !! startBlockId))) ;;
    path <- branch (S (size (m_alternative_chains n))) startBlockId (m_alternative_chains n) ;;
    sparseChain <- alt_sparse (S (length path)) 1 (rev path.*1) ;;
    front <- head path ;;
    let blockchainAncestor := previousBlockHash (bl front.2) in
    _ <- c_assert (hasBlock blockchainAncestor index) ;;
    sparseMainChain <- bi_buildSparseChain blockchainAncestor index ;;
    Some (sparseChain ++ sparseMainChain).

(** ** Switching *)

(** The loop that disconnects the blocks from [split_height] on. *)
Fixpoint disconnect_blocks (fuel : nat) (i split_height : Z) (disconnected_chain : list Block) (c : chain) (p : pool) : option (list Block * chain * pool) :=
  match fuel with
  | O => None
  | S fuel =>
      if i <? split_height then Some (disconnected_chain, c, p) else
      e <- m_blocks c !! Z.to_nat i ;;
      '(c, p) <- pop (get_block_hash (bl e)) c p ;;
      disconnect_blocks fuel (u64 (i - 1)) split_height (bl e :: disconnected_chain) c p
  end.

(** The first loop of [rollback_blockchain_switching]. *)
Fixpoint rollback_pops (fuel : nat) (i rollback_height : Z) (c : chain) (p : pool) : option (chain * pool) :=
  match fuel with
  | O => None
  | S fuel =>
      if i <? rollback_height then Some (c, p) else
      e <- last (m_blocks c) ;;
      '(c, p) <- pop (get_block_hash (bl e)) c p ;;
      rollback_pops fuel (u64 (i - 1)) rollback_height c p
  end.

(** Blocks are pushed until one of them is not accepted: its place and those of the blocks after it, and the state. *)
Fixpoint connect {A} (block : A -> Block) (bs : list A) (c : chain) (p : pool) : option (list A * chain * pool) :=
  match bs with
  | [] => Some ([], c, p)
  | b :: bs =>
      '(r, v, c, p) <- push (block b) c p ;;
      if negb r || negb (m_added_to_main_chain v) then Some (b :: bs, c, p) else connect block bs c p
  end.

(** The result of [rollback_blockchain_switching] and the state. *)
Definition rollback_blockchain_switching (original_chain : list Block) (rollback_height : Z) (c : chain) (p : pool) : option (bool * chain * pool) :=
  '(c, p) <- rollback_pops (S (length (m_blocks c))) (chain_height (m_blocks c) - 1) rollback_height c p ;;
  '(rest, c, p) <- connect id original_chain c p ;;
  Some (match rest with [] => true | _ => false end, c, p).

(** Entries leave the index of orphan blocks and the alternative chains. *)
Fixpoint erase_alternatives (es : list (bytes * BlockEntry)) (orphans : gmultiset (Z * bytes)) (alts : gmap bytes BlockEntry)
    : option (gmultiset (Z * bytes) * gmap bytes BlockEntry) :=
  match es with
  | [] => Some (orphans, alts)
  | (id, e) :: es => '(_, orphans) <- orphan_remove get_block_hash (bl e) orphans ;; erase_alternatives es orphans (delete id alts)
  end.

Definition erased (es : list (bytes * BlockEntry)) (n : node) : option node :=
  '(orphans, alts) <- erase_alternatives es (m_orthanBlocksIndex n) (m_alternative_chains n) ;;
  Some (mk_node (n_chain n) (n_pool n) alts orphans).

Definition with_chain (c : chain) (p : pool) (n : node) : node := mk_node c p (m_alternative_chains n) (m_orthanBlocksIndex n).

(** The blocks of the old chain become alternative blocks; [handle] is [handle_alternative_block].  The rest
    is what is left when one of them is refused. *)
Fixpoint refile (handle : Block -> node -> option (bool * verdict * node)) (bs : list Block) (n : node) : option (list Block * node) :=
  match bs with
  | [] => Some ([], n)
  | b :: bs => '(r, _, n) <- handle b n ;; if negb r then Some (b :: bs, n) else refile handle bs n
  end.

Definition switch_to_alternative_blockchain (handle : Block -> node -> option (bool * verdict * node)) (alt_chain : list (bytes * BlockEntry))
    (discard_disconnected_chain : bool) (n : node) : option (bool * node) :=
  match alt_chain with
  | [] => Some (false, n)
  | (_, front) :: _ =>
      let split_height := be_height front in
      let c := n_chain n in
      if negb (split_height <? chain_height (m_blocks c)) then Some (false, n) else
      '(disconnected_chain, c, p) <- disconnect_blocks (S (length (m_blocks c))) (chain_height (m_blocks c) - 1) split_height [] c (n_pool n) ;;
      '(rest, c, p) <- connect (fun e => bl e.2) alt_chain c p ;;
      match rest with
      | _ :: _ =>
          '(_, c, p) <- rollback_blockchain_switching disconnected_chain split_height c p ;;
          n <- erased rest (with_chain c p n) ;;
          Some (false, n)
      | [] =>
          let n := with_chain c p n in
          '(refused, n) <- (if discard_disconnected_chain then Some ([], n) else refile handle disconnected_chain n) ;;
          match refused with
          | _ :: _ =>
              '(_, c, p) <- rollback_blockchain_switching disconnected_chain split_height (n_chain n) (n_pool n) ;;
              Some (false, with_chain c p n)
          | [] => n <- erased alt_chain n ;; Some (true, n)
          end
      end
  end.

(** The checks of an alternative block against the branch it extends: its entry and whether it is a checkpoint, or the answer. *)
Definition check_alternative (b : Block) (id : bytes) (alt_chain : list (bytes * BlockEntry)) (mainPrev : option Z) (n : node)
    : option ((BlockEntry * bool) + verdict) :=
  let bs := m_blocks (n_chain n) in
  let entries := snd <$> alt_chain in
  let timestamps := rev ((fun e => timestamp (bl e)) <$> entries) in
  connected <- match entries with
    | front :: _ =>
        if negb (be_height front <? chain_height bs) then Some None else
        e <- bs !! Z.to_nat (u32 (be_height front - 1)) ;;
        if negb (bool_decide (get_block_hash (bl e) = previousBlockHash (bl front))) then Some None else
        timestamps <- complete_timestamps_vector bs (Z.to_nat (u32 (be_height front - 1))) timestamps ;;
        prev <- last entries ;;
        Some (Some (timestamps, u32 (be_height prev + 1), cumulative_difficulty prev))
    | [] =>
        match mainPrev with
        | None => Some None
        | Some h =>
            timestamps <- complete_timestamps_vector bs (Z.to_nat h) timestamps ;;
            prev <- bs !! Z.to_nat h ;;
            Some (Some (timestamps, u32 (h + 1), cumulative_difficulty prev))
        end
    end ;;
  match connected with
  | None => Some (inr no_verdict)
  | Some (timestamps, height, previous_difficulty) =>
      if negb (check_block_timestamp cur timestamps b) then Some (inr bad_block) else
      let '(checked, is_a_checkpoint) := check_block height id m_checkpoints in
      if negb checked then Some (inr bad_block) else
      current_diff <- get_next_difficulty_for_alternative_chain bs entries height ;;
      if current_diff =? 0 then Some (inr no_verdict) else
      if negb (checkProofOfWork b current_diff) then Some (inr bad_block) else
      v <- prevalidate_miner_transaction cur b height ;;
      if negb v then Some (inr bad_block) else
      Some (inl (mk_bentry b height 0 (u64 (previous_difficulty + current_diff)) 0 [], is_a_checkpoint))
  end.

(** The result, the verdict and the state. *)
Fixpoint handle_alternative_block (fuel : nat) (b : Block) (n : node) : option (bool * verdict * node) :=
  match fuel with
  | O => None
  | S fuel =>
      let id := get_block_hash b in
      let c := n_chain n in
      let block_height := get_block_height b in
      if block_height =? 0 then Some (false, bad_block, n) else
      if negb (is_alternative_block_allowed (getCurrentBlockchainHeight (m_blocks c)) block_height m_checkpoints) then Some (false, bad_block, n) else
      if negb (checkBlockVersion cur c b) then Some (false, bad_block, n) else
      cumulativeSize <- getBlockCumulativeSize b n ;;
      size_ok <- checkCumulativeBlockSize cur cumulativeSize block_height ;;
      if negb size_ok then Some (false, bad_block, n) else
      let mainPrev := bi_getBlockHeight (previousBlockHash b) (m_blockIndex c) in
      match m_alternative_chains n !! previousBlockHash b, mainPrev with
      | None, None => Some (true, orphaned, n)
      | _, _ =>
          alt_chain <- branch (S (size (m_alternative_chains n))) (previousBlockHash b) (m_alternative_chains n) ;;
          checked <- check_alternative b id alt_chain mainPrev n ;;
          match checked with
          | inr v => Some (false, v, n)
          | inl (bei, is_a_checkpoint) =>
              match m_alternative_chains n !! id with
              | Some _ => Some (false, no_verdict, n)
              | None =>
                  orphans <- orphan_add get_block_hash b (m_orthanBlocksIndex n) ;;
                  let n := mk_node c (n_pool n) (<[id := bei]> (m_alternative_chains n)) orphans in
                  let alt_chain := alt_chain ++ [(id, bei)] in
                  tail <- last (m_blocks c) ;;
                  if is_a_checkpoint then
                    '(r, n) <- switch_to_alternative_blockchain (handle_alternative_block fuel) alt_chain true n ;; Some (r, switched r, n)
                  else if cumulative_difficulty tail <? cumulative_difficulty bei then
                    '(r, n) <- switch_to_alternative_blockchain (handle_alternative_block fuel) alt_chain false n ;; Some (r, switched r, n)
                  else Some (true, no_verdict, n)
              end
          end
      end
  end.

Definition addNewBlock (fuel : nat) (b : Block) (n : node) : option (bool * verdict * node) :=
  if haveBlock (get_block_hash b) n then Some (false, exists_already, n) else
  tail <- getTailId (n_chain n) ;;
  if negb (bool_decide (previousBlockHash b = tail)) then handle_alternative_block fuel b n
  else
    '(r, v, c, p) <- push b (n_chain n) (n_pool n) ;;
    Some (r, verdict_of v, with_chain c p n).

(** What is not cleared stays: the multisignature outputs, the deposit index, the counter of the generated transactions, the detector
    and the limit. *)
Definition resetAndSetGenesisBlock (fuel : nat) (b : Block) (n : node) : option (bool * node) :=
  let c := n_chain n in
  let st := mk_store ∅ ∅ ∅ (m_multisignatureOutputs (m_store c)) ∅ in
  let c := mk_chain [] [] st (m_depositIndex c) [] (gen_clear (m_generatedTransactionsIndex c)) (m_votingCompleteHeight c) (m_current_block_cumul_sz_limit c) in
  '(_, v, n) <- addNewBlock fuel b (mk_node c (n_pool n) ∅ ∅) ;;
  Some (v_added_to_main_chain v && negb (v_verifivation_failed v), n).
End AltChain.
