(* ===== verification/AltInvariant.v ===== *)
(** * What happens to the main chain when branches compete

    The blocks of the main chain after each operation of AltChain.v: an alternative
    block is asked for the work that the same block would need on the branch as main
    chain; a switch replaces the end of the main chain by the branch; a switch that
    fails leaves a prefix of the old chain, which is all of it when the blocks can be
    connected again. *)

From Stdlib Require Import ZArith Lia List Bool.
From S2P Require Import Prelude Bytes IntUtil Currency DepositIndex Checkpoints BlockIndex TxStore BlockchainIndices UpgradeDetector TxCheck Blockchain TransactionPool Node AltChain.
From stdpp Require Import gmap gmultiset list.
Import ListNotations.
Open Scope Z_scope.
Open Scope cmon_scope.
Set Default Goal Selector "!".

(** ** The difficulty of an alternative block *)

Section Difficulty.
Context {CK : CryptoChecks} {CO : Codec} (cur : currency).

Definition with_blocks (bs : blocks) (c : chain) : chain :=
  mk_chain bs (m_blockIndex c) (m_store c) (m_depositIndex c) (m_timestampIndex c) (m_generatedTransactionsIndex c) (m_votingCompleteHeight c) (m_current_block_cumul_sz_limit c).

Lemma alt_difficulty bs alt height (stop : nat) : Z.of_nat stop = match alt with e :: _ => be_height e | [] => height end ->
  (1 <= stop <= length bs)%nat -> forall c,
  get_next_difficulty_for_alternative_chain cur bs alt height = getDifficultyForNextBlock cur (with_blocks (take stop bs ++ alt) c).
Proof.
  intros Es Hs c. unfold get_next_difficulty_for_alternative_chain, getDifficultyForNextBlock. rewrite <- Es, Nat2Z.id. cbn [with_blocks m_blocks]. cbv zeta.
  set (count := difficultyBlocksCount cur). rewrite length_app, length_take_le by lia.
  destruct (Nat.ltb_spec (length alt) count) as [L|L].
  - rewrite (proj2 (Nat.ltb_ge (length bs) stop)) by lia.
    set (start := (stop - Nat.min (count - Nat.min count (length alt)) stop)%nat). set (offset := (stop + length alt - Nat.min (stop + length alt) count)%nat).
    assert (offset = start) as -> by lia. set (first := if (start =? 0)%nat then 1%nat else start).
    assert (first <= stop)%nat as Lf by (unfold first; destruct (Nat.eqb_spec start 0); lia).
    rewrite length_drop, length_take_le by lia.
    rewrite (proj2 (Nat.leb_le (length alt + (stop - first)) count)); [|unfold first; destruct (Nat.eqb_spec start 0); lia]. cbn [negb].
    rewrite drop_app_le by (rewrite length_take_le; lia). reflexivity.
  - set (offset := (stop + length alt - Nat.min (stop + length alt) count)%nat). assert (offset = stop + (length alt - count))%nat as -> by lia.
    rewrite (proj2 (Nat.eqb_neq (stop + (length alt - count)) 0)) by lia.
    rewrite drop_app_ge by (rewrite length_take_le; lia). rewrite length_take_le by lia. replace (stop + (length alt - count) - stop)%nat with (length alt - count)%nat by lia. reflexivity.
Qed.
End Difficulty.

(** ** The blocks after each operation *)

#[global] Instance input_eq_dec : EqDecision TransactionInput.
Proof. solve_decision. Defined.
#[global] Instance target_eq_dec : EqDecision TransactionOutputTarget.
Proof. solve_decision. Defined.
#[global] Instance output_eq_dec : EqDecision TransactionOutput.
Proof. solve_decision. Defined.
#[global] Instance tx_eq_dec : EqDecision Transaction.
Proof. solve_decision. Defined.
#[global] Instance block_eq_dec : EqDecision Block.
Proof. solve_decision. Defined.

Section Blocks.
Context {CK : CryptoChecks} {CO : Codec} (cur : currency) (par : pool_params) (getTTL : Transaction -> Z) (cps : points) (now received : Z).

Abbreviation push := (push_block cur par getTTL cps now received).
Abbreviation pop := (pop_block cur par getTTL now received).
Abbreviation connect := (AltChain.connect cur par getTTL cps now received).

(** The blocks of the chain. *)
Definition blks (c : chain) : list Block := bl <$> m_blocks c.

Lemma pushTransaction_bl block h index st r block' st' : pushTransaction getObjectHash getPaymentId block h index st = Some (r, block', st') -> bl block' = bl block.
Proof.
  unfold pushTransaction. destruct (m_transactionMap st !! h); [intros [= _ <- _]; reflexivity|]. intros (t & _ & E)%obind_Some.
  destruct (negb (checkMultisignatureInputsDiff (tx t))); [injection E as _ <- _; reflexivity|]. apply obind_Some in E as ([i k] & _ & E).
  destruct (negb i); [injection E as _ <- _; reflexivity|]. apply obind_Some in E as (m & _ & E). apply obind_Some in E as ([ix st1] & _ & E).
  injection E as _ <- _. reflexivity.
Qed.

Lemma push_transactions_bl bs mh txs : forall i block index st s f n block' st' s' f' n',
  push_transactions cur false now bs mh txs i block index st s f n = Some (Pushed block' st' s' f' n') -> bl block' = bl block.
Proof.
  induction txs as [|t txs IH]; intros i block index st s f n block' st' s' f' n' E; cbn [push_transactions] in E; [injection E as <- _ _ _ _; reflexivity|].
  apply obind_Some in E as (h & _ & E). apply obind_Some in E as (a & _ & E). apply obind_Some in E as ([ok m] & _ & E).
  destruct (negb _); [apply obind_Some in E as (x & _ & E); discriminate|]. apply obind_Some in E as ([[r b1] st1] & E1 & E).
  apply obind_Some in E as (int & _ & E). rewrite (IH _ _ _ _ _ _ _ _ _ _ _ _ E). rewrite (pushTransaction_bl _ _ _ _ _ _ _ E1). reflexivity.
Qed.

(** The index lists the hashes of the blocks, and the entries have their heights. *)
Record placed (c : chain) : Prop := {
  pl_index : m_blockIndex c = (fun e => get_block_hash (bl e)) <$> m_blocks c;
  pl_height : forall h e, m_blocks c !! h = Some e -> be_height e = Z.of_nat h
}.

(** An accepted block is the last one, a rejected block leaves the blocks as they are. *)
Lemma pushBlock_blocks b txs c r v c' : pushBlock cur cps false now b txs c = Some (r, v, c') ->
  if r then v = added /\ exists e, m_blocks c' = m_blocks c ++ [e] /\ bl e = b /\ be_height e = u32 (chain_height (m_blocks c)) /\
    m_blockIndex c' = (bi_push (get_block_hash b) (m_blockIndex c)).2 /\ bi_size (m_blockIndex c') = chain_height (m_blocks c')
  else m_blocks c' = m_blocks c /\ m_blockIndex c' = m_blockIndex c.
Proof.
  unfold pushBlock. intros (header & _ & E)%obind_Some. destruct header as [d|w]; [|injection E as <- _ <-; auto].
  apply obind_Some in E as ([[r1 b1] st1] & E1 & E). apply obind_Some in E as (result & Er & E). destruct result as [st2|block st2 s f n]; [injection E as <- _ <-; auto|].
  apply obind_Some in E as (sz & _ & E). destruct (negb sz); [injection E as <- _ <-; auto|]. apply obind_Some in E as (w & _ & E).
  destruct w as [[reward emission]|]; [|apply obind_Some in E as (st3 & _ & E); injection E as <- _ <-; auto].
  apply obind_Some in E as (c1 & Ec & E). apply obind_Some in E as (dep & _ & E). apply obind_Some in E as (vo & _ & E). injection E as <- <- <-. cbn [m_blocks m_blockIndex].
  assert (bl (finish_block block s d emission n c) = b) as Eb
    by (cbn [finish_block bl]; rewrite (push_transactions_bl _ _ _ _ _ _ _ _ _ _ _ _ _ _ _ Er), (pushTransaction_bl _ _ _ _ _ _ _ E1); reflexivity).
  split; [reflexivity|]. unfold push_entry in Ec. rewrite Eb in Ec. apply obind_Some in Ec as ([x g] & _ & Ec). apply obind_Some in Ec as (u & Es & [= <-]).
  cbn [m_blocks m_blockIndex with_store] in *. eexists. split; [reflexivity|]. split; [exact Eb|]. split; [reflexivity|]. split; [reflexivity|].
  destruct (Z.eqb_spec (bi_size (bi_push (get_block_hash b) (m_blockIndex c)).2) (chain_height (m_blocks c ++ [finish_block block s d emission n c]))) as [Ez|]; [exact Ez|discriminate].
Qed.

Lemma pushBlock_placed b txs c r v c' : placed c -> chain_height (m_blocks c) < 2 ^ 32 -> pushBlock cur cps false now b txs c = Some (r, v, c') -> placed c'.
Proof.
  intros [Ix Hh] Sh E%pushBlock_blocks. destruct r.
  - destruct E as (_ & e & Em & Eb & Eh & Ei & El). unfold bi_push in Ei. destruct (decide (get_block_hash b ∈ m_blockIndex c)) as [|N]; cbn [snd] in Ei.
    { unfold bi_size, chain_height in *. rewrite Ei, Em, Ix, length_fmap, length_app, u32_small in El by lia. cbn in El. lia. }
    split; [rewrite Ei, Em, fmap_app, Ix; cbn; rewrite Eb; reflexivity|]. intros h x Ex. rewrite Em in Ex. apply lookup_app_Some in Ex as [Ex|[L Ex]]; [exact (Hh h x Ex)|].
    destruct (h - length (m_blocks c))%nat as [|k] eqn:D; [|destruct k; discriminate]. injection Ex as <-. rewrite Eh. unfold chain_height in *. rewrite u32_small by lia. lia.
  - destruct E as [Em Ei]. split; rewrite Em; [rewrite Ei; exact Ix|exact Hh].
Qed.

Lemma push_blocks b c p r v c' p' : push b c p = Some (r, v, c', p') ->
  if r then v = added /\ blks c' = blks c ++ [b] else m_blocks c' = m_blocks c.
Proof.
  unfold push_block. intros ([loaded p1] & _ & E)%obind_Some. destruct loaded as [txs|]; [|injection E as <- _ <- _; reflexivity].
  apply obind_Some in E as ([[r1 v1] c1] & E1 & E). apply pushBlock_blocks in E1. destruct r1; cbn [negb] in E.
  - injection E as <- <- <- _. destruct E1 as (-> & e & Eb & Ee & _). split; [reflexivity|]. unfold blks. rewrite Eb, fmap_app. cbn. rewrite Ee. reflexivity.
  - apply obind_Some in E as (p2 & _ & E). injection E as <- _ <- _. apply E1.
Qed.

Lemma push_placed b c p r v c' p' : placed c -> chain_height (m_blocks c) < 2 ^ 32 -> push b c p = Some (r, v, c', p') -> placed c'.
Proof.
  intros P Sh. unfold push_block. intros ([loaded p1] & _ & E)%obind_Some. destruct loaded as [txs|]; [|injection E as _ _ <- _; exact P].
  apply obind_Some in E as ([[r1 v1] c1] & E1 & E). apply pushBlock_placed in E1; [|exact P|exact Sh]. destruct r1; cbn [negb] in E.
  - injection E as _ _ <- _. exact E1.
  - apply obind_Some in E as (p2 & _ & E). injection E as _ _ <- _. exact E1.
Qed.

Lemma pop_all h c p c' p' : pop h c p = Some (c', p') -> m_blocks c' = removelast (m_blocks c) /\
  m_blockIndex c' = match m_blocks c with [] => m_blockIndex c | _ => removelast (m_blockIndex c) end.
Proof.
  unfold pop_block. destruct (last (m_blocks c)) as [e|] eqn:L.
  - intros (p1 & _ & E)%obind_Some. apply obind_Some in E as ([txs c1] & E1 & [= <- _]). unfold popBlock in E1. rewrite L in E1.
    apply obind_Some in E1 as (st & _ & E1). apply obind_Some in E1 as ([x g] & _ & E1). apply obind_Some in E1 as (d & _ & E1).
    apply obind_Some in E1 as (ix & Ei & E1). apply obind_Some in E1 as (u & _ & E1). apply obind_Some in E1 as (w & _ & E1). injection E1 as _ <-. split; [reflexivity|].
    cbn [m_blockIndex]. unfold bi_pop in Ei. destruct (m_blocks c); [discriminate|]. destruct (m_blockIndex c); congruence.
  - intros [= <- _]. apply last_None in L. rewrite L. auto.
Qed.

Lemma pop_blocks h c p c' p' : pop h c p = Some (c', p') -> m_blocks c' = removelast (m_blocks c).
Proof. intros E. exact (proj1 (pop_all _ _ _ _ _ E)). Qed.

Lemma pop_placed h c p c' p' : placed c -> pop h c p = Some (c', p') -> placed c'.
Proof.
  intros [Ix Hh] E. apply pop_all in E as [Em Ei]. destruct (m_blocks c) as [|e bs _] eqn:Eb using rev_ind; [split; rewrite Em; [rewrite Ei; exact Ix|exact Hh]|].
  rewrite removelast_last in Em. split; rewrite Em.
  - rewrite Ei, Ix, fmap_app. cbn [fmap list_fmap]. rewrite removelast_last. destruct bs; reflexivity.
  - intros k x Ex. apply Hh, lookup_app_l_Some, Ex.
Qed.

Lemma disconnect_placed fuel : forall i split acc c p d c' p', placed c -> disconnect_blocks cur par getTTL now received fuel i split acc c p = Some (d, c', p') -> placed c'.
Proof.
  induction fuel as [|fuel IH]; intros i split acc c p d c' p' P E; [discriminate|]. cbn [disconnect_blocks] in E. destruct (i <? split); [injection E as _ <- _; exact P|].
  apply obind_Some in E as (e & _ & E). apply obind_Some in E as ([c1 p1] & Ep & E). exact (IH _ _ _ _ _ _ _ _ (pop_placed _ _ _ _ _ P Ep) E).
Qed.

(** Disconnecting cuts the chain. *)
Lemma disconnect_blocks_ok fuel : forall i split acc c p d c' p', 0 <= split -> i = chain_height (m_blocks c) - 1 -> split <= i + 1 -> i < 2 ^ 63 -> 1 <= split ->
  disconnect_blocks cur par getTTL now received fuel i split acc c p = Some (d, c', p') ->
  m_blocks c' = take (Z.to_nat split) (m_blocks c) /\ d = drop (Z.to_nat split) (blks c) ++ acc.
Proof.
  induction fuel as [|fuel IH]; intros i split acc c p d c' p' H0 Ei Hs Hi H1 E; [discriminate|]. cbn [disconnect_blocks] in E. unfold chain_height in Ei.
  destruct (Z.ltb_spec i split) as [L|L].
  - injection E as <- <- _. rewrite take_ge by lia. unfold blks. rewrite drop_ge by (rewrite length_fmap; lia). split; reflexivity.
  - apply obind_Some in E as (e & Ee & E). apply obind_Some in E as ([c1 p1] & Ep & E). apply pop_blocks in Ep.
    destruct (m_blocks c) as [|last bs _] eqn:Eb using rev_ind; [cbn in Ei; lia|]. rewrite length_app in Ei. cbn [length] in Ei.
    rewrite lookup_app_r in Ee by lia. replace (Z.to_nat i - length bs)%nat with 0%nat in Ee by lia. injection Ee as ->.
    rewrite removelast_last in Ep. rewrite u64_small in E by lia.
    apply IH in E as [E1 E2]; [|lia|rewrite Ep; unfold chain_height; lia|lia|lia|lia]. rewrite E1, E2. unfold blks. rewrite Ep, Eb.
    rewrite take_app_le by lia. split; [reflexivity|]. rewrite fmap_app, drop_app_le by (rewrite length_fmap; lia). rewrite <- app_assoc. reflexivity.
Qed.

Lemma rollback_pops_ok fuel : forall i height c p c' p', i = chain_height (m_blocks c) - 1 -> 1 <= height <= i + 1 -> i < 2 ^ 63 ->
  rollback_pops cur par getTTL now received fuel i height c p = Some (c', p') -> m_blocks c' = take (Z.to_nat height) (m_blocks c).
Proof.
  induction fuel as [|fuel IH]; intros i height c p c' p' Ei Hh Hi E; [discriminate|]. cbn [rollback_pops] in E. unfold chain_height in Ei.
  destruct (Z.ltb_spec i height) as [L|L].
  - injection E as <- _. rewrite take_ge by lia. reflexivity.
  - apply obind_Some in E as (e & Ee & E). apply obind_Some in E as ([c1 p1] & Ep & E). apply pop_blocks in Ep.
    destruct (m_blocks c) as [|last bs _] eqn:Eb using rev_ind; [cbn in Ei; lia|]. rewrite length_app in Ei. cbn [length] in Ei.
    rewrite removelast_last in Ep. rewrite u64_small in E by lia.
    apply IH in E; [|rewrite Ep; unfold chain_height; lia|lia|lia]. rewrite E, Ep. rewrite take_app_le by lia. reflexivity.
Qed.

(** Connecting appends blocks, up to the first that is refused. *)
Lemma connect_ok {A} (block : A -> Block) bs : forall c p rest c' p', connect block bs c p = Some (rest, c', p') ->
  exists done, bs = done ++ rest /\ blks c' = blks c ++ (block <$> done).
Proof.
  induction bs as [|b bs IH]; intros c p rest c' p' E; cbn [AltChain.connect] in E.
  - injection E as <- <- _. exists []. cbn. rewrite app_nil_r. auto.
  - apply obind_Some in E as ([[[r v] c1] p1] & E1 & E). apply push_blocks in E1. destruct r; cbn [negb orb] in E.
    + destruct E1 as [-> E1]. cbn [added m_added_to_main_chain negb] in E. apply IH in E as (done & -> & E). exists (b :: done). rewrite E, E1, <- app_assoc. auto.
    + injection E as <- <- _. exists []. unfold blks. cbn. rewrite E1, app_nil_r. auto.
Qed.

Lemma connect_placed {A} (block : A -> Block) bs : forall c p rest c' p', placed c -> chain_height (m_blocks c) + Z.of_nat (length bs) <= 2 ^ 32 ->
  connect block bs c p = Some (rest, c', p') -> placed c'.
Proof.
  induction bs as [|b bs IH]; intros c p rest c' p' P Sh E; cbn [AltChain.connect length] in *; [injection E as _ <- _; exact P|].
  apply obind_Some in E as ([[[r v] c1] p1] & E1 & E). pose proof (push_placed _ _ _ _ _ _ _ P ltac:(lia) E1) as P1. apply push_blocks in E1.
  destruct (negb r || _) eqn:D; [injection E as _ <- _; exact P1|]. destruct r; [|discriminate]. destruct E1 as [_ E1]. apply (IH _ _ _ _ _ P1) in E; [exact E|].
  apply (f_equal length) in E1. unfold blks in E1. rewrite length_app, !length_fmap in E1. cbn in E1. unfold chain_height in *. lia.
Qed.

(** A rollback keeps the common part and connects blocks of the old chain, all of them when it succeeds. *)
Lemma rollback_ok original height c p r c' p' : 1 <= height <= chain_height (m_blocks c) -> chain_height (m_blocks c) < 2 ^ 63 ->
  rollback_blockchain_switching cur par getTTL cps now received original height c p = Some (r, c', p') ->
  exists done rest, original = done ++ rest /\ (r = true <-> rest = []) /\ blks c' = take (Z.to_nat height) (blks c) ++ done.
Proof.
  intros Hh Hs. unfold rollback_blockchain_switching. intros ([c1 p1] & E1 & E)%obind_Some. apply rollback_pops_ok in E1; [|lia|lia|lia].
  apply obind_Some in E as ([[rest c2] p2] & E2 & E). injection E as <- <- _. apply connect_ok in E2 as (done & -> & E2). exists done, rest. split; [reflexivity|].
  split; [destruct rest; split; congruence|]. rewrite E2, list_fmap_id. unfold blks. rewrite E1, fmap_take. reflexivity.
Qed.

(** *** The choice between branches *)

(** No alternative block is at the height of the first block. *)
Definition heights_ok (n : node) : Prop := forall id e, m_alternative_chains n !! id = Some e -> 1 <= be_height e.

Lemma branch_entries fuel alts : forall id path, branch fuel id alts = Some path -> Forall (fun p => alts !! p.1 = Some p.2) path.
Proof.
  induction fuel as [|fuel IH]; intros id path E; [discriminate|]. cbn [branch] in E. destruct (alts !! id) as [e|] eqn:Ee; [|injection E as <-; constructor].
  apply obind_Some in E as (pre & E1 & [= <-]). apply list.Forall_app. split; [exact (IH _ _ E1)|]. constructor; [exact Ee|constructor].
Qed.

(** A block that would make a branch heavier than the main chain, or that is a checkpoint: the branch of alternative blocks that it
    extends; the common part of the main chain, which ends in the block that the first block of the branch
    (the block itself when there is no other) refers to; the last block before it, its difficulty on top
    of the common part and the branch, its work, and why it counts. *)
Definition wins (b : Block) (n : node) : Prop := exists alt split common prev tail d,
  let c := n_chain n in let path := take split (m_blocks c) ++ alt.*2 in
  branch (S (size (m_alternative_chains n))) (previousBlockHash b) (m_alternative_chains n) = Some alt /\
  last (take split (m_blocks c)) = Some common /\ get_block_hash (bl common) = previousBlockHash (match alt with (_, first) :: _ => bl first | [] => b end) /\
  last path = Some prev /\ last (m_blocks c) = Some tail /\
  getDifficultyForNextBlock cur (with_blocks path c) = Some d /\ d <> 0 /\ checkProofOfWork b d = true /\
  (is_Some (points_find (u32 (be_height prev + 1)) cps) \/ cumulative_difficulty tail < u64 (cumulative_difficulty prev + d)).

Lemma last_app_r {A} (l l' : list A) x : last l' = Some x -> last (l ++ l') = Some x.
Proof. intros E. rewrite last_app, E. reflexivity. Qed.

(** What an alternative block does: nothing, or it is filed, or it is filed and starts a switch. *)
Lemma handle_cases fuel b n r v n' : handle_alternative_block cur par getTTL cps now received fuel b n = Some (r, v, n') ->
  n' = n \/ exists fuel' alt bei isc orphans tail, let n1 := mk_node (n_chain n) (n_pool n) (<[get_block_hash b := bei]> (m_alternative_chains n)) orphans in
    branch (S (size (m_alternative_chains n))) (previousBlockHash b) (m_alternative_chains n) = Some alt /\ get_block_height b <> 0 /\
    check_alternative cur cps b (get_block_hash b) alt (bi_getBlockHeight (previousBlockHash b) (m_blockIndex (n_chain n))) n = Some (inl (bei, isc)) /\
    last (m_blocks (n_chain n)) = Some tail /\
    (n' = n1 \/ (isc = true \/ cumulative_difficulty tail < cumulative_difficulty bei) /\ fuel = S fuel' /\
      exists discard r1, switch_to_alternative_blockchain cur par getTTL cps now received (handle_alternative_block cur par getTTL cps now received fuel') (alt ++ [(get_block_hash b, bei)]) discard n1 = Some (r1, n')).
Proof.
  destruct fuel as [|fuel]; [discriminate|]. cbn [handle_alternative_block]. cbv zeta. intros E.
  destruct (Z.eqb_spec (get_block_height b) 0) as [|Nz]; [injection E as _ _ <-; auto|]. destruct (negb _); [injection E as _ _ <-; auto|].
  destruct (negb _); [injection E as _ _ <-; auto|]. apply obind_Some in E as (sz & _ & E). apply obind_Some in E as (ok & _ & E).
  destruct (negb ok); [injection E as _ _ <-; auto|].
  assert (m_alternative_chains n !! previousBlockHash b = None /\ bi_getBlockHeight (previousBlockHash b) (m_blockIndex (n_chain n)) = None \/
    ~ (m_alternative_chains n !! previousBlockHash b = None /\ bi_getBlockHeight (previousBlockHash b) (m_blockIndex (n_chain n)) = None)) as [[Ep Eh]|Np]
    by (destruct (m_alternative_chains n !! previousBlockHash b), (bi_getBlockHeight _ _); auto; right; intros []; discriminate).
  { rewrite Ep, Eh in E. injection E as _ _ <-. auto. }
  match type of E with match _ with Some _ => ?rest | None => _ end = _ => assert (rest = Some (r, v, n')) as E1
    by (destruct (m_alternative_chains n !! previousBlockHash b); [exact E|]; destruct (bi_getBlockHeight _ _); [exact E|destruct Np; auto]) end.
  clear E Np. apply obind_Some in E1 as (alt & Ea & E). apply obind_Some in E as (checked & Ek & E). destruct checked as [[bei isc]|w]; [|injection E as _ _ <-; auto].
  destruct (m_alternative_chains n !! get_block_hash b); [injection E as _ _ <-; auto|]. apply obind_Some in E as (orphans & _ & E). apply obind_Some in E as (tail & Et & E).
  right. exists fuel, alt, bei, isc, orphans, tail. do 4 (split; [assumption|]). destruct isc; [|destruct (Z.ltb_spec (cumulative_difficulty tail) (cumulative_difficulty bei))].
  - right. apply obind_Some in E as ([r1 n1] & E & [= _ _ <-]). eauto 10.
  - right. apply obind_Some in E as ([r1 n1] & E & [= _ _ <-]). eauto 10.
  - injection E as _ _ <-. auto.
Qed.

Section Choice.
Context (n : node) (Hh : heights_ok n).
Hypothesis (Hp : placed (n_chain n)).
Hypothesis (Hs : chain_height (m_blocks (n_chain n)) < 2 ^ 32).

Lemma check_wins b id alt bei checkpoint : branch (S (size (m_alternative_chains n))) (previousBlockHash b) (m_alternative_chains n) = Some alt ->
  check_alternative cur cps b id alt (bi_getBlockHeight (previousBlockHash b) (m_blockIndex (n_chain n))) n = Some (inl (bei, checkpoint)) ->
  forall tail, last (m_blocks (n_chain n)) = Some tail -> checkpoint = true \/ cumulative_difficulty tail < cumulative_difficulty bei -> wins b n.
Proof.
  intros Eb E tail Et Wn. unfold check_alternative in E. cbv zeta in E. set (bs := m_blocks (n_chain n)) in *.
  apply obind_Some in E as (connected & Ec & E). destruct connected as [[[stamps height] pd]|]; [|discriminate].
  assert (exists split common prev, last (take split bs) = Some common /\
    get_block_hash (bl common) = previousBlockHash (match alt with (_, first) :: _ => bl first | [] => b end) /\ last (take split bs ++ alt.*2) = Some prev /\ height = u32 (be_height prev + 1) /\ pd = cumulative_difficulty prev /\
    (1 <= split <= length bs)%nat /\ Z.of_nat split = match alt.*2 with e :: _ => be_height e | [] => height end) as (split & common & prev & Lc & Hc & Lp & Eh & Epd & Hsp & Esp).
  { pose proof (branch_entries _ _ _ _ Eb) as Fb. destruct (alt.*2) as [|front rest] eqn:Ea.
    - destruct (bi_getBlockHeight _ _) as [h|] eqn:Eh; [|discriminate]. apply obind_Some in Ec as (ts & _ & Ec). apply obind_Some in Ec as (prev & Ep & [= _ <- <-]).
      unfold bi_getBlockHeight in Eh. destruct (position _ _) as [k|] eqn:Ek; [|discriminate]. injection Eh as <-. apply position_Some in Ek.
      rewrite (pl_index _ Hp), list_lookup_fmap in Ek. fold bs in Ek. destruct (bs !! k) as [x|] eqn:Ex; [|discriminate]. injection Ek as Ek.
      pose proof (lookup_lt_Some _ _ _ Ex) as Lk. unfold chain_height in Hs. fold bs in Hs.
      assert (u32 (Z.of_nat k) = Z.of_nat k) as Eu by (apply u32_small; lia). rewrite Eu in Ep |- *. rewrite Nat2Z.id, Ex in Ep. injection Ep as <-.
      apply fmap_nil_inv in Ea. subst alt. exists (S k), x, x. rewrite app_nil_r, (take_S_r _ _ x), last_snoc, (pl_height _ Hp _ _ Ex) by exact Ex.
      do 2 (split; [auto|]). do 3 (split; [reflexivity|]). split; [lia|]. rewrite u32_small; lia.
    - destruct (be_height front <? chain_height bs) eqn:Lf; [|discriminate]. apply Z.ltb_lt in Lf. cbn [negb] in Ec. apply obind_Some in Ec as (e & Ee & Ec).
      destruct (bool_decide (get_block_hash (bl e) = previousBlockHash (bl front))) eqn:Hd; [|discriminate]. apply bool_decide_eq_true in Hd. cbn [negb] in Ec.
      apply obind_Some in Ec as (ts & _ & Ec). apply obind_Some in Ec as (prev & Ep & [= _ <- <-]).
      destruct alt as [|[i0 f0] alt]; [discriminate|]. cbn in Ea. injection Ea as -> Ea. apply list.Forall_cons in Fb as [F0 _]. cbn in F0. apply Hh in F0.
      unfold chain_height in *. fold bs in Hs. rewrite u32_small in Ee by lia. exists (Z.to_nat (be_height front)), e, prev.
      replace (Z.to_nat (be_height front)) with (S (Z.to_nat (be_height front - 1))) at 1 by lia. rewrite (take_S_r _ _ e Ee), last_snoc.
      split; [reflexivity|]. split; [exact Hd|]. split; [apply last_app_r; exact Ep|]. split; [reflexivity|]. split; [reflexivity|]. lia. }
  destruct (check_block_timestamp cur stamps b); cbn [negb] in E; [|discriminate]. destruct (check_block height id cps) as [checked isc] eqn:Ek.
  destruct checked; cbn [negb] in E; [|discriminate]. apply obind_Some in E as (d & Ed & E). destruct (Z.eqb_spec d 0) as [|Nd]; [discriminate|].
  destruct (checkProofOfWork b d) eqn:Pw; cbn [negb] in E; [|discriminate]. apply obind_Some in E as (ok & _ & E). destruct ok; cbn [negb] in E; [|discriminate].
  injection E as <- <-. cbn [cumulative_difficulty] in Wn. rewrite (alt_difficulty cur bs _ height split Esp Hsp (n_chain n)) in Ed.
  exists alt, split, common, prev, tail, d. cbv zeta. fold bs. do 8 (split; [assumption|]). rewrite <- Eh, <- Epd. destruct Wn as [->|W]; [left|right; exact W].
  unfold check_block in Ek. destruct (points_find height cps); [eauto|discriminate].
Qed.

Lemma handle_choice fuel b r v n' : handle_alternative_block cur par getTTL cps now received fuel b n = Some (r, v, n') ->
  n_chain n' = n_chain n \/ wins b n.
Proof.
  intros [->|(fuel' & alt & bei & isc & orphans & tail & Ea & _ & Ek & Et & [->|(W & _)])]%handle_cases; [auto..|].
  right. eapply check_wins; [exact Ea|exact Ek|exact Et|exact W].
Qed.
End Choice.

(** *** Heights of alternative blocks *)

Abbreviation handle := (handle_alternative_block cur par getTTL cps now received).

Lemma check_height b id alt mainPrev n bei isc : check_alternative cur cps b id alt mainPrev n = Some (inl (bei, isc)) ->
  be_height bei = get_block_height b /\ 0 <= be_height bei.
Proof.
  unfold check_alternative. cbv zeta. intros (connected & Ec & E)%obind_Some. destruct connected as [[[stamps height] pd]|]; [|discriminate].
  assert (0 <= height) as Hh.
  { pose proof (fun x => Z.mod_pos_bound x (2 ^ 32) ltac:(lia)) as U. destruct (alt.*2).
    - destruct mainPrev; [|discriminate]. apply obind_Some in Ec as (ts & _ & Ec). apply obind_Some in Ec as (prev & _ & [= _ <- _]). apply U.
    - destruct (negb _); [discriminate|]. apply obind_Some in Ec as (e & _ & Ec). destruct (negb _); [discriminate|].
      apply obind_Some in Ec as (ts & _ & Ec). apply obind_Some in Ec as (prev & _ & [= _ <- _]). apply U. }
  destruct (negb _); [discriminate|]. destruct (check_block height id cps) as [checked isc']. destruct (negb checked); [discriminate|].
  apply obind_Some in E as (d & _ & E). destruct (d =? 0); [discriminate|]. destruct (negb _); [discriminate|]. apply obind_Some in E as (ok & Ep & E).
  destruct ok; [|discriminate]. injection E as <- <-. cbn [be_height]. split; [|exact Hh]. unfold prevalidate_miner_transaction in Ep. unfold get_block_height.
  destruct (inputs (baseTransaction b)) as [|[i| |] [|]]; try discriminate. destruct (Z.eqb_spec i height) as [Ei|]; [symmetry; exact Ei|discriminate].
Qed.

Lemma erased_heights es n n' : heights_ok n -> erased es n = Some n' -> heights_ok n'.
Proof.
  intros H. unfold erased. intros ([o a] & E & [= <-])%obind_Some. unfold heights_ok in *. cbn [m_alternative_chains]. revert E H.
  generalize (m_orthanBlocksIndex n), (m_alternative_chains n). induction es as [|[id e] es IH]; intros os al E H; cbn [erase_alternatives] in E; [injection E as _ <-; exact H|].
  apply obind_Some in E as ([x o1] & _ & E). apply (IH _ _ E). intros i f Ef. apply lookup_delete_Some in Ef as [_ Ef]. exact (H i f Ef).
Qed.

Lemma refile_heights h bs : (forall b n r v n', heights_ok n -> h b n = Some (r, v, n') -> heights_ok n') ->
  forall n rest n', heights_ok n -> refile h bs n = Some (rest, n') -> heights_ok n'.
Proof.
  intros Hk. induction bs as [|b bs IH]; intros n rest n' H E; cbn [refile] in E; [injection E as _ <-; exact H|].
  apply obind_Some in E as ([[r v] n1] & E1 & E). pose proof (Hk _ _ _ _ _ H E1) as H1. destruct (negb r); [injection E as _ <-; exact H1|exact (IH _ _ _ H1 E)].
Qed.

Lemma switch_heights h alts discard n r n' : (forall b n r v n', heights_ok n -> h b n = Some (r, v, n') -> heights_ok n') -> heights_ok n ->
  switch_to_alternative_blockchain cur par getTTL cps now received h alts discard n = Some (r, n') -> heights_ok n'.
Proof.
  intros Hk H. destruct alts as [|[id0 front] alt]; [intros [= _ <-]; exact H|]. cbn [switch_to_alternative_blockchain]. cbv zeta.
  destruct (negb _); [intros [= _ <-]; exact H|]. intros ([[d c1] p1] & _ & E)%obind_Some. apply obind_Some in E as ([[rest c2] p2] & _ & E).
  destruct rest as [|x rest].
  - apply obind_Some in E as ([refused n1] & E1 & E).
    assert (heights_ok n1) as H1 by (destruct discard; [injection E1 as _ <-; exact H|exact (refile_heights h d Hk (with_chain c2 p2 n) _ _ H E1)]).
    destruct refused; [apply obind_Some in E as (n2 & E2 & [= _ <-]); exact (erased_heights _ _ _ H1 E2)|].
    apply obind_Some in E as ([[y c3] p3] & _ & [= _ <-]). exact H1.
  - apply obind_Some in E as ([[y c3] p3] & _ & E). apply obind_Some in E as (n1 & E1 & [= _ <-]). exact (erased_heights _ (with_chain c3 p3 n) _ H E1).
Qed.

Lemma handle_heights fuel : forall b n r v n', heights_ok n -> handle fuel b n = Some (r, v, n') -> heights_ok n'.
Proof.
  induction fuel as [|fuel IH]; intros b n r v n' H E; [discriminate|].
  apply handle_cases in E as [->|(f & alt & bei & isc & orphans & tail & _ & Nz & Ek & _ & E)]; [exact H|]. apply check_height in Ek as [Eh Hb].
  assert (heights_ok (mk_node (n_chain n) (n_pool n) (<[get_block_hash b := bei]> (m_alternative_chains n)) orphans)) as H1
    by (intros id e Ee; cbn [m_alternative_chains] in Ee; apply lookup_insert_Some in Ee as [[_ <-]|[_ Ee]]; [lia|exact (H id e Ee)]).
  destruct E as [->|(_ & [= <-] & discard & r1 & E)]; [exact H1|]. exact (switch_heights _ _ _ _ _ _ IH H1 E).
Qed.

(** *** Switching *)

(** When the blocks [old] are filed as alternative ones over the node [n0], the first of them that changes the main chain wins over it. *)
Definition refile_wins (fuel : nat) (old : list Block) (n0 : node) : Prop := exists before b after n1,
  old = before ++ b :: after /\ refile (handle fuel) before n0 = Some ([], n1) /\ n_chain n1 = n_chain n0 /\ wins b n1.

Lemma refile_ok fuel bs : forall n rest n', heights_ok n -> placed (n_chain n) -> chain_height (m_blocks (n_chain n)) < 2 ^ 32 ->
  refile (handle fuel) bs n = Some (rest, n') -> n_chain n' = n_chain n \/ refile_wins fuel bs n.
Proof.
  induction bs as [|b bs IH]; intros n rest n' H P Sh E; cbn [refile] in E; [injection E as _ <-; auto|]. apply obind_Some in E as ([[r v] n1] & E1 & E).
  pose proof (handle_heights _ _ _ _ _ _ H E1) as H1. destruct (handle_choice n H P Sh _ _ _ _ _ E1) as [C|W]; [|right; exists [], b, bs, n; auto].
  destruct r; cbn [negb] in E; [|injection E as _ <-; auto]. rewrite <- C in P, Sh. destruct (IH n1 rest n' H1 P Sh E) as [C2|(before & x & after & n2 & -> & E2 & C2 & W)].
  - left. congruence.
  - right. exists (b :: before), x, after, n2. split; [reflexivity|]. cbn [refile]. rewrite E1. cbn [obind negb]. split; [exact E2|]. split; [congruence|exact W].
Qed.

Lemma erased_chain es n n' : erased es n = Some n' -> n_chain n' = n_chain n.
Proof. unfold erased. intros ([o a] & _ & [= <-])%obind_Some. reflexivity. Qed.

Lemma take_split {A} (l : list A) done rest k : drop k l = done ++ rest -> (k <= length l)%nat -> take k l ++ done = take (k + length done) l.
Proof.
  intros E L. assert (l = (take k l ++ done) ++ rest) as El by (rewrite <- app_assoc, <- E, take_drop; reflexivity).
  assert (length (take k l ++ done) = k + length done)%nat as Ll by (rewrite length_app, length_take_le by exact L; reflexivity).
  rewrite El at 2. rewrite <- Ll, take_app_length. reflexivity.
Qed.

(** The old blocks win over the branch: the node on which they are filed has the chain and the pool that disconnecting them and
    connecting the branch gave. *)
Definition old_wins (fuel : nat) (split : Z) (alts : list (bytes * BlockEntry)) (n : node) : Prop := exists old c1 p1 c2 p2,
  disconnect_blocks cur par getTTL now received (S (length (m_blocks (n_chain n)))) (chain_height (m_blocks (n_chain n)) - 1) split [] (n_chain n) (n_pool n) = Some (old, c1, p1) /\
  connect (fun e => bl e.2) alts c1 p1 = Some ([], c2, p2) /\ refile_wins fuel old (with_chain c2 p2 n).

Lemma switch_ok fuel id0 front alt discard n r n' : let split := be_height front in
  let c := n_chain n in let alts := (id0, front) :: alt in
  heights_ok n -> placed c -> 1 <= split -> chain_height (m_blocks c) + Z.of_nat (length alts) < 2 ^ 32 ->
  switch_to_alternative_blockchain cur par getTTL cps now received (handle fuel) alts discard n = Some (r, n') ->
  let main := take (Z.to_nat split) (blks c) ++ ((fun e => bl e.2) <$> alts) in
  (if r : bool then split < chain_height (m_blocks c) /\ blks (n_chain n') = main
   else exists k, (Z.to_nat split <= k \/ length (blks c) <= k)%nat /\ blks (n_chain n') = take k (blks c)) \/
  discard = false /\ old_wins fuel split alts n.
Proof.
  intros split c alts Hh Hp H1 Hs E main. unfold alts in E. cbn [switch_to_alternative_blockchain] in E. fold split c alts in E.
  assert (chain_height (m_blocks c) = Z.of_nat (length (blks c))) as Ec by (unfold blks, chain_height; rewrite length_fmap; reflexivity).
  destruct (Z.ltb_spec split (chain_height (m_blocks c))) as [L|L]; cbn [negb] in E;
    [|left; injection E as <- <-; exists (length (blks c)); rewrite firstn_all; split; [right; lia|reflexivity]].
  apply obind_Some in E as ([[d c1] p1] & E1 & E). pose proof E1 as D1. pose proof (disconnect_placed _ _ _ _ _ _ _ _ _ Hp E1) as P1. apply disconnect_blocks_ok in E1 as [E1 Ed]; [|lia..]. rewrite app_nil_r in Ed.
  apply (f_equal (fmap bl)) in E1. rewrite fmap_take in E1. change (blks c1 = take (Z.to_nat split) (blks c)) in E1.
  apply obind_Some in E as ([[rest c2] p2] & E2 & E). pose proof E2 as D2. apply connect_ok in E2 as (done & Ea & E2). rewrite E1 in E2.
  assert (Z.to_nat split <= length (blks c))%nat as Ls by lia.
  assert (length done <= length alts)%nat as Ld by (rewrite Ea, length_app; lia).
  assert (forall c3 p3 x c' p', blks c3 = take (Z.to_nat split) (blks c) ++ ((fun e => bl e.2) <$> done) ->
    rollback_blockchain_switching cur par getTTL cps now received d split c3 p3 = Some (x, c', p') ->
    exists k, (Z.to_nat split <= k \/ length (blks c) <= k)%nat /\ blks c' = take k (blks c)) as Back.
  { intros c3 p3 x c' p' E3 E4. apply rollback_ok in E4 as (dn & rs & Ed' & _ & E4); cycle 1.
    - apply (f_equal length) in E3. unfold blks in E3. rewrite length_app, !length_fmap, length_take_le in E3 by (rewrite length_fmap; unfold blks in Ls; rewrite length_fmap in Ls; lia).
      unfold chain_height. lia.
    - apply (f_equal length) in E3. unfold blks in E3. rewrite length_app, !length_fmap, length_take_le in E3 by (rewrite length_fmap; unfold blks in Ls; rewrite length_fmap in Ls; lia).
      unfold chain_height in *. lia.
    - exists (Z.to_nat split + length dn)%nat. split; [left; lia|]. rewrite E4, E3, take_app_le, take_take, Nat.min_id by (rewrite length_take_le; lia).
      apply (take_split (blks c) dn rs); [rewrite <- Ed; exact Ed'|exact Ls]. }
  destruct rest as [|x rest].
  - rewrite app_nil_r in Ea. subst done. apply obind_Some in E as ([refused n1] & E3 & E).
    assert (blks (n_chain n1) = main \/ discard = false /\ old_wins fuel split alts n) as [E4|E4]; [| |right; exact E4].
    { destruct discard; [injection E3 as _ <-; left; exact E2|].
      assert (chain_height (m_blocks c1) <= chain_height (m_blocks c)) as L1
        by (apply (f_equal length) in E1; unfold blks in E1; rewrite length_take, !length_fmap in E1; unfold chain_height; lia).
      assert (placed c2) as P2 by (eapply (connect_placed _ _ _ _ _ _ _ P1); [|exact D2]; lia).
      assert (chain_height (m_blocks c2) < 2 ^ 32) as S2
        by (apply (f_equal length) in E2; unfold blks in E2; rewrite length_app, length_take, !length_fmap in E2; unfold chain_height in *; lia).
      destruct (refile_ok fuel d (with_chain c2 p2 n) _ _ Hh P2 S2 E3) as [E4|E4].
      - left. rewrite E4. exact E2.
      - right. split; [reflexivity|]. exists d, c1, p1, c2, p2. auto. }
    left. destruct refused as [|y refused].
    + apply obind_Some in E as (n2 & E5 & E). injection E as <- <-. rewrite (erased_chain _ _ _ E5). auto.
    + apply obind_Some in E as ([[x c3] p3] & E5 & E). injection E as <- <-. cbn [with_chain n_chain]. exact (Back _ _ _ _ _ E4 E5).
  - left. apply obind_Some in E as ([[y c3] p3] & E5 & E). apply obind_Some in E as (n1 & E6 & E). injection E as <- <-. rewrite (erased_chain _ _ _ E6).
    cbn [with_chain n_chain]. exact (Back _ _ _ _ _ E2 E5).
Qed.

End Blocks.
