(* ===== verification/BlockSpec.v ===== *)
(** * What the chain guarantees

    The theorems about the state of the main chain: the ledger it represents, the
    round trip of [pushBlock] and [popBlock], what a rejected and an accepted block
    mean, rolling back, the checks of transactions, the vote for an upgrade, the
    search for a common block, checkpoints and hexadecimal strings.  Their
    witnesses run on a chain of two blocks, the second of which spends an output of
    the first. *)

From Stdlib Require Import ZArith Lia List Bool.
From S2P Require Import Prelude Bytes IntUtil Difficulty Currency DepositIndex StringTools Checkpoints BlockIndex TxStore Ledger BlockchainIndices UpgradeDetector TxCheck Blockchain ChainInvariant Rebuild.
From stdpp Require Import gmap gmultiset list.
Import ListNotations.
Open Scope Z_scope.
Open Scope cmon_scope.
Set Default Goal Selector "!".

(** ** A chain to run on *)

(** Mined money can be spent at once. *)
Definition demo_currency : currency :=
  match default_currency with
  | mk_currency a b c d e f g h i j k l m n o p q _ s t u v w x y z a' b' c' =>
      mk_currency a b c d e f g h i j k l m n o p q 0 s t u v w x y z a' b' c'
  end.

#[local] Instance demo_checks : CryptoChecks := {
  ck_key _ := Some true;
  ck_signature _ _ _ := Some true;
  ck_ring_signature _ _ _ _ := Some true;
  ck_key_total _ _ := ex_intro _ true eq_refl
}.

(** Blocks are told apart by their nonces and transactions by their extra fields. *)
#[local] Instance demo_codec : Codec := {
  get_block_hash b := [nonce b];
  get_block_longhash _ := Some (repeat 0 32);
  getObjectHash t := extra t;
  getPrefixHash t := extra t;
  getObjectBinarySize _ := 100;
  getPaymentId _ := None
}.

Definition demo_miner (h : Z) : Transaction := mk_tx 1 h [BaseInput h] [mk_output 100 (KeyOutput [h])] [h] [].
Definition demo_spend : Transaction := mk_tx 1 0 [KeyInput 100 [0] [77]] [mk_output 60 (KeyOutput [9])] [50] [[[1]]].
Definition demo_genesis : Block := mk_block 1 0 10 100 NULL_HASH (demo_miner 0) [].
Definition demo_block : Block := mk_block 2 0 11 101 [10] (demo_miner 1) [[50]].

Definition demo_push (b : Block) (txs : list Transaction) (c : chain) : chain :=
  match pushBlock demo_currency [] false 1000 b txs c with Some (_, _, c) => c | None => empty_chain end.
Definition demo_chain0 : chain := Eval vm_compute in demo_push demo_genesis [] empty_chain.
Definition demo_chain1 : chain := Eval vm_compute in demo_push demo_block [demo_spend] demo_chain0.

Lemma demo_accepts0 : pushBlock demo_currency [] false 1000 demo_genesis [] empty_chain = Some (true, added, demo_chain0).
Proof. vm_compute. reflexivity. Qed.

Lemma demo_accepts1 : pushBlock demo_currency [] false 1000 demo_block [demo_spend] demo_chain0 = Some (true, added, demo_chain1).
Proof. vm_compute. reflexivity. Qed.

Lemma demo_upgrade_ok : upgrade_ok demo_currency.
Proof. intros E. apply (f_equal (Z.eqb 0)) in E. vm_compute in E. discriminate. Qed.

Lemma demo_spend_wf : tx_wf demo_spend.
Proof. split; apply (bool_decide_unpack _); vm_compute; exact Logic.I. Qed.

Lemma demo_wf0 : block_wf demo_genesis [] empty_chain.
Proof.
  split; [reflexivity|apply Z.ltb_lt; reflexivity|constructor|apply Z.ltb_lt; reflexivity|].
  apply (bool_decide_unpack _). vm_compute. exact Logic.I.
Qed.

Lemma demo_wf1 : block_wf demo_block [demo_spend] demo_chain0.
Proof.
  split; [reflexivity|apply Z.ltb_lt; reflexivity|constructor; [exact demo_spend_wf|constructor]|apply Z.ltb_lt; reflexivity|].
  apply (bool_decide_unpack _). vm_compute. exact Logic.I.
Qed.

Lemma demo_run0 : chain_run demo_currency demo_chain0.
Proof.
  eapply (run_block demo_currency [] false 1000 demo_genesis []); [apply run_start|exact demo_wf0|apply Z.ltb_lt; reflexivity|exact demo_accepts0].
Qed.

Lemma demo_run1 : chain_run demo_currency demo_chain1.
Proof.
  eapply (run_block demo_currency [] false 1000 demo_block [demo_spend]); [exact demo_run0|exact demo_wf1|apply Z.ltb_lt; reflexivity|exact demo_accepts1].
Qed.

Lemma validated_reward cur outs h size sizes coins fee reward emission :
  validate_miner_transaction cur outs h size sizes coins fee = Some (Some (reward, emission)) -> 1 < h ->
  fold_left (fun r o => u64 (r + o)) outs 0 = reward.
Proof.
  unfold validate_miner_transaction. intros E L. apply obind_Some in E as ([[r e]|] & _ & E); [|discriminate].
  replace (1 <? h) with true in E by (symmetry; apply Z.ltb_lt, L). cbn [andb] in E.
  destruct (Z.ltb_spec r (fold_left (fun r o => u64 (r + o)) outs 0)), (Z.ltb_spec (fold_left (fun r o => u64 (r + o)) outs 0) r);
    cbn [orb] in E; try discriminate. injection E as <- _. lia.
Qed.

(** ** The main chain *)

Section Spec.
Context {CK : CryptoChecks} {CO : Codec} (cur : currency).

(** C1: in every state that accepted blocks and [popBlock] lead to, the indices are those of the ledger
    of all transactions in the blocks: the map finds every transaction at its place, no key image is
    spent twice and [m_spent_keys] is the set of those spent, the vectors of outputs list the places of
    the key outputs by amount, a multisignature output is marked used exactly when some input of the
    chain spends it, which at most one does, and the index of payment ids holds, with multiplicity, the
    payment id and the hash of every transaction of the ledger that has one. *)
Theorem chain_represents_ledger c : upgrade_ok cur -> chain_run cur c ->
  let l := chain_ledger (m_blocks c) in let st := m_store c in
  (forall h i, m_transactionMap st !! h = Some i <-> exists e, e ∈ l /\ le_hash e = h /\ le_index e = i) /\
  NoDup (spent_images l) /\ m_spent_keys st = list_to_set (spent_images l) /\
  (forall a, vector_of (m_outputs st) a = all_places true a l) /\
  (forall a, place_of <$> vector_of (m_multisignatureOutputs st) a = all_places false a l) /\
  NoDup (spent_refs l) /\
  (forall r u, 0 <= r.2 -> usage (m_multisignatureOutputs st) r = Some u -> (isUsed u = true <-> r ∈ spent_refs l)) /\
  m_paymentIdIndex st = list_to_set_disj (payments getObjectHash getPaymentId l).
Proof.
  intros UO R l st. destruct (built_represents _ _ _ _ (ci_ledger _ _ (chain_run_inv cur c UO R))). auto 10.
Qed.

(** C2: popping the block that was pushed last gives back its transactions and the state of before, in
    every index and counter; only the limit for the size of the next block stays. *)
Theorem pop_undoes_push cps zone now b txs c v c' : upgrade_ok cur -> chain_run cur c -> block_wf b txs c ->
  chain_height (m_blocks c) + 1 < 2 ^ 32 -> pushBlock cur cps zone now b txs c = Some (true, v, c') ->
  popBlock cur (get_block_hash b) c' = Some (txs, restored c c').
Proof.
  intros UO R W Sh E. exact (proj1 (proj2 (accepted_block cur cps zone now UO b txs c v c' (chain_run_inv cur c UO R) W Sh E))).
Qed.

(** C6: a rejected block leaves the chain as it was in every part, unless it was rejected for its size:
    then only the transaction indices may differ. *)
Theorem rejected_block_unchanged cps zone now b txs c v c' : upgrade_ok cur -> chain_run cur c -> block_wf b txs c ->
  pushBlock cur cps zone now b txs c = Some (false, v, c') ->
  c' = c \/ checkCumulativeBlockSize cur (block_size b txs) (chain_height (m_blocks c)) = Some false /\ exists st, c' = with_store st c.
Proof. intros UO R W E. exact (rejected_unchanged cur cps zone now b txs c v c' (chain_run_inv cur c UO R) W E). Qed.

(** C4: an accepted block is new, refers to the tail of the chain, has the version of its height, a
    timestamp that is neither too far in the future nor below the median, and the hash of its checkpoint
    or enough work for the difficulty; its miner transaction pays exactly the reward from the third block
    on, and its size is within the limit.  The coins in circulation grow by the emission and the interest. *)
Theorem accepted_block_rules cps zone now b txs c v c' : upgrade_ok cur -> chain_run cur c -> block_wf b txs c ->
  pushBlock cur cps zone now b txs c = Some (true, v, c') ->
  get_block_hash b ∉ m_blockIndex c /\ Some (previousBlockHash b) = getTailId c /\ checkBlockVersion cur c b = true /\
  check_block_timestamp_main cur now c b = true /\
  (exists d, getDifficultyForNextBlock cur c = Some d /\ d <> 0 /\
    (if is_in_checkpoint_zone (getCurrentBlockchainHeight (m_blocks c)) cps
     then fst (check_block (getCurrentBlockchainHeight (m_blocks c)) (get_block_hash b) cps) else checkProofOfWork b d) = true) /\
  inputs (baseTransaction b) = [BaseInput (chain_height (m_blocks c))] /\
  checkCumulativeBlockSize cur (block_size b txs) (chain_height (m_blocks c)) = Some true /\
  (exists fee reward emission interest, fees cur txs 0 = Some fee /\ interest_sum cur txs 0 = Some interest /\
    validate_miner_transaction cur (out_amount <$> outputs (baseTransaction b)) (u32 (chain_height (m_blocks c))) (block_size b txs)
      (get_last_n_blocks_sizes c (m_rewardBlocksWindow cur)) (getCoinsInCirculation c) fee = Some (Some (reward, emission)) /\
    (1 < chain_height (m_blocks c) -> fold_left (fun r o => u64 (r + o)) (out_amount <$> outputs (baseTransaction b)) 0 = reward) /\
    getCoinsInCirculation c' = u64 (u64 (getCoinsInCirculation c + u64 emission) + interest)).
Proof.
  intros UO R W E. pose proof (chain_run_inv cur c UO R) as I. pose proof (push_ends cur cps zone now b txs c true v c' I W E) as P.
  inversion P as [| | |d e st size fee interest reward emission c1 deposits voting Sz Ef Ei H J Es Ev Hc Hd Hv]; subst.
  pose proof (header_ok cur cps now b c d H) as (Nh & Cv & Tl & Ts & Ed & Nd & Pw & _). do 4 (split; [assumption|]).
  split; [eauto|]. split; [exact (header_index cur cps now b c d I H)|].
  split; [exact Es|]. exists fee, reward, emission, interest. split; [exact Ef|]. split; [exact Ei|]. split; [exact Ev|].
  split; [intros L; pose proof (ci_short cur c I); rewrite u32_small in Ev by lia; exact (validated_reward _ _ _ _ _ _ _ _ _ Ev L)|].
  unfold getCoinsInCirculation at 1. cbn [m_blocks].
  rewrite (proj1 (push_entry_frame _ _ _ Hc)). cbn [with_store m_blocks]. rewrite last_snoc. reflexivity.
Qed.

(** C26: from every reachable chain the blocks can be disconnected down to any height but the first: the
    loop ends, no assertion fails and nothing is thrown, the disconnected blocks come back in order, and
    what is left is the prefix of the chain, with its invariant. *)
Theorem rollback_to_height c split : upgrade_ok cur -> chain_run cur c -> 1 <= split <= chain_height (m_blocks c) ->
  exists c', disconnect cur (S (length (m_blocks c))) (chain_height (m_blocks c) - 1) split [] c =
      Some (bl <$> drop (Z.to_nat split) (m_blocks c), c') /\
    chain_inv cur c' /\ m_blocks c' = take (Z.to_nat split) (m_blocks c).
Proof.
  intros UO R H. destruct (disconnect_ok cur UO (Z.to_nat (chain_height (m_blocks c) - split)) c (S (length (m_blocks c))) [] split)
    as (c' & E & I' & E'); [exact (chain_run_inv cur c UO R)|lia|lia|unfold chain_height; lia|].
  exists c'. rewrite E, app_nil_r. auto.
Qed.

(** The other indices of a reachable chain: a search by timestamps finds the blocks of the interval in
    the order of their timestamps, the number of transactions at a height is that of the blocks up
    to it, and the deposits and the interest at a height are the sums over the blocks up to it. *)
Theorem secondary_indices_exact c : upgrade_ok cur -> chain_run cur c ->
  (forall b e limit, b <= e -> exists index, index ≡ₚ stamps (m_blocks c) /\ ts_ok index /\
    ts_find b e limit (m_timestampIndex c) =
      Some (snd <$> take (Z.to_nat limit) (filter (fun p => b <= p.1 <= e) index),
            u32 (Z.of_nat (length (filter (fun p => b <= p.1 <= e) (stamps (m_blocks c))))),
            negb (Nat.eqb (length (take (Z.to_nat limit) (filter (fun p => b <= p.1 <= e) index))) 0))) /\
  (forall h, 0 <= h < chain_height (m_blocks c) -> gen_find h (m_generatedTransactionsIndex c) =
    Some (sumZ ((fun e => Z.of_nat (length (transactions e))) <$> take (S (Z.to_nat h)) (m_blocks c)))) /\
  (forall h, 0 <= h ->
    depositAmountAtHeight (m_depositIndex c) h = amounts (deposit_log cur (take (Z.to_nat (h + 1)) (m_blocks c))) /\
    depositInterestAtHeight (m_depositIndex c) h = interests (deposit_log cur (take (Z.to_nat (h + 1)) (m_blocks c)))).
Proof.
  intros UO R. pose proof (chain_run_inv cur c UO R) as I. split; [|split].
  - intros b e limit H. exists (m_timestampIndex c). split; [exact (ci_stamps cur c I)|]. split; [exact (ci_times cur c I)|].
    rewrite ts_find_ok by (exact (ci_times cur c I) || exact H). do 3 f_equal. f_equal. f_equal.
    apply Permutation_length, filter_Permutation, (ci_stamps cur c I).
  - intros h H. unfold gen_find. rewrite (cnt_index _ _ (ci_counts cur c I)), length_fmap, decide_True by exact H. rewrite <- fmap_take.
    do 2 f_equal. apply list_fmap_ext. intros i e E. apply lookup_take_Some in E as [E _].
    unfold tx_count. rewrite (ea_length _ _ (ci_entries cur c I i e E)). lia.
  - intros h H. rewrite (amountAtHeight_ok _ _ h (ci_deposits cur c I) H), (interestAtHeight_ok _ _ h (ci_deposits cur c I) H).
    unfold deposit_log. rewrite fmap_take. auto.
Qed.
(** *** Blocks rejected for their size *)







End Spec.

(** *** Witnesses *)

Lemma chain_represents_witness : m_spent_keys (m_store demo_chain1) = list_to_set [[77]] /\ spent_images (chain_ledger (m_blocks demo_chain1)) = [[77]].
Proof.
  destruct (chain_represents_ledger demo_currency demo_chain1 demo_upgrade_ok demo_run1) as (_ & _ & E & _).
  split; [exact E|reflexivity].
Defined.

Lemma pop_undoes_push_witness : popBlock demo_currency [11] demo_chain1 = Some ([demo_spend], restored demo_chain0 demo_chain1).
Proof.
  apply (pop_undoes_push demo_currency [] false 1000 demo_block [demo_spend] demo_chain0 added demo_chain1 demo_upgrade_ok demo_run0 demo_wf1);
    [apply Z.ltb_lt; reflexivity|exact demo_accepts1].
Defined.

(** A third block that spends the output of the first again. *)
Definition demo_respend : Transaction := mk_tx 1 0 [KeyInput 100 [0] [77]] [mk_output 60 (KeyOutput [9])] [51] [[[1]]].
Definition demo_bad : Block := mk_block 2 0 12 102 [11] (demo_miner 2) [[51]].

Lemma demo_wf2 : block_wf demo_bad [demo_respend] demo_chain1.
Proof.
  split; [reflexivity|apply Z.ltb_lt; reflexivity|constructor; [|constructor]|apply Z.ltb_lt; reflexivity|].
  - split; apply (bool_decide_unpack _); vm_compute; exact Logic.I.
  - apply (bool_decide_unpack _). vm_compute. exact Logic.I.
Qed.

Lemma rejected_block_witness : exists c', pushBlock demo_currency [] false 1000 demo_bad [demo_respend] demo_chain1 = Some (false, failed, c') /\ c' = demo_chain1.
Proof.
  exists demo_chain1. assert (pushBlock demo_currency [] false 1000 demo_bad [demo_respend] demo_chain1 = Some (false, failed, demo_chain1)) as E
    by (vm_compute; reflexivity).
  split; [exact E|].
  destruct (rejected_block_unchanged demo_currency [] false 1000 demo_bad [demo_respend] demo_chain1 failed demo_chain1 demo_upgrade_ok demo_run1 demo_wf2 E)
    as [_|[X _]]; [reflexivity|vm_compute in X; discriminate].
Defined.

(** The third block, the first one whose reward is looked at. *)
Definition demo_third : Block := mk_block 2 0 12 102 [11] (mk_tx 1 2 [BaseInput 2] [mk_output 20000000000 (KeyOutput [2])] [2] []) [].
Definition demo_chain2 : chain := Eval vm_compute in demo_push demo_third [] demo_chain1.

Lemma demo_accepts2 : pushBlock demo_currency [] false 1000 demo_third [] demo_chain1 = Some (true, added, demo_chain2).
Proof. vm_compute. reflexivity. Qed.

Lemma demo_wf3 : block_wf demo_third [] demo_chain1.
Proof.
  split; [reflexivity|apply Z.ltb_lt; reflexivity|constructor|apply Z.ltb_lt; reflexivity|]. apply (bool_decide_unpack _). vm_compute. exact Logic.I.
Qed.

Lemma accepted_block_witness : Some (previousBlockHash demo_third) = getTailId demo_chain1 /\ exists reward emission,
  validate_miner_transaction demo_currency [20000000000] 2 (block_size demo_third []) (get_last_n_blocks_sizes demo_chain1 (m_rewardBlocksWindow demo_currency))
    (getCoinsInCirculation demo_chain1) 0 = Some (Some (reward, emission)) /\ reward = 20000000000.
Proof.
  destruct (accepted_block_rules demo_currency [] false 1000 demo_third [] demo_chain1 added demo_chain2 demo_upgrade_ok demo_run1 demo_wf3 demo_accepts2)
    as (_ & T & _ & _ & _ & _ & _ & fee & reward & emission & interest & [= <-] & _ & V & P & _).
  split; [exact T|]. exists reward, emission. split; [exact V|]. symmetry. apply P, Z.ltb_lt. reflexivity.
Defined.

Lemma rollback_witness : exists c', disconnect demo_currency 3 1 1 [] demo_chain1 = Some ([demo_block], c') /\ m_blocks c' = take 1 (m_blocks demo_chain1).
Proof.
  destruct (rollback_to_height demo_currency demo_chain1 1 demo_upgrade_ok demo_run1) as (c' & E & _ & B); [split; apply Z.leb_le; reflexivity|].
  exists c'. split; [exact E|exact B].
Defined.

Lemma secondary_indices_witness : gen_find 1 (m_generatedTransactionsIndex demo_chain1) = Some 3.
Proof.
  destruct (secondary_indices_exact demo_currency demo_chain1 demo_upgrade_ok demo_run1) as (_ & G & _). apply (G 1). split; [lia|apply Z.ltb_lt; reflexivity].
Defined.

(** *** A block rejected for its size *)






(** ** Transactions *)

(** C28: [check_tx_semantic] returns on every transaction whose deposit inputs have terms of deposits, and
    accepts exactly those with inputs, of supported types, with valid outputs, whose outputs do not
    exceed the inputs with their interest as sums of integers, and which use no key image and no
    multisignature output twice.  On a transaction that passes the checks before the amounts and has an
    input with another term, it does not return: the interest is asked for before the term is checked. *)
Theorem check_tx_semantic_exact {CK : CryptoChecks} cur t : rate_ok cur ->
  (tx_typed cur t -> exists b, check_tx_semantic cur t = Some b /\ (b = true <-> semantic cur t)) /\
  (Exists (bad_term cur) (inputs t) -> check_inputs_types_supported t = true -> check_outs_valid true t = Some true ->
   check_money_overflow t = Some true -> check_tx_semantic cur t = None).
Proof.
  intros R. split; [apply check_tx_semantic_ok, R|]. intros B T O M. unfold check_tx_semantic. rewrite T, O. cbn [obind negb].
  rewrite M, (bad_term_amount cur _ B). destruct (inputs t); [inversion B|reflexivity].
Qed.

Definition demo_deposit : Transaction :=
  mk_tx 2 0 [KeyInput 100 [0] [77]; MultisignatureInput 1000 0 0 22000] [mk_output 1090 (KeyOutput (repeat 0 32))] [] [].

Lemma demo_deposit_typed : tx_typed default_currency demo_deposit.
Proof.
  split.
  - constructor; [split; lia|]. constructor; [|constructor]. split; [split; lia|]. split; [lia|]. right. split; apply Z.leb_le; reflexivity.
  - constructor; [split; apply Z.leb_le || apply Z.ltb_lt; reflexivity|constructor].
  - constructor; [|constructor]. constructor; [|constructor]. split; [|reflexivity]. cbv [repeat]. repeat constructor; lia.
Qed.

Lemma check_tx_semantic_witness : semantic default_currency demo_deposit.
Proof.
  destruct (check_tx_semantic_exact default_currency demo_deposit default_rate_ok) as [A _].
  destruct (A demo_deposit_typed) as (b & E & S). apply S. assert (check_tx_semantic default_currency demo_deposit = Some true) as V by (vm_compute; reflexivity).
  congruence.
Defined.

(** ** The vote for an upgrade *)

(** C29: through every sequence of blocks pushed with the version of their height and blocks popped, the
    detector knows the first height at which the vote is complete, or that there is none; the blocks
    above the upgrade have the new version and the others the old one; and no assertion of the detector
    fails on the next block, nor on popping the last. *)
Theorem detector_exact cur chain v : voting_ok cur -> detector_run cur chain v -> chain_height chain < 2 ^ 62 ->
  first_complete cur chain v /\ versions_ok cur chain v /\
  (forall e, majorVersion (bl e) = get_block_major_version_for_height cur BLOCK_MAJOR_VERSION_2 v (chain_height chain) ->
    exists v', blockPushed cur BLOCK_MAJOR_VERSION_2 (chain ++ [e]) v = Some v') /\
  (forall bs e, chain = bs ++ [e] -> exists v', blockPopped cur bs v = Some v').
Proof.
  intros V R L. destruct (detector_run_inv cur V chain v R) as [F O _]. split; [exact F|]. split; [exact O|]. split.
  - intros e M. destruct (blockPushed_ok cur V chain v e F L M) as (v' & E & _). eauto.
  - intros bs e ->. rewrite chain_height_snoc in L. destruct (blockPopped_ok cur V bs v e F ltac:(lia)) as (v' & E & _). eauto.
Qed.

Lemma detector_witness : first_complete small_voting upgraded_chain 1.
Proof. apply (detector_exact small_voting upgraded_chain 1 small_voting_ok upgraded_run). apply Z.ltb_lt. reflexivity. Defined.

(** Started on a chain that ends before the upgrade, the detector finds the height that the one which
    saw every block has kept; on a chain that went through the upgrade it can fail to find it, because it
    takes the height of the first block of the new version for the upgrade height, which is one less. *)
Theorem init_recovers_vote cur chain v e x : voting_ok cur -> detector_run cur (chain ++ [e]) v ->
  (majorVersion (bl e) = BLOCK_MAJOR_VERSION_1 -> init cur BLOCK_MAJOR_VERSION_2 (chain ++ [e]) x = Some (true, v)) /\
  (detector_run small_voting upgraded_chain 1 /\ init small_voting BLOCK_MAJOR_VERSION_2 upgraded_chain UNDEF_HEIGHT = Some (false, UNDEF_HEIGHT)).
Proof.
  intros V R. split; [|split; [exact upgraded_run|exact init_misses_upgrade]].
  intros M. apply init_before_upgrade; [exact V|exact (detector_run_inv cur V _ _ R)|exact M].
Qed.

(** The chain one block before. *)
Lemma upgrading_run : detector_run small_voting (take 3 upgraded_chain ++ [versioned 1 0]) 1.
Proof. eapply (run_pop small_voting _ 1 (versioned 2 0)); [exact upgraded_run|reflexivity]. Qed.

Lemma init_witness : init small_voting BLOCK_MAJOR_VERSION_2 (take 4 upgraded_chain) UNDEF_HEIGHT = Some (true, 1).
Proof. exact (proj1 (init_recovers_vote small_voting (take 3 upgraded_chain) 1 (versioned 1 0) UNDEF_HEIGHT small_voting_ok upgrading_run) eq_refl). Defined.

(** ** Synchronisation *)

(** The sparse chain of one node leads the other to a block that both have, at most as far below the
    last common block as that is below the block it was built for; the sparse chain has at most
    logarithmically many hashes and ends at the genesis block. *)
Theorem sync_finds_common_block c1 c2 m h n : chain_ok c1 -> chain_ok c2 -> forked m c1 c2 -> c1 !! n = Some h -> (m <= S n)%nat ->
  Z.of_nat n + 1 < 2 ^ 32 ->
  exists r off, bi_buildSparseChain h c1 = Some r /\ head r = Some h /\ last r = c1 !! O /\
    Z.of_nat (length r) <= Z.log2 (Z.of_nat n + 1) + 2 /\
    findSupplement r c2 = Some off /\ near_fork m (Z.of_nat n + 1) off /\ c1 !! Z.to_nat off = c2 !! Z.to_nat off.
Proof.
  intros K1 K2 F E Hm Hn. destruct (supplement_near_fork c1 c2 m h n K1 K2 F E Hm Hn) as (r & off & Er & Es & Nf & Sm).
  destruct (buildSparseChain_ok c1 h n K1 E Hn) as (r' & Er' & Hd & La & _ & Lg & _). rewrite Er in Er'. injection Er' as <-. exists r, off. auto 10.
Qed.

Lemma sync_witness : exists r, bi_buildSparseChain [5] [[0]; [1]; [2]; [3]; [4]; [5]] = Some r /\ findSupplement r [[0]; [1]; [2]; [8]] = Some 2.
Proof.
  destruct (sync_finds_common_block [[0]; [1]; [2]; [3]; [4]; [5]] [[0]; [1]; [2]; [8]] 3 [5] 5) as (r & off & Er & _ & _ & _ & Es & _).
  - split; [apply (bool_decide_unpack _); vm_compute; exact Logic.I|apply Z.ltb_lt; reflexivity].
  - split; [apply (bool_decide_unpack _); vm_compute; exact Logic.I|apply Z.ltb_lt; reflexivity].
  - split; [cbn; lia| |].
    + intros i Hi. do 3 (destruct i as [|i]; [reflexivity|]). lia.
    + intros i x Hi Ex. do 3 (destruct i as [|i]; [lia|]). do 3 (destruct i as [|i]; [injection Ex as <-; apply (bool_decide_unpack _); vm_compute; exact Logic.I|]). destruct i; discriminate.
  - reflexivity.
  - lia.
  - apply Z.ltb_lt. reflexivity.
  - exists r. split; [exact Er|]. vm_compute in Er. injection Er as <-. vm_compute. reflexivity.
Defined.

(** ** Checkpoints *)

(** Adding a checkpoint keeps the points in order, succeeds exactly on 64 hexadecimal digits for a
    height that has none, and then changes that height only; a block passes [check_block] when its height
    has no checkpoint or its hash is the one there; an alternative block is allowed when it is not the
    first and lies above every checkpoint that the chain has reached; and the zone ends at the last one. *)
Theorem checkpoints_exact height s m chain block h : ordered m ->
  (let '(r, m') := add_checkpoint height s m in ordered m' /\
    (r = true <-> exists h, podFromHex 32 s = Some h /\ ~ In height (keys m)) /\
    (forall k, points_find k m' = if r && (k =? height) then podFromHex 32 s else points_find k m)) /\
  (fst (check_block height h m) = true <-> points_find height m = None \/ points_find height m = Some h) /\
  (is_alternative_block_allowed chain block m = true <-> block <> 0 /\ (forall k, In k (keys m) -> k <= chain -> k < block)) /\
  (is_in_checkpoint_zone height m = true <-> exists k, In k (keys m) /\ height <= k).
Proof.
  intros O. split; [apply add_checkpoint_ok, O|]. split; [|split; [apply alternative_allowed_iff, O|apply checkpoint_zone_iff, O]].
  unfold check_block. destruct (points_find height m) as [h'|]; cbn [fst]; [|tauto]. destruct (List.list_eq_dec BinInt.Z.eq_dec h' h) as [->|N]; [split; auto|].
  split; [discriminate|]. intros [|[=]]; [discriminate|contradiction].
Qed.

Lemma checkpoints_witness : is_alternative_block_allowed 25 15 [(10, [1]); (20, [2]); (30, [3])] = false /\
  is_alternative_block_allowed 25 21 [(10, [1]); (20, [2]); (30, [3])] = true.
Proof.
  assert (ordered [(10, [1]); (20, [2]); (30, [3])]) as O by (repeat constructor).
  pose proof (fun b => proj1 (proj2 (proj2 (checkpoints_exact 0 [] _ 25 b [] O)))) as A. split.
  - apply not_true_iff_false. intros E. apply A in E as [_ E]. specialize (E 20 ltac:(cbn; tauto) ltac:(lia)). lia.
  - apply A. split; [lia|]. cbn. intros k [<-|[<-|[<-|[]]]]; lia.
Defined.

(** ** Hexadecimal strings *)

(** [podFromHex] reads back what [toHex] writes of an object of its size, and accepts a string of
    characters exactly when it has two hexadecimal digits for every byte. *)
Theorem hex_roundtrip n : (forall data, Forall byte data -> length data = n -> podFromHex n (toHex data) = Some data) /\
  (forall text, Forall byte text -> ((exists data, podFromHex n text = Some data) <-> length text = (2 * n)%nat /\ Forall hex_digit text)).
Proof. split; [apply podFromHex_toHex|apply podFromHex_accepts]. Qed.
