(* ===== verification/FormatSpec.v ===== *)
(** * What the binary form guarantees

    The theorems about the serialization of transactions and blocks, the hashes made
    from it, and the extra field.  The witnesses run on blocks of the real format
    with the real fast hash. *)

From Stdlib Require Import ZArith Lia List Bool.
From S2P Require Import Prelude Bytes Varint Crypto TreeHash IntUtil Currency StringTools DepositIndex BlockIndex TxStore Ledger BlockchainIndices UpgradeDetector TxCheck Blockchain Serialization BlockFormat Binding TransactionExtra ChainInvariant Rebuild Commit BlockSpec.
From stdpp Require Import gmap gmultiset list.
Import ListNotations.
Open Scope Z_scope.
Open Scope cmon_scope.
Set Default Goal Selector "!".

(** C19: the binary form of transactions and of blocks: every object with a form is written and read back, and every byte array that is
    read whole gives an object that is written as that array: objects and their arrays correspond one
    to one. A transaction without vectors of signatures is written like the one with empty vectors. *)
Theorem binary_form_exact :
  (forall t, tx_format t -> exists ba, toBinaryArray serialize_Transaction t = Some ba /\ Forall byte ba /\ fromBinaryArray serialize_Transaction ba = Some t) /\
  (forall ba t, Forall byte ba -> fromBinaryArray serialize_Transaction ba = Some t -> tx_format t /\ toBinaryArray serialize_Transaction t = Some ba) /\
  (forall b, block_format b -> exists ba, toBinaryArray serialize_Block b = Some ba /\ Forall byte ba /\ fromBinaryArray serialize_Block ba = Some b) /\
  (forall ba b, Forall byte ba -> fromBinaryArray serialize_Block ba = Some b -> block_format b /\ toBinaryArray serialize_Block b = Some ba) /\
  (forall t, Forall (fun i => getSignaturesCount i = 0%nat) (inputs t) -> signatures t = [] ->
    toBinaryArray serialize_Transaction t =
    toBinaryArray serialize_Transaction (mk_tx (version t) (unlockTime t) (inputs t) (outputs t) (extra t) (repeat [] (length (inputs t))))).
Proof.
  destruct (byte_array_exact _ _ transaction_law) as [T1 T2], (byte_array_exact _ _ block_law) as [B1 B2]. do 4 (split; [assumption|]).
  intros t F E. rewrite <- (unsigned_form t F). destruct t. cbn in E. subst. reflexivity.
Qed.

(** A block hash commits to the block: two blocks with the same hash are equal, or two different strings among those hashed for them have the same
    fast hash; the hash of a block that has a binary form is defined and has 32 bytes. *)
Theorem block_hash_commits {FH : FastHash} b b' : short_block b -> short_block b' ->
  (exists h, block_hash b = Some h /\ bytes_n 32 h) /\ (block_hash b = block_hash b' -> b = b' \/ collision_in (block_preimages b) (block_preimages b')).
Proof.
  intros S S'. split; [|apply block_hash_binding; assumption]. destruct (block_hash_of b S) as (_ & _ & h & _ & _ & _ & _ & E & B). eauto.
Qed.

(** C5: the hash of the last block commits to the chain: two reachable chains over the binary form with the same tail have the same blocks
    and transactions at every height, or the fast hash collides on the strings that were hashed for them: a string of the one
    chain (a transaction, a node of the tree of a block, the blob of a block) and a different one of the other have the same hash. *)
Theorem tail_hash_commits {FH : FastHash} {CK : CryptoChecks} cn_slow_hash cur c c' : let CO := binary_codec cn_slow_hash in
  upgrade_ok cur -> chain_run cur c -> chain_run cur c' -> wired cn_slow_hash c -> wired cn_slow_hash c' -> m_blocks c <> [] -> m_blocks c' <> [] ->
  getTailId c = getTailId c' ->
  Forall2 (fun e e' => bl e = bl e' /\ tx <$> transactions e = tx <$> transactions e') (m_blocks c) (m_blocks c') \/
  collision_in (chain_preimages c) (chain_preimages c').
Proof.
  intros CO UO R R' W W' N N' T. exact (tail_commits cn_slow_hash cur c c' (chain_run_inv cur c UO R) (chain_run_inv cur c' UO R') W W' N N' T).
Qed.

(** The parser of the extra field returns on every byte string; fields written by [writeTransactionExtra], with padding only at the
    end, are parsed back; and the payment id of [createTxExtraWithPaymentId] is found again. *)
Theorem extra_roundtrip :
  (forall extra, Forall byte extra -> exists r fields, parseTransactionExtra extra = Some (r, fields)) /\
  (forall fields, Forall field_ok fields -> padding_last fields -> exists ba, writeTransactionExtra [] fields = (true, ba) /\ parseTransactionExtra ba = Some (true, fields)) /\
  (forall text id, Forall byte id -> podFromHex 32 text = Some id ->
    exists extra, createTxExtraWithPaymentId text [] = (true, extra) /\ getPaymentIdFromTxExtra extra = Some (Some id)).
Proof.
  split; [exact parse_total|]. split.
  - intros fields F P. destruct (write_parse fields F P) as (ba & W & _ & G). exists ba. split; [exact (W [])|]. exact (G _ [] (le_n _)).
  - intros text id F E. assert (length id = 32%nat) as L.
    { unfold podFromHex in E. apply obind_Some in E as (data & _ & E). destruct (Nat.eqb_spec (length data) 32); [|discriminate]. injection E as <-. assumption. }
    destruct (payment_id_roundtrip id (conj F L)) as [W G]. eexists. unfold createTxExtraWithPaymentId. rewrite E. split; [exact W|exact G].
Qed.

(** ** Blocks to run on *)

#[local] Existing Instance demo_checks.
#[local] Instance wire_codec : Codec := binary_codec (fun _ => repeat 0 32).

Definition wire_miner (h : Z) : Transaction := mk_tx 1 h [BaseInput h] [mk_output 100 (KeyOutput (repeat h 32))] [] [[]].
Definition wire_spend : Transaction := mk_tx 1 0 [KeyInput 100 [0] (repeat 77 32)] [mk_output 60 (KeyOutput (repeat 9 32))] [] [[repeat 1 64]].
Definition wire_genesis : Block := mk_block 1 0 10 100 NULL_HASH (wire_miner 0) [].
Definition wire_hash0 : bytes := Eval vm_compute in get_block_hash wire_genesis.
Definition wire_spend_hash : bytes := Eval vm_compute in getObjectHash wire_spend.
Definition wire_block : Block := mk_block 2 0 11 101 wire_hash0 (wire_miner 1) [wire_spend_hash].

Definition wire_push (b : Block) (txs : list Transaction) (c : chain) : chain :=
  match pushBlock demo_currency [] false 1000 b txs c with Some (_, _, c) => c | None => empty_chain end.
Definition wire_chain0 : chain := Eval vm_compute in wire_push wire_genesis [] empty_chain.
Definition wire_chain1 : chain := Eval vm_compute in wire_push wire_block [wire_spend] wire_chain0.

Lemma wire_accepts0 : pushBlock demo_currency [] false 1000 wire_genesis [] empty_chain = Some (true, added, wire_chain0).
Proof. vm_compute. reflexivity. Qed.

Lemma wire_accepts1 : pushBlock demo_currency [] false 1000 wire_block [wire_spend] wire_chain0 = Some (true, added, wire_chain1).
Proof. vm_compute. reflexivity. Qed.

(** *** They have a binary form *)

Ltac format_goal := repeat (first [progress cbn [wire_miner wire_spend wire_genesis wire_block transactionHashes input_format target_format inputs outputs signatures extra version unlockTime out_amount target getSignaturesCount length Z.to_nat Pos.to_nat]
  | match goal with
    | |- output_format _ => split
    | |- signatures_format _ _ => unfold signatures_format
    | |- bytes_n _ _ => split; [apply bytesb_ok; reflexivity|reflexivity]
    | |- sized _ _ => split; [|apply Z.leb_le; reflexivity]
    | |- Forall byte _ => apply bytesb_ok; reflexivity
    | |- Forall _ [] => constructor
    | |- Forall _ (_ :: _) => constructor
    | |- Forall2 _ [] [] => constructor
    | |- Forall2 _ (_ :: _) (_ :: _) => constructor
    | |- _ /\ _ => split
    | |- _ = _ => reflexivity
    | |- _ <= _ => apply Z.leb_le; reflexivity
    | |- _ < _ => apply Z.ltb_lt; reflexivity
    end]).

Lemma wire_miner_format : forall h, h = 0 \/ h = 1 -> tx_format (wire_miner h).
Proof. intros h [->| ->]; (split; [split|]); format_goal. Qed.

Lemma wire_spend_format : tx_format wire_spend.
Proof. split; [split|]; format_goal. Qed.

Lemma wire_short_tx t : t ∈ [wire_miner 0; wire_miner 1; wire_spend] -> short_tx t.
Proof.
  intros H. repeat (apply elem_of_cons in H as [->|H]; [split; [first [apply wire_miner_format; auto|exact wire_spend_format]|apply Z.ltb_lt; vm_compute; reflexivity]|]). apply not_elem_of_nil in H as [].
Qed.

Lemma wire_short_block b : b ∈ [wire_genesis; wire_block] -> short_block b.
Proof.
  intros H. repeat (apply elem_of_cons in H as [->|H]; [split; [split; [split; format_goal|split; [apply wire_miner_format; auto|format_goal]]|apply Z.ltb_lt; vm_compute; reflexivity]|]).
  apply not_elem_of_nil in H as [].
Qed.

Lemma wire_wf0 : block_wf wire_genesis [] empty_chain.
Proof.
  split; [reflexivity|apply Z.ltb_lt; reflexivity|constructor|apply Z.ltb_lt; reflexivity|]. apply (bool_decide_unpack _). vm_compute. exact Logic.I.
Qed.

Lemma wire_wf1 : block_wf wire_block [wire_spend] wire_chain0.
Proof.
  split; [reflexivity|apply Z.ltb_lt; reflexivity|constructor; [split; apply (bool_decide_unpack _); vm_compute; exact Logic.I|constructor]|apply Z.ltb_lt; reflexivity|].
  apply (bool_decide_unpack _). vm_compute. exact Logic.I.
Qed.

Lemma wire_run1 : chain_run demo_currency wire_chain1.
Proof.
  eapply (run_block demo_currency [] false 1000 wire_block [wire_spend]); [|exact wire_wf1|apply Z.ltb_lt; reflexivity|exact wire_accepts1].
  eapply (run_block demo_currency [] false 1000 wire_genesis []); [apply run_start|exact wire_wf0|apply Z.ltb_lt; reflexivity|exact wire_accepts0].
Qed.

Lemma wire_wired : wired (fun _ => repeat 0 32) wire_chain1.
Proof.
  constructor; [|constructor; [|constructor]].
  - split; [change (short_block wire_genesis); apply wire_short_block; set_solver|]. split; [reflexivity|]. constructor; [change (short_tx (wire_miner 0)); apply wire_short_tx; set_solver|constructor].
  - split; [change (short_block wire_block); apply wire_short_block; set_solver|]. split; [vm_compute; reflexivity|].
    constructor; [change (short_tx (wire_miner 1)); apply wire_short_tx; set_solver|]. constructor; [change (short_tx wire_spend); apply wire_short_tx; set_solver|constructor].
Qed.

Lemma block_hash_witness : (exists h, block_hash wire_block = Some h /\ bytes_n 32 h) /\ (block_hash wire_genesis <> block_hash wire_block).
Proof.
  destruct (block_hash_commits wire_block wire_genesis (wire_short_block wire_block ltac:(set_solver)) (wire_short_block wire_genesis ltac:(set_solver))) as [H _].
  split; [exact H|]. vm_compute. discriminate.
Defined.

(** The strings hashed for the chain have different hashes. *)
Lemma wire_no_collision : ~ collision_in (chain_preimages wire_chain1) (chain_preimages wire_chain1).
Proof. apply distinct_hashes, (bool_decide_unpack _). vm_compute. exact Logic.I. Qed.

Lemma tail_hash_witness : length (chain_preimages wire_chain1) = 8%nat /\
  Forall2 (fun e e' => bl e = bl e' /\ tx <$> transactions e = tx <$> transactions e') (m_blocks wire_chain1) (m_blocks wire_chain1).
Proof.
  split; [vm_compute; reflexivity|].
  destruct (tail_hash_commits (fun _ => repeat 0 32) demo_currency wire_chain1 wire_chain1 demo_upgrade_ok wire_run1 wire_run1 wire_wired wire_wired) as [H|C];
    [discriminate|discriminate|reflexivity|exact H|destruct (wire_no_collision C)].
Defined.

Lemma binary_form_witness : exists ba, toBinaryArray serialize_Block wire_block = Some ba /\ fromBinaryArray serialize_Block ba = Some wire_block /\ length ba = 113%nat.
Proof.
  destruct binary_form_exact as (_ & _ & B & _). destruct (B wire_block (proj1 (wire_short_block wire_block ltac:(set_solver)))) as (ba & E & _ & G).
  exists ba. split; [exact E|]. split; [exact G|]. vm_compute in E. injection E as <-. reflexivity.
Defined.

Definition demo_fields : list TransactionExtraField := [TransactionExtraPublicKey (repeat 5 32); TransactionExtraTTL 300; tx_extra_message [1; 2; 3]; TransactionExtraPadding 4].

Lemma extra_witness : exists ba, writeTransactionExtra [] demo_fields = (true, ba) /\ parseTransactionExtra ba = Some (true, demo_fields) /\ length ba = 46%nat.
Proof.
  destruct extra_roundtrip as (_ & W & _). destruct (W demo_fields) as (ba & E & G).
  - constructor; [split; [apply bytesb_ok; reflexivity|reflexivity]|]. constructor; [split; [apply Z.leb_le|apply Z.ltb_lt]; reflexivity|].
    constructor; [split; [apply bytesb_ok; reflexivity|apply Z.leb_le; reflexivity]|]. constructor; [split; apply Z.leb_le; reflexivity|constructor].
  - cbn. repeat split; discriminate.
  - exists ba. split; [exact E|]. split; [exact G|]. vm_compute in E. injection E as <-. reflexivity.
Defined.
