(* ===== verification/PoolSpec.v ===== *)
(** * What the transaction pool guarantees

    The theorems about the pool: its invariant along any sequence of operations, the
    round trip of adding and taking, expiry, block templates, and the pool over the
    chain that validates its transactions. *)

From Stdlib Require Import ZArith Lia List Bool.
From S2P Require Import Prelude Bytes IntUtil Currency BlockIndex TxStore Ledger BlockchainIndices UpgradeDetector TxCheck Blockchain ChainInvariant TransactionPool PoolInvariant PoolTemplate BlockSpec.
From stdpp Require Import gmap gmultiset list.
Import ListNotations.
Open Scope Z_scope.
Open Scope cmon_scope.
Set Default Goal Selector "!".

(** ** Sequences of operations *)


Section Run.
Context {CK : CryptoChecks} {CO : Codec} (cur : currency) (par : pool_params) (getTTL : Transaction -> Z).












Context {TV : ITransactionValidator}.

(** [add_tx] either adds the transaction, and then [take_tx] gives it back and restores the pool, all
    but the index of payment ids; or it leaves the pool as it was. *)
Theorem add_take_roundtrip now received t id blobSize kept p : pool_ok p -> NoDup (images (inputs t)) -> NoDup (ms_refs (inputs t)) ->
  accept_tx cur par getTTL now t blobSize kept p <> None ->
  exists r v p', add_tx cur par getTTL now received t id blobSize kept p = Some (r, v, p') /\
    (if m_added_to_pool v
     then r = true /\ have_tx id p' = true /\ exists d q, take_tx id p' = Some (Some d, q) /\ td_tx d = t /\ td_blobSize d = blobSize /\
       have_tx id q = false /\ same_pool q p
     else p' = p).
Proof.
  intros P Wi Wr A. destruct (add_tx_ok cur par getTTL now received t id blobSize kept p P Wi Wr A) as (r & v & p' & E & P' & H).
  exists r, v, p'. split; [exact E|]. destruct (m_added_to_pool v) eqn:Ev; [|exact H]. destruct H as (-> & _ & F & fee & max & Ea & Et). split; [reflexivity|].
  split; [apply have_tx_true; rewrite Et, fee_insert_perm; left|].
  destruct (take_undoes_add getTTL p (details t id blobSize fee received kept max) p' P F Wi Wr) as (q & Eq & S); [|exact Ea|].
  - cbn [details td_keptByBlock td_tx]. intros Ek. unfold add_tx in E. destruct (accept_tx cur par getTTL now t blobSize kept p) as [[[[[f u] va] m]|v']|] eqn:Ac; [|discriminate|contradiction].
    exact (accept_unspent _ _ _ _ _ _ _ _ _ _ _ _ Ac Ek).
  - exists (details t id blobSize fee received kept max), q. split; [exact Eq|]. split; [reflexivity|]. split; [reflexivity|]. split; [|exact S].
    destruct (have_tx id q) eqn:Hq; [|reflexivity]. apply have_tx_true in Hq. destruct S as [S _]. rewrite S in Hq. contradiction.
Qed.

(** The check of old transactions ends with exactly those that are neither too old for their origin nor past their
    time to live; the others are remembered as recently deleted. *)
Theorem expiry_exact now p : pool_ok p -> exists p', removeExpiredTransactions par now p = Some p' /\
  (forall d, d ∈ m_transactions p' <-> d ∈ m_transactions p /\ expired par now d (m_ttlIndex p) = false) /\
  (forall d, d ∈ m_transactions p -> d ∉ m_transactions p' ->
    is_Some (m_recentlyDeletedTransactions p' !! td_id d) /\ have_tx (td_id d) p' = false).
Proof.
  intros P. destruct (removeExpired_ok par now p P) as (p' & E & P' & T & R). exists p'. split; [exact E|].
  assert (forall d, d ∈ m_transactions p' <-> d ∈ m_transactions p /\ expired par now d (m_ttlIndex p) = false) as El
    by (intros d; rewrite T, !list_elem_of_In, filter_In, negb_true_iff; reflexivity).
  split; [exact El|]. intros d Hd Nd. assert (expired par now d (m_ttlIndex p) = true) as Ex
    by (destruct (expired par now d (m_ttlIndex p)) eqn:Ee; [reflexivity|destruct Nd; apply El; auto]).
  split; [exact (R d Hd Ex)|]. destruct (have_tx (td_id d) p') eqn:H; [|reflexivity]. apply have_tx_true, list_elem_of_fmap in H as (e & Ei & He).
  apply El in He as [He Fe]. pose proof (find_unique _ _ (po_ids p P) Hd) as U. rewrite Ei, (find_unique _ _ (po_ids p P) He) in U. injection U as ->. congruence.
Qed.

(** C27: a block template consists of transactions of the pool that have no time to live and are ready; together they spend no
    key image and no output twice, so no transaction with inputs is in it twice; the size and the fee are
    their sums; the size is within the limits.  And the template is as full as the rules allow: a
    transaction that is not in it has a time to live, is not ready, does not fit, or conflicts with one that is in it. *)
Theorem template_exact median max p limit : pool_ok p -> Forall answered (m_transactions p) -> Forall size_range (m_transactions p) ->
  limit = Z.max (m_fusionTxMaxSize cur) (Z.max median (max_template_size par median max)) -> 0 <= limit < 2 ^ 63 ->
  exists sel total fee p', fill_block_template cur par median max p = Some (td_id <$> sel, total, fee, p') /\
    Forall (fun d => d ∈ m_transactions p /\ m_ttlIndex p !! td_id d = None /\ ready d) sel /\
    NoDup (sel_images sel) /\ NoDup (sel_refs sel) /\
    ((forall d, d ∈ m_transactions p -> images (inputs (td_tx d)) <> [] \/ ms_refs (inputs (td_tx d)) <> []) -> NoDup (td_id <$> sel)) /\
    total = sel_size sel /\ total <= limit /\ fee = u64 (sel_fee sel) /\
    Forall (fun d => d ∈ sel \/ is_Some (m_ttlIndex p !! td_id d) \/ ~ ready d \/
      (if td_fee d =? 0 then median else max_template_size par median max) < total + td_blobSize d \/ exists e, e ∈ sel /\ conflict d e) (m_transactions p).
Proof.
  intros P An Sz El Rl. destruct (fill_ok cur par limit Rl median max p P An Sz) as (sel & total & fee & p' & E & F & Ni & Nr & Et & Lt & Ef & Lo & _); [lia..|].
  exists sel, total, fee, p'. split; [exact E|]. split; [exact F|]. split; [exact Ni|]. split; [exact Nr|].
  split; [apply sel_ids_distinct; [exact P| |exact Ni|exact Nr]; apply (Forall_impl _ _ _ F); tauto|]. do 3 (split; [assumption|]).
  apply (Forall_impl _ _ _ Lo). unfold left_out, limit_of. tauto.
Qed.
End Run.

(** ** The pool over the chain *)

Section Chain.
Context {CK : CryptoChecks} {CO : Codec} (cur : currency) (par : pool_params) (now : Z) (zone : bool).

Lemma unspent_images st t : haveTransactionKeyImagesAsSpent st t = false -> forall x, x ∈ images (inputs t) -> x ∉ m_spent_keys st.
Proof.
  unfold haveTransactionKeyImagesAsSpent. induction (inputs t) as [|i ins IH]; cbn [existsb]; intros E x Hx; [inversion Hx|].
  apply orb_false_iff in E as [Ei E]. destruct i as [b|a o image|a k o u]; cbn in Hx; [exact (IH E x Hx)| |exact (IH E x Hx)].
  apply bool_decide_eq_false in Ei. apply elem_of_cons in Hx as [->|Hx]; [exact Ei|exact (IH E x Hx)].
Qed.

(** The second check passes a transaction only if its inputs pass now, or if the last block they used when they passed
    before is still in the chain. *)
Lemma check_again_true c t max failed max' failed' : checkTransactionInputs_again cur now zone c t max failed = Some (true, max', failed') ->
  (exists h, checkTransactionInputs cur getPrefixHash now zone (m_blocks c) (m_store c) t = Some (true, h)) \/
  getBlockId (info_height max) (m_blockIndex c) = Some (info_id max).
Proof.
  assert (forall m f, check_recording cur now zone c t m f = Some (true, max', failed') ->
    exists h, checkTransactionInputs cur getPrefixHash now zone (m_blocks c) (m_store c) t = Some (true, h)) as Rec.
  { unfold check_recording, checkTransactionInputs_max. intros m f (tail & _ & E)%obind_Some. apply obind_Some in E as ([r mx] & E & E2).
    apply obind_Some in E as ([res h] & -> & E). destruct res; [eauto|]. cbn [negb orb] in E. injection E as <- <-. discriminate. }
  unfold checkTransactionInputs_again. destruct (info_empty max).
  - intros (known & _ & E)%obind_Some. destruct known; [discriminate|]. left. exact (Rec _ _ E).
  - destruct (_ <=? _); [discriminate|]. intros (id & Ei & E)%obind_Some. destruct (bool_decide (id = info_id max)) eqn:B.
    + right. apply bool_decide_eq_true in B. unfold getBlockIdByHeight in Ei. destruct (c_assert _); [|discriminate]. rewrite <- B. exact Ei.
    + apply obind_Some in E as (fid & _ & E). destruct (bool_decide (info_id failed = fid)); [discriminate|]. left. exact (Rec _ _ E).
Qed.

(** C10: a template made over a reachable chain, which validates the transactions, when its check answers for each transaction of the
    pool: the template lists transactions of the pool, and the key images they spend are different from
    each other and from all that the ledger of the chain has spent; no multisignature output is spent
    twice among them; and the inputs of each were checked against this chain, now or at a block that is
    still in it. *)
Theorem template_over_chain c median max p limit : upgrade_ok cur -> chain_run cur c -> pool_ok p ->
  (let TV := chain_validator cur par now zone c in Forall answered (m_transactions p)) -> Forall size_range (m_transactions p) ->
  limit = Z.max (m_fusionTxMaxSize cur) (Z.max median (max_template_size par median max)) -> 0 <= limit < 2 ^ 63 ->
  exists sel total fee p', fill_block_template (TV := chain_validator cur par now zone c) cur par median max p = Some (td_id <$> sel, total, fee, p') /\
    Forall (fun d => d ∈ m_transactions p) sel /\
    NoDup (spent_images (chain_ledger (m_blocks c)) ++ sel_images sel) /\ NoDup (sel_refs sel) /\
    Forall (fun d => (exists h, checkTransactionInputs cur getPrefixHash now zone (m_blocks c) (m_store c) (td_tx d) = Some (true, h)) \/
      getBlockId (info_height (td_maxUsedBlock d)) (m_blockIndex c) = Some (info_id (td_maxUsedBlock d))) sel.
Proof.
  intros UO R P An Sz El Rl. pose proof (chain_run_inv cur c UO R) as I. pose proof (built_represents _ _ _ _ (ci_ledger _ _ I)) as Rp.
  pose proof (rep_images _ _ _ _ Rp) as Nl. pose proof (rep_keys _ _ _ _ Rp) as Ks.
  destruct (fill_ok (TV := chain_validator cur par now zone c) cur par limit Rl median max p P An Sz) as (sel & total & fee & p' & E & F & Ni & Nr & _); [lia..|].
  exists sel, total, fee, p'. split; [exact E|]. split; [apply (Forall_impl _ _ _ F); tauto|]. split; [|split; [exact Nr|]].
  - apply NoDup_app. split; [exact Nl|]. split; [|exact Ni]. intros x Hx (d & Hd & Hx')%elem_sel_images.
    rewrite list.Forall_forall in F. destruct (F d Hd) as (_ & _ & m & f & _ & Sp). apply (unspent_images _ _ Sp x Hx'). rewrite Ks. apply elem_of_list_to_set, Hx.
  - apply (Forall_impl _ _ _ F). intros d (_ & _ & m & f & Rd & _). exact (check_again_true c _ _ _ _ _ Rd).
Qed.
End Chain.

(** *** Witnesses *)

#[local] Existing Instance demo_checks.
#[local] Existing Instance demo_codec.

(** A low fee, so that the transaction of the chain to run on is accepted. *)
Definition demo_params : pool_params := mk_params 10 600 (60 * 60 * 14) (60 * 60 * 24) 7.
Definition no_ttl (_ : Transaction) : Z := 0.
Definition demo_validator : ITransactionValidator := chain_validator demo_currency demo_params 1000 false demo_chain0.

Definition demo_pool : pool := Eval vm_compute in
  match add_tx (TV := demo_validator) demo_currency demo_params no_ttl 1000 1000 demo_spend [50] 100 false empty_pool with
  | Some (_, _, p) => p
  | None => empty_pool
  end.


Lemma demo_pool_ok : pool_ok demo_pool.
Proof.
  destruct (add_tx_ok (TV := demo_validator) demo_currency demo_params no_ttl 1000 1000 demo_spend [50] 100 false empty_pool empty_pool_ok) as (r & v & p & E & P & _).
  - apply (bool_decide_unpack _). vm_compute. exact Logic.I.
  - apply (bool_decide_unpack _). vm_compute. exact Logic.I.
  - vm_compute. discriminate.
  - vm_compute in E. injection E as _ _ E. unfold demo_pool. rewrite E. exact P.
Qed.

Lemma demo_answered : Forall (answered (TV := demo_validator)) (m_transactions demo_pool).
Proof. constructor; [vm_compute; discriminate|constructor]. Qed.

Lemma demo_sizes : Forall size_range (m_transactions demo_pool).
Proof. constructor; [split; [apply Z.leb_le|apply Z.ltb_lt]; reflexivity|constructor]. Qed.



Lemma add_take_witness : exists r v p', add_tx (TV := demo_validator) demo_currency demo_params no_ttl 1000 1000 demo_spend [50] 100 false empty_pool = Some (r, v, p') /\
  m_added_to_pool v = true /\ exists d q, take_tx [50] p' = Some (Some d, q) /\ td_tx d = demo_spend /\ same_pool q empty_pool.
Proof.
  destruct (add_take_roundtrip (TV := demo_validator) demo_currency demo_params no_ttl 1000 1000 demo_spend [50] 100 false empty_pool empty_pool_ok) as (r & v & p' & E & H).
  - apply (bool_decide_unpack _). vm_compute. exact Logic.I.
  - apply (bool_decide_unpack _). vm_compute. exact Logic.I.
  - vm_compute. discriminate.
  - exists r, v, p'. split; [exact E|]. vm_compute in E. injection E as _ <- _. cbn [m_added_to_pool] in H. split; [reflexivity|].
    destruct H as (_ & _ & d & q & H1 & H2 & _ & _ & H3). exists d, q. auto.
Defined.

Lemma expiry_witness : exists p', removeExpiredTransactions demo_params 100000 demo_pool = Some p' /\ have_tx [50] p' = false.
Proof.
  destruct (expiry_exact demo_params 100000 demo_pool demo_pool_ok) as (p' & E & _). exists p'. split; [exact E|]. vm_compute in E. injection E as <-. reflexivity.
Defined.

Lemma template_witness : exists total fee p', fill_block_template (TV := demo_validator) demo_currency demo_params 10000 10000 demo_pool = Some ([[50]], total, fee, p') /\ fee = 40.
Proof.
  destruct (template_exact (TV := demo_validator) demo_currency demo_params 10000 10000 demo_pool _ demo_pool_ok demo_answered demo_sizes eq_refl) as (sel & total & fee & p' & E & _).
  - split; [apply Z.leb_le|apply Z.ltb_lt]; vm_compute; reflexivity.
  - exists total, fee, p'. pose proof E as C. vm_compute in C. injection C as C _ Cf _.
    assert (td_id <$> sel = [[50]]) as Es by (symmetry; exact C). rewrite E, Es. split; [reflexivity|symmetry; exact Cf].
Defined.

Lemma template_over_chain_witness : exists sel, sel = m_transactions demo_pool /\ NoDup (spent_images (chain_ledger (m_blocks demo_chain0)) ++ sel_images sel).
Proof.
  destruct (template_over_chain demo_currency demo_params 1000 false demo_chain0 10000 10000 demo_pool _ demo_upgrade_ok demo_run0 demo_pool_ok demo_answered demo_sizes eq_refl)
    as (sel & total & fee & p' & E & F & N & _).
  - split; [apply Z.leb_le|apply Z.ltb_lt]; vm_compute; reflexivity.
  - exists sel. split; [|exact N]. vm_compute in E. injection E as Es _ _ _. destruct sel as [|d [|d' sel]]; [discriminate| |discriminate].
    apply list.Forall_cons in F as [F _]. apply list_elem_of_singleton in F. subst. reflexivity.
Defined.
