(* ===== verification/NodeSpec.v ===== *)
(** * What the node guarantees

    The theorems about the chain and the pool together, and about branches that
    compete with the main chain.  Their witnesses continue the chain of BlockSpec.v
    and the pool of PoolSpec.v. *)

From Stdlib Require Import ZArith Lia List Bool.
From S2P Require Import Prelude Bytes IntUtil Currency DepositIndex Checkpoints BlockIndex TxStore Ledger BlockchainIndices UpgradeDetector TxCheck Blockchain ChainInvariant Rebuild TransactionPool PoolInvariant PoolTemplate Node AltChain AltInvariant BlockSpec PoolSpec.
From stdpp Require Import gmap gmultiset list.
Import ListNotations.
Open Scope Z_scope.
Open Scope cmon_scope.
Set Default Goal Selector "!".

Section Node.
Context {CK : CryptoChecks} {CO : Codec} (cur : currency) (par : pool_params) (getTTL : Transaction -> Z) (now received : Z).

(** C12: pushing a block with the pool: an accepted block has exactly the transactions it names, which leave the pool, and the
    rest of the pool stays; a rejected block, whether a transaction is missing or the block is invalid,
    leaves the pool with the transactions it had, and the chain as it was unless the block was too big. *)
Theorem block_and_pool cps b c p : upgrade_ok cur -> chain_run cur c -> node_pool cur p -> new_block b c ->
  Forall (answers cur now c) (txs_of p) ->
  (forall txs, txs ⊆+ txs_of p -> pushBlock cur cps false now b txs c <> None /\
    forall r v c', pushBlock cur cps false now b txs c = Some (r, v, c') -> Forall (answers cur now c') txs) ->
  exists r v c' p', push_block cur par getTTL cps now received b c p = Some (r, v, c', p') /\ node_pool cur p' /\
    if r : bool
    then exists txs, transactionHashes b = getObjectHash <$> txs /\ txs_of p ≡ₚ txs ++ txs_of p' /\
      pushBlock cur cps false now b txs c = Some (true, v, c') /\ chain_ledger (m_blocks c') =
        chain_ledger (m_blocks c) ++ entries_from (chain_height (m_blocks c)) (zip (getObjectHash <$> baseTransaction b :: txs) (baseTransaction b :: txs))
    else txs_of p' ≡ₚ txs_of p /\ (c' = c \/ exists txs st, transactionHashes b = getObjectHash <$> txs /\ c' = with_store st c /\
      checkCumulativeBlockSize cur (block_size b txs) (chain_height (m_blocks c)) = Some false).
Proof.
  intros UO R P Nb An Tot. pose proof (chain_run_inv cur c UO R) as I.
  destruct (push_block_ok cur par getTTL now received cps b c p I P Nb An) as (r & v & c' & p' & E & P' & H).
  { intros txs r v c' Sub E. exact (proj2 (Tot txs Sub) r v c' E). }
  { intros txs Sub. exact (proj1 (Tot txs Sub)). }
  exists r, v, c', p'. split; [exact E|]. split; [exact P'|]. destruct r; [|exact H]. destruct H as (txs & Eh & T & W & Ep). exists txs. do 3 (split; [assumption|]).
  pose proof (push_ends cur cps false now b txs c true v c' I W Ep) as Pe.
  inversion Pe as [| | |d e st size fee interest reward emission c1 deposits voting Sz Ef Ei H J Es Ev Hc Hd Hv]; subst. cbn [m_blocks].
  pose proof (accepted_shape cur cps now b txs c d e st (block_size b txs) emission interest I W H J) as (_ & Et & Eb & _).
  rewrite (proj1 (push_entry_frame _ _ _ Hc)). cbn [with_store m_blocks]. rewrite chain_ledger_snoc. unfold block_ledger, block_pairs. rewrite Et, Eb, Eh. reflexivity.
Qed.

(** A block that was accepted and is popped again: its transactions are back in the pool, which has the transactions it had, and
    the chain is the one of before but for the limit for the size of the next block. *)
Theorem block_pool_roundtrip cps b c p v c' p' : upgrade_ok cur -> chain_run cur c -> node_pool cur p -> new_block b c ->
  chain_height (m_blocks c) + 1 < 2 ^ 32 -> Forall (answers cur now c) (txs_of p) -> Forall (answers cur now c') (txs_of p) ->
  push_block cur par getTTL cps now received b c p = Some (true, v, c', p') ->
  exists p'', pop_block cur par getTTL now received (get_block_hash b) c' p' = Some (restored c c', p'') /\ node_pool cur p'' /\ txs_of p'' ≡ₚ txs_of p.
Proof.
  intros UO R P Nb Sh An An' E. pose proof (chain_run_inv cur c UO R) as I. unfold push_block in E.
  destruct (load_ok cur par getTTL now received c b p P An) as (r & p1 & El & P1 & H). rewrite El in E. cbn [obind] in E. destruct r as [txs|]; [|discriminate].
  destruct H as (Eh & So & T). apply obind_Some in E as ([[r1 v1] c1] & Ep & E). destruct r1; cbn [negb] in E; [|apply obind_Some in E as (x & _ & E); discriminate].
  injection E as <- <- <-. pose proof (new_block_wf cur b txs c Nb Eh So) as W.
  destruct (accepted_block cur cps false now UO b txs c v1 c1 I W Sh Ep) as (I' & Pop & e & Eb & Ee & Et).
  assert (tx <$> tail (transactions e) = txs) as Ex by (destruct (transactions e) as [|t ts]; [discriminate|injection Et as _ Et; exact Et]).
  assert (NoDup ((getObjectHash <$> txs) ++ (getObjectHash <$> txs_of p1))) as N by (rewrite <- fmap_app, <- T; exact (pool_hashes cur p P)).
  rewrite T in An'. apply list.Forall_app in An' as [An' _].
  destruct (pop_block_ok cur par getTTL now received UO (m_blocks c) e c1 p1 I' P1 Eb) as (c2 & p2 & Eq & _ & P2 & _ & T2 & Eq'); [rewrite Ex; assumption..|].
  rewrite Ee in Eq, Eq'. rewrite Pop in Eq'. injection Eq' as _ <-. exists p2. split; [exact Eq|]. split; [exact P2|]. rewrite T2, Ex, T. reflexivity.
Qed.

(** An accepted block leaves the limit that the blocks give. *)
Lemma pushed_limit cps zone now' b txs c v c' : pushBlock cur cps zone now' b txs c = Some (true, v, c') -> m_current_block_cumul_sz_limit c' = next_cumulative_size_limit cur c'.
Proof.
  unfold pushBlock. intros (header & _ & E)%obind_Some. destruct header; [|discriminate]. apply obind_Some in E as ([[r1 b1] st1] & _ & E). apply obind_Some in E as (result & _ & E).
  destruct result; [discriminate|]. apply obind_Some in E as (sz & _ & E). destruct (negb sz); [discriminate|]. apply obind_Some in E as (w & _ & E).
  destruct w as [[reward emission]|]; [|apply obind_Some in E as (st3 & _ & E); discriminate].
  apply obind_Some in E as (c1 & _ & E). apply obind_Some in E as (dep & _ & E). apply obind_Some in E as (vo & _ & E). injection E as _ <-. reflexivity.
Qed.

(** C25: starting on the stored blocks of a reachable chain, in which blocks list their transactions by their hashes and the first is the
    genesis block, without a cache, where with a vote the chain must end before the upgrade: the indices
    that are rebuilt and the state of the upgrade detector are those of the chain, up to the order of
    blocks of the same time in the index of times; the limit for the size of the next block is the one that
    the blocks give, which is that of a chain whose last step pushed a block, while [popBlock] does not
    compute it anew. *)
Theorem restart_restores cps c first bs genesisBlock p : upgrade_ok cur -> chain_run cur c -> Forall hashed (m_blocks c) ->
  m_blocks c = first :: bs -> get_block_hash (bl first) = get_block_hash genesisBlock ->
  (m_upgradeHeight cur = UNDEF_HEIGHT -> (fun e => majorVersion (bl e)) <$> last (m_blocks c) = Some BLOCK_MAJOR_VERSION_1) ->
  (m_upgradeHeight cur <> UNDEF_HEIGHT -> 0 <= m_upgradeHeight cur < 2 ^ 64 - 1) ->
  exists times, chain_init cur par getTTL cps now received true genesisBlock (m_blocks c) p =
    Some (true, mk_chain (m_blocks c) (m_blockIndex c) (m_store c) (m_depositIndex c) times (m_generatedTransactionsIndex c)
      (m_votingCompleteHeight c) (next_cumulative_size_limit cur c), p) /\ ts_ok times /\ times ≡ₚ m_timestampIndex c /\
    (forall cps' zone now' b txs c0 v, pushBlock cur cps' zone now' b txs c0 = Some (true, v, c) -> next_cumulative_size_limit cur c = m_current_block_cumul_sz_limit c).
Proof.
  intros UO R Fh Em Eg Hv Hu. destruct (chain_init_ok cur par getTTL now received cps c first bs genesisBlock p UO (chain_run_inv cur c UO R) Fh Em Eg Hv Hu) as (times & E & T & P).
  exists times. do 3 (split; [assumption|]). intros cps' zone now' b txs c0 v Ep. symmetry. exact (pushed_limit _ _ _ _ _ _ _ _ Ep).
Qed.

Lemma run_placed c : upgrade_ok cur -> chain_run cur c -> placed c /\ chain_height (m_blocks c) < 2 ^ 32.
Proof.
  intros UO R. pose proof (chain_run_inv cur c UO R) as I. split; [|exact (ci_short cur c I)].
  split; [exact (ci_index cur c I)|]. intros h e E. exact (ea_height _ _ (ci_entries cur c I h e E)).
Qed.

(** C3: the choice between branches, on a node over a reachable chain none of whose alternative blocks is at height 0, which stays so: when a block
    changes the main chain, either it extends the tail, or it wins: it ends a branch that leaves the main
    chain behind the block that the first block of the branch refers to, it has the proof of work for the
    difficulty that a main chain made of this common part and the branch would ask for, and it is at the
    height of a checkpoint, or the work of the common part, the branch and the block is greater than that
    of the main chain. *)
Theorem fork_choice cps fuel b n r v n' : upgrade_ok cur -> chain_run cur (n_chain n) -> heights_ok n ->
  addNewBlock cur par getTTL cps now received fuel b n = Some (r, v, n') -> heights_ok n' /\
  (blks (n_chain n') = blks (n_chain n) \/
   Some (previousBlockHash b) = getTailId (n_chain n) /\ r = true /\ blks (n_chain n') = blks (n_chain n) ++ [b] \/
   wins cur cps b n).
Proof.
  intros UO R Hh E. destruct (run_placed _ UO R) as [Hp Hs]. unfold addNewBlock in E. destruct (haveBlock _ _); [injection E as _ _ <-; auto|].
  apply obind_Some in E as (tail & Et & E). destruct (bool_decide (previousBlockHash b = tail)) eqn:B; cbn [negb] in E.
  - apply bool_decide_eq_true in B. apply obind_Some in E as ([[[r1 v1] c1] p1] & Ep & E). injection E as <- _ <-. split; [exact Hh|]. apply push_blocks in Ep. cbn [with_chain n_chain].
    destruct r1; [right; left; rewrite Et, B; tauto|left; unfold blks; rewrite Ep; reflexivity].
  - split; [exact (handle_heights _ _ _ _ _ _ _ _ _ _ _ _ Hh E)|].
    destruct (handle_choice _ _ _ _ _ _ n Hh Hp Hs _ _ _ _ _ E) as [C|W]; [left; rewrite C; reflexivity|auto].
Qed.

(** C11: the outcome of a switch over a reachable chain: when it succeeds the main chain is its common part with the branch followed by the
    branch; when it fails the main chain is a prefix of the old one that has at least the common part. The
    one exception: the old blocks are kept (no checkpoint started the switch), and while they are filed
    as alternative blocks on the node with the new main chain, one of them wins over it as in C3. *)
Theorem switch_outcome cps fuel id0 front alt discard n r n' : let c := n_chain n in let alts := (id0, front) :: alt in
  upgrade_ok cur -> chain_run cur c -> heights_ok n -> 1 <= be_height front -> chain_height (m_blocks c) + Z.of_nat (length alts) < 2 ^ 32 ->
  switch_to_alternative_blockchain cur par getTTL cps now received (handle_alternative_block cur par getTTL cps now received fuel) alts discard n = Some (r, n') ->
  let main := take (Z.to_nat (be_height front)) (blks c) ++ ((fun e => bl e.2) <$> alts) in
  (if r : bool then be_height front < chain_height (m_blocks c) /\ blks (n_chain n') = main
   else exists k, (Z.to_nat (be_height front) <= k \/ length (blks c) <= k)%nat /\ blks (n_chain n') = take k (blks c)) \/
  discard = false /\ old_wins cur par getTTL cps now received fuel (be_height front) alts n.
Proof.
  intros c alts UO R Hh. exact (switch_ok cur par getTTL cps now received fuel id0 front alt discard n r n' Hh (proj1 (run_placed _ UO R))).
Qed.
End Node.

(** ** A node to run on *)

#[local] Existing Instance demo_checks.
#[local] Existing Instance demo_codec.

(** A branch from the first block on, its second block with the reward of that height. *)
Definition demo_alt1 : Block := mk_block 2 0 21 101 [10] (demo_miner 1) [].
Definition demo_alt2 : Block := mk_block 2 0 22 102 [21] (mk_tx 1 2 [BaseInput 2] [mk_output 20000000000 (KeyOutput [2])] [2] []) [].

Definition demo_alt1_entry : BlockEntry := mk_bentry demo_alt1 1 0 2 0 [].

Definition demo_add {CO : Codec} (b : Block) (n : node) : option (bool * verdict * node) := addNewBlock demo_currency demo_params no_ttl [] 1000 1000 3 b n.
Definition demo_next {CO : Codec} (b : Block) (n : node) : node := match demo_add b n with Some (_, _, n) => n | None => n end.
Definition demo_node1 : node := mk_node demo_chain1 empty_pool ∅ ∅.
Definition demo_node2 : node := Eval vm_compute in demo_next demo_alt1 demo_node1.
Definition demo_node3 : node := Eval vm_compute in demo_next demo_alt2 demo_node2.

(** The first block of the branch is filed, the second brings the branch to the main chain. *)
Example demo_fork : demo_add demo_alt1 demo_node1 = Some (true, no_verdict, demo_node2) /\
  demo_add demo_alt2 demo_node2 = Some (true, switched true, demo_node3) /\
  blks (n_chain demo_node2) = [demo_genesis; demo_block] /\ blks (n_chain demo_node3) = [demo_genesis; demo_alt1; demo_alt2] /\
  txs_of (n_pool demo_node3) = [demo_spend].
Proof. repeat split; vm_compute; reflexivity. Qed.

Lemma demo_node_pool : node_pool demo_currency demo_pool.
Proof.
  split; [exact demo_pool_ok|intros d ->%list_elem_of_singleton; reflexivity|]. intros d ->%list_elem_of_singleton.
  split; [reflexivity| |exact demo_spend_wf]. exists 100. split; [reflexivity|]. split; [vm_compute; discriminate|]. vm_compute. discriminate.
Qed.

Lemma demo_new_block : new_block demo_block demo_chain0.
Proof. split; [reflexivity..|]. apply (bool_decide_unpack _). vm_compute. exact Logic.I. Qed.

Lemma demo_txs txs : txs ⊆+ txs_of demo_pool -> txs = [] \/ txs = [demo_spend].
Proof.
  change (txs_of demo_pool) with [demo_spend]. intros H. pose proof (submseteq_length _ _ H) as L. destruct txs as [|t [|t' txs]]; [auto| |cbn in L; lia].
  right. f_equal. apply list_elem_of_singleton, (elem_of_submseteq _ _ _ (list_elem_of_here t [])), H.
Qed.

Lemma block_and_pool_witness : exists v c' p', push_block demo_currency demo_params no_ttl [] 1000 1000 demo_block demo_chain0 demo_pool = Some (true, v, c', p') /\
  node_pool demo_currency p' /\ txs_of p' = [].
Proof.
  destruct (block_and_pool demo_currency demo_params no_ttl 1000 1000 [] demo_block demo_chain0 demo_pool demo_upgrade_ok demo_run0 demo_node_pool demo_new_block)
    as (r & v & c' & p' & E & P & _).
  - constructor; [vm_compute; discriminate|constructor].
  - intros txs [->| ->]%demo_txs; (split; [vm_compute; discriminate|]); intros r v c' E.
    + constructor.
    + constructor; [|constructor]. vm_compute in E. injection E as _ _ <-. vm_compute. discriminate.
  - assert (r = true) as -> by (vm_compute in E; injection E; congruence). exists v, c', p'. split; [exact E|]. split; [exact P|]. vm_compute in E. injection E as _ _ <-. reflexivity.
Defined.

Lemma block_pool_witness : exists c' p' p'', push_block demo_currency demo_params no_ttl [] 1000 1000 demo_block demo_chain0 demo_pool = Some (true, added, c', p') /\
  pop_block demo_currency demo_params no_ttl 1000 1000 [11] c' p' = Some (restored demo_chain0 c', p'') /\ txs_of p'' ≡ₚ [demo_spend].
Proof.
  destruct (push_block demo_currency demo_params no_ttl [] 1000 1000 demo_block demo_chain0 demo_pool) as [[[[r v] c'] p']|] eqn:E; [|vm_compute in E; discriminate].
  assert (r = true /\ v = added) as [-> ->] by (vm_compute in E; injection E as <- <- _ _; auto).
  destruct (block_pool_roundtrip demo_currency demo_params no_ttl 1000 1000 [] demo_block demo_chain0 demo_pool added c' p' demo_upgrade_ok demo_run0 demo_node_pool demo_new_block)
    as (p'' & E' & _ & T).
  - apply Z.ltb_lt. reflexivity.
  - constructor; [vm_compute; discriminate|constructor].
  - constructor; [|constructor]. vm_compute in E. injection E as <- _. vm_compute. discriminate.
  - exact E.
  - exists c', p', p''. split; [reflexivity|]. split; [exact E'|exact T].
Defined.

Lemma restart_witness : exists times, chain_init demo_currency demo_params no_ttl [] 1000 1000 true demo_genesis (m_blocks demo_chain1) empty_pool =
  Some (true, mk_chain (m_blocks demo_chain1) (m_blockIndex demo_chain1) (m_store demo_chain1) (m_depositIndex demo_chain1) times
    (m_generatedTransactionsIndex demo_chain1) UNDEF_HEIGHT 64000, empty_pool).
Proof.
  destruct (restart_restores demo_currency demo_params no_ttl 1000 1000 [] demo_chain1 (List.hd demo_alt1_entry (m_blocks demo_chain1)) (tail (m_blocks demo_chain1)) demo_genesis empty_pool demo_upgrade_ok demo_run1) as (times & E & _).
  - repeat (constructor; [reflexivity|]). constructor.
  - reflexivity.
  - reflexivity.
  - vm_compute. discriminate.
  - intros _. split; [apply Z.leb_le|apply Z.ltb_lt]; vm_compute; reflexivity.
  - exists times. exact E.
Defined.

Lemma demo_heights : heights_ok demo_node2.
Proof.
  intros id e E. apply (bool_decide_unpack (map_Forall (fun _ e => 1 <= be_height e) (m_alternative_chains demo_node2))) in E; [exact E|vm_compute; exact Logic.I].
Qed.

Lemma fork_choice_witness : wins demo_currency [] demo_alt2 demo_node2.
Proof.
  destruct (fork_choice demo_currency demo_params no_ttl 1000 1000 [] 3 demo_alt2 demo_node2 true (switched true) demo_node3 demo_upgrade_ok demo_run1 demo_heights) as [_ [E|[(E & _)|W]]].
  - vm_compute. reflexivity.
  - vm_compute in E. discriminate.
  - vm_compute in E. discriminate.
  - exact W.
Defined.

(** The node when the second block of the branch has been filed, and the branch. *)
Definition demo_alt2_entry : BlockEntry := Eval vm_compute in
  match check_alternative demo_currency [] demo_alt2 [22] [([21], demo_alt1_entry)] None demo_node2 with Some (inl (e, _)) => e | _ => demo_alt1_entry end.
Definition demo_branch : list (bytes * BlockEntry) := [([21], demo_alt1_entry); ([22], demo_alt2_entry)].
Definition demo_filed : node := Eval vm_compute in mk_node (n_chain demo_node2) (n_pool demo_node2) (<[[22] := demo_alt2_entry]> (m_alternative_chains demo_node2))
  (default ∅ (orphan_add get_block_hash demo_alt2 (m_orthanBlocksIndex demo_node2))).

Lemma demo_filed_heights : heights_ok demo_filed.
Proof.
  intros id e E. apply (bool_decide_unpack (map_Forall (fun _ e => 1 <= be_height e) (m_alternative_chains demo_filed))) in E; [exact E|vm_compute; exact Logic.I].
Qed.

(** The old block does not win over the branch. *)
Lemma demo_old_loses : ~ old_wins demo_currency demo_params no_ttl [] 1000 1000 2 1 demo_branch demo_filed.
Proof.
  intros (old & c1 & p1 & c2 & p2 & D & C & before & b & after & n1 & Eo & Er & Ec & W). vm_compute in D. injection D as <- <- <-. vm_compute in C. injection C as <- <-.
  destruct before as [|x [|]]; [|discriminate|discriminate]. injection Eo as <- _. injection Er as <-. clear Ec.
  destruct W as (alt & split & common & prev & tail & d & Ea & El & Eh & Ep & Et & Ed & _ & _ & Wn).
  vm_compute in Ea. injection Ea as <-. vm_compute in Et. injection Et as <-. destruct split as [|[|[|split]]]; [discriminate| | |].
  - injection El as <-. injection Ep as <-. vm_compute in Ed. injection Ed as <-. destruct Wn as [[x P]|L]; [discriminate|]. vm_compute in L. discriminate.
  - injection El as <-. vm_compute in Eh. discriminate.
  - cbn in El. rewrite firstn_nil in El. injection El as <-. vm_compute in Eh. discriminate.
Qed.

Lemma switch_witness : exists n', switch_to_alternative_blockchain demo_currency demo_params no_ttl [] 1000 1000
    (handle_alternative_block demo_currency demo_params no_ttl [] 1000 1000 2) demo_branch false demo_filed = Some (true, n') /\
  blks (n_chain n') = [demo_genesis; demo_alt1; demo_alt2].
Proof.
  destruct (switch_to_alternative_blockchain demo_currency demo_params no_ttl [] 1000 1000
    (handle_alternative_block demo_currency demo_params no_ttl [] 1000 1000 2) demo_branch false demo_filed) as [[r n']|] eqn:E; [|vm_compute in E; discriminate].
  assert (r = true) as -> by (vm_compute in E; injection E as <- _; reflexivity). exists n'. split; [reflexivity|].
  destruct (switch_outcome demo_currency demo_params no_ttl 1000 1000 [] 2 [21] demo_alt1_entry [([22], demo_alt2_entry)] false demo_filed true n' demo_upgrade_ok demo_run1 demo_filed_heights
    ltac:(apply Z.leb_le; reflexivity) ltac:(apply Z.ltb_lt; reflexivity) E) as [[_ B]|[_ W]]; [rewrite B; reflexivity|destruct (demo_old_loses W)].
Defined.
