(* ===== verification/ChainSpec.v ===== *)
(** * What the consensus arithmetic, the address encoding and the deposit index promise *)

From Stdlib Require Import ZArith Lia List Bool Permutation Sorted.
Import ListNotations.
From S2P Require Import Prelude Bytes IntUtil Varint Crypto Difficulty Base58 Currency DepositIndex.
Set Default Goal Selector "!".

(** ** Proof of work *)

(** The test of the proof of work is exact: a hash passes when its value, as a little-endian
    number, times the difficulty is below [2^256], for every hash and every difficulty; and the
    portable 64 by 64 bit product is the one the test uses. *)
Theorem check_hash_exact hash difficulty x y : Forall byte hash -> length hash = 32%nat -> word64 difficulty ->
  word64 x -> word64 y ->
  (check_hash hash difficulty = true <-> le_val hash * difficulty < 2 ^ 256) /\ mul_portable x y = Some (mul x y).
Proof.
  intros B L D Wx Wy. rewrite check_hash_ok by assumption. split; [apply Z.ltb_lt|apply mul_portable_ok; assumption].
Qed.

Lemma check_hash_witness : check_hash (le_bytes 32 (2 ^ 248)) 255 = true /\ check_hash (le_bytes 32 (2 ^ 248)) 256 = false.
Proof.
  split; [|vm_compute; reflexivity].
  apply (check_hash_exact (le_bytes 32 (2 ^ 248)) 255 1 1 (le_bytes_byte 32 _) eq_refl); [split; lia..|]. vm_compute. reflexivity.
Defined.

(** ** Addresses *)

(** Decoding base 58 always ends with a verdict, on any string, and is the exact inverse of
    encoding: a string is accepted if and only if it is the encoding of some bytes, and those are
    the bytes returned; so no two strings decode to the same bytes. *)
Theorem base58_exact enc : exists r, decode enc = Some r /\
  forall data, r = Some data <-> Forall byte data /\ encode data = Some enc.
Proof. apply decode_ok. Qed.

Section Address.
Context {FH : FastHash}.

(** An address carries its tag, its data and a checksum: what [encode_addr] writes is read back,
    and an address that [decode_addr] accepts with some data is the one [encode_addr] writes for
    what was read. *)
Theorem address_exact addr : Z.of_nat (length addr) < 2 ^ 31 -> exists r, decode_addr addr = Some r /\
  (forall tag data, 0 <= tag < 2 ^ 64 -> Forall byte data -> Z.of_nat (length data) + 14 < 2 ^ 31 ->
    encode_addr tag data = Some addr -> r = Some (tag, data)) /\
  (forall tag data, r = Some (tag, data) -> data <> [] -> encode_addr tag data = Some addr).
Proof.
  intros L. destruct (decode_addr_ok addr L) as (r & E & R). exists r. split; [exact E|]. split.
  - intros tag data Ht B Ld Ea. destruct (encode_addr_ok tag data Ht B Ld) as (addr' & Ea' & D). congruence.
  - intros tag data Er N. destruct (R tag data Er) as [H|(Z & _)]; [exact H|contradiction].
Qed.
End Address.

Lemma address_witness : exists addr, encode_addr 18 [1; 2; 3] = Some addr /\ decode_addr addr = Some (Some (18, [1; 2; 3])).
Proof.
  destruct (encode_addr 18 [1; 2; 3]) as [addr|] eqn:E; [|vm_compute in E; discriminate E]. exists addr. split; [reflexivity|].
  assert (Z.of_nat (length addr) < 2 ^ 31) as L by (vm_compute in E; injection E as <-; reflexivity).
  destruct (address_exact addr L) as (r & D & A & _). rewrite D.
  rewrite (A 18 [1; 2; 3]); [reflexivity|lia|repeat constructor; lia|reflexivity|exact E].
Defined.

(** ** Rewards *)

(** C32: a miner transaction is accepted exactly when the block is at most twice the effective median
    size and, from the third block on, its outputs add up to the reward: the base reward, with the
    penalty [size * (2 m - size) / m^2] above the median, and the fees.  The emission it reports
    never takes the coins generated past the money supply. *)
Theorem miner_transaction_exact cur outputs height size sizes generated fee : currency_ok cur ->
  Forall (fun x => 0 <= x <= 2 ^ 31 - 1) sizes -> 0 <= size <= 2 ^ 32 - 1 -> 0 <= generated <= m_moneySupply cur ->
  word64 fee -> 0 <= height < 2 ^ 32 ->
  let m := Z.max (medianValue sizes) (m_blockGrantedFullRewardZone cur) in
  let emission := penalized (baseRewardFunction cur generated height) m size in
  exists r, validate_miner_transaction cur outputs height size sizes generated fee = Some r /\
    (r <> None <-> size <= 2 * m /\ (height <= 1 \/ fold_left (fun s o => u64 (s + o)) outputs 0 = u64 (emission + fee))) /\
    (r <> None -> r = Some (u64 (emission + fee), emission) /\ 0 <= emission /\ generated + emission <= m_moneySupply cur).
Proof.
  intros C Fs Hs Hg Hf Hh m emission.
  destruct (validate_miner_transaction_ok cur outputs height size sizes generated fee C Fs Hs Hg Hf Hh) as [E P].
  fold m in E, P. fold emission in E, P. eexists. split; [exact E|].
  destruct (_ && _) eqn:B.
  - rewrite andb_true_iff, orb_true_iff, Z.leb_le, Z.leb_le, Z.eqb_eq in B. split; [intuition congruence|].
    intros _. split; [reflexivity|]. destruct B as [B _]. specialize (P B). lia.
  - assert (~ (size <= 2 * m /\ (height <= 1 \/ fold_left (fun s o => u64 (s + o)) outputs 0 = u64 (emission + fee)))) as N.
    { rewrite <- Z.leb_le, <- (Z.leb_le height), <- Z.eqb_eq, <- orb_true_iff, <- andb_true_iff, B. discriminate. }
    split; [split; [congruence|intros H; destruct (N H)]|congruence].
Qed.

Lemma miner_transaction_witness : exists r,
  validate_miner_transaction default_currency [20000000000; 7] 5 1000 [500; 700] 0 7 = Some r /\ r = Some (20000000007, 20000000000).
Proof.
  destruct (miner_transaction_exact default_currency [20000000000; 7] 5 1000 [500; 700] 0 7 default_currency_ok) as (r & E & A & V);
    [repeat constructor; lia|lia|cbn; lia|split; lia|lia|].
  exists r. split; [exact E|]. destruct V as [V _]; [|exact V]. apply A. split; [vm_compute; discriminate|]. right. vm_compute. reflexivity.
Defined.

(** The block a miner builds is accepted: the outputs [constructMinerTx] writes for the reward,
    at most [maxOuts] of them, add up to it, and [validate_miner_transaction] accepts them for the
    same height, size, median and fees. *)
Theorem mined_block_accepted cur height size sizes generated fee maxOuts : currency_ok cur ->
  0 <= m_defaultDustThreshold cur -> Forall (fun x => 0 <= x <= 2 ^ 31 - 1) sizes ->
  0 <= size <= 2 * m_blockGrantedFullRewardZone cur ->
  0 <= generated <= m_moneySupply cur -> word64 fee -> 0 <= height < 2 ^ 32 -> (1 <= maxOuts)%nat ->
  exists reward emission outs, getBlockReward cur (medianValue sizes) size generated fee height = Some (Some (reward, emission)) /\
    miner_outs cur reward maxOuts = Some (Some outs) /\ (length outs <= maxOuts)%nat /\ sumZ outs = reward /\
    validate_miner_transaction cur outs height size sizes generated fee = Some (Some (reward, emission)).
Proof.
  intros C Hd Fs Hs Hg Hf Hh Hm. pose proof (ok_zone _ C) as Zn.
  pose proof (medianValue_range sizes (2 ^ 31 - 1) Fs ltac:(lia) ltac:(lia)) as Mv.
  pose proof (getBlockReward_ok cur (medianValue sizes) size generated fee height C Mv ltac:(lia) Hg Hf Hh) as E. cbv zeta in E.
  replace (2 * _ <? size) with false in E by (symmetry; apply Z.ltb_ge; lia). do 2 eexists.
  destruct (miner_outs_ok cur (u64 (penalized (baseRewardFunction cur generated height)
    (Z.max (medianValue sizes) (m_blockGrantedFullRewardZone cur)) size + fee)) maxOuts (u64_word _) Hd Hm) as (outs & Eo & So & Lo & Fo).
  exists outs. split; [exact E|]. split; [exact Eo|]. split; [exact Lo|]. split; [exact So|].
  unfold validate_miner_transaction. cbv zeta. rewrite E. cbn [obind].
  pose proof (u64_word (penalized (baseRewardFunction cur generated height)
    (Z.max (medianValue sizes) (m_blockGrantedFullRewardZone cur)) size + fee)) as W. unfold word64 in W.
  rewrite fold_sum by (exact Fo || lia). rewrite So, Z.add_0_l, Z.ltb_irrefl, andb_false_r. reflexivity.
Qed.

Lemma mined_block_witness : exists reward emission outs,
  getBlockReward default_currency (medianValue [500; 700]) 1000 0 7 5 = Some (Some (reward, emission)) /\
  miner_outs default_currency reward 1 = Some (Some outs) /\ (length outs <= 1)%nat /\ sumZ outs = reward /\
  validate_miner_transaction default_currency outs 5 1000 [500; 700] 0 7 = Some (Some (reward, emission)).
Proof.
  apply (mined_block_accepted default_currency 5 1000 [500; 700] 0 7 1 default_currency_ok);
    [vm_compute; discriminate|repeat constructor; lia|cbn; lia|cbn; lia|split; lia|lia|lia].
Defined.

(** ** Deposits and difficulty *)

(** The interest of a deposit is the amount times the rate of its term, rounded down, and never
    more than the amount; a term outside the allowed range fails the assertion. *)
Theorem interest_exact cur amount term : deposit_ok cur -> word64 amount -> 0 <= term < 2 ^ 32 ->
  (m_depositMinTerm cur <= term <= m_depositMaxTerm cur ->
    calculateInterest cur amount term = Some (amount * term_rate cur term / (1000 * m_depositMaxTerm cur)) /\
    0 <= amount * term_rate cur term / (1000 * m_depositMaxTerm cur) <= amount) /\
  (term < m_depositMinTerm cur \/ m_depositMaxTerm cur < term -> calculateInterest cur amount term = None).
Proof.
  intros D Ha Ht. split; [intros H; apply calculateInterest_ok; assumption|]. intros H. unfold calculateInterest.
  replace (_ && _) with false; [reflexivity|]. symmetry. apply andb_false_iff. rewrite !Z.leb_gt. exact H.
Qed.

Lemma interest_witness : calculateInterest default_currency 100000000000 132000 = Some 5022500757.
Proof.
  destruct (interest_exact default_currency 100000000000 132000 default_deposit_ok) as [A _]; [split; lia|lia|].
  destruct A as [A _]; [vm_compute; split; discriminate|]. rewrite A. vm_compute. reflexivity.
Defined.

(** C33: the next difficulty looks at the first [m_difficultyWindow] entries only; of these it sorts
    the timestamps, drops the outliers on both sides, and returns the work of what is left times the
    target, divided by the time it took and rounded up, or 0 when that does not fit in 64 bits.  No
    assertion fails, and the order of the timestamps within the window does not matter. *)
Theorem next_difficulty_exact cur ts cds : difficulty_ok cur -> length ts = length cds -> (2 <= length ts)%nat ->
  Forall word64 ts -> Forall word64 cds -> StronglySorted Z.lt cds ->
  let w := firstn (m_difficultyWindow cur) in
  let '(b, e) := cut_range cur (length (w ts)) in
  let span := Z.max 1 (nth (e - 1) (zsort (w ts)) 0 - nth b (zsort (w ts)) 0) in
  let product := (nth (e - 1) (w cds) 0 - nth b (w cds) 0) * m_difficultyTarget cur in
  nextDifficulty cur ts cds = Some (if product + span - 1 <? 2 ^ 64 then (product + span - 1) / span else 0) /\
  (forall ts', length ts' = length ts -> Permutation (w ts') (w ts) -> Forall word64 ts' -> nextDifficulty cur ts' cds = nextDifficulty cur ts cds).
Proof.
  intros D L R Wt Wc Sc w. assert (w = firstn (m_difficultyWindow cur)) as Ew by reflexivity. clearbody w. pose proof (ok_window _ D) as Ow.
  assert (forall l, length l = length ts -> (2 <= length (w l) <= m_difficultyWindow cur)%nat /\ length (w l) = length (w cds)) as Lw
    by (intros l Hl; rewrite Ew, !length_firstn; lia).
  assert (forall l, Forall word64 l -> Forall word64 (w l)) as Fw by (intros l; rewrite Ew; apply Forall_prefix).
  assert (StronglySorted Z.lt (w cds)) as Sw by (rewrite Ew; apply sorted_firstn, Sc).
  destruct (Lw ts eq_refl) as [Rt Lt].
  pose proof (nextDifficulty_ok cur (w ts) (w cds) D Lt Rt (Fw _ Wt) (Fw _ Wc) Sw) as N. rewrite <- Lt in *.
  destruct (cut_range cur (length (w ts))) as [b e] eqn:Ec. cbv zeta in *. destruct N as [_ N]. rewrite (nextDifficulty_window cur ts cds L), <- Ew.
  split; [exact N|]. intros ts' L' P Wt'. rewrite (nextDifficulty_window cur ts' cds) by congruence. rewrite <- Ew, N.
  destruct (Lw ts' L') as [Rt' Lt']. pose proof (nextDifficulty_ok cur (w ts') (w cds) D ltac:(congruence) Rt' (Fw _ Wt') (Fw _ Wc) Sw) as N'.
  rewrite Lt', Ec in N'. cbv zeta in N'. destruct N' as [_ N']. rewrite N', (zsort_ext _ _ P). reflexivity.
Qed.

Lemma next_difficulty_witness : nextDifficulty default_currency [1000; 1240; 1700] [5; 15; 35] = Some 11 /\
  nextDifficulty default_currency [1700; 1000; 1240] [5; 15; 35] = nextDifficulty default_currency [1000; 1240; 1700] [5; 15; 35].
Proof.
  destruct (next_difficulty_exact default_currency [1000; 1240; 1700] [5; 15; 35] default_difficulty_ok) as [A P];
    [reflexivity|cbn; lia|repeat constructor; lia|repeat constructor; lia|repeat constructor; lia|].
  split; [rewrite A; vm_compute; reflexivity|]. apply P; [reflexivity| |repeat constructor; lia].
  apply (Permutation_cons_append [1000; 1240] 1700).
Defined.

(** C31: the deposit index refines a log of one amount and one interest per block.  In every state
    that pushing and popping blocks can reach there is such a log with the number of blocks of the
    index, and every operation agrees with it: totals and queries by height are sums over the log
    and over its prefixes; a block is refused, on an assertion, exactly when a sum would leave its
    range; [popBlocks] keeps the prefix below the height. *)
Theorem deposit_index_refines d : index_reachable d -> exists bs, refines d bs /\ size d = Z.of_nat (length bs) /\
  fullDepositAmount d = amounts bs /\ fullInterestAmount d = interests bs /\
  (forall h, 0 <= h -> depositAmountAtHeight d h = amounts (firstn (Z.to_nat (h + 1)) bs) /\
    depositInterestAtHeight d h = interests (firstn (Z.to_nat (h + 1)) bs)) /\
  (forall a i, - 2 ^ 63 <= a < 2 ^ 63 -> word64 i -> size d + 1 < 2 ^ 32 ->
    match pushBlock a i d with
    | Some d' => pushable bs a i = true /\ refines d' (bs ++ [(a, i)]) /\ popBlock d' = Some d
    | None => pushable bs a i = false
    end) /\
  (popBlock d = None <-> bs = []) /\
  (forall from, 0 <= from -> fst (popBlocks from d) = Z.max 0 (size d - from) /\
    refines (snd (popBlocks from d)) (firstn (Z.to_nat from) bs)).
Proof.
  intros H. destruct (index_reachable_refines d H) as [bs R]. exists bs. split; [exact R|].
  assert (size d = Z.of_nat (length bs)) as S by apply R. split; [exact S|]. destruct (full_ok _ _ R) as [FA FI].
  split; [exact FA|]. split; [exact FI|]. split; [|split; [|split]].
  - intros h Hh. split; [apply amountAtHeight_ok|apply interestAtHeight_ok]; assumption.
  - intros a i Ha Hi Hs. pose proof (pushBlock_ok d bs a i R Ha Hi ltac:(lia)) as P. destruct (pushBlock a i d) as [d'|]; [|exact P].
    destruct P as [Pb R']. split; [exact Pb|]. split; [exact R'|]. destruct (popBlock_ok _ _ _ R') as (d'' & -> & R'').
    f_equal. apply (refines_unique _ _ bs); assumption.
  - split.
    + intros E. induction bs as [|b bs _] using rev_ind; [reflexivity|]. destruct (popBlock_ok _ _ _ R) as (d' & E' & _). congruence.
    + intros ->. apply popBlock_empty, R.
  - intros from Hf. rewrite S. apply popBlocks_ok; assumption.
Qed.

Lemma deposit_index_witness : exists d, pushBlock 100 7 empty_index = Some d /\ fullDepositAmount d = 100 /\
  depositInterestAtHeight d 3 = 7 /\ popBlock d = Some empty_index.
Proof.
  destruct (deposit_index_refines empty_index index_empty) as (bs & _ & _ & _ & _ & _ & P & _).
  specialize (P 100 7 ltac:(lia) ltac:(split; lia) ltac:(cbn; lia)). destruct (pushBlock 100 7 empty_index) as [d|] eqn:E; [|discriminate E].
  exists d. split; [reflexivity|]. injection E as <-. split; [reflexivity|]. split; [reflexivity|]. apply P.
Defined.
