(* ===== verification/TransfersSpec.v ===== *)
(** * What the container of transfers guarantees

    The theorems about the outputs of an account, for every container that operations
    lead to, and their witnesses on a container that receives, spends and detaches. *)

From Stdlib Require Import ZArith Lia List Bool Sorted.
From S2P Require Import Prelude Bytes IntUtil Currency TxStore Blockchain TransactionExtra TransfersContainer TransfersInvariant TransfersSteps TransfersOps TransfersAdd.
From stdpp Require Import gmap list.
Import ListNotations.
Open Scope Z_scope.
Open Scope transfers_scope.
Set Default Goal Selector "!".

(** ** Runs *)

Section Runs.
Context {HO : HashOrder} {CO : Codec}.
Variable age : Z.

(** What the caller knows when it confirms a transaction. *)
Record arriving (c : container) (block : TransactionBlockInfo) (globalIndices : list Z) : Prop := {
  ar_height : 0 <= tb_height block <= UNCONFIRMED;
  ar_indices : Forall (fun g => g <> UNCONFIRMED_TRANSACTION_GLOBAL_OUTPUT_INDEX) globalIndices;
  ar_order : Forall (fun ti => ti_blockHeight ti <> UNCONFIRMED -> ti_blockHeight ti <= tb_height block) (m_transactions c)
}.

(** The containers that operations which return lead to. *)
Inductive container_run : container -> Prop :=
| run_empty : container_run empty_container
| run_add c block t transfers messages id r c' : container_run c -> new_transaction (content c) block t transfers ->
    addTransaction age block t transfers messages id c = Done r c' -> container_run c'
| run_confirm c block h globalIndices r c' : container_run c -> arriving c block globalIndices ->
    markTransactionConfirmed age block h globalIndices c = Done r c' -> container_run c'
| run_delete c h r c' : container_run c -> deleteUnconfirmedTransaction age h c = Done r c' -> container_run c'
| run_detach c height r c' : container_run c -> 0 <= height < UNCONFIRMED -> detach age height c = Done r c' -> container_run c'
| run_advance c height r c' : container_run c -> height < UNCONFIRMED -> advanceHeight height c = Done r c' -> container_run c'
| run_message c block t messages id r c' : container_run c -> addTransactionBM block t messages id c = Done r c' -> container_run c'.

Lemma represents_content c a : represents age c a -> represents age c (content c).
Proof. intros R. apply (represents_equiv age a); [symmetry; apply (ho_content _ _ _ _ _ _ (proj1 R))|exact R]. Qed.

Lemma represents_equiv_content c a : represents age c a -> account_equiv (content c) a.
Proof. intros [H _]. apply H. Qed.

Lemma empty_represents : represents age empty_container (content empty_container).
Proof.
  split.
  - constructor; [reflexivity|reflexivity| |split; constructor| |constructor].
    + constructor; cbn; repeat constructor.
    + intros image _. constructor; cbn; [congruence|congruence|constructor].
  - constructor; cbn; try constructor; cbn; try constructor. intros s l1 l2 [].
Qed.

Lemma message_ok block t messages id c r c' : addTransactionBM block t messages id c = Done r c' -> exists l, c' = with_transactionsBM l c.
Proof.
  unfold addTransactionBM, bind, gets, throw, modify, ret, lift. destruct (_ <? _); [discriminate|]. destruct (find_transaction _ _).
  - intros [= _ <-]. exists (m_transactionsBM c). destruct c. reflexivity.
  - destruct (getTransactionPublicKeyFromExtra _); [|discriminate]. destruct (emplace_transaction _ _) as [infos|]; [|discriminate]. intros [= _ <-]. exists infos. reflexivity.
Qed.

Lemma represents_message c a l : represents age c a -> represents age (with_transactionsBM l c) a.
Proof. intros [[Eh Ec O [J S] V X] OK]. split; [|exact OK]. constructor; try assumption. constructor; assumption. Qed.

Lemma run_inv c : container_run c -> represents age c (content c) /\ 0 <= m_currentHeight c < UNCONFIRMED.
Proof.
  induction 1 as [|c block t transfers messages id r c' _ [R Hh] N E|c block h gi r c' _ [R Hh] [A1 A2 A3] E|c h r c' _ [R Hh] E|c height r c' _ [R Hh] L E|c height r c' _ [R Hh] L E|c block t messages id r c' _ [R Hh] E].
  - split; [exact empty_represents|]. cbn. unfold WALLET_LEGACY_UNCONFIRMED_TRANSACTION_HEIGHT. lia.
  - pose proof (container_add_ok age True _ c block t transfers messages id (or_intror Logic.I) R N ltac:(lia)) as W. rewrite E in W. destruct W as (L & _ & a' & R' & Eh & _).
    split; [exact (represents_content _ _ R')|]. rewrite Eh. unfold height_after. pose proof (nt_height _ _ _ _ N). destruct (Z.eqb_spec (tb_height block) UNCONFIRMED); lia.
  - pose proof (mark_ok age True _ c block h gi (or_intror Logic.I) R A1 A2 A3) as W. rewrite E in W. destruct W as (_ & Eh & W). rewrite Eh. split; [|exact Hh].
    destruct r; [destruct W as (info & _ & _ & _ & R'); exact (represents_content _ _ R')|destruct W as [-> _]; exact R].
  - pose proof (delete_unconfirmed_ok age _ c h R) as W. rewrite E in W. destruct W as [Eh W]. rewrite Eh. split; [|exact Hh].
    destruct r; [exact (represents_content _ _ (proj2 W))|destruct W as [-> _]; exact R].
  - pose proof (detach_ok age _ c height R L Hh) as W. rewrite E in W. cbn in W. destruct r as [hs locked]. destruct W as (_ & R' & Eh & _).
    split; [exact (represents_content _ _ R')|]. rewrite Eh. unfold height_below. destruct (Z.eqb_spec height 0); lia.
  - unfold advanceHeight in E. pose proof (advance_ok age _ _ _ c height (proj1 R) ltac:(lia) L) as W. rewrite E in W. destruct W as (L' & -> & _). split.
    + split; [|apply R]. exact (with_height_holds _ _ _ _ _ _ _ (proj1 R)).
    + cbn. lia.
  - destruct (message_ok _ _ _ _ _ _ _ E) as (l & ->). split; [|exact Hh]. apply (represents_content _ (content c)), represents_message, R.
Qed.

End Runs.

(** ** Lemmas for the theorems *)

Section Lemmas.
Context {HO : HashOrder} {CO : Codec}.
Variable age : Z.
Abbreviation unconfirmed_block block := (tb_height block =? UNCONFIRMED).

Lemma same_hash l (x y : TransactionInformation) : List.NoDup (map ti_transactionHash l) -> In x l -> In y l -> ti_transactionHash x = ti_transactionHash y -> x = y.
Proof.
  intros N I J E. pose proof (find_key ti_transactionHash l x N I) as F. pose proof (find_key ti_transactionHash l y N J) as F'. rewrite E in F. congruence.
Qed.

Lemma deleted_in a height h : In h (deleted a height) <-> exists ti, In ti (a_transactions a) /\ doomed a height ti = true /\ ti_transactionHash ti = h.
Proof.
  unfold deleted. rewrite in_map_iff. split; intros (ti & H).
  - destruct H as [E I]. apply List.filter_In in I as [I D]. apply in_rev in I. exists ti. auto.
  - destruct H as (I & D & E). exists ti. split; [exact E|]. apply List.filter_In. split; [rewrite <- in_rev; exact I|exact D].
Qed.

(** What is left after [detach] lies below the height. *)
Lemma left_below a height x : account_ok (without (deleted a height) a) ->
  In x (a_available (without (deleted a height) a) ++ map sp_ex (a_spent (without (deleted a height) a))) -> ex_blockHeight x < height.
Proof.
  intros OK I. set (b := without (deleted a height) a) in *.
  assert (confirmed_output (known (a_transactions b)) x) as (X1 & _ & (ti & J & Eh & Ez)).
  { destruct (ok_outputs _ OK) as [_ _ HA HS _ _]. rewrite List.Forall_forall in *. apply in_app_iff in I as [I|I]; [exact (HA x I)|].
    apply in_map_iff in I as (s & <- & I). apply (HS s I). }
  cbn in J. apply List.filter_In in J as [J D]. apply negb_true_iff, among_false in D. destruct (Z.lt_ge_cases (ex_blockHeight x) height) as [|L]; [assumption|].
  destruct D. apply deleted_in. exists ti. split; [exact J|]. split; [|reflexivity]. unfold doomed. rewrite (proj2 (Z.eqb_neq _ _)) by congruence. apply Z.leb_le. lia.
Qed.

Section View.
Variables (a a' : account) (block : TransactionBlockInfo) (t : Transaction) (xs : list TransactionOutputInformationEx) (D : list SpentTransactionOutput)
  (info : TransactionInformation) (height : Z).
Hypothesis OK : account_ok a.
Hypothesis A : transaction_added a block t xs D info a'.
Hypothesis Fresh : ~ In (getObjectHash t) (map ti_transactionHash (a_transactions a)).
Hypothesis Xs : Forall (fun x => hash_of x = getObjectHash t) xs.
Hypothesis Hb : tb_height block <> UNCONFIRMED.
Hypothesis Hh : height <= tb_height block.

Lemma doomed_old ti : In ti (a_transactions a) -> doomed a' height ti = doomed a height ti.
Proof.
  intros I. unfold doomed. destruct (_ =? _); [|reflexivity]. rewrite (ta_spent _ _ _ _ _ _ _ A), existsb_app.
  replace (existsb _ D) with false; [reflexivity|]. symmetry. apply not_true_iff_false. intros X. apply existsb_exists in X as (s & J & X). apply andb_true_iff in X as [X _].
  apply bool_decide_eq_true in X. pose proof (ta_inputs _ _ _ _ _ _ _ A) as F. rewrite List.Forall_forall in F. destruct (F s J) as (_ & Es & _).
  apply Fresh. rewrite <- Es, X. apply in_map, I.
Qed.

Lemma deleted_new h : among (deleted a' height) h = among (deleted a height) h || bool_decide (h = getObjectHash t).
Proof.
  apply eq_true_iff_eq. rewrite orb_true_iff, !among_spec, bool_decide_eq_true, !deleted_in. setoid_rewrite (ta_transactions _ _ _ _ _ _ _ A). split.
  - intros (ti & I & Dm & E). rewrite info_insert_perm in I. destruct I as [<-|I]; [right; rewrite <- E; exact (ta_hash _ _ _ _ _ _ _ A)|].
    left. exists ti. rewrite <- (doomed_old ti I). auto.
  - intros [(ti & I & Dm & E)|E].
    + exists ti. rewrite (doomed_old ti I). split; [rewrite info_insert_perm; right; exact I|auto].
    + exists info. split; [rewrite info_insert_perm; left; reflexivity|]. split; [|rewrite E; exact (ta_hash _ _ _ _ _ _ _ A)].
      unfold doomed. rewrite (ta_block _ _ _ _ _ _ _ A), (proj2 (Z.eqb_neq _ _) Hb). apply Z.leb_le, Hh.
Qed.

Lemma old_hash {B} (f : B -> bytes) l : (forall x, In x l -> f x <> getObjectHash t) ->
  List.filter (fun x => negb (among (deleted a' height) (f x))) l = List.filter (fun x => negb (among (deleted a height) (f x))) l /\
  List.filter (fun x => among (deleted a' height) (f x)) l = List.filter (fun x => among (deleted a height) (f x)) l.
Proof.
  intros N. split; apply filter_ext_in; intros x I; rewrite deleted_new, (bool_decide_false _ (N x I)), orb_false_r; reflexivity.
Qed.

Lemma new_gone {B} (f : B -> bytes) l : Forall (fun x => f x = getObjectHash t) l ->
  List.filter (fun x => negb (among (deleted a' height) (f x))) l = [] /\ List.filter (fun x => among (deleted a' height) (f x)) l = l.
Proof.
  induction 1 as [|x l E F [IH1 IH2]]; [split; reflexivity|]. cbn. rewrite deleted_new, bool_decide_true, orb_true_r by exact E. cbn. rewrite IH1, IH2. auto.
Qed.

(** Detaching forgets the added transaction without a trace. *)
Lemma view_add : account_equiv (without (deleted a' height) a') (without (deleted a height) a).
Proof.
  pose proof OK as [O _ _ _ _].
  assert (forall x, In x (a_unconfirmed a ++ a_available a ++ map sp_ex (a_spent a)) -> o_transactionHash x <> getObjectHash t) as Old.
  { intros x I E. apply Fresh. rewrite <- E. exact (known_in _ _ _ (output_known a x O I)). }
  assert (forall s, In s (a_spent a) -> spendingTransactionHash s <> getObjectHash t) as OldS.
  { intros s I E. apply Fresh. rewrite <- E. pose proof (ok_spent _ _ O) as HS. rewrite List.Forall_forall in HS. exact (known_in _ _ _ (proj2 (HS s I))). }
  assert (Forall (fun s => spendingTransactionHash s = getObjectHash t) D) as ND by (apply (Forall_impl _ _ _ (ta_inputs _ _ _ _ _ _ _ A)); intros s (_ & E & _); exact E).
  assert (a_unconfirmed (add_received block xs a) = a_unconfirmed a /\ a_available (add_received block xs a) = a_available a ++ xs) as [EU EA]
    by (unfold add_received; rewrite (proj2 (Z.eqb_neq _ _) Hb); split; reflexivity).
  pose proof (ta_available _ _ _ _ _ _ _ A) as PA. rewrite EA in PA. unfold without.
  rewrite (ta_transactions _ _ _ _ _ _ _ A), (ta_unconfirmed _ _ _ _ _ _ _ A), (ta_spent _ _ _ _ _ _ _ A), EU.
  destruct (new_gone spendingTransactionHash D ND) as [G1 G2]. destruct (old_hash spendingTransactionHash (a_spent a) OldS) as [S1 S2].
  constructor; cbn [a_transactions a_unconfirmed a_available a_spent].
  - destruct (info_insert_split info (a_transactions a)) as (l1 & l2 & -> & El & _). rewrite List.filter_app. cbn [List.filter].
    rewrite deleted_new, (bool_decide_true _ (ta_hash _ _ _ _ _ _ _ A)), orb_true_r. cbn [negb]. rewrite <- List.filter_app, <- El. apply old_hash. intros ti I E. apply Fresh. rewrite <- E. apply in_map, I.
  - apply eq_subrelation; [exact _|]. apply (old_hash hash_of). intros x I. apply Old. rewrite !in_app_iff. auto.
  - rewrite (List.filter_app _ D), G2, S2, map_app.
    etransitivity; [apply filter_perm; rewrite app_assoc, (Permutation_app_comm (a_available a')); exact (Permutation_app_tail _ (symmetry PA))|].
    rewrite !List.filter_app, (proj1 (new_gone hash_of xs Xs)), app_nil_r. apply Permutation_app; apply eq_subrelation; try exact _; apply (old_hash hash_of).
    + intros x I. apply Old. rewrite !in_app_iff. auto.
    + intros x I. apply Old. rewrite !in_app_iff. right. right. apply in_map_iff in I as (s & <- & I). apply List.filter_In in I as [I _]. apply in_map, I.
  - rewrite List.filter_app, G1, S1. reflexivity.
Qed.
End View.

Lemma key_image_desc (x : TransactionOutputInformationIn) : is_key x = true -> getSpentOutputDescriptor x = ByKeyImage (keyImage x).
Proof. unfold is_key, getSpentOutputDescriptor. destruct (o_union x); [reflexivity|discriminate]. Qed.

(** The keys of the outputs in the container are different; available outputs are confirmed. *)
Lemma raw_keys T d a ht c : holds age T d a ht c -> List.NoDup (map key_of (m_unconfirmedTransfers c ++ m_availableTransfers c ++ map sp_ex (m_spentTransfers c))) /\
  (forall x, In x (m_availableTransfers c) -> ex_blockHeight x <> UNCONFIRMED).
Proof.
  intros H. pose proof (holds_raw _ _ _ _ _ _ H) as O. split; [exact (ok_keys _ _ O)|].
  intros x I. pose proof (ok_available _ _ O) as F. rewrite List.Forall_forall in F. apply (F x I).
Qed.

Lemma keys_apart (u a : list TransactionOutputInformationEx) (s : list SpentTransactionOutput) : List.NoDup (map key_of (u ++ a ++ map sp_ex s)) ->
  List.NoDup (map key_of u) /\ List.NoDup (map key_of a) /\ List.NoDup (map spent_key s) /\
  (forall x : TransactionOutputInformationEx, In x u -> ~ In (getTransactionOutputKey x) (map key_of a)) /\
  (forall x : SpentTransactionOutput, In x s -> ~ In (getTransactionOutputKey x) (map key_of u)) /\
  (forall x : SpentTransactionOutput, In x s -> ~ In (getTransactionOutputKey x) (map key_of a)).
Proof.
  rewrite !map_app, map_map. intros N. rewrite !nodup_app in N. destruct N as (Nu & (Na & Ns & Da) & Du).
  repeat split; try assumption; intros x I J.
  - apply (Du _ (in_map key_of _ x I)), in_app_iff. left. exact J.
  - apply (Du _ J), in_app_iff. right. exact (in_map spent_key _ x I).
  - apply (Da _ J). exact (in_map spent_key _ x I).
Qed.

(** Below the height nothing is deleted. *)
Lemma below_deleted a height : account_ok a -> Forall (fun ti => ti_blockHeight ti <> UNCONFIRMED -> ti_blockHeight ti < height) (a_transactions a) -> deleted a height = [].
Proof.
  intros [O _ _ _ _] F. destruct (deleted a height) as [|h l] eqn:E; [reflexivity|]. exfalso. assert (In h (deleted a height)) as I by (rewrite E; left; reflexivity).
  apply deleted_in in I as (ti & I & Dm & _). rewrite List.Forall_forall in F. unfold doomed in Dm. destruct (Z.eqb_spec (ti_blockHeight ti) UNCONFIRMED) as [Eu|Nu].
  - apply existsb_exists in Dm as (s & J & X). apply andb_true_iff in X as [_ X]. apply Z.leb_le in X.
    destruct (output_known a (sp_ex s) O) as (tj & Jj & _ & Ej); [rewrite !in_app_iff; right; right; apply in_map, J|].
    pose proof (ok_spent _ _ O) as HS. rewrite List.Forall_forall in HS. destruct (HS s J) as [(X1 & _) _]. specialize (F tj Jj). rewrite Ej in F. specialize (F X1). lia.
  - apply Z.leb_le in Dm. specialize (F ti I Nu). lia.
Qed.

End Lemmas.

(** ** Theorems *)

Section Claims.
Context {HO : HashOrder} {CO : Codec}.
Variable age : Z.

(** C7: in every state that operations which return lead to from the empty container, additions being of transactions whose transfers
    are different outputs of the transaction with their amounts and keys, and blocks coming in the order of
    heights, the container represents its content: the outputs of the account have different keys, are
    confirmed or not as their transactions are, no key image and no multisignature output is spent twice,
    there is one unlock job for each available output, and of the outputs with one key image the right one
    is visible.  In these states, and for such additions and confirmations, no assertion of the code fails: adding
    and confirming a transaction return or throw, and deleting a transaction, detaching the chain and
    advancing the height return.  The states that an exception leaves and those that [load] makes are not
    among them. *)
Theorem transfers_invariant c : container_run age c ->
  represents age c (content c) /\ 0 <= m_currentHeight c < UNCONFIRMED /\
  (forall block t transfers messages id, new_transaction (content c) block t transfers -> addTransaction age block t transfers messages id c <> Abort) /\
  (forall block h globalIndices, arriving c block globalIndices -> markTransactionConfirmed age block h globalIndices c <> Abort) /\
  (forall h, exists r c', deleteUnconfirmedTransaction age h c = Done r c' /\ represents age c' (content c')) /\
  (forall height, 0 <= height < UNCONFIRMED -> exists r c', detach age height c = Done r c' /\ represents age c' (content c')) /\
  (forall height, m_currentHeight c <= height < UNCONFIRMED -> exists r c', advanceHeight height c = Done r c' /\ represents age c' (content c')).
Proof.
  intros Run. pose proof (run_inv age c Run) as [R Hh].
  split; [exact R|]. split; [exact Hh|]. repeat split.
  - intros block t transfers messages id N E. pose proof (container_add_ok age True _ c block t transfers messages id (or_intror Logic.I) R N ltac:(lia)) as W. rewrite E in W. exact W.
  - intros block h gi [A1 A2 A3] E. pose proof (mark_ok age True _ c block h gi (or_intror Logic.I) R A1 A2 A3) as W. rewrite E in W. exact W.
  - intros h. pose proof (delete_unconfirmed_ok age _ c h R) as W. destruct (deleteUnconfirmedTransaction age h c) as [|e c'|r c'] eqn:E; try contradiction.
    exists r, c'. split; [reflexivity|]. exact (proj1 (run_inv age c' (run_delete age c h r c' Run E))).
  - intros height L. pose proof (detach_ok age _ c height R L Hh) as W. destruct (detach age height c) as [|e c'|r c'] eqn:E; try contradiction.
    exists r, c'. split; [reflexivity|]. exact (proj1 (run_inv age c' (run_detach age c height r c' Run L E))).
  - intros height [L U]. pose proof (advance_ok age _ _ _ c height (proj1 R) ltac:(lia) U) as W. fold (advanceHeight height c) in W.
    destruct (advanceHeight height c) as [|e c'|r c'] eqn:E; cbn in W; [contradiction|lia|].
    exists r, c'. split; [reflexivity|]. exact (proj1 (run_inv age c' (run_advance age c height r c' Run U E))).
Qed.

(** C20: adding a transaction.  A block below the height of the container and a transaction it knows are
    refused without a change.  Otherwise, when indices, amounts and key images are right, the transfers of
    the account are received, each input that refers to an available output spends one of its amount, the
    transaction is recorded when it concerns the account, and the outputs that unlock are reported. *)
Theorem addition_exact c block t transfers messages id : container_run age c ->
  (tb_height block < m_currentHeight c -> addTransaction age block t transfers messages id c = Throw BlockBelowHeight c) /\
  (m_currentHeight c <= tb_height block -> In (getObjectHash t) (map ti_transactionHash (m_transactions c)) ->
    addTransaction age block t transfers messages id c = Throw AlreadyAdded c) /\
  (new_transaction (content c) block t transfers -> addition_fine (content c) (m_currentHeight c) block t transfers ->
    exists added unlocked c' a', addTransaction age block t transfers messages id c = Done (added, unlocked) c' /\ account_equiv (content c') a' /\
      m_currentHeight c' = height_after block (m_currentHeight c) /\ unlocked ≡ₚ unlocked_after age block (m_currentHeight c) a' /\
      if added then exists D info, transaction_added (content c) block t (received block t transfers) D info a'
      else a' = content c /\ received block t transfers = [] /\
        Forall (fun input => Forall (fun x => ~ refers input x) (map strip (m_availableTransfers c))) (inputs t)).
Proof.
  intros Run. pose proof (run_inv age c Run) as [R Hh]. split; [|split].
  - intros L. unfold addTransaction. run. rewrite (proj2 (Z.ltb_lt _ _) L). reflexivity.
  - intros L I. unfold addTransaction. run. rewrite (proj2 (Z.ltb_ge _ _) L). unfold find_transaction.
    destruct (List.find _ _) eqn:F; [reflexivity|]. apply (find_key_none ti_transactionHash) in F. contradiction.
  - intros N Fine. pose proof (container_add_ok age False _ c block t transfers messages id (or_introl Fine) R N ltac:(lia)) as W.
    destruct (addTransaction age block t transfers messages id c) as [|e c'|[added unlocked] c'] eqn:E; try contradiction.
    destruct W as (_ & _ & a' & R' & Eh & Pu & W). cbn [fst snd] in *. exists added, unlocked, c', a'. split; [reflexivity|].
    split; [exact (represents_equiv_content age _ _ R')|]. split; [exact Eh|]. split; [exact Pu|].
    destruct added; [destruct W as (D & info & _ & W); eauto|]. destruct W as (E1 & E2 & E3). split; [exact E1|]. split; [apply received_none, E2|exact E3].
Qed.

(** C38: confirming a transaction.  When the global indices suffice and its multisignature outputs are new,
    its outputs become available with their indices, the outputs it spends carry its block, and its record
    moves to the height of the block; a transaction that is not waiting leaves the container as it was. *)
Theorem confirmation_exact c block h globalIndices : container_run age c -> arriving c block globalIndices -> confirmation_fine (content c) block h globalIndices ->
  (~ known (m_transactions c) h UNCONFIRMED -> markTransactionConfirmed age block h globalIndices c = Done false c) /\
  (forall info, In info (m_transactions c) -> ti_transactionHash info = h -> ti_blockHeight info = UNCONFIRMED ->
    exists c', markTransactionConfirmed age block h globalIndices c = Done true c' /\ m_currentHeight c' = m_currentHeight c /\
      account_equiv (content c') (confirm_account block globalIndices info (content c))).
Proof.
  intros Run [A1 A2 A3] Fine. pose proof (run_inv age c Run) as [R Hh].
  pose proof (mark_ok age False _ c block h globalIndices (or_introl Fine) R A1 A2 A3) as W.
  destruct (markTransactionConfirmed age block h globalIndices c) as [|e c'|r c'] eqn:E; try contradiction. destruct W as (_ & Eh & W). split.
  - intros K. destruct r; [|destruct W as [-> _]; reflexivity]. destruct W as (info & I & Eq & Eu & _). destruct K. exists info. auto.
  - intros info I Eq Eu. destruct r; [|destruct W as [_ K]; destruct K; exists info; auto]. destruct W as (info' & I' & Eq' & _ & R').
    assert (info' = info) as -> by (apply (same_hash (m_transactions c) info' info (ok_hashes _ (proj2 R)) I' I); congruence).
    exists c'. split; [reflexivity|]. split; [exact Eh|]. exact (represents_equiv_content age _ _ R').
Qed.

(** C21: detaching the chain at a height.  The deleted transactions are those in blocks from the height on
    and the waiting ones that spend an output received there; their outputs are gone, the outputs they spent
    are available again, nothing of the height or above is left, and the reported outputs are those
    whose unlock height lies above the new height of the container but not above the old one. *)
Theorem detach_exact c height : container_run age c -> 0 <= height < UNCONFIRMED ->
  exists locked c', detach age height c = Done (deleted (content c) height, locked) c' /\
    account_equiv (content c') (without (deleted (content c) height) (content c)) /\ m_currentHeight c' = height_below height /\
    (forall x, In x (m_availableTransfers c' ++ map sp_ex (m_spentTransfers c')) -> ex_blockHeight x < height) /\
    locked ≡ₚ (if m_currentHeight c <? height_below height then []
      else map info_of (List.filter (unlocks_between age (height_below height + 1) (m_currentHeight c + 1)) (m_availableTransfers c'))).
Proof.
  intros Run L. pose proof (run_inv age c Run) as [R Hh]. pose proof (detach_ok age _ c height R L Hh) as W.
  destruct (detach age height c) as [|e c'|[hs locked] c'] eqn:E; try contradiction. destruct W as (-> & R' & Eh & P). exists locked, c'.
  pose proof (represents_equiv_content age _ _ R') as Q. split; [reflexivity|]. split; [exact Q|]. split; [exact Eh|]. split.
  - intros x I. apply (left_below (content c) height (strip x) (proj2 R')). rewrite in_app_iff in *. destruct Q as [_ _ Qa Qs]. destruct I as [I|I]; [left|right].
    + rewrite <- Qa. apply in_map, I.
    + rewrite <- Qs. cbn. rewrite map_map. apply in_map_iff in I as (s & <- & I). apply in_map_iff. exists s. auto.
  - rewrite P. destruct (_ <? _); [reflexivity|]. rewrite <- (filter_perm _ _ _ (ae_a _ _ Q)). cbn. rewrite filter_map_comm, map_map. reflexivity.
Qed.

(** C9: a transaction that arrives in a block and is detached leaves no trace: detaching at a height up to
    that of its block gives the same transactions, outputs and height as detaching before it was added;
    when everything confirmed lies below the height, that is the content the container had. *)
Theorem add_detach_roundtrip c block t transfers messages id r c1 height :
  container_run age c -> new_transaction (content c) block t transfers -> addTransaction age block t transfers messages id c = Done r c1 ->
  0 <= height <= tb_height block -> tb_height block <> UNCONFIRMED ->
  exists r1 c2 r2 c3, detach age height c1 = Done r1 c2 /\ detach age height c = Done r2 c3 /\ account_equiv (content c2) (content c3) /\ m_currentHeight c2 = m_currentHeight c3 /\
    (Forall (fun ti => ti_blockHeight ti <> UNCONFIRMED -> ti_blockHeight ti < height) (m_transactions c) -> account_equiv (content c2) (content c)).
Proof.
  intros Run N E Hh Hb. pose proof (nt_height _ _ _ _ N) as Hn. pose proof (run_inv age c Run) as [R Hc]. pose proof (run_inv age c1 (run_add age c block t transfers messages id r c1 Run N E)) as [R1 Hc1].
  pose proof (container_add_ok age True _ c block t transfers messages id (or_intror Logic.I) R N ltac:(lia)) as W. rewrite E in W. destruct W as (_ & Fresh & a' & R' & _ & _ & W).
  pose proof (detach_ok age _ c1 height R' ltac:(lia) Hc1) as W1. pose proof (detach_ok age _ c height R ltac:(lia) Hc) as W2.
  destruct (detach age height c1) as [|e c2|[hs1 l1] c2]; try contradiction. destruct (detach age height c) as [|e c3|[hs2 l2] c3]; try contradiction.
  destruct W1 as (-> & R2 & E2 & _). destruct W2 as (-> & R3 & E3 & _). pose proof (represents_equiv_content age _ _ R2) as Q2. pose proof (represents_equiv_content age _ _ R3) as Q3.
  assert (account_equiv (without (deleted a' height) a') (without (deleted (content c) height) (content c))) as V.
  { destruct r as [[|] u]; cbn in W; [|destruct W as [-> _]; reflexivity]. destruct W as (D & info & _ & A).
    apply (view_add (content c) a' block t (received block t transfers) D info height); try assumption; [apply R| |lia]. apply Forall_map, List.Forall_forall. reflexivity. }
  do 4 eexists. split; [reflexivity|]. split; [reflexivity|]. split; [rewrite Q2, Q3; exact V|]. split; [congruence|].
  intros F. rewrite Q2, V, (below_deleted _ _ (proj2 R) F). apply without_none.
Qed.

Variable cur : currency.
Variable now : Z.

(** C22: no key image counts twice in a balance.  The key outputs that [balance] adds up have different key
    images and none of these is spent, whatever the flags; they are available or unconfirmed outputs of the
    container, and the balance is the sum of their amounts modulo 2^64, those that [getOutputs] lists. *)
Theorem balance_counts_once c flags : container_run age c ->
  let key_outputs := List.filter (fun x : TransactionOutputInformationEx => is_key x) (selected cur age now flags c) in
  List.NoDup (map keyImage (map ex_in key_outputs)) /\
  (forall x s, In x key_outputs -> In s (m_spentTransfers c) -> is_key s = true -> keyImage x <> keyImage s) /\
  (forall x, In x (selected cur age now flags c) -> In x (m_unconfirmedTransfers c ++ m_availableTransfers c)) /\
  getOutputs cur age now [] flags c = map in_info (map ex_in (selected cur age now flags c)) /\
  balance cur age now flags c = u64 (sum_amounts (getOutputs cur age now [] flags c)).
Proof.
  intros Run. destruct (run_inv age c Run) as [[H _] _]. destruct (selected_once cur age now _ _ _ _ flags H) as [N S]. cbv zeta.
  split; [|split; [|split; [|split; [reflexivity|apply balance_sum]]]].
  - rewrite map_map. rewrite (map_ext_in desc_of (fun x : TransactionOutputInformationEx => ByKeyImage (keyImage x))) in N.
    + rewrite <- (map_map (fun x : TransactionOutputInformationEx => keyImage x) ByKeyImage) in N. exact (NoDup_map_inv _ _ N).
    + intros x I. apply List.filter_In in I as [_ K]. apply key_image_desc, K.
  - intros x s I J K E. apply (S x I). apply in_map_iff. exists s. split; [|exact J]. apply List.filter_In in I as [_ Kx]. rewrite (key_image_desc _ Kx), (key_image_desc _ K). congruence.
  - intros x I. exact (proj1 (selected_in cur age now flags c x I)).
Qed.

(** C23: when the height advances, the outputs reported as unlocked are exactly the available ones with an unlock job between the old
    height and the new one (from height 0, up to the new one).  For an output that is locked by a height (not
    by a time, and with no sum over 32 bits), when the currency allows one block of delay, these are exactly the
    outputs that may be spent at the new height and could not at the old one (from height 0, all that may be
    spent).  For outputs locked by a time nothing of the kind is claimed: the code takes their time for a height. *)
Theorem unlocking_exact c height : container_run age c -> m_currentHeight c <= height < UNCONFIRMED ->
  exists unlocked, advanceHeight height c = Done unlocked (with_height height c) /\
    unlocked ≡ₚ map info_of (List.filter (unlocks_between age (reported (m_currentHeight c)) (height + 1)) (m_availableTransfers c)) /\
    (m_lockedTxAllowedDeltaBlocks cur = 1 -> forall x, In x (m_availableTransfers c) -> by_height cur age x ->
      unlocks_between age (reported (m_currentHeight c)) (height + 1) x =
        spendable cur age now height x && ((m_currentHeight c =? 0) || negb (spendable cur age now (m_currentHeight c) x))).
Proof.
  intros Run [L U]. destruct (run_inv age c Run) as [[H _] Hc]. pose proof (advance_ok age _ _ _ c height H ltac:(lia) U) as W. fold (advanceHeight height c) in W.
  destruct (advanceHeight height c) as [|e c'|os c']; cbn in W; [contradiction|lia|]. destruct W as (_ & -> & P). exists os. split; [reflexivity|]. split.
  - rewrite P. cbn. rewrite filter_map_comm, map_map. reflexivity.
  - intros Ed x _ F. unfold unlocks_between. rewrite !(job_exact cur age now x) by (auto; lia). f_equal. unfold reported.
    destruct (Z.eqb_spec (m_currentHeight c) 0) as [E|E]; cbn [orb]; [apply Z.ltb_lt; pose proof (job_nonneg age x); lia|]. rewrite Z.ltb_antisym. reflexivity.
Qed.

(** Looking up an output.  [getTransfer] finds the available and the unconfirmed outputs, with the state
    that the locks give, and answers false for an output the container does not have; for a spent output it
    reads through an iterator at the end, where the state of spent outputs was to be reported. *)
Theorem transfer_lookup c h index : container_run age c ->
  let k := (h, index) in
  (forall x, In x (m_availableTransfers c) -> getTransactionOutputKey x = k ->
    getTransfer cur age now h index c = Done (Some (in_info x, if spendable cur age now (m_currentHeight c) x then TransferAvailable else TransferLocked)) c) /\
  (forall x, In x (m_unconfirmedTransfers c) -> getTransactionOutputKey x = k -> getTransfer cur age now h index c = Done (Some (in_info x, TransferUnconfirmed)) c) /\
  (forall x, In x (m_spentTransfers c) -> getTransactionOutputKey x = k -> getTransfer cur age now h index c = Abort) /\
  (~ In k (map key_of (m_unconfirmedTransfers c ++ m_availableTransfers c ++ map sp_ex (m_spentTransfers c))) -> getTransfer cur age now h index c = Done None c).
Proof.
  intros Run k. destruct (run_inv age c Run) as [[H _] _]. destruct (raw_keys age _ _ _ _ _ H) as (N & Cx). unfold getTransfer. run. fold k.
  apply keys_apart in N as (Nu & Na & Ns & Dua & Dus & Das). repeat split.
  - intros x I E. unfold find_output. rewrite <- E. rewrite (find_key key_of _ x Na I). unfold spendable, state_of. rewrite (proj2 (Z.eqb_neq _ _) (Cx x I)). cbn [orb].
    destruct (isSpendTimeUnlocked _ _ _ _); cbn [negb orb]; [|reflexivity]. destruct (soft_locked _ _ _); reflexivity.
  - intros x I E. unfold find_output. rewrite <- E. rewrite (proj1 (find_key_none key_of (m_availableTransfers c) _) (Dua x I)). rewrite (find_key key_of _ x Nu I). reflexivity.
  - intros x I E. unfold find_output, find_spent. rewrite <- E. rewrite (proj1 (find_key_none key_of (m_availableTransfers c) _) (Das x I)).
    rewrite (proj1 (find_key_none key_of (m_unconfirmedTransfers c) _) (Dus x I)), (find_key spent_key _ x Ns I). reflexivity.
  - rewrite !map_app, !in_app_iff, map_map. intros F. unfold find_output, find_spent.
    rewrite (proj1 (find_key_none key_of (m_availableTransfers c) _)) by tauto. rewrite (proj1 (find_key_none key_of (m_unconfirmedTransfers c) _)) by tauto.
    rewrite (proj1 (find_key_none spent_key (m_spentTransfers c) _)) by tauto. reflexivity.
Qed.

End Claims.

(** ** Witnesses

    Transactions are told apart by their extra fields.  Two receive outputs with the same key image at the
    heights 5 and 6, the third spends the first of them at the height 9, a fourth waits for its block. *)

#[local] Instance sample_codec : Codec := {
  get_block_hash b := [nonce b];
  get_block_longhash _ := Some (repeat 0 32);
  getObjectHash t := extra t;
  getPrefixHash t := extra t;
  getObjectBinarySize _ := 100;
  getPaymentId _ := None
}.

#[local] Instance insertion_order : HashOrder := { arrange A l := l; arrange_perm A l := Permutation_refl l }.

Definition sample_transfer (amount index : Z) (image : bytes) : TransactionOutputInformationIn :=
  mk_in (mk_output_info (KeyData [1]) amount index 0 [] [] ACCOUNT_OWN_ID) image.
Definition sample_receive (amount id : Z) : Transaction := mk_tx 1 0 [BaseInput 0] [mk_output amount (KeyOutput [1])] [id] [].
Definition sample_spend : Transaction := mk_tx 1 0 [KeyInput 100 [0] [77]] [mk_output 90 (KeyOutput [2])] [63] [[[1]]].
Definition sample_block (height : Z) : TransactionBlockInfo := mk_block_info height 1000 0.

Definition final {A} (o : outcome A) : container := match o with Done _ c => c | _ => empty_container end.
Definition sample1 : container := Eval vm_compute in final (addTransaction 2 (sample_block 5) (sample_receive 100 61) [sample_transfer 100 7 [77]] [] 0 empty_container).
Definition sample2 : container := Eval vm_compute in final (addTransaction 2 (sample_block 6) (sample_receive 40 62) [sample_transfer 40 8 [77]] [] 0 sample1).
Definition sample3 : container := Eval vm_compute in final (addTransaction 2 (sample_block 9) sample_spend [] [] 0 sample2).
Definition sample4 : container := Eval vm_compute in
  final (addTransaction 2 (sample_block UNCONFIRMED) (sample_receive 30 64) [sample_transfer 30 UNCONFIRMED_TRANSACTION_GLOBAL_OUTPUT_INDEX [78]] [] 0 sample2).

(** Bounds of concrete numbers, and properties of the members of concrete lists. *)
Ltac bounds := repeat split; try (apply Z.leb_le; vm_compute; reflexivity); try (apply Z.ltb_lt; vm_compute; reflexivity); try (vm_compute; discriminate).
Ltac members := repeat first [apply list.Forall_cons; split | apply list.Forall_nil; exact Logic.I]; intros; try (match goal with N : _ <> _ |- _ => destruct N; vm_compute; reflexivity end); bounds.

Lemma sample_new1 : new_transaction (content empty_container) (sample_block 5) (sample_receive 100 61) [sample_transfer 100 7 [77]].
Proof. constructor; [members|repeat constructor; intros []|members|bounds|members]. Qed.
Lemma sample_new2 : new_transaction (content sample1) (sample_block 6) (sample_receive 40 62) [sample_transfer 40 8 [77]].
Proof. constructor; [members|repeat constructor; intros []|members|bounds|members]. Qed.
Lemma sample_new3 : new_transaction (content sample2) (sample_block 9) sample_spend [].
Proof. constructor; [members|repeat constructor|members|bounds|members]. Qed.
Lemma sample_new4 : new_transaction (content sample2) (sample_block UNCONFIRMED) (sample_receive 30 64) [sample_transfer 30 UNCONFIRMED_TRANSACTION_GLOBAL_OUTPUT_INDEX [78]].
Proof. constructor; [members|repeat constructor; intros []|members|bounds|members]. Qed.

Lemma sample_run1 : container_run 2 sample1.
Proof. eapply run_add; [apply run_empty|exact sample_new1|vm_compute; reflexivity]. Qed.
Lemma sample_run2 : container_run 2 sample2.
Proof. eapply run_add; [exact sample_run1|exact sample_new2|vm_compute; reflexivity]. Qed.
Lemma sample_run3 : container_run 2 sample3.
Proof. eapply run_add; [exact sample_run2|exact sample_new3|vm_compute; reflexivity]. Qed.
Lemma sample_run4 : container_run 2 sample4.
Proof. eapply run_add; [exact sample_run2|exact sample_new4|vm_compute; reflexivity]. Qed.

Lemma transfers_invariant_witness : exists r c', detach 2 6 sample3 = Done r c' /\ represents 2 c' (content c').
Proof. destruct (transfers_invariant 2 sample3 sample_run3) as (_ & _ & _ & _ & _ & D & _). apply D. split; [discriminate|reflexivity]. Defined.

Lemma sample_fine3 : addition_fine (content sample2) (m_currentHeight sample2) (sample_block 9) sample_spend [].
Proof.
  constructor; [bounds|vm_compute; intuition discriminate| |].
  - constructor; [members|]. intros _. vm_compute. constructor.
  - constructor; [vm_compute; repeat constructor; intros []|]. apply list.Forall_cons. split; [|constructor]. split; [vm_compute; intuition|].
    left. eexists. split; [left; reflexivity|]. split; reflexivity.
Qed.

Lemma addition_witness : addTransaction 2 (sample_block 6) sample_spend [] [] 0 sample3 = Throw BlockBelowHeight sample3 /\
  exists added unlocked c', addTransaction 2 (sample_block 9) sample_spend [] [] 0 sample2 = Done (added, unlocked) c' /\ m_currentHeight c' = 9.
Proof.
  split.
  - apply (addition_exact 2 sample3 (sample_block 6) sample_spend [] [] 0 sample_run3). reflexivity.
  - destruct (addition_exact 2 sample2 (sample_block 9) sample_spend [] [] 0 sample_run2) as (_ & _ & F).
    destruct (F sample_new3 sample_fine3) as (added & unlocked & c' & a' & E & _ & H & _). exists added, unlocked, c'. split; [exact E|exact H].
Defined.

Lemma confirmation_witness : exists c', markTransactionConfirmed 2 (sample_block 7) [64] [9] sample4 = Done true c' /\ length (m_availableTransfers c') = 3%nat.
Proof.
  destruct (confirmation_exact 2 sample4 (sample_block 7) [64] [9] sample_run4) as [_ C].
  - constructor; [bounds|members|members].
  - split; [bounds|]. constructor; [apply list.Forall_cons; split; [exists 9; reflexivity|constructor]|]. vm_compute. constructor.
  - destruct (C (nth 2 (m_transactions sample4) (mk_info [] [] 0 0 0 0 0 [] [] [] 0))) as (c' & E & _ & Q); [right; right; left; reflexivity|reflexivity|reflexivity|].
    exists c'. split; [exact E|]. pose proof (Permutation_length (ae_a _ _ Q)) as L. cbn [content a_available] in L. rewrite length_map in L. rewrite L. reflexivity.
Defined.

Lemma detach_witness : exists locked c', detach 2 6 sample3 = Done ([[63]; [62]], locked) c' /\ map o_amount (map info_of (m_availableTransfers c')) = [100].
Proof.
  destruct (detach_exact 2 sample3 6 sample_run3 ltac:(split; [discriminate|reflexivity])) as (locked & c' & E & Q & _). exists locked, c'. split; [exact E|].
  apply Permutation_length_1_inv. destruct Q as [_ _ Qa _]. apply (Permutation_map (fun x : TransactionOutputInformationEx => o_amount x)) in Qa. cbn in Qa. rewrite map_map in *. symmetry. exact Qa.
Defined.

Lemma add_detach_witness : exists r1 c2, detach 2 9 sample3 = Done r1 c2 /\ account_equiv (content c2) (content sample2).
Proof.
  assert (exists r, addTransaction 2 (sample_block 9) sample_spend [] [] 0 sample2 = Done r sample3) as (r & A) by (eexists; vm_compute; reflexivity).
  destruct (add_detach_roundtrip 2 sample2 (sample_block 9) sample_spend [] [] 0 r sample3 9 sample_run2 sample_new3 A) as (r1 & c2 & r2 & c3 & E & _ & _ & _ & F).
  - bounds.
  - bounds.
  - exists r1, c2. split; [exact E|]. apply F. members.
Defined.

Lemma balance_witness : balance default_currency 2 0 IncludeAll sample2 = 100 /\ balance default_currency 2 0 IncludeAll sample2 = u64 (sum_amounts (getOutputs default_currency 2 0 [] IncludeAll sample2)).
Proof. split; [vm_compute; reflexivity|]. apply (balance_counts_once 2 default_currency 0 sample2 IncludeAll sample_run2). Defined.

Lemma unlocking_witness : exists unlocked, advanceHeight 7 sample2 = Done unlocked (with_height 7 sample2) /\ map o_amount unlocked = [100] /\
  unlocked ≡ₚ map info_of (List.filter (fun x => spendable default_currency 2 0 7 x && negb (spendable default_currency 2 0 (m_currentHeight sample2) x)) (m_availableTransfers sample2)).
Proof.
  destruct (unlocking_exact 2 default_currency 0 sample2 7 sample_run2) as (os & E & P & H); [split; [discriminate|reflexivity]|].
  assert (Forall (by_height default_currency 2) (m_availableTransfers sample2)) as F by (apply list.Forall_cons; split; [|apply list.Forall_cons; split; [|constructor]]; constructor; bounds).
  exists os. split; [exact E|]. split; [apply Permutation_length_1_inv; apply (Permutation_map o_amount) in P; symmetry; exact P|].
  rewrite P. apply eq_subrelation; [exact _|]. apply (f_equal (map info_of)), filter_ext_in. intros x I. rewrite List.Forall_forall in F. exact (H eq_refl x I (F x I)).
Defined.

Lemma transfer_lookup_witness : getTransfer default_currency 2 0 [61] 0 sample3 = Abort /\ getTransfer default_currency 2 0 [99] 0 sample3 = Done None sample3.
Proof.
  destruct (transfer_lookup 2 default_currency 0 sample3 [61] 0 sample_run3) as (_ & _ & S & _). destruct (transfer_lookup 2 default_currency 0 sample3 [99] 0 sample_run3) as (_ & _ & _ & N). split.
  - apply (S (nth 0 (m_spentTransfers sample3) (mk_spent (mk_ex (sample_transfer 0 0 []) 0 0 0 true) (sample_block 0) [] 0))); [left; reflexivity|reflexivity].
  - apply N. vm_compute. intuition discriminate.
Defined.
