(* ===== verification/TransfersReload.v ===== *)
(** * The container of transfers after a restart

    What [load] makes of the bytes that [save] wrote: the outputs, jobs and transactions
    of the container, without some identities, and with transactions of one height in
    another order; and what the balances are then. *)

From Stdlib Require Import ZArith Lia List Bool Sorted.
From S2P Require Import Prelude Bytes Varint IntUtil Currency TxStore Blockchain Crypto Serialization BlockFormat TransactionExtra TransfersContainer TransfersInvariant TransfersSteps TransfersOps TransfersAdd TransfersFormat TransfersSpec.
From stdpp Require Import gmap list.
Import ListNotations.
Open Scope Z_scope.
Open Scope transfers_scope.
Set Default Goal Selector "!".

(** ** Inserting what was read *)

Lemma insert_all_snoc {A} (emplace : A -> list A -> option (list A)) l x : insert_all emplace (l ++ [x]) = default (insert_all emplace l) (emplace x (insert_all emplace l)).
Proof. unfold insert_all. rewrite fold_left_app. reflexivity. Qed.

Lemma nodup_snoc {A} (l : list A) x : List.NoDup (l ++ [x]) <-> List.NoDup l /\ ~ In x l.
Proof.
  rewrite nodup_app. split; [intros (N & _ & D); split; [exact N|]; intros I; apply (D x I); left; reflexivity|].
  intros [N F]. split; [exact N|]. split; [repeat constructor; intros []|]. intros y I [->|[]]. exact (F I).
Qed.

(** Elements with different keys are all kept. *)
Lemma insert_outputs l : List.NoDup (map key_of l) -> insert_all emplace_output l = l.
Proof.
  induction l as [|x l IH] using rev_ind; intros N; [reflexivity|]. rewrite map_app in N. apply nodup_snoc in N as [N F]. rewrite insert_all_snoc, (IH N).
  unfold emplace_output, find_output. rewrite (proj1 (find_key_none key_of _ _) F). reflexivity.
Qed.

Lemma insert_spents l : List.NoDup (map spent_key l) -> List.NoDup (map spent_desc l) -> insert_all emplace_spent l = l.
Proof.
  induction l as [|x l IH] using rev_ind; intros N D; [reflexivity|]. rewrite map_app in N, D. apply nodup_snoc in N as [N F]. apply nodup_snoc in D as [D G].
  rewrite insert_all_snoc, (IH N D). unfold emplace_spent, find_spent. rewrite (proj1 (find_key_none spent_key _ _) F).
  destruct (existsb _ l) eqn:X; [|reflexivity]. apply existsb_exists in X as (y & I & E). apply bool_decide_eq_true in E. destruct G. apply in_map_iff. exists y. auto.
Qed.

Lemma job_insert_last j l : Forall (fun y => unlockHeight y <= unlockHeight j) l -> job_insert j l = l ++ [j].
Proof. induction 1 as [|y l H F IH]; [reflexivity|]. cbn. rewrite (proj2 (Z.ltb_ge _ _) H), IH. reflexivity. Qed.

Lemma sorted_snoc {A} (R : A -> A -> Prop) l x : StronglySorted R (l ++ [x]) -> StronglySorted R l /\ Forall (fun y => R y x) l.
Proof.
  induction l as [|y l IH]; cbn; intros S; [split; constructor|]. apply StronglySorted_inv in S as [S F]. apply list.Forall_app in F as [F Fx]. destruct (IH S) as [S' F'].
  split; [constructor; assumption|]. constructor; [|exact F']. inversion Fx; assumption.
Qed.

Lemma insert_jobs l : List.NoDup (map transactionOutputKey l) -> StronglySorted (fun j j' => unlockHeight j <= unlockHeight j') l -> insert_all emplace_job l = l.
Proof.
  induction l as [|j l IH] using rev_ind; intros N S; [reflexivity|]. rewrite map_app in N. apply nodup_snoc in N as [N F]. apply sorted_snoc in S as [S L].
  rewrite insert_all_snoc, (IH N S). unfold emplace_job. destruct (existsb _ l) eqn:X; [|rewrite (job_insert_last j l L); reflexivity].
  apply existsb_exists in X as (y & I & E). apply bool_decide_eq_true in E. destruct F. apply in_map_iff. exists y. auto.
Qed.

Abbreviation sorted_infos := (StronglySorted (fun t t' => ti_blockHeight t <= ti_blockHeight t')).

Lemma insert_infos l : List.NoDup (map ti_transactionHash l) -> insert_all emplace_transaction l ≡ₚ l /\ sorted_infos (insert_all emplace_transaction l).
Proof.
  induction l as [|x l IH] using rev_ind; intros N; [split; [reflexivity|constructor]|]. rewrite map_app in N. apply nodup_snoc in N as [N F]. destruct (IH N) as [P S].
  rewrite <- P in F. rewrite insert_all_snoc. assert (emplace_transaction x (insert_all emplace_transaction l) = Some (info_insert x (insert_all emplace_transaction l))) as ->
    by (unfold emplace_transaction at 1, find_transaction; rewrite (proj1 (find_key_none ti_transactionHash _ _) F); reflexivity). cbn.
  split; [rewrite info_insert_perm, P; apply Permutation_cons_append|apply info_insert_sorted, S].
Qed.

(** ** Fields that loading keeps *)

Section Loaded.
Context {HO : HashOrder} {CO : Codec}.
Variable cur : currency.
Variables (age now stray m_wallet_version : Z).

Record container_format (c : container) : Prop := {
  co_height : word32 (m_currentHeight c);
  co_transactions : sized info_format (m_transactions c);
  co_transactionsBM : sized info_format (m_transactionsBM c) /\ List.NoDup (map ti_transactionHash (m_transactionsBM c));
  co_unconfirmed : sized held_format (m_unconfirmedTransfers c);
  co_available : sized held_format (m_availableTransfers c);
  co_spent : sized spent_format (m_spentTransfers c)
}.

Lemma sized_perm {A} (ok : A -> Prop) l l' : l ≡ₚ l' -> sized ok l -> sized ok l'.
Proof. intros P [F L]. unfold sized. rewrite <- P. auto. Qed.

Lemma sized_arrange {A} (ok : A -> Prop) (l : list A) : sized ok l -> sized ok (arrange l).
Proof. apply sized_perm. symmetry. apply arrange_perm. Qed.

Lemma loaded_info version t : ti_transactionHash (info_loaded stray version t) = ti_transactionHash t.
Proof. unfold info_loaded. destruct (_ =? _); reflexivity. Qed.

Lemma loaded_keys l : map key_of (map (output_loaded stray) l) = map key_of l.
Proof. rewrite map_map. reflexivity. Qed.

Lemma sum_perm l l' : l ≡ₚ l' -> sum_amounts l = sum_amounts l'.
Proof. induction 1; unfold sum_amounts in *; cbn; lia. Qed.

(** The balance depends on the outputs up to order, and not on their identities. *)
Lemma balance_loaded c c' flags : m_currentHeight c' = m_currentHeight c -> m_unconfirmedTransfers c' ≡ₚ map (output_loaded stray) (m_unconfirmedTransfers c) ->
  m_availableTransfers c' ≡ₚ map (output_loaded stray) (m_availableTransfers c) -> balance cur age now flags c' = balance cur age now flags c.
Proof.
  intros Eh Pu Pa. rewrite !balance_sum. f_equal.
  assert (selected cur age now flags c' ≡ₚ map (output_loaded stray) (selected cur age now flags c)) as P.
  { unfold selected. rewrite Eh, map_app. apply Permutation_app.
    - etransitivity; [apply filter_perm; rewrite arrange_perm, Pa; reflexivity|]. rewrite filter_map_comm. apply Permutation_map, filter_perm. symmetry. apply arrange_perm.
    - destruct (has flags IncludeStateLocked); [|reflexivity].
      etransitivity; [apply filter_perm; rewrite arrange_perm, Pu; reflexivity|]. rewrite filter_map_comm. apply Permutation_map, filter_perm. symmetry. apply arrange_perm. }
  unfold getOutputs. cbn [app]. rewrite (sum_perm _ (map in_info (map ex_in (map (output_loaded stray) (selected cur age now flags c))))) by (rewrite P; reflexivity).
  clear P. induction (selected cur age now flags c) as [|x l IH]; [reflexivity|]. unfold sum_amounts in *. cbn. rewrite IH. reflexivity.
Qed.

Lemma u32_below z : u32 z < 2 ^ 32.
Proof. pose proof (wrap_range U32 z ltac:(cbn; lia)) as R. cbn [i_min i_max U32] in R. lia. Qed.

(** The jobs of a container that represents its content have a binary form. *)
Lemma jobs_format c : jobs_ok age c -> sized held_format (m_availableTransfers c) -> sized job_format (m_transfersUnlockJobs c).
Proof.
  intros [J _] [F L]. apply (sized_perm _ _ _ (symmetry J)). split; [|rewrite length_map; exact L]. apply Forall_map. apply (Forall_impl _ _ _ F).
  intros x [_ _ (_ & I & _) (B & _)]. split; [|split; [exact B|exact I]]. pose proof (job_nonneg age x) as N. split; [exact N|].
  unfold make_job, makeTransferUnlockJob. cbn [unlockHeight]. pose proof u32_below as U. unfold word32. destruct (negb _); repeat apply Z.max_lub_lt; apply U.
Qed.

Lemma jobs_apart c T d a ht : holds age T d a ht c -> List.NoDup (map transactionOutputKey (m_transfersUnlockJobs c)).
Proof.
  intros H. destruct (raw_keys age _ _ _ _ _ H) as [N _]. apply keys_apart in N as (_ & N & _). eapply Permutation_NoDup; [|exact N].
  rewrite (jo_jobs _ _ (ho_jobs _ _ _ _ _ _ H)), map_map. reflexivity.
Qed.

Lemma bm_restores c : container_format c -> exists bs,
  (if m_wallet_version =? WALLET_VERSION_BM then put (sequence (serialize_TransactionInformation stray m_wallet_version)) (arrange (m_transactionsBM c)) else Some []) = Some bs /\ Forall byte bs /\
  forall rest, Forall byte rest ->
    (if m_wallet_version =? WALLET_VERSION_BM then get (sequence (serialize_TransactionInformation stray m_wallet_version)) (bs ++ rest) else Some ([], bs ++ rest)) =
    Some (if m_wallet_version =? WALLET_VERSION_BM then arrange (m_transactionsBM c) else [], rest).
Proof.
  intros F. destruct (m_wallet_version =? WALLET_VERSION_BM) eqn:E; [|exists []; auto].
  destruct (put_restores (w := sequence (serialize_TransactionInformation stray m_wallet_version)) _ (sized_arrange _ _ (proj1 (co_transactionsBM _ F)))) as (bs & Ep & Fb & G).
  exists bs. split; [exact Ep|]. split; [exact Fb|]. intros rest Fr. rewrite (G rest Fr), (map_ext _ (fun t => t)), map_id by (intros t; unfold info_loaded; rewrite E; reflexivity). reflexivity.
Qed.

(** What [load] reads from what [save] wrote. *)
Lemma load_saved c initial initial' : jobs_ok age c -> container_format c -> (initial =? WALLET_VERSION_BM) = (initial' =? WALLET_VERSION_BM) ->
  exists bs, save stray m_wallet_version initial c = Some bs /\ load stray age m_wallet_version initial' bs = Some (mk_container
    (insert_all emplace_transaction (map (info_loaded stray initial) (arrange (m_transactions c))))
    (insert_all emplace_output (map (output_loaded stray) (arrange (m_unconfirmedTransfers c))))
    (insert_all emplace_output (map (output_loaded stray) (arrange (m_availableTransfers c))))
    (insert_all emplace_spent (map (spent_loaded stray) (arrange (m_spentTransfers c))))
    (insert_all emplace_job (m_transfersUnlockJobs c)) (m_currentHeight c)
    (insert_all emplace_transaction (if m_wallet_version =? WALLET_VERSION_BM then arrange (m_transactionsBM c) else []))).
Proof.
  intros J F Ei. destruct (uint_restores 32 TRANSFERS_CONTAINER_STORAGE_VERSION) as (v & Ev & Fv & Gv); [lia|unfold TRANSFERS_CONTAINER_STORAGE_VERSION; lia|].
  destruct (uint_restores 32 (m_currentHeight c)) as (h & Eh & Fh & Gh); [lia|exact (co_height _ F)|].
  destruct (put_restores (w := sequence (serialize_TransactionInformation stray initial)) _ (sized_arrange _ _ (co_transactions _ F))) as (ts & Et & Ft & Gt).
  destruct (bm_restores c F) as (bm & Eb & Fb & Gb).
  destruct (put_restores (w := sequence (serialize_Output stray)) _ (sized_arrange _ _ (co_unconfirmed _ F))) as (us & Eu & Fu & Gu).
  destruct (put_restores (w := sequence (serialize_Output stray)) _ (sized_arrange _ _ (co_available _ F))) as (av & Ea & Fa & Ga).
  destruct (put_restores (w := sequence (serialize_SpentTransactionOutput stray)) _ (sized_arrange _ _ (co_spent _ F))) as (sp & Es & Fs & Gs).
  destruct (put_restores (w := sequence serialize_TransferUnlockJob) _ (jobs_format c J (co_available _ F))) as (js & Ej & Fj & Gj).
  specialize (Gj [] ltac:(constructor)). rewrite app_nil_r, map_id in Gj.
  exists (v ++ h ++ ts ++ bm ++ us ++ av ++ sp ++ js). split.
  - unfold save. rewrite Ev, Eh, Et, Eb, Eu, Ea, Es, Ej. reflexivity.
  - assert (serialize_TransactionInformation stray initial' = serialize_TransactionInformation stray initial) as Ew by (unfold serialize_TransactionInformation; rewrite Ei; reflexivity).
    unfold load. rewrite Ew, Gv by (rewrite ?list.Forall_app; auto 10). cbn [obind]. change (TRANSFERS_CONTAINER_STORAGE_VERSION <? TRANSFERS_CONTAINER_STORAGE_VERSION) with false.
    change (negb (TRANSFERS_CONTAINER_STORAGE_VERSION =? 0)) with true. cbv iota.
    rewrite Gh by (rewrite ?list.Forall_app; auto 10). cbn [obind]. rewrite Gt by (rewrite ?list.Forall_app; auto 10). cbn [obind]. rewrite Gb by (rewrite ?list.Forall_app; auto 10). cbn [obind].
    rewrite Gu by (rewrite ?list.Forall_app; auto 10). cbn [obind]. rewrite Ga by (rewrite ?list.Forall_app; auto 10). cbn [obind]. rewrite Gs by (rewrite ?list.Forall_app; auto 10). cbn [obind].
    rewrite Gj. reflexivity.
Qed.

(** C24: a container that is saved and loaded has the same height, the same unlock jobs, and up to order and
    identities the same transactions and outputs, with transactions still in the order of heights; every
    balance is the same.  The first value of the field that the serializer leaves unset must not make a
    difference between the two runs. *)
Theorem save_load_roundtrip c initial initial' : container_run age c -> container_format c -> (initial =? WALLET_VERSION_BM) = (initial' =? WALLET_VERSION_BM) ->
  exists bs c', save stray m_wallet_version initial c = Some bs /\ load stray age m_wallet_version initial' bs = Some c' /\
    m_currentHeight c' = m_currentHeight c /\ m_transfersUnlockJobs c' = m_transfersUnlockJobs c /\
    m_transactions c' ≡ₚ map (info_loaded stray initial) (m_transactions c) /\ sorted_infos (m_transactions c') /\
    m_unconfirmedTransfers c' ≡ₚ map (output_loaded stray) (m_unconfirmedTransfers c) /\
    m_availableTransfers c' ≡ₚ map (output_loaded stray) (m_availableTransfers c) /\
    m_spentTransfers c' ≡ₚ map (spent_loaded stray) (m_spentTransfers c) /\
    m_transactionsBM c' ≡ₚ (if m_wallet_version =? WALLET_VERSION_BM then m_transactionsBM c else []) /\
    forall flags, balance cur age now flags c' = balance cur age now flags c.
Proof.
  intros Run F Ei. destruct (run_inv age c Run) as [[H OK] _]. destruct (load_saved c initial initial' (ho_jobs _ _ _ _ _ _ H) F Ei) as (bs & Es & El).
  do 2 eexists. split; [exact Es|]. split; [exact El|]. cbn [m_currentHeight m_transfersUnlockJobs m_transactions m_unconfirmedTransfers m_availableTransfers m_spentTransfers m_transactionsBM].
  destruct (raw_keys age _ _ _ _ _ H) as [N _]. apply keys_apart in N as (Nu & Na & Ns & _).
  pose proof (insert_jobs _ (jobs_apart _ _ _ _ _ H) (jo_sorted _ _ (ho_jobs _ _ _ _ _ _ H))) as Ij.
  destruct (insert_infos (map (info_loaded stray initial) (arrange (m_transactions c)))) as [Pt St].
  { rewrite map_map, (map_ext _ ti_transactionHash (loaded_info initial)). rewrite arrange_perm. exact (ok_hashes _ OK). }
  assert (forall l, List.NoDup (map key_of l) -> insert_all emplace_output (map (output_loaded stray) (arrange l)) ≡ₚ map (output_loaded stray) l) as Io.
  { intros l Nl. rewrite insert_outputs by (rewrite loaded_keys, arrange_perm; exact Nl). rewrite arrange_perm. reflexivity. }
  assert (insert_all emplace_spent (map (spent_loaded stray) (arrange (m_spentTransfers c))) ≡ₚ map (spent_loaded stray) (m_spentTransfers c)) as Is.
  { rewrite insert_spents by (rewrite map_map, arrange_perm; first [exact Ns|exact (ok_spent_once _ _ (holds_raw _ _ _ _ _ _ H))]). rewrite arrange_perm. reflexivity. }
  split; [reflexivity|]. split; [exact Ij|]. split; [rewrite Pt; apply Permutation_map, arrange_perm|]. split; [exact St|]. split; [exact (Io _ Nu)|]. split; [exact (Io _ Na)|]. split; [exact Is|]. split.
  - destruct (m_wallet_version =? WALLET_VERSION_BM); [|reflexivity]. destruct (insert_infos (arrange (m_transactionsBM c))) as [P _]; [rewrite arrange_perm; apply F|rewrite P; apply arrange_perm].
  - intros flags. apply balance_loaded; [reflexivity|exact (Io _ Nu)|exact (Io _ Na)].
Qed.
End Loaded.

(** ** A container to run on

    A hashed index that lists its elements from the last to the first, transactions told apart by extra
    fields of 32 bytes, and an output that is received and spent in the same block. *)

#[local] Instance reverse_order : HashOrder := { arrange A l := rev l; arrange_perm A l := symmetry (Permutation_rev l) }.

Definition long (b : Z) : bytes := repeat b 32.
Definition block5 : TransactionBlockInfo := mk_block_info 5 1000 0.
Definition received5 : Transaction := mk_tx 1 0 [BaseInput 0] [mk_output 100 (KeyOutput (long 1))] (long 61) [].
Definition spending5 : Transaction := mk_tx 1 0 [KeyInput 100 [0] (long 77)] [mk_output 90 (KeyOutput (long 2))] (long 62) [[[1]]].
Definition transfer5 : TransactionOutputInformationIn := mk_in (mk_output_info (KeyData (long 1)) 100 7 0 (long 0) (long 0) ACCOUNT_OWN_ID) (long 77).

Definition before5 : container := Eval vm_compute in final (addTransaction (CO := sample_codec) 2 block5 received5 [transfer5] [] 0 empty_container).
Definition after5 : container := Eval vm_compute in final (addTransaction (CO := sample_codec) 2 block5 spending5 [] [] 0 before5).

Lemma after5_run : container_run (CO := sample_codec) 2 after5.
Proof.
  apply (run_add (CO := sample_codec) 2 before5 block5 spending5 [] [] 0 (true, []) after5).
  - apply (run_add (CO := sample_codec) 2 empty_container block5 received5 [transfer5] [] 0 (true, []) before5); [apply run_empty| |vm_compute; reflexivity].
    constructor; [members|repeat constructor; intros []|members|bounds|members].
  - constructor; [members|repeat constructor|members|bounds|members].
  - vm_compute. reflexivity.
Qed.

Definition byte_list (l : bytes) : bool := forallb (fun b => (0 <=? b) && (b <? 256)) l && (length l =? 32)%nat.

Lemma byte_list_ok l : byte_list l = true -> bytes_n 32 l /\ sized (fun b => 0 <= b < 2 ^ 8) l.
Proof.
  intros H. apply andb_true_iff in H as [F L]. apply Nat.eqb_eq in L. rewrite forallb_forall in F.
  assert (Forall byte l) as B by (apply List.Forall_forall; intros b I; specialize (F b I); unfold byte; lia).
  split; [split; assumption|]. split; [exact B|]. rewrite L. unfold MAX_SIZE. lia.
Qed.
Ltac word := split; [apply Z.leb_le|apply Z.ltb_lt]; reflexivity.
Ltac pod := apply byte_list_ok; reflexivity.

Lemma after5_format : container_format after5.
Proof.
  constructor; [word|split; [|bounds]|split; [split; [constructor|bounds]|constructor]|split; [constructor|bounds]|split; [constructor|bounds]|split; [|bounds]].
  - apply list.Forall_cons; split; [|apply list.Forall_cons; split; [|constructor]];
      (constructor; [pod|pod|word|split; [word|split; [word|split; word]]|pod|pod|split; [constructor|bounds]|word]).
  - apply list.Forall_cons; split; [|constructor]. constructor; [|split; [word|split; word]|pod|word].
    constructor; [exact (proj1 (byte_list_ok (long 1) eq_refl))|split; word|split; [word|split; [word|split; word]]|split; [pod|split; pod]].
Qed.

Lemma save_load_witness : exists bs c', save 0 0 0 after5 = Some bs /\ load 0 2 0 0 bs = Some c' /\ length (m_spentTransfers c') = 1%nat.
Proof.
  destruct (save_load_roundtrip (CO := sample_codec) default_currency 2 0 0 0 after5 0 0 after5_run after5_format eq_refl) as (bs & c' & E & L & _ & _ & _ & _ & _ & _ & P & _).
  exists bs, c'. split; [exact E|]. split; [exact L|]. rewrite P. reflexivity.
Defined.
