(* ===== verification/TransfersScanSpec.v ===== *)
(** * Payments to a wallet, and outputs that stop it

    Two kinds of transactions that anybody can send to an address, and what the wallet of its owner makes
    of them; and the way of a payment from the keys of the sender into the container of the receiver. *)

From Stdlib Require Import ZArith Lia List Bool.
From S2P Require Import Prelude Bytes Varint AbGroup Edwards Scalar ScalarCorrect Ge GeCorrect GeBytes GeScalar Crypto CryptoCorrect CryptoSpec IntUtil Currency TxStore Blockchain Serialization TransactionExtra TransfersContainer TransfersInvariant TransfersSteps TransfersOps TransfersAdd TransfersConsumer TransfersScan TransfersSpec.
From stdpp Require Import gmap list.
Import ListNotations.
Open Scope Z_scope.
Open Scope cmon_scope.
Open Scope consumer_scope.
Set Default Goal Selector "!".

Section Crafted.
Context {FH : FastHash} {HO : HashOrder} {CO : Codec}.
Variable stray : bytes.
Variable stray_word : Z.
Variable getGlobalIndices : bytes -> bool * list Z.
Variable get_messages_from_extra : bytes -> bytes -> bytes -> list bytes.

Lemma arrange_one {A} (x : A) : arrange [x] = [x].
Proof. apply Permutation_length_1_inv. symmetry. apply arrange_perm. Qed.

Lemma arrange_none {A} : arrange (@nil A) = [].
Proof. apply Permutation_nil. symmetry. apply arrange_perm. Qed.

(** The same multisignature output given twice to a fresh container. *)
Lemma add_twice age block t x r : own x = true -> is_key x = false -> transfer_ok t x -> (tb_height block =? UNCONFIRMED) = (globalOutputIndex x =? UNCONFIRMED_TRANSACTION_GLOBAL_OUTPUT_INDEX) ->
  if tb_height block =? UNCONFIRMED then addTransactionOutputs age block t [x; x] r empty_container = Abort
  else exists c, addTransactionOutputs age block t [x; x] r empty_container = Throw TransferExists c.
Proof.
  intros Ho Hk [Hi Ht Ha] Hb. cbn [addTransactionOutputs]. unfold own in Ho. rewrite Ho. cbn [negb].
  assert (forall c, add_output age block t x c =
    ((if globalOutputIndex x =? UNCONFIRMED_TRANSACTION_GLOBAL_OUTPUT_INDEX then insert_unconfirmed (stored block t x) else bind (check_new x) (fun _ => insert_available age (stored block t x))) c)) as E.
  { intros c. unfold add_output. rewrite (proj2 (Z.ltb_lt _ _) (proj2 Hi)), Ht, (proj2 (Z.ltb_lt _ _) Ha), Hb, eqb_reflx. unfold bind, assert_that. cbn [negb].
    assert (is_key (stored block t x) = false) as Hs by exact Hk. unfold update_if_key. rewrite Hs. destruct (_ =? _); destruct (_ c) as [| |[] ?]; reflexivity. }
  rewrite Hb. destruct (globalOutputIndex x =? UNCONFIRMED_TRANSACTION_GLOBAL_OUTPUT_INDEX) eqn:Eg.
  - unfold bind at 1. rewrite E. unfold insert_unconfirmed, bind, gets, lift, modify, emplace_output, find_output. cbn [m_unconfirmedTransfers empty_container find app with_unconfirmed].
    rewrite E. unfold insert_unconfirmed, bind, gets, lift, modify, emplace_output, find_output. cbn [m_unconfirmedTransfers empty_container find with_unconfirmed]. rewrite bool_decide_true by reflexivity. reflexivity.
  - unfold bind at 1. rewrite E. unfold check_new at 1. rewrite Hk. unfold bind, gets, lift, modify, throw, ret. cbn [m_availableTransfers m_spentTransfers empty_container].
    unfold by_descriptor at 1, spent_by_descriptor at 1. cbn [List.filter]. rewrite !arrange_none. cbn [length Nat.ltb Nat.leb orb]. unfold insert_available, addUnlockJob, bind, gets, lift, modify, emplace_job, emplace_output, find_output.
    cbn [m_transfersUnlockJobs m_availableTransfers empty_container existsb find app with_jobs with_available job_insert]. rewrite E.
    unfold check_new. rewrite Hk. unfold bind, gets, throw. cbn [m_availableTransfers m_spentTransfers with_available with_jobs empty_container]. unfold by_descriptor. cbn [List.filter]. 
    rewrite bool_decide_true by reflexivity. rewrite arrange_one. cbn [length Nat.ltb Nat.leb orb]. eauto.
Qed.

(** [addTransaction] on a fresh container, up to the outputs. *)
Lemma add_fresh age block t transfersList messages id : 0 <= tb_height block -> addTransaction age block t transfersList messages id empty_container =
  bind (addTransactionOutputs age block t transfersList false) (fun outputsAdded => bind (addTransactionInputs block t) (fun inputsAdded =>
    bind (if outputsAdded || inputsAdded then add_information block t messages id else ret tt) (fun _ =>
      if negb (tb_height block =? UNCONFIRMED) then bind (doAdvanceHeight (tb_height block)) (fun finishedJobs => ret (outputsAdded || inputsAdded, finishedJobs))
      else ret (outputsAdded || inputsAdded, [])))) empty_container.
Proof. intros H. unfold addTransaction, bind at 1, gets. cbn [m_currentHeight empty_container]. rewrite (proj2 (Z.ltb_ge _ _) H). reflexivity. Qed.

(** A consumer with one account and the container [c]. *)
Record wallet (a : AccountKeys) (age : Z) (c : container) (s : consumer) : Prop := {
  wa_keys : account_keys_ok a;
  wa_view : m_viewSecretBM s = [mk_secret_bm ACCOUNT_OWN_ID (viewSecretKey a) (spendSecretKey a) (spendPublicKey a)];
  wa_account : exists start, m_subscriptions s = {[spendPublicKey a := mk_subscription a start age c]}
}.

(** A transaction whose public key belongs to the secret key [r]. *)
Definition sent_with (r : bytes) (t : Transaction) : Prop :=
  bytes_n 32 r /\ exists R, secret_key_to_public_key r = Some (Some R) /\ getTransactionPublicKeyFromExtra (extra t) = Some R.

Abbreviation key_at a r i := (derivePublicKey stray (viewPublicKey a) (spendPublicKey a) r i).

Lemma sender_derives a r t : account_keys_ok a -> sent_with r t -> exists R d, getTransactionPublicKeyFromExtra (extra t) = Some R /\ generate_key_derivation R (viewSecretKey a) = Some (Some d) /\
  bytes_n 32 d /\ forall i k, 0 <= i < 2 ^ 64 -> key_at a r i = Some k <-> derive_public_key d i (spendPublicKey a) = Some (Some k).
Proof.
  intros [[Bs Es] [Bv Ev]] (Br & R & ER & Ex). destruct (key_derivation_symmetric _ _ _ _ Bv Br Ev ER) as (d & D1 & D2 & Hd). exists R, d. repeat (split; [assumption|]).
  intros i k Hi. unfold derivePublicKey. rewrite D1. cbn [obind default from_option Datatypes.id]. destruct (one_time_key d i _ _ Hd Hi Bs Es) as (k' & _ & _ & E1 & _). rewrite E1.
  cbn [obind default from_option Datatypes.id]. split; congruence.
Qed.

(** [processTransaction] on a transaction that is not in the container, when the outputs [idxs] were found. *)
Lemma process_one a age c s block t idxs globalIdxs : wallet a age c s -> idxs <> [] -> findMyOutputs stray t (viewSecretKey a) {[spendPublicKey a]} = Some {[spendPublicKey a := idxs]} ->
  (if tb_height block =? UNCONFIRMED then (true, []) else getGlobalIndices (getObjectHash t)) = (true, globalIdxs) ->
  find_transaction (getObjectHash t) (m_transactions c) = None ->
  exists messages (store : container -> consumer), (forall c', wallet a age c' (store c')) /\
  processTransaction stray stray_word getGlobalIndices get_messages_from_extra block t s =
    match createTransfers stray a block t idxs globalIdxs ACCOUNT_OWN_ID with
    | None => Broken
    | Some r =>
        match addTransaction age block t r.1 messages 0 c with
        | Abort => Broken
        | Throw e c' => Raised e (store c')
        | Done _ c' => Returned tt (store c')
        end
    end.
Proof.
  intros [Ha Ev (start & Em)] Ni Ef Eg En.
  assert (preprocessOutputs stray stray_word getGlobalIndices get_messages_from_extra block t s =
    match createTransfers stray a block t idxs globalIdxs ACCOUNT_OWN_ID with
    | None => Broken
    | Some r => Returned (mk_preprocess {[spendPublicKey a := r.1]} globalIdxs 0) s end) as Pre.
  { unfold preprocessOutputs, cbind at 1, cgets at 1. rewrite Ev. cbn [preprocess_loop m_viewSecretkey m_spendPubKey]. rewrite Ef. unfold cbind at 1, clift at 1.
    rewrite bool_decide_false by (apply insert_non_empty). unfold preprocess_own. cbn [Nat.eqb pi_globalIdxs pi_outputs m_spendPubKey bm_id]. rewrite Eg. cbn [negb]. rewrite lookup_singleton_eq.
    unfold cbind, cgets, clift. rewrite Em, lookup_singleton_eq. cbn [keys]. destruct (createTransfers _ _ _ _ _ _ _) as [[trs ok]|]; reflexivity. }
  destruct (getTransactionPublicKeyFromExtra (extra t)) as [pk|] eqn:Epk; [|unfold findMyOutputs in Ef; rewrite Epk in Ef; discriminate].
  exists (get_messages_from_extra (extra t) pk (spendSecretKey a)), (fun c' => with_subscriptions (<[spendPublicKey a := mk_subscription a start age c']> (m_subscriptions s)) s). split.
  - intros c'. constructor; [exact Ha|exact Ev|]. exists start. cbn [with_subscriptions m_subscriptions]. rewrite Em. apply insert_singleton_eq.
  - unfold processTransaction, cbind at 1. rewrite Pre. destruct (createTransfers _ _ _ _ _ _ _) as [[trs ok]|]; [|reflexivity].
    unfold process_found, txPublicKey, forEachSubscription, cbind, clift, cgets. rewrite Epk. unfold accounts. rewrite Em, map_to_list_singleton. cbn [map fst]. rewrite arrange_one. cbn [ceach]. unfold cbind.
    cbn [fst pi_outputs pi_globalIdxs pi_id]. rewrite lookup_singleton_eq. unfold on_container. rewrite Em, lookup_singleton_eq. cbn [transfers default from_option Datatypes.id]. unfold processOutputs. rewrite En.
    cbn [transactionSpendableAge keys]. unfold bind at 1. destruct (addTransaction _ _ _ _ _ _ _) as [|e c'|r c']; reflexivity.
Qed.

(** The scanner in terms of the keys a sender makes. *)
Record scans (a : AccountKeys) (r : bytes) (t : Transaction) (R d : bytes) : Prop := {
  sc_key : getTransactionPublicKeyFromExtra (extra t) = Some R;
  sc_derivation : generate_key_derivation R (viewSecretKey a) = Some (Some d);
  sc_image : forall i, 0 <= i < 2 ^ 64 -> exists k sec image, key_at a r i = Some k /\ valid_key k /\ generate_key_image_helper a R i = Some (k, sec, image);
  sc_check : forall i idx k m, (i < 3)%nat -> (idx < 3)%nat -> valid_key k -> checkOutputKey stray d k i idx {[spendPublicKey a]} m =
    Some (noted (spendPublicKey a) (if bool_decide (key_at a r (Z.of_nat i) = Some k) then [Z.of_nat idx] else []) m);
  sc_find : findMyOutputs stray t (viewSecretKey a) {[spendPublicKey a]} = find_loop stray d (outputs t) 0 0 {[spendPublicKey a]} ∅
}.

Lemma scans_ok a r t : account_keys_ok a -> sent_with r t -> exists R d, scans a r t R d.
Proof.
  intros Ha Sent. destruct (sender_derives a r t Ha Sent) as (R & d & Ex & Ed & Hd & Key). pose proof Ha as [[Bs Es] _]. pose proof (public_valid _ _ Bs Es) as HB. exists R, d. constructor.
  - exact Ex.
  - exact Ed.
  - intros i Hi. destruct (one_time_key d i _ _ Hd Hi Bs Es) as (k & sec & image & E1 & E2 & _ & E4 & V). exists k, sec, image. split; [apply Key; assumption|]. split; [exact V|].
    unfold generate_key_image_helper. rewrite Ed. cbn [obind]. rewrite E1. cbn [obind]. rewrite E2. cbn [obind]. rewrite E4. reflexivity.
  - intros i idx k m Hi Hx V. rewrite (check_key_found stray d (spendPublicKey a) Hd HB) by (assumption || lia). do 3 f_equal.
    case_bool_decide as E1; case_bool_decide as E2; try reflexivity; rewrite Key in E2 by lia; contradiction.
  - unfold findMyOutputs. rewrite Ex. cbn [obind]. rewrite Ed. reflexivity.
Qed.

Lemma scans_valid a r t R d i k : scans a r t R d -> 0 <= i < 2 ^ 64 -> key_at a r i = Some k -> valid_key k.
Proof. intros S Hi E. destruct (sc_image _ _ _ _ _ S i Hi) as (k' & _ & _ & E' & V & _). congruence. Qed.

(** Two keys of the account in one output. *)
Lemma found_twice a r t R d k amount requiredSignatures term : scans a r t R d -> outputs t = [mk_output amount (MultisignatureOutput [k; k] requiredSignatures term)] -> key_at a r 0 = Some k -> 0 < amount ->
  findMyOutputs stray t (viewSecretKey a) {[spendPublicKey a]} = Some {[spendPublicKey a := [0; 0]]} /\
  forall block gs g, global_index block gs 0 = Some g -> exists x, createTransfers stray a block t [0; 0] gs ACCOUNT_OWN_ID = Some ([x; x], true) /\
    own x = true /\ is_key x = false /\ transfer_ok t x /\ globalOutputIndex x = g.
Proof.
  intros S Eo Ek Hp. pose proof (scans_valid _ _ _ _ _ 0 k S ltac:(lia) Ek) as V. split.
  - rewrite (sc_find _ _ _ _ _ S), Eo. cbn [find_loop target check_keys]. rewrite (sc_check _ _ _ _ _ S) by (assumption || lia). cbn [obind]. rewrite bool_decide_true by exact Ek. cbn [obind].
    rewrite (sc_check _ _ _ _ _ S) by (assumption || lia). rewrite bool_decide_true by exact Ek. cbn [obind noted]. rewrite lookup_insert_eq, insert_insert_eq, lookup_empty. reflexivity.
  - intros block gs g E. exists (mk_in (mk_output_info (MultisignatureData requiredSignatures term) amount g 0 stray R ACCOUNT_OWN_ID) stray). split.
    + unfold createTransfers. rewrite (sc_key _ _ _ _ _ S). cbn [obind create_loop]. rewrite Eo. cbn [Z.to_nat lookup list_lookup]. unfold create_transfer. rewrite E. reflexivity.
    + split; [reflexivity|]. split; [reflexivity|]. split; [|reflexivity]. constructor; [rewrite Eo; cbn; lia|unfold same_type; rewrite Eo; reflexivity|exact Hp].
Qed.

(** A key output behind two keys of others is looked for at the key index 2. *)
Lemma drifted a r t R d k k1 k2 amount amount' requiredSignatures term : scans a r t R d ->
  outputs t = [mk_output amount' (MultisignatureOutput [k1; k2] requiredSignatures term); mk_output amount (KeyOutput k)] ->
  valid_key k1 -> valid_key k2 -> valid_key k -> key_at a r 0 <> Some k1 -> key_at a r 0 <> Some k2 ->
  findMyOutputs stray t (viewSecretKey a) {[spendPublicKey a]} = Some (noted (spendPublicKey a) (if bool_decide (key_at a r 2 = Some k) then [1] else []) ∅).
Proof.
  intros S Eo V1 V2 V N1 N2. rewrite (sc_find _ _ _ _ _ S), Eo. cbn [find_loop target check_keys]. rewrite (sc_check _ _ _ _ _ S) by (assumption || lia). rewrite bool_decide_false by exact N1. cbn [obind noted].
  rewrite (sc_check _ _ _ _ _ S) by (assumption || lia). rewrite bool_decide_false by exact N2. cbn [obind noted length Nat.add]. rewrite (sc_check _ _ _ _ _ S) by (assumption || lia). reflexivity.
Qed.

(** C39: transactions that anybody can send to an address and that the scanner of a fresh wallet does not survive.
    An output for two keys that are both the one-time key of the address is found twice: in a block, adding the transaction throws "Transfer
    already exists", which leaves [onNewBlocks]; in the pool, it fails an assertion.  Behind an output for
    two other keys the key index and the output index differ: a key made for the output index is not found,
    and a key made for the key index is found but fails the assertion of [createTransfers]. *)
Theorem crafted_outputs a age s r t k amount : wallet a age empty_container s -> sent_with r t ->
  let process := processTransaction stray stray_word getGlobalIndices get_messages_from_extra in
  (forall requiredSignatures term, outputs t = [mk_output amount (MultisignatureOutput [k; k] requiredSignatures term)] -> key_at a r 0 = Some k -> 0 < amount ->
    (forall block g rest, 0 <= tb_height block < UNCONFIRMED -> getGlobalIndices (getObjectHash t) = (true, g :: rest) -> g <> UNCONFIRMED_TRANSACTION_GLOBAL_OUTPUT_INDEX ->
      exists s', process block t s = Raised TransferExists s') /\
    process (unconfirmedBlockInfo 0) t s = Broken) /\
  (forall k1 k2 amount' requiredSignatures term, outputs t = [mk_output amount' (MultisignatureOutput [k1; k2] requiredSignatures term); mk_output amount (KeyOutput k)] ->
    valid_key k1 -> valid_key k2 -> key_at a r 0 <> Some k1 -> key_at a r 0 <> Some k2 ->
    (valid_key k -> key_at a r 1 = Some k -> key_at a r 2 <> Some k -> findMyOutputs stray t (viewSecretKey a) {[spendPublicKey a]} = Some ∅) /\
    (key_at a r 2 = Some k -> key_at a r 1 <> Some k -> process (unconfirmedBlockInfo 0) t s = Broken)).
Proof.
  intros W Sent process. pose proof W as [Ha _ _]. destruct (scans_ok a r t Ha Sent) as (R & d & S). split.
  - intros rs term Eo Ek Hp. destruct (found_twice _ _ _ _ _ _ _ _ _ S Eo Ek Hp) as [Ef Ec]. split.
    + intros block g rest Hb Eg Ng. assert ((tb_height block =? UNCONFIRMED) = false) as Hu by (apply Z.eqb_neq; lia).
      destruct (Ec block (g :: rest) g) as (x & E & Ho & Hk & Ok & Hx); [unfold global_index; rewrite Hu; reflexivity|].
      destruct (process_one a age empty_container s block t [0; 0] (g :: rest) W ltac:(discriminate) Ef ltac:(rewrite Hu; exact Eg) eq_refl) as (messages & store & _ & P).
      pose proof (add_twice age block t x false Ho Hk Ok) as T. rewrite Hu, Hx in T. destruct T as (c & T); [symmetry; apply Z.eqb_neq, Ng|].
      exists (store c). unfold process. rewrite P, E. cbn [fst]. rewrite add_fresh by (cbn; lia). unfold bind at 1. rewrite T. reflexivity.
    + destruct (Ec (unconfirmedBlockInfo 0) [] UNCONFIRMED_TRANSACTION_GLOBAL_OUTPUT_INDEX eq_refl) as (x & E & Ho & Hk & Ok & Hx).
      destruct (process_one a age empty_container s (unconfirmedBlockInfo 0) t [0; 0] [] W ltac:(discriminate) Ef eq_refl eq_refl) as (messages & store & _ & P).
      pose proof (add_twice age (unconfirmedBlockInfo 0) t x false Ho Hk Ok ltac:(rewrite Hx; reflexivity)) as T. cbv beta iota in T.
      unfold process. rewrite P, E. cbn [fst]. rewrite add_fresh by (cbn; unfold WALLET_LEGACY_UNCONFIRMED_TRANSACTION_HEIGHT; lia). unfold bind at 1. rewrite T. reflexivity.
  - intros k1 k2 amount' rs term Eo V1 V2 N1 N2. split.
    + intros V E1 E2. rewrite (drifted _ _ _ _ _ _ _ _ _ _ _ _ S Eo V1 V2 V N1 N2), bool_decide_false by exact E2. reflexivity.
    + intros E2 E1. pose proof (scans_valid _ _ _ _ _ 2 k S ltac:(lia) E2) as V. pose proof (drifted _ _ _ _ _ _ _ _ _ _ _ _ S Eo V1 V2 V N1 N2) as Ef. rewrite bool_decide_true in Ef by exact E2.
      destruct (process_one a age empty_container s (unconfirmedBlockInfo 0) t [1] [] W ltac:(discriminate) Ef eq_refl eq_refl) as (messages & store & _ & P). unfold process. rewrite P.
      destruct (sc_image _ _ _ _ _ S 1 ltac:(lia)) as (k' & sec & image & F1 & _ & F2). unfold createTransfers. rewrite (sc_key _ _ _ _ _ S). cbn [obind create_loop]. rewrite Eo.
      change (Z.to_nat 1) with 1%nat. cbn [lookup list_lookup]. unfold create_transfer. cbn [global_index obind target]. rewrite F2. cbn [obind].
      rewrite bool_decide_false; [reflexivity|]. intros <-. contradiction.
Qed.

(** ** Payments arrive *)

(** A transaction of a block that the container does not have, with key outputs of positive amounts. *)
Record incoming (c : container) (block : TransactionBlockInfo) (t : Transaction) (globalIdxs : list Z) : Prop := {
  ic_outputs : Forall (fun out => (exists k, target out = KeyOutput k /\ valid_key k) /\ 0 < out_amount out) (outputs t);
  ic_size : Z.of_nat (length (outputs t)) <= 2 ^ 32;
  ic_extra : Forall byte (extra t);
  ic_height : m_currentHeight c <= tb_height block < UNCONFIRMED;
  ic_order : Forall (fun ti => ti_blockHeight ti <> UNCONFIRMED -> ti_blockHeight ti <= tb_height block) (m_transactions c);
  ic_new : ~ In (getObjectHash t) (map ti_transactionHash (m_transactions c));
  ic_node : getGlobalIndices (getObjectHash t) = (true, globalIdxs);
  ic_indices : (length (outputs t) <= length globalIdxs)%nat /\ Forall (fun g => g <> UNCONFIRMED_TRANSACTION_GLOBAL_OUTPUT_INDEX) globalIdxs
}.

Lemma own_all (l : list TransactionOutputInformationIn) : Forall (fun tr : TransactionOutputInformationIn => o_id tr = ACCOUNT_OWN_ID) l -> List.filter own l = l.
Proof. induction 1 as [|x l E F IH]; [reflexivity|]. cbn. unfold own at 1. rewrite E, IH. reflexivity. Qed.

(** Transfers of key outputs in a block meet the conditions of the container. *)
Lemma incoming_fine a d R c block t globalIdxs idxs trs : account_ok (content c) -> 0 <= m_currentHeight c -> incoming c block t globalIdxs ->
  Forall2 (describes a d R block t globalIdxs ACCOUNT_OWN_ID) idxs trs -> Forall (transfer_ok t) trs -> List.NoDup (map outputInTransaction (map in_info trs)) ->
  inputs_fine (add_received block (received block t trs) (content c)) (inputs t) ->
  new_transaction (content c) block t trs /\ addition_fine (content c) (m_currentHeight c) block t trs.
Proof.
  intros OK Hc [Io Is Ie Ih Ir In' _ [Il Ig]] F2 Ft N Fi.
  assert (Forall (fun tr : TransactionOutputInformationIn => o_id tr = ACCOUNT_OWN_ID /\ globalOutputIndex tr <> UNCONFIRMED_TRANSACTION_GLOBAL_OUTPUT_INDEX /\ is_key tr = true) trs) as Fo.
  { clear -F2 Io Ig Ih. induction F2 as [|x tr idxs trs (out & E & _ & _ & _ & Ei & Eg & Eu) F IH]; constructor; [|exact IH]. split; [exact Ei|].
    rewrite List.Forall_forall in Io, Ig. destruct (Io out) as [(k & Et & _) _]; [apply (list_elem_of_In _ out), list_elem_of_lookup_2 with (Z.to_nat x), E|]. rewrite Et in Eu.
    split; [|unfold is_key; rewrite (proj1 Eu); reflexivity]. unfold global_index in Eg. rewrite (proj2 (Z.eqb_neq _ _)) in Eg by lia. apply Ig, list_elem_of_In, (list_elem_of_lookup_2 _ _ _ Eg). }
  assert (List.filter own trs = trs) as Eo by (apply own_all, (Forall_impl _ _ _ Fo); intros tr H; apply H). assert ((tb_height block =? UNCONFIRMED) = false) as Hu by (apply Z.eqb_neq; lia). split.
  - constructor; [apply (Forall_impl _ _ _ Ft); auto|rewrite Eo; exact N|exact Ie|lia|exact Ir].
  - constructor; [lia|exact In'| |exact Fi]. constructor.
    + apply (Forall_impl _ _ _ Fo). intros tr (_ & Ng & _) _. rewrite Hu. symmetry. apply Z.eqb_neq, Ng.
    + intros _. unfold received. rewrite Eo, List.filter_app. replace (List.filter is_multisig (map (stored block t) trs)) with (@nil TransactionOutputInformationEx); [exact (ok_multisig _ _ (ok_outputs _ OK))|].
      symmetry. clear -Fo. induction Fo as [|tr l (_ & _ & K) F IH]; [reflexivity|]. cbn. replace (is_key (stored block t tr)) with (is_key tr) by reflexivity. rewrite K. exact IH.
Qed.

(** C8: payments arrive.  When the wallet of an account, in a state that satisfies its invariant, sees a block with a new transaction
    that pays the account, all of whose outputs are key outputs with keys that are points of the curve and
    positive amounts, for which the node has the global indices, and whose inputs spend outputs of the account, if any,
    with their amounts and once, then [processTransaction] returns, and the container has received exactly the outputs whose keys the sender made for the address of the
    account, with their amounts and key images; the container stays one of those that satisfy its
    invariant. *)
Theorem payment_arrives a age c s r t block globalIdxs : wallet a age c s -> container_run age c -> sent_with r t -> incoming c block t globalIdxs ->
  (exists n out k, outputs t !! n = Some out /\ In k (output_keys out) /\ key_at a r (Z.of_nat n) = Some k) ->
  exists d R idxs transfers, Forall2 (describes a d R block t globalIdxs ACCOUNT_OWN_ID) idxs transfers /\
    (forall x, In x idxs <-> exists n out k, x = Z.of_nat n /\ outputs t !! n = Some out /\ In k (output_keys out) /\ key_at a r x = Some k) /\
    (inputs_fine (add_received block (received block t transfers) (content c)) (inputs t) ->
      exists s' c' a' D info, processTransaction stray stray_word getGlobalIndices get_messages_from_extra block t s = Returned tt s' /\
        wallet a age c' s' /\ container_run age c' /\ m_currentHeight c' = tb_height block /\
        account_equiv (content c') a' /\ transaction_added (content c) block t (map (stored block t) transfers) D info a').
Proof.
  intros W Run (Br & R & ER & Ex) Inc Pays. pose proof W as [Ha _ _]. pose proof (run_inv age c Run) as [Rp Hc]. pose proof Inc as [Io Is Ie Ih Ir In' Ig [Il Ig']].
  destruct (payments_found stray a t r R block globalIdxs ACCOUNT_OWN_ID Ha Br ER Ex) as (d & idxs & trs & _ & Ef & Iff & Ec & F2 & Ft & N); [| | |exact Is|right; exact Il|].
  { apply (Forall_impl _ _ _ Io). intros out [(k & E & _) _]. unfold one_key, output_keys. rewrite E. reflexivity. }
  { apply (Forall_impl _ _ _ Io). intros out [(k & E & V) _]. unfold output_keys. rewrite E. repeat constructor. exact V. }
  { apply (Forall_impl _ _ _ Io). intros out [_ H]. exact H. }
  exists d, R, idxs, trs. split; [exact F2|]. split; [exact Iff|]. intros Fi.
  assert (idxs <> []) as Ni. { intros E. destruct Pays as (n & out & k & E1 & I & E2). assert (In (Z.of_nat n) idxs) as J by (apply Iff; exists n, out, k; auto). rewrite E in J. exact J. }
  assert ((tb_height block =? UNCONFIRMED) = false) as Hu by (apply Z.eqb_neq; lia).
  destruct (process_one a age c s block t idxs globalIdxs W Ni) as (messages & store & Ws & P);
    [rewrite Ef; destruct idxs; [contradiction|reflexivity]|rewrite Hu; exact Ig|apply (find_key_none ti_transactionHash), In'|]. rewrite Ec in P. cbn [fst] in P.
  destruct (incoming_fine a d R c block t globalIdxs idxs trs (proj2 Rp) ltac:(lia) Inc F2 Ft N Fi) as [Nt Af].
  pose proof (container_add_ok age False _ c block t trs messages 0 (or_introl Af) Rp Nt ltac:(lia)) as A.
  destruct (addTransaction age block t trs messages 0 c) as [|e c'|[added u] c'] eqn:Ea; try contradiction. destruct A as (_ & _ & a' & R' & Eh & _ & A). cbn [fst] in A.
  assert (List.filter own trs = trs) as Eo by (apply own_all; clear -F2; induction F2 as [|x tr l l' (out & _ & _ & _ & _ & Ei & _) F IH]; constructor; assumption).
  destruct added; [|destruct A as (_ & A & _); destruct F2 as [|x tr l l' (out & _ & _ & _ & _ & Ei & _) F]; [congruence|cbn in A; unfold own in A; rewrite Ei in A; discriminate]].
  destruct A as (D & info & _ & A). unfold received in A. rewrite Eo in A. exists (store c'), c', a', D, info. split; [exact P|]. split; [apply Ws|].
  split; [exact (run_add age c block t trs messages 0 (true, u) c' Run Nt Ea)|]. split; [rewrite Eh; unfold height_after; rewrite Hu; reflexivity|]. split; [exact (represents_equiv_content age _ _ R')|exact A].
Qed.

End Crafted.

(** ** Witnesses *)

Lemma key_extra R : bytes_n 32 R -> getTransactionPublicKeyFromExtra (1 :: R) = Some R.
Proof.
  intros [_ L]. unfold getTransactionPublicKeyFromExtra, parseTransactionExtra. cbn [length parse_loop].
  assert (parse_field 1 R = Some (Some (TransactionExtraPublicKey R), [])) as ->; [|destruct (length R); reflexivity].
  unfold parse_field. change (1 =? 0) with false. change (1 =? 1) with true. cbv iota. pose proof (read_app 32 R [] L) as E. rewrite app_nil_r in E.
  cbn [BlockFormat.pod32 binary get]. rewrite E. reflexivity.
Qed.

#[local] Instance scan_codec : Codec := {
  get_block_hash b := [nonce b];
  get_block_longhash _ := Some (repeat 0 32);
  getObjectHash t := extra t;
  getPrefixHash t := extra t;
  getObjectBinarySize _ := 100;
  getPaymentId _ := None
}.
#[local] Instance scan_order : HashOrder := { arrange A l := l; arrange_perm A l := Permutation_refl l }.

Definition demo_account (A B : bytes) : AccountKeys := mk_keys B A w_sec w_sec'.
Definition demo_sent (R : bytes) (out : TransactionOutput) : Transaction := mk_tx 1 0 [] [out] (1 :: R) [].

(** Keys of a demonstration account and of a sender, and the key the sender makes. *)
Lemma demo_keys : exists A B R k, account_keys_ok (demo_account A B) /\ sent_with w_sec (demo_sent R (mk_output 100 (KeyOutput k))) /\ secret_key_to_public_key w_sec = Some (Some R) /\ bytes_n 32 R /\
  valid_key k /\ derivePublicKey [] A B w_sec 0 = Some k.
Proof.
  destruct (public_key_of w_sec w_sec_scalar) as (B & EB & PB). destruct (public_key_of w_sec' w_sec'_scalar) as (A & EA & _).
  assert (account_keys_ok (demo_account A B)) as Ha by (constructor; [exact (conj (proj1 w_sec_scalar) EB)|exact (conj (proj1 w_sec'_scalar) EA)]).
  assert (forall out, sent_with w_sec (demo_sent B out)) as Hs by (intros out; split; [exact (proj1 w_sec_scalar)|exists B; split; [exact EB|exact (key_extra B (encodes_bytes _ _ PB))]]).
  destruct (scans_ok [] (demo_account A B) w_sec _ Ha (Hs (mk_output 100 (KeyOutput [])))) as (R & d & S). destruct (sc_image _ _ _ _ _ _ S 0 ltac:(lia)) as (k & _ & _ & E & V & _).
  exists A, B, B, k. split; [exact Ha|]. split; [exact (Hs _)|]. split; [exact EB|]. split; [exact (encodes_bytes _ _ PB)|]. split; [exact V|exact E].
Qed.

Definition demo_wallet (A B : bytes) : consumer :=
  mk_consumer (mk_start 0 0) w_sec' {[B := mk_subscription (demo_account A B) (mk_start 0 0) 2 empty_container]} {[B]} ∅ [mk_secret_bm ACCOUNT_OWN_ID w_sec' w_sec B].

Lemma demo_wallet_ok A B : account_keys_ok (demo_account A B) -> wallet (demo_account A B) 2 empty_container (demo_wallet A B).
Proof. intros Ha. constructor; [exact Ha|reflexivity|]. exists (mk_start 0 0). reflexivity. Qed.

Lemma payment_arrives_witness : exists A B R k s', derivePublicKey [] A B w_sec 0 = Some k /\
  processTransaction [] 0 (fun _ => (true, [9])) (fun _ _ _ => []) (mk_block_info 5 0 0) (demo_sent R (mk_output 100 (KeyOutput k))) (demo_wallet A B) = Returned tt s'.
Proof.
  destruct demo_keys as (A & B & R & k & Ha & Sent & ER & BR & V & E). set (t := demo_sent R (mk_output 100 (KeyOutput k))).
  destruct (payment_arrives [] 0 (fun _ => (true, [9])) (fun _ _ _ => []) (demo_account A B) 2 empty_container (demo_wallet A B) w_sec t (mk_block_info 5 0 0) [9]) as (d & R' & idxs & trs & _ & _ & P).
  - apply demo_wallet_ok, Ha.
  - apply run_empty.
  - exact Sent.
  - assert (Forall byte (extra t)) as Fe by (apply list.Forall_cons; split; [unfold byte; lia|apply BR]).
    constructor; [|cbn; lia|exact Fe|cbn; unfold WALLET_LEGACY_UNCONFIRMED_TRANSACTION_HEIGHT; lia|constructor|intros []|reflexivity|].
    + apply list.Forall_cons. split; [|constructor]. split; [exists k; auto|reflexivity].
    + split; [cbn; lia|]. apply list.Forall_cons. split; [discriminate|constructor].
  - exists 0%nat, (mk_output 100 (KeyOutput k)), k. repeat split; [left; reflexivity|exact E].
  - destruct P as (s' & _ & _ & _ & _ & P & _); [constructor; constructor|]. exists A, B, R, k, s'. split; [exact E|exact P].
Defined.

Lemma crafted_outputs_witness : exists A B R k s', derivePublicKey [] A B w_sec 0 = Some k /\
  processTransaction [] 0 (fun _ => (true, [9])) (fun _ _ _ => []) (mk_block_info 5 0 0) (demo_sent R (mk_output 100 (MultisignatureOutput [k; k] 1 0))) (demo_wallet A B) = Raised TransferExists s'.
Proof.
  destruct demo_keys as (A & B & R & k & Ha & (Br & R' & ER' & Ex) & ER & BR & V & E).
  destruct (crafted_outputs [] 0 (fun _ => (true, [9])) (fun _ _ _ => []) (demo_account A B) 2 (demo_wallet A B) w_sec (demo_sent R (mk_output 100 (MultisignatureOutput [k; k] 1 0))) k 100) as [T _].
  - apply demo_wallet_ok, Ha.
  - split; [exact Br|]. exists R. split; [exact ER|exact (key_extra R BR)].
  - destruct (T 1 0 eq_refl E ltac:(lia)) as [P _]. destruct (P (mk_block_info 5 0 0) 9 []) as (s' & Es); [cbn; unfold WALLET_LEGACY_UNCONFIRMED_TRANSACTION_HEIGHT; lia|reflexivity|discriminate|].
    exists A, B, R, k, s'. split; [exact E|exact Es].
Defined.
