(* ===== verification/SlowHashSpec.v ===== *)
(** * What the slow hash promises

    Module [CryptoNight] is the definition of the hash in the terms of the standards it
    rests on: the sponge of FIPS 202, the rounds and the key expansion of FIPS 197, and the
    four finishing functions over padded messages.  Every build of the code computes it:
    with AES instructions or tables, with the product instruction or [mul128], and whatever
    the local variables of the finishing functions contain before.  No read of the
    scratchpad is undefined. *)

From Stdlib Require Import ZArith Lia List Bool NArith.
From S2P Require Import Prelude Bytes Keccak IntUtil Aes Blake256 Groestl Jh Skein SlowHash.
From stdpp Require Import base gmap.
Import ListNotations.
Open Scope Z_scope.
Open Scope cmon_scope.
Set Default Goal Selector "!".

(** ** The definition *)

Module CryptoNight.

(** Ten rounds with the first ten of the expanded keys. *)
Definition expand (key : list Z) : list Z := concat (Fips197.KeyExpansion 8 key).
Definition encrypt (key x : list Z) : list Z := fold_left (fun s i => Fips197.round s (round_key i key)) (seq 0 10) x.

(** The block [n] of the scratchpad at first: the initial block [n mod 8] encrypted again and again. *)
Definition initial (key : list Z) (text : nat -> list Z) (n : Z) : list Z :=
  N.iter (Z.to_N (n / 8) + 1) (encrypt key) (text (Z.to_nat (n mod 8))).

Definition write (M : Z -> list Z) (n : Z) (x : list Z) : Z -> list Z := fun i => if i =? n then x else M i.

(** The 21 low bits of a block are an address in bytes. *)
Definition address (x : list Z) : Z := le_val x mod 2 ^ 21 / 16.
Definition half0 (x : list Z) : Z := le_val (firstn 8 x).
Definition half1 (x : list Z) : Z := le_val (skipn 8 x).

(** A turn of the main loop on the registers [a], [b] and the scratchpad. *)
Definition turn (st : list Z * list Z * (Z -> list Z)) : list Z * list Z * (Z -> list Z) :=
  let '(a, b, M) := st in
  let c := Fips197.round (M (address a)) a in
  let M := write M (address a) (xor_list b c) in
  let d := M (address c) in
  let p := half0 c * half0 d in
  let s := le_bytes 8 (half0 a + p / 2 ^ 64) ++ le_bytes 8 (half1 a + p mod 2 ^ 64) in
  (xor_list s d, c, write M (address c) s).

(** The first [n] blocks of column [k] of the scratchpad go into a block. *)
Definition absorbed (key : list Z) (M : Z -> list Z) (n : N) (k : nat) (x : list Z) : list Z :=
  N.recursion x (fun i x => encrypt key (xor_list (M (8 * Z.of_N i + Z.of_nat k)) x)) n.
Definition absorb (key : list Z) (M : Z -> list Z) (k : nat) (x : list Z) : list Z := absorbed key M 16384 k x.

(** The number of turns of the main loop. *)
Definition turns : N := 524288.

Definition core (state : list Z) : list Z :=
  let part n := firstn 16 (skipn n state) in
  let text k := part (64 + 16 * k)%nat in
  let M := initial (expand (firstn 32 state)) text in
  let M := snd (N.iter turns turn (xor_list (part 0%nat) (part 32%nat), xor_list (part 16%nat) (part 48%nat), M)) in
  let key := expand (firstn 32 (skipn 32 state)) in
  firstn 64 state ++ flat_map (fun k => absorb key M k (text k)) (seq 0 8) ++ skipn 192 state.

Definition finish (state : list Z) : list Z :=
  let n := nth 0 state 0 mod 4 in
  if n =? 0 then BlakeSpec.hash (st_h (blake256_init [])) 1 state
  else if n =? 1 then GroestlSpec.hash state
  else if n =? 2 then JhSpec.hash state
  else SkeinSpec.hash 32 state.

Definition hash (data : list Z) : list Z :=
  finish (bytes64 (Fips202.keccak_f (words64 25 (core (bytes64 (Sponge.sponge 136 data)))))).

End CryptoNight.

(** ** Loops *)

Lemma N_iter_ind {A} (P : N -> A -> Prop) (f : A -> A) n x : P 0%N x -> (forall k y, (k < n)%N -> P k y -> P (k + 1)%N (f y)) -> P n (N.iter n f x).
Proof.
  intros H0 HS. assert (forall k, (k <= n)%N -> P k (N.iter k f x)) as H; [|apply H; lia].
  induction k as [|k IH] using N.peano_ind; intros Hk; [exact H0|]. rewrite N.iter_succ, <- N.add_1_r. apply HS; [lia|apply IH; lia].
Qed.

(** A loop whose body is defined where a property of the number of turns holds. *)
Lemma repeat_ind {A} (P : N -> A -> Prop) (f : A -> option A) n x : P 0%N x ->
  (forall k y, (k < n)%N -> P k y -> exists z, f y = Some z /\ P (k + 1)%N z) -> exists z, repeat_step n f x = Some z /\ P n z.
Proof.
  intros H0 HS. apply (N_iter_ind (fun k r => exists z, r = Some z /\ P k z)); [exists x; auto|]. intros k y Hk (z & -> & Pz). cbn [obind]. apply HS; assumption.
Qed.

(** A loop with possibly undefined turns follows a total one. *)
Lemma repeat_refines {A B} (R : A -> B -> Prop) (f : A -> option A) (g : B -> B) n x y : R x y ->
  (forall x y, R x y -> exists x', f x = Some x' /\ R x' (g y)) -> exists x', repeat_step n f x = Some x' /\ R x' (N.iter n g y).
Proof.
  intros H0 HS. apply (repeat_ind (fun k x' => R x' (N.iter k g y))); [exact H0|]. intros k x' _ H. rewrite N.add_1_r, N.iter_succ. apply HS, H.
Qed.

Lemma N_recursion_succ {A} (a : A) f n : N.recursion a f (N.succ n) = f n (N.recursion a f n).
Proof. apply (N.recursion_succ eq); [reflexivity|]. intros ? ? -> ? ? ->. reflexivity. Qed.

(** ** Builds *)

(** What the slow hash relies on of a build. *)
Class Build_ok (B : Build) : Prop := {
  bo_expand key : length key = 32%nat -> Forall byte key -> expand_key key = Some (ExpandAESKey256 key);
  bo_encrypt text key : Forall is_block text -> length key = (16 * 15)%nat -> Forall byte key -> encrypt_text text key = map (CryptoNight.encrypt key) text;
  bo_round s k : is_block s -> is_block k -> one_round s k = Fips197.round s k;
  bo_multiply a b : word64 a -> word64 b -> multiply a b = Some ((a * b) mod 2 ^ 64, a * b / 2 ^ 64)
}.

(** The multiplications of the two kinds of compilers. *)
Definition good_multiply (f : Z -> Z -> option (Z * Z)) : Prop := f = mulq \/ f = mul128.

Lemma good_multiply_ok f a b : good_multiply f -> word64 a -> word64 b -> f a b = Some ((a * b) mod 2 ^ 64, a * b / 2 ^ 64).
Proof.
  intros [-> | ->] Ha Hb; [reflexivity|]. destruct (mul128_ok a b Ha Hb) as (lo & hi & -> & Hl & Hh & E). unfold word64 in *. do 2 f_equal.
  - apply Z.mod_unique with (q := hi); lia.
  - apply Z.div_unique with (r := lo); lia.
Qed.

Lemma encrypt_block key x : length key = (16 * 15)%nat -> Forall byte key -> is_block x -> is_block (CryptoNight.encrypt key x).
Proof.
  intros L F H. unfold CryptoNight.encrypt. apply fold_left_inv; [|exact H]. intros s i Hi Hs. apply in_seq in Hi. apply round_block; [exact Hs|].
  apply (round_key_block i 15); [exact L|exact F|lia].
Qed.

#[global] Instance aesni_ok f : good_multiply f -> Build_ok (aesni_build f).
Proof.
  intros Hf. constructor; cbn [expand_key encrypt_text one_round multiply aesni_build].
  - reflexivity.
  - intros text key Ft L F. unfold CryptoNight.encrypt.
    assert (forall js t, Forall is_block t -> Forall (fun j => (j < 10)%nat) js ->
      fold_left (fun t j => map (fun x => _mm_aesenc_si128 x (expkey key j)) t) js t = map (fun x => fold_left (fun s i => Fips197.round s (round_key i key)) js x) t) as G.
    { induction js as [|j js IH]; intros t Bt Bj; cbn [fold_left]; [symmetry; apply map_id|]. inversion_clear Bj as [|? ? Hj Bj'].
      assert (map (fun x => _mm_aesenc_si128 x (expkey key j)) t = map (fun x => Fips197.round x (round_key j key)) t) as E.
      { apply map_ext_in. intros x Hx. apply aesenc_fips. rewrite List.Forall_forall in Bt. apply Bt, Hx. }
      rewrite E, IH, map_map; [reflexivity| |exact Bj']. apply List.Forall_map. revert Bt. apply List.Forall_impl. intros x Hx.
      apply round_block; [exact Hx|apply (round_key_block j 15); [exact L|exact F|lia]]. }
    apply G; [exact Ft|]. apply List.Forall_forall. intros j Hj. apply in_seq in Hj. lia.
  - intros s k Hs _. apply aesenc_fips, Hs.
  - intros a b Ha Hb. apply good_multiply_ok; assumption.
Qed.

#[global] Instance noaesni_ok f : good_multiply f -> Build_ok (noaesni_build f).
Proof.
  intros Hf. constructor; cbn [expand_key encrypt_text one_round multiply noaesni_build].
  - intros key L F. apply (expansions_agree key L F).
  - intros text key Ft L F. apply map_ext_in. intros x Hx. apply (pseudo_round_fips x key 15); [|exact L|exact F|lia]. rewrite List.Forall_forall in Ft. apply Ft, Hx.
  - intros s k Hs Hk. apply single_round_fips; assumption.
  - intros a b Ha Hb. apply good_multiply_ok; assumption.
Qed.

(** ** The scratchpad *)

(** Every block of the map is that of the definition. *)
Definition mem_is (N : Z) (m : scratchpad) (M : Z -> list Z) : Prop := forall i, 0 <= i < N -> m !! i = Some (M i) /\ is_block (M i).

Lemma mem_write N m M n x : mem_is N m M -> is_block x -> mem_is N (<[n := x]> m) (CryptoNight.write M n x).
Proof.
  intros H Hx i Hi. unfold CryptoNight.write. destruct (Z.eqb_spec i n) as [-> |Ne]; [rewrite lookup_insert_eq; auto|].
  rewrite lookup_insert_ne by congruence. apply H, Hi.
Qed.

Lemma lookup_store text : forall n m i, store_text n text m !! i =
  if (n <=? i) && (i <? n + Z.of_nat (length text)) then Some (nth (Z.to_nat (i - n)) text []) else m !! i.
Proof.
  induction text as [|x text IH]; intros n m i; cbn [store_text length].
  - destruct (Z.leb_spec n i), (Z.ltb_spec i (n + Z.of_nat 0)); cbn [andb]; reflexivity || lia.
  - rewrite IH. destruct (Z.eq_dec i n) as [-> |Ne].
    + rewrite (proj2 (Z.leb_gt (n + 1) n)) by lia. cbn [andb]. rewrite Z.leb_refl, (proj2 (Z.ltb_lt n _)), Z.sub_diag, lookup_insert_eq by lia. reflexivity.
    + rewrite lookup_insert_ne by congruence. destruct (Z.leb_spec (n + 1) i), (Z.leb_spec n i), (Z.ltb_spec i (n + 1 + Z.of_nat (length text))),
        (Z.ltb_spec i (n + Z.of_nat (S (length text)))); cbn [andb]; try reflexivity; try lia. replace (Z.to_nat (i - n)) with (S (Z.to_nat (i - (n + 1)))) by lia. reflexivity.
Qed.

Lemma xor_block_is a b : is_block a -> is_block b -> is_block (xor_list a b).
Proof. intros [La Fa] [Lb Fb]. split; [rewrite xor_list_length, La, Lb; reflexivity|apply xor_list_byte; assumption]. Qed.

Lemma xor_text_spec text : forall n N m M, 0 <= n -> n + Z.of_nat (length text) <= N -> mem_is N m M ->
  xor_text n text m = Some (map (fun j => xor_list (M (n + Z.of_nat j)) (nth j text [])) (seq 0 (length text))).
Proof.
  induction text as [|x text IH]; intros n N m M Hn HN H; cbn [xor_text length seq map] in *; [reflexivity|].
  rewrite (proj1 (H n ltac:(lia))), (IH (n + 1) N m M) by (assumption || lia). cbn [obind]. rewrite Z.add_0_r, <- seq_shift, map_map.
  unfold _mm_xor_si128. do 2 f_equal. apply map_ext. intros j. cbn [nth]. do 2 f_equal. lia.
Qed.

(** ** Blocks and their words *)

Lemma bytes64_block a b : is_block (bytes64 [a; b]).
Proof. split; [apply bytes64_length|apply bytes64_byte]. Qed.

Lemma half_words x : is_block x -> nth 0 (words64 2 x) 0 = CryptoNight.half0 x /\ nth 1 (words64 2 x) 0 = CryptoNight.half1 x.
Proof.
  intros [L _]. split; [reflexivity|]. cbn [words64 nth]. unfold CryptoNight.half1. rewrite firstn_all2 by (rewrite length_skipn, L; lia). reflexivity.
Qed.

Lemma half_word64 x : is_block x -> word64 (CryptoNight.half0 x) /\ word64 (CryptoNight.half1 x).
Proof.
  intros B. destruct (half_words x B) as [<- <-]. pose proof (words64_word 2 x (proj2 B)) as W. cbn [words64 nth] in *. inversion_clear W as [|? ? W0 W']. inversion_clear W' as [|? ? W1 _]. auto.
Qed.

Lemma block_of_halves x : is_block x -> bytes64 [CryptoNight.half0 x; CryptoNight.half1 x] = x.
Proof.
  intros B. pose proof (bytes64_words 2 x (proj2 B) (proj1 B)) as E. destruct (half_words x B) as [H0 H1]. cbn [words64 nth] in *. rewrite H1 in E. exact E.
Qed.

Lemma halves_of_words a b : word64 a -> word64 b -> CryptoNight.half0 (bytes64 [a; b]) = a /\ CryptoNight.half1 (bytes64 [a; b]) = b.
Proof.
  intros Ha Hb. destruct (half_words _ (bytes64_block a b)) as [<- <-].
  pose proof (words64_bytes [a; b]) as E. cbn [length] in E. rewrite E by (constructor; [exact Ha|constructor; [exact Hb|constructor]]). auto.
Qed.

Lemma block_number_spec x : is_block x -> block_number (CryptoNight.half0 x) = CryptoNight.address x /\ 0 <= CryptoNight.address x < 131072.
Proof.
  intros B. unfold block_number, CryptoNight.address, CryptoNight.half0. destruct B as [L F].
  assert (le_val x mod 2 ^ 21 = le_val (firstn 8 x) mod 2 ^ 21) as ->.
  { rewrite <- (firstn_skipn 8 x) at 1. rewrite le_val_app, length_firstn, L. change (256 ^ Z.of_nat (Nat.min 8 16)) with (2 ^ 21 * 2 ^ 43).
    rewrite <- Z.mul_assoc, (Z.mul_comm (2 ^ 21)), Z.mod_add by lia. reflexivity. }
  set (v := le_val (firstn 8 x)). assert (0 <= v mod 2 ^ 21 < 2 ^ 21) as R by (apply Z.mod_pos_bound; lia). split.
  - change 16 with (2 ^ 4). rewrite <- !Z.shiftr_div_pow2, Z.shiftr_land, <- Z.land_ones, Z.shiftr_land by lia. reflexivity.
  - split; [apply Z.div_pos; lia|apply Z.div_lt_upper_bound; lia].
Qed.

(** ** The core *)

Section Refinement.

Context {B : Build} {O : Build_ok B}.

Definition key_ok (key : list Z) : Prop := length key = (16 * 15)%nat /\ Forall byte key.
Definition text_ok (text : list (list Z)) : Prop := length text = 8%nat /\ Forall is_block text.

Lemma encrypt_text_spec text key : text_ok text -> key_ok key ->
  encrypt_text text key = map (CryptoNight.encrypt key) text /\ text_ok (map (CryptoNight.encrypt key) text).
Proof.
  intros [Lt Ft] [Lk Fk]. split; [apply bo_encrypt; assumption|]. split; [rewrite length_map; exact Lt|].
  apply List.Forall_map. revert Ft. apply List.Forall_impl. intros x. apply encrypt_block; assumption.
Qed.

Lemma turn_block k : Z.shiftr (128 * Z.of_N k) 4 = 8 * Z.of_N k.
Proof. rewrite Z.shiftr_div_pow2 by lia. change (2 ^ 4) with 16. replace (128 * Z.of_N k) with (8 * Z.of_N k * 16) by lia. apply Z.div_mul. lia. Qed.

Lemma text_nth text j : text_ok text -> (j < 8)%nat -> is_block (nth j text []).
Proof. intros [L F] H. rewrite List.Forall_forall in F. apply F, nth_In. lia. Qed.

Lemma initial_at key text k j : (j < 8)%nat -> CryptoNight.initial key text (8 * Z.of_N k + Z.of_nat j) = N.iter (k + 1) (CryptoNight.encrypt key) (text j).
Proof.
  intros H. unfold CryptoNight.initial. rewrite Z.mul_comm, Z.div_add_l, (Z.div_small (Z.of_nat j)) by lia.
  rewrite (Z.add_comm (_ * 8)), Z.mod_add, Z.mod_small, Nat2Z.id by lia. do 2 f_equal. lia.
Qed.

(** The first loop. *)
Lemma fill_spec key text : key_ok key -> text_ok text ->
  mem_is 131072 (snd (N.iter text_turns (fill_step key) (0, text, ∅))) (CryptoNight.initial key (fun j => nth j text [])).
Proof.
  intros Hk Ht. pose proof (N_iter_ind (fun k (st : Z * list (list Z) * scratchpad) => fst (fst st) = 128 * Z.of_N k /\
    snd (fst st) = map (N.iter k (CryptoNight.encrypt key)) text /\ text_ok (snd (fst st)) /\
    mem_is (8 * Z.of_N k) (snd st) (CryptoNight.initial key (fun j => nth j text []))) (fill_step key) text_turns (0, text, ∅)) as H.
  destruct H as (_ & _ & _ & F); [| |exact F].
  - split; [reflexivity|]. split; [symmetry; apply map_id|]. split; [exact Ht|]. intros i Hi. cbn in Hi. lia.
  - intros k [[i t] m] _ (Ei & Et & Tt & F). cbn [fst snd] in *. destruct (encrypt_text_spec t key Tt Hk) as [E T']. unfold fill_step. rewrite E. cbn [fst snd].
    assert (map (CryptoNight.encrypt key) t = map (N.iter (k + 1) (CryptoNight.encrypt key)) text) as E2.
    { rewrite Et, map_map. apply map_ext. intros x. rewrite N.add_1_r, N.iter_succ. reflexivity. }
    split; [subst i; unfold INIT_SIZE_BYTE, INIT_SIZE_BLK, AES_BLOCK_SIZE; lia|]. split; [exact E2|]. split; [exact T'|].
    intros i' Hi. rewrite Ei, turn_block, lookup_store, (proj1 T'). destruct (Z.leb_spec (8 * Z.of_N k) i') as [G|G]; cbn [andb]; [|apply F; lia].
    rewrite (proj2 (Z.ltb_lt _ _)) by lia. set (j := Z.to_nat (i' - 8 * Z.of_N k)). assert (j < 8)%nat as Hj by lia. replace i' with (8 * Z.of_N k + Z.of_nat j) by lia.
    rewrite initial_at by exact Hj. assert (nth j (map (CryptoNight.encrypt key) t) [] = N.iter (k + 1) (CryptoNight.encrypt key) (nth j text [])) as <-.
    { rewrite E2, (nth_indep _ [] (N.iter (k + 1) (CryptoNight.encrypt key) [])) by (rewrite length_map, (proj1 Ht); exact Hj). apply map_nth. }
    split; [reflexivity|]. apply text_nth; assumption.
Qed.

(** The registers and the scratchpad of the main loop. *)
Record mix_is (st : mix_state) (r : list Z * list Z * (Z -> list Z)) : Prop := {
  mi_w0 : word64 (ms_a0 st); mi_w1 : word64 (ms_a1 st);
  mi_a : fst (fst r) = bytes64 [ms_a0 st; ms_a1 st]; mi_b : snd (fst r) = ms_b st; mi_block : is_block (ms_b st);
  mi_long : mem_is 131072 (ms_long st) (snd r) }.

Lemma sum_bytes a b : le_bytes 8 (a + b) = le_bytes 8 (u64 (a + b)).
Proof. rewrite u64_mod. rewrite <- (Nat.add_0_r 8), !le_bytes_split. cbn [le_bytes]. rewrite Z.mod_mod by lia. reflexivity. Qed.

Lemma xor_words a b d : is_block d -> xor_list (bytes64 [a; b]) d = bytes64 [Z.lxor a (CryptoNight.half0 d); Z.lxor b (CryptoNight.half1 d)].
Proof.
  intros B'. rewrite <- (block_of_halves d B') at 1. unfold bytes64. cbn [flat_map]. rewrite !app_nil_r, xor_list_app by (rewrite !le_bytes_length; reflexivity).
  rewrite !le_bytes_lxor. reflexivity.
Qed.

Lemma mix_spec st r : mix_is st r -> exists st', mix_step st = Some st' /\ mix_is st' (CryptoNight.turn r).
Proof.
  intros [W0 W1 Ea Eb Bb F]. destruct r as [[a b] M]. cbn [fst snd] in *. subst b. pose proof (bytes64_block (ms_a0 st) (ms_a1 st)) as Ba. rewrite <- Ea in Ba.
  destruct (halves_of_words _ _ W0 W1) as [H0 H1]. rewrite <- Ea in H0, H1. destruct (block_number_spec a Ba) as [Na Ra]. rewrite H0 in Na.
  unfold mix_step, CryptoNight.turn. rewrite Na, H0, H1, (proj1 (F _ Ra)), <- Ea. cbn [obind]. pose proof (proj2 (F _ Ra)) as BM.
  rewrite bo_round by assumption. set (c := Fips197.round (M _) a). assert (is_block c) as Bc by (apply round_block; assumption).
  destruct (half_words c Bc) as [-> _]. destruct (block_number_spec c Bc) as [-> Rc].
  assert (mem_is 131072 (<[CryptoNight.address a := _mm_xor_si128 (ms_b st) c]> (ms_long st)) (CryptoNight.write M (CryptoNight.address a) (xor_list (ms_b st) c))) as F1
    by (apply mem_write; [exact F|apply xor_block_is; assumption]).
  set (M1 := CryptoNight.write _ _ _) in *. rewrite (proj1 (F1 _ Rc)). cbn [obind]. set (d := M1 _) in *. assert (is_block d) as Bd by apply (F1 _ Rc).
  destruct (half_words d Bd) as [-> ->]. rewrite bo_multiply by (apply half_word64; assumption). cbn [obind]. set (p := _ * _). rewrite (sum_bytes (ms_a0 st)), (sum_bytes (ms_a1 st)).
  set (s0 := u64 _). set (s1 := u64 _). assert (le_bytes 8 s0 ++ le_bytes 8 s1 = bytes64 [s0; s1]) as -> by (unfold bytes64; cbn [flat_map]; rewrite app_nil_r; reflexivity).
  eexists. split; [reflexivity|]. constructor; cbn [fst snd ms_a0 ms_a1 ms_b ms_long].
  - apply lxor_word; [apply u64_word|apply half_word64, Bd].
  - apply lxor_word; [apply u64_word|apply half_word64, Bd].
  - apply xor_words, Bd.
  - reflexivity.
  - exact Bc.
  - apply mem_write; [exact F1|apply bytes64_block].
Qed.

(** The last loop. *)
Lemma absorbed_succ key M n k x : CryptoNight.absorbed key M (n + 1) k x = CryptoNight.encrypt key (xor_list (M (8 * Z.of_N n + Z.of_nat k)) (CryptoNight.absorbed key M n k x)).
Proof. unfold CryptoNight.absorbed. rewrite N.add_1_r, N_recursion_succ. reflexivity. Qed.

#[local] Opaque CryptoNight.absorbed.

Lemma fold_spec key m M text : key_ok key -> text_ok text -> mem_is 131072 m M ->
  exists i t, repeat_step text_turns (fold_step key m) (0, text) = Some (i, t) /\
    t = map (fun k => CryptoNight.absorb key M k (nth k text [])) (seq 0 8) /\ Forall is_block t.
Proof.
  intros Hk Ht F. destruct (repeat_ind (fun n (st : Z * list (list Z)) => fst st = 128 * Z.of_N n /\ text_ok (snd st) /\
    snd st = map (fun k => CryptoNight.absorbed key M n k (nth k text [])) (seq 0 8)) (fold_step key m) text_turns (0, text)) as ([i t] & E & _ & T' & Et).
  - split; [reflexivity|]. split; [exact Ht|]. destruct Ht as [L _]. do 8 (destruct text as [|? text]; [discriminate L|]). destruct text; [reflexivity|discriminate L].
  - intros n [i t] Hn (Ei & Tt & Et). cbn [fst snd] in *. unfold fold_step. rewrite Ei, turn_block. assert (Z.of_N n < 16384) as Hb by (change 16384 with (Z.of_N text_turns); lia).
    rewrite (xor_text_spec t (8 * Z.of_N n) 131072 m M) by (rewrite ?(proj1 Tt); exact F || lia). cbn [obind]. rewrite (proj1 Tt).
    set (t' := map _ (seq 0 8)). assert (text_ok t') as T'.
    { split; [apply length_map|]. apply List.Forall_map, List.Forall_forall. intros j Hj. apply in_seq in Hj. apply xor_block_is; [apply F; lia|apply text_nth; [exact Tt|lia]]. }
    destruct (encrypt_text_spec t' key T' Hk) as [E T2]. rewrite E. eexists. split; [reflexivity|]. cbn [fst snd].
    split; [unfold INIT_SIZE_BYTE, INIT_SIZE_BLK, AES_BLOCK_SIZE; lia|]. split; [exact T2|]. unfold t'. rewrite map_map. apply map_ext_in. intros j Hj. apply in_seq in Hj.
    assert (nth j t [] = CryptoNight.absorbed key M n j (nth j text [])) as Ej.
    { rewrite Et, (nth_indep _ [] (CryptoNight.absorbed key M n 0 (nth 0 text []))) by (rewrite length_map, length_seq; lia).
      rewrite (map_nth (fun k => CryptoNight.absorbed key M n k (nth k text []))), seq_nth by lia. reflexivity. }
    rewrite absorbed_succ, Ej. reflexivity.
  - change text_turns with 16384%N in Et. cbn [snd] in Et, T'. exists i, t. split; [exact E|]. split; [|apply T']. unfold CryptoNight.absorb. exact Et.
Qed.

Lemma expand_spec key : length key = 32%nat -> Forall byte key -> expand_key key = Some (CryptoNight.expand key) /\ key_ok (CryptoNight.expand key).
Proof. intros L F. unfold CryptoNight.expand. rewrite <- ExpandAESKey256_fips, bo_expand by assumption. split; [reflexivity|]. apply (expansions_agree key L F). Qed.

Lemma chunk_at n size : forall bs j, (j < n)%nat -> nth j (chunks n size bs) [] = firstn size (skipn (size * j) bs).
Proof.
  induction n as [|n IH]; intros bs [|j] H; cbn [chunks nth]; try lia; [rewrite Nat.mul_0_r; reflexivity|].
  rewrite IH, skipn_skipn by lia. do 2 f_equal. lia.
Qed.

Lemma text_blocks_ok state : length state = 200%nat -> Forall byte state -> text_ok (chunks 8 16 (skipn 64 state)).
Proof.
  intros L F. split; [apply chunks_length|]. apply List.Forall_forall. intros x Hx. apply (In_nth _ _ []) in Hx. destruct Hx as (j & Hj & <-). rewrite chunks_length in Hj.
  rewrite chunk_at, skipn_skipn by exact Hj. split; [rewrite length_firstn, length_skipn; lia|apply firstn_byte, skipn_byte, F].
Qed.

Lemma concat_blocks t : Forall is_block t -> length (concat t) = (16 * length t)%nat /\ Forall byte (concat t).
Proof.
  induction 1 as [|x t [Lx Fx] F [L B']]; cbn [concat length]; [auto|]. rewrite length_app, Lx, L. split; [lia|]. apply Forall_app. auto.
Qed.

Lemma word_at n : forall bs i, (i < n)%nat -> nth i (words64 n bs) 0 = le_val (firstn 8 (skipn (8 * i) bs)).
Proof.
  induction n as [|n IH]; intros bs [|i] H; cbn [words64 nth]; try lia; [reflexivity|]. rewrite IH, skipn_skipn by lia. do 3 f_equal. lia.
Qed.

(** The words of a part of the state. *)
Definition part (state : list Z) (n : nat) : list Z := firstn 16 (skipn n state).

Lemma part_block state n : (n + 16 <= length state)%nat -> Forall byte state -> is_block (part state n).
Proof. intros L F. split; [unfold part; rewrite length_firstn, length_skipn; lia|apply firstn_byte, skipn_byte, F]. Qed.

Lemma part_words state i : (i + 1 < 8)%nat ->
  CryptoNight.half0 (part state (8 * i)) = nth i (words64 8 state) 0 /\ CryptoNight.half1 (part state (8 * i)) = nth (i + 1) (words64 8 state) 0.
Proof.
  intros H. rewrite !word_at by lia. unfold CryptoNight.half0, CryptoNight.half1, part. rewrite firstn_firstn, skipn_firstn_comm, skipn_skipn. split; [reflexivity|].
  replace (8 + 8 * i)%nat with (8 * (i + 1))%nat by lia. reflexivity.
Qed.

(** The registers at the start. *)
Lemma register_spec state i j : length state = 200%nat -> Forall byte state -> (i + 1 < 8)%nat -> (j + 1 < 8)%nat ->
  xor_list (part state (8 * i)) (part state (8 * j)) =
  bytes64 [Z.lxor (nth i (words64 8 state) 0) (nth j (words64 8 state) 0); Z.lxor (nth (i + 1) (words64 8 state) 0) (nth (j + 1) (words64 8 state) 0)].
Proof.
  intros L F Hi Hj. rewrite <- (block_of_halves (part state (8 * i))), xor_words by (apply part_block; [lia|exact F]).
  destruct (part_words state i Hi) as [-> ->], (part_words state j Hj) as [-> ->]. reflexivity.
Qed.

Lemma state_word state i : Forall byte state -> word64 (nth i (words64 8 state) 0).
Proof.
  intros F. pose proof (words64_word 8 state F) as W. destruct (Nat.lt_ge_cases i 8) as [H|H].
  - rewrite List.Forall_forall in W. apply W, nth_In. rewrite words64_length. exact H.
  - rewrite nth_overflow by (rewrite words64_length; exact H). unfold word64. lia.
Qed.

#[local] Opaque CryptoNight.turns text_turns.

(** The core is defined on every state, and is that of the definition. *)
Lemma core_spec state : length state = 200%nat -> Forall byte state ->
  slow_core state = Some (CryptoNight.core state) /\ length (CryptoNight.core state) = 200%nat /\ Forall byte (CryptoNight.core state).
Proof.
  intros L F. unfold slow_core.
  destruct (expand_spec (firstn AES_KEY_SIZE state)) as [-> K1]; [rewrite length_firstn, L; reflexivity|apply firstn_byte, F|]. cbn [obind].
  pose proof (text_blocks_ok state L F) as T. change (chunks INIT_SIZE_BLK 16 (skipn 64 state)) with (chunks 8 16 (skipn 64 state)).
  assert (forall j, (j < 8)%nat -> nth j (chunks 8 16 (skipn 64 state)) [] = part state (64 + 16 * j)) as Et
    by (intros j Hj; rewrite chunk_at, skipn_skipn by exact Hj; unfold part; do 2 f_equal; lia).
  set (text := chunks 8 16 (skipn 64 state)) in *. pose proof (fill_spec _ text K1 T) as Fm.
  destruct (N.iter text_turns _ (0, text, ∅)) as [[i0 t0] m]. cbn [snd] in Fm.
  assert (mem_is 131072 m (CryptoNight.initial (CryptoNight.expand (firstn 32 state)) (fun k => part state (64 + 16 * k)))) as Fm'.
  { intros i Hi. replace (CryptoNight.initial _ _ i) with (CryptoNight.initial (CryptoNight.expand (firstn AES_KEY_SIZE state)) (fun j => nth j text []) i); [apply Fm, Hi|].
    unfold CryptoNight.initial. pose proof (Z.mod_pos_bound i 8 ltac:(lia)). rewrite Et by lia. reflexivity. }
  cbn [seq map nth Nat.add]. set (start := mk_mix _ _ _ _).
  assert (mix_is start (xor_list (part state 0) (part state 32), xor_list (part state 16) (part state 48), CryptoNight.initial (CryptoNight.expand (firstn 32 state)) (fun k => part state (64 + 16 * k)))) as M0.
  { pose proof (fun i => state_word state i F) as W. unfold start. constructor; cbn [ms_a0 ms_a1 ms_b ms_long fst snd]; [apply lxor_word; apply W..| | |apply bytes64_block|exact Fm'].
    - exact (register_spec state 0 4 L F ltac:(lia) ltac:(lia)).
    - exact (register_spec state 2 6 L F ltac:(lia) ltac:(lia)). }
  destruct (repeat_refines mix_is mix_step CryptoNight.turn CryptoNight.turns _ _ M0 mix_spec) as (st & E & [_ _ _ _ _ Fl]).
  change 0x80000%N with CryptoNight.turns. rewrite E. cbn [obind].
  destruct (expand_spec (firstn AES_KEY_SIZE (skipn 32 state))) as [-> K2]; [rewrite length_firstn, length_skipn, L; reflexivity|apply firstn_byte, skipn_byte, F|]. cbn [obind].
  destruct (fold_spec _ (ms_long st) _ text K2 T Fl) as (i & t & -> & E2 & Ft). cbn [obind].
  assert (CryptoNight.core state = firstn 64 state ++ concat t ++ skipn 192 state) as ->.
  { unfold CryptoNight.core. fold (part state). rewrite flat_map_concat_map. do 3 f_equal. rewrite E2. apply map_ext_in. intros j Hj. apply in_seq in Hj. rewrite Et by lia. reflexivity. }
  split; [reflexivity|]. destruct (concat_blocks t Ft) as [Lc Fc]. rewrite E2, length_map, length_seq in Lc.
  split; [rewrite !length_app, length_firstn, length_skipn, L, E2, Lc; reflexivity|]. apply Forall_app. split; [apply firstn_byte, F|]. apply Forall_app. split; [exact Fc|apply skipn_byte, F].
Qed.

End Refinement.

(** ** The finishing functions *)

(** The local variables have the sizes of their types. *)
Record stack_ok (g : stack) : Prop := {
  so_blake : length (blake_buf g) = 64%nat;
  so_groestl : length (groestl_buf g) = 64%nat;
  so_jh : length (jh_buf g) = 64%nat;
  so_skein : length (b (skein_ctx g)) = 64%nat }.

Definition blake256_iv : list Z := st_h (blake256_init []).
Definition blake224_iv : list Z := st_h (blake224_init []).

Lemma blake_spec buf data : length buf = 64%nat -> Z.of_nat (length data) < 2 ^ 61 ->
  blake256_hash buf data = BlakeSpec.hash blake256_iv 1 data /\ blake224_hash buf data = BlakeSpec.hash blake224_iv 0 data.
Proof. intros L B. split; apply hash_spec; (exact L || lia || reflexivity). Qed.

Lemma compress_end_length s v h : length (compress_end h s v) = length h.
Proof.
  unfold compress_end. apply (fold_left_inv (fun u => length u = length h)); [intros u i _ <-; apply set_nth_length|].
  apply (fold_left_inv (fun u => length u = length h)); [intros u i _ <-; apply set_nth_length|reflexivity].
Qed.

Lemma over_blocks_length f n : (forall h i block, length (f h i block) = length h) ->
  forall h i data, length (BlakeSpec.over_blocks f h i n data) = length h.
Proof. intros Hf. induction n as [|n IH]; intros h i data; cbn [BlakeSpec.over_blocks]; [reflexivity|]. rewrite IH. apply Hf. Qed.

Lemma blake_digest iv mark data : length iv = 8%nat -> length (BlakeSpec.hash iv mark data) = 32%nat.
Proof.
  intros L. unfold BlakeSpec.hash, BlakeSpec.iterate. set (l := BlakeSpec.over_blocks _ _ _ _ _). assert (length l = 8%nat) as Ll.
  { unfold l. rewrite over_blocks_length; [exact L|]. intros h i block. apply compress_end_length. }
  clearbody l. do 8 (destruct l as [|? l]; [discriminate Ll|]). reflexivity.
Qed.

#[local] Opaque BlakeSpec.hash GroestlSpec.hash JhSpec.hash SkeinSpec.hash blake256_hash hash_extra_groestl hash_extra_jh hash_extra_skein.

Lemma finish_digest state : length (CryptoNight.finish state) = 32%nat.
Proof.
  unfold CryptoNight.finish. destruct (_ =? 0); [apply blake_digest; reflexivity|]. destruct (_ =? 1); [apply groestl_digest|]. destruct (_ =? 2); [apply jh_digest|apply skein_digest].
Qed.

Lemma extra_hashes_spec g state : stack_ok g -> Z.of_nat (length state) < 2 ^ 31 -> extra_hashes g (Z.land (nth 0 state 0) 3) state = Some (CryptoNight.finish state).
Proof.
  intros [H1 H2 H3 H4] S. assert (Z.of_nat (length state) < 2 ^ 61) as B by lia. unfold extra_hashes, CryptoNight.finish. change 3 with (Z.ones 2). rewrite Z.land_ones by lia. change (2 ^ 2) with 4.
  destruct (_ =? 0); [unfold hash_extra_blake; rewrite (proj1 (blake_spec _ state H1 B)); reflexivity|]. destruct (_ =? 1); [rewrite groestl_spec by assumption; reflexivity|].
  destruct (_ =? 2); [apply jh_spec|rewrite skein_spec by assumption; reflexivity]; assumption.
Qed.

#[local] Opaque CryptoNight.core CryptoNight.finish slow_core.

Lemma inl_spec {B : Build} {O : Build_ok B} g data : stack_ok g -> Z.of_nat (length data) < 2 ^ 31 -> cn_slow_hash_inl g data = Some (CryptoNight.hash data).
Proof.
  intros Hg Hl. unfold cn_slow_hash_inl, hash_process, CryptoNight.hash. rewrite (keccak1600_spec data Hl). cbn [obind].
  assert (length (Sponge.sponge 136 data) = 25%nat) as L by (unfold Sponge.sponge; apply (fold_left_inv (fun s => length s = 25%nat)); [intros; apply absorb_length|reflexivity]).
  destruct (core_spec (bytes64 (Sponge.sponge 136 data))) as (-> & _ & _); [rewrite bytes64_length, L; reflexivity|apply bytes64_byte|]. cbn [obind].
  assert (hash_permutation (words64 25 (CryptoNight.core (bytes64 (Sponge.sponge 136 data)))) = Fips202.keccak_f (words64 25 (CryptoNight.core (bytes64 (Sponge.sponge 136 data))))) as ->
    by apply keccakf_fips, words64_length.
  apply extra_hashes_spec; [exact Hg|]. rewrite bytes64_length, <- keccakf_fips, keccakf_length by (rewrite ?words64_length; reflexivity). reflexivity.
Qed.

(** ** The theorems *)

(** C18: The slow hash is CryptoNight: for every input shorter than [2^31] bytes and every build - AES
    instructions or tables, as the processor has them ([ecx]), the product instruction or [mul128] - and
    whatever the local variables of the finishing functions contain, [cn_slow_hash_f] is defined (no read
    of the scratchpad is undefined, no assertion fails) and gives the 32 bytes that the definition over
    FIPS 202, FIPS 197 and the padded messages of the finishing functions gives. *)
Theorem slow_hash_is_cryptonight data : Z.of_nat (length data) < 2 ^ 31 ->
  length (CryptoNight.hash data) = 32%nat /\
  forall ecx multiply g, good_multiply multiply -> stack_ok g -> cn_slow_hash_f ecx multiply g data = Some (CryptoNight.hash data).
Proof.
  intros L. split; [apply finish_digest|]. intros ecx f g Hf Hg. unfold cn_slow_hash_f, cn_slow_hash_fp.
  destruct (negb _); [apply (inl_spec (O := aesni_ok f Hf))|apply (inl_spec (O := noaesni_ok f Hf))]; assumption.
Qed.

Definition clean : stack := mk_stack (repeat 0 64) (repeat 0 64) [] (repeat 0 64) (mk_ctxt 0 0 0 0 [] (repeat 0 64)).
Definition dirty : stack := mk_stack (repeat 1 64) (repeat 2 64) [3] (repeat 4 64) (mk_ctxt 5 6 7 8 [9] (repeat 10 64)).

(** Two builds and two stacks give one hash. *)
Lemma slow_hash_witness : cn_slow_hash_f 0x2000000 mulq clean [1; 2; 3] = cn_slow_hash_f 0 mul128 dirty [1; 2; 3] /\ length (CryptoNight.hash [1; 2; 3]) = 32%nat.
Proof.
  destruct (slow_hash_is_cryptonight [1; 2; 3] eq_refl) as [L H].
  exact (conj (eq_trans (H 0x2000000 mulq clean (or_introl eq_refl) (Build_stack_ok clean eq_refl eq_refl eq_refl eq_refl))
    (eq_sym (H 0 mul128 dirty (or_intror eq_refl) (Build_stack_ok dirty eq_refl eq_refl eq_refl eq_refl)))) L).
Defined.

(** C36: The finishing functions are the hash functions they are named after: on every input whose length in bits fits a
    64-bit word (for Groestl, whose length is an [int], on every input below [2^31] bytes), with whatever contents of
    the buffers before, BLAKE-256 and BLAKE-224, Groestl-256, JH-256 and Skein-512-256 cut the message into blocks, pad it, count and chain as their definitions say; JH reads
    no byte behind its input, and the chain values of Skein in the table come from its configuration block. *)
Theorem finishing_hashes_exact g data : stack_ok g -> Z.of_nat (length data) < 2 ^ 61 ->
  hash_extra_blake (blake_buf g) data = BlakeSpec.hash blake256_iv 1 data /\
  blake224_hash (blake_buf g) data = BlakeSpec.hash blake224_iv 0 data /\
  (Z.of_nat (length data) < 2 ^ 31 -> hash_extra_groestl (groestl_buf g) data = GroestlSpec.hash data) /\
  hash_extra_jh (jh_x g) (jh_buf g) data = Some (JhSpec.hash data) /\
  hash_extra_skein (skein_ctx g) data = SkeinSpec.hash 32 data.
Proof.
  intros [H1 H2 H3 H4] B. destruct (blake_spec _ data H1 B) as [E1 E2]. split; [exact E1|]. split; [exact E2|].
  split; [intros S; apply groestl_spec; assumption|]. split; [apply jh_spec; assumption|apply skein_spec; assumption].
Qed.

Lemma finishing_hashes_witness : hash_extra_groestl (groestl_buf dirty) [0xcc] = GroestlSpec.hash [0xcc] /\ hash_extra_skein (skein_ctx dirty) [0xcc] = SkeinSpec.hash 32 [0xcc].
Proof.
  destruct (finishing_hashes_exact dirty [0xcc] (Build_stack_ok dirty eq_refl eq_refl eq_refl eq_refl) eq_refl) as (_ & _ & G & _ & S). exact (conj (G eq_refl) S).
Defined.
